(* ===== verification/_CoqProject ===== *)
-Q . S2P
Prelude.v
GoStrings.v
GoPath.v
Glob.v
Paths.v
Input.v
Syntax.v
Dynamic.v
ShellConf.v
Runner.v
Expand.v
Redirect.v
Commands.v
Shell.v
ShellFrame.v
Session.v
SshWire.v
SshMessages.v
SshChannel.v
SshMux.v
GitPath.v
GitRequest.v
GitConfig.v
GitServer.v
GitSession.v
GitBackend.v
GitSsh.v
GoEncoding.v
Logging.v
GoFloat.v
AppConf.v
Auth.v
SshAlgos.v
SshAuth.v
RateLimit.v
Server.v
GoIO.v
RootPaths.v
RootTar.v
RootZip.v
RootFS.v
Poly1305.v
GoCrypto.v
SshCipher.v
SshTransport.v
KexLib.v
SshKex.v
SshHandshake.v
SshRekey.v
SshKeys.v
GoNet.v
SshSigners.v
SshCerts.v
KeyFiles.v
KnownHosts.v
Bcrypt.v
PrivKeys.v
HostKeys.v
ClientAuth.v
ClientLogin.v
ClientSession.v
