(* ===== verification/Prelude.v ===== *)
(** * fakessh: a verification development

    fakessh (Go) is an SSH honeypot.  A client that gets in talks to a fake shell
    ([modules/fakeshell]) over an SSH channel, or to a git server
    ([modules/gitserver]).  Nothing the client sends may reach the host: the
    shell parses a small language, runs built-in fakes over a read-only in-memory
    filesystem, and keeps bounded per-session state.  This development translates
    the program's own logic into executable Rocq functions and proves what makes
    it correct.

    ** Conventions

    A Go string or byte slice is a list of bytes ([gostring]); [int] and [int64]
    values that are lengths, counts or statuses are [Z], in ranges the theorems
    bound, so they do not overflow; the byte arithmetic of UTF-8 and the parsing
    of decimal numbers ([Atoi], with its 64-bit range) are written out.  A
    fallible function returns [res A]: a value or an [error] with its message and
    the sentinels [errors.Is] finds in it.  A Go map is a [gmap]; where the code
    ranges over one, the order is a parameter.  Code that is not in the
    repository or is the environment is a parameter: Unicode case tables
    ([UnicodeTables]), the read operations of afero ([Fs]), the outcome of channel
    writes, the clock and map iteration order ([Host]), [os.Lstat], the syntax of
    floats and durations ([GoNumbers]; [float64] values are exact), signatures
    ([SigLib], and behind the interfaces [SSHKeys] and [KeyLib] of the components that
    only use keys), PEM and ASN.1, IP addresses ([NetLib]), token buckets ([RateLib],
    with the laws they document in [RateLaws]).  Where
    goroutines interact, the component is a step relation whose steps are the
    atomic actions: what a mutex protects is one step.  Where one goroutine runs
    alone, mutexes are not modelled.

    ** Files

    - [Prelude]: byte strings, results, errors, automation, list lemmas (this file).
    - [GoStrings]: packages utf8, unicode, strings, strconv and sort, as used.
    - [GoPath], [Glob]: package path; [Glob] proves that [Match], which commits to
      the first fit of each chunk, agrees with the declarative reading of a pattern.
    - [Paths]: [cmds/path.go], resolution of fake paths.
    - [Input]: [input.go], command boundaries in the byte stream and input bounds.
    - [Syntax]: [syntax.go], tokenizer and parser; an index into the input becomes
      the suffix from there.
    - [Dynamic]: [cmds/dynamic.go], the per-session metadata store.
    - [ShellConf]: [conf/config.go] and [modules/opt.go].
    - [Runner]: [cmds/types.go] and [cmds/profile.go]: the [World] a command acts on
      (runner, shared counting writers, bytes sent, event log) and the state monad
      [M] of commands.
    - [Expand]: [syntax_expand.go], variables, globs and environments; cleanup
      closures are the data they capture.
    - [Redirect]: [syntax_expand.go], fake redirections.
    - [Commands]: [cmds/base.go] and [cmds/recon.go], the built-ins.
    - [Shell]: [fakeshell.go], execution and the run loop as a step function on
      [LoopState].
    - [ShellFrame], [Session]: what commands can change, and the theorems about whole
      sessions.
    - [SshWire], [SshMessages]: [third/ssh/messages.go], Marshal and Unmarshal over
      struct types, every message and [decode]; the class [Message] ties a Go struct
      to its fields.
    - [SshChannel], [SshMux]: [channel.go], [buffer.go], the windows of [common.go]
      and [mux.go]: channels and the packet loop as a step relation; a Go channel is
      a list, a sender beyond its capacity is blocked.
    - [GoIO]: readers with their outcomes, and little-endian numbers.
    - [Poly1305]: [third/ssh/internal/poly1305], the authenticator in 64-bit limbs.
    - [GoCrypto], [SshCipher]: [cipher.go] and [mac.go]: stream, GCM, CBC and ChaCha20
      packet ciphers over an interface of cryptographic primitives with their laws
      ([CryptoLib], [CryptoLaws]); CTR and CBC are written out.
    - [SshTransport]: [transport.go] and the responses of [fakessh_antiscan.go]: sequence
      numbers, key derivation and key changes, version lines.
    - [KexLib], [SshKex]: [kex.go] and [mlkem.go], both sides of the five families of key
      exchange; a side is a tree of what it sends, receives and asks of its transport, so
      that the peer is arbitrary.  Groups, curves, X25519 and ML-KEM are the class [KexLib]
      with the laws of [KexLaws].
    - [SshHandshake]: [enterKeyExchange] of [handshake.go] with negotiation, host keys and
      the change of keys; [SshRekey]: the goroutines of a [handshakeTransport] as a step
      relation over the read loop, the key exchange loop and the writers.
    - [SshKeys], [SshSigners], [SshCerts]: [keys.go] and [certs.go]: every type of public key
      and certificates with their wire formats and verification; signers and their
      algorithms; the checks of a [CertChecker] and the signing of certificates.
    - [GoNet]: host and port of an address, as package net splits them.
    - [KeyFiles]: the authorized_keys and known_hosts entries of [keys.go];
      [KnownHosts]: [knownhosts/knownhosts.go], the lines of known_hosts files and the
      host key callback made of them.
    - [Bcrypt], [PrivKeys], [HostKeys]: [internal/bcrypt_pbkdf], the OpenSSH format of private
      keys, [ParsePrivateKey], and the host keys of the server ([key.go], the start of
      [main], [utils/utils.go]).
    - [ClientAuth]: [client_auth.go], the user authentication of a client with all its
      methods, in a state monad with the outcomes of Go and a log of packets;
      [ClientLogin]: that client against [serverAuthenticate]; [ClientSession]:
      [session.go] and the handlers of [client.go], as a step relation over the caller, the
      reader of requests, the copies and the goroutine behind the pipe of standard input.
    - [RootPaths], [RootTar], [RootZip], [RootFS]: [rootfs.go], loading of the root
      filesystem: entry names and node counter; stacked readers and the tar loop;
      the zip preflight and entries; the directory walk and [LoadRootFS].  The
      operating system ([RootHost]), afero ([OutFs]), archive/tar, archive/zip and
      compress/gzip are interfaces with the laws the loaders rely on.
    - [GitPath]: [gitserver/path.go], canonical repository paths.
    - [GitRequest]: [gitserver/request.go], tokenizing and parsing of exec commands.
    - [GitConfig]: [gitserver/config.go]; validation returns the updated
      configuration and the error, since it works in place.
    - [GitServer]: [gitserver/auth.go], [Authorize] and [ResolveLocalRepo] of
      [request.go], [shell_unix.go] and the construction of backend commands; the
      classes [SSHKeys] and [HostFS] (with [HostFSLaws]) stand for the SSH key
      operations and for the host's file system and users.
    - [GitSession]: [HandleSession] of [gitserver/server.go] as a step relation over
      its goroutines, labelled with what the environment does, with the actions it performs
      as a trace; exit status, return and close are steps of their own.
    - [GitBackend]: slots ([auth.go], [serveLocal]) and the life of a child process
      ([backend_local_lifecycle.go]), also as step relations; [GitSsh]: [serveSSH] of
      [backend_ssh.go] with its goroutines, the one that the session starts to read the
      frontend included, and what it does to the connection.
    - [GoEncoding], [Logging]: packages base64 and json and the format of times, as
      used; [logging.go], the bounded session log, with the outcome of every write as
      a parameter.
    - [GoFloat], [AppConf]: [conf/conf.go], [flags.go], [set_utils.go], [default.go]
      and [utils/rateconf.go]: defaults, validation, merging of the command line.
    - [Auth]: password authentication and anti-scan behaviour ([main.go],
      [antiscan.go], [third/ssh/fakessh_antiscan.go]).
    - [SshAlgos]: algorithm names, tables, negotiation and defaults.
    - [SshAuth]: [serverAuthenticate] of [third/ssh/server.go] with all its methods,
      in a state monad with fatal errors.
    - [RateLimit]: [rate.go].
    - [Server]: [ssh.go] and the callbacks of [main.go]: accept loop and connection
      handlers as a step relation that uses [SshAuth], [Auth], [GitServer] and
      [RateLimit].

    ** What the theorems show

    Syntax: the parser is total, accepts only well-formed lines without
    substitution, and inverts quoting.  Paths: resolution is confined to the fake
    root, exactly characterised and idempotent.  Store: it refines an
    insertion-ordered list with unique paths and is bounded in every reachable
    state.  Expansion: command variables are restored exactly, the session
    environment is bounded but for [PWD], pathname expansion is exact.  Redirections: they apply
    entirely or not at all and record bounded sizes.  Commands: touched files are
    visible, listings exact, and no command changes more than its frame.  Session:
    whatever the client sends, the loop terminates on finite input, keeps the
    session invariant and its own bounds, logs start, commands and end, and fails
    closed when set-up failed.  Two theorems record deviations from comments
    in the code: [PWD] can be set to anything, and then a redirection can be
    half applied.

    Root filesystem: a tar stream and a zip archive load exactly when they are within
    every cap and hold only directories and regular files under acceptable names, and
    the result is exactly their tree; the zip preflight is characterised by the layout of
    the file; the directory walk ends on every host, leaves no file open and stays
    within the cap.

    Git server: repository names are characterised exactly and normal forms are
    fixed points; parsed commands are one of three services and print back;
    validated configurations are valid and stable; a key gets in iff the key file
    declares it, and a request is authorised iff the configuration says so;
    resolved repositories stay under the root; backend commands carry one quoted
    path.  A session shows one of two traces, at most one backend per session, and
    serves clients that follow the protocol in every run that is not disturbed.  Local processes are bounded in number,
    reaped exactly once and never signalled afterwards, and waiting for them ends; the
    SSH backend is the configured one, gets one command, and is left closed, with at most the reader of the frontend still running.

    SSH library: messages are decoded to what was encoded and to values of their Go
    types; a channel stays within the windows of both sides in every interleaving,
    sends nothing after its close, and writes all data in order; both ends negotiate
    the same algorithms; authentication ends, bounds the rejected attempts, and
    succeeds only on a request whose user, with the password or key in it, a callback
    accepted, with a valid signature for a key; the one-time authenticator computes the polynomial it stands for; a packet
    cipher accepts exactly the frames of its keys, a conversation with key changes is
    read as it was written, and reading ends without a panic on every input and answers
    as configured.  Two honest ends of a key exchange agree on hash, secret and session,
    any other peer can at most make it fail, the hash binds the transcript, and a client
    changes keys only after the host key was verified and accepted; in every interleaving
    of the goroutines the queue of packets is bounded and in order, and only messages of
    the exchange go out while it runs.  One theorem shows that rejecting a channel can drop another.
    Keys: public keys, certificates and private keys are read back as written, and what is
    read passed every check; good signers sign what their key verifies; a certificate is
    accepted exactly when its contents, its authority and the time allow it; key files
    yield the key of the first line that has one; the known hosts callback decides as the
    lines say; the server starts only with the signers of its configured or generated keys.
    Clients: a client signs only for keys the server acknowledged, believes in success only
    on the server's word, and logs in to a server that accepts its key; a session starts one
    command, and [Wait] reports exactly how it ended.

    Server: passwords are accepted as configured, never for the git user, and the
    delay does not depend on the outcome; merging flags does not depend on their
    order; connections are counted exactly and within their limits; a request takes
    tokens from all buckets or none, and cleaning up buckets is invisible; a git
    session needs a key that was accepted and proved.

    Log: it never exceeds its limits, whatever is logged and however writes fail; it
    is a sequence of records; nothing is lost before a limit; a logged command can be
    read back.

    ** Fuel

    Recursions that are not structural take fuel: the length of the input for the
    tokenizer, the parser, rune loops and variable expansion (each round consumes
    at least a byte or token; [parseShellLine_total] shows that the parser never
    runs out), three per input byte and packet plus two for the run loop
    ([RunLoop_terminates]), one more than the 128 attempts for authentication
    ([serverAuthenticate_bounded]), the packets left for a GSS-API exchange
    ([gss_rounds_returns]), and in the root filesystem loaders two more than the cap of
    10000 nodes or headers and the bytes asked for ([LoadRootFS_safe] shows that none
    runs out), one more than the bytes received for skipping ignored packets
    ([readPacket_correct]), the bytes available for drawing a private number, nine
    messages for a key exchange between two honest ends ([kex_agreement]), two levels for
    the key inside a certificate ([ParsePublicKey_correct]), the lines of a key file, the
    block size for padding, and for a client one more than the 64 attempts, one round per packet read, twice the signers, and a parameter for retries without
    a limit.

    ** Not modelled

    The build without git server ([gitserver.Embedded] is taken as true).  Rounding of
    [float64]: the success ratio is compared with exact fractions.  Panics that earlier checks
    exclude: a nil entry in the list of users ([CheckConfig] refuses it) and a nil authority
    in a certificate.  Reading from a channel and giving back the window is one step.
    The creation of log files, the pipes of the local git backend, deadlines and timers of
    connections, and of the vendored SSH library ([third/ssh]) the cryptographic primitives,
    forwarding, the agent, and the set-up of client connections and control sockets. *)From Stdlib Require Import Ascii String ZArith Lia.
From stdpp Require Import base gmap strings list sorting.
#[export] Set Warnings "-clear-no-such-hyp".

(** ** Go strings

    A Go [string] or [[]byte] is a sequence of bytes: a list of 8-bit
    characters.  [go] turns a literal into one. *)
Abbreviation gostring := (list ascii).

Definition go (s : string) : gostring := list_ascii_of_string s.

(** The numeric value of a byte, in [0, 256). *)
Definition bv (a : ascii) : Z := Z.of_N (N_of_ascii a).

(** The byte of a value, taken modulo 256. *)
Definition vb (z : Z) : ascii := ascii_of_N (Z.to_N (z mod 256)).

(** [len(s)] as the [int] the code compares with its limits. *)
Definition len {A} (l : list A) : Z := Z.of_nat (length l).

(** String comparison [x == y]. *)
Definition gos_eqb (x y : gostring) : bool := bool_decide (x = y).

Lemma gos_eqb_eq x y : gos_eqb x y = true <-> x = y.
Proof. apply bool_decide_eq_true. Qed.

Lemma gos_eqb_neq x y : gos_eqb x y = false <-> x <> y.
Proof. apply bool_decide_eq_false. Qed.

Lemma gos_eqb_spec x y : reflect (x = y) (gos_eqb x y).
Proof. apply iff_reflect. symmetry. apply gos_eqb_eq. Qed.
Lemma gos_eqb_refl x : gos_eqb x x = true.
Proof. by apply gos_eqb_eq. Qed.

Declare Scope go_scope.
Delimit Scope go_scope with go.
Infix "=c" := Ascii.eqb (at level 70, no associativity) : go_scope.
Infix "=s" := gos_eqb (at level 70, no associativity) : go_scope.
Notation "a <=c b" := (Z.leb (bv a) (bv b)) (at level 70, no associativity) : go_scope.
Open Scope go_scope.

(** Characters that need a code: the other ones are written as literals. *)
Definition chNUL : ascii := "000".
Definition chTAB : ascii := "009".
Definition chNL : ascii := "010".
Definition chVT : ascii := "011".
Definition chFF : ascii := "012".
Definition chCR : ascii := "013".
Definition chDQ : ascii := "034".
Definition chSQ : ascii := "039".
Definition chBS : ascii := "092".
Definition chDEL : ascii := "127".

(** ** Results of fallible functions *)
Inductive result (E A : Type) : Type :=
| Ok (a : A)
| Err (e : E).
Arguments Ok {E A} a.
Arguments Err {E A} e.

#[export] Instance result_ret {E} : MRet (result E) := fun A a => Ok a.
#[export] Instance result_bind {E} : MBind (result E) :=
  fun A B f r => match r with Ok a => f a | Err e => Err e end.

Definition is_ok {E A} (r : result E A) : bool :=
  match r with Ok _ => true | Err _ => false end.

(** ** Error values

    A Go error is what the code observes of it: its message and the sentinels
    [errors.Is] finds in its chain. *)
Inductive sentinel :=
| ErrSyntaxParse | ErrSyntaxLimit | ErrExit.

#[export] Instance sentinel_eq_dec : EqDecision sentinel.
Proof. solve_decision. Defined.

Record error := Error { err_is : list sentinel; err_msg : gostring }.

#[export] Instance error_eq_dec : EqDecision error.
Proof. solve_decision. Defined.

Definition errors_New (msg : gostring) : error := Error [] msg.
Definition errors_Is (e : error) (s : sentinel) : bool := bool_decide (s ∈ err_is e).

(** [fmt.Errorf("prefix%w", e)]: the chain is kept, the message is prefixed. *)
Definition errors_wrap (prefix : gostring) (e : error) : error :=
  Error (err_is e) (prefix ++ err_msg e).

Abbreviation res := (result error).

(** ** Machine integers *)
Definition int64_min : Z := - 2 ^ 63.
Definition int64_max : Z := 2 ^ 63 - 1.
Definition in_int64 (z : Z) : bool := (int64_min <=? z)%Z && (z <=? int64_max)%Z.

(** ** Automation *)
Create HintDb go.

(** Case analysis on a [result] bind or an [if] whose outcome is known. *)
Ltac inv_ok :=
  repeat match goal with
  | H : Ok _ = Ok _ |- _ => injection H as H; try subst
  | H : Err _ = Err _ |- _ => injection H as H; try subst
  | H : Some _ = Some _ |- _ => injection H as H; try subst
  | H : (_, _) = (_, _) |- _ => injection H as; try subst
  | H : Ok _ = Err _ |- _ => discriminate H
  | H : Err _ = Ok _ |- _ => discriminate H
  | H : Some _ = None |- _ => discriminate H
  | H : None = Some _ |- _ => discriminate H
  | H : true = false |- _ => discriminate H
  | H : false = true |- _ => discriminate H
  end.

(** Destructs the head [match]/[if] of hypothesis [H], keeping its equation. *)
Ltac step_in H :=
  match type of H with
  | context [match ?x with _ => _ end] => destruct x eqn:?; simpl in H; inv_ok; try done
  end.

Ltac bool_simp :=
  repeat match goal with
  | H : andb _ _ = true |- _ => apply andb_true_iff in H as [? ?]
  | H : orb _ _ = false |- _ => apply orb_false_iff in H as [? ?]
  | H : negb _ = true |- _ => apply negb_true_iff in H
  | H : negb _ = false |- _ => apply negb_false_iff in H
  | H : bool_decide _ = true |- _ => apply bool_decide_eq_true in H
  | H : bool_decide _ = false |- _ => apply bool_decide_eq_false in H
  | H : gos_eqb _ _ = true |- _ => apply gos_eqb_eq in H
  | H : gos_eqb _ _ = false |- _ => apply gos_eqb_neq in H
  | H : Ascii.eqb _ _ = true |- _ => apply Ascii.eqb_eq in H
  | H : Ascii.eqb _ _ = false |- _ => apply Ascii.eqb_neq in H
  | H : Z.leb _ _ = true |- _ => apply Z.leb_le in H
  | H : Z.leb _ _ = false |- _ => apply Z.leb_gt in H
  | H : Z.eqb _ _ = true |- _ => apply Z.eqb_eq in H
  | H : Z.eqb _ _ = false |- _ => apply Z.eqb_neq in H
  | H : Z.ltb _ _ = true |- _ => apply Z.ltb_lt in H
  | H : Z.ltb _ _ = false |- _ => apply Z.ltb_ge in H
  end.

(** ** Bytes *)
Lemma bv_range a : (0 <= bv a < 256)%Z.
Proof. unfold bv. pose proof (N_ascii_bounded a). lia. Qed.

Lemma vb_bv a : vb (bv a) = a.
Proof.
  unfold vb, bv. pose proof (N_ascii_bounded a).
  rewrite Z.mod_small by lia. rewrite N2Z.id. apply ascii_N_embedding.
Qed.

Lemma bv_vb z : (0 <= z < 256)%Z -> bv (vb z) = z.
Proof.
  intros Hz. unfold vb, bv. rewrite Z.mod_small by lia.
  rewrite N_ascii_embedding by lia. lia.
Qed.

Lemma bv_inj a b : bv a = bv b -> a = b.
Proof. intros H. rewrite <- (vb_bv a), <- (vb_bv b). by rewrite H. Qed.

#[export] Hint Resolve bv_range : go.

(** ** Lists *)
Lemma len_nonneg {A} (l : list A) : (0 <= len l)%Z.
Proof. unfold len. lia. Qed.

Lemma len_nil {A} : len (@nil A) = 0%Z.
Proof. done. Qed.

Lemma len_cons {A} (x : A) l : len (x :: l) = (1 + len l)%Z.
Proof. unfold len. simpl. lia. Qed.

Lemma len_app {A} (l k : list A) : len (l ++ k) = (len l + len k)%Z.
Proof. unfold len. rewrite length_app. lia. Qed.

Lemma len_snoc {A} (l : list A) x : len (l ++ [x]) = (len l + 1)%Z.
Proof. rewrite len_app, len_cons, len_nil. lia. Qed.

Create Rewrite HintDb go_len.
#[export] Hint Rewrite @len_nil @len_cons @len_app : go_len.

(** [forallb] as [Forall]. *)
Lemma forallb_Forall {A} (f : A -> bool) l :
  forallb f l = true <-> Forall (fun x => f x = true) l.
Proof. rewrite forallb_forall, Forall_forall. by setoid_rewrite list_elem_of_In. Qed.

Lemma existsb_Exists {A} (f : A -> bool) l :
  existsb f l = true <-> Exists (fun x => f x = true) l.
Proof. rewrite existsb_exists, Exists_exists. by setoid_rewrite list_elem_of_In. Qed.

Lemma existsb_false_Forall {A} (f : A -> bool) l :
  existsb f l = false <-> Forall (fun x => f x = false) l.
Proof.
  induction l as [|x l IH]; simpl; [done|].
  rewrite orb_false_iff, IH, Forall_cons. done.
Qed.

(** Induction on the length of a list, for scanners that skip several bytes. *)
Lemma list_len_ind {A} (P : list A -> Prop) :
  (forall l, (forall k, (length k < length l)%nat -> P k) -> P l) -> forall l, P l.
Proof.
  intros H l. remember (length l) as n eqn:E. revert l E.
  induction n as [n IH] using lt_wf_ind. intros l ->. apply H. intros k Hk. by apply (IH (length k)).
Qed.
