(* ===== verification/GoStrings.v ===== *)
(** * The part of Go's standard library the program uses: bytes, strings,
    UTF-8, [strconv] and [path].

    Strings are byte lists.  Functions that Go defines on runes decode UTF-8
    here too; where the result depends on the Unicode case tables (non-ASCII
    letters in [strings.ToUpper]/[ToLower]), the table is an argument
    ([UnicodeTables]), so the theorems hold for every table. *)
From Stdlib Require Import Ascii String ZArith Lia.
From stdpp Require Import base gmap strings list sorting.
From S2P Require Import Prelude.
Local Open Scope Z_scope.

(** ** Package unicode/utf8 *)
Definition RuneError : Z := 65533.

Definition is_cont (a : ascii) : bool := (128 <=? bv a) && (bv a <=? 191).

(** [utf8.DecodeRuneInString]: the rune and its width; an invalid sequence
    yields [(RuneError, 1)], the empty string [(RuneError, 0)]. *)
Definition DecodeRune (s : gostring) : Z * nat :=
  match s with
  | [] => (RuneError, 0%nat)
  | b0 :: t =>
      let x := bv b0 in
      if x <? 128 then (x, 1%nat)
      else if (194 <=? x) && (x <=? 223) then
        match t with
        | b1 :: _ =>
            if is_cont b1 then ((x - 192) * 64 + (bv b1 - 128), 2%nat)
            else (RuneError, 1%nat)
        | _ => (RuneError, 1%nat)
        end
      else if (224 <=? x) && (x <=? 239) then
        match t with
        | b1 :: b2 :: _ =>
            let lo := if x =? 224 then 160 else 128 in
            let hi := if x =? 237 then 159 else 191 in
            if (lo <=? bv b1) && (bv b1 <=? hi) && is_cont b2 then
              ((x - 224) * 4096 + (bv b1 - 128) * 64 + (bv b2 - 128), 3%nat)
            else (RuneError, 1%nat)
        | _ => (RuneError, 1%nat)
        end
      else if (240 <=? x) && (x <=? 244) then
        match t with
        | b1 :: b2 :: b3 :: _ =>
            let lo := if x =? 240 then 144 else 128 in
            let hi := if x =? 244 then 143 else 191 in
            if (lo <=? bv b1) && (bv b1 <=? hi) && is_cont b2 && is_cont b3 then
              ((x - 240) * 262144 + (bv b1 - 128) * 4096 + (bv b2 - 128) * 64
               + (bv b3 - 128), 4%nat)
            else (RuneError, 1%nat)
        | _ => (RuneError, 1%nat)
        end
      else (RuneError, 1%nat)
  end.

Definition valid_rune (r : Z) : bool :=
  ((0 <=? r) && (r <? 55296)) || ((57343 <? r) && (r <=? 1114111)).

(** [utf8.AppendRune] / [strings.Builder.WriteRune]: an invalid rune is
    written as U+FFFD. *)
Definition EncodeRune (r : Z) : gostring :=
  let r := if valid_rune r then r else RuneError in
  if r <? 128 then [vb r]
  else if r <? 2048 then [vb (192 + r / 64); vb (128 + r mod 64)]
  else if r <? 65536 then
    [vb (224 + r / 4096); vb (128 + (r / 64) mod 64); vb (128 + r mod 64)]
  else [vb (240 + r / 262144); vb (128 + (r / 4096) mod 64);
        vb (128 + (r / 64) mod 64); vb (128 + r mod 64)].

(** [utf8.DecodeLastRuneInString]. *)
Definition DecodeLastRune (s : gostring) : Z * nat :=
  let n := length s in
  match n with
  | O => (RuneError, 0%nat)
  | S _ =>
      let try (k : nat) : option (Z * nat) :=
        match s !! (n - k)%nat with
        | Some b =>
            if (k <=? n)%nat && negb (is_cont b) then
              let '(r, size) := DecodeRune (drop (n - k) s) in
              Some (if (size =? k)%nat then (r, size) else (RuneError, 1%nat))
            else None
        | None => None
        end in
      match try 1%nat, try 2%nat, try 3%nat, try 4%nat with
      | Some r, _, _, _ => r
      | None, Some r, _, _ => r
      | None, None, Some r, _ => r
      | None, None, None, Some r => r
      | None, None, None, None => (RuneError, 1%nat)
      end
  end.

(** ** Package unicode *)
Definition unicode_IsSpace (r : Z) : bool :=
  (r =? 9) || (r =? 10) || (r =? 11) || (r =? 12) || (r =? 13) || (r =? 32)
  || (r =? 133) || (r =? 160) || (r =? 5760) || ((8192 <=? r) && (r <=? 8202))
  || (r =? 8232) || (r =? 8233) || (r =? 8239) || (r =? 8287) || (r =? 12288).

Definition unicode_IsControl (r : Z) : bool :=
  ((0 <=? r) && (r <? 32)) || ((127 <=? r) && (r <? 160)).

(** The case mapping, and which runes are printable, above U+007F. *)
Class UnicodeTables := {
  rune_upper : Z -> Z;
  rune_lower : Z -> Z;
  rune_print : Z -> bool
}.

(** ** Package strings and bytes *)
Definition HasPrefix (s p : gostring) : bool := take (length p) s =s p.
Definition HasSuffix (s p : gostring) : bool :=
  (length p <=? length s)%nat && (drop (length s - length p) s =s p).
Definition TrimPrefix (s p : gostring) : gostring :=
  if HasPrefix s p then drop (length p) s else s.

(** [strings.IndexByte]; [None] stands for [-1]. *)
Fixpoint IndexByte (s : gostring) (c : ascii) : option nat :=
  match s with
  | [] => None
  | x :: t => if x =c c then Some 0%nat else S <$> IndexByte t c
  end.

Fixpoint LastIndexByte (s : gostring) (c : ascii) : option nat :=
  match s with
  | [] => None
  | x :: t =>
      match LastIndexByte t c with
      | Some i => Some (S i)
      | None => if x =c c then Some 0%nat else None
      end
  end.

(** [strings.Index] for a non-empty needle, and [strings.Contains]. *)
Fixpoint Index (s p : gostring) : option nat :=
  if HasPrefix s p then Some 0%nat
  else match s with
       | [] => None
       | _ :: t => S <$> Index t p
       end.
Definition Contains (s p : gostring) : bool := bool_decide (is_Some (Index s p)).

(** [strings.ContainsRune]/[ContainsAny] for ASCII arguments. *)
Definition ContainsByte (s : gostring) (c : ascii) : bool := existsb (fun x => x =c c) s.
Definition ContainsAny (s chars : gostring) : bool := existsb (fun x => ContainsByte chars x) s.

(** [strings.Split] on a one-byte separator. *)
Fixpoint Split (s : gostring) (c : ascii) : list gostring :=
  match s with
  | [] => [[]]
  | x :: t =>
      if x =c c then [] :: Split t c
      else match Split t c with
           | [] => [[x]]
           | seg :: segs => (x :: seg) :: segs
           end
  end.

(** [strings.SplitN(s, c, n)] for [n >= 1]: at most [n] pieces. *)
Fixpoint SplitN (s : gostring) (c : ascii) (n : nat) : list gostring :=
  match n with
  | O => []
  | S O => [s]
  | S m => match IndexByte s c with
           | None => [s]
           | Some i => take i s :: SplitN (drop (S i) s) c m
           end
  end.

(** [strings.Join]. *)
Fixpoint Join (l : list gostring) (sep : gostring) : gostring :=
  match l with
  | [] => []
  | [x] => x
  | x :: t => x ++ sep ++ Join t sep
  end.

(** [strings.TrimSpace]: decode runes from both ends. *)
Fixpoint TrimLeftSpace (fuel : nat) (s : gostring) : gostring :=
  match fuel with
  | O => s
  | S f =>
      match s with
      | [] => []
      | _ => let '(r, n) := DecodeRune s in
             if unicode_IsSpace r then TrimLeftSpace f (drop n s) else s
      end
  end.
Fixpoint TrimRightSpace (fuel : nat) (s : gostring) : gostring :=
  match fuel with
  | O => s
  | S f =>
      match s with
      | [] => []
      | _ => let '(r, n) := DecodeLastRune s in
             if unicode_IsSpace r then TrimRightSpace f (take (length s - n) s) else s
      end
  end.
Definition TrimSpace (s : gostring) : gostring :=
  let l := TrimLeftSpace (length s) s in TrimRightSpace (length l) l.

Definition isLowerASCII (c : ascii) : bool := (97 <=? bv c) && (bv c <=? 122).
Definition isUpperASCII (c : ascii) : bool := (65 <=? bv c) && (bv c <=? 90).
Definition upper_byte (c : ascii) : ascii := if isLowerASCII c then vb (bv c - 32) else c.
Definition lower_byte (c : ascii) : ascii := if isUpperASCII c then vb (bv c + 32) else c.
Definition isASCII (s : gostring) : bool := forallb (fun c => bv c <? 128) s.

(** [strings.Map] over runes, for the strings that are not ASCII. *)
Fixpoint MapRunes (fuel : nat) (f : Z -> Z) (s : gostring) : gostring :=
  match fuel with
  | O => []
  | S k =>
      match s with
      | [] => []
      | _ => let '(r, n) := DecodeRune s in EncodeRune (f r) ++ MapRunes k f (drop n s)
      end
  end.

Section Case.
Context `{UnicodeTables}.

Definition upper_rune (r : Z) : Z :=
  if r <? 128 then (if (97 <=? r) && (r <=? 122) then r - 32 else r) else rune_upper r.
Definition lower_rune (r : Z) : Z :=
  if r <? 128 then (if (65 <=? r) && (r <=? 90) then r + 32 else r) else rune_lower r.

Definition ToUpper (s : gostring) : gostring :=
  if isASCII s then map upper_byte s else MapRunes (length s) upper_rune s.
Definition ToLower (s : gostring) : gostring :=
  if isASCII s then map lower_byte s else MapRunes (length s) lower_rune s.
End Case.

(** ** Package strconv *)
Definition is_digit (c : ascii) : bool := (48 <=? bv c) && (bv c <=? 57).

Definition digits_value (s : gostring) : Z :=
  fold_left (fun acc c => acc * 10 + (bv c - 48)) s 0.

(** [strconv.Atoi] on a 64-bit platform. *)
Definition Atoi (s : gostring) : option Z :=
  let '(neg, ds) :=
    match s with
    | c :: t => if (c =c "-") then (true, t) else if (c =c "+") then (false, t) else (false, s)
    | [] => (false, [])
    end in
  match ds with
  | [] => None
  | _ =>
      if forallb is_digit ds then
        let v := if (neg : bool) then - digits_value ds else digits_value ds in
        if in_int64 v then Some v else None
      else None
  end.

Fixpoint itoa_pos (fuel : nat) (n : Z) : gostring :=
  match fuel with
  | O => []
  | S f => if n <? 10 then [vb (48 + n)]
           else itoa_pos f (n / 10) ++ [vb (48 + n mod 10)]
  end.

(** [strconv.Itoa]. *)
Definition Itoa (z : Z) : gostring :=
  let digits n := itoa_pos (S (Z.to_nat (Z.log2 n))) n in
  if z <? 0 then "-"%char :: digits (- z) else digits z.

Definition hexdigit (n : Z) : ascii := if n <? 10 then vb (48 + n) else vb (87 + n).

(** [n] hexadecimal digits of [z], most significant first. *)
Fixpoint hexdigits (n : nat) (z : Z) : gostring :=
  match n with
  | O => []
  | S k => hexdigits k (z / 16) ++ [hexdigit (z mod 16)]
  end.

Section Quote.
Context `{UnicodeTables}.

Definition unicode_IsPrint (r : Z) : bool :=
  if r <? 128 then (32 <=? r) && (r <=? 126) else rune_print r.

(** One rune inside [strconv.Quote]; [w] is the width it was decoded with. *)
Definition quote_rune (r : Z) (w : nat) (b : ascii) : gostring :=
  if (w =? 1)%nat && (r =? RuneError) then chBS :: "x"%char :: hexdigits 2 (bv b)
  else if (r =? 34) || (r =? 92) then [chBS; vb r]
  else if unicode_IsPrint r then EncodeRune r
  else if r =? 7 then [chBS; "a"%char]
  else if r =? 8 then [chBS; "b"%char]
  else if r =? 12 then [chBS; "f"%char]
  else if r =? 10 then [chBS; "n"%char]
  else if r =? 13 then [chBS; "r"%char]
  else if r =? 9 then [chBS; "t"%char]
  else if r =? 11 then [chBS; "v"%char]
  else if (r <? 32) || (r =? 127) then chBS :: "x"%char :: hexdigits 2 r
  else if r <? 65536 then chBS :: "u"%char :: hexdigits 4 r
  else chBS :: "U"%char :: hexdigits 8 r.

Fixpoint quote_body (fuel : nat) (s : gostring) : gostring :=
  match fuel, s with
  | S f, b :: _ =>
      let '(r, w) := DecodeRune s in quote_rune r w b ++ quote_body f (drop w s)
  | _, _ => []
  end.

(** [strconv.Quote], the [%q] verb. *)
Definition Quote (s : gostring) : gostring := chDQ :: quote_body (length s) s ++ [chDQ].
End Quote.

(** Tables for concrete runs: no case mapping and nothing printable outside
    ASCII. *)
Definition ascii_tables : UnicodeTables :=
  {| rune_upper := fun r => r; rune_lower := fun r => r; rune_print := fun _ => false |}.

(** ** Lemmas *)
Lemma HasPrefix_spec s p : HasPrefix s p = true <-> exists t, s = p ++ t.
Proof.
  unfold HasPrefix. rewrite gos_eqb_eq. split.
  - intros H. exists (drop (length p) s). rewrite <- H at 1. by rewrite take_drop.
  - intros [t ->]. by rewrite take_app_length.
Qed.

Lemma HasPrefix_app p t : HasPrefix (p ++ t) p = true.
Proof. apply HasPrefix_spec. by exists t. Qed.

Lemma HasPrefix_char s c : HasPrefix s [c] = true <-> exists t, s = c :: t.
Proof. apply HasPrefix_spec. Qed.

Lemma IndexByte_Some s c i :
  IndexByte s c = Some i <->
  s !! i = Some c /\ (forall j x, (j < i)%nat -> s !! j = Some x -> x <> c).
Proof.
  revert i. induction s as [|x s IH]; intros i; simpl.
  - split; [done|]. intros [H _]. done.
  - destruct (Ascii.eqb_spec x c) as [->|Hne].
    + split.
      * intros [= <-]. split; [done|]. intros j y Hj. lia.
      * intros [H1 H2]. destruct i as [|i]; [done|]. exfalso. by apply (H2 0%nat c ltac:(lia)).
    + split.
      * destruct (IndexByte s c) as [k|] eqn:E; [|done]. intros [= <-].
        destruct (proj1 (IH k) eq_refl) as [H1 H2]. split; [done|].
        intros [|j] y Hj Hy; simpl in Hy; [congruence|]. by apply (H2 j y ltac:(lia)).
      * intros [H1 H2]. destruct i as [|i]; simpl in H1; [congruence|].
        rewrite (proj2 (IH i)); [done|]. split; [done|].
        intros j y Hj Hy. by apply (H2 (S j) y ltac:(lia)).
Qed.

Lemma IndexByte_None s c : IndexByte s c = None <-> c ∉ s.
Proof.
  induction s as [|x s IH]; simpl; [split; [intros _; apply not_elem_of_nil|done]|].
  destruct (Ascii.eqb_spec x c) as [->|Hne].
  - split; [done|]. intros H. exfalso. apply H. left.
  - rewrite not_elem_of_cons, <- IH. destruct (IndexByte s c); simpl; intuition congruence.
Qed.

Lemma IndexByte_split s c i :
  IndexByte s c = Some i ->
  s = take i s ++ (c :: drop (S i) s) /\ (c ∉ take i s) /\ (i < length s)%nat.
Proof.
  intros H. apply IndexByte_Some in H as [H1 H2]. repeat split.
  - by rewrite take_drop_middle.
  - intros Hin. apply list_elem_of_lookup in Hin as [j Hj].
    apply lookup_take_Some in Hj as [Hj Hlt]. by apply (H2 j c).
  - by eapply lookup_lt_Some.
Qed.

Lemma IndexByte_app s c t : c ∉ s -> IndexByte (s ++ (c :: t)) c = Some (length s).
Proof.
  induction s as [|x s IH]; simpl; intros H.
  - by rewrite Ascii.eqb_refl.
  - apply not_elem_of_cons in H as [H1 H2].
    destruct (Ascii.eqb_spec x c); [congruence|]. by rewrite IH.
Qed.

Lemma ContainsByte_spec s c : ContainsByte s c = true <-> c ∈ s.
Proof.
  unfold ContainsByte. rewrite existsb_exists. setoid_rewrite <- list_elem_of_In. split.
  - intros [x [Hx He]]. apply Ascii.eqb_eq in He. by subst.
  - intros H. exists c. by rewrite Ascii.eqb_refl.
Qed.

(** [strings.Join] undoes [strings.Split]. *)
Lemma Split_ne s c : Split s c <> [].
Proof. induction s as [|x s IH]; simpl; [done|]. destruct (x =c c); [done|]. by destruct (Split s c). Qed.

Lemma Split_cons_sep s c : Split (c :: s) c = [] :: Split s c.
Proof. simpl. by rewrite Ascii.eqb_refl. Qed.

Lemma Join_cons x l sep : l <> [] -> Join (x :: l) sep = x ++ sep ++ Join l sep.
Proof. by destruct l. Qed.

Lemma Join_cons_char y x l sep : Join ((y :: x) :: l) sep = y :: Join (x :: l) sep.
Proof. by destruct l. Qed.

Lemma Join_Split s c : Join (Split s c) [c] = s.
Proof.
  induction s as [|x s IH]; [done|]. simpl.
  destruct (Ascii.eqb_spec x c) as [->|Hne].
  - rewrite Join_cons by apply Split_ne. simpl. by rewrite IH.
  - pose proof (Split_ne s c). destruct (Split s c) as [|seg segs]; [done|].
    by rewrite Join_cons_char, IH.
Qed.

Lemma Split_Forall s c : Forall (fun seg => c ∉ seg) (Split s c).
Proof.
  induction s as [|x s IH]; simpl; [by repeat constructor; apply not_elem_of_nil|].
  destruct (Ascii.eqb_spec x c) as [->|Hne].
  - constructor; [apply not_elem_of_nil|done].
  - pose proof (Split_ne s c). destruct (Split s c) as [|seg segs]; [done|].
    apply Forall_cons in IH as [H1 H2].
    constructor; [|done]. rewrite not_elem_of_cons. split; congruence.
Qed.

Lemma Split_nosep s c : c ∉ s -> Split s c = [s].
Proof.
  induction s as [|x s IH]; simpl; [done|]. intros [H1 H2]%not_elem_of_cons.
  destruct (Ascii.eqb_spec x c); [congruence|]. by rewrite IH.
Qed.

Lemma Split_app s c t : c ∉ s -> Split (s ++ (c :: t)) c = s :: Split t c.
Proof.
  induction s as [|x s IH]; simpl; intros H.
  - by rewrite Ascii.eqb_refl.
  - apply not_elem_of_cons in H as [H1 H2].
    destruct (Ascii.eqb_spec x c); [congruence|]. by rewrite IH.
Qed.

Lemma Split_app_sep s t c : Split (s ++ (c :: t)) c = Split s c ++ Split t c.
Proof.
  induction s as [|x s IH]; simpl.
  - by rewrite Ascii.eqb_refl.
  - destruct (Ascii.eqb_spec x c); [by rewrite IH|]. rewrite IH.
    pose proof (Split_ne s c). by destruct (Split s c).
Qed.

Lemma Split_Join l c :
  l <> [] -> Forall (fun seg => c ∉ seg) l -> Split (Join l [c]) c = l.
Proof.
  induction l as [|x l IH]; [done|]. intros _ [H1 H2]%Forall_cons.
  destruct l as [|y l]; [by apply Split_nosep|].
  rewrite Join_cons by done. cbn [app]. rewrite Split_app by done. by rewrite IH.
Qed.

(** ** UTF-8: decoding undoes encoding *)
Ltac decide_tests :=
  repeat match goal with
  | |- context [Z.leb ?a ?b] =>
      first [ replace (Z.leb a b) with true by (symmetry; apply Z.leb_le; lia)
            | replace (Z.leb a b) with false by (symmetry; apply Z.leb_gt; lia) ]
  | |- context [Z.ltb ?a ?b] =>
      first [ replace (Z.ltb a b) with true by (symmetry; apply Z.ltb_lt; lia)
            | replace (Z.ltb a b) with false by (symmetry; apply Z.ltb_ge; lia) ]
  end.

Lemma DecodeRune_EncodeRune r t :
  valid_rune r = true ->
  DecodeRune (EncodeRune r ++ t) = (r, length (EncodeRune r)).
Proof.
  intros Hv. unfold EncodeRune. rewrite Hv.
  unfold valid_rune in Hv. apply orb_true_iff in Hv.
  assert (0 <= r <= 1114111 /\ (r < 55296 \/ 57343 < r)) as [Hr Hs].
  { destruct Hv as [Hv|Hv]; bool_simp; lia. }
  clear Hv.
  assert (0 <= r mod 64 < 64) by (apply Z.mod_pos_bound; lia).
  assert (0 <= (r / 64) mod 64 < 64) by (apply Z.mod_pos_bound; lia).
  assert (0 <= (r / 4096) mod 64 < 64) by (apply Z.mod_pos_bound; lia).
  assert (r = 64 * (r / 64) + r mod 64) by (apply Z.div_mod; lia).
  assert (r / 64 = 64 * (r / 4096) + (r / 64) mod 64) as E2.
  { replace (r / 4096) with (r / 64 / 64) by (rewrite Z.div_div by lia; done).
    apply Z.div_mod; lia. }
  assert (r / 4096 = 64 * (r / 262144) + (r / 4096) mod 64) as E3.
  { replace (r / 262144) with (r / 4096 / 64) by (rewrite Z.div_div by lia; done).
    apply Z.div_mod; lia. }
  destruct (Z.ltb_spec r 128); [|destruct (Z.ltb_spec r 2048); [|destruct (Z.ltb_spec r 65536)]];
    unfold DecodeRune, is_cont; cbn [app length]; rewrite !bv_vb by lia; decide_tests.
  - done.
  - cbn. f_equal. lia.
  - cbn.
    destruct (Z.eqb_spec (224 + r / 4096) 224), (Z.eqb_spec (224 + r / 4096) 237);
      decide_tests; cbn; f_equal; lia.
  - cbn.
    destruct (Z.eqb_spec (240 + r / 262144) 240), (Z.eqb_spec (240 + r / 262144) 244);
      decide_tests; cbn; f_equal; lia.
Qed.

(** What decoding consumes: at least one byte of a non-empty string, and, unless
    it reports an invalid byte, exactly the encoding of the rune it returns. *)
Lemma DecodeRune_width s :
  s <> [] -> let '(_, n) := DecodeRune s in (1 <= n <= length s)%nat.
Proof.
  intros Hs. destruct s as [|b0 t]; [done|]. unfold DecodeRune.
  repeat case_match; simplify_eq; simpl in *; lia.
Qed.

Lemma div_64 a b : 0 <= b < 64 -> (a * 64 + b) / 64 = a.
Proof. intros. symmetry. apply Z.div_unique with b; lia. Qed.
Lemma mod_64 a b : 0 <= b < 64 -> (a * 64 + b) mod 64 = b.
Proof. intros. symmetry. apply Z.mod_unique with a; lia. Qed.

Lemma EncodeRune_2 a b :
  2 <= a < 32 -> 0 <= b < 64 ->
  valid_rune (a * 64 + b) = true /\ EncodeRune (a * 64 + b) = [vb (192 + a); vb (128 + b)].
Proof.
  intros Ha Hb.
  assert (valid_rune (a * 64 + b) = true) as Hv by (unfold valid_rune; decide_tests; done).
  split; [done|]. unfold EncodeRune. rewrite Hv. decide_tests. by rewrite div_64, mod_64.
Qed.

Lemma EncodeRune_3 a b c :
  0 <= a < 16 -> 0 <= b < 64 -> 0 <= c < 64 ->
  (a = 0 -> 32 <= b) -> (a = 13 -> b < 32) ->
  valid_rune (a * 4096 + b * 64 + c) = true /\
  EncodeRune (a * 4096 + b * 64 + c) = [vb (224 + a); vb (128 + b); vb (128 + c)].
Proof.
  intros Ha Hb Hc H0 H13.
  assert (valid_rune (a * 4096 + b * 64 + c) = true) as Hv.
  { unfold valid_rune. apply orb_true_iff.
    assert (a < 13 \/ a = 13 \/ 13 < a) as [?|[?|?]] by lia; [left|left|right]; decide_tests; done. }
  split; [done|]. unfold EncodeRune. rewrite Hv. decide_tests.
  replace (a * 4096 + b * 64 + c) with ((a * 64 + b) * 64 + c) by lia.
  rewrite mod_64 by lia.
  replace (((a * 64 + b) * 64 + c) / 4096) with (((a * 64 + b) * 64 + c) / 64 / 64)
    by (rewrite Z.div_div by lia; done).
  by rewrite !div_64, mod_64 by lia.
Qed.

Lemma EncodeRune_4 a b c d :
  0 <= a < 5 -> 0 <= b < 64 -> 0 <= c < 64 -> 0 <= d < 64 ->
  (a = 0 -> 16 <= b) -> (a = 4 -> b < 16) ->
  valid_rune (a * 262144 + b * 4096 + c * 64 + d) = true /\
  EncodeRune (a * 262144 + b * 4096 + c * 64 + d)
    = [vb (240 + a); vb (128 + b); vb (128 + c); vb (128 + d)].
Proof.
  intros Ha Hb Hc Hd H0 H4.
  assert (valid_rune (a * 262144 + b * 4096 + c * 64 + d) = true) as Hv.
  { unfold valid_rune. apply orb_true_iff. right. decide_tests. done. }
  split; [done|]. unfold EncodeRune. rewrite Hv. decide_tests.
  replace (a * 262144 + b * 4096 + c * 64 + d) with (((a * 64 + b) * 64 + c) * 64 + d) by lia.
  set (r := ((a * 64 + b) * 64 + c) * 64 + d).
  replace (r / 262144) with (r / 64 / 64 / 64) by (rewrite !Z.div_div by lia; done).
  replace (r / 4096) with (r / 64 / 64) by (rewrite !Z.div_div by lia; done).
  unfold r. by rewrite !div_64, !mod_64 by lia.
Qed.

Lemma DecodeRune_valid s r n :
  s <> [] -> DecodeRune s = (r, n) -> ~ (r = RuneError /\ n = 1%nat) ->
  valid_rune r = true /\ EncodeRune r = take n s.
Proof.
  intros Hs HD Hne. destruct s as [|b0 t]; [done|]. unfold DecodeRune, is_cont in HD.
  pose proof (bv_range b0).
  destruct (Z.ltb_spec (bv b0) 128).
  { injection HD as <- <-. assert (valid_rune (bv b0) = true) as Hv
      by (unfold valid_rune; decide_tests; done).
    split; [done|]. unfold EncodeRune. rewrite Hv. decide_tests. by rewrite vb_bv. }
  repeat case_match; simplify_eq; try (exfalso; by apply Hne); bool_simp.
  all: match goal with
    | |- valid_rune ((?x - 192) * 64 + (?y - 128)) = true /\ _ =>
        destruct (EncodeRune_2 (x - 192) (y - 128)) as [Hv HE]; [lia..|]
    | |- valid_rune ((?x - 224) * 4096 + (?y - 128) * 64 + (?z - 128)) = true /\ _ =>
        destruct (EncodeRune_3 (x - 224) (y - 128) (z - 128)) as [Hv HE]; [lia..|]
    | |- valid_rune ((?x - 240) * 262144 + (?y - 128) * 4096 + (?z - 128) * 64 + (?w - 128)) = true /\ _ =>
        destruct (EncodeRune_4 (x - 240) (y - 128) (z - 128) (w - 128)) as [Hv HE]; [lia..|]
    end; (split; [exact Hv|]); rewrite HE; simpl; by rewrite !Zplus_minus, !vb_bv.
Qed.

(** ** [strconv]: [Atoi] undoes [Itoa] on the 64-bit range *)
Lemma digits_value_app s t :
  digits_value (s ++ t) = digits_value s * 10 ^ len t + digits_value t.
Proof.
  unfold digits_value. rewrite fold_left_app.
  generalize (fold_left (fun acc c => acc * 10 + (bv c - 48)) s 0) as a.
  induction t as [|c t IH] using rev_ind; intros a; [unfold len; simpl; lia|].
  pose proof (len_nonneg t).
  rewrite !fold_left_app. cbn [fold_left]. rewrite (IH a), len_snoc, Z.pow_add_r, Z.pow_1_r by lia.
  ring.
Qed.

Lemma itoa_pos_spec fuel n :
  fuel <> 0%nat -> 0 <= n < 2 ^ Z.of_nat fuel ->
  itoa_pos fuel n <> [] /\ forallb is_digit (itoa_pos fuel n) = true
  /\ digits_value (itoa_pos fuel n) = n.
Proof.
  revert n. induction fuel as [|f IH]; intros n Hf Hn; [done|].
  simpl. destruct (Z.ltb_spec n 10).
  - unfold is_digit, digits_value. simpl. rewrite bv_vb by lia. decide_tests.
    split; [done|]. split; [done|lia].
  - assert (0 <= n mod 10 < 10) by (apply Z.mod_pos_bound; lia).
    assert (n = 10 * (n / 10) + n mod 10) by (apply Z.div_mod; lia).
    destruct (IH (n / 10)) as (HA & HB & HC).
    { intros ->. simpl in Hn. lia. }
    { rewrite Nat2Z.inj_succ, Z.pow_succ_r in Hn by lia. lia. }
    split; [by destruct (itoa_pos f (n / 10))|]. split.
    + rewrite forallb_app, HB. simpl. unfold is_digit. rewrite bv_vb by lia. by decide_tests.
    + rewrite digits_value_app, HC. unfold digits_value, len. cbn. rewrite bv_vb by lia. lia.
Qed.

Lemma itoa_pos_log2 n :
  0 <= n -> 0 <= n < 2 ^ Z.of_nat (S (Z.to_nat (Z.log2 n))).
Proof.
  intros Hn. pose proof (Z.log2_nonneg n). rewrite Nat2Z.inj_succ, Z2Nat.id by lia.
  destruct (Z.eq_dec n 0) as [->|]; [simpl; lia|].
  pose proof (Z.log2_spec n). lia.
Qed.

Lemma digit_not_sign c : is_digit c = true -> (c =c "-") = false /\ (c =c "+") = false.
Proof.
  unfold is_digit. intros H. bool_simp.
  split; apply Ascii.eqb_neq; intros ->; vm_compute in *; intuition congruence.
Qed.

Lemma Atoi_Itoa z : in_int64 z = true -> Atoi (Itoa z) = Some z.
Proof.
  intros Hz. unfold Itoa.
  destruct (Z.ltb_spec z 0).
  - destruct (itoa_pos_spec _ _ (Nat.neq_succ_0 _) (itoa_pos_log2 (- z) ltac:(lia))) as (H1 & H2 & H3).
    unfold Atoi. rewrite Ascii.eqb_refl. destruct (itoa_pos _ _) as [|c t] eqn:E; [done|].
    rewrite H2, H3, Z.opp_involutive, Hz. done.
  - destruct (itoa_pos_spec _ _ (Nat.neq_succ_0 _) (itoa_pos_log2 z ltac:(lia))) as (H1 & H2 & H3).
    unfold Atoi. destruct (itoa_pos _ _) as [|c t] eqn:E; [done|].
    pose proof H2 as H2'. simpl in H2'. apply andb_true_iff in H2' as [Hc _].
    destruct (digit_not_sign c Hc) as [-> ->]. cbn [fst snd].
    rewrite H2, H3, Hz. done.
Qed.

(** ** ASCII case mapping *)
Lemma upper_byte_idemp c : upper_byte (upper_byte c) = upper_byte c.
Proof.
  unfold upper_byte. destruct (isLowerASCII c) eqn:E; [|by rewrite E].
  unfold isLowerASCII in E. bool_simp. unfold isLowerASCII. rewrite bv_vb by lia. by decide_tests.
Qed.

Lemma upper_byte_ascii c : bv c < 128 -> bv (upper_byte c) < 128.
Proof.
  intros. unfold upper_byte. destruct (isLowerASCII c) eqn:E; [|done].
  unfold isLowerASCII in E. bool_simp. rewrite bv_vb by lia. lia.
Qed.

Lemma isASCII_upper s : isASCII s = true -> isASCII (map upper_byte s) = true.
Proof.
  unfold isASCII. rewrite !forallb_Forall. intros H. apply Forall_map.
  eapply Forall_impl; [exact H|]. intros c Hc. apply Z.ltb_lt in Hc. apply Z.ltb_lt.
  by apply upper_byte_ascii.
Qed.

Lemma ToUpper_idemp `{UnicodeTables} s : isASCII s = true -> ToUpper (ToUpper s) = ToUpper s.
Proof.
  intros Hs. unfold ToUpper at 2 3. rewrite Hs. unfold ToUpper. rewrite isASCII_upper by done.
  rewrite map_map. apply map_ext. apply upper_byte_idemp.
Qed.

Lemma Split_bytes (P : ascii -> Prop) s c : Forall P s -> Forall (Forall P) (Split s c).
Proof.
  induction s as [|b s IH]; intros H; simpl; [by repeat constructor|].
  apply Forall_cons in H as [Hb H]. specialize (IH H).
  destruct (b =c c); [by constructor|]. destruct (Split s c) as [|x l].
  - by repeat constructor.
  - apply Forall_cons in IH as [? ?]. by repeat constructor.
Qed.

Lemma Join_bytes (P : ascii -> Prop) l sep :
  Forall P sep -> Forall (Forall P) l -> Forall P (Join l sep).
Proof.
  intros Hs H. induction H as [|x l Hx H IH]; simpl; [constructor|].
  destruct l as [|y l]; [done|]. by rewrite !Forall_app.
Qed.

(** ** Trimming *)
Lemma DecodeRune_take s k :
  take k s <> [] -> DecodeRune (take k s) = DecodeRune s \/ DecodeRune (take k s) = (RuneError, 1%nat).
Proof.
  destruct s as [|b0 t], k as [|k]; try done. intros _. cbn [take].
  unfold DecodeRune. destruct (bv b0 <? 128); [by left|].
  destruct t as [|b1 [|b2 [|b3 t]]], k as [|[|[|k]]]; cbn [take]; try (by left);
    repeat case_match; simplify_eq; auto.
Qed.

(** Nothing is left to trim. *)
Definition trimmed_left (s : gostring) : Prop :=
  s = [] \/ unicode_IsSpace (fst (DecodeRune s)) = false.
Definition trimmed_right (s : gostring) : Prop :=
  s = [] \/ unicode_IsSpace (fst (DecodeLastRune s)) = false.

Lemma trimmed_left_take s k : trimmed_left s -> trimmed_left (take k s).
Proof.
  intros [->|H]; [left; by rewrite take_nil|].
  destruct (decide (take k s = [])) as [|Hne]; [by left|]. right.
  by destruct (DecodeRune_take s k Hne) as [-> | ->].
Qed.

Lemma TrimLeftSpace_trimmed fuel s :
  (length s <= fuel)%nat -> trimmed_left (TrimLeftSpace fuel s).
Proof.
  revert s. induction fuel as [|f IH]; intros s Hf; simpl.
  - left. by destruct s; [|simpl in Hf; lia].
  - destruct s as [|b t]; [by left|].
    pose proof (DecodeRune_width (b :: t) ltac:(done)) as HW.
    destruct (DecodeRune (b :: t)) as [r n] eqn:E.
    destruct (unicode_IsSpace r) eqn:ES; [|right; by rewrite E].
    apply IH. rewrite length_drop. cbn [length] in *. lia.
Qed.

Lemma TrimLeftSpace_id fuel s : trimmed_left s -> TrimLeftSpace fuel s = s.
Proof.
  intros H. destruct fuel as [|f]; [done|]. simpl. destruct s as [|b t]; [done|].
  destruct H as [H|H]; [done|]. destruct (DecodeRune (b :: t)) as [r n]. simpl in H. by rewrite H.
Qed.

Lemma DecodeLastRune_width s : s <> [] -> (1 <= snd (DecodeLastRune s))%nat.
Proof.
  intros Hs. unfold DecodeLastRune. destruct (length s) as [|m] eqn:E; [by destruct s|].
  repeat case_match; simplify_eq; simpl; try lia;
  repeat match goal with
  | H : (_ =? _)%nat = true |- _ => apply Nat.eqb_eq in H; lia
  end.
Qed.

Lemma TrimRightSpace_trimmed fuel s :
  (length s <= fuel)%nat ->
  trimmed_right (TrimRightSpace fuel s) /\ exists k, TrimRightSpace fuel s = take k s.
Proof.
  revert s. induction fuel as [|f IH]; intros s Hf; simpl.
  - destruct s; [|simpl in Hf; lia]. split; [by left|]. by exists 0%nat.
  - destruct s as [|b t]; [split; [by left|by exists 0%nat]|].
    pose proof (DecodeLastRune_width (b :: t) ltac:(done)) as HW.
    destruct (DecodeLastRune (b :: t)) as [r n] eqn:E. cbn [snd] in HW.
    destruct (unicode_IsSpace r) eqn:ES.
    + destruct (IH (take (length (b :: t) - n) (b :: t))) as [H1 [k H2]].
      { rewrite length_take. cbn [length] in *. lia. }
      split; [done|]. rewrite H2, take_take. by eexists.
    + split; [right; by rewrite E|]. exists (length (b :: t)). by rewrite firstn_all.
Qed.

Lemma TrimRightSpace_id fuel s : trimmed_right s -> TrimRightSpace fuel s = s.
Proof.
  intros H. destruct fuel as [|f]; [done|]. simpl. destruct s as [|b t]; [done|].
  destruct H as [H|H]; [done|].
  destruct (DecodeLastRune (b :: t)) as [r n]. simpl in H. by rewrite H.
Qed.

Lemma TrimSpace_idemp s : TrimSpace (TrimSpace s) = TrimSpace s.
Proof.
  unfold TrimSpace at 2 3. cbv zeta.
  pose proof (TrimLeftSpace_trimmed (length s) s ltac:(lia)) as HL.
  set (l := TrimLeftSpace (length s) s) in *.
  destruct (TrimRightSpace_trimmed (length l) l ltac:(lia)) as [HR [k Hk]].
  set (r := TrimRightSpace (length l) l) in *.
  unfold TrimSpace. rewrite TrimLeftSpace_id by (rewrite Hk; by apply trimmed_left_take).
  by apply TrimRightSpace_id.
Qed.

(** ** Ordering and sorting *)

(** [x <= y] on strings: byte-wise lexicographic. *)
Fixpoint str_leb (x y : gostring) : bool :=
  match x, y with
  | [], _ => true
  | _ :: _, [] => false
  | a :: x', b :: y' => if a =c b then str_leb x' y' else bv a <? bv b
  end.

Definition str_le (x y : gostring) : Prop := str_leb x y = true.

#[export] Instance str_le_dec : RelDecision str_le.
Proof. intros x y. unfold str_le. apply _. Defined.

#[export] Instance str_le_total : Total str_le.
Proof.
  intros x. unfold str_le. induction x as [|a x IH]; intros [|b y]; simpl; auto.
  rewrite (Ascii.eqb_sym b a). destruct (a =c b) eqn:E; [apply IH|]. bool_simp.
  destruct (Z.ltb_spec (bv a) (bv b)); [by left|]. right. apply Z.ltb_lt.
  assert (bv a <> bv b) by (intros ?%bv_inj; done). lia.
Qed.

#[export] Instance str_le_trans : Transitive str_le.
Proof.
  intros x. unfold str_le. induction x as [|a x IH]; intros [|b y] [|c z]; simpl; try done.
  destruct (a =c b) eqn:E1; bool_simp; subst.
  - destruct (b =c c) eqn:E2; bool_simp; subst; [apply IH|done].
  - destruct (b =c c) eqn:E2; bool_simp; subst.
    + intros H _. by rewrite (proj2 (Ascii.eqb_neq _ _)).
    + intros H1 H2. bool_simp. rewrite (proj2 (Ascii.eqb_neq a c)); [apply Z.ltb_lt; lia|].
      intros ->. lia.
Qed.

#[export] Instance str_le_antisym : AntiSymm (=) str_le.
Proof.
  intros x. unfold str_le. induction x as [|a x IH]; intros [|b y]; simpl; try done.
  rewrite (Ascii.eqb_sym b a). destruct (a =c b) eqn:E; bool_simp; subst.
  - intros H1 H2. f_equal. by apply IH.
  - intros H1 H2. bool_simp. lia.
Qed.

(** [sort.Strings]: the order is total and antisymmetric, so the sorted list is
    unique whatever the algorithm. *)
Definition sort_Strings (l : list gostring) : list gostring := merge_sort str_le l.

Lemma sort_Strings_perm l : sort_Strings l ≡ₚ l.
Proof. apply merge_sort_Permutation. Qed.

Lemma sort_Strings_sorted l : StronglySorted str_le (sort_Strings l).
Proof. apply (StronglySorted_merge_sort str_le). Qed.

(** ** Runes *)
Fixpoint runes_fuel (fuel : nat) (s : gostring) : list Z :=
  match fuel, s with
  | S f, _ :: _ => let '(r, n) := DecodeRune s in r :: runes_fuel f (drop n s)
  | _, _ => []
  end.

(** [for _, r := range s]. *)
Definition runes (s : gostring) : list Z := runes_fuel (length s) s.
Definition RuneCountInString (s : gostring) : Z := len (runes s).

(** The [%-ns] verb: pad with spaces on the right to [n] runes. *)
Definition pad_right (n : Z) (s : gostring) : gostring :=
  s ++ repeat " "%char (Z.to_nat (n - RuneCountInString s)).

(** [strings.Count(s, c)] of a one-byte string. *)
Definition CountByte (s : gostring) (c : ascii) : Z :=
  len (List.filter (fun b => b =c c) s).

(** [len(strings.Fields(s))]: maximal runs of runes that are not spaces. *)
Fixpoint fields_count (in_field : bool) (rs : list Z) : Z :=
  match rs with
  | [] => 0
  | r :: t =>
      if unicode_IsSpace r then fields_count false t
      else (if in_field then 0 else 1) + fields_count true t
  end.
Definition FieldsLen (s : gostring) : Z := fields_count false (runes s).

(** [strings.SplitAfter(s, c)]. *)
Fixpoint SplitAfter (s : gostring) (c : ascii) : list gostring :=
  match s with
  | [] => [[]]
  | x :: t =>
      if x =c c then [x] :: SplitAfter t c
      else match SplitAfter t c with
           | [] => [[x]]
           | seg :: segs => (x :: seg) :: segs
           end
  end.

Lemma concat_SplitAfter s c : concat (SplitAfter s c) = s.
Proof.
  induction s as [|x t IH]; simpl; [done|]. destruct (x =c c) eqn:E; simpl; [by rewrite IH|].
  destruct (SplitAfter t c) as [|seg segs]; simpl in *; by rewrite <- IH.
Qed.
