(* ===== verification/GoPath.v ===== *)
(** * Go's package [path]: [Clean], [Dir], [Base] and [Match], on
    slash-separated byte strings. *)
From Stdlib Require Import Ascii String ZArith Lia.
From stdpp Require Import base gmap strings list.
From S2P Require Import Prelude GoStrings.

Definition slash : ascii := "/".
Definition dot : gostring := go ".".
Definition dotdot : gostring := go "..".

(** One segment of [path.Clean], on the stack of kept segments (top first). *)
Definition clean_step (rooted : bool) (stk : list gostring) (seg : gostring) : list gostring :=
  if (seg =s []) || (seg =s dot) then stk
  else if seg =s dotdot then
    match stk with
    | top :: rest => if top =s dotdot then dotdot :: stk else rest
    | [] => if rooted then [] else [dotdot]
    end
  else seg :: stk.

Definition Clean (p : gostring) : gostring :=
  let rooted := HasPrefix p [slash] in
  let segs := rev (fold_left (clean_step rooted) (Split p slash) []) in
  if rooted then slash :: Join segs [slash]
  else match segs with [] => dot | _ => Join segs [slash] end.

(** [path.Dir]: [Clean] of everything up to and including the last slash. *)
Definition Dir (p : gostring) : gostring :=
  match LastIndexByte p slash with
  | Some i => Clean (take (S i) p)
  | None => Clean []
  end.

Fixpoint strip_trailing (fuel : nat) (p : gostring) : gostring :=
  match fuel with
  | O => p
  | S f => if HasSuffix p [slash] then strip_trailing f (take (length p - 1) p) else p
  end.

(** [path.Base]. *)
Definition Base (p : gostring) : gostring :=
  if p =s [] then dot
  else
    let q := strip_trailing (length p) p in
    let r := match LastIndexByte q slash with Some i => drop (S i) q | None => q end in
    if r =s [] then [slash] else r.

(** ** [path.Match] on patterns without character classes *)
Inductive gitem := GLit (c : ascii) | GAny | GStar.

(** [None]: the pattern is malformed (trailing backslash) or has a class. *)
Fixpoint glob_items (p : gostring) : option (list gitem) :=
  match p with
  | [] => Some []
  | c :: t =>
      if c =c chBS then
        match t with
        | [] => None
        | d :: t' => cons (GLit d) <$> glob_items t'
        end
      else if c =c "*" then cons GStar <$> glob_items t
      else if c =c "?" then cons GAny <$> glob_items t
      else if c =c "[" then None
      else cons (GLit c) <$> glob_items t
  end.

(** [scanChunk], iterated: a chunk is star-free, flagged when stars precede it. *)
Fixpoint glob_chunks (items : list gitem) : list (bool * list gitem) :=
  match items with
  | [] => []
  | GStar :: t =>
      match glob_chunks t with
      | (_, c) :: r => (true, c) :: r
      | [] => [(true, [])]
      end
  | it :: t =>
      match glob_chunks t with
      | (false, c) :: r => (false, it :: c) :: r
      | r => (false, [it]) :: r
      end
  end.

Fixpoint matchChunk (chunk : list gitem) (s : gostring) : option gostring :=
  match chunk with
  | [] => Some s
  | GLit c :: t =>
      match s with
      | x :: s' => if x =c c then matchChunk t s' else None
      | [] => None
      end
  | GAny :: t =>
      match s with
      | x :: _ => if x =c slash then None else matchChunk t (drop (snd (DecodeRune s)) s)
      | [] => None
      end
  | GStar :: _ => None
  end.

Fixpoint match_chunks (chunks : list (bool * list gitem)) (name : gostring) : bool :=
  match chunks with
  | [] => name =s []
  | (star, chunk) :: rest =>
      if star && match chunk with [] => true | _ => false end
      then negb (ContainsByte name slash)
      else
        let last := match rest with [] => true | _ => false end in
        let skip := fix skip (n : gostring) : bool :=
          match n with
          | [] => false
          | x :: n' =>
              if x =c slash then false
              else match matchChunk chunk n' with
                   | Some t => if last && negb (t =s []) then skip n' else match_chunks rest t
                   | None => skip n'
                   end
          end in
        match matchChunk chunk name with
        | Some t =>
            if (t =s []) || negb last then match_chunks rest t
            else if star then skip name else false
        | None => if star then skip name else false
        end
  end.

(** [path.Match]; [None] is [ErrBadPattern], or a class. *)
Definition Match (pattern name : gostring) : option bool :=
  (fun items => match_chunks (glob_chunks items) name) <$> glob_items pattern.

(** ** Canonical absolute paths *)

(** A segment [Clean] keeps as it is. *)
Definition good_seg (s : gostring) : Prop :=
  s <> [] /\ s <> dot /\ s <> dotdot /\ slash ∉ s.

Definition abs_path (segs : list gostring) : gostring := slash :: Join segs [slash].

Definition abs_canonical (p : gostring) : Prop :=
  exists segs, p = abs_path segs /\ Forall good_seg segs.

(** The segments that survive cleaning when there is no [..]. *)
Definition real_segs (segs : list gostring) : list gostring :=
  base.filter (fun s => s <> [] /\ s <> dot) segs.

Lemma clean_fold_nodotdot rooted segs stk :
  dotdot ∉ segs ->
  fold_left (clean_step rooted) segs stk = rev (real_segs segs) ++ stk.
Proof.
  revert stk. induction segs as [|s segs IH]; intros stk Hd; [done|].
  apply not_elem_of_cons in Hd as [Hs Hd]. simpl. rewrite IH by done.
  unfold real_segs. rewrite filter_cons. unfold clean_step.
  destruct (s =s []) eqn:E1; bool_simp; simpl.
  { rewrite decide_False; tauto. }
  destruct (s =s dot) eqn:E2; bool_simp; simpl.
  { rewrite decide_False; tauto. }
  destruct (s =s dotdot) eqn:E3; bool_simp; [congruence|].
  rewrite decide_True by done. simpl. by rewrite <- app_assoc.
Qed.

Lemma Clean_nodotdot p :
  dotdot ∉ Split p slash ->
  Clean p = if HasPrefix p [slash] then abs_path (real_segs (Split p slash))
            else match real_segs (Split p slash) with
                 | [] => dot | segs => Join segs [slash] end.
Proof.
  intros H. unfold Clean, abs_path.
  rewrite clean_fold_nodotdot by done. rewrite app_nil_r, rev_involutive. cbv zeta.
  by destruct (real_segs _).
Qed.

Lemma real_segs_good p :
  dotdot ∉ Split p slash -> Forall good_seg (real_segs (Split p slash)).
Proof.
  intros H. apply Forall_forall. intros s [Hs Hin]%list_elem_of_filter.
  split; [tauto|]. split; [tauto|]. split; [congruence|].
  pose proof (Split_Forall p slash) as HF. rewrite Forall_forall in HF. auto.
Qed.

Lemma real_segs_id segs : Forall good_seg segs -> real_segs segs = segs.
Proof.
  intros H. unfold real_segs. induction H as [|s segs [? [? ?]] _ IH]; [done|].
  by rewrite filter_cons_True, IH.
Qed.

Lemma existsb_dotdot segs :
  existsb (fun seg => seg =s dotdot) segs = false <-> dotdot ∉ segs.
Proof.
  rewrite existsb_false_Forall, Forall_forall. split.
  - intros H Hin. apply H in Hin. by rewrite gos_eqb_refl in Hin.
  - intros H x Hx. apply gos_eqb_neq. by intros ->.
Qed.

Lemma Split_abs_path segs :
  Forall good_seg segs ->
  Split (abs_path segs) slash = [] :: match segs with [] => [[]] | _ => segs end.
Proof.
  intros H. unfold abs_path. rewrite Split_cons_sep. f_equal.
  destruct segs as [|s segs]; [done|]. apply Split_Join; [done|].
  eapply Forall_impl; [exact H|]. intros x Hx. apply Hx.
Qed.

Lemma real_segs_Split_abs segs :
  Forall good_seg segs -> real_segs (Split (abs_path segs) slash) = segs.
Proof.
  intros H. rewrite Split_abs_path by done. unfold real_segs.
  rewrite filter_cons_False by tauto.
  destruct segs as [|s segs]; [done|]. by apply real_segs_id.
Qed.

Lemma abs_path_nodotdot segs :
  Forall good_seg segs -> dotdot ∉ Split (abs_path segs) slash.
Proof.
  intros H. rewrite Split_abs_path by done. rewrite not_elem_of_cons. split; [done|].
  destruct segs as [|s segs]; [by rewrite list_elem_of_singleton|].
  intros Hin. rewrite Forall_forall in H. by apply H in Hin as (_ & _ & Hne & _).
Qed.

Lemma Clean_abs_path segs : Forall good_seg segs -> Clean (abs_path segs) = abs_path segs.
Proof.
  intros H. rewrite Clean_nodotdot by by apply abs_path_nodotdot.
  rewrite real_segs_Split_abs by done.
  replace (HasPrefix _ _) with true; [done|].
  symmetry. apply HasPrefix_char. by eexists.
Qed.

Lemma abs_path_inj segs1 segs2 :
  Forall good_seg segs1 -> Forall good_seg segs2 ->
  abs_path segs1 = abs_path segs2 -> segs1 = segs2.
Proof.
  intros H1 H2 E. rewrite <- (real_segs_Split_abs segs1), <- (real_segs_Split_abs segs2) by done.
  by rewrite E.
Qed.
