(* ===== verification/Glob.v ===== *)
(** * What [path.Match] accepts: the chunk-wise matcher of [GoPath], which
    commits to the first place where a chunk fits, accepts exactly the names the
    declarative reading of the pattern accepts.

    The names are ASCII: on other names the code lets [?] take a whole rune but
    [*] a single byte, and committing early can miss a match. *)
From Stdlib Require Import Ascii String ZArith Lia.
From stdpp Require Import base gmap strings list.
From S2P Require Import Prelude GoStrings GoPath.

(** The declarative reading: [?] is any byte but a slash, [*] any sequence of
    them, everything else itself. *)
Inductive glob_match : list gitem -> gostring -> Prop :=
| gm_nil : glob_match [] []
| gm_lit c l s : glob_match l s -> glob_match (GLit c :: l) (c :: s)
| gm_any x l s : x <> slash -> glob_match l s -> glob_match (GAny :: l) (x :: s)
| gm_stop l s : glob_match l s -> glob_match (GStar :: l) s
| gm_star x l s : x <> slash -> glob_match (GStar :: l) s -> glob_match (GStar :: l) (x :: s).

Create HintDb glob.
#[export] Hint Constructors glob_match : glob.

Definition no_slash (s : gostring) : Prop := slash ∉ s.
Definition star_free (c : list gitem) : Prop := Forall (fun it => it <> GStar) c.

Lemma no_slash_app s t : no_slash (s ++ t) <-> no_slash s /\ no_slash t.
Proof. apply not_elem_of_app. Qed.

Lemma no_slash_cons x s : no_slash (x :: s) <-> x <> slash /\ no_slash s.
Proof. unfold no_slash. rewrite not_elem_of_cons. naive_solver. Qed.

(** A star takes any slash-free prefix. *)
Lemma glob_star_prefix x l t :
  no_slash x -> glob_match (GStar :: l) t -> glob_match (GStar :: l) (x ++ t).
Proof.
  intros Hx Ht. induction x as [|c x IH]; [done|]. apply no_slash_cons in Hx as [? ?].
  simpl. auto with glob.
Qed.

Lemma glob_star_inv l s :
  glob_match (GStar :: l) s <-> exists p t, s = p ++ t /\ no_slash p /\ glob_match l t.
Proof.
  split.
  - intros H. remember (GStar :: l) as g eqn:E. induction H; try discriminate; injection E as ->.
    + exists [], s. split; [done|]. split; [by apply not_elem_of_nil|done].
    + destruct IHglob_match as (p & t & -> & Hp & Ht); [done|].
      exists (x :: p), t. split; [done|]. split; [by apply no_slash_cons|done].
  - intros (p & t & -> & Hp & Ht). apply glob_star_prefix; [done|]. by constructor.
Qed.

Lemma glob_star_star l s : glob_match (GStar :: GStar :: l) s <-> glob_match (GStar :: l) s.
Proof.
  split; [|by constructor]. intros (p & t & -> & Hp & Ht)%glob_star_inv.
  by apply glob_star_prefix.
Qed.

(** A star-free chunk matches one byte per item. *)
Lemma glob_chunk_len c s : star_free c -> glob_match c s -> length s = length c.
Proof.
  intros Hc H. induction H; simpl; apply Forall_cons in Hc || idtac; try done;
    destruct Hc as [Hne Hc]; try done; by rewrite IHglob_match.
Qed.

Lemma glob_chunk_app c l s :
  star_free c ->
  glob_match (c ++ l) s <-> exists p t, s = p ++ t /\ glob_match c p /\ glob_match l t.
Proof.
  intros Hc. revert s. induction Hc as [|it c Hit Hc IH]; intros s; cbn [app].
  { split; [intros H; exists [], s; auto with glob|]. intros (p & t & -> & Hp & Ht).
    by inversion Hp; subst. }
  split.
  - intros H. inversion H; subst; try done;
      (apply IH in H4 || apply IH in H3); naive_solver eauto with glob.
  - intros (p & t & -> & Hp & Ht). inversion Hp; subst; try done; cbn [app];
      constructor; try done; apply IH; eauto.
Qed.

(** The first slash a chunk needs cannot be shifted: two places where it fits,
    reached over slash-free prefixes, leave remainders that differ by a
    slash-free string. *)
Lemma chunk_slash_free c pre m1 m2 :
  star_free c -> pre <> [] -> glob_match c m1 -> glob_match c m2 ->
  (exists t1 t2, m1 ++ t1 = pre ++ m2 ++ t2) -> no_slash pre -> no_slash m2.
Proof.
  intros Hc Hpre H1 H2 (t1 & t2 & E) Hp Hin.
  apply list_elem_of_lookup in Hin as [j Hj]. revert Hj.
  induction j as [j IH] using lt_wf_ind. intros Hj.
  pose proof (glob_chunk_len _ _ Hc H1) as L1. pose proof (glob_chunk_len _ _ Hc H2) as L2.
  assert (m1 !! j = Some slash) as Hm1.
  { clear -Hc H1 H2 Hj. revert j m1 H1 Hj. induction H2; intros j m1 H1 Hj; try done;
      apply Forall_cons in Hc as [Hne Hc]; try done; inversion H1; subst;
      destruct j as [|j]; simpl in *; try done; try congruence; by eapply IHglob_match. }
  assert ((m1 ++ t1) !! j = Some slash) as Hl by by apply lookup_app_l_Some.
  rewrite E in Hl. destruct (decide (j < length pre)%nat) as [Hlt|Hge].
  - rewrite lookup_app_l in Hl by done. apply Hp. by eapply list_elem_of_lookup_2.
  - rewrite lookup_app_r in Hl by lia.
    assert (length pre <> 0)%nat by by destruct pre.
    assert (j < length m2)%nat by by eapply lookup_lt_Some.
    rewrite lookup_app_l in Hl by lia. apply (IH (j - length pre)%nat); [lia|done].
Qed.

Lemma chunk_greedy c pre m1 t1 m2 t2 :
  star_free c -> glob_match c m1 -> glob_match c m2 -> no_slash pre ->
  m1 ++ t1 = pre ++ m2 ++ t2 -> exists x, no_slash x /\ t1 = x ++ t2.
Proof.
  intros Hc H1 H2 Hp E. destruct (decide (pre = [])) as [->|Hne].
  { exists []. split; [by apply not_elem_of_nil|]. simpl in E.
    assert (length m1 = length m2) as L
      by (etransitivity; [by apply glob_chunk_len|symmetry; by apply glob_chunk_len]).
    by destruct (app_inj_1 _ _ _ _ L E) as [_ ->]. }
  assert (no_slash m2) as Hm2
    by exact (chunk_slash_free c pre m1 m2 Hc Hne H1 H2 (ex_intro _ t1 (ex_intro _ t2 E)) Hp).
  exists (drop (length m1) (pre ++ m2)). split.
  - intros Hin. assert (slash ∈ pre ++ m2) as Hin2 by (eapply subseteq_drop; exact Hin).
    apply elem_of_app in Hin2 as [?|?]; [by apply Hp|by apply Hm2].
  - rewrite <- (drop_app_length m1 t1), E, app_assoc.
    rewrite drop_app_le; [done|]. rewrite length_app.
    rewrite (glob_chunk_len _ _ Hc H1), (glob_chunk_len _ _ Hc H2). lia.
Qed.

(** ** Chunks *)

(** The items a chunk stands for. *)
Definition chunk_items (bc : bool * list gitem) : list gitem :=
  (if fst bc then [GStar] else []) ++ snd bc.
Definition flatten (chunks : list (bool * list gitem)) : list gitem := concat (map chunk_items chunks).

(** The chunks after the first one follow a star, and only the last may be empty. *)
Fixpoint wf_tail (chunks : list (bool * list gitem)) : Prop :=
  match chunks with
  | [] => True
  | (star, c) :: rest => star = true /\ star_free c /\ (rest <> [] -> c <> []) /\ wf_tail rest
  end.

Definition wf_chunks (chunks : list (bool * list gitem)) : Prop :=
  match chunks with
  | [] => True
  | (star, c) :: rest => star_free c /\ (star = false \/ rest <> [] -> c <> []) /\ wf_tail rest
  end.

Lemma glob_chunks_wf items : wf_chunks (glob_chunks items).
Proof.
  induction items as [|it items IH]; [done|]. cbn [glob_chunks].
  destruct it; destruct (glob_chunks items) as [|[[|] c'] r]; cbn in *;
    repeat split; try done; try (by constructor); try naive_solver;
    destruct IH as (Hc & Hne & Hw); try (constructor; done);
    try (intros; apply Hne; naive_solver).
Qed.

Lemma glob_cons_iff it l k :
  it <> GStar -> (forall s, glob_match l s <-> glob_match k s) ->
  forall s, glob_match (it :: l) s <-> glob_match (it :: k) s.
Proof. intros Hit H s. split; intros Hm; inversion Hm; subst; try done; constructor; try done; by apply H. Qed.

Lemma glob_star_iff l k :
  (forall s, glob_match l s <-> glob_match k s) ->
  forall s, glob_match (GStar :: l) s <-> glob_match (GStar :: k) s.
Proof. intros H s. rewrite !glob_star_inv. by setoid_rewrite H. Qed.

(** Cutting a pattern into chunks merges runs of stars and nothing else. *)
Lemma flatten_chunks items s : glob_match (flatten (glob_chunks items)) s <-> glob_match items s.
Proof.
  revert s. induction items as [|it items IH]; [done|]. intros s. cbn [glob_chunks].
  destruct it as [x| |].
  - rewrite <- (glob_cons_iff (GLit x) (flatten (glob_chunks items)) items) by done.
    by destruct (glob_chunks items) as [|[[|] c] r].
  - rewrite <- (glob_cons_iff GAny (flatten (glob_chunks items)) items) by done.
    by destruct (glob_chunks items) as [|[[|] c] r].
  - rewrite <- (glob_star_iff (flatten (glob_chunks items)) items) by done.
    destruct (glob_chunks items) as [|[[|] c] r]; [done| |done].
    symmetry. apply glob_star_star.
Qed.

(** ** The matcher *)
Lemma DecodeRune_ascii x s : (bv x < 128)%Z -> snd (DecodeRune (x :: s)) = 1%nat.
Proof. intros Hx. unfold DecodeRune. cbv zeta. by rewrite (proj2 (Z.ltb_lt _ _)). Qed.

Lemma isASCII_cons x s : isASCII (x :: s) = true <-> (bv x < 128)%Z /\ isASCII s = true.
Proof. unfold isASCII. simpl. by rewrite andb_true_iff, Z.ltb_lt. Qed.

Lemma isASCII_app s t : isASCII (s ++ t) = true <-> isASCII s = true /\ isASCII t = true.
Proof. unfold isASCII. by rewrite forallb_app, andb_true_iff. Qed.

Lemma matchChunk_spec c s t :
  star_free c -> isASCII s = true ->
  matchChunk c s = Some t <-> exists p, s = p ++ t /\ glob_match c p.
Proof.
  intros Hc. revert s. induction Hc as [|it c Hit Hc IH]; intros s Hs.
  { simpl. split; [intros [= ->]; exists []; auto with glob|].
    intros (p & -> & Hp). by inversion Hp. }
  destruct it as [x| |]; [| |done]; cbn [matchChunk].
  - destruct s as [|y s]; [split; [done|]; intros (p & E & Hp); inversion Hp; by subst|].
    apply isASCII_cons in Hs as [Hy Hs]. destruct (y =c x) eqn:E; bool_simp.
    + subst. rewrite IH by done. split.
      * intros (p & -> & Hp). exists (x :: p). auto with glob.
      * intros (p & E & Hp). inversion Hp; subst. injection E as ->. eauto.
    + split; [done|]. intros (p & E' & Hp). inversion Hp; subst. by injection E' as ->.
  - destruct s as [|y s]; [split; [done|]; intros (p & E & Hp); inversion Hp; by subst|].
    apply isASCII_cons in Hs as [Hy Hs]. rewrite DecodeRune_ascii by done. change (drop 1 (y :: s)) with s.
    destruct (y =c slash) eqn:E; bool_simp.
    + subst. split; [done|]. intros (p & E' & Hp). inversion Hp as [| |y l s0 Hy' Hm| |]; subst. by injection E' as E' _; destruct Hy'.
    + rewrite IH by done. split.
      * intros (p & -> & Hp). exists (y :: p). auto with glob.
      * intros (p & E' & Hp). inversion Hp; subst. injection E' as -> ->. eauto.
Qed.

(** Looking for a place for [chunk] from the start of [name] on, as the code does
    after a star: the first fit is taken unless it is the last chunk and leaves
    something. *)
Fixpoint seek (chunk : list gitem) (rest : list (bool * list gitem)) (name : gostring) : bool :=
  let next := match name with
              | [] => false
              | x :: n' => if x =c slash then false else seek chunk rest n'
              end in
  match matchChunk chunk name with
  | Some t => if (t =s []) || negb (match rest with [] => true | _ => false end)
              then match_chunks rest t else next
  | None => next
  end.

Lemma match_chunks_seek c rest name :
  c <> [] -> match_chunks ((true, c) :: rest) name = seek c rest name.
Proof.
  intros Hc. cbn [match_chunks andb]. destruct c as [|it c]; [done|]. cbv zeta.
  set (skip := fix skip (n : gostring) : bool := _).
  assert (forall n, skip n = match n with
                             | [] => false
                             | x :: n' => if x =c slash then false else seek (it :: c) rest n'
                             end) as Hskip.
  { induction n as [|x n' IH]; [done|]. cbn [skip]. fold skip.
    destruct (x =c slash); [done|]. rewrite IH. destruct n' as [|y n''].
    - cbn [seek]. destruct (matchChunk (it :: c) []) as [t|]; [|done].
      by destruct rest, (t =s []).
    - cbn [seek]. destruct (matchChunk (it :: c) (y :: n'')) as [t|]; [|done].
      by destruct rest, (t =s []). }
  rewrite Hskip. by destruct name.
Qed.

(** A star stops here, or takes a byte and goes on. *)
Definition later (k : list gitem) (name : gostring) : Prop :=
  match name with [] => False | x :: n => x <> slash /\ glob_match (GStar :: k) n end.

Lemma star_here_or_later k name :
  glob_match (GStar :: k) name <-> glob_match k name \/ later k name.
Proof.
  split.
  - intros H. inversion H; subst; [by left|by right].
  - intros [H|H]; [by constructor|]. destruct name as [|x n]; [done|]. destruct H. by constructor.
Qed.

(** The first fit can be taken: nothing is lost. *)
Lemma first_fit c rest p t :
  star_free c -> glob_match c p ->
  (t = [] \/ exists l, rest = GStar :: l) -> (rest = [] -> t = []) ->
  glob_match (GStar :: c ++ rest) (p ++ t) -> glob_match rest t.
Proof.
  intros Hc Hp Hl Ht (pre & t' & E1 & Hpre & Ht')%glob_star_inv.
  apply glob_chunk_app in Ht' as (m2 & t2 & -> & Hm2 & Ht2); [|done].
  destruct (chunk_greedy c pre p t m2 t2) as (y & Hy & ->); [done..|].
  destruct Hl as [Hl|[l ->]]; [|by apply glob_star_prefix].
  by apply app_eq_nil in Hl as [-> ->].
Qed.

Definition seek_next (c : list gitem) (rest : list (bool * list gitem)) (name : gostring) : bool :=
  match name with [] => false | x :: n => if x =c slash then false else seek c rest n end.

Definition is_nil {A} (l : list A) : bool := match l with [] => true | _ => false end.

Lemma seek_eq c rest name :
  seek c rest name
  = match matchChunk c name with
    | Some t => if (t =s []) || negb (is_nil rest) then match_chunks rest t else seek_next c rest name
    | None => seek_next c rest name
    end.
Proof. by destruct name. Qed.

Lemma seek_spec c rest :
  star_free c -> (forall t, isASCII t = true -> match_chunks rest t = true <-> glob_match (flatten rest) t) ->
  (rest <> [] -> exists l, flatten rest = GStar :: l) ->
  forall name, isASCII name = true ->
  seek c rest name = true <-> glob_match (GStar :: c ++ flatten rest) name.
Proof.
  intros Hc Hrest Hstar name. induction name as [name IH] using list_len_ind. intros Ha.
  assert (seek_next c rest name = true <-> later (c ++ flatten rest) name) as Hnext.
  { destruct name as [|x n]; [done|]. cbn [seek_next later]. apply isASCII_cons in Ha as [_ Ha].
    rewrite <- IH by (done || simpl; lia). destruct (x =c slash) eqn:Ex; bool_simp; naive_solver. }
  rewrite seek_eq. destruct (matchChunk c name) as [t|] eqn:E.
  - apply matchChunk_spec in E as (p & -> & Hp); [|done|done].
    destruct ((t =s []) || negb (is_nil rest)) eqn:Ecommit.
    + rewrite Hrest by by apply isASCII_app in Ha as [_ ?]. split.
      * intros Ht. constructor. apply glob_chunk_app; eauto.
      * apply first_fit; [done|done| |].
        -- destruct (t =s []) eqn:Et; bool_simp; [by left|right]. apply Hstar. by destruct rest.
        -- intros Hf. destruct rest; [|by destruct Hstar as [l Hl]; [|rewrite Hl in Hf]].
           rewrite orb_false_r in Ecommit. by bool_simp.
    + rewrite star_here_or_later, Hnext. split; [by right|]. intros [Hm|Hm]; [|done]. exfalso.
      apply glob_chunk_app in Hm as (m2 & t2 & E2 & Hm2 & Ht2); [|done].
      apply orb_false_iff in Ecommit as [Et Er]. destruct rest; [|done].
      inversion Ht2; subst t2. bool_simp. apply Et, length_zero_iff_nil.
      pose proof (glob_chunk_len _ _ Hc Hp). pose proof (glob_chunk_len _ _ Hc Hm2).
      apply (f_equal length) in E2. rewrite !length_app in E2. simpl in E2. lia.
  - rewrite star_here_or_later, Hnext. split; [by right|]. intros [Hm|Hm]; [|done]. exfalso.
    apply glob_chunk_app in Hm as (m2 & t2 & E2 & Hm2 & Ht2); [|done].
    assert (matchChunk c name = Some t2) by (apply matchChunk_spec; eauto). congruence.
Qed.

Lemma flatten_tail_star chunks : wf_tail chunks -> chunks <> [] -> exists l, flatten chunks = GStar :: l.
Proof. destruct chunks as [|[b c] r]; [done|]. intros (-> & _) _. by eexists. Qed.

Lemma flatten_cons b c r : flatten ((b, c) :: r) = (if b then [GStar] else []) ++ c ++ flatten r.
Proof. by destruct b. Qed.

Lemma glob_only_star name : glob_match [GStar] name <-> no_slash name.
Proof.
  rewrite glob_star_inv. split.
  - intros (p & t & -> & Hp & Ht). inversion Ht. by rewrite app_nil_r.
  - intros H. exists name, []. rewrite app_nil_r. auto with glob.
Qed.

Lemma glob_nil_inv s : glob_match [] s <-> s = [].
Proof. split; [by inversion 1|]. intros ->. constructor. Qed.

Lemma match_tail_spec chunks name :
  wf_tail chunks -> isASCII name = true ->
  match_chunks chunks name = true <-> glob_match (flatten chunks) name.
Proof.
  revert name. induction chunks as [|[b c] rest IH]; intros name Hw Ha.
  - cbn. rewrite gos_eqb_eq, glob_nil_inv. done.
  - destruct Hw as (-> & Hc & Hne & Hw). rewrite flatten_cons. destruct c as [|it c].
    + assert (rest = []) as -> by (destruct rest; [done|]; by destruct Hne).
      change (negb (ContainsByte name slash) = true <-> glob_match [GStar] name).
      rewrite glob_only_star, negb_true_iff. unfold no_slash.
      rewrite <- not_true_iff_false. by rewrite ContainsByte_spec.
    + rewrite match_chunks_seek by done. apply seek_spec; [done| |by apply flatten_tail_star|done].
      intros t Hat. by apply IH.
Qed.

Lemma match_chunks_spec chunks name :
  wf_chunks chunks -> isASCII name = true ->
  match_chunks chunks name = true <-> glob_match (flatten chunks) name.
Proof.
  intros Hw Ha. destruct chunks as [|[[|] c] rest]; [by apply match_tail_spec| |].
  - apply match_tail_spec; [|done]. destruct Hw as (? & ? & ?). cbn. naive_solver.
  - destruct Hw as (Hc & Hne & Hw). rewrite flatten_cons. cbn [app match_chunks andb].
    rewrite glob_chunk_app by done. destruct (matchChunk c name) as [t|] eqn:E.
    + apply matchChunk_spec in E as (p & -> & Hp); [|done|done].
      apply isASCII_app in Ha as [_ Ha].
      assert (forall p' t', p ++ t = p' ++ t' -> glob_match c p' -> t' = t) as Hdet.
      { intros p' t' E Hp'. assert (length p = length p') as L
          by (etransitivity; [by apply glob_chunk_len|symmetry; by apply glob_chunk_len]).
        by destruct (app_inj_1 _ _ _ _ L E). }
      pose proof (match_tail_spec rest t Hw Ha) as Hr.
      destruct ((t =s []) || _) eqn:Ecommit.
      * rewrite Hr. split; [eauto|]. intros (p' & t' & E & Hp' & Ht'). by rewrite <- (Hdet p' t').
      * split; [done|]. intros (p' & t' & E & Hp' & Ht'). rewrite (Hdet p' t') in Ht' by done.
        destruct rest; [|by rewrite orb_true_r in Ecommit]. apply glob_nil_inv in Ht' as ->. done.
    + split; [done|]. intros (p & t & -> & Hp & _).
      assert (matchChunk c (p ++ t) = Some t) by (apply matchChunk_spec; eauto). congruence.
Qed.

(** [path.Match] on a well-formed pattern. *)
Lemma Match_spec pattern items name :
  glob_items pattern = Some items -> isASCII name = true ->
  exists b, Match pattern name = Some b /\ (b = true <-> glob_match items name).
Proof.
  intros Hi Ha. unfold Match. rewrite Hi. eexists. split; [done|].
  rewrite match_chunks_spec by (done || apply glob_chunks_wf). apply flatten_chunks.
Qed.
