(* ===== verification/Paths.v ===== *)
(** * Fake paths: [modules/fakeshell/cmds/path.go].

    [ResolvePath] turns a user-supplied path argument into an absolute path of
    the fake root.  The theorems: the result is canonical and confined under
    [/], it is what cleaning the two paths segment-wise gives, every traversal
    or forbidden byte fails, and resolving again changes nothing. *)
From Stdlib Require Import Ascii String ZArith Lia.
From stdpp Require Import base gmap strings list.
From S2P Require Import Prelude GoStrings GoPath.

(** The byte classes [validatePathChars] rejects. *)
Definition path_control (b : ascii) : bool := ((bv b <? 32) || (bv b =? 127))%Z.

Fixpoint validatePathChars_at (i : nat) (s : gostring) : res unit :=
  match s with
  | [] => Ok tt
  | b :: t =>
      if path_control b
      then Err (errors_New (go "path: control character at index " ++ Itoa (Z.of_nat i)))
      else if b =c chBS then Err (errors_New (go "path: backslash not allowed"))
      else if b =c ":" then Err (errors_New (go "path: colon not allowed"))
      else validatePathChars_at (S i) t
  end.
Definition validatePathChars (s : gostring) : res unit := validatePathChars_at 0 s.

Definition joinPosix (cwd arg : gostring) : gostring :=
  let cwd := if cwd =s [] then [slash] else cwd in
  if HasSuffix cwd [slash] then cwd ++ arg else cwd ++ [slash] ++ arg.

Definition errDotDot : error :=
  errors_New (go "path: " ++ [chDQ] ++ go ".." ++ [chDQ] ++ go " segment not allowed").
Definition errEscapes : error := errors_New (go "path: resolved path escapes root").

Definition ResolvePath (cwd arg : gostring) : res gostring :=
  _ ← validatePathChars arg;
  let joined := if HasPrefix arg [slash] then arg else joinPosix cwd arg in
  if existsb (fun seg => seg =s dotdot) (Split joined slash) then Err errDotDot
  else
    let cleaned := Clean joined in
    if (cleaned =s dot) || (cleaned =s []) then Ok [slash]
    else
      let cleaned := if HasPrefix cleaned [slash] then cleaned else slash :: cleaned in
      if HasPrefix cleaned (go "../") || (cleaned =s dotdot) then Err errEscapes
      else Ok cleaned.

(** ** Specification: paths as lists of segments *)

(** A byte a path argument may contain. *)
Definition path_byte (b : ascii) : Prop :=
  path_control b = false /\ b <> chBS /\ b <> ":"%char.

(** The segments the shell resolves an argument to, before cleaning. *)
Definition resolve_raw (cwd arg : gostring) : list gostring :=
  if HasPrefix arg [slash] then Split arg slash
  else Split cwd slash ++ Split arg slash.

Lemma validatePathChars_at_ok i s :
  validatePathChars_at i s = Ok tt <-> Forall path_byte s.
Proof.
  revert i. induction s as [|b s IH]; intros i; simpl; [done|].
  rewrite Forall_cons, <- (IH (S i)). unfold path_byte.
  destruct (path_control b) eqn:E1; [naive_solver|].
  destruct (b =c chBS) eqn:E2; bool_simp; [naive_solver|].
  destruct (b =c ":") eqn:E3; bool_simp; naive_solver.
Qed.

Lemma validatePathChars_ok s : validatePathChars s = Ok tt <-> Forall path_byte s.
Proof. apply validatePathChars_at_ok. Qed.

Lemma HasSuffix_slash s : HasSuffix s [slash] = true <-> exists t, s = t ++ [slash].
Proof.
  unfold HasSuffix. split.
  - intros H. bool_simp. simpl in *. exists (take (length s - 1) s).
    rewrite <- H0. by rewrite take_drop.
  - intros [t ->]. rewrite length_app. cbn [length]. rewrite Nat.add_sub, drop_app_length.
    rewrite gos_eqb_refl, andb_true_r. apply Nat.leb_le. lia.
Qed.

Lemma real_segs_app l k : real_segs (l ++ k) = real_segs l ++ real_segs k.
Proof. apply filter_app. Qed.

Lemma real_segs_empty_tail l : real_segs (l ++ [[]]) = real_segs l.
Proof. rewrite real_segs_app. unfold real_segs at 2. rewrite filter_cons_False by tauto. apply app_nil_r. Qed.

(** The join: its segments are those of [cwd] followed by those of [arg], up to
    empty ones. *)
Lemma Split_joinPosix cwd arg :
  Split (joinPosix cwd arg) slash =
  (if cwd =s [] then [[]]
   else if HasSuffix cwd [slash] then rev (tail (rev (Split cwd slash)))
   else Split cwd slash) ++ Split arg slash.
Proof.
  unfold joinPosix. destruct (cwd =s []) eqn:E; bool_simp; [done|].
  destruct (HasSuffix cwd [slash]) eqn:E2.
  - apply HasSuffix_slash in E2 as [t ->].
    rewrite Split_app_sep. simpl. rewrite rev_app_distr. simpl. rewrite rev_involutive.
    rewrite <- app_assoc. simpl. apply Split_app_sep.
  - apply Split_app_sep.
Qed.

Lemma real_segs_joinPosix cwd arg :
  real_segs (Split (joinPosix cwd arg) slash)
  = real_segs (Split cwd slash) ++ real_segs (Split arg slash).
Proof.
  rewrite Split_joinPosix, real_segs_app. f_equal.
  destruct (cwd =s []) eqn:E; bool_simp; [by subst|].
  destruct (HasSuffix cwd [slash]) eqn:E2; [|done].
  apply HasSuffix_slash in E2 as [t ->]. rewrite Split_app_sep, rev_app_distr. simpl.
  rewrite rev_involutive. symmetry. apply real_segs_empty_tail.
Qed.

Lemma dotdot_joinPosix cwd arg :
  dotdot ∈ Split (joinPosix cwd arg) slash <-> dotdot ∈ Split cwd slash ++ Split arg slash.
Proof.
  rewrite Split_joinPosix, !elem_of_app. apply or_iff_compat_r.
  destruct (cwd =s []) eqn:E; bool_simp; [by subst|].
  destruct (HasSuffix cwd [slash]) eqn:E2; [|done].
  apply HasSuffix_slash in E2 as [t ->]. rewrite Split_app_sep, rev_app_distr. simpl.
  rewrite rev_involutive, elem_of_app, list_elem_of_singleton. split; [by left|].
  by intros [?|?].
Qed.

Lemma Join_head segs :
  Forall good_seg segs -> segs <> [] ->
  Join segs [slash] <> [] /\ Join segs [slash] <> dot /\ HasPrefix (Join segs [slash]) [slash] = false.
Proof.
  intros H Hne. destruct segs as [|s segs]; [done|]. apply Forall_cons in H as [(H1 & H2 & _ & H4) H].
  destruct s as [|c s]; [done|]. rewrite Join_cons_char.
  apply not_elem_of_cons in H4 as [H4 _].
  split; [done|]. split.
  - intros [= -> E]. destruct segs as [|y segs]; simpl in E; [by subst|].
    destruct s; discriminate.
  - apply not_true_iff_false. intros [t [= -> ?]]%HasPrefix_char. done.
Qed.

Lemma abs_path_not_escape segs :
  HasPrefix (abs_path segs) (go "../") || (abs_path segs =s dotdot) = false.
Proof.
  apply orb_false_iff. split.
  - apply not_true_iff_false. intros [t E]%HasPrefix_spec. discriminate.
  - by apply gos_eqb_neq.
Qed.

(** The value [ResolvePath] computes from the joined string. *)
Lemma ResolvePath_finish joined :
  dotdot ∉ Split joined slash ->
  (let cleaned := Clean joined in
   if (cleaned =s dot) || (cleaned =s []) then Ok [slash]
   else
     let cleaned := if HasPrefix cleaned [slash] then cleaned else slash :: cleaned in
     if HasPrefix cleaned (go "../") || (cleaned =s dotdot) then Err errEscapes
     else Ok cleaned) = Ok (abs_path (real_segs (Split joined slash))).
Proof.
  intros Hd. cbv zeta. rewrite Clean_nodotdot by done.
  pose proof (real_segs_good joined Hd) as Hgood.
  destruct (HasPrefix joined [slash]) eqn:E.
  - replace (_ || _) with false.
    + replace (HasPrefix (abs_path _) [slash]) with true
        by (symmetry; apply HasPrefix_char; by eexists).
      by rewrite abs_path_not_escape.
    + symmetry. apply orb_false_iff. split; by apply gos_eqb_neq.
  - destruct (real_segs (Split joined slash)) as [|s segs] eqn:E2; [done|].
    destruct (Join_head (s :: segs) Hgood) as (H1 & H2 & H3); [done|].
    replace (_ || _) with false.
    + rewrite H3. fold (abs_path (s :: segs)). by rewrite abs_path_not_escape.
    + symmetry. apply orb_false_iff. split; by apply gos_eqb_neq.
Qed.

(** Full characterisation of the resolver. *)
Lemma ResolvePath_spec cwd arg :
  ResolvePath cwd arg =
  match validatePathChars arg with
  | Err e => Err e
  | Ok _ => if decide (dotdot ∈ resolve_raw cwd arg) then Err errDotDot
            else Ok (abs_path (real_segs (resolve_raw cwd arg)))
  end.
Proof.
  unfold ResolvePath. destruct (validatePathChars arg) as [[]|e]; [|done].
  cbn [mbind result_bind]. unfold resolve_raw.
  destruct (HasPrefix arg [slash]) eqn:E.
  - case_decide as Hd.
    + destruct (existsb _ _) eqn:E2; [done|]. by apply existsb_dotdot in E2.
    + rewrite (proj2 (existsb_dotdot _) Hd). by apply ResolvePath_finish.
  - case_decide as Hd; rewrite <- dotdot_joinPosix in Hd.
    + destruct (existsb _ _) eqn:E2; [done|]. by apply existsb_dotdot in E2.
    + rewrite (proj2 (existsb_dotdot _) Hd). rewrite ResolvePath_finish by done.
      by rewrite real_segs_joinPosix, real_segs_app.
Qed.

Lemma resolve_raw_good cwd arg :
  dotdot ∉ resolve_raw cwd arg -> Forall good_seg (real_segs (resolve_raw cwd arg)).
Proof.
  unfold resolve_raw. destruct (HasPrefix arg [slash]).
  - apply real_segs_good.
  - rewrite not_elem_of_app. intros [H1 H2]. rewrite real_segs_app. apply Forall_app.
    split; by apply real_segs_good.
Qed.

Lemma ResolvePath_canonical_lem cwd arg p :
  ResolvePath cwd arg = Ok p -> abs_canonical p.
Proof.
  rewrite ResolvePath_spec. destruct (validatePathChars arg); [|done].
  case_decide as Hd; [done|]. intros [= <-]. eexists. split; [done|]. by apply resolve_raw_good.
Qed.
#[export] Hint Resolve ResolvePath_canonical_lem : go.

Lemma real_segs_bytes (P : ascii -> Prop) segs :
  Forall (Forall P) segs -> Forall (Forall P) (real_segs segs).
Proof.
  rewrite !Forall_forall. intros H x [_ Hx]%list_elem_of_filter. by apply H.
Qed.

(** A resolved path keeps to the bytes of the working directory and its argument. *)
Lemma ResolvePath_bytes cwd arg p :
  Forall path_byte cwd -> ResolvePath cwd arg = Ok p -> Forall path_byte p.
Proof.
  intros Hc. rewrite ResolvePath_spec. destruct (validatePathChars arg) as [[]|] eqn:E; [|done].
  apply validatePathChars_ok in E. case_decide as Hd; [done|]. intros [= <-].
  assert (path_byte slash) as Hs by (repeat split; vm_compute; congruence).
  unfold abs_path. constructor; [done|]. apply Join_bytes; [by repeat constructor|].
  apply real_segs_bytes. unfold resolve_raw.
  destruct (HasPrefix arg [slash]); [by apply Split_bytes|].
  apply Forall_app. split; by apply Split_bytes.
Qed.

Lemma path_byte_slash : Forall path_byte [slash].
Proof. repeat constructor; vm_compute; congruence. Qed.

(** ** Properties *)

(** [ResolvePath] in full: it succeeds exactly on arguments without a
    forbidden byte whose segments, appended to those of the working directory
    unless the argument is absolute, contain no [..]; the result is then the
    absolute path of the segments that are neither empty nor [.], and it is
    canonical: every segment non-empty, slash-free and different from [.] and
    [..], so it never leaves the fake root. *)
Lemma ResolvePath_correct cwd arg p :
  ResolvePath cwd arg = Ok p <->
  Forall path_byte arg /\ (dotdot ∉ resolve_raw cwd arg) /\
  p = abs_path (real_segs (resolve_raw cwd arg)) /\ abs_canonical p.
Proof.
  split.
  - intros H. pose proof (ResolvePath_canonical_lem _ _ _ H) as Hc.
    rewrite ResolvePath_spec in H. destruct (validatePathChars arg) as [[]|] eqn:E; [|done].
    apply validatePathChars_ok in E. case_decide; [done|]. by injection H as <-.
  - intros (H1 & H2 & -> & _). rewrite ResolvePath_spec.
    rewrite (proj2 (validatePathChars_ok arg) H1). by rewrite decide_False.
Qed.

Lemma ResolvePath_abs_path cwd segs :
  Forall good_seg segs -> Forall path_byte (abs_path segs) ->
  ResolvePath cwd (abs_path segs) = Ok (abs_path segs).
Proof.
  intros Hg Hb. rewrite ResolvePath_spec, (proj2 (validatePathChars_ok _) Hb).
  unfold resolve_raw. replace (HasPrefix _ _) with true
    by (symmetry; apply HasPrefix_char; by eexists).
  rewrite decide_False by by apply abs_path_nodotdot.
  by rewrite real_segs_Split_abs.
Qed.

(** Resolving a resolved path changes nothing, whatever the working
    directory: the keys of the dynamic store are fixed points of the resolver.
    (The bytes of the working directory are not validated by the first call,
    hence the hypothesis on [p].) *)
Lemma ResolvePath_idempotent cwd arg p cwd' :
  ResolvePath cwd arg = Ok p -> Forall path_byte p -> ResolvePath cwd' p = Ok p.
Proof.
  intros (segs & -> & Hg)%ResolvePath_canonical_lem Hb. by apply ResolvePath_abs_path.
Qed.
