(* ===== verification/Input.v ===== *)
(** * Input framing: [modules/fakeshell/input.go] (command separators and the
    bounds on a parsed command) and the character classes of
    [modules/fakeshell/syntax.go].

    The theorems on [findCommandSeparator]: the index it returns is a separator
    of the buffer, newlines are hard boundaries, and a boundary found in a prefix
    of the stream is the boundary of the whole stream, so the way the transport
    cuts the input into reads does not change how it is cut into commands. *)
From Stdlib Require Import Ascii String ZArith Lia.
From stdpp Require Import base gmap strings list.
From S2P Require Import Prelude GoStrings.
Local Open Scope Z_scope.

Definition MaxInputLineBytes : Z := 4096.
Definition MaxInputTokenBytes : Z := 1024.
Definition MaxInputArgs : Z := 64.
Definition MaxCommandsPerReadCycle : Z := 64.

(** ** Character classes (syntax.go) *)
Definition isDigit (c : ascii) : bool := ("0" <=c c) && (c <=c "9").

Definition isShellSpace (c : ascii) : bool :=
  (c =c " ") || (c =c chTAB) || (c =c chCR) || (c =c chFF) || (c =c chVT).

Definition onlyShellSpace (s : gostring) : bool := forallb isShellSpace s.

Definition isSyntaxOperatorStart (c : ascii) : bool :=
  (c =c "&") || (c =c "|") || (c =c "<") || (c =c ">").

(** ** Command separators (input.go) *)
Inductive quote_state := noQuote | inSingle | inDouble.

(** The scan from index [i] on, [buf] being the bytes from there. *)
Fixpoint separator_from (i : nat) (quote : quote_state) (tokenStart : bool) (buf : gostring)
  : option nat :=
  match buf with
  | [] => None
  | c :: t =>
      if c =c chNL then Some i
      else match quote with
      | noQuote =>
          if c =c chBS then
            match t with
            | d :: t' =>
                if d =c chNL then Some (S i)
                else separator_from (S (S i)) noQuote false t'
            | [] => None
            end
          else if c =c chSQ then separator_from (S i) inSingle false t
          else if c =c chDQ then separator_from (S i) inDouble false t
          else if c =c "#" then
            if tokenStart then (fun j => (S i + j)%nat) <$> IndexByte t chNL
            else separator_from (S i) noQuote tokenStart t
          else if c =c ";" then Some i
          else separator_from (S i) noQuote (isShellSpace c || isSyntaxOperatorStart c) t
      | inSingle =>
          separator_from (S i) (if c =c chSQ then noQuote else inSingle) tokenStart t
      | inDouble =>
          if c =c chBS then
            match t with
            | d :: t' =>
                if d =c chNL then Some (S i)
                else separator_from (S (S i)) inDouble tokenStart t'
            | [] => None
            end
          else separator_from (S i) (if c =c chDQ then noQuote else inDouble) tokenStart t
      end
  end.

Definition findCommandSeparator (buf : gostring) : option nat :=
  separator_from 0 noQuote true buf.

(** ** Physical lines (fakeshell.go) *)
Definition consumePhysicalInputLine (buf : gostring) : nat * bool :=
  match IndexByte buf chNL with
  | Some i => (S i, true)
  | None => (length buf, false)
  end.

(** ** Bounds on a parsed command (input.go), with [parser.Command] *)
Record EnvPair := MkEnvPair { Key : gostring; Value : gostring }.

Record Command := MkCommand {
  Name : gostring;
  Args : list gostring;
  Envs : list EnvPair
}.

#[export] Instance EnvPair_eq_dec : EqDecision EnvPair.
Proof. solve_decision. Defined.

Definition errInputCommandTokenTooLong := errors_New (go "command token too long").
Definition errInputArgumentTokenTooLong := errors_New (go "argument token too long").
Definition errInputTooManyArguments := errors_New (go "too many arguments").
Definition errInputEnvTokenTooLong := errors_New (go "env token too long").
Definition errInputTooManyEnvAssignments := errors_New (go "too many env assignments").
Definition errInputLineTooLong := errors_New (go "input line too long").

Definition env_token_too_long (key value : gostring) : bool :=
  (MaxInputTokenBytes <? len key) || (MaxInputTokenBytes <? len value)
  || (MaxInputTokenBytes <? len key + 1 + len value).

Definition validateParsedCommand (cmd : Command) : res unit :=
  if MaxInputTokenBytes <? len (Name cmd) then Err errInputCommandTokenTooLong
  else if MaxInputArgs <? len (Args cmd) then Err errInputTooManyArguments
  else if existsb (fun arg => MaxInputTokenBytes <? len arg) (Args cmd)
  then Err errInputArgumentTokenTooLong
  else if MaxInputArgs <? len (Envs cmd) then Err errInputTooManyEnvAssignments
  else if existsb (fun e => env_token_too_long (Key e) (Value e)) (Envs cmd)
  then Err errInputEnvTokenTooLong
  else Ok tt.

(** ** Lemmas *)
Lemma separator_from_cons i q ts c t :
  separator_from i q ts (c :: t) =
  if c =c chNL then Some i
  else match q with
  | noQuote =>
      if c =c chBS then
        match t with
        | d :: t' => if d =c chNL then Some (S i) else separator_from (S (S i)) noQuote false t'
        | [] => None
        end
      else if c =c chSQ then separator_from (S i) inSingle false t
      else if c =c chDQ then separator_from (S i) inDouble false t
      else if c =c "#" then
        if ts then (fun j => (S i + j)%nat) <$> IndexByte t chNL
        else separator_from (S i) noQuote ts t
      else if c =c ";" then Some i
      else separator_from (S i) noQuote (isShellSpace c || isSyntaxOperatorStart c) t
  | inSingle => separator_from (S i) (if c =c chSQ then noQuote else inSingle) ts t
  | inDouble =>
      if c =c chBS then
        match t with
        | d :: t' => if d =c chNL then Some (S i) else separator_from (S (S i)) inDouble ts t'
        | [] => None
        end
      else separator_from (S i) (if c =c chDQ then noQuote else inDouble) ts t
  end.
Proof. done. Qed.

Lemma separator_from_ge i q ts buf k :
  separator_from i q ts buf = Some k -> (i <= k < i + length buf)%nat.
Proof.
  revert i q ts k. induction buf as [[|c t] IH] using list_len_ind; intros i q ts k H; [done|].
  cbn [separator_from length app] in *.
  assert (forall i q ts k, separator_from i q ts t = Some k -> (i <= k < i + length t)%nat) as IHt
    by (apply IH; lia).
  repeat case_match; simplify_eq; try (simpl; lia);
    match goal with
    | H : separator_from _ _ _ t = _ |- _ => apply IHt in H; lia
    | H : separator_from _ _ _ _ = _ |- _ => apply IH in H; simpl in *; lia
    | H : _ <$> IndexByte _ _ = _ |- _ =>
        apply fmap_Some in H as (j & Hj & ->); apply IndexByte_split in Hj as (_ & _ & Hj); lia
    end.
Qed.

(** The byte at a boundary is a newline or a semicolon. *)
Lemma separator_from_byte i q ts buf k :
  separator_from i q ts buf = Some k ->
  buf !! (k - i)%nat = Some chNL \/ buf !! (k - i)%nat = Some ";"%char.
Proof.
  revert i q ts k. induction buf as [[|c t] IH] using list_len_ind; intros i q ts k H; [done|].
  assert (forall m l, drop m (c :: t) = l -> (0 < m <= length (c :: t))%nat ->
    forall q ts, separator_from (i + m)%nat q ts l = Some k ->
    (c :: t) !! (k - i)%nat = Some chNL \/ (c :: t) !! (k - i)%nat = Some ";"%char) as Hrec.
  { intros m l <- Hm q' ts' H'. pose proof (separator_from_ge _ _ _ _ _ H').
    apply IH in H'; [|rewrite length_drop; lia].
    by rewrite lookup_drop, Nat.add_comm, Nat.sub_add_distr, Nat.sub_add in H' by lia. }
  cbn [separator_from] in H. repeat case_match; bool_simp; simplify_eq;
    try (rewrite Nat.sub_diag; simpl; tauto);
    try (replace (S i - i)%nat with 1%nat by lia; simpl; tauto);
    try (match goal with
      | H : separator_from (S _) _ _ ?l = _ |- _ =>
          first [ eapply (Hrec 1%nat l); [done|simpl; lia|]; rewrite Nat.add_1_r; exact H
                | eapply (Hrec 2%nat l); [done|simpl; lia|];
                  replace (i + 2)%nat with (S (S i)) by lia; exact H ]
      end).
  apply fmap_Some in H as (j & Hj & ->). apply IndexByte_Some in Hj as [Hj _].
  left. by replace (S i + j - i)%nat with (S j) by lia.
Qed.

(** Newlines are hard boundaries: a boundary is never past the first newline,
    and there is one whenever there is a newline. *)
Lemma separator_from_newline i q ts buf j :
  IndexByte buf chNL = Some j ->
  exists k, separator_from i q ts buf = Some k /\ (k <= i + j)%nat.
Proof.
  revert i q ts j. induction buf as [[|c t] IH] using list_len_ind; intros i q ts j Hj; [done|].
  cbn [separator_from length IndexByte] in *. destruct (c =c chNL) eqn:Ec; simplify_eq; [eexists; split; [done|lia]|].
  apply fmap_Some in Hj as (j' & Hj & ->).
  assert (forall q ts, exists k, separator_from (S i) q ts t = Some k /\ (k <= i + S j')%nat) as Ht.
  { intros q' ts'. destruct (IH t ltac:(lia) (S i) q' ts' j' Hj) as (k & ? & ?). exists k. split; [done|lia]. }
  assert (forall d t' q ts, t = d :: t' -> (d =c chNL) = false ->
    exists k, separator_from (S (S i)) q ts t' = Some k /\ (k <= i + S j')%nat) as Ht2.
  { intros d t' q' ts' -> Hd. simpl in Hj. rewrite Hd in Hj. apply fmap_Some in Hj as (j2 & Hj & ->).
    destruct (IH t' ltac:(simpl; lia) (S (S i)) q' ts' j2 Hj) as (k & ? & ?).
    exists k. split; [done|lia]. }
  repeat case_match; simplify_eq; try (by eauto);
    try (eexists; split; [done|lia]).
  rewrite Hj. eexists; split; [done|lia].
Qed.

(** A boundary depends on the bytes up to it only. *)
Lemma separator_from_app i q ts buf more k :
  separator_from i q ts buf = Some k -> separator_from i q ts (buf ++ more) = Some k.
Proof.
  revert i q ts k. induction buf as [[|c t] IH] using list_len_ind; intros i q ts k H; [done|].
  rewrite separator_from_cons in H. rewrite <- app_comm_cons, separator_from_cons.
  assert (forall i q ts k, separator_from i q ts t = Some k ->
            separator_from i q ts (t ++ more) = Some k) as IHt by (apply IH; simpl; lia).
  destruct (c =c chNL); [done|].
  assert (forall d t' q ts, t = d :: t' ->
    (if d =c chNL then Some (S i) else separator_from (S (S i)) q ts t') = Some k ->
    match t ++ more with
    | d :: t' => if d =c chNL then Some (S i) else separator_from (S (S i)) q ts t'
    | [] => None
    end = Some k) as IHt2.
  { intros d t' q' ts' -> H'. simpl. destruct (d =c chNL); [done|]. apply IH; [simpl; lia|done]. }
  destruct q; repeat (match goal with H : (if ?b then _ else _) = _ |- _ => destruct b end);
    auto; try (destruct t as [|d t']; [done|]; by eapply IHt2).
  apply fmap_Some in H as (j & Hj & ->).
  apply IndexByte_split in Hj as (Et & Hni & Hlt).
  rewrite Et, <- app_assoc. simpl. rewrite IndexByte_app by done.
  rewrite length_take, Nat.min_l by lia. done.
Qed.

Lemma separator_from_take i q ts buf k :
  separator_from i q ts buf = Some k -> separator_from i q ts (take (S (k - i)) buf) = Some k.
Proof.
  revert i q ts k. induction buf as [[|c t] IH] using list_len_ind; intros i q ts k H; [done|].
  pose proof (separator_from_ge _ _ _ _ _ H) as Hge.
  rewrite separator_from_cons in H. cbn [take]. rewrite separator_from_cons.
  assert (forall q ts, separator_from (S i) q ts t = Some k ->
            separator_from (S i) q ts (take (k - i) t) = Some k) as IHt.
  { intros q' ts' H'. pose proof (separator_from_ge _ _ _ _ _ H').
    apply IH in H'; [|simpl; lia]. by replace (k - i)%nat with (S (k - S i)) by lia. }
  destruct (c =c chNL); [done|].
  assert (forall d t' q ts, t = d :: t' ->
    (if d =c chNL then Some (S i) else separator_from (S (S i)) q ts t') = Some k ->
    match take (k - i) t with
    | d :: t' => if d =c chNL then Some (S i) else separator_from (S (S i)) q ts t'
    | [] => None
    end = Some k) as IHt2.
  { intros d t' q' ts' -> H'. destruct (d =c chNL) eqn:Ed.
    - injection H' as <-. replace (S i - i)%nat with 1%nat by lia. simpl. by rewrite Ed.
    - pose proof (separator_from_ge _ _ _ _ _ H').
      apply IH in H'; [|simpl; lia].
      replace (k - i)%nat with (S (S (k - S (S i)))) by lia. cbn [take]. by rewrite Ed. }
  destruct q; repeat (match goal with H : (if ?b then _ else _) = _ |- _ => destruct b end);
    auto; try (destruct t as [|d t']; [done|]; by eapply IHt2).
  apply fmap_Some in H as (j & Hj & ->).
  replace (S i + j - i)%nat with (S j) by lia.
  apply IndexByte_split in Hj as (Et & Hni & Hlt).
  rewrite Et at 1. rewrite take_app_ge by (rewrite length_take; lia).
  rewrite length_take, Nat.min_l by lia. replace (S j - j)%nat with 1%nat by lia. simpl.
  rewrite IndexByte_app by done. by rewrite length_take, Nat.min_l by lia.
Qed.

(** ** Properties *)

(** A command boundary is a property of the byte stream, not of how it was
    read: once [findCommandSeparator] reports index [k], it reports [k] whatever
    bytes follow, and already on the bytes up to and including [k]; the byte at
    [k] is a newline or a semicolon, and no newline precedes it. *)
Lemma findCommandSeparator_streaming buf k more :
  findCommandSeparator buf = Some k ->
  findCommandSeparator (buf ++ more) = Some k /\
  findCommandSeparator (take (S k) buf) = Some k /\
  (buf !! k = Some chNL \/ buf !! k = Some ";"%char) /\
  (chNL ∉ take k buf).
Proof.
  unfold findCommandSeparator. intros H. repeat split.
  - by apply separator_from_app.
  - pose proof (separator_from_take _ _ _ _ _ H) as H'. by rewrite Nat.sub_0_r in H'.
  - pose proof (separator_from_byte _ _ _ _ _ H) as H'. by rewrite Nat.sub_0_r in H'.
  - intros Hin. destruct (IndexByte (take k buf) chNL) as [j|] eqn:E;
      [|by apply IndexByte_None in E].
    pose proof E as (Et & _ & Hlt)%IndexByte_split. rewrite length_take in Hlt.
    assert (IndexByte buf chNL = Some j) as Hj.
    { apply IndexByte_Some in E as [E1 E2]. apply IndexByte_Some. split.
      - by apply lookup_take_Some in E1 as [? _].
      - intros m x Hm Hx. apply (E2 m); [done|]. apply lookup_take_Some. split; [done|lia]. }
    destruct (separator_from_newline 0 noQuote true buf j Hj) as (k' & Hk' & Hle).
    rewrite H in Hk'. injection Hk' as <-. lia.
Qed.


(** A buffered newline always yields a boundary, even inside quotes or a
    comment: no unfinished quote can make the shell buffer past the line. *)
Lemma findCommandSeparator_newline buf :
  chNL ∈ buf -> exists k, findCommandSeparator buf = Some k.
Proof.
  intros H. destruct (IndexByte buf chNL) as [j|] eqn:E; [|by apply IndexByte_None in E].
  destruct (separator_from_newline 0 noQuote true buf j E) as (k & Hk & _). by exists k.
Qed.
