(* ===== verification/Syntax.v ===== *)
(** * The shell's lexer and parser: [modules/fakeshell/syntax.go].

    A command segment is tokenized into words (with the quoting of every part
    kept), logical operators, pipes and redirections, and parsed into a
    [shellLine] of pipelines of simple commands.  Positions of the Go code are
    suffixes here: where it keeps an index [i] into [input] or [tokens], the
    model keeps the bytes or tokens from [i] on. *)
From Stdlib Require Import Ascii String ZArith Lia.
From stdpp Require Import base gmap strings list.
From S2P Require Import Prelude GoStrings Input.
Local Open Scope Z_scope.

Definition MaxSyntaxTokens : Z := 128.
Definition MaxSyntaxOperators : Z := 64.
Definition MaxRedirectionsPerCommand : Z := 8.

(** ** Errors *)
Definition newSyntaxError (reason : string) : error :=
  Error [ErrSyntaxParse] (go "syntax parse error: " ++ go reason).
Definition newSyntaxLimitError (reason : string) : error :=
  Error [ErrSyntaxParse; ErrSyntaxLimit]
        (go "syntax parse error: syntax limit exceeded: " ++ go reason).
Definition isSyntaxLimitError (e : error) : bool := errors_Is e ErrSyntaxLimit.
Definition syntaxErrorMessage (e : option error) : gostring :=
  match e with None => [] | Some _ => go "fakeshell: syntax error" end.

(** ** Data *)
Inductive wordQuote := unquoted | singleQuoted | doubleQuoted | escaped.

#[export] Instance wordQuote_eq_dec : EqDecision wordQuote.
Proof. solve_decision. Defined.

Record wordSegment := Seg { seg_text : gostring; seg_quote : wordQuote }.
Record syntaxWordValue := Word { word_text : gostring; word_segments : list wordSegment }.

Definition zeroWord : syntaxWordValue := Word [] [].

Inductive syntaxTokenKind := syntaxWord | syntaxAnd | syntaxOr | syntaxPipe | syntaxRedirect.

#[export] Instance syntaxTokenKind_eq_dec : EqDecision syntaxTokenKind.
Proof. solve_decision. Defined.
#[export] Instance wordSegment_eq_dec : EqDecision wordSegment.
Proof. solve_decision. Defined.
#[export] Instance syntaxWordValue_eq_dec : EqDecision syntaxWordValue.
Proof. solve_decision. Defined.

Record syntaxToken := Token { kind : syntaxTokenKind; text : gostring; word : syntaxWordValue }.

Record redirectSpec := Redirect {
  FD : Z;
  Operator : gostring;
  Target : gostring;
  TargetWord : syntaxWordValue;
  Duplicate : bool;
  DuplicateFD : Z
}.

Record simpleCommand := Simple {
  EnvAssignments : list gostring;
  cmdName : gostring;
  NameWord : syntaxWordValue;
  cmdArgs : list gostring;
  ArgWords : list syntaxWordValue;
  Redirects : list redirectSpec
}.

Record pipeline := Pipeline { Parts : list simpleCommand; pipeOperators : list gostring }.
Record shellLine := Line { Pipelines : list pipeline; lineOperators : list gostring }.

(** ** Words *)

(** The closure [appendSegment] of [scanSyntaxWord]: extends the last segment
    when its quoting is the same. *)
Definition appendSegment (w : syntaxWordValue) (t : gostring) (q : wordQuote) : syntaxWordValue :=
  let segs := word_segments w in
  let segs' :=
    match last segs with
    | Some s =>
        if decide (seg_quote s = q)
        then take (length segs - 1) segs ++ [Seg (seg_text s ++ t) q]
        else segs ++ [Seg t q]
    | None => segs ++ [Seg t q]
    end in
  Word (word_text w ++ t) segs'.

(** Where the scan of a word stands: outside quotes, inside single quotes with
    the bytes read since the opening quote, or inside double quotes. *)
Inductive scan_mode := scanPlain | scanSingle (acc : gostring) | scanDouble.

Definition wordEnd (c : ascii) : bool :=
  isShellSpace c || (c =c ";") || (c =c chNL) || isSyntaxOperatorStart c.

Definition errUnterminated : error := newSyntaxError "unterminated quote".

Fixpoint scan_word (mode : scan_mode) (w : syntaxWordValue) (input : gostring)
  : res (syntaxWordValue * gostring) :=
  match mode, input with
  | scanPlain, [] => Ok (w, [])
  | scanPlain, c :: t =>
      if wordEnd c then Ok (w, input)
      else if c =c chSQ then scan_word (scanSingle []) w t
      else if c =c chDQ then scan_word scanDouble w t
      else if c =c chBS then
        match t with
        | [] => Ok (appendSegment w [c] escaped, [])
        | d :: t' => scan_word scanPlain (appendSegment w [d] escaped) t'
        end
      else scan_word scanPlain (appendSegment w [c] unquoted) t
  | scanSingle _, [] => Err errUnterminated
  | scanSingle acc, c :: t =>
      if c =c chSQ then scan_word scanPlain (appendSegment w acc singleQuoted) t
      else scan_word (scanSingle (acc ++ [c])) w t
  | scanDouble, [] => Err errUnterminated
  | scanDouble, c :: t =>
      if c =c chDQ then scan_word scanPlain w t
      else if c =c chBS then
        match t with
        | [] => Err errUnterminated
        | d :: t' => scan_word scanDouble (appendSegment w [d] escaped) t'
        end
      else scan_word scanDouble (appendSegment w [c] doubleQuoted) t
  end.

Definition scanSyntaxWord (input : gostring) : res (syntaxWordValue * gostring) :=
  scan_word scanPlain zeroWord input.

Definition check_segment (s : wordSegment) : res unit :=
  match seg_quote s with
  | singleQuoted | escaped => Ok tt
  | unquoted | doubleQuoted =>
      let t := seg_text s in
      if Contains t (go "$(") || ContainsByte t "`"
      then Err (newSyntaxError "unsupported command substitution")
      else if Contains t (go "<(") || Contains t (go ">(")
      then Err (newSyntaxError "unsupported process substitution")
      else if ContainsAny t (go "(){}") then Err (newSyntaxError "unsupported grouping")
      else if ContainsByte t "&" then Err (newSyntaxError "unsupported background operator")
      else Ok tt
  end.

Fixpoint check_segments (l : list wordSegment) : res unit :=
  match l with
  | [] => Ok tt
  | s :: t => _ ← check_segment s; check_segments t
  end.

(** The first segment with text decides about a leading tilde. *)
Fixpoint check_tilde (l : list wordSegment) : res unit :=
  match l with
  | [] => Ok tt
  | s :: t =>
      match seg_text s with
      | [] => check_tilde t
      | c :: _ => if bool_decide (seg_quote s = unquoted) && (c =c "~")
                  then Err (newSyntaxError "unsupported tilde expansion") else Ok tt
      end
  end.

Definition validateSyntaxWord (w : syntaxWordValue) : res unit :=
  _ ← check_segments (word_segments w); check_tilde (word_segments w).

(** ** Environment assignments *)
Definition isNameStart (c : ascii) : bool :=
  (("A" <=c c) && (c <=c "Z")) || (("a" <=c c) && (c <=c "z")) || (c =c "_").
Definition isNameChar (c : ascii) : bool :=
  (("A" <=c c) && (c <=c "Z")) || (("a" <=c c) && (c <=c "z"))
  || (("0" <=c c) && (c <=c "9")) || (c =c "_").

Definition isEnvAssignment (w : gostring) : bool :=
  match IndexByte w "=" with
  | None => false
  | Some eq =>
      match take eq w with
      | [] => false
      | c :: t => isNameStart c && forallb isNameChar t
      end
  end.

Definition validateLiteralEnvAssignment (w : syntaxWordValue) : res unit :=
  if negb (isEnvAssignment (word_text w)) then Ok tt
  else if existsb (fun s => negb (bool_decide (seg_quote s = unquoted))) (word_segments w)
  then Err (newSyntaxError "unsupported environment assignment")
  else
    let value := match IndexByte (word_text w) "=" with
                 | Some i => drop (S i) (word_text w)
                 | None => word_text w
                 end in
    if ContainsAny value (go "$*?~")
    then Err (newSyntaxError "unsupported environment assignment")
    else Ok tt.

(** ** Tokens *)
Definition trimShellSegment (segment : gostring) : gostring :=
  match findCommandSeparator segment with
  | Some sep => if onlyShellSpace (drop (S sep) segment) then take sep segment else segment
  | None => segment
  end.

Definition isTokenBoundary (input : gostring) (pos : nat) : bool :=
  match input !! pos with
  | None => true
  | Some c => wordEnd c
  end.

(** Tokens accumulated so far, with the operators among them. *)
Record tokens_state := TS { ts_tokens : list syntaxToken; ts_operators : Z }.

Definition is_operator (k : syntaxTokenKind) : bool :=
  match k with syntaxAnd | syntaxOr | syntaxPipe => true | _ => false end.

(** The closure [appendToken] of [tokenizeShellSegment]. *)
Definition appendToken (st : tokens_state) (tok : syntaxToken) : res tokens_state :=
  let tokens := ts_tokens st ++ [tok] in
  if MaxSyntaxTokens <? len tokens then Err (newSyntaxLimitError "too many syntax tokens")
  else if is_operator (kind tok) then
    let operators := ts_operators st + 1 in
    if MaxSyntaxOperators <? operators
    then Err (newSyntaxLimitError "too many syntax operators")
    else Ok (TS tokens operators)
  else Ok (TS tokens (ts_operators st)).

Definition opToken (k : syntaxTokenKind) (t : string) : syntaxToken := Token k (go t) zeroWord.

(** The digits at the start of [input] run into a redirection. *)
Fixpoint digits_then_redirect (input : gostring) : bool :=
  match input with
  | [] => false
  | c :: t => if isDigit c then digits_then_redirect t else (c =c ">") || (c =c "<")
  end.

(** The step of the loop on a byte that starts a word, or a descriptor. *)
Definition token_word_step (input : gostring) (st : tokens_state)
  : res (tokens_state * gostring) :=
  if HasPrefix input (go "2>&1") && isTokenBoundary input 4 then
    st' ← appendToken st (opToken syntaxRedirect "2>&1"); Ok (st', drop 4 input)
  else if HasPrefix input (go "2>>") then Err (newSyntaxError "unsupported redirection")
  else if HasPrefix input (go "2>") then
    st' ← appendToken st (opToken syntaxRedirect "2>"); Ok (st', drop 2 input)
  else if match input with c :: t => isDigit c && digits_then_redirect t | [] => false end
  then Err (newSyntaxError "unsupported redirection descriptor")
  else
    wr ← scanSyntaxWord input;
    _ ← validateSyntaxWord (fst wr);
    st' ← appendToken st (Token syntaxWord (word_text (fst wr)) (fst wr));
    Ok (st', snd wr).

(** One iteration of the tokenizer on non-empty input: [None] is the [break]
    out of the loop. *)
Definition token_step (c : ascii) (t : gostring) (st : tokens_state)
  : res (option (tokens_state * gostring)) :=
  let input := c :: t in
  if isShellSpace c then Ok (Some (st, t))
  else if c =c "#" then Ok None
  else if (c =c ";") || (c =c chNL) then
    if onlyShellSpace t then Ok None
    else Err (newSyntaxError "unexpected command separator")
  else if c =c "&" then
    if HasPrefix input (go "&&") then
      st' ← appendToken st (opToken syntaxAnd "&&"); Ok (Some (st', drop 2 input))
    else Err (newSyntaxError "unsupported background operator")
  else if c =c "|" then
    if HasPrefix input (go "||") then
      st' ← appendToken st (opToken syntaxOr "||"); Ok (Some (st', drop 2 input))
    else st' ← appendToken st (opToken syntaxPipe "|"); Ok (Some (st', t))
  else if c =c "<" then
    if HasPrefix input (go "<<") then Err (newSyntaxError "unsupported heredoc")
    else if HasPrefix input (go "<(") then Err (newSyntaxError "unsupported process substitution")
    else Err (newSyntaxError "unsupported redirection")
  else if c =c ">" then
    if HasPrefix input (go ">(") then Err (newSyntaxError "unsupported process substitution")
    else if HasPrefix input (go ">>") then Err (newSyntaxError "unsupported redirection")
    else st' ← appendToken st (opToken syntaxRedirect ">"); Ok (Some (st', t))
  else r ← token_word_step input st; Ok (Some r).

(** The loop.  [None]: out of fuel; [tokenize_fuel] below shows that the length
    of the input is enough. *)
Fixpoint tokenize_loop (fuel : nat) (input : gostring) (st : tokens_state)
  : option (res (list syntaxToken)) :=
  match input with
  | [] => Some (Ok (ts_tokens st))
  | c :: t =>
      match fuel with
      | O => None
      | S f =>
          match token_step c t st with
          | Err e => Some (Err e)
          | Ok None => Some (Ok (ts_tokens st))
          | Ok (Some (st', rest)) => tokenize_loop f rest st'
          end
      end
  end.

Definition errFuel : error := errors_New (go "out of fuel").

Definition tokenizeShellSegment (segment : gostring) : res (list syntaxToken) :=
  let input := trimShellSegment segment in
  default (Err errFuel) (tokenize_loop (length input) input (TS [] 0)).

(** ** Parser *)

(** [parseRedirect] on the redirection token [tok] and the tokens after it. *)
Definition parseRedirect (tok : syntaxToken) (rest : list syntaxToken)
  : res (redirectSpec * list syntaxToken) :=
  if text tok =s go "2>&1" then Ok (Redirect 2 (go ">&") [] zeroWord true 1, rest)
  else
    fd ← (if text tok =s go ">" then Ok 1
          else if text tok =s go "2>" then Ok 2
          else Err (newSyntaxError "unsupported redirection"));
    match rest with
    | [] => Err (newSyntaxError "missing redirection target")
    | w :: rest' =>
        if negb (bool_decide (kind w = syntaxWord))
        then Err (newSyntaxError "missing redirection target")
        else if text w =s [] then Err (newSyntaxError "missing redirection target")
        else Ok (Redirect fd (text tok) (text w) (word w) false 0, rest')
    end.

(** The first loop of [parseSimpleCommandTokens]: words and redirections up to
    an operator. *)
Fixpoint collect_command (tokens : list syntaxToken)
    (words : list syntaxToken) (redirs : list redirectSpec)
  : res (list syntaxToken * list redirectSpec * list syntaxToken) :=
  match tokens with
  | [] => Ok (words, redirs, [])
  | tok :: t =>
      match kind tok with
      | syntaxAnd | syntaxOr | syntaxPipe => Ok (words, redirs, tokens)
      | syntaxWord => collect_command t (words ++ [tok]) redirs
      | syntaxRedirect =>
          if MaxRedirectionsPerCommand <=? len redirs
          then Err (newSyntaxLimitError "too many redirections")
          else
            match parseRedirect tok t with
            | Err e => Err e
            | Ok (redir, _) =>
                if Duplicate redir then collect_command t words (redirs ++ [redir])
                else match t with
                     | [] => Err (newSyntaxError "missing redirection target")
                     | _ :: t' => collect_command t' words (redirs ++ [redir])
                     end
            end
      end
  end.

(** The second loop: leading assignments. *)
Fixpoint take_assignments (words : list syntaxToken) (envs : list gostring)
  : res (list gostring * list syntaxToken) :=
  match words with
  | [] => Ok (envs, [])
  | w :: t =>
      if isEnvAssignment (text w) then
        _ ← validateLiteralEnvAssignment (word w);
        take_assignments t (envs ++ [text w])
      else Ok (envs, words)
  end.

Definition parseSimpleCommandTokens (tokens : list syntaxToken)
  : res (simpleCommand * list syntaxToken) :=
  cr ← collect_command tokens [] [];
  let '(words, redirs, rest) := cr in
  ew ← take_assignments words [];
  let '(envs, words) := ew in
  let cmd :=
    match words with
    | [] => Simple envs [] zeroWord [] [] redirs
    | w :: args => Simple envs (text w) (word w) (map text args) (map word args) redirs
    end in
  if (cmdName cmd =s []) && (len envs =? 0) && (0 <? len redirs)
  then Err (newSyntaxError "redirection without command")
  else Ok (cmd, rest).

Definition is_logical (k : syntaxTokenKind) : bool :=
  match k with syntaxAnd | syntaxOr => true | _ => false end.

(** [parsePipelineTokens]; [None]: out of fuel. *)
Fixpoint parse_pipeline (fuel : nat) (tokens : list syntaxToken) (pipe : pipeline)
  : option (res (pipeline * list syntaxToken)) :=
  match fuel with
  | O => None
  | S f =>
      match tokens with
      | [] => Some (Err (newSyntaxError "missing command"))
      | tok :: _ =>
          if is_operator (kind tok) then Some (Err (newSyntaxError "missing command"))
          else match parseSimpleCommandTokens tokens with
          | Err e => Some (Err e)
          | Ok (cmd, rest) =>
              let pipe := Pipeline (Parts pipe ++ [cmd]) (pipeOperators pipe) in
              match rest with
              | [] => Some (Ok (pipe, []))
              | op :: rest' =>
                  if is_logical (kind op) then Some (Ok (pipe, rest))
                  else if negb (bool_decide (kind op = syntaxPipe))
                  then Some (Err (newSyntaxError "unexpected token"))
                  else parse_pipeline f rest'
                         (Pipeline (Parts pipe) (pipeOperators pipe ++ [text op]))
              end
          end
      end
  end.

Definition parsePipelineTokens (tokens : list syntaxToken)
  : res (pipeline * list syntaxToken) :=
  default (Err errFuel) (parse_pipeline (S (length tokens)) tokens (Pipeline [] [])).

(** The loop of [parseShellLine]; [None]: out of fuel. *)
Fixpoint parse_line (fuel : nat) (tokens : list syntaxToken) (line : shellLine)
  : option (res shellLine) :=
  match tokens with
  | [] => Some (Ok line)
  | _ =>
      match fuel with
      | O => None
      | S f =>
          match parsePipelineTokens tokens with
          | Err e => Some (Err e)
          | Ok (part, rest) =>
              let line := Line (Pipelines line ++ [part]) (lineOperators line) in
              match rest with
              | [] => Some (Ok line)
              | op :: rest' =>
                  if negb (is_logical (kind op))
                  then Some (Err (newSyntaxError "expected logical operator"))
                  else
                    match rest' with
                    | [] => Some (Err (newSyntaxError "missing command after logical operator"))
                    | _ => parse_line f rest' (Line (Pipelines line) (lineOperators line ++ [text op]))
                    end
              end
          end
      end
  end.

Definition parseShellLine (segment : gostring) : res shellLine :=
  tokens ← tokenizeShellSegment segment;
  match tokens with
  | [] => Ok (Line [] [])
  | _ => default (Err errFuel) (parse_line (length tokens) tokens (Line [] []))
  end.

Example parse_ex1 :
  match parseShellLine (go "A=1 echo 'a b' x > /tmp/f 2>&1 | cat && ls || pwd;") with
  | Ok l => map (fun p => map (fun c => (EnvAssignments c, cmdName c, cmdArgs c,
                                  map (fun r => (FD r, Target r)) (Redirects c))) (Parts p)) (Pipelines l)
            = [[([go "A=1"], go "echo", [go "a b"; go "x"], [(1, go "/tmp/f"); (2, [])]);
                ([], go "cat", [], [])];
               [([], go "ls", [], [])]; [([], go "pwd", [], [])]]
            /\ lineOperators l = [go "&&"; go "||"]
  | Err _ => False
  end.
Proof. vm_compute. done. Qed.

(** ** Lemmas: words *)

(** A word's text is the concatenation of its segments. *)
Definition wf_word (w : syntaxWordValue) : Prop :=
  word_text w = concat (map seg_text (word_segments w)).

Lemma take_last {A} (l : list A) x : last l = Some x -> take (length l - 1) l ++ [x] = l.
Proof.
  intros H. apply last_Some in H as [l' ->]. rewrite length_app. simpl.
  by rewrite Nat.add_sub, take_app_length.
Qed.

Lemma appendSegment_wf w t q : wf_word w -> wf_word (appendSegment w t q).
Proof.
  unfold wf_word, appendSegment. intros H. simpl. rewrite H.
  destruct (last (word_segments w)) as [s|] eqn:E.
  - case_decide.
    + rewrite <- (take_last _ _ E) at 1.
      rewrite !map_app, !concat_app. simpl. by rewrite !app_nil_r, app_assoc.
    + rewrite map_app, concat_app. simpl. by rewrite app_nil_r.
  - rewrite map_app, concat_app. simpl. by rewrite app_nil_r.
Qed.

Lemma scan_word_facts mode w input w' rest :
  scan_word mode w input = Ok (w', rest) ->
  (wf_word w -> wf_word w') /\ (exists used, input = used ++ rest).
Proof.
  revert mode w. induction input as [[|c t] IH] using list_len_ind; intros mode w H.
  - destruct mode; simpl in H; try done. injection H as <- <-. split; [done|by exists []].
  - assert (forall l mode w'', (length l < length (c :: t))%nat ->
      (wf_word w -> wf_word w'') -> (exists u, c :: t = u ++ l) ->
      scan_word mode w'' l = Ok (w', rest) ->
      (wf_word w -> wf_word w') /\ (exists used, c :: t = used ++ rest)) as Hrec.
    { intros l m w'' Hl Hw [u Hu] Hs. destruct (IH l Hl m w'' Hs) as [H1 [u' ->]].
      split; [tauto|]. exists (u ++ u'). by rewrite <- app_assoc. }
    assert (forall d t', t = d :: t' -> exists u, c :: t = u ++ t') as Htwo
      by (intros d t' ->; by exists [c; d]).
    assert (exists u, c :: t = u ++ t) as Hone by by exists [c].
    destruct mode; simpl in H; repeat case_match; simplify_eq/=;
      try (by split; [auto using appendSegment_wf|exists []]);
      try (split; [auto using appendSegment_wf|by eexists (_ :: _)]);
      try (eapply Hrec; [| | |exact H]; eauto using appendSegment_wf; simpl; lia).
    split; [auto using appendSegment_wf|]. exists [c]. done.
Qed.

Lemma scanSyntaxWord_shrinks c t w rest :
  wordEnd c = false -> scanSyntaxWord (c :: t) = Ok (w, rest) -> (length rest <= length t)%nat.
Proof.
  intros Hc H. unfold scanSyntaxWord in H. simpl in H. rewrite Hc in H.
  assert (forall m w0 l, scan_word m w0 l = Ok (w, rest) -> (length rest <= length l)%nat) as Hle.
  { intros m w0 l Hs. apply scan_word_facts in Hs as [_ [u ->]]. rewrite length_app. lia. }
  repeat case_match; simplify_eq/=; try lia; apply Hle in H; lia.
Qed.

(** ** Lemmas: every error is a syntax error *)
Definition syn {A} (r : res A) : Prop :=
  match r with Ok _ => True | Err e => ErrSyntaxParse ∈ err_is e end.

Lemma syn_err s {A} : syn (Err (newSyntaxError s) : res A).
Proof. simpl. left. Qed.
Lemma syn_limit s {A} : syn (Err (newSyntaxLimitError s) : res A).
Proof. simpl. left. Qed.
Lemma syn_ok {A} (a : A) : syn (Ok a : res A).
Proof. done. Qed.
Lemma syn_bind {A B} (r : res A) (f : A -> res B) :
  syn r -> (forall a, r = Ok a -> syn (f a)) -> syn (r ≫= f).
Proof. destruct r; simpl; auto. Qed.
#[export] Hint Resolve syn_err syn_limit syn_ok syn_bind : go.

(** Splits the goal [syn (if .. then .. else ..)] down to its leaves. *)
Ltac syn_tac :=
  repeat match goal with
  | |- syn (Err (newSyntaxError _)) => apply syn_err
  | |- syn (Err errUnterminated) => apply syn_err
  | |- syn (Err (newSyntaxLimitError _)) => apply syn_limit
  | |- syn (Ok _) => apply syn_ok
  | |- syn (_ ≫= _) => apply syn_bind; [|intros ? _]
  | |- syn (match ?x with _ => _ end) => destruct x eqn:?
  | |- syn (let '_ := ?x in _) => destruct x eqn:?
  end; try done; auto with go.

Lemma scan_word_syn mode w input : syn (scan_word mode w input).
Proof.
  revert mode w. induction input as [[|c t] IH] using list_len_ind; intros mode w.
  - destruct mode; cbn [scan_word]; syn_tac.
  - assert (forall m w, syn (scan_word m w t)) by (intros; apply IH; simpl; lia).
    destruct mode; cbn [scan_word]; syn_tac; subst; apply IH; simpl; lia.
Qed.

Lemma check_segments_syn l : syn (check_segments l).
Proof.
  induction l as [|s l IH]; cbn [check_segments]; [done|]. apply syn_bind; [|done].
  unfold check_segment. cbv zeta. syn_tac.
Qed.

Lemma validateSyntaxWord_syn w : syn (validateSyntaxWord w).
Proof.
  unfold validateSyntaxWord. apply syn_bind; [apply check_segments_syn|]. intros _ _.
  induction (word_segments w) as [|s l IH]; cbn [check_tilde]; syn_tac.
Qed.

Lemma appendToken_syn st tok : syn (appendToken st tok).
Proof. unfold appendToken. cbv zeta. syn_tac. Qed.
#[export] Hint Resolve scan_word_syn check_segments_syn validateSyntaxWord_syn appendToken_syn : go.

Lemma token_step_syn c t st : syn (token_step c t st).
Proof.
  unfold token_step, token_word_step, scanSyntaxWord. cbv zeta. syn_tac.
Qed.
#[export] Hint Resolve token_step_syn : go.

(** ** Lemmas: tokens *)

(** What a token carries: a word passed [validateSyntaxWord] and its text is
    that of its segments; the other tokens have one of the texts of the grammar. *)
Definition word_ok (w : syntaxWordValue) : Prop := wf_word w /\ validateSyntaxWord w = Ok tt.

Definition tok_ok (t : syntaxToken) : Prop :=
  match kind t with
  | syntaxWord => text t = word_text (word t) /\ word_ok (word t)
  | syntaxAnd => text t = go "&&"
  | syntaxOr => text t = go "||"
  | syntaxPipe => text t = go "|"
  | syntaxRedirect => text t = go ">" \/ text t = go "2>" \/ text t = go "2>&1"
  end.

Fixpoint operators_of (l : list syntaxToken) : Z :=
  match l with
  | [] => 0
  | t :: r => (if is_operator (kind t) then 1 else 0) + operators_of r
  end.

Lemma operators_of_app l k : operators_of (l ++ k) = operators_of l + operators_of k.
Proof. induction l as [|t l IH]; simpl; [done|]. rewrite IH. lia. Qed.

Definition tokens_inv (st : tokens_state) : Prop :=
  len (ts_tokens st) <= MaxSyntaxTokens /\
  ts_operators st = operators_of (ts_tokens st) /\
  operators_of (ts_tokens st) <= MaxSyntaxOperators /\
  Forall tok_ok (ts_tokens st).

Lemma appendToken_inv st tok st' :
  tokens_inv st -> tok_ok tok -> appendToken st tok = Ok st' -> tokens_inv st'.
Proof.
  intros (H1 & H2 & H3 & H4) Ht H. unfold appendToken in H. cbv zeta in H.
  unfold tokens_inv. rewrite len_snoc in H.
  repeat case_match; simplify_eq; bool_simp; cbn [ts_tokens ts_operators];
    rewrite operators_of_app, len_snoc, Forall_app; simpl;
    match goal with Hk : is_operator _ = _ |- _ => rewrite Hk end;
    (split; [lia|]); (split; [lia|]); (split; [lia|]); split; [done|by constructor|done|by constructor].
Qed.

Lemma token_word_step_inv c t st st' rest :
  wordEnd c = false -> tokens_inv st ->
  token_word_step (c :: t) st = Ok (st', rest) ->
  tokens_inv st' /\ (length rest <= length t)%nat.
Proof.
  intros Hc Hst H. unfold token_word_step in H.
  destruct (_ && isTokenBoundary _ _).
  { destruct (appendToken st _) eqn:E; simpl in H; inv_ok. split.
    - eapply appendToken_inv; [done| |done]. cbn. tauto.
    - rewrite length_drop. lia. }
  destruct (HasPrefix (c :: t) (go "2>>")); [done|].
  destruct (HasPrefix (c :: t) (go "2>")).
  { destruct (appendToken st _) eqn:E; simpl in H; inv_ok. split.
    - eapply appendToken_inv; [done| |done]. cbn. tauto.
    - rewrite length_drop. lia. }
  destruct (isDigit c && digits_then_redirect t); [done|].
  destruct (scanSyntaxWord (c :: t)) as [[w r]|] eqn:E1; simpl in H; [|done].
  destruct (validateSyntaxWord w) as [[]|] eqn:E2; simpl in H; [|done].
  destruct (appendToken st _) eqn:E3; simpl in H; inv_ok. split.
  - eapply appendToken_inv; [done| |done]. cbn. split; [done|]. split; [|done].
    unfold scanSyntaxWord in E1. apply scan_word_facts in E1 as [E1 _]. by apply E1.
  - by eapply scanSyntaxWord_shrinks.
Qed.

Lemma token_step_inv c t st st' rest :
  tokens_inv st -> token_step c t st = Ok (Some (st', rest)) ->
  tokens_inv st' /\ (length rest <= length t)%nat.
Proof.
  intros Hst H. unfold token_step in H. cbv zeta in H.
  destruct (isShellSpace c) eqn:Es; [inv_ok; split; [done|lia]|].
  destruct (c =c "#"); [done|].
  destruct (_ || _) eqn:Esep; [by case_match|].
  assert (forall k s l, tok_ok (opToken k s) -> (length l <= length t)%nat ->
    (st' ← appendToken st (opToken k s); Ok (Some (st', l))) = Ok (Some (st', rest)) ->
    tokens_inv st' /\ (length rest <= length t)%nat) as Hop.
  { intros k s l Htok Hl Ha. destruct (appendToken st (opToken k s)) eqn:E; simpl in Ha; inv_ok.
    split; [by eapply appendToken_inv|done]. }
  destruct (c =c "&") eqn:E1.
  { case_match; [|done]. eapply Hop; [| |exact H]; [done|]. simpl. rewrite length_drop. lia. }
  destruct (c =c "|") eqn:E2.
  { case_match; (eapply Hop; [| |exact H]; [done|]); simpl; rewrite ?length_drop; lia. }
  destruct (c =c "<") eqn:E3; [by repeat case_match|].
  destruct (c =c ">") eqn:E4.
  { repeat case_match; try done. eapply Hop; [| |exact H]; [|done]. cbn. tauto. }
  destruct (token_word_step _ _) as [[st2 r2]|] eqn:E; simpl in H; inv_ok.
  eapply token_word_step_inv; [|done|done].
  apply orb_false_iff in Esep as [E5 E6].
  unfold wordEnd, isSyntaxOperatorStart. by rewrite Es, E5, E6, E1, E2, E3, E4.
Qed.

(** Termination of the tokenizer, its bounds and its error class. *)
Lemma tokenize_loop_spec fuel input st :
  (length input <= fuel)%nat -> tokens_inv st ->
  exists r, tokenize_loop fuel input st = Some r /\ syn r /\
    forall tokens, r = Ok tokens -> exists st', ts_tokens st' = tokens /\ tokens_inv st'.
Proof.
  revert input st. induction fuel as [|f IH]; intros [|c t] st Hlen Hst; simpl in Hlen; try lia.
  1,2: simpl; eexists; split; [done|]; split; [done|]; intros ? [= <-]; eauto.
  cbn [tokenize_loop]. pose proof (token_step_syn c t st) as Hsyn.
  destruct (token_step c t st) as [[[st' rest]|]|e] eqn:E.
  - apply token_step_inv in E as [E1 E2]; [|done]. apply IH; [lia|done].
  - eexists; split; [done|]. split; [done|]. intros ? [= <-]. eauto.
  - eexists; split; [done|]. split; [done|]. done.
Qed.

Lemma tokens_inv_nil : tokens_inv (TS [] 0).
Proof. split; [vm_compute; congruence|]. split; [done|]. split; [vm_compute; congruence|constructor]. Qed.

Lemma tokenizeShellSegment_spec segment :
  syn (tokenizeShellSegment segment) /\
  forall tokens, tokenizeShellSegment segment = Ok tokens ->
    len tokens <= MaxSyntaxTokens /\ operators_of tokens <= MaxSyntaxOperators /\ Forall tok_ok tokens.
Proof.
  unfold tokenizeShellSegment. cbv zeta.
  destruct (tokenize_loop_spec (length (trimShellSegment segment)) (trimShellSegment segment) (TS [] 0))
    as (r & Hr & Hs & Hinv); [lia|apply tokens_inv_nil|].
  rewrite Hr. simpl. split; [done|]. intros tokens ->.
  destruct (Hinv tokens eq_refl) as (st' & <- & H1 & H2 & H3 & H4). done.
Qed.

(** ** Well-formed syntax trees *)
Definition redir_ok (r : redirectSpec) : Prop :=
  r = Redirect 2 (go ">&") [] zeroWord true 1 \/
  (Duplicate r = false /\
   ((FD r = 1 /\ Operator r = go ">") \/ (FD r = 2 /\ Operator r = go "2>")) /\
   Target r <> [] /\ Target r = word_text (TargetWord r) /\ word_ok (TargetWord r)).

Definition cmd_ok (c : simpleCommand) : Prop :=
  cmdName c = word_text (NameWord c) /\ cmdArgs c = map word_text (ArgWords c) /\
  Forall word_ok (NameWord c :: ArgWords c) /\
  Forall (fun a => isEnvAssignment a = true) (EnvAssignments c) /\
  Forall redir_ok (Redirects c) /\ len (Redirects c) <= MaxRedirectionsPerCommand.

Definition pipe_ok (p : pipeline) : Prop :=
  len (Parts p) = len (pipeOperators p) + 1 /\
  Forall cmd_ok (Parts p) /\ Forall (fun o => o = go "|") (pipeOperators p).

(** The line as executed: one operator between two pipelines, all of the
    grammar's, and every part well-formed. *)
Definition line_ok (l : shellLine) : Prop :=
  (l = Line [] [] \/ len (Pipelines l) = len (lineOperators l) + 1) /\
  Forall pipe_ok (Pipelines l) /\
  Forall (fun o => o = go "&&" \/ o = go "||") (lineOperators l).

(** The number of simple commands of a line. *)
Definition commands_of (l : shellLine) : Z := len (concat (map Parts (Pipelines l))).

Lemma parseRedirect_facts tok rest r rest' :
  tok_ok tok -> kind tok = syntaxRedirect -> Forall tok_ok rest ->
  parseRedirect tok rest = Ok (r, rest') ->
  redir_ok r /\ rest' = (if Duplicate r then rest else tail rest) /\
  (Duplicate r = false -> rest <> [] /\ operators_of rest = operators_of (tail rest)).
Proof.
  intros Htok Hk Hrest H. unfold parseRedirect in H. unfold tok_ok in Htok. rewrite Hk in Htok.
  destruct (text tok =s go "2>&1") eqn:E1.
  { inv_ok. split; [by left|]. done. }
  destruct (if text tok =s go ">" then _ else _) as [fd|] eqn:E2; simpl in H; [|done].
  destruct rest as [|w rest2]; [done|]. apply Forall_cons in Hrest as [Hw Hrest].
  destruct (negb _) eqn:E3; [done|]. destruct (text w =s []) eqn:E4; [done|].
  inv_ok. bool_simp. unfold tok_ok in Hw. rewrite E3 in Hw. destruct Hw as [Hw1 Hw2].
  split; [|split; [done|]].
  - right. split; [done|]. split; [|done]. cbn [FD Operator].
    destruct (text tok =s go ">") eqn:E5; bool_simp; inv_ok; [by left|].
    destruct (text tok =s go "2>") eqn:E6; bool_simp; inv_ok. by right.
  - intros _. split; [done|]. simpl. by rewrite E3.
Qed.

Lemma collect_command_syn tokens words redirs : syn (collect_command tokens words redirs).
Proof.
  revert words redirs. induction tokens as [[|tok t] IH] using list_len_ind; intros words redirs;
    [done|]. cbn [collect_command].
  assert (syn (parseRedirect tok t)) as Hr.
  { unfold parseRedirect. cbv zeta. syn_tac. }
  destruct (kind tok); try done; [apply IH; simpl; lia|].
  destruct (_ <=? _); [apply syn_limit|].
  destruct (parseRedirect tok t) as [[r r']|]; [|done].
  destruct (Duplicate r); [apply IH; simpl; lia|]. destruct t; [apply syn_err|]. apply IH. simpl; lia.
Qed.

Definition at_operator (l : list syntaxToken) : Prop :=
  match l with [] => True | t :: _ => is_operator (kind t) = true end.

(** What collecting a command from [tokens] leaves: well-formed words and
    redirections, and an unread rest that starts at an operator. *)
Definition words_ok (words : list syntaxToken) (redirs : list redirectSpec) : Prop :=
  Forall tok_ok words /\ Forall (fun w => kind w = syntaxWord) words /\
  Forall redir_ok redirs /\ len redirs <= MaxRedirectionsPerCommand.

Definition unread (tokens rest : list syntaxToken) : Prop :=
  at_operator rest /\ Forall tok_ok rest /\ operators_of rest = operators_of tokens /\
  (length rest <= length tokens)%nat /\ (~ at_operator tokens -> (length rest < length tokens)%nat).

Lemma unread_skip l tokens rest :
  (length l < length tokens)%nat -> operators_of l = operators_of tokens ->
  unread l rest -> unread tokens rest.
Proof.
  intros Hl Ho (H1 & H2 & H3 & H4 & _). split; [done|]. split; [done|]. split; [congruence|].
  split; [lia|]. intros _. lia.
Qed.

Lemma words_ok_word words redirs tok :
  words_ok words redirs -> tok_ok tok -> kind tok = syntaxWord -> words_ok (words ++ [tok]) redirs.
Proof. intros (?&?&?&?) ? ?. repeat split; try done; apply Forall_app; split; auto. Qed.

Lemma words_ok_redir words redirs r :
  words_ok words redirs -> redir_ok r -> len redirs < MaxRedirectionsPerCommand ->
  words_ok words (redirs ++ [r]).
Proof.
  intros (?&?&?&?) ? ?. repeat split; try done; [apply Forall_app; split; auto|].
  rewrite len_snoc. lia.
Qed.

Lemma collect_command_facts tokens words redirs words' redirs' rest :
  Forall tok_ok tokens -> words_ok words redirs ->
  collect_command tokens words redirs = Ok (words', redirs', rest) ->
  words_ok words' redirs' /\ unread tokens rest.
Proof.
  revert words redirs. induction tokens as [[|tok t] IH] using list_len_ind;
    intros words redirs Htoks Hok H; cbn [collect_command] in H.
  { inv_ok. split; [done|]. by repeat split. }
  pose proof Htoks as [Htok Ht]%Forall_cons.
  assert (forall l ws rs, (length l < length (tok :: t))%nat -> Forall tok_ok l ->
    words_ok ws rs -> operators_of l = operators_of (tok :: t) ->
    collect_command l ws rs = Ok (words', redirs', rest) ->
    words_ok words' redirs' /\ unread (tok :: t) rest) as Hrec.
  { intros l ws rs Hl Hf Hws Hop Hc. destruct (IH l Hl ws rs) as [? ?]; try done.
    split; [done|]. by eapply unread_skip. }
  assert (is_operator (kind tok) = true -> unread (tok :: t) (tok :: t)) as Hstop.
  { intros Hop. repeat split; done. }
  destruct (kind tok) eqn:Ek; try (inv_ok; by auto).
  - eapply Hrec; [| | | |exact H]; [simpl; lia|done|by apply words_ok_word|]. simpl. by rewrite Ek.
  - destruct (_ <=? len redirs) eqn:El; [done|]. bool_simp.
    destruct (parseRedirect tok t) as [[r r']|] eqn:Er; [|done].
    apply parseRedirect_facts in Er as (Er & _ & Erest); [|done..].
    destruct (Duplicate r).
    + eapply Hrec; [| | | |exact H]; [simpl; lia|done|by apply words_ok_redir|]. simpl. by rewrite Ek.
    + destruct Erest as [_ Erest]; [done|]. destruct t as [|w t']; [done|].
      apply Forall_cons in Ht as [_ Ht'].
      eapply Hrec; [| | | |exact H]; [simpl; lia|done|by apply words_ok_redir|].
      simpl in *. rewrite Ek. simpl. lia.
Qed.

Lemma take_assignments_facts words envs envs' words' :
  take_assignments words envs = Ok (envs', words') ->
  Forall (fun a => isEnvAssignment a = true) envs ->
  Forall (fun a => isEnvAssignment a = true) envs' /\ exists used, words = used ++ words'.
Proof.
  revert envs. induction words as [|w t IH]; intros envs H Hf; cbn [take_assignments] in H.
  { inv_ok. split; [done|by exists []]. }
  destruct (isEnvAssignment (text w)) eqn:E; [|inv_ok; split; [done|by exists []]].
  destruct (validateLiteralEnvAssignment (word w)); simpl in H; [|done].
  apply IH in H as [? [u ->]]; [split; [done|by exists (w :: u)]|].
  apply Forall_app; split; [done|by constructor].
Qed.

Lemma take_assignments_syn words envs : syn (take_assignments words envs).
Proof.
  revert envs. induction words as [|w t IH]; intros envs; cbn [take_assignments]; [done|].
  destruct (isEnvAssignment (text w)); [|done]. apply syn_bind; [|done].
  unfold validateLiteralEnvAssignment. cbv zeta. syn_tac.
Qed.

Lemma parseSimpleCommandTokens_syn tokens : syn (parseSimpleCommandTokens tokens).
Proof.
  unfold parseSimpleCommandTokens. apply syn_bind; [apply collect_command_syn|].
  intros [[words redirs] rest] _. apply syn_bind; [apply take_assignments_syn|].
  intros [envs ws] _. cbv zeta. syn_tac.
Qed.

Lemma zeroWord_ok : word_ok zeroWord.
Proof. done. Qed.

Lemma words_text words :
  Forall tok_ok words -> Forall (fun w => kind w = syntaxWord) words ->
  map text words = map word_text (map word words) /\ Forall word_ok (map word words).
Proof.
  intros H1 H2. induction words as [|w l IH]; [done|].
  apply Forall_cons in H1 as [Hw H1], H2 as [Hk H2]. destruct (IH H1 H2) as [IH1 IH2].
  unfold tok_ok in Hw. rewrite Hk in Hw. destruct Hw as [Ew Hw]. simpl. rewrite Ew, IH1.
  split; [done|by constructor].
Qed.

Lemma parseSimpleCommandTokens_facts tokens cmd rest :
  Forall tok_ok tokens -> parseSimpleCommandTokens tokens = Ok (cmd, rest) ->
  cmd_ok cmd /\ unread tokens rest.
Proof.
  intros Htoks H. unfold parseSimpleCommandTokens in H.
  destruct (collect_command tokens [] []) as [[[words redirs] rest']|] eqn:Ec; simpl in H; [|done].
  destruct (take_assignments words []) as [[envs ws]|] eqn:Ea; simpl in H; [|done].
  apply collect_command_facts in Ec as [(Hw & Hk & Hr & Hl) Hrest]; [|done|by repeat split].
  apply take_assignments_facts in Ea as [He [used ->]]; [|constructor].
  apply Forall_app in Hw as [_ Hw], Hk as [_ Hk].
  destruct (words_text ws Hw Hk) as [Ht Ho].
  destruct (_ && _); [done|]. inv_ok. split; [|done].
  unfold cmd_ok. destruct ws as [|w ws]; cbn; [repeat split; try done; by repeat constructor|].
  simpl in Ht, Ho. injection Ht as Ht1 Ht2. by repeat split.
Qed.

(** ** Lemmas: pipelines and lines *)

(** A pipeline under construction: one operator after each command so far. *)
Definition pipe_acc (p : pipeline) : Prop :=
  len (Parts p) = len (pipeOperators p) /\
  Forall cmd_ok (Parts p) /\ Forall (fun o => o = go "|") (pipeOperators p).

Lemma pipe_acc_cmd p cmd :
  pipe_acc p -> cmd_ok cmd -> pipe_ok (Pipeline (Parts p ++ [cmd]) (pipeOperators p)).
Proof.
  intros (?&?&?) ?. split; [cbn; rewrite len_snoc; lia|]. split; [|done].
  apply Forall_app. split; [done|by constructor].
Qed.

Lemma pipe_ok_op p o : pipe_ok p -> o = go "|" -> pipe_acc (Pipeline (Parts p) (pipeOperators p ++ [o])).
Proof.
  intros (?&?&?) ?. split; [cbn; rewrite len_snoc; lia|]. split; [done|].
  apply Forall_app. split; [done|by constructor].
Qed.

Definition at_logical (l : list syntaxToken) : Prop :=
  match l with [] => True | t :: _ => is_logical (kind t) = true end.

Lemma parse_pipeline_spec fuel tokens p :
  (length tokens < fuel)%nat -> Forall tok_ok tokens -> pipe_acc p ->
  exists r, parse_pipeline fuel tokens p = Some r /\ syn r /\
    forall p' rest, r = Ok (p', rest) ->
      pipe_ok p' /\ at_logical rest /\ Forall tok_ok rest /\ (length rest < length tokens)%nat /\
      len (Parts p') - len (Parts p) = 1 + operators_of tokens - operators_of rest.
Proof.
  revert tokens p. induction fuel as [|f IH]; intros tokens p Hf Htoks Hp; [lia|].
  cbn [parse_pipeline].
  destruct tokens as [|tok t]; [eexists; split; [done|]; split; [apply syn_err|done]|].
  destruct (is_operator (kind tok)) eqn:Eop; [eexists; split; [done|]; split; [apply syn_err|done]|].
  pose proof (parseSimpleCommandTokens_syn (tok :: t)) as Hsyn.
  destruct (parseSimpleCommandTokens (tok :: t)) as [[cmd rest]|e] eqn:Ec;
    [|eexists; split; [done|]; split; [done|done]].
  apply parseSimpleCommandTokens_facts in Ec as [Hcmd (Hat & Hrok & Hops & Hle & Hlt)]; [|done].
  assert (length rest < length (tok :: t))%nat as Hlt'
    by (apply Hlt; simpl; by rewrite Eop).
  pose proof (pipe_acc_cmd p cmd Hp Hcmd) as Hp'. cbv zeta.
  destruct rest as [|op rest'].
  { eexists; split; [done|]. split; [done|]. intros p' rest [= <- <-].
    repeat split; try done; try apply Hp'. cbn [Parts] in *. rewrite len_snoc. simpl in Hops. simpl. lia. }
  simpl in Hat. pose proof Hrok as [Hop_ok Hr'_ok]%Forall_cons.
  destruct (is_logical (kind op)) eqn:El.
  { eexists; split; [done|]. split; [done|]. intros p' rest [= <- <-].
    repeat split; try done; try apply Hp'. cbn [Parts]. rewrite len_snoc. lia. }
  destruct (kind op) eqn:Ek; try done. cbn [negb].
  replace (bool_decide (syntaxPipe = syntaxPipe)) with true by done. cbn [negb].
  unfold tok_ok in Hop_ok. rewrite Ek in Hop_ok.
  destruct (IH rest' _ ltac:(simpl in *; lia) Hr'_ok (pipe_ok_op _ (text op) Hp' Hop_ok))
    as (r & Hr & Hrs & Hspec).
  exists r. split; [exact Hr|]. split; [done|]. intros p' rest Heq.
  destruct (Hspec p' rest Heq) as (?&?&?&?&Hcount). repeat split; try done; try apply H.
  - simpl in *. lia.
  - cbn [Parts] in Hcount. rewrite len_snoc in Hcount. simpl in Hops. rewrite Ek in Hops.
    simpl in Hops. simpl. lia.
Qed.

Lemma pipe_acc_nil : pipe_acc (Pipeline [] []).
Proof. done. Qed.

Lemma parsePipelineTokens_spec tokens :
  Forall tok_ok tokens ->
  syn (parsePipelineTokens tokens) /\
  forall p rest, parsePipelineTokens tokens = Ok (p, rest) ->
    pipe_ok p /\ at_logical rest /\ Forall tok_ok rest /\ (length rest < length tokens)%nat /\
    len (Parts p) = 1 + operators_of tokens - operators_of rest.
Proof.
  intros Htoks. unfold parsePipelineTokens.
  destruct (parse_pipeline_spec (S (length tokens)) tokens (Pipeline [] []))
    as (r & Hr & Hs & Hspec); [lia|done|apply pipe_acc_nil|].
  rewrite Hr. simpl. split; [done|]. intros p rest ->.
  destruct (Hspec p rest eq_refl) as (?&?&?&?&Hc). cbn in Hc. rewrite len_nil in Hc.
  repeat split; try done; try apply H. lia.
Qed.

(** A line under construction: one operator after each pipeline so far. *)
Definition line_acc (l : shellLine) : Prop :=
  len (Pipelines l) = len (lineOperators l) /\ Forall pipe_ok (Pipelines l) /\
  Forall (fun o => o = go "&&" \/ o = go "||") (lineOperators l).

Lemma commands_of_snoc ps ops p :
  commands_of (Line (ps ++ [p]) ops) = commands_of (Line ps ops) + len (Parts p).
Proof.
  unfold commands_of. cbn [Pipelines]. rewrite map_app, concat_app, len_app. simpl.
  by rewrite app_nil_r.
Qed.

Lemma parse_line_spec fuel tokens l :
  (length tokens <= fuel)%nat -> Forall tok_ok tokens -> tokens <> [] -> line_acc l ->
  exists r, parse_line fuel tokens l = Some r /\ syn r /\
    forall l', r = Ok l' -> line_ok l' /\
      commands_of l' = commands_of l + 1 + operators_of tokens.
Proof.
  revert tokens l. induction fuel as [|f IH]; intros tokens l Hf Htoks Hne Hl.
  { destruct tokens; simpl in Hf; [done|lia]. }
  destruct tokens as [|tok t] eqn:Etok; [done|]. rewrite <- Etok in *. clear Hne.
  replace (parse_line (S f) tokens l) with
    (match parsePipelineTokens tokens with
     | Err e => Some (Err e)
     | Ok (part, rest) =>
         let line := Line (Pipelines l ++ [part]) (lineOperators l) in
         match rest with
         | [] => Some (Ok line)
         | op :: rest' =>
             if negb (is_logical (kind op))
             then Some (Err (newSyntaxError "expected logical operator"))
             else match rest' with
                  | [] => Some (Err (newSyntaxError "missing command after logical operator"))
                  | _ => parse_line f rest' (Line (Pipelines line) (lineOperators line ++ [text op]))
                  end
         end
     end) by (rewrite Etok; done).
  destruct (parsePipelineTokens_spec tokens Htoks) as [Hsyn Hspec].
  destruct (parsePipelineTokens tokens) as [[part rest]|e]; [|eexists; split; [done|]; done].
  destruct (Hspec part rest eq_refl) as (Hp & Hat & Hrok & Hlt & Hc). cbv zeta.
  destruct Hl as (Hl1 & Hl2 & Hl3).
  assert (Forall pipe_ok (Pipelines l ++ [part])) as Hps by (apply Forall_app; split; [done|by constructor]).
  destruct rest as [|op rest'].
  { eexists; split; [done|]. split; [done|]. intros l' [= <-]. split.
    - split; [right; cbn; rewrite len_snoc; lia|]. done.
    - rewrite commands_of_snoc. simpl in Hc. unfold commands_of in *. cbn [Pipelines] in *. lia. }
  simpl in Hat. rewrite Hat. cbn [negb]. pose proof Hrok as [Hop_ok Hr'_ok]%Forall_cons.
  destruct rest' as [|tok2 t2] eqn:Er; [eexists; split; [done|]; split; [apply syn_err|done]|].
  rewrite <- Er in *. cbn [Pipelines lineOperators].
  destruct (IH rest' (Line (Pipelines l ++ [part]) (lineOperators l ++ [text op])))
    as (r & Hr & Hrs & Hrspec).
  - simpl in *. lia.
  - done.
  - by rewrite Er.
  - split; [cbn; rewrite !len_snoc; lia|]. split; [done|]. cbn. apply Forall_app. split; [done|].
    constructor; [|done]. unfold tok_ok in Hop_ok. destruct (kind op); try done; auto.
  - exists r. rewrite Er in Hr |- *. split; [exact Hr|]. split; [done|]. intros l' Heq.
    destruct (Hrspec l' Heq) as [? Hcount]. split; [done|].
    rewrite Hcount, commands_of_snoc, Hc. simpl.
    assert (is_operator (kind op) = true) as -> by (by destruct (kind op)).
    unfold commands_of. cbn [Pipelines]. lia.
Qed.

(** ** Printing a command, every word in single quotes *)
Definition quoteWord (w : gostring) : gostring := chSQ :: w ++ [chSQ].
Definition printCommand (words : list gostring) : gostring := Join (map quoteWord words) (go " ").
Definition quotedWord (w : gostring) : syntaxWordValue := Word w [Seg w singleQuoted].

(** Words that fit in single quotes on one line. *)
Definition printable_word (w : gostring) : Prop := (chSQ ∉ w) /\ (chNL ∉ w).

Lemma separator_single i ts w t :
  printable_word w ->
  separator_from i inSingle ts (w ++ chSQ :: t) = separator_from (i + S (length w)) noQuote ts t.
Proof.
  revert i. induction w as [|c w IH]; intros i [H1 H2].
  - simpl. by rewrite Nat.add_1_r.
  - apply not_elem_of_cons in H1 as [H1 H1'], H2 as [H2 H2'].
    rewrite <- app_comm_cons, separator_from_cons.
    destruct (Ascii.eqb_spec c chNL); [congruence|]. destruct (Ascii.eqb_spec c chSQ); [congruence|].
    rewrite IH by done. f_equal. simpl. lia.
Qed.

Lemma separator_printed i ts words :
  Forall printable_word words -> separator_from i noQuote ts (printCommand words) = None.
Proof.
  unfold printCommand. intros H. revert i ts. induction H as [|w words Hw H IH]; intros i ts; [done|].
  cbn [map]. destruct words as [|w2 words].
  - simpl. by rewrite separator_single.
  - rewrite Join_cons by done. unfold quoteWord at 1. rewrite <- app_comm_cons, separator_from_cons.
    replace (chSQ =c chNL) with false by done. replace (chSQ =c chBS) with false by done.
    rewrite Ascii.eqb_refl, <- app_assoc. cbn [app go list_ascii_of_string]. rewrite separator_single by done.
    rewrite separator_from_cons. apply IH.
Qed.

Lemma scan_single w0 acc w t :
  chSQ ∉ w ->
  scan_word (scanSingle acc) w0 (w ++ chSQ :: t)
  = scan_word scanPlain (appendSegment w0 (acc ++ w) singleQuoted) t.
Proof.
  revert acc. induction w as [|c w IH]; intros acc H.
  - cbn [app]. cbn [scan_word]. by rewrite Ascii.eqb_refl, app_nil_r.
  - apply not_elem_of_cons in H as [H1 H2]. rewrite <- app_comm_cons. cbn [scan_word].
    destruct (Ascii.eqb_spec c chSQ); [congruence|]. rewrite IH by done. by rewrite <- app_assoc.
Qed.

Lemma scan_quoteWord w t :
  chSQ ∉ w -> (forall c r, t = c :: r -> wordEnd c = true) ->
  scanSyntaxWord (quoteWord w ++ t) = Ok (quotedWord w, t).
Proof.
  intros Hw Ht. unfold scanSyntaxWord, quoteWord. rewrite <- app_comm_cons, <- app_assoc.
  cbn [scan_word]. replace (wordEnd chSQ) with false by done. rewrite Ascii.eqb_refl.
  cbn [app]. rewrite scan_single by done. cbn.
  destruct t as [|c r]; [done|]. cbn [scan_word]. by rewrite (Ht c r).
Qed.

Lemma quotedWord_valid w : validateSyntaxWord (quotedWord w) = Ok tt.
Proof. unfold validateSyntaxWord, quotedWord. simpl. by destruct w. Qed.

Definition wordToken (w : gostring) : syntaxToken := Token syntaxWord w (quotedWord w).

Lemma token_step_quoteWord w t st :
  chSQ ∉ w -> (forall c r, t = c :: r -> wordEnd c = true) ->
  len (ts_tokens st) < MaxSyntaxTokens ->
  token_step chSQ (w ++ chSQ :: t) st
  = Ok (Some (TS (ts_tokens st ++ [wordToken w]) (ts_operators st), t)).
Proof.
  intros Hw Ht Hl.
  change (token_step chSQ (w ++ chSQ :: t) st)
    with (r ← token_word_step (chSQ :: w ++ chSQ :: t) st; Ok (Some r) : res (option (tokens_state * gostring))).
  unfold token_word_step.
  assert (forall s, HasPrefix (chSQ :: w ++ chSQ :: t) (go (String "2" s)) = false) as Hpre.
  { intros s. apply not_true_iff_false. intros [u E]%HasPrefix_spec. discriminate. }
  rewrite !Hpre. cbn [andb]. replace (isDigit chSQ) with false by done. cbn [andb].
  replace (chSQ :: w ++ chSQ :: t) with (quoteWord w ++ t)
    by (unfold quoteWord; by rewrite <- app_comm_cons, <- app_assoc).
  rewrite scan_quoteWord by done. cbn [mbind result_bind fst snd].
  rewrite quotedWord_valid. cbn [mbind result_bind].
  unfold appendToken. cbv zeta. cbn [kind is_operator]. rewrite len_snoc.
  destruct (Z.ltb_spec MaxSyntaxTokens (len (ts_tokens st) + 1)); [lia|]. done.
Qed.

Lemma tokenize_printed words fuel st :
  Forall printable_word words -> (length (printCommand words) <= fuel)%nat ->
  len (ts_tokens st) + len words <= MaxSyntaxTokens ->
  tokenize_loop fuel (printCommand words) st = Some (Ok (ts_tokens st ++ map wordToken words)).
Proof.
  intros H. revert fuel st. induction H as [|w words [Hw _] H IH]; intros fuel st Hf Hl.
  { simpl. destruct fuel; by rewrite app_nil_r. }
  rewrite len_cons in Hl. pose proof (len_nonneg words).
  unfold printCommand in *. cbn [map] in *. destruct words as [|w2 words].
  - simpl in Hf. destruct fuel as [|f]; [lia|]. cbn [map Join quoteWord tokenize_loop].
    rewrite token_step_quoteWord by (done || lia). by destruct f.
  - rewrite Join_cons in * by done. unfold quoteWord in * at 1.
    rewrite <- app_comm_cons, <- app_assoc in *. cbn [app] in *. cbn [length] in Hf.
    destruct fuel as [|f]; [lia|]. cbn [tokenize_loop].
    rewrite token_step_quoteWord; [|done| |lia].
    2: { intros c r [= <- _]. done. }
    cbn [app go list_ascii_of_string].
    rewrite length_app in Hf. cbn [length] in Hf.
    destruct f as [|f]; [lia|]. cbn [tokenize_loop].
    unfold token_step at 1. cbn [isShellSpace Ascii.eqb Bool.eqb orb].
    rewrite IH.
    + cbn [ts_tokens]. by rewrite <- app_assoc.
    + simpl in Hf |- *. lia.
    + cbn [ts_tokens]. rewrite len_snoc. lia.
Qed.

Lemma collect_printed words ws rs :
  collect_command (map wordToken words) ws rs = Ok (ws ++ map wordToken words, rs, []).
Proof.
  revert ws. induction words as [|w words IH]; intros ws; cbn [map collect_command].
  - by rewrite app_nil_r.
  - cbn [kind wordToken]. rewrite IH. by rewrite <- app_assoc.
Qed.

Lemma parse_printed_tokens name args :
  isEnvAssignment name = false -> 
  parseSimpleCommandTokens (map wordToken (name :: args))
  = Ok (Simple [] name (quotedWord name) args (map quotedWord args) [], []).
Proof.
  intros He. unfold parseSimpleCommandTokens. rewrite collect_printed.
  cbn [mbind result_bind app map take_assignments text wordToken]. rewrite He.
  cbn [mbind result_bind]. rewrite !map_map. cbn [text word wordToken].
  rewrite map_id. cbn [cmdName]. replace (len [] =? 0) with true by done. cbn [len].
  change (0 <? len []) with false. by rewrite andb_false_r.
Qed.

Lemma parseShellLine_spec segment :
  syn (parseShellLine segment) /\
  forall l, parseShellLine segment = Ok l ->
    line_ok l /\ commands_of l <= MaxSyntaxOperators + 1.
Proof.
  unfold parseShellLine. destruct (tokenizeShellSegment_spec segment) as [Hs Ht].
  destruct (tokenizeShellSegment segment) as [tokens|e]; [|done]. cbn [mbind result_bind].
  destruct (Ht tokens eq_refl) as (H1 & H2 & H3).
  destruct tokens as [|tok t].
  { split; [done|]. intros l [= <-]. split; [|vm_compute; congruence].
    split; [by left|]. split; constructor. }
  destruct (parse_line_spec (length (tok :: t)) (tok :: t) (Line [] []))
    as (r & Hr & Hrs & Hspec); [lia|done|done|done|].
  rewrite Hr. cbn [default]. split; [exact Hrs|]. intros l Heq. destruct (Hspec l Heq) as [? Hc].
  split; [done|]. unfold commands_of at 2 in Hc. cbn in Hc. rewrite len_nil in Hc. simpl in H2. lia.
Qed.

Lemma pipeline_printed_tokens name args :
  isEnvAssignment name = false ->
  parsePipelineTokens (map wordToken (name :: args))
  = Ok (Pipeline [Simple [] name (quotedWord name) args (map quotedWord args) []] [], []).
Proof.
  intros He. unfold parsePipelineTokens. cbn [parse_pipeline map kind wordToken is_operator].
  change (wordToken name :: map wordToken args) with (map wordToken (name :: args)).
  by rewrite parse_printed_tokens.
Qed.

Lemma parse_printed_line name args :
  Forall printable_word (name :: args) -> isEnvAssignment name = false ->
  len args < MaxSyntaxTokens ->
  parseShellLine (printCommand (name :: args))
  = Ok (Line [Pipeline [Simple [] name (quotedWord name) args (map quotedWord args) []] []] []).
Proof.
  intros Hp He Hl. unfold parseShellLine, tokenizeShellSegment, trimShellSegment, findCommandSeparator.
  rewrite separator_printed by done. cbv zeta.
  rewrite tokenize_printed; [|done|lia|cbn [ts_tokens]; rewrite len_nil, len_cons; lia].
  cbn [default mbind result_bind ts_tokens app map].
  unfold id. cbn [mbind result_bind parse_line length].
  change (wordToken name :: map wordToken args) with (map wordToken (name :: args)).
  by rewrite pipeline_printed_tokens.
Qed.

(** A byte that cannot survive in an unquoted or double-quoted part of a word:
    command and process substitution, grouping and background need one. *)
Definition forbidden_byte (c : ascii) : bool := ContainsByte (go "`(){}&") c.

Definition literal_only (w : syntaxWordValue) : Prop :=
  Forall (fun s => seg_quote s = unquoted \/ seg_quote s = doubleQuoted ->
                   Forall (fun c => forbidden_byte c = false) (seg_text s)) (word_segments w).

Lemma not_ContainsByte s c : ContainsByte s c = false -> Forall (fun x => (x =c c) = false) s.
Proof. apply existsb_false_Forall. Qed.

Lemma check_segment_literal s :
  check_segment s = Ok tt -> seg_quote s = unquoted \/ seg_quote s = doubleQuoted ->
  Forall (fun c => forbidden_byte c = false) (seg_text s).
Proof.
  intros H Hq. unfold check_segment in H. cbv zeta in H.
  assert (Forall (fun c => (c =c "`") = false) (seg_text s) /\
          Forall (fun c => ContainsByte (go "(){}") c = false) (seg_text s) /\
          Forall (fun c => (c =c "&") = false) (seg_text s)) as (Ha & Hb & Hc).
  { destruct Hq as [Hq|Hq]; rewrite Hq in H;
      destruct (Contains (seg_text s) (go "$(") || ContainsByte (seg_text s) "`") eqn:E1; try done;
      destruct (Contains (seg_text s) (go "<(") || Contains (seg_text s) (go ">(")) eqn:E2; try done;
      destruct (ContainsAny (seg_text s) (go "(){}")) eqn:E3; try done;
      destruct (ContainsByte (seg_text s) "&") eqn:E4; try done;
      apply orb_false_iff in E1 as [_ E1];
      (split; [by apply not_ContainsByte|]); (split; [by apply existsb_false_Forall|]);
      by apply not_ContainsByte. }
  rewrite !Forall_forall in *. intros c Hin.
  specialize (Ha c Hin). specialize (Hb c Hin). specialize (Hc c Hin).
  apply not_true_iff_false. intros Hf. apply existsb_exists in Hf as (x & Hx & Heq).
  apply Ascii.eqb_eq in Heq as ->. repeat (destruct Hx as [<-|Hx]; [done|]). done.
Qed.

Lemma word_ok_literal w : word_ok w -> literal_only w.
Proof.
  intros [_ H]. unfold validateSyntaxWord in H.
  destruct (check_segments (word_segments w)) as [[]|] eqn:E; [|done]. clear H.
  unfold literal_only. induction (word_segments w) as [|s l IH]; [constructor|].
  cbn [check_segments] in E. destruct (check_segment s) as [[]|] eqn:Es; [|done].
  constructor; [by apply check_segment_literal|by apply IH].
Qed.

(** ** Properties *)

(** C8. Every line the parser accepts is well-formed: pipelines and logical
    operators alternate, so do commands and pipes inside a pipeline (indexing
    [line.Operators[i-1]] during execution is in range), each redirection is one
    of the three the executor supports, there are at most
    [MaxRedirectionsPerCommand] of them per command and at most
    [MaxSyntaxOperators + 1] commands, and every word is valid and spells the
    concatenation of its quoted parts. *)
Theorem parseShellLine_wellformed segment l :
  parseShellLine segment = Ok l -> line_ok l /\ commands_of l <= MaxSyntaxOperators + 1.
Proof. apply parseShellLine_spec. Qed.

Lemma parseShellLine_wellformed_witness :
  match parseShellLine (go "A=1 echo 'a b' x > /tmp/f 2>&1 | cat && ls || pwd;") with
  | Ok l => line_ok l /\ commands_of l <= MaxSyntaxOperators + 1
  | Err _ => False
  end.
Proof.
  destruct (parseShellLine (go "A=1 echo 'a b' x > /tmp/f 2>&1 | cat && ls || pwd;")) as [l|e] eqn:E.
  - exact (parseShellLine_wellformed _ l E).
  - vm_compute in E. discriminate E.
Defined.

(** The lexer and the parser are total and fail only with syntax errors:
    on every input they return a line or an error for which
    [errors.Is(err, errSyntaxParse)] holds; in particular no input exhausts the
    fuel, which is the length of the input. *)
Lemma parseShellLine_total segment :
  (exists l, parseShellLine segment = Ok l) \/
  (exists e, parseShellLine segment = Err e /\ errors_Is e ErrSyntaxParse = true).
Proof.
  destruct (parseShellLine_spec segment) as [Hs _].
  destruct (parseShellLine segment) as [l|e]; [left; by exists l|right; exists e].
  split; [done|]. by apply bool_decide_eq_true.
Qed.

Definition command_words (c : simpleCommand) : list syntaxWordValue :=
  NameWord c :: ArgWords c ++ map TargetWord (Redirects c).

(** No substitution reaches execution: in every word of an accepted line
    (names, arguments and redirection targets), the parts that are not single
    quoted or backslash-escaped contain none of the bytes that command
    substitution, process substitution, grouping or background jobs need. *)
Lemma parseShellLine_no_substitution segment l c w :
  parseShellLine segment = Ok l ->
  c ∈ concat (map Parts (Pipelines l)) -> w ∈ command_words c -> literal_only w.
Proof.
  intros H Hc Hw. destruct (proj2 (parseShellLine_spec segment) l H) as [(_ & Hp & _) _].
  assert (cmd_ok c) as (_ & _ & Hwords & _ & Hr & _).
  { apply list_elem_of_In, in_concat in Hc as (parts & Hparts & Hin).
    apply in_map_iff in Hparts as (p & <- & Hpin).
    rewrite Forall_forall in Hp. destruct (Hp p) as (_ & Hcmds & _); [by apply list_elem_of_In|].
    rewrite Forall_forall in Hcmds. apply Hcmds. by apply list_elem_of_In. }
  apply word_ok_literal. unfold command_words in Hw. rewrite app_comm_cons in Hw.
  apply elem_of_app in Hw as [Hw|Hw]; [by rewrite Forall_forall in Hwords; apply Hwords|].
  apply list_elem_of_In, in_map_iff in Hw as (r & <- & Hin).
  rewrite Forall_forall in Hr. destruct (Hr r) as [->|(_ & _ & _ & _ & Hok)];
    [by apply list_elem_of_In|done|done].
Qed.


(** Printing and parsing a command: for a command whose words contain no
    single quote and no newline (and whose name is not an assignment), the line
    that writes every word in single quotes parses back to exactly that name and
    those arguments, byte for byte. *)
Lemma parse_printCommand name args :
  Forall printable_word (name :: args) -> isEnvAssignment name = false ->
  len args < MaxSyntaxTokens ->
  parseShellLine (printCommand (name :: args))
  = Ok (Line [Pipeline [Simple [] name (quotedWord name) args (map quotedWord args) []] []] []).
Proof. apply parse_printed_line. Qed.

