(* ===== verification/Dynamic.v ===== *)
(** * The per-session metadata store: [modules/fakeshell/cmds/dynamic.go].

    [DynamicStore] keeps one metadata record per touched path and the order of
    first insertion.  It refines a list of records with unique paths in insertion
    order ([spec_record]): recording replaces in place or appends, never drops,
    and fails without effect when a bound is exceeded. *)
From Stdlib Require Import Ascii String ZArith Lia.
From stdpp Require Import base gmap strings list.
From S2P Require Import Prelude GoStrings GoPath Paths.
Local Open Scope Z_scope.

Definition MaxDynamicEntries : Z := 256.
Definition MaxDynamicPathLen : Z := 512.
Definition MaxDynamicPreviewBytes : Z := 256.

Definition validDynamicKinds : list gostring := [go "file"; go "dir"].

(** A time is the number of nanoseconds since the epoch; a nil preview is the
    empty one ([truncateAndCopyPreview] never stores an empty non-nil slice). *)
Record DynamicEntry := Entry {
  Path : gostring;
  Kind : gostring;
  Size : Z;
  Preview : gostring;
  SHA256 : gostring;
  UpdatedAt : Z
}.

#[export] Instance DynamicEntry_eq_dec : EqDecision DynamicEntry.
Proof. solve_decision. Defined.

Definition zeroEntry : DynamicEntry := Entry [] [] 0 [] [] 0.

Record DynamicStore := Store {
  entries : gmap gostring DynamicEntry;
  order : list gostring
}.

Definition NewDynamicStore : DynamicStore := Store ∅ [].

Definition normalizeDynamicPath (pathArg : gostring) : res gostring :=
  match ResolvePath [slash] pathArg with
  | Err e => Err (errors_wrap (go "dynamic: ") e)
  | Ok cleaned =>
      if MaxDynamicPathLen <? len cleaned
      then Err (errors_New (go "dynamic: path length " ++ Itoa (len cleaned)
                            ++ go " exceeds MaxDynamicPathLen (" ++ Itoa MaxDynamicPathLen ++ go ")"))
      else Ok cleaned
  end.

Definition lower_hex (c : ascii) : bool :=
  (("0" <=c c) && (c <=c "9")) || (("a" <=c c) && (c <=c "f")).
Definition hex_digit (c : ascii) : bool :=
  lower_hex c || (("A" <=c c) && (c <=c "F")).

Definition truncateAndCopyPreview (p : gostring) : gostring :=
  take (Z.to_nat (if MaxDynamicPreviewBytes <? len p then MaxDynamicPreviewBytes else len p)) p.

Definition deepCopy (e : DynamicEntry) : DynamicEntry :=
  Entry (Path e) (Kind e) (Size e) (Preview e) (SHA256 e) (UpdatedAt e).

Section Record.
Context `{UnicodeTables}.

Definition validateDynamicKind (kind : gostring) : res unit :=
  if kind =s [] then Err (errors_New (go "dynamic: empty kind not allowed"))
  else if negb (existsb (fun k => k =s kind) validDynamicKinds)
  then Err (errors_New (go "dynamic: unknown kind " ++ Quote kind))
  else Ok tt.

(** The [%#U] verb on a byte, as [hex.InvalidByteError] prints it. *)
Definition format_U (b : ascii) : gostring :=
  go "U+" ++ map upper_byte (hexdigits 4 (bv b))
  ++ (if unicode_IsPrint (bv b) then go " '" ++ EncodeRune (bv b) ++ go "'" else []).

(** The error of [hex.DecodeString] on a string of even length. *)
Fixpoint hex_invalid (s : gostring) : option error :=
  match s with
  | [] => None
  | b :: t => if hex_digit b then hex_invalid t
              else Some (errors_New (go "encoding/hex: invalid byte: " ++ format_U b))
  end.

Definition normalizeSHA256 (sha256Hex : gostring) : res gostring :=
  if sha256Hex =s [] then Ok []
  else
    let lower := ToLower sha256Hex in
    if negb (len lower =? 64)
    then Err (errors_New (go "dynamic: sha256 length " ++ Itoa (len lower)
                          ++ go ", want 64 hex chars"))
    else match hex_invalid lower with
         | Some e => Err (errors_wrap (go "dynamic: invalid sha256 hex: ") e)
         | None => Ok lower
         end.

(** The part of [Record] before the lock: validation and normalization. *)
Definition record_entry (now : Z) (pathArg kind : gostring) (size : Z)
    (preview sha256Hex : gostring) : res DynamicEntry :=
  cleaned ← normalizeDynamicPath pathArg;
  _ ← validateDynamicKind kind;
  if size <? 0
  then Err (errors_New (go "dynamic: negative size " ++ Itoa size ++ go " not allowed"))
  else
    hash ← normalizeSHA256 sha256Hex;
    Ok (Entry cleaned kind size (truncateAndCopyPreview preview) hash now).

Definition errStoreFull : error :=
  errors_New (go "dynamic: MaxDynamicEntries (" ++ Itoa MaxDynamicEntries ++ go ") reached").

(** [Record]: [now] is the reading of the clock. *)
Definition DynamicRecord (s : DynamicStore) (now : Z) (pathArg kind : gostring) (size : Z)
    (preview sha256Hex : gostring) : res DynamicEntry * DynamicStore :=
  match record_entry now pathArg kind size preview sha256Hex with
  | Err e => (Err e, s)
  | Ok entry =>
      let cleaned := Path entry in
      match entries s !! cleaned with
      | None =>
          if MaxDynamicEntries <=? Z.of_nat (base.size (entries s)) then (Err errStoreFull, s)
          else (Ok (deepCopy entry), Store (<[cleaned := entry]> (entries s)) (order s ++ [cleaned]))
      | Some _ => (Ok (deepCopy entry), Store (<[cleaned := entry]> (entries s)) (order s))
      end
  end.
End Record.

(** [s.entries[k].deepCopy()], the zero entry when the key is absent. *)
Definition get_entry (m : gmap gostring DynamicEntry) (k : gostring) : DynamicEntry :=
  deepCopy (default zeroEntry (m !! k)).

Definition Entries (s : DynamicStore) : list DynamicEntry := map (get_entry (entries s)) (order s).

(** ** Invariant *)
Definition sha_ok (h : gostring) : Prop := h = [] \/ len h = 64 /\ Forall (fun c => hex_digit c = true) h.

Definition entry_ok (e : DynamicEntry) : Prop :=
  abs_canonical (Path e) /\ Forall path_byte (Path e) /\ len (Path e) <= MaxDynamicPathLen /\
  Kind e ∈ validDynamicKinds /\ 0 <= Size e /\ len (Preview e) <= MaxDynamicPreviewBytes /\
  sha_ok (SHA256 e).

Definition store_ok (s : DynamicStore) : Prop :=
  NoDup (order s) /\ (forall k, k ∈ order s <-> is_Some (entries s !! k)) /\
  len (order s) <= MaxDynamicEntries /\
  map_Forall (fun k e => Path e = k /\ entry_ok e) (entries s).

(** ** Specification: a list of records with unique paths *)
Fixpoint replace_entry (e : DynamicEntry) (l : list DynamicEntry) : option (list DynamicEntry) :=
  match l with
  | [] => None
  | x :: t => if Path x =s Path e then Some (e :: t) else cons x <$> replace_entry e t
  end.

Definition spec_record (l : list DynamicEntry) (r : res DynamicEntry)
  : res DynamicEntry * list DynamicEntry :=
  match r with
  | Err e => (Err e, l)
  | Ok e =>
      match replace_entry e l with
      | Some l' => (Ok e, l')
      | None => if MaxDynamicEntries <=? len l then (Err errStoreFull, l) else (Ok e, l ++ [e])
      end
  end.

(** ** Lemmas *)
Lemma deepCopy_id e : deepCopy e = e.
Proof. by destruct e. Qed.

Lemma get_entry_Some m k e : m !! k = Some e -> get_entry m k = e.
Proof. intros H. unfold get_entry. rewrite H. apply deepCopy_id. Qed.

Lemma normalizeDynamicPath_ok p q :
  normalizeDynamicPath p = Ok q ->
  abs_canonical q /\ Forall path_byte q /\ len q <= MaxDynamicPathLen.
Proof.
  unfold normalizeDynamicPath. intros H. destruct (ResolvePath [slash] p) as [c|] eqn:E; [|done].
  destruct (MaxDynamicPathLen <? len c) eqn:E2; [done|]. inv_ok. bool_simp.
  split; [by eapply ResolvePath_canonical_lem|]. split; [by eapply ResolvePath_bytes; [apply path_byte_slash|]|done].
Qed.

(** Canonical paths within the bound are kept as they are. *)
Lemma normalizeDynamicPath_fix q :
  abs_canonical q -> Forall path_byte q -> len q <= MaxDynamicPathLen ->
  normalizeDynamicPath q = Ok q.
Proof.
  intros (segs & -> & Hg) Hb Hl. unfold normalizeDynamicPath.
  rewrite ResolvePath_abs_path by done.
  by rewrite (proj2 (Z.ltb_ge _ _)).
Qed.

Lemma truncateAndCopyPreview_len p : len (truncateAndCopyPreview p) <= MaxDynamicPreviewBytes.
Proof.
  unfold truncateAndCopyPreview, len, MaxDynamicPreviewBytes. rewrite length_take.
  destruct (Z.ltb_spec 256 (Z.of_nat (length p))); lia.
Qed.

Section RecordLemmas.
Context `{UnicodeTables}.

Lemma validateDynamicKind_ok k : validateDynamicKind k = Ok tt <-> k ∈ validDynamicKinds.
Proof.
  unfold validateDynamicKind. destruct (k =s []) eqn:E; bool_simp.
  { subst. split; [done|]. rewrite list_elem_of_In. simpl. intuition discriminate. }
  destruct (existsb _ _) eqn:E2; cbn [negb].
  - split; [|done]. intros _. apply existsb_exists in E2 as (x & Hin & Hx). bool_simp. subst.
    by apply list_elem_of_In.
  - split; [done|]. intros Hin. rewrite existsb_false_Forall, Forall_forall in E2.
    apply E2 in Hin. by rewrite gos_eqb_refl in Hin.
Qed.

Lemma hex_invalid_None s : hex_invalid s = None <-> Forall (fun c => hex_digit c = true) s.
Proof.
  induction s as [|b s IH]; simpl; [done|]. rewrite Forall_cons, <- IH.
  destruct (hex_digit b); naive_solver.
Qed.

Lemma normalizeSHA256_ok h r : normalizeSHA256 h = Ok r -> sha_ok r.
Proof.
  unfold normalizeSHA256. destruct (h =s []); [intros; inv_ok; by left|]. cbv zeta.
  destruct (len (ToLower h) =? 64) eqn:E; cbn [negb]; [|done].
  destruct (hex_invalid _) eqn:E2; [done|]. intros. inv_ok. bool_simp. right.
  split; [done|]. by apply hex_invalid_None.
Qed.

Lemma record_entry_ok now p k sz pv sh e :
  record_entry now p k sz pv sh = Ok e ->
  entry_ok e /\ normalizeDynamicPath p = Ok (Path e) /\ Kind e = k /\ Size e = sz /\
  UpdatedAt e = now.
Proof.
  unfold record_entry. intros Hr. destruct (normalizeDynamicPath p) as [c|] eqn:E1; [|done].
  cbn in Hr. destruct (validateDynamicKind k) as [[]|] eqn:E2; [|done]. cbn in Hr.
  destruct (sz <? 0) eqn:E3; [done|]. destruct (normalizeSHA256 sh) as [h|] eqn:E4; [|done].
  cbn in Hr. inv_ok. bool_simp. split; [|done].
  destruct (normalizeDynamicPath_ok _ _ E1) as (? & ? & ?).
  unfold entry_ok. cbn. split; [done|]. split; [done|]. split; [done|].
  split; [by apply validateDynamicKind_ok|]. split; [done|].
  split; [apply truncateAndCopyPreview_len|by eapply normalizeSHA256_ok].
Qed.

Lemma record_entry_total now p k sz pv :
  abs_canonical p -> Forall path_byte p -> len p <= MaxDynamicPathLen ->
  k ∈ validDynamicKinds -> 0 <= sz ->
  record_entry now p k sz pv [] = Ok (Entry p k sz (truncateAndCopyPreview pv) [] now).
Proof.
  intros H1 H2 H3 H4 H5. unfold record_entry. rewrite normalizeDynamicPath_fix by done. cbn.
  rewrite (proj2 (validateDynamicKind_ok k) H4). cbn. by rewrite (proj2 (Z.ltb_ge _ _)).
Qed.
End RecordLemmas.

Lemma store_size s : store_ok s -> Z.of_nat (base.size (entries s)) = len (order s).
Proof.
  intros (Hnd & Hd & _). unfold len. f_equal. rewrite <- size_dom.
  rewrite <- (size_list_to_set (C := gset gostring) (order s) Hnd). f_equal.
  apply leibniz_equiv. intros k. rewrite elem_of_dom, elem_of_list_to_set. symmetry. apply Hd.
Qed.

Lemma Entries_lookup s k e :
  store_ok s -> entries s !! k = Some e -> e ∈ Entries s /\ Path e = k /\ entry_ok e.
Proof.
  intros (_ & Hd & _ & HF) Hk. specialize (HF k e Hk). split; [|done].
  unfold Entries. apply list_elem_of_In, in_map_iff. exists k.
  split; [by apply get_entry_Some|]. apply list_elem_of_In, Hd. by eexists.
Qed.

Lemma Entries_elem s e :
  store_ok s -> e ∈ Entries s <-> entries s !! Path e = Some e.
Proof.
  intros Hs. split.
  - intros Hin. apply list_elem_of_In, in_map_iff in Hin as (k & <- & Hk).
    destruct Hs as (_ & Hd & _ & HF). apply list_elem_of_In, Hd in Hk as [e' He'].
    rewrite (get_entry_Some _ _ _ He'). by destruct (HF k e' He') as [-> _].
  - intros Hk. by eapply Entries_lookup.
Qed.

Lemma Entries_paths s : store_ok s -> map Path (Entries s) = order s.
Proof.
  intros (_ & Hd & _ & HF). unfold Entries.
  assert (Forall (fun k => is_Some (entries s !! k)) (order s)) as H.
  { apply Forall_forall. intros k Hk. by apply Hd. }
  clear Hd. induction H as [|k l [e He] H IH]; [done|]. cbn [map].
  rewrite IH, (get_entry_Some _ _ _ He). f_equal. by destruct (HF k e He).
Qed.

Lemma Entries_len s : len (Entries s) = len (order s).
Proof. unfold Entries, len. by rewrite length_map. Qed.

Lemma NewDynamicStore_ok : store_ok NewDynamicStore.
Proof.
  split; [constructor|]. split; [|split; [vm_compute; congruence|apply map_Forall_empty]].
  intros k. cbn. rewrite lookup_empty. split; [by intros ?%elem_of_nil|by intros [? ?]].
Qed.

Lemma map_get_fresh m (l : list gostring) k e :
  k ∉ l -> map (get_entry m) l = map (get_entry (<[k := e]> m)) l.
Proof.
  intros Hk. apply map_ext_in. intros k' Hin%list_elem_of_In. unfold get_entry.
  rewrite lookup_insert_ne; [done|]. by intros <-.
Qed.

(** Overwriting a key of the map replaces the entry of that path in the list. *)
Lemma replace_overwrite (m : gmap gostring DynamicEntry) (l : list gostring) e :
  NoDup l -> Forall (fun k => is_Some (m !! k)) l ->
  map_Forall (fun k x => Path x = k) m ->
  replace_entry e (map (get_entry m) l)
  = (if decide (Path e ∈ l) then Some (map (get_entry (<[Path e := e]> m)) l) else None).
Proof.
  intros Hnd Hl HF. induction l as [|k l IH]; [done|].
  apply NoDup_cons in Hnd as [Hk Hnd]. apply Forall_cons in Hl as [[x Hx] Hl].
  cbn [map replace_entry]. rewrite (get_entry_Some _ _ _ Hx), (HF k x Hx).
  destruct (k =s Path e) eqn:E; bool_simp.
  - subst k. rewrite decide_True by left. cbn [map].
    rewrite (get_entry_Some _ _ e) by apply lookup_insert_eq. do 2 f_equal.
    by apply map_get_fresh.
  - rewrite IH by done. rewrite (get_entry_Some _ _ x) by by rewrite lookup_insert_ne.
    destruct (decide (Path e ∈ l)) as [Hin|Hin].
    + by rewrite decide_True by by right.
    + rewrite decide_False; [done|]. intros ?%elem_of_cons. naive_solver.
Qed.

Section RecordSpec.
Context `{UnicodeTables}.

Lemma insert_ok s e :
  store_ok s -> entry_ok e -> (entries s !! Path e = None -> len (order s) < MaxDynamicEntries) ->
  store_ok (Store (<[Path e := e]> (entries s))
                  (match entries s !! Path e with Some _ => order s | None => order s ++ [Path e] end)).
Proof.
  intros (Hnd & Hd & Hl & HF) He Hroom.
  assert (map_Forall (fun k x => Path x = k /\ entry_ok x) (<[Path e:=e]> (entries s)))
    as HF' by by apply map_Forall_insert_2.
  unfold store_ok. cbn [entries order]. destruct (entries s !! Path e) as [x|] eqn:E.
  - split; [done|]. split; [|done]. intros k. rewrite Hd.
    destruct (decide (k = Path e)) as [->|Hne];
      [rewrite lookup_insert_eq, E; naive_solver|by rewrite lookup_insert_ne].
  - assert (Path e ∉ order s) as Hni by (intros [? ?]%Hd; congruence).
    split; [apply NoDup_app; split; [done|]; split;
            [by intros k Hk ->%list_elem_of_singleton|apply NoDup_singleton]|].
    split; [|split; [rewrite len_snoc; specialize (Hroom eq_refl); lia|done]].
    intros k. rewrite elem_of_app, list_elem_of_singleton, Hd.
    destruct (decide (k = Path e)) as [->|Hne]; [rewrite lookup_insert_eq; naive_solver|].
    rewrite lookup_insert_ne by done. naive_solver.
Qed.

(** The store implements the list. *)
Lemma DynamicRecord_refines s now p k sz pv sh :
  store_ok s ->
  store_ok (snd (DynamicRecord s now p k sz pv sh)) /\
  (fst (DynamicRecord s now p k sz pv sh), Entries (snd (DynamicRecord s now p k sz pv sh)))
  = spec_record (Entries s) (record_entry now p k sz pv sh).
Proof.
  intros Hs. unfold DynamicRecord, spec_record.
  destruct (record_entry now p k sz pv sh) as [e|err] eqn:E; [|done].
  destruct (record_entry_ok _ _ _ _ _ _ _ E) as (He & _).
  pose proof (insert_ok s e Hs He) as Hins. pose proof (store_size s Hs) as Hsz.
  pose proof Hs as (Hnd & Hd & Hl & HF). rewrite deepCopy_id. cbv zeta.
  unfold Entries at 2. rewrite replace_overwrite;
    [|done|by apply Forall_forall; intros ? ?; apply Hd|by intros ? ? [? _]%HF].
  rewrite Entries_len, Hsz. destruct (entries s !! Path e) as [x|] eqn:E2.
  - rewrite decide_True by (apply Hd; by eexists). split; [by apply Hins|done].
  - rewrite decide_False by (intros [? ?]%Hd; congruence).
    destruct (MaxDynamicEntries <=? len (order s)) eqn:E3; [done|]. bool_simp.
    split; [by apply Hins|]. cbn [fst snd]. f_equal. unfold Entries. cbn [entries order].
    rewrite map_app. cbn [map]. rewrite (get_entry_Some _ _ e) by apply lookup_insert_eq.
    f_equal. symmetry. apply map_get_fresh. intros [? ?]%Hd. congruence.
Qed.
End RecordSpec.

(** The stores a session can reach: any sequence of [Record] calls. *)
Inductive reachable `{UnicodeTables} : DynamicStore -> Prop :=
| reach_new : reachable NewDynamicStore
| reach_record s now p k sz pv sh :
    reachable s -> reachable (snd (DynamicRecord s now p k sz pv sh)).

Lemma reachable_ok `{UnicodeTables} s : reachable s -> store_ok s.
Proof.
  induction 1 as [|s now p k sz pv sh _ IH]; [apply NewDynamicStore_ok|].
  by apply DynamicRecord_refines.
Qed.

Lemma Entries_all_ok s : store_ok s -> Forall entry_ok (Entries s).
Proof.
  intros Hs. apply Forall_forall. intros e He.
  apply Entries_elem in He; [|done]. by apply (Entries_lookup s (Path e)).
Qed.

(** An existing path is updated in place whatever the fill of the store. *)
Lemma DynamicRecord_existing `{UnicodeTables} s now e sz pv :
  store_ok s -> e ∈ Entries s -> 0 <= sz ->
  let e' := Entry (Path e) (go "file") sz (truncateAndCopyPreview pv) [] now in
  DynamicRecord s now (Path e) (go "file") sz pv []
  = (Ok e', Store (<[Path e := e']> (entries s)) (order s)).
Proof.
  intros Hs He Hsz. cbv zeta.
  destruct (Entries_lookup s (Path e) e Hs) as (_ & _ & (Hc & Hb & Hl & _)); [by apply Entries_elem|].
  apply Entries_elem in He; [|done].
  unfold DynamicRecord. rewrite record_entry_total; [|done..|by apply list_elem_of_In; left|done].
  cbv zeta. cbn [Path]. by rewrite He.
Qed.

(** ** Properties *)

(** Refinement: on a well-formed store [Record] returns and stores what the
    list specification says: validation errors and a full store leave the
    entries as they are; a known path is replaced in place; a new one is appended
    at the end, nothing being dropped; and the result is well-formed again. *)
Lemma DynamicRecord_refinement `{UnicodeTables} s now p k sz pv sh :
  store_ok s ->
  store_ok (snd (DynamicRecord s now p k sz pv sh)) /\
  (fst (DynamicRecord s now p k sz pv sh), Entries (snd (DynamicRecord s now p k sz pv sh)))
  = spec_record (Entries s) (record_entry now p k sz pv sh).
Proof. apply DynamicRecord_refines. Qed.


(** Every store a session can reach, by any sequence of [Record] calls with
    any arguments, is bounded and canonical: at most [MaxDynamicEntries]
    entries, with pairwise different paths, each canonical (so under the fake
    root), of at most [MaxDynamicPathLen] bytes, of a known kind, with a
    non-negative size, a preview of at most [MaxDynamicPreviewBytes] bytes and
    an empty or 64-digit hash. *)
Lemma reachable_bounded `{UnicodeTables} s :
  reachable s ->
  len (Entries s) <= MaxDynamicEntries /\ NoDup (map Path (Entries s)) /\
  Forall entry_ok (Entries s).
Proof.
  intros Hs%reachable_ok. rewrite Entries_len, Entries_paths by done.
  split; [apply Hs|]. split; [apply Hs|]. by apply Entries_all_ok.
Qed.


(** Updating never fails for lack of room: re-recording a path that the
    store holds as a file succeeds whatever the fill, keeps every insertion
    position and every other entry, and returns exactly what is stored. *)
Lemma DynamicRecord_update `{UnicodeTables} s now e sz pv :
  store_ok s -> e ∈ Entries s -> 0 <= sz ->
  exists e' s', DynamicRecord s now (Path e) (go "file") sz pv [] = (Ok e', s') /\
    map Path (Entries s') = map Path (Entries s) /\ e' ∈ Entries s' /\
    Size e' = sz /\ Path e' = Path e /\
    (forall x, Path x <> Path e -> x ∈ Entries s' <-> x ∈ Entries s).
Proof.
  intros Hs He Hsz. pose proof (DynamicRecord_existing s now e sz pv Hs He Hsz) as E.
  pose proof (proj1 (DynamicRecord_refines s now (Path e) (go "file") sz pv [] Hs)) as Hs'.
  rewrite E in Hs'. cbn [snd] in Hs'. do 2 eexists. split; [exact E|].
  rewrite !Entries_paths by done. split; [done|].
  split; [apply Entries_elem; [done|]; apply lookup_insert_eq|]. do 2 (split; [done|]).
  intros x Hx. rewrite !Entries_elem by done. cbn [entries]. by rewrite lookup_insert_ne.
Qed.
