(* ===== verification/ShellConf.v ===== *)
(** * Configuration of the fake shell: [modules/fakeshell/conf/config.go] and
    [modules/opt.go].

    A Go map is a [gmap]; where the code ranges over one, the iteration order is
    an argument: a list of its pairs in any order. *)
From Stdlib Require Import Ascii String ZArith Lia.
From stdpp Require Import base gmap strings list.
From S2P Require Import Prelude GoStrings.
Local Open Scope Z_scope.

Record EnvConfig := mkEnvConfig {
  User : gostring;
  Home : gostring;
  OS : gostring;
  Kernel : gostring;
  HostName : gostring;
  GenerateEnv : bool;
  Envs : gmap gostring gostring
}.

Record LogConfig := mkLogConfig {
  logEnable : bool;
  logPath : gostring;
  Compress : gostring
}.

Record FakeshellConfig := mkFakeshellConfig {
  Enable : bool;
  envConfig : EnvConfig;
  rootFS : gostring;
  logConfig : LogConfig
}.

Definition DefaultLogPath : gostring := go "./sessions".

(** ** Options given on the command line (modules/opt.go) *)
Record Opt := mkOpt { optModule : gostring; optKey : gostring; optValue : gostring }.

Definition ErrFailParseOpt : gostring := go "fail to parse opt".

Definition ParseOpt (opt : gostring) : res Opt :=
  match SplitN opt "=" 2 with
  | [key; value] =>
      let '(module, key) := match IndexByte key "." with
                            | Some idx => (take idx key, drop (S idx) key)
                            | None => ([], key)
                            end in
      Ok (mkOpt (TrimSpace module) (TrimSpace key) (TrimSpace value))
  | _ => Err (errors_New (ErrFailParseOpt ++ go ": option must be 'module.key=value'"))
  end.

(** ** Defaults *)
Definition EnvConfig_FillDefault (c : EnvConfig) : EnvConfig :=
  mkEnvConfig (if User c =s [] then go "root" else User c) (Home c)
    (if OS c =s [] then go "FairyOS" else OS c)
    (if Kernel c =s [] then go "ctOS 3.1" else Kernel c) (HostName c) true (Envs c).

Definition FillDefault (c : FakeshellConfig) : FakeshellConfig :=
  mkFakeshellConfig (Enable c) (EnvConfig_FillDefault (envConfig c)) (rootFS c) (logConfig c).

Section Conf.
Context `{UnicodeTables}.

(** One iteration of the loop over the configured variables. *)
Definition add_env (envs : gmap gostring gostring) (kv : gostring * gostring)
  : gmap gostring gostring :=
  let envs := match envs !! ToUpper (fst kv) with
              | Some _ => delete (ToUpper (fst kv)) envs
              | None => envs
              end in
  <[fst kv := snd kv]> envs.

Definition defaultEnv (c : EnvConfig) : gmap gostring gostring :=
  list_to_map [(go "USER", User c); (go "HOME", Home c); (go "NAME", HostName c); (go "PWD", Home c)].

(** [range_Envs]: the pairs of [c.Envs] in the order the range visits them. *)
Definition CheckAndFill (range_Envs : list (gostring * gostring)) (c : EnvConfig) : EnvConfig :=
  let home := if Home c =s []
              then (if User c =s go "root" then go "/root" else go "/home/" ++ User c)
              else Home c in
  let c := mkEnvConfig (User c) home (OS c) (Kernel c) (HostName c) (GenerateEnv c) (Envs c) in
  if GenerateEnv c
  then mkEnvConfig (User c) home (OS c) (Kernel c) (HostName c) true
         (fold_left add_env range_Envs (defaultEnv c))
  else c.

Fixpoint rejectControlChars_at (i : nat) (s : gostring) : res unit :=
  match s with
  | [] => Ok tt
  | b :: t =>
      if (b =c "/") || (b =c chBS) then rejectControlChars_at (S i) t
      else if (bv b <? 32) || (bv b =? 127)
      then Err (errors_New (go "path contains a control character at index " ++ Itoa (Z.of_nat i)))
      else rejectControlChars_at (S i) t
  end.
Definition rejectControlChars (s : gostring) : res unit := rejectControlChars_at 0 s.

Definition validateLogConfig (lc : LogConfig) : res LogConfig :=
  let lc := mkLogConfig (logEnable lc)
              (if logPath lc =s [] then DefaultLogPath else logPath lc) (Compress lc) in
  if negb (logEnable lc) then Ok lc
  else match rejectControlChars (logPath lc) with
  | Err e => Err (errors_wrap (go "fakeshell: log path " ++ Quote (logPath lc) ++ go ": ") e)
  | Ok _ =>
      let c := ToLower (Compress lc) in
      if (c =s []) || (c =s go "gzip")
      then Ok (mkLogConfig (logEnable lc) (logPath lc) c)
      else Err (errors_New (go "fakeshell: log compress " ++ Quote (Compress lc)
                ++ go " is not supported; only " ++ [chDQ; chDQ] ++ go " or " ++ [chDQ]
                ++ go "gzip" ++ [chDQ] ++ go " are allowed"))
  end.

(** [filepath.Ext] on a slash-separated path. *)
Definition Ext (p : gostring) : gostring :=
  match LastIndexByte p "." with
  | Some i => if ContainsByte (drop i p) "/" then [] else drop i p
  | None => []
  end.

Definition TrimSuffix (s suf : gostring) : gostring :=
  if HasSuffix s suf then take (length s - length suf) s else s.

Definition isSupportedArchiveExt (name : gostring) : bool :=
  let lower := ToLower (Ext name) in
  if (lower =s go ".tar") || (lower =s go ".zip") then true
  else if (lower =s go ".gz") && (ToLower (Ext (TrimSuffix name (Ext name))) =s go ".tar") then true
  else lower =s go ".tgz".

(** What [os.Lstat] reports of a path: the mode bits the code tests. *)
Record file_mode := mkMode {
  modeSymlink : bool;
  modeSpecial : bool;  (* device, named pipe, socket or irregular *)
  modeDir : bool;
  modeRegular : bool
}.

Definition validateRootFSConfig (Lstat : gostring -> res file_mode) (root : gostring) : res unit :=
  let quoted := go "fakeshell: rootfs " ++ Quote root in
  if root =s [] then Ok tt
  else match rejectControlChars root with
  | Err e => Err (errors_wrap (quoted ++ go ": ") e)
  | Ok _ =>
      match Lstat root with
      | Err e => Err (errors_wrap (quoted ++ go " is not accessible: ") e)
      | Ok mode =>
          if modeSymlink mode then Err (errors_New (quoted ++ go " is a symlink, not allowed"))
          else if modeSpecial mode
          then Err (errors_New (quoted ++ go " is a special file, not allowed"))
          else if modeDir mode then Ok tt
          else if negb (modeRegular mode)
          then Err (errors_New (quoted ++ go " is not a regular file or directory"))
          else if negb (isSupportedArchiveExt root)
          then Err (errors_New (quoted ++ go " has unsupported type; want a directory or one of .tar, .tar.gz, .tgz, .zip"))
          else Ok tt
      end
  end.

Definition CheckAndFillConfig (Lstat : gostring -> res file_mode)
    (range_Envs : list (gostring * gostring)) (c : FakeshellConfig) : res FakeshellConfig :=
  let env := CheckAndFill range_Envs (envConfig c) in
  _ ← validateRootFSConfig Lstat (rootFS c);
  lc ← validateLogConfig (logConfig c);
  Ok (mkFakeshellConfig (Enable c) env (rootFS c) lc).

Definition boolFromStr (s : gostring) : bool :=
  let l := ToLower s in
  if (l =s go "true") || (l =s go "1") then true
  else if (l =s go "false") || (l =s go "0") || (l =s []) then false
  else match Atoi s with
       | Some i => negb (i =? 0)
       | None => false
       end.

(** [EnvConfig.mergeOption]: the new configuration and whether the key is known. *)
Definition mergeOption (c : EnvConfig) (key value : gostring) : EnvConfig * bool :=
  let k := ToLower key in
  if k =s go "user" then
    (mkEnvConfig value (Home c) (OS c) (Kernel c) (HostName c) (GenerateEnv c) (Envs c), true)
  else if k =s go "home" then
    (mkEnvConfig (User c) value (OS c) (Kernel c) (HostName c) (GenerateEnv c) (Envs c), true)
  else if k =s go "os" then
    (mkEnvConfig (User c) (Home c) value (Kernel c) (HostName c) (GenerateEnv c) (Envs c), true)
  else if k =s go "kernel" then
    (mkEnvConfig (User c) (Home c) (OS c) value (HostName c) (GenerateEnv c) (Envs c), true)
  else if k =s go "hostname" then
    (mkEnvConfig (User c) (Home c) (OS c) (Kernel c) value (GenerateEnv c) (Envs c), true)
  else if k =s go "genenv" then
    (mkEnvConfig (User c) (Home c) (OS c) (Kernel c) (HostName c) (boolFromStr value) (Envs c), true)
  else if (k =s go "envs") || (k =s go "env") then
    let parts := SplitN value "=" 2 in
    let name := match parts with p :: _ => TrimSpace p | [] => [] end in
    let v := match parts with _ :: p :: _ => TrimSpace p | _ => [] end in
    let envs := if name =s [] then Envs c else <[name := v]> (Envs c) in
    (mkEnvConfig (User c) (Home c) (OS c) (Kernel c) (HostName c) (GenerateEnv c) envs, true)
  else (c, false).

Definition MergeOptions (c : FakeshellConfig) (opt : Opt) : FakeshellConfig * bool :=
  if negb (ToLower (optModule opt) =s go "fakeshell") then (c, false)
  else
    let k := ToLower (optKey opt) in
    if k =s go "enable" then
      (mkFakeshellConfig (boolFromStr (optValue opt)) (envConfig c) (rootFS c) (logConfig c), true)
    else if k =s go "rootfs" then
      (mkFakeshellConfig (Enable c) (envConfig c) (optValue opt) (logConfig c), true)
    else if HasPrefix (optKey opt) (go "env.") then
      let '(env, ok) := mergeOption (envConfig c) (TrimPrefix (optKey opt) (go "env.")) (optValue opt) in
      (mkFakeshellConfig (Enable c) env (rootFS c) (logConfig c), ok)
    else (c, false).
End Conf.
