(* ===== verification/Runner.v ===== *)
(** * The command runner: [modules/fakeshell/cmds/types.go] and
    [modules/fakeshell/cmds/profile.go], with the world the built-ins act on.

    A built-in is a computation [M A]: it reads and changes a [World], the
    session's runner together with what the runner writes to.  Writers are
    shared objects: [wCounting i] is the [i]-th [boundedCountingDiscardWriter]
    allocated in the session, so two descriptors that point to it share its
    count.  The outcome of writes to the SSH channel and of clock readings are
    given by a [Host].  The mutexes are not modelled: the run loop of a session
    is single-threaded and every lock is released before its holder returns. *)
From Stdlib Require Import Ascii String ZArith Lia.
From stdpp Require Import base gmap strings list.
From S2P Require Import Prelude GoStrings GoPath Paths Input Syntax Dynamic ShellConf.
Local Open Scope Z_scope.

(** ** The root filesystem (afero)

    The built-ins only read it: its read operations, fixed during a session. *)
Record FileInfo := mkFileInfo { fi_Name : gostring; fi_IsDir : bool }.

Record Fs := mkFs {
  fs_Exists : gostring -> res bool;
  fs_IsDir : gostring -> res bool;
  fs_Stat : gostring -> res FileInfo;
  fs_ReadDir : gostring -> res (list FileInfo)
}.

(** ** The host: what the session cannot decide *)

(** [chan_write n]: the outcome of the [n]-th write to the channel: everything
    was accepted, or only some bytes and an error.  [clock n]: the [n]-th reading
    of the clock.  [range_order]: the order in which ranging over a map yields
    the environment, some permutation.  [NewMemMapFs]: the filesystem
    [afero.NewMemMapFs()] returns. *)
Class Host := {
  chan_write : nat -> option (nat * error);
  clock : nat -> Z;
  range_order : list EnvPair -> list EnvPair;
  NewMemMapFs : Fs;
  range_order_perm : forall l, range_order l ≡ₚ l
}.

(** A host whose channel never fails, with a filesystem that is only a root. *)
Definition rootOnlyFs : Fs :=
  mkFs (fun p => Ok (p =s [slash]))
       (fun p => if p =s [slash] then Ok true else Err (errors_New (go "not found")))
       (fun p => if p =s [slash] then Ok (mkFileInfo [slash] true) else Err (errors_New (go "not found")))
       (fun p => if p =s [slash] then Ok [] else Err (errors_New (go "not found"))).

Definition quiet_host : Host :=
  {| chan_write := fun _ => None; clock := fun n => Z.of_nat n; range_order := fun l => l;
     NewMemMapFs := rootOnlyFs; range_order_perm := fun l => Permutation_refl l |}.

(** ** Environment *)
Abbreviation EnvMap := (gmap gostring EnvPair).

(** ** State *)
Inductive Writer := wChannel | wDiscard | wCounting (i : nat).

Record CommandRunner := Runner {
  Conf : FakeshellConfig;
  Env : EnvMap;
  TempEnv : EnvMap;
  RootFS : Fs;
  Dynamic : option DynamicStore;
  Stdout : Writer;
  Stderr : Writer
}.

Record boundedCountingDiscardWriter := Counting { w_count : Z; w_cap : Z }.

Record Event := mkEvent {
  ev_Time : Z;
  ev_Type : gostring;
  ev_CWD : gostring;
  ev_Command : gostring;
  ev_Args : list gostring;
  ev_Error : gostring;
  ev_Metadata : list DynamicEntry
}.

(** [sent]: the bytes the channel accepted; [writes] and [ticks]: how many times
    the channel was written and the clock read; [events]: what was logged, and
    [closed] how many times the logger was closed. *)
Record World := mkWorld {
  runner : CommandRunner;
  counters : list boundedCountingDiscardWriter;
  sent : gostring;
  writes : nat;
  ticks : nat;
  events : list Event;
  closed : nat
}.

Definition set_TempEnv (e : EnvMap) (r : CommandRunner) : CommandRunner :=
  Runner (Conf r) (Env r) e (RootFS r) (Dynamic r) (Stdout r) (Stderr r).
Definition set_Dynamic (d : option DynamicStore) (r : CommandRunner) : CommandRunner :=
  Runner (Conf r) (Env r) (TempEnv r) (RootFS r) d (Stdout r) (Stderr r).
Definition set_writers (o e : Writer) (r : CommandRunner) : CommandRunner :=
  Runner (Conf r) (Env r) (TempEnv r) (RootFS r) (Dynamic r) o e.
Definition set_fs (fs : Fs) (r : CommandRunner) : CommandRunner :=
  Runner (Conf r) (Env r) (TempEnv r) fs (Dynamic r) (Stdout r) (Stderr r).
Definition upd_runner (f : CommandRunner -> CommandRunner) (w : World) : World :=
  mkWorld (f (runner w)) (counters w) (sent w) (writes w) (ticks w) (events w) (closed w).

(** ** Computations *)
Definition M (A : Type) : Type := World -> A * World.

#[export] Instance M_ret : MRet M := fun A a w => (a, w).
#[export] Instance M_bind : MBind M := fun A B f m w => let '(a, w') := m w in f a w'.

Definition get_runner : M CommandRunner := fun w => (runner w, w).
Definition modify (f : CommandRunner -> CommandRunner) : M unit := fun w => (tt, upd_runner f w).

(** Where the code discards a result. *)
Definition ignore {A} (m : M A) : M unit := fun w => (tt, snd (m w)).

(** Running a sequence. *)
Lemma bind_run {A B} (m : M A) (f : A -> M B) w a w' : m w = (a, w') -> (m ≫= f) w = f a w'.
Proof. intros E. unfold mbind, M_bind. by rewrite E. Qed.

Lemma bind_get {B} (f : CommandRunner -> M B) w : (get_runner ≫= f) w = f (runner w) w.
Proof. done. Qed.

Lemma bind_modify {B} g (f : unit -> M B) w : (modify g ≫= f) w = f tt (upd_runner g w).
Proof. done. Qed.

Lemma ret_run {A} (a : A) w : (mret a : M A) w = (a, w).
Proof. done. Qed.

Section Ops.
Context `{UnicodeTables} `{Host}.

Definition now : M Z :=
  fun w => (clock (ticks w),
            mkWorld (runner w) (counters w) (sent w) (writes w) (S (ticks w)) (events w) (closed w)).

(** [boundedCountingDiscardWriter.Write]. *)
Definition counting_Write (c : boundedCountingDiscardWriter) (p : gostring)
  : boundedCountingDiscardWriter :=
  if (0 <? w_cap c) && (w_count c <? w_cap c) then
    let remaining := w_cap c - w_count c in
    let add := if remaining <? len p then remaining else len p in
    Counting (w_count c + add) (w_cap c)
  else c.

(** [w.Write(p)]: the error it returns. *)
Definition Write (wr : Writer) (p : gostring) : M (option error) := fun w =>
  match wr with
  | wDiscard => (None, w)
  | wCounting i =>
      (None, mkWorld (runner w) (alter (fun c => counting_Write c p) i (counters w))
                     (sent w) (writes w) (ticks w) (events w) (closed w))
  | wChannel =>
      let send bytes := mkWorld (runner w) (counters w) (sent w ++ bytes) (S (writes w))
                                (ticks w) (events w) (closed w) in
      match chan_write (writes w) with
      | None => (None, send p)
      | Some (n, e) => (Some e, send (take n p))
      end
  end.

Definition Fprintln (wr : Writer) (s : gostring) : M (option error) := Write wr (s ++ [chNL]).

(** *** Environment operations *)
Definition NewEnvMap (m : list (gostring * gostring)) : EnvMap :=
  fold_left (fun e kv => <[ToUpper (fst kv) := MkEnvPair (fst kv) (snd kv)]> e) m ∅.

Definition EnvMap_Get (e : EnvMap) (key : gostring) : gostring :=
  match e !! ToUpper key with Some v => Value v | None => [] end.

(** [NewCommandRunner]; [range_Envs]: the pairs of [c.EnvConfig.Envs] in the
    order the range visits them. *)
Definition NewCommandRunner (range_Envs : list (gostring * gostring)) (c : FakeshellConfig)
  : CommandRunner :=
  Runner c (NewEnvMap range_Envs) (NewEnvMap []) NewMemMapFs (Some NewDynamicStore) wDiscard wDiscard.

Definition SetRootFS (fs : option Fs) (r : CommandRunner) : CommandRunner :=
  set_fs (match fs with Some f => f | None => NewMemMapFs end) r.

Definition GetEnv (r : CommandRunner) (key : gostring) : gostring :=
  let key := ToUpper key in
  match TempEnv r !! key with
  | Some v => Value v
  | None => match Env r !! key with Some v => Value v | None => [] end
  end.

Definition SetEnv (key value : gostring) (r : CommandRunner) : CommandRunner :=
  set_TempEnv (<[ToUpper key := MkEnvPair key value]> (TempEnv r)) r.

Definition UnsetEnv (key : gostring) (r : CommandRunner) : CommandRunner :=
  set_TempEnv (delete (ToUpper key) (TempEnv r)) r.

(** The merged view: temporary variables shadow the configured ones. *)
Definition GetEnvs (r : CommandRunner) : list EnvPair :=
  range_order (snd <$> map_to_list (TempEnv r ∪ Env r)).

(** *** Bounded output (profile.go) *)
Definition MaxCommandOutputBytes : Z := 64 * 1024.
Definition outputTruncatedMarker : gostring :=
  [chNL] ++ go "[fakeshell: output truncated]" ++ [chNL].

Definition truncateOutput (data : gostring) : gostring :=
  if len data <=? MaxCommandOutputBytes then data
  else
    let marker := outputTruncatedMarker in
    if MaxCommandOutputBytes <=? len marker then take (Z.to_nat MaxCommandOutputBytes) marker
    else take (Z.to_nat (MaxCommandOutputBytes - len marker)) data ++ marker.

Definition writeBounded (wr : Writer) (data : gostring) : M (option error) :=
  Write wr (truncateOutput data).

Definition fakeFileContent (filePath : gostring) : option gostring :=
  if filePath =s go "/etc/hostname" then Some (go "fakeshell" ++ [chNL])
  else if filePath =s go "/etc/os-release" then
    Some (go "NAME=" ++ [chDQ] ++ go "FakeShell Linux" ++ [chDQ; chNL]
          ++ go "PRETTY_NAME=" ++ [chDQ] ++ go "FakeShell Linux" ++ [chDQ; chNL]
          ++ go "ID=fakeshell" ++ [chNL])
  else if filePath =s go "/etc/passwd" then Some (go "root:x:0:0:root:/root:/bin/sh" ++ [chNL])
  else if filePath =s go "/proc/version" then
    Some (go "Linux version 6.1.0-fakeshell (fakeshell@localhost) #1 SMP PREEMPT_DYNAMIC" ++ [chNL])
  else if filePath =s go "/proc/uptime" then Some (go "12345.67 89012.34" ++ [chNL])
  else None.

Definition clipErrorToken (s : gostring) : gostring :=
  if len s <=? 80 then s else take 80 s ++ go "...".

Definition unsupportedOption (cmd opt : gostring) : error :=
  errors_New (clipErrorToken cmd ++ go ": unsupported option " ++ clipErrorToken opt).
End Ops.

(** The dynamic entries of the session, none when there is no store. *)
Definition session_entries (r : CommandRunner) : list DynamicEntry :=
  match Dynamic r with Some s => Entries s | None => [] end.
