(* ===== verification/Expand.v ===== *)
(** * Word expansion, command environments and fake redirections:
    [modules/fakeshell/syntax_expand.go].

    Functions that only read the runner take it as an argument; the ones that
    change it are computations [M].  A cleanup closure is modelled by the data it
    captures: the saved variables, or the redirection records. *)
From Stdlib Require Import Ascii String ZArith Lia.
From stdpp Require Import base gmap strings list sorting.
From S2P Require Import Prelude GoStrings GoPath Glob Paths Input Syntax Dynamic ShellConf Runner.
Local Open Scope Z_scope.

Definition MaxGlobMatches : Z := 64.
Definition MaxSessionEnvEntries : Z := 64.
Definition MaxSessionEnvBytes : Z := 16 * 1024.

Record savedCommandEnv := Saved { sv_key : gostring; sv_hadTemp : bool; sv_value : EnvPair }.
Record expandedWord := Expanded { ew_text : gostring; globEligible : list bool }.
Record envAssignment := Assignment { as_key : gostring; as_value : gostring }.
Record fakeRedirectionRecord := RedirRecord { rr_path : gostring; rr_writer : nat }.

Definition zeroPair : EnvPair := MkEnvPair [] [].
Definition zeroCommand : simpleCommand := Simple [] [] zeroWord [] [] [].

(** ** Words of a command *)
Definition literalUnquotedWord (t : gostring) : syntaxWordValue := Word t [Seg t unquoted].

Definition orLiteral (w : syntaxWordValue) (t : gostring) : syntaxWordValue :=
  match word_segments w with [] => literalUnquotedWord t | _ => w end.

Definition commandNameWord (cmd : simpleCommand) : syntaxWordValue :=
  orLiteral (NameWord cmd) (cmdName cmd).

Definition commandArgWord (cmd : simpleCommand) (index : nat) (arg : gostring) : syntaxWordValue :=
  match ArgWords cmd !! index with
  | Some w => orLiteral w arg
  | None => literalUnquotedWord arg
  end.

Definition redirectTargetWord (redir : redirectSpec) : syntaxWordValue :=
  orLiteral (TargetWord redir) (Target redir).

Definition validateExpandedTokenLen (token : gostring) : res unit :=
  if MaxInputTokenBytes <? len token then Err (newSyntaxLimitError "expanded token too long")
  else Ok tt.

Definition splitEnvAssignment (assignment : gostring) : option (gostring * gostring) :=
  if negb (isEnvAssignment assignment) then None
  else match SplitN assignment "=" 2 with
       | [k; v] => Some (k, v)
       | _ => None
       end.

Definition errInvalidAssignment : error :=
  errors_New (go "fakeshell: invalid environment assignment").
Definition errEnvTooLong : error := newSyntaxLimitError "environment token too long".

(** The bound both validators put on one assignment. *)
Definition env_too_long (key value : gostring) : bool :=
  (MaxInputTokenBytes <? len key) || (MaxInputTokenBytes <? len value)
  || (MaxInputTokenBytes <? len key + 1 + len value).

Fixpoint check_assignments (l : list gostring) : res unit :=
  match l with
  | [] => Ok tt
  | a :: t =>
      match splitEnvAssignment a with
      | None => Err errInvalidAssignment
      | Some (key, value) => if env_too_long key value then Err errEnvTooLong else check_assignments t
      end
  end.

Definition validateExpandedSimpleCommandBounds (cmd : simpleCommand) : res unit :=
  if MaxInputTokenBytes <? len (cmdName cmd)
  then Err (newSyntaxLimitError "expanded command token too long")
  else if MaxInputArgs <? len (cmdArgs cmd)
  then Err (newSyntaxLimitError "too many expanded arguments")
  else if existsb (fun arg => MaxInputTokenBytes <? len arg) (cmdArgs cmd)
  then Err (newSyntaxLimitError "expanded argument token too long")
  else if MaxInputArgs <? len (EnvAssignments cmd)
  then Err (newSyntaxLimitError "too many environment assignments")
  else check_assignments (EnvAssignments cmd).

(** ** Variables *)
Definition isVariableNameStart (c : ascii) : bool :=
  (("A" <=c c) && (c <=c "Z")) || (("a" <=c c) && (c <=c "z")) || (c =c "_").
Definition isVariableNameChar (c : ascii) : bool :=
  isVariableNameStart c || (("0" <=c c) && (c <=c "9")).

(** The length of the longest prefix whose bytes satisfy [p]. *)
Fixpoint prefix_len (p : ascii -> bool) (s : gostring) : nat :=
  match s with
  | c :: t => if p c then S (prefix_len p t) else O
  | [] => O
  end.

Section Expand.
Context `{UnicodeTables} `{Host}.

Fixpoint expand_loop (fuel : nat) (r : CommandRunner) (word : gostring) (lastStatus : Z) : gostring :=
  match fuel with
  | O => []
  | S f =>
      match word with
      | [] => []
      | c :: t =>
          if negb (c =c "$") then c :: expand_loop f r t lastStatus
          else match t with
          | [] => "$"%char :: expand_loop f r t lastStatus
          | next :: t' =>
              if next =c "?" then Itoa lastStatus ++ expand_loop f r t' lastStatus
              else if negb (isVariableNameStart next) then "$"%char :: expand_loop f r t lastStatus
              else
                let n := prefix_len isVariableNameChar t' in
                GetEnv r (next :: take n t') ++ expand_loop f r (drop n t') lastStatus
          end
      end
  end.

(** Each round consumes at least a byte: the length is enough fuel. *)
Definition expandVariables (r : CommandRunner) (word : gostring) (lastStatus : Z) : gostring :=
  expand_loop (length word) r word lastStatus.

(** The closure [appendText] of [expandWordSegments]. *)
Definition appendText (w : expandedWord) (t : gostring) (eligible : bool) : expandedWord :=
  Expanded (ew_text w ++ t)
    (globEligible w ++ map (fun c => eligible && ((c =c "*") || (c =c "?"))) t).

Definition expand_segment (r : CommandRunner) (lastStatus : Z) (w : expandedWord) (s : wordSegment)
  : expandedWord :=
  match seg_quote s with
  | singleQuoted | escaped => appendText w (seg_text s) false
  | doubleQuoted => appendText w (expandVariables r (seg_text s) lastStatus) false
  | unquoted => appendText w (expandVariables r (seg_text s) lastStatus) true
  end.

Definition expandWordSegments (r : CommandRunner) (word : syntaxWordValue) (lastStatus : Z)
  : res expandedWord :=
  let result := fold_left (expand_segment r lastStatus) (word_segments word) (Expanded [] []) in
  _ ← validateExpandedTokenLen (ew_text result); Ok result.

(** ** Globs *)
Definition currentPWD (r : CommandRunner) : gostring :=
  let pwd := GetEnv r (go "PWD") in if pwd =s [] then [slash] else pwd.

(** [(dirArg, prefix, pattern, patternStart)]. *)
Definition splitGlobPattern (word : gostring) : gostring * gostring * gostring * nat :=
  match LastIndexByte word slash with
  | None => (dot, [], word, O)
  | Some lastSlash =>
      let pattern := drop (S lastSlash) word in
      let prefix := take (S lastSlash) word in
      if (lastSlash =? 0)%nat then ([slash], prefix, pattern, S lastSlash)
      else (take lastSlash word, prefix, pattern, S lastSlash)
  end.

Definition containsEligibleGlobMeta (w : expandedWord) (start stop : nat) : bool :=
  existsb (fun b => b) (take (stop - start) (drop start (globEligible w))).

Fixpoint globPattern (t : gostring) (eligible : list bool) : gostring :=
  match t with
  | [] => []
  | c :: t' =>
      let el := match eligible with b :: _ => b | [] => false end in
      let rest := globPattern t' (List.tl eligible) in
      if (c =c "[") || (c =c "]") || (c =c chBS) || (((c =c "*") || (c =c "?")) && negb el)
      then chBS :: c :: rest else c :: rest
  end.

Definition globNameMatches (pattern name : gostring) : bool :=
  match Match pattern name with Some b => b | None => false end.

Definition staticChildNames (r : CommandRunner) (dir : gostring) : list gostring :=
  match fs_IsDir (RootFS r) dir with
  | Ok true =>
      match fs_ReadDir (RootFS r) dir with
      | Ok es => map fi_Name es
      | Err _ => []
      end
  | _ => []
  end.

Definition dynamicChildNamesForGlob (r : CommandRunner) (dir : gostring) : list gostring :=
  map (fun e => Base (Path e)) (List.filter (fun e => Dir (Path e) =s dir) (session_entries r)).

Definition expandGlobWord (r : CommandRunner) (word : expandedWord) : res (list gostring) :=
  if negb (containsEligibleGlobMeta word 0 (length (ew_text word))) then Ok [ew_text word]
  else
    let '(dirArg, prefix, pattern, patternStart) := splitGlobPattern (ew_text word) in
    if pattern =s [] then Ok [ew_text word]
    else if containsEligibleGlobMeta word 0 patternStart
    then Err (newSyntaxError "unsupported glob directory pattern")
    else
      let pattern := globPattern pattern (drop patternStart (globEligible word)) in
      resolvedDir ← ResolvePath (currentPWD r) dirArg;
      let nameSet : gset gostring :=
        list_to_set (List.filter (globNameMatches pattern)
          (staticChildNames r resolvedDir ++ dynamicChildNamesForGlob r resolvedDir)) in
      if (base.size nameSet =? 0)%nat then Ok [ew_text word]
      else if MaxGlobMatches <? Z.of_nat (base.size nameSet)
      then Err (newSyntaxLimitError "too many glob matches")
      else Ok (map (fun name => prefix ++ name) (sort_Strings (elements nameSet))).

Fixpoint check_tokens (l : list gostring) : res unit :=
  match l with
  | [] => Ok tt
  | m :: t => _ ← validateExpandedTokenLen m; check_tokens t
  end.

Fixpoint expandCommandWords (r : CommandRunner) (words : list syntaxWordValue) (lastStatus : Z)
  : res (list gostring) :=
  match words with
  | [] => Ok []
  | word :: rest =>
      withVars ← expandWordSegments r word lastStatus;
      _ ← validateExpandedTokenLen (ew_text withVars);
      matches ← expandGlobWord r withVars;
      _ ← check_tokens matches;
      expanded ← expandCommandWords r rest lastStatus;
      Ok (matches ++ expanded)
  end.

Definition expandRedirectTarget (r : CommandRunner) (target : syntaxWordValue) (lastStatus : Z)
  : res gostring :=
  withVars ← expandWordSegments r target lastStatus;
  _ ← validateExpandedTokenLen (ew_text withVars);
  matches ← expandGlobWord r withVars;
  match matches with
  | [m] => _ ← validateExpandedTokenLen m; Ok m
  | _ => Err (errors_New (go "fakeshell: ambiguous redirect: " ++ word_text target))
  end.

(** ** Command environments *)
Definition apply_assignment (acc : CommandRunner * list savedCommandEnv) (assignment : gostring)
  : CommandRunner * list savedCommandEnv :=
  let '(r, saved) := acc in
  match splitEnvAssignment assignment with
  | None => (r, saved)
  | Some (key, value) =>
      let previous := TempEnv r !! ToUpper key in
      (SetEnv key value r,
       saved ++ [Saved key (bool_decide (is_Some previous)) (default zeroPair previous)])
  end.

Definition applyCommandEnv (r : CommandRunner) (assignments : list gostring)
  : CommandRunner * list savedCommandEnv :=
  fold_left apply_assignment assignments (r, []).

Definition restore_one (r : CommandRunner) (entry : savedCommandEnv) : CommandRunner :=
  if sv_hadTemp entry then set_TempEnv (<[ToUpper (sv_key entry) := sv_value entry]> (TempEnv r)) r
  else UnsetEnv (sv_key entry) r.

(** The closure [applyCommandEnv] returns, run on what it captured. *)
Definition restoreCommandEnv (saved : list savedCommandEnv) (r : CommandRunner) : CommandRunner :=
  fold_left restore_one (rev saved) r.

(** The first loop of [validateAssignmentOnlyEnv]. *)
Fixpoint parse_assignments (r : CommandRunner) (l : list gostring) (newKeys : gset gostring)
  : res (list envAssignment * gset gostring) :=
  match l with
  | [] => Ok ([], newKeys)
  | a :: t =>
      match splitEnvAssignment a with
      | None => Err errInvalidAssignment
      | Some (key, value) =>
          if env_too_long key value then Err errEnvTooLong
          else
            let newKeys := match TempEnv r !! ToUpper key with
                           | None => {[ToUpper key]} ∪ newKeys
                           | Some _ => newKeys
                           end in
            rest ← parse_assignments r t newKeys;
            Ok (Assignment key value :: fst rest, snd rest)
      end
  end.

Definition pair_bytes (p : EnvPair) : Z := len (Key p) + len (Value p).

(** The loop that adds up the merged environment; it stops at the bound. *)
Fixpoint env_over (total : Z) (l : list EnvPair) : bool :=
  match l with
  | [] => false
  | p :: t => let total := total + pair_bytes p in
              if MaxSessionEnvBytes <? total then true else env_over total t
  end.

Definition store_assignment (m : EnvMap) (a : envAssignment) : EnvMap :=
  <[ToUpper (as_key a) := MkEnvPair (as_key a) (as_value a)]> m.

Definition validateAssignmentOnlyEnv (r : CommandRunner) (assignments : list gostring)
  : res (list envAssignment) :=
  if MaxInputArgs <? len assignments
  then Err (newSyntaxLimitError "too many environment assignments")
  else
    pn ← parse_assignments r assignments ∅;
    let '(parsed, newKeys) := pn in
    if MaxSessionEnvEntries <? Z.of_nat (base.size (TempEnv r)) + Z.of_nat (base.size newKeys)
    then Err (newSyntaxLimitError "too many session environment entries")
    else
      let merged := fold_left store_assignment parsed (TempEnv r) in
      if env_over 0 (range_order (snd <$> map_to_list merged))
      then Err (newSyntaxLimitError "session environment too large")
      else Ok parsed.

Definition executeAssignmentOnly (r : CommandRunner) (assignments : list gostring)
  : res unit * CommandRunner :=
  match validateAssignmentOnlyEnv r assignments with
  | Err e => (Err e, r)
  | Ok parsed => (Ok tt, fold_left (fun r a => SetEnv (as_key a) (as_value a) r) parsed r)
  end.

(** ** Expansion of a command *)
Fixpoint expand_redirects (r : CommandRunner) (l : list redirectSpec) (lastStatus : Z)
  : res (list redirectSpec) :=
  match l with
  | [] => Ok []
  | redir :: t =>
      if Duplicate redir then rest ← expand_redirects r t lastStatus; Ok (redir :: rest)
      else
        target ← expandRedirectTarget r (redirectTargetWord redir) lastStatus;
        rest ← expand_redirects r t lastStatus;
        Ok (Redirect (FD redir) (Operator redir) target (TargetWord redir) (Duplicate redir)
              (DuplicateFD redir) :: rest)
  end.

Definition command_line_words (cmd : simpleCommand) : list syntaxWordValue :=
  commandNameWord cmd :: imap (fun i arg => commandArgWord cmd i arg) (cmdArgs cmd).

(** The part of [expandSimpleCommand] between setting up the environment and
    the success: on an error the caller runs the cleanup. *)
Definition expand_in_env (r : CommandRunner) (cmd : simpleCommand) (lastStatus : Z)
  : res simpleCommand :=
  words ← expandCommandWords r (command_line_words cmd) lastStatus;
  let '(name, args) := match words with n :: a => (n, a) | [] => ([], []) end in
  redirects ← expand_redirects r (Redirects cmd) lastStatus;
  let expanded := Simple (EnvAssignments cmd) name zeroWord args [] redirects in
  _ ← validateExpandedSimpleCommandBounds expanded;
  Ok expanded.

(** The expanded command and the captured environment, with the runner after. *)
Definition expandSimpleCommand (r : CommandRunner) (cmd : simpleCommand) (lastStatus : Z)
  : res (simpleCommand * list savedCommandEnv) * CommandRunner :=
  if cmdName cmd =s [] then
    match executeAssignmentOnly r (EnvAssignments cmd) with
    | (Err e, r') => (Err e, r')
    | (Ok _, r') => (Ok (cmd, []), r')
    end
  else
    let '(r', saved) := applyCommandEnv r (EnvAssignments cmd) in
    match expand_in_env r' cmd lastStatus with
    | Err e => (Err e, restoreCommandEnv saved r')
    | Ok expanded => (Ok (expanded, saved), r')
    end.
End Expand.

(** ** Command environments: lemmas *)
Section EnvLemmas.
Context `{UnicodeTables} `{Host}.

(** The keys a list of assignments sets, upper-cased as the map stores them. *)
Definition assigned_keys (l : list gostring) : list gostring :=
  omap (fun a => (fun kv => ToUpper (fst kv)) <$> splitEnvAssignment a) l.

Definition saved_keys (l : list savedCommandEnv) : list gostring := map (fun s => ToUpper (sv_key s)) l.

Definition restore_map (m : EnvMap) (s : savedCommandEnv) : EnvMap :=
  if sv_hadTemp s then <[ToUpper (sv_key s) := sv_value s]> m else delete (ToUpper (sv_key s)) m.

Lemma restore_one_map r s : restore_one r s = set_TempEnv (restore_map (TempEnv r) s) r.
Proof. unfold restore_one, restore_map, UnsetEnv. by destruct (sv_hadTemp s). Qed.

Lemma restoreCommandEnv_map saved r :
  restoreCommandEnv saved r = set_TempEnv (fold_left restore_map (rev saved) (TempEnv r)) r.
Proof.
  unfold restoreCommandEnv. generalize (rev saved) as l. intros l. revert r.
  induction l as [|s l IH]; intros r; [by destruct r|]. cbn [fold_left].
  rewrite IH, restore_one_map. by destruct r.
Qed.

Lemma restore_map_lookup m s k (prev : option EnvPair) :
  sv_hadTemp s = bool_decide (is_Some prev) -> sv_value s = default zeroPair prev ->
  restore_map m s !! k = if decide (k = ToUpper (sv_key s)) then prev else m !! k.
Proof.
  intros H1 H2. unfold restore_map. rewrite H1, H2.
  destruct prev as [p|]; cbn [default];
    rewrite ?bool_decide_eq_true_2, ?bool_decide_eq_false_2 by (by eauto || by intros [? ?]).
  - case_decide; subst; [by rewrite lookup_insert_eq|by rewrite lookup_insert_ne].
  - case_decide; subst; [by rewrite lookup_delete_eq|by rewrite lookup_delete_ne].
Qed.

Lemma apply_assignments_spec l r acc r' saved :
  fold_left apply_assignment l (r, acc) = (r', saved) ->
  exists new, saved = acc ++ new /\ saved_keys new = assigned_keys l /\
    (forall m k, fold_left restore_map (rev new) m !! k
               = if decide (k ∈ assigned_keys l) then TempEnv r !! k else m !! k) /\
    (forall k, k ∉ assigned_keys l -> TempEnv r' !! k = TempEnv r !! k) /\
    r' = set_TempEnv (TempEnv r') r.
Proof.
  revert r acc. induction l as [|a l IH]; intros r acc Hf.
  { injection Hf as <- <-. exists []. rewrite app_nil_r. split; [done|]. split; [done|].
    split; [done|]. split; [done|]. by destruct r. }
  cbn [fold_left] in Hf. unfold apply_assignment at 2 in Hf. unfold assigned_keys. cbn [omap list_omap].
  destruct (splitEnvAssignment a) as [[key v]|]; [|by apply IH].
  apply IH in Hf as (new & -> & Hk & Hres & Hfr & Heq).
  set (s0 := Saved key (bool_decide (is_Some (TempEnv r !! ToUpper key)))
                   (default zeroPair (TempEnv r !! ToUpper key))).
  exists (s0 :: new). rewrite <- app_assoc. split; [done|].
  cbn [fmap option_fmap option_map fst]. fold (assigned_keys l).
  split; [unfold saved_keys; cbn [map]; by rewrite <- Hk|]. split.
  - intros m k. cbn [rev]. rewrite fold_left_app. cbn [fold_left].
    rewrite (restore_map_lookup _ s0 k (TempEnv r !! ToUpper key)) by done. rewrite Hres.
    cbn [sv_key s0]. destruct (decide (k = ToUpper key)) as [->|Hne].
    + by rewrite decide_True by by left.
    + destruct (decide (k ∈ assigned_keys l)) as [Hin|Hin].
      * rewrite decide_True by by right. cbn. by rewrite lookup_insert_ne.
      * rewrite decide_False; [done|]. intros [?|?]%elem_of_cons; done.
  - split; [|rewrite Heq; by destruct r].
    intros k [Hne Hni]%not_elem_of_cons. rewrite (Hfr k Hni). cbn. by rewrite lookup_insert_ne.
Qed.

(** Restoring after a command brings the assigned variables back to what they
    were before it and leaves alone what else the command did. *)
Lemma restore_after_command r assigns r' saved r2 k :
  applyCommandEnv r assigns = (r', saved) ->
  TempEnv (restoreCommandEnv saved r2) !! k
  = if decide (k ∈ assigned_keys assigns) then TempEnv r !! k else TempEnv r2 !! k.
Proof.
  intros Hf. apply apply_assignments_spec in Hf as (new & -> & _ & Hres & _).
  rewrite restoreCommandEnv_map. cbn [app]. apply Hres.
Qed.

Lemma restoreCommandEnv_frame saved r :
  restoreCommandEnv saved r = set_TempEnv (TempEnv (restoreCommandEnv saved r)) r.
Proof. rewrite restoreCommandEnv_map. by destruct r. Qed.

(** Undone at once, nothing has changed. *)
Lemma restore_apply_id r assigns r' saved :
  applyCommandEnv r assigns = (r', saved) -> restoreCommandEnv saved r' = r.
Proof.
  intros Hf. rewrite restoreCommandEnv_frame.
  pose proof Hf as (new & _ & _ & _ & Hfr & Heq)%apply_assignments_spec.
  replace (TempEnv (restoreCommandEnv saved r')) with (TempEnv r);
    [rewrite Heq; by destruct r|].
  apply map_eq. intros k. rewrite (restore_after_command r assigns r' saved r' k Hf).
  case_decide; [done|]. symmetry. by apply Hfr.
Qed.

Lemma expandSimpleCommand_error r cmd st e r' :
  cmdName cmd <> [] -> expandSimpleCommand r cmd st = (Err e, r') -> r' = r.
Proof.
  intros Hn. unfold expandSimpleCommand. rewrite (proj2 (gos_eqb_neq _ _) Hn).
  destruct (applyCommandEnv r (EnvAssignments cmd)) as [r1 saved] eqn:E.
  destruct (expand_in_env r1 cmd st); [done|]. intros [= <- <-]. by eapply restore_apply_id.
Qed.
End EnvLemmas.

(** ** Assignments without a command: lemmas *)
Definition sum_bytes (l : list EnvPair) : Z := foldr (fun p acc => pair_bytes p + acc) 0 l.

(** The bytes of keys and values an environment holds. *)
Definition env_bytes (m : EnvMap) : Z := sum_bytes (snd <$> map_to_list m).

#[export] Instance sum_bytes_perm : Proper ((≡ₚ) ==> eq) sum_bytes.
Proof. intros l k. induction 1; simpl; lia. Qed.

Lemma pair_bytes_nonneg p : 0 <= pair_bytes p.
Proof. unfold pair_bytes. pose proof (len_nonneg (Key p)). pose proof (len_nonneg (Value p)). lia. Qed.
#[export] Hint Resolve pair_bytes_nonneg : go.

Lemma sum_bytes_nonneg l : 0 <= sum_bytes l.
Proof. induction l as [|p l IH]; simpl; [lia|]. pose proof (pair_bytes_nonneg p). lia. Qed.

(** Stopping early does not change the verdict: every term is non-negative. *)
Lemma env_over_sum total l :
  total <= MaxSessionEnvBytes -> env_over total l = (MaxSessionEnvBytes <? total + sum_bytes l).
Proof.
  revert total. induction l as [|p l IH]; intros total Ht; cbn [env_over sum_bytes foldr].
  { symmetry. apply Z.ltb_ge. lia. }
  fold (sum_bytes l). pose proof (sum_bytes_nonneg l).
  destruct (MaxSessionEnvBytes <? total + pair_bytes p) eqn:E; bool_simp.
  - symmetry. apply Z.ltb_lt. lia.
  - rewrite IH by done. f_equal. lia.
Qed.

Section AssignLemmas.
Context `{UnicodeTables} `{Host}.

Definition parsed_keys (l : list envAssignment) : gset gostring :=
  list_to_set (map (fun a => ToUpper (as_key a)) l).

Lemma store_assignments_dom l m :
  dom (fold_left store_assignment l m) = dom m ∪ parsed_keys l.
Proof.
  revert m. induction l as [|a l IH]; intros m; cbn [fold_left]; [set_solver|].
  rewrite IH. unfold store_assignment, parsed_keys. rewrite dom_insert_L. set_solver.
Qed.

Lemma parse_assignments_dom r l nk parsed nk' :
  parse_assignments r l nk = Ok (parsed, nk') ->
  dom (TempEnv r) ∪ nk' = dom (TempEnv r) ∪ nk ∪ parsed_keys parsed.
Proof.
  revert nk parsed. induction l as [|a l IH]; intros nk parsed Hp; cbn [parse_assignments] in Hp.
  { inv_ok. set_solver. }
  destruct (splitEnvAssignment a) as [[key v]|]; [|done].
  destruct (env_too_long key v); [done|]. cbv zeta in Hp.
  destruct (parse_assignments r l _) as [[rest nk2]|] eqn:E; [|done]. cbn in Hp. inv_ok.
  apply IH in E. rewrite E. unfold parsed_keys. cbn [map list_to_set as_key].
  destruct (TempEnv r !! ToUpper key) eqn:E2; [|set_solver].
  assert (ToUpper key ∈ dom (TempEnv r)) by by apply elem_of_dom. set_solver.
Qed.

Lemma set_assignments_map l r :
  fold_left (fun r a => SetEnv (as_key a) (as_value a) r) l r
  = set_TempEnv (fold_left store_assignment l (TempEnv r)) r.
Proof.
  revert r. induction l as [|a l IH]; intros r; [by destruct r|]. cbn [fold_left].
  rewrite IH. by destruct r.
Qed.

Lemma executeAssignmentOnly_ok r l r' :
  executeAssignmentOnly r l = (Ok tt, r') ->
  r' = set_TempEnv (TempEnv r') r /\
  Z.of_nat (base.size (TempEnv r')) <= MaxSessionEnvEntries /\
  env_bytes (TempEnv r') <= MaxSessionEnvBytes.
Proof.
  unfold executeAssignmentOnly, validateAssignmentOnlyEnv. intros Hx.
  destruct (MaxInputArgs <? len l); [done|].
  destruct (parse_assignments r l ∅) as [[parsed nk]|] eqn:E1; [|done]. cbn [mbind result_bind] in Hx.
  destruct (MaxSessionEnvEntries <? _) eqn:E2; [done|].
  destruct (env_over 0 _) eqn:E3; [done|]. inv_ok. rewrite set_assignments_map.
  cbn [TempEnv set_TempEnv]. split; [by destruct r|]. bool_simp. split.
  - rewrite <- size_dom, store_assignments_dom.
    apply parse_assignments_dom in E1.
    assert (dom (TempEnv r) ∪ parsed_keys parsed = dom (TempEnv r) ∪ nk) as -> by set_solver.
    pose proof (size_union_alt (dom (TempEnv r)) nk).
    assert ((base.size (nk ∖ dom (TempEnv r)) <= base.size nk)%nat) by (apply subseteq_size; set_solver).
    rewrite size_dom in *. lia.
  - rewrite env_over_sum in E3 by done. bool_simp. unfold env_bytes.
    rewrite <- range_order_perm. lia.
Qed.

Lemma executeAssignmentOnly_err r l e r' :
  executeAssignmentOnly r l = (Err e, r') -> r' = r.
Proof.
  unfold executeAssignmentOnly. destruct (validateAssignmentOnlyEnv r l); [done|].
  by intros [= _ <-].
Qed.
End AssignLemmas.

(** ** Globs: lemmas *)

(** What the bytes of an expanded word mean to the glob: only eligible [*] and
    [?] are special. *)
Fixpoint word_items (t : gostring) (eligible : list bool) : list gitem :=
  match t with
  | [] => []
  | c :: t' =>
      let el := match eligible with b :: _ => b | [] => false end in
      (if (c =c "*") && el then GStar else if (c =c "?") && el then GAny else GLit c)
      :: word_items t' (List.tl eligible)
  end.

(** The escaped pattern means that, and is never malformed or a class. *)
Lemma globPattern_items t eligible : glob_items (globPattern t eligible) = Some (word_items t eligible).
Proof.
  revert eligible. induction t as [|c t IH]; intros el; [done|].
  cbn [globPattern word_items]. specialize (IH (List.tl el)).
  set (e := match el with b :: _ => b | [] => false end). cbv zeta.
  destruct (c =c "[") eqn:E1; bool_simp; subst; [cbn; by rewrite IH|].
  destruct (c =c "]") eqn:E2; bool_simp; subst; [cbn; by rewrite IH|].
  destruct (c =c chBS) eqn:E3; bool_simp; subst; [cbn; by rewrite IH|].
  destruct (c =c "*") eqn:E4; bool_simp; subst; [destruct e; cbn; by rewrite IH|].
  destruct (c =c "?") eqn:E5; bool_simp; subst; [destruct e; cbn; by rewrite IH|].
  cbn [orb andb glob_items]. rewrite (proj2 (Ascii.eqb_neq _ _) E3), (proj2 (Ascii.eqb_neq _ _) E4),
    (proj2 (Ascii.eqb_neq _ _) E5), (proj2 (Ascii.eqb_neq _ _) E1). by rewrite IH.
Qed.

Lemma globNameMatches_spec t eligible name :
  isASCII name = true ->
  globNameMatches (globPattern t eligible) name = true <-> glob_match (word_items t eligible) name.
Proof.
  intros Ha. unfold globNameMatches.
  destruct (Match_spec _ _ name (globPattern_items t eligible) Ha) as (b & -> & Hb). done.
Qed.

Section GlobLemmas.
Context `{UnicodeTables} `{Host}.

Definition glob_children (r : CommandRunner) (d : gostring) : list gostring :=
  staticChildNames r d ++ dynamicChildNamesForGlob r d.

(** [names] are the children of [d] that match, each once, sorted. *)
Definition matching_names (r : CommandRunner) (d : gostring) (items : list gitem)
    (names : list gostring) : Prop :=
  StronglySorted str_le names /\ NoDup names /\
  (forall n, n ∈ names <-> n ∈ glob_children r d /\ glob_match items n).

Lemma sorted_matches r d t eligible :
  Forall (fun n => isASCII n = true) (glob_children r d) ->
  matching_names r d (word_items t eligible)
    (sort_Strings (elements (list_to_set (List.filter (globNameMatches (globPattern t eligible))
                                            (glob_children r d)) : gset gostring))).
Proof.
  intros Ha. split; [apply sort_Strings_sorted|]. split.
  - rewrite sort_Strings_perm. apply NoDup_elements.
  - intros n. rewrite sort_Strings_perm, elem_of_elements, elem_of_list_to_set.
    rewrite list_elem_of_In, filter_In, <- list_elem_of_In.
    rewrite Forall_forall in Ha. split; intros [Hin Hm]; (split; [done|]);
      by apply globNameMatches_spec; [apply Ha|].
Qed.

Lemma expandGlobWord_literal r w :
  containsEligibleGlobMeta w 0 (length (ew_text w)) = false -> expandGlobWord r w = Ok [ew_text w].
Proof. intros E. unfold expandGlobWord. by rewrite E. Qed.

Lemma expandGlobWord_matches r w dirArg prefix pattern start d :
  containsEligibleGlobMeta w 0 (length (ew_text w)) = true ->
  splitGlobPattern (ew_text w) = (dirArg, prefix, pattern, start) -> pattern <> [] ->
  containsEligibleGlobMeta w 0 start = false -> ResolvePath (currentPWD r) dirArg = Ok d ->
  Forall (fun n => isASCII n = true) (glob_children r d) ->
  exists names, matching_names r d (word_items pattern (drop start (globEligible w))) names /\
    expandGlobWord r w
    = match names with
      | [] => Ok [ew_text w]
      | _ => if MaxGlobMatches <? len names then Err (newSyntaxLimitError "too many glob matches")
             else Ok (map (app prefix) names)
      end.
Proof.
  intros E1 E2 Hp E3 E4 Ha. pose proof (sorted_matches r d pattern (drop start (globEligible w)) Ha) as Hm.
  unfold expandGlobWord. rewrite E1, E2. cbn [negb]. rewrite (proj2 (gos_eqb_neq _ _) Hp), E3, E4.
  cbn [mbind result_bind]. fold (glob_children r d).
  set (X := list_to_set _ : gset gostring) in *. eexists. split; [exact Hm|].
  assert (len (sort_Strings (elements X)) = Z.of_nat (base.size X)) as Hl.
  { unfold len. by rewrite sort_Strings_perm. }
  destruct (sort_Strings (elements X)) as [|n names] eqn:E5.
  - rewrite len_nil in Hl. replace (base.size X) with 0%nat by lia. done.
  - rewrite Hl. rewrite len_cons in Hl. pose proof (len_nonneg names).
    destruct (Nat.eqb_spec (base.size X) 0); [lia|]. done.
Qed.

(** ** Words that are literal: single quotes and escapes *)
Definition all_literal (w : syntaxWordValue) : Prop :=
  Forall (fun s => seg_quote s = singleQuoted \/ seg_quote s = escaped) (word_segments w).

Lemma expand_literal_segments r st segs w :
  Forall (fun s => seg_quote s = singleQuoted \/ seg_quote s = escaped) segs ->
  fold_left (expand_segment r st) segs w
  = Expanded (ew_text w ++ concat (map seg_text segs))
             (globEligible w ++ map (fun _ => false) (concat (map seg_text segs))).
Proof.
  intros Hs. revert w. induction Hs as [|s segs Hq Hs IH]; intros w; cbn [fold_left map concat].
  { cbn. rewrite !app_nil_r. by destruct w. }
  rewrite IH. unfold expand_segment. rewrite map_app, !app_assoc.
  destruct Hq as [-> | ->]; cbn [ew_text globEligible appendText]; by rewrite ?app_assoc.
Qed.

Lemma existsb_const_false {A} (l : list A) : existsb (fun b => b) (map (fun _ => false) l) = false.
Proof. by induction l. Qed.

Lemma expandCommandWords_literal r st ws :
  Forall (fun w => all_literal w /\ word_text w = concat (map seg_text (word_segments w)) /\
                   len (word_text w) <= MaxInputTokenBytes) ws ->
  expandCommandWords r ws st = Ok (map word_text ws).
Proof.
  induction 1 as [|w ws (Hl & Ht & Hb) Hs IH]; [done|]. cbn [expandCommandWords].
  unfold expandWordSegments. rewrite (expand_literal_segments _ _ _ _ Hl). cbn [ew_text app].
  rewrite <- Ht. cbv zeta. cbn [ew_text globEligible app].
  assert (validateExpandedTokenLen (word_text w) = Ok tt) as Hv.
  { unfold validateExpandedTokenLen. by rewrite (proj2 (Z.ltb_ge _ _)). }
  rewrite Hv. cbn [mbind result_bind ew_text]. rewrite Hv. cbn [mbind result_bind].
  rewrite expandGlobWord_literal.
  - cbn [mbind result_bind check_tokens ew_text]. rewrite Hv. cbn [mbind result_bind].
    by rewrite IH.
  - unfold containsEligibleGlobMeta. cbn [ew_text globEligible]. rewrite drop_0, Nat.sub_0_r.
    rewrite take_ge by by rewrite length_map. apply existsb_const_false.
Qed.
End GlobLemmas.

(** ** Properties *)

(** Command-scoped assignments are undone: whatever a command does to the
    runner (from [r'] to [r2]), running the cleanup gives every variable assigned
    on its command line the temporary value it had before, or none, even when it
    was assigned several times in different cases; all other variables and all
    other state are as the command left them; and undone at once the runner is
    the one before. *)
Lemma applyCommandEnv_restores `{UnicodeTables} `{Host} r assigns r' saved r2 :
  applyCommandEnv r assigns = (r', saved) ->
  (forall k, TempEnv (restoreCommandEnv saved r2) !! k
             = if decide (k ∈ assigned_keys assigns) then TempEnv r !! k else TempEnv r2 !! k) /\
  restoreCommandEnv saved r2 = set_TempEnv (TempEnv (restoreCommandEnv saved r2)) r2 /\
  restoreCommandEnv saved r' = r.
Proof.
  intros Ha. split; [intros k; by eapply restore_after_command|].
  split; [apply restoreCommandEnv_frame|by eapply restore_apply_id].
Qed.

(** A runner over the root-only filesystem, for concrete runs. *)
Definition example_conf : FakeshellConfig :=
  mkFakeshellConfig true (mkEnvConfig (go "root") (go "/") (go "os") (go "k") (go "h") true ∅) []
                    (mkLogConfig false [] []).
Definition example_runner : CommandRunner :=
  @NewCommandRunner ascii_tables quiet_host [(go "USER", go "root"); (go "PWD", go "/")] example_conf.


(** A line of bare assignments keeps the session environment within its
    bounds: when it succeeds there are at most [MaxSessionEnvEntries] temporary
    variables, of at most [MaxSessionEnvBytes] bytes in all whatever order the
    map is ranged over, and nothing but the temporary variables has changed; when
    it fails nothing has changed. *)
Lemma executeAssignmentOnly_bounded `{UnicodeTables} `{Host} r assigns result r' :
  executeAssignmentOnly r assigns = (result, r') ->
  match result with
  | Ok _ => r' = set_TempEnv (TempEnv r') r /\
            Z.of_nat (base.size (TempEnv r')) <= MaxSessionEnvEntries /\
            env_bytes (TempEnv r') <= MaxSessionEnvBytes
  | Err _ => r' = r
  end.
Proof.
  destruct result as [[]|e]; [apply executeAssignmentOnly_ok|apply executeAssignmentOnly_err].
Qed.


(** Pathname expansion is exact: for a word with an active [*] or [?] in
    its last component only, over a directory whose names are ASCII, the result
    is the sorted, duplicate-free list of the directory's static and touched
    names that match the declarative reading of the pattern, with the word's
    directory prefix; the word itself when none matches; and an error when more
    than [MaxGlobMatches] do. Bytes that were quoted or escaped match only
    themselves. *)
Lemma expandGlobWord_correct `{UnicodeTables} `{Host} r w dirArg prefix pattern start d :
  containsEligibleGlobMeta w 0 (length (ew_text w)) = true ->
  splitGlobPattern (ew_text w) = (dirArg, prefix, pattern, start) -> pattern <> [] ->
  containsEligibleGlobMeta w 0 start = false -> ResolvePath (currentPWD r) dirArg = Ok d ->
  Forall (fun n => isASCII n = true) (glob_children r d) ->
  exists names, matching_names r d (word_items pattern (drop start (globEligible w))) names /\
    expandGlobWord r w
    = match names with
      | [] => Ok [ew_text w]
      | _ => if MaxGlobMatches <? len names then Err (newSyntaxLimitError "too many glob matches")
             else Ok (map (app prefix) names)
      end.
Proof. apply expandGlobWord_matches. Qed.

(** A runner whose session has touched [/b1], [/a] and [/b2]. *)
Definition touched_runner : CommandRunner :=
  let rec_file s p := snd (@DynamicRecord ascii_tables s 0 (go p) (go "file") 0 [] []) in
  set_Dynamic (Some (rec_file (rec_file (rec_file NewDynamicStore "/b1") "/a") "/b2"))%string
              example_runner.

