(* ===== verification/Redirect.v ===== *)
(** * Fake redirections: the second half of [modules/fakeshell/syntax_expand.go].

    Output redirected to a path is counted and discarded; the path is recorded in
    the session's dynamic store before the command runs and its size after.  The
    theorems: the preflight check makes every later store update succeed, so a
    redirection never half-applies, and the recorded size is bounded. *)
From Stdlib Require Import Ascii String ZArith Lia.
From stdpp Require Import base gmap strings list.
From S2P Require Import Prelude GoStrings GoPath Paths Input Syntax Dynamic ShellConf Runner Expand.
Local Open Scope Z_scope.

Definition errUnsupportedRedirection : error := errors_New (go "fakeshell: unsupported redirection").
Definition errNoStore : error := errors_New (go "fakeshell: dynamic store unavailable").
Definition errDynamicFull : error := errors_New (go "fakeshell: dynamic store full").

Section Redirect.
Context `{UnicodeTables} `{Host}.

Definition fakeDirExists (r : CommandRunner) (resolved : gostring) : bool :=
  (resolved =s [slash])
  || match fs_IsDir (RootFS r) resolved with Ok b => b | Err _ => false end
  || existsb (fun e => (Path e =s resolved) && (Kind e =s go "dir")) (session_entries r).

Definition fakePathExists (r : CommandRunner) (resolved : gostring) : bool :=
  match fs_Exists (RootFS r) resolved with Ok b => b | Err _ => false end
  || existsb (fun e => Path e =s resolved) (session_entries r).

Definition dynamicEntryExists (es : list DynamicEntry) (resolved : gostring) : bool :=
  existsb (fun e => Path e =s resolved) es.

Definition validateFakeOutputRedirection (r : CommandRunner) (target : gostring) : res gostring :=
  resolved ← ResolvePath (currentPWD r) target;
  if MaxDynamicPathLen <? len resolved then Err (newSyntaxLimitError "redirection path too long")
  else match Dynamic r with
  | None => Err errNoStore
  | Some store =>
      let parent := Dir resolved in
      if negb (fakeDirExists r parent)
      then Err (errors_New (go "fakeshell: " ++ target ++ go ": No such file or directory"))
      else if fakeDirExists r resolved
      then Err (errors_New (go "fakeshell: " ++ target ++ go ": Is a directory"))
      else
        let es := Entries store in
        if negb (dynamicEntryExists es resolved) && (MaxDynamicEntries <=? len es)
        then Err errDynamicFull
        else Ok resolved
  end.

Definition bad_duplicate (redir : redirectSpec) : bool :=
  negb (FD redir =? 2) || negb (Operator redir =s go ">&") || negb (DuplicateFD redir =? 1).
Definition is_output (redir : redirectSpec) : bool :=
  (Operator redir =s go ">") || (Operator redir =s go "2>").

(** The loop of the preflight check without a store. *)
Fixpoint preflight_nostore (l : list redirectSpec) : res unit :=
  match l with
  | [] => Ok tt
  | redir :: t =>
      if Duplicate redir then
        if bad_duplicate redir then Err errUnsupportedRedirection else preflight_nostore t
      else if negb (is_output redir) then Err errUnsupportedRedirection
      else Err errNoStore
  end.

Fixpoint preflight_targets (r : CommandRunner) (existing : gset gostring) (l : list redirectSpec)
    (newTargets : gset gostring) : res (gset gostring) :=
  match l with
  | [] => Ok newTargets
  | redir :: t =>
      if Duplicate redir then
        if bad_duplicate redir then Err errUnsupportedRedirection
        else preflight_targets r existing t newTargets
      else if is_output redir then
        resolved ← validateFakeOutputRedirection r (Target redir);
        preflight_targets r existing t
          (if bool_decide (resolved ∈ existing) then newTargets else {[resolved]} ∪ newTargets)
      else Err errUnsupportedRedirection
  end.

Definition preflightOutputRedirectionTargets (r : CommandRunner) (redirects : list redirectSpec)
  : res unit :=
  match Dynamic r with
  | None => preflight_nostore redirects
  | Some store =>
      let existing : gset gostring := list_to_set (map Path (Entries store)) in
      newTargets ← preflight_targets r existing redirects ∅;
      if MaxDynamicEntries <? Z.of_nat (base.size existing) + Z.of_nat (base.size newTargets)
      then Err errDynamicFull
      else Ok tt
  end.

(** [runner.Dynamic.Record(path, "file", size, nil, "")].  The code only reaches
    it with a store. *)
Definition record_file (path : gostring) (size : Z) : M (res DynamicEntry) := fun w =>
  let '(t, w) := now w in
  match Dynamic (runner w) with
  | None => (Err errNoStore, w)
  | Some store =>
      let '(result, store') := DynamicRecord store t path (go "file") size [] [] in
      (result, upd_runner (set_Dynamic (Some store')) w)
  end.

(** The loop that reserves every target before the command runs. *)
Fixpoint reserve_targets (l : list redirectSpec) (reserved : gset gostring) : M (res unit) :=
  match l with
  | [] => mret (Ok tt)
  | redir :: t =>
      if Duplicate redir then reserve_targets t reserved
      else
        r ← get_runner;
        match validateFakeOutputRedirection r (Target redir) with
        | Err e => mret (Err e)
        | Ok resolved =>
            if bool_decide (resolved ∈ reserved) then reserve_targets t reserved
            else
              result ← record_file resolved 0;
              match result with
              | Err e => mret (Err e)
              | Ok _ => reserve_targets t ({[resolved]} ∪ reserved)
              end
        end
  end.

(** [&boundedCountingDiscardWriter{cap: MaxCommandOutputBytes}]. *)
Definition new_counting : M nat := fun w =>
  (length (counters w),
   mkWorld (runner w) (counters w ++ [Counting 0 MaxCommandOutputBytes]) (sent w) (writes w)
           (ticks w) (events w) (closed w)).

(** The loop that installs the writers. *)
Fixpoint install_writers (l : list redirectSpec) (out errw : Writer)
    (records : list fakeRedirectionRecord)
  : M (res (Writer * Writer * list fakeRedirectionRecord)) :=
  match l with
  | [] => mret (Ok (out, errw, records))
  | redir :: t =>
      if Duplicate redir then
        if bad_duplicate redir then mret (Err errUnsupportedRedirection)
        else install_writers t out out records
      else if is_output redir then
        if negb (FD redir =? 1) && negb (FD redir =? 2)
        then mret (Err (errors_New (go "fakeshell: unsupported output descriptor " ++ Itoa (FD redir))))
        else
          r ← get_runner;
          match validateFakeOutputRedirection r (Target redir) with
          | Err e => mret (Err e)
          | Ok resolved =>
              i ← new_counting;
              let records := records ++ [RedirRecord resolved i] in
              if FD redir =? 1 then install_writers t (wCounting i) errw records
              else install_writers t out (wCounting i) records
          end
      else mret (Err errUnsupportedRedirection)
  end.

Definition applyFakeRedirections (cmd : simpleCommand) (stdout stderr : Writer)
  : M (res (Writer * Writer * list fakeRedirectionRecord)) :=
  r ← get_runner;
  match preflightOutputRedirectionTargets r (Redirects cmd) with
  | Err e => mret (Err e)
  | Ok _ =>
      reserved ← reserve_targets (Redirects cmd) ∅;
      match reserved with
      | Err e => mret (Err e)
      | Ok _ => install_writers (Redirects cmd) stdout stderr []
      end
  end.

Definition counter_value (cs : list boundedCountingDiscardWriter) (i : nat) : Z :=
  match cs !! i with Some c => w_count c | None => 0 end.

(** The first loop of the cleanup: the paths to record and their sizes. *)
Fixpoint collect_sizes (cs : list boundedCountingDiscardWriter) (l : list fakeRedirectionRecord)
    (sizes : gmap gostring Z) (paths : list gostring) : gmap gostring Z * list gostring :=
  match l with
  | [] => (sizes, paths)
  | record :: t =>
      let path := rr_path record in
      let paths := match sizes !! path with None => paths ++ [path] | Some _ => paths end in
      let count := counter_value cs (rr_writer record) in
      let sizes := if default 0 (sizes !! path) <? count then <[path := count]> sizes else sizes in
      collect_sizes cs t sizes paths
  end.

Fixpoint record_sizes (sizes : gmap gostring Z) (paths : list gostring) : M unit :=
  match paths with
  | [] => mret tt
  | p :: t => _ ← record_file p (default 0 (sizes !! p)); record_sizes sizes t
  end.

(** The closure [applyFakeRedirections] returns, run on its records. *)
Definition cleanupRedirections (records : list fakeRedirectionRecord) : M unit := fun w =>
  let '(sizes, paths) := collect_sizes (counters w) records ∅ [] in
  record_sizes sizes paths w.
End Redirect.

(** ** Lemmas *)
Section RedirectLemmas.
Context `{UnicodeTables} `{Host}.

(** The shapes the parser produces. *)
Definition redir_shape (r : redirectSpec) : Prop :=
  if Duplicate r then bad_duplicate r = false
  else (FD r = 1 /\ Operator r = go ">") \/ (FD r = 2 /\ Operator r = go "2>").

Lemma redir_ok_shape r : redir_ok r -> redir_shape r.
Proof. unfold redir_shape. intros [->|(-> & ? & _)]; done. Qed.

Lemma redir_shape_output r : redir_shape r -> Duplicate r = false -> is_output r = true.
Proof. unfold redir_shape, is_output. intros Hs E. rewrite E in Hs. by destruct Hs as [[_ ->]|[_ ->]]. Qed.

(** The dynamic directories of a store. *)
Definition has_dir (s : DynamicStore) (q : gostring) : Prop :=
  exists e, entries s !! q = Some e /\ Kind e = go "dir".

Lemma existsb_has_dir s q :
  store_ok s ->
  existsb (fun e => (Path e =s q) && (Kind e =s go "dir")) (Entries s) = true <-> has_dir s q.
Proof.
  intros Hs. rewrite existsb_exists. split.
  - intros (e & Hin & He). apply list_elem_of_In in Hin. bool_simp. subst q.
    apply Entries_elem in Hin; [|done]. by exists e.
  - intros (e & He & Hk). destruct (Entries_lookup s q e Hs He) as (Hin & <- & _). exists e.
    split; [by apply list_elem_of_In|]. by rewrite gos_eqb_refl, Hk, gos_eqb_refl.
Qed.

Lemma dynamicEntryExists_spec s q :
  store_ok s -> dynamicEntryExists (Entries s) q = true <-> is_Some (entries s !! q).
Proof.
  intros Hs. unfold dynamicEntryExists. rewrite existsb_exists. split.
  - intros (e & Hin & He). apply list_elem_of_In in Hin. bool_simp. subst q.
    apply Entries_elem in Hin; [|done]. by exists e.
  - intros (e & He). destruct (Entries_lookup s q e Hs He) as (Hin & <- & _). exists e.
    split; [by apply list_elem_of_In|apply gos_eqb_refl].
Qed.

Lemma session_entries_some r s : Dynamic r = Some s -> session_entries r = Entries s.
Proof. intros E. unfold session_entries. by rewrite E. Qed.

Lemma fakeDirExists_dynamic r s s' q :
  Dynamic r = Some s -> store_ok s -> store_ok s' -> (forall p, has_dir s' p <-> has_dir s p) ->
  fakeDirExists (set_Dynamic (Some s') r) q = fakeDirExists r q.
Proof.
  intros E Hs Hs' Hd. unfold fakeDirExists. rewrite (session_entries_some r s E).
  rewrite (session_entries_some _ s') by done. f_equal. apply eq_true_iff_eq.
  by rewrite !existsb_has_dir.
Qed.

Lemma fakeDirExists_has_dir r s q :
  Dynamic r = Some s -> store_ok s -> fakeDirExists r q = false -> ~ has_dir s q.
Proof.
  intros E Hs Hf Hd. unfold fakeDirExists in Hf. rewrite (session_entries_some r s E) in Hf.
  apply existsb_has_dir in Hd; [|done]. by rewrite Hd, orb_true_r in Hf.
Qed.

(** What a valid target promises. *)
Lemma validate_ok r s target p :
  Dynamic r = Some s -> store_ok s -> Forall path_byte (currentPWD r) ->
  validateFakeOutputRedirection r target = Ok p ->
  abs_canonical p /\ Forall path_byte p /\ len p <= MaxDynamicPathLen /\
  fakeDirExists r (Dir p) = true /\ fakeDirExists r p = false /\
  ResolvePath (currentPWD r) target = Ok p /\
  (is_Some (entries s !! p) \/ len (order s) < MaxDynamicEntries).
Proof.
  intros E Hs Hb Hv. unfold validateFakeOutputRedirection in Hv.
  destruct (ResolvePath (currentPWD r) target) as [q|] eqn:Er; [|done]. cbn [mbind result_bind] in Hv.
  destruct (MaxDynamicPathLen <? len q) eqn:El; [done|]. rewrite E in Hv. cbv zeta in Hv.
  destruct (fakeDirExists r (Dir q)) eqn:Ed; [|done]. cbn [negb] in Hv.
  destruct (fakeDirExists r q) eqn:Ef; [done|].
  destruct (dynamicEntryExists (Entries s) q) eqn:Ex; cbn [negb andb] in Hv.
  - inv_ok. bool_simp. split; [by eapply ResolvePath_canonical_lem|].
    split; [by eapply ResolvePath_bytes|]. repeat (split; [done|]). left.
    by apply dynamicEntryExists_spec.
  - destruct (MaxDynamicEntries <=? len (Entries s)) eqn:Em; [done|]. inv_ok. bool_simp.
    split; [by eapply ResolvePath_canonical_lem|].
    split; [by eapply ResolvePath_bytes|]. repeat (split; [done|]). right.
    by rewrite <- Entries_len.
Qed.

(** Validation survives changes of the store that keep its directories and the
    target or some room. *)
Lemma validate_stable r s s' target p :
  Dynamic r = Some s -> store_ok s -> store_ok s' -> (forall q, has_dir s' q <-> has_dir s q) ->
  is_Some (entries s' !! p) \/ len (order s') < MaxDynamicEntries ->
  validateFakeOutputRedirection r target = Ok p ->
  validateFakeOutputRedirection (set_Dynamic (Some s') r) target = Ok p.
Proof.
  intros E Hs Hs' Hd Hroom. unfold validateFakeOutputRedirection.
  change (currentPWD (set_Dynamic (Some s') r)) with (currentPWD r).
  destruct (ResolvePath (currentPWD r) target) as [q|]; [|done]. cbn [mbind result_bind].
  destruct (MaxDynamicPathLen <? len q); [done|]. rewrite E. cbv zeta.
  cbn [Dynamic set_Dynamic]. fold (set_Dynamic (Some s') r).
  rewrite !(fakeDirExists_dynamic r s s') by done.
  destruct (fakeDirExists r (Dir q)); [|done]. cbn [negb].
  destruct (fakeDirExists r q); [done|]. intros Hv.
  assert (q = p) as ->.
  { destruct (_ && _) in Hv; [done|]. by inv_ok. }
  destruct Hroom as [Hin|Hlt].
  - apply dynamicEntryExists_spec in Hin; [|done]. by rewrite Hin.
  - rewrite Entries_len, (proj2 (Z.leb_gt _ _) Hlt). by rewrite andb_false_r.
Qed.

(** The path is recorded as a file. *)
Definition has_file (s : DynamicStore) (q : gostring) : Prop :=
  exists e, entries s !! q = Some e /\ Kind e = go "file".

(** Only the store and the clock have moved on. *)
Definition only_store (w w' : World) (s' : DynamicStore) : Prop :=
  runner w' = set_Dynamic (Some s') (runner w) /\ counters w' = counters w /\ sent w' = sent w /\
  writes w' = writes w /\ events w' = events w /\ closed w' = closed w.

Lemma only_store_refl w s : Dynamic (runner w) = Some s -> only_store w w s.
Proof.
  intros E. repeat split. unfold set_Dynamic. rewrite <- E. by destruct (runner w).
Qed.

Lemma only_store_trans w1 w2 w3 s2 s3 :
  only_store w1 w2 s2 -> only_store w2 w3 s3 -> only_store w1 w3 s3.
Proof.
  intros (E1 & ? & ? & ? & ? & ?) (E2 & ? & ? & ? & ? & ?). rewrite E1 in E2.
  split; [by rewrite E2|]. repeat split; congruence.
Qed.

Lemma file_kind : go "file" ∈ validDynamicKinds.
Proof. apply list_elem_of_In. by left. Qed.

Lemma DynamicRecord_file s t p sz :
  store_ok s -> abs_canonical p -> Forall path_byte p -> len p <= MaxDynamicPathLen -> 0 <= sz ->
  is_Some (entries s !! p) \/ len (order s) < MaxDynamicEntries ->
  exists e s', DynamicRecord s t p (go "file") sz [] [] = (Ok e, s') /\ store_ok s' /\
    entries s' = <[p := e]> (entries s) /\ Path e = p /\ Kind e = go "file" /\ Size e = sz.
Proof.
  intros Hs Hc Hb Hl Hsz Hroom.
  pose proof (proj1 (DynamicRecord_refines s t p (go "file") sz [] [] Hs)) as Hs'.
  unfold DynamicRecord in *.
  rewrite (record_entry_total t p (go "file") sz [] Hc Hb Hl (file_kind) Hsz) in *.
  cbv zeta in *. cbn [Path] in *. rewrite deepCopy_id in *.
  destruct (entries s !! p) as [x|] eqn:E.
  - do 2 eexists. split; [done|]. split; [exact Hs'|]. done.
  - rewrite (store_size s Hs) in *. destruct Hroom as [[? ?]|Hroom]; [done|].
    rewrite (proj2 (Z.leb_gt _ _) Hroom) in *. do 2 eexists. split; [done|]. split; [exact Hs'|]. done.
Qed.

Lemma record_file_ok w s p sz :
  Dynamic (runner w) = Some s -> store_ok s -> abs_canonical p -> Forall path_byte p ->
  len p <= MaxDynamicPathLen -> 0 <= sz ->
  is_Some (entries s !! p) \/ len (order s) < MaxDynamicEntries ->
  exists e s' w', record_file p sz w = (Ok e, w') /\ only_store w w' s' /\ store_ok s' /\
    entries s' = <[p := e]> (entries s) /\ Path e = p /\ Kind e = go "file" /\ Size e = sz.
Proof.
  intros E Hs Hc Hb Hl Hsz Hroom.
  destruct (DynamicRecord_file s (clock (ticks w)) p sz Hs Hc Hb Hl Hsz Hroom)
    as (e & s' & Er & Hs' & Hi & Hrest).
  unfold record_file, now. cbn [runner]. rewrite E, Er. do 3 eexists. split; [done|].
  split; [by repeat split|]. done.
Qed.

(** A store of which [T] is an upper bound, derived from [s0] without touching its
    directories. *)
Definition within (s0 : DynamicStore) (T : gset gostring) (s : DynamicStore) : Prop :=
  store_ok s /\ (forall q, has_dir s q <-> has_dir s0 q) /\ dom (entries s0) ⊆ dom (entries s) /\
  dom (entries s) ⊆ T.

Lemma within_room s0 T s p :
  within s0 T s -> Z.of_nat (base.size T) <= MaxDynamicEntries -> p ∈ T ->
  is_Some (entries s !! p) \/ len (order s) < MaxDynamicEntries.
Proof.
  intros (Hs & _ & _ & Hsub) HT Hp. destruct (entries s !! p) as [e|] eqn:E; [by left; eexists|right].
  rewrite <- (store_size s Hs), <- (size_dom (D := gset gostring)).
  assert (base.size (dom (entries s)) < base.size T)%nat; [|lia].
  apply subset_size. split; [done|]. intros Hsub2. apply not_elem_of_dom in E. by apply E, Hsub2.
Qed.

Lemma within_record s0 T s p e s' :
  within s0 T s -> p ∈ T -> ~ has_dir s0 p -> store_ok s' -> Kind e = go "file" ->
  entries s' = <[p := e]> (entries s) -> within s0 T s'.
Proof.
  intros (Hs & Hd & Hsub1 & Hsub2) Hp Hnd Hs' Hk E. split; [done|]. split.
  - intros q. rewrite <- Hd. unfold has_dir. rewrite E.
    destruct (decide (q = p)) as [->|Hne]; [|by rewrite lookup_insert_ne].
    split; [|intros Hq; by apply Hd in Hq]. intros (x & Hx & Hxk).
    rewrite lookup_insert_eq in Hx. injection Hx as <-. by rewrite Hk in Hxk.
  - rewrite E, dom_insert_L. set_solver.
Qed.

Definition target_in (r : CommandRunner) (T : gset gostring) (redir : redirectSpec) : Prop :=
  Duplicate redir = false ->
  exists p, validateFakeOutputRedirection r (Target redir) = Ok p /\ p ∈ T.

Lemma reserve_targets_ok r s0 T l :
  Dynamic r = Some s0 -> store_ok s0 -> Forall path_byte (currentPWD r) ->
  Z.of_nat (base.size T) <= MaxDynamicEntries -> Forall (target_in r T) l ->
  forall reserved s w, runner w = set_Dynamic (Some s) r -> within s0 T s ->
  (forall q, q ∈ reserved -> has_file s q) ->
  exists s' w', reserve_targets l reserved w = (Ok tt, w') /\ only_store w w' s' /\ within s0 T s' /\
    (forall q, q ∈ reserved -> has_file s' q) /\
    Forall (fun d => Duplicate d = false ->
                     exists p, validateFakeOutputRedirection r (Target d) = Ok p /\ has_file s' p) l.
Proof.
  intros E0 Hs0 Hb HT Hl. induction Hl as [|d l Hd Hl IH]; intros reserved s w Ew Hw Hres.
  { exists s, w. split; [done|]. split; [apply only_store_refl; by rewrite Ew|]. done. }
  cbn [reserve_targets]. destruct (Duplicate d) eqn:Ed.
  { destruct (IH reserved s w Ew Hw Hres) as (s' & w' & Er & Ho & Hw' & Hr' & Hf).
    exists s', w'. do 4 (split; [done|]). constructor; [congruence|done]. }
  destruct (Hd Ed) as (p & Hv & Hp).
  pose proof (within_room s0 T s p Hw HT Hp) as Hroom.
  pose proof Hw as (Hs & Hdirs & _).
  assert (validateFakeOutputRedirection (set_Dynamic (Some s) r) (Target d) = Ok p) as Hv'
    by by eapply validate_stable.
  destruct (validate_ok r s0 (Target d) p E0 Hs0 Hb Hv) as (Hc & Hpb & Hlen & _ & Hnd & _).
  setoid_rewrite bind_get. rewrite Ew, Hv'. case_bool_decide as Hin.
  { destruct (IH reserved s w Ew Hw Hres) as (s' & w' & Er & Ho & Hw' & Hr' & Hf).
    exists s', w'. do 4 (split; [done|]). constructor; [|done]. intros _. exists p.
    split; [done|]. by apply Hr'. }
  destruct (record_file_ok w s p 0) as (e & s1 & w1 & Er & Ho & Hs1 & Hi & _ & Hk & _);
    [by rewrite Ew|done..|].
  assert (within s0 T s1) as Hw1
    by (eapply within_record; eauto; by eapply fakeDirExists_has_dir).
  assert (forall q, q ∈ {[p]} ∪ reserved -> has_file s1 q) as Hres1.
  { intros q Hq. unfold has_file. rewrite Hi. destruct (decide (q = p)) as [->|Hne].
    - exists e. by rewrite lookup_insert_eq.
    - rewrite lookup_insert_ne by done. apply Hres. set_solver. }
  assert (runner w1 = set_Dynamic (Some s1) r) as Ew1.
  { destruct Ho as (-> & _). rewrite Ew. by destruct r. }
  destruct (IH ({[p]} ∪ reserved) s1 w1 Ew1 Hw1 Hres1) as (s' & w' & Er' & Ho' & Hw' & Hr' & Hf).
  exists s', w'. rewrite (bind_run _ _ _ _ _ Er). split; [exact Er'|].
  split; [by eapply only_store_trans|]. split; [done|]. split; [set_solver|].
  constructor; [|done]. intros _. exists p. split; [done|]. apply Hr'. set_solver.
Qed.

Lemma preflight_targets_ok r ex l N N' :
  preflight_targets r ex l N = Ok N' -> N ⊆ N' /\ Forall (target_in r (ex ∪ N')) l.
Proof.
  revert N. induction l as [|d l IH]; intros N Hp; cbn [preflight_targets] in Hp; [by inv_ok|].
  destruct (Duplicate d) eqn:Ed.
  { destruct (bad_duplicate d); [done|]. apply IH in Hp as [? ?]. split; [done|].
    constructor; [|done]. unfold target_in. congruence. }
  destruct (is_output d); [|done].
  destruct (validateFakeOutputRedirection r (Target d)) as [p|] eqn:Ev; [|done]. cbn in Hp.
  apply IH in Hp as [Hsub Hl]. split; [case_bool_decide; set_solver|].
  constructor; [|done]. intros _. exists p. split; [done|]. case_bool_decide; set_solver.
Qed.

Lemma existing_dom s :
  store_ok s -> (list_to_set (map Path (Entries s)) : gset gostring) = dom (entries s).
Proof.
  intros Hs. rewrite (Entries_paths s Hs). apply set_eq. intros k.
  rewrite elem_of_list_to_set, elem_of_dom. apply Hs.
Qed.

Definition validated (r : CommandRunner) (s : DynamicStore) (d : redirectSpec) : Prop :=
  Duplicate d = false ->
  exists p, validateFakeOutputRedirection r (Target d) = Ok p /\ has_file s p.

(** A record of a target, counted by a writer allocated after the first [n]. *)
Definition fresh_record (n : nat) (s : DynamicStore) (w : World) (rec : fakeRedirectionRecord) : Prop :=
  has_file s (rr_path rec) /\ (n <= rr_writer rec < length (counters w))%nat.

Definition fresh_writer (n : nat) (w : World) (old wr : Writer) : Prop :=
  wr = old \/ exists i, wr = wCounting i /\ (n <= i < length (counters w))%nat.

(** Only new counting writers have been allocated. *)
Definition only_counters (w w' : World) (k : nat) : Prop :=
  runner w' = runner w /\ counters w' = counters w ++ repeat (Counting 0 MaxCommandOutputBytes) k /\
  sent w' = sent w /\ writes w' = writes w /\ ticks w' = ticks w /\ events w' = events w /\
  closed w' = closed w.

Lemma only_counters_refl w : only_counters w w 0.
Proof. repeat split. cbn. by rewrite app_nil_r. Qed.

Lemma only_counters_new w w' k :
  only_counters (snd (new_counting w)) w' k -> only_counters w w' (S k).
Proof.
  intros (? & Hc & ? & ? & ? & ? & ?). repeat split; try done.
  rewrite Hc. cbn. by rewrite <- app_assoc.
Qed.

Lemma install_writers_ok s l :
  Forall redir_shape l ->
  forall n out errw out0 errw0 records w,
  (n <= length (counters w))%nat -> Forall (validated (runner w) s) l ->
  Forall (fresh_record n s w) records ->
  (fresh_writer n w out0 out) -> (fresh_writer n w errw0 errw \/ fresh_writer n w out0 errw) ->
  exists out' errw' records' w' k,
    install_writers l out errw records w = (Ok (out', errw', records'), w') /\
    only_counters w w' k /\ Forall (fresh_record n s w') records' /\
    fresh_writer n w' out0 out' /\ (fresh_writer n w' errw0 errw' \/ fresh_writer n w' out0 errw').
Proof.
  intros Hl. induction Hl as [|d l Hd Hl IH]; intros n out errw out0 errw0 records w Hn Hv Hr Ho He.
  { exists out, errw, records, w, 0%nat. split; [done|]. split; [apply only_counters_refl|]. done. }
  apply Forall_cons in Hv as [Hv Hvl]. cbn [install_writers]. unfold redir_shape in Hd.
  destruct (Duplicate d) eqn:Ed.
  { rewrite Hd. apply (IH n out out out0 errw0 records w); auto. }
  destruct (Hv Ed) as (p & Hp & Hf).
  assert (is_output d = true) as ->
    by (unfold is_output; destruct Hd as [[_ ->]|[_ ->]]; done).
  assert (negb (FD d =? 1) && negb (FD d =? 2) = false) as -> by (destruct Hd as [[-> _]|[-> _]]; done).
  setoid_rewrite bind_get. rewrite Hp.
  assert (new_counting w = (length (counters w), snd (new_counting w))) as Enew by done.
  rewrite (bind_run _ _ _ _ _ Enew). set (i := length (counters w)).
  set (w1 := snd (new_counting w)).
  assert (length (counters w1) = S i) as Hlen by (cbn; rewrite length_app; cbn; lia).
  assert (forall old wr, fresh_writer n w old wr -> fresh_writer n w1 old wr) as Hmono.
  { intros old wr [->|(j & -> & Hj)]; [by left|right]. exists j. split; [done|]. rewrite Hlen. unfold i. lia. }
  assert (forall old, fresh_writer n w1 old (wCounting i)) as Hnew.
  { intros old. right. exists i. split; [done|]. rewrite Hlen. unfold i. lia. }
  assert (Forall (fresh_record n s w1) (records ++ [RedirRecord p i])) as Hr1.
  { apply Forall_app. split; [|repeat constructor; cbn [rr_path rr_writer]; try done; rewrite ?Hlen; unfold i; lia].
    eapply Forall_impl; [exact Hr|]. intros rec [? ?]. split; [done|]. rewrite Hlen. unfold i. lia. }
  destruct (FD d =? 1).
  - destruct (IH n (wCounting i) errw out0 errw0 (records ++ [RedirRecord p i]) w1)
      as (o & e & rs & w' & k & E & Hoc & Hrest); [rewrite Hlen; unfold i; lia|done|done|auto|naive_solver|].
    exists o, e, rs, w', (S k). split; [exact E|]. split; [by apply only_counters_new|done].
  - destruct (IH n out (wCounting i) out0 errw0 (records ++ [RedirRecord p i]) w1)
      as (o & e & rs & w' & k & E & Hoc & Hrest); [rewrite Hlen; unfold i; lia|done|done|auto|auto|].
    exists o, e, rs, w', (S k). split; [exact E|]. split; [by apply only_counters_new|done].
Qed.

(** The writers and records a redirected command starts with. *)
Definition redirected (cmd : simpleCommand) (stdout stderr : Writer) (w : World)
    (out errw : Writer) (records : list fakeRedirectionRecord) (w' : World) (s' : DynamicStore) : Prop :=
  exists k, counters w' = counters w ++ repeat (Counting 0 MaxCommandOutputBytes) k /\
  runner w' = set_Dynamic (Some s') (runner w) /\ sent w' = sent w /\ writes w' = writes w /\
  events w' = events w /\ closed w' = closed w /\ store_ok s' /\
  Forall (validated (runner w) s') (Redirects cmd) /\
  Forall (fresh_record (length (counters w)) s' w') records /\
  fresh_writer (length (counters w)) w' stdout out /\
  (fresh_writer (length (counters w)) w' stderr errw \/ fresh_writer (length (counters w)) w' stdout errw).

Lemma applyFakeRedirections_spec cmd out errw w s0 :
  Dynamic (runner w) = Some s0 -> store_ok s0 -> Forall path_byte (currentPWD (runner w)) ->
  Forall redir_shape (Redirects cmd) ->
  match applyFakeRedirections cmd out errw w with
  | (Err e, w') => w' = w /\ preflightOutputRedirectionTargets (runner w) (Redirects cmd) = Err e
  | (Ok (o, e, records), w') => exists s', redirected cmd out errw w o e records w' s' /\
                                  dom (entries s0) ⊆ dom (entries s')
  end.
Proof.
  intros E0 Hs0 Hb Hsh. unfold applyFakeRedirections. rewrite bind_get.
  unfold preflightOutputRedirectionTargets. rewrite E0, (existing_dom s0 Hs0). cbv zeta.
  destruct (preflight_targets _ _ _ _) as [N|e] eqn:Ep; [|done]. cbn [mbind result_bind].
  destruct (MaxDynamicEntries <? _) eqn:Esz; [done|]. bool_simp.
  apply preflight_targets_ok in Ep as [_ Ht].
  set (T := dom (entries s0) ∪ N) in *.
  assert (Z.of_nat (base.size T) <= MaxDynamicEntries) as HT.
  { unfold T. rewrite size_union_alt.
    assert (base.size (N ∖ dom (entries s0)) <= base.size N)%nat by (apply subseteq_size; set_solver). lia. }
  assert (runner w = set_Dynamic (Some s0) (runner w)) as Ew by (unfold set_Dynamic; rewrite <- E0; by destruct (runner w)).
  assert (within s0 T s0) as Hw by (split; [done|]; split; [done|]; unfold T; set_solver).
  destruct (reserve_targets_ok (runner w) s0 T (Redirects cmd) E0 Hs0 Hb HT Ht ∅ s0 w Ew Hw)
    as (s1 & w1 & Er & Ho & Hw1 & _ & Hf); [set_solver|].
  rewrite (bind_run _ _ _ _ _ Er).
  pose proof Hw1 as (Hs1 & Hd1 & Hsub & HsubT). destruct Ho as (Ew1 & Ec1 & ? & ? & ? & ?).
  assert (Forall (validated (runner w1) s1) (Redirects cmd)) as Hv1.
  { eapply Forall_impl; [exact (List.Forall_and Ht Hf)|]. intros d [Hd1' Hd2] Ed.
    destruct (Hd1' Ed) as (p & Hp & HpT). destruct (Hd2 Ed) as (p' & Hp' & Hpf).
    assert (p' = p) as -> by congruence. exists p. split; [|done]. rewrite Ew1.
    apply (validate_stable (runner w) s0 s1); auto.
    by apply (within_room s0 T s1). }
  destruct (install_writers_ok s1 (Redirects cmd) Hsh (length (counters w)) out errw out errw [] w1)
    as (o & e & rs & w2 & k & Ei & (Ew2 & Ec2 & ? & ? & ? & ? & ?) & Hr & Hfo & Hfe);
    [by rewrite Ec1|done|done|by left|left; by left|].
  rewrite Ei. exists s1. split; [|done]. exists k. rewrite Ec2, Ec1, Ew2, Ew1.
  repeat (split; [congruence|]). done.
Qed.

(** ** Cleanup *)
Definition counter_ok (c : boundedCountingDiscardWriter) : Prop :=
  w_cap c = MaxCommandOutputBytes /\ 0 <= w_count c <= MaxCommandOutputBytes.

Lemma counting_Write_ok c p : counter_ok c -> counter_ok (counting_Write c p).
Proof.
  intros [Hc Hr]. unfold counting_Write. destruct (_ && _) eqn:E; [|done]. bool_simp.
  pose proof (len_nonneg p). split; [done|]. cbn [w_count].
  destruct (w_cap c - w_count c <? len p) eqn:El; bool_simp; lia.
Qed.

(** The counter is the number of bytes written, capped. *)
Lemma counting_Write_count c p :
  counter_ok c -> w_count (counting_Write c p) = Z.min MaxCommandOutputBytes (w_count c + len p).
Proof.
  intros [Hc Hr]. pose proof (len_nonneg p). unfold counting_Write. rewrite Hc.
  destruct ((0 <? MaxCommandOutputBytes) && (w_count c <? MaxCommandOutputBytes)) eqn:E; bool_simp.
  - cbn [w_count]. destruct (MaxCommandOutputBytes - w_count c <? len p) eqn:El; bool_simp; lia.
  - apply andb_false_iff in E as [E|E]; [by vm_compute in E|]. bool_simp. lia.
Qed.

Definition counters_ok (w : World) : Prop := Forall counter_ok (counters w).

Lemma counter_value_range w i :
  counters_ok w -> 0 <= counter_value (counters w) i <= MaxCommandOutputBytes.
Proof.
  intros Hc. unfold counter_value. destruct (counters w !! i) as [c|] eqn:E; [|by vm_compute].
  eapply Forall_lookup_1 in Hc as [_ ?]; eauto.
Qed.

(** The largest count among the writers of a path. *)
Fixpoint max_count (cs : list boundedCountingDiscardWriter) (l : list fakeRedirectionRecord)
    (p : gostring) : Z :=
  match l with
  | [] => 0
  | rec :: t => Z.max (if rr_path rec =s p then counter_value cs (rr_writer rec) else 0) (max_count cs t p)
  end.

Lemma max_count_range w l p : counters_ok w -> 0 <= max_count (counters w) l p <= MaxCommandOutputBytes.
Proof.
  intros Hc. induction l as [|rec l IH]; cbn [max_count]; [by vm_compute|].
  pose proof (counter_value_range w (rr_writer rec) Hc). destruct (rr_path rec =s p); lia.
Qed.

Lemma collect_sizes_spec w l sizes paths sizes' paths' :
  counters_ok w -> collect_sizes (counters w) l sizes paths = (sizes', paths') ->
  (forall p, is_Some (sizes !! p) -> p ∈ paths) -> (forall p, 0 <= default 0 (sizes !! p)) ->
  (forall p, default 0 (sizes' !! p) = Z.max (default 0 (sizes !! p)) (max_count (counters w) l p)) /\
  (forall p, p ∈ paths' <-> p ∈ paths \/ p ∈ map rr_path l).
Proof.
  intros Hc. revert sizes paths. induction l as [|rec l IH]; intros sizes paths Hcol Hin Hpos;
    cbn [collect_sizes] in Hcol.
  { injection Hcol as <- <-. split; intros p; [cbn; specialize (Hpos p); lia|].
    rewrite elem_of_nil. tauto. }
  cbv zeta in Hcol. pose proof (counter_value_range w (rr_writer rec) Hc) as Hrange.
  apply IH in Hcol as [H1 H2]; clear IH.
  - split; intros p.
    + rewrite H1. cbn [max_count]. destruct (rr_path rec =s p) eqn:E; bool_simp.
      * subst p. destruct (_ <? _) eqn:El; bool_simp; [rewrite lookup_insert_eq; cbn|]; lia.
      * pose proof (max_count_range w l p Hc). specialize (Hpos p).
        destruct (_ <? _); [rewrite lookup_insert_ne by done|]; lia.
    + rewrite H2. cbn [map]. rewrite elem_of_cons. destruct (sizes !! rr_path rec) eqn:E.
      * assert (rr_path rec ∈ paths) by (apply Hin; by eexists). naive_solver.
      * rewrite elem_of_app, list_elem_of_singleton. tauto.
  - intros p Hp. destruct (sizes !! rr_path rec) eqn:E; rewrite ?elem_of_app, ?list_elem_of_singleton.
    + apply Hin. destruct (_ <? _); [|done]. destruct (decide (p = rr_path rec)) as [->|Hne]; [by eexists|].
      by rewrite lookup_insert_ne in Hp.
    + destruct (decide (p = rr_path rec)) as [->|Hne]; [by right|left]. apply Hin.
      destruct (_ <? _); [|done]. by rewrite lookup_insert_ne in Hp.
  - intros p. specialize (Hpos p). destruct (_ <? _); [|done].
    destruct (decide (p = rr_path rec)) as [->|Hne];
      [rewrite lookup_insert_eq; cbn; lia|by rewrite lookup_insert_ne].
Qed.

Lemma has_file_entry s p :
  store_ok s -> has_file s p ->
  abs_canonical p /\ Forall path_byte p /\ len p <= MaxDynamicPathLen /\ is_Some (entries s !! p).
Proof.
  intros Hs (e & He & _). destruct (Entries_lookup s p e Hs He) as (_ & <- & (? & ? & ? & _)).
  repeat (split; [done|]). by eexists.
Qed.

Lemma record_sizes_ok sizes paths w s :
  Dynamic (runner w) = Some s -> store_ok s -> Forall (has_file s) paths ->
  (forall p, 0 <= default 0 (sizes !! p)) ->
  exists s' w', record_sizes sizes paths w = (tt, w') /\ only_store w w' s' /\ store_ok s' /\
    (forall q, q ∉ paths -> entries s' !! q = entries s !! q) /\
    (forall q, q ∈ paths -> exists e, entries s' !! q = Some e /\ Kind e = go "file" /\
                                      Size e = default 0 (sizes !! q)).
Proof.
  revert w s. induction paths as [|p paths IH]; intros w s E Hs Hf Hpos.
  { exists s, w. split; [done|]. split; [by apply only_store_refl|]. split; [done|]. split; [done|].
    by intros q ?%elem_of_nil. }
  apply Forall_cons in Hf as [Hp Hf]. destruct (has_file_entry s p Hs Hp) as (? & ? & ? & ?).
  destruct (record_file_ok w s p (default 0 (sizes !! p))) as (e & s1 & w1 & Er & Ho & Hs1 & Hi & _ & Hk & Hsz);
    [done..|apply Hpos|by left|].
  assert (Forall (has_file s1) paths) as Hf1.
  { eapply Forall_impl; [exact Hf|]. intros q (x & Hx & Hxk). unfold has_file. rewrite Hi.
    destruct (decide (q = p)) as [->|Hne]; [exists e; by rewrite lookup_insert_eq|].
    exists x. by rewrite lookup_insert_ne. }
  destruct (IH w1 s1) as (s2 & w2 & Er2 & Ho2 & Hs2 & Hout & Hin); [by destruct Ho as (-> & _)|done..|].
  exists s2, w2. cbn [record_sizes]. rewrite (bind_run _ _ _ _ _ Er). split; [done|].
  split; [by eapply only_store_trans|]. split; [done|]. split.
  - intros q [Hne Hq]%not_elem_of_cons. rewrite (Hout q Hq), Hi. by rewrite lookup_insert_ne.
  - intros q Hq. destruct (decide (q ∈ paths)) as [Hq2|Hq2]; [by apply Hin|].
    apply elem_of_cons in Hq as [->|?]; [|done]. exists e. rewrite (Hout p Hq2), Hi.
    by rewrite lookup_insert_eq.
Qed.

Lemma cleanupRedirections_spec records w s :
  Dynamic (runner w) = Some s -> store_ok s -> counters_ok w ->
  Forall (fun rec => has_file s (rr_path rec)) records ->
  exists s' w', cleanupRedirections records w = (tt, w') /\ only_store w w' s' /\ store_ok s' /\
    (forall q, q ∉ map rr_path records -> entries s' !! q = entries s !! q) /\
    (forall q, q ∈ map rr_path records -> exists e, entries s' !! q = Some e /\ Kind e = go "file" /\
       Size e = max_count (counters w) records q /\ 0 <= Size e <= MaxCommandOutputBytes).
Proof.
  intros E Hs Hc Hf. unfold cleanupRedirections.
  destruct (collect_sizes (counters w) records ∅ []) as [sizes paths] eqn:Ecol.
  destruct (collect_sizes_spec w records ∅ [] sizes paths Hc Ecol) as [Hsz Hp].
  { intros p [? Hp]. by rewrite lookup_empty in Hp. }
  { intros p. by rewrite lookup_empty. }
  assert (forall q, default 0 (sizes !! q) = max_count (counters w) records q) as Hsz'.
  { intros q. rewrite Hsz, lookup_empty. cbn [default]. pose proof (max_count_range w records q Hc). lia. }
  assert (forall q, q ∈ paths <-> q ∈ map rr_path records) as Hp'.
  { intros q. rewrite Hp, elem_of_nil. tauto. }
  destruct (record_sizes_ok sizes paths w s E Hs) as (s' & w' & Er & Ho & Hs' & Hout & Hin).
  - apply Forall_forall. intros q Hq%Hp'. apply list_elem_of_In, in_map_iff in Hq as (rec & <- & Hrec).
    rewrite Forall_forall in Hf. by apply Hf, list_elem_of_In.
  - intros q. rewrite Hsz'. by apply max_count_range.
  - exists s', w'. do 3 (split; [done|]). split; [intros q Hq; apply Hout; by rewrite Hp'|].
    intros q Hq%Hp'. destruct (Hin q Hq) as (e & He & Hk & Hsize). exists e. rewrite Hsz' in Hsize.
    repeat (split; [done|]). rewrite Hsize. by apply max_count_range.
Qed.
End RedirectLemmas.

(** ** Properties *)

(** C7. Redirections apply entirely or not at all: with a well-formed store and
    a working directory of path bytes, [applyFakeRedirections] on a parsed
    command either fails in the preflight check and leaves the world untouched,
    or succeeds: every target is then recorded as a file in a well-formed store
    that still has all earlier paths, each output is the original writer or a
    counting writer allocated for this command, and nothing was written or
    logged. So the later validations and [Record] calls never fail. *)
Theorem applyFakeRedirections_atomic `{UnicodeTables} `{Host} cmd out errw w s0 :
  Dynamic (runner w) = Some s0 -> store_ok s0 -> Forall path_byte (currentPWD (runner w)) ->
  Forall redir_shape (Redirects cmd) ->
  match applyFakeRedirections cmd out errw w with
  | (Err e, w') => w' = w /\ preflightOutputRedirectionTargets (runner w) (Redirects cmd) = Err e
  | (Ok (o, e, records), w') => exists s', redirected cmd out errw w o e records w' s' /\
                                  dom (entries s0) ⊆ dom (entries s')
  end.
Proof. apply applyFakeRedirections_spec. Qed.

Definition example_world : World := mkWorld example_runner [] [] 0 0 [] 0.
Definition to_file (fd : Z) (op target : string) : redirectSpec :=
  Redirect fd (go op) (go target) zeroWord false 0.
Definition dup_stderr : redirectSpec := Redirect 2 (go ">&") [] zeroWord true 1.

Lemma applyFakeRedirections_atomic_witness :
  let _ := ascii_tables in let _ := quiet_host in
  let cmd := Simple [] (go "echo") zeroWord [] [] [to_file 1 ">" "/f"; dup_stderr] in
  match applyFakeRedirections cmd wChannel wChannel example_world with
  | (Err e, w') => False
  | (Ok (o, e, records), w') =>
      o = wCounting 0 /\ e = wCounting 0 /\
      exists s', redirected cmd wChannel wChannel example_world o e records w' s' /\
                 dom (entries NewDynamicStore) ⊆ dom (entries s')
  end.
Proof.
  intros T Hst cmd.
  pose proof (@applyFakeRedirections_atomic T Hst cmd wChannel wChannel example_world NewDynamicStore
                eq_refl NewDynamicStore_ok) as Ha.
  destruct (applyFakeRedirections cmd wChannel wChannel example_world) as [[[[o e] records]|e] w'] eqn:E.
  - assert (o = wCounting 0 /\ e = wCounting 0) as [Ho He]
      by (vm_compute in E; injection E as <- <- <- <-; split; reflexivity).
    split; [exact Ho|]. split; [exact He|]. apply Ha.
    + apply path_byte_slash.
    + repeat constructor.
  - vm_compute in E. discriminate E.
Defined.

(** After the command, the cleanup records for every redirected path, as a
    file, the largest number of bytes any of its writers counted, which is never
    more than [MaxCommandOutputBytes]; it succeeds for each of them, changes no
    other entry and nothing else in the world. *)
Lemma cleanupRedirections_sizes `{UnicodeTables} `{Host} records w s :
  Dynamic (runner w) = Some s -> store_ok s -> counters_ok w ->
  Forall (fun rec => has_file s (rr_path rec)) records ->
  exists s' w', cleanupRedirections records w = (tt, w') /\ only_store w w' s' /\ store_ok s' /\
    (forall q, q ∉ map rr_path records -> entries s' !! q = entries s !! q) /\
    (forall q, q ∈ map rr_path records -> exists e, entries s' !! q = Some e /\ Kind e = go "file" /\
       Size e = max_count (counters w) records q /\ 0 <= Size e <= MaxCommandOutputBytes).
Proof. apply cleanupRedirections_spec. Qed.

Definition counted_world : World :=
  mkWorld (upd_runner (fun r => r) example_world).(runner) [Counting 7 MaxCommandOutputBytes] [] 0 0 [] 0.


(** The guarantee needs the working directory: [PWD] is an ordinary
    variable, and with a colon in it a target passes the preflight check and is
    then refused by the store, after an earlier target of the same command has
    been recorded. *)
Lemma redirection_half_applied :
  let _ := ascii_tables in let _ := quiet_host in
  let r := snd (executeAssignmentOnly example_runner [go "PWD=/a:b"]) in
  let cmd := Simple [] (go "echo") zeroWord [] [] [to_file 1 ">" "/x"; to_file 1 ">" "."] in
  let '(result, w') := applyFakeRedirections cmd wChannel wChannel (upd_runner (fun _ => r) example_world) in
  preflightOutputRedirectionTargets r (Redirects cmd) = Ok tt /\
  result = Err (errors_New (go "dynamic: path: colon not allowed")) /\
  map Path (session_entries (runner w')) = [go "/x"].
Proof. vm_compute. repeat split. Qed.
