(* ===== verification/Commands.v ===== *)
(** * Built-in commands: [modules/fakeshell/cmds/base.go], [recon.go] and [exit]
    of [path.go].

    Each command is a computation returning the Go error ([None] is nil). *)
From Stdlib Require Import Ascii String ZArith Lia.
From stdpp Require Import base gmap strings list sorting.
From S2P Require Import Prelude GoStrings GoPath Paths Input Syntax Dynamic ShellConf Runner Expand Redirect.
Local Open Scope Z_scope.

Definition ErrExitValue : error := Error [ErrExit] (go "exit").

(** Lines of literal output. *)
Definition ln (s : string) : gostring := go s ++ [chNL].

Section Base.
Context `{UnicodeTables} `{Host}.

Definition cmd := list gostring -> M (option error).

Definition fail (e : error) : M (option error) := mret (Some e).

(** [fmt.Fprintf(r.Stderr, ...)] followed by [return err]. *)
Definition fail_with (msg : gostring) (e : error) : M (option error) :=
  r ← get_runner; _ ← Write (Stderr r) msg; fail e.

Definition cmdExit : cmd := fun _ => mret (Some ErrExitValue).

Definition pwd : cmd := fun _ =>
  r ← get_runner;
  let cwd := GetEnv r (go "PWD") in
  let cwd := if cwd =s [] then [slash] else cwd in
  Fprintln (Stdout r) cwd.

Definition cd : cmd := fun args =>
  r ← get_runner;
  let target := match args with a :: _ => a | [] => [] end in
  let target :=
    if (target =s []) || (target =s go "~") then
      let home := GetEnv r (go "HOME") in if home =s [] then [slash] else home
    else target in
  match ResolvePath (GetEnv r (go "PWD")) target with
  | Err e => fail_with (go "cd: " ++ err_msg e ++ [chNL]) e
  | Ok resolved =>
      match fs_Exists (RootFS r) resolved with
      | Err e => fail_with (go "cd: " ++ err_msg e ++ [chNL]) e
      | Ok false =>
          fail_with (go "cd: " ++ resolved ++ go ": No such file or directory" ++ [chNL])
                    (errors_New (go "cd: " ++ resolved ++ go ": no such directory"))
      | Ok true =>
          match fs_IsDir (RootFS r) resolved with
          | Err e => fail_with (go "cd: " ++ err_msg e ++ [chNL]) e
          | Ok false =>
              fail_with (go "cd: " ++ resolved ++ go ": Not a directory" ++ [chNL])
                        (errors_New (go "cd: " ++ resolved ++ go ": not a directory"))
          | Ok true => _ ← modify (SetEnv (go "PWD") resolved); mret None
          end
      end
  end.

Definition lookupDynamicPath (r : CommandRunner) (resolved : gostring) : option DynamicEntry :=
  List.find (fun de => Path de =s resolved) (session_entries r).

Definition dynamicChildNames (r : CommandRunner) (parent : gostring) : list gostring :=
  map (fun de => Base (Path de)) (List.filter (fun de => Dir (Path de) =s parent) (session_entries r)).

(** The compaction loop of [sortDedup]: [prev] is the previous sorted name. *)
Fixpoint dedup_from (prev : option gostring) (l : list gostring) : list gostring :=
  match l with
  | [] => []
  | n :: t =>
      if match prev with None => true | Some p => negb (p =s n) end
      then n :: dedup_from (Some n) t else dedup_from (Some n) t
  end.
Definition sortDedup (names : list gostring) : list gostring := dedup_from None (sort_Strings names).

Definition ls : cmd := fun args =>
  r ← get_runner;
  let target := match args with a :: _ => a | [] => [] end in
  let target := if target =s [] then
                  (let p := GetEnv r (go "PWD") in if p =s [] then [slash] else p)
                else target in
  let fs_error e := fail_with (go "ls: " ++ err_msg e ++ [chNL]) e in
  match ResolvePath (GetEnv r (go "PWD")) target with
  | Err e => fs_error e
  | Ok resolved =>
      let missing :=
        fail_with (go "ls: " ++ target ++ go ": No such file or directory" ++ [chNL])
                  (errors_New (go "ls: " ++ target ++ go ": no such file")) in
      match fs_Exists (RootFS r) resolved with
      | Err e => fs_error e
      | Ok true =>
          match fs_Stat (RootFS r) resolved with
          | Err e => fs_error e
          | Ok info =>
              if negb (fi_IsDir info) then Fprintln (Stdout r) (Base resolved)
              else match fs_ReadDir (RootFS r) resolved with
              | Err e => fs_error e
              | Ok es =>
                  Fprintln (Stdout r)
                    (Join (sortDedup (map fi_Name es ++ dynamicChildNames r resolved)) (go "  "))
              end
          end
      | Ok false =>
          match lookupDynamicPath r resolved with
          | None => missing
          | Some de =>
              if Kind de =s go "file" then Fprintln (Stdout r) (Base resolved)
              else if Kind de =s go "dir" then
                Fprintln (Stdout r) (Join (sortDedup (dynamicChildNames r resolved)) (go "  "))
              else missing
          end
      end
  end.

Definition parentExists (r : CommandRunner) (dir : gostring) : bool :=
  (dir =s [slash])
  || match fs_Exists (RootFS r) dir with
     | Ok true => match fs_IsDir (RootFS r) dir with Ok b => b | Err _ => false end
     | _ => false
     end
  || existsb (fun de => (Path de =s dir) && (Kind de =s go "dir")) (session_entries r).

Definition touch : cmd := fun args =>
  match args with
  | [] => fail_with (ln "touch: missing file operand") (errors_New (go "touch: missing file operand"))
  | _ :: _ :: _ => fail_with (ln "touch: too many arguments") (errors_New (go "touch: too many arguments"))
  | [arg] =>
      r ← get_runner;
      let cwd := GetEnv r (go "PWD") in
      let cwd := if cwd =s [] then [slash] else cwd in
      match ResolvePath cwd arg with
      | Err e => fail_with (go "touch: " ++ err_msg e ++ [chNL]) e
      | Ok resolved =>
          let parent := Dir resolved in
          if negb (parentExists r parent) then
            fail_with (go "touch: cannot touch '" ++ arg ++ go "': No such file or directory" ++ [chNL])
                      (errors_New (go "touch: " ++ resolved ++ go ": parent " ++ parent
                                   ++ go " does not exist"))
          else match Dynamic r with
          | None => fail_with (ln "touch: dynamic store unavailable")
                              (errors_New (go "touch: dynamic store unavailable"))
          | Some _ =>
              result ← record_file resolved 0;
              match result with
              | Err e => fail_with (go "touch: " ++ err_msg e ++ [chNL]) e
              | Ok _ => mret None
              end
          end
      end
  end.

Definition whoami : cmd := fun _ =>
  r ← get_runner;
  let user := GetEnv r (go "USER") in
  Fprintln (Stdout r) (if user =s [] then GetEnv r (go "LOGNAME") else user).

Definition hostname : cmd := fun _ =>
  r ← get_runner;
  let name := GetEnv r (go "NAME") in
  Fprintln (Stdout r) (if name =s [] then GetEnv r (go "HOSTNAME") else name).

Definition echo : cmd := fun args =>
  r ← get_runner; Fprintln (Stdout r) (Join args (go " ")).

Definition uname : cmd := fun _ =>
  r ← get_runner;
  let c := envConfig (Conf r) in
  Write (Stdout r) (OS c ++ go " " ++ HostName c ++ go " " ++ Kernel c ++ go " "
                    ++ EncodeRune 169 ++ go " FakeShell 2024" ++ [chNL]).

(** [io.Copy] from a [bytes.Buffer] writes once, and not at all when it is empty. *)
Definition env : cmd := fun _ =>
  r ← get_runner;
  let buf := Join (map (fun e => Key e ++ go "=" ++ Value e) (GetEnvs r)) [chNL] in
  if buf =s [] then mret None else Write (Stdout r) buf.

(** ** Recon commands (recon.go) *)
Definition reconUser (r : CommandRunner) : gostring :=
  let user := GetEnv r (go "USER") in
  if negb (user =s []) then user
  else
    let logname := GetEnv r (go "LOGNAME") in
    if negb (logname =s []) then logname
    else
      let u := User (envConfig (Conf r)) in
      if negb (u =s []) then u else go "root".

Definition rejectUnsupportedOption (c opt : gostring) : M error :=
  r ← get_runner;
  let err := unsupportedOption c opt in
  _ ← Fprintln (Stderr r) (err_msg err); mret err.

Definition is_option (arg : gostring) : bool := HasPrefix arg (go "-") && negb (arg =s go "-").

Definition rejectOptionsExcept (c : gostring) (args allowed : list gostring) : M (option error) :=
  match List.find (fun arg => is_option arg && negb (existsb (fun a => a =s arg) allowed)) args with
  | Some arg => e ← rejectUnsupportedOption c arg; mret (Some e)
  | None => mret None
  end.

Definition rejectOptions (c : gostring) (args : list gostring) : M (option error) :=
  rejectOptionsExcept c args [].

Definition bad_short_option (allowed arg : gostring) : bool :=
  is_option arg
  && (HasPrefix arg (go "--")
      || existsb (fun ch => negb (existsb (fun a => bv a =? ch) allowed)) (runes (TrimPrefix arg (go "-")))).

Definition rejectShortOptions (c : gostring) (args : list gostring) (allowed : gostring)
  : M (option error) :=
  match List.find (bad_short_option allowed) args with
  | Some arg => e ← rejectUnsupportedOption c arg; mret (Some e)
  | None => mret None
  end.

(** [if err := check; err != nil { return err }; return writeBounded(...)]. *)
Definition checked_output (check : M (option error)) (out : CommandRunner -> gostring)
  : M (option error) :=
  e ← check;
  match e with
  | Some e => fail e
  | None => r ← get_runner; writeBounded (Stdout r) (out r)
  end.

Definition id_cmd : cmd := fun args =>
  checked_output (rejectOptions (go "id") args) (fun r =>
    let user := reconUser r in
    let n := if user =s go "root" then go "0" else go "1000" in
    go "uid=" ++ n ++ go "(" ++ user ++ go ") gid=" ++ n ++ go "(" ++ user ++ go ") groups="
    ++ n ++ go "(" ++ user ++ go ")" ++ [chNL]).

Definition groups : cmd := fun args =>
  checked_output (rejectOptions (go "groups") args) (fun r => reconUser r ++ [chNL]).

Definition who : cmd := fun args =>
  checked_output (rejectOptions (go "who") args) (fun r =>
    reconUser r ++ ln "     pts/0        1970-01-01 00:00 (10.0.0.1)").

Definition uptime_line : gostring :=
  ln " 00:00:00 up 3:25,  1 user,  load average: 0.00, 0.01, 0.05".

Definition w_cmd : cmd := fun args =>
  checked_output (rejectOptions (go "w") args) (fun r =>
    uptime_line
    ++ ln "USER     TTY      FROM             LOGIN@   IDLE   JCPU   PCPU WHAT"
    ++ pad_right 8 (reconUser r) ++ ln " pts/0    10.0.0.1         00:00    0.00s  0.00s  0.00s -sh").

Definition last_cmd : cmd := fun args =>
  checked_output (rejectOptions (go "last") args) (fun r =>
    pad_right 8 (reconUser r) ++ ln " pts/0        10.0.0.1         Thu Jan  1 00:00   still logged in"
    ++ ln "reboot   system boot  6.1.0-fakeshell Thu Jan  1 00:00   still running").

Definition uptime : cmd := fun args =>
  checked_output (rejectOptions (go "uptime") args) (fun _ => uptime_line).

Definition date : cmd := fun args =>
  match args with
  | arg :: _ => e ← rejectUnsupportedOption (go "date") arg; fail e
  | [] => r ← get_runner; writeBounded (Stdout r) (ln "Thu Jan  1 00:00:00 UTC 1970")
  end.

Definition df : cmd := fun args =>
  checked_output (rejectOptionsExcept (go "df") args [go "-h"; go "-k"]) (fun _ =>
    ln "Filesystem      Size  Used Avail Use% Mounted on"
    ++ ln "fakeshellfs      16G  1.2G   15G   8% /"
    ++ ln "tmpfs            64M     0   64M   0% /tmp").

Definition free : cmd := fun args =>
  checked_output (rejectOptionsExcept (go "free") args [go "-h"; go "-k"; go "-m"; go "-g"]) (fun _ =>
    ln "              total        used        free      shared  buff/cache   available"
    ++ ln "Mem:           2048         256        1536           0         256        1792"
    ++ ln "Swap:             0           0           0").

Definition ps : cmd := fun args =>
  checked_output (rejectOptionsExcept (go "ps") args [go "-ef"; go "-aux"]) (fun _ =>
    ln "  PID TTY          TIME CMD"
    ++ ln "    1 ?        00:00:00 init"
    ++ ln "  101 pts/0    00:00:00 sh"
    ++ ln "  128 pts/0    00:00:00 ps").

Definition netstat : cmd := fun args =>
  checked_output (rejectShortOptions (go "netstat") args (go "antulp")) (fun _ =>
    ln "Proto Recv-Q Send-Q Local Address           Foreign Address         State       PID/Program name"
    ++ ln "tcp        0      0 0.0.0.0:22              0.0.0.0:*               LISTEN      101/sshd").

Definition ss : cmd := fun args =>
  checked_output (rejectShortOptions (go "ss") args (go "antulp")) (fun _ =>
    ln "Netid State  Recv-Q Send-Q Local Address:Port Peer Address:Port Process"
    ++ go "tcp   LISTEN 0      128          0.0.0.0:22        0.0.0.0:*     users:(" ++ [chDQ]
    ++ go "sshd" ++ [chDQ] ++ ln ",pid=101,fd=3)").

Definition ip : cmd := fun args =>
  checked_output (rejectOptions (go "ip") args) (fun _ =>
    ln "1: lo: <LOOPBACK,UP,LOWER_UP> mtu 65536 qdisc noqueue state UNKNOWN group default"
    ++ ln "    inet 127.0.0.1/8 scope host lo"
    ++ ln "2: eth0: <BROADCAST,MULTICAST,UP,LOWER_UP> mtu 1500 qdisc fq_codel state UP group default"
    ++ ln "    inet 10.0.0.10/24 brd 10.0.0.255 scope global eth0").

Definition ifconfigCmd : cmd := fun args =>
  checked_output (rejectOptions (go "ifconfig") args) (fun _ =>
    ln "eth0: flags=4163<UP,BROADCAST,RUNNING,MULTICAST>  mtu 1500"
    ++ ln "        inet 10.0.0.10  netmask 255.255.255.0  broadcast 10.0.0.255"
    ++ ln "lo: flags=73<UP,LOOPBACK,RUNNING>  mtu 65536"
    ++ ln "        inet 127.0.0.1  netmask 255.0.0.0").

Definition history : cmd := fun args =>
  checked_output (rejectOptions (go "history") args) (fun _ => []).

Definition clear_cmd : cmd := fun args =>
  checked_output (rejectOptions (go "clear") args) (fun _ =>
    vb 27 :: go "[H" ++ vb 27 :: go "[2J").

(** *** which *)
Definition reconNames : list gostring :=
  map go ["cat"; "clear"; "date"; "df"; "echo"; "env"; "exit"; "free"; "groups"; "head"; "history";
          "hostname"; "id"; "ifconfig"; "ip"; "last"; "ls"; "netstat"; "ps"; "pwd"; "ss"; "stat";
          "tail"; "touch"; "uname"; "uptime"; "w"; "wc"; "which"; "who"; "whoami"]%string.
Definition binNames : list gostring :=
  map go ["cat"; "clear"; "date"; "df"; "echo"; "hostname"; "ls"; "pwd"; "sh"; "touch"; "uname"]%string.

Definition knownReconCommandPaths (name : gostring) : option gostring :=
  if name =s go "sh" then Some (go "/bin/sh")
  else if existsb (fun n => n =s name) reconNames then
    Some ((if existsb (fun n => n =s name) binNames then go "/bin/" else go "/usr/bin/") ++ name)
  else None.

(** The loop: the output so far and the missing names. *)
Fixpoint which_loop (args : list gostring) (out : gostring) (missing : list gostring)
  : M (gostring * list gostring) :=
  match args with
  | [] => mret (out, missing)
  | name :: t =>
      match knownReconCommandPaths name with
      | Some resolved => which_loop t (out ++ resolved ++ [chNL]) missing
      | None =>
          r ← get_runner;
          _ ← Write (Stderr r) (go "which: no " ++ clipErrorToken name ++ ln " in (/bin:/usr/bin)");
          which_loop t out (missing ++ [name])
      end
  end.

Definition which : cmd := fun args =>
  e ← rejectOptions (go "which") args;
  match e with
  | Some e => fail e
  | None =>
      match args with
      | [] => fail_with (ln "which: missing command") (errors_New (go "which: missing command"))
      | _ =>
          om ← which_loop args [] [];
          r ← get_runner;
          e ← writeBounded (Stdout r) (fst om);
          match e with
          | Some e => fail e
          | None =>
              match snd om with
              | m :: _ => fail (errors_New (go "which: " ++ clipErrorToken m ++ go " not found"))
              | [] => mret None
              end
          end
      end
  end.

(** *** Commands on one file *)
Record reconFile := ReconFile { rf_path : gostring; rf_content : gostring }.

(** An error printed on stderr and returned. *)
Definition fail_res {A} (msg : gostring) (e : error) : M (res A) :=
  r ← get_runner; _ ← Write (Stderr r) msg; mret (Err e).

Definition resolveSingleFakeFile (c : gostring) (args : list gostring) : M (res reconFile) :=
  match List.find is_option args with
  | Some arg => e ← rejectUnsupportedOption c arg; mret (Err e)
  | None =>
      match args with
      | [] => fail_res (c ++ ln ": missing file operand") (errors_New (c ++ go ": missing file operand"))
      | _ :: _ :: _ =>
          fail_res (c ++ ln ": too many arguments") (errors_New (c ++ go ": too many arguments"))
      | [arg] =>
          r ← get_runner;
          let cwd := GetEnv r (go "PWD") in
          let cwd := if cwd =s [] then [slash] else cwd in
          let plain e := fail_res (c ++ go ": " ++ err_msg e ++ [chNL]) e in
          match ResolvePath cwd arg with
          | Err e => plain e
          | Ok resolved =>
              let is_dir := fail_res (c ++ go ": " ++ resolved ++ ln ": Is a directory")
                              (errors_New (c ++ go ": " ++ resolved ++ go ": is a directory")) in
              let missing := fail_res (c ++ go ": " ++ arg ++ ln ": No such file or directory")
                              (errors_New (c ++ go ": " ++ arg ++ go ": no such file")) in
              match fakeFileContent resolved with
              | Some content => mret (Ok (ReconFile resolved content))
              | None =>
                  match fs_Exists (RootFS r) resolved with
                  | Err e => plain e
                  | Ok true =>
                      match fs_Stat (RootFS r) resolved with
                      | Err e => plain e
                      | Ok info => if fi_IsDir info then is_dir else mret (Ok (ReconFile resolved []))
                      end
                  | Ok false =>
                      match lookupDynamicPath r resolved with
                      | None => missing
                      | Some de =>
                          if Kind de =s go "file" then mret (Ok (ReconFile resolved []))
                          else if Kind de =s go "dir" then is_dir else missing
                      end
                  end
              end
          end
      end
  end.

(** [f, err := resolve; if err != nil { return err }; return writeBounded(...)]. *)
Definition on_file (c : gostring) (args : list gostring) (out : reconFile -> gostring)
  : M (option error) :=
  f ← resolveSingleFakeFile c args;
  match f with
  | Err e => fail e
  | Ok f => r ← get_runner; writeBounded (Stdout r) (out f)
  end.

Definition stat : cmd := fun args =>
  on_file (go "stat") args (fun f =>
    go "  File: " ++ rf_path f ++ [chNL] ++ go "  Size: " ++ Itoa (len (rf_content f)) ++ [chTAB]
    ++ go "Blocks: 0" ++ [chTAB] ++ ln "IO Block: 4096   regular file"
    ++ ln "Access: (0644/-rw-r--r--)").

Definition wc : cmd := fun args =>
  on_file (go "wc") args (fun f =>
    Itoa (CountByte (rf_content f) chNL) ++ go " " ++ Itoa (FieldsLen (rf_content f)) ++ go " "
    ++ Itoa (len (rf_content f)) ++ go " " ++ rf_path f ++ [chNL]).

Definition cat : cmd := fun args => on_file (go "cat") args rf_content.

(** *** head and tail *)
Definition parseLineCount (c raw : gostring) (max : Z) : res Z :=
  match Atoi raw with
  | None => Err (errors_New (c ++ go ": invalid line count " ++ clipErrorToken raw))
  | Some n =>
      if (n <? 1) || (max <? n)
      then Err (errors_New (c ++ go ": line count out of range " ++ clipErrorToken raw))
      else Ok n
  end.

(** [None]: the argument is not a compact line count. *)
Definition parseCompactLineCount (c arg : gostring) (max : Z) : option (res Z) :=
  match arg with
  | [] | [_] => None
  | _ :: digits =>
      if forallb (fun ch => (48 <=? ch) && (ch <=? 57)) (runes digits)
      then Some (parseLineCount c digits max) else None
  end.

Definition defaultLineCount : Z := 10.
Definition maxLineCount : Z := 100.

Fixpoint head_tail_loop (c : gostring) (args : list gostring) (n : Z) (fileArgs : list gostring)
  : M (res (Z * list gostring)) :=
  match args with
  | [] => mret (Ok (n, fileArgs))
  | arg :: t =>
      if arg =s go "-n" then
        match t with
        | [] => let e := errors_New (c ++ go ": option requires an argument -- n") in
                fail_res (err_msg e ++ [chNL]) e
        | raw :: t' =>
            match parseLineCount c raw maxLineCount with
            | Err e => fail_res (err_msg e ++ [chNL]) e
            | Ok count => head_tail_loop c t' count fileArgs
            end
        end
      else if HasPrefix arg (go "-n") && (2 <? len arg) then
        match parseLineCount c (TrimPrefix arg (go "-n")) maxLineCount with
        | Err e => fail_res (err_msg e ++ [chNL]) e
        | Ok count => head_tail_loop c t count fileArgs
        end
      else if is_option arg then
        match parseCompactLineCount c arg maxLineCount with
        | Some (Err e) => fail_res (err_msg e ++ [chNL]) e
        | Some (Ok count) => head_tail_loop c t count fileArgs
        | None => e ← rejectUnsupportedOption c arg; mret (Err e)
        end
      else head_tail_loop c t n (fileArgs ++ [arg])
  end.

Definition parseHeadTailArgs (c : gostring) (args : list gostring) : M (res (Z * list gostring)) :=
  head_tail_loop c args defaultLineCount [].

Definition splitContentLines (content : gostring) : list gostring :=
  let lines := SplitAfter content chNL in
  match last lines with
  | Some [] => take (length lines - 1) lines
  | _ => lines
  end.

Definition firstLines (content : gostring) (n : Z) : gostring :=
  if (n <=? 0) || (content =s []) then []
  else
    let lines := splitContentLines content in
    let lines := if n <? len lines then take (Z.to_nat n) lines else lines in
    Join lines [].

Definition lastLines (content : gostring) (n : Z) : gostring :=
  if (n <=? 0) || (content =s []) then []
  else
    let lines := splitContentLines content in
    let lines := if n <? len lines then drop (Z.to_nat (len lines - n)) lines else lines in
    Join lines [].

Definition head_or_tail (c : gostring) (lines : gostring -> Z -> gostring) : cmd := fun args =>
  na ← parseHeadTailArgs c args;
  match na with
  | Err e => fail e
  | Ok (n, fileArgs) => on_file c fileArgs (fun f => lines (rf_content f) n)
  end.
Definition head_cmd : cmd := head_or_tail (go "head") firstLines.
Definition tail_cmd : cmd := head_or_tail (go "tail") lastLines.
End Base.

(** ** What a built-in may change *)
Definition PWD : gostring := go "PWD".

(** The store of a session only grows, as far as files are concerned. *)
Definition store_le (d d' : option DynamicStore) : Prop :=
  match d, d' with
  | None, None => True
  | Some s, Some s' => store_ok s -> store_ok s' /\ forall q, has_file s q -> has_file s' q
  | _, _ => False
  end.

(** The temporary variables are the same, but for the working directory, which
    may have become another directory of the root filesystem. *)
Definition env_le (fs : Fs) (m m' : EnvMap) : Prop :=
  (forall k, k <> PWD -> m' !! k = m !! k) /\
  (m' !! PWD = m !! PWD \/
   exists p, m' !! PWD = Some (MkEnvPair PWD p) /\ abs_canonical p /\ fs_IsDir fs p = Ok true).

Record frame (w w' : World) : Prop := mkFrame {
  frame_conf : Conf (runner w') = Conf (runner w);
  frame_env : Env (runner w') = Env (runner w);
  frame_fs : RootFS (runner w') = RootFS (runner w);
  frame_out : Stdout (runner w') = Stdout (runner w);
  frame_err : Stderr (runner w') = Stderr (runner w);
  frame_temp : env_le (RootFS (runner w)) (TempEnv (runner w)) (TempEnv (runner w'));
  frame_store : store_le (Dynamic (runner w)) (Dynamic (runner w'));
  frame_counters : (length (counters w) <= length (counters w'))%nat /\ (counters_ok w -> counters_ok w');
  frame_sent : exists bytes, sent w' = sent w ++ bytes;
  frame_log : exists evs, events w' = events w ++ evs /\ Forall (fun e => ev_Type e = go "command") evs;
  frame_closed : closed w' = closed w
}.

Create HintDb frame.

Lemma store_le_refl d : store_le d d.
Proof. by destruct d. Qed.

Lemma store_le_trans d1 d2 d3 : store_le d1 d2 -> store_le d2 d3 -> store_le d1 d3.
Proof. destruct d1, d2, d3; cbn; naive_solver. Qed.

Lemma env_le_refl fs m : env_le fs m m.
Proof. split; [done|by left]. Qed.

Lemma env_le_trans fs m1 m2 m3 : env_le fs m1 m2 -> env_le fs m2 m3 -> env_le fs m1 m3.
Proof.
  intros [H1 H2] [H3 H4]. split; [intros k Hk; by rewrite H3, H1|].
  destruct H4 as [H4|?]; [|by right]. rewrite H4. done.
Qed.

Lemma log_same w w' :
  events w' = events w ->
  exists evs, events w' = events w ++ evs /\ Forall (fun e => ev_Type e = go "command") evs.
Proof. intros ->. exists []. by rewrite app_nil_r. Qed.

Lemma sent_same w w' : sent w' = sent w -> exists bytes, sent w' = sent w ++ bytes.
Proof. intros ->. exists []. by rewrite app_nil_r. Qed.
#[export] Hint Resolve store_le_refl env_le_refl log_same sent_same : frame.

Lemma frame_refl w : frame w w.
Proof. constructor; auto with frame. Qed.

Lemma frame_trans w1 w2 w3 : frame w1 w2 -> frame w2 w3 -> frame w1 w3.
Proof.
  intros [] []. constructor; try congruence.
  - eapply env_le_trans; [done|]. congruence.
  - by eapply store_le_trans.
  - naive_solver lia.
  - destruct frame_sent0 as [b1 E1], frame_sent1 as [b2 E2]. exists (b1 ++ b2).
    by rewrite E2, E1, app_assoc.
  - destruct frame_log0 as (l1 & E1 & H1), frame_log1 as (l2 & E2 & H2). exists (l1 ++ l2).
    rewrite E2, E1, app_assoc. split; [done|]. by apply Forall_app.
Qed.

Definition framed {A} (m : M A) : Prop := forall w, frame w (snd (m w)).

Section Frame.
Context `{UnicodeTables} `{Host}.

Lemma framed_ret {A} (a : A) : framed (mret a).
Proof. intros w. apply frame_refl. Qed.

Lemma framed_get : framed get_runner.
Proof. intros w. apply frame_refl. Qed.

Lemma framed_bind {A B} (m : M A) (f : A -> M B) :
  framed m -> (forall a, framed (f a)) -> framed (m ≫= f).
Proof.
  intros Hm Hf w. unfold mbind, M_bind. specialize (Hm w). destruct (m w) as [a w'] eqn:E.
  eapply frame_trans; [exact Hm|apply Hf].
Qed.

(** After reading the runner it is known: [f] may rely on it. *)
Lemma framed_bind_get {B} (f : CommandRunner -> M B) :
  (forall w, frame w (snd (f (runner w) w))) -> framed (get_runner ≫= f).
Proof. intros Hf w. rewrite bind_get. apply Hf. Qed.

Lemma framed_Write wr p : framed (Write wr p).
Proof.
  intros w. unfold Write. destruct wr as [| |i].
  - destruct (chan_write (writes w)) as [[n e]|]; constructor; auto with frame; by eexists.
  - apply frame_refl.
  - constructor; auto with frame.
    cbn. split; [by rewrite length_alter|]. unfold counters_ok. cbn. intros Hc.
    apply Forall_alter; [done|]. intros c _ Hok. by apply counting_Write_ok.
Qed.

Lemma framed_Fprintln wr s : framed (Fprintln wr s).
Proof. apply framed_Write. Qed.

Lemma framed_record_file p sz : framed (record_file p sz).
Proof.
  intros w. unfold record_file, now. cbn [runner].
  destruct (Dynamic (runner w)) as [s|] eqn:E.
  - destruct (DynamicRecord s _ _ _ _ _ _) as [res s'] eqn:Er.
    constructor; auto with frame.
    cbn. rewrite E. cbn. intros Hs.
    destruct (DynamicRecord_refines s (clock (ticks w)) p (go "file") sz [] [] Hs) as [Hs' _].
    rewrite Er in Hs'. split; [exact Hs'|]. intros q (e & He & Hk).
    unfold DynamicRecord in Er. destruct (record_entry _ _ _ _ _ _) as [x|] eqn:Ex;
      [|injection Er as <- <-; by exists e].
    apply record_entry_ok in Ex as (_ & _ & Hkx & _). cbv zeta in Er.
    assert (s' = s \/ entries s' = <[Path x := x]> (entries s)) as [->|Es'].
    { destruct (entries s !! Path x); [|destruct (_ <=? _)]; injection Er as <- <-; auto. }
    + by exists e.
    + unfold has_file. rewrite Es'. destruct (decide (q = Path x)) as [->|Hne];
        [exists x; by rewrite lookup_insert_eq|exists e; by rewrite lookup_insert_ne].
  - constructor; auto with frame.
Qed.

Lemma ToUpper_PWD : ToUpper PWD = PWD.
Proof. reflexivity. Qed.

Lemma frame_setPWD w p :
  abs_canonical p -> fs_IsDir (RootFS (runner w)) p = Ok true ->
  frame w (upd_runner (SetEnv PWD p) w).
Proof.
  intros Hc Hd. constructor; auto with frame.
  cbn [TempEnv upd_runner runner SetEnv set_TempEnv]. rewrite ToUpper_PWD. split.
  - intros k Hk. by rewrite lookup_insert_ne.
  - right. exists p. by rewrite lookup_insert_eq.
Qed.
End Frame.

#[export] Hint Resolve framed_ret framed_get framed_Write framed_Fprintln framed_record_file : frame.

(** Walks through a computation made of framed steps. *)
Ltac framed_step :=
  lazymatch goal with
  | |- framed (mbind _ _) => apply framed_bind
  | |- forall _, _ => intro
  | |- framed (let '(_, _) := ?x in _) => destruct x
  | |- framed (match ?x with _ => _ end) => destruct x
  | |- framed (if ?x then _ else _) => destruct x
  | |- framed _ => solve [auto with frame]
  end.
Ltac solve_framed := repeat framed_step.

Section BuiltinFrames.
Context `{UnicodeTables} `{Host}.

Lemma framed_fail_with msg e : framed (fail_with msg e).
Proof. unfold fail_with, fail. solve_framed. Qed.

Lemma framed_fail_res {A} msg e : framed (@fail_res _ A msg e).
Proof. unfold fail_res. solve_framed. Qed.

Lemma framed_reject c opt : framed (rejectUnsupportedOption c opt).
Proof. unfold rejectUnsupportedOption. solve_framed. Qed.
End BuiltinFrames.
#[export] Hint Resolve framed_fail_with framed_fail_res framed_reject : frame.

Section BuiltinFrames2.
Context `{UnicodeTables} `{Host}.

Lemma framed_rejectOptionsExcept c args allowed : framed (rejectOptionsExcept c args allowed).
Proof. unfold rejectOptionsExcept. solve_framed. Qed.

Lemma framed_rejectShortOptions c args allowed : framed (rejectShortOptions c args allowed).
Proof. unfold rejectShortOptions. solve_framed. Qed.

Lemma framed_checked check out : framed check -> framed (checked_output check out).
Proof. intros Hc. unfold checked_output, fail, writeBounded. solve_framed. Qed.

Lemma framed_resolveSingle c args : framed (resolveSingleFakeFile c args).
Proof. unfold resolveSingleFakeFile. solve_framed. Qed.

Lemma framed_head_tail c args n files : framed (head_tail_loop c args n files).
Proof.
  remember (length args) as k eqn:Ek. revert args n files Ek.
  induction k as [k IH] using lt_wf_ind. intros args n files ->.
  destruct args as [|arg t]; cbn [head_tail_loop]; [solve_framed|].
  assert (forall n' files', framed (head_tail_loop c t n' files')) as IHt
    by (intros; eapply IH; [|done]; simpl; lia).
  assert (forall raw t' n' files', t = raw :: t' -> framed (head_tail_loop c t' n' files')) as IHt'
    by (intros raw t' n' files' ->; eapply IH; [|done]; simpl; lia).
  destruct (arg =s go "-n"); [destruct t as [|raw t']; [solve_framed|]; destruct (parseLineCount _ _ _);
    [by eapply IHt'|auto with frame]|].
  destruct (_ && _); [destruct (parseLineCount _ _ _); auto with frame|].
  destruct (is_option arg); [|apply IHt].
  destruct (parseCompactLineCount _ _ _) as [[]|]; auto with frame. solve_framed.
Qed.

Lemma framed_which_loop args out missing : framed (which_loop args out missing).
Proof.
  revert out missing. induction args as [|a args IH]; intros out missing; cbn [which_loop];
    [solve_framed|]. destruct (knownReconCommandPaths a); [apply IH|].
  apply framed_bind; [auto with frame|]. intros r. apply framed_bind; [auto with frame|]. intros _. apply IH.
Qed.
End BuiltinFrames2.
#[export] Hint Resolve framed_rejectOptionsExcept framed_rejectShortOptions framed_checked
  framed_resolveSingle framed_head_tail framed_which_loop : frame.

Section BuiltinFrames3.
Context `{UnicodeTables} `{Host}.

Lemma framed_on_file c args out : framed (on_file c args out).
Proof. unfold on_file, fail, writeBounded. solve_framed. Qed.

Lemma framed_cd args : framed (cd args).
Proof.
  apply framed_bind_get. intros w. cbv zeta.
  set (target := if _ || _ then _ else _).
  destruct (ResolvePath (GetEnv (runner w) (go "PWD")) target) as [p|] eqn:Er; [|apply framed_fail_with].
  destruct (fs_Exists _ p) as [[|]|]; try apply framed_fail_with.
  destruct (fs_IsDir _ p) as [[|]|] eqn:Ed; try apply framed_fail_with.
  rewrite bind_modify. apply frame_setPWD; [by eapply ResolvePath_canonical_lem|done].
Qed.

Lemma framed_which args : framed (which args).
Proof. unfold which, rejectOptions, fail, writeBounded. solve_framed. Qed.

Lemma framed_head_or_tail c f args : framed (head_or_tail c f args).
Proof.
  unfold head_or_tail, parseHeadTailArgs, fail. solve_framed; apply framed_on_file.
Qed.
End BuiltinFrames3.
#[export] Hint Resolve framed_on_file framed_cd framed_which framed_head_or_tail : frame.

(** ** Listing: lemmas *)
Lemma dedup_from_spec prev l :
  StronglySorted str_le l -> (forall p, prev = Some p -> Forall (str_le p) l) ->
  StronglySorted str_le (dedup_from prev l) /\ NoDup (dedup_from prev l) /\
  (forall n, n ∈ dedup_from prev l <-> n ∈ l /\ prev <> Some n).
Proof.
  intros Hs. revert prev. induction Hs as [|x l Hs IH Hx]; intros prev Hp; cbn [dedup_from].
  { split; [constructor|]. split; [constructor|]. intros n. rewrite !elem_of_nil. tauto. }
  destruct (IH (Some x)) as (H1 & H2 & H3); [by intros p [= <-]|].
  assert (x ∉ dedup_from (Some x) l) as Hni by (intros [_ ?]%H3; congruence).
  destruct prev as [p|].
  - destruct (p =s x) eqn:E; bool_simp; cbn [negb].
    + subst. split; [done|]. split; [done|]. intros n. rewrite H3, elem_of_cons. naive_solver.
    + split; [constructor; [done|]; apply Forall_forall; intros n [Hn _]%H3;
              rewrite Forall_forall in Hx; by apply Hx|].
      split; [by apply NoDup_cons|]. intros n. rewrite elem_of_cons, H3, elem_of_cons.
      assert (n ∈ l -> p = n -> False) as Hpn.
      { intros Hn ->. specialize (Hp n eq_refl). apply Forall_cons in Hp as [Hnx _].
        rewrite Forall_forall in Hx. apply E. by apply (anti_symm str_le); [|apply Hx]. }
      destruct (decide (n = x)) as [->|]; naive_solver.
  - split; [constructor; [done|]; apply Forall_forall; intros n [Hn _]%H3;
            rewrite Forall_forall in Hx; by apply Hx|].
    split; [by apply NoDup_cons|]. intros n. rewrite elem_of_cons, H3, elem_of_cons.
    destruct (decide (n = x)) as [->|]; naive_solver.
Qed.

Lemma sortDedup_spec names :
  StronglySorted str_le (sortDedup names) /\ NoDup (sortDedup names) /\
  (forall n, n ∈ sortDedup names <-> n ∈ names).
Proof.
  unfold sortDedup.
  destruct (dedup_from_spec None (sort_Strings names) (sort_Strings_sorted names)) as (H1 & H2 & H3);
    [done|]. split; [done|]. split; [done|]. intros n. rewrite H3, sort_Strings_perm. naive_solver.
Qed.

(** ** Lines: lemmas *)
Lemma concat_splitContentLines content : concat (splitContentLines content) = content.
Proof.
  unfold splitContentLines. cbv zeta. pose proof (concat_SplitAfter content chNL) as Hc.
  destruct (last (SplitAfter content chNL)) as [[|c x]|] eqn:E; [|done|done].
  apply last_Some in E as [l El]. rewrite El in *. rewrite length_app, concat_app in *.
  cbn in *. rewrite Nat.add_sub, take_app_length. by rewrite app_nil_r in Hc.
Qed.

Lemma Join_nil_sep l : Join l [] = concat l.
Proof.
  induction l as [|x l IH]; [done|]. destruct l as [|y l]; [cbn; by rewrite app_nil_r|].
  rewrite Join_cons, IH by done. done.
Qed.

Lemma firstLines_take content n :
  0 < n -> firstLines content n = concat (take (Z.to_nat n) (splitContentLines content)).
Proof.
  intros Hn. unfold firstLines. rewrite (proj2 (Z.leb_gt _ _) Hn). cbn [orb].
  destruct (content =s []) eqn:E; bool_simp.
  { subst. unfold splitContentLines. cbn. by rewrite take_nil. }
  cbv zeta. rewrite Join_nil_sep. destruct (n <? len (splitContentLines content)) eqn:El; [done|].
  bool_simp. rewrite take_ge; [done|]. unfold len in El. lia.
Qed.

Lemma lastLines_drop content n :
  0 < n ->
  lastLines content n
  = concat (drop (length (splitContentLines content) - Z.to_nat n) (splitContentLines content)).
Proof.
  intros Hn. unfold lastLines. rewrite (proj2 (Z.leb_gt _ _) Hn). cbn [orb].
  destruct (content =s []) eqn:E; bool_simp.
  { subst. unfold splitContentLines. cbn. done. }
  cbv zeta. rewrite Join_nil_sep. destruct (n <? len (splitContentLines content)) eqn:El; bool_simp;
    unfold len in *.
  - do 2 f_equal. lia.
  - replace (length _ - _)%nat with 0%nat by lia. done.
Qed.

(** ** Touched files: lemmas *)
Section Touch.
Context `{UnicodeTables} `{Host}.

Lemma ResolvePath_empty_cwd arg : ResolvePath [] arg = ResolvePath [slash] arg.
Proof. reflexivity. Qed.

(** The commands resolve against [PWD], or the root when it is empty. *)
Lemma ResolvePath_PWD r arg : ResolvePath (GetEnv r (go "PWD")) arg = ResolvePath (currentPWD r) arg.
Proof.
  unfold currentPWD. destruct (GetEnv r (go "PWD") =s []) eqn:E; [|done]. bool_simp.
  by rewrite E, ResolvePath_empty_cwd.
Qed.

Lemma find_entry s e :
  store_ok s -> e ∈ Entries s -> List.find (fun de => Path de =s Path e) (Entries s) = Some e.
Proof.
  intros Hs He. destruct (List.find _ (Entries s)) as [e'|] eqn:E.
  - apply List.find_some in E as [Hin Heq]. bool_simp. apply list_elem_of_In in Hin.
    apply Entries_elem in He, Hin; [|done..]. rewrite Heq in Hin. congruence.
  - apply list_elem_of_In in He. eapply List.find_none in E; [|exact He]. by rewrite gos_eqb_refl in E.
Qed.

Lemma lookup_touched r s p :
  Dynamic r = Some s -> store_ok s -> has_file s p ->
  exists e, lookupDynamicPath r p = Some e /\ Kind e = go "file".
Proof.
  intros E Hs (e & He & Hk). exists e. split; [|done]. unfold lookupDynamicPath.
  rewrite (session_entries_some r s E). destruct (Entries_lookup s p e Hs He) as (Hin & <- & _).
  by apply find_entry.
Qed.

Lemma fail_with_some msg e w : fst (fail_with msg e w) = Some e.
Proof. unfold fail_with. rewrite bind_get. unfold mbind, M_bind, fail. by destruct (Write _ _ w). Qed.

Lemma touch_ok arg w w' s :
  Dynamic (runner w) = Some s -> store_ok s -> touch [arg] w = (None, w') ->
  exists p s', ResolvePath (currentPWD (runner w)) arg = Ok p /\ only_store w w' s' /\ store_ok s' /\
    has_file s' p /\ parentExists (runner w) (Dir p) = true.
Proof.
  intros E Hs Ht. unfold touch in Ht. rewrite bind_get in Ht. cbv zeta in Ht.
  fold (currentPWD (runner w)) in Ht.
  destruct (ResolvePath (currentPWD (runner w)) arg) as [p|] eqn:Er;
    [|apply (f_equal fst) in Ht; by rewrite fail_with_some in Ht].
  destruct (parentExists (runner w) (Dir p)) eqn:Ep; cbn [negb] in Ht;
    [|apply (f_equal fst) in Ht; by rewrite fail_with_some in Ht].
  rewrite E in Ht. unfold mbind, M_bind in Ht. destruct (record_file p 0 w) as [result w1] eqn:Erec.
  destruct result as [e|e]; [|apply (f_equal fst) in Ht; by rewrite fail_with_some in Ht].
  injection Ht as <-. unfold record_file, now in Erec. cbn [runner] in Erec. rewrite E in Erec.
  destruct (DynamicRecord s _ p _ _ _ _) as [res s'] eqn:Ed. injection Erec as -> <-.
  pose proof (proj1 (DynamicRecord_refines s (clock (ticks w)) p (go "file") 0 [] [] Hs)) as Hs'.
  rewrite Ed in Hs'. exists p, s'. split; [done|]. split; [by repeat split|]. split; [done|].
  split; [|done]. unfold DynamicRecord in Ed.
  destruct (record_entry _ _ _ _ _ _) as [x|] eqn:Ex; [|done]. cbv zeta in Ed.
  apply record_entry_ok in Ex as (_ & Hn & Hk & _).
  assert (Path x = p) as <-.
  { unfold normalizeDynamicPath in Hn. pose proof Er as (segs & -> & Hg)%ResolvePath_canonical_lem.
    destruct (ResolvePath [slash] (abs_path segs)) as [q|] eqn:Eq; [|done].
    destruct (_ <? _); [done|]. injection Hn as ->.
    assert (Forall path_byte (abs_path segs)) as Hb.
    { unfold ResolvePath in Eq. destruct (validatePathChars (abs_path segs)) as [[]|] eqn:Ev; [|done].
      by apply validatePathChars_ok. }
    rewrite ResolvePath_abs_path in Eq by done. congruence. }
  destruct (entries s !! Path x); [|destruct (_ <=? _)]; try discriminate Ed;
    injection Ed as <- <-; exists x; cbn; by rewrite lookup_insert_eq.
Qed.
End Touch.

(** ** Properties *)

(** What is touched is there: after a successful [touch] of a path that the
    root filesystem does not have, [ls] of it prints its base name and the file
    commands ([stat], [wc], [head], [tail], [cat]) find it, empty unless it is
    one of the fixed fake files; the touch wrote nothing and kept all other
    state. *)
Lemma touch_visible `{UnicodeTables} `{Host} arg w w' s :
  Dynamic (runner w) = Some s -> store_ok s -> touch [arg] w = (None, w') ->
  exists p s', ResolvePath (currentPWD (runner w)) arg = Ok p /\ only_store w w' s' /\ store_ok s' /\
    (fs_Exists (RootFS (runner w)) p = Ok false ->
     (arg <> [] -> ls [arg] w' = Fprintln (Stdout (runner w)) (Base p) w') /\
     (forall c, is_option arg = false ->
        resolveSingleFakeFile c [arg] w' = (Ok (ReconFile p (default [] (fakeFileContent p))), w'))).
Proof.
  intros E Hs Ht. destruct (touch_ok arg w w' s E Hs Ht) as (p & s' & Er & Ho & Hs' & Hf & _).
  exists p, s'. split; [done|]. split; [done|]. split; [done|]. intros Hx.
  destruct Ho as (Er' & _).
  destruct (lookup_touched (runner w') s' p) as (e & He & Hk); [by rewrite Er'|done|done|].
  assert (ResolvePath (currentPWD (runner w')) arg = Ok p) as Er2 by by rewrite Er'.
  assert (fs_Exists (RootFS (runner w')) p = Ok false) as Hx2 by by rewrite Er'.
  split.
  - intros Ha. unfold ls. rewrite bind_get. cbv zeta. rewrite (proj2 (gos_eqb_neq _ _) Ha).
    rewrite ResolvePath_PWD, Er2, Hx2, He, Hk. cbn. by rewrite Er'.
  - intros c Ho. unfold resolveSingleFakeFile. cbn [List.find]. rewrite Ho, bind_get. cbv zeta.
    fold (currentPWD (runner w')). rewrite Er2. destruct (fakeFileContent p); [done|].
    by rewrite Hx2, He, Hk.
Qed.


(** Listing a directory is exact: [ls] of a static directory prints, joined
    by two spaces, the sorted names without repetition that are entries of the
    directory or base names of recorded paths whose parent it is. *)
Lemma ls_directory `{UnicodeTables} `{Host} arg w p info es :
  arg <> [] -> ResolvePath (currentPWD (runner w)) arg = Ok p ->
  fs_Exists (RootFS (runner w)) p = Ok true -> fs_Stat (RootFS (runner w)) p = Ok info ->
  fi_IsDir info = true -> fs_ReadDir (RootFS (runner w)) p = Ok es ->
  exists names, ls [arg] w = Fprintln (Stdout (runner w)) (Join names (go "  ")) w /\
    StronglySorted str_le names /\ NoDup names /\
    (forall n, n ∈ names <-> n ∈ map fi_Name es \/
       exists e, e ∈ session_entries (runner w) /\ Dir (Path e) = p /\ n = Base (Path e)).
Proof.
  intros Ha Er Hx Hst Hd Hr.
  destruct (sortDedup_spec (map fi_Name es ++ dynamicChildNames (runner w) p)) as (H1 & H2 & H3).
  eexists. split.
  - unfold ls. rewrite bind_get. cbv zeta. rewrite (proj2 (gos_eqb_neq _ _) Ha).
    rewrite ResolvePath_PWD, Er, Hx, Hst, Hd, Hr. cbn [negb]. done.
  - split; [done|]. split; [done|]. intros n. rewrite H3, elem_of_app. apply or_iff_compat_l.
    unfold dynamicChildNames. rewrite list_elem_of_In, in_map_iff. setoid_rewrite filter_In.
    setoid_rewrite <- list_elem_of_In. setoid_rewrite gos_eqb_eq. naive_solver.
Qed.


(** [head] and [tail] agree on what a line is: for any split of the lines of
    a file into the first [n] and the rest, the text [head -n] keeps followed by
    the text [tail] keeps of the rest is the file, byte for byte. *)
Lemma head_tail_partition content n :
  0 < n < len (splitContentLines content) ->
  firstLines content n ++ lastLines content (len (splitContentLines content) - n) = content.
Proof.
  intros Hn. rewrite firstLines_take, lastLines_drop by lia.
  replace (length (splitContentLines content) - _)%nat with (Z.to_nat n) by (unfold len in *; lia).
  by rewrite <- concat_app, take_drop, concat_splitContentLines.
Qed.
