(* ===== verification/Shell.v ===== *)
(** * The shell session: [modules/fakeshell/fakeshell.go].

    Commands run in the world of [Runner]; the run loop is a step function on a
    [LoopState], driven by the incoming bytes.  A [Read] returns at most the
    bytes asked for and leaves the rest of a packet for the next one; the end of
    the list is EOF. *)
From Stdlib Require Import Ascii String ZArith Lia.
From stdpp Require Import base gmap strings list.
From S2P Require Import Prelude GoStrings GoPath Paths Input Syntax Dynamic ShellConf Runner Expand Redirect Commands.
Local Open Scope Z_scope.

Definition normalizeShellStatus (status : Z) : Z :=
  if status <=? 0 then 0 else if 255 <? status then 255 else status.

Definition parserCommandFromSimple (cmd : simpleCommand) : Command :=
  MkCommand (cmdName cmd) (cmdArgs cmd)
    (omap (fun a => (fun kv => MkEnvPair (fst kv) (snd kv)) <$> splitEnvAssignment a)
          (EnvAssignments cmd)).

Definition commandErrorString (errmsg : gostring) (runErr : option error) : gostring :=
  match runErr with
  | None => errmsg
  | Some e =>
      if errors_Is e ErrExit then errmsg
      else if errmsg =s [] then err_msg e
      else if Contains errmsg (err_msg e) then errmsg
      else errmsg ++ go ": " ++ err_msg e
  end.

(** The regular expression [^\.>\.?/]: a dot, a greater-than sign, an optional
    dot and a slash. *)
Definition PathPatt (name : gostring) : bool :=
  HasPrefix name (go ".>/") || HasPrefix name (go ".>./").

Section Shell.
Context `{UnicodeTables} `{Host}.

Definition builtin (name : gostring) : option cmd :=
  if name =s go "ls" then Some ls
  else if name =s go "pwd" then Some pwd
  else if name =s go "cd" then Some cd
  else if name =s go "whoami" then Some whoami
  else if name =s go "hostname" then Some hostname
  else if name =s go "echo" then Some echo
  else if name =s go "touch" then Some touch
  else if name =s go "exit" then Some cmdExit
  else if name =s go "uname" then Some uname
  else if name =s go "env" then Some env
  else if name =s go "id" then Some id_cmd
  else if name =s go "groups" then Some groups
  else if name =s go "who" then Some who
  else if name =s go "w" then Some w_cmd
  else if name =s go "last" then Some last_cmd
  else if name =s go "uptime" then Some uptime
  else if name =s go "date" then Some date
  else if name =s go "df" then Some df
  else if name =s go "free" then Some free
  else if name =s go "ps" then Some ps
  else if name =s go "netstat" then Some netstat
  else if name =s go "ss" then Some ss
  else if name =s go "ip" then Some ip
  else if name =s go "ifconfig" then Some ifconfigCmd
  else if name =s go "which" then Some which
  else if name =s go "stat" then Some stat
  else if name =s go "wc" then Some wc
  else if name =s go "head" then Some head_cmd
  else if name =s go "tail" then Some tail_cmd
  else if name =s go "cat" then Some cat
  else if name =s go "history" then Some history
  else if name =s go "clear" then Some clear_cmd
  else None.

Definition runCmd (c : Command) : M (gostring * option error) :=
  match builtin (Name c) with
  | Some f => e ← f (Args c); mret ([], e)
  | None =>
      if PathPatt (Name c)
      then mret (go "permission denied: " ++ Name c,
                 Some (errors_New (go "failed to execute relastfile")))
      else mret (go "unknown command: " ++ Name c, Some (errors_New (go "unknown command")))
  end.

(** ** Logging *)
Definition cwd (r : CommandRunner) : gostring :=
  let p := GetEnv r (go "PWD") in if p =s [] then [slash] else p.

Definition Log (ev : Event) : M unit := fun w =>
  (tt, mkWorld (runner w) (counters w) (sent w) (writes w) (ticks w) (events w ++ [ev]) (closed w)).
Definition Close : M unit := fun w =>
  (tt, mkWorld (runner w) (counters w) (sent w) (writes w) (ticks w) (events w) (S (closed w))).

(** [logging]: whether a logger is attached. *)
Definition logSession (logging : bool) (type reason : gostring) : M unit :=
  if logging then
    t ← now; r ← get_runner; Log (mkEvent t type (cwd r) [] [] reason [])
  else mret tt.

Definition logSessionStart (logging : bool) : M unit := logSession logging (go "session_start") [].
Definition logSessionEnd (logging : bool) (reason : gostring) : M unit :=
  _ ← logSession logging (go "session_end") reason;
  if logging then Close else mret tt.

Definition logCommand (logging : bool) (c : Command) (errmsg : gostring) (runErr : option error)
  : M unit :=
  if logging then
    t ← now; r ← get_runner;
    Log (mkEvent t (go "command") (cwd r) (Name c) (Args c) (commandErrorString errmsg runErr)
           (session_entries r))
  else mret tt.

(** ** Execution *)

(** [executeSimpleCommand] between the expansion and the deferred cleanup of the
    environment. *)
Definition run_expanded (logging : bool) (expanded : simpleCommand) (stdout stderr : Writer)
  : M (Z * option error) :=
  if cmdName expanded =s [] then mret (0, None)
  else
    let parserCmd := parserCommandFromSimple expanded in
    match validateParsedCommand parserCmd with
    | Err e => mret (1, Some (errors_wrap (go "invalid input: ") e))
    | Ok _ =>
        applied ← applyFakeRedirections expanded stdout stderr;
        match applied with
        | Err e =>
            if isSyntaxLimitError e then mret (1, Some e)
            else
              _ ← Fprintln stderr (err_msg e);
              _ ← logCommand logging parserCmd (err_msg e) (Some e);
              mret (1, None)
        | Ok (out, errw, records) =>
            old ← get_runner;
            _ ← modify (set_writers out errw);
            me ← runCmd parserCmd;
            _ ← (if fst me =s [] then mret None else Fprintln errw (fst me));
            _ ← modify (set_writers (Stdout old) (Stderr old));
            _ ← cleanupRedirections records;
            _ ← logCommand logging parserCmd (fst me) (snd me);
            match snd me with
            | Some e => if errors_Is e ErrExit then mret (0, Some ErrExitValue) else mret (1, None)
            | None => mret (0, None)
            end
        end
    end.

Definition executeSimpleCommand (logging : bool) (lastStatus : Z) (c : simpleCommand)
    (stdout stderr : Writer) : M (Z * option error) := fun w =>
  match expandSimpleCommand (runner w) c lastStatus with
  | (Err e, r) =>
      let w := upd_runner (fun _ => r) w in
      if isSyntaxLimitError e then ((1, Some e), w)
      else ((1, None), snd (Fprintln stderr (err_msg e) w))
  | (Ok (expanded, saved), r) =>
      let '(result, w) := run_expanded logging expanded stdout stderr (upd_runner (fun _ => r) w) in
      (result, upd_runner (restoreCommandEnv saved) w)
  end.

(** The loop of [executePipeline] over the remaining parts. *)
Fixpoint pipeline_loop (logging : bool) (lastStatus : Z) (parts : list simpleCommand) (status : Z)
  : M (Z * option error) :=
  match parts with
  | [] => mret (status, None)
  | part :: rest =>
      r ← get_runner;
      stdout ← (match rest with
                | [] => mret (Stdout r)
                | _ => i ← new_counting; mret (wCounting i)
                end);
      se ← executeSimpleCommand logging lastStatus part stdout (Stderr r);
      match snd se with
      | Some e => mret (fst se, Some e)
      | None => pipeline_loop logging lastStatus rest (fst se)
      end
  end.

Definition executePipeline (logging : bool) (lastStatus : Z) (p : pipeline) : M (Z * option error) :=
  pipeline_loop logging lastStatus (Parts p) 0.

(** The loop of [executeShellLine]: the status after and the error.  [op] is the
    operator before the next pipeline, none for the first. *)
Fixpoint line_loop (logging : bool) (pipes : list pipeline) (op : option gostring)
    (ops : list gostring) (lastStatus : Z) : M (Z * option error) :=
  match pipes with
  | [] => mret (lastStatus, None)
  | p :: rest =>
      let skip := match op with
                  | Some o => if o =s go "&&" then negb (lastStatus =? 0)
                              else if o =s go "||" then lastStatus =? 0
                              else false
                  | None => false
                  end in
      let next := match ops with o :: _ => Some o | [] => None end in
      if skip then line_loop logging rest next (List.tl ops) lastStatus
      else
        se ← executePipeline logging lastStatus p;
        match snd se with
        | Some e => mret (lastStatus, Some e)
        | None => line_loop logging rest next (List.tl ops) (normalizeShellStatus (fst se))
        end
  end.

Definition executeShellLine (logging : bool) (segment : gostring) (lastStatus : Z)
  : M (Z * option error) :=
  match parseShellLine segment with
  | Err e =>
      if isSyntaxLimitError e then mret (lastStatus, Some e)
      else
        r ← get_runner;
        _ ← Fprintln (Stderr r) (syntaxErrorMessage (Some e));
        mret (normalizeShellStatus 2, None)
  | Ok line => line_loop logging (Pipelines line) None (lineOperators line) lastStatus
  end.

(** ** The run loop *)
Inductive incoming := Packet (bytes : gostring) | ReadFailure (e : error).

Record LoopState := Loop {
  l_world : World;
  lastStatus : Z;
  l_input : list incoming;
  buf : gostring;
  promptDue : bool;  (* [done] *)
  eof : bool;
  discardPhysicalLine : bool;
  commandsThisCycle : Z
}.

(** The loop state with another buffer and discard flag. *)
Definition with_buf (s : LoopState) (b : gostring) (discard : bool) : LoopState :=
  Loop (l_world s) (lastStatus s) (l_input s) b (promptDue s) (eof s) discard (commandsThisCycle s).

(** How much of the buffer [b] a parsed segment consumes, and whether the rest
    of its physical line is to be discarded: a syntax error consumes the line. *)
Definition consume_segment (parsed : res shellLine) (b : gostring) (segmentEnd : nat) (eof : bool)
  : nat * bool :=
  match parsed with
  | Ok _ => (segmentEnd, false)
  | Err _ =>
      let '(consumeEnd, complete) := consumePhysicalInputLine b in
      (consumeEnd, if complete then false else negb eof)
  end.

(** [processBufferedInput] once no line is being discarded: [b] is the buffer. *)
Definition process_segment (logging : bool) (s : LoopState) (b : gostring)
  : (bool * option error) * LoopState :=
  let sep := findCommandSeparator b in
  if negb (bool_decide (is_Some sep)) && negb (eof s) then ((false, None), with_buf s b false)
  else
    let segmentEnd := match sep with Some i => S i | None => length b end in
    let segment := take segmentEnd b in
    let parsed := parseShellLine segment in
    match (match parsed with Err e => if isSyntaxLimitError e then Some e else None | Ok _ => None end) with
    | Some e => ((false, Some e), with_buf s b false)
    | None =>
        let '(consumeEnd, discard) := consume_segment parsed b segmentEnd (eof s) in
        let '((st, e), w) := executeShellLine logging segment (lastStatus s) (l_world s) in
        let s' done := Loop w st (l_input s) (drop consumeEnd b) done (eof s) discard
                            (commandsThisCycle s + 1) in
        match e with
        | Some e => ((false, Some (if errors_Is e ErrExit then ErrExitValue else e)), s' (promptDue s))
        | None => ((true, None), s' true)
        end
    end.

(** [processBufferedInput]: the new state and [(processed, err)]. *)
Definition processBufferedInput (logging : bool) (s : LoopState)
  : (bool * option error) * LoopState :=
  if buf s =s [] then ((false, None), s)
  else if discardPhysicalLine s then
    let '(consumeEnd, complete) := consumePhysicalInputLine (buf s) in
    let b := drop consumeEnd (buf s) in
    if negb complete then ((true, None), with_buf s b (negb (eof s)))
    else if b =s [] then ((true, None), with_buf s b false)
    else process_segment logging s b
  else process_segment logging s (buf s).

(** [s.Read] of at most [n] bytes (n > 0): bytes, an error other than EOF, EOF. *)
Definition Read (n : nat) (input : list incoming)
  : gostring * option error * bool * list incoming :=
  match input with
  | [] => ([], None, true, [])
  | ReadFailure e :: t => ([], Some e, false, t)
  | Packet b :: t =>
      if (length b <=? n)%nat then (b, None, false, t)
      else (take n b, None, false, Packet (drop n b) :: t)
  end.

(** [readInput]: [(atEOF, tooLong, err)], with the buffer and input after. *)
Definition readInput (b : gostring) (input : list incoming)
  : (bool * bool * option error) * gostring * list incoming :=
  let remaining := MaxInputLineBytes + 1 - len b in
  if remaining <=? 0 then ((false, true, None), b, input)
  else
    let '(chunk, err, atEOF, input') := Read (Z.to_nat remaining) input in
    match err with
    | Some e => ((false, false, Some e), b, input')
    | None =>
        let b := b ++ chunk in
        if (MaxInputLineBytes <? len b)
           && match findCommandSeparator b with
              | None => true
              | Some sep => MaxInputLineBytes <? Z.of_nat sep
              end
        then ((atEOF, true, None), b, input')
        else ((atEOF, false, None), b, input')
    end.

(** How an iteration of the loop ends: go on, or return from [RunLoop]. *)
Inductive outcome := Continue (s : LoopState) | Return (s : LoopState) (e : option error).

(** One iteration of the loop without the cancellation check. *)
Definition loop_step (logging : bool) (s : LoopState) : outcome :=
  let '((processed, err), s1) :=
    if commandsThisCycle s <? MaxCommandsPerReadCycle then processBufferedInput logging s
    else ((false, None), s) in
  match err with
  | Some e => Return s1 (if errors_Is e ErrExit then None else Some e)
  | None =>
      if processed then Continue s1
      else if MaxCommandsPerReadCycle <=? commandsThisCycle s1 then
        Continue (Loop (l_world s1) (lastStatus s1) (l_input s1) (buf s1) (promptDue s1) (eof s1)
                       (discardPhysicalLine s1) 0)
      else if eof s1 then Return s1 None
      else
        let hasBufferedCommand := bool_decide (is_Some (findCommandSeparator (buf s1))) in
        let prompt := promptDue s1 && negb hasBufferedCommand && negb (discardPhysicalLine s1) in
        let '(werr, w) :=
          if prompt
          then Write wChannel (User (envConfig (Conf (runner (l_world s1)))) ++ go "> ") (l_world s1)
          else (None, l_world s1) in
        match werr with
        | Some e => Return (Loop w (lastStatus s1) (l_input s1) (buf s1) (promptDue s1) (eof s1)
                                 (discardPhysicalLine s1) (commandsThisCycle s1)) (Some e)
        | None =>
            let '((atEOF, tooLong, rerr), b, input) := readInput (buf s1) (l_input s1) in
            let s2 := Loop w (lastStatus s1) input b (if prompt then false else promptDue s1)
                           (eof s1 || atEOF) (discardPhysicalLine s1) 0 in
            match rerr with
            | Some e => Return s2 (Some e)
            | None => if tooLong then Return s2 (Some errInputLineTooLong) else Continue s2
            end
        end
  end.

(** [ctx n]: what [ctx.Done] says at the [n]-th iteration. *)
Fixpoint run_loop (logging : bool) (ctx : nat -> option error) (n : nat) (fuel : nat) (s : LoopState)
  : option (LoopState * option error) :=
  match fuel with
  | O => None
  | S f =>
      match ctx n with
      | Some e => Some (s, Some e)
      | None =>
          match loop_step logging s with
          | Return s' e => Some (s', e)
          | Continue s' => run_loop logging ctx (S n) f s'
          end
      end
  end.

(** [NewShell]: [fs] and [lg] are the results of [LoadRootFS] and
    [NewSessionLogger]. *)
Record ShellStart := mkShell {
  sh_world : World;
  loadErr : option error;
  logInitErr : option error;
  sh_logging : bool
}.

Definition initial_world (r : CommandRunner) : World := mkWorld r [] [] 0 0 [] 0.

Definition NewShell (range_Envs : list (gostring * gostring)) (c : FakeshellConfig) (fs : res Fs)
    (lg : res unit) : ShellStart :=
  let r := set_writers wChannel wChannel (NewCommandRunner range_Envs c) in
  match fs with
  | Err e => mkShell (initial_world r) (Some e) None false
  | Ok f =>
      let w := initial_world (SetRootFS (Some f) r) in
      match lg with
      | Err e => mkShell w None (Some e) false
      | Ok _ => mkShell w None None true
      end
  end.

Definition RunLoop (fuel : nat) (ctx : nat -> option error) (input : list incoming) (s : ShellStart)
  : option (World * option error) :=
  match loadErr s with
  | Some e =>
      Some (snd (logSessionEnd (sh_logging s) (go "rootfs_load_error") (sh_world s)), Some e)
  | None =>
      match logInitErr s with
      | Some e => Some (sh_world s, Some e)
      | None =>
          let w := snd (logSessionStart (sh_logging s) (sh_world s)) in
          match run_loop (sh_logging s) ctx 0 fuel (Loop w 0 input [] true false false 0) with
          | None => None
          | Some (s', e) =>
              Some (snd (logSessionEnd (sh_logging s) (go "session_end") (l_world s')), e)
          end
      end
  end.
End Shell.
