(* ===== verification/ShellFrame.v ===== *)
(** * What running a command can change: frames for the built-ins, the dispatcher
    and the redirections of [fakeshell.go], and the relation [evolves] between
    the worlds before and after any part of a session. *)
From Stdlib Require Import Ascii String ZArith Lia.
From stdpp Require Import base gmap strings list.
From S2P Require Import Prelude GoStrings GoPath Paths Input Syntax Dynamic ShellConf Runner Expand Redirect Commands Shell.
Local Open Scope Z_scope.

(** ** Frames of the executed commands *)
Section ShellFrames.
Context `{UnicodeTables} `{Host}.

Ltac unfold_builtin :=
  unfold pwd, ls, whoami, hostname, echo, touch, cmdExit, uname, env, id_cmd, groups, who, w_cmd,
    last_cmd, uptime, date, df, free, ps, netstat, ss, ip, ifconfigCmd, stat, wc, head_cmd, tail_cmd,
    cat, history, clear_cmd, rejectOptions, fail, writeBounded.

Lemma builtin_framed name f args : builtin name = Some f -> framed (f args).
Proof.
  unfold builtin. intros E.
  repeat (match type of E with
          | (if ?b then _ else _) = _ => destruct b;
              [injection E as <-; unfold_builtin; cbv zeta; by solve_framed|]
          end).
  done.
Qed.

Lemma runCmd_framed c : framed (runCmd c).
Proof.
  unfold runCmd. destruct (builtin (Name c)) as [f|] eqn:E; [|solve_framed].
  apply framed_bind; [by eapply builtin_framed|]. solve_framed.
Qed.

Lemma new_counting_framed : framed new_counting.
Proof.
  intros w. constructor; auto with frame.
  cbn. rewrite length_app. split; [lia|]. unfold counters_ok. cbn. intros Hc.
  apply Forall_app. split; [done|]. repeat constructor; vm_compute; congruence.
Qed.

Lemma reserve_targets_framed l reserved : framed (reserve_targets l reserved).
Proof.
  revert reserved. induction l as [|d l IH]; intros reserved; cbn [reserve_targets]; [solve_framed|].
  destruct (Duplicate d); [apply IH|]. apply framed_bind; [auto with frame|]. intros r.
  destruct (validateFakeOutputRedirection r (Target d)); [|solve_framed].
  destruct (bool_decide _); [apply IH|]. apply framed_bind; [auto with frame|].
  intros [?|?]; [apply IH|solve_framed].
Qed.

Lemma install_writers_framed l out errw records : framed (install_writers l out errw records).
Proof.
  revert out errw records. induction l as [|d l IH]; intros out errw records; cbn [install_writers];
    [solve_framed|].
  destruct (Duplicate d); [destruct (bad_duplicate d); [solve_framed|apply IH]|].
  destruct (is_output d); [|solve_framed]. destruct (_ && _); [solve_framed|].
  apply framed_bind; [auto with frame|]. intros r.
  destruct (validateFakeOutputRedirection r (Target d)); [|solve_framed].
  apply framed_bind; [apply new_counting_framed|]. intros i. cbv zeta. destruct (FD d =? 1); apply IH.
Qed.

Lemma applyFakeRedirections_framed c out errw : framed (applyFakeRedirections c out errw).
Proof.
  unfold applyFakeRedirections. apply framed_bind; [auto with frame|]. intros r.
  destruct (preflightOutputRedirectionTargets r (Redirects c)); [|solve_framed].
  apply framed_bind; [apply reserve_targets_framed|]. intros [?|?]; [apply install_writers_framed|solve_framed].
Qed.

Lemma record_sizes_framed sizes paths : framed (record_sizes sizes paths).
Proof.
  induction paths as [|p paths IH]; cbn [record_sizes]; [solve_framed|].
  apply framed_bind; [auto with frame|]. intros _. apply IH.
Qed.

Lemma cleanupRedirections_framed records : framed (cleanupRedirections records).
Proof.
  intros w. unfold cleanupRedirections. destruct (collect_sizes _ _ _ _) as [sizes paths].
  apply record_sizes_framed.
Qed.

Lemma logCommand_framed lg c msg e : framed (logCommand lg c msg e).
Proof.
  intros w. unfold logCommand. destruct lg; [|apply frame_refl].
  constructor; auto with frame. eexists. split; [done|]. by repeat constructor.
Qed.

(** ** How the world evolves during a session *)

(** The bound on the temporary variables, the working directory apart. *)
Definition env_bounded (m : EnvMap) : Prop :=
  Z.of_nat (base.size (delete PWD m)) <= MaxSessionEnvEntries /\
  env_bytes (delete PWD m) <= MaxSessionEnvBytes.

Record evolves (w w' : World) : Prop := mkEvolves {
  ev_conf : Conf (runner w') = Conf (runner w);
  ev_env : Env (runner w') = Env (runner w);
  ev_fs : RootFS (runner w') = RootFS (runner w);
  ev_out : Stdout (runner w') = Stdout (runner w);
  ev_err : Stderr (runner w') = Stderr (runner w);
  ev_temp : env_bounded (TempEnv (runner w)) -> env_bounded (TempEnv (runner w'));
  ev_store : store_le (Dynamic (runner w)) (Dynamic (runner w'));
  ev_counters : counters_ok w -> counters_ok w';
  ev_sent : exists bytes, sent w' = sent w ++ bytes;
  ev_log : exists evs, events w' = events w ++ evs /\ Forall (fun e => ev_Type e = go "command") evs;
  ev_closed : closed w' = closed w
}.

Lemma env_le_delete fs m m' : env_le fs m m' -> delete PWD m' = delete PWD m.
Proof.
  intros [Hk _]. apply map_eq. intros k. destruct (decide (k = PWD)) as [->|Hne].
  - by rewrite !lookup_delete_eq.
  - rewrite !lookup_delete_ne by done. by apply Hk.
Qed.

Lemma frame_evolves w w' : frame w w' -> evolves w w'.
Proof.
  intros []. constructor; try done; try naive_solver.
  unfold env_bounded. by rewrite (env_le_delete _ _ _ frame_temp).
Qed.

Lemma evolves_refl w : evolves w w.
Proof. apply frame_evolves, frame_refl. Qed.

Lemma evolves_trans w1 w2 w3 : evolves w1 w2 -> evolves w2 w3 -> evolves w1 w3.
Proof.
  intros [] []. constructor; try congruence; try naive_solver.
  - by eapply store_le_trans.
  - destruct ev_sent0 as [b1 E1], ev_sent1 as [b2 E2]. exists (b1 ++ b2). by rewrite E2, E1, app_assoc.
  - destruct ev_log0 as (l1 & E1 & H1), ev_log1 as (l2 & E2 & H2). exists (l1 ++ l2).
    rewrite E2, E1, app_assoc. split; [done|]. by apply Forall_app.
Qed.

Definition evolving {A} (m : M A) : Prop := forall w, evolves w (snd (m w)).

Lemma evolving_ret {A} (a : A) : evolving (mret a).
Proof. intros w. apply evolves_refl. Qed.

Lemma framed_evolving {A} (m : M A) : framed m -> evolving m.
Proof. intros Hm w. apply frame_evolves, Hm. Qed.

Lemma evolving_bind {A B} (m : M A) (f : A -> M B) :
  evolving m -> (forall a, evolving (f a)) -> evolving (m ≫= f).
Proof.
  intros Hm Hf w. unfold mbind, M_bind. specialize (Hm w). destruct (m w) as [a w'] eqn:E.
  eapply evolves_trans; [exact Hm|apply Hf].
Qed.

End ShellFrames.
