(* ===== verification/Session.v ===== *)
(** * Theorems about a whole session: the invariant of the run loop, its
    termination, its log, and the execution of a quoted command line. *)
From Stdlib Require Import Ascii String ZArith Lia.
From stdpp Require Import base gmap strings list.
From S2P Require Import Prelude GoStrings GoPath Paths Input Syntax Dynamic ShellConf Runner Expand Redirect Commands Shell ShellFrame.
Local Open Scope Z_scope.

Section Session.
Context `{UnicodeTables} `{Host}.

(** ** One command *)

(** Running with other writers and putting the old ones back. *)
Lemma frame_with_writers w w1 o e :
  frame (upd_runner (set_writers o e) w) w1 ->
  frame w (upd_runner (set_writers (Stdout (runner w)) (Stderr (runner w))) w1).
Proof. intros []. constructor; done. Qed.

Lemma run_expanded_framed lg expanded out errw : framed (run_expanded lg expanded out errw).
Proof.
  unfold run_expanded. destruct (cmdName expanded =s []); [apply framed_ret|]. cbv zeta.
  destruct (validateParsedCommand _); [|apply framed_ret].
  apply framed_bind; [apply applyFakeRedirections_framed|].
  intros [[[o e] records]|err].
  - intros w. rewrite bind_get, bind_modify. unfold mbind, M_bind.
    pose proof (runCmd_framed (parserCommandFromSimple expanded) (upd_runner (set_writers o e) w)) as F1.
    destruct (runCmd _ _) as [me w1]. cbn [snd] in F1.
    assert (frame w1 (snd ((if fst me =s [] then mret None else Fprintln e (fst me)) w1))) as F2
      by (destruct (fst me =s []); [apply frame_refl|apply framed_Fprintln]).
    destruct ((if fst me =s [] then mret None else Fprintln e (fst me)) w1) as [x w2].
    cbn [snd] in F2. unfold modify at 1.
    pose proof (frame_with_writers _ _ _ _ (frame_trans _ _ _ F1 F2)) as F3.
    set (w3 := upd_runner _ w2) in *.
    pose proof (cleanupRedirections_framed records w3) as F4.
    destruct (cleanupRedirections records w3) as [[] w4]. cbn [snd] in F4.
    pose proof (logCommand_framed lg (parserCommandFromSimple expanded) (fst me) (snd me) w4) as F5.
    destruct (logCommand _ _ _ _ w4) as [[] w5]. cbn [snd] in F5.
    assert (frame w w5) as Hfin by (do 2 (eapply frame_trans; [eassumption|]); exact F5).
    destruct (snd me) as [er|]; [destruct (errors_Is er ErrExit)|]; exact Hfin.
  - destruct (isSyntaxLimitError err); [apply framed_ret|].
    apply framed_bind; [apply framed_Fprintln|]. intros _.
    apply framed_bind; [apply logCommand_framed|]. intros _. apply framed_ret.
Qed.

Lemma set_TempEnv_fields r m r0 :
  r = set_TempEnv m r0 ->
  Conf r = Conf r0 /\ Env r = Env r0 /\ RootFS r = RootFS r0 /\ Dynamic r = Dynamic r0 /\
  Stdout r = Stdout r0 /\ Stderr r = Stderr r0.
Proof. by intros ->. Qed.

(** Between setting the command's variables and restoring them. *)
Lemma frame_in_env w r' saved assigns w2 :
  applyCommandEnv (runner w) assigns = (r', saved) ->
  frame (upd_runner (fun _ => r') w) w2 -> frame w (upd_runner (restoreCommandEnv saved) w2).
Proof.
  intros Ha F. pose proof (restore_after_command _ _ _ _ (runner w2) PWD Ha) as HP.
  pose proof (fun k => restore_after_command _ _ _ _ (runner w2) k Ha) as Hk.
  pose proof (restoreCommandEnv_frame saved (runner w2)) as Hr.
  pose proof Ha as (new & _ & _ & _ & Hout & Heq)%apply_assignments_spec.
  destruct (set_TempEnv_fields _ _ _ Hr) as (R1 & R2 & R3 & R4 & R5 & R6).
  destruct (set_TempEnv_fields _ _ _ Heq) as (Q1 & Q2 & Q3 & Q4 & Q5 & Q6).
  destruct F. cbn [upd_runner runner counters sent events closed] in *.
  constructor; cbn [upd_runner runner counters sent events closed]; try congruence; try done.
  destruct frame_temp as [Ht1 Ht2]. rewrite Q3 in Ht2. split.
  - intros k Hne. rewrite Hk.
    destruct (decide (k ∈ assigned_keys assigns)) as [Hin|Hin]; [reflexivity|].
    rewrite Ht1 by done. by apply Hout.
  - rewrite Hk. destruct (decide (PWD ∈ assigned_keys assigns)) as [Hin|Hin]; [by left|]. destruct Ht2 as [Ht2|Ht2]; [left|by right].
    rewrite Ht2. by apply Hout.
Qed.

Lemma env_bytes_delete k m : env_bytes (delete k m) <= env_bytes m.
Proof.
  unfold env_bytes. destruct (m !! k) as [p|] eqn:E.
  - rewrite <- (insert_delete_id m k p E) at 2. rewrite map_to_list_insert by apply lookup_delete_eq.
    cbn. fold (sum_bytes (snd <$> map_to_list (delete k m))).
    pose proof (pair_bytes_nonneg p). lia.
  - by rewrite delete_id.
Qed.

Lemma map_size_le_delete (k : gostring) (m : EnvMap) : (base.size (delete k m) <= base.size m)%nat.
Proof. rewrite map_size_delete. destruct (m !! k); simpl; lia. Qed.

Lemma assignment_evolves w l r' result :
  executeAssignmentOnly (runner w) l = (result, r') -> evolves w (upd_runner (fun _ => r') w).
Proof.
  intros E. destruct result as [[]|e].
  - destruct (executeAssignmentOnly_ok _ _ _ E) as (Hr & Hs & Hb). rewrite Hr.
    constructor; cbn; try done; auto with frame. intros _. unfold env_bounded. split.
    + etransitivity; [|exact Hs]. apply Nat2Z.inj_le. apply map_size_le_delete.
    + etransitivity; [apply env_bytes_delete|done].
  - rewrite (executeAssignmentOnly_err _ _ _ _ E). destruct w. apply evolves_refl.
Qed.

Lemma upd_same w : upd_runner (fun _ => runner w) w = w.
Proof. by destruct w. Qed.

Lemma executeSimpleCommand_framed lg st c out errw :
  cmdName c <> [] -> framed (executeSimpleCommand lg st c out errw).
Proof.
  intros En w. unfold executeSimpleCommand.
  destruct (expandSimpleCommand (runner w) c st) as [[[ex saved]|e] r'] eqn:E.
  - unfold expandSimpleCommand in E. rewrite (proj2 (gos_eqb_neq _ _) En) in E.
    destruct (applyCommandEnv (runner w) (EnvAssignments c)) as [r1 sv] eqn:Ea.
    destruct (expand_in_env r1 c st); [|done]. injection E as -> -> ->.
    pose proof (run_expanded_framed lg ex out errw (upd_runner (fun _ => r') w)) as F.
    destruct (run_expanded _ _ _ _ _) as [result w2]. by eapply frame_in_env.
  - rewrite (expandSimpleCommand_error _ _ _ _ _ En E), upd_same.
    destruct (isSyntaxLimitError e); [apply frame_refl|apply framed_Fprintln].
Qed.

Lemma executeSimpleCommand_evolves lg st c out errw : evolving (executeSimpleCommand lg st c out errw).
Proof.
  intros w. destruct (decide (cmdName c = [])) as [En|En];
    [|by apply frame_evolves, executeSimpleCommand_framed].
  unfold executeSimpleCommand, expandSimpleCommand. rewrite En, gos_eqb_refl.
  destruct (executeAssignmentOnly (runner w) (EnvAssignments c)) as [[[]|e] r'] eqn:E;
    pose proof (assignment_evolves w _ _ _ E) as Hev.
  - unfold run_expanded. rewrite En, gos_eqb_refl. exact Hev.
  - destruct (isSyntaxLimitError e); [exact Hev|].
    eapply evolves_trans; [exact Hev|]. apply frame_evolves. apply framed_Fprintln.
Qed.

Lemma pipeline_loop_evolves lg st parts status : evolving (pipeline_loop lg st parts status).
Proof.
  revert status. induction parts as [|p parts IH]; intros status; cbn [pipeline_loop]; [apply evolving_ret|].
  apply evolving_bind; [apply framed_evolving, framed_get|]. intros r.
  apply evolving_bind.
  { destruct parts; [apply evolving_ret|]. apply evolving_bind; [apply framed_evolving, new_counting_framed|].
    intros i. apply evolving_ret. }
  intros out. apply evolving_bind; [apply executeSimpleCommand_evolves|]. intros [s [e|]];
    [apply evolving_ret|apply IH].
Qed.

Lemma line_loop_evolves lg pipes op ops st : evolving (line_loop lg pipes op ops st).
Proof.
  revert op ops st. induction pipes as [|p pipes IH]; intros op ops st; cbn [line_loop]; [apply evolving_ret|].
  cbv zeta. match goal with |- evolving (if ?b then _ else _) => destruct b end; [apply IH|].
  apply evolving_bind; [apply pipeline_loop_evolves|]. intros [s [e|]]; [apply evolving_ret|apply IH].
Qed.

Lemma executeShellLine_evolves lg segment st : evolving (executeShellLine lg segment st).
Proof.
  unfold executeShellLine. destruct (parseShellLine segment) as [line|e]; [apply line_loop_evolves|].
  destruct (isSyntaxLimitError e); [apply evolving_ret|].
  apply evolving_bind; [apply framed_evolving, framed_get|]. intros r.
  apply evolving_bind; [apply framed_evolving, framed_Fprintln|]. intros _. apply evolving_ret.
Qed.

(** ** The run loop *)
Definition status_ok (st : Z) : Prop := 0 <= st <= 255.

Lemma normalizeShellStatus_ok st : status_ok (normalizeShellStatus st).
Proof.
  unfold normalizeShellStatus, status_ok. destruct (st <=? 0) eqn:E1; [lia|].
  destruct (255 <? st) eqn:E2; bool_simp; lia.
Qed.

Lemma line_loop_status lg pipes op ops st w :
  status_ok st -> status_ok (fst (fst (line_loop lg pipes op ops st w))).
Proof.
  revert op ops st w. induction pipes as [|p pipes IH]; intros op ops st w Hst; cbn [line_loop]; [done|].
  cbv zeta. match goal with |- context [if ?b then _ else _] => destruct b end; [by apply IH|].
  unfold mbind, M_bind. destruct (executePipeline lg st p w) as [[s [e|]] w']; [done|].
  apply IH, normalizeShellStatus_ok.
Qed.

Lemma executeShellLine_status lg segment st w :
  status_ok st -> status_ok (fst (fst (executeShellLine lg segment st w))).
Proof.
  intros Hst. unfold executeShellLine. destruct (parseShellLine segment) as [line|e]; [by apply line_loop_status|].
  destruct (isSyntaxLimitError e); [done|]. rewrite bind_get. unfold mbind, M_bind.
  destruct (Fprintln _ _ w). apply normalizeShellStatus_ok.
Qed.

(** What one pass over the buffered input does to the loop state. *)
Record pass (s s' : LoopState) : Prop := mkPass {
  pass_world : evolves (l_world s) (l_world s');
  pass_status : status_ok (lastStatus s) -> status_ok (lastStatus s');
  pass_input : l_input s' = l_input s;
  pass_eof : eof s' = eof s;
  pass_buf : (length (buf s') <= length (buf s))%nat;
  pass_commands : commandsThisCycle s <= commandsThisCycle s' <= commandsThisCycle s + 1
}.

Lemma consume_pos (b : gostring) n complete :
  b <> [] -> consumePhysicalInputLine b = (n, complete) -> (0 < n <= length b)%nat.
Proof.
  intros Hb. unfold consumePhysicalInputLine. destruct (IndexByte b chNL) as [i|] eqn:E.
  - intros [= <- <-]. apply IndexByte_split in E as (_ & _ & Hlt). lia.
  - intros [= <- <-]. destruct b; [done|]. simpl. lia.
Qed.

Lemma pass_with_buf s b discard :
  (length b <= length (buf s))%nat -> pass s (with_buf s b discard).
Proof. intros Hb. constructor; cbn; try done; [apply evolves_refl|lia]. Qed.

Lemma consume_segment_pos parsed (b : gostring) segmentEnd e n discard :
  b <> [] -> (0 < segmentEnd)%nat -> consume_segment parsed b segmentEnd e = (n, discard) -> (0 < n)%nat.
Proof.
  intros Hb Hs. unfold consume_segment. destruct parsed; [by intros [= <- <-]|].
  destruct (consumePhysicalInputLine b) as [n' c] eqn:Ec. intros [= <- <-].
  by apply consume_pos in Ec as [? _].
Qed.

(** A pass leads from [s] to [s'], and shortens the buffer when it processes. *)
Definition good_pass (s : LoopState) (result : (bool * option error) * LoopState) : Prop :=
  let '((processed, err), s') := result in
  pass s s' /\ (processed = true -> (length (buf s') < length (buf s))%nat /\ err = None) /\
  (processed = false -> err = None -> commandsThisCycle s' = commandsThisCycle s).

Lemma process_segment_pass lg s b :
  b <> [] -> (length b <= length (buf s))%nat -> good_pass s (process_segment lg s b).
Proof.
  intros Hb Hlen. unfold process_segment, good_pass. cbv zeta.
  destruct (negb _ && _); [split; [by apply pass_with_buf|done]|].
  set (segmentEnd := match findCommandSeparator b with Some i => S i | None => length b end).
  assert (0 < length b)%nat by (destruct b; [done|simpl; lia]).
  assert (0 < segmentEnd)%nat as Hpos by (unfold segmentEnd; destruct (findCommandSeparator b); lia).
  destruct (match parseShellLine _ with Ok _ => None | Err _ => _ end);
    [split; [by apply pass_with_buf|done]|].
  destruct (consume_segment _ b segmentEnd (eof s)) as [n discard] eqn:Ec.
  apply consume_segment_pos in Ec; [|done..].
  pose proof (executeShellLine_evolves lg (take segmentEnd b) (lastStatus s) (l_world s)) as Hev.
  pose proof (executeShellLine_status lg (take segmentEnd b) (lastStatus s) (l_world s)) as Hst.
  destruct (executeShellLine lg (take segmentEnd b) (lastStatus s) (l_world s)) as [[st [e|]] w];
    cbn [fst snd] in *; (split; [|try done]).
  - constructor; cbn; try done; [rewrite length_drop|]; lia.
  - constructor; cbn; try done; [rewrite length_drop|]; lia.
  - split; [|done]. intros _. cbn. rewrite length_drop. split; [lia|done].
Qed.

Lemma processBufferedInput_pass lg s : good_pass s (processBufferedInput lg s).
Proof.
  unfold processBufferedInput. destruct (buf s =s []) eqn:Eb; bool_simp.
  { split; [|done]. constructor; try done; [apply evolves_refl|lia]. }
  destruct (discardPhysicalLine s); [|by apply process_segment_pass].
  destruct (consumePhysicalInputLine (buf s)) as [n complete] eqn:Ec.
  apply consume_pos in Ec; [|done]. cbv zeta.
  assert (length (drop n (buf s)) < length (buf s))%nat as Hlt by (rewrite length_drop; lia).
  destruct complete; cbn [negb].
  - destruct (drop n (buf s) =s []) eqn:Ed; bool_simp; [|apply process_segment_pass; [done|lia]].
    split; [apply pass_with_buf; lia|]. split; [|done]. intros _. split; [exact Hlt|done].
  - split; [apply pass_with_buf; lia|]. split; [|done]. intros _. split; [exact Hlt|done].
Qed.

(** The bounds the loop keeps. *)
Record loop_inv (s : LoopState) : Prop := mkLoopInv {
  inv_status : status_ok (lastStatus s);
  inv_buf : len (buf s) <= MaxInputLineBytes + 1;
  inv_commands : 0 <= commandsThisCycle s <= MaxCommandsPerReadCycle
}.

(** What is left to do: input counts more than buffered bytes, which count more
    than a pending reset of the command counter. *)
Definition packet_size (p : incoming) : nat :=
  match p with Packet b => 3 * length b + 3 | ReadFailure _ => 3 end.
Definition input_size (l : list incoming) : nat := list_sum (map packet_size l).
Definition work (s : LoopState) : nat :=
  input_size (l_input s) + 2 * length (buf s)
  + (if (MaxCommandsPerReadCycle <=? commandsThisCycle s)%Z then 1 else 0) + (if eof s then 0 else 1).

Lemma input_size_cons p l : input_size (p :: l) = (packet_size p + input_size l)%nat.
Proof. done. Qed.

Lemma Read_spec n input chunk err ateof input' :
  (0 < n)%nat -> Read n input = (chunk, err, ateof, input') ->
  (length chunk <= n)%nat /\
  (err = None -> (input_size input' + 2 * length chunk + (if ateof then 0 else 1) < input_size input + 1)%nat).
Proof.
  intros Hn. unfold Read. destruct input as [|[b|e] t].
  - intros [= <- <- <- <-]. cbn. split; lia.
  - rewrite input_size_cons. cbn [packet_size]. destruct (length b <=? n)%nat eqn:E.
    + apply Nat.leb_le in E. intros [= <- <- <- <-]. split; [lia|]. intros _. lia.
    + apply Nat.leb_gt in E. intros [= <- <- <- <-]. rewrite length_take, input_size_cons.
      cbn [packet_size]. rewrite length_drop. split; lia.
  - intros [= <- <- <- <-]. cbn. split; [lia|done].
Qed.

Lemma readInput_spec b input ateof long err b' input' :
  readInput b input = ((ateof, long, err), b', input') -> len b <= MaxInputLineBytes + 1 ->
  len b' <= MaxInputLineBytes + 1 /\
  (err = None -> long = false ->
   (input_size input' + 2 * length b' + (if ateof then 0 else 1) < input_size input + 2 * length b + 1)%nat).
Proof.
  unfold readInput. intros Hr Hb. destruct (MaxInputLineBytes + 1 - len b <=? 0) eqn:E1.
  { injection Hr as <- <- <- <- <-. split; [done|]. done. }
  bool_simp. destruct (Read _ input) as [[[chunk er] ae] inp] eqn:Er.
  apply Read_spec in Er as [Hlen Hsz]; [|lia].
  destruct er as [e|]; [by injection Hr as <- <- <- <- <-|].
  specialize (Hsz eq_refl). assert (len (b ++ chunk) <= MaxInputLineBytes + 1) as Hl
    by (rewrite len_app; unfold len at 2; lia).
  destruct ((MaxInputLineBytes <? len (b ++ chunk)) && _);
    injection Hr as <- <- <- <- <-; (split; [done|]); [done|].
  intros _ _. rewrite length_app. lia.
Qed.

Lemma pass_inv s s' :
  pass s s' -> loop_inv s -> commandsThisCycle s < MaxCommandsPerReadCycle -> loop_inv s'.
Proof.
  intros [] [] Hlt. constructor; [by auto| |lia]. unfold len in *. lia.
Qed.

(** What an iteration leads to. *)
Definition step_ok (s : LoopState) (o : outcome) : Prop :=
  match o with
  | Continue s' => evolves (l_world s) (l_world s') /\ loop_inv s' /\ (work s' < work s)%nat
  | Return s' _ => evolves (l_world s) (l_world s') /\ loop_inv s'
  end.

(** The part of an iteration that prompts and reads. *)
Lemma read_step_ok s w ateof long err b input due :
  evolves (l_world s) w -> loop_inv s -> eof s = false ->
  readInput (buf s) (l_input s) = ((ateof, long, err), b, input) ->
  let s2 := Loop w (lastStatus s) input b due (eof s || ateof) (discardPhysicalLine s) 0 in
  step_ok s (match err with
             | Some e => Return s2 (Some e)
             | None => if long then Return s2 (Some errInputLineTooLong) else Continue s2
             end).
Proof.
  intros Hev [] He Hr. cbv zeta. apply readInput_spec in Hr as [Hlen Hsz]; [|done].
  assert (loop_inv (Loop w (lastStatus s) input b due (eof s || ateof) (discardPhysicalLine s) 0)) as Hinv
    by (constructor; cbn; try done; by vm_compute).
  destruct err as [e|]; [done|]. destruct long; [done|]. cbn [step_ok]. split; [done|]. split; [done|].
  specialize (Hsz eq_refl eq_refl). unfold work. cbn [l_input buf eof commandsThisCycle]. rewrite He.
  cbn [orb]. replace (MaxCommandsPerReadCycle <=? 0) with false by done.
  destruct (MaxCommandsPerReadCycle <=? commandsThisCycle s); lia.
Qed.

Lemma pass_work s s' :
  pass s s' -> (length (buf s') < length (buf s))%nat -> (work s' < work s)%nat.
Proof.
  intros [] Hlt. unfold work. rewrite pass_input0, pass_eof0.
  destruct (MaxCommandsPerReadCycle <=? commandsThisCycle s) eqn:E1,
           (MaxCommandsPerReadCycle <=? commandsThisCycle s') eqn:E2; bool_simp; lia.
Qed.

Lemma pass_work_le s s' :
  pass s s' -> commandsThisCycle s' < MaxCommandsPerReadCycle -> (work s' <= work s)%nat.
Proof.
  intros [] Hlt. unfold work. rewrite pass_input0, pass_eof0.
  rewrite (proj2 (Z.leb_gt _ _) Hlt). lia.
Qed.

Lemma step_ok_trans s s1 o :
  evolves (l_world s) (l_world s1) -> (work s1 <= work s)%nat -> step_ok s1 o -> step_ok s o.
Proof.
  intros Hev Hw. destruct o as [s'|s' e]; cbn [step_ok].
  - intros (H1 & H2 & H3). split; [by eapply evolves_trans|]. split; [done|lia].
  - intros (H1 & H2). split; [by eapply evolves_trans|done].
Qed.

(** The end of an iteration: reset, stop, or prompt and read. *)
Definition after_pass (s1 : LoopState) : outcome :=
  if MaxCommandsPerReadCycle <=? commandsThisCycle s1 then
    Continue (Loop (l_world s1) (lastStatus s1) (l_input s1) (buf s1) (promptDue s1) (eof s1)
                   (discardPhysicalLine s1) 0)
  else if eof s1 then Return s1 None
  else
    let hasBufferedCommand := bool_decide (is_Some (findCommandSeparator (buf s1))) in
    let prompt := promptDue s1 && negb hasBufferedCommand && negb (discardPhysicalLine s1) in
    let '(werr, w) :=
      if prompt
      then Write wChannel (User (envConfig (Conf (runner (l_world s1)))) ++ go "> ") (l_world s1)
      else (None, l_world s1) in
    match werr with
    | Some e => Return (Loop w (lastStatus s1) (l_input s1) (buf s1) (promptDue s1) (eof s1)
                             (discardPhysicalLine s1) (commandsThisCycle s1)) (Some e)
    | None =>
        let '((atEOF, tooLong, rerr), b, input) := readInput (buf s1) (l_input s1) in
        let s2 := Loop w (lastStatus s1) input b (if prompt then false else promptDue s1)
                       (eof s1 || atEOF) (discardPhysicalLine s1) 0 in
        match rerr with
        | Some e => Return s2 (Some e)
        | None => if tooLong then Return s2 (Some errInputLineTooLong) else Continue s2
        end
    end.

Lemma after_pass_ok s : loop_inv s -> step_ok s (after_pass s).
Proof.
  intros Hinv. unfold after_pass. destruct (MaxCommandsPerReadCycle <=? commandsThisCycle s) eqn:Ec.
  { cbn [step_ok]. split; [apply evolves_refl|]. destruct Hinv. split; [by constructor|].
    unfold work. cbn [l_input buf eof commandsThisCycle]. rewrite Ec. cbn. lia. }
  destruct (eof s) eqn:Ee; [split; [apply evolves_refl|done]|]. cbv zeta.
  set (prompt := promptDue s && _ && _).
  assert (evolves (l_world s) (snd (if prompt
      then Write wChannel (User (envConfig (Conf (runner (l_world s)))) ++ go "> ") (l_world s)
      else (None, l_world s)))) as Hev
    by (destruct prompt; [apply frame_evolves, framed_Write|apply evolves_refl]).
  destruct (if prompt then _ else _) as [werr w]. cbn [snd] in Hev.
  destruct werr as [e|].
  { split; [done|]. destruct Hinv. by constructor. }
  destruct (readInput (buf s) (l_input s)) as [[[[ateof long] err] b] input] eqn:Er.
  rewrite <- Ee. by apply read_step_ok.
Qed.

Lemma loop_step_ok lg s : loop_inv s -> step_ok s (loop_step lg s).
Proof.
  intros Hinv. unfold loop_step.
  destruct (commandsThisCycle s <? MaxCommandsPerReadCycle) eqn:Ec.
  - pose proof (processBufferedInput_pass lg s) as Hp.
    destruct (processBufferedInput lg s) as [[processed err] s1]. destruct Hp as [Hp Hlt].
    bool_simp. pose proof (pass_inv s s1 Hp Hinv Ec) as Hinv1.
    destruct err as [e|]; [split; [apply Hp|done]|].
    destruct processed.
    + split; [apply Hp|]. split; [done|]. apply pass_work; [done|by apply Hlt].
    + fold (after_pass s1). apply (step_ok_trans s s1); [apply Hp| |by apply after_pass_ok].
      apply pass_work_le; [done|]. destruct Hlt as [_ Hc]. rewrite Hc by done. done.
  - fold (after_pass s). by apply after_pass_ok.
Qed.

(** ** The whole loop *)
Lemma run_loop_terminates lg ctx n s :
  loop_inv s ->
  forall fuel, (work s < fuel)%nat ->
  exists s' e, run_loop lg ctx n fuel s = Some (s', e) /\ evolves (l_world s) (l_world s') /\ loop_inv s'.
Proof.
  intros Hinv fuel. revert n s Hinv. induction fuel as [|fuel IH]; intros n s Hinv Hf; [lia|].
  cbn [run_loop]. destruct (ctx n) as [e|].
  { exists s, (Some e). split; [done|]. split; [apply evolves_refl|done]. }
  pose proof (loop_step_ok lg s Hinv) as Hs. destruct (loop_step lg s) as [s'|s' e].
  - destruct Hs as (Hev & Hinv' & Hlt). destruct (IH (S n) s' Hinv') as (s2 & e & Hr & Hev2 & Hi2); [lia|].
    exists s2, e. split; [done|]. split; [by eapply evolves_trans|done].
  - exists s', e. by destruct Hs.
Qed.

(** More fuel does not change the result. *)
Lemma run_loop_more lg ctx n fuel fuel' s r :
  run_loop lg ctx n fuel s = Some r -> (fuel <= fuel')%nat -> run_loop lg ctx n fuel' s = Some r.
Proof.
  revert n fuel' s. induction fuel as [|fuel IH]; intros n fuel' s Hr Hle; [done|].
  destruct fuel' as [|fuel']; [lia|]. cbn [run_loop] in *. destruct (ctx n); [done|].
  destruct (loop_step lg s); [|done]. apply IH; [done|lia].
Qed.

Lemma run_loop_spec lg ctx n fuel s s' e :
  loop_inv s -> run_loop lg ctx n fuel s = Some (s', e) ->
  evolves (l_world s) (l_world s') /\ loop_inv s'.
Proof.
  intros Hinv Hr. destruct (run_loop_terminates lg ctx n s Hinv (S (work s) + fuel)) as (s2 & e2 & Hr2 & ?);
    [lia|]. rewrite (run_loop_more _ _ _ _ _ _ _ Hr) in Hr2 by lia. by injection Hr2 as -> ->.
Qed.

Lemma initial_inv w input : loop_inv (Loop w 0 input [] true false false 0).
Proof.
  constructor; cbn; unfold status_ok, MaxInputLineBytes, MaxCommandsPerReadCycle; rewrite ?len_nil; lia.
Qed.

(** ** Quoted command lines *)
Lemma quotedWord_literal x :
  all_literal (quotedWord x) /\ word_text (quotedWord x) = concat (map seg_text (word_segments (quotedWord x))).
Proof. unfold quotedWord, all_literal. cbn. rewrite app_nil_r. split; [|done]. repeat constructor. Qed.

Lemma command_line_quoted name args :
  command_line_words (Simple [] name (quotedWord name) args (map quotedWord args) [])
  = map quotedWord (name :: args).
Proof.
  unfold command_line_words. cbn [cmdArgs map]. f_equal. apply list_eq. intros i.
  rewrite list_lookup_imap, list_lookup_fmap. destruct (args !! i) as [a|] eqn:E; [|done]. cbn.
  unfold commandArgWord. cbn [ArgWords]. rewrite list_lookup_fmap, E. done.
Qed.

Lemma expand_quoted r name args st :
  name <> [] -> Forall (fun a => len a <= MaxInputTokenBytes) (name :: args) -> len args <= MaxInputArgs ->
  expandSimpleCommand r (Simple [] name (quotedWord name) args (map quotedWord args) []) st
  = (Ok (Simple [] name zeroWord args [] [], []), r).
Proof.
  intros Hn Hl Ha. unfold expandSimpleCommand. cbn [cmdName EnvAssignments].
  rewrite (proj2 (gos_eqb_neq _ _) Hn). cbn [applyCommandEnv fold_left]. unfold expand_in_env.
  rewrite command_line_quoted, expandCommandWords_literal.
  - rewrite map_map. cbn [word_text quotedWord]. rewrite map_id. cbn [mbind result_bind expand_redirects Redirects].
    unfold validateExpandedSimpleCommandBounds. cbn [cmdName cmdArgs EnvAssignments check_assignments].
    apply Forall_cons in Hl as [Hl1 Hl2]. rewrite (proj2 (Z.ltb_ge _ _) Hl1), (proj2 (Z.ltb_ge _ _) Ha).
    replace (existsb _ args) with false; [done|]. symmetry. apply existsb_false_Forall.
    eapply Forall_impl; [exact Hl2|]. intros x Hx. by apply Z.ltb_ge.
  - apply Forall_map. eapply Forall_impl; [exact Hl|]. intros x Hx.
    destruct (quotedWord_literal x) as [? ?]. done.
Qed.

Lemma validate_bounded name args :
  Forall (fun a => len a <= MaxInputTokenBytes) (name :: args) -> len args <= MaxInputArgs ->
  validateParsedCommand (MkCommand name args []) = Ok tt.
Proof.
  intros Hl Ha. unfold validateParsedCommand. cbn [Name Args Input.Envs existsb].
  apply Forall_cons in Hl as [Hl1 Hl2]. rewrite (proj2 (Z.ltb_ge _ _) Hl1), (proj2 (Z.ltb_ge _ _) Ha).
  replace (existsb _ args) with false; [done|]. symmetry. apply existsb_false_Forall.
  eapply Forall_impl; [exact Hl2|]. intros x Hx. by apply Z.ltb_ge.
Qed.

(** Without redirections nothing is set up. *)
Lemma apply_no_redirections w s c out errw :
  Dynamic (runner w) = Some s -> store_ok s -> Redirects c = [] ->
  applyFakeRedirections c out errw w = (Ok (out, errw, []), w).
Proof.
  intros E Hs Hr. unfold applyFakeRedirections. rewrite bind_get, Hr.
  unfold preflightOutputRedirectionTargets. rewrite E, (existing_dom s Hs). cbn.
  rewrite size_empty, size_dom, (store_size s Hs). pose proof Hs as (_ & _ & Hl & _).
  by rewrite (proj2 (Z.ltb_ge _ _)) by lia.
Qed.

Lemma set_writers_same w o e :
  Stdout (runner w) = o -> Stderr (runner w) = e -> upd_runner (set_writers o e) w = w.
Proof. intros <- <-. destruct w as [[]]. done. Qed.

(** What running a command outside a pipeline amounts to. *)
Definition run_plain (name : gostring) (args : list gostring) : M (Z * option error) := fun w =>
  let '((msg, err), w1) := runCmd (MkCommand name args []) w in
  let w2 := if msg =s [] then w1 else snd (Fprintln (Stderr (runner w)) msg w1) in
  ((match err with
    | Some e => if errors_Is e ErrExit then (0, Some ErrExitValue) else (1, None)
    | None => (0, None)
    end), w2).

Lemma run_expanded_plain w s name args :
  Dynamic (runner w) = Some s -> store_ok s -> name <> [] ->
  Forall (fun a => len a <= MaxInputTokenBytes) (name :: args) -> len args <= MaxInputArgs ->
  run_expanded false (Simple [] name zeroWord args [] []) (Stdout (runner w)) (Stderr (runner w)) w
  = run_plain name args w.
Proof.
  intros E Hs Hn Hl Ha. unfold run_expanded. cbn [cmdName]. rewrite (proj2 (gos_eqb_neq _ _) Hn). cbv zeta.
  unfold parserCommandFromSimple. cbn [cmdName cmdArgs EnvAssignments omap list_omap].
  rewrite (validate_bounded _ _ Hl Ha).
  rewrite (bind_run _ _ _ _ _ (apply_no_redirections w s (Simple [] name zeroWord args [] []) _ _ E Hs eq_refl)).
  rewrite bind_get, bind_modify, (set_writers_same w) by done. unfold run_plain, mbind, M_bind.
  pose proof (runCmd_framed (MkCommand name args []) w) as F1.
  destruct (runCmd (MkCommand name args []) w) as [[msg err] w1]. cbn [fst snd] in *.
  assert (frame w1 (snd ((if msg =s [] then mret None else Fprintln (Stderr (runner w)) msg) w1))) as F2
    by (destruct (msg =s []); [apply frame_refl|apply framed_Fprintln]).
  pose proof (frame_trans _ _ _ F1 F2) as [].
  destruct ((if msg =s [] then mret None else Fprintln (Stderr (runner w)) msg) w1) as [x w2] eqn:E2.
  cbn [snd] in *. unfold modify. rewrite (set_writers_same w2) by done.
  unfold cleanupRedirections. cbn [collect_sizes record_sizes logCommand].
  assert ((if msg =s [] then w1 else snd (Fprintln (Stderr (runner w)) msg w1)) = w2) as ->
    by (destruct (msg =s []); [by injection E2|by rewrite E2]).
  unfold mret, M_ret. by destruct err as [er|]; [destruct (errors_Is er ErrExit)|].
Qed.

Lemma execute_quoted w s name args st :
  Dynamic (runner w) = Some s -> store_ok s -> name <> [] -> isEnvAssignment name = false ->
  Forall printable_word (name :: args) ->
  Forall (fun a => len a <= MaxInputTokenBytes) (name :: args) -> len args <= MaxInputArgs ->
  executeShellLine false (printCommand (name :: args)) st w
  = (let '((s, e), w') := run_plain name args w in
     ((match e with Some _ => st | None => normalizeShellStatus s end, e), w')).
Proof.
  intros E Hs Hn He Hp Hl Ha. unfold executeShellLine.
  rewrite parse_printed_line by (done || (unfold MaxInputArgs, MaxSyntaxTokens in *; lia)).
  cbn [line_loop Pipelines lineOperators]. cbv zeta. unfold executePipeline. cbn [Parts pipeline_loop].
  unfold mbind at 1 2 3 4, M_bind at 1 2 3 4. cbn [get_runner mret M_ret].
  unfold executeSimpleCommand. rewrite expand_quoted by done. rewrite upd_same.
  rewrite (run_expanded_plain w s name args) by done.
  destruct (run_plain name args w) as [[s1 e] w1]. cbn [fst snd].
  replace (upd_runner (restoreCommandEnv []) w1) with w1 by by destruct w1.
  by destruct e.
Qed.
End Session.

Section Sessions.
Context `{UnicodeTables} `{Host}.

Lemma logSession_world lg type reason w :
  let w' := snd (logSession lg type reason w) in
  runner w' = runner w /\ counters w' = counters w /\ sent w' = sent w /\ closed w' = closed w.
Proof. destruct lg; done. Qed.

Lemma logSessionEnd_world lg reason w :
  let w' := snd (logSessionEnd lg reason w) in
  runner w' = runner w /\ counters w' = counters w /\ sent w' = sent w.
Proof. destruct lg; done. Qed.

(** The state a session ends in, whenever it ends. *)
Definition session_ok (fs : Fs) (c : FakeshellConfig) (envs : list (gostring * gostring)) (w : World)
  : Prop :=
  RootFS (runner w) = fs /\ Conf (runner w) = c /\ Env (runner w) = NewEnvMap envs /\
  Stdout (runner w) = wChannel /\ Stderr (runner w) = wChannel /\
  (exists s, Dynamic (runner w) = Some s /\ store_ok s) /\
  env_bounded (TempEnv (runner w)) /\ counters_ok w.

Lemma session_ok_evolves fs c envs w w' :
  evolves w w' -> session_ok fs c envs w -> session_ok fs c envs w'.
Proof.
  intros [] (H1 & H2 & H3 & H4 & H5 & (s & Hd & Hs) & H7 & H8).
  repeat (split; [congruence|]). split; [|split; auto].
  rewrite Hd in ev_store. destruct (Dynamic (runner w')) as [s'|]; [|done].
  exists s'. split; [done|]. by apply ev_store.
Qed.

Lemma session_ok_runner fs c envs w w' :
  runner w' = runner w -> counters w' = counters w -> session_ok fs c envs w -> session_ok fs c envs w'.
Proof. unfold session_ok, counters_ok. intros -> ->. done. Qed.

Lemma env_bounded_empty : env_bounded ∅.
Proof.
  unfold env_bounded. rewrite delete_empty. unfold env_bytes. rewrite map_to_list_empty.
  rewrite map_size_empty. cbn. split; vm_compute; congruence.
Qed.

Lemma NewShell_ok envs c fs : session_ok fs c envs (sh_world (NewShell envs c (Ok fs) (Ok tt))).
Proof.
  repeat (split; [done|]). split; [exists NewDynamicStore; split; [done|apply NewDynamicStore_ok]|].
  split; [apply env_bounded_empty|constructor].
Qed.

(** ** Properties *)

(** C5. Every session terminates: for every configuration, filesystem, logger,
    cancellation behaviour and finite input there is one result that [RunLoop]
    returns, and it is reached with any fuel beyond the size of the input
    (three per byte and per packet). *)
Theorem RunLoop_terminates ctx input envs c fs lg :
  exists w e, forall fuel, (input_size input + 2 <= fuel)%nat ->
    RunLoop fuel ctx input (NewShell envs c fs lg) = Some (w, e).
Proof.
  unfold RunLoop. destruct fs as [f|e]; [|by do 2 eexists]. destruct lg as [[]|e]; [|by do 2 eexists].
  cbn [NewShell loadErr logInitErr sh_logging sh_world].
  set (s := Loop _ 0 input [] true false false 0).
  destruct (run_loop_terminates true ctx 0 s (initial_inv _ _) (S (work s))) as (s' & e & Hr & _); [lia|].
  do 2 eexists. intros fuel Hf. rewrite (run_loop_more _ _ _ _ fuel _ _ Hr); [done|].
  unfold work, s. cbn [l_input buf eof commandsThisCycle length].
  replace (MaxCommandsPerReadCycle <=? 0) with false by done. lia.
Qed.

(** [cd] stores the working directory without counting it, so there is one entry more. *)
Lemma env_bounded_size m : env_bounded m -> Z.of_nat (base.size m) <= MaxSessionEnvEntries + 1.
Proof.
  intros [Hb _]. destruct (m !! PWD) as [v|] eqn:E.
  - rewrite map_size_delete, E in Hb. lia.
  - rewrite delete_id in Hb by done. lia.
Qed.

(** C1. The session invariant: whatever bytes arrive in whatever packets, and
    at whatever iteration the context is cancelled, the session leaves the root
    filesystem, the configuration and the configured environment as they were,
    writes to the channel again after every redirection, keeps the metadata
    store well-formed (at most [MaxDynamicEntries] canonical paths) and every output
    counter within [MaxCommandOutputBytes].  The temporary environment without [PWD] has at
    most [MaxSessionEnvEntries] variables of [MaxSessionEnvBytes] in all; with [PWD],
    which [cd] stores unchecked, it has at most one variable more ([cd_exceeds_env_limit]
    is a session that reaches this). *)
Theorem RunLoop_invariant fuel ctx input envs c fs w e :
  RunLoop fuel ctx input (NewShell envs c (Ok fs) (Ok tt)) = Some (w, e) ->
  session_ok fs c envs w /\ Z.of_nat (base.size (TempEnv (runner w))) <= MaxSessionEnvEntries + 1.
Proof.
  unfold RunLoop. cbn [NewShell loadErr logInitErr sh_logging].
  set (w0 := sh_world _). destruct (logSession_world true (go "session_start") [] w0) as (R1 & R2 & _ & _).
  fold (logSessionStart true) in R1, R2.
  destruct (run_loop _ _ _ _ _) as [[s' e']|] eqn:Er; [|done]. intros [= <- <-].
  apply run_loop_spec in Er as [Hev _]; [|apply initial_inv].
  destruct (logSessionEnd_world true (go "session_end") (l_world s')) as (E1 & E2 & _).
  match goal with |- ?P /\ _ => assert P as Hok end; [|split; [exact Hok|apply env_bounded_size, Hok]].
  apply (session_ok_runner _ _ _ _ _ E1 E2). eapply session_ok_evolves; [exact Hev|].
  apply (session_ok_runner _ _ _ w0); [done|done|]. apply NewShell_ok.
Qed.

(** The session log is complete and properly closed: it starts with one
    session-start event, ends with one session-end event, has only command
    events in between, and the logger is closed exactly once. *)
Lemma RunLoop_log fuel ctx input envs c fs w e :
  RunLoop fuel ctx input (NewShell envs c (Ok fs) (Ok tt)) = Some (w, e) ->
  closed w = 1%nat /\
  exists first cmds last, events w = first :: cmds ++ [last] /\
    ev_Type first = go "session_start" /\ ev_Type last = go "session_end" /\
    Forall (fun e => ev_Type e = go "command") cmds.
Proof.
  unfold RunLoop. cbn [NewShell loadErr logInitErr sh_logging sh_world].
  destruct (run_loop _ _ _ _ _) as [[s' e']|] eqn:Er; [|done]. intros [= <- <-].
  apply run_loop_spec in Er as [[] _]; [|apply initial_inv].
  destruct ev_log as (cmds & Hl & Hc). cbn in Hl, ev_closed.
  cbn. rewrite ev_closed. split; [done|]. rewrite Hl.
  eexists _, cmds, _. split; [cbn; done|]. done.
Qed.

(** Startup fails closed: when the root filesystem or the logger could not
    be set up, [RunLoop] returns that error at once; nothing is sent to the
    client, no command runs and nothing is logged. *)
Lemma RunLoop_fails_closed fuel ctx input envs c fs lg e :
  fs = Err e \/ (is_ok fs = true /\ lg = Err e) ->
  exists w, RunLoop fuel ctx input (NewShell envs c fs lg) = Some (w, Some e) /\
    sent w = [] /\ events w = [] /\ writes w = 0%nat.
Proof.
  intros [-> | [Hf ->]]; [by eexists|]. destruct fs as [f|]; [|done]. by eexists.
Qed.

(** One iteration of the run loop keeps its bounds (a status in [0, 255], a
    buffer of at most one byte more than a line, a command counter of at most
    one cycle), lets the world only evolve, and, unless it returns, strictly
    decreases the remaining work. *)
Lemma loop_step_progress lg s : loop_inv s -> step_ok s (loop_step lg s).
Proof. apply loop_step_ok. Qed.

(** A command changes little: executing any command with a name leaves the
    root filesystem, configuration, environments and writers as they were, up to
    the working directory, which is the same or a canonical path of an existing
    directory; well-formed stores stay well-formed and keep their files; what
    was sent and logged before is kept. *)
Lemma executeSimpleCommand_frame lg st c out errw w :
  cmdName c <> [] -> frame w (snd (executeSimpleCommand lg st c out errw w)).
Proof. intros Hn. by apply executeSimpleCommand_framed. Qed.

(** From bytes to built-in: on the line that single-quotes a command name
    and arguments, whatever bytes other than quotes and newlines they contain,
    the shell runs exactly that command with exactly those arguments, with no
    expansion, and turns its result into the status; [exit] ends the session. *)
Lemma executeShellLine_quoted w s name args st :
  Dynamic (runner w) = Some s -> store_ok s -> name <> [] -> isEnvAssignment name = false ->
  Forall printable_word (name :: args) ->
  Forall (fun a => len a <= MaxInputTokenBytes) (name :: args) -> len args <= MaxInputArgs ->
  executeShellLine false (printCommand (name :: args)) st w
  = (let '((s, e), w') := run_plain name args w in
     ((match e with Some _ => st | None => normalizeShellStatus s end, e), w')).
Proof. apply execute_quoted. Qed.
End Sessions.

Definition demo_shell : ShellStart :=
  @NewShell ascii_tables quiet_host [(go "USER", go "root"); (go "PWD", go "/")] example_conf
    (Ok rootOnlyFs) (Ok tt).
Definition demo_input : list incoming :=
  [Packet (go "touch a; echo"); Packet (go " $USER > b" ++ [chNL] ++ go "exit" ++ [chNL])].

Lemma RunLoop_invariant_witness :
  let _ := ascii_tables in let _ := quiet_host in
  match RunLoop 200 (fun _ => None) demo_input demo_shell with
  | Some (w, e) => e = None /\
      session_ok rootOnlyFs example_conf [(go "USER", go "root"); (go "PWD", go "/")] w /\
      Z.of_nat (base.size (TempEnv (runner w))) <= MaxSessionEnvEntries + 1
  | None => False
  end.
Proof.
  intros T Hst. destruct (RunLoop 200 (fun _ => None) demo_input demo_shell) as [[w e]|] eqn:E.
  - split; [vm_compute in E; injection E as <- <-; reflexivity|].
    exact (@RunLoop_invariant T Hst 200 (fun _ => None) demo_input _ _ _ w e E).
  - vm_compute in E. discriminate E.
Defined.

(** Sixty-four variables, and then [cd]. *)
Definition assignment_line (i : nat) : gostring := go "K" ++ Itoa (Z.of_nat i) ++ go "=v" ++ [chNL].
Definition full_env_input : list incoming := [Packet (concat (map assignment_line (seq 0 64)) ++ go "cd /" ++ [chNL])].
Lemma cd_exceeds_env_limit :
  let _ := ascii_tables in let _ := quiet_host in
  exists w e, RunLoop 2000 (fun _ => None) full_env_input demo_shell = Some (w, e) /\
    Z.of_nat (base.size (TempEnv (runner w))) = MaxSessionEnvEntries + 1.
Proof.
  intros T Hst. destruct (RunLoop 2000 (fun _ => None) full_env_input demo_shell) as [[w e]|] eqn:E; vm_compute in E; [|discriminate E].
  injection E as <- <-. do 2 eexists. split; [reflexivity|]. vm_compute. reflexivity.
Qed.

(** ** Expanded commands *)
Lemma check_assignments_envs l :
  check_assignments l = Ok tt ->
  existsb (fun e => env_token_too_long (Key e) (Value e))
    (omap (fun a => (fun kv => MkEnvPair (fst kv) (snd kv)) <$> splitEnvAssignment a) l) = false.
Proof.
  induction l as [|a l IH]; [done|]. cbn [check_assignments omap list_omap].
  destruct (splitEnvAssignment a) as [[k v]|]; [|done]. destruct (env_too_long k v) eqn:E; [done|].
  intros Hl. cbn. apply orb_false_iff. split; [exact E|]. by apply IH.
Qed.

Lemma omap_len {A B} (f : A -> option B) l : len (omap f l) <= len l.
Proof.
  induction l as [|a l IH]; [done|]. cbn [omap list_omap]. destruct (f a); rewrite ?len_cons; lia.
Qed.

Lemma bounds_validate c :
  validateExpandedSimpleCommandBounds c = Ok tt ->
  validateParsedCommand (parserCommandFromSimple c) = Ok tt.
Proof.
  unfold validateExpandedSimpleCommandBounds, validateParsedCommand, parserCommandFromSimple.
  cbn [Name Args Input.Envs]. destruct (MaxInputTokenBytes <? len (cmdName c)); [done|].
  destruct (MaxInputArgs <? len (cmdArgs c)); [done|]. destruct (existsb _ (cmdArgs c)); [done|].
  destruct (MaxInputArgs <? len (EnvAssignments c)) eqn:E; [done|]. intros Hc. bool_simp.
  rewrite (proj2 (Z.ltb_ge _ _)) by (etransitivity; [apply omap_len|exact E]).
  by rewrite check_assignments_envs.
Qed.

(** Expansion enforces every bound: a command that expands successfully
    passes [validateParsedCommand], so the "invalid input" error after the
    expansion, which would end the session, never occurs. *)
Lemma expanded_validates `{UnicodeTables} `{Host} r c st ex saved r' :
  cmdName c <> [] -> expandSimpleCommand r c st = (Ok (ex, saved), r') ->
  validateParsedCommand (parserCommandFromSimple ex) = Ok tt.
Proof.
  intros Hn E. apply bounds_validate. unfold expandSimpleCommand in E.
  rewrite (proj2 (gos_eqb_neq _ _) Hn) in E. destruct (applyCommandEnv r (EnvAssignments c)) as [r1 sv].
  destruct (expand_in_env r1 c st) as [x|] eqn:Ex; [|done]. injection E as -> _ _.
  unfold expand_in_env in Ex. destruct (expandCommandWords _ _ _) as [ws|]; [|done]. cbn in Ex.
  destruct ws as [|n a]; (destruct (expand_redirects _ _ _); [|done]); cbn [mbind result_bind] in Ex;
    destruct (validateExpandedSimpleCommandBounds _) as [[]|] eqn:Ev; try done; by injection Ex as <-.
Qed.


(** [PWD] is an ordinary variable: a bare assignment makes [pwd] print a
    relative, non-existing directory. *)
Lemma pwd_not_absolute :
  let _ := ascii_tables in let _ := quiet_host in
  let run line w := executeShellLine false (go line ++ [chNL]) 0 w in
  let w1 := snd (run "PWD=nowhere" (sh_world demo_shell)) in
  sent (snd (run "pwd" w1)) = go "nowhere" ++ [chNL].
Proof. vm_compute. reflexivity. Qed.
