(* ===== verification/SshWire.v ===== *)
(** * The SSH wire format: the codec of third/ssh/messages.go.

    The code walks the fields of a struct by reflection.  Here a struct type is
    its name, the [sshtype] tag of its first field and the list of its fields
    with their kinds; the value of a struct is the tuple of its fields, so a
    message of the wrong shape cannot be written down.  The kinds are those the
    messages use; the error branches for other Go types are unreachable for
    them and not translated.  [Marshal] and [Unmarshal] are
    the two loops over the fields.  Integers are [Z] with their width written
    out; a [big.Int] is a [Z].

    Proved: decoding inverts encoding, decoded values inhabit their Go types, and
    for structs without booleans and big integers encoding inverts decoding. *)
From Stdlib Require Import Ascii String ZArith Lia.
From stdpp Require Import base gmap strings list.
From S2P Require Import Prelude GoStrings.
Local Open Scope Z_scope.

(** ** Big-endian numbers *)

(** The low [n] bytes of [z]: [binary.BigEndian.PutUint32] for [n = 4], and so on. *)
Fixpoint be_bytes (n : nat) (z : Z) : gostring :=
  match n with
  | O => []
  | S k => be_bytes k (z / 256) ++ [vb z]
  end.

(** The number a byte string spells: [binary.BigEndian.Uint32] on four bytes,
    [big.Int.SetBytes] on any. *)
Definition be_value (s : gostring) : Z := fold_left (fun acc b => acc * 256 + bv b) s 0.

(** [big.Int.BitLen] and [big.Int.Bytes]: the minimal encoding of the absolute value. *)
Definition BitLen (n : Z) : Z := if n =? 0 then 0 else Z.log2 (Z.abs n) + 1.
Definition BigBytes (n : Z) : gostring := be_bytes (Z.to_nat ((BitLen n + 7) / 8)) (Z.abs n).

Definition appendU32 (buf : gostring) (n : Z) : gostring := buf ++ be_bytes 4 n.
Definition appendU64 (buf : gostring) (n : Z) : gostring := buf ++ be_bytes 8 n.
Definition appendInt (buf : gostring) (n : Z) : gostring := appendU32 buf (n mod 2 ^ 32).

(** ** Parsing of single values *)
Definition parseUint32 (data : gostring) : option (Z * gostring) :=
  if len data <? 4 then None else Some (be_value (take 4 data), drop 4 data).
Definition parseUint64 (data : gostring) : option (Z * gostring) :=
  if len data <? 8 then None else Some (be_value (take 8 data), drop 8 data).

Definition parseString (data : gostring) : option (gostring * gostring) :=
  if len data <? 4 then None
  else
    let length := be_value (take 4 data) in
    let data := drop 4 data in
    if len data mod 2 ^ 32 <? length then None
    else Some (take (Z.to_nat length) data, drop (Z.to_nat length) data).

Definition parseNameList (data : gostring) : option (list gostring * gostring) :=
  match parseString data with
  | None => None
  | Some (contents, rest) =>
      if len contents =? 0 then Some ([], rest) else Some (Split contents ","%char, rest)
  end.

(** [^b] and [b ^ 0xff]. *)
Definition not_byte (b : ascii) : ascii := vb (Z.lxor (bv b) 255).
(** [b & 0x80 != 0]. *)
Definition high_bit (b : ascii) : bool := Z.land (bv b) 128 =? 128.
Definition first_high (s : gostring) : bool :=
  match s with [] => false | b :: _ => high_bit b end.

Definition parseInt (data : gostring) : option (Z * gostring) :=
  match parseString data with
  | None => None
  | Some (contents, rest) =>
      if first_high contents then Some (- (be_value (map not_byte contents) + 1), rest)
      else Some (be_value contents, rest)
  end.

(** ** Big integers *)
Definition intLength (n : Z) : Z :=
  let length := 4 in
  if n <? 0 then
    let nMinus1 := - n - 1 in
    let bitLen := BitLen nMinus1 in
    let length := if bitLen mod 8 =? 0 then length + 1 else length in
    length + (bitLen + 7) / 8
  else if n =? 0 then length
  else
    let bitLen := BitLen n in
    let length := if bitLen mod 8 =? 0 then length + 1 else length in
    length + (bitLen + 7) / 8.

(** The padding byte, if any, and the bytes that [marshalInt] writes. *)
Definition int_contents (n : Z) : gostring * gostring :=
  if n <? 0 then
    let bytes := map not_byte (BigBytes (- n - 1)) in
    (if (len bytes =? 0) || negb (first_high bytes) then [vb 255] else [], bytes)
  else if n =? 0 then ([], [])
  else
    let bytes := BigBytes n in
    (if first_high bytes then [vb 0] else [], bytes).

(** [marshalInt] overwrites a prefix of the slice [to]: the result is that
    prefix and the rest of the slice, [None] an index out of range.  [copy]
    stops silently at the end of the slice. *)
Definition marshalInt (to : gostring) (n : Z) : option (gostring * gostring) :=
  if len to <? 4 then None
  else
    let to := drop 4 to in
    let '(pad, bytes) := int_contents n in
    if len to <? len pad then None
    else
      let to := drop (length pad) to in
      let nBytes := Nat.min (length to) (length bytes) in
      Some (be_bytes 4 (len pad + Z.of_nat nBytes) ++ pad ++ take nBytes bytes, drop nBytes to).

(** The branch of [marshalStruct]: a slice of [intLength] bytes, filled in. *)
Definition append_big_int (n : Z) : gostring :=
  match marshalInt (repeat chNUL (Z.to_nat (intLength n))) n with
  | Some (w, rest) => w ++ rest
  | None => []
  end.

(** ** Struct types *)
Inductive kind :=
| KBool
| KArray (n : nat)   (* [n]byte *)
| KUint64
| KUint32
| KUint8
| KString
| KBytes             (* []byte *)
| KRest              (* []byte with the tag ssh:rest *)
| KNames             (* []string *)
| KBigInt.

Definition denote (k : kind) : Type :=
  match k with
  | KBool => bool
  | KUint64 | KUint32 | KUint8 | KBigInt => Z
  | KNames => list gostring
  | KArray _ | KString | KBytes | KRest => gostring
  end.

Definition field : Type := gostring * kind.
Record structType := MkStruct { st_name : gostring; st_sshtype : gostring; st_fields : list field }.

Fixpoint denotes (fs : list field) : Type :=
  match fs with
  | [] => unit
  | f :: fs => (denote (snd f) * denotes fs)%type
  end.

Fixpoint type_tags (tags : list gostring) : list Z :=
  match tags with
  | [] => []
  | tag :: tags => match Atoi tag with Some i => i mod 256 :: type_tags tags | None => type_tags tags end
  end.
Definition typeTags (st : structType) : list Z := type_tags (Split (st_sshtype st) "|"%char).

(** ** Errors *)
Definition errShortRead : error := errors_New (go "ssh: short read").
Definition fieldError (st : structType) (name problem : gostring) : error :=
  let problem := if problem =s [] then [] else go ": " ++ problem in
  errors_New (go "ssh: unmarshal error for field " ++ name ++ go " of type " ++ st_name st ++ problem).
Definition parseError (tag : Z) : error := errors_New (go "ssh: parse error in message type " ++ Itoa tag).
Definition unexpectedMessageError (expected got : Z) : error :=
  errors_New (go "ssh: unexpected message type " ++ Itoa got ++ go " (expected " ++ Itoa expected ++ go ")").
Definition unexpected_one_of (got : Z) (expected : list Z) : error :=
  errors_New (go "ssh: unexpected message type " ++ Itoa got ++ go " (expected one of ["
              ++ Join (map Itoa expected) (go " ") ++ go "])").

(** ** Unmarshal *)
Definition short_read {A} (o : option A) : res A :=
  match o with Some x => Ok x | None => Err errShortRead end.

Definition unmarshal_field (st : structType) (name : gostring) (k : kind) (data : gostring) :
    res (denote k * gostring) :=
  match k return res (denote k * gostring) with
  | KBool => match data with [] => Err errShortRead | b :: data => Ok (negb (bv b =? 0), data) end
  | KArray n => if len data <? Z.of_nat n then Err errShortRead else Ok (take n data, drop n data)
  | KUint64 => short_read (parseUint64 data)
  | KUint32 => short_read (parseUint32 data)
  | KUint8 => match data with [] => Err errShortRead | b :: data => Ok (bv b, data) end
  | KString => match parseString data with
               | Some x => Ok x
               | None => Err (fieldError st name [])
               end
  | KBytes => short_read (parseString data)
  | KRest => Ok (data, [])
  | KNames => short_read (parseNameList data)
  | KBigInt => short_read (parseInt data)
  end.

Fixpoint unmarshal_fields (st : structType) (fs : list field) (data : gostring) : res (denotes fs * gostring) :=
  match fs return res (denotes fs * gostring) with
  | [] => Ok (tt, data)
  | f :: fs =>
      v ← unmarshal_field st (fst f) (snd f) data;
      vs ← unmarshal_fields st fs (snd v);
      Ok ((fst v, fst vs), snd vs)
  end.

Definition Unmarshal (st : structType) (data : gostring) : res (denotes (st_fields st)) :=
  let expectedTypes := typeTags st in
  let expectedType := default 0 (head expectedTypes) in
  match data with
  | [] => Err (parseError expectedType)
  | d0 :: data' =>
      data ← match expectedTypes with
             | [] => Ok data
             | _ => if existsb (fun e => (0 <? e) && (bv d0 =? e)) expectedTypes then Ok data'
                    else Err (unexpected_one_of (bv d0) expectedTypes)
             end;
      vs ← unmarshal_fields st (st_fields st) data;
      if len (snd vs) =? 0 then Ok (fst vs) else Err (parseError expectedType)
  end.

(** ** Marshal *)
Definition marshal_field (k : kind) : denote k -> gostring :=
  match k return denote k -> gostring with
  | KBool => fun b : bool => [vb (if b then 1 else 0)]
  | KArray _ => fun a : gostring => a
  | KUint64 => fun n : Z => appendU64 [] n
  | KUint32 => fun n : Z => appendU32 [] n
  | KUint8 => fun n : Z => [vb n]
  | KString | KBytes => fun s : gostring => appendInt [] (len s) ++ s
  | KRest => fun s : gostring => s
  | KNames => fun l : list gostring =>
      let contents := Join l (go ",") in appendInt [] (len contents) ++ contents
  | KBigInt => append_big_int
  end.

Fixpoint marshal_fields (fs : list field) : denotes fs -> gostring :=
  match fs return denotes fs -> gostring with
  | [] => fun _ => []
  | f :: fs => fun vs => marshal_field (snd f) (fst vs) ++ marshal_fields fs (snd vs)
  end.

Definition Marshal (st : structType) (vs : denotes (st_fields st)) : gostring :=
  match typeTags st with [] => [] | t :: _ => [vb t] end ++ marshal_fields (st_fields st) vs.

(** ** Well-formed values *)

(** The values of the Go type that the format can represent: a list of names
    is written with commas, so no name has one, and the list of one empty name
    is written like the empty list. *)
Definition wf_value (k : kind) : denote k -> Prop :=
  match k return denote k -> Prop with
  | KArray n => fun a : gostring => length a = n
  | KUint64 => fun n : Z => 0 <= n < 2 ^ 64
  | KUint32 => fun n : Z => 0 <= n < 2 ^ 32
  | KUint8 => fun n : Z => 0 <= n < 2 ^ 8
  | KNames => fun l : list gostring => Forall (fun s => ","%char ∉ s) l /\ l <> [[]]
  | _ => fun _ => True
  end.
Fixpoint wf_values (fs : list field) : denotes fs -> Prop :=
  match fs return denotes fs -> Prop with
  | [] => fun _ => True
  | f :: fs => fun vs => wf_value (snd f) (fst vs) /\ wf_values fs (snd vs)
  end.

(** A field that takes the rest of the packet is the last one. *)
Fixpoint rest_last (fs : list field) : bool :=
  match fs with
  | [] => true
  | [_] => true
  | f :: fs => match snd f with KRest => false | _ => true end && rest_last fs
  end.
(** The tags of a struct type name one message number, or none for payloads,
    which then have a field. *)
Definition good_tags (st : structType) : bool :=
  match typeTags st with
  | [] => match st_fields st with f :: _ => match snd f with KRest => false | KArray O => false | _ => true end | [] => false end
  | t :: _ => (0 <? t) && (t <? 256)
  end.

(** ** Numbers *)
Lemma bv_vb_mod z : bv (vb z) = z mod 256.
Proof.
  pose proof (Z.mod_pos_bound z 256 ltac:(lia)).
  assert (vb z = vb (z mod 256)) as -> by (unfold vb; by rewrite Z.mod_mod). by apply bv_vb.
Qed.

Lemma be_bytes_length n z : length (be_bytes n z) = n.
Proof. revert z. induction n as [|n IH]; intros z; [done|]. cbn [be_bytes]. rewrite length_app, IH. cbn. lia. Qed.

Lemma be_value_snoc s b : be_value (s ++ [b]) = be_value s * 256 + bv b.
Proof. unfold be_value. by rewrite fold_left_app. Qed.

Lemma be_value_range s : 0 <= be_value s < 256 ^ len s.
Proof.
  induction s as [|b s IH] using rev_ind; [by vm_compute|]. rewrite be_value_snoc, len_snoc.
  rewrite Z.pow_add_r by (unfold len; lia). change (256 ^ 1) with 256. pose proof (bv_range b). lia.
Qed.

Lemma be_value_bytes n z : be_value (be_bytes n z) = z mod 256 ^ Z.of_nat n.
Proof.
  revert z. induction n as [|n IH]; intros z; [cbn; by rewrite Z.mod_1_r|].
  cbn [be_bytes]. rewrite be_value_snoc, IH, bv_vb_mod.
  replace (Z.of_nat (S n)) with (1 + Z.of_nat n) by lia. rewrite Z.pow_add_r by lia.
  change (256 ^ 1) with 256. rewrite Z.rem_mul_r by lia. lia.
Qed.

Lemma vb_mod z : vb (z mod 256) = vb z.
Proof. unfold vb. by rewrite Z.mod_mod. Qed.

Lemma be_bytes_value s : be_bytes (length s) (be_value s) = s.
Proof.
  induction s as [|b s IH] using rev_ind; [done|]. rewrite length_app, Nat.add_comm. cbn [length Nat.add be_bytes].
  rewrite be_value_snoc. pose proof (bv_range b).
  rewrite Z.div_add_l, Z.div_small, Z.add_0_r by lia. rewrite IH. f_equal.
  rewrite <- vb_mod, Z.add_comm, Z.mod_add, vb_mod by lia. by rewrite vb_bv.
Qed.

Lemma be_bytes_take n s : length (take n s) = n -> be_bytes n (be_value (take n s)) = take n s.
Proof. intros H. pose proof (be_bytes_value (take n s)) as E. by rewrite H in E. Qed.

Lemma be_value_pad s : be_value (vb 0 :: s) = be_value s.
Proof. done. Qed.

(** A property of bytes is checked on all of them. *)
Lemma all_bytes (f : ascii -> bool) : forallb f (map vb (map Z.of_nat (seq 0 256))) = true -> forall b, f b = true.
Proof.
  rewrite forallb_Forall, Forall_forall. intros H b. rewrite <- (vb_bv b). pose proof (bv_range b). apply H.
  apply list_elem_of_fmap. exists (bv b). split; [done|]. apply list_elem_of_fmap. exists (Z.to_nat (bv b)).
  split; [lia|]. apply elem_of_seq. lia.
Qed.

Lemma bv_not_byte b : bv (not_byte b) = 255 - bv b.
Proof. apply Z.eqb_eq. revert b. apply all_bytes. vm_compute. reflexivity. Qed.
Lemma high_bit_spec b : high_bit b = (128 <=? bv b).
Proof. apply eqb_prop. revert b. apply all_bytes. vm_compute. reflexivity. Qed.

Lemma not_byte_involutive b : not_byte (not_byte b) = b.
Proof. apply bv_inj. rewrite !bv_not_byte. lia. Qed.

Lemma be_value_not s : be_value (map not_byte s) = 256 ^ len s - 1 - be_value s.
Proof.
  induction s as [|b s IH] using rev_ind; [done|].
  rewrite map_app. cbn [map]. rewrite !be_value_snoc, IH, bv_not_byte, len_snoc.
  rewrite Z.pow_add_r by (unfold len; lia). change (256 ^ 1) with 256. lia.
Qed.

Lemma BitLen_bound n : 0 <= n -> n < 2 ^ BitLen n /\ (0 < n -> 2 ^ (BitLen n - 1) <= n) /\ 0 <= BitLen n.
Proof.
  intros Hn. unfold BitLen. destruct (Z.eqb_spec n 0) as [->|Hne]; [cbn; lia|].
  rewrite Z.abs_eq by done. pose proof (Z.log2_spec n ltac:(lia)) as [H1 H2]. pose proof (Z.log2_nonneg n).
  replace (Z.log2 n + 1 - 1) with (Z.log2 n) by lia. change (Z.succ (Z.log2 n)) with (Z.log2 n + 1) in *. lia.
Qed.

Lemma pow256 k : 0 <= k -> 256 ^ k = 2 ^ (8 * k).
Proof. intros. rewrite Z.pow_mul_r by lia. done. Qed.

Lemma BigBytes_length n : len (BigBytes n) = (BitLen n + 7) / 8.
Proof.
  unfold BigBytes, len. rewrite be_bytes_length. apply Z2Nat.id. apply Z.div_pos; [|lia].
  unfold BitLen. pose proof (Z.log2_nonneg (Z.abs n)). destruct (n =? 0); lia.
Qed.

Lemma BigBytes_value n : 0 <= n -> be_value (BigBytes n) = n.
Proof.
  intros Hn. pose proof (BigBytes_length n) as HL. unfold BigBytes in *. rewrite be_value_bytes.
  unfold len in HL. rewrite be_bytes_length in HL. rewrite HL, Z.abs_eq by done.
  destruct (BitLen_bound n Hn) as (H1 & _ & H3). apply Z.mod_small. split; [done|].
  eapply Z.lt_le_trans; [exact H1|]. rewrite pow256 by (apply Z.div_pos; lia).
  apply Z.pow_le_mono_r; [lia|]. pose proof (Z.div_mod (BitLen n + 7) 8 ltac:(lia)).
  pose proof (Z.mod_pos_bound (BitLen n + 7) 8 ltac:(lia)). lia.
Qed.

Lemma be_value_cons b s : be_value (b :: s) = bv b * 256 ^ len s + be_value s.
Proof.
  induction s as [|c s IH] using rev_ind; [unfold be_value, len; cbn [fold_left length]; cbn; lia|].
  change (b :: s ++ [c]) with ((b :: s) ++ [c]). rewrite !be_value_snoc, IH, len_snoc.
  rewrite Z.pow_add_r by (unfold len; lia). change (256 ^ 1) with 256. lia.
Qed.

Lemma BigBytes_first n : 0 < n -> exists b s, BigBytes n = b :: s /\ (128 <= bv b <-> BitLen n mod 8 = 0).
Proof.
  intros Hn. pose proof (BigBytes_length n) as HL. pose proof (BigBytes_value n ltac:(lia)) as HV.
  destruct (BitLen_bound n ltac:(lia)) as (H1 & H2 & H3). specialize (H2 Hn).
  assert (1 <= BitLen n) as HB. { destruct (Z.eq_dec (BitLen n) 0) as [E|]; [rewrite E in H1; cbn in H1; lia|lia]. }
  pose proof (Z.div_mod (BitLen n + 7) 8 ltac:(lia)). pose proof (Z.mod_pos_bound (BitLen n + 7) 8 ltac:(lia)).
  destruct (BigBytes n) as [|b s]; [rewrite len_nil in HL; lia|]. exists b, s. split; [done|].
  rewrite len_cons in HL. rewrite be_value_cons in HV. pose proof (be_value_range s). pose proof (len_nonneg s).
  set (k := len s) in *. rewrite pow256 in * by lia.
  pose proof (Z.div_mod (BitLen n) 8 ltac:(lia)). pose proof (Z.mod_pos_bound (BitLen n) 8 ltac:(lia)).
  assert (0 < 2 ^ (8 * k)) by (apply Z.pow_pos_nonneg; lia).
  assert (2 ^ (8 * k + 7) = 128 * 2 ^ (8 * k)) as HP7 by (rewrite Z.pow_add_r by lia; change (2 ^ 7) with 128; lia).
  split; intros Hb.
  - assert (BitLen n = 8 * k + 8); [|lia].
    assert (8 * k + 7 < BitLen n); [|lia]. apply (Z.pow_lt_mono_r_iff 2); [lia..|]. nia.
  - assert (BitLen n - 1 = 8 * k + 7) as E by lia. rewrite E, HP7 in H2. nia.
Qed.

Lemma first_high_BigBytes n : 0 < n -> first_high (BigBytes n) = (BitLen n mod 8 =? 0).
Proof.
  intros Hn. destruct (BigBytes_first n Hn) as (b & s & -> & H). cbn [first_high]. rewrite high_bit_spec.
  apply eq_bool_prop_intro. rewrite !Is_true_true, Z.leb_le, Z.eqb_eq. exact H.
Qed.

Lemma first_high_not s : s <> [] -> first_high (map not_byte s) = negb (first_high s).
Proof.
  destruct s as [|b s]; [done|]. intros _. cbn [map first_high]. rewrite !high_bit_spec, bv_not_byte.
  pose proof (bv_range b). apply eq_bool_prop_intro. rewrite negb_True, !Is_true_true, !Z.leb_le. lia.
Qed.

Lemma int_contents_length n : len (fst (int_contents n)) + len (snd (int_contents n)) + 4 = intLength n.
Proof.
  unfold int_contents, intLength. destruct (Z.ltb_spec n 0) as [Hn|Hn].
  - set (m := - n - 1). cbn [fst snd].
    assert (len (map not_byte (BigBytes m)) = len (BigBytes m)) as HL by (unfold len; by rewrite length_map).
    rewrite HL, BigBytes_length. destruct (Z.eq_dec m 0) as [->|Hm]; [done|].
    rewrite first_high_not, first_high_BigBytes, negb_involutive by
      (try lia; intros E; apply (f_equal len) in E; destruct (BigBytes_first m ltac:(lia)) as (? & ? & E' & _);
       rewrite E' in E; rewrite len_cons, len_nil in E; pose proof (len_nonneg x0); lia).
    rewrite <- BigBytes_length. destruct (BigBytes_first m ltac:(lia)) as (b & s & -> & _).
    rewrite len_cons. pose proof (len_nonneg s). rewrite (proj2 (Z.eqb_neq _ _)) by lia. cbn [orb].
    destruct (_ =? 0); cbn [len length]; change (len [vb 255]) with 1; change (len (@nil ascii)) with 0; lia.
  - destruct (Z.eqb_spec n 0) as [->|Hz]; [done|]. cbn [fst snd].
    rewrite first_high_BigBytes, BigBytes_length by lia.
    destruct (_ =? 0); change (len [vb 0]) with 1; change (len (@nil ascii)) with 0; lia.
Qed.

(** The value [parseInt] reads from the contents [marshalInt] writes. *)
Definition contents_value (s : gostring) : Z :=
  if first_high s then - (be_value (map not_byte s) + 1) else be_value s.

Lemma int_contents_value n : contents_value (fst (int_contents n) ++ snd (int_contents n)) = n.
Proof.
  unfold int_contents, contents_value. destruct (Z.ltb_spec n 0) as [Hn|Hn].
  - set (m := - n - 1). cbn [fst snd]. pose proof (BigBytes_value m ltac:(lia)) as HV.
    set (bs := BigBytes m) in *.
    assert (map not_byte (map not_byte bs) = bs) as Hi.
    { clear. induction bs as [|b bs IH]; [done|]. cbn [map]. by rewrite not_byte_involutive, IH. }
    destruct ((len (map not_byte bs) =? 0) || negb (first_high (map not_byte bs))) eqn:E.
    + cbn [app first_high]. change (high_bit (vb 255)) with true. cbn [map].
      change (not_byte (vb 255)) with (vb 0). rewrite be_value_pad, Hi. lia.
    + apply orb_false_iff in E as [_ E]. apply negb_false_iff in E. cbn [app]. rewrite E, Hi. lia.
  - destruct (Z.eqb_spec n 0) as [->|Hz]; [done|]. cbn [fst snd].
    pose proof (BigBytes_value n ltac:(lia)) as HV. destruct (first_high (BigBytes n)) eqn:E.
    + cbn [app first_high]. change (high_bit (vb 0)) with false. by rewrite be_value_pad.
    + cbn [app]. by rewrite E.
Qed.

(** The slice that [marshalStruct] reserves is exactly filled: no index is out
    of range, nothing is cut off and no byte of the slice is left over. *)
Lemma marshalInt_fits to n :
  len to = intLength n ->
  marshalInt to n = Some (be_bytes 4 (intLength n - 4) ++ fst (int_contents n) ++ snd (int_contents n), []).
Proof.
  intros HT. pose proof (int_contents_length n) as HL. unfold marshalInt. rewrite HT.
  destruct (int_contents n) as [pad bytes]. cbn [fst snd] in *.
  pose proof (len_nonneg pad). pose proof (len_nonneg bytes).
  rewrite (proj2 (Z.ltb_ge (intLength n) 4)) by lia.
  assert (len (drop 4 to) = len pad + len bytes) as HD by (unfold len in *; rewrite length_drop; lia).
  rewrite HD, (proj2 (Z.ltb_ge (len pad + len bytes) (len pad))) by lia.
  assert (length (drop (length pad) (drop 4 to)) = length bytes) as HE.
  { rewrite length_drop. unfold len in HD. lia. }
  rewrite HE, Nat.min_id, take_ge by lia. rewrite (drop_ge (drop _ _)) by lia.
  do 4 f_equal. unfold len in HL |- *. lia.
Qed.

Lemma append_big_int_eq n :
  append_big_int n = be_bytes 4 (intLength n - 4) ++ fst (int_contents n) ++ snd (int_contents n).
Proof.
  unfold append_big_int. rewrite marshalInt_fits; [by rewrite app_nil_r|].
  unfold len. rewrite repeat_length. apply Z2Nat.id. rewrite <- int_contents_length.
  pose proof (len_nonneg (fst (int_contents n))). pose proof (len_nonneg (snd (int_contents n))). lia.
Qed.

(** ** Decoding inverts encoding *)
Lemma appendInt_eq n : 0 <= n < 2 ^ 32 -> appendInt [] n = be_bytes 4 n.
Proof. intros Hn. unfold appendInt, appendU32. by rewrite Z.mod_small. Qed.

Lemma take_be n z rest : take n (be_bytes n z ++ rest) = be_bytes n z.
Proof. rewrite <- (be_bytes_length n z) at 1. apply take_app_length. Qed.
Lemma drop_be n z rest : drop n (be_bytes n z ++ rest) = rest.
Proof. rewrite <- (be_bytes_length n z) at 1. apply drop_app_length. Qed.
Lemma len_be n z rest : len (be_bytes n z ++ rest) = Z.of_nat n + len rest.
Proof. rewrite len_app. unfold len at 1. by rewrite be_bytes_length. Qed.

Lemma parseUint32_be n rest : 0 <= n < 2 ^ 32 -> parseUint32 (be_bytes 4 n ++ rest) = Some (n, rest).
Proof.
  intros Hn. unfold parseUint32. rewrite len_be, take_be, drop_be, be_value_bytes. pose proof (len_nonneg rest).
  rewrite (proj2 (Z.ltb_ge _ _)) by lia. by rewrite Z.mod_small.
Qed.
Lemma parseUint64_be n rest : 0 <= n < 2 ^ 64 -> parseUint64 (be_bytes 8 n ++ rest) = Some (n, rest).
Proof.
  intros Hn. unfold parseUint64. rewrite len_be, take_be, drop_be, be_value_bytes. pose proof (len_nonneg rest).
  rewrite (proj2 (Z.ltb_ge _ _)) by lia. by rewrite Z.mod_small.
Qed.

Lemma parseString_be s rest :
  len s + len rest < 2 ^ 32 -> parseString (be_bytes 4 (len s) ++ s ++ rest) = Some (s, rest).
Proof.
  intros Hl. pose proof (len_nonneg s). pose proof (len_nonneg rest). unfold parseString.
  rewrite len_be, take_be, drop_be, be_value_bytes, len_app. change (256 ^ Z.of_nat 4) with (2 ^ 32).
  rewrite (proj2 (Z.ltb_ge _ _)) by lia. rewrite !Z.mod_small by lia. rewrite (proj2 (Z.ltb_ge _ _)) by lia.
  unfold len. by rewrite Nat2Z.id, take_app_length, drop_app_length.
Qed.

Lemma parseString_append s rest :
  len s + len rest < 2 ^ 32 -> parseString ((appendInt [] (len s) ++ s) ++ rest) = Some (s, rest).
Proof.
  intros Hl. pose proof (len_nonneg s). pose proof (len_nonneg rest).
  rewrite appendInt_eq, <- app_assoc by lia. by apply parseString_be.
Qed.

Lemma parseNameList_append l rest :
  Forall (fun s => ","%char ∉ s) l -> l <> [[]] -> len (Join l (go ",")) + len rest < 2 ^ 32 ->
  parseNameList ((appendInt [] (len (Join l (go ","))) ++ Join l (go ",")) ++ rest) = Some (l, rest).
Proof.
  intros Hc Hne Hl. unfold parseNameList. rewrite parseString_append by exact Hl.
  destruct l as [|x l]; [done|].
  assert (Join (x :: l) (go ",") <> []) as HJ.
  { destruct l as [|y l]; [cbn [Join]; congruence|]. rewrite Join_cons by done.
    intros E. apply app_eq_nil in E as [_ E]. done. }
  destruct (Join (x :: l) (go ",")) as [|j js] eqn:E; [done|]. rewrite len_cons. pose proof (len_nonneg js).
  rewrite (proj2 (Z.eqb_neq _ _)) by lia. rewrite <- E. change (go ",") with [","%char]. by rewrite (Split_Join (x :: l) ","%char).
Qed.

Lemma parseInt_append n rest :
  len (append_big_int n) + len rest < 2 ^ 32 -> parseInt (append_big_int n ++ rest) = Some (n, rest).
Proof.
  rewrite append_big_int_eq. intros Hl. unfold parseInt.
  pose proof (int_contents_length n) as HL. pose proof (int_contents_value n) as HV.
  rewrite <- len_app in HL. set (c := fst (int_contents n) ++ snd (int_contents n)) in *.
  assert (intLength n - 4 = len c) as HE by lia. rewrite HE in *. rewrite len_be in Hl.
  rewrite <- app_assoc, parseString_be by lia. unfold contents_value in HV. by destruct (first_high c); rewrite HV.
Qed.

Lemma unmarshal_marshal_field st name k v rest :
  wf_value k v -> (k = KRest -> rest = []) -> len (marshal_field k v) + len rest < 2 ^ 32 ->
  unmarshal_field st name k (marshal_field k v ++ rest) = Ok (v, rest).
Proof.
  intros Hw Hr Hl. destruct k; cbn [marshal_field unmarshal_field denote wf_value] in *.
  - by destruct v.
  - rewrite len_app. pose proof (len_nonneg rest). unfold len at 1. rewrite Hw, (proj2 (Z.ltb_ge _ _)) by lia.
    by rewrite <- Hw, take_app_length, drop_app_length.
  - unfold appendU64. cbn [app]. by rewrite parseUint64_be.
  - unfold appendU32. cbn [app]. by rewrite parseUint32_be.
  - cbn [app]. by rewrite bv_vb.
  - rewrite len_app in Hl. rewrite parseString_append; [done|]. pose proof (len_nonneg (appendInt [] (len v))). lia.
  - rewrite len_app in Hl. rewrite parseString_append; [done|]. pose proof (len_nonneg (appendInt [] (len v))). lia.
  - by rewrite Hr, app_nil_r.
  - destruct Hw as [Hc Hne]. rewrite len_app in Hl. rewrite parseNameList_append; [done..|].
    pose proof (len_nonneg (appendInt [] (len (Join v (go ","))))). lia.
  - by rewrite parseInt_append.
Qed.

Lemma unmarshal_marshal_fields st fs vs :
  rest_last fs = true -> wf_values fs vs -> len (marshal_fields fs vs) < 2 ^ 32 ->
  unmarshal_fields st fs (marshal_fields fs vs) = Ok (vs, []).
Proof.
  induction fs as [|f fs IH]; intros Hr Hw Hl; [by destruct vs|]. destruct vs as [v vs]. destruct Hw as [Hv Hw].
  cbn [marshal_fields unmarshal_fields fst snd] in *. rewrite len_app in Hl.
  pose proof (len_nonneg (marshal_field (snd f) v)). pose proof (len_nonneg (marshal_fields fs vs)).
  rewrite unmarshal_marshal_field; [|done| |lia].
  - cbn [mbind result_bind fst snd]. rewrite IH; [done| |done|lia].
    destruct fs; [done|]. cbn [rest_last] in Hr. by apply andb_true_iff in Hr as [_ Hr].
  - intros E. destruct fs; [done|]. cbn [rest_last] in Hr. by rewrite E in Hr.
Qed.

(** The general law behind the round trips of messages. *)
Lemma Unmarshal_Marshal st vs :
  rest_last (st_fields st) = true -> good_tags st = true -> wf_values (st_fields st) vs ->
  len (Marshal st vs) < 2 ^ 32 -> Unmarshal st (Marshal st vs) = Ok vs.
Proof.
  intros Hr Hg Hw Hl. unfold Marshal, Unmarshal, good_tags in *. destruct (typeTags st) as [|t ts].
  - cbn [app] in *. pose proof (unmarshal_marshal_fields st _ vs Hr Hw Hl) as HU.
    destruct (marshal_fields (st_fields st) vs) as [|d ds] eqn:E.
    + destruct (st_fields st) as [|f fs]; [done|]. destruct vs as [v vs]. cbn [marshal_fields fst snd] in E.
      apply app_eq_nil in E as [E _]. exfalso.
      destruct f as [nm []]; try done; cbn [marshal_field snd] in E; try discriminate E; destruct Hw as [Hw _]; cbn in Hw.
      destruct n; [done|]. by rewrite E in Hw.
    + cbn [mbind result_bind]. by rewrite HU.
  - cbn [app default head]. bool_simp. cbn [existsb]. rewrite bv_vb by lia. rewrite Z.eqb_refl.
    rewrite (proj2 (Z.ltb_lt 0 t)) by lia. cbn [andb orb mbind result_bind].
    rewrite len_app in Hl. change (len [vb t]) with 1 in Hl.
    rewrite unmarshal_marshal_fields by (done || lia). done.
Qed.

(** ** Encoding inverts decoding *)

(** The kinds with one encoding per value: a boolean is true for every byte but
    zero, and a big integer may have superfluous leading bytes. *)
Definition exact_kind (k : kind) : bool := match k with KBool | KBigInt => false | _ => true end.
Definition exact_fields (fs : list field) : bool := forallb (fun f => exact_kind (snd f)) fs.

Lemma parseString_inv data s rest :
  parseString data = Some (s, rest) -> data = (appendInt [] (len s) ++ s) ++ rest /\ 0 <= len s < 2 ^ 32.
Proof.
  unfold parseString. destruct (Z.ltb_spec (len data) 4) as [|H4]; [done|]. cbv zeta.
  pose proof (be_value_range (take 4 data)) as HR.
  assert (length (take 4 data) = 4%nat) as HT by (rewrite length_take; unfold len in H4; lia).
  unfold len in HR. rewrite HT in HR. change (256 ^ Z.of_nat 4) with (2 ^ 32) in HR.
  destruct (Z.ltb_spec (len (drop 4 data) mod 2 ^ 32) (be_value (take 4 data))) as [|HL]; [done|].
  intros [= <- <-]. pose proof (Z.mod_le (len (drop 4 data)) (2 ^ 32) (len_nonneg _) ltac:(lia)).
  assert (len (take (Z.to_nat (be_value (take 4 data))) (drop 4 data)) = be_value (take 4 data)) as ->.
  { unfold len in *. rewrite length_take. lia. }
  split; [|done]. rewrite appendInt_eq by done.
  by rewrite <- app_assoc, take_drop, be_bytes_take, take_drop.
Qed.

Lemma parseUint_inv n data : Z.of_nat n <= len data ->
  data = be_bytes n (be_value (take n data)) ++ drop n data /\ 0 <= be_value (take n data) < 256 ^ Z.of_nat n.
Proof.
  intros Hn. assert (length (take n data) = n) as HT by (rewrite length_take; unfold len in Hn; lia).
  pose proof (be_value_range (take n data)) as HR. unfold len in HR. rewrite HT in HR. split; [|done].
  by rewrite be_bytes_take, take_drop.
Qed.

Lemma parseNameList_inv data l rest :
  parseNameList data = Some (l, rest) ->
  wf_value KNames l /\ data = marshal_field KNames l ++ rest.
Proof.
  unfold parseNameList. destruct (parseString data) as [[c r]|] eqn:E; [|done].
  apply parseString_inv in E as [E _]. destruct (Z.eqb_spec (len c) 0) as [Hc|Hc].
  - destruct c; [|rewrite len_cons in Hc; pose proof (len_nonneg c); lia]. intros [= <- <-].
    split; [by split; [constructor|]|]. exact E.
  - intros [= <- <-]. cbn [wf_value marshal_field]. change (go ",") with [","%char]. rewrite Join_Split.
    split; [|exact E]. split; [apply Split_Forall|]. intros HE. apply Hc.
    by rewrite <- (Join_Split c ","%char), HE.
Qed.

Lemma unmarshal_field_inv st name k data v rest :
  unmarshal_field st name k data = Ok (v, rest) ->
  wf_value k v /\ (exact_kind k = true -> data = marshal_field k v ++ rest).
Proof.
  unfold short_read. destruct k; cbn [unmarshal_field wf_value marshal_field exact_kind denote] in *.
  - destruct data; [done|]. intros [= <- <-]. done.
  - destruct (Z.ltb_spec (len data) (Z.of_nat n)) as [|Hn]; [done|]. intros [= <- <-].
    split; [rewrite length_take; unfold len in Hn; lia|]. by rewrite take_drop.
  - unfold parseUint64. destruct (Z.ltb_spec (len data) 8) as [|H8]; [done|]. intros [= <- <-].
    apply (parseUint_inv 8) in H8 as [H1 H2]. split; [exact H2|]. by intros _.
  - unfold parseUint32. destruct (Z.ltb_spec (len data) 4) as [|H4]; [done|]. intros [= <- <-].
    apply (parseUint_inv 4) in H4 as [H1 H2]. split; [exact H2|]. by intros _.
  - destruct data as [|b data]; [done|]. intros [= <- <-]. split; [apply bv_range|]. by rewrite vb_bv.
  - destruct (parseString data) as [[s r]|] eqn:E; [|done]. intros [= <- <-].
    by apply parseString_inv in E as [E _].
  - destruct (parseString data) as [[s r]|] eqn:E; [|done]. intros [= <- <-].
    by apply parseString_inv in E as [E _].
  - intros [= <- <-]. by rewrite app_nil_r.
  - destruct (parseNameList data) as [[s r]|] eqn:E; [|done]. intros [= <- <-].
    apply parseNameList_inv in E as [H1 H2]. by split.
  - destruct (parseInt data); [|done]. by intros [= ->].
Qed.

Lemma unmarshal_fields_inv st fs data vs rest :
  unmarshal_fields st fs data = Ok (vs, rest) ->
  wf_values fs vs /\ (exact_fields fs = true -> data = marshal_fields fs vs ++ rest).
Proof.
  revert data vs. induction fs as [|f fs IH]; intros data vs; cbn [unmarshal_fields].
  { intros [= <- <-]. done. }
  destruct (unmarshal_field st (fst f) (snd f) data) as [[v r]|] eqn:E; [|done]. cbn [mbind result_bind fst snd].
  destruct (unmarshal_fields st fs r) as [[ws r']|] eqn:E'; [|done]. cbn [mbind result_bind fst snd].
  intros [= <- <-]. apply unmarshal_field_inv in E as [H1 H2]. apply IH in E' as [H3 H4].
  split; [by split|]. unfold exact_fields. cbn [forallb marshal_fields fst snd]. rewrite andb_true_iff.
  intros [K1 K2]. by rewrite (H2 K1), (H4 K2), <- app_assoc.
Qed.

Lemma Unmarshal_inv st data vs :
  Unmarshal st data = Ok vs ->
  wf_values (st_fields st) vs /\
  ((length (typeTags st) <= 1)%nat -> exact_fields (st_fields st) = true -> Marshal st vs = data).
Proof.
  unfold Unmarshal, Marshal. destruct data as [|d0 data]; [done|].
  assert (forall x, (vs' ← unmarshal_fields st (st_fields st) x;
      if len (snd vs') =? 0 then Ok (fst vs') else Err (parseError (default 0 (head (typeTags st))))) = Ok vs ->
      wf_values (st_fields st) vs /\ (exact_fields (st_fields st) = true -> x = marshal_fields (st_fields st) vs))
    as HF.
  { intros x. destruct (unmarshal_fields st (st_fields st) x) as [[ws r]|] eqn:E; [|done].
    cbn [mbind result_bind fst snd]. destruct (Z.eqb_spec (len r) 0) as [Hr|]; [|done]. intros [= ->].
    destruct r; [|rewrite len_cons in Hr; pose proof (len_nonneg r); lia].
    apply unmarshal_fields_inv in E as [H1 H2]. split; [done|]. intros K. by rewrite (H2 K), app_nil_r. }
  destruct (typeTags st) as [|t ts] eqn:ET; cbn [mbind result_bind].
  - intros H. apply HF in H as [H1 H2]. split; [done|]. intros _ K. by rewrite (H2 K).
  - destruct (existsb _ _) eqn:EE; [|done]. cbn [mbind result_bind]. intros H. apply HF in H as [H1 H2].
    split; [done|]. intros Hl K. destruct ts; [|cbn in Hl; lia]. cbn [existsb] in EE.
    rewrite orb_false_r in EE. apply andb_true_iff in EE as [_ <-%Z.eqb_eq].
    cbn [app]. by rewrite <- (H2 K), vb_bv.
Qed.

(** ** Messages

    A message is a Go struct with its struct type and the correspondence of its
    fields with the tuple of values; the laws make the codec correct for it. *)
Class Message (A : Type) := {
  msg_struct : structType;
  to_fields : A -> denotes (st_fields msg_struct);
  of_fields : denotes (st_fields msg_struct) -> A }.

Class MessageLaws (A : Type) `{Message A} := {
  of_to_fields (m : A) : of_fields (to_fields m) = m;
  to_of_fields vs : to_fields (A := A) (of_fields vs) = vs;
  rest_is_last : rest_last (st_fields (msg_struct (A := A))) = true;
  tags_are_good : good_tags (msg_struct (A := A)) = true }.

Definition MarshalMsg `{Message A} (m : A) : gostring := Marshal msg_struct (to_fields m).
Definition UnmarshalMsg (A : Type) `{Message A} (data : gostring) : res A :=
  vs ← Unmarshal (msg_struct (A := A)) data; Ok (of_fields vs).
Definition wf_msg `{Message A} (m : A) : Prop := wf_values _ (to_fields m).

Section messages.
  Context `{MessageLaws A}.

(** Decoding inverts encoding for every message of a packet's size. *)
Lemma UnmarshalMsg_MarshalMsg (m : A) :
  wf_msg m -> len (MarshalMsg m) < 2 ^ 32 -> UnmarshalMsg A (MarshalMsg m) = Ok m.
Proof.
  intros Hw Hl. unfold UnmarshalMsg, MarshalMsg.
  rewrite (Unmarshal_Marshal _ _ rest_is_last tags_are_good Hw Hl). cbn [mbind result_bind].
  by rewrite of_to_fields.
Qed.

(** Whatever bytes arrive, a decoded message inhabits its Go type, and where every
    value has one encoding the packet is the encoding of the message. *)
Lemma UnmarshalMsg_inv data (m : A) :
  UnmarshalMsg A data = Ok m ->
  wf_msg m /\
  ((length (typeTags (msg_struct (A := A))) <= 1)%nat -> exact_fields (st_fields (msg_struct (A := A))) = true ->
   MarshalMsg m = data).
Proof.
  unfold UnmarshalMsg. destruct (Unmarshal _ data) as [vs|] eqn:E; [|done]. intros [= <-].
  unfold wf_msg, MarshalMsg. rewrite to_of_fields. exact (Unmarshal_inv _ _ _ E).
Qed.
End messages.

(** The laws of a concrete message follow from the shape of its record. *)
Ltac message_laws :=
  split;
    [by intros []
    |intros vs; cbn in vs;
     repeat match goal with v : prod _ _ |- _ => destruct v | v : unit |- _ => destruct v end; reflexivity
    |reflexivity|reflexivity].
