(* ===== verification/SshMessages.v ===== *)
(** * SSH messages: the structs of third/ssh/messages.go and [decode].

    One record per struct, with its fields in order, and its [Message] instance:
    the struct type (name, number, fields) and the correspondence with field
    tuples.  [RejectionReason] is a [uint32].  [message] is the sum of the types
    that [decode] can return.

    Proved: every message [decode] knows survives encoding and decoding, and
    [decode] returns only well-formed messages whose number is the packet's
    first byte. *)
From Stdlib Require Import Ascii String ZArith Lia.
From stdpp Require Import base gmap strings list.
From S2P Require Import Prelude GoStrings SshWire.
Local Open Scope Z_scope.

Record disconnectMsg := Mk_disconnectMsg { disconnect_Reason : Z; disconnect_Message : gostring;
    disconnect_Language : gostring }.
#[export] Instance disconnectMsg_message : Message disconnectMsg := {
  msg_struct := MkStruct (go "disconnectMsg") (go "1")
    [(go "Reason", KUint32); (go "Message", KString); (go "Language", KString)];
  to_fields m := (disconnect_Reason m, (disconnect_Message m, (disconnect_Language m, tt)));
  of_fields vs := let '(v0, (v1, (v2, _))) := vs in Mk_disconnectMsg v0 v1 v2 }.
#[export] Instance disconnectMsg_laws : MessageLaws disconnectMsg.
Proof. message_laws. Qed.

Record kexInitMsg := Mk_kexInitMsg { kexInit_Cookie : gostring; kexInit_KexAlgos : list gostring;
    kexInit_ServerHostKeyAlgos : list gostring; kexInit_CiphersClientServer : list gostring;
    kexInit_CiphersServerClient : list gostring; kexInit_MACsClientServer : list gostring;
    kexInit_MACsServerClient : list gostring; kexInit_CompressionClientServer : list gostring;
    kexInit_CompressionServerClient : list gostring; kexInit_LanguagesClientServer : list gostring;
    kexInit_LanguagesServerClient : list gostring; kexInit_FirstKexFollows : bool; kexInit_Reserved : Z }.
#[export] Instance kexInitMsg_message : Message kexInitMsg := {
  msg_struct := MkStruct (go "kexInitMsg") (go "20")
    [(go "Cookie", KArray 16); (go "KexAlgos", KNames); (go "ServerHostKeyAlgos", KNames); (go
      "CiphersClientServer", KNames); (go "CiphersServerClient", KNames); (go "MACsClientServer", KNames);
      (go "MACsServerClient", KNames); (go "CompressionClientServer", KNames); (go
      "CompressionServerClient", KNames); (go "LanguagesClientServer", KNames); (go "LanguagesServerClient",
      KNames); (go "FirstKexFollows", KBool); (go "Reserved", KUint32)];
  to_fields m := (kexInit_Cookie m, (kexInit_KexAlgos m, (kexInit_ServerHostKeyAlgos m,
    (kexInit_CiphersClientServer m, (kexInit_CiphersServerClient m, (kexInit_MACsClientServer m,
    (kexInit_MACsServerClient m, (kexInit_CompressionClientServer m, (kexInit_CompressionServerClient m,
    (kexInit_LanguagesClientServer m, (kexInit_LanguagesServerClient m, (kexInit_FirstKexFollows m,
    (kexInit_Reserved m, tt)))))))))))));
  of_fields vs := let '(v0, (v1, (v2, (v3, (v4, (v5, (v6, (v7, (v8, (v9, (v10, (v11, (v12, _))))))))))))) :=
    vs in Mk_kexInitMsg v0 v1 v2 v3 v4 v5 v6 v7 v8 v9 v10 v11 v12 }.
#[export] Instance kexInitMsg_laws : MessageLaws kexInitMsg.
Proof. message_laws. Qed.

Record kexDHInitMsg := Mk_kexDHInitMsg { kexDHInit_X : Z }.
#[export] Instance kexDHInitMsg_message : Message kexDHInitMsg := {
  msg_struct := MkStruct (go "kexDHInitMsg") (go "30")
    [(go "X", KBigInt)];
  to_fields m := (kexDHInit_X m, tt);
  of_fields vs := let '(v0, _) := vs in Mk_kexDHInitMsg v0 }.
#[export] Instance kexDHInitMsg_laws : MessageLaws kexDHInitMsg.
Proof. message_laws. Qed.

Record kexECDHInitMsg := Mk_kexECDHInitMsg { kexECDHInit_ClientPubKey : gostring }.
#[export] Instance kexECDHInitMsg_message : Message kexECDHInitMsg := {
  msg_struct := MkStruct (go "kexECDHInitMsg") (go "30")
    [(go "ClientPubKey", KBytes)];
  to_fields m := (kexECDHInit_ClientPubKey m, tt);
  of_fields vs := let '(v0, _) := vs in Mk_kexECDHInitMsg v0 }.
#[export] Instance kexECDHInitMsg_laws : MessageLaws kexECDHInitMsg.
Proof. message_laws. Qed.

Record kexECDHReplyMsg := Mk_kexECDHReplyMsg { kexECDHReply_HostKey : gostring; kexECDHReply_EphemeralPubKey
    : gostring; kexECDHReply_Signature : gostring }.
#[export] Instance kexECDHReplyMsg_message : Message kexECDHReplyMsg := {
  msg_struct := MkStruct (go "kexECDHReplyMsg") (go "31")
    [(go "HostKey", KBytes); (go "EphemeralPubKey", KBytes); (go "Signature", KBytes)];
  to_fields m := (kexECDHReply_HostKey m, (kexECDHReply_EphemeralPubKey m, (kexECDHReply_Signature m, tt)));
  of_fields vs := let '(v0, (v1, (v2, _))) := vs in Mk_kexECDHReplyMsg v0 v1 v2 }.
#[export] Instance kexECDHReplyMsg_laws : MessageLaws kexECDHReplyMsg.
Proof. message_laws. Qed.

Record kexDHReplyMsg := Mk_kexDHReplyMsg { kexDHReply_HostKey : gostring; kexDHReply_Y : Z;
    kexDHReply_Signature : gostring }.
#[export] Instance kexDHReplyMsg_message : Message kexDHReplyMsg := {
  msg_struct := MkStruct (go "kexDHReplyMsg") (go "31")
    [(go "HostKey", KBytes); (go "Y", KBigInt); (go "Signature", KBytes)];
  to_fields m := (kexDHReply_HostKey m, (kexDHReply_Y m, (kexDHReply_Signature m, tt)));
  of_fields vs := let '(v0, (v1, (v2, _))) := vs in Mk_kexDHReplyMsg v0 v1 v2 }.
#[export] Instance kexDHReplyMsg_laws : MessageLaws kexDHReplyMsg.
Proof. message_laws. Qed.

Record kexDHGexGroupMsg := Mk_kexDHGexGroupMsg { kexDHGexGroup_P : Z; kexDHGexGroup_G : Z }.
#[export] Instance kexDHGexGroupMsg_message : Message kexDHGexGroupMsg := {
  msg_struct := MkStruct (go "kexDHGexGroupMsg") (go "31")
    [(go "P", KBigInt); (go "G", KBigInt)];
  to_fields m := (kexDHGexGroup_P m, (kexDHGexGroup_G m, tt));
  of_fields vs := let '(v0, (v1, _)) := vs in Mk_kexDHGexGroupMsg v0 v1 }.
#[export] Instance kexDHGexGroupMsg_laws : MessageLaws kexDHGexGroupMsg.
Proof. message_laws. Qed.

Record kexDHGexInitMsg := Mk_kexDHGexInitMsg { kexDHGexInit_X : Z }.
#[export] Instance kexDHGexInitMsg_message : Message kexDHGexInitMsg := {
  msg_struct := MkStruct (go "kexDHGexInitMsg") (go "32")
    [(go "X", KBigInt)];
  to_fields m := (kexDHGexInit_X m, tt);
  of_fields vs := let '(v0, _) := vs in Mk_kexDHGexInitMsg v0 }.
#[export] Instance kexDHGexInitMsg_laws : MessageLaws kexDHGexInitMsg.
Proof. message_laws. Qed.

Record kexDHGexReplyMsg := Mk_kexDHGexReplyMsg { kexDHGexReply_HostKey : gostring; kexDHGexReply_Y : Z;
    kexDHGexReply_Signature : gostring }.
#[export] Instance kexDHGexReplyMsg_message : Message kexDHGexReplyMsg := {
  msg_struct := MkStruct (go "kexDHGexReplyMsg") (go "33")
    [(go "HostKey", KBytes); (go "Y", KBigInt); (go "Signature", KBytes)];
  to_fields m := (kexDHGexReply_HostKey m, (kexDHGexReply_Y m, (kexDHGexReply_Signature m, tt)));
  of_fields vs := let '(v0, (v1, (v2, _))) := vs in Mk_kexDHGexReplyMsg v0 v1 v2 }.
#[export] Instance kexDHGexReplyMsg_laws : MessageLaws kexDHGexReplyMsg.
Proof. message_laws. Qed.

Record kexDHGexRequestMsg := Mk_kexDHGexRequestMsg { kexDHGexRequest_MinBits : Z;
    kexDHGexRequest_PreferredBits : Z; kexDHGexRequest_MaxBits : Z }.
#[export] Instance kexDHGexRequestMsg_message : Message kexDHGexRequestMsg := {
  msg_struct := MkStruct (go "kexDHGexRequestMsg") (go "34")
    [(go "MinBits", KUint32); (go "PreferredBits", KUint32); (go "MaxBits", KUint32)];
  to_fields m := (kexDHGexRequest_MinBits m, (kexDHGexRequest_PreferredBits m, (kexDHGexRequest_MaxBits m,
    tt)));
  of_fields vs := let '(v0, (v1, (v2, _))) := vs in Mk_kexDHGexRequestMsg v0 v1 v2 }.
#[export] Instance kexDHGexRequestMsg_laws : MessageLaws kexDHGexRequestMsg.
Proof. message_laws. Qed.

Record serviceRequestMsg := Mk_serviceRequestMsg { serviceRequest_Service : gostring }.
#[export] Instance serviceRequestMsg_message : Message serviceRequestMsg := {
  msg_struct := MkStruct (go "serviceRequestMsg") (go "5")
    [(go "Service", KString)];
  to_fields m := (serviceRequest_Service m, tt);
  of_fields vs := let '(v0, _) := vs in Mk_serviceRequestMsg v0 }.
#[export] Instance serviceRequestMsg_laws : MessageLaws serviceRequestMsg.
Proof. message_laws. Qed.

Record serviceAcceptMsg := Mk_serviceAcceptMsg { serviceAccept_Service : gostring }.
#[export] Instance serviceAcceptMsg_message : Message serviceAcceptMsg := {
  msg_struct := MkStruct (go "serviceAcceptMsg") (go "6")
    [(go "Service", KString)];
  to_fields m := (serviceAccept_Service m, tt);
  of_fields vs := let '(v0, _) := vs in Mk_serviceAcceptMsg v0 }.
#[export] Instance serviceAcceptMsg_laws : MessageLaws serviceAcceptMsg.
Proof. message_laws. Qed.

Record extInfoMsg := Mk_extInfoMsg { extInfo_NumExtensions : Z; extInfo_Payload : gostring }.
#[export] Instance extInfoMsg_message : Message extInfoMsg := {
  msg_struct := MkStruct (go "extInfoMsg") (go "7")
    [(go "NumExtensions", KUint32); (go "Payload", KRest)];
  to_fields m := (extInfo_NumExtensions m, (extInfo_Payload m, tt));
  of_fields vs := let '(v0, (v1, _)) := vs in Mk_extInfoMsg v0 v1 }.
#[export] Instance extInfoMsg_laws : MessageLaws extInfoMsg.
Proof. message_laws. Qed.

Record userAuthRequestMsg := Mk_userAuthRequestMsg { userAuthRequest_User : gostring;
    userAuthRequest_Service : gostring; userAuthRequest_Method : gostring; userAuthRequest_Payload :
    gostring }.
#[export] Instance userAuthRequestMsg_message : Message userAuthRequestMsg := {
  msg_struct := MkStruct (go "userAuthRequestMsg") (go "50")
    [(go "User", KString); (go "Service", KString); (go "Method", KString); (go "Payload", KRest)];
  to_fields m := (userAuthRequest_User m, (userAuthRequest_Service m, (userAuthRequest_Method m,
    (userAuthRequest_Payload m, tt))));
  of_fields vs := let '(v0, (v1, (v2, (v3, _)))) := vs in Mk_userAuthRequestMsg v0 v1 v2 v3 }.
#[export] Instance userAuthRequestMsg_laws : MessageLaws userAuthRequestMsg.
Proof. message_laws. Qed.

Record userAuthFailureMsg := Mk_userAuthFailureMsg { userAuthFailure_Methods : list gostring;
    userAuthFailure_PartialSuccess : bool }.
#[export] Instance userAuthFailureMsg_message : Message userAuthFailureMsg := {
  msg_struct := MkStruct (go "userAuthFailureMsg") (go "51")
    [(go "Methods", KNames); (go "PartialSuccess", KBool)];
  to_fields m := (userAuthFailure_Methods m, (userAuthFailure_PartialSuccess m, tt));
  of_fields vs := let '(v0, (v1, _)) := vs in Mk_userAuthFailureMsg v0 v1 }.
#[export] Instance userAuthFailureMsg_laws : MessageLaws userAuthFailureMsg.
Proof. message_laws. Qed.

Record userAuthBannerMsg := Mk_userAuthBannerMsg { userAuthBanner_Message : gostring;
    userAuthBanner_Language : gostring }.
#[export] Instance userAuthBannerMsg_message : Message userAuthBannerMsg := {
  msg_struct := MkStruct (go "userAuthBannerMsg") (go "53")
    [(go "Message", KString); (go "Language", KString)];
  to_fields m := (userAuthBanner_Message m, (userAuthBanner_Language m, tt));
  of_fields vs := let '(v0, (v1, _)) := vs in Mk_userAuthBannerMsg v0 v1 }.
#[export] Instance userAuthBannerMsg_laws : MessageLaws userAuthBannerMsg.
Proof. message_laws. Qed.

Record userAuthInfoRequestMsg := Mk_userAuthInfoRequestMsg { userAuthInfoRequest_Name : gostring;
    userAuthInfoRequest_Instruction : gostring; userAuthInfoRequest_Language : gostring;
    userAuthInfoRequest_NumPrompts : Z; userAuthInfoRequest_Prompts : gostring }.
#[export] Instance userAuthInfoRequestMsg_message : Message userAuthInfoRequestMsg := {
  msg_struct := MkStruct (go "userAuthInfoRequestMsg") (go "60")
    [(go "Name", KString); (go "Instruction", KString); (go "Language", KString); (go "NumPrompts",
      KUint32); (go "Prompts", KRest)];
  to_fields m := (userAuthInfoRequest_Name m, (userAuthInfoRequest_Instruction m,
    (userAuthInfoRequest_Language m, (userAuthInfoRequest_NumPrompts m, (userAuthInfoRequest_Prompts m,
    tt)))));
  of_fields vs := let '(v0, (v1, (v2, (v3, (v4, _))))) := vs in Mk_userAuthInfoRequestMsg v0 v1 v2 v3 v4 }.
#[export] Instance userAuthInfoRequestMsg_laws : MessageLaws userAuthInfoRequestMsg.
Proof. message_laws. Qed.

Record channelOpenMsg := Mk_channelOpenMsg { channelOpen_ChanType : gostring; channelOpen_PeersID : Z;
    channelOpen_PeersWindow : Z; channelOpen_MaxPacketSize : Z; channelOpen_TypeSpecificData : gostring }.
#[export] Instance channelOpenMsg_message : Message channelOpenMsg := {
  msg_struct := MkStruct (go "channelOpenMsg") (go "90")
    [(go "ChanType", KString); (go "PeersID", KUint32); (go "PeersWindow", KUint32); (go "MaxPacketSize",
      KUint32); (go "TypeSpecificData", KRest)];
  to_fields m := (channelOpen_ChanType m, (channelOpen_PeersID m, (channelOpen_PeersWindow m,
    (channelOpen_MaxPacketSize m, (channelOpen_TypeSpecificData m, tt)))));
  of_fields vs := let '(v0, (v1, (v2, (v3, (v4, _))))) := vs in Mk_channelOpenMsg v0 v1 v2 v3 v4 }.
#[export] Instance channelOpenMsg_laws : MessageLaws channelOpenMsg.
Proof. message_laws. Qed.

Record channelDataMsg := Mk_channelDataMsg { channelData_PeersID : Z; channelData_Length : Z;
    channelData_Rest : gostring }.
#[export] Instance channelDataMsg_message : Message channelDataMsg := {
  msg_struct := MkStruct (go "channelDataMsg") (go "94")
    [(go "PeersID", KUint32); (go "Length", KUint32); (go "Rest", KRest)];
  to_fields m := (channelData_PeersID m, (channelData_Length m, (channelData_Rest m, tt)));
  of_fields vs := let '(v0, (v1, (v2, _))) := vs in Mk_channelDataMsg v0 v1 v2 }.
#[export] Instance channelDataMsg_laws : MessageLaws channelDataMsg.
Proof. message_laws. Qed.

Record channelOpenConfirmMsg := Mk_channelOpenConfirmMsg { channelOpenConfirm_PeersID : Z;
    channelOpenConfirm_MyID : Z; channelOpenConfirm_MyWindow : Z; channelOpenConfirm_MaxPacketSize : Z;
    channelOpenConfirm_TypeSpecificData : gostring }.
#[export] Instance channelOpenConfirmMsg_message : Message channelOpenConfirmMsg := {
  msg_struct := MkStruct (go "channelOpenConfirmMsg") (go "91")
    [(go "PeersID", KUint32); (go "MyID", KUint32); (go "MyWindow", KUint32); (go "MaxPacketSize", KUint32);
      (go "TypeSpecificData", KRest)];
  to_fields m := (channelOpenConfirm_PeersID m, (channelOpenConfirm_MyID m, (channelOpenConfirm_MyWindow m,
    (channelOpenConfirm_MaxPacketSize m, (channelOpenConfirm_TypeSpecificData m, tt)))));
  of_fields vs := let '(v0, (v1, (v2, (v3, (v4, _))))) := vs in Mk_channelOpenConfirmMsg v0 v1 v2 v3 v4 }.
#[export] Instance channelOpenConfirmMsg_laws : MessageLaws channelOpenConfirmMsg.
Proof. message_laws. Qed.

Record channelOpenFailureMsg := Mk_channelOpenFailureMsg { channelOpenFailure_PeersID : Z;
    channelOpenFailure_Reason : Z; channelOpenFailure_Message : gostring; channelOpenFailure_Language :
    gostring }.
#[export] Instance channelOpenFailureMsg_message : Message channelOpenFailureMsg := {
  msg_struct := MkStruct (go "channelOpenFailureMsg") (go "92")
    [(go "PeersID", KUint32); (go "Reason", KUint32); (go "Message", KString); (go "Language", KString)];
  to_fields m := (channelOpenFailure_PeersID m, (channelOpenFailure_Reason m, (channelOpenFailure_Message m,
    (channelOpenFailure_Language m, tt))));
  of_fields vs := let '(v0, (v1, (v2, (v3, _)))) := vs in Mk_channelOpenFailureMsg v0 v1 v2 v3 }.
#[export] Instance channelOpenFailureMsg_laws : MessageLaws channelOpenFailureMsg.
Proof. message_laws. Qed.

Record channelRequestMsg := Mk_channelRequestMsg { channelRequest_PeersID : Z; channelRequest_Request :
    gostring; channelRequest_WantReply : bool; channelRequest_RequestSpecificData : gostring }.
#[export] Instance channelRequestMsg_message : Message channelRequestMsg := {
  msg_struct := MkStruct (go "channelRequestMsg") (go "98")
    [(go "PeersID", KUint32); (go "Request", KString); (go "WantReply", KBool); (go "RequestSpecificData",
      KRest)];
  to_fields m := (channelRequest_PeersID m, (channelRequest_Request m, (channelRequest_WantReply m,
    (channelRequest_RequestSpecificData m, tt))));
  of_fields vs := let '(v0, (v1, (v2, (v3, _)))) := vs in Mk_channelRequestMsg v0 v1 v2 v3 }.
#[export] Instance channelRequestMsg_laws : MessageLaws channelRequestMsg.
Proof. message_laws. Qed.

Record channelRequestSuccessMsg := Mk_channelRequestSuccessMsg { channelRequestSuccess_PeersID : Z }.
#[export] Instance channelRequestSuccessMsg_message : Message channelRequestSuccessMsg := {
  msg_struct := MkStruct (go "channelRequestSuccessMsg") (go "99")
    [(go "PeersID", KUint32)];
  to_fields m := (channelRequestSuccess_PeersID m, tt);
  of_fields vs := let '(v0, _) := vs in Mk_channelRequestSuccessMsg v0 }.
#[export] Instance channelRequestSuccessMsg_laws : MessageLaws channelRequestSuccessMsg.
Proof. message_laws. Qed.

Record channelRequestFailureMsg := Mk_channelRequestFailureMsg { channelRequestFailure_PeersID : Z }.
#[export] Instance channelRequestFailureMsg_message : Message channelRequestFailureMsg := {
  msg_struct := MkStruct (go "channelRequestFailureMsg") (go "100")
    [(go "PeersID", KUint32)];
  to_fields m := (channelRequestFailure_PeersID m, tt);
  of_fields vs := let '(v0, _) := vs in Mk_channelRequestFailureMsg v0 }.
#[export] Instance channelRequestFailureMsg_laws : MessageLaws channelRequestFailureMsg.
Proof. message_laws. Qed.

Record channelCloseMsg := Mk_channelCloseMsg { channelClose_PeersID : Z }.
#[export] Instance channelCloseMsg_message : Message channelCloseMsg := {
  msg_struct := MkStruct (go "channelCloseMsg") (go "97")
    [(go "PeersID", KUint32)];
  to_fields m := (channelClose_PeersID m, tt);
  of_fields vs := let '(v0, _) := vs in Mk_channelCloseMsg v0 }.
#[export] Instance channelCloseMsg_laws : MessageLaws channelCloseMsg.
Proof. message_laws. Qed.

Record channelEOFMsg := Mk_channelEOFMsg { channelEOF_PeersID : Z }.
#[export] Instance channelEOFMsg_message : Message channelEOFMsg := {
  msg_struct := MkStruct (go "channelEOFMsg") (go "96")
    [(go "PeersID", KUint32)];
  to_fields m := (channelEOF_PeersID m, tt);
  of_fields vs := let '(v0, _) := vs in Mk_channelEOFMsg v0 }.
#[export] Instance channelEOFMsg_laws : MessageLaws channelEOFMsg.
Proof. message_laws. Qed.

Record globalRequestMsg := Mk_globalRequestMsg { globalRequest_Type : gostring; globalRequest_WantReply :
    bool; globalRequest_Data : gostring }.
#[export] Instance globalRequestMsg_message : Message globalRequestMsg := {
  msg_struct := MkStruct (go "globalRequestMsg") (go "80")
    [(go "Type", KString); (go "WantReply", KBool); (go "Data", KRest)];
  to_fields m := (globalRequest_Type m, (globalRequest_WantReply m, (globalRequest_Data m, tt)));
  of_fields vs := let '(v0, (v1, (v2, _))) := vs in Mk_globalRequestMsg v0 v1 v2 }.
#[export] Instance globalRequestMsg_laws : MessageLaws globalRequestMsg.
Proof. message_laws. Qed.

Record globalRequestSuccessMsg := Mk_globalRequestSuccessMsg { globalRequestSuccess_Data : gostring }.
#[export] Instance globalRequestSuccessMsg_message : Message globalRequestSuccessMsg := {
  msg_struct := MkStruct (go "globalRequestSuccessMsg") (go "81")
    [(go "Data", KRest)];
  to_fields m := (globalRequestSuccess_Data m, tt);
  of_fields vs := let '(v0, _) := vs in Mk_globalRequestSuccessMsg v0 }.
#[export] Instance globalRequestSuccessMsg_laws : MessageLaws globalRequestSuccessMsg.
Proof. message_laws. Qed.

Record globalRequestFailureMsg := Mk_globalRequestFailureMsg { globalRequestFailure_Data : gostring }.
#[export] Instance globalRequestFailureMsg_message : Message globalRequestFailureMsg := {
  msg_struct := MkStruct (go "globalRequestFailureMsg") (go "82")
    [(go "Data", KRest)];
  to_fields m := (globalRequestFailure_Data m, tt);
  of_fields vs := let '(v0, _) := vs in Mk_globalRequestFailureMsg v0 }.
#[export] Instance globalRequestFailureMsg_laws : MessageLaws globalRequestFailureMsg.
Proof. message_laws. Qed.

Record windowAdjustMsg := Mk_windowAdjustMsg { windowAdjust_PeersID : Z; windowAdjust_AdditionalBytes : Z }.
#[export] Instance windowAdjustMsg_message : Message windowAdjustMsg := {
  msg_struct := MkStruct (go "windowAdjustMsg") (go "93")
    [(go "PeersID", KUint32); (go "AdditionalBytes", KUint32)];
  to_fields m := (windowAdjust_PeersID m, (windowAdjust_AdditionalBytes m, tt));
  of_fields vs := let '(v0, (v1, _)) := vs in Mk_windowAdjustMsg v0 v1 }.
#[export] Instance windowAdjustMsg_laws : MessageLaws windowAdjustMsg.
Proof. message_laws. Qed.

Record userAuthPubKeyOkMsg := Mk_userAuthPubKeyOkMsg { userAuthPubKeyOk_Algo : gostring;
    userAuthPubKeyOk_PubKey : gostring }.
#[export] Instance userAuthPubKeyOkMsg_message : Message userAuthPubKeyOkMsg := {
  msg_struct := MkStruct (go "userAuthPubKeyOkMsg") (go "60")
    [(go "Algo", KString); (go "PubKey", KBytes)];
  to_fields m := (userAuthPubKeyOk_Algo m, (userAuthPubKeyOk_PubKey m, tt));
  of_fields vs := let '(v0, (v1, _)) := vs in Mk_userAuthPubKeyOkMsg v0 v1 }.
#[export] Instance userAuthPubKeyOkMsg_laws : MessageLaws userAuthPubKeyOkMsg.
Proof. message_laws. Qed.

Record userAuthGSSAPIResponse := Mk_userAuthGSSAPIResponse { userAuthGSSAPIResponse_SupportMech : gostring }.
#[export] Instance userAuthGSSAPIResponse_message : Message userAuthGSSAPIResponse := {
  msg_struct := MkStruct (go "userAuthGSSAPIResponse") (go "60")
    [(go "SupportMech", KBytes)];
  to_fields m := (userAuthGSSAPIResponse_SupportMech m, tt);
  of_fields vs := let '(v0, _) := vs in Mk_userAuthGSSAPIResponse v0 }.
#[export] Instance userAuthGSSAPIResponse_laws : MessageLaws userAuthGSSAPIResponse.
Proof. message_laws. Qed.

Record userAuthGSSAPIToken := Mk_userAuthGSSAPIToken { userAuthGSSAPIToken_Token : gostring }.
#[export] Instance userAuthGSSAPIToken_message : Message userAuthGSSAPIToken := {
  msg_struct := MkStruct (go "userAuthGSSAPIToken") (go "61")
    [(go "Token", KBytes)];
  to_fields m := (userAuthGSSAPIToken_Token m, tt);
  of_fields vs := let '(v0, _) := vs in Mk_userAuthGSSAPIToken v0 }.
#[export] Instance userAuthGSSAPIToken_laws : MessageLaws userAuthGSSAPIToken.
Proof. message_laws. Qed.

Record userAuthGSSAPIMIC := Mk_userAuthGSSAPIMIC { userAuthGSSAPIMIC_MIC : gostring }.
#[export] Instance userAuthGSSAPIMIC_message : Message userAuthGSSAPIMIC := {
  msg_struct := MkStruct (go "userAuthGSSAPIMIC") (go "66")
    [(go "MIC", KBytes)];
  to_fields m := (userAuthGSSAPIMIC_MIC m, tt);
  of_fields vs := let '(v0, _) := vs in Mk_userAuthGSSAPIMIC v0 }.
#[export] Instance userAuthGSSAPIMIC_laws : MessageLaws userAuthGSSAPIMIC.
Proof. message_laws. Qed.

Record userAuthGSSAPIErrTok := Mk_userAuthGSSAPIErrTok { userAuthGSSAPIErrTok_ErrorToken : gostring }.
#[export] Instance userAuthGSSAPIErrTok_message : Message userAuthGSSAPIErrTok := {
  msg_struct := MkStruct (go "userAuthGSSAPIErrTok") (go "64")
    [(go "ErrorToken", KBytes)];
  to_fields m := (userAuthGSSAPIErrTok_ErrorToken m, tt);
  of_fields vs := let '(v0, _) := vs in Mk_userAuthGSSAPIErrTok v0 }.
#[export] Instance userAuthGSSAPIErrTok_laws : MessageLaws userAuthGSSAPIErrTok.
Proof. message_laws. Qed.

Record userAuthGSSAPIError := Mk_userAuthGSSAPIError { userAuthGSSAPIError_MajorStatus : Z;
    userAuthGSSAPIError_MinorStatus : Z; userAuthGSSAPIError_Message : gostring;
    userAuthGSSAPIError_LanguageTag : gostring }.
#[export] Instance userAuthGSSAPIError_message : Message userAuthGSSAPIError := {
  msg_struct := MkStruct (go "userAuthGSSAPIError") (go "65")
    [(go "MajorStatus", KUint32); (go "MinorStatus", KUint32); (go "Message", KString); (go "LanguageTag",
      KString)];
  to_fields m := (userAuthGSSAPIError_MajorStatus m, (userAuthGSSAPIError_MinorStatus m,
    (userAuthGSSAPIError_Message m, (userAuthGSSAPIError_LanguageTag m, tt))));
  of_fields vs := let '(v0, (v1, (v2, (v3, _)))) := vs in Mk_userAuthGSSAPIError v0 v1 v2 v3 }.
#[export] Instance userAuthGSSAPIError_laws : MessageLaws userAuthGSSAPIError.
Proof. message_laws. Qed.

Record pingMsg := Mk_pingMsg { ping_Data : gostring }.
#[export] Instance pingMsg_message : Message pingMsg := {
  msg_struct := MkStruct (go "pingMsg") (go "192")
    [(go "Data", KString)];
  to_fields m := (ping_Data m, tt);
  of_fields vs := let '(v0, _) := vs in Mk_pingMsg v0 }.
#[export] Instance pingMsg_laws : MessageLaws pingMsg.
Proof. message_laws. Qed.

Record pongMsg := Mk_pongMsg { pong_Data : gostring }.
#[export] Instance pongMsg_message : Message pongMsg := {
  msg_struct := MkStruct (go "pongMsg") (go "193")
    [(go "Data", KString)];
  to_fields m := (pong_Data m, tt);
  of_fields vs := let '(v0, _) := vs in Mk_pongMsg v0 }.
#[export] Instance pongMsg_laws : MessageLaws pongMsg.
Proof. message_laws. Qed.

(** ** Message numbers *)
Definition msgIgnore : Z := 2.
Definition msgUnimplemented : Z := 3.
Definition msgDebug : Z := 4.
Definition msgNewKeys : Z := 21.
Definition msgDisconnect : Z := 1.
Definition msgKexInit : Z := 20.
Definition msgKexDHInit : Z := 30.
Definition msgKexECDHInit : Z := 30.
Definition msgKexECDHReply : Z := 31.
Definition msgKexDHReply : Z := 31.
Definition msgKexDHGexGroup : Z := 31.
Definition msgKexDHGexInit : Z := 32.
Definition msgKexDHGexReply : Z := 33.
Definition msgKexDHGexRequest : Z := 34.
Definition msgServiceRequest : Z := 5.
Definition msgServiceAccept : Z := 6.
Definition msgExtInfo : Z := 7.
Definition msgUserAuthRequest : Z := 50.
Definition msgUserAuthFailure : Z := 51.
Definition msgUserAuthSuccess : Z := 52.
Definition msgUserAuthBanner : Z := 53.
Definition msgUserAuthInfoRequest : Z := 60.
Definition msgUserAuthInfoResponse : Z := 61.
Definition msgChannelOpen : Z := 90.
Definition msgChannelExtendedData : Z := 95.
Definition msgChannelData : Z := 94.
Definition msgChannelOpenConfirm : Z := 91.
Definition msgChannelOpenFailure : Z := 92.
Definition msgChannelRequest : Z := 98.
Definition msgChannelSuccess : Z := 99.
Definition msgChannelFailure : Z := 100.
Definition msgChannelClose : Z := 97.
Definition msgChannelEOF : Z := 96.
Definition msgGlobalRequest : Z := 80.
Definition msgRequestSuccess : Z := 81.
Definition msgRequestFailure : Z := 82.
Definition msgChannelWindowAdjust : Z := 93.
Definition msgUserAuthPubKeyOk : Z := 60.
Definition msgUserAuthGSSAPIResponse : Z := 60.
Definition msgUserAuthGSSAPIToken : Z := 61.
Definition msgUserAuthGSSAPIMIC : Z := 66.
Definition msgUserAuthGSSAPIErrTok : Z := 64.
Definition msgUserAuthGSSAPIError : Z := 65.
Definition msgPing : Z := 192.
Definition msgPong : Z := 193.

(** ** Decoding a packet *)
Inductive message :=
| M_disconnect (m : disconnectMsg)
| M_serviceRequest (m : serviceRequestMsg)
| M_serviceAccept (m : serviceAcceptMsg)
| M_extInfo (m : extInfoMsg)
| M_kexInit (m : kexInitMsg)
| M_kexDHInit (m : kexDHInitMsg)
| M_kexDHReply (m : kexDHReplyMsg)
| M_userAuthRequest (m : userAuthRequestMsg)
| M_userAuthSuccess
| M_userAuthFailure (m : userAuthFailureMsg)
| M_userAuthBanner (m : userAuthBannerMsg)
| M_userAuthPubKeyOk (m : userAuthPubKeyOkMsg)
| M_globalRequest (m : globalRequestMsg)
| M_globalRequestSuccess (m : globalRequestSuccessMsg)
| M_globalRequestFailure (m : globalRequestFailureMsg)
| M_channelOpen (m : channelOpenMsg)
| M_channelData (m : channelDataMsg)
| M_channelOpenConfirm (m : channelOpenConfirmMsg)
| M_channelOpenFailure (m : channelOpenFailureMsg)
| M_windowAdjust (m : windowAdjustMsg)
| M_channelEOF (m : channelEOFMsg)
| M_channelClose (m : channelCloseMsg)
| M_channelRequest (m : channelRequestMsg)
| M_channelRequestSuccess (m : channelRequestSuccessMsg)
| M_channelRequestFailure (m : channelRequestFailureMsg)
| M_userAuthGSSAPIToken (m : userAuthGSSAPIToken)
| M_userAuthGSSAPIMIC (m : userAuthGSSAPIMIC)
| M_userAuthGSSAPIErrTok (m : userAuthGSSAPIErrTok)
| M_userAuthGSSAPIError (m : userAuthGSSAPIError).

Definition decode_as {A} `{Message A} (c : A -> message) (packet : gostring) : res message :=
  m ← UnmarshalMsg A packet; Ok (c m).

(** The cases of the switch, in order. *)
Definition decoders : list (Z * (gostring -> res message)) :=
  [(msgDisconnect, decode_as M_disconnect);
   (msgServiceRequest, decode_as M_serviceRequest);
   (msgServiceAccept, decode_as M_serviceAccept);
   (msgExtInfo, decode_as M_extInfo);
   (msgKexInit, decode_as M_kexInit);
   (msgKexDHInit, decode_as M_kexDHInit);
   (msgKexDHReply, decode_as M_kexDHReply);
   (msgUserAuthRequest, decode_as M_userAuthRequest);
   (msgUserAuthSuccess, fun _ => Ok M_userAuthSuccess);
   (msgUserAuthFailure, decode_as M_userAuthFailure);
   (msgUserAuthBanner, decode_as M_userAuthBanner);
   (msgUserAuthPubKeyOk, decode_as M_userAuthPubKeyOk);
   (msgGlobalRequest, decode_as M_globalRequest);
   (msgRequestSuccess, decode_as M_globalRequestSuccess);
   (msgRequestFailure, decode_as M_globalRequestFailure);
   (msgChannelOpen, decode_as M_channelOpen);
   (msgChannelData, decode_as M_channelData);
   (msgChannelOpenConfirm, decode_as M_channelOpenConfirm);
   (msgChannelOpenFailure, decode_as M_channelOpenFailure);
   (msgChannelWindowAdjust, decode_as M_windowAdjust);
   (msgChannelEOF, decode_as M_channelEOF);
   (msgChannelClose, decode_as M_channelClose);
   (msgChannelRequest, decode_as M_channelRequest);
   (msgChannelSuccess, decode_as M_channelRequestSuccess);
   (msgChannelFailure, decode_as M_channelRequestFailure);
   (msgUserAuthGSSAPIToken, decode_as M_userAuthGSSAPIToken);
   (msgUserAuthGSSAPIMIC, decode_as M_userAuthGSSAPIMIC);
   (msgUserAuthGSSAPIErrTok, decode_as M_userAuthGSSAPIErrTok);
   (msgUserAuthGSSAPIError, decode_as M_userAuthGSSAPIError)].

Fixpoint switch {A} (t : Z) (cases : list (Z * A)) (otherwise : A) : A :=
  match cases with
  | [] => otherwise
  | (c, x) :: cases => if t =? c then x else switch t cases otherwise
  end.

(** [None] is the index out of range on an empty packet. *)
Definition decode (packet : gostring) : option (res message) :=
  match packet with
  | [] => None
  | b :: _ =>
      Some (switch (bv b) decoders (fun _ => Err (unexpectedMessageError 0 (bv b))) packet)
  end.

(** ** Functions of the struct inside a message *)
Definition on_struct {R : Type} (f : forall A (M : Message A), MessageLaws A -> A -> R) (success : R) (m : message) : R :=
  match m with
  | M_disconnect m => f _ _ _ m
  | M_serviceRequest m => f _ _ _ m
  | M_serviceAccept m => f _ _ _ m
  | M_extInfo m => f _ _ _ m
  | M_kexInit m => f _ _ _ m
  | M_kexDHInit m => f _ _ _ m
  | M_kexDHReply m => f _ _ _ m
  | M_userAuthRequest m => f _ _ _ m
  | M_userAuthSuccess => success
  | M_userAuthFailure m => f _ _ _ m
  | M_userAuthBanner m => f _ _ _ m
  | M_userAuthPubKeyOk m => f _ _ _ m
  | M_globalRequest m => f _ _ _ m
  | M_globalRequestSuccess m => f _ _ _ m
  | M_globalRequestFailure m => f _ _ _ m
  | M_channelOpen m => f _ _ _ m
  | M_channelData m => f _ _ _ m
  | M_channelOpenConfirm m => f _ _ _ m
  | M_channelOpenFailure m => f _ _ _ m
  | M_windowAdjust m => f _ _ _ m
  | M_channelEOF m => f _ _ _ m
  | M_channelClose m => f _ _ _ m
  | M_channelRequest m => f _ _ _ m
  | M_channelRequestSuccess m => f _ _ _ m
  | M_channelRequestFailure m => f _ _ _ m
  | M_userAuthGSSAPIToken m => f _ _ _ m
  | M_userAuthGSSAPIMIC m => f _ _ _ m
  | M_userAuthGSSAPIErrTok m => f _ _ _ m
  | M_userAuthGSSAPIError m => f _ _ _ m
  end.

(** The packet of a message: [Marshal] of the struct; the success message has no
    fields and is sent as its number ([serverAuthenticate] in server.go). *)
Definition packet_of : message -> gostring :=
  on_struct (fun A _ _ m => MarshalMsg m) [vb msgUserAuthSuccess].
Definition wf_message : message -> Prop := on_struct (fun A _ _ m => wf_msg m) True.
Definition message_number : message -> Z :=
  on_struct (fun A _ _ _ => default 0 (head (typeTags (msg_struct (A := A))))) msgUserAuthSuccess.
(** Every value of the message has one encoding. *)
Definition exact_message : message -> bool :=
  on_struct (fun A _ _ _ => exact_fields (st_fields (msg_struct (A := A)))) false.

Lemma decode_as_marshal `{MessageLaws A} (c : A -> message) (m : A) t :
  head (typeTags (msg_struct (A := A))) = Some t -> 0 < t < 256 ->
  switch t decoders (fun _ => Err (unexpectedMessageError 0 t)) = decode_as c ->
  wf_msg m -> len (MarshalMsg m) < 2 ^ 32 -> decode (MarshalMsg m) = Some (Ok (c m)).
Proof.
  intros Ht Hr Hs Hw Hl. pose proof (UnmarshalMsg_MarshalMsg m Hw Hl) as HU.
  assert (exists l, MarshalMsg m = vb t :: l) as [l E].
  { unfold MarshalMsg, Marshal. destruct (typeTags _) as [|t' ts]; [done|]. injection Ht as ->. by eexists. }
  rewrite E in *. unfold decode. rewrite bv_vb by lia. rewrite Hs. unfold decode_as. by rewrite HU.
Qed.

(** C13. Every message [decode] knows, written as a packet and decoded, is
    the message again. *)
Theorem decode_packet m :
  wf_message m -> len (packet_of m) < 2 ^ 32 -> decode (packet_of m) = Some (Ok m).
Proof.
  intros Hw Hl. destruct m;
    first [reflexivity | (eapply decode_as_marshal; [reflexivity|split; reflexivity|reflexivity|exact Hw|exact Hl])].
Qed.

Definition decoder_sound (e : Z * (gostring -> res message)) : Prop :=
  forall packet m, snd e packet = Ok m ->
    message_number m = fst e /\ wf_message m /\ (exact_message m = true -> packet_of m = packet).

Lemma decode_as_sound `{MessageLaws A} (c : A -> message) t :
  (forall m, message_number (c m) = t) -> (forall m, wf_message (c m) = wf_msg m) ->
  (forall m, packet_of (c m) = MarshalMsg m) ->
  (forall m, exact_message (c m) = exact_fields (st_fields (msg_struct (A := A)))) ->
  (length (typeTags (msg_struct (A := A))) <= 1)%nat -> decoder_sound (t, decode_as c).
Proof.
  intros H1 H2 H3 H4 H5 packet m. cbn [fst snd]. unfold decode_as.
  destruct (UnmarshalMsg A packet) as [a|] eqn:E; [|done]. intros [= <-].
  apply UnmarshalMsg_inv in E as [Hw He]. rewrite H1, H2, H3, H4. auto.
Qed.

Lemma decoders_sound : Forall decoder_sound decoders.
Proof.
  repeat apply Forall_cons_2; try apply Forall_nil_2;
    first [intros packet m [= <-]; done | (apply decode_as_sound; done || (cbv; lia))].
Qed.

Lemma switch_inv {X Y} t (cases : list (Z * (X -> Y))) otherwise x y :
  switch t cases otherwise x = y ->
  (exists e, e ∈ cases /\ t = fst e /\ snd e x = y) \/ otherwise x = y.
Proof.
  induction cases as [|[c d] cs IH]; [by right|]. cbn [switch].
  destruct (Z.eqb_spec t c) as [->|]; intros E.
  - left. exists (c, d). split; [by apply elem_of_cons; left|done].
  - destruct (IH E) as [(e & H1 & H2)|H]; [|by right]. left. exists e. split; [by apply elem_of_cons; right|done].
Qed.

(** C37. Whatever a packet holds, [decode] fails only on the empty packet's
    index, and what it returns is a well-formed message with the packet's
    number; where every value has one encoding, the packet is its encoding. *)
Theorem decode_sound packet m :
  decode packet = Some (Ok m) ->
  wf_message m /\ (exists rest, packet = vb (message_number m) :: rest) /\
  (exact_message m = true -> packet_of m = packet).
Proof.
  destruct packet as [|b packet]; [done|]. intros E. apply (inj Some) in E.
  destruct (switch_inv _ _ _ _ _ E) as [(e & He & Hb & Hm)|?]; [|done].
  pose proof decoders_sound as HF. rewrite Forall_forall in HF. destruct (HF e He _ _ Hm) as (H1 & H2 & H3).
  split; [done|]. split; [|done]. exists packet. by rewrite H1, <- Hb, vb_bv.
Qed.

(** ** Concrete messages *)
Definition sample_message : message :=
  M_channelRequest (Mk_channelRequestMsg 7 (go "exec") true (go "payload")).

Lemma decode_packet_witness : decode (packet_of sample_message) = Some (Ok sample_message).
Proof. apply decode_packet; [by vm_compute|reflexivity]. Defined.

Lemma decode_sound_witness :
  let packet := vb 93 :: be_bytes 4 5 ++ be_bytes 4 4294967295 in
  let m := M_windowAdjust (Mk_windowAdjustMsg 5 4294967295) in
  decode packet = Some (Ok m) /\ packet_of m = packet.
Proof.
  intros packet m. assert (decode packet = Some (Ok m)) as H by (vm_compute; reflexivity).
  split; [exact H|]. apply (decode_sound packet m H). reflexivity.
Defined.
