(* ===== verification/SshChannel.v ===== *)
(** * SSH channels: third/ssh/buffer.go, the [window] of common.go, channel.go.

    A channel is its buffers, windows, flags and queues; the connection below it
    is the list of packets written so far, with the channel that wrote each, and
    the error that writes fail with, if any.  A Go channel with capacity
    [chanSize] is a list; an element beyond the capacity is a sender that blocks,
    and the loop of the mux does not continue before it is received.  A call
    runs to completion or reports that it waits.  Mutexes, the reuse of packet
    memory and the waiter count of [window], which only tests read, are left out.

    Proved: a buffer is a queue of bytes; the receive window is conserved; written
    data leaves in order, in packets that fit, and within the peer's window. *)
From Stdlib Require Import Ascii String ZArith Lia.
From stdpp Require Import base gmap strings list.
From S2P Require Import Prelude GoStrings SshWire SshMessages.
Local Open Scope Z_scope.

(** [uint32] arithmetic. *)
Definition u32 (z : Z) : Z := z mod 2 ^ 32.

(** [io.EOF]; the code compares errors with it by identity. *)
Definition EOF : error := errors_New (go "EOF").

(** ** buffer.go *)
Record buffer := MkBuffer { b_head : gostring; b_next : list gostring; b_closed : bool }.
Definition newBuffer : buffer := MkBuffer [] [] false.
Definition buffer_write (b : buffer) (buf : gostring) : buffer :=
  MkBuffer (b_head b) (b_next b ++ [buf]) (b_closed b).
Definition buffer_eof (b : buffer) : buffer := MkBuffer (b_head b) (b_next b) true.

Inductive read_result :=
| ReadDone (bytes : gostring) (err : option error)
| ReadWaits.

(** The loop of [Read]: [want] is what is left of the caller's slice, [got] what
    was copied. *)
Fixpoint read_loop (fuel : nat) (b : buffer) (want : nat) (got : gostring) : buffer * read_result :=
  match fuel with
  | O => (b, ReadDone got None)
  | S fuel =>
      if (want =? 0)%nat then (b, ReadDone got None)
      else match b_head b with
      | _ :: _ =>
          let r := Nat.min want (length (b_head b)) in
          read_loop fuel (MkBuffer (drop r (b_head b)) (b_next b) (b_closed b)) (want - r)
            (got ++ take r (b_head b))
      | [] =>
          match b_next b with
          | e :: next => read_loop fuel (MkBuffer e next (b_closed b)) want got
          | [] =>
              if (0 <? length got)%nat then (b, ReadDone got None)
              else if b_closed b then (b, ReadDone got (Some EOF))
              else (b, ReadWaits)
          end
      end
  end.

Definition buffer_Read (b : buffer) (want : nat) : buffer * read_result :=
  read_loop (S (want + length (b_next b))) b want [].

(** ** window (common.go) *)
Record window := MkWindow { w_win : Z; w_closed : bool }.

Definition window_add (w : window) (win : Z) : window * bool :=
  if win =? 0 then (w, true)
  else if u32 (w_win w + win) <? win then (w, false)
  else (MkWindow (u32 (w_win w + win)) (w_closed w), true).

Definition window_close (w : window) : window := MkWindow (w_win w) true.

(** [None]: no window and not closed, [reserve] waits. *)
Definition window_reserve (w : window) (win : Z) : option (window * Z * option error) :=
  if (w_win w =? 0) && negb (w_closed w) then None
  else
    let win := if w_win w <? win then w_win w else win in
    Some (MkWindow (w_win w - win) (w_closed w), win, if w_closed w then Some EOF else None).

(** ** Channels *)
Definition minPacketLength : Z := 9.
Definition channelMaxPacket : Z := Z.shiftl 1 15.
Definition channelWindowSize : Z := 64 * channelMaxPacket.
Definition chanSize : Z := 16.

Inductive channelDirection := channelInbound | channelOutbound.

(** A request as the application receives it. *)
Record Request := MkRequest { rq_Type : gostring; rq_WantReply : bool; rq_Payload : gostring }.

(** The fields of [channel], grouped: what never changes, the receiving side,
    the sending side, the protocol state. *)
Record chan_const := MkConst {
  cc_ptr : nat;  (* the pointer *)
  cc_chanType : gostring; cc_extraData : gostring; cc_direction : channelDirection; cc_localId : Z }.
Record chan_in := MkIn {
  ci_maxIncomingPayload : Z; ci_myWindow : Z; ci_myConsumed : Z; ci_pending : buffer; ci_extPending : buffer }.
Record chan_out := MkOut {
  co_remoteId : Z; co_maxRemotePayload : Z; co_remoteWin : window; co_sentEOF : bool; co_sentClose : bool }.
Record chan_ctl := MkCtl {
  ct_decided : bool; ct_msg : list message; ct_sentRequestPending : bool;
  ct_incomingRequests : list Request; ct_closed : bool }.
Record channel := MkChannel { ch_const : chan_const; ch_in : chan_in; ch_out : chan_out; ch_ctl : chan_ctl }.

Definition set_in (ch : channel) (i : chan_in) : channel := MkChannel (ch_const ch) i (ch_out ch) (ch_ctl ch).
Definition set_out (ch : channel) (o : chan_out) : channel := MkChannel (ch_const ch) (ch_in ch) o (ch_ctl ch).
Definition set_ctl (ch : channel) (c : chan_ctl) : channel := MkChannel (ch_const ch) (ch_in ch) (ch_out ch) c.

Definition set_decided (ch : channel) : channel :=
  let c := ch_ctl ch in
  set_ctl ch (MkCtl true (ct_msg c) (ct_sentRequestPending c) (ct_incomingRequests c) (ct_closed c)).
Definition set_msg (ch : channel) (msg : list message) : channel :=
  let c := ch_ctl ch in
  set_ctl ch (MkCtl (ct_decided c) msg (ct_sentRequestPending c) (ct_incomingRequests c) (ct_closed c)).
Definition set_requestPending (ch : channel) (b : bool) : channel :=
  let c := ch_ctl ch in
  set_ctl ch (MkCtl (ct_decided c) (ct_msg c) b (ct_incomingRequests c) (ct_closed c)).
Definition set_requests (ch : channel) (rs : list Request) : channel :=
  let c := ch_ctl ch in
  set_ctl ch (MkCtl (ct_decided c) (ct_msg c) (ct_sentRequestPending c) rs (ct_closed c)).
Definition set_remoteWin (ch : channel) (w : window) : channel :=
  let o := ch_out ch in
  set_out ch (MkOut (co_remoteId o) (co_maxRemotePayload o) w (co_sentEOF o) (co_sentClose o)).
Definition set_sentClose (ch : channel) (b : bool) : channel :=
  let o := ch_out ch in
  set_out ch (MkOut (co_remoteId o) (co_maxRemotePayload o) (co_remoteWin o) (co_sentEOF o) b).
Definition set_sentEOF (ch : channel) : channel :=
  let o := ch_out ch in
  set_out ch (MkOut (co_remoteId o) (co_maxRemotePayload o) (co_remoteWin o) true (co_sentClose o)).
Definition set_peer (ch : channel) (remoteId maxRemotePayload : Z) : channel :=
  let o := ch_out ch in
  set_out ch (MkOut remoteId maxRemotePayload (co_remoteWin o) (co_sentEOF o) (co_sentClose o)).
Definition with_window (i : chan_in) (myWindow myConsumed : Z) : chan_in :=
  MkIn (ci_maxIncomingPayload i) myWindow myConsumed (ci_pending i) (ci_extPending i).
Definition set_window (ch : channel) (myWindow myConsumed : Z) : channel :=
  set_in ch (with_window (ch_in ch) myWindow myConsumed).
Definition set_pending (ch : channel) (b : buffer) : channel :=
  let i := ch_in ch in
  set_in ch (MkIn (ci_maxIncomingPayload i) (ci_myWindow i) (ci_myConsumed i) b (ci_extPending i)).
Definition set_extPending (ch : channel) (b : buffer) : channel :=
  let i := ch_in ch in
  set_in ch (MkIn (ci_maxIncomingPayload i) (ci_myWindow i) (ci_myConsumed i) (ci_pending i) b).

(** ** The connection *)
Record conn := MkConn { c_sent : list (option nat * gostring); c_err : option error }.

(** [packetConn.writePacket] for a channel ([Some]) or the mux itself. *)
Definition conn_write (k : conn) (who : option nat) (packet : gostring) : conn * option error :=
  match c_err k with
  | Some e => (k, Some e)
  | None => (MkConn (c_sent k ++ [(who, packet)]) None, None)
  end.

(** ** Sending *)
Definition is_close (packet : gostring) : bool :=
  match packet with b :: _ => bv b =? msgChannelClose | [] => false end.

Definition writePacket (ch : channel) (k : conn) (packet : gostring) : channel * conn * option error :=
  if co_sentClose (ch_out ch) then (ch, k, Some EOF)
  else
    let ch := set_sentClose ch (is_close packet) in
    let '(k, err) := conn_write k (Some (cc_ptr (ch_const ch))) packet in
    (ch, k, err).

Definition sendMessage `{Message A} (ch : channel) (k : conn) (msg : A) : channel * conn * option error :=
  let p := MarshalMsg msg in
  let p := take 1 p ++ be_bytes 4 (co_remoteId (ch_out ch)) ++ drop 5 p in
  writePacket ch k p.

Definition minPayloadSize (limit length : Z) : Z :=
  if limit <? length then limit else u32 length.

Definition data_packet (remoteId extendedCode : Z) (todo : gostring) : gostring :=
  [vb (if 0 <? extendedCode then msgChannelExtendedData else msgChannelData)]
  ++ be_bytes 4 remoteId
  ++ (if 0 <? extendedCode then be_bytes 4 extendedCode else [])
  ++ be_bytes 4 (len todo) ++ todo.

Inductive write_result :=
| Wrote (n : Z) (err : option error)       (* returned *)
| WriteWaits (data : gostring) (n : Z)     (* in [reserve], with this much left *)
| WriteSpins.                              (* out of fuel *)

(** The loop of [WriteExtended], also to resume it when it waited. *)
Fixpoint write_loop (fuel : nat) (ch : channel) (k : conn) (data : gostring) (extendedCode n : Z) :
    channel * conn * write_result :=
  match fuel with
  | O => (ch, k, WriteSpins)
  | S fuel =>
      if len data =? 0 then (ch, k, Wrote n None)
      else
        let space := minPayloadSize (co_maxRemotePayload (ch_out ch)) (len data) in
        match window_reserve (co_remoteWin (ch_out ch)) space with
        | None => (ch, k, WriteWaits data n)
        | Some (w, space, Some err) => (set_remoteWin ch w, k, Wrote n (Some err))
        | Some (w, space, None) =>
            let ch := set_remoteWin ch w in
            let todo := take (Z.to_nat space) data in
            let '(ch, k, err) := writePacket ch k (data_packet (co_remoteId (ch_out ch)) extendedCode todo) in
            match err with
            | Some err => (ch, k, Wrote n (Some err))
            | None => write_loop fuel ch k (drop (length todo) data) extendedCode (n + len todo)
            end
        end
  end.

Definition WriteExtended (ch : channel) (k : conn) (data : gostring) (extendedCode : Z) :
    channel * conn * write_result :=
  if co_sentEOF (ch_out ch) then (ch, k, Wrote 0 (Some EOF))
  else write_loop (S (length data)) ch k data extendedCode 0.

(** ** Receiving *)
Definition errPayloadSize : error := errors_New (go "ssh: incoming packet exceeds maximum payload size").
Definition errPacketLength : error := errors_New (go "ssh: wrong packet length").
Definition errWroteTooMuch : error := errors_New (go "ssh: remote side wrote too much").

Definition adjustWindow (c : channel) (k : conn) (adj : Z) : channel * conn * option error :=
  let i := ch_in c in
  let myConsumed := u32 (ci_myConsumed i + adj) in
  if (u32 (3 * ci_maxIncomingPayload i) <? u32 (channelWindowSize - ci_myWindow i))
     || (ci_myWindow i <? channelWindowSize / 2)
  then
    let sendAdj := myConsumed in
    let c := set_window c (u32 (ci_myWindow i + sendAdj)) 0 in
    if sendAdj =? 0 then (c, k, None)
    else sendMessage c k (Mk_windowAdjustMsg 0 sendAdj)
  else (set_window c (ci_myWindow i) myConsumed, k, None).

Definition is_EOF (err : option error) : bool := bool_decide (err = Some EOF).

Definition handleData (ch : channel) (k : conn) (packet : gostring) : channel * conn * option error :=
  let b0 := match packet with b :: _ => bv b | [] => 0 end in
  let isExtendedData := b0 =? msgChannelExtendedData in
  let headerLen := if isExtendedData then 13%nat else 9%nat in
  if len packet <? Z.of_nat headerLen then (ch, k, Some (parseError b0))
  else
    let extended := if isExtendedData then be_value (take 4 (drop 5 packet)) else 0 in
    let length := be_value (take 4 (drop (headerLen - 4) packet)) in
    if length =? 0 then (ch, k, None)
    else if ci_maxIncomingPayload (ch_in ch) <? length then (ch, k, Some errPayloadSize)
    else
      let data := drop headerLen packet in
      if negb (length =? u32 (len data)) then (ch, k, Some errPacketLength)
      else if ci_myWindow (ch_in ch) <? length then (ch, k, Some errWroteTooMuch)
      else
        let ch := set_window ch (u32 (ci_myWindow (ch_in ch) - length)) (ci_myConsumed (ch_in ch)) in
        if extended =? 1 then (set_extPending ch (buffer_write (ci_extPending (ch_in ch)) data), k, None)
        else if 0 <? extended then
          let '(ch, k, err) := adjustWindow ch k length in
          (ch, k, if is_EOF err then None else err)
        else (set_pending ch (buffer_write (ci_pending (ch_in ch)) data), k, None).

(** The end of [ReadExtended], after the read of a buffer. *)
Definition finish_read (c : channel) (k : conn) (r : read_result) : channel * conn * read_result :=
  match r with
  | ReadWaits => (c, k, ReadWaits)
  | ReadDone bytes err =>
      if 0 <? len bytes then
        let '(c, k, err) := adjustWindow c k (u32 (len bytes)) in
        (c, k, ReadDone bytes (if is_EOF err then None else err))
      else (c, k, ReadDone bytes err)
  end.

Definition ReadExtended (c : channel) (k : conn) (want : nat) (extended : Z) : channel * conn * read_result :=
  if extended =? 1 then
    let '(b, r) := buffer_Read (ci_extPending (ch_in c)) want in finish_read (set_extPending c b) k r
  else if extended =? 0 then
    let '(b, r) := buffer_Read (ci_pending (ch_in c)) want in finish_read (set_pending c b) k r
  else (c, k, ReadDone [] (Some (errors_New (go "ssh: extended code " ++ Itoa extended ++ go " unimplemented")))).

(** [close], made idempotent by [closeOnce]. *)
Definition close (c : channel) : channel :=
  if ct_closed (ch_ctl c) then c
  else
    let i := ch_in c in let o := ch_out c in let t := ch_ctl c in
    MkChannel (ch_const c)
      (MkIn (ci_maxIncomingPayload i) (ci_myWindow i) (ci_myConsumed i)
         (buffer_eof (ci_pending i)) (buffer_eof (ci_extPending i)))
      (MkOut (co_remoteId o) (co_maxRemotePayload o) (window_close (co_remoteWin o)) (co_sentEOF o) true)
      (MkCtl (ct_decided t) (ct_msg t) (ct_sentRequestPending t) (ct_incomingRequests t) true).

Definition responseMessageReceived (ch : channel) : res channel :=
  match cc_direction (ch_const ch) with
  | channelInbound => Err (errors_New (go "ssh: channel response message received on inbound channel"))
  | channelOutbound =>
      if ct_decided (ch_ctl ch)
      then Err (errors_New (go "ssh: duplicate response received for channel"))
      else Ok (set_decided ch)
  end.

(** ** The application's calls *)
Definition errUndecided : error := errors_New (go "ssh: must Accept or Reject channel").
Definition errDecidedAlready : error := errors_New (go "ssh: can call Accept or Reject only once").

Definition Accept (ch : channel) (k : conn) : channel * conn * option error :=
  if ct_decided (ch_ctl ch) then (ch, k, Some errDecidedAlready)
  else
    sendMessage (set_decided ch) k
      (Mk_channelOpenConfirmMsg (co_remoteId (ch_out ch)) (cc_localId (ch_const ch))
         (ci_myWindow (ch_in ch)) (ci_maxIncomingPayload (ch_in ch)) []).

Definition Read (ch : channel) (k : conn) (want : nat) : channel * conn * read_result :=
  if negb (ct_decided (ch_ctl ch)) then (ch, k, ReadDone [] (Some errUndecided))
  else ReadExtended ch k want 0.

Definition Write (ch : channel) (k : conn) (data : gostring) : channel * conn * write_result :=
  if negb (ct_decided (ch_ctl ch)) then (ch, k, Wrote 0 (Some errUndecided))
  else WriteExtended ch k data 0.

Definition CloseWrite (ch : channel) (k : conn) : channel * conn * option error :=
  if negb (ct_decided (ch_ctl ch)) then (ch, k, Some errUndecided)
  else sendMessage (set_sentEOF ch) k (Mk_channelEOFMsg (co_remoteId (ch_out ch))).

Definition Close (ch : channel) (k : conn) : channel * conn * option error :=
  if negb (ct_decided (ch_ctl ch)) then (ch, k, Some errUndecided)
  else sendMessage ch k (Mk_channelCloseMsg (co_remoteId (ch_out ch))).

Definition ackRequest (ch : channel) (k : conn) (ok : bool) : channel * conn * option error :=
  if negb (ct_decided (ch_ctl ch)) then (ch, k, Some errUndecided)
  else if ok then sendMessage ch k (Mk_channelRequestSuccessMsg (co_remoteId (ch_out ch)))
  else sendMessage ch k (Mk_channelRequestFailureMsg (co_remoteId (ch_out ch))).

(** [SendRequest] up to the point where it returns or waits for the reply. *)
Inductive request_result := Requested (ok : bool) (err : option error) | RequestWaits.

Definition SendRequest (ch : channel) (k : conn) (name : gostring) (wantReply : bool) (payload : gostring) :
    channel * conn * request_result :=
  if negb (ct_decided (ch_ctl ch)) then (ch, k, Requested false (Some errUndecided))
  else
    let ch := if wantReply then set_msg (set_requestPending ch true) [] else ch in
    let '(ch, k, err) :=
      sendMessage ch k (Mk_channelRequestMsg (co_remoteId (ch_out ch)) name wantReply payload) in
    match err with
    | Some e => (if wantReply then set_requestPending ch false else ch, k, Requested false (Some e))
    | None => if wantReply then (ch, k, RequestWaits) else (ch, k, Requested false None)
    end.

(** The rest of a [SendRequest] that waits; [None] while there is no reply. *)
Definition SendRequest_reply (ch : channel) : option (channel * request_result) :=
  match ct_msg (ch_ctl ch) with
  | m :: ms =>
      let ch := set_requestPending (set_msg ch ms) false in
      Some (ch, match m with
                | M_channelRequestFailure _ => Requested false None
                | M_channelRequestSuccess _ => Requested true None
                | _ => Requested false (Some (errors_New (go "ssh: unexpected response to channel request")))
                end)
  | [] =>
      if ct_closed (ch_ctl ch) then Some (set_requestPending ch false, Requested false (Some EOF)) else None
  end.

(** ** Buffers are queues of bytes *)
Definition contents (b : buffer) : gostring := b_head b ++ concat (b_next b).

(** What [Read] promises: bytes come out as they went in; it waits exactly
    when there are none and reports the end exactly when there will be none. *)
Definition queue_read (q : gostring) (closed : bool) (want : nat) : gostring * read_result :=
  if (want =? 0)%nat then (q, ReadDone [] None)
  else match q with
  | [] => (q, if closed then ReadDone [] (Some EOF) else ReadWaits)
  | _ => (drop want q, ReadDone (take want q) None)
  end.

Lemma read_loop_spec fuel b want got :
  (want + length (b_next b) < fuel)%nat ->
  let '(b', r) := read_loop fuel b want got in
  b_closed b' = b_closed b /\
  contents b' = drop want (contents b) /\
  r = (if (0 <? length (got ++ take want (contents b)))%nat || (want =? 0)%nat
       then ReadDone (got ++ take want (contents b)) None
       else if b_closed b then ReadDone [] (Some EOF) else ReadWaits).
Proof.
  revert b want got. induction fuel as [|fuel IH]; intros [hd next cl] want got Hf; [lia|].
  cbn [read_loop b_head b_next b_closed] in *. unfold contents in *.
  destruct (Nat.eqb_spec want 0) as [->|Hw].
  { cbn [b_head b_next b_closed]. by rewrite take_0, drop_0, app_nil_r, orb_true_r. }
  rewrite orb_false_r. destruct hd as [|x hd].
  - destruct next as [|e next]; cbn [concat app b_head b_next b_closed].
    + rewrite take_nil, drop_nil, app_nil_r. destruct (Nat.ltb_spec 0 (length got)) as [|Hg]; [done|].
      destruct got; [|cbn in Hg; lia]. by destruct cl.
    + specialize (IH (MkBuffer e next cl) want got ltac:(cbn in *; lia)). cbn [b_head b_next b_closed] in IH.
      by rewrite (proj2 (Nat.eqb_neq want 0) Hw), orb_false_r in IH.
  - set (h := x :: hd) in *. set (r := Nat.min want (length h)).
    assert (0 < r)%nat as Hr by (subst r h; cbn [length]; lia).
    specialize (IH (MkBuffer (drop r h) next cl) (want - r)%nat (got ++ take r h) ltac:(cbn in *; lia)).
    cbn [b_head b_next b_closed] in *. destruct (read_loop _ _ _ _) as [b' res].
    destruct IH as (H1 & H2 & H3). split; [done|]. set (rest := concat next) in *.
    assert (drop r h ++ rest = drop r (h ++ rest)) as HD by (rewrite drop_app_le; [done|subst r; lia]).
    assert (take r h = take r (h ++ rest)) as HT by (rewrite take_app_le; [done|subst r; lia]).
    split; [rewrite H2, HD, drop_drop; f_equal; subst r; lia|].
    rewrite H3, HD, HT, <- app_assoc.
    assert (take r (h ++ rest) ++ take (want - r) (drop r (h ++ rest)) = take want (h ++ rest)) as ->.
    { rewrite <- (take_drop r (take want (h ++ rest))). f_equal.
      - rewrite take_take. f_equal. subst r. lia.
      - rewrite take_drop_commute. do 2 f_equal. subst r. lia. }
    assert ((0 <? length (got ++ take want (h ++ rest)))%nat = true) as ->; [|done].
    apply Nat.ltb_lt. rewrite length_app, length_take, length_app. subst r. lia.
Qed.

Lemma buffer_write_contents b s : contents (buffer_write b s) = contents b ++ s.
Proof. unfold contents. cbn. rewrite concat_app, app_assoc. cbn. by rewrite app_nil_r. Qed.

Lemma buffer_Read_queue b want :
  let '(b', r) := buffer_Read b want in
  (contents b', r) = queue_read (contents b) (b_closed b) want /\ b_closed b' = b_closed b.
Proof.
  unfold buffer_Read. pose proof (read_loop_spec (S (want + length (b_next b))) b want [] ltac:(lia)) as H.
  destruct (read_loop _ _ _ _) as [b' r]. destruct H as (H1 & -> & ->). split; [|done]. cbn [app].
  unfold queue_read. destruct (Nat.eqb_spec want 0) as [->|Hw]; [by rewrite take_0, drop_0, orb_true_r|].
  rewrite orb_false_r. destruct (contents b) as [|x q]; [by rewrite take_nil, drop_nil; destruct (b_closed b)|].
  destruct want; [done|]. done.
Qed.

(** The buffer of a channel is a queue: writing appends, and reading is
    exactly [queue_read] on its contents, however the contents are cut into
    packets. *)
Lemma buffer_refines_queue b s want :
  contents newBuffer = [] /\ contents (buffer_write b s) = contents b ++ s /\
  contents (buffer_eof b) = contents b /\
  (let '(b', r) := buffer_Read b want in
   (contents b', r) = queue_read (contents b) (b_closed b) want /\ b_closed b' = b_closed b).
Proof.
  split; [done|]. split; [apply buffer_write_contents|]. split; [done|]. apply buffer_Read_queue.
Qed.

(** ** The receive window is conserved *)
Lemma channelWindowSize_eq : channelWindowSize = 2097152.
Proof. reflexivity. Qed.
Lemma channelMaxPacket_eq : channelMaxPacket = 32768.
Proof. reflexivity. Qed.

Definition unread (i : chan_in) : Z := len (contents (ci_pending i)) + len (contents (ci_extPending i)).

(** Window, consumed bytes, unread bytes and [slack] bytes in the hands of an
    operation make up the window the channel was opened with. *)
Definition flow (slack : Z) (i : chan_in) : Prop :=
  0 <= ci_myWindow i /\ 0 <= ci_myConsumed i /\ ci_maxIncomingPayload i = channelMaxPacket /\
  ci_myWindow i + ci_myConsumed i + unread i + slack = channelWindowSize.

Lemma u32_id z : 0 <= z < 2 ^ 32 -> u32 z = z.
Proof. apply Z.mod_small. Qed.

Lemma unread_nonneg i : 0 <= unread i.
Proof. unfold unread. pose proof (len_nonneg (contents (ci_pending i))). pose proof (len_nonneg (contents (ci_extPending i))). lia. Qed.

(** What a packet write leaves alone. *)
Definition same_but_close (ch ch' : channel) : Prop :=
  ch_const ch' = ch_const ch /\ ch_in ch' = ch_in ch /\ ch_ctl ch' = ch_ctl ch /\
  co_remoteId (ch_out ch') = co_remoteId (ch_out ch) /\
  co_maxRemotePayload (ch_out ch') = co_maxRemotePayload (ch_out ch) /\
  co_remoteWin (ch_out ch') = co_remoteWin (ch_out ch) /\ co_sentEOF (ch_out ch') = co_sentEOF (ch_out ch).

Lemma writePacket_frame ch k p ch' k' e : writePacket ch k p = (ch', k', e) -> same_but_close ch ch'.
Proof.
  unfold writePacket. destruct (co_sentClose (ch_out ch)); [intros [= <- <- <-]; done|].
  destruct (conn_write _ _ _). by intros [= <- <- <-].
Qed.

Lemma sendMessage_frame `{Message A} ch k (m : A) ch' k' e :
  sendMessage ch k m = (ch', k', e) -> same_but_close ch ch'.
Proof. apply writePacket_frame. Qed.

Lemma adjustWindow_flow c k adj c' k' e :
  adjustWindow c k adj = (c', k', e) -> 0 <= adj -> flow adj (ch_in c) ->
  flow 0 (ch_in c') /\ ch_const c' = ch_const c /\ ch_ctl c' = ch_ctl c /\
  co_maxRemotePayload (ch_out c') = co_maxRemotePayload (ch_out c) /\
  co_remoteWin (ch_out c') = co_remoteWin (ch_out c).
Proof.
  unfold adjustWindow. intros E Ha (H1 & H2 & H3 & H4). pose proof (unread_nonneg (ch_in c)).
  pose proof channelWindowSize_eq as HS. rewrite (u32_id (ci_myConsumed _ + adj)) in E by lia.
  assert (flow 0 (with_window (ch_in c) (u32 (ci_myWindow (ch_in c) + (ci_myConsumed (ch_in c) + adj))) 0)) as HF1.
  { rewrite u32_id by lia. unfold flow, unread in *. cbn. repeat split; lia || done. }
  destruct (_ || _).
  - destruct (_ =? 0).
    + injection E as <- <- <-. done.
    + apply sendMessage_frame in E as (E1 & E2 & E3 & _ & E5 & E6 & _). rewrite E1, E2, E3, E5, E6. done.
  - injection E as <- <- <-. unfold flow, unread in *. cbn. repeat split; lia || done.
Qed.

(** ** What an operation does to the connection *)

(** The packets [new] a channel adds: none once the close was sent, and none
    after a close. *)
Definition emits (ch : channel) (k : conn) (ch' : channel) (k' : conn) : Prop :=
  ch_const ch' = ch_const ch /\
  exists new, c_sent k' = c_sent k ++ map (pair (Some (cc_ptr (ch_const ch)))) new /\
    (co_sentClose (ch_out ch) = true -> new = [] /\ co_sentClose (ch_out ch') = true) /\
    (forall pre x post, new = pre ++ x :: post -> is_close x = true -> post = [] /\ co_sentClose (ch_out ch') = true).

Lemma emits_refl ch ch' k :
  ch_const ch' = ch_const ch -> (co_sentClose (ch_out ch) = true -> co_sentClose (ch_out ch') = true) ->
  emits ch k ch' k.
Proof.
  intros H1 H2. split; [done|]. exists []. rewrite app_nil_r. repeat split; auto.
  all: by destruct pre.
Qed.

Lemma emits_trans c1 k1 c2 k2 c3 k3 : emits c1 k1 c2 k2 -> emits c2 k2 c3 k3 -> emits c1 k1 c3 k3.
Proof.
  intros (E1 & n1 & S1 & A1 & B1) (E2 & n2 & S2 & A2 & B2). split; [congruence|]. exists (n1 ++ n2).
  split; [by rewrite S2, S1, E1, map_app, app_assoc|]. split.
  - intros H. destruct (A1 H) as [-> H']. destruct (A2 H') as [-> H'']. done.
  - intros pre x post Hn Hx. apply app_eq_inv in Hn as [(l & -> & Hl)|(l & -> & Hl)].
    + destruct l as [|y l]; cbn in Hl; [|injection Hl as <- ->].
      * destruct (B2 [] x post ltac:(by rewrite <- Hl)) as [??]; done.
      * destruct (B1 _ _ _ eq_refl Hx) as [-> H']. destruct (A2 H') as [-> H'']. done.
    + exact (B2 _ _ _ Hl Hx).
Qed.

Lemma writePacket_emits ch k p ch' k' e : writePacket ch k p = (ch', k', e) -> emits ch k ch' k'.
Proof.
  unfold writePacket. destruct (co_sentClose (ch_out ch)) eqn:EC; [intros [= <- <- <-]; by apply emits_refl|].
  unfold conn_write. destruct (c_err k); intros [= <- <- <-]; split; try done.
  - exists []. rewrite app_nil_r. rewrite EC. repeat split; try done. all: by destruct pre.
  - exists [p]. split; [done|]. rewrite EC. split; [done|]. intros pre x post Hn Hx.
    destruct pre as [|? [|]]; [|done..]. injection Hn as <- <-. done.
Qed.

Lemma sendMessage_emits `{Message A} ch k (m : A) ch' k' e :
  sendMessage ch k m = (ch', k', e) -> emits ch k ch' k'.
Proof. apply writePacket_emits. Qed.

(** ** The invariant of a channel *)
Definition window_ok (w : window) : Prop := 0 <= w_win w < 2 ^ 32.
Definition chan_inv (ch : channel) : Prop :=
  flow 0 (ch_in ch) /\ window_ok (co_remoteWin (ch_out ch)) /\ 0 <= co_maxRemotePayload (ch_out ch) <= 2 ^ 31.

(** What calls of the application leave alone: they do not close the channel,
    change the packet size or queue messages. *)
Definition keeps (ch ch' : channel) : Prop :=
  ct_closed (ch_ctl ch') = ct_closed (ch_ctl ch) /\
  co_maxRemotePayload (ch_out ch') = co_maxRemotePayload (ch_out ch) /\
  ct_msg (ch_ctl ch') ⊆ ct_msg (ch_ctl ch).

Lemma keeps_trans c1 c2 c3 : keeps c1 c2 -> keeps c2 c3 -> keeps c1 c3.
Proof. intros (A1 & A2 & A3) (B1 & B2 & B3). repeat split; [congruence..|]. set_solver. Qed.

#[export] Hint Extern 0 (keeps _ _) =>
  (split; [reflexivity|split; [reflexivity|first [reflexivity|apply list_subseteq_nil]]]) : core.

(** An operation keeps the invariant and writes only as [emits] allows. *)
Definition sound_op (ch : channel) (k : conn) (ch' : channel) (k' : conn) : Prop :=
  emits ch k ch' k' /\ (chan_inv ch -> chan_inv ch') /\ keeps ch ch'.

Lemma sound_op_trans c1 k1 c2 k2 c3 k3 : sound_op c1 k1 c2 k2 -> sound_op c2 k2 c3 k3 -> sound_op c1 k1 c3 k3.
Proof.
  intros (H1 & H2 & H3) (H4 & H5 & H6). split; [by eapply emits_trans|]. split; [auto|by eapply keeps_trans].
Qed.

Lemma sound_op_refl ch ch' k :
  ch_const ch' = ch_const ch -> (co_sentClose (ch_out ch) = true -> co_sentClose (ch_out ch') = true) ->
  keeps ch ch' -> (chan_inv ch -> chan_inv ch') -> sound_op ch k ch' k.
Proof. intros H1 H2 H3 H4. split; [by apply emits_refl|done]. Qed.

(** Changes of the protocol state alone. *)
Lemma sound_op_ctl ch ch' k :
  ch_const ch' = ch_const ch -> ch_in ch' = ch_in ch -> ch_out ch' = ch_out ch -> keeps ch ch' -> sound_op ch k ch' k.
Proof. intros H1 H2 H3 H4. apply sound_op_refl; [done|by rewrite H3|done|]. unfold chan_inv. by rewrite H2, H3. Qed.

Lemma same_but_close_inv ch ch' : same_but_close ch ch' -> chan_inv ch -> chan_inv ch'.
Proof. intros (H1 & H2 & H3 & H4 & H5 & H6 & H7). unfold chan_inv. by rewrite H2, H5, H6. Qed.

Lemma same_but_close_keeps ch ch' : same_but_close ch ch' -> keeps ch ch'.
Proof. intros (H1 & H2 & H3 & H4 & H5 & H6 & H7). unfold keeps. by rewrite H3, H5. Qed.

Lemma writePacket_sound ch k p ch' k' e : writePacket ch k p = (ch', k', e) -> sound_op ch k ch' k'.
Proof.
  intros E. split; [by eapply writePacket_emits|]. apply writePacket_frame in E.
  split; [by apply same_but_close_inv|by apply same_but_close_keeps].
Qed.

Lemma sendMessage_sound `{Message A} ch k (m : A) ch' k' e :
  sendMessage ch k m = (ch', k', e) -> sound_op ch k ch' k'.
Proof. apply writePacket_sound. Qed.

Lemma window_add_ok w n : window_ok w -> window_ok (fst (window_add w n)).
Proof.
  unfold window_add, window_ok. intros H. destruct (n =? 0); [done|]. destruct (_ <? _); [done|].
  apply Z.mod_pos_bound. done.
Qed.

(** The sum of window and grant never wraps: either it fits and is added, or the
    grant is refused. *)
Lemma window_add_exact w n :
  window_ok w -> 0 <= n < 2 ^ 32 ->
  window_add w n = if w_win w + n <? 2 ^ 32 then (MkWindow (w_win w + n) (w_closed w), true) else (w, false).
Proof.
  unfold window_ok, window_add, u32. intros H Hn. destruct (Z.eqb_spec n 0) as [->|Hz].
  { rewrite (proj2 (Z.ltb_lt (w_win w + 0) (2 ^ 32))) by lia. rewrite Z.add_0_r. by destruct w. }
  destruct (Z.ltb_spec (w_win w + n) (2 ^ 32)).
  - rewrite Z.mod_small by lia. by rewrite (proj2 (Z.ltb_ge _ _)) by lia.
  - rewrite <- (Z.mod_unique (w_win w + n) (2 ^ 32) 1 (w_win w + n - 2 ^ 32)) by lia.
    by rewrite (proj2 (Z.ltb_lt _ _)) by lia.
Qed.

Lemma window_reserve_spec w n w' space e :
  window_ok w -> 0 <= n -> window_reserve w n = Some (w', space, e) ->
  window_ok w' /\ w_win w' + space = w_win w /\ 0 <= space <= n /\ w_closed w' = w_closed w /\
  (e = None -> w_closed w = false /\ (0 < n -> 0 < space)).
Proof.
  unfold window_ok, window_reserve. intros H Hn. destruct (Z.eqb_spec (w_win w) 0) as [Hz|Hz]; cbn [andb].
  - destruct (w_closed w) eqn:EC; [|done]. cbn [negb]. intros [= <- <- <-]. cbn [w_win w_closed].
    destruct (Z.ltb_spec (w_win w) n); repeat split; try done; lia.
  - intros [= <- <- <-]. cbn [w_win w_closed]. destruct (Z.ltb_spec (w_win w) n), (w_closed w); repeat split; done || lia.
Qed.

Lemma adjustWindow_emits c k adj c' k' e : adjustWindow c k adj = (c', k', e) -> emits c k c' k'.
Proof.
  unfold adjustWindow. destruct (_ || _).
  - destruct (_ =? 0); [intros [= <- <- <-]; by apply emits_refl|].
    intros E%sendMessage_emits. exact E.
  - intros [= <- <- <-]. by apply emits_refl.
Qed.

Lemma adjustWindow_keeps c k adj c' k' e : adjustWindow c k adj = (c', k', e) -> keeps c c'.
Proof.
  unfold adjustWindow. destruct (_ || _); [destruct (_ =? 0)|]; try (intros [= <- <- <-]; done).
  intros E%sendMessage_frame. apply same_but_close_keeps in E. exact E.
Qed.

(** Handing [slack] bytes to [adjustWindow] restores the invariant. *)
Lemma adjustWindow_inv c k adj c' k' e :
  adjustWindow c k adj = (c', k', e) -> 0 <= adj -> flow adj (ch_in c) ->
  window_ok (co_remoteWin (ch_out c)) -> 0 <= co_maxRemotePayload (ch_out c) <= 2 ^ 31 -> chan_inv c'.
Proof.
  intros E Ha HF HW HM. destruct (adjustWindow_flow _ _ _ _ _ _ E Ha HF) as (H1 & _ & _ & H4 & H5).
  unfold chan_inv. by rewrite H4, H5.
Qed.

Lemma handleData_sound ch k packet ch' k' e :
  len packet < 2 ^ 32 -> handleData ch k packet = (ch', k', e) -> sound_op ch k ch' k'.
Proof.
  intros Hp. unfold handleData.
  set (b0 := match packet with b :: _ => bv b | [] => 0 end). set (hl := if _ =? msgChannelExtendedData then 13%nat else 9%nat).
  destruct (len packet <? Z.of_nat hl); [intros [= <- <- <-]; by apply sound_op_ctl|].
  set (ext := if _ =? msgChannelExtendedData then _ else _). set (n := be_value (take 4 (drop (hl - 4) packet))).
  destruct (Z.eqb_spec n 0) as [|Hn0]; [intros [= <- <- <-]; by apply sound_op_ctl|].
  destruct (Z.ltb_spec (ci_maxIncomingPayload (ch_in ch)) n) as [|Hmax]; [intros [= <- <- <-]; by apply sound_op_ctl|].
  set (data := drop hl packet).
  destruct (Z.eqb_spec n (u32 (len data))) as [Hlen|]; cbn [negb]; [|intros [= <- <- <-]; by apply sound_op_ctl].
  destruct (Z.ltb_spec (ci_myWindow (ch_in ch)) n) as [|Hwin]; [intros [= <- <- <-]; by apply sound_op_ctl|].
  assert (0 <= n) as Hn by apply be_value_range.
  assert (len data = n) as HD.
  { rewrite Hlen, u32_id; [done|]. pose proof (len_nonneg data). split; [done|].
    subst data. unfold len in *. rewrite length_drop. lia. }
  set (ch1 := set_window ch _ _).
  assert (chan_inv ch -> flow n (ch_in ch1)) as HF.
  { intros ((F1 & F2 & F3 & F4) & _). unfold flow, unread in *. cbn. pose proof (unread_nonneg (ch_in ch)).
    pose proof channelWindowSize_eq. unfold unread in *. rewrite u32_id by lia. repeat split; lia || done. }
  assert (forall b b', len (contents b) + len (contents b')
          = len (contents (ci_pending (ch_in ch))) + len (contents (ci_extPending (ch_in ch))) + n ->
          sound_op ch k (set_extPending (set_pending ch1 b) b') k) as HB.
  { intros b b' HL. apply sound_op_refl; [done..|]. intros HI. destruct (HF HI) as (F1 & F2 & F3 & F4).
    destruct HI as (_ & HW & HM). split; [|done]. unfold flow, unread in *. cbn in *. repeat split; lia || done. }
  destruct (ext =? 1).
  { intros [= <- <- <-]. apply (HB (ci_pending (ch_in ch)) (buffer_write (ci_extPending (ch_in ch)) data)).
    rewrite buffer_write_contents, len_app. lia. }
  destruct (0 <? ext).
  - destruct (adjustWindow ch1 k n) as [[c2 k2] e2] eqn:EA. intros [= <- <- <-]. split; [by apply adjustWindow_emits in EA|]. split.
    + intros HI. pose proof (HF HI). destruct HI as (_ & HW & HM). by eapply adjustWindow_inv.
    + by apply adjustWindow_keeps in EA.
  - intros [= <- <- <-]. apply (HB (buffer_write (ci_pending (ch_in ch)) data) (ci_extPending (ch_in ch))).
    rewrite buffer_write_contents, len_app. lia.
Qed.

Lemma queue_read_len q cl want q' bytes err :
  queue_read q cl want = (q', ReadDone bytes err) -> len q' + len bytes = len q.
Proof.
  unfold queue_read. destruct (want =? 0)%nat; [intros [= <- <- <-]; rewrite len_nil; lia|].
  destruct q as [|x q]; [destruct cl; [intros [= <- <- <-]; done|done]|].
  intros [= <- <- <-]. rewrite <- (take_drop want (x :: q)) at 3. rewrite len_app. lia.
Qed.

Lemma queue_read_waits q cl want q' : queue_read q cl want = (q', ReadWaits) -> q' = q.
Proof. unfold queue_read. destruct (want =? 0)%nat; [done|]. destruct q; [|done]. destruct cl; [done|]. by intros [= <-]. Qed.

(** The bytes a read took out of a buffer. *)
Definition taken (r : read_result) : Z := match r with ReadDone bytes _ => len bytes | ReadWaits => 0 end.

Lemma finish_read_sound c c1 k r1 c' k' r :
  ch_const c1 = ch_const c -> ch_out c1 = ch_out c -> ch_ctl c1 = ch_ctl c -> (chan_inv c -> flow (taken r1) (ch_in c1)) ->
  finish_read c1 k r1 = (c', k', r) -> sound_op c k c' k'.
Proof.
  intros H1 H2 H3 HF E. assert (keeps c c1) as HK by (unfold keeps; by rewrite H2, H3).
  assert (taken r1 <= 0 -> sound_op c k c1 k) as Hnone.
  { intros Ht. apply sound_op_refl; [done|by rewrite H2|done|]. intros HI. pose proof (HF HI) as HFI.
    assert (taken r1 = 0) as E0 by (destruct r1; cbn in *; [pose proof (len_nonneg bytes); lia|done]).
    rewrite E0 in HFI. destruct HI as (_ & HW & HM). unfold chan_inv. by rewrite H2. }
  destruct r1 as [bytes err|]; cbn [finish_read taken] in *; [|injection E as <- <- <-; by apply Hnone].
  destruct (Z.ltb_spec 0 (len bytes)) as [Hb|Hb]; [|injection E as <- <- <-; by apply Hnone].
  destruct (adjustWindow c1 k (u32 (len bytes))) as [[c2 k2] e2] eqn:EA. injection E as <- <- <-. split; [|split].
  - apply adjustWindow_emits in EA. unfold emits in *. by rewrite H1, H2 in EA.
  - intros HI. pose proof (HF HI) as HFI. assert (u32 (len bytes) = len bytes) as HU.
    { apply u32_id. destruct HFI as (F1 & F2 & F3 & F4). pose proof (unread_nonneg (ch_in c1)).
      pose proof channelWindowSize_eq. lia. }
    rewrite HU in EA. destruct HI as (_ & HW & HM).
    eapply adjustWindow_inv; [exact EA|lia|done|by rewrite H2|by rewrite H2].
  - eapply keeps_trans; [exact HK|]. by eapply adjustWindow_keeps.
Qed.

Lemma buffer_Read_taken bf want b r : buffer_Read bf want = (b, r) -> len (contents b) + taken r = len (contents bf).
Proof.
  intros E. pose proof (buffer_Read_queue bf want) as H. rewrite E in H. destruct H as [H _].
  destruct r; symmetry in H; [by apply queue_read_len in H|apply queue_read_waits in H as ->; cbn; lia].
Qed.

Lemma ReadExtended_sound c k want ext c' k' r :
  ReadExtended c k want ext = (c', k', r) -> sound_op c k c' k'.
Proof.
  unfold ReadExtended. destruct (ext =? 1); [|destruct (ext =? 0)].
  - destruct (buffer_Read _ want) as [b r1] eqn:EB. apply buffer_Read_taken in EB.
    apply finish_read_sound; [done..|]. intros ((F1 & F2 & F3 & F4) & _).
    unfold flow, unread in *; cbn; repeat split; lia || done.
  - destruct (buffer_Read _ want) as [b r1] eqn:EB. apply buffer_Read_taken in EB.
    apply finish_read_sound; [done..|]. intros ((F1 & F2 & F3 & F4) & _).
    unfold flow, unread in *; cbn; repeat split; lia || done.
  - intros [= <- <- <-]. by apply sound_op_ctl.
Qed.

(** ** Sending *)

(** What a write sent: the packets for [chunks], which fit the peer's packet
    size, stay within its window and are a prefix of the data; [n] counts
    exactly them. *)
Definition sent_chunks (ch ch' : channel) (k k' : conn) (code : Z) (data : gostring) (n : Z)
    (r : write_result) (chunks : list gostring) : Prop :=
  c_sent k' = c_sent k ++ map (fun t => (Some (cc_ptr (ch_const ch)), data_packet (co_remoteId (ch_out ch)) code t)) chunks /\
  Forall (fun t => 0 < len t <= co_maxRemotePayload (ch_out ch)) chunks /\
  w_win (co_remoteWin (ch_out ch')) + len (concat chunks) <= w_win (co_remoteWin (ch_out ch)) /\
  match r with
  | Wrote m None => concat chunks = data /\ m = n + len data
  | Wrote m (Some _) => (exists rest, concat chunks ++ rest = data) /\ m = n + len (concat chunks)
  | WriteWaits rest m =>
      rest <> [] /\ concat chunks ++ rest = data /\ m = n + len (concat chunks) /\ w_win (co_remoteWin (ch_out ch')) = 0
  | WriteSpins => False
  end.

Lemma data_packet_open remoteId code t : is_close (data_packet remoteId code t) = false.
Proof. unfold data_packet, is_close. by destruct (0 <? code). Qed.

Lemma sent_chunks_none ch ch' k k' code data n r :
  c_sent k' = c_sent k -> w_win (co_remoteWin (ch_out ch')) <= w_win (co_remoteWin (ch_out ch)) ->
  match r with
  | Wrote m None => data = [] /\ m = n
  | Wrote m (Some _) => m = n
  | WriteWaits rest m => rest = data /\ data <> [] /\ m = n /\ w_win (co_remoteWin (ch_out ch')) = 0
  | WriteSpins => False
  end -> sent_chunks ch ch' k k' code data n r [].
Proof.
  intros HK HW HR. unfold sent_chunks. cbn [map concat app]. rewrite app_nil_r. change (len (@nil ascii)) with 0.
  split; [done|]. split; [constructor|]. split; [lia|]. destruct r as [m [e|]|rest m|].
  - split; [by exists data|lia].
  - destruct HR as [-> ->]. by rewrite Z.add_0_r.
  - destruct HR as (-> & Hd & -> & HZ). repeat split; [done|lia|done].
  - done.
Qed.

Lemma sent_chunks_cons ch c2 ch' k k2 k' code todo data n r chunks :
  same_but_close (set_remoteWin ch (co_remoteWin (ch_out c2))) c2 ->
  c_sent k2 = c_sent k ++ [(Some (cc_ptr (ch_const ch)), data_packet (co_remoteId (ch_out ch)) code todo)] ->
  0 < len todo <= co_maxRemotePayload (ch_out ch) ->
  w_win (co_remoteWin (ch_out c2)) + len todo = w_win (co_remoteWin (ch_out ch)) ->
  sent_chunks c2 ch' k2 k' code data (n + len todo) r chunks ->
  sent_chunks ch ch' k k' code (todo ++ data) n r (todo :: chunks).
Proof.
  intros (F1 & F2 & F3 & F4 & F5 & F6 & F7) HK Ht HW (C1 & C2 & C3 & C4). cbn in F1, F4, F5.
  unfold sent_chunks. cbn [map concat]. rewrite !len_app. rewrite F1, F4 in C1. rewrite F5 in C2.
  split; [by rewrite C1, HK, <- app_assoc|]. split; [by constructor|]. split; [lia|].
  destruct r as [m [err|]|rest m|]; [..|done].
  - destruct C4 as ((rest & C4) & ->). split; [exists rest; by rewrite <- app_assoc, C4|lia].
  - destruct C4 as (-> & ->). split; [done|lia].
  - destruct C4 as (C4 & C5 & -> & C6). split; [done|]. split; [by rewrite <- app_assoc, C5|]. split; [lia|done].
Qed.

Lemma writePacket_sent ch k p ch' k' e :
  writePacket ch k p = (ch', k', e) ->
  c_sent k' = match e with
              | None => c_sent k ++ [(Some (cc_ptr (ch_const ch)), p)]
              | Some _ => c_sent k
              end.
Proof.
  unfold writePacket, conn_write. destruct (co_sentClose _); [by intros [= <- <- <-]|].
  destruct (c_err k); by intros [= <- <- <-].
Qed.

Lemma write_loop_spec fuel ch k data code n ch' k' r :
  (length data < fuel)%nat -> chan_inv ch -> 0 < co_maxRemotePayload (ch_out ch) ->
  write_loop fuel ch k data code n = (ch', k', r) ->
  sound_op ch k ch' k' /\ exists chunks, sent_chunks ch ch' k k' code data n r chunks.
Proof.
  revert ch k data n. induction fuel as [|fuel IH]; intros ch k data n Hf HI Hm E; [lia|]. cbn [write_loop] in E.
  pose proof HI as (_ & HW & HM). destruct (Z.eqb_spec (len data) 0) as [Hd|Hd].
  { injection E as <- <- <-. split; [by apply sound_op_ctl|]. exists []. apply sent_chunks_none; [done|lia|].
    destruct data; [done|]. rewrite len_cons in Hd. pose proof (len_nonneg data). lia. }
  pose proof (len_nonneg data). set (want := minPayloadSize _ _) in E.
  assert (0 < want <= co_maxRemotePayload (ch_out ch) /\ want <= len data) as [Hwant Hwd].
  { subst want. unfold minPayloadSize. destruct (Z.ltb_spec (co_maxRemotePayload (ch_out ch)) (len data)); [lia|].
    rewrite u32_id by lia. lia. }
  clearbody want. destruct (window_reserve _ want) as [[[w space] e]|] eqn:ER.
  2: { injection E as <- <- <-. split; [by apply sound_op_ctl|]. exists []. apply sent_chunks_none; [done|lia|].
       unfold window_reserve in ER. destruct (Z.eqb_spec (w_win (co_remoteWin (ch_out ch))) 0); [|done].
       repeat split; [|done]. intros ->. done. }
  destruct (window_reserve_spec _ want _ _ _ HW (Z.lt_le_incl _ _ (proj1 Hwant)) ER) as (HW' & Hsum & Hsp & _ & Hopen).
  assert (sound_op ch k (set_remoteWin ch w) k) as HS1.
  { apply sound_op_refl; [done..|]. intros (HF & _). by split. }
  destruct e as [e|].
  { injection E as <- <- <-. split; [done|]. exists []. apply sent_chunks_none; [done|cbn; lia|done]. }
  destruct (Hopen eq_refl) as [_ Hpos]. specialize (Hpos ltac:(lia)).
  set (todo := take (Z.to_nat space) data) in E.
  assert (len todo = space) as Htodo by (subst todo; unfold len in *; rewrite length_take; lia).
  destruct (writePacket _ _ _) as [[c2 k2] e2] eqn:EP.
  pose proof (writePacket_sound _ _ _ _ _ _ EP) as HS2. pose proof (writePacket_sent _ _ _ _ _ _ EP) as HK.
  pose proof (writePacket_frame _ _ _ _ _ _ EP) as HF. pose proof HF as (_ & _ & _ & _ & F5 & F6 & _).
  cbn in F5, F6. destruct e2 as [e2|].
  - injection E as <- <- <-. split; [by eapply sound_op_trans|]. exists [].
    apply sent_chunks_none; [done|rewrite F6; lia|done].
  - destruct (IH c2 k2 (drop (length todo) data) (n + len todo)) as (HS3 & chunks & HC).
    + rewrite length_drop. unfold len in Htodo, Hd. lia.
    + apply HS2, HS1, HI.
    + by rewrite F5.
    + exact E.
    + split; [eapply sound_op_trans; [exact HS1|]; by eapply sound_op_trans|]. exists (todo :: chunks).
      replace data with (todo ++ drop (length todo) data).
      2: { replace (length todo) with (Z.to_nat space) by (unfold len in Htodo; lia). apply take_drop. }
      eapply sent_chunks_cons; [by rewrite F6|exact HK|lia|rewrite F6; lia|exact HC].
Qed.

(** A write sends the data in order, in packets of at most the peer's
    packet size and together at most its window; it returns without an error
    only when everything was sent, counts exactly what was sent otherwise, and
    waits only with the window used up; it always returns or waits. *)
Lemma WriteExtended_correct ch k data code ch' k' r :
  chan_inv ch -> 0 < co_maxRemotePayload (ch_out ch) ->
  WriteExtended ch k data code = (ch', k', r) ->
  exists chunks, sent_chunks ch ch' k k' code data 0 r chunks.
Proof.
  intros HI Hm. unfold WriteExtended. destruct (co_sentEOF (ch_out ch)).
  - intros [= <- <- <-]. exists []. apply sent_chunks_none; done || lia.
  - intros E. by apply write_loop_spec in E as [_ H]; [|lia|..].
Qed.

Lemma Write_sound ch k data ch' k' r :
  0 < co_maxRemotePayload (ch_out ch) -> chan_inv ch -> Write ch k data = (ch', k', r) -> sound_op ch k ch' k'.
Proof.
  unfold Write, WriteExtended. intros Hm HI. destruct (negb _); [intros [= <- <- <-]; by apply sound_op_ctl|].
  destruct (co_sentEOF _); [intros [= <- <- <-]; by apply sound_op_ctl|].
  intros E. by apply write_loop_spec in E as [H _]; [|lia|..].
Qed.

(** ** The other operations *)
Lemma close_sound c k : emits c k (close c) k /\ (chan_inv c -> chan_inv (close c)).
Proof. unfold close. destruct (ct_closed _); (split; [by apply emits_refl|done]). Qed.

(** A change of the protocol state or the end-of-file flag, then a message. *)
Lemma send_after `{Message A} ch c1 k (m : A) ch' k' e :
  sound_op ch k c1 k -> sendMessage c1 k m = (ch', k', e) -> sound_op ch k ch' k'.
Proof. intros H1 H2%sendMessage_sound. by eapply sound_op_trans. Qed.

Ltac op_cases :=
  repeat match goal with
  | |- (if ?b then _ else _) = _ -> _ => destruct b
  | |- (_, _, _) = (_, _, _) -> _ => intros [= <- <- <-]; by apply sound_op_ctl
  | |- sendMessage _ _ _ = _ -> _ => apply send_after; try (by apply sound_op_ctl); try (by apply sound_op_refl)
  end.

Lemma Accept_sound ch k ch' k' e : Accept ch k = (ch', k', e) -> sound_op ch k ch' k'.
Proof. unfold Accept. op_cases. Qed.
Lemma CloseWrite_sound ch k ch' k' e : CloseWrite ch k = (ch', k', e) -> sound_op ch k ch' k'.
Proof. unfold CloseWrite. op_cases. Qed.
Lemma Close_sound ch k ch' k' e : Close ch k = (ch', k', e) -> sound_op ch k ch' k'.
Proof. unfold Close. op_cases. Qed.
Lemma ackRequest_sound ch k ok ch' k' e : ackRequest ch k ok = (ch', k', e) -> sound_op ch k ch' k'.
Proof. unfold ackRequest. op_cases. Qed.
Lemma Read_sound ch k want ch' k' r : Read ch k want = (ch', k', r) -> sound_op ch k ch' k'.
Proof. unfold Read. destruct (negb _); [op_cases|apply ReadExtended_sound]. Qed.

Lemma SendRequest_sound ch k name want payload ch' k' r :
  SendRequest ch k name want payload = (ch', k', r) -> sound_op ch k ch' k'.
Proof.
  unfold SendRequest. destruct (negb _); [op_cases|]. set (c1 := if want then _ else ch).
  assert (sound_op ch k c1 k) as H1 by (subst c1; destruct want; by apply sound_op_ctl).
  destruct (sendMessage _ _ _) as [[c2 k2] e2] eqn:E. apply (send_after _ _ _ _ _ _ _ H1) in E.
  assert (sound_op c2 k2 (set_requestPending c2 false) k2) as H2 by by apply sound_op_ctl.
  destruct e2, want; intros [= <- <- <-]; done || by eapply sound_op_trans.
Qed.

Lemma SendRequest_reply_sound ch k ch' r : SendRequest_reply ch = Some (ch', r) -> sound_op ch k ch' k.
Proof.
  unfold SendRequest_reply. destruct (ct_msg _) as [|m ms] eqn:E.
  - destruct (ct_closed _); [|done]. intros [= <- <-]. by apply sound_op_ctl.
  - intros [= <- <-]. apply sound_op_ctl; [done..|]. split; [done|]. split; [done|]. cbn. rewrite E. set_solver.
Qed.

Lemma responseMessageReceived_sound ch k ch' : responseMessageReceived ch = Ok ch' -> sound_op ch k ch' k.
Proof.
  unfold responseMessageReceived. destruct (cc_direction _); [done|]. destruct (ct_decided _); [done|].
  intros [= <-]. by apply sound_op_ctl.
Qed.

(** ** A concrete channel *)
Definition sample_channel : channel :=
  MkChannel (MkConst 0 (go "session") [] channelInbound 0)
    (MkIn channelMaxPacket channelWindowSize 0 newBuffer newBuffer)
    (MkOut 7 4 (MkWindow 6 false) false false) (MkCtl true [] false [] false).

