(* ===== verification/SshMux.v ===== *)
(** * The SSH connection protocol: third/ssh/mux.go and [handlePacket],
    [newChannel] and [Reject] of channel.go, which work on the mux.

    A state has every channel allocated so far, the pointer to a channel being
    its index, the list of channel slots, the queues of the mux and what was
    written to the connection.  [mstep] has one rule per packet the loop reads
    and per call of the application; where the loop waits to hand something
    over ([loop_ready] is false), it takes no packet.  The debugging offset of
    channel numbers is kept.

    Proved for all interleavings: flow control, dispatch to the right channel,
    no send on a closed Go channel, nothing sent on a channel after its close. *)
From Stdlib Require Import Ascii String ZArith Lia.
From stdpp Require Import base gmap strings list.
From S2P Require Import Prelude GoStrings SshWire SshMessages SshChannel.
Local Open Scope Z_scope.

(** ** The list of channels *)
Fixpoint chan_add (l : list (option nat)) (p i : nat) : list (option nat) * nat :=
  match l with
  | [] => ([Some p], i)
  | None :: l => (Some p :: l, i)
  | x :: l => let '(l, j) := chan_add l p (S i) in (x :: l, j)
  end.

Definition getChan (l : list (option nat)) (offset id : Z) : option nat :=
  let id := u32 (id - offset) in
  if id <? u32 (len l) then default None (l !! Z.to_nat id) else None.

Definition chan_remove (l : list (option nat)) (offset id : Z) : list (option nat) :=
  let id := u32 (id - offset) in
  if id <? u32 (len l) then <[Z.to_nat id := None]> l else l.

Definition dropAll (l : list (option nat)) : list nat := omap id l.

(** ** The mux *)
Record mux := MkMux {
  m_conn : conn;
  m_chans : list channel;            (* every channel, by pointer *)
  m_list : list (option nat);
  m_offset : Z;
  m_incomingChannels : list nat;
  m_globalSentPending : bool;
  m_globalResponses : list message;
  m_incomingRequests : list Request;
  m_err : option error;              (* set when the loop has ended *)
  m_held : list nat }.               (* the channels the application holds *)

Definition newMux (offset : Z) : mux := MkMux (MkConn [] None) [] [] offset [] false [] [] None [].

Definition with_conn_chans (m : mux) (k : conn) (chans : list channel) : mux :=
  MkMux k chans (m_list m) (m_offset m) (m_incomingChannels m) (m_globalSentPending m)
    (m_globalResponses m) (m_incomingRequests m) (m_err m) (m_held m).
Definition with_list (m : mux) (l : list (option nat)) : mux :=
  MkMux (m_conn m) (m_chans m) l (m_offset m) (m_incomingChannels m) (m_globalSentPending m)
    (m_globalResponses m) (m_incomingRequests m) (m_err m) (m_held m).
Definition with_queues (m : mux) (channels : list nat) (pending : bool) (responses : list message)
    (requests : list Request) : mux :=
  MkMux (m_conn m) (m_chans m) (m_list m) (m_offset m) channels pending responses requests (m_err m) (m_held m).
Definition with_held (m : mux) (held : list nat) : mux :=
  MkMux (m_conn m) (m_chans m) (m_list m) (m_offset m) (m_incomingChannels m) (m_globalSentPending m)
    (m_globalResponses m) (m_incomingRequests m) (m_err m) held.

(** A channel operation on the channel behind a pointer. *)
Definition on_chan {R} (m : mux) (p : nat) (f : channel -> conn -> channel * conn * R) : option (mux * R) :=
  match m_chans m !! p with
  | None => None
  | Some ch =>
      let '(ch, k, r) := f ch (m_conn m) in
      Some (with_conn_chans m k (<[p := ch]> (m_chans m)), r)
  end.
Definition put_chan (m : mux) (p : nat) (ch : channel) : mux :=
  with_conn_chans m (m_conn m) (<[p := ch]> (m_chans m)).
Definition remove_chan (m : mux) (id : Z) : mux := with_list m (chan_remove (m_list m) (m_offset m) id).

Definition fresh_channel (p : nat) (chanType extraData : gostring) (direction : channelDirection) (localId : Z) :
    channel :=
  MkChannel
    (MkConst p chanType extraData direction localId)
    (MkIn channelMaxPacket channelWindowSize 0 newBuffer newBuffer)
    (MkOut 0 0 (MkWindow 0 false) false false)
    (MkCtl false [] false [] false).

Definition newChannel (m : mux) (chanType : gostring) (direction : channelDirection) (extraData : gostring) :
    mux * nat :=
  let p := length (m_chans m) in
  let '(l, i) := chan_add (m_list m) p 0 in
  let ch := fresh_channel p chanType extraData direction (u32 (Z.of_nat i + m_offset m)) in
  (with_list (with_conn_chans m (m_conn m) (m_chans m ++ [ch])) l, p).

Definition mux_sendMessage `{Message A} (m : mux) (msg : A) : mux * option error :=
  let '(k, err) := conn_write (m_conn m) None (MarshalMsg msg) in
  (with_conn_chans m k (m_chans m), err).

(** ** Packets for a channel *)
Definition bad_packet_size (size : Z) : bool := (size <? minPacketLength) || (2 ^ 31 <? size).

Definition handle_decoded (m : mux) (p : nat) (ch : channel) (msg : message) : mux * option error :=
  match msg with
  | M_channelOpenFailure f =>
      match responseMessageReceived ch with
      | Err e => (m, Some e)
      | Ok ch =>
          (remove_chan (put_chan m p (set_msg ch (ct_msg (ch_ctl ch) ++ [msg]))) (channelOpenFailure_PeersID f), None)
      end
  | M_channelOpenConfirm c =>
      match responseMessageReceived ch with
      | Err e => (m, Some e)
      | Ok ch =>
          if bad_packet_size (channelOpenConfirm_MaxPacketSize c)
          then (put_chan m p ch, Some (errors_New (go "ssh: invalid MaxPacketSize "
                  ++ Itoa (channelOpenConfirm_MaxPacketSize c) ++ go " from peer")))
          else
            let ch := set_peer ch (channelOpenConfirm_MyID c) (channelOpenConfirm_MaxPacketSize c) in
            let ch := set_remoteWin ch (fst (window_add (co_remoteWin (ch_out ch)) (channelOpenConfirm_MyWindow c))) in
            (put_chan m p (set_msg ch (ct_msg (ch_ctl ch) ++ [msg])), None)
      end
  | M_windowAdjust a =>
      let '(w, ok) := window_add (co_remoteWin (ch_out ch)) (windowAdjust_AdditionalBytes a) in
      if ok then (put_chan m p (set_remoteWin ch w), None)
      else (m, Some (errors_New (go "ssh: invalid window update for "
                                 ++ Itoa (windowAdjust_AdditionalBytes a) ++ go " bytes")))
  | M_channelRequest r =>
      let req := MkRequest (channelRequest_Request r) (channelRequest_WantReply r)
                   (channelRequest_RequestSpecificData r) in
      (put_chan m p (set_requests ch (ct_incomingRequests (ch_ctl ch) ++ [req])), None)
  | M_channelRequestSuccess _ | M_channelRequestFailure _ =>
      if negb (ct_sentRequestPending (ch_ctl ch)) then (m, None)
      else if len (ct_msg (ch_ctl ch)) <? chanSize
      then (put_chan m p (set_msg ch (ct_msg (ch_ctl ch) ++ [msg])), None)
      else (m, None)
  | _ => (put_chan m p (set_msg ch (ct_msg (ch_ctl ch) ++ [msg])), None)
  end.

Definition first_byte (packet : gostring) : Z := match packet with b :: _ => bv b | [] => 0 end.

(** [decode] on a packet that is not empty. *)
Definition decode_packet_ne (packet : gostring) : res message :=
  match decode packet with Some r => r | None => Err (parseError 0) end.

Definition handlePacket (m : mux) (p : nat) (ch : channel) (packet : gostring) : mux * option error :=
  let b := first_byte packet in
  if (b =? msgChannelData) || (b =? msgChannelExtendedData) then
    let '(ch, k, err) := handleData ch (m_conn m) packet in
    (with_conn_chans m k (<[p := ch]> (m_chans m)), err)
  else if b =? msgChannelClose then
    let '(ch', k, _) := sendMessage ch (m_conn m) (Mk_channelCloseMsg (co_remoteId (ch_out ch))) in
    let m := remove_chan (with_conn_chans m k (<[p := ch']> (m_chans m))) (cc_localId (ch_const ch)) in
    (put_chan m p (close ch'), None)
  else if b =? msgChannelEOF then
    let i := ch_in ch in
    (put_chan m p (set_in ch (MkIn (ci_maxIncomingPayload i) (ci_myWindow i) (ci_myConsumed i)
                     (buffer_eof (ci_pending i)) (buffer_eof (ci_extPending i)))), None)
  else
    match decode_packet_ne packet with
    | Err e => (m, Some e)
    | Ok msg => handle_decoded m p ch msg
    end.

(** ** Other packets *)
Definition handleGlobalPacket (m : mux) (packet : gostring) : mux * option error :=
  match decode_packet_ne packet with
  | Err e => (m, Some e)
  | Ok (M_globalRequest r) =>
      let req := MkRequest (globalRequest_Type r) (globalRequest_WantReply r) (globalRequest_Data r) in
      (with_queues m (m_incomingChannels m) (m_globalSentPending m) (m_globalResponses m)
         (m_incomingRequests m ++ [req]), None)
  | Ok (M_globalRequestSuccess _ as msg) | Ok (M_globalRequestFailure _ as msg) =>
      if negb (m_globalSentPending m) then (m, None)
      else if len (m_globalResponses m) <? 1
      then (with_queues m (m_incomingChannels m) (m_globalSentPending m) (m_globalResponses m ++ [msg])
              (m_incomingRequests m), None)
      else (m, None)
  | Ok _ => (m, Some (errors_New (go "panic: not a global message")))
  end.

Definition ConnectionFailed : Z := 2.

Definition handleChannelOpen (m : mux) (packet : gostring) : mux * option error :=
  match UnmarshalMsg channelOpenMsg packet with
  | Err e => (m, Some e)
  | Ok msg =>
      if bad_packet_size (channelOpen_MaxPacketSize msg) then
        mux_sendMessage m (Mk_channelOpenFailureMsg (channelOpen_PeersID msg) ConnectionFailed
                             (go "invalid request") (go "en_US.UTF-8"))
      else
        let '(m, p) := newChannel m (channelOpen_ChanType msg) channelInbound (channelOpen_TypeSpecificData msg) in
        match m_chans m !! p with
        | None => (m, None)
        | Some c =>
            let c := set_peer c (channelOpen_PeersID msg) (channelOpen_MaxPacketSize msg) in
            let c := set_remoteWin c (fst (window_add (co_remoteWin (ch_out c)) (channelOpen_PeersWindow msg))) in
            let m := put_chan m p c in
            (with_queues m (m_incomingChannels m ++ [p]) (m_globalSentPending m) (m_globalResponses m)
               (m_incomingRequests m), None)
        end
  end.

Definition handleUnknownChannelPacket (m : mux) (id : Z) (packet : gostring) : mux * option error :=
  match decode_packet_ne packet with
  | Err e => (m, Some e)
  | Ok (M_channelRequest msg) =>
      if channelRequest_WantReply msg
      then mux_sendMessage m (Mk_channelRequestFailureMsg (channelRequest_PeersID msg))
      else (m, None)
  | Ok _ => (m, Some (errors_New (go "ssh: invalid channel " ++ Itoa id)))
  end.

Definition onePacket (m : mux) (packet : gostring) : mux * option error :=
  let b := first_byte packet in
  if b =? msgChannelOpen then handleChannelOpen m packet
  else if (b =? msgGlobalRequest) || (b =? msgRequestSuccess) || (b =? msgRequestFailure)
  then handleGlobalPacket m packet
  else if b =? msgPing then
    match UnmarshalMsg pingMsg packet with
    | Err e => (m, Some (errors_wrap (go "failed to unmarshal ping@openssh.com message: ") e))
    | Ok msg => mux_sendMessage m (Mk_pongMsg (ping_Data msg))
    end
  else if len packet <? 5 then (m, Some (parseError b))
  else
    let id := be_value (take 4 (drop 1 packet)) in
    match getChan (m_list m) (m_offset m) id with
    | None => handleUnknownChannelPacket m id packet
    | Some p =>
        match m_chans m !! p with
        | None => (m, None)
        | Some ch => handlePacket m p ch packet
        end
    end.

Definition close_at (cs : list channel) (p : nat) : list channel :=
  match cs !! p with Some ch => <[p := close ch]> cs | None => cs end.

(** The end of [loop]: every channel is closed and the error is recorded. *)
Definition loop_exit (m : mux) (err : error) : mux :=
  MkMux (m_conn m) (foldl close_at (m_chans m) (dropAll (m_list m))) [] (m_offset m) (m_incomingChannels m) (m_globalSentPending m)
    (m_globalResponses m) (m_incomingRequests m) (Some err) (m_held m).

(** ** Calls of the application that involve the mux *)
Definition Reject (m : mux) (p : nat) (ch : channel) (reason : Z) (message : gostring) : mux * option error :=
  if ct_decided (ch_ctl ch) then (m, Some errDecidedAlready)
  else
    let '(ch', k, err) :=
      sendMessage (set_decided ch) (m_conn m)
        (Mk_channelOpenFailureMsg (co_remoteId (ch_out ch)) reason message (go "en")) in
    (remove_chan (with_conn_chans m k (<[p := ch']> (m_chans m))) (cc_localId (ch_const ch)), err).

(** [openChannel] up to the wait for the answer, and what the answer means. *)
Definition openChannel (m : mux) (chanType extra : gostring) : mux * nat * option error :=
  let '(m, p) := newChannel m chanType channelOutbound extra in
  match m_chans m !! p with
  | None => (m, p, None)
  | Some ch =>
      let '(m, err) := mux_sendMessage m
        (Mk_channelOpenMsg chanType (cc_localId (ch_const ch)) (ci_myWindow (ch_in ch))
           (ci_maxIncomingPayload (ch_in ch)) extra) in
      (m, p, err)
  end.
Definition openChannel_answer (ch : channel) : option (channel * bool) :=
  match ct_msg (ch_ctl ch) with
  | M_channelOpenConfirm _ :: ms => Some (set_msg ch ms, true)
  | _ :: ms => Some (set_msg ch ms, false)
  | [] => if ct_closed (ch_ctl ch) then Some (ch, false) else None
  end.

Definition mux_SendRequest (m : mux) (name : gostring) (wantReply : bool) (payload : gostring) :
    mux * request_result :=
  let m := if wantReply then with_queues m (m_incomingChannels m) true [] (m_incomingRequests m) else m in
  let '(m, err) := mux_sendMessage m (Mk_globalRequestMsg name wantReply payload) in
  match err with
  | Some e =>
      (if wantReply
       then with_queues m (m_incomingChannels m) false (m_globalResponses m) (m_incomingRequests m) else m,
       Requested false (Some e))
  | None => (m, if wantReply then RequestWaits else Requested false None)
  end.
(** The answer to a request that waits, with its data. *)
Definition mux_SendRequest_reply (m : mux) : option (mux * (bool * gostring * option error)) :=
  let done l := with_queues m (m_incomingChannels m) false l (m_incomingRequests m) in
  match m_globalResponses m with
  | msg :: ms =>
      Some (done ms, match msg with
                     | M_globalRequestFailure f => (false, globalRequestFailure_Data f, None)
                     | M_globalRequestSuccess s => (true, globalRequestSuccess_Data s, None)
                     | _ => (false, [], Some (errors_New (go "ssh: unexpected response to request")))
                     end)
  | [] => match m_err m with Some _ => Some (done [], (false, [], Some EOF)) | None => None end
  end.
Definition mux_ackRequest (m : mux) (ok : bool) (data : gostring) : mux * option error :=
  if ok then mux_sendMessage m (Mk_globalRequestSuccessMsg data)
  else mux_sendMessage m (Mk_globalRequestFailureMsg data).

(** ** Steps *)

(** [maxPacket] of transport.go: longer packets are refused when they are read. *)
Definition maxPacket : Z := 256 * 1024.

(** The loop is not waiting for a receiver. *)
Definition loop_ready (m : mux) : Prop :=
  m_err m = None /\ len (m_incomingChannels m) <= chanSize /\ len (m_incomingRequests m) <= chanSize /\
  Forall (fun ch => len (ct_msg (ch_ctl ch)) <= chanSize /\ len (ct_incomingRequests (ch_ctl ch)) <= chanSize)
    (m_chans m).

(** Calls on a channel that do not need the application to hold it open. *)
Inductive chan_call (ch : channel) (k : conn) : channel -> conn -> Prop :=
| call_read want ext ch' k' r : ReadExtended ch k want ext = (ch', k', r) -> chan_call ch k ch' k'
| call_closewrite ch' k' e : CloseWrite ch k = (ch', k', e) -> chan_call ch k ch' k'
| call_close ch' k' e : Close ch k = (ch', k', e) -> chan_call ch k ch' k'
| call_ack ok ch' k' e : ackRequest ch k ok = (ch', k', e) -> chan_call ch k ch' k'
| call_request name want payload ch' k' r :
    SendRequest ch k name want payload = (ch', k', r) -> chan_call ch k ch' k'
| call_reply ch' r : SendRequest_reply ch = Some (ch', r) -> chan_call ch k ch' k
| call_receive r rs : ct_incomingRequests (ch_ctl ch) = r :: rs -> chan_call ch k (set_requests ch rs) k.

Inductive mstep : mux -> mux -> Prop :=
| s_packet m packet m' err :
    loop_ready m -> packet <> [] -> len packet <= maxPacket -> onePacket m packet = (m', err) ->
    mstep m (match err with None => m' | Some e => loop_exit m' e end)
| s_read_error m e : loop_ready m -> mstep m (loop_exit m e)
| s_write_error m e : mstep m (with_conn_chans m (MkConn (c_sent (m_conn m)) (Some e)) (m_chans m))
| s_call m p ch ch' k' :
    m_chans m !! p = Some ch -> chan_call ch (m_conn m) ch' k' ->
    mstep m (with_conn_chans m k' (<[p := ch']> (m_chans m)))
| s_accept m p ch ch' k' err :
    m_chans m !! p = Some ch -> cc_direction (ch_const ch) = channelInbound ->
    Accept ch (m_conn m) = (ch', k', err) ->
    mstep m (let m' := with_conn_chans m k' (<[p := ch']> (m_chans m)) in
             match err with None => with_held m' (p :: m_held m) | Some _ => m' end)
| s_reject m p ch reason message m' err :
    m_chans m !! p = Some ch -> cc_direction (ch_const ch) = channelInbound ->
    Reject m p ch reason message = (m', err) -> mstep m m'
| s_write m p ch data code ch' k' r :
    m_chans m !! p = Some ch -> p ∈ m_held m -> WriteExtended ch (m_conn m) data code = (ch', k', r) ->
    mstep m (with_conn_chans m k' (<[p := ch']> (m_chans m)))
| s_write_resume m p ch data code n ch' k' r :
    m_chans m !! p = Some ch -> p ∈ m_held m ->
    write_loop (S (length data)) ch (m_conn m) data code n = (ch', k', r) ->
    mstep m (with_conn_chans m k' (<[p := ch']> (m_chans m)))
| s_open m chanType extra m' p err : openChannel m chanType extra = (m', p, err) -> mstep m m'
| s_open_answer m p ch ch' ok :
    m_chans m !! p = Some ch -> cc_direction (ch_const ch) = channelOutbound ->
    openChannel_answer ch = Some (ch', ok) ->
    mstep m (let m' := put_chan m p ch' in if ok then with_held m' (p :: m_held m) else m')
| s_take_channel m p ps :
    m_incomingChannels m = p :: ps ->
    mstep m (with_queues m ps (m_globalSentPending m) (m_globalResponses m) (m_incomingRequests m))
| s_take_request m r rs :
    m_incomingRequests m = r :: rs ->
    mstep m (with_queues m (m_incomingChannels m) (m_globalSentPending m) (m_globalResponses m) rs)
| s_global m name want payload m' r : mux_SendRequest m name want payload = (m', r) -> mstep m m'
| s_global_reply m m' r : mux_SendRequest_reply m = Some (m', r) -> mstep m m'
| s_global_ack m ok data m' e : mux_ackRequest m ok data = (m', e) -> mstep m m'.

Definition reachable_mux (m : mux) : Prop := exists offset, rtc mstep (newMux offset) m.

(** ** The invariant *)

(** The peer's packet size is known for channels it opened and once it confirmed. *)
Definition sized (ch : channel) : Prop := minPacketLength <= co_maxRemotePayload (ch_out ch).
Definition size_known (ch : channel) : Prop :=
  (cc_direction (ch_const ch) = channelInbound -> sized ch) /\
  (forall c, M_channelOpenConfirm c ∈ ct_msg (ch_ctl ch) -> sized ch).

Record mux_inv (m : mux) : Prop := MkInv {
  inv_chan p ch : m_chans m !! p = Some ch -> cc_ptr (ch_const ch) = p /\ chan_inv ch /\ size_known ch;
  inv_list i p : m_list m !! i = Some (Some p) ->
    exists ch, m_chans m !! p = Some ch /\ cc_localId (ch_const ch) = u32 (Z.of_nat i + m_offset m) /\
      ct_closed (ch_ctl ch) = false;
  inv_once i j p : m_list m !! i = Some (Some p) -> m_list m !! j = Some (Some p) -> i = j;
  inv_held p : p ∈ m_held m -> exists ch, m_chans m !! p = Some ch /\ sized ch;
  inv_close p pre x post : c_sent (m_conn m) = pre ++ (Some p, x) :: post -> is_close x = true ->
    Forall (fun y => fst y <> Some p) post /\
    exists ch, m_chans m !! p = Some ch /\ co_sentClose (ch_out ch) = true }.

Lemma newMux_inv offset : mux_inv (newMux offset).
Proof.
  split; cbn; intros *; rewrite ?lookup_nil, ?elem_of_nil; try done. by destruct pre.
Qed.

(** Only channels, slots, held channels and sent packets matter. *)
Lemma inv_same m m' :
  m_chans m' = m_chans m -> m_list m' = m_list m -> m_offset m' = m_offset m -> m_held m' = m_held m ->
  c_sent (m_conn m') = c_sent (m_conn m) -> mux_inv m -> mux_inv m'.
Proof.
  intros E1 E2 E3 E4 E5 [H1 H2 H3 H4 H5]. split; intros *; rewrite ?E1, ?E2, ?E3, ?E4, ?E5; eauto.
Qed.

Lemma inv_hold m p ch : mux_inv m -> m_chans m !! p = Some ch -> sized ch -> mux_inv (with_held m (p :: m_held m)).
Proof.
  intros [H1 H2 H3 H4 H5] Hp Hs. split; cbn; eauto. intros q [->|Hq]%elem_of_cons; eauto.
Qed.

(** Fewer slots. *)
Lemma inv_slots m l :
  mux_inv m -> (forall i p, l !! i = Some (Some p) -> m_list m !! i = Some (Some p)) -> mux_inv (with_list m l).
Proof. intros [H1 H2 H3 H4 H5] HL. split; cbn; eauto. Qed.

Lemma chan_remove_slots l offset n i p :
  chan_remove l offset n !! i = Some (Some p) ->
  l !! i = Some (Some p) /\ (Z.of_nat i < u32 (len l) -> u32 (n - offset) <> Z.of_nat i).
Proof.
  unfold chan_remove. destruct (Z.ltb_spec (u32 (n - offset)) (u32 (len l))) as [Hlt|Hge].
  - rewrite list_lookup_insert_Some. intros [(_ & [=] & _)|[Hne Hi]]. split; [done|]. intros _ E.
    rewrite E, Nat2Z.id in Hne. done.
  - intros Hi. split; [done|]. lia.
Qed.

Lemma inv_remove m n : mux_inv m -> mux_inv (remove_chan m n).
Proof. intros H. apply inv_slots; [done|]. intros i p Hi. by apply chan_remove_slots in Hi as [Hi _]. Qed.

Lemma getChan_Some l offset n p :
  getChan l offset n = Some p ->
  exists i, l !! i = Some (Some p) /\ Z.of_nat i = u32 (n - offset) /\ Z.of_nat i < u32 (len l).
Proof.
  unfold getChan. pose proof (Z.mod_pos_bound (n - offset) (2 ^ 32) ltac:(lia)) as HB. fold (u32 (n - offset)) in HB.
  destruct (Z.ltb_spec (u32 (n - offset)) (u32 (len l))); [|done].
  destruct (l !! Z.to_nat (u32 (n - offset))) as [[q|]|] eqn:E; [|done..]. cbn. intros [= ->].
  exists (Z.to_nat (u32 (n - offset))). split; [done|lia].
Qed.

(** A packet is handed to the channel whose number it carries. *)
Lemma getChan_localId m n p ch :
  mux_inv m -> getChan (m_list m) (m_offset m) n = Some p -> m_chans m !! p = Some ch ->
  cc_localId (ch_const ch) = u32 n /\ ct_closed (ch_ctl ch) = false.
Proof.
  intros HI (i & Hi & Hn & _)%getChan_Some Hp. destruct (inv_list _ HI _ _ Hi) as (ch' & Hp' & HL & HC).
  rewrite Hp in Hp'. injection Hp' as <-. split; [|done]. rewrite HL, Hn. unfold u32.
  rewrite Zplus_mod_idemp_l. f_equal. lia.
Qed.

(** A channel is replaced by one it may become, with the packets it wrote. *)
Lemma inv_update m p ch ch' k' :
  mux_inv m -> m_chans m !! p = Some ch -> emits ch (m_conn m) ch' k' -> chan_inv ch' -> size_known ch' ->
  (sized ch -> sized ch') ->
  (ct_closed (ch_ctl ch') = ct_closed (ch_ctl ch) \/ (forall i, m_list m !! i <> Some (Some p))) ->
  mux_inv (with_conn_chans m k' (<[p := ch']> (m_chans m))).
Proof.
  intros [H1 H2 H3 H4 H5] Hp (EC & new & ES & EA & EB) Hi Hk Hs Hc.
  pose proof (lookup_lt_Some _ _ _ Hp) as Hlt. destruct (H1 _ _ Hp) as (Hptr & _ & _). rewrite Hptr in ES.
  assert (forall q c, m_chans m !! q = Some c -> q <> p -> <[p := ch']> (m_chans m) !! q = Some c) as Hother.
  { intros q c Hq Hne. by rewrite list_lookup_insert_ne. }
  assert (<[p := ch']> (m_chans m) !! p = Some ch') as Hself by by apply list_lookup_insert_eq.
  split; cbn [with_conn_chans m_chans m_list m_offset m_held m_conn].
  - intros q c. rewrite list_lookup_insert_Some. intros [(<- & <- & _)|[Hne Hq]]; [|by apply H1].
    by rewrite EC.
  - intros i q Hq. destruct (H2 _ _ Hq) as (c & Hqc & HL & HCl). destruct (decide (q = p)) as [->|Hne]; [|eauto].
    exists ch'. rewrite Hp in Hqc. injection Hqc as <-. split; [done|]. rewrite EC. split; [done|].
    destruct Hc as [->|Hc]; [done|]. by destruct (Hc i).
  - exact H3.
  - intros q Hq. destruct (H4 _ Hq) as (c & Hqc & HS). destruct (decide (q = p)) as [->|Hne]; [|eauto].
    exists ch'. split; [done|]. rewrite Hp in Hqc. injection Hqc as <-. auto.
  - intros q pre x post. rewrite ES. intros Hsplit Hx.
    assert (forall c, m_chans m !! q = Some c -> co_sentClose (ch_out c) = true ->
      exists c', <[p := ch']> (m_chans m) !! q = Some c' /\ co_sentClose (ch_out c') = true) as HK.
    { intros c Hqc HS. destruct (decide (q = p)) as [->|Hne]; [|eauto].
      exists ch'. split; [done|]. rewrite Hp in Hqc. injection Hqc as <-. apply EA, HS. }
    apply app_eq_inv in Hsplit as [(l & Hl1 & Hl2)|(l & Hl1 & Hl2)].
    + destruct l as [|y l]; cbn in Hl2.
      * destruct new as [|n0 new]; [done|]. injection Hl2 as Eq Ex ->. subst q x.
        destruct (EB [] n0 new eq_refl Hx) as [-> HS]. split; [constructor|]. eauto.
      * injection Hl2 as <- ->. destruct (H5 q pre x l Hl1 Hx) as (HF & c & Hqc & HS). split; [|eauto].
        apply Forall_app. split; [done|]. apply Forall_forall. intros y (z & -> & Hz)%list_elem_of_fmap. cbn.
        intros [= ->]. rewrite Hp in Hqc. injection Hqc as <-. destruct (EA HS) as [-> _]. by apply elem_of_nil in Hz.
    + apply map_eq_app in Hl2 as (n1 & n2 & -> & _ & Hl2).
      destruct n2 as [|z n2]; [done|]. cbn in Hl2. injection Hl2 as Eq Ex <-. subst q x.
      destruct (EB n1 z n2 eq_refl Hx) as [-> HS]. split; [constructor|]. eauto.
Qed.

Lemma keeps_size_known ch ch' :
  ch_const ch' = ch_const ch -> keeps ch ch' -> size_known ch -> size_known ch' /\ (sized ch -> sized ch').
Proof.
  intros HC (H1 & H2 & H3) (S1 & S2). unfold size_known, sized in *. rewrite HC, H2. repeat split; [done| |done].
  intros c Hc. eapply S2, H3, Hc.
Qed.

Lemma inv_op m p ch ch' k' :
  mux_inv m -> m_chans m !! p = Some ch -> sound_op ch (m_conn m) ch' k' ->
  mux_inv (with_conn_chans m k' (<[p := ch']> (m_chans m))).
Proof.
  intros HI Hp (HE & HC & HK). destruct (inv_chan _ HI _ _ Hp) as (_ & H1 & H2).
  destruct (keeps_size_known _ _ (proj1 HE) HK H2) as [H3 H4].
  eapply inv_update; eauto. left. apply HK.
Qed.

Lemma inv_put m p ch ch' :
  mux_inv m -> m_chans m !! p = Some ch -> ch_const ch' = ch_const ch ->
  (co_sentClose (ch_out ch) = true -> co_sentClose (ch_out ch') = true) ->
  ct_closed (ch_ctl ch') = ct_closed (ch_ctl ch) -> chan_inv ch' -> size_known ch' -> (sized ch -> sized ch') ->
  mux_inv (put_chan m p ch').
Proof. intros HI Hp H1 H2 H3 H4 H5 H6. eapply inv_update; eauto. by apply emits_refl. Qed.

(** Queueing a message for the application. *)
Lemma inv_put_msg m p ch ch1 msg :
  mux_inv m -> m_chans m !! p = Some ch -> ch_const ch1 = ch_const ch ->
  (co_sentClose (ch_out ch) = true -> co_sentClose (ch_out ch1) = true) ->
  ct_closed (ch_ctl ch1) = ct_closed (ch_ctl ch) -> chan_inv ch1 -> size_known ch1 -> (sized ch -> sized ch1) ->
  (sized ch1 \/ forall c, msg <> M_channelOpenConfirm c) ->
  mux_inv (put_chan m p (set_msg ch1 (ct_msg (ch_ctl ch1) ++ [msg]))).
Proof.
  intros HI Hp H1 H2 H3 H4 [H5 H5'] H6 H7. eapply inv_put; eauto. split; [exact H5|].
  intros c. cbn. rewrite elem_of_app, list_elem_of_singleton. intros [Hc|Hc]; [by eapply H5'|].
  destruct H7 as [H7|H7]; [done|]. by destruct (H7 c).
Qed.

Lemma inv_mux_send `{Message A} m (msg : A) m' e : mux_inv m -> mux_sendMessage m msg = (m', e) -> mux_inv m'.
Proof.
  intros HI. unfold mux_sendMessage, conn_write. destruct (c_err (m_conn m)); intros [= <- <-].
  { by eapply inv_same; [..|exact HI]. }
  destruct HI as [H1 H2 H3 H4 H5]. split; cbn; eauto. intros p pre x post Hs Hx.
  destruct post as [|y post _] using rev_ind.
  - apply app_inj_tail in Hs as [_ [=]].
  - rewrite app_comm_cons, app_assoc in Hs. apply app_inj_tail in Hs as [Hs <-].
    destruct (H5 p pre x post Hs Hx) as (HF & Hc). split; [|done]. apply Forall_app. split; [done|]. by constructor.
Qed.

Lemma chan_add_spec l p i0 l' j :
  chan_add l p i0 = (l', j) ->
  exists i, j = (i0 + i)%nat /\ l' !! i = Some (Some p) /\
    forall i' q, i' <> i -> l' !! i' = Some (Some q) -> l !! i' = Some (Some q).
Proof.
  revert i0 l' j. induction l as [|[x|] l IH]; intros i0 l' j; cbn [chan_add].
  - intros [= <- <-]. exists 0%nat. split; [lia|]. split; [done|]. intros [|i'] q Hne; done.
  - destruct (chan_add l p (S i0)) as [l1 j1] eqn:E. intros [= <- <-]. destruct (IH _ _ _ E) as (i & -> & H1 & H2).
    exists (S i). split; [lia|]. split; [done|]. intros [|i'] q Hne; [done|]. cbn. apply H2. congruence.
  - intros [= <- <-]. exists 0%nat. split; [lia|]. split; [done|]. intros [|i'] q Hne; done.
Qed.

Lemma insert_snoc {A} (l : list A) x y : <[length l := x]> (l ++ [y]) = l ++ [x].
Proof. by rewrite insert_app_r_alt, Nat.sub_diag by done. Qed.

(** A new channel, once its fields are set. *)
Lemma inv_new m t d x m1 p ch0 ch :
  mux_inv m -> newChannel m t d x = (m1, p) -> m_chans m1 !! p = Some ch0 ->
  ch_const ch = ch_const ch0 -> chan_inv ch -> size_known ch -> ct_closed (ch_ctl ch) = false ->
  mux_inv (put_chan m1 p ch).
Proof.
  intros [H1 H2 H3 H4 H5] E Hp HC Hi Hk Hcl. unfold newChannel in E.
  destruct (chan_add (m_list m) (length (m_chans m)) 0) as [l i] eqn:EA. injection E as <- <-. cbn in Hp.
  rewrite lookup_app_r, Nat.sub_diag in Hp by done. injection Hp as <-. cbn in HC.
  destruct (chan_add_spec _ _ _ _ _ EA) as (i' & Hi' & HA & HB). cbn in Hi'. subst i'.
  assert (forall q c, m_chans m !! q = Some c -> (m_chans m ++ [ch]) !! q = Some c) as HO
    by (intros q c Hq; by apply lookup_app_l_Some).
  assert (forall n, n <> i -> l !! n <> Some (Some (length (m_chans m)))) as Hfresh.
  { intros n Hn Hl. apply HB in Hl; [|done]. destruct (H2 _ _ Hl) as (c & Hc & _). apply lookup_lt_Some in Hc. lia. }
  split; cbn [put_chan with_conn_chans with_list m_chans m_list m_offset m_held m_conn]; rewrite ?insert_snoc.
  - intros q c. rewrite lookup_snoc_Some. intros [[_ Hq]|[-> <-]]; [by apply H1|by rewrite HC].
  - intros j q Hj. destruct (decide (j = i)) as [->|Hne].
    + rewrite HA in Hj. injection Hj as <-. exists ch. rewrite HC. split; [|done].
      apply lookup_snoc_Some. by right.
    + apply HB in Hj; [|done]. destruct (H2 _ _ Hj) as (c & Hc & HR). exists c. split; [by apply HO|done].
  - intros j j' q Hj Hj'. destruct (decide (j = i)) as [->|Hn], (decide (j' = i)) as [->|Hn']; [done|..].
    + rewrite HA in Hj. injection Hj as <-. by destruct (Hfresh _ Hn').
    + rewrite HA in Hj'. injection Hj' as <-. by destruct (Hfresh _ Hn).
    + apply HB in Hj, Hj'; [|done..]. by eapply H3.
  - intros q Hq. destruct (H4 _ Hq) as (c & Hc & HR). exists c. split; [by apply HO|done].
  - intros q pre y post Hs Hx. destruct (H5 q pre y post Hs Hx) as (HF & c & Hc & HR). split; [done|].
    exists c. split; [by apply HO|done].
Qed.

Lemma bad_packet_size_false n : bad_packet_size n = false -> minPacketLength <= n <= 2 ^ 31.
Proof. unfold bad_packet_size. intros H. bool_simp. lia. Qed.

Lemma set_peer_inv ch id size : minPacketLength <= size <= 2 ^ 31 -> chan_inv ch -> chan_inv (set_peer ch id size).
Proof. intros Hs (H1 & H2 & H3). unfold minPacketLength in Hs. split; [done|]. split; [done|]. cbn. lia. Qed.

Lemma set_remoteWin_inv ch n : chan_inv ch -> chan_inv (set_remoteWin ch (fst (window_add (co_remoteWin (ch_out ch)) n))).
Proof. intros (H1 & H2 & H3). split; [done|]. split; [|done]. by apply window_add_ok. Qed.

Lemma handle_decoded_inv m p ch msg m' err :
  mux_inv m -> m_chans m !! p = Some ch -> handle_decoded m p ch msg = (m', err) -> mux_inv m'.
Proof.
  intros HI Hp. destruct (inv_chan _ HI _ _ Hp) as (_ & HC & HK).
  assert ((forall c, msg <> M_channelOpenConfirm c) ->
    mux_inv (put_chan m p (set_msg ch (ct_msg (ch_ctl ch) ++ [msg])))) as HD.
  { intros Hne. apply (inv_put_msg _ _ ch); try done. by right. }
  assert (forall ch1, responseMessageReceived ch = Ok ch1 -> ch1 = set_decided ch) as HR.
  { unfold responseMessageReceived. destruct (cc_direction _); [done|]. destruct (ct_decided _); [done|]. by intros ? [= <-]. }
  destruct msg; cbn [handle_decoded]; try (intros [= <- <-]; by apply HD).
  - (* open confirmed *)
    destruct (responseMessageReceived ch) as [ch1|e] eqn:ER; [|by intros [= <- <-]]. rewrite (HR _ eq_refl).
    destruct (bad_packet_size _) eqn:EB; intros [= <- <-]; [by apply (inv_put _ _ ch)|].
    apply bad_packet_size_false in EB.
    match goal with |- context [set_msg ?c _] => apply (inv_put_msg _ _ ch c) end; try done.
    + apply (set_remoteWin_inv (set_peer (set_decided ch) _ _)). by apply set_peer_inv.
    + split; intros; cbn; unfold sized; cbn; lia.
    + intros _. unfold sized. cbn. lia.
    + left. unfold sized. cbn. lia.
  - (* open refused *)
    destruct (responseMessageReceived ch) as [ch1|e] eqn:ER; [|by intros [= <- <-]]. rewrite (HR _ eq_refl).
    intros [= <- <-]. apply inv_remove. apply (inv_put_msg _ _ ch (set_decided ch)); try done. by right.
  - destruct (window_add _ _) as [w ok] eqn:EW. destruct ok; intros [= <- <-]; [|done].
    apply (inv_put _ _ ch); try done. pose proof (set_remoteWin_inv ch (windowAdjust_AdditionalBytes m0) HC) as H.
    by rewrite EW in H.
  - intros [= <- <-]. by apply (inv_put _ _ ch).
  - destruct (negb _); [by intros [= <- <-]|]. destruct (_ <? _); intros [= <- <-]; [by apply HD|done].
  - destruct (negb _); [by intros [= <- <-]|]. destruct (_ <? _); intros [= <- <-]; [by apply HD|done].
Qed.

Lemma handlePacket_inv m n p ch packet m' err :
  mux_inv m -> getChan (m_list m) (m_offset m) n = Some p -> m_chans m !! p = Some ch -> len packet < 2 ^ 32 ->
  handlePacket m p ch packet = (m', err) -> mux_inv m'.
Proof.
  intros HI HG Hp Hl. destruct (inv_chan _ HI _ _ Hp) as (_ & HC & HK). unfold handlePacket.
  destruct (_ || _).
  { destruct (handleData _ _ _) as [[ch1 k] e] eqn:E. intros [= <- <-]. eapply inv_op; [done..|].
    by eapply handleData_sound. }
  destruct (_ =? msgChannelClose).
  { destruct (sendMessage _ _ _) as [[ch1 k] e] eqn:E. intros [= <- <-]. apply sendMessage_sound in E.
    set (m1 := with_conn_chans m k _). assert (mux_inv m1) as HI1 by by eapply inv_op.
    assert (m_chans m1 !! p = Some ch1) as Hp1 by (apply list_lookup_insert_eq; by eapply lookup_lt_Some).
    destruct (close_sound ch1 k) as [HE HCl]. destruct (inv_chan _ HI1 _ _ Hp1) as (_ & HC1 & HK1).
    eapply (inv_update _ _ ch1); [by apply inv_remove|done|exact HE|by apply HCl| |by unfold close; destruct (ct_closed _)|].
    - unfold close. by destruct (ct_closed _).
    - right. intros i Hi. apply chan_remove_slots in Hi as [Hi Hne]. cbn in Hi, Hne.
      apply getChan_Some in HG as (j & Hj & Hjn & Hjl). pose proof (inv_once _ HI _ _ _ Hi Hj) as ->.
      destruct (inv_list _ HI _ _ Hj) as (c & Hc & HL & _). rewrite Hp in Hc. injection Hc as <-.
      apply (Hne Hjl). rewrite HL. unfold u32. rewrite Zminus_mod_idemp_l.
      replace (Z.of_nat j + m_offset m - m_offset m) with (Z.of_nat j) by lia. apply Z.mod_small.
      split; [lia|]. eapply Z.lt_trans; [exact Hjl|]. apply Z.mod_pos_bound. done. }
  destruct (_ =? msgChannelEOF).
  { intros [= <- <-]. by apply (inv_put _ _ ch). }
  destruct (decode_packet_ne packet); [|by intros [= <- <-]]. by apply handle_decoded_inv.
Qed.

Lemma close_idempotent ch : close (close ch) = close ch.
Proof. unfold close. by destruct (ct_closed (ch_ctl ch)) eqn:E; cbn; rewrite ?E. Qed.

Lemma close_all_spec ps cs :
  let cs' := foldl close_at cs ps in
  forall p, (cs !! p = None -> cs' !! p = None) /\
    (forall ch, cs !! p = Some ch -> cs' !! p = Some ch \/ cs' !! p = Some (close ch)).
Proof.
  revert cs. induction ps as [|q ps IH]; intros cs; cbn [foldl]; [eauto|]. cbv zeta in *. intros p.
  destruct (IH (close_at cs q) p) as [HN HS]. set (cs' := foldl close_at (close_at cs q) ps) in *. clearbody cs'.
  unfold close_at in HN, HS. destruct (cs !! q) as [c|] eqn:Eq; [|by split].
  destruct (decide (p = q)) as [->|Hne].
  - split; [by rewrite Eq|]. intros ch E. rewrite Eq in E. injection E as <-.
    pose proof (list_lookup_insert_eq cs q (close c) (lookup_lt_Some _ _ _ Eq)) as HL.
    destruct (HS _ HL) as [H|H]; [by right|]. rewrite close_idempotent in H. by right.
  - by rewrite list_lookup_insert_ne in HN, HS.
Qed.

Lemma loop_exit_inv m e : mux_inv m -> mux_inv (loop_exit m e).
Proof.
  intros [H1 H2 H3 H4 H5]. unfold loop_exit.
  pose proof (close_all_spec (dropAll (m_list m)) (m_chans m)) as HC. cbv zeta in *.
  set (cs := foldl _ _ _) in *. clearbody cs.
  assert (forall ch, ch_const (close ch) = ch_const ch /\ (sized ch -> sized (close ch)) /\
    (size_known ch -> size_known (close ch)) /\ (co_sentClose (ch_out ch) = true -> co_sentClose (ch_out (close ch)) = true)) as HD.
  { intros ch. unfold close. by destruct (ct_closed (ch_ctl ch)). }
  split; cbn [m_chans m_list m_offset m_held m_conn].
  - intros p ch' Hp'. destruct (HC p) as [HN HS]. destruct (m_chans m !! p) as [ch|] eqn:Ep.
    2: { rewrite (HN eq_refl) in Hp'. done. }
    destruct (H1 _ _ Ep) as (K1 & K2 & K3). destruct (HD ch) as (D1 & D2 & D3 & D4).
    destruct (HS ch eq_refl) as [E|E]; rewrite E in Hp'; injection Hp' as <-; [done|].
    rewrite D1. split; [done|]. split; [by apply (close_sound ch (m_conn m))|auto].
  - intros i p. by rewrite lookup_nil.
  - intros i j p. by rewrite lookup_nil.
  - intros p Hp. destruct (H4 _ Hp) as (ch & Hch & HS). destruct (HC p) as [_ HS']. destruct (HS' _ Hch) as [E|E];
      rewrite E; eexists; (split; [done|]); [done|].
    destruct (HD ch) as (_ & D2 & _ & D4). auto.
  - intros p pre x post Hs Hx. destruct (H5 _ _ _ _ Hs Hx) as (HF & ch & Hch & HS). split; [done|].
    destruct (HC p) as [_ HS']. destruct (HS' _ Hch) as [E|E]; rewrite E; eexists; (split; [done|]); [done|].
    destruct (HD ch) as (_ & D2 & _ & D4). auto.
Qed.

Lemma fresh_channel_inv p t x d n : chan_inv (fresh_channel p t x d n).
Proof. repeat split; cbn; lia || done. Qed.

Lemma newChannel_lookup m t d x m1 p :
  newChannel m t d x = (m1, p) ->
  exists n, m_chans m1 !! p = Some (fresh_channel p t x d n).
Proof.
  unfold newChannel. destruct (chan_add _ _ _) as [l i]. intros [= <- <-]. eexists. cbn.
  by rewrite lookup_app_r, Nat.sub_diag by done.
Qed.

Lemma handleChannelOpen_inv m packet m' err : mux_inv m -> handleChannelOpen m packet = (m', err) -> mux_inv m'.
Proof.
  intros HI. unfold handleChannelOpen. destruct (UnmarshalMsg _ _) as [msg|]; [|by intros [= <- <-]].
  destruct (bad_packet_size _) eqn:EB; [by apply inv_mux_send|]. apply bad_packet_size_false in EB.
  destruct (newChannel _ _ _ _) as [m1 p] eqn:EN. destruct (newChannel_lookup _ _ _ _ _ _ EN) as [n Hp].
  rewrite Hp. intros [= <- <-]. set (c := set_remoteWin _ _). apply (inv_same (put_chan m1 p c)); try done.
  eapply (inv_new m); [done|exact EN|exact Hp|done| | |done].
  - apply set_remoteWin_inv, set_peer_inv; [done|]. apply fresh_channel_inv.
  - assert (sized c) as HS by (unfold sized; cbn; lia). by split.
Qed.

Lemma openChannel_inv m t x m' p err : mux_inv m -> openChannel m t x = (m', p, err) -> mux_inv m'.
Proof.
  intros HI. unfold openChannel. destruct (newChannel _ _ _ _) as [m1 q] eqn:EN.
  destruct (newChannel_lookup _ _ _ _ _ _ EN) as [n Hp].
  assert (mux_inv m1) as HI1.
  { apply (inv_same (put_chan m1 q (fresh_channel q t x channelOutbound n))); try done.
    - cbn. symmetry. by apply list_insert_id.
    - apply (inv_new m _ _ _ m1 q _ _ HI EN Hp eq_refl); [apply fresh_channel_inv| |done].
      split; [done|]. intros c. cbn. by rewrite elem_of_nil. }
  rewrite Hp. destruct (mux_sendMessage _ _) as [m2 e] eqn:ES. intros [= <- <- <-]. exact (inv_mux_send _ _ _ _ HI1 ES).
Qed.

Lemma onePacket_inv m packet m' err :
  mux_inv m -> len packet < 2 ^ 32 -> onePacket m packet = (m', err) -> mux_inv m'.
Proof.
  intros HI Hl. unfold onePacket. destruct (_ =? msgChannelOpen); [by apply handleChannelOpen_inv|].
  destruct (_ || _ || _).
  { unfold handleGlobalPacket. destruct (decode_packet_ne packet) as [[]|]; try (intros [= <- <-]; done).
    - intros [= <- <-]. by eapply inv_same; [..|exact HI].
    - destruct (negb _); [by intros [= <- <-]|]. destruct (_ <? _); intros [= <- <-]; [|done].
      by eapply inv_same; [..|exact HI].
    - destruct (negb _); [by intros [= <- <-]|]. destruct (_ <? _); intros [= <- <-]; [|done].
      by eapply inv_same; [..|exact HI]. }
  destruct (_ =? msgPing).
  { destruct (UnmarshalMsg _ _); [by apply inv_mux_send|by intros [= <- <-]]. }
  destruct (_ <? 5); [by intros [= <- <-]|]. destruct (getChan _ _ _) as [p|] eqn:EG.
  - destruct (m_chans m !! p) as [ch|] eqn:Ep; [|by intros [= <- <-]]. by eapply handlePacket_inv.
  - unfold handleUnknownChannelPacket. destruct (decode_packet_ne packet) as [[]|]; try (intros [= <- <-]; done).
    destruct (channelRequest_WantReply _); [by apply inv_mux_send|by intros [= <- <-]].
Qed.

Lemma chan_call_sound ch k ch' k' : chan_call ch k ch' k' -> sound_op ch k ch' k'.
Proof.
  destruct 1.
  - by eapply ReadExtended_sound.
  - by eapply CloseWrite_sound.
  - by eapply Close_sound.
  - by eapply ackRequest_sound.
  - by eapply SendRequest_sound.
  - by eapply SendRequest_reply_sound.
  - by apply sound_op_ctl.
Qed.

Lemma write_loop_sound fuel ch k data code n ch' k' r :
  (length data < fuel)%nat -> chan_inv ch -> sized ch -> write_loop fuel ch k data code n = (ch', k', r) ->
  sound_op ch k ch' k'.
Proof.
  intros Hf HI Hs E. unfold sized, minPacketLength in Hs. by apply write_loop_spec in E as [H _]; [|lia|..|lia].
Qed.

Lemma mstep_inv m m' : mux_inv m -> mstep m m' -> mux_inv m'.
Proof.
  intros HI. destruct 1.
  - assert (mux_inv m') as HI' by (eapply onePacket_inv; [exact HI| |done]; unfold maxPacket in *; lia).
    destruct err; [by apply loop_exit_inv|done].
  - by apply loop_exit_inv.
  - by eapply inv_same; [..|exact HI].
  - eapply inv_op; [done..|]. by apply chan_call_sound.
  - assert (mux_inv (with_conn_chans m k' (<[p:=ch']> (m_chans m)))) as HI'
      by (eapply inv_op; [done..|]; by eapply Accept_sound).
    destruct err; [done|]. destruct (inv_chan _ HI _ _ H) as (_ & _ & [HK _]).
    apply Accept_sound in H1 as (_ & _ & (_ & HM & _)).
    apply (inv_hold _ p ch' HI'); [cbn; apply list_lookup_insert_eq; by eapply lookup_lt_Some|].
    unfold sized in *. rewrite HM. auto.
  - unfold Reject in H1. destruct (ct_decided _); [by injection H1 as <- <-|].
    destruct (sendMessage _ _ _) as [[ch1 k] e] eqn:E. injection H1 as <- <-. apply inv_remove.
    eapply inv_op; [done..|]. refine (send_after _ _ _ _ _ _ _ _ E). by apply sound_op_ctl.
  - destruct (inv_chan _ HI _ _ H) as (_ & HC & _). destruct (inv_held _ HI _ H0) as (ch0 & Hc & Hs).
    rewrite H in Hc. injection Hc as <-. eapply inv_op; [done..|]. unfold WriteExtended in H1.
    destruct (co_sentEOF _); [injection H1 as <- <- <-; by apply sound_op_ctl|].
    eapply write_loop_sound; [|done..|exact H1]. lia.
  - destruct (inv_chan _ HI _ _ H) as (_ & HC & _). destruct (inv_held _ HI _ H0) as (ch0 & Hc & Hs).
    rewrite H in Hc. injection Hc as <-. eapply inv_op; [done..|]. eapply write_loop_sound; [|done..|exact H1]. lia.
  - by eapply openChannel_inv.
  - destruct (inv_chan _ HI _ _ H) as (_ & HC & HK).
    assert (exists ms, ch' = set_msg ch ms /\ ms ⊆ ct_msg (ch_ctl ch) /\ (ok = true -> sized ch)) as (ms & -> & Hms & Hok).
    { unfold openChannel_answer in H1. destruct (ct_msg (ch_ctl ch)) as [|m0 ms] eqn:EM.
      - destruct (ct_closed _) eqn:EC; [|done]. injection H1 as <- <-. exists []. rewrite <- EM. split; [by destruct ch as [??? []]|done].
      - destruct HK as [_ HK]. rewrite EM in HK.
        destruct m0; injection H1 as <- <-; exists ms; (split; [done|]; split; [set_solver|]); try done.
        intros _. eapply HK. apply elem_of_cons. by left. }
    assert (mux_inv (put_chan m p (set_msg ch ms))) as HI'.
    { apply (inv_put _ _ ch); try done. destruct HK as [HK1 HK2]. split; [exact HK1|].
      intros c Hc. eapply HK2, Hms, Hc. }
    destruct ok; [|done]. apply (inv_hold _ p (set_msg ch ms) HI'); [|by apply Hok].
    cbn. apply list_lookup_insert_eq. by eapply lookup_lt_Some.
  - by eapply inv_same; [..|exact HI].
  - by eapply inv_same; [..|exact HI].
  - unfold mux_SendRequest in H. set (m1 := if want then _ else m) in H.
    assert (mux_inv m1) as HI1 by (subst m1; destruct want; [by eapply inv_same; [..|exact HI]|done]).
    destruct (mux_sendMessage m1 _) as [m2 e] eqn:E. pose proof (inv_mux_send _ _ _ _ HI1 E) as HI2.
    destruct e; injection H as <- <-; [destruct want; [by eapply inv_same; [..|exact HI2]|done]|done].
  - unfold mux_SendRequest_reply in H. destruct (m_globalResponses m); [destruct (m_err m); [|done]|];
      injection H as <- <-; by eapply inv_same; [..|exact HI].
  - unfold mux_ackRequest in H. destruct ok; exact (inv_mux_send _ _ _ _ HI H).
Qed.

Lemma reachable_inv m : reachable_mux m -> mux_inv m.
Proof.
  intros [offset H]. pose proof (newMux_inv offset) as HI. revert HI. induction H; [done|].
  intros HI. apply IHrtc. by eapply mstep_inv.
Qed.

(** ** Theorems *)

(** C12. Flow control holds on every channel of every connection, whatever the
    peer sends and in whatever order calls and packets come: the receive
    window, the consumed bytes and the unread bytes add up to the initial window,
    so a peer can make a channel buffer at most that many bytes; the peer's
    window stays a 32-bit number. *)
Theorem flow_control m p ch :
  reachable_mux m -> m_chans m !! p = Some ch ->
  0 <= ci_myWindow (ch_in ch) /\ 0 <= ci_myConsumed (ch_in ch) /\
  ci_myWindow (ch_in ch) + ci_myConsumed (ch_in ch) + unread (ch_in ch) = channelWindowSize /\
  unread (ch_in ch) <= 2 ^ 21 /\ 0 <= w_win (co_remoteWin (ch_out ch)) < 2 ^ 32.
Proof.
  intros HR Hp. destruct (inv_chan _ (reachable_inv _ HR) _ _ Hp) as (_ & ((H1 & H2 & H3 & H4) & H5 & _) & _).
  pose proof channelWindowSize_eq. repeat split; try done; lia || apply H5.
Qed.

(** A packet with a channel number reaches the channel of that number,
    which is open: the loop never sends on a closed Go channel. *)
Lemma packet_dispatch m n p :
  reachable_mux m -> getChan (m_list m) (m_offset m) n = Some p ->
  exists ch, m_chans m !! p = Some ch /\ cc_localId (ch_const ch) = u32 n /\ ct_closed (ch_ctl ch) = false.
Proof.
  intros HR HG. pose proof (reachable_inv _ HR) as HI.
  destruct (getChan_Some _ _ _ _ HG) as (i & Hi & _). destruct (inv_list _ HI _ _ Hi) as (ch & Hp & _).
  exists ch. split; [done|]. by eapply getChan_localId.
Qed.

(** After a channel sent its close message, nothing more is sent on it. *)
Lemma nothing_after_close m p pre x post :
  reachable_mux m -> c_sent (m_conn m) = pre ++ (Some p, x) :: post -> is_close x = true ->
  forall y, (Some p, y) ∉ post.
Proof.
  intros HR Hs Hx y Hy. destruct (inv_close _ (reachable_inv _ HR) _ _ _ _ Hs Hx) as (HF & _).
  rewrite Forall_forall in HF. by apply (HF _ Hy).
Qed.

(** ** Concrete connections *)
Definition ready_b (m : mux) : bool :=
  bool_decide (m_err m = None) && (len (m_incomingChannels m) <=? chanSize) &&
  (len (m_incomingRequests m) <=? chanSize) &&
  forallb (fun ch => (len (ct_msg (ch_ctl ch)) <=? chanSize) && (len (ct_incomingRequests (ch_ctl ch)) <=? chanSize))
    (m_chans m).

Lemma ready_b_ready m : ready_b m = true -> loop_ready m.
Proof.
  unfold ready_b, loop_ready. rewrite !andb_true_iff, bool_decide_eq_true, !Z.leb_le, forallb_Forall.
  intros [[[H1 H2] H3] H4]. split; [done|]. split; [done|]. split; [done|].
  eapply Forall_impl; [exact H4|]. cbn. intros ch. by rewrite andb_true_iff, !Z.leb_le.
Qed.

(** The loop on a list of packets, as long as no packet ends it. *)
Fixpoint receive (m : mux) (ps : list gostring) : option mux :=
  match ps with
  | [] => Some m
  | p :: ps =>
      if ready_b m && negb (len p =? 0) && (len p <=? maxPacket) then
        match onePacket m p with (m, None) => receive m ps | (_, Some _) => None end
      else None
  end.

Lemma receive_steps ps m m' : receive m ps = Some m' -> rtc mstep m m'.
Proof.
  revert m. induction ps as [|p ps IH]; intros m; cbn [receive]; [intros [= ->]; apply rtc_refl|].
  destruct (ready_b m && _ && _) eqn:E; [|done]. apply andb_true_iff in E as [E E3].
  apply andb_true_iff in E as [E1 E2]. destruct (onePacket m p) as [m1 [e|]] eqn:EP; [done|]. intros H.
  eapply rtc_l; [|by apply IH]. refine (s_packet m p m1 None (ready_b_ready _ E1) _ _ EP).
  - intros ->. done.
  - by apply Z.leb_le.
Qed.

Definition open_packet : gostring := MarshalMsg (Mk_channelOpenMsg (go "session") 7 1000 32768 []).
Definition close_packet : gostring := MarshalMsg (Mk_channelCloseMsg 0).
Definition after (ps : list gostring) : mux := default (newMux 0) (receive (newMux 0) ps).

Definition mux_data : mux := Eval vm_compute in after [open_packet; data_packet 0 0 (go "abc")].
Definition mux_closed : mux := Eval vm_compute in after [open_packet; close_packet].
Definition mux_reused : mux := Eval vm_compute in after [open_packet; close_packet; open_packet].
Definition chan_at (m : mux) (p : nat) : channel :=
  default (fresh_channel 0 [] [] channelInbound 0) (m_chans m !! p).

Lemma mux_data_reachable : reachable_mux mux_data.
Proof. exists 0. by apply (receive_steps [open_packet; data_packet 0 0 (go "abc")]). Qed.
Lemma mux_closed_reachable : reachable_mux mux_closed.
Proof. exists 0. by apply (receive_steps [open_packet; close_packet]). Qed.
Lemma mux_reused_reachable : reachable_mux mux_reused.
Proof. exists 0. by apply (receive_steps [open_packet; close_packet; open_packet]). Qed.

Lemma flow_control_witness : unread (ch_in (chan_at mux_data 0)) <= 2 ^ 21.
Proof. apply (flow_control mux_data 0 (chan_at mux_data 0) mux_data_reachable). reflexivity. Defined.

(** A packet for the channel with a number. *)
Definition channel_packet (id : Z) (packet : gostring) : Prop :=
  first_byte packet ∉ [msgChannelOpen; msgGlobalRequest; msgRequestSuccess; msgRequestFailure; msgPing] /\
  5 <= len packet /\ be_value (take 4 (drop 1 packet)) = id.
Lemma getChan_remove l offset id : getChan (chan_remove l offset id) offset id = None.
Proof.
  unfold getChan, chan_remove. destruct (u32 (id - offset) <? u32 (len l)) eqn:E; [|by rewrite E].
  replace (len (<[Z.to_nat (u32 (id - offset)) := None]> l)) with (len l) by (unfold len; by rewrite length_insert).
  rewrite E. destruct (decide (Z.to_nat (u32 (id - offset)) < length l)%nat).
  - rewrite list_lookup_insert_eq; [reflexivity|lia].
  - rewrite lookup_ge_None_2; [done|]. rewrite length_insert. lia.
Qed.
Lemma getChan_remove_ne l offset id id' : u32 (id' - offset) <> u32 (id - offset) -> getChan (chan_remove l offset id) offset id' = getChan l offset id'.
Proof.
  intros Hne. unfold getChan, chan_remove. destruct (u32 (id - offset) <? u32 (len l)); [|done]. unfold len. rewrite length_insert.
  destruct (_ <? _); [|done]. rewrite list_lookup_insert_ne; [done|]. intros E. apply Hne. apply (f_equal Z.of_nat) in E.
  unfold u32 in *. rewrite !Z2Nat.id in E by (apply Z.mod_pos_bound; lia). done.
Qed.
Lemma unknown_packet m id packet :
  getChan (m_list m) (m_offset m) id = None -> channel_packet id packet -> onePacket m packet = handleUnknownChannelPacket m id packet.
Proof.
  intros Hg (Hb & Hl & Hid). unfold onePacket. cbv zeta. rewrite Hid, Hg.
  repeat rewrite not_elem_of_cons in Hb. destruct Hb as (H1 & H2 & H3 & H4 & H5 & _).
  rewrite (proj2 (Z.eqb_neq _ _) H1), (proj2 (Z.eqb_neq _ _) H2), (proj2 (Z.eqb_neq _ _) H3), (proj2 (Z.eqb_neq _ _) H4), (proj2 (Z.eqb_neq _ _) H5).
  cbn [orb]. destruct (Z.ltb_spec (len packet) 5); [lia|done].
Qed.

(** C40. [Reject] removes whatever channel has the number of the rejected one.  First, in a
    reachable state that may be another, open channel: the peer opened a channel, closed it
    and opened a second one, which has got the number.  Then, for every mux and every
    undecided channel, after [Reject] no channel has its number, and the other numbers keep
    theirs; no packet of the peer for the number reaches a channel: a request is refused
    when it wants a reply and else ignored, and any other packet is an error, with which
    the loop of the connection ends. *)
Theorem reject_drops_other :
  (exists m p p' ch ch', reachable_mux m /\ m_chans m !! p = Some ch /\ m_chans m !! p' = Some ch' /\ p' <> p /\
     cc_direction (ch_const ch) = channelInbound /\ ct_decided (ch_ctl ch) = false /\ ct_closed (ch_ctl ch') = false /\
     getChan (m_list m) (m_offset m) (cc_localId (ch_const ch)) = Some p') /\
  (forall m p ch reason message m' err, m_chans m !! p = Some ch -> ct_decided (ch_ctl ch) = false ->
     Reject m p ch reason message = (m', err) ->
     let id := cc_localId (ch_const ch) in
     getChan (m_list m') (m_offset m') id = None /\
     (forall id', u32 (id' - m_offset m) <> u32 (id - m_offset m) -> getChan (m_list m') (m_offset m') id' = getChan (m_list m) (m_offset m) id') /\
     forall packet, channel_packet id packet ->
       m_chans (fst (onePacket m' packet)) = m_chans m' /\
       match decode_packet_ne packet with
       | Ok (M_channelRequest msg) =>
           onePacket m' packet = if channelRequest_WantReply msg
                                 then mux_sendMessage m' (Mk_channelRequestFailureMsg (channelRequest_PeersID msg)) else (m', None)
       | _ => exists e, onePacket m' packet = (m', Some e)
       end).
Proof.
  split.
  - exists mux_reused, 0%nat, 1%nat, (chan_at mux_reused 0), (chan_at mux_reused 1). split; [apply mux_reused_reachable|]. by split_and!.
  - intros m p ch reason message m' err Hp Hd HR id. unfold Reject in HR. rewrite Hd in HR.
    destruct (sendMessage _ _ _) as [[ch1 k1] err1]. injection HR as <- <-. fold id.
    split; [apply getChan_remove|]. split; [intros id'; apply getChan_remove_ne|]. intros packet Hpk.
    rewrite (unknown_packet _ id packet); [|apply getChan_remove|done]. unfold handleUnknownChannelPacket.
    destruct (decode_packet_ne packet) as [[]|e]; try (split; [done|by eexists]). destruct (channelRequest_WantReply _); [|done]. split; [|done].
    unfold mux_sendMessage. by repeat case_match.
Qed.
Lemma reject_drops_other_witness :
  getChan (m_list (fst (Reject mux_reused 0 (chan_at mux_reused 0) 4 (go "resource shortage")))) 0 0 = None /\
  exists e, onePacket (fst (Reject mux_reused 0 (chan_at mux_reused 0) 4 (go "resource shortage"))) (data_packet 0 0 (go "x")) =
    (fst (Reject mux_reused 0 (chan_at mux_reused 0) 4 (go "resource shortage")), Some e).
Proof.
  destruct (proj2 reject_drops_other mux_reused 0%nat (chan_at mux_reused 0) 4 (go "resource shortage") _ _ eq_refl eq_refl eq_refl) as (Hn & _ & Hpk).
  split; [exact Hn|]. refine (proj2 (Hpk (data_packet 0 0 (go "x")) _)).
  split; [apply (bool_decide_unpack _); reflexivity|split; [vm_compute; discriminate|reflexivity]].
Defined.
