(* ===== verification/GitPath.v ===== *)
(** * Repository paths of the git server: modules/gitserver/path.go.

    [NormalizeRepoPath] is the gate every repository name passes, from the
    configuration and from clients.  The file characterises exactly which
    strings it accepts and what it returns: the segments of the argument that
    are neither empty nor a dot, joined with slashes. *)
From Stdlib Require Import Ascii String ZArith Lia.
From stdpp Require Import base gmap strings list.
From S2P Require Import Prelude GoStrings GoPath.
Local Open Scope Z_scope.

(** [^[A-Za-z0-9._@+-]+$], the pattern of a segment. *)
Definition repo_char (c : ascii) : bool :=
  isUpperASCII c || isLowerASCII c || is_digit c
  || (c =c ".") || (c =c "_") || (c =c "@") || (c =c "+") || (c =c "-").
Definition repoSegmentPattern (seg : gostring) : bool :=
  negb (seg =s []) && forallb repo_char seg.

(** The loop over the segments of the cleaned path; [None]: all are fine. *)
Fixpoint check_segments (segs : list gostring) : option error :=
  match segs with
  | [] => None
  | seg :: rest =>
      if (seg =s []) || (seg =s dot) || (seg =s dotdot)
      then Some (errors_New (go "repository path cannot contain empty or traversal segments"))
      else if negb (repoSegmentPattern seg)
      then Some (errors_New (go "repository path contains invalid segment: " ++ seg))
      else check_segments rest
  end.

Definition NormalizeRepoPath (repo : gostring) : res gostring :=
  if repo =s [] then Err (errors_New (go "repository path cannot be empty"))
  else if ContainsByte repo chBS
  then Err (errors_New (go "repository path cannot contain backslash"))
  else if ContainsByte repo ":"
  then Err (errors_New (go "repository path cannot contain colon"))
  else
    let repo := TrimPrefix repo [slash] in
    if existsb (fun seg => seg =s dotdot) (Split repo slash)
    then Err (errors_New (go "repository path cannot contain traversal segment"))
    else
      let cleaned := Clean repo in
      if (cleaned =s []) || (cleaned =s dot) || (cleaned =s dotdot)
      then Err (errors_New (go "repository path cannot be empty or traversal"))
      else match check_segments (Split cleaned slash) with
           | Some e => Err e
           | None => Ok cleaned
           end.

(** ** What the function promises *)

(** A segment of a canonical repository path. *)
Definition repo_segment (s : gostring) : Prop :=
  repoSegmentPattern s = true /\ s <> dot /\ s <> dotdot.

Definition repo_path (p : gostring) : Prop :=
  exists segs, segs <> [] /\ Forall repo_segment segs /\ p = Join segs [slash].

#[export] Instance repo_segment_dec s : Decision (repo_segment s).
Proof. unfold repo_segment. apply _. Defined.

Lemma check_segments_None segs : check_segments segs = None <-> Forall repo_segment segs.
Proof.
  induction segs as [|s segs IH]; simpl; [done|].
  rewrite Forall_cons, <- IH. unfold repo_segment.
  destruct (s =s []) eqn:E0; simpl; bool_simp; subst; [by split; [|intros [[? _] _]]|].
  destruct (s =s dot) eqn:E1; simpl; bool_simp; subst; [by split; [|intros [[_ [? _]] _]]|].
  destruct (s =s dotdot) eqn:E2; simpl; bool_simp; subst; [by split; [|intros [[_ [_ ?]] _]]|].
  destruct (repoSegmentPattern s); simpl; [tauto|]. by split; [|intros [[? _] _]].
Qed.

(** A byte of the pattern is none of the bytes paths give a meaning to. *)
Lemma repo_char_plain c : repo_char c = true -> c <> slash /\ c <> chBS /\ c <> ":"%char.
Proof. intros H. repeat split; intros ->; vm_compute in H; done. Qed.

Lemma repo_segment_good s : repo_segment s -> good_seg s.
Proof.
  intros (HP & Hd & Hdd). unfold repoSegmentPattern in HP. bool_simp.
  split; [done|]. split; [done|]. split; [done|].
  intros Hin. rewrite forallb_Forall, Forall_forall in *.
  by destruct (repo_char_plain slash); auto.
Qed.

Lemma repo_segments_good segs : Forall repo_segment segs -> Forall good_seg segs.
Proof. intros H. eapply Forall_impl; [exact H|]. apply repo_segment_good. Qed.
#[export] Hint Resolve repo_segments_good : go.

(** A list of segments without a byte [c] joins to a string without it. *)
Lemma repo_segment_bytes s c : repo_segment s -> c ∈ s -> repo_char c = true.
Proof.
  intros (HP & _) Hin. unfold repoSegmentPattern in HP. bool_simp.
  rewrite forallb_Forall, Forall_forall in *. auto.
Qed.

Lemma Split_elem s c b : b <> c -> b ∈ s -> exists seg, seg ∈ Split s c /\ b ∈ seg.
Proof.
  intros Hbc. induction s as [|x s IH]; simpl; [by intros ?%elem_of_nil|].
  intros [->|Hin]%elem_of_cons.
  - destruct (Ascii.eqb_spec x c); [congruence|].
    destruct (Split s c) as [|y l]; eexists; (split; [left|left]).
  - destruct (IH Hin) as (seg & H1 & H2). destruct (x =c c).
    + exists seg. split; [by right|done].
    + pose proof (Split_ne s c). destruct (Split s c) as [|y l]; [done|].
      apply elem_of_cons in H1 as [->|H1].
      * exists (x :: y). split; [left|by right].
      * exists seg. split; [by right|done].
Qed.

(** Accepted arguments contain no backslash or colon, so these two early
    checks never decide an outcome. *)
Lemma plain_bytes repo b :
  Forall repo_segment (real_segs (Split (TrimPrefix repo [slash]) slash)) ->
  b <> slash -> b <> "."%char -> repo_char b = false -> ContainsByte repo b = false.
Proof.
  intros HF Hs Hd Hb. apply not_true_iff_false. rewrite ContainsByte_spec. intros Hin.
  assert (b ∈ TrimPrefix repo [slash]) as Hin'.
  { unfold TrimPrefix. destruct (HasPrefix repo [slash]) eqn:E; [|done].
    apply HasPrefix_char in E as [t ->]. by apply elem_of_cons in Hin as [|]. }
  apply (Split_elem _ slash) in Hin' as (seg & Hseg & Hbs); [|done].
  assert (seg ∈ real_segs (Split (TrimPrefix repo [slash]) slash)) as Hr.
  { apply list_elem_of_filter. split; [|done]. split; intros ->.
    - by apply elem_of_nil in Hbs.
    - by apply list_elem_of_singleton in Hbs. }
  rewrite Forall_forall in HF. apply HF in Hr.
  rewrite (repo_segment_bytes _ _ Hr Hbs) in Hb. done.
Qed.

Lemma real_segs_nodotdot segs : Forall repo_segment (real_segs segs) -> dotdot ∉ segs.
Proof.
  intros HF Hin. rewrite Forall_forall in HF. destruct (HF dotdot) as (_ & _ & ?); [|done].
  by apply list_elem_of_filter.
Qed.

Lemma Join_good_ne segs : segs <> [] -> Forall good_seg segs ->
  Join segs [slash] <> [] /\ Join segs [slash] <> dot /\ Join segs [slash] <> dotdot.
Proof.
  intros Hne HF.
  assert (Split (Join segs [slash]) slash = segs) as HS.
  { apply Split_Join; [done|]. eapply Forall_impl; [exact HF|]. intros x Hx. apply Hx. }
  repeat split; intros E; rewrite E in HS; vm_compute in HS; subst segs;
    apply Forall_cons in HF as [(? & ? & ? & _) _]; by vm_compute in *.
Qed.

(** The exact graph of the successful calls. *)
Lemma NormalizeRepoPath_Ok repo p :
  NormalizeRepoPath repo = Ok p <->
  let segs := real_segs (Split (TrimPrefix repo [slash]) slash) in
  HasPrefix (TrimPrefix repo [slash]) [slash] = false /\
  segs <> [] /\ Forall repo_segment segs /\ p = Join segs [slash].
Proof.
  set (segs := real_segs _). cbv zeta. unfold NormalizeRepoPath. split.
  - destruct (repo =s []) eqn:E0; [done|]. do 2 (destruct (ContainsByte _ _); [done|]).
    destruct (existsb _ _) eqn:Ed; [done|]. apply existsb_dotdot in Ed.
    rewrite Clean_nodotdot by done. fold segs.
    destruct (HasPrefix (TrimPrefix repo [slash]) [slash]) eqn:EP.
    + unfold abs_path. rewrite Split_cons_sep. simpl. by repeat case_match.
    + assert (Forall good_seg segs) as HG by by apply real_segs_good.
      destruct segs as [|s0 segs'] eqn:ES; [done|].
      destruct (orb _ _) eqn:E1; [done|].
      rewrite Split_Join;
        [|done|eapply Forall_impl; [exact HG|]; intros x Hx; apply Hx].
      destruct (check_segments _) eqn:EC; [done|]. intros [= <-].
      apply check_segments_None in EC. done.
  - intros (EP & Hne & HF & ->).
    pose proof (real_segs_nodotdot _ HF) as Hd.
    assert (Forall good_seg segs) as HG by eauto with go.
    destruct (repo =s []) eqn:E0.
    { bool_simp. subst repo. by exfalso; apply Hne. }
    rewrite !(plain_bytes repo) by done.
    rewrite (proj2 (existsb_dotdot _) Hd), Clean_nodotdot, EP by done. fold segs.
    destruct (Join_good_ne segs Hne HG) as (H1 & H2 & H3).
    destruct segs as [|s0 segs'] eqn:ES; [done|].
    rewrite !(proj2 (gos_eqb_neq _ _)) by done. cbn [orb].
    rewrite Split_Join;
      [|done|eapply Forall_impl; [exact HG|]; intros x Hx; apply Hx].
    by rewrite (proj2 (check_segments_None _) HF).
Qed.

Lemma Split_repo_path segs :
  segs <> [] -> Forall repo_segment segs -> Split (Join segs [slash]) slash = segs.
Proof.
  intros Hne HF%repo_segments_good. apply Split_Join; [done|].
  eapply Forall_impl; [exact HF|]. intros x Hx. apply Hx.
Qed.

Lemma repo_path_unrooted segs :
  segs <> [] -> Forall repo_segment segs -> HasPrefix (Join segs [slash]) [slash] = false.
Proof.
  intros Hne HF. apply not_true_iff_false. intros [t E]%HasPrefix_char.
  pose proof (Split_repo_path _ Hne HF) as HS. rewrite E, Split_cons_sep in HS.
  subst segs. apply Forall_cons in HF as [[? _] _]. done.
Qed.

(** A canonical path is its own normal form, with or without one slash before it. *)
Lemma NormalizeRepoPath_fixed p :
  repo_path p -> NormalizeRepoPath p = Ok p /\ NormalizeRepoPath (slash :: p) = Ok p.
Proof.
  intros (segs & Hne & HF & ->). rewrite !NormalizeRepoPath_Ok. cbv zeta.
  pose proof (repo_path_unrooted _ Hne HF) as HU.
  assert (TrimPrefix (slash :: Join segs [slash]) [slash] = Join segs [slash]) as ->.
  { unfold TrimPrefix. by rewrite (proj2 (HasPrefix_char _ _)) by by eexists. }
  unfold TrimPrefix. rewrite HU, HU, Split_repo_path, real_segs_id by eauto with go.
  done.
Qed.

Lemma NormalizeRepoPath_repo_path repo p : NormalizeRepoPath repo = Ok p -> repo_path p.
Proof.
  rewrite NormalizeRepoPath_Ok. intros (_ & Hne & HF & ->). eexists. done.
Qed.
#[export] Hint Resolve NormalizeRepoPath_repo_path : go.

(** ** Properties *)

(** Exactly which repository names are accepted, and as what: a name is
    accepted iff, after one optional leading slash, it does not start with a
    slash again, and its segments other than the empty and the dot ones are at
    least one, match the segment pattern and are not dot-dot; the result is
    those segments joined by single slashes.  The results are the canonical
    paths, and these are their own normal forms: normalising twice, as request
    parsing, authorisation and the backends do, is normalising once. *)
Lemma NormalizeRepoPath_correct p :
  (forall repo, NormalizeRepoPath repo = Ok p <->
     let rest := TrimPrefix repo [slash] in
     let segs := real_segs (Split rest slash) in
     HasPrefix rest [slash] = false /\
     segs <> [] /\ Forall repo_segment segs /\ p = Join segs [slash]) /\
  ((exists repo, NormalizeRepoPath repo = Ok p) <-> repo_path p) /\
  (repo_path p <-> NormalizeRepoPath p = Ok p).
Proof.
  split; [intros repo; apply NormalizeRepoPath_Ok|]. pose proof (NormalizeRepoPath_fixed p) as HF.
  split; split; try naive_solver eauto with go.
Qed.

Example normalize_dots : NormalizeRepoPath (go "/team/.//project.git/") = Ok (go "team/project.git").
Proof. reflexivity. Qed.
Example normalize_traversal :
  NormalizeRepoPath (go "team/../secret.git")
  = Err (errors_New (go "repository path cannot contain traversal segment")).
Proof. reflexivity. Qed.

(** Only one leading slash is stripped. *)
Example normalize_two_slashes :
  NormalizeRepoPath (go "//team/project.git")
  = Err (errors_New (go "repository path cannot contain empty or traversal segments")).
Proof. reflexivity. Qed.
