(* ===== verification/GitRequest.v ===== *)
(** * Git exec commands: the parsing half of modules/gitserver/request.go.

    [ParseGitCommand] turns the command string of an SSH exec request into a
    [Request].  Its tokenizer decodes UTF-8, so the loop consumes a rune at a
    time; the offset is kept for the error messages.  Proved: the fuel always
    suffices, tokens survive quoting, an accepted command is one of the three
    services on a canonical repository path and has no byte a shell would
    act upon, and printing a request and parsing it again gives it back. *)
From Stdlib Require Import Ascii String ZArith Lia.
From stdpp Require Import base gmap strings list.
From S2P Require Import Prelude GoStrings GoPath GitPath.
Local Open Scope Z_scope.

(** [type Operation string]: any string is a value of the type. *)
Definition OperationRead : gostring := go "read".
Definition OperationWrite : gostring := go "write".

Record Request := MkRequest {
  Command : gostring;
  Operation : gostring;
  RepoPath : gostring;
  BackendPath : gostring
}.

#[export] Instance Request_eq_dec : EqDecision Request.
Proof. solve_decision. Defined.

(** [Request{}]. *)
Definition Request0 : Request := MkRequest [] [] [] [].

(** The two lookup tables of accepted services. *)
Definition gitServiceSubcommand (k : gostring) : option (gostring * gostring) :=
  if k =s go "upload-pack" then Some (go "git-upload-pack", OperationRead)
  else if k =s go "receive-pack" then Some (go "git-receive-pack", OperationWrite)
  else if k =s go "upload-archive" then Some (go "git-upload-archive", OperationRead)
  else None.
Definition gitHyphenCommand (k : gostring) : option (gostring * gostring) :=
  if k =s go "git-upload-pack" then Some (go "git-upload-pack", OperationRead)
  else if k =s go "git-receive-pack" then Some (go "git-receive-pack", OperationWrite)
  else if k =s go "git-upload-archive" then Some (go "git-upload-archive", OperationRead)
  else None.

Definition unsafeShellMetacharacters : gostring := go ";&|`$<>()".

(** ** The tokenizer *)
Record tstate := TState {
  tk_tokens : list gostring;
  tk_cur : gostring;
  inToken : bool;
  inSingle : bool;
  inDouble : bool
}.

Definition tok_flush (st : tstate) : tstate :=
  if inToken st
  then TState (tk_tokens st ++ [tk_cur st]) [] false (inSingle st) (inDouble st)
  else st.

Definition tok_write (st : tstate) (r : Z) (inTok : bool) : tstate :=
  TState (tk_tokens st) (tk_cur st ++ EncodeRune r) inTok (inSingle st) (inDouble st).

Definition tok_quotes (st : tstate) (inTok sq dq : bool) : tstate :=
  TState (tk_tokens st) (tk_cur st) inTok sq dq.

(** The [switch] of the loop body, on a rune that passed the checks. *)
Definition tok_rune (st : tstate) (r : Z) : tstate :=
  if inSingle st then
    if r =? bv chSQ then tok_quotes st (inToken st) false (inDouble st)
    else tok_write st r (inToken st)
  else if inDouble st then
    if r =? bv chDQ then tok_quotes st (inToken st) (inSingle st) false
    else tok_write st r (inToken st)
  else if r =? bv chSQ then tok_quotes st true true (inDouble st)
  else if r =? bv chDQ then tok_quotes st true (inSingle st) true
  else if (r =? bv " "%char) || (r =? bv chTAB) then tok_flush st
  else tok_write st r true.

(** The [%02X] verb on a value below 256. *)
Definition hexdigit_upper (n : Z) : ascii := if n <? 10 then vb (48 + n) else vb (55 + n).
Definition hex02X (z : Z) : gostring := [hexdigit_upper (z / 16); hexdigit_upper (z mod 16)].

Fixpoint tok_loop (fuel : nat) (s : gostring) (i : Z) (st : tstate) : res tstate :=
  match fuel, s with
  | S f, _ :: _ =>
      let '(r, size) := DecodeRune s in
      if (r =? RuneError) && (size =? 1)%nat
      then Err (errors_New (go "invalid UTF-8 byte at offset " ++ Itoa i))
      else if (r <? 32) || (r =? 127)
      then Err (errors_New (go "control character 0x" ++ hex02X r ++ go " at offset " ++ Itoa i))
      else tok_loop f (drop size s) (i + Z.of_nat size) (tok_rune st r)
  | _, _ => Ok st
  end.

Definition tokenize (s : gostring) : res (list gostring) :=
  st ← tok_loop (length s) s 0 (TState [] [] false false false);
  if inSingle st then Err (errors_New (go "unterminated single quote"))
  else if inDouble st then Err (errors_New (go "unterminated double quote"))
  else match tk_tokens (tok_flush st) with
       | [] => Err (errors_New (go "empty command"))
       | tokens => Ok tokens
       end.

Definition rejectUnsafeChars (s : gostring) : option error :=
  if ContainsAny s unsafeShellMetacharacters
  then Some (errors_New (go "command contains forbidden shell metacharacter"))
  else None.

Section Parse.
Context `{UnicodeTables}.

(** The [switch] on the token list: command, operation and repository token. *)
Definition select_service (tokens : list gostring) : res (gostring * gostring * gostring) :=
  match tokens with
  | [t0; t1; t2] =>
      if t0 =s go "git" then
        match gitServiceSubcommand t1 with
        | None => Err (errors_New (go "unknown git subcommand " ++ Quote t1))
        | Some (cmd, op) => Ok (cmd, op, t2)
        end
      else Err (errors_New
        (go "expected 2 tokens (git-<service> <repo>) or 3 tokens (git <service> <repo>), got "
         ++ Itoa (len tokens)))
  | [t0; t1] =>
      match gitHyphenCommand t0 with
      | None => Err (errors_New (go "unknown git command " ++ Quote t0))
      | Some (cmd, op) => Ok (cmd, op, t1)
      end
  | _ => Err (errors_New
      (go "expected 2 tokens (git-<service> <repo>) or 3 tokens (git <service> <repo>), got "
       ++ Itoa (len tokens)))
  end.

Definition ParseGitCommand (command : gostring) : res Request :=
  match rejectUnsafeChars command with
  | Some e => Err e
  | None =>
      tokens ← tokenize command;
      sel ← select_service tokens;
      let '(cmd, op, repoToken) := sel in
      match NormalizeRepoPath repoToken with
      | Err e => Err (errors_wrap (go "invalid repository path: ") e)
      | Ok repoNorm => Ok (MkRequest cmd op repoNorm [])
      end
  end.
End Parse.

(** [isEscapeRel] on a POSIX system: the separator is a slash, and a path is
    absolute when it starts with one. *)
Definition isEscapeRel (rel : gostring) : bool :=
  (rel =s dotdot) || HasPrefix rel (dotdot ++ [slash]) || HasPrefix rel [slash].

Example parse_git :
  let _ := ascii_tables in
  ParseGitCommand (go "git upload-pack '/team/project.git'")
  = Ok (MkRequest (go "git-upload-pack") OperationRead (go "team/project.git") []).
Proof. reflexivity. Qed.
Example parse_control :
  let _ := ascii_tables in
  ParseGitCommand (go "git-upload-pack" ++ [vb 31])
  = Err (errors_New (go "control character 0x1F at offset 15")).
Proof. reflexivity. Qed.

(** ** The tokenizer loop *)
Lemma tok_loop_fuel f s i st :
  (length s <= f)%nat -> tok_loop f s i st = tok_loop (length s) s i st.
Proof.
  revert f i st. induction s as [s IH] using list_len_ind. intros f i st Hf.
  destruct s as [|b t]; [by destruct f|]. destruct f as [|f]; [simpl in Hf; lia|].
  cbn [tok_loop length]. pose proof (DecodeRune_width (b :: t) ltac:(done)) as HW.
  destruct (DecodeRune (b :: t)) as [r n]. cbn [length] in *.
  do 2 (destruct (andb _ _) || destruct (orb _ _); [done|]).
  assert (length (drop n (b :: t)) <= length t)%nat as HL by (rewrite length_drop; simpl; lia).
  rewrite (IH (drop n (b :: t))), (IH (drop n (b :: t)) ltac:(simpl; lia) (length t)); [done|lia..].
Qed.

(** A rune the tokenizer lets through. *)
Definition text_rune (r : Z) : bool := valid_rune r && (32 <=? r) && negb (r =? 127).

Lemma EncodeRune_ne r : EncodeRune r <> [].
Proof. unfold EncodeRune. by repeat case_match. Qed.

Lemma tok_loop_rune f r t i st :
  text_rune r = true -> (length (EncodeRune r ++ t) <= f)%nat ->
  tok_loop f (EncodeRune r ++ t) i st
  = tok_loop (length t) t (i + len (EncodeRune r)) (tok_rune st r).
Proof.
  unfold text_rune. intros Ht Hf. bool_simp.
  pose proof (DecodeRune_EncodeRune r t ltac:(done)) as HD.
  rewrite tok_loop_fuel by done.
  destruct (EncodeRune r) as [|b l] eqn:E; [by apply EncodeRune_ne in E|].
  cbn [app length] in *. cbn [tok_loop]. rewrite HD.
  assert ((r =? RuneError) && (S (length l) =? 1)%nat = false) as ->.
  { destruct (Z.eqb_spec r RuneError) as [->|]; [|done]. by injection E as <- <-. }
  replace ((r <? 32) || (r =? 127)) with false
    by (symmetry; apply orb_false_iff; split; [apply Z.ltb_ge|apply Z.eqb_neq]; lia).
  change (drop (S (length l)) (b :: l ++ t)) with (drop (length (b :: l)) ((b :: l) ++ t)).
  rewrite drop_app_length. apply tok_loop_fuel. rewrite length_app. lia.
Qed.

(** A string of such runes, fed one by one. *)
Definition encode (rs : list Z) : gostring := flat_map EncodeRune rs.

Lemma encode_app rs1 rs2 : encode (rs1 ++ rs2) = encode rs1 ++ encode rs2.
Proof. apply flat_map_app. Qed.

Lemma encode_ascii t : Forall (fun c => bv c < 128) t -> encode (map bv t) = t.
Proof.
  intros HF. unfold encode. induction HF as [|c t Hc HF IH]; [done|]. simpl. rewrite IH.
  pose proof (bv_range c).
  assert (valid_rune (bv c) = true) as Hv by (unfold valid_rune; decide_tests; done).
  unfold EncodeRune. rewrite Hv. decide_tests. cbn. by rewrite vb_bv.
Qed.

Lemma tok_loop_encode rs t i st :
  Forall (fun r => text_rune r = true) rs ->
  exists j, tok_loop (length (encode rs ++ t)) (encode rs ++ t) i st
            = tok_loop (length t) t j (fold_left tok_rune rs st).
Proof.
  intros HF. revert i st. induction HF as [|r rs Hr HF IH]; intros i st; [by exists i|].
  unfold encode in *. simpl. rewrite <- app_assoc.
  rewrite tok_loop_rune by done. apply IH.
Qed.

Lemma tokenize_encode rs :
  Forall (fun r => text_rune r = true) rs ->
  tokenize (encode rs) =
  let st := fold_left tok_rune rs (TState [] [] false false false) in
  if inSingle st then Err (errors_New (go "unterminated single quote"))
  else if inDouble st then Err (errors_New (go "unterminated double quote"))
  else match tk_tokens (tok_flush st) with
       | [] => Err (errors_New (go "empty command"))
       | tokens => Ok tokens
       end.
Proof.
  intros HF. unfold tokenize.
  destruct (tok_loop_encode rs [] 0 (TState [] [] false false false) HF) as [j E].
  rewrite app_nil_r in E. by rewrite E.
Qed.

(** Conversely a string the loop accepts is such a sequence of runes. *)
Lemma tok_loop_Ok s i st st' :
  tok_loop (length s) s i st = Ok st' ->
  exists rs, s = encode rs /\ Forall (fun r => text_rune r = true) rs
             /\ st' = fold_left tok_rune rs st.
Proof.
  revert i st. induction s as [s IH] using list_len_ind. intros i st.
  destruct s as [|b t]; [intros [= <-]; by exists []|].
  cbn [tok_loop length]. pose proof (DecodeRune_width (b :: t) ltac:(done)) as HW.
  destruct (DecodeRune (b :: t)) as [r n] eqn:ED. cbn [length] in HW.
  destruct ((r =? RuneError) && (n =? 1)%nat) eqn:E1; [done|].
  destruct ((r <? 32) || (r =? 127)) eqn:E2; [done|].
  rewrite tok_loop_fuel by (rewrite length_drop; simpl; lia). intros HL.
  apply IH in HL as (rs & Hs & HF & ->); [|rewrite length_drop; simpl; lia].
  apply DecodeRune_valid in ED as [Hv HE]; [|done|].
  - exists (r :: rs). unfold encode in *. cbn [flat_map]. rewrite <- Hs, HE, take_drop.
    split; [done|]. split; [|done]. constructor; [|done].
    unfold text_rune. bool_simp. rewrite Hv. by rewrite (proj2 (Z.leb_le _ _)), (proj2 (Z.eqb_neq _ _)).
  - intros [-> ->]. done.
Qed.

(** ** Quoting *)
Definition word_rune (r : Z) : bool :=
  text_rune r && negb ((r =? 39) || (r =? 34) || (r =? 32) || (r =? 9)).

Lemma fold_word rs ts cur b :
  Forall (fun r => word_rune r = true) rs -> rs <> [] ->
  fold_left tok_rune rs (TState ts cur b false false)
  = TState ts (cur ++ encode rs) true false false.
Proof.
  intros HF. revert cur b. induction HF as [|r rs Hr HF IH]; intros cur b Hne; [done|].
  unfold word_rune in Hr. bool_simp. cbn [fold_left]. unfold tok_rune at 2.
  cbn [inSingle inDouble]. rewrite !(proj2 (Z.eqb_neq _ _)) by (vm_compute bv; lia).
  unfold tok_write. cbn [orb tk_tokens tk_cur inSingle inDouble].
  destruct rs as [|r' rs]; [cbn; by rewrite app_nil_r|]. rewrite IH by done.
  by rewrite <- app_assoc.
Qed.

Lemma tok_quote_open ts cur b :
  tok_rune (TState ts cur b false false) 39 = TState ts cur true true false.
Proof. reflexivity. Qed.
Lemma tok_quote_close ts cur b :
  tok_rune (TState ts cur b true false) 39 = TState ts cur b false false.
Proof. reflexivity. Qed.
Lemma tok_quote_text ts cur b r :
  r <> 39 -> tok_rune (TState ts cur b true false) r = TState ts (cur ++ EncodeRune r) b true false.
Proof. intros Hr. unfold tok_rune. cbn [inSingle]. by rewrite (proj2 (Z.eqb_neq _ _)). Qed.
Lemma tok_space ts cur :
  tok_rune (TState ts cur true false false) 32 = TState (ts ++ [cur]) [] false false false.
Proof. reflexivity. Qed.

Lemma fold_quoted rs ts cur b :
  Forall (fun r => r <> 39) rs ->
  fold_left tok_rune (39 :: rs ++ [39]) (TState ts cur b false false)
  = TState ts (cur ++ encode rs) true false false.
Proof.
  intros HF. cbn [fold_left]. rewrite tok_quote_open. revert cur.
  induction HF as [|r rs Hr HF IH]; intros cur; cbn [app fold_left].
  - rewrite tok_quote_close. by rewrite app_nil_r.
  - rewrite tok_quote_text, IH by done. by rewrite <- app_assoc.
Qed.

(** [<word> ... <word> '<text>'] tokenizes to the words and the text. *)
Definition quoted_words (ws : list gostring) (arg : gostring) : gostring :=
  flat_map (fun w => w ++ go " ") ws ++ go "'" ++ arg ++ go "'".
Definition quoted_command (cmd arg : gostring) : gostring := quoted_words [cmd] arg.

Lemma fold_words ws ts :
  Forall (fun w => w <> [] /\ Forall (fun r => word_rune r = true) w) ws ->
  fold_left tok_rune (flat_map (fun w => w ++ [32]) ws) (TState ts [] false false false)
  = TState (ts ++ map encode ws) [] false false false.
Proof.
  intros HF. revert ts. induction HF as [|w ws [Hne Hw] HF IH]; intros ts; cbn [flat_map map].
  - by rewrite app_nil_r.
  - rewrite !fold_left_app, fold_word by done.
    change (fold_left tok_rune [32] ?st) with (tok_rune st 32). rewrite tok_space, IH.
    by rewrite <- app_assoc.
Qed.

Lemma encode_quoted_words ws arg :
  quoted_words (map encode ws) (encode arg)
  = encode (flat_map (fun w => w ++ [32]) ws ++ 39 :: arg ++ [39]).
Proof.
  rewrite encode_app. unfold quoted_words. f_equal.
  - induction ws as [|w ws IH]; [done|]. cbn [map flat_map]. rewrite IH, !encode_app. done.
  - change (39 :: arg ++ [39]) with ([39] ++ arg ++ [39]). rewrite !encode_app. done.
Qed.

Lemma tokenize_quoted_words ws arg :
  Forall (fun w => w <> [] /\ Forall (fun r => word_rune r = true) w) ws ->
  Forall (fun r => text_rune r = true /\ r <> 39) arg ->
  tokenize (quoted_words (map encode ws) (encode arg)) = Ok (map encode ws ++ [encode arg]).
Proof.
  intros Hw Ha. rewrite encode_quoted_words, tokenize_encode.
  - rewrite fold_left_app, fold_words by done.
    rewrite fold_quoted by (eapply Forall_impl; [exact Ha|]; naive_solver).
    cbn. by destruct (map encode ws).
  - rewrite Forall_app, Forall_cons, Forall_app. repeat split; [| |by repeat constructor].
    + apply Forall_flat_map. eapply Forall_impl; [exact Hw|]. intros w [_ Hr].
      apply Forall_app. split; [|by repeat constructor].
      eapply Forall_impl; [exact Hr|]. unfold word_rune. intros r Hr'. by bool_simp.
    + eapply Forall_impl; [exact Ha|]. naive_solver.
Qed.

(** The same for ASCII words and text. *)
Lemma tokenize_quoted_ascii ws arg :
  Forall (fun w => w <> [] /\ Forall (fun b => bv b < 128 /\ word_rune (bv b) = true) w) ws ->
  Forall (fun b => bv b < 128 /\ text_rune (bv b) = true /\ bv b <> 39) arg ->
  tokenize (quoted_words ws arg) = Ok (ws ++ [arg]).
Proof.
  intros Hw Ha.
  assert (map encode (map (map bv) ws) = ws) as E.
  { rewrite map_map. induction Hw as [|w ws [_ Hb] _ IH]; [done|]. cbn [map]. rewrite IH.
    rewrite encode_ascii; [done|]. eapply Forall_impl; [exact Hb|]. naive_solver. }
  rewrite <- E, <- (encode_ascii arg) by (eapply Forall_impl; [exact Ha|]; naive_solver).
  apply tokenize_quoted_words; apply Forall_map.
  - eapply Forall_impl; [exact Hw|]. intros w [Hne Hb]. split; [by destruct w|].
    apply Forall_map. eapply Forall_impl; [exact Hb|]. naive_solver.
  - eapply Forall_impl; [exact Ha|]. naive_solver.
Qed.

(** ** Bytes of accepted commands *)

(** Neither a control byte nor a metacharacter of the shell. *)
Definition safe_byte (b : ascii) : bool :=
  (32 <=? bv b) && negb (bv b =? 127) && negb (ContainsByte unsafeShellMetacharacters b).

Lemma EncodeRune_bytes r b :
  text_rune r = true -> b ∈ EncodeRune r -> 32 <= bv b /\ bv b <> 127.
Proof.
  unfold text_rune, EncodeRune. intros Ht. bool_simp.
  match goal with H : valid_rune r = true |- _ => rewrite H; rename H into Hv end.
  assert (r <= 1114111) by (unfold valid_rune in Hv; apply orb_true_iff in Hv as [?|?]; bool_simp; lia).
  assert (0 <= r mod 64 < 64) by (apply Z.mod_pos_bound; lia).
  assert (0 <= (r / 64) mod 64 < 64) by (apply Z.mod_pos_bound; lia).
  assert (0 <= (r / 4096) mod 64 < 64) by (apply Z.mod_pos_bound; lia).
  assert (r = 64 * (r / 64) + r mod 64) by (apply Z.div_mod; lia).
  assert (r = 4096 * (r / 4096) + r mod 4096 /\ 0 <= r mod 4096 < 4096)
    by (split; [apply Z.div_mod; lia|apply Z.mod_pos_bound; lia]).
  assert (r = 262144 * (r / 262144) + r mod 262144 /\ 0 <= r mod 262144 < 262144)
    by (split; [apply Z.div_mod; lia|apply Z.mod_pos_bound; lia]).
  destruct (Z.ltb_spec r 128); [|destruct (Z.ltb_spec r 2048); [|destruct (Z.ltb_spec r 65536)]];
    rewrite ?elem_of_cons, ?elem_of_nil; intros Hb; decompose [or] Hb; try done; subst b;
    rewrite bv_vb by lia; lia.
Qed.

Lemma encode_bytes rs :
  Forall (fun r => text_rune r = true) rs ->
  Forall (fun b => 32 <= bv b /\ bv b <> 127) (encode rs).
Proof.
  intros HF. apply Forall_forall. intros b (r & Hr & Hb)%list_elem_of_In%in_flat_map.
  rewrite Forall_forall in HF. eapply EncodeRune_bytes; [by apply HF, list_elem_of_In|].
  by apply list_elem_of_In.
Qed.

Lemma tokenize_bytes s tokens :
  tokenize s = Ok tokens -> Forall (fun b => 32 <= bv b /\ bv b <> 127) s.
Proof.
  unfold tokenize. destruct (tok_loop _ _ _ _) as [st|] eqn:E; [|done].
  apply tok_loop_Ok in E as (rs & -> & HF & _). intros _. by apply encode_bytes.
Qed.

Lemma ContainsAny_false s chars :
  ContainsAny s chars = false <-> Forall (fun b => ContainsByte chars b = false) s.
Proof. apply existsb_false_Forall. Qed.

Lemma accepted_bytes s tokens :
  rejectUnsafeChars s = None -> tokenize s = Ok tokens -> Forall (fun b => safe_byte b = true) s.
Proof.
  unfold rejectUnsafeChars. destruct (ContainsAny _ _) eqn:E; [done|]. intros _ HT.
  apply ContainsAny_false in E. apply tokenize_bytes in HT.
  rewrite Forall_forall in *. intros b Hb. unfold safe_byte.
  destruct (HT b Hb) as [H1 H2]. apply E in Hb. rewrite Hb.
  by rewrite (proj2 (Z.leb_le _ _)), (proj2 (Z.eqb_neq _ _)).
Qed.

(** ** Printed requests parse back *)
Lemma repo_path_bytes p b : repo_path p -> b ∈ p -> repo_char b = true \/ b = slash.
Proof.
  intros (segs & _ & HF & ->) Hb. revert b Hb. apply Forall_forall.
  apply Join_bytes; [repeat constructor; by right|].
  eapply Forall_impl; [exact HF|]. intros s Hs. apply Forall_forall. intros b Hb. left.
  by eapply repo_segment_bytes.
Qed.

Lemma repo_char_text b :
  repo_char b = true \/ b = slash ->
  bv b < 128 /\ text_rune (bv b) = true /\ bv b <> 39 /\ ContainsByte unsafeShellMetacharacters b = false.
Proof.
  assert (forallb (fun n => let b := ascii_of_nat n in
     negb (repo_char b || (b =c slash)) ||
     ((bv b <? 128) && text_rune (bv b) && negb (bv b =? 39)
      && negb (ContainsByte unsafeShellMetacharacters b))) (seq 0 256) = true) as HT
    by (vm_compute; reflexivity).
  intros Hb. rewrite forallb_forall in HT.
  specialize (HT (nat_of_ascii b)). cbv zeta in HT. rewrite ascii_nat_embedding in HT.
  assert (repo_char b || (b =c slash) = true) as E.
  { destruct Hb as [-> | ->]; [done|]. by rewrite orb_true_r. }
  pose proof (nat_ascii_bounded b). specialize (HT ltac:(apply in_seq; lia)).
  rewrite E in HT. cbn [negb orb] in HT. by bool_simp.
Qed.

Lemma gitHyphenCommand_Some k c o :
  gitHyphenCommand k = Some (c, o) ->
  k = c /\ (c = go "git-upload-pack" /\ o = OperationRead
   \/ c = go "git-receive-pack" /\ o = OperationWrite
   \/ c = go "git-upload-archive" /\ o = OperationRead).
Proof.
  unfold gitHyphenCommand. intros H. repeat case_match; inv_ok; bool_simp; naive_solver.
Qed.

Lemma gitServiceSubcommand_Some k c o :
  gitServiceSubcommand k = Some (c, o) -> gitHyphenCommand c = Some (c, o).
Proof. unfold gitServiceSubcommand. intros H. repeat case_match; inv_ok; done. Qed.

Lemma select_service_Ok `{UnicodeTables} tokens c o t :
  select_service tokens = Ok (c, o, t) -> gitHyphenCommand c = Some (c, o).
Proof.
  unfold select_service. intros HS.
  repeat case_match; inv_ok; eauto using gitServiceSubcommand_Some.
  match goal with H' : gitHyphenCommand _ = _ |- _ =>
    pose proof (gitHyphenCommand_Some _ _ _ H') as [-> _]; exact H' end.
Qed.

Section Properties.
Context `{UnicodeTables}.

Lemma ParseGitCommand_Ok c r :
  ParseGitCommand c = Ok r ->
  gitHyphenCommand (Command r) = Some (Command r, Operation r) /\
  repo_path (RepoPath r) /\ BackendPath r = [] /\ Forall (fun b => safe_byte b = true) c.
Proof.
  unfold ParseGitCommand. destruct (rejectUnsafeChars c) eqn:ER; [done|].
  destruct (tokenize c) as [tokens|] eqn:ET; [|done]. simpl.
  destruct (select_service tokens) as [[[cmd op] t]|] eqn:ES; [|done]. simpl.
  destruct (NormalizeRepoPath t) as [p|] eqn:EN; [|done]. intros [= <-]. simpl.
  split; [by eapply select_service_Ok|]. split; [eauto with go|]. split; [done|].
  by eapply accepted_bytes.
Qed.

(** The words and texts that printed commands consist of. *)
Definition service_word (w : gostring) : bool :=
  negb (w =s []) && forallb (fun b => (bv b <? 128) && word_rune (bv b)
    && negb (ContainsByte unsafeShellMetacharacters b)) w.

Lemma service_word_spec w :
  service_word w = true ->
  w <> [] /\ Forall (fun b => (bv b < 128 /\ word_rune (bv b) = true)
                        /\ ContainsByte unsafeShellMetacharacters b = false) w.
Proof.
  unfold service_word. intros Hw. bool_simp. split; [done|].
  match goal with H : forallb _ _ = true |- _ => apply forallb_Forall in H; rename H into HF end.
  eapply Forall_impl; [exact HF|]. intros b Hb. cbv beta in Hb. by bool_simp.
Qed.

Lemma parse_quoted_words ws p :
  Forall (fun w => service_word w = true) ws -> repo_path p ->
  rejectUnsafeChars (quoted_words ws p) = None /\ tokenize (quoted_words ws p) = Ok (ws ++ [p]).
Proof.
  intros Hw Hp.
  assert (Forall (fun b => bv b < 128 /\ text_rune (bv b) = true /\ bv b <> 39
                  /\ ContainsByte unsafeShellMetacharacters b = false) p) as HP.
  { apply Forall_forall. intros b Hb. by eapply repo_char_text, repo_path_bytes. }
  split.
  - unfold rejectUnsafeChars. rewrite (proj2 (ContainsAny_false _ _)); [done|].
    unfold quoted_words. rewrite !Forall_app. repeat split; try by repeat constructor.
    + apply Forall_flat_map. eapply Forall_impl; [exact Hw|]. intros w Hb.
      apply service_word_spec in Hb as [_ Hb].
      apply Forall_app. split; [|by repeat constructor].
      eapply Forall_impl; [exact Hb|]. naive_solver.
    + eapply Forall_impl; [exact HP|]. naive_solver.
  - apply tokenize_quoted_ascii.
    + eapply Forall_impl; [exact Hw|]. intros w Hb. apply service_word_spec in Hb as [Hne Hb].
      split; [done|]. eapply Forall_impl; [exact Hb|]. naive_solver.
    + eapply Forall_impl; [exact HP|]. naive_solver.
Qed.

Lemma ParseGitCommand_print c o p :
  gitHyphenCommand c = Some (c, o) -> repo_path p ->
  ParseGitCommand (quoted_command c p) = Ok (MkRequest c o p []).
Proof.
  intros Hc Hp. destruct (parse_quoted_words [c] p) as [HR HT]; [|done|].
  { constructor; [|constructor].
    apply gitHyphenCommand_Some in Hc as [_ [[-> _]|[[-> _]|[-> _]]]]; reflexivity. }
  unfold ParseGitCommand, quoted_command. rewrite HR, HT. simpl. rewrite Hc. simpl.
  by rewrite (proj1 (NormalizeRepoPath_fixed p Hp)).
Qed.

(** What a parsed request is: its command is one of the three hyphenated
    services and its operation is that service's (write exactly for
    git-receive-pack); its repository is a canonical path; the whole command
    string has no control byte and no shell metacharacter, quoted or not; and
    the canonical rendering of the request, command and single-quoted path,
    parses to the same request. *)
Lemma ParseGitCommand_sound c r :
  ParseGitCommand c = Ok r ->
  gitHyphenCommand (Command r) = Some (Command r, Operation r) /\
  (Operation r = OperationWrite <-> Command r = go "git-receive-pack") /\
  repo_path (RepoPath r) /\ BackendPath r = [] /\
  Forall (fun b => safe_byte b = true) c /\
  ParseGitCommand (quoted_command (Command r) (RepoPath r)) = Ok r.
Proof.
  intros Hr. apply ParseGitCommand_Ok in Hr as (H1 & H2 & H3 & H4).
  destruct r as [cmd op p bp]. cbn [Command Operation RepoPath BackendPath] in *. subst bp.
  split; [done|]. split; [|split; [done|]; split; [done|]; split; [done|]].
  - apply gitHyphenCommand_Some in H1 as [_ [[-> ->]|[[-> ->]|[-> ->]]]]; done.
  - by apply ParseGitCommand_print.
Qed.

(** Every repository a client can name is served under both spellings of
    every service: for a canonical path, the hyphenated and the two-word form
    of a service, with the path in single quotes, parse to the same request. *)
Lemma ParseGitCommand_complete sub c o p :
  gitServiceSubcommand sub = Some (c, o) -> repo_path p ->
  ParseGitCommand (quoted_command c p) = Ok (MkRequest c o p []) /\
  ParseGitCommand (quoted_words [go "git"; sub] p) = Ok (MkRequest c o p []).
Proof.
  intros Hs Hp. pose proof (gitServiceSubcommand_Some _ _ _ Hs) as Hc.
  split; [by apply ParseGitCommand_print|].
  destruct (parse_quoted_words [go "git"; sub] p) as [HR HT]; [|done|].
  { constructor; [reflexivity|]. constructor; [|constructor].
    unfold gitServiceSubcommand in Hs. repeat case_match; bool_simp; subst; done. }
  unfold ParseGitCommand. rewrite HR, HT. simpl. rewrite Hs. simpl.
  by rewrite (proj1 (NormalizeRepoPath_fixed p Hp)).
Qed.
End Properties.


