(* ===== verification/GitConfig.v ===== *)
(** * Configuration of the git server: modules/gitserver/config.go.

    The validation updates the configuration in place, also when it fails half
    way, so it returns the updated configuration and the error separately.
    Slices are lists (nil and empty ones are not told apart by the code).
    Proved: an accepted configuration has distinct canonical repository paths,
    safe local paths and a complete backend, and validating it again (the
    program does so when it builds the server) changes nothing. *)
From Stdlib Require Import Ascii String ZArith Lia.
From stdpp Require Import base gmap strings list.
From S2P Require Import Prelude GoStrings GoPath ShellConf GitPath.
Local Open Scope Z_scope.

Definition BackendLocal : gostring := go "local".
Definition BackendSSH : gostring := go "ssh".

Record RepositoryConfig := MkRepository {
  rc_Path : gostring;
  rc_BackendPath : gostring;
  rc_ReadKeys : list gostring;
  rc_WriteKeys : list gostring
}.

Record SSHBackendConfig := MkSSHBackend {
  sb_Address : gostring;
  sb_User : gostring;
  sb_KeyFile : gostring;
  sb_KnownHosts : gostring;
  sb_TimeoutSeconds : Z
}.

Record Config := MkConfig {
  gc_Enable : bool;
  gc_User : gostring;
  gc_CurrentUser : bool;
  gc_SSHUser : gostring;
  gc_GitShell : gostring;
  gc_GitUserHome : gostring;
  gc_AuthorizedKeys : gostring;
  gc_WatchKeys : bool;
  gc_MaxGitShellProcesses : Z;
  gc_RefuseWhenBusy : bool;
  gc_Backend : gostring;
  gc_RepoRoot : gostring;
  gc_Repositories : list RepositoryConfig;
  gc_SSHBackend : SSHBackendConfig
}.

(** ** Field updates *)
Definition set_Enable v c := MkConfig v (gc_User c) (gc_CurrentUser c) (gc_SSHUser c) (gc_GitShell c) (gc_GitUserHome c) (gc_AuthorizedKeys c) (gc_WatchKeys c) (gc_MaxGitShellProcesses c) (gc_RefuseWhenBusy c) (gc_Backend c) (gc_RepoRoot c) (gc_Repositories c) (gc_SSHBackend c).
Definition set_User v c := MkConfig (gc_Enable c) v (gc_CurrentUser c) (gc_SSHUser c) (gc_GitShell c) (gc_GitUserHome c) (gc_AuthorizedKeys c) (gc_WatchKeys c) (gc_MaxGitShellProcesses c) (gc_RefuseWhenBusy c) (gc_Backend c) (gc_RepoRoot c) (gc_Repositories c) (gc_SSHBackend c).
Definition set_CurrentUser v c := MkConfig (gc_Enable c) (gc_User c) v (gc_SSHUser c) (gc_GitShell c) (gc_GitUserHome c) (gc_AuthorizedKeys c) (gc_WatchKeys c) (gc_MaxGitShellProcesses c) (gc_RefuseWhenBusy c) (gc_Backend c) (gc_RepoRoot c) (gc_Repositories c) (gc_SSHBackend c).
Definition set_SSHUser v c := MkConfig (gc_Enable c) (gc_User c) (gc_CurrentUser c) v (gc_GitShell c) (gc_GitUserHome c) (gc_AuthorizedKeys c) (gc_WatchKeys c) (gc_MaxGitShellProcesses c) (gc_RefuseWhenBusy c) (gc_Backend c) (gc_RepoRoot c) (gc_Repositories c) (gc_SSHBackend c).
Definition set_GitShell v c := MkConfig (gc_Enable c) (gc_User c) (gc_CurrentUser c) (gc_SSHUser c) v (gc_GitUserHome c) (gc_AuthorizedKeys c) (gc_WatchKeys c) (gc_MaxGitShellProcesses c) (gc_RefuseWhenBusy c) (gc_Backend c) (gc_RepoRoot c) (gc_Repositories c) (gc_SSHBackend c).
Definition set_GitUserHome v c := MkConfig (gc_Enable c) (gc_User c) (gc_CurrentUser c) (gc_SSHUser c) (gc_GitShell c) v (gc_AuthorizedKeys c) (gc_WatchKeys c) (gc_MaxGitShellProcesses c) (gc_RefuseWhenBusy c) (gc_Backend c) (gc_RepoRoot c) (gc_Repositories c) (gc_SSHBackend c).
Definition set_AuthorizedKeys v c := MkConfig (gc_Enable c) (gc_User c) (gc_CurrentUser c) (gc_SSHUser c) (gc_GitShell c) (gc_GitUserHome c) v (gc_WatchKeys c) (gc_MaxGitShellProcesses c) (gc_RefuseWhenBusy c) (gc_Backend c) (gc_RepoRoot c) (gc_Repositories c) (gc_SSHBackend c).
Definition set_WatchKeys v c := MkConfig (gc_Enable c) (gc_User c) (gc_CurrentUser c) (gc_SSHUser c) (gc_GitShell c) (gc_GitUserHome c) (gc_AuthorizedKeys c) v (gc_MaxGitShellProcesses c) (gc_RefuseWhenBusy c) (gc_Backend c) (gc_RepoRoot c) (gc_Repositories c) (gc_SSHBackend c).
Definition set_MaxGitShellProcesses v c := MkConfig (gc_Enable c) (gc_User c) (gc_CurrentUser c) (gc_SSHUser c) (gc_GitShell c) (gc_GitUserHome c) (gc_AuthorizedKeys c) (gc_WatchKeys c) v (gc_RefuseWhenBusy c) (gc_Backend c) (gc_RepoRoot c) (gc_Repositories c) (gc_SSHBackend c).
Definition set_RefuseWhenBusy v c := MkConfig (gc_Enable c) (gc_User c) (gc_CurrentUser c) (gc_SSHUser c) (gc_GitShell c) (gc_GitUserHome c) (gc_AuthorizedKeys c) (gc_WatchKeys c) (gc_MaxGitShellProcesses c) v (gc_Backend c) (gc_RepoRoot c) (gc_Repositories c) (gc_SSHBackend c).
Definition set_Backend v c := MkConfig (gc_Enable c) (gc_User c) (gc_CurrentUser c) (gc_SSHUser c) (gc_GitShell c) (gc_GitUserHome c) (gc_AuthorizedKeys c) (gc_WatchKeys c) (gc_MaxGitShellProcesses c) (gc_RefuseWhenBusy c) v (gc_RepoRoot c) (gc_Repositories c) (gc_SSHBackend c).
Definition set_RepoRoot v c := MkConfig (gc_Enable c) (gc_User c) (gc_CurrentUser c) (gc_SSHUser c) (gc_GitShell c) (gc_GitUserHome c) (gc_AuthorizedKeys c) (gc_WatchKeys c) (gc_MaxGitShellProcesses c) (gc_RefuseWhenBusy c) (gc_Backend c) v (gc_Repositories c) (gc_SSHBackend c).
Definition set_Repositories v c := MkConfig (gc_Enable c) (gc_User c) (gc_CurrentUser c) (gc_SSHUser c) (gc_GitShell c) (gc_GitUserHome c) (gc_AuthorizedKeys c) (gc_WatchKeys c) (gc_MaxGitShellProcesses c) (gc_RefuseWhenBusy c) (gc_Backend c) (gc_RepoRoot c) v (gc_SSHBackend c).
Definition set_SSHBackend v c := MkConfig (gc_Enable c) (gc_User c) (gc_CurrentUser c) (gc_SSHUser c) (gc_GitShell c) (gc_GitUserHome c) (gc_AuthorizedKeys c) (gc_WatchKeys c) (gc_MaxGitShellProcesses c) (gc_RefuseWhenBusy c) (gc_Backend c) (gc_RepoRoot c) (gc_Repositories c) v.

(** [if x == "" { x = d }] *)
Definition or_default (x d : gostring) : gostring := if x =s [] then d else x.

(** [FillDefault]; it never fails.  Later defaults read the fields filled
    before them. *)
Definition FillDefault (c : Config) : Config :=
  let user := or_default (gc_User c) (go "git") in
  let sshUser := or_default (gc_SSHUser c) user in
  let gitShell := or_default (gc_GitShell c) (go "git-shell") in
  let home := or_default (gc_GitUserHome c) (go "/home/git") in
  let repoRoot := or_default (gc_RepoRoot c) home in
  let authorizedKeys := or_default (gc_AuthorizedKeys c) (home ++ go "/.ssh/authorized_keys") in
  let backend := or_default (gc_Backend c) BackendLocal in
  let processes := if gc_MaxGitShellProcesses c <? 0 then 0 else gc_MaxGitShellProcesses c in
  MkConfig (gc_Enable c) user (gc_CurrentUser c) sshUser gitShell home authorizedKeys
    (gc_WatchKeys c) processes (gc_RefuseWhenBusy c) backend repoRoot (gc_Repositories c)
    (gc_SSHBackend c).

(** [trimACL] *)
Definition trimACL (keys : list gostring) : list gostring :=
  List.filter (fun k => negb (k =s [])) (map TrimSpace keys).

(** [rejectUnsafeLocalPath]; [None]: the path is fine. *)
Definition rejectUnsafeLocalPath (field s : gostring) : option error :=
  if existsb (fun ch => unicode_IsControl ch || (ch =? bv chSQ)) (runes s)
  then Some (errors_New (go "gitserver: " ++ field ++ go " contains forbidden character"))
  else None.

(** The fields the ssh backend requires. *)
Definition ssh_missing (b : SSHBackendConfig) : list gostring :=
  (if sb_Address b =s [] then [go "address"] else []) ++
  (if sb_User b =s [] then [go "user"] else []) ++
  (if sb_KeyFile b =s [] then [go "key_file"] else []) ++
  (if sb_KnownHosts b =s [] then [go "known_hosts"] else []).

Definition set_timeout (n : Z) (b : SSHBackendConfig) : SSHBackendConfig :=
  MkSSHBackend (sb_Address b) (sb_User b) (sb_KeyFile b) (sb_KnownHosts b) n.

(** The ssh part of the validation. *)
Definition check_ssh_backend (c : Config) : Config * option error :=
  if gc_Backend c =s BackendSSH then
    match ssh_missing (gc_SSHBackend c) with
    | [] =>
        if sb_TimeoutSeconds (gc_SSHBackend c) <=? 0
        then (set_SSHBackend (set_timeout 30 (gc_SSHBackend c)) c, None)
        else (c, None)
    | missing =>
        (c, Some (errors_New (go "gitserver: ssh backend requires " ++ Join missing (go ", "))))
    end
  else (c, None).

(** The local part. *)
Definition check_local_backend (c : Config) : option error :=
  if gc_Backend c =s BackendLocal then
    match rejectUnsafeLocalPath (go "repo_root") (gc_RepoRoot c) with
    | Some e => Some e
    | None => rejectUnsafeLocalPath (go "git_user_home") (gc_GitUserHome c)
    end
  else None.

Section Check.
Context `{UnicodeTables}.

(** One iteration of the loop over the repositories: the entry as it is left,
    the set of paths seen, and the error that stops the loop. *)
Definition check_repository (i : Z) (seen : gset gostring) (r : RepositoryConfig) :
    RepositoryConfig * gset gostring * option error :=
  match NormalizeRepoPath (rc_Path r) with
  | Err e => (r, seen, Some (errors_wrap (go "gitserver: repository " ++ Itoa i ++ go ": ") e))
  | Ok normalized =>
      let r := MkRepository normalized (rc_BackendPath r) (rc_ReadKeys r) (rc_WriteKeys r) in
      let bp := if rc_BackendPath r =s [] then Ok (rc_Path r)
                else NormalizeRepoPath (rc_BackendPath r) in
      match bp with
      | Err e =>
          (r, seen, Some (errors_wrap (go "gitserver: repository " ++ Itoa i ++ go " backend_path: ") e))
      | Ok bp =>
          let r := MkRepository (rc_Path r) bp (rc_ReadKeys r) (rc_WriteKeys r) in
          if decide (rc_Path r ∈ seen)
          then (r, seen, Some (errors_New (go "gitserver: duplicate repository " ++ Quote (rc_Path r))))
          else
            (MkRepository (rc_Path r) (rc_BackendPath r)
               (trimACL (rc_ReadKeys r)) (trimACL (rc_WriteKeys r)),
             {[rc_Path r]} ∪ seen, None)
      end
  end.

Fixpoint check_repositories (i : Z) (seen : gset gostring) (rs : list RepositoryConfig) :
    list RepositoryConfig * option error :=
  match rs with
  | [] => ([], None)
  | r :: rest =>
      match check_repository i seen r with
      | (r', _, Some e) => (r' :: rest, Some e)
      | (r', seen', None) =>
          let '(rest', err) := check_repositories (i + 1) seen' rest in (r' :: rest', err)
      end
  end.

(** [CheckAndFillConfig] on a non-nil pointer. *)
Definition check_and_fill (c : Config) : Config * option error :=
  let c := FillDefault c in
  if negb ((gc_Backend c =s BackendLocal) || (gc_Backend c =s BackendSSH))
  then (c, Some (errors_New (go "gitserver: unknown backend " ++ Quote (gc_Backend c))))
  else
    match check_ssh_backend c with
    | (c, Some e) => (c, Some e)
    | (c, None) =>
        match check_local_backend c with
        | Some e => (c, Some e)
        | None =>
            let '(rs, err) := check_repositories 0 ∅ (gc_Repositories c) in
            (set_Repositories rs c, err)
        end
    end.

Definition CheckAndFillConfig (c : option Config) : option Config * option error :=
  match c with
  | None => (None, None)
  | Some c => let '(c, err) := check_and_fill c in (Some c, err)
  end.

(** The copy of the helper of the fakeshell configuration. *)
Definition boolFromStr (s : gostring) : bool :=
  let l := ToLower s in
  if (l =s go "true") || (l =s go "1") then true
  else if (l =s go "false") || (l =s go "0") || (l =s []) then false
  else match Atoi s with
       | Some i => negb (i =? 0)
       | None => false
       end.

(** [Config.MergeOptions]: the new configuration and whether the option was
    handled. *)
Definition MergeOptions (c : Config) (opt : Opt) : Config * bool :=
  let v := optValue opt in
  let sb := gc_SSHBackend c in
  if negb (ToLower (optModule opt) =s go "gitserver") then (c, false)
  else
    let k := ToLower (optKey opt) in
    if k =s go "enable" then (set_Enable (boolFromStr v) c, true)
    else if k =s go "backend" then (set_Backend v c, true)
    else if k =s go "user" then (set_User v c, true)
    else if k =s go "current_user" then (set_CurrentUser (boolFromStr v) c, true)
    else if k =s go "ssh_user" then (set_SSHUser v c, true)
    else if k =s go "git_shell" then (set_GitShell v c, true)
    else if k =s go "git_user_home" then (set_GitUserHome v c, true)
    else if k =s go "repo_root" then (set_RepoRoot v c, true)
    else if k =s go "authorized_keys" then (set_AuthorizedKeys v c, true)
    else if k =s go "watch_keys" then (set_WatchKeys (boolFromStr v) c, true)
    else if k =s go "max_git_shell_processes" then
      match Atoi v with
      | None => (c, false)
      | Some n => (set_MaxGitShellProcesses n c, true)
      end
    else if k =s go "refuse_when_busy" then (set_RefuseWhenBusy (boolFromStr v) c, true)
    else if k =s go "ssh_backend.address" then
      (set_SSHBackend (MkSSHBackend v (sb_User sb) (sb_KeyFile sb) (sb_KnownHosts sb) (sb_TimeoutSeconds sb)) c, true)
    else if k =s go "ssh_backend.user" then
      (set_SSHBackend (MkSSHBackend (sb_Address sb) v (sb_KeyFile sb) (sb_KnownHosts sb) (sb_TimeoutSeconds sb)) c, true)
    else if k =s go "ssh_backend.key_file" then
      (set_SSHBackend (MkSSHBackend (sb_Address sb) (sb_User sb) v (sb_KnownHosts sb) (sb_TimeoutSeconds sb)) c, true)
    else if k =s go "ssh_backend.known_hosts" then
      (set_SSHBackend (MkSSHBackend (sb_Address sb) (sb_User sb) (sb_KeyFile sb) v (sb_TimeoutSeconds sb)) c, true)
    else if k =s go "ssh_backend.timeout_seconds" then
      match Atoi v with
      | None => (c, false)
      | Some n => (set_SSHBackend (set_timeout n sb) c, true)
      end
    else (c, false).
End Check.

(** ** Valid configurations *)
Definition acl_ok (keys : list gostring) : Prop :=
  Forall (fun k => k <> [] /\ TrimSpace k = k) keys.

Definition repository_ok (r : RepositoryConfig) : Prop :=
  repo_path (rc_Path r) /\ repo_path (rc_BackendPath r) /\
  acl_ok (rc_ReadKeys r) /\ acl_ok (rc_WriteKeys r).

Definition backend_ok (c : Config) : Prop :=
  (gc_Backend c = BackendLocal /\
   rejectUnsafeLocalPath (go "repo_root") (gc_RepoRoot c) = None /\
   rejectUnsafeLocalPath (go "git_user_home") (gc_GitUserHome c) = None) \/
  (gc_Backend c = BackendSSH /\ ssh_missing (gc_SSHBackend c) = [] /\
   0 < sb_TimeoutSeconds (gc_SSHBackend c)).

Definition defaults_ok (c : Config) : Prop :=
  gc_User c <> [] /\ gc_SSHUser c <> [] /\ gc_GitShell c <> [] /\ gc_GitUserHome c <> [] /\
  gc_RepoRoot c <> [] /\ gc_AuthorizedKeys c <> [] /\ 0 <= gc_MaxGitShellProcesses c.

Definition config_ok (c : Config) : Prop :=
  defaults_ok c /\ backend_ok c /\
  Forall repository_ok (gc_Repositories c) /\ NoDup (map rc_Path (gc_Repositories c)).

(** What validation does to one repository. *)
Definition repository_filled (r r' : RepositoryConfig) : Prop :=
  NormalizeRepoPath (rc_Path r) = Ok (rc_Path r') /\
  (if rc_BackendPath r =s [] then rc_BackendPath r' = rc_Path r'
   else NormalizeRepoPath (rc_BackendPath r) = Ok (rc_BackendPath r')) /\
  rc_ReadKeys r' = trimACL (rc_ReadKeys r) /\ rc_WriteKeys r' = trimACL (rc_WriteKeys r).

Lemma or_default_ne x d : d <> [] -> or_default x d <> [].
Proof. unfold or_default. destruct (x =s []) eqn:E; bool_simp; done. Qed.

Lemma or_default_id x d : x <> [] -> or_default x d = x.
Proof. intros H. unfold or_default. by rewrite (proj2 (gos_eqb_neq _ _)). Qed.

Lemma FillDefault_ok c : defaults_ok (FillDefault c).
Proof.
  unfold defaults_ok, FillDefault. cbn.
  assert (or_default (gc_GitUserHome c) (go "/home/git") <> []) by by apply or_default_ne.
  assert (or_default (gc_User c) (go "git") <> []) by by apply or_default_ne.
  repeat split; auto using or_default_ne.
  - apply or_default_ne. by destruct (or_default (gc_GitUserHome c) _).
  - destruct (gc_MaxGitShellProcesses c <? 0) eqn:E; bool_simp; lia.
Qed.

Lemma FillDefault_id c : defaults_ok c -> gc_Backend c <> [] -> FillDefault c = c.
Proof.
  destruct c. unfold defaults_ok, FillDefault. cbn. intros (? & ? & ? & ? & ? & ? & ?) ?.
  rewrite !or_default_id by done. by rewrite (proj2 (Z.ltb_ge _ _)).
Qed.

Lemma FillDefault_Repositories c : gc_Repositories (FillDefault c) = gc_Repositories c.
Proof. done. Qed.

Lemma trimACL_ok keys : acl_ok (trimACL keys).
Proof.
  unfold acl_ok, trimACL. apply Forall_forall. intros k Hk.
  apply list_elem_of_In, filter_In in Hk as [(k0 & <- & _)%in_map_iff Hk].
  bool_simp. split; [done|apply TrimSpace_idemp].
Qed.

Lemma trimACL_id keys : acl_ok keys -> trimACL keys = keys.
Proof.
  intros HF. unfold trimACL. induction HF as [|k keys [Hne Ht] _ IH]; [done|].
  cbn [map List.filter]. rewrite Ht, (proj2 (gos_eqb_neq _ _)) by done. cbn [negb]. by rewrite IH.
Qed.

Lemma repo_path_ne p : repo_path p -> p <> [].
Proof. intros (segs & Hne & HF & ->). apply Join_good_ne; eauto with go. Qed.

Section Valid.
Context `{UnicodeTables}.

Lemma check_repository_Ok i seen r r' seen' :
  check_repository i seen r = (r', seen', None) ->
  repository_filled r r' /\ repository_ok r' /\ (rc_Path r' ∉ seen) /\ seen' = {[rc_Path r']} ∪ seen.
Proof.
  unfold check_repository, repository_filled, repository_ok.
  destruct (NormalizeRepoPath (rc_Path r)) as [p|] eqn:EP; [|done]. cbn [rc_BackendPath rc_Path].
  assert (repo_path p) by eauto with go.
  destruct (rc_BackendPath r =s []) eqn:EB;
    [|destruct (NormalizeRepoPath (rc_BackendPath r)) as [bp|] eqn:EN; [|done]];
    (case_decide; [done|]); intros [= <- <-]; cbn;
    repeat split; eauto using trimACL_ok with go.
Qed.

Lemma check_repository_id i seen r :
  repository_ok r -> rc_Path r ∉ seen ->
  check_repository i seen r = (r, {[rc_Path r]} ∪ seen, None).
Proof.
  destruct r as [p bp rk wk]. intros (Hp & Hbp & Hr & Hw) Hn. unfold check_repository.
  cbn [rc_Path rc_BackendPath rc_ReadKeys rc_WriteKeys] in *.
  rewrite (proj1 (NormalizeRepoPath_fixed p Hp)). cbn.
  rewrite (proj2 (gos_eqb_neq _ _)) by by apply repo_path_ne.
  rewrite (proj1 (NormalizeRepoPath_fixed bp Hbp)). cbn.
  rewrite decide_False by done. by rewrite !trimACL_id.
Qed.

Lemma check_repositories_Ok i seen rs rs' :
  check_repositories i seen rs = (rs', None) ->
  Forall2 repository_filled rs rs' /\ Forall repository_ok rs' /\
  NoDup (map rc_Path rs') /\ Forall (fun r => rc_Path r ∉ seen) rs'.
Proof.
  revert i seen rs'. induction rs as [|r rs IH]; intros i seen rs'; simpl.
  - intros [= <-]. repeat constructor.
  - destruct (check_repository i seen r) as [[r1 seen1] [e|]] eqn:ER; [done|].
    apply check_repository_Ok in ER as (H1 & H2 & H3 & ->).
    destruct (check_repositories _ _ rs) as [rs1 err] eqn:E. intros [= <- ->].
    apply IH in E as (H4 & H5 & H6 & H7).
    assert (Forall (fun r => (rc_Path r ∉ seen) /\ rc_Path r <> rc_Path r1) rs1) as H8.
    { eapply Forall_impl; [exact H7|]. set_solver. }
    split; [by constructor|]. split; [by constructor|]. split.
    + constructor; [|done]. intros (x & Hx & Hin)%list_elem_of_fmap.
      rewrite Forall_forall in H8. by apply H8 in Hin as [_ ?].
    + constructor; [done|]. eapply Forall_impl; [exact H8|]. naive_solver.
Qed.

Lemma check_repositories_id i seen rs :
  Forall repository_ok rs -> NoDup (map rc_Path rs) -> Forall (fun r => rc_Path r ∉ seen) rs ->
  check_repositories i seen rs = (rs, None).
Proof.
  intros HF. revert i seen. induction HF as [|r rs Hr HF IH]; intros i seen HN Hs; [done|].
  cbn [map] in HN. apply NoDup_cons in HN as [Hni HN]. apply Forall_cons in Hs as [Hs1 Hs]. simpl.
  rewrite check_repository_id, IH; try done. apply Forall_forall. intros x Hx.
  rewrite Forall_forall in Hs. specialize (Hs x Hx).
  rewrite not_elem_of_union, not_elem_of_singleton. split; [|done].
  intros E. apply Hni. rewrite <- E. by apply list_elem_of_fmap_2.
Qed.

Lemma check_ssh_backend_Ok c c' :
  check_ssh_backend c = (c', None) ->
  gc_Repositories c' = gc_Repositories c /\ (defaults_ok c -> defaults_ok c') /\
  gc_Backend c' = gc_Backend c /\
  (gc_Backend c = BackendSSH ->
   ssh_missing (gc_SSHBackend c') = [] /\ 0 < sb_TimeoutSeconds (gc_SSHBackend c')).
Proof.
  unfold check_ssh_backend. destruct (gc_Backend c =s BackendSSH) eqn:EB.
  - destruct (ssh_missing (gc_SSHBackend c)) eqn:EM; [|done].
    destruct (sb_TimeoutSeconds (gc_SSHBackend c) <=? 0) eqn:ET; intros [= <-]; bool_simp;
      (split; [done|]); (split; [by intros ?|]); split; done.
  - intros [= <-]. bool_simp. done.
Qed.

Lemma check_and_fill_Ok c c' :
  check_and_fill c = (c', None) ->
  config_ok c' /\ Forall2 repository_filled (gc_Repositories c) (gc_Repositories c').
Proof.
  unfold check_and_fill, config_ok. cbv zeta.
  pose proof (FillDefault_ok c) as HD. pose proof (FillDefault_Repositories c) as HR.
  set (c0 := FillDefault c) in *. clearbody c0.
  destruct (negb _) eqn:EB; [done|].
  destruct (check_ssh_backend c0) as [c1 [e|]] eqn:ES; [done|].
  apply check_ssh_backend_Ok in ES as (HR1 & HD1 & HB1 & HS1).
  destruct (check_local_backend c1) eqn:EL; [done|].
  destruct (check_repositories 0 ∅ (gc_Repositories c1)) as [rs err] eqn:ER. intros [= <- ->].
  apply check_repositories_Ok in ER as (H1 & H2 & H3 & _).
  rewrite HR1, HR in H1. split; [|done].
  split; [by apply HD1|]. split; [|by split]. unfold backend_ok. cbn. bool_simp. apply orb_true_iff in EB as [EB|EB]; bool_simp.
  - left. unfold check_local_backend in EL. rewrite HB1, EB in EL. cbn in EL.
    rewrite HB1. destruct (rejectUnsafeLocalPath _ (gc_RepoRoot c1)); done.
  - right. rewrite HB1. naive_solver.
Qed.

Lemma config_ok_fixed c : config_ok c -> check_and_fill c = (c, None).
Proof.
  intros (HD & HB & HF & HN). unfold check_and_fill.
  rewrite FillDefault_id by (done || by destruct HB as [[-> _]|[-> _]]). cbv zeta.
  assert (check_repositories 0 ∅ (gc_Repositories c) = (gc_Repositories c, None)) as HC.
  { apply check_repositories_id; [done..|]. apply Forall_forall. set_solver. }
  destruct HB as [(HB & H1 & H2)|(HB & H1 & H2)].
  - unfold check_ssh_backend, check_local_backend. rewrite HB.
    change (BackendLocal =s BackendSSH) with false. change (BackendLocal =s BackendLocal) with true.
    cbn [negb orb]. rewrite HB, H1, H2, HC. by destruct c.
  - unfold check_ssh_backend, check_local_backend.
    rewrite HB, H1, (proj2 (Z.leb_gt _ _)) by done.
    change (BackendSSH =s BackendLocal) with false. change (BackendSSH =s BackendSSH) with true.
    cbn [negb orb]. rewrite HB, HC. by destruct c.
Qed.

(** Validation is sound and stable: an accepted configuration has all its
    defaults, a complete backend (safe local paths, or every ssh field and a
    positive timeout), pairwise distinct canonical repository paths, canonical
    backend paths and trimmed, non-empty fingerprints, each taken from the
    entry as written; and validating the result again accepts it unchanged. *)
Lemma CheckAndFillConfig_correct c c' :
  CheckAndFillConfig (Some c) = (Some c', None) ->
  config_ok c' /\
  Forall2 repository_filled (gc_Repositories c) (gc_Repositories c') /\
  CheckAndFillConfig (Some c') = (Some c', None).
Proof.
  unfold CheckAndFillConfig. destruct (check_and_fill c) as [c1 err] eqn:E. intros [= -> ->].
  apply check_and_fill_Ok in E as [H1 H2]. split; [done|]. split; [done|].
  by rewrite config_ok_fixed.
Qed.
End Valid.

(** A sample configuration, before and after validation. *)
Definition sample_config : Config :=
  MkConfig true [] false [] [] [] [] true (-1) true [] (go "/srv/git")
    [MkRepository (go "/team/./project.git") [] [go " SHA256:r "; []] [go "SHA256:w"];
     MkRepository (go "a.git") (go "mirror/a.git") [] []]
    (MkSSHBackend [] [] [] [] 0).

