(* ===== verification/GitServer.v ===== *)
(** * The git server: modules/gitserver/auth.go, the authorisation half of
    request.go, and the command construction of backend_local_unix.go,
    backend_ssh.go and shell_unix.go.

    The SSH key operations of the vendored library are the class [SSHKeys]; the
    file system and user database of the host are the class [HostFS].  The
    content of the authorized_keys file at the moment it is read is an argument
    of the operations that read it.  The mutexes are not modelled: every method
    holds them over the map access it makes.

    Proved: which keys authenticate, exactly; which requests are authorised,
    exactly; that a resolved local repository lies under the root whatever the
    symbolic links are; that the commands given to the backends carry nothing
    but a service name and one quoted path. *)
From Stdlib Require Import Ascii String ZArith Lia.
From stdpp Require Import base gmap strings list.
From S2P Require Import Prelude GoStrings GoPath GitPath GitRequest GitConfig.
Local Open Scope Z_scope.

(** ** SSH keys *)

(** [ParseAuthorizedKey] returns the key (or nil), the comment, the options
    and the rest of its input; [keyHash] is SHA-256 in unpadded base64. *)
Class SSHKeys := {
  PublicKey : Type;
  Marshal : PublicKey -> gostring;
  isCertificate : PublicKey -> bool;
  keyHash : gostring -> gostring;
  ParseAuthorizedKey : gostring -> res (option PublicKey * gostring * list gostring * gostring)
}.

Definition FingerprintSHA256 `{SSHKeys} (key : PublicKey) : gostring :=
  go "SHA256:" ++ keyHash (Marshal key).

(** [ssh.Permissions]; the git server reads and writes only its extensions. *)
Record Permissions := MkPermissions { Extensions : option (gmap gostring gostring) }.

Definition permExtGitServer : gostring := go "fakessh.gitserver".
Definition permExtKeyFingerprint : gostring := go "fakessh.gitserver.key_fingerprint".
Definition permExtKeyComment : gostring := go "fakessh.gitserver.key_comment".

(** ** Server state *)
Record authorizedKeyEntry := MkEntry { keyBytes : gostring; comment : gostring }.

(** A buffered channel of empty structs: its capacity and its fill. *)
Record slotChan := MkSlots { slotCap : Z; slotLen : Z }.

Record Server := MkServer {
  config : Config;
  keysByFP : gmap gostring authorizedKeyEntry;
  repos : gmap gostring RepositoryConfig;
  localSlots : option slotChan;
  preExecTimeout : Z
}.

(** Ten seconds, in nanoseconds. *)
Definition defaultPreExecTimeout : Z := 10 * 1000000000.

Definition errAuth : error := errors_New (go "gitserver: auth failed").

Definition set_keysByFP (m : gmap gostring authorizedKeyEntry) (s : Server) : Server :=
  MkServer (config s) m (repos s) (localSlots s) (preExecTimeout s).

(** [bytes.TrimRight(raw, "\r")] *)
Fixpoint TrimRightCR (s : gostring) : gostring :=
  match s with
  | [] => []
  | c :: t => match TrimRightCR t with
              | [] => if c =c chCR then [] else [c]
              | t' => c :: t'
              end
  end.

Section Auth.
Context `{UnicodeTables} `{SSHKeys}.

Definition line_error (ln : Z) (msg : gostring) : error :=
  errors_New (go "line " ++ Itoa (ln + 1) ++ go ": " ++ msg).

(** One line of the file, on the map built so far. *)
Definition parse_line (ln : Z) (raw : gostring) (out : gmap gostring authorizedKeyEntry) :
    res (gmap gostring authorizedKeyEntry) :=
  let raw := TrimRightCR raw in
  match TrimSpace raw with
  | [] => Ok out
  | c :: _ =>
      if c =c "#" then Ok out
      else
        match ParseAuthorizedKey raw with
        | Err e => Err (errors_wrap (go "line " ++ Itoa (ln + 1) ++ go ": ") e)
        | Ok (None, _, _, _) => Err (line_error ln (go "no key parsed"))
        | Ok (Some pubKey, comment, options, rest) =>
            match options with
            | o :: _ =>
                Err (line_error ln
                  (go "authorized_keys options are not supported (line starts with " ++ Quote o ++ go ")"))
            | [] =>
                if negb (TrimSpace rest =s [])
                then Err (line_error ln (go "unexpected trailing content after key"))
                else
                  let fp := FingerprintSHA256 pubKey in
                  let kb := Marshal pubKey in
                  match out !! fp with
                  | Some existing =>
                      if keyBytes existing =s kb then Ok out
                      else Err (line_error ln
                             (go "duplicate fingerprint " ++ Quote fp ++ go " with different key bytes"))
                  | None => Ok (<[fp := MkEntry kb (TrimSpace comment)]> out)
                  end
            end
        end
  end.

Fixpoint parse_lines (ln : Z) (lines : list gostring) (out : gmap gostring authorizedKeyEntry) :
    res (gmap gostring authorizedKeyEntry) :=
  match lines with
  | [] => Ok out
  | raw :: rest => out ← parse_line ln raw out; parse_lines (ln + 1) rest out
  end.

Definition parseAuthorizedKeys (data : gostring) : res (gmap gostring authorizedKeyEntry) :=
  parse_lines 0 (Split data chNL) ∅.

(** [loadAuthorizedKeys] (and [reloadAuthorizedKeys]); [file] is what reading a
    path returns now. *)
Definition loadAuthorizedKeys (s : Server) (file : gostring -> res gostring) :
    Server * option error :=
  let path := gc_AuthorizedKeys (config s) in
  if path =s [] then (s, Some (errors_New (go "gitserver: authorized_keys path is empty")))
  else
    match file path with
    | Err e => (s, Some (errors_wrap (go "gitserver: read authorized_keys " ++ Quote path ++ go ": ") e))
    | Ok data =>
        match parseAuthorizedKeys data with
        | Err e => (s, Some (errors_wrap (go "gitserver: parse authorized_keys " ++ Quote path ++ go ": ") e))
        | Ok entries => (set_keysByFP entries s, None)
        end
    end.

(** The map of repositories [NewServer] builds. *)
Definition build_repos (rs : list RepositoryConfig) : gmap gostring RepositoryConfig :=
  fold_left (fun m r => <[rc_Path r := r]> m) rs ∅.

(** [NewServer]: the configuration as it is left, and the server. *)
Definition NewServer (c : option Config) (file : gostring -> res gostring) :
    option Config * res Server :=
  match c with
  | None => (None, Err (errors_New (go "gitserver: NewServer called with nil config")))
  | Some c =>
      let '(c, err) := check_and_fill c in
      (Some c,
       match err with
       | Some e => Err e
       | None =>
           let slots := if 0 <? gc_MaxGitShellProcesses c
                        then Some (MkSlots (gc_MaxGitShellProcesses c) 0) else None in
           let s := MkServer c ∅ (build_repos (gc_Repositories c)) slots defaultPreExecTimeout in
           if gc_WatchKeys c then Ok s
           else match loadAuthorizedKeys s file with
                | (_, Some e) => Err e
                | (s, None) => Ok s
                end
       end)
  end.

(** [PublicKeyCallback]: the server (reloaded keys stay) and the outcome. *)
Definition PublicKeyCallback (s : Server) (file : gostring -> res gostring)
    (user : gostring) (key : PublicKey) : Server * res Permissions :=
  if negb (user =s gc_SSHUser (config s)) then (s, Err errAuth)
  else if isCertificate key then (s, Err errAuth)
  else
    let fp := FingerprintSHA256 key in
    let kb := Marshal key in
    let '(s, reloadErr) := if gc_WatchKeys (config s) then loadAuthorizedKeys s file else (s, None) in
    match reloadErr with
    | Some e => (s, Err (errors_wrap (go "gitserver: reload authorized_keys: ") e))
    | None =>
        match keysByFP s !! fp with
        | None => (s, Err errAuth)
        | Some entry =>
            if negb (keyBytes entry =s kb) then (s, Err errAuth)
            else (s, Ok (MkPermissions (Some
                   (<[permExtGitServer := go "1"]> (<[permExtKeyFingerprint := fp]>
                    (<[permExtKeyComment := comment entry]> ∅))))))
        end
    end.
End Auth.

(** A nil pointer or a nil map is [None]. *)
Definition IsGitPermission (perms : option Permissions) : bool :=
  match perms with
  | Some (MkPermissions (Some ext)) =>
      match ext !! permExtGitServer with
      | Some v => negb (v =s [])
      | None => false
      end
  | _ => false
  end.

Definition GitKeyFingerprint (perms : option Permissions) : gostring :=
  match perms with
  | Some (MkPermissions (Some ext)) => default [] (ext !! permExtKeyFingerprint)
  | _ => []
  end.

Definition containsFingerprint (fps : list gostring) (fp : gostring) : bool :=
  existsb (fun k => k =s fp) fps.

(** ** Authorisation *)
Section Authorize.
Context `{UnicodeTables}.

Definition Authorize (s : Server) (perms : option Permissions) (req : Request) : res Request :=
  if negb (IsGitPermission perms) then Err (errors_New (go "gitserver: not a git permission"))
  else
    let fp := GitKeyFingerprint perms in
    if fp =s [] then Err (errors_New (go "gitserver: missing key fingerprint"))
    else
      match NormalizeRepoPath (RepoPath req) with
      | Err e => Err (errors_wrap (go "gitserver: invalid repository path: ") e)
      | Ok repoNorm =>
          match repos s !! repoNorm with
          | None => Err (errors_New (go "gitserver: repository " ++ Quote repoNorm ++ go " not configured"))
          | Some rc =>
              let op := Operation req in
              let answer (allowed : bool) :=
                if negb allowed
                then Err (errors_New (go "gitserver: fingerprint " ++ Quote fp ++ go " not authorized for "
                                      ++ op ++ go " on " ++ Quote repoNorm))
                else Ok (MkRequest (Command req) op repoNorm (rc_BackendPath rc)) in
              if op =s OperationRead then
                answer (containsFingerprint (rc_ReadKeys rc) fp || containsFingerprint (rc_WriteKeys rc) fp)
              else if op =s OperationWrite then answer (containsFingerprint (rc_WriteKeys rc) fp)
              else Err (errors_New (go "gitserver: unknown operation " ++ Quote op))
          end
      end.
End Authorize.

(** ** The host *)

(** The file system and user database at the time of a call: absolute paths,
    symbolic links, and the numeric identities of a user name. *)
Class HostFS := {
  Abs : gostring -> res gostring;
  EvalSymlinks : gostring -> res gostring;
  CurrentUser : res (gostring * gostring);
  LookupUser : gostring -> res (gostring * gostring)
}.

(** [filepath.Join] of two non-empty elements. *)
Definition JoinPath (a b : gostring) : gostring := Clean (a ++ [slash] ++ b).

Fixpoint strip_common (b t : list gostring) : list gostring * list gostring :=
  match b, t with
  | x :: b', y :: t' => if x =s y then strip_common b' t' else (b, t)
  | _, _ => (b, t)
  end.

(** [filepath.Rel] on the absolute paths this code compares. *)
Definition Rel (basepath targpath : gostring) : res gostring :=
  let base := Clean basepath in
  let targ := Clean targpath in
  if targ =s base then Ok dot
  else if negb (Bool.eqb (HasPrefix base [slash]) (HasPrefix targ [slash]))
  then Err (errors_New (go "Rel: can't make " ++ targpath ++ go " relative to " ++ basepath))
  else
    let '(b, t) := strip_common (real_segs (Split base slash)) (real_segs (Split targ slash)) in
    if match b with x :: _ => x =s dotdot | [] => false end
    then Err (errors_New (go "Rel: can't make " ++ targpath ++ go " relative to " ++ basepath))
    else Ok (Join (map (fun _ => dotdot) b ++ t) [slash]).

Section Backends.
Context `{UnicodeTables} `{HostFS}.

Definition ResolveLocalRepo (s : Server) (repoPath : gostring) : res gostring :=
  match NormalizeRepoPath repoPath with
  | Err e => Err (errors_wrap (go "gitserver: invalid repository path: ") e)
  | Ok repoNorm =>
      let root := gc_RepoRoot (config s) in
      if root =s [] then Err (errors_New (go "gitserver: repo_root is empty"))
      else
        match Abs root with
        | Err e => Err (errors_wrap (go "gitserver: make repo_root " ++ Quote root ++ go " absolute: ") e)
        | Ok rootPath =>
            match EvalSymlinks rootPath with
            | Err e => Err (errors_wrap (go "gitserver: resolve repo_root " ++ Quote root ++ go ": ") e)
            | Ok rootAbs =>
                match EvalSymlinks (JoinPath rootAbs repoNorm) with
                | Err e =>
                    Err (errors_wrap (go "gitserver: resolve repository " ++ Quote repoNorm ++ go ": ") e)
                | Ok candAbs =>
                    match Rel rootAbs candAbs with
                    | Err e => Err (errors_wrap
                        (go "gitserver: repository " ++ Quote repoNorm ++ go " escapes repo_root: ") e)
                    | Ok rel =>
                        if isEscapeRel rel
                        then Err (errors_New (go "gitserver: repository " ++ Quote repoNorm
                               ++ go " escapes repo_root (resolved to " ++ Quote candAbs ++ go ")"))
                        else Ok candAbs
                    end
                end
            end
        end
  end.

(** [strconv.ParseUint(s, 10, 32)] *)
Definition ParseUint32 (s : gostring) : res Z :=
  if (s =s []) || negb (forallb is_digit s)
  then Err (errors_New (go "strconv.ParseUint: parsing " ++ Quote s ++ go ": invalid syntax"))
  else if 2 ^ 32 <=? digits_value s
  then Err (errors_New (go "strconv.ParseUint: parsing " ++ Quote s ++ go ": value out of range"))
  else Ok (digits_value s).

Definition GetUid (username : gostring) (current : bool) : res (Z * Z) :=
  ids ← (if current then CurrentUser else LookupUser username);
  uid ← ParseUint32 (fst ids);
  gid ← ParseUint32 (snd ids);
  Ok (uid, gid).

(** [exec.Cmd] as far as the code sets it: the program and its arguments, the
    identity it runs under (its own process group in any case), directory and
    environment. *)
Record Cmd := MkCmd {
  cmd_Name : gostring;
  cmd_Args : list gostring;
  cmd_Credential : option (Z * Z);
  cmd_Dir : gostring;
  cmd_Env : list gostring
}.

Definition gitProtocolEnvName : gostring := go "GIT_PROTOCOL".
Definition gitProtocolEnvValue : gostring := go "version=2".
Definition localMinimalPath : gostring := go "/usr/bin:/bin".

Definition localEnv (s : Server) (gitProtocol : gostring) : list gostring :=
  [go "HOME=" ++ gc_GitUserHome (config s);
   go "USER=" ++ gc_User (config s);
   go "LOGNAME=" ++ gc_User (config s);
   go "PATH=" ++ localMinimalPath] ++
  (if gitProtocol =s gitProtocolEnvValue
   then [gitProtocolEnvName ++ go "=" ++ gitProtocol] else []).

(** [backendPath := req.BackendPath; if backendPath == "" { backendPath = req.RepoPath }] *)
Definition backendPathOf (req : Request) : gostring :=
  if BackendPath req =s [] then RepoPath req else BackendPath req.

Definition buildLocalCommand (s : Server) (req : Request) (gitProtocol : gostring) : res Cmd :=
  match ResolveLocalRepo s (backendPathOf req) with
  | Err e => Err (errors_wrap (go "gitserver: resolve local repo: ") e)
  | Ok absoluteRepo =>
      match Abs (gc_RepoRoot (config s)) with
      | Err e => Err (errors_wrap (go "gitserver: make repo root absolute: ") e)
      | Ok repoRootPath =>
          match EvalSymlinks repoRootPath with
          | Err e => Err (errors_wrap (go "gitserver: resolve repo root: ") e)
          | Ok repoRoot =>
              match rejectUnsafeLocalPath (go "resolved repo_root") repoRoot with
              | Some e => Err e
              | None =>
                  match rejectUnsafeLocalPath (go "resolved repository path") absoluteRepo with
                  | Some e => Err e
                  | None =>
                      match GetUid (gc_User (config s)) (gc_CurrentUser (config s)) with
                      | Err e => Err (errors_wrap (go "gitserver: resolve git user: ") e)
                      | Ok ids =>
                          let command := Command req ++ go " '" ++ absoluteRepo ++ go "'" in
                          Ok (MkCmd (gc_GitShell (config s)) [go "-c"; command]
                                (if gc_CurrentUser (config s) then None else Some ids)
                                repoRoot (localEnv s gitProtocol))
                      end
                  end
              end
          end
      end
  end.

Definition buildBackendCommand (req : Request) : res gostring :=
  match gitHyphenCommand (Command req) with
  | None => Err (errors_New (go "gitserver: invalid backend command " ++ Quote (Command req)))
  | Some _ =>
      match NormalizeRepoPath (backendPathOf req) with
      | Err e => Err (errors_wrap (go "gitserver: normalize backend path: ") e)
      | Ok normalized => Ok (Command req ++ go " '" ++ normalized ++ go "'")
      end
  end.
End Backends.

(** ** Authorized keys *)
Section Keys.
Context `{UnicodeTables} `{SSHKeys}.

(** The key a line of the file declares; blank lines and comments declare none. *)
Definition line_key (raw : gostring) : option PublicKey :=
  match TrimSpace (TrimRightCR raw) with
  | [] => None
  | c :: _ => if c =c "#" then None
              else match ParseAuthorizedKey (TrimRightCR raw) with
                   | Ok (k, _, _, _) => k
                   | Err _ => None
                   end
  end.
Definition declared_keys (data : gostring) : list PublicKey := omap line_key (Split data chNL).

(** The map holds exactly the keys of the list, under their fingerprints. *)
Definition keys_match (ks : list PublicKey) (m : gmap gostring authorizedKeyEntry) : Prop :=
  (forall fp e, m !! fp = Some e ->
     exists k, k ∈ ks /\ fp = FingerprintSHA256 k /\ keyBytes e = Marshal k) /\
  (forall k, k ∈ ks -> exists e, m !! FingerprintSHA256 k = Some e /\ keyBytes e = Marshal k).

Lemma parse_line_Ok ln raw out out' :
  parse_line ln raw out = Ok out' ->
  match line_key raw with
  | None => out' = out
  | Some k =>
      (exists e, out !! FingerprintSHA256 k = Some e /\ keyBytes e = Marshal k /\ out' = out) \/
      (exists c, out !! FingerprintSHA256 k = None /\
                 out' = <[FingerprintSHA256 k := MkEntry (Marshal k) c]> out)
  end.
Proof.
  unfold parse_line, line_key. cbv zeta.
  destruct (TrimSpace (TrimRightCR raw)) as [|c t]; [by intros [= <-]|].
  destruct (c =c "#"); [by intros [= <-]|].
  destruct (ParseAuthorizedKey _) as [[[[[k|] cm] opts] rest]|]; [|done..].
  destruct opts; [|done]. destruct (negb _); [done|].
  destruct (out !! FingerprintSHA256 k) as [e|] eqn:E.
  - destruct (keyBytes e =s Marshal k) eqn:EK; [|done]. intros [= <-]. bool_simp. left. eauto.
  - intros [= <-]. right. eauto.
Qed.

Lemma parse_lines_Ok ln lines ks out out' :
  keys_match ks out -> parse_lines ln lines out = Ok out' ->
  keys_match (ks ++ omap line_key lines) out'.
Proof.
  revert ln ks out. induction lines as [|raw lines IH]; intros ln ks out [HM1 HM2]; simpl.
  - intros [= <-]. by rewrite app_nil_r.
  - destruct (parse_line ln raw out) as [out1|] eqn:EL; [|done]. cbn.
    apply parse_line_Ok in EL. destruct (line_key raw) as [k|].
    + rewrite cons_middle, app_assoc. apply IH.
      destruct EL as [(e & E1 & E2 & ->)|(c & E1 & ->)]; split.
      * intros fp e' He. apply HM1 in He as (k' & ? & ?). exists k'. set_solver.
      * intros k' [Hk| ->%list_elem_of_singleton]%elem_of_app; eauto.
      * intros fp e'. destruct (decide (fp = FingerprintSHA256 k)) as [->|Hne].
        -- rewrite lookup_insert_eq. intros [= <-]. exists k. set_solver.
        -- rewrite lookup_insert_ne by done. intros He.
           apply HM1 in He as (k' & ? & ?). exists k'. set_solver.
      * intros k' [Hk| ->%list_elem_of_singleton]%elem_of_app.
        -- destruct (HM2 k' Hk) as (e & He & Hb). exists e. split; [|done].
           rewrite lookup_insert_ne; [done|]. intros E. rewrite E in E1. congruence.
        -- rewrite lookup_insert_eq. eauto.
    + subst out1. by apply IH.
Qed.

Lemma parseAuthorizedKeys_Ok data m :
  parseAuthorizedKeys data = Ok m -> keys_match (declared_keys data) m.
Proof.
  intros HP. apply (parse_lines_Ok 0 _ [] ∅); [|done]. split; [done|]. set_solver.
Qed.

(** Looking a key up finds it iff some declared key has its bytes. *)
Lemma keys_match_lookup ks m key :
  keys_match ks m ->
  (exists e, m !! FingerprintSHA256 key = Some e /\ keyBytes e = Marshal key) <->
  (exists k, k ∈ ks /\ Marshal k = Marshal key).
Proof.
  intros [HM1 HM2]. split.
  - intros (e & He & Hb). apply HM1 in He as (k & Hk & _ & Hb'). exists k. split; congruence.
  - intros (k & Hk & Hb). apply HM2 in Hk as (e & He & Hb'). exists e.
    unfold FingerprintSHA256 in *. rewrite Hb in *. done.
Qed.
End Keys.

(** ** Reachable servers *)
Section Invariant.
Context `{UnicodeTables} `{SSHKeys}.

(** What [NewServer] establishes and the callbacks keep: a valid configuration,
    the repository map of exactly that configuration, and, when the key file is
    not watched, the keys of the file [file0] as it was at start-up. *)
Definition repos_match (rs : list RepositoryConfig) (m : gmap gostring RepositoryConfig) : Prop :=
  forall p rc, m !! p = Some rc <-> rc ∈ rs /\ rc_Path rc = p.

Definition server_ok (file0 : gostring -> res gostring) (s : Server) : Prop :=
  config_ok (config s) /\ repos_match (gc_Repositories (config s)) (repos s) /\
  (gc_WatchKeys (config s) = false ->
   exists data, file0 (gc_AuthorizedKeys (config s)) = Ok data /\
                parseAuthorizedKeys data = Ok (keysByFP s)).

Lemma build_repos_match rs :
  NoDup (map rc_Path rs) -> repos_match rs (build_repos rs).
Proof.
  unfold build_repos, repos_match. induction rs as [|r rs IH] using rev_ind.
  - intros _ p rc. split; [done|]. intros [Hin%elem_of_nil _]. done.
  - rewrite map_app, fold_left_app. cbn [map fold_left].
    intros (HN & Hd & _)%NoDup_app p rc.
    destruct (decide (p = rc_Path r)) as [->|Hne].
    + rewrite lookup_insert_eq. split.
      * intros [= <-]. set_solver.
      * intros [[Hin| ->%list_elem_of_singleton]%elem_of_app E]; [|done].
        exfalso. apply (Hd (rc_Path r)); [|set_solver]. rewrite <- E. by apply list_elem_of_fmap_2.
    + rewrite lookup_insert_ne, (IH HN) by done. rewrite elem_of_app, list_elem_of_singleton.
      naive_solver.
Qed.

Lemma loadAuthorizedKeys_Ok s file s' :
  loadAuthorizedKeys s file = (s', None) ->
  exists data m, file (gc_AuthorizedKeys (config s)) = Ok data /\
    parseAuthorizedKeys data = Ok m /\ s' = set_keysByFP m s.
Proof.
  unfold loadAuthorizedKeys. destruct (_ =s []); [done|].
  destruct (file _) as [data|]; [|done]. destruct (parseAuthorizedKeys data) as [m|] eqn:E; [|done].
  intros [= <-]. eauto.
Qed.

Lemma loadAuthorizedKeys_ex s file data m :
  gc_AuthorizedKeys (config s) <> [] -> file (gc_AuthorizedKeys (config s)) = Ok data ->
  parseAuthorizedKeys data = Ok m -> loadAuthorizedKeys s file = (set_keysByFP m s, None).
Proof.
  intros Hne Hf Hp. unfold loadAuthorizedKeys.
  by rewrite (proj2 (gos_eqb_neq _ _)), Hf, Hp.
Qed.

Lemma loadAuthorizedKeys_Err s file s' e : loadAuthorizedKeys s file = (s', Some e) -> s' = s.
Proof. unfold loadAuthorizedKeys. intros HL. by repeat case_match; inv_ok. Qed.

Lemma NewServer_ok c c' file0 s :
  NewServer (Some c) file0 = (c', Ok s) ->
  server_ok file0 s /\ c' = Some (config s) /\ check_and_fill c = (config s, None).
Proof.
  unfold NewServer. destruct (check_and_fill c) as [c1 [e|]] eqn:EC; [done|].
  pose proof (check_and_fill_Ok _ _ EC) as [Hok _].
  assert (repos_match (gc_Repositories c1) (build_repos (gc_Repositories c1))) as HR
    by (apply build_repos_match, Hok).
  destruct (gc_WatchKeys c1) eqn:EW.
  - intros [= <- <-]. split; [|done]. split; [done|]. split; [done|]. cbn. congruence.
  - destruct (loadAuthorizedKeys _ _) as [s1 [e|]] eqn:EL; [done|]. intros [= <- <-].
    apply loadAuthorizedKeys_Ok in EL as (data & m & Hf & Hp & ->). cbn in *.
    split; [|done]. split; [done|]. split; [done|]. cbn. eauto.
Qed.

(** The keys a callback decides with: those of the file now, or at start-up. *)
Definition keys_now (s : Server) (file0 file : gostring -> res gostring) (data : gostring) : Prop :=
  (if gc_WatchKeys (config s) then file else file0) (gc_AuthorizedKeys (config s)) = Ok data /\
  is_ok (parseAuthorizedKeys data) = true.

(** The callback, split at the reload. *)
Lemma reload_cases s file0 file :
  server_ok file0 s ->
  let '(s', err) := if gc_WatchKeys (config s) then loadAuthorizedKeys s file else (s, None) in
  server_ok file0 s' /\ config s' = config s /\
  match err with
  | None => exists data, keys_now s file0 file data /\ parseAuthorizedKeys data = Ok (keysByFP s')
  | Some _ => forall data, ~ keys_now s file0 file data
  end.
Proof.
  intros Hok. pose proof Hok as (Hc & Hr & Hk). unfold keys_now.
  destruct (gc_WatchKeys (config s)) eqn:EW.
  - destruct (loadAuthorizedKeys s file) as [s' [e|]] eqn:EL.
    + pose proof (loadAuthorizedKeys_Err _ _ _ _ EL) as ->. split; [done|]. split; [done|].
      intros data [Hf Hp]. destruct (parseAuthorizedKeys data) as [m|] eqn:EP; [|done].
      destruct Hc as [(_ & _ & _ & _ & _ & HA & _) _].
      by rewrite (loadAuthorizedKeys_ex s file data m) in EL.
    + apply loadAuthorizedKeys_Ok in EL as (data & m & Hf & Hp & ->).
      split; [|split; [done|]; exists data; by rewrite Hp].
      split; [done|]. split; [done|]. cbn. congruence.
  - split; [done|]. split; [done|].
    destruct (Hk eq_refl) as (data & Hf & Hp). exists data. by rewrite Hp.
Qed.

Lemma keys_now_fun s file0 file data1 data2 :
  keys_now s file0 file data1 -> keys_now s file0 file data2 -> data1 = data2.
Proof. intros [H1 _] [H2 _]. congruence. Qed.

(** The permissions a successful callback returns. *)
Definition git_permissions (fp cmt : gostring) : Permissions :=
  MkPermissions (Some (<[permExtGitServer := go "1"]> (<[permExtKeyFingerprint := fp]>
    (<[permExtKeyComment := cmt]> ∅)))).

Lemma git_permissions_spec fp cmt :
  IsGitPermission (Some (git_permissions fp cmt)) = true /\
  GitKeyFingerprint (Some (git_permissions fp cmt)) = fp.
Proof.
  unfold git_permissions, IsGitPermission, GitKeyFingerprint.
  rewrite lookup_insert_eq, lookup_insert_ne, lookup_insert_eq by done. done.
Qed.

Lemma PublicKeyCallback_cases s file0 file user key s' r :
  server_ok file0 s -> PublicKeyCallback s file user key = (s', r) ->
  server_ok file0 s' /\ config s' = config s /\
  (is_ok r = true <->
     user = gc_SSHUser (config s) /\ isCertificate key = false /\
     exists data k, keys_now s file0 file data /\ k ∈ declared_keys data /\ Marshal k = Marshal key) /\
  (forall perms, r = Ok perms -> exists cmt, perms = git_permissions (FingerprintSHA256 key) cmt).
Proof.
  intros Hok. unfold PublicKeyCallback. pose proof (reload_cases s file0 file Hok) as HR.
  destruct (user =s gc_SSHUser (config s)) eqn:EU; cbn [negb]; bool_simp; cycle 1.
  { intros [= <- <-]. split; [done|]. split; [done|]. split; [|done]. naive_solver. }
  destruct (isCertificate key) eqn:EC.
  { intros [= <- <-]. split; [done|]. split; [done|]. split; [|done]. naive_solver. }
  destruct (if gc_WatchKeys (config s) then _ else _) as [s1 [e|]]; destruct HR as (H1 & H2 & H3).
  { intros [= <- <-]. split; [done|]. split; [done|]. split; [|done]. naive_solver. }
  destruct H3 as (data & Hd & Hp). apply parseAuthorizedKeys_Ok in Hp.
  pose proof (keys_match_lookup _ _ key Hp) as HL.
  assert ((exists e, keysByFP s1 !! FingerprintSHA256 key = Some e /\ keyBytes e = Marshal key) <->
    user = gc_SSHUser (config s) /\ false = false /\
     exists data k, keys_now s file0 file data /\ k ∈ declared_keys data /\ Marshal k = Marshal key) as HI.
  { rewrite HL. split; [naive_solver|]. intros (_ & _ & data' & k & Hd' & Hk).
    rewrite (keys_now_fun _ _ _ _ _ Hd Hd'). by exists k. }
  rewrite <- HI. destruct (keysByFP s1 !! FingerprintSHA256 key) as [e|].
  - destruct (keyBytes e =s Marshal key) eqn:EK; cbn [negb]; bool_simp;
      intros [= <- <-]; (split; [done|]); (split; [done|]); split.
    + naive_solver.
    + intros perms [= <-]. by exists (comment e).
    + naive_solver.
    + done.
  - intros [= <- <-]. split; [done|]. split; [done|]. split; [|done]. naive_solver.
Qed.
End Invariant.

(** ** Access control *)
Lemma containsFingerprint_spec fps fp : containsFingerprint fps fp = true <-> fp ∈ fps.
Proof.
  unfold containsFingerprint. rewrite existsb_exists. setoid_rewrite <- list_elem_of_In.
  split; [intros (k & Hk & E); bool_simp; by subst|]. intros Hin. exists fp. by rewrite gos_eqb_refl.
Qed.

(** The rights the lists of a repository give to a fingerprint. *)
Definition permits (rc : RepositoryConfig) (op fp : gostring) : Prop :=
  (op = OperationRead /\ (fp ∈ rc_ReadKeys rc \/ fp ∈ rc_WriteKeys rc)) \/
  (op = OperationWrite /\ fp ∈ rc_WriteKeys rc).

Lemma permits_read rc fp :
  permits rc OperationRead fp <-> fp ∈ rc_ReadKeys rc \/ fp ∈ rc_WriteKeys rc.
Proof. unfold permits. split; [intros [[_ ?]|[E _]]; done|auto]. Qed.
Lemma permits_write rc fp : permits rc OperationWrite fp <-> fp ∈ rc_WriteKeys rc.
Proof. unfold permits. split; [intros [[E _]|[_ ?]]; done|auto]. Qed.

Lemma Authorize_Ok `{UnicodeTables} s perms req r :
  Authorize s perms req = Ok r <->
  IsGitPermission perms = true /\ GitKeyFingerprint perms <> [] /\
  exists p rc, NormalizeRepoPath (RepoPath req) = Ok p /\ repos s !! p = Some rc /\
    permits rc (Operation req) (GitKeyFingerprint perms) /\
    r = MkRequest (Command req) (Operation req) p (rc_BackendPath rc).
Proof.
  unfold Authorize, permits. set (fp := GitKeyFingerprint perms).
  destruct (IsGitPermission perms); cbn [negb]; [|naive_solver].
  destruct (fp =s []) eqn:EF; bool_simp; [naive_solver|].
  destruct (NormalizeRepoPath (RepoPath req)) as [p|e] eqn:EN; [|naive_solver].
  destruct (repos s !! p) as [rc|] eqn:ER; [|naive_solver].
  setoid_rewrite <- containsFingerprint_spec.
  destruct (Operation req =s OperationRead) eqn:E1; bool_simp; [rewrite E1|].
  - destruct (containsFingerprint (rc_ReadKeys rc) fp) eqn:C1,
      (containsFingerprint (rc_WriteKeys rc) fp) eqn:C2; cbn; naive_solver congruence.
  - destruct (Operation req =s OperationWrite) eqn:E2; bool_simp; [rewrite E2|naive_solver].
    destruct (containsFingerprint (rc_WriteKeys rc) fp) eqn:C2; cbn; naive_solver congruence.
Qed.

Lemma repository_filled_fun raw rc1 rc2 :
  repository_filled raw rc1 -> repository_filled raw rc2 -> rc1 = rc2.
Proof.
  destruct rc1 as [p1 b1 r1 w1], rc2 as [p2 b2 r2 w2]. unfold repository_filled. cbn.
  intros (H1 & H2 & -> & ->) (H3 & H4 & -> & ->). rewrite H3 in H1. injection H1 as ->.
  destruct (rc_BackendPath raw =s []); [congruence|].
  rewrite H4 in H2. by injection H2 as ->.
Qed.

Lemma FingerprintSHA256_ne `{SSHKeys} key : FingerprintSHA256 key <> [].
Proof. done. Qed.

Section Access.
Context `{UnicodeTables} `{SSHKeys}.

(** Servers made by [NewServer] and any sequence of key callbacks. *)
Inductive reachable (c : Config) (file0 : gostring -> res gostring) : Server -> Prop :=
| reach_new c' s : NewServer (Some c) file0 = (c', Ok s) -> reachable c file0 s
| reach_callback s file user key s' r :
    reachable c file0 s -> PublicKeyCallback s file user key = (s', r) -> reachable c file0 s'.

Lemma server_reachable_ok c file0 s :
  reachable c file0 s ->
  server_ok file0 s /\ Forall2 repository_filled (gc_Repositories c) (gc_Repositories (config s)).
Proof.
  induction 1 as [c' s HN|s file user key s' r Hs [IH1 IH2] HC].
  - apply NewServer_ok in HN as (H1 & _ & H2). split; [done|].
    by apply check_and_fill_Ok in H2 as [_ ?].
  - apply (PublicKeyCallback_cases _ file0) in HC as (H1 & H2 & _); [|done].
    split; [done|]. by rewrite H2.
Qed.

Lemma filled_lookup raws rcs rc raw :
  Forall2 repository_filled raws rcs -> raw ∈ raws -> repository_filled raw rc -> rc ∈ rcs.
Proof.
  intros HF Hin Hr. apply list_elem_of_lookup in Hin as [i Hi].
  destruct (Forall2_lookup_l _ _ _ _ _ HF Hi) as (rc' & Hi' & Hr').
  rewrite (repository_filled_fun _ _ _ Hr Hr'). by eapply list_elem_of_lookup_2.
Qed.

(** C10. Who is let in: on every reachable server the callback accepts a key iff
    the user is the configured one, the key is not a certificate, and the
    authorized_keys file (now, when it is watched; at start-up otherwise)
    parses and declares a key with exactly the same bytes; the permissions
    returned carry that key's fingerprint; and the server stays valid. *)
Theorem PublicKeyCallback_correct c file0 s file user key s' r :
  reachable c file0 s -> PublicKeyCallback s file user key = (s', r) ->
  (is_ok r = true <->
     user = gc_SSHUser (config s) /\ isCertificate key = false /\
     exists data k, keys_now s file0 file data /\ k ∈ declared_keys data /\ Marshal k = Marshal key) /\
  (forall perms, r = Ok perms -> IsGitPermission (Some perms) = true /\
     GitKeyFingerprint (Some perms) = FingerprintSHA256 key) /\
  server_ok file0 s' /\ config s' = config s.
Proof.
  intros Hs HC. apply server_reachable_ok in Hs as [Hs _].
  apply (PublicKeyCallback_cases _ file0) in HC as (H1 & H2 & H3 & H4); [|done].
  split; [done|]. split; [|done]. intros perms Hp. apply H4 in Hp as [cmt ->].
  apply git_permissions_spec.
Qed.

(** C9. Access control end to end: for a server built from configuration [c], a
    key it accepted and a command it parsed, the request is authorised iff [c]
    has a repository entry whose path normalises to the requested one and whose
    trimmed lists name the fingerprint of that key: the write list, or, unless
    the command is git-receive-pack, the read list.  The request then keeps its
    command and goes to that entry's backend path. *)
Theorem git_access_control c file0 s file user key s' perms command req :
  reachable c file0 s -> PublicKeyCallback s file user key = (s', Ok perms) ->
  ParseGitCommand command = Ok req ->
  forall r, Authorize s' (Some perms) req = Ok r <->
  exists raw rc, raw ∈ gc_Repositories c /\ repository_filled raw rc /\
    rc_Path rc = RepoPath req /\
    (FingerprintSHA256 key ∈ rc_WriteKeys rc \/
     (Command req <> go "git-receive-pack" /\ FingerprintSHA256 key ∈ rc_ReadKeys rc)) /\
    r = MkRequest (Command req) (Operation req) (RepoPath req) (rc_BackendPath rc).
Proof.
  intros Hs HC HP r.
  assert (reachable c file0 s') as Hs' by by eapply reach_callback.
  apply server_reachable_ok in Hs as [Hs _]. apply server_reachable_ok in Hs' as [(_ & HR & _) HF].
  apply (PublicKeyCallback_cases _ file0) in HC as (_ & _ & _ & H4); [|done].
  destruct (H4 perms eq_refl) as [cmt ->].
  destruct (git_permissions_spec (FingerprintSHA256 key) cmt) as [G1 G2].
  apply ParseGitCommand_Ok in HP as (HC & HN & _).
  rewrite Authorize_Ok, G1, G2, (proj1 (NormalizeRepoPath_fixed _ HN)).
  assert (forall rc, permits rc (Operation req) (FingerprintSHA256 key) <->
    FingerprintSHA256 key ∈ rc_WriteKeys rc \/
    (Command req <> go "git-receive-pack" /\ FingerprintSHA256 key ∈ rc_ReadKeys rc)) as HPm.
  { intros rc. apply gitHyphenCommand_Some in HC as [_ HC].
    assert (go "git-upload-pack" <> go "git-receive-pack") by done.
    assert (go "git-upload-archive" <> go "git-receive-pack") by done.
    destruct HC as [[-> ->]|[[-> ->]|[-> ->]]]; rewrite ?permits_read, ?permits_write; tauto. }
  split.
  - intros (_ & _ & p & rc & [= <-] & Hl & Hp & ->). apply HR in Hl as [Hin HE].
    destruct (list_elem_of_lookup_1 _ _ Hin) as [i Hi].
    destruct (Forall2_lookup_r _ _ _ _ _ HF Hi) as (raw & Hraw & Hfill).
    exists raw, rc. split; [by eapply list_elem_of_lookup_2|].
    split; [done|]. split; [done|]. split; [by apply HPm|done].
  - intros (raw & rc & Hraw & Hfill & HE & Hp & ->).
    split; [done|]. split; [apply FingerprintSHA256_ne|].
    exists (RepoPath req), rc. split; [done|]. split; [|split; [by apply HPm|done]].
    apply HR. split; [|done]. by eapply filled_lookup.
Qed.
End Access.

(** ** Confinement of local repositories *)
Lemma strip_common_spec b t :
  exists c, let '(b', t') := strip_common b t in
    b = c ++ b' /\ t = c ++ t' /\
    match b', t' with x :: _, y :: _ => x <> y | _, _ => True end.
Proof.
  revert t. induction b as [|x b IH]; intros [|y t]; simpl; try by exists [].
  destruct (x =s y) eqn:E; bool_simp; subst; [|by exists []].
  destruct (IH t) as [c Hc]. destruct (strip_common b t) as [b' t'].
  exists (y :: c). destruct Hc as (-> & -> & ?). done.
Qed.

Lemma strip_common_prefix b t segs : strip_common b t = ([], segs) <-> t = b ++ segs.
Proof.
  split.
  - intros E. destruct (strip_common_spec b t) as [c Hc]. rewrite E in Hc.
    destruct Hc as (-> & -> & _). by rewrite app_nil_r.
  - intros ->. induction b as [|x b IH]; [by destruct segs|]. simpl. by rewrite gos_eqb_refl.
Qed.

Lemma HasPrefix_unrooted segs : segs <> [] -> Forall good_seg segs ->
  HasPrefix (Join segs [slash]) [slash] = false /\
  HasPrefix (Join segs [slash]) (dotdot ++ [slash]) = false.
Proof.
  intros Hne HF.
  assert (Split (Join segs [slash]) slash = segs) as HS.
  { apply Split_Join; [done|]. eapply Forall_impl; [exact HF|]. intros x Hx. apply Hx. }
  split; apply not_true_iff_false; intros [t E]%HasPrefix_spec; rewrite E in HS.
  - cbn [app] in HS. rewrite Split_cons_sep in HS. subst segs.
    apply Forall_cons in HF as [[? _] _]. done.
  - rewrite <- app_assoc in HS. cbn [app] in HS.
    rewrite Split_app in HS by (vm_compute; intros Hin; repeat apply elem_of_cons in Hin as [?|Hin]; done || by apply elem_of_nil in Hin).
    subst segs. apply Forall_cons in HF as [(_ & _ & ? & _) _]. done.
Qed.

Lemma isEscapeRel_up (b t : list gostring) :
  b <> [] -> isEscapeRel (Join (map (fun _ => dotdot) b ++ t) [slash]) = true.
Proof.
  destruct b as [|x b]; [done|]. intros _. cbn [map app]. unfold isEscapeRel.
  destruct (map (fun _ => dotdot) b ++ t) as [|y l]; [done|].
  rewrite Join_cons by done. rewrite app_assoc, HasPrefix_app. by rewrite orb_true_r.
Qed.

Lemma isEscapeRel_down t :
  t <> [] -> Forall good_seg t -> isEscapeRel (Join t [slash]) = false.
Proof.
  intros Hne HF. unfold isEscapeRel. destruct (HasPrefix_unrooted t Hne HF) as [-> ->].
  destruct (Join_good_ne t Hne HF) as (_ & _ & H). by rewrite (proj2 (gos_eqb_neq _ _)).
Qed.

Lemma HasPrefix_abs_path segs : HasPrefix (abs_path segs) [slash] = true.
Proof. apply HasPrefix_char. by eexists. Qed.

Lemma good_segs_no_dotdot b : Forall good_seg b ->
  match b with x :: _ => x =s dotdot | [] => false end = false.
Proof. destruct 1 as [|x b (_ & _ & H & _) _]; [done|]. by apply gos_eqb_neq. Qed.

(** On canonical absolute paths, a relative path that does not escape exists
    iff the target extends the base. *)
Lemma Rel_inside rs cs :
  Forall good_seg rs -> Forall good_seg cs ->
  (exists rel, Rel (abs_path rs) (abs_path cs) = Ok rel /\ isEscapeRel rel = false) <->
  (exists segs, cs = rs ++ segs).
Proof.
  intros Hr Hc. unfold Rel. rewrite !Clean_abs_path by done.
  destruct (abs_path cs =s abs_path rs) eqn:E; bool_simp.
  - apply abs_path_inj in E as ->; [|done..]. split; [|by exists dot].
    intros _. exists []. by rewrite app_nil_r.
  - rewrite !HasPrefix_abs_path, !real_segs_Split_abs by done. cbn [negb Bool.eqb].
    destruct (strip_common rs cs) as [b t] eqn:ES.
    destruct (strip_common_spec rs cs) as [c HS]. rewrite ES in HS. destruct HS as (Hrs & Hcs & _).
    rewrite Hrs in Hr. rewrite Hcs in Hc. apply Forall_app in Hr as [_ Hb]. apply Forall_app in Hc as [_ Ht].
    rewrite (good_segs_no_dotdot b Hb). destruct b as [|x b].
    + apply strip_common_prefix in ES. subst cs. split; [by exists t|]. intros _.
      exists (Join t [slash]). split; [done|]. apply isEscapeRel_down; [|done].
      intros ->. by rewrite (app_nil_r rs) in E.
    + split.
      * intros (rel & HJ & HE). pose proof (isEscapeRel_up (x :: b) t ltac:(done)). congruence.
      * intros (segs & HE). apply strip_common_prefix in HE. congruence.
Qed.

Lemma JoinPath_abs rs ps :
  Forall good_seg rs -> Forall repo_segment ps -> ps <> [] ->
  JoinPath (abs_path rs) (Join ps [slash]) = abs_path (rs ++ ps).
Proof.
  intros Hr Hp Hne. unfold JoinPath. cbn [app].
  assert (Split (abs_path rs ++ (slash :: Join ps [slash])) slash = Split (abs_path rs) slash ++ ps) as HS
    by (rewrite Split_app_sep; f_equal; by apply Split_repo_path).
  assert (dotdot ∉ ps) as Hd.
  { intros Hin. rewrite Forall_forall in Hp. by apply Hp in Hin as (_ & _ & ?). }
  rewrite Clean_nodotdot; rewrite HS.
  - rewrite (proj2 (HasPrefix_char _ _)) by by eexists. f_equal.
    unfold real_segs. rewrite filter_app. fold (real_segs (Split (abs_path rs) slash)).
    fold (real_segs ps). by rewrite real_segs_Split_abs, real_segs_id by eauto with go.
  - rewrite not_elem_of_app. split; [by apply abs_path_nodotdot|done].
Qed.

Section Confine.
Context `{UnicodeTables} `{HostFS}.

(** The documented behaviour of the host: absolute results are cleaned. *)
Class HostFSLaws : Prop := {
  Abs_canonical : forall p q, Abs p = Ok q -> abs_canonical q;
  EvalSymlinks_canonical : forall p q, abs_canonical p -> EvalSymlinks p = Ok q -> abs_canonical q
}.
Context `{!HostFSLaws}.

(** C35. A local repository is resolved iff it lies under the root, whatever the
    symbolic links: the result is the real path of root plus name, and it is
    returned iff the real path of the root is a prefix of it, segment by
    segment; the name given to the file system has no dot-dot and stays below
    the root as well. *)
Theorem ResolveLocalRepo_confined s repo cand :
  ResolveLocalRepo s repo = Ok cand <->
  exists ps rootPath rs segs,
    ps <> [] /\ Forall repo_segment ps /\ NormalizeRepoPath repo = Ok (Join ps [slash]) /\
    gc_RepoRoot (config s) <> [] /\ Abs (gc_RepoRoot (config s)) = Ok rootPath /\
    EvalSymlinks rootPath = Ok (abs_path rs) /\ Forall good_seg rs /\
    EvalSymlinks (abs_path (rs ++ ps)) = Ok cand /\
    cand = abs_path (rs ++ segs) /\ Forall good_seg segs.
Proof.
  unfold ResolveLocalRepo. split.
  - destruct (NormalizeRepoPath repo) as [p|] eqn:EN; [|done].
    destruct (gc_RepoRoot (config s) =s []) eqn:E0; [done|]. bool_simp.
    destruct (Abs _) as [rootPath|] eqn:EA; [|done].
    destruct (EvalSymlinks rootPath) as [rootAbs|] eqn:ER; [|done].
    destruct (EvalSymlinks_canonical _ _ (Abs_canonical _ _ EA) ER) as (rs & -> & Hrs).
    destruct (NormalizeRepoPath_repo_path _ _ EN) as (ps & Hne & Hps & ->).
    rewrite JoinPath_abs by done.
    destruct (EvalSymlinks (abs_path (rs ++ ps))) as [ca|] eqn:EC; [|done].
    assert (Forall good_seg (rs ++ ps)) as Hall by (apply Forall_app; eauto with go).
    destruct (EvalSymlinks_canonical _ _ (ex_intro _ _ (conj eq_refl Hall)) EC) as (cs & -> & Hcs).
    destruct (Rel _ _) as [rel|] eqn:EL; [|done]. destruct (isEscapeRel rel) eqn:EE; [done|].
    intros [= <-]. destruct (proj1 (Rel_inside rs cs Hrs Hcs)) as [segs ->]; [by exists rel|].
    apply Forall_app in Hcs as [_ Hsegs]. exists ps, rootPath, rs, segs. naive_solver.
  - intros (ps & rootPath & rs & segs & Hne & Hps & -> & Hroot & -> & -> & Hrs & HE & -> & Hsegs).
    rewrite (proj2 (gos_eqb_neq _ _)) by done. rewrite JoinPath_abs, HE by done.
    assert (Forall good_seg (rs ++ segs)) as Hall by by apply Forall_app.
    destruct (proj2 (Rel_inside rs (rs ++ segs) Hrs Hall)) as (rel & -> & ->); [by exists segs|done].
Qed.
End Confine.

(** ** The commands given to the backends *)

(** An ASCII byte is always decoded as itself, also next to invalid UTF-8. *)
Lemma DecodeRune_ascii_byte s r n b :
  DecodeRune s = (r, n) -> b ∈ take n s -> bv b < 128 -> r = bv b.
Proof.
  destruct s as [|b0 t]; [intros [= <- <-] Hin; by apply elem_of_nil in Hin|].
  unfold DecodeRune, is_cont. intros HD Hin Hb.
  destruct (Z.ltb_spec (bv b0) 128).
  { injection HD as <- <-. by apply list_elem_of_singleton in Hin as ->. }
  repeat case_match; simplify_eq; bool_simp; cbn [take] in Hin; rewrite ?take_0 in Hin;
    repeat (apply elem_of_cons in Hin as [->|Hin]; [lia|]); by apply elem_of_nil in Hin.
Qed.

Lemma runes_ascii s b : b ∈ s -> bv b < 128 -> bv b ∈ runes s.
Proof.
  unfold runes. remember (length s) as f eqn:Ef. assert (length s <= f)%nat as Hf by lia.
  clear Ef. revert s Hf. induction f as [|f IH]; intros s Hf Hin Hb.
  - destruct s; [by apply elem_of_nil in Hin|simpl in Hf; lia].
  - destruct s as [|b0 t]; [by apply elem_of_nil in Hin|]. cbn [runes_fuel].
    pose proof (DecodeRune_width (b0 :: t) ltac:(done)) as HW.
    destruct (DecodeRune (b0 :: t)) as [r n] eqn:ED.
    rewrite <- (take_drop n (b0 :: t)) in Hin. apply elem_of_app in Hin as [Hin|Hin].
    + rewrite (DecodeRune_ascii_byte _ _ _ _ ED Hin Hb). left.
    + right. apply IH; [|done|done]. rewrite length_drop. cbn [length] in *. lia.
Qed.

(** A byte that neither ends a single-quoted token nor controls a line. *)
Definition quotable_byte (b : ascii) : Prop := b <> chSQ /\ 32 <= bv b /\ bv b <> 127.

Lemma rejectUnsafeLocalPath_None field s :
  rejectUnsafeLocalPath field s = None -> Forall quotable_byte s.
Proof.
  unfold rejectUnsafeLocalPath. destruct (existsb _ _) eqn:E; [done|]. intros _.
  apply existsb_false_Forall in E. rewrite Forall_forall in E. apply Forall_forall. intros b Hb.
  destruct (Z.ltb_spec (bv b) 128).
  - specialize (E _ (runes_ascii s b Hb ltac:(done))). unfold unicode_IsControl in E. bool_simp.
    pose proof (bv_range b). split; [intros ->; done|].
    repeat match goal with H : andb _ _ = false |- _ => apply andb_false_iff in H end.
    split; [|intros Hd; rewrite Hd in *; vm_compute in *; naive_solver].
    destruct (Z.ltb_spec (bv b) 32); [|lia].
    repeat match goal with H : _ \/ _ |- _ => destruct H end; bool_simp; lia.
  - split; [|lia]. intros ->. assert (bv chSQ = 39) by done. lia.
Qed.

Section Commands.
Context `{UnicodeTables} `{HostFS}.

(** The program started for a local repository: the git shell with exactly
    two arguments, -c and the service name followed by one single-quoted path;
    the path is the resolved repository and has no byte that could end the
    quotes or break the line; the process gets its own credentials unless the
    current user is configured, and no variable of the server's environment
    but the four fixed ones and the negotiated protocol. *)
Lemma buildLocalCommand_safe s req gitProtocol cmd :
  buildLocalCommand s req gitProtocol = Ok cmd ->
  exists absoluteRepo,
    ResolveLocalRepo s (backendPathOf req) = Ok absoluteRepo /\
    cmd_Name cmd = gc_GitShell (config s) /\
    cmd_Args cmd = [go "-c"; quoted_command (Command req) absoluteRepo] /\
    Forall quotable_byte absoluteRepo /\ Forall quotable_byte (cmd_Dir cmd) /\
    (cmd_Credential cmd = None <-> gc_CurrentUser (config s) = true) /\
    cmd_Env cmd = localEnv s gitProtocol.
Proof.
  unfold buildLocalCommand. intros HB.
  destruct (ResolveLocalRepo s (backendPathOf req)) as [p|]; [|done].
  destruct (Abs _) as [rp|]; [|done]. destruct (EvalSymlinks rp) as [root|]; [|done].
  destruct (rejectUnsafeLocalPath _ root) eqn:E1; [done|].
  destruct (rejectUnsafeLocalPath _ p) eqn:E2; [done|].
  destruct (GetUid _ _) as [ids|]; [|done]. injection HB as <-. exists p. cbn [cmd_Args cmd_Env cmd_Name cmd_Dir cmd_Credential].
  repeat split; eauto using rejectUnsafeLocalPath_None; try by destruct (gc_CurrentUser (config s)).
  f_equal. unfold quoted_command, quoted_words. cbn. by rewrite <- !app_assoc.
Qed.

(** What an authorised request sends to the ssh backend: the command is
    always built, and the server's own parser reads it back as the same service
    on the backend path of the configuration, which the client cannot choose. *)
Lemma buildBackendCommand_authorized file0 s perms command req r `{SSHKeys} :
  server_ok file0 s -> ParseGitCommand command = Ok req -> Authorize s perms req = Ok r ->
  exists c rc, buildBackendCommand r = Ok c /\
    rc ∈ gc_Repositories (config s) /\ rc_Path rc = RepoPath req /\
    ParseGitCommand c = Ok (MkRequest (Command req) (Operation req) (rc_BackendPath rc) []).
Proof.
  intros (HC & HR & _) HP HA. apply ParseGitCommand_Ok in HP as (Hs & Hp & _).
  apply Authorize_Ok in HA as (_ & _ & p & rc & HN & Hl & _ & ->).
  rewrite (proj1 (NormalizeRepoPath_fixed _ Hp)) in HN. injection HN as <-.
  apply HR in Hl as [Hin HE].
  assert (repo_path (rc_BackendPath rc)) as Hbp.
  { destruct HC as (_ & _ & HF & _). rewrite Forall_forall in HF. by apply HF in Hin as (_ & ? & _). }
  exists (quoted_command (Command req) (rc_BackendPath rc)), rc.
  split; [|split; [done|split; [done|by apply ParseGitCommand_print]]].
  unfold buildBackendCommand, backendPathOf. cbn [Command BackendPath RepoPath]. rewrite Hs.
  rewrite (proj2 (gos_eqb_neq _ _)) by by apply repo_path_ne.
  rewrite (proj1 (NormalizeRepoPath_fixed _ Hbp)). f_equal.
  unfold quoted_command, quoted_words. cbn. by rewrite <- !app_assoc.
Qed.
End Commands.

(** ** Concrete runs *)

(** Keys as plain words: a line is the key type, the key and a comment. *)
Definition word_keys : SSHKeys := {|
  PublicKey := gostring;
  Marshal := fun k => k;
  isCertificate := fun k => HasPrefix k (go "cert");
  keyHash := fun b => b;
  ParseAuthorizedKey := fun line =>
    match SplitN line " " 3 with
    | [_; k; c] => Ok (Some k, c, [], [])
    | [_; k] => Ok (Some k, [], [], [])
    | _ => Err (errors_New (go "ssh: no key found"))
    end
|}.

Definition word_file (path : gostring) : res gostring :=
  if path =s go "/home/git/.ssh/authorized_keys"
  then Ok (go "# keys" ++ [chNL] ++ go "ssh-x r alice@host" ++ [chCR; chNL] ++ go "ssh-x w bob" ++ [chNL])
  else Err (errors_New (go "no such file")).

(** The server of the sample configuration, with a watched key file. *)
Definition sample_server : Server :=
  let _ := ascii_tables in let _ := word_keys in
  match snd (NewServer (Some sample_config) word_file) with
  | Ok s => s
  | Err _ => MkServer sample_config ∅ ∅ None 0
  end.

Lemma sample_reachable :
  @reachable ascii_tables word_keys sample_config word_file sample_server.
Proof.
  apply (@reach_new ascii_tables word_keys _ _
    (fst (@NewServer ascii_tables word_keys (Some sample_config) word_file))).
  vm_compute. reflexivity.
Defined.

Lemma PublicKeyCallback_correct_witness :
  let _ := ascii_tables in let _ := word_keys in
  is_ok (snd (PublicKeyCallback sample_server word_file (go "git") (go "w"))) = true /\
  is_ok (snd (PublicKeyCallback sample_server word_file (go "git") (go "x"))) = false /\
  config (fst (PublicKeyCallback sample_server word_file (go "git") (go "w"))) = config sample_server.
Proof.
  intros T K. split; [vm_compute; reflexivity|]. split; [vm_compute; reflexivity|].
  apply (@PublicKeyCallback_correct ascii_tables word_keys sample_config word_file sample_server
           word_file (go "git") (go "w") _
           (snd (@PublicKeyCallback ascii_tables word_keys sample_server word_file (go "git") (go "w")))
           sample_reachable).
  apply surjective_pairing.
Defined.

Lemma git_access_control_witness :
  let _ := ascii_tables in let _ := word_keys in
  let s' := fst (PublicKeyCallback sample_server word_file (go "git") (go "w")) in
  let perms := git_permissions (go "SHA256:w") (go "bob") in
  let req := MkRequest (go "git-receive-pack") OperationWrite (go "team/project.git") [] in
  PublicKeyCallback sample_server word_file (go "git") (go "w") = (s', Ok perms) /\
  ParseGitCommand (go "git-receive-pack '/team/project.git'") = Ok req /\
  Authorize s' (Some perms) req
  = Ok (MkRequest (go "git-receive-pack") OperationWrite (go "team/project.git") (go "team/project.git")).
Proof.
  intros T K s' perms req.
  assert (PublicKeyCallback sample_server word_file (go "git") (go "w") = (s', Ok perms)) as HC
    by (vm_compute; reflexivity).
  split; [exact HC|]. split; [vm_compute; reflexivity|].
  apply (@git_access_control ascii_tables word_keys sample_config word_file sample_server
           word_file (go "git") (go "w") s' perms (go "git-receive-pack '/team/project.git'") req
           sample_reachable HC); [vm_compute; reflexivity|].
  exists (MkRepository (go "/team/./project.git") [] [go " SHA256:r "; []] [go "SHA256:w"]),
         (MkRepository (go "team/project.git") (go "team/project.git") [go "SHA256:r"] [go "SHA256:w"]).
  split; [left|]. split; [repeat split; reflexivity|]. split; [reflexivity|].
  split; [left; left|reflexivity].
Defined.

(** A host without symbolic links: absolute paths are their own real paths. *)
Definition plain_host : HostFS := {|
  Abs := fun p => Ok (Clean (slash :: p));
  EvalSymlinks := fun p => Ok p;
  CurrentUser := Ok (go "1000", go "1000");
  LookupUser := fun _ => Ok (go "33", go "33")
|}.

Lemma rooted_Clean_canonical p : abs_canonical (Clean (slash :: p)).
Proof.
  unfold Clean. rewrite (proj2 (HasPrefix_char _ _)) by by eexists.
  eexists. split; [reflexivity|]. apply Forall_rev.
  assert (forall segs stk, Forall (fun s => slash ∉ s) segs -> Forall good_seg stk ->
    Forall good_seg (fold_left (clean_step true) segs stk)) as HF.
  { intros segs. induction segs as [|x segs IH]; intros stk Hs Hk; [done|].
    apply Forall_cons in Hs as [Hx Hs]. cbn [fold_left]. apply IH; [done|]. unfold clean_step.
    destruct (x =s []) eqn:E0; [done|]. destruct (x =s dot) eqn:E1; [done|].
    destruct (x =s dotdot) eqn:E2; bool_simp; cbn [orb].
    - destruct Hk as [|y stk Hy Hk]; [done|]. destruct Hy as (_ & _ & Hy & _).
      by rewrite (proj2 (gos_eqb_neq _ _)).
    - constructor; [|done]. by repeat split. }
  apply HF; [apply Split_Forall|done].
Qed.

#[export] Instance plain_host_laws : @HostFSLaws plain_host.
Proof.
  constructor.
  - intros p q [= <-]. apply rooted_Clean_canonical.
  - intros p q Hp [= <-]. done.
Qed.

Lemma ResolveLocalRepo_confined_witness :
  let _ := ascii_tables in let _ := plain_host in
  ResolveLocalRepo sample_server (go "/team/project.git") = Ok (go "/srv/git/team/project.git").
Proof.
  intros T F.
  apply (@ResolveLocalRepo_confined ascii_tables plain_host plain_host_laws).
  exists [go "team"; go "project.git"], (go "/srv/git"), [go "srv"; go "git"],
         [go "team"; go "project.git"].
  repeat split; try (vm_compute; congruence); repeat constructor; try done;
    vm_compute; intros Hin; repeat (apply elem_of_cons in Hin as [Hin|Hin]; [done|]);
    by apply elem_of_nil in Hin.
Defined.


