(* ===== verification/GitSession.v ===== *)
(** * Git sessions: [HandleSession] of modules/gitserver/server.go, as a state
    machine.

    The handler runs three goroutines: itself, the backend and the loop that
    drains requests while the backend runs.  A state is the phase of the
    handler with what the other two have done so far, the cancellation flag of
    the connection's context, and the list of everything sent to the client and
    every backend started.  [hstep] has one rule per communication the code can
    select; where several are ready the rules overlap, as [select] does.  Its label says
    what the environment did: a request, the end of the backend, the end of the stream, a
    timeout or a cancellation.

    Proved: the shape of every run, that a backend is started at most once and
    only for an exec request that parses and is authorised, that exit status
    and close come once and in this order, and that every maximal run with a client
    that follows the protocol serves it. *)
From Stdlib Require Import Ascii String ZArith Lia.
From stdpp Require Import base gmap strings list.
From S2P Require Import Prelude GoStrings GoPath SshWire GitPath GitRequest GitConfig GitServer.
Local Open Scope Z_scope.

(** ** Request payloads, decoded by the SSH library *)
Record gitExecMsg := Mk_gitExecMsg { exec_Command : gostring }.
Record gitEnvMsg := Mk_gitEnvMsg { env_Name : gostring; env_Value : gostring }.

#[export] Instance gitExecMsg_message : Message gitExecMsg := {
  msg_struct := MkStruct (go "gitExecMsg") [] [(go "Command", KString)];
  to_fields m := (exec_Command m, tt);
  of_fields vs := Mk_gitExecMsg (fst vs) }.
#[export] Instance gitExecMsg_laws : MessageLaws gitExecMsg.
Proof. message_laws. Qed.

#[export] Instance gitEnvMsg_message : Message gitEnvMsg := {
  msg_struct := MkStruct (go "gitEnvMsg") [] [(go "Name", KString); (go "Value", KString)];
  to_fields m := (env_Name m, (env_Value m, tt));
  of_fields vs := let '(n, (v, _)) := vs in Mk_gitEnvMsg n v }.
#[export] Instance gitEnvMsg_laws : MessageLaws gitEnvMsg.
Proof. message_laws. Qed.

Definition unmarshalEnv (payload : gostring) : res (gostring * gostring) :=
  msg ← UnmarshalMsg gitEnvMsg payload; Ok (env_Name msg, env_Value msg).
Definition unmarshalExec (payload : gostring) : res gostring :=
  msg ← UnmarshalMsg gitExecMsg payload; Ok (exec_Command msg).

(** ** States and actions *)
Record sreq := MkSReq { Type_ : gostring; WantReply : bool; Payload : gostring }.

(** What the handler does to the outside. *)
Inductive action :=
| Reply (rq : sreq) (ok : bool)
| Start (r : Request) (gitProtocol : gostring)
| ExitStatus (status : Z)
| Close.

(** The draining goroutine: reading, done after the stream closed (having
    signalled it), or stopped by the cancelled context. *)
Inductive drain := Draining | StreamClosed | Stopped.

Inductive phase :=
| PreExec (envAccepted : bool) (gitProtocol : gostring)
| Running (r : Request) (gitProtocol : gostring) (backend : option (option error)) (d : drain)
| Exiting (r : Request) (gitProtocol : gostring) (backendErr : option error) (d : drain)   (** the exit status was sent *)
| Returning (r : Request) (gitProtocol : gostring) (backend : option (option error)) (err : option error) (d : drain)
    (** the result is decided, the deferred calls run *)
| Finished (err : option error) (d : drain).

Record hstate := HState { ph : phase; cancelled : bool; out : list action }.

Definition errNotGitPermission : error := errors_New (go "gitserver: session handler called with non-git permission").
Definition errSecondEnv : error := errors_New (go "gitserver: at most one env request is allowed").
Definition errUnsupportedEnv : error := errors_New (go "gitserver: unsupported env request").
Definition errUnsupportedRequest : error := errors_New (go "gitserver: unsupported session request").
Definition errRequestStreamClosed : error := errors_New (go "gitserver: request stream closed").
Definition errPreExecTimeout : error := errors_New (go "gitserver: timed out waiting for exec request").

(** [replyTrue]/[replyFalse]: nothing is sent unless a reply is wanted. *)
Definition reply (rq : sreq) (ok : bool) : list action :=
  if WantReply rq then [Reply rq ok] else [].

Section Session.
Context `{UnicodeTables}.
Variable srv : Server.
Variable perms : option Permissions.
(** The error of the connection's context once it is cancelled. *)
Variable ctxErr : error.

(** Returning from the pre-exec loop: the deferred cleanup closes the channel;
    no drain goroutine was started. *)
Definition fail_pre (rq : sreq) (e : error) : phase * list action :=
  (Finished (Some e) Stopped, reply rq false ++ [Close]).

(** One iteration of the pre-exec loop that received a request. *)
Definition handle_request (envAccepted : bool) (gitProtocol : gostring) (rq : sreq) :
    phase * list action :=
  if Type_ rq =s go "env" then
    if envAccepted then fail_pre rq errSecondEnv
    else
      match unmarshalEnv (Payload rq) with
      | Err e => fail_pre rq (errors_wrap (go "gitserver: malformed env request: ") e)
      | Ok (name, value) =>
          if negb (name =s gitProtocolEnvName) || negb (value =s gitProtocolEnvValue)
          then fail_pre rq errUnsupportedEnv
          else (PreExec true value, reply rq true)
      end
  else if Type_ rq =s go "exec" then
    match unmarshalExec (Payload rq) with
    | Err e => fail_pre rq (errors_wrap (go "gitserver: malformed exec request: ") e)
    | Ok command =>
        match ParseGitCommand command with
        | Err e => fail_pre rq (errors_wrap (go "gitserver: parse exec command: ") e)
        | Ok parsed =>
            match Authorize srv perms parsed with
            | Err e => fail_pre rq (errors_wrap (go "gitserver: authorize exec: ") e)
            | Ok authed =>
                (Running authed gitProtocol None Draining,
                 reply rq true ++ [Start authed gitProtocol])
            end
        end
    end
  else fail_pre rq errUnsupportedRequest.

(** The state when the handler is entered. *)
Definition session_init : hstate :=
  if IsGitPermission perms then HState (PreExec false []) false []
  else HState (Finished (Some errNotGitPermission) Stopped) false [Close].

Definition exit_code (e : option error) : Z := match e with None => 0 | Some _ => 1 end.

(** What the environment does in a step. *)
Inductive event :=
| evCancel
| evTimeout
| evStreamClosed
| evRequest (rq : sreq)
| evBackend (e : option error)
| evInternal.

(** The draining goroutine reads from the start of the backend until it stops;
    [set_drain] changes its state only. *)
Definition drain_of (p : phase) : drain :=
  match p with PreExec _ _ => Stopped | Running _ _ _ d | Exiting _ _ _ d | Returning _ _ _ _ d | Finished _ d => d end.
Definition set_drain (p : phase) (d : drain) : phase :=
  match p with
  | PreExec env gp => PreExec env gp
  | Running r gp b _ => Running r gp b d
  | Exiting r gp e _ => Exiting r gp e d
  | Returning r gp b err _ => Returning r gp b err d
  | Finished err _ => Finished err d
  end.
(** [backendCtx] is done: the connection was cancelled, or [cancelBackend] was called. *)
Definition backend_cancelled (p : phase) (c : bool) : bool :=
  c || match p with Returning _ _ _ _ _ | Finished _ _ => true | _ => false end.

(** The steps of the three goroutines and of the context. *)
Inductive hstep : hstate -> event -> hstate -> Prop :=
| h_cancel p o : hstep (HState p false o) evCancel (HState p true o)
| h_timeout env gp c o :
    hstep (HState (PreExec env gp) c o) evTimeout
          (HState (Finished (Some errPreExecTimeout) Stopped) c (o ++ [Close]))
| h_ctx env gp o :
    hstep (HState (PreExec env gp) true o) evInternal
          (HState (Finished (Some ctxErr) Stopped) true (o ++ [Close]))
| h_closed env gp c o :
    hstep (HState (PreExec env gp) c o) evStreamClosed
          (HState (Finished (Some errRequestStreamClosed) Stopped) c (o ++ [Close]))
| h_request env gp c o rq :
    hstep (HState (PreExec env gp) c o) (evRequest rq)
          (HState (fst (handle_request env gp rq)) c (o ++ snd (handle_request env gp rq)))
| h_drain p c o rq :
    drain_of p = Draining -> hstep (HState p c o) (evRequest rq) (HState p c (o ++ reply rq false))
| h_drain_closed p c o :
    drain_of p = Draining -> hstep (HState p c o) evStreamClosed (HState (set_drain p StreamClosed) c o)
| h_drain_stop p c o :
    drain_of p = Draining -> backend_cancelled p c = true -> hstep (HState p c o) evInternal (HState (set_drain p Stopped) c o)
| h_backend r gp d c o e :
    hstep (HState (Running r gp None d) c o) (evBackend e) (HState (Running r gp (Some e) d) c o)
| h_exit r gp e d c o :
    hstep (HState (Running r gp (Some e) d) c o) evInternal
          (HState (Exiting r gp e d) c (o ++ [ExitStatus (exit_code e)]))
| h_return r gp e d c o :
    hstep (HState (Exiting r gp e d) c o) evInternal
          (HState (Returning r gp (Some e) (if c then Some ctxErr else e) d) c o)
| h_stream r gp b c o :
    hstep (HState (Running r gp b StreamClosed) c o) evInternal
          (HState (Returning r gp None (Some errRequestStreamClosed) StreamClosed) c o)
| h_ctx_running r gp d o :
    hstep (HState (Running r gp None d) true o) evInternal
          (HState (Returning r gp None (Some ctxErr) d) true o)
| h_close r gp b err d c o :
    hstep (HState (Returning r gp b err d) c o) evInternal (HState (Finished err d) c (o ++ [Close])).
Definition hmove (st st' : hstate) : Prop := exists ev, hstep st ev st'.

Definition reachable_state : hstate -> Prop := rtc hmove session_init.

(** ** The protocol a client observes *)

(** Refused requests. *)
Definition refusals (l : list action) : Prop := Forall (fun a => exists rq, a = Reply rq false) l.

(** The optional environment request: nothing, or the one accepted setting. *)
Definition env_prefix (gp : gostring) (o : list action) : Prop :=
  (gp = [] /\ o = []) \/
  (gp = gitProtocolEnvValue /\ exists rq, Type_ rq = go "env" /\
     unmarshalEnv (Payload rq) = Ok (gitProtocolEnvName, gitProtocolEnvValue) /\ o = reply rq true).

(** The request is an exec whose command parses and is authorised as [r]. *)
Definition authorized_exec (rq : sreq) (r : Request) : Prop :=
  Type_ rq = go "exec" /\ exists command parsed,
    unmarshalExec (Payload rq) = Ok command /\ ParseGitCommand command = Ok parsed /\
    Authorize srv perms parsed = Ok r.

(** Up to the start of the backend. *)
Definition served_prefix (r : Request) (gp : gostring) (o : list action) : Prop :=
  exists pre rq, env_prefix gp pre /\ authorized_exec rq r /\
    o = pre ++ reply rq true ++ [Start r gp].

(** The status that is reported, and the error that the handler may return. *)
Definition status_of (backend : option (option error)) : list action :=
  match backend with Some e => [ExitStatus (exit_code e)] | None => [] end.
Definition result_of (backend : option (option error)) (err : option error) : Prop :=
  match backend with
  | Some e => err = e \/ err = Some ctxErr
  | None => err = Some ctxErr \/ err = Some errRequestStreamClosed
  end.

(** What has been sent when the handler returns: the session was refused before
    any backend started, or a backend was started and its end, if the handler
    waited for it, was reported. *)
Inductive closed_trace : option error -> list action -> Prop :=
| ct_denied e gp pre refused :
    env_prefix gp pre -> refusals refused ->
    closed_trace (Some e) (pre ++ refused ++ [Close])
| ct_served err r gp pre drained backend later :
    served_prefix r gp pre -> refusals drained -> refusals later -> result_of backend err ->
    closed_trace err (pre ++ drained ++ status_of backend ++ later ++ [Close]).

Definition session_inv (st : hstate) : Prop :=
  match ph st with
  | PreExec env gp => IsGitPermission perms = true /\ env_prefix gp (out st) /\
                      (env = false -> gp = [] /\ out st = [])
  | Running r gp _ _ => IsGitPermission perms = true /\
      exists pre drained, served_prefix r gp pre /\ refusals drained /\ out st = pre ++ drained
  | Exiting r gp e _ => exists pre drained later, served_prefix r gp pre /\ refusals drained /\ refusals later /\
      out st = pre ++ drained ++ status_of (Some e) ++ later
  | Returning r gp b err _ => exists pre drained later, served_prefix r gp pre /\ refusals drained /\ refusals later /\
      result_of b err /\ out st = pre ++ drained ++ status_of b ++ later
  | Finished err _ => exists o late, closed_trace err o /\ refusals late /\ out st = o ++ late
  end.

Lemma refusals_reply rq : refusals (reply rq false).
Proof. unfold reply. destruct (WantReply rq); repeat constructor. by eexists. Qed.

Lemma refusals_app l k : refusals l -> refusals k -> refusals (l ++ k).
Proof. by apply Forall_app_2. Qed.

Lemma env_prefix_nil : env_prefix [] [].
Proof. by left. Qed.

Lemma closed_early e gp o :
  env_prefix gp o -> exists o' late, closed_trace (Some e) o' /\ refusals late /\ o ++ [Close] = o' ++ late.
Proof.
  intros Hp. exists (o ++ [] ++ [Close]), []. rewrite app_nil_r.
  split; [|split; [constructor|done]]. eapply ct_denied; [done|constructor].
Qed.

Lemma closed_refused e gp o rq :
  env_prefix gp o ->
  exists o' late, closed_trace (Some e) o' /\ refusals late /\ o ++ reply rq false ++ [Close] = o' ++ late.
Proof.
  intros Hp. exists (o ++ reply rq false ++ [Close]), []. rewrite app_nil_r.
  split; [|split; [constructor|done]]. eapply ct_denied; [done|apply refusals_reply].
Qed.

Lemma handle_request_inv env gp c o rq :
  session_inv (HState (PreExec env gp) c o) ->
  session_inv (HState (fst (handle_request env gp rq)) c (o ++ snd (handle_request env gp rq))).
Proof.
  intros (HG & Hp & He). cbn [out] in *. unfold handle_request, session_inv, fail_pre.
  destruct (Type_ rq =s go "env") eqn:ET; bool_simp.
  - destruct env; [by eapply closed_refused|]. destruct (He eq_refl) as [-> ->].
    destruct (unmarshalEnv (Payload rq)) as [[n v]|] eqn:EU; [|by eapply closed_refused].
    destruct (n =s gitProtocolEnvName) eqn:EN; [|by eapply closed_refused].
    destruct (v =s gitProtocolEnvValue) eqn:EV; [|by eapply closed_refused]. bool_simp. subst.
    cbn. split; [done|]. split; [|done]. right. split; [done|]. exists rq. done.
  - destruct (Type_ rq =s go "exec") eqn:EX; bool_simp; [|by eapply closed_refused].
    destruct (unmarshalExec (Payload rq)) as [cmd|] eqn:EU; [|by eapply closed_refused].
    destruct (ParseGitCommand cmd) as [parsed|] eqn:EP; [|by eapply closed_refused].
    destruct (Authorize srv perms parsed) as [r|] eqn:EA; [|by eapply closed_refused].
    cbn. split; [done|]. exists (o ++ reply rq true ++ [Start r gp]), [].
    rewrite app_nil_r. split; [|split; [constructor|done]].
    exists o, rq. split; [done|]. split; [|done]. split; [done|]. eauto.
Qed.

Lemma session_inv_init : session_inv session_init.
Proof.
  unfold session_init, session_inv. destruct (IsGitPermission perms) eqn:EG; cbn.
  - split; [done|]. split; [apply env_prefix_nil|done].
  - by apply (closed_early _ [] []), env_prefix_nil.
Qed.

Lemma session_inv_drain p c o d : session_inv (HState p c o) -> session_inv (HState (set_drain p d) c o).
Proof. by destruct p. Qed.
Lemma session_inv_refuse p c o rq : drain_of p = Draining -> session_inv (HState p c o) -> session_inv (HState p c (o ++ reply rq false)).
Proof.
  unfold session_inv. cbn [ph out]. destruct p as [env gp|r gp b d|r gp e d|r gp b err d|err d]; [done|intros _..].
  - intros (HG & pre & dr & Hs & Hd & ->). split; [done|]. exists pre, (dr ++ reply rq false). rewrite app_assoc.
    split; [done|]. split; [|done]. apply refusals_app; [done|apply refusals_reply].
  - intros (pre & dr & lt & Hs & Hd & Hl & ->). exists pre, dr, (lt ++ reply rq false). rewrite <- !app_assoc.
    do 2 (split; [done|]). split; [|done]. apply refusals_app; [done|apply refusals_reply].
  - intros (pre & dr & lt & Hs & Hd & Hl & Hr & ->). exists pre, dr, (lt ++ reply rq false). rewrite <- !app_assoc.
    do 2 (split; [done|]). split; [|done]. apply refusals_app; [done|apply refusals_reply].
  - intros (o' & late & Hc & Hl & ->). exists o', (late ++ reply rq false). rewrite app_assoc. split; [done|]. split; [|done].
    apply refusals_app; [done|apply refusals_reply].
Qed.

Lemma session_inv_step st ev st' : session_inv st -> hstep st ev st' -> session_inv st'.
Proof.
  intros HI Hst. destruct Hst.
  - exact HI.
  - destruct HI as (_ & Hp & _). by eapply closed_early.
  - destruct HI as (_ & Hp & _). by eapply closed_early.
  - destruct HI as (_ & Hp & _). by eapply closed_early.
  - by apply handle_request_inv.
  - by apply session_inv_refuse.
  - by apply session_inv_drain.
  - by apply session_inv_drain.
  - exact HI.
  - destruct HI as (_ & pre & dr & Hs & Hd & HO). exists pre, dr, []. cbn [out] in *. rewrite HO, <- app_assoc, app_nil_r.
    do 2 (split; [done|]). split; [constructor|done].
  - destruct HI as (pre & dr & lt & Hs & Hd & Hl & HO). exists pre, dr, lt. do 3 (split; [done|]). split; [|exact HO]. destruct c; cbn; auto.
  - destruct HI as (_ & pre & dr & Hs & Hd & HO). exists pre, dr, []. cbn [out] in *. rewrite HO, !app_nil_r.
    do 2 (split; [done|]). split; [constructor|]. split; [cbn; auto|done].
  - destruct HI as (_ & pre & dr & Hs & Hd & HO). exists pre, dr, []. cbn [out] in *. rewrite HO, !app_nil_r.
    do 2 (split; [done|]). split; [constructor|]. split; [cbn; auto|done].
  - destruct HI as (pre & dr & lt & Hs & Hd & Hl & Hr & HO). cbn [out] in *. rewrite HO.
    exists (pre ++ dr ++ status_of b ++ lt ++ [Close]), []. rewrite app_nil_r, <- !app_assoc. split; [by eapply ct_served|]. split; [constructor|done].
Qed.

Lemma session_inv_reachable st : reachable_state st -> session_inv st.
Proof.
  unfold reachable_state. intros Hr. pose proof session_inv_init as HI.
  induction Hr as [|x y z [ev Hxy] _ IH]; [done|]. apply IH. by eapply session_inv_step.
Qed.

(** Counting actions. *)
Definition starts (o : list action) : list (Request * gostring) :=
  omap (fun a => match a with Start r gp => Some (r, gp) | _ => None end) o.
Definition exits (o : list action) : list Z :=
  omap (fun a => match a with ExitStatus n => Some n | _ => None end) o.
Definition closes (o : list action) : nat :=
  length (List.filter (fun a => match a with Close => true | _ => false end) o).
Definition accepted (o : list action) : list sreq :=
  omap (fun a => match a with Reply rq true => Some rq | _ => None end) o.

Lemma refusals_counts l :
  refusals l -> starts l = [] /\ exits l = [] /\ closes l = 0%nat /\ accepted l = [].
Proof. induction 1 as [|a l [rq ->] _ IH]; [done|]. exact IH. Qed.

Lemma reply_counts rq b :
  starts (reply rq b) = [] /\ exits (reply rq b) = [] /\ closes (reply rq b) = 0%nat /\
  Forall (fun q => q = rq) (accepted (reply rq b)).
Proof. unfold reply. destruct (WantReply rq), b; repeat constructor. Qed.

Lemma counts_app l k :
  starts (l ++ k) = starts l ++ starts k /\ exits (l ++ k) = exits l ++ exits k /\
  closes (l ++ k) = (closes l + closes k)%nat /\ accepted (l ++ k) = accepted l ++ accepted k.
Proof.
  unfold starts, exits, closes, accepted. rewrite !omap_app.
  split; [done|]. split; [done|]. split; [|done].
  by rewrite List.filter_app, length_app.
Qed.

Lemma env_prefix_counts gp o :
  env_prefix gp o -> starts o = [] /\ exits o = [] /\ closes o = 0%nat /\
  Forall (fun q => Type_ q = go "env") (accepted o) /\ (length (accepted o) <= 1)%nat.
Proof.
  intros [[_ ->]|(_ & rq & HT & _ & ->)]; [repeat constructor|].
  unfold reply. destruct (WantReply rq); repeat constructor; done.
Qed.

Lemma served_counts r gp o :
  served_prefix r gp o ->
  starts o = [(r, gp)] /\ exits o = [] /\ closes o = 0%nat /\
  Forall (fun q => Type_ q = go "env" \/ Type_ q = go "exec") (accepted o) /\
  (length (accepted o) <= 2)%nat.
Proof.
  intros (pre & rq & Hp & [HT _] & ->).
  destruct (env_prefix_counts _ _ Hp) as (S1 & E1 & C1 & A1 & L1).
  destruct (reply_counts rq true) as (S2 & E2 & C2 & A2).
  destruct (counts_app pre (reply rq true ++ [Start r gp])) as (-> & -> & -> & ->).
  destruct (counts_app (reply rq true) [Start r gp]) as (-> & -> & -> & ->).
  rewrite S1, E1, C1, S2, E2, C2. split; [done|]. split; [done|]. split; [done|]. split.
  - apply Forall_app. split; [eapply Forall_impl; [exact A1|]; auto|].
    apply Forall_app. split; [|constructor]. eapply Forall_impl; [exact A2|]. intros q ->. by right.
  - rewrite !length_app. assert (length (accepted (reply rq true)) <= 1)%nat
      by (unfold reply; destruct (WantReply rq); simpl; lia). simpl. lia.
Qed.

Lemma closed_counts err o :
  closed_trace err o -> closes o = 1%nat /\ (length (starts o) <= 1)%nat /\ (length (exits o) <= 1)%nat /\
  (forall r gp, (r, gp) ∈ starts o -> exists pre, served_prefix r gp pre) /\
  Forall (fun q => Type_ q = go "env" \/ Type_ q = go "exec") (accepted o) /\
  (length (accepted o) <= 2)%nat.
Proof.
  intros [e gp pre refused Hp Hr|err' r gp pre dr b lt Hs Hd Hlt _].
  - destruct (env_prefix_counts _ _ Hp) as (S1 & E1 & C1 & A1 & L1).
    destruct (refusals_counts _ Hr) as (S2 & E2 & C2 & A2).
    destruct (counts_app pre (refused ++ [Close])) as (-> & -> & -> & ->).
    destruct (counts_app refused [Close]) as (-> & -> & -> & ->).
    rewrite S1, E1, C1, S2, E2, C2, A2. cbn [app]. change (accepted [Close]) with (@nil sreq).
    rewrite app_nil_r. split; [done|]. split; [simpl; lia|]. split; [simpl; lia|].
    split; [intros ? ? Hin; by apply elem_of_nil in Hin|]. split; [|lia].
    eapply Forall_impl; [exact A1|]. auto.
  - destruct (served_counts _ _ _ Hs) as (S1 & E1 & C1 & A1 & L1).
    destruct (refusals_counts _ Hd) as (S2 & E2 & C2 & A2).
    destruct (refusals_counts _ Hlt) as (S4 & E4 & C4 & A4). set (fin := status_of b).
    assert (starts (fin ++ lt ++ [Close]) = [] /\ (length (exits (fin ++ lt ++ [Close])) <= 1)%nat /\
            closes (fin ++ lt ++ [Close]) = 1%nat /\ accepted (fin ++ lt ++ [Close]) = []) as (S3 & E3 & C3 & A3).
    { destruct (counts_app fin (lt ++ [Close])) as (-> & -> & -> & ->). destruct (counts_app lt [Close]) as (-> & -> & -> & ->).
      rewrite S4, E4, C4, A4. subst fin. by destruct b; repeat constructor. }
    destruct (counts_app pre (dr ++ fin ++ lt ++ [Close])) as (-> & -> & -> & ->).
    destruct (counts_app dr (fin ++ lt ++ [Close])) as (-> & -> & -> & ->).
    rewrite S1, E1, C1, S2, C2, A2, S3, C3, A3, E2. cbn [app].
    split; [done|]. split; [simpl; lia|]. split; [done|]. split.
    + intros r' gp' [= -> ->]%list_elem_of_singleton. by exists pre.
    + by rewrite !app_nil_r.
Qed.

(** The same before the close. *)
Lemma running_counts r gp pre dr b lt :
  served_prefix r gp pre -> refusals dr -> refusals lt ->
  let o := pre ++ dr ++ status_of b ++ lt in
  closes o = 0%nat /\ (length (starts o) <= 1)%nat /\ (length (exits o) <= 1)%nat /\
  (forall r gp, (r, gp) ∈ starts o -> exists pre, served_prefix r gp pre) /\
  Forall (fun q => Type_ q = go "env" \/ Type_ q = go "exec") (accepted o) /\ (length (accepted o) <= 2)%nat.
Proof.
  intros Hs Hd Hl o. destruct (closed_counts (match b with Some e => e | None => Some ctxErr end) (o ++ [Close])) as (C1 & S1 & E1 & R1 & A1 & L1).
  { unfold o. rewrite <- !app_assoc. apply (ct_served _ r gp); [done..|]. destruct b; cbn; auto. }
  destruct (counts_app o [Close]) as (HS & HE & HC & HA). rewrite HS in S1, R1. rewrite HE in E1. rewrite HC in C1. rewrite HA in A1, L1.
  cbn in *. rewrite app_nil_r in *. split; [lia|done].
Qed.

(** C11. The protocol of a git session.  When the handler has returned, what
    the client saw is one of two things: an optional accepted environment
    request, at most refusals, and the close; or an optional accepted
    environment request, one accepted exec request whose command parsed and was
    authorised, the backend started for exactly that request, refusals of
    everything sent meanwhile, the exit status of the backend (zero iff it succeeded) unless
    the handler returned because the connection was cancelled or the stream of requests
    ended, again refusals, and the close.  Only refusals can follow.  The handler returns the error
    of the backend, of the context or of the stream accordingly. *)
Theorem HandleSession_protocol st err d :
  reachable_state st -> ph st = Finished err d ->
  exists o late, closed_trace err o /\ refusals late /\ out st = o ++ late.
Proof.
  intros Hr%session_inv_reachable HP. unfold session_inv in Hr. by rewrite HP in Hr.
Qed.

(** At every moment of a session: at most one backend was started, only
    after an exec request that parsed and was authorised, with the empty or the
    version-2 protocol setting; at most one exit status was sent; the channel
    is closed exactly once, when the handler returns and not before; and only
    env and exec requests, at most one of each, were accepted. *)
Lemma HandleSession_at_most_once st :
  reachable_state st ->
  closes (out st) = (match ph st with Finished _ _ => 1 | _ => 0 end)%nat /\
  (length (starts (out st)) <= 1)%nat /\ (length (exits (out st)) <= 1)%nat /\
  (forall r gp, (r, gp) ∈ starts (out st) -> exists pre, served_prefix r gp pre) /\
  Forall (fun q => Type_ q = go "env" \/ Type_ q = go "exec") (accepted (out st)) /\
  (length (accepted (out st)) <= 2)%nat.
Proof.
  intros Hr%session_inv_reachable. destruct st as [p c o]. unfold session_inv in Hr. cbn [ph out] in *.
  destruct p as [env gp|r gp b d|r gp e d|r gp b err d|err d].
  - destruct Hr as (_ & Hp & _). destruct (env_prefix_counts _ _ Hp) as (-> & -> & -> & A & L).
    split; [done|]. split; [simpl; lia|]. split; [simpl; lia|].
    split; [intros ? ? Hin; by apply elem_of_nil in Hin|]. split; [|lia].
    eapply Forall_impl; [exact A|]. auto.
  - destruct Hr as (_ & pre & dr & Hs & Hd & ->). pose proof (running_counts r gp pre dr None [] Hs Hd ltac:(constructor)) as Hc.
    cbn [status_of app] in Hc. by rewrite app_nil_r in Hc.
  - destruct Hr as (pre & dr & lt & Hs & Hd & Hl & ->). by apply (running_counts r gp pre dr (Some e) lt).
  - destruct Hr as (pre & dr & lt & Hs & Hd & Hl & _ & ->). by apply (running_counts r gp pre dr b lt).
  - destruct Hr as (o' & late & Hc & Hl & ->).
    destruct (closed_counts _ _ Hc) as (C1 & S1 & E1 & R1 & A1 & L1).
    destruct (refusals_counts _ Hl) as (S2 & E2 & C2 & A2).
    destruct (counts_app o' late) as (-> & -> & -> & ->).
    rewrite S2, E2, C2, A2, !app_nil_r, Nat.add_0_r. done.
Qed.

(** ** A client that follows the protocol *)

Lemma unmarshalExec_marshal c :
  len (MarshalMsg (Mk_gitExecMsg c)) < 2 ^ 32 -> unmarshalExec (MarshalMsg (Mk_gitExecMsg c)) = Ok c.
Proof. intros Hl. unfold unmarshalExec. by rewrite UnmarshalMsg_MarshalMsg. Qed.

(** The requests a git client sends. *)
Definition env_request : sreq :=
  MkSReq (go "env") true (MarshalMsg (Mk_gitEnvMsg gitProtocolEnvName gitProtocolEnvValue)).
Definition exec_request (c p : gostring) : sreq :=
  MkSReq (go "exec") true (MarshalMsg (Mk_gitExecMsg (quoted_command c p))).

(** ** Runs without interference

    A run in which the client sends the requests [rqs] and then waits, the backend returns
    [e], and nothing else happens: no timeout, no cancellation, and the client does not
    close the stream.  Every order of the steps of the goroutines is a run. *)
Definition undisturbed (e : option error) (x y : hstate * list sreq) : Prop :=
  exists ev, hstep (fst x) ev (fst y) /\
    match ev with
    | evRequest rq => snd x = rq :: snd y
    | evBackend e' => e' = e /\ snd y = snd x
    | evInternal => snd y = snd x
    | evCancel | evTimeout | evStreamClosed => False
    end.

(** The states of such a run, when the two requests are accepted. *)
Definition on_course (e : option error) (rqs : list sreq) (r : Request) (x : hstate * list sreq) : Prop :=
  let '(HState p c o, rest) := x in
  c = false /\
  match rqs with
  | [env; exec] =>
      let gp := gitProtocolEnvValue in
      let started := [Reply env true; Reply exec true; Start r gp] in
      match p with
      | PreExec false g => g = [] /\ rest = rqs /\ o = []
      | PreExec true g => g = gp /\ rest = [exec] /\ o = [Reply env true]
      | Running r' g b d => r' = r /\ g = gp /\ (b = None \/ b = Some e) /\ d = Draining /\ rest = [] /\ o = started
      | Exiting r' g e' d => e' = e /\ d = Draining /\ rest = [] /\ o = started ++ [ExitStatus (exit_code e)]
      | Returning r' g b err d => err = e /\ d <> StreamClosed /\ rest = [] /\ o = started ++ [ExitStatus (exit_code e)]
      | Finished err d => err = e /\ d <> StreamClosed /\ rest = [] /\ o = started ++ [ExitStatus (exit_code e); Close]
      end
  | _ => False
  end.

Definition to_go (p : phase) : nat :=
  let draining := match drain_of p with Draining => 1 | _ => 0 end%nat in
  match p with
  | PreExec false _ => 16 | PreExec true _ => 14
  | Running _ _ None _ => 10 + draining | Running _ _ (Some _) _ => 8 + draining
  | Exiting _ _ _ _ => 6 + draining | Returning _ _ _ _ _ => 4 + draining | Finished _ _ => draining
  end.

Section Course.
Context (c op p : gostring) (r : Request) (e : option error).
Hypothesis Hcmd : gitHyphenCommand c = Some (c, op).
Hypothesis Hpath : repo_path p.
Hypothesis Hlen : len (Payload (exec_request c p)) < 2 ^ 32.
Hypothesis Hauth : Authorize srv perms (MkRequest c op p []) = Ok r.
Abbreviation client_requests := [env_request; exec_request c p].

Lemma env_accepted : handle_request false [] env_request = (PreExec true gitProtocolEnvValue, [Reply env_request true]).
Proof. done. Qed.
Lemma exec_accepted :
  handle_request true gitProtocolEnvValue (exec_request c p)
  = (Running r gitProtocolEnvValue None Draining, [Reply (exec_request c p) true; Start r gitProtocolEnvValue]).
Proof using Hcmd Hpath Hlen Hauth.
  unfold handle_request. cbn [Type_ exec_request Payload].
  change (go "exec" =s go "env") with false. change (go "exec" =s go "exec") with true.
  rewrite unmarshalExec_marshal, ParseGitCommand_print with (o := op) by done. by rewrite Hauth.
Qed.

(** Every step stays on course and comes closer to the end; only the end has none. *)
Lemma course_step x y :
  on_course e client_requests r x -> undisturbed e x y ->
  on_course e client_requests r y /\ (to_go (ph (fst y)) < to_go (ph (fst x)))%nat.
Proof using Hcmd Hpath Hlen Hauth.
  destruct x as [[q cn o] rest], y as [st' rest']. intros [-> Hc] (ev & Hst & Hev). cbn [fst snd] in *.
  inversion Hst; subst; cbn [fst snd ph] in *; try done.
  - destruct env.
    + destruct Hc as (-> & -> & ->). injection Hev as <- <-. rewrite exec_accepted. cbn. split; [|lia]. by repeat split; auto.
    + destruct Hc as (-> & -> & ->). injection Hev as <- <-. rewrite env_accepted. cbn. split; [|lia]. done.
  - destruct q as [[] g|r' g b d|r' g e' d|r' g b err d|err d]; [done..| | | |].
    + destruct Hc as (_ & _ & _ & _ & -> & _). done.
    + destruct Hc as (_ & _ & -> & _). done.
    + destruct Hc as (_ & _ & -> & _). done.
    + destruct Hc as (_ & _ & -> & _). done.
  - destruct q as [[] g|r' g b d|r' g e' d|r' g b err d|err d]; [done..| |]; cbn [drain_of] in *; subst d.
    + destruct Hc as (-> & _ & -> & ->). cbn. split; [done|lia].
    + destruct Hc as (-> & _ & -> & ->). cbn. split; [done|lia].
  - destruct Hev as [-> ->]. destruct Hc as (-> & -> & _ & -> & -> & ->). cbn. split; [|lia]. by repeat split; auto.
  - destruct Hc as (-> & -> & [|[= ->]] & -> & -> & ->); [done|]. cbn. split; [done|lia].
  - destruct Hc as (-> & -> & -> & ->). cbn. split; [done|lia].
  - destruct Hc as (_ & _ & _ & [=] & _).
  - destruct Hc as (-> & Hd & -> & ->). cbn. split; [done|destruct d; cbn; lia].
Qed.
Lemma course_progress x :
  on_course e client_requests r x ->
  (exists y, undisturbed e x y) \/
  (ph (fst x) = Finished e Stopped /\ cancelled (fst x) = false /\
   out (fst x) = [Reply env_request true; Reply (exec_request c p) true; Start r gitProtocolEnvValue; ExitStatus (exit_code e); Close]).
Proof using Hcmd Hpath Hlen Hauth.
  destruct x as [[q cn o] rest]. intros [-> Hc]. cbn [fst snd ph cancelled out].
  destruct q as [[] g|r' g b d|r' g e' d|r' g b err d|err d].
  - destruct Hc as (-> & -> & ->). left. eexists (_, []). eexists. split; [apply (h_request _ _ _ _ (exec_request c p))|done].
  - destruct Hc as (-> & -> & ->). left. eexists (_, [exec_request c p]). eexists. split; [apply (h_request _ _ _ _ env_request)|done].
  - destruct Hc as (-> & -> & [-> | ->] & -> & -> & ->); left; eexists (_, []); eexists;
      [split; [apply (h_backend _ _ _ _ _ e)|done]|split; [apply h_exit|done]].
  - destruct Hc as (-> & -> & -> & ->). left. eexists (_, []). eexists. split; [apply h_return|done].
  - destruct Hc as (-> & Hd & -> & ->). left. eexists (_, []). eexists. split; [apply h_close|done].
  - destruct Hc as (-> & Hd & -> & ->). destruct d; [left|done|by right]. eexists (_, []). eexists. split; [by apply h_drain_stop|done].
Qed.
Lemma course_sn x : on_course e client_requests r x -> sn (undisturbed e) x.
Proof using Hcmd Hpath Hlen Hauth.
  remember (to_go (ph (fst x))) as n eqn:En. revert x En. induction (lt_wf n) as [n _ IH]. intros x -> Hx. constructor.
  intros y Hxy. destruct (course_step x y Hx Hxy) as [Hy Hlt]. by eapply IH.
Qed.
End Course.

(** C38. Authorised clients are served.  If the server authorises service [c] on path [p]
    and the client asks for protocol version 2, sends the command as git does and waits, then,
    whatever the order in which the goroutines take their steps, as long as nothing times
    out or is cancelled and the backend returns (with the error [e], if any), every run
    of the handler ends (there is no infinite one), and it can only end after the handler has
    accepted both requests, run the backend for that request with that protocol, reported
    its result, closed the channel and returned [e]. *)
Theorem HandleSession_serves c o p r e :
  gitHyphenCommand c = Some (c, o) -> repo_path p -> len (Payload (exec_request c p)) < 2 ^ 32 ->
  Authorize srv perms (MkRequest c o p []) = Ok r ->
  let start := (session_init, [env_request; exec_request c p]) in
  sn (undisturbed e) start /\
  forall x, rtc (undisturbed e) start x ->
    reachable_state (fst x) /\
    (nf (undisturbed e) x ->
     ph (fst x) = Finished e Stopped /\
     out (fst x) = [Reply env_request true; Reply (exec_request c p) true; Start r gitProtocolEnvValue;
       ExitStatus (exit_code e); Close]).
Proof.
  intros Hc Hp Hl HA start.
  assert (on_course e [env_request; exec_request c p] r start) as H0.
  { unfold start, session_init. rewrite (proj1 (proj1 (Authorize_Ok _ _ _ _) HA)). done. }
  split; [by eapply course_sn|]. intros x Hx.
  assert (on_course e [env_request; exec_request c p] r x /\ reachable_state (fst x)) as [Hon Hr].
  { assert (reachable_state (fst start)) as Hrs by apply rtc_refl. revert H0 Hrs. clearbody start.
    induction Hx as [x|x y z Hxy _ IH]; [done|]. intros Hox Hrx. apply IH; [by eapply course_step|].
    destruct Hxy as (ev & Hst & _). eapply rtc_r; [exact Hrx|]. by exists ev. }
  split; [done|]. intros Hnf. edestruct course_progress as [Hy|(Hph & _ & Ho)]; [exact Hc|exact Hp|exact Hl|exact HA|exact Hon| |done].
  by destruct Hnf.
Qed.
End Session.

(** ** A concrete session *)
Definition sample_perms : option Permissions := Some (git_permissions (go "SHA256:r") []).
Definition ctxCanceled : error := errors_New (go "context canceled").
Definition sample_exec : sreq := exec_request (go "git-upload-pack") (go "a.git").
Definition team_exec : sreq := exec_request (go "git-upload-pack") (go "team/project.git").
Definition team_request : Request :=
  MkRequest (go "git-upload-pack") OperationRead (go "team/project.git") (go "team/project.git").

(** Reading a key's request on the sample server. *)
Lemma team_exec_accepted :
  @handle_request ascii_tables sample_server sample_perms false [] team_exec
  = (Running team_request [] None Draining, [Reply team_exec true; Start team_request []]).
Proof. vm_compute. reflexivity. Qed.

(** Served, with an exec refused while the backend runs and another after the status. *)
Lemma sample_run :
  @reachable_state ascii_tables sample_server sample_perms ctxCanceled
    (HState (Finished None Draining) false
       [Reply team_exec true; Start team_request []; Reply sample_exec false; ExitStatus 0; Reply sample_exec false; Close]).
Proof.
  assert (session_init sample_perms = HState (PreExec false []) false []) as HI
    by (vm_compute; reflexivity).
  unfold reachable_state. rewrite HI.
  pose proof (@h_request ascii_tables sample_server sample_perms ctxCanceled
                false [] false [] team_exec) as Hreq.
  rewrite team_exec_accepted in Hreq. cbn [fst snd app] in Hreq.
  eapply rtc_l; [eexists; exact Hreq|].
  eapply rtc_l; [eexists; by apply (h_drain _ _ _ _ _ _ sample_exec)|].
  eapply rtc_l; [eexists; apply (h_backend _ _ _ _ _ _ _ _ None)|].
  eapply rtc_l; [eexists; apply h_exit|].
  eapply rtc_l; [eexists; by apply (h_drain _ _ _ _ _ _ sample_exec)|].
  eapply rtc_l; [eexists; apply h_return|]. eapply rtc_l; [eexists; apply h_close|]. apply rtc_refl.
Qed.

Lemma HandleSession_protocol_witness :
  exists o late, @closed_trace ascii_tables sample_server sample_perms ctxCanceled None o /\ refusals late /\
    [Reply team_exec true; Start team_request []; Reply sample_exec false; ExitStatus 0; Reply sample_exec false; Close] = o ++ late.
Proof.
  exact (@HandleSession_protocol ascii_tables sample_server sample_perms ctxCanceled _ None Draining
           sample_run eq_refl).
Defined.

Lemma HandleSession_serves_witness :
  sn (@undisturbed ascii_tables sample_server sample_perms ctxCanceled None) (session_init sample_perms, [env_request; team_exec]).
Proof.
  refine (proj1 (@HandleSession_serves ascii_tables sample_server sample_perms ctxCanceled
           (go "git-upload-pack") OperationRead (go "team/project.git") team_request None _ _ _ _));
    [reflexivity| |reflexivity|vm_compute; reflexivity].
  exists [go "team"; go "project.git"]. split; [done|]. split; [|reflexivity].
  repeat constructor; done.
Defined.
