(* ===== verification/GitBackend.v ===== *)
(** * Running local git processes: the slot accounting of
    modules/gitserver/auth.go, [serveLocal]'s use of it
    (backend_local_unix.go), and the life cycle of a child process in
    backend_local_lifecycle.go.

    Sessions run concurrently, so both parts are step relations: over the
    server and the set of sessions holding a slot, and over one child process
    with its observer and its two output copies.  Proved: never more local
    processes than configured, no slot lost or returned twice; a child is
    reaped exactly once, after its exit was observed, and its process group is
    never signalled after that. *)
From Stdlib Require Import Ascii String ZArith Lia.
From stdpp Require Import base gmap strings list.
From S2P Require Import Prelude GoStrings GoPath GitPath GitRequest GitConfig GitServer.
Local Open Scope Z_scope.

(** ** Slots *)
Definition errLocalSlotsBusy : error :=
  errors_New (go "gitserver: local git-shell process limit reached").

Definition set_localSlots (ch : option slotChan) (s : Server) : Server :=
  MkServer (config s) (keysByFP s) (repos s) ch (preExecTimeout s).

Definition errUnknownBackend : error := errors_New (go "gitserver: unknown backend").

(** [defaultBackendRunner]; the arguments are what the two backends would
    return for this request. *)
Definition defaultBackendRunner (srv : Server) (serveLocal serveSSH : option error) : option error :=
  if gc_Backend (config srv) =s BackendLocal then serveLocal
  else if gc_Backend (config srv) =s BackendSSH then serveSSH
  else Some errUnknownBackend.

Lemma defaultBackendRunner_known srv l r :
  backend_ok (config srv) ->
  defaultBackendRunner srv l r = if gc_Backend (config srv) =s BackendLocal then l else r.
Proof. unfold defaultBackendRunner. by intros [[-> _]|[-> _]]. Qed.

(** A send succeeds when the buffer has room. *)
Definition slot_send (ch : slotChan) : option slotChan :=
  if slotLen ch <? slotCap ch then Some (MkSlots (slotCap ch) (slotLen ch + 1)) else None.
(** A receive succeeds when the buffer is not empty. *)
Definition slot_recv (ch : slotChan) : option slotChan :=
  if 0 <? slotLen ch then Some (MkSlots (slotCap ch) (slotLen ch - 1)) else None.

(** [acquireLocalSlot]: the outcomes a call can have now; none when it blocks.
    [ctxErr] is the context's error if it is cancelled. *)
Definition acquireLocalSlot (s : Server) (ctxErr : option error) :
    list (Server * (bool * option error)) :=
  match localSlots s with
  | None => [(s, (true, None))]
  | Some ch =>
      if gc_RefuseWhenBusy (config s) then
        match slot_send ch with
        | Some ch' => [(set_localSlots (Some ch') s, (true, None))]
        | None => [(s, (false, Some errLocalSlotsBusy))]
        end
      else
        (match slot_send ch with
         | Some ch' => [(set_localSlots (Some ch') s, (true, None))]
         | None => []
         end) ++
        (match ctxErr with
         | Some e => [(s, (false, Some e))]
         | None => []
         end)
  end.

Definition releaseLocalSlot (s : Server) : Server :=
  match localSlots s with
  | None => s
  | Some ch => match slot_recv ch with
               | Some ch' => set_localSlots (Some ch') s
               | None => s
               end
  end.

Definition tryAcquireLocalSlot (s : Server) : Server * bool :=
  match localSlots s with
  | None => (s, true)
  | Some ch => match slot_send ch with
               | Some ch' => (set_localSlots (Some ch') s, true)
               | None => (s, false)
               end
  end.

(** Sessions in [serveLocal]: a session that acquired a slot holds it until the
    deferred release, on every return path; one that did not, never releases. *)
Record slotsys := SlotSys { sys_server : Server; holders : gset nat }.

Inductive slot_step : slotsys -> slotsys -> Prop :=
| ss_acquire s hs i ctxErr s' :
    i ∉ hs -> (s', (true, None)) ∈ acquireLocalSlot s ctxErr ->
    slot_step (SlotSys s hs) (SlotSys s' ({[i]} ∪ hs))
| ss_refused s hs i ctxErr s' e :
    i ∉ hs -> (s', (false, Some e)) ∈ acquireLocalSlot s ctxErr ->
    slot_step (SlotSys s hs) (SlotSys s' hs)
| ss_release s hs i :
    i ∈ hs -> slot_step (SlotSys s hs) (SlotSys (releaseLocalSlot s) (hs ∖ {[i]})).

Definition slots_inv (x : slotsys) : Prop :=
  (forall ch, localSlots (sys_server x) = Some ch ->
     slotCap ch = gc_MaxGitShellProcesses (config (sys_server x)) /\
     slotLen ch = Z.of_nat (base.size (holders x)) /\ slotLen ch <= slotCap ch) /\
  (localSlots (sys_server x) = None -> gc_MaxGitShellProcesses (config (sys_server x)) <= 0).

Lemma slot_send_Some ch ch' :
  slot_send ch = Some ch' ->
  slotCap ch' = slotCap ch /\ slotLen ch' = slotLen ch + 1 /\ slotLen ch' <= slotCap ch'.
Proof. unfold slot_send. destruct (Z.ltb_spec (slotLen ch) (slotCap ch)); [|done]. intros [= <-]. cbn. lia. Qed.

Lemma acquire_true s ctxErr s' :
  (s', (true, None)) ∈ acquireLocalSlot s ctxErr ->
  (localSlots s = None /\ s' = s) \/
  (exists ch ch', localSlots s = Some ch /\ slot_send ch = Some ch' /\ s' = set_localSlots (Some ch') s).
Proof.
  unfold acquireLocalSlot. destruct (localSlots s) as [ch|].
  - right. destruct (gc_RefuseWhenBusy (config s)), (slot_send ch) as [ch'|] eqn:E, ctxErr; set_solver.
  - set_solver.
Qed.

Lemma acquire_false s ctxErr s' e : (s', (false, Some e)) ∈ acquireLocalSlot s ctxErr -> s' = s.
Proof.
  unfold acquireLocalSlot. destruct (localSlots s) as [ch|]; [|set_solver].
  destruct (gc_RefuseWhenBusy (config s)), (slot_send ch), ctxErr; set_solver.
Qed.

Lemma size_add (i : nat) (hs : gset nat) : i ∉ hs -> base.size ({[i]} ∪ hs) = S (base.size hs).
Proof. intros Hi. rewrite size_union by set_solver. by rewrite size_singleton. Qed.

Lemma size_remove (i : nat) (hs : gset nat) : i ∈ hs -> base.size hs = S (base.size (hs ∖ {[i]})).
Proof.
  intros Hi. rewrite <- (size_add i) by set_solver. f_equal.
  apply leibniz_equiv. rewrite union_comm_L. apply set_equiv. intros x.
  destruct (decide (x = i)); set_solver.
Qed.

Lemma slots_inv_step x y : slots_inv x -> slot_step x y -> slots_inv y /\ config (sys_server y) = config (sys_server x).
Proof.
  intros [H1 H2] Hst. destruct Hst as [s hs i c s' Hi HA|s hs i c s' e Hi HA|s hs i Hi].
  - apply acquire_true in HA as [[HN ->]|(ch & ch' & HL & HS & ->)]; [|].
    + split; [|done]. split; [intros ch Hch; cbn in *; congruence|exact H2].
    + split; [|done]. split; cbn in *; [|done]. intros ch0 [= <-].
      destruct (H1 ch HL) as (HC & HE & HB). apply slot_send_Some in HS as (S1 & S2 & S3).
      rewrite size_add by done. lia.
  - apply acquire_false in HA as ->. done.
  - unfold releaseLocalSlot. cbn in *. destruct (localSlots s) as [ch|] eqn:EL.
    + destruct (H1 ch eq_refl) as (HC & HE & HB). pose proof (size_remove i hs Hi) as HR.
      unfold slot_recv. rewrite (proj2 (Z.ltb_lt _ _)) by lia.
      split; [|done]. split; cbn; [|done]. intros ch0 [= <-]. cbn. lia.
    + split; [|done]. split; [intros ch Hch; cbn in *; congruence|intros _; by apply H2].
Qed.

Section Slots.
Context `{UnicodeTables} `{SSHKeys}.

Lemma slots_inv_new c c' file s :
  NewServer (Some c) file = (c', Ok s) -> slots_inv (SlotSys s ∅).
Proof.
  unfold NewServer. destruct (check_and_fill c) as [c1 [e|]]; [done|].
  set (slots := if 0 <? gc_MaxGitShellProcesses c1 then _ else _).
  assert (slots_inv (SlotSys (MkServer c1 ∅ ∅ slots 0) ∅)) as HI.
  { subst slots. unfold slots_inv. cbn. destruct (Z.ltb_spec 0 (gc_MaxGitShellProcesses c1)).
    - split; [intros ch [= <-]; cbn; rewrite size_empty; lia|done].
    - split; [done|lia]. }
  destruct (gc_WatchKeys c1); [by intros [= <- <-]|].
  destruct (loadAuthorizedKeys _ _) as [s1 [e|]] eqn:EL; [done|]. intros [= <- <-].
  apply loadAuthorizedKeys_Ok in EL as (data & m & _ & _ & ->). exact HI.
Qed.

(** Bounded concurrency: whatever sessions come, wait, are refused and
    leave, in any order, the sessions holding a slot never outnumber
    MaxGitShellProcesses (when that is positive), and the channel always holds
    one token per such session, so a release never finds it empty and the full
    capacity is available again when they have left. *)
Lemma local_slots_bounded c c' file s x :
  NewServer (Some c) file = (c', Ok s) -> rtc slot_step (SlotSys s ∅) x ->
  config (sys_server x) = config s /\
  (0 < gc_MaxGitShellProcesses (config s) ->
   Z.of_nat (base.size (holders x)) <= gc_MaxGitShellProcesses (config s) /\
   localSlots (sys_server x) = Some (MkSlots (gc_MaxGitShellProcesses (config s))
                                             (Z.of_nat (base.size (holders x))))).
Proof.
  intros HN Hr.
  assert (forall y, rtc slot_step y x -> slots_inv y ->
            slots_inv x /\ config (sys_server x) = config (sys_server y)) as HI.
  { intros y Hy. induction Hy as [|y z w Hyz _ IH]; [done|]. intros Hinv.
    apply (slots_inv_step y z) in Hyz as [Hz Hc]; [|done]. rewrite <- Hc. by apply IH. }
  destruct (HI _ Hr (slots_inv_new _ _ _ _ HN)) as [[H1 H2] HC]. cbn in HC.
  split; [done|]. intros Hpos. rewrite HC in H1, H2.
  destruct (localSlots (sys_server x)) as [[cap n]|]; [|specialize (H2 eq_refl); lia].
  destruct (H1 _ eq_refl) as (E1 & E2 & E3). cbn in *. subst. done.
Qed.
End Slots.

(** ** Waiting for a child process *)

(** What the handler does to the child and its standard input. *)
Inductive paction := CloseStdin | TerminateGroup | Reap.

(** Where [waitLocalProcess] is: in its first select; joining the observer after
    cancelling; in [waitLocalOutput], with the results taken so far; returned. *)
Inductive wphase :=
| WaitExit
| JoinObserver
| WaitOutput (stdoutTaken stderrTaken : option (option error))
| Returned (err : option error).

(** [exitedCh], [stdoutCh], [stderrCh]: the results the observer and the two
    copies have delivered. *)
Record wstate := WState {
  w_phase : wphase;
  w_cancelled : bool;
  exitedCh : option (option error);
  stdoutCh : option (option error);
  stderrCh : option (option error);
  w_out : list paction
}.

Definition wait_init : wstate := WState WaitExit false None None None [].

Section Wait.
(** The error of the cancelled context. *)
Variable ctxErr : error.

Definition observe_error (e : error) : error :=
  errors_wrap (go "gitserver: observe git-shell exit: ") e.

(** [processErr], [stdoutErr], [stderrErr]: the first that is not nil. *)
Definition first_error (processErr stdoutErr stderrErr : option error) : option error :=
  match processErr with
  | Some e => Some e
  | None => match stdoutErr with Some e => Some e | None => stderrErr end
  end.

(** The first select took the observer's result [e]. *)
Definition after_exit (e : option error) (o : list paction) : wphase * list paction :=
  match e with
  | Some err => (Returned (Some (observe_error err)), o ++ [CloseStdin; TerminateGroup; Reap])
  | None => (WaitOutput None None, o ++ [CloseStdin])
  end.

(** Collecting a result that is there, as the non-blocking selects do. *)
Definition collect (taken ch : option (option error)) : option (option error) :=
  match taken with Some e => Some e | None => ch end.

(** [waitLocalOutput] returned; [reapErr] is what reaping returns. *)
Definition after_output (t1 t2 : option (option error)) (reapErr : option error) (o : list paction) :
    wphase * list paction :=
  match t1, t2 with
  | Some e1, Some e2 => (Returned (first_error reapErr e1 e2), o ++ [Reap])
  | _, _ => (Returned (Some ctxErr), o ++ [TerminateGroup; Reap])
  end.

Inductive wstep : wstate -> wstate -> Prop :=
| w_cancel p x so se o : wstep (WState p false x so se o) (WState p true x so se o)
| w_observer p c e so se o :
    wstep (WState p c None so se o) (WState p c (Some e) so se o)
| w_stdout p c x e se o : wstep (WState p c x None se o) (WState p c x (Some e) se o)
| w_stderr p c x so e o : wstep (WState p c x so None o) (WState p c x so (Some e) o)
| w_exited c e so se o :
    wstep (WState WaitExit c (Some e) so se o)
          (WState (fst (after_exit e o)) c (Some e) so se (snd (after_exit e o)))
| w_kill so se o :
    wstep (WState WaitExit true None so se o)
          (WState JoinObserver true None so se (o ++ [CloseStdin; TerminateGroup]))
| w_join c e so se o :
    wstep (WState JoinObserver c (Some e) so se o)
          (WState (Returned (Some ctxErr)) c (Some e) so se (o ++ [Reap]))
| w_take_stdout c x e se t2 o :
    wstep (WState (WaitOutput None t2) c x (Some e) se o)
          (WState (WaitOutput (Some e) t2) c x (Some e) se o)
| w_take_stderr c x so e t1 o :
    wstep (WState (WaitOutput t1 None) c x so (Some e) o)
          (WState (WaitOutput t1 (Some e)) c x so (Some e) o)
| w_output_done c x so se e1 e2 reapErr o :
    wstep (WState (WaitOutput (Some e1) (Some e2)) c x so se o)
          (WState (fst (after_output (Some e1) (Some e2) reapErr o)) c x so se
                  (snd (after_output (Some e1) (Some e2) reapErr o)))
| w_output_cancelled x so se t1 t2 reapErr o :
    (t1 = None \/ t2 = None) ->
    wstep (WState (WaitOutput t1 t2) true x so se o)
          (WState (fst (after_output (collect t1 so) (collect t2 se) reapErr o)) true x so se
                  (snd (after_output (collect t1 so) (collect t2 se) reapErr o))).

Definition wait_reachable : wstate -> Prop := rtc wstep wait_init.

Definition wait_inv (st : wstate) : Prop :=
  match w_phase st with
  | WaitExit => w_out st = []
  | JoinObserver => w_cancelled st = true /\ w_out st = [CloseStdin; TerminateGroup]
  | WaitOutput t1 t2 => w_out st = [CloseStdin] /\ exitedCh st = Some None /\
      (forall e, t1 = Some e -> stdoutCh st = Some e) /\ (forall e, t2 = Some e -> stderrCh st = Some e)
  | Returned err => is_Some (exitedCh st) /\
      ((w_out st = [CloseStdin; Reap] /\ exitedCh st = Some None /\
        exists reapErr e1 e2, stdoutCh st = Some e1 /\ stderrCh st = Some e2 /\
          err = first_error reapErr e1 e2) \/
       (w_out st = [CloseStdin; TerminateGroup; Reap] /\
        ((err = Some ctxErr /\ w_cancelled st = true) \/
         exists e, exitedCh st = Some (Some e) /\ err = Some (observe_error e))))
  end.

Lemma after_output_inv c x so se t1 t2 reapErr o :
  o = [CloseStdin] -> x = Some None ->
  (forall e, t1 = Some e -> so = Some e) -> (forall e, t2 = Some e -> se = Some e) ->
  (t1 = None \/ t2 = None -> c = true) ->
  wait_inv (WState (fst (after_output t1 t2 reapErr o)) c x so se (snd (after_output t1 t2 reapErr o))).
Proof.
  intros -> -> H1 H2 Hc. unfold after_output, wait_inv.
  destruct t1 as [e1|]; [destruct t2 as [e2|]|]; cbn; (split; [done|]).
  - left. split; [done|]. split; [done|]. exists reapErr, e1, e2. auto.
  - right. split; [done|]. left. auto.
  - right. split; [done|]. left. auto.
Qed.

Lemma wait_inv_step st st' : wait_inv st -> wstep st st' -> wait_inv st'.
Proof.
  intros HI Hst. destruct Hst.
  - unfold wait_inv in *. cbn in *. destruct p; naive_solver.
  - unfold wait_inv in *. cbn in *. destruct p; naive_solver.
  - unfold wait_inv in *. cbn in *. destruct p; naive_solver.
  - unfold wait_inv in *. cbn in *. destruct p; naive_solver.
  - unfold wait_inv in *. cbn in HI. subst o. destruct e as [e|]; cbn; [|naive_solver].
    split; [done|]. right. split; [done|]. right. eauto.
  - unfold wait_inv in *. cbn in *. by subst o.
  - unfold wait_inv in *. cbn in *. destruct HI as [-> ->]. split; [done|]. right. auto.
  - unfold wait_inv in *. cbn in *. naive_solver.
  - unfold wait_inv in *. cbn in *. naive_solver.
  - destruct HI as (HO & HX & H1 & H2). apply after_output_inv; try done. by intros [?|?].
  - destruct HI as (HO & HX & H1 & H2). cbn in *. apply after_output_inv; try done.
    + intros e. unfold collect. destruct t1; [|done]. intros [= ->]. auto.
    + intros e. unfold collect. destruct t2; [|done]. intros [= ->]. auto.
Qed.

Lemma wait_inv_reachable st : wait_reachable st -> wait_inv st.
Proof.
  unfold wait_reachable. intros Hr. assert (wait_inv wait_init) as HI by done.
  induction Hr as [|x y z Hxy _ IH]; [done|]. apply IH. by eapply wait_inv_step.
Qed.

(** The life of a child process.  At every moment the handler has done a
    prefix of: close stdin, signal the group (or not), reap; so it reaps at
    most once, never before the observer reported the exit, and never signals
    after reaping.  When it has returned, the child has been reaped; success
    means that no signal was sent, both outputs were copied without error and
    the process ended well. *)
Lemma waitLocalProcess_lifecycle st :
  wait_reachable st ->
  (w_out st `prefix_of` [CloseStdin; Reap] \/ w_out st `prefix_of` [CloseStdin; TerminateGroup; Reap]) /\
  (Reap ∈ w_out st -> is_Some (exitedCh st) /\ exists err, w_phase st = Returned err) /\
  (forall err, w_phase st = Returned err -> Reap ∈ w_out st /\
     (err = None -> w_out st = [CloseStdin; Reap] /\ exitedCh st = Some None /\
                    stdoutCh st = Some None /\ stderrCh st = Some None)).
Proof.
  intros Hr%wait_inv_reachable. destruct st as [p c x so se o]. unfold wait_inv in Hr. cbn in *.
  destruct p as [| |t1 t2|err].
  - subst o. split; [left; apply prefix_nil|]. split; [by intros ?%elem_of_nil|done].
  - destruct Hr as [_ ->]. split; [right; by exists [Reap]|]. split; [|done]. set_solver.
  - destruct Hr as (-> & _). split; [left; by exists [Reap]|]. split; [|done]. set_solver.
  - destruct Hr as [Hx Hr]. split; [|split; [eauto|]].
    + destruct Hr as [(-> & _)|(-> & _)]; [left|right]; done.
    + intros err0 [= <-]. split; [destruct Hr as [(-> & _)|(-> & _)]; set_solver|]. intros ->.
      destruct Hr as [(-> & -> & re & e1 & e2 & -> & -> & HE)|(_ & [[? _]|(e & _ & ?)])]; [|done..].
      unfold first_error in HE. destruct re, e1; done || by subst.
Qed.

(** A bound on the remaining steps. *)
Definition pending {A} (x : option A) : nat := match x with None => 1 | Some _ => 0 end.
Definition wait_measure (st : wstate) : nat :=
  ((if w_cancelled st then 0 else 1) + pending (exitedCh st) + pending (stdoutCh st)
   + pending (stderrCh st) +
   match w_phase st with
   | WaitExit => 4
   | JoinObserver => 1
   | WaitOutput t1 t2 => 1 + pending t1 + pending t2
   | Returned _ => 0
   end)%nat.

Lemma wstep_measure st st' : wstep st st' -> (wait_measure st' < wait_measure st)%nat.
Proof.
  intros Hst. destruct Hst; unfold wait_measure; cbn; try lia.
  - destruct e; cbn; lia.
  - unfold collect, after_output. destruct t1, t2, so, se; cbn; lia.
Qed.

Lemma nsteps_bound n st st' : nsteps wstep n st st' -> (n + wait_measure st' <= wait_measure st)%nat.
Proof.
  induction 1 as [|n x y z Hxy _ IH]; [lia|]. apply wstep_measure in Hxy. lia.
Qed.

(** Waiting ends: a run has at most eight steps, whatever the interleaving;
    one that can go no further has returned; and after a cancellation the
    handler returns as soon as the exit is observed, without waiting for the
    outputs to be copied. *)
Lemma waitLocalProcess_returns st :
  wait_reachable st ->
  (forall n st', nsteps wstep n st st' -> (n <= 8)%nat) /\
  ((forall st', ~ wstep st st') -> exists err, w_phase st = Returned err) /\
  (w_cancelled st = true -> is_Some (exitedCh st) ->
   exists st' err, rtc wstep st st' /\ w_phase st' = Returned err /\
     stdoutCh st' = stdoutCh st /\ stderrCh st' = stderrCh st).
Proof.
  intros Hr. split; [|split].
  - intros n st' Hn. apply nsteps_bound in Hn.
    assert (wait_measure st <= 8)%nat; [|lia].
    destruct (proj1 (rtc_nsteps _ _) Hr) as [k Hk].
    apply nsteps_bound in Hk. change (wait_measure wait_init) with 8%nat in Hk. lia.
  - destruct st as [p c x so se o]. intros Hn.
    destruct c; [|by destruct (Hn _ (w_cancel _ _ _ _ _))].
    destruct x as [e|]; [|by destruct (Hn _ (w_observer _ _ None _ _ _))].
    destruct so as [e1|]; [|by destruct (Hn _ (w_stdout _ _ _ None _ _))].
    destruct se as [e2|]; [|by destruct (Hn _ (w_stderr _ _ _ _ None _))].
    destruct p as [| |[t1|] [t2|]|err]; [..|by exists err].
    + by destruct (Hn _ (w_exited _ _ _ _ _)).
    + by destruct (Hn _ (w_join _ _ _ _ _)).
    + by destruct (Hn _ (w_output_done _ _ _ _ _ _ None _)).
    + by destruct (Hn _ (w_take_stderr _ _ _ _ _ _)).
    + by destruct (Hn _ (w_take_stdout _ _ _ _ _ _)).
    + by destruct (Hn _ (w_take_stdout _ _ _ _ _ _)).
  - apply wait_inv_reachable in Hr. destruct st as [p c x so se o]. cbn. intros -> [e ->].
    assert (forall t1 t2 o, exists st' err,
      rtc wstep (WState (WaitOutput t1 t2) true (Some e) so se o) st' /\ w_phase st' = Returned err /\
      stdoutCh st' = so /\ stderrCh st' = se) as HO.
    { intros t1 t2 o'.
      assert (forall a b, exists err, fst (after_output a b None o') = Returned err) as HF
        by (intros [a|] [b|]; by eexists).
      destruct (decide (t1 = None \/ t2 = None)) as [Hd|Hd].
      - destruct (HF (collect t1 so) (collect t2 se)) as [err HE]. eexists _, err.
        split; [apply rtc_once, (w_output_cancelled _ _ _ _ _ None); done|done].
      - destruct t1 as [a|]; [|tauto]. destruct t2 as [b|]; [|tauto].
        eexists _, _. split; [apply rtc_once, (w_output_done _ _ _ _ _ _ None)|done]. }
    destruct p as [| |t1 t2|err]; [| |apply HO|eexists _, _; split; [apply rtc_refl|done]].
    + destruct e as [e|].
      * eexists _, _. split; [apply rtc_once, w_exited|done].
      * destruct (HO None None (o ++ [CloseStdin])) as (st' & err & H1 & H2).
        exists st', err. split; [|done]. eapply rtc_l; [apply w_exited|exact H1].
    + eexists _, _. split; [apply rtc_once, w_join|done].
Qed.
End Wait.

(** ** Concrete runs *)
Definition slots_config : Config := set_MaxGitShellProcesses 2 sample_config.
Definition slots_server : Server :=
  match snd (@NewServer ascii_tables word_keys (Some slots_config) word_file) with
  | Ok s => s
  | Err _ => sample_server
  end.

(** Two sessions hold slots, a third is refused. *)
Example slots_full :
  acquireLocalSlot (fst (tryAcquireLocalSlot (fst (tryAcquireLocalSlot slots_server)))) None
  = [(fst (tryAcquireLocalSlot (fst (tryAcquireLocalSlot slots_server))), (false, Some errLocalSlotsBusy))].
Proof. vm_compute. reflexivity. Qed.


(** The process exits, both outputs are copied, the child is reaped. *)
Lemma complete_run e :
  wait_reachable e (WState (Returned None) false (Some None) (Some None) (Some None) [CloseStdin; Reap]).
Proof.
  unfold wait_reachable.
  eapply rtc_l; [apply (w_observer _ _ _ None)|].
  eapply rtc_l; [apply w_exited|]. cbn.
  eapply rtc_l; [apply (w_stdout _ _ _ _ None)|].
  eapply rtc_l; [apply (w_stderr _ _ _ _ _ None)|].
  eapply rtc_l; [apply w_take_stdout|].
  eapply rtc_l; [apply w_take_stderr|].
  eapply rtc_l; [apply (w_output_done _ _ _ _ _ _ _ None)|]. apply rtc_refl.
Qed.


