(* ===== verification/GitSsh.v ===== *)
(** * The SSH backend: [serveSSH] of modules/gitserver/backend_ssh.go.

    [serveSSH] starts one goroutine after the other (handshake, opening of a session,
    [Setenv], [Run]) and selects between the result of the goroutine and the context.  It is
    a step relation over the function, its goroutine and the context ([serve_step]), and the
    goroutine that [session.Run] starts to read the frontend channel ([step]); a step performs
    actions on the connection.  Reading of files, key parsing, the known hosts and the
    outcomes of network operations are parameters or choices of the environment.  A
    [select] with both cases ready takes either.

    Proved: every execution is finite and stops only by returning; the actions follow a
    small automaton that owns connection and session; on return connection and session are
    closed and the goroutine that runs the phases has ended, while the one that reads the
    frontend channel may still be blocked there. *)
From Stdlib Require Import Ascii String ZArith Lia.
From stdpp Require Import base gmap strings list.
From S2P Require Import Prelude GoStrings GoPath GitPath GitRequest GitConfig GitServer.
Local Open Scope Z_scope.

(** [time.Duration(n) * time.Second] on 64 bits. *)
Definition seconds (n : Z) : Z := (n * 1000000000 + 2 ^ 63) mod 2 ^ 64 - 2 ^ 63.

Section ServeSSH.
Context `{UnicodeTables}.
Context {K CB : Type}.                   (** [ssh.Signer] and [ssh.HostKeyCallback] *)
Context (ReadFile : gostring -> res gostring) (ParsePrivateKey : gostring -> res K) (knownhosts_New : gostring -> res CB).
Context (b : SSHBackendConfig) (req : Request) (gitProtocol : gostring).

Inductive action :=
| Dial (address : gostring) (timeout : Z)
| SetDeadline (timeout : Z)
| ClearDeadline
| NewClientConn (address user : gostring) (signer : K) (callback : CB) (timeout : Z)
| NewSession
| Setenv (name value : gostring)
| RunCommand (command : gostring)
| CloseConn
| CloseClient
| CloseSession.

(** Where the function is; an aborted phase waits for its goroutine after a close. *)
Inductive phase :=
| Start
| Dialing (signer : K) (callback : CB)
| Handshaking | HandshakeAborted
| Opening | OpeningAborted
| SettingEnv | SettingEnvAborted
| Running | RunningAborted
| Returned (e : option error).
(** The goroutine and its channel of capacity one; a result is its error. *)
Inductive goroutine := Idle | Busy | Ready (r : option error).
Record state := mkState { ph : phase; ctxErr : option error; worker : goroutine }.
Definition initial : state := mkState Start None Idle.

Definition timeout : Z := seconds (sb_TimeoutSeconds b).
Definition deadline (a : action) : list action := if 0 <? timeout then [a] else [].

(** The part before dialling. *)
Definition prepare : res (K * CB) :=
  match ReadFile (sb_KeyFile b) with
  | Err e => Err (errors_wrap (go "gitserver: read ssh backend key file " ++ Quote (sb_KeyFile b) ++ go ": ") e)
  | Ok keyBytes =>
      match ParsePrivateKey keyBytes with
      | Err e => Err (errors_wrap (go "gitserver: parse ssh backend key: ") e)
      | Ok signer =>
          match knownhosts_New (sb_KnownHosts b) with
          | Err e => Err (errors_wrap (go "gitserver: load known_hosts " ++ Quote (sb_KnownHosts b) ++ go ": ") e)
          | Ok callback => Ok (signer, callback)
          end
      end
  end.

(** The deferred calls, last first. *)
Definition deferred : list action := [CloseSession; CloseClient].
(** Building and starting the command. *)
Definition start_command (ctx : option error) : list action * state :=
  match buildBackendCommand req with
  | Err e => (deferred, mkState (Returned (Some e)) ctx Idle)
  | Ok command => ([RunCommand command], mkState Running ctx Busy)
  end.
(** What follows a session. *)
Definition with_session (ctx : option error) : list action * state :=
  if gitProtocol =s gitProtocolEnvValue
  then ([Setenv gitProtocolEnvName gitProtocolEnvValue], mkState SettingEnv ctx Busy)
  else start_command ctx.

Inductive serve_step : state -> list action -> state -> Prop :=
| prepare_failed ctx e : prepare = Err e -> serve_step (mkState Start ctx Idle) [] (mkState (Returned (Some e)) ctx Idle)
| prepared ctx signer callback : prepare = Ok (signer, callback) ->
    serve_step (mkState Start ctx Idle) [Dial (sb_Address b) timeout] (mkState (Dialing signer callback) ctx Idle)
| dial_failed signer callback ctx e :
    serve_step (mkState (Dialing signer callback) ctx Idle) []
         (mkState (Returned (Some (errors_wrap (go "gitserver: dial ssh backend " ++ Quote (sb_Address b) ++ go ": ") e))) ctx Idle)
| dialled signer callback ctx :
    serve_step (mkState (Dialing signer callback) ctx Idle)
         (deadline (SetDeadline timeout) ++ [NewClientConn (sb_Address b) (sb_User b) signer callback timeout])
         (mkState Handshaking ctx Busy)
| handshake_failed ctx e :
    serve_step (mkState Handshaking ctx (Ready (Some e))) [CloseConn]
         (mkState (Returned (Some (errors_wrap (go "gitserver: ssh backend handshake: ") e))) ctx Idle)
| handshake_done ctx :
    serve_step (mkState Handshaking ctx (Ready None)) (deadline ClearDeadline ++ [NewSession]) (mkState Opening ctx Busy)
| handshake_cancelled e w : serve_step (mkState Handshaking (Some e) w) [CloseConn] (mkState HandshakeAborted (Some e) w)
| handshake_aborted e r :
    serve_step (mkState HandshakeAborted (Some e) (Ready r)) (match r with None => [CloseClient] | Some _ => [] end)
         (mkState (Returned (Some e)) (Some e) Idle)
| open_failed ctx e :
    serve_step (mkState Opening ctx (Ready (Some e))) [CloseClient]
         (mkState (Returned (Some (errors_wrap (go "gitserver: open ssh backend session: ") e))) ctx Idle)
| opened ctx : serve_step (mkState Opening ctx (Ready None)) (fst (with_session ctx)) (snd (with_session ctx))
| open_cancelled e w : serve_step (mkState Opening (Some e) w) [CloseClient] (mkState OpeningAborted (Some e) w)
| open_aborted e r :
    serve_step (mkState OpeningAborted (Some e) (Ready r)) (match r with None => deferred | Some _ => [CloseClient] end)
         (mkState (Returned (Some e)) (Some e) Idle)
| setenv_failed ctx e :
    serve_step (mkState SettingEnv ctx (Ready (Some e))) deferred
         (mkState (Returned (Some (errors_wrap (go "gitserver: set GIT_PROTOCOL on backend: ") e))) ctx Idle)
| setenv_done ctx : serve_step (mkState SettingEnv ctx (Ready None)) (fst (start_command ctx)) (snd (start_command ctx))
| setenv_cancelled e w : serve_step (mkState SettingEnv (Some e) w) [CloseClient] (mkState SettingEnvAborted (Some e) w)
| setenv_aborted e r :
    serve_step (mkState SettingEnvAborted (Some e) (Ready r)) deferred (mkState (Returned (Some e)) (Some e) Idle)
| run_done ctx r : serve_step (mkState Running ctx (Ready r)) deferred (mkState (Returned r) ctx Idle)
| run_cancelled e w : serve_step (mkState Running (Some e) w) [CloseClient] (mkState RunningAborted (Some e) w)
| run_aborted e r : serve_step (mkState RunningAborted (Some e) (Ready r)) deferred (mkState (Returned (Some e)) (Some e) Idle)
(** The goroutine finishes, and the context is cancelled. *)
| finished p ctx r : serve_step (mkState p ctx Busy) [] (mkState p ctx (Ready r))
| cancelled p e w : serve_step (mkState p None w) [] (mkState p (Some e) w).

(** [session.Stdin] is the frontend channel, so [Run] starts a goroutine that copies from it
    into a pipe once the backend has accepted the command; nothing waits for its end. *)
Inductive pump := NoPump | Pumping | PumpEnded.
Definition running (p : phase) : bool := match p with Running | RunningAborted => true | _ => false end.
Inductive step : state * pump -> list action -> state * pump -> Prop :=
| served s acts s' p : serve_step s acts s' -> step (s, p) acts (s', p)
| pump_starts s : running (ph s) = true -> worker s = Busy -> step (s, NoPump) [] (s, Pumping)
| pump_ends s : step (s, Pumping) [] (s, PumpEnded).

(** Executions: the number of steps, the actions so far and the state. *)
Inductive exec : nat -> list action -> state * pump -> Prop :=
| exec_start : exec 0 [] (initial, NoPump)
| exec_step n tr s acts s' : exec n tr s -> step s acts s' -> exec (S n) (tr ++ acts) s'.

(** ** The contract *)

(** What is open, and what was asked of the backend. *)
Inductive owner := Nothing | Dialled | Connected | InSession | EnvSent | Commanded | Closed.
Definition accept (o : owner) (a : action) : option owner :=
  match a, o with
  | Dial address t, Nothing => if (address =s sb_Address b) && (t =? timeout) then Some Dialled else None
  | SetDeadline _, Dialled => Some Dialled
  | ClearDeadline, Connected => Some Connected
  | NewClientConn address user _ _ _, Dialled => if (address =s sb_Address b) && (user =s sb_User b) then Some Connected else None
  | NewSession, Connected => Some InSession
  | Setenv name value, InSession =>
      if (gitProtocol =s gitProtocolEnvValue) && (name =s gitProtocolEnvName) && (value =s gitProtocolEnvValue) then Some EnvSent else None
  | RunCommand c, InSession | RunCommand c, EnvSent =>
      match buildBackendCommand req with Ok c' => if c =s c' then Some Commanded else None | Err _ => None end
  | CloseConn, Connected => Some Closed
  | CloseSession, (InSession | EnvSent | Commanded) => Some o
  | CloseClient, (Connected | InSession | EnvSent | Commanded) => Some Closed
  | (CloseSession | CloseClient), Closed => Some Closed
  | _, _ => None
  end.
Fixpoint replay (o : owner) (tr : list action) : option owner :=
  match tr with
  | [] => Some o
  | a :: tr => o' ← accept o a; replay o' tr
  end.

(** ** Proofs *)
Lemma replay_app o tr tr' : replay o (tr ++ tr') = (o' ← replay o tr; replay o' tr').
Proof. revert o. induction tr as [|a tr IH]; intros o; [done|]. cbn [app replay]. destruct (accept o a); [apply IH|done]. Qed.

(** The owner that belongs to a phase. *)
Definition owns (p : phase) (o : owner) : Prop :=
  match p with
  | Start => o = Nothing
  | Dialing _ _ => o = Dialled
  | Handshaking => o = Connected
  | Opening => o = InSession
  | SettingEnv => o = EnvSent
  | Running => o = Commanded
  | HandshakeAborted | OpeningAborted | SettingEnvAborted | RunningAborted => o = Closed
  | Returned e => o = Closed \/ ((o = Nothing \/ o = Dialled) /\ e <> None)
  end.
Definition active (p : phase) : bool :=
  match p with Start | Dialing _ _ | Returned _ => false | _ => true end.
Definition aborted (p : phase) : bool :=
  match p with HandshakeAborted | OpeningAborted | SettingEnvAborted | RunningAborted => true | _ => false end.

Record ssh_inv (tr : list action) (s : state) : Prop := {
  inv_owner : exists o, replay Nothing tr = Some o /\ owns (ph s) o;
  inv_worker : worker s = Idle <-> active (ph s) = false;
  inv_ctx : aborted (ph s) = true -> ctxErr s <> None;
  inv_keys : (forall signer cb, ph s = Dialing signer cb -> prepare = Ok (signer, cb)) /\
    (forall address user signer cb t, NewClientConn address user signer cb t ∈ tr -> prepare = Ok (signer, cb));
  inv_command : ph s = Running \/ ph s = Returned None -> exists c, RunCommand c ∈ tr }.

(** The actions of a step, from the owner before to the owner after. *)
Lemma step_owner s acts s' o :
  serve_step s acts s' -> owns (ph s) o -> exists o', replay o acts = Some o' /\ owns (ph s') o'.
Proof.
  assert (Hst : forall ctx o, o = InSession \/ o = EnvSent -> exists o', replay o (fst (start_command ctx)) = Some o' /\ owns (ph (snd (start_command ctx))) o').
  { intros ctx o' Ho. unfold start_command. destruct (buildBackendCommand req) as [c|e] eqn:Ec; cbn [fst snd ph owns].
    - exists Commanded. split; [|done]. cbn [replay accept]. destruct Ho as [->| ->]; rewrite Ec, gos_eqb_refl; done.
    - exists Closed. split; [by destruct Ho as [->| ->]|by left]. }
  intros Hs Ho. destruct Hs; cbn [ph owns] in *; subst; try (by eexists; split; [reflexivity|cbn; auto]).
  - exists Dialled. cbn [replay accept]. by rewrite gos_eqb_refl, Z.eqb_refl.
  - exists Connected. split; [|done]. unfold deadline. destruct (0 <? timeout); cbn [app replay accept mbind option_bind]; by rewrite !gos_eqb_refl.
  - exists InSession. split; [|done]. unfold deadline. by destruct (0 <? timeout).
  - exists Closed. split; [by destruct r|by left].
  - unfold with_session. destruct (gitProtocol =s gitProtocolEnvValue) eqn:Eg; [|apply Hst; by left].
    exists EnvSent. split; [|done]. cbn [fst replay accept]. by rewrite Eg, !gos_eqb_refl.
  - exists Closed. split; [by destruct r|by left].
  - apply Hst. by right.
Qed.

Lemma inv_initial : ssh_inv [] initial.
Proof.
  split; cbn; try done.
  - by exists Nothing.
  - split; [done|]. intros ? ? ? ? ? Hin. by apply not_elem_of_nil in Hin.
  - by intros [?|?].
Qed.

Lemma start_command_state ctx :
  (exists e, start_command ctx = (deferred, mkState (Returned (Some e)) ctx Idle)) \/
  (exists c, start_command ctx = ([RunCommand c], mkState Running ctx Busy)).
Proof. unfold start_command. destruct (buildBackendCommand req); [right|left]; by eexists. Qed.
Lemma with_session_state ctx :
  with_session ctx = ([Setenv gitProtocolEnvName gitProtocolEnvValue], mkState SettingEnv ctx Busy) \/ with_session ctx = start_command ctx.
Proof. unfold with_session. destruct (_ =s _); [by left|by right]. Qed.
Ltac next_states :=
  repeat match goal with
  | |- context [with_session ?c] => destruct (with_session_state c) as [->| ->]
  | |- context [start_command ?c] => destruct (start_command_state c) as [(? & ->)|(? & ->)]
  end; cbn [fst snd ph worker ctxErr].

Lemma step_connects s acts s' address user signer cb t :
  serve_step s acts s' -> NewClientConn address user signer cb t ∈ acts -> ph s = Dialing signer cb.
Proof.
  intros Hs Hin. apply list_elem_of_In in Hin. destruct Hs; revert Hin; next_states; unfold deadline, deferred;
    try destruct r; try destruct (0 <? timeout); cbn [app In]; intros Hin; destruct_or? Hin; try done; by (injection Hin; intros; subst).
Qed.

Lemma inv_next tr s acts s' : ssh_inv tr s -> serve_step s acts s' -> ssh_inv (tr ++ acts) s'.
Proof.
  intros [[o [Hr Ho]] Hw Hc [Hk1 Hk2] Hcmd] Hs. split.
  - destruct (step_owner _ _ _ _ Hs Ho) as (o' & Ha & Ho'). exists o'. split; [|done]. by rewrite replay_app, Hr.
  - destruct Hs; next_states; cbn [ph worker active] in *; try first [exact Hw|by split].
    split; [done|]. intros Hx. by apply Hw in Hx.
  - destruct Hs; next_states; cbn [ph ctxErr aborted] in *; try done; intros; exfalso; by eapply Hc.
  - split.
    + destruct Hs; next_states; cbn [ph] in *; intros ? ? E; first [done|by apply Hk1|by injection E as <- <-].
    + intros address user signer cb t Hin. apply elem_of_app in Hin as [Hin|Hin]; [by eapply Hk2|].
      apply Hk1. by eapply step_connects.
  - destruct Hs; next_states; cbn [ph] in *; intros Hp; try (by destruct Hp);
      try (eexists; apply elem_of_app; right; by apply list_elem_of_singleton);
      try (destruct (Hcmd ltac:(auto)) as (c & Hin); exists c; apply elem_of_app; by left).
Qed.

(** A phase that runs the command was entered with it. *)
Lemma running_command n tr s : exec n tr s -> running (ph (fst s)) = true -> exists c, RunCommand c ∈ tr.
Proof.
  induction 1 as [|n tr s acts s' Hx IH Hs]; [done|]. intros Hr.
  destruct Hs as [s acts s' p Hss|s Hrun Hw|s]; cbn [fst] in *; [|rewrite app_nil_r; by apply IH..].
  assert (running (ph s) = true \/ exists c, RunCommand c ∈ acts) as [Hr1|[c Hc]].
  { destruct Hss; revert Hr; next_states; intros Hr; try done; try (by left); right; eexists; by apply list_elem_of_singleton. }
  - destruct (IH Hr1) as [c Hc]. exists c. apply elem_of_app. by left.
  - exists c. apply elem_of_app. by right.
Qed.
Lemma pump_command n tr s : exec n tr s -> snd s = Pumping -> exists c, RunCommand c ∈ tr.
Proof.
  induction 1 as [|n tr s acts s' Hx IH Hs]; [done|]. intros Hp. destruct Hs as [s acts s' p Hs|s Hr Hw|s]; cbn [snd] in *.
  - destruct (IH Hp) as [c Hc]. exists c. apply elem_of_app. by left.
  - rewrite app_nil_r. by eapply running_command.
  - done.
Qed.

Definition rank (p : phase) : nat :=
  match p with
  | Start => 10 | Dialing _ _ => 9 | Handshaking => 8 | HandshakeAborted => 7 | Opening => 6 | OpeningAborted => 5
  | SettingEnv => 4 | SettingEnvAborted => 3 | Running => 2 | RunningAborted => 1 | Returned _ => 0
  end.
Definition measure (s : state) : nat :=
  4 * rank (ph s) + match worker s with Busy => 1 | _ => 0 end + match ctxErr s with None => 1 | Some _ => 0 end.
Lemma step_measure s acts s' : serve_step s acts s' -> (measure s' < measure s)%nat.
Proof.
  intros Hs. destruct Hs; next_states; unfold measure; cbn [ph worker ctxErr rank]; try (destruct w); try (destruct ctx); lia.
Qed.
Definition pump_left (p : pump) : nat := match p with NoPump => 2 | Pumping => 1 | PumpEnded => 0 end.
Lemma exec_inv n tr s : exec n tr s -> ssh_inv tr (fst s) /\ (n + measure (fst s) + pump_left (snd s) <= 43)%nat.
Proof.
  induction 1 as [|n tr s acts s' Hx [IH Hm] Hs]; [split; [apply inv_initial|cbn; lia]|].
  destruct Hs as [s acts s' p Hs|s Hr Hw|s]; cbn [fst snd pump_left] in *.
  - split; [by eapply inv_next|]. pose proof (step_measure _ _ _ Hs). lia.
  - rewrite app_nil_r. split; [done|lia].
  - rewrite app_nil_r. split; [done|lia].
Qed.

Lemma progress tr s : ssh_inv tr s -> (forall e, ph s <> Returned e) -> exists acts s', serve_step s acts s'.
Proof.
  intros [_ Hw Hc _ _] Hnr. destruct s as [p ctx w]. cbn [ph worker ctxErr] in *. destruct w as [| |r].
  - pose proof (proj1 Hw eq_refl) as Ha. destruct p as [| | | | | | | | | |e]; try done.
    + destruct prepare as [[signer cb]|e] eqn:Ep; do 2 eexists; [by eapply prepared|by apply prepare_failed].
    + do 2 eexists. apply dialled.
    + by destruct (Hnr e).
  - do 2 eexists. apply (finished _ _ None).
  - destruct p; cbn [active] in Hw; try discriminate (proj2 Hw eq_refl).
    1,3,5: destruct r; do 2 eexists; constructor.
    4: do 2 eexists; constructor.
    all: destruct ctx as [e|]; [|by destruct (Hc eq_refl)]; do 2 eexists; constructor.
Qed.

Lemma replay_command tr o o' c : replay o tr = Some o' -> RunCommand c ∈ tr -> buildBackendCommand req = Ok c.
Proof.
  revert o. induction tr as [|a tr IH]; intros o; [intros _ Hin; by apply not_elem_of_nil in Hin|].
  cbn [replay]. destruct (accept o a) as [o1|] eqn:Ea; [|done]. cbn [mbind option_bind]. intros Hr Hin.
  apply elem_of_cons in Hin as [<-|Hin]; [|by eapply IH]. cbn [accept] in Ea.
  destruct o, (buildBackendCommand req) as [c'|e]; try done; destruct (c =s c') eqn:E; try done; apply gos_eqb_eq in E; by subst.
Qed.
Lemma replay_connects tr o o' address user signer cb t :
  replay o tr = Some o' -> NewClientConn address user signer cb t ∈ tr -> address = sb_Address b /\ user = sb_User b.
Proof.
  revert o. induction tr as [|a tr IH]; intros o; [intros _ Hin; by apply not_elem_of_nil in Hin|].
  cbn [replay]. destruct (accept o a) as [o1|] eqn:Ea; [|done]. cbn [mbind option_bind]. intros Hr Hin.
  apply elem_of_cons in Hin as [<-|Hin]; [|by eapply IH]. cbn [accept] in Ea.
  destruct o; try done. destruct (_ && _) eqn:E; [|done]. by bool_simp.
Qed.

End ServeSSH.

Definition sample_backend : SSHBackendConfig := MkSSHBackend (go "git.example.org:22") (go "git") (go "key") (go "known_hosts") 30.
Definition sample_git : Request := MkRequest (go "git-upload-pack") [] (go "r.git") [].
Definition sample_actions : list (@action unit unit) :=
  [Dial (go "git.example.org:22") 30000000000; SetDeadline 30000000000;
   NewClientConn (go "git.example.org:22") (go "git") tt tt 30000000000; ClearDeadline; NewSession;
   RunCommand (go "git-upload-pack 'r.git'"); CloseSession; CloseClient].
Abbreviation sample_exec := (@exec ascii_tables unit unit (fun _ => Ok []) (fun _ => Ok tt) (fun _ => Ok tt) sample_backend sample_git []).
Lemma exec_to n tr s acts s' tr' : sample_exec n tr s ->
  @step ascii_tables unit unit (fun _ => Ok []) (fun _ => Ok tt) (fun _ => Ok tt) sample_backend sample_git [] s acts s' -> tr' = tr ++ acts -> sample_exec (S n) tr' s'.
Proof. intros Hx Hs ->. by eapply exec_step. Qed.

(** The command has run and [serveSSH] has returned; the frontend is still being read. *)
Lemma pump_outlives_serveSSH : sample_exec 9 sample_actions (mkState (Returned None) None Idle, Pumping).
Proof.
  eapply (exec_to 8 (take 6 sample_actions)); [|apply served, run_done|reflexivity].
  eapply (exec_to 7 (take 6 sample_actions)); [|apply served, finished|reflexivity].
  eapply (exec_to 6 (take 6 sample_actions)); [|by apply pump_starts|reflexivity].
  eapply (exec_to 5 (take 5 sample_actions) (mkState Opening None (Ready None), NoPump) [RunCommand (go "git-upload-pack 'r.git'")]);
    [|apply served; exact (opened _ _ _ _ _ _ None)|reflexivity].
  eapply (exec_to 4 (take 5 sample_actions)); [|apply served, finished|reflexivity].
  eapply (exec_to 3 (take 3 sample_actions)); [|apply served, handshake_done|reflexivity].
  eapply (exec_to 2 (take 3 sample_actions)); [|apply served, finished|reflexivity].
  eapply (exec_to 1 (take 1 sample_actions)); [|apply served, (dialled _ _ _ _ _ _ tt tt)|reflexivity].
  eapply (exec_to 0 []); [apply exec_start|by apply served, prepared|reflexivity].
Qed.
