(* ===== verification/GoEncoding.v ===== *)
(** * The part of Go's encoding/json, encoding/base64 and time packages that the
    session log uses: strings as [json.Marshal] writes them, standard base64 and
    the RFC 3339 form of a time in UTC.

    [json_unquote] is the reader of a JSON string; it inverts the writer up to
    the replacement of invalid UTF-8, which shows that what a client typed can
    be read back from the log and cannot end a string or a line. *)
From Stdlib Require Import Ascii String ZArith Lia.
From stdpp Require Import base gmap strings list.
From S2P Require Import Prelude GoStrings.
Local Open Scope Z_scope.

(** ** encoding/json: strings *)

(** The bytes below 0x80 that are written as they are (with HTML escaping on). *)
Definition json_safe (r : Z) : bool :=
  (32 <=? r) && negb ((r =? 34) || (r =? 92) || (r =? 60) || (r =? 62) || (r =? 38)).

Definition json_short (r : Z) : option ascii :=
  if r =? 34 then Some chDQ else if r =? 92 then Some chBS
  else if r =? 8 then Some "b"%char else if r =? 12 then Some "f"%char
  else if r =? 10 then Some "n"%char else if r =? 13 then Some "r"%char
  else if r =? 9 then Some "t"%char else None.

(** One rune, decoded from [w] bytes. *)
Definition json_rune (r : Z) (w : nat) : gostring :=
  if r <? 128 then
    if json_safe r then [vb r]
    else match json_short r with
         | Some c => [chBS; c]
         | None => chBS :: "u"%char :: hexdigits 4 r
         end
  else if (r =? RuneError) && (w =? 1)%nat then chBS :: "u"%char :: go "fffd"
  else if (r =? 8232) || (r =? 8233) then chBS :: "u"%char :: hexdigits 4 r
  else EncodeRune r.

Fixpoint json_body (fuel : nat) (s : gostring) : gostring :=
  match fuel, s with
  | S f, _ :: _ => let '(r, w) := DecodeRune s in json_rune r w ++ json_body f (drop w s)
  | _, _ => []
  end.

Definition json_string (s : gostring) : gostring := chDQ :: json_body (length s) s ++ [chDQ].

(** ** Reading it back *)
Definition hexvalue (c : ascii) : option Z :=
  let v := bv c in
  if (48 <=? v) && (v <=? 57) then Some (v - 48)
  else if (97 <=? v) && (v <=? 102) then Some (v - 87)
  else if (65 <=? v) && (v <=? 70) then Some (v - 55)
  else None.

Definition hex4 (a b c d : ascii) : option Z :=
  match hexvalue a, hexvalue b, hexvalue c, hexvalue d with
  | Some x, Some y, Some z, Some w => Some (((x * 16 + y) * 16 + z) * 16 + w)
  | _, _, _, _ => None
  end.

Definition json_unescape (c : ascii) : option ascii :=
  if c =c chDQ then Some chDQ else if c =c chBS then Some chBS
  else if c =c "/" then Some "/"%char else if c =c "b" then Some "008"%char
  else if c =c "f" then Some chFF else if c =c "n" then Some chNL
  else if c =c "r" then Some chCR else if c =c "t" then Some chTAB else None.

(** The content after the opening quote, and what follows the closing one.
    Surrogate pairs are not needed: the writer never produces them. *)
Fixpoint json_unquote_body (s : gostring) : option (gostring * gostring) :=
  match s with
  | [] => None
  | c :: t =>
      if c =c chDQ then Some ([], t)
      else if c =c chBS then
        match t with
        | [] => None
        | e :: t1 =>
            if e =c "u" then
              match t1 with
              | h1 :: h2 :: h3 :: h4 :: t2 =>
                  match hex4 h1 h2 h3 h4, json_unquote_body t2 with
                  | Some r, Some (v, rest) => Some (EncodeRune r ++ v, rest)
                  | _, _ => None
                  end
              | _ => None
              end
            else match json_unescape e, json_unquote_body t1 with
                 | Some b, Some (v, rest) => Some (b :: v, rest)
                 | _, _ => None
                 end
        end
      else if bv c <? 32 then None
      else match json_unquote_body t with
           | Some (v, rest) => Some (c :: v, rest)
           | None => None
           end
  end.

Definition json_unquote (s : gostring) : option (gostring * gostring) :=
  match s with
  | c :: t => if c =c chDQ then json_unquote_body t else None
  | [] => None
  end.

(** Every invalid byte replaced by U+FFFD. *)
Definition to_valid (s : gostring) : gostring := flat_map EncodeRune (runes s).

(** ** encoding/base64: StdEncoding *)
Definition b64_alphabet : gostring :=
  go "ABCDEFGHIJKLMNOPQRSTUVWXYZabcdefghijklmnopqrstuvwxyz0123456789+/".
Definition b64_digit (n : Z) : ascii := default "="%char (b64_alphabet !! Z.to_nat n).

Fixpoint base64_EncodeToString (p : gostring) : gostring :=
  match p with
  | a :: b :: c :: rest =>
      let v := bv a * 65536 + bv b * 256 + bv c in
      [b64_digit (v / 262144); b64_digit ((v / 4096) mod 64);
       b64_digit ((v / 64) mod 64); b64_digit (v mod 64)] ++ base64_EncodeToString rest
  | [a; b] =>
      let v := bv a * 65536 + bv b * 256 in
      [b64_digit (v / 262144); b64_digit ((v / 4096) mod 64); b64_digit ((v / 64) mod 64); "="%char]
  | [a] =>
      let v := bv a * 65536 in
      [b64_digit (v / 262144); b64_digit ((v / 4096) mod 64); "="%char; "="%char]
  | [] => []
  end.

(** ** time: [t.UTC().Format(time.RFC3339Nano)], for a time given in nanoseconds
    since 1970 *)

(** Year, month and day of a number of days since 1970, in the proleptic
    Gregorian calendar; years start in March inside. *)
Definition civil (days : Z) : Z * Z * Z :=
  let z := days + 719468 in
  let era := z / 146097 in
  let doe := z mod 146097 in
  let yoe := (doe - doe / 1460 + doe / 36524 - doe / 146096) / 365 in
  let doy := doe - (365 * yoe + yoe / 4 - yoe / 100) in
  let mp := (5 * doy + 2) / 153 in
  let d := doy - (153 * mp + 2) / 5 + 1 in
  let m := if mp <? 10 then mp + 3 else mp - 9 in
  let y := yoe + era * 400 + (if m <=? 2 then 1 else 0) in
  (y, m, d).

(** [n] digits, with leading zeros. *)
Fixpoint decdigits (n : nat) (z : Z) : gostring :=
  match n with
  | O => []
  | S k => decdigits k (z / 10) ++ [vb (48 + z mod 10)]
  end.

(** The fraction without trailing zeros, and without the point if none is left. *)
Fixpoint strip_zeros (s : gostring) : gostring :=
  match s with
  | [] => []
  | c :: t => match strip_zeros t with
              | [] => if c =c "0" then [] else [c]
              | t' => c :: t'
              end
  end.

Definition FormatRFC3339Nano (ns : Z) : gostring :=
  let secs := ns / 1000000000 in
  let frac := strip_zeros (decdigits 9 (ns mod 1000000000)) in
  let '(y, m, d) := civil (secs / 86400) in
  let s := secs mod 86400 in
  decdigits 4 y ++ go "-" ++ decdigits 2 m ++ go "-" ++ decdigits 2 d ++ go "T"
  ++ decdigits 2 (s / 3600) ++ go ":" ++ decdigits 2 ((s / 60) mod 60) ++ go ":"
  ++ decdigits 2 (s mod 60)
  ++ (match frac with [] => [] | _ => "."%char :: frac end) ++ go "Z".

Example format_epoch : FormatRFC3339Nano 0 = go "1970-01-01T00:00:00Z".
Proof. reflexivity. Qed.
Example format_leap : FormatRFC3339Nano 1709251199123450000 = go "2024-02-29T23:59:59.12345Z".
Proof. vm_compute. reflexivity. Qed.
Example format_newyear : FormatRFC3339Nano 1735689600000000001 = go "2025-01-01T00:00:00.000000001Z".
Proof. vm_compute. reflexivity. Qed.
Example base64_ex : base64_EncodeToString (go "Many") = go "TWFueQ==".
Proof. reflexivity. Qed.
Example json_ex : json_string (go "a<b" ++ [chNL; chDQ] ++ [vb 255]) =
  [chDQ] ++ go "a\u003cb\n\" ++ [chDQ] ++ go "\ufffd" ++ [chDQ].
Proof. reflexivity. Qed.

(** ** Lemmas: what is written *)
Lemma EncodeRune_high r : 128 <= r -> Forall (fun b => 128 <= bv b) (EncodeRune r).
Proof.
  intros Hr. unfold EncodeRune.
  assert (forall q, valid_rune q = true -> 0 <= q <= 1114111) as HV.
  { intros q Hq. unfold valid_rune in Hq. apply orb_true_iff in Hq as [?|?]; bool_simp; lia. }
  set (q := if valid_rune r then r else RuneError).
  assert (128 <= q <= 1114111) as Hq.
  { subst q. destruct (valid_rune r) eqn:E; [apply HV in E; lia|unfold RuneError; lia]. }
  clearbody q.
  assert (0 <= q mod 64 < 64) by (apply Z.mod_pos_bound; lia).
  assert (0 <= (q / 64) mod 64 < 64) by (apply Z.mod_pos_bound; lia).
  assert (0 <= (q / 4096) mod 64 < 64) by (apply Z.mod_pos_bound; lia).
  assert (0 <= q / 64 /\ 0 <= q / 4096 /\ 0 <= q / 262144) as (? & ? & ?)
    by (repeat split; apply Z.div_pos; lia).
  rewrite (proj2 (Z.ltb_ge q 128)) by lia.
  destruct (Z.ltb_spec q 2048); [|destruct (Z.ltb_spec q 65536)].
  - assert (q / 64 < 32) by (apply Z.div_lt_upper_bound; lia).
    repeat constructor; rewrite bv_vb; lia.
  - assert (q / 4096 < 16) by (apply Z.div_lt_upper_bound; lia).
    repeat constructor; rewrite bv_vb; lia.
  - assert (q / 262144 < 5) by (apply Z.div_lt_upper_bound; lia).
    repeat constructor; rewrite bv_vb; lia.
Qed.

Lemma DecodeRune_range s : 0 <= fst (DecodeRune s) <= 1114111.
Proof.
  destruct s as [|b t]; [vm_compute; split; congruence|].
  pose proof (DecodeRune_width (b :: t) ltac:(done)) as HW.
  destruct (DecodeRune (b :: t)) as [r n] eqn:E. cbn.
  destruct (decide (r = RuneError /\ n = 1%nat)) as [[-> _]|Hne]; [unfold RuneError; lia|].
  apply DecodeRune_valid in E as [Hv _]; [|done|done].
  unfold valid_rune in Hv. apply orb_true_iff in Hv as [?|?]; bool_simp; lia.
Qed.

Lemma hexdigit_byte n : 0 <= n < 16 -> 48 <= bv (hexdigit n) <= 102 /\ hexvalue (hexdigit n) = Some n.
Proof.
  intros Hn. unfold hexdigit, hexvalue. destruct (Z.ltb_spec n 10); rewrite bv_vb by lia.
  - split; [lia|]. decide_tests. cbn. f_equal. lia.
  - split; [lia|]. decide_tests. cbn. f_equal. lia.
Qed.

Lemma hexdigits_bytes n z : Forall (fun b => 48 <= bv b <= 102) (hexdigits n z) /\ length (hexdigits n z) = n.
Proof.
  revert z. induction n as [|n IH]; intros z; simpl; [by split|].
  destruct (IH (z / 16)) as [H1 H2]. split.
  - apply Forall_app. split; [done|]. constructor; [|done].
    apply hexdigit_byte. apply Z.mod_pos_bound. lia.
  - rewrite length_app, H2. simpl. lia.
Qed.

Lemma json_short_byte r c : json_short r = Some c -> 32 <= bv c.
Proof. unfold json_short. intros H. repeat case_match; inv_ok; vm_compute; congruence. Qed.

Lemma json_rune_bytes r w :
  0 <= r -> Forall (fun b => 32 <= bv b) (json_rune r w) /\
  (length (json_rune r w) <= if (r <? 128)%Z || ((r =? RuneError)%Z && (w =? 1)%nat)
                              || (r =? 8232)%Z || (r =? 8233)%Z then 6 else length (EncodeRune r))%nat.
Proof.
  intros Hr. unfold json_rune. destruct (Z.ltb_spec r 128); cbn [orb].
  - destruct (json_safe r) eqn:E.
    + split; [|simpl; lia]. constructor; [|done]. unfold json_safe in E. bool_simp.
      rewrite bv_vb by lia. done.
    + destruct (json_short r) eqn:ES.
      * split; [|simpl; lia]. constructor; [vm_compute; congruence|]. constructor; [|done].
        by eapply json_short_byte.
      * destruct (hexdigits_bytes 4 r) as [H1 H2]. split; [|cbn [length]; rewrite H2; lia].
        constructor; [vm_compute; congruence|]. constructor; [vm_compute; congruence|].
        eapply Forall_impl; [exact H1|]. intros b Hb. cbv beta in Hb. lia.
  - destruct ((r =? RuneError) && (w =? 1)%nat); cbn [orb].
    + split; [|simpl; lia]. repeat constructor; vm_compute; congruence.
    + destruct ((r =? 8232) || (r =? 8233)) eqn:E2.
      * destruct (hexdigits_bytes 4 r) as [H1 H2]. split; [|cbn [length]; rewrite H2; lia].
        constructor; [vm_compute; congruence|]. constructor; [vm_compute; congruence|].
        eapply Forall_impl; [exact H1|]. intros b Hb. cbv beta in Hb. lia.
      * split; [|lia]. eapply Forall_impl; [apply (EncodeRune_high r); lia|].
        intros b Hb. cbv beta in Hb. lia.
Qed.

(** A rune takes at most six bytes per byte it was decoded from. *)
Lemma json_rune_len s r w :
  s <> [] -> DecodeRune s = (r, w) -> (length (json_rune r w) <= 6 * w)%nat.
Proof.
  intros Hs HD. pose proof (DecodeRune_width s Hs) as HW. pose proof (DecodeRune_range s) as HR.
  rewrite HD in HW, HR. cbn in HR. destruct (json_rune_bytes r w) as [_ HL]; [lia|].
  destruct (decide (r = RuneError /\ w = 1%nat)) as [[-> ->]|Hne]; [vm_compute; lia|].
  apply DecodeRune_valid in HD as [_ HE]; [|done|done].
  assert (length (EncodeRune r) = w) as HEl by (rewrite HE, length_take; lia).
  destruct (_ || _) in HL; lia.
Qed.

Lemma json_body_bytes f s : Forall (fun b => 32 <= bv b) (json_body f s).
Proof.
  revert s. induction f as [|f IH]; intros [|b t]; cbn [json_body]; try constructor.
  pose proof (DecodeRune_range (b :: t)) as HR. destruct (DecodeRune (b :: t)) as [r w].
  apply Forall_app. split; [|apply IH]. apply json_rune_bytes. cbn in HR. lia.
Qed.

Lemma json_body_len f s : (length (json_body f s) <= 6 * length s)%nat.
Proof.
  revert s. induction f as [|f IH]; intros [|b t]; try (simpl; lia). cbn [json_body].
  pose proof (DecodeRune_width (b :: t) ltac:(done)) as HW.
  destruct (DecodeRune (b :: t)) as [r w] eqn:E.
  apply json_rune_len in E; [|done]. specialize (IH (drop w (b :: t))).
  rewrite length_drop in IH. rewrite length_app. lia.
Qed.

(** A JSON string is one line whatever it holds, and at most six times as long. *)
Lemma json_string_bytes s : Forall (fun b => 32 <= bv b) (json_string s).
Proof.
  unfold json_string. constructor; [vm_compute; congruence|].
  apply Forall_app. split; [apply json_body_bytes|]. repeat constructor. vm_compute. congruence.
Qed.

Lemma json_string_len s : len (json_string s) <= 6 * len s + 2.
Proof.
  unfold json_string, len. cbn [length]. rewrite length_app. pose proof (json_body_len (length s) s).
  simpl. lia.
Qed.

(** ** Lemmas: what is read back *)
Definition emit (l : gostring) (o : option (gostring * gostring)) : option (gostring * gostring) :=
  match o with Some (v, rest) => Some (l ++ v, rest) | None => None end.

Lemma hex4_hexdigits r t : 0 <= r < 65536 ->
  json_unquote_body (chBS :: "u"%char :: hexdigits 4 r ++ t) = emit (EncodeRune r) (json_unquote_body t).
Proof.
  intros Hr. cbn [hexdigits app].
  set (h1 := hexdigit ((r / 16 / 16 / 16) mod 16)). set (h2 := hexdigit ((r / 16 / 16) mod 16)).
  set (h3 := hexdigit ((r / 16) mod 16)). set (h4 := hexdigit (r mod 16)).
  assert (hex4 h1 h2 h3 h4 = Some r) as HH.
  { unfold hex4, h1, h2, h3, h4.
    assert (forall z, hexvalue (hexdigit (z mod 16)) = Some (z mod 16)) as HV
      by (intros z; apply hexdigit_byte, Z.mod_pos_bound; lia).
    rewrite !HV. f_equal.
    pose proof (Z.div_mod r 16 ltac:(lia)). pose proof (Z.div_mod (r / 16) 16 ltac:(lia)).
    pose proof (Z.div_mod (r / 16 / 16) 16 ltac:(lia)).
    pose proof (Z.mod_pos_bound r 16 ltac:(lia)). pose proof (Z.mod_pos_bound (r / 16) 16 ltac:(lia)).
    pose proof (Z.mod_pos_bound (r / 16 / 16) 16 ltac:(lia)).
    rewrite (Z.mod_small (r / 16 / 16 / 16)) by lia. lia. }
  cbn [json_unquote_body]. change (chBS =c chDQ) with false. change (chBS =c chBS) with true.
  change ("u"%char =c "u") with true. cbn iota. rewrite HH. unfold emit.
  by destruct (json_unquote_body t) as [[v rest]|].
Qed.

Lemma unquote_plain c t :
  c <> chDQ -> c <> chBS -> 32 <= bv c ->
  json_unquote_body (c :: t) = emit [c] (json_unquote_body t).
Proof.
  intros H1 H2 H3. cbn [json_unquote_body].
  rewrite !(proj2 (Ascii.eqb_neq _ _)) by done. rewrite (proj2 (Z.ltb_ge _ _)) by done.
  unfold emit. by destruct (json_unquote_body t) as [[v rest]|].
Qed.

Lemma emit_app l k o : emit (l ++ k) o = emit l (emit k o).
Proof. destruct o as [[v rest]|]; [|done]. cbn. by rewrite <- app_assoc. Qed.

Lemma unquote_raw l t :
  Forall (fun b => 128 <= bv b) l -> json_unquote_body (l ++ t) = emit l (json_unquote_body t).
Proof.
  induction 1 as [|c l Hc HF IH]; cbn [app].
  - by destruct (json_unquote_body t) as [[v rest]|].
  - cbv beta in Hc. rewrite unquote_plain, IH, <- emit_app; [done|intros ->; by vm_compute in Hc..|lia].
Qed.

Lemma unquote_short r c t :
  json_short r = Some c -> json_unquote_body (chBS :: c :: t) = emit (EncodeRune r) (json_unquote_body t).
Proof.
  intros H. unfold json_short in H.
  repeat (match type of H with (if ?b then _ else _) = _ => destruct b eqn:? end;
    [bool_simp; subst; inv_ok; cbn; by destruct (json_unquote_body t) as [[v rest]|]|]). done.
Qed.

Lemma unquote_rune r w t :
  0 <= r -> json_unquote_body (json_rune r w ++ t) = emit (EncodeRune r) (json_unquote_body t).
Proof.
  intros Hr. unfold json_rune. destruct (Z.ltb_spec r 128).
  - destruct (json_safe r) eqn:E.
    + assert (EncodeRune r = [vb r]) as ->.
      { assert (valid_rune r = true) as Hv by (unfold valid_rune; decide_tests; done).
        unfold EncodeRune. rewrite Hv. by decide_tests. }
      unfold json_safe in E. bool_simp. cbn [app].
      apply unquote_plain; [intros HE; apply (f_equal bv) in HE; rewrite bv_vb in HE by lia; by subst..|].
      rewrite bv_vb by lia. lia.
    + destruct (json_short r) eqn:ES; [by apply unquote_short|]. cbn [app]. apply hex4_hexdigits. lia.
  - destruct ((r =? RuneError) && (w =? 1)%nat) eqn:E1.
    + bool_simp. subst r. change (go "fffd") with (hexdigits 4 RuneError).
      cbn [app]. apply hex4_hexdigits. unfold RuneError. lia.
    + destruct ((r =? 8232) || (r =? 8233)) eqn:E2.
      * cbn [app]. apply hex4_hexdigits. apply orb_true_iff in E2 as [?|?]; bool_simp; lia.
      * apply unquote_raw, EncodeRune_high. lia.
Qed.

Lemma unquote_body f s t :
  (length s <= f)%nat ->
  json_unquote_body (json_body f s ++ t) = emit (flat_map EncodeRune (runes_fuel f s)) (json_unquote_body t).
Proof.
  revert s. induction f as [|f IH]; intros [|b s] Hf; try (simpl in Hf; lia).
  1,2: cbn; by destruct (json_unquote_body t) as [[v rest]|].
  cbn [json_body runes_fuel]. pose proof (DecodeRune_range (b :: s)) as HR.
  pose proof (DecodeRune_width (b :: s) ltac:(done)) as HW.
  destruct (DecodeRune (b :: s)) as [r w]. cbn [fst] in HR. cbn [flat_map].
  rewrite <- app_assoc, unquote_rune by lia. rewrite IH, <- emit_app; [done|].
  rewrite length_drop. cbn [length] in *. lia.
Qed.

(** Reading a written string gives it back, invalid UTF-8 replaced. *)
Lemma json_unquote_string s rest :
  json_unquote (json_string s ++ rest) = Some (to_valid s, rest).
Proof.
  unfold json_unquote, json_string. cbn [app]. change (chDQ =c chDQ) with true. cbn iota.
  rewrite <- app_assoc, unquote_body by done. cbn. unfold to_valid, runes. by rewrite app_nil_r.
Qed.

(** ** Lemmas: times *)
Lemma decdigits_bytes n z :
  Forall (fun b => 32 <= bv b) (decdigits n z) /\ length (decdigits n z) = n.
Proof.
  revert z. induction n as [|n IH]; intros z; cbn [decdigits]; [by split|].
  destruct (IH (z / 10)) as [H1 H2]. pose proof (Z.mod_pos_bound z 10 ltac:(lia)). split.
  - apply Forall_app. split; [done|]. constructor; [|done]. rewrite bv_vb; lia.
  - rewrite length_app, H2. cbn [length]. lia.
Qed.

Lemma strip_zeros_bytes s :
  Forall (fun b => 32 <= bv b) s ->
  Forall (fun b => 32 <= bv b) (strip_zeros s) /\ (length (strip_zeros s) <= length s)%nat.
Proof.
  induction 1 as [|c s Hc HF [IH1 IH2]]; cbn [strip_zeros]; [by split; [|simpl; lia]|].
  destruct (strip_zeros s) as [|x l].
  - destruct (c =c "0"); [split; [done|simpl; lia]|]. split; [by repeat constructor|simpl; lia].
  - split; [by constructor|cbn [length] in *; lia].
Qed.

Lemma FormatRFC3339Nano_bytes ns :
  Forall (fun b => 32 <= bv b) (FormatRFC3339Nano ns) /\ len (FormatRFC3339Nano ns) <= 30.
Proof.
  unfold FormatRFC3339Nano. destruct (civil _) as [[y m] d].
  destruct (decdigits_bytes 9 (ns mod 1000000000)) as [F1 F2].
  destruct (strip_zeros_bytes _ F1) as [Z1 Z2]. rewrite F2 in Z2.
  set (frac := strip_zeros _) in *.
  assert (Forall (fun b => 32 <= bv b) (match frac with [] => [] | _ => "."%char :: frac end) /\
          len (match frac with [] => [] | _ => "."%char :: frac end) <= 10) as [G1 G2].
  { destruct frac as [|x l]; [split; [constructor|vm_compute; congruence]|].
    split; [constructor; [vm_compute; congruence|done]|]. unfold len. cbn [length] in *. lia. }
  split.
  - rewrite !Forall_app. repeat split; try apply decdigits_bytes; try done;
      repeat constructor; vm_compute; congruence.
  - autorewrite with go_len. unfold len in *. rewrite !(proj2 (decdigits_bytes _ _)).
    cbn [length go list_ascii_of_string]. lia.
Qed.
