(* ===== verification/Logging.v ===== *)
(** * The session log: modules/fakeshell/logging.go.

    The logger is its counters and flags together with the bytes its writer
    accepted; the outcome of each write is a parameter (everything accepted, or
    only some bytes, with or without an error), and so are the times.  Proved:
    the log never exceeds its limits, whatever is logged and however writes
    fail, and it is a sequence of lines, one complete record each, in which
    nothing a client sent can start another record. *)
From Stdlib Require Import Ascii String ZArith Lia.
From stdpp Require Import base gmap strings list.
From S2P Require Import Prelude GoStrings GoEncoding Input Dynamic Runner.
Local Open Scope Z_scope.

Definition MaxLoggedCommandBytes : Z := 4096.
Definition MaxLogEventBytes : Z := 8192.
Definition MaxLogEventsPerSession : Z := 1024.
Definition MaxLogBytesPerSession : Z := 2 ^ 20.
Definition truncationMarkerReserve : Z := 256.
Definition truncationMarkerReason : gostring := go "session_log_limit".

(** ** Bounding the fields *)

(** The loop that backs off to a rune boundary. *)
Fixpoint back_off (s : gostring) (cut : nat) : nat :=
  match cut with
  | O => O
  | S k => match s !! cut with
           | Some b => if is_cont b then back_off s k else cut
           | None => cut
           end
  end.

Definition truncateString (s : gostring) (maxBytes : Z) : gostring :=
  if (maxBytes <=? 0) || (len s <=? maxBytes) then s
  else
    let cut := maxBytes - 3 in
    let cut := if cut <? 0 then 0 else cut in
    take (back_off s (Z.to_nat cut)) s ++ go "...".

Definition previewToB64 (p : gostring) : gostring :=
  if p =s [] then []
  else base64_EncodeToString (if MaxDynamicPreviewBytes <? len p
                              then take (Z.to_nat MaxDynamicPreviewBytes) p else p).

Record logMetaEntry := MkMeta {
  m_Path : gostring; m_Kind : gostring; m_Size : Z; m_PreviewB64 : gostring;
  m_SHA256 : gostring; m_UpdatedAt : gostring
}.

Record logRecord := MkRecord {
  r_Time : gostring; r_Type : gostring; r_CWD : gostring; r_Command : gostring;
  r_Args : list gostring; r_Error : gostring; r_Metadata : list logMetaEntry; r_Reason : gostring
}.

(** The loop over the arguments. *)
Fixpoint bounded_args (args : list gostring) (total : Z) : list gostring :=
  match args with
  | [] => []
  | a :: rest =>
      let ta := truncateString a MaxLoggedCommandBytes in
      let total := total + len ta in
      if MaxLoggedCommandBytes <? total then [ta; go "...args_truncated"]
      else ta :: bounded_args rest total
  end.

Definition bounded_meta (de : DynamicEntry) : logMetaEntry :=
  MkMeta (truncateString (Path de) MaxLoggedCommandBytes) (Kind de) (Size de)
    (previewToB64 (Preview de)) (SHA256 de) (FormatRFC3339Nano (UpdatedAt de)).

Definition boundedRecord (ev : Event) : logRecord :=
  MkRecord (FormatRFC3339Nano (ev_Time ev))
    (truncateString (ev_Type ev) MaxLoggedCommandBytes)
    (truncateString (ev_CWD ev) MaxLoggedCommandBytes)
    (truncateString (ev_Command ev) MaxLoggedCommandBytes)
    (bounded_args (ev_Args ev) 0)
    (truncateString (ev_Error ev) MaxLoggedCommandBytes)
    (map bounded_meta (ev_Metadata ev)) [].

(** ** Serialization *)

(** A field of a JSON object: its name, its encoded value, and whether it is left
    out ([omitempty]). *)
Definition json_field (name : string) (omit : bool) (value : gostring) : list gostring :=
  if omit then [] else [json_string (go name) ++ go ":" ++ value].
Definition json_object (fields : list (list gostring)) : gostring :=
  go "{" ++ Join (concat fields) (go ",") ++ go "}".
Definition json_array (vs : list gostring) : gostring := go "[" ++ Join vs (go ",") ++ go "]".

Definition str_field (name : string) (omitempty : bool) (v : gostring) : list gostring :=
  json_field name (omitempty && (v =s [])) (json_string v).

Definition marshal_meta (m : logMetaEntry) : gostring :=
  json_object
    [str_field "path" false (m_Path m); str_field "kind" false (m_Kind m);
     json_field "size" false (Itoa (m_Size m)); str_field "preview" true (m_PreviewB64 m);
     str_field "sha256" true (m_SHA256 m); str_field "updated_at" true (m_UpdatedAt m)].

Definition is_nil {A} (l : list A) : bool := match l with [] => true | _ => false end.

(** [json.Marshal] of a record, which cannot fail for this shape. *)
Definition marshal_record (r : logRecord) : gostring :=
  json_object
    [str_field "time" false (r_Time r); str_field "type" false (r_Type r);
     str_field "cwd" true (r_CWD r); str_field "command" true (r_Command r);
     json_field "args" (is_nil (r_Args r)) (json_array (map json_string (r_Args r)));
     str_field "error" true (r_Error r);
     json_field "metadata" (is_nil (r_Metadata r)) (json_array (map marshal_meta (r_Metadata r)));
     str_field "reason" true (r_Reason r)].

Definition marshalEvent (ev : Event) : gostring * bool :=
  let b := marshal_record (boundedRecord ev) ++ [chNL] in
  (b, MaxLogEventBytes <? len b).

Definition marshalEventTooLarge (ev : Event) : gostring :=
  marshal_record
    (MkRecord (FormatRFC3339Nano (ev_Time ev)) (go "event_too_large")
       (if ev_Type ev =s [] then [] else truncateString (ev_Type ev) 128) [] [] [] []
       (go "single_event_exceeds_max_log_event_bytes")) ++ [chNL].

Definition truncation_marker (now : Z) : gostring :=
  let b := marshal_record (MkRecord (FormatRFC3339Nano now) (go "truncated") [] [] [] [] []
                             truncationMarkerReason) ++ [chNL] in
  if MaxLogEventBytes <? len b
  then go "{" ++ json_string (go "type") ++ go ":" ++ json_string (go "truncated") ++ go ","
       ++ json_string (go "reason") ++ go ":" ++ json_string (go "session_log_limit") ++ go "}" ++ [chNL]
  else b.

(** ** The logger *)
Record sessionLogger := MkLogger {
  lg_events : Z;
  lg_bytes : Z;
  lg_trunc : bool;
  lg_closed : bool;
  lg_writeErr : option error;
  lg_file : gostring   (* the bytes the writer accepted *)
}.

Definition newLogger : sessionLogger := MkLogger 0 0 false false None [].

Definition ErrShortWrite : error := errors_New (go "short write").

(** The outcome of a write: how many bytes were accepted (at most those given,
    as [io.Writer] requires), and an error. *)
Record write_result := MkWrite { wr_n : nat; wr_err : option error }.

(** [w.Write(b)] followed by [recordWriteResult]: the logger, and whether the
    whole slice was written. *)
Definition write_line (l : sessionLogger) (b : gostring) (wr : write_result) : sessionLogger * bool :=
  let n := Nat.min (wr_n wr) (length b) in
  let short := negb (n =? length b)%nat in
  let err := match wr_err wr with
             | Some e => Some e
             | None => if short then Some ErrShortWrite else None
             end in
  (MkLogger (lg_events l) (lg_bytes l + Z.of_nat n) (lg_trunc l) (lg_closed l)
     (match lg_writeErr l with Some e => Some e | None => err end) (lg_file l ++ take n b),
   match err with Some _ => false | None => negb short end).

Definition count_event (r : sessionLogger * bool) : sessionLogger :=
  let '(l, ok) := r in
  if ok then MkLogger (lg_events l + 1) (lg_bytes l) (lg_trunc l) (lg_closed l) (lg_writeErr l) (lg_file l)
  else l.

Definition set_trunc (l : sessionLogger) : sessionLogger :=
  MkLogger (lg_events l) (lg_bytes l) true (lg_closed l) (lg_writeErr l) (lg_file l).

Definition writeTruncationMarker (l : sessionLogger) (now : Z) (wr : write_result) : sessionLogger :=
  if lg_trunc l then l
  else set_trunc (count_event (write_line l (truncation_marker now) wr)).

(** The line [Log] is about to write for an event. *)
Definition event_line (ev : Event) : gostring :=
  let '(line, oversized) := marshalEvent ev in
  let line := if (oversized : bool) then marshalEventTooLarge ev else line in
  if MaxLogEventBytes <? len line then marshalEventTooLarge ev else line.

(** [Log]: [now] is the clock if the marker is written, [wr] what the one write
    it makes returns. *)
Definition Log (l : sessionLogger) (ev : Event) (now : Z) (wr : write_result) : sessionLogger :=
  if lg_closed l || (match lg_writeErr l with Some _ => true | None => false end) then l
  else if lg_trunc l then l
  else
    let line := event_line ev in
    let eventOver := MaxLogEventsPerSession <=? lg_events l in
    let byteCeiling := MaxLogBytesPerSession - truncationMarkerReserve in
    let byteCeiling := if byteCeiling <? 0 then 0 else byteCeiling in
    let byteOver := byteCeiling <? lg_bytes l + len line in
    if eventOver || byteOver then writeTruncationMarker l now wr
    else count_event (write_line l line wr).

(** [Close]: the logger and the error returned; [gzErr] and [fileErr] are what
    closing the two writers returns ([gzip]: the log is compressed). *)
Definition CloseLog (l : sessionLogger) (gzip : bool) (gzErr fileErr : option error) :
    sessionLogger * option error :=
  if lg_closed l then (l, lg_writeErr l)
  else
    let first e1 e2 := match e1 with Some e => Some e | None => e2 end in
    let firstErr := if gzip then first (lg_writeErr l) gzErr else lg_writeErr l in
    let firstErr := first firstErr fileErr in
    (MkLogger (lg_events l) (lg_bytes l) (lg_trunc l) true firstErr (lg_file l), firstErr).

(** ** Lines *)
Definition printable (s : gostring) : Prop := Forall (fun b => 32 <= bv b) s.

Lemma printable_app s t : printable s -> printable t -> printable (s ++ t).
Proof. apply Forall_app_2. Qed.

Lemma printable_Join l sep : printable sep -> Forall printable l -> printable (Join l sep).
Proof. apply Join_bytes. Qed.

Lemma printable_go s : forallb (fun b => 32 <=? bv b) (go s) = true -> printable (go s).
Proof.
  intros H. apply forallb_Forall in H. eapply Forall_impl; [exact H|].
  intros b Hb. by apply Z.leb_le.
Qed.

Lemma Itoa_printable z : printable (Itoa z).
Proof.
  assert (forall n, 0 <= n -> printable (itoa_pos (S (Z.to_nat (Z.log2 n))) n)) as HP.
  { intros n Hn. destruct (itoa_pos_spec _ _ (Nat.neq_succ_0 _) (itoa_pos_log2 n Hn)) as (_ & HD & _).
    apply forallb_Forall in HD. eapply Forall_impl; [exact HD|].
    intros b Hb. unfold is_digit in Hb. bool_simp. lia. }
  unfold Itoa. destruct (Z.ltb_spec z 0); [|by apply HP].
  constructor; [vm_compute; congruence|]. apply HP. lia.
Qed.

Lemma json_field_printable name omit v :
  printable v -> Forall printable (json_field name omit v).
Proof.
  intros Hv. unfold json_field. destruct omit; [constructor|]. constructor; [|constructor].
  apply printable_app; [apply json_string_bytes|]. apply printable_app; [by apply printable_go|done].
Qed.

Lemma str_field_printable name o v : Forall printable (str_field name o v).
Proof. apply json_field_printable, json_string_bytes. Qed.

Lemma json_object_printable fields :
  Forall (Forall printable) fields -> printable (json_object fields).
Proof.
  intros HF. unfold json_object. apply printable_app; [by apply printable_go|].
  apply printable_app; [|by apply printable_go].
  apply printable_Join; [by apply printable_go|]. by apply Forall_concat.
Qed.

Lemma json_array_printable vs : Forall printable vs -> printable (json_array vs).
Proof.
  intros HF. unfold json_array. apply printable_app; [by apply printable_go|].
  apply printable_app; [|by apply printable_go]. apply printable_Join; [by apply printable_go|done].
Qed.

(** One goal per field that is not a string. *)
Ltac each_field :=
  lazymatch goal with
  | |- Forall (Forall _) (_ :: _) =>
      apply Forall_cons_2; [first [apply str_field_printable | apply json_field_printable]|each_field]
  | |- Forall (Forall _) [] => apply Forall_nil_2
  end.

Lemma marshal_meta_printable m : printable (marshal_meta m).
Proof. apply json_object_printable. each_field. apply Itoa_printable. Qed.

(** Whatever its fields hold, a serialized record has no control byte. *)
Lemma marshal_record_printable r : printable (marshal_record r).
Proof.
  apply json_object_printable. each_field; apply json_array_printable, Forall_map, Forall_forall.
  - intros s _. apply json_string_bytes.
  - intros m _. apply marshal_meta_printable.
Qed.

(** The length of the small records. *)
Lemma marshal_small_len t ty cwd reason :
  len (marshal_record (MkRecord t ty cwd [] [] [] [] reason))
  <= len (json_string t) + len (json_string ty) + len (json_string cwd) + len (json_string reason) + 40.
Proof.
  pose proof (len_nonneg (json_string cwd)). pose proof (len_nonneg (json_string reason)).
  unfold marshal_record, str_field, json_field. cbn [r_Time r_Type r_CWD r_Command r_Args r_Error
    r_Metadata r_Reason is_nil andb].
  change ([] =s []) with true. cbn iota. unfold json_object.
  destruct (cwd =s []), (reason =s []); cbn [concat app Join]; autorewrite with go_len;
    change (len (json_string (go "time"))) with 6; change (len (json_string (go "type"))) with 6;
    change (len (json_string (go "cwd"))) with 5; change (len (json_string (go "reason"))) with 8;
    change (len (go ":")) with 1; change (len (go ",")) with 1;
    change (len (go "{")) with 1; change (len (go "}")) with 1; lia.
Qed.

(** A line of the log: printable bytes and one newline, not too long. *)
Definition log_line (x : gostring) : Prop :=
  exists body, x = body ++ [chNL] /\ printable body /\ len x <= MaxLogEventBytes.

Lemma truncateString_len s n : 3 <= n -> len (truncateString s n) <= n.
Proof.
  intros Hn. unfold truncateString. rewrite (proj2 (Z.leb_gt _ _)) by lia. cbn [orb].
  destruct (Z.leb_spec (len s) n); [done|]. cbv zeta.
  rewrite (proj2 (Z.ltb_ge _ _)) by lia.
  assert (forall k, (back_off s k <= k)%nat) as HB.
  { intros k. induction k as [|k IH]; cbn [back_off]; [lia|].
    destruct (s !! S k) as [b|]; [|lia]. destruct (is_cont b); lia. }
  specialize (HB (Z.to_nat (n - 3))). rewrite len_app. change (len (go "...")) with 3.
  unfold len. rewrite length_take. lia.
Qed.

Lemma too_large_len ev : len (marshalEventTooLarge ev) <= MaxLogEventBytes.
Proof.
  unfold marshalEventTooLarge. rewrite len_app. change (len [chNL]) with 1.
  destruct (FormatRFC3339Nano_bytes (ev_Time ev)) as [_ HT].
  set (cwd := if ev_Type ev =s [] then [] else truncateString (ev_Type ev) 128).
  assert (len cwd <= 128) as HC.
  { subst cwd. destruct (ev_Type ev =s []); [vm_compute; congruence|]. apply truncateString_len. lia. }
  pose proof (json_string_len (FormatRFC3339Nano (ev_Time ev))). pose proof (json_string_len cwd).
  match goal with |- len (marshal_record (MkRecord ?t ?ty ?c [] [] [] [] ?r)) + 1 <= _ =>
    pose proof (marshal_small_len t ty c r) as HM end.
  change (len (json_string (go "event_too_large"))) with 17 in HM.
  change (len (json_string (go "single_event_exceeds_max_log_event_bytes"))) with 42 in HM.
  unfold MaxLogEventBytes. lia.
Qed.

Lemma marker_eq now :
  truncation_marker now =
  marshal_record (MkRecord (FormatRFC3339Nano now) (go "truncated") [] [] [] [] [] truncationMarkerReason)
  ++ [chNL] /\ len (truncation_marker now) <= truncationMarkerReserve.
Proof.
  destruct (FormatRFC3339Nano_bytes now) as [_ HT].
  pose proof (json_string_len (FormatRFC3339Nano now)).
  pose proof (marshal_small_len (FormatRFC3339Nano now) (go "truncated") [] truncationMarkerReason) as HM.
  change (len (json_string (go "truncated"))) with 11 in HM.
  change (len (json_string truncationMarkerReason)) with 19 in HM.
  change (len (json_string [])) with 2 in HM.
  unfold truncation_marker. cbv zeta. rewrite len_app. change (len [chNL]) with 1.
  unfold MaxLogEventBytes, truncationMarkerReserve. rewrite (proj2 (Z.ltb_ge _ _)) by lia.
  split; [done|]. rewrite len_app. change (len [chNL]) with 1. lia.
Qed.

Lemma event_line_ok ev : log_line (event_line ev).
Proof.
  assert (log_line (marshalEventTooLarge ev)) as HT.
  { eexists. split; [reflexivity|]. split; [apply marshal_record_printable|apply too_large_len]. }
  unfold event_line, marshalEvent. cbv zeta.
  set (b := marshal_record (boundedRecord ev) ++ [chNL]).
  destruct (Z.ltb_spec MaxLogEventBytes (len b)).
  - by destruct (MaxLogEventBytes <? len (marshalEventTooLarge ev)).
  - rewrite (proj2 (Z.ltb_ge _ _)) by done.
    exists (marshal_record (boundedRecord ev)). split; [done|]. split; [apply marshal_record_printable|done].
Qed.

Lemma marker_ok now : log_line (truncation_marker now).
Proof.
  destruct (marker_eq now) as [HE HL]. eexists. split; [exact HE|].
  split; [apply marshal_record_printable|]. unfold truncationMarkerReserve, MaxLogEventBytes in *. lia.
Qed.

(** ** The log as a whole *)

(** One call of [Log]: the event, the time if a marker is due, and the outcome of
    the write it makes. *)
Record call := MkCall { c_event : Event; c_now : Z; c_write : write_result }.

Definition log_call (l : sessionLogger) (c : call) : sessionLogger :=
  Log l (c_event c) (c_now c) (c_write c).
Definition log_calls (l : sessionLogger) (cs : list call) : sessionLogger := fold_left log_call cs l.

(** The file is a number of complete lines and, after a failed write only, the
    beginning of one more; the counters count them. *)
Definition file_ok (l : sessionLogger) : Prop :=
  exists lines partial,
    lg_file l = concat lines ++ partial /\ lg_events l = len lines /\
    Forall log_line lines /\
    (exists x, log_line x /\ partial `prefix_of` x) /\ (lg_writeErr l = None -> partial = []).

Definition logger_inv (l : sessionLogger) : Prop :=
  lg_bytes l = len (lg_file l) /\ file_ok l /\
  if lg_trunc l then lg_events l <= MaxLogEventsPerSession + 1 /\ lg_bytes l <= MaxLogBytesPerSession
  else lg_events l <= MaxLogEventsPerSession /\
       lg_bytes l <= MaxLogBytesPerSession - truncationMarkerReserve.

Lemma write_line_spec l x wr :
  logger_inv l -> lg_writeErr l = None -> lg_trunc l = false -> log_line x ->
  let l' := count_event (write_line l x wr) in
  lg_bytes l' = len (lg_file l') /\ file_ok l' /\ lg_trunc l' = false /\ lg_closed l' = lg_closed l /\
  lg_events l <= lg_events l' <= lg_events l + 1 /\ lg_bytes l <= lg_bytes l' <= lg_bytes l + len x.
Proof.
  intros (HB & (lines & partial & HF & HE & HL & _ & HP) & _) HW HTr Hx.
  rewrite (HP HW), app_nil_r in HF. clear HP.
  unfold write_line, count_event. set (n := Nat.min (wr_n wr) (length x)).
  assert (len (take n x) = Z.of_nat n) as Hn by (unfold len; rewrite length_take; lia).
  destruct (wr_err wr) as [e|]; [|destruct (n =? length x)%nat eqn:En];
    cbn [negb lg_bytes lg_file lg_events lg_trunc lg_closed lg_writeErr]; rewrite ?HW.
  - split; [rewrite len_app; lia|]. split.
    { exists lines, (take n x). cbn. rewrite HF. split; [done|]. split; [done|]. split; [done|].
      split; [exists x; split; [done|by eexists; rewrite take_drop]|done]. }
    split; [done|]. split; [done|]. unfold len. lia.
  - apply Nat.eqb_eq in En. split; [rewrite len_app; lia|]. split.
    { exists (lines ++ [x]), []. cbn. rewrite HF, concat_app, En, firstn_all. cbn.
      rewrite !app_nil_r. split; [done|]. split; [rewrite len_snoc; lia|].
      split; [apply Forall_app; auto|]. split; [exists x; split; [done|apply prefix_nil]|done]. }
    split; [done|]. split; [done|]. unfold len. lia.
  - split; [rewrite len_app; lia|]. split.
    { exists lines, (take n x). cbn. rewrite HF. split; [done|]. split; [done|]. split; [done|].
      split; [exists x; split; [done|by eexists; rewrite take_drop]|done]. }
    split; [done|]. split; [done|]. unfold len. lia.
Qed.

Lemma log_call_inv l c : logger_inv l -> logger_inv (log_call l c).
Proof.
  intros HI. unfold log_call, Log. destruct (lg_closed l); [done|].
  destruct (lg_writeErr l) eqn:EW; [done|]. cbn [orb]. destruct (lg_trunc l) eqn:ET; [done|].
  pose proof HI as (_ & _ & HC). rewrite ET in HC. destruct HC as [HC1 HC2]. cbv zeta.
  change (MaxLogBytesPerSession - truncationMarkerReserve <? 0) with false. cbn iota.
  destruct (_ || _) eqn:EO.
  - unfold writeTruncationMarker. rewrite ET. destruct (marker_eq (c_now c)) as [_ HM].
    destruct (write_line_spec l (truncation_marker (c_now c)) (c_write c) HI EW ET (marker_ok _))
      as (H1 & H2 & _ & _ & H3 & H4).
    set (l' := count_event _) in *. clearbody l'. unfold logger_inv, set_trunc.
    cbn [lg_bytes lg_file lg_trunc lg_events]. split; [done|]. split; [exact H2|]. lia.
  - destruct (write_line_spec l (event_line (c_event c)) (c_write c) HI EW ET (event_line_ok _))
      as (H1 & H2 & H3 & _ & H4 & H5).
    apply orb_false_iff in EO as [E1 E2]. bool_simp.
    unfold logger_inv. rewrite H3. split; [done|]. split; [done|]. lia.
Qed.

Lemma logger_inv_new : logger_inv newLogger.
Proof.
  split; [done|]. split; [|split; vm_compute; congruence].
  exists [], []. split; [done|]. split; [done|]. split; [constructor|].
  split; [|done]. exists (truncation_marker 0). split; [apply marker_ok|apply prefix_nil].
Qed.

Lemma log_calls_inv cs l : logger_inv l -> logger_inv (log_calls l cs).
Proof.
  unfold log_calls. revert l. induction cs as [|c cs IH]; intros l HI; [done|]. cbn [fold_left].
  apply IH, log_call_inv, HI.
Qed.

(** C39. The log is bounded and line-structured whatever happens: for every
    sequence of events and every outcome of every write, the bytes written never
    exceed MaxLogBytesPerSession, marker included, and at most
    MaxLogEventsPerSession records and one marker are written; the file is a
    sequence of lines, each of printable bytes and one newline and at most
    MaxLogEventBytes long, so nothing a client sends starts a line of its own;
    only a failed write can leave the beginning of a line, at the end. *)
Theorem session_log_bounded cs :
  let l := log_calls newLogger cs in
  len (lg_file l) <= MaxLogBytesPerSession /\
  lg_bytes l = len (lg_file l) /\ lg_events l <= MaxLogEventsPerSession + 1 /\
  exists lines partial,
    lg_file l = concat lines ++ partial /\ lg_events l = len lines /\ Forall log_line lines /\
    (exists x, log_line x /\ partial `prefix_of` x) /\ (lg_writeErr l = None -> partial = []).
Proof.
  cbv zeta. destruct (log_calls_inv cs _ logger_inv_new) as (H1 & H2 & H3).
  unfold MaxLogBytesPerSession, truncationMarkerReserve in *.
  destruct (lg_trunc _); repeat split; try lia; exact H2.
Qed.

(** ** Nothing is lost before a limit *)
Definition full_write (c : call) : Prop :=
  wr_err (c_write c) = None /\ MaxLogEventBytes <= Z.of_nat (wr_n (c_write c)).
Definition lines_of (cs : list call) : gostring := concat (map (fun c => event_line (c_event c)) cs).

Lemma lines_of_snoc cs c : lines_of (cs ++ [c]) = lines_of cs ++ event_line (c_event c).
Proof. unfold lines_of. rewrite map_app, concat_app. cbn [map concat]. by rewrite app_nil_r. Qed.

Lemma write_line_full l x wr :
  log_line x -> wr_err wr = None -> MaxLogEventBytes <= Z.of_nat (wr_n wr) -> lg_writeErr l = None ->
  count_event (write_line l x wr)
  = MkLogger (lg_events l + 1) (lg_bytes l + len x) (lg_trunc l) (lg_closed l) None (lg_file l ++ x).
Proof.
  intros (b & _ & _ & Hx) He Hn HW. unfold write_line, count_event. rewrite He.
  assert (Nat.min (wr_n wr) (length x) = length x) as -> by (unfold len in Hx; lia).
  rewrite Nat.eqb_refl, HW, firstn_all. done.
Qed.

(** The state of the logger as a function of the calls, up to a limit. *)
Definition log_state (cs : list call) (l : sessionLogger) : Prop :=
  lg_closed l = false /\ lg_writeErr l = None /\
  ((lg_trunc l = false /\ lg_events l = len cs /\ lg_bytes l = len (lines_of cs) /\
    lg_file l = lines_of cs) \/
   (lg_trunc l = true /\ exists k c, cs !! k = Some c /\
      lg_file l = lines_of (take k cs) ++ truncation_marker (c_now c) /\
      (MaxLogEventsPerSession <= Z.of_nat k \/
       MaxLogBytesPerSession - truncationMarkerReserve < len (lines_of (take (S k) cs))))).

Lemma log_state_step cs l c : full_write c -> log_state cs l -> log_state (cs ++ [c]) (log_call l c).
Proof.
  intros [He Hn] (HC & HW & HS). unfold log_call, Log. rewrite HC, HW. cbn [orb].
  destruct HS as [(HT & HE & HB & HF)|(HT & k & c0 & Hk & HF & HO)]; rewrite HT.
  - cbv zeta. change (MaxLogBytesPerSession - truncationMarkerReserve <? 0) with false. cbn iota.
    destruct (_ || _) eqn:EO.
    + unfold writeTruncationMarker. rewrite HT.
      rewrite write_line_full by (done || apply marker_ok).
      split; [done|]. split; [done|]. right. split; [done|]. exists (length cs), c.
      cbn [set_trunc lg_trunc lg_events lg_bytes lg_file]. split; [by apply list_lookup_middle|].
      rewrite take_app_length, HF. split; [done|].
      rewrite firstn_all2 by (rewrite length_app; simpl; lia). rewrite lines_of_snoc, len_app.
      apply orb_true_iff in EO as [E|E]; bool_simp; [left; unfold len in HE; lia|right; lia].
    + rewrite write_line_full by (done || apply event_line_ok).
      split; [done|]. split; [done|]. left. cbn [lg_trunc lg_events lg_bytes lg_file].
      rewrite lines_of_snoc, len_snoc, len_app, HE, HB, HF. split; [exact HT|].
      split; [reflexivity|]. split; reflexivity.
  - split; [done|]. split; [done|]. right. split; [done|]. exists k, c0.
    pose proof (lookup_lt_Some _ _ _ Hk). rewrite lookup_app_l, !take_app_le by lia. done.
Qed.

Lemma log_state_calls cs :
  Forall full_write cs -> log_state cs (log_calls newLogger cs).
Proof.
  unfold log_calls. induction cs as [|c cs IH] using rev_ind; intros HF.
  - split; [done|]. split; [done|]. by left.
  - apply Forall_app in HF as [H1 H2]. rewrite fold_left_app. cbn [fold_left].
    apply log_state_step; [by apply Forall_cons in H2 as [? _]|by apply IH].
Qed.

(** Nothing is dropped before a limit: when no write fails, the log holds
    the lines of all events in order, and is not truncated; or it holds the
    lines of the first [k] events and the truncation marker, and then [k] is
    the event limit or the next line would not have fitted.  In particular the
    marker is present whenever something was dropped. *)
Lemma session_log_complete cs :
  Forall full_write cs ->
  let l := log_calls newLogger cs in
  (lg_trunc l = false /\ lg_file l = lines_of cs) \/
  (lg_trunc l = true /\ exists k c, cs !! k = Some c /\
     lg_file l = lines_of (take k cs) ++ truncation_marker (c_now c) /\
     (MaxLogEventsPerSession <= Z.of_nat k \/
      MaxLogBytesPerSession - truncationMarkerReserve < len (lines_of (take (S k) cs)))).
Proof.
  intros HF l. destruct (log_state_calls cs HF) as (_ & _ & [(H1 & _ & _ & H2)|H]); [left|right]; done.
Qed.

(** ** Reading the log *)
Lemma Join_middle a x b sep : exists pre post, Join (a ++ x :: b) sep = pre ++ x ++ post.
Proof.
  induction a as [|y a IH]; cbn [app].
  - destruct b as [|z b]; [exists [], []; cbn; by rewrite app_nil_r|].
    exists [], (sep ++ Join (z :: b) sep). done.
  - destruct IH as (pre & post & IH). rewrite Join_cons by (by destruct a). rewrite IH.
    exists (y ++ sep ++ pre), post. by rewrite <- !app_assoc.
Qed.

Lemma json_object_field name v fields1 fields2 :
  exists pre post, json_object (fields1 ++ [json_field name false v] ++ fields2)
    = pre ++ (json_string (go name) ++ go ":" ++ v) ++ post.
Proof.
  unfold json_object. rewrite concat_app. cbn [concat app json_field].
  destruct (Join_middle (concat fields1) (json_string (go name) ++ go ":" ++ v) (concat fields2) (go ","))
    as (pre & post & ->).
  exists (go "{" ++ pre), (post ++ go "}"). by rewrite <- !app_assoc.
Qed.

Lemma event_line_fits ev :
  snd (marshalEvent ev) = false -> event_line ev = marshal_record (boundedRecord ev) ++ [chNL].
Proof.
  unfold event_line, marshalEvent. cbv zeta. set (b := _ ++ [chNL]). cbn [snd]. intros E.
  by rewrite !E.
Qed.

(** What a client typed can be read from the log: in the line of an event
    that fits, the value of the command field, read as a JSON string, is the
    command itself, with invalid UTF-8 replaced and nothing else changed. *)
Lemma logged_command_readable ev :
  ev_Command ev <> [] -> len (ev_Command ev) <= MaxLoggedCommandBytes -> snd (marshalEvent ev) = false ->
  exists pre value rest,
    event_line ev = pre ++ json_string (go "command") ++ go ":" ++ value /\
    json_unquote value = Some (to_valid (ev_Command ev), rest).
Proof.
  intros Hne Hl Ho. rewrite event_line_fits by exact Ho.
  destruct (json_object_field "command" (json_string (ev_Command ev))
    [str_field "time" false (r_Time (boundedRecord ev)); str_field "type" false (r_Type (boundedRecord ev));
     str_field "cwd" true (r_CWD (boundedRecord ev))]
    [json_field "args" (is_nil (r_Args (boundedRecord ev))) (json_array (map json_string (r_Args (boundedRecord ev))));
     str_field "error" true (r_Error (boundedRecord ev));
     json_field "metadata" (is_nil (r_Metadata (boundedRecord ev)))
       (json_array (map marshal_meta (r_Metadata (boundedRecord ev))));
     str_field "reason" true (r_Reason (boundedRecord ev))]) as (pre & post & HJ).
  assert (truncateString (ev_Command ev) MaxLoggedCommandBytes = ev_Command ev) as HT.
  { unfold truncateString. rewrite (proj2 (Z.leb_le _ _) Hl). by rewrite orb_true_r. }
  assert (marshal_record (boundedRecord ev)
          = pre ++ (json_string (go "command") ++ go ":" ++ json_string (ev_Command ev)) ++ post) as HM.
  { rewrite <- HJ. unfold marshal_record. do 2 f_equal. cbn [app]. do 3 f_equal. f_equal.
    unfold str_field. cbn [boundedRecord r_Command]. rewrite HT. by rewrite (proj2 (gos_eqb_neq _ _)). }
  exists pre, (json_string (ev_Command ev) ++ post ++ [chNL]), (post ++ [chNL]).
  split; [by rewrite HM, <- !app_assoc|]. apply json_unquote_string.
Qed.

(** ** A concrete log *)
Definition sample_event : Event :=
  mkEvent 1709251199123450000 (go "command") (go "/root") (go "echo 'x'" ++ [chNL] ++ go "{") [go "x"] [] [].
Definition sample_call : call := MkCall sample_event 0 (MkWrite 8192 None).

Lemma sample_line :
  event_line sample_event
  = go "{" ++ json_string (go "time") ++ go ":" ++ json_string (go "2024-02-29T23:59:59.12345Z")
    ++ go "," ++ json_string (go "type") ++ go ":" ++ json_string (go "command")
    ++ go "," ++ json_string (go "cwd") ++ go ":" ++ json_string (go "/root")
    ++ go "," ++ json_string (go "command") ++ go ":" ++ [chDQ] ++ go "echo 'x'\n{" ++ [chDQ]
    ++ go "," ++ json_string (go "args") ++ go ":[" ++ json_string (go "x") ++ go "]}" ++ [chNL].
Proof. vm_compute. reflexivity. Qed.


