(* ===== verification/GoFloat.v ===== *)
(** * Floating-point numbers, as far as the configuration uses them.

    A [float64] is a rational, an infinity or NaN; comparisons are those of IEEE
    754, all false on NaN.  Arithmetic is exact: rounding is not modelled.  The
    syntax of floats and durations, with the rounding it implies, and the result
    of converting a float that does not fit the integer type, which Go leaves to
    the implementation, are the parameters of the class [GoNumbers]. *)
From Stdlib Require Import Ascii String ZArith QArith Qround Lia.
From stdpp Require Import base strings list.
From S2P Require Import Prelude.
Local Open Scope Z_scope.

Inductive float64 := Fin (q : Q) | PosInf | NegInf | NaN.

Definition fle (a b : float64) : bool :=
  match a, b with
  | NaN, _ | _, NaN => false
  | NegInf, _ | _, PosInf => true
  | PosInf, _ | _, NegInf => false
  | Fin x, Fin y => Qle_bool x y
  end.
Definition feq (a b : float64) : bool := fle a b && fle b a.
Definition flt (a b : float64) : bool := fle a b && negb (fle b a).

(** Products and quotients with a positive constant. *)
Definition fscale (q : Q) (a : float64) : float64 :=
  match a with Fin x => Fin (x * q) | _ => a end.

Class GoNumbers := {
  ParseFloat : gostring -> option float64;
  ParseDuration : gostring -> option Z;
  conversion_overflow : float64 -> Z }.

(** Conversion to an integer type with values from [lo] to [hi]. *)
Definition truncate (q : Q) : Z := if Qle_bool 0 q then Qfloor q else Qceiling q.
Definition to_int `{GoNumbers} (lo hi : Z) (a : float64) : Z :=
  match a with
  | Fin x => let z := truncate x in if (lo <=? z) && (z <=? hi) then z else conversion_overflow a
  | _ => conversion_overflow a
  end.

(** [int64] arithmetic. *)
Definition wrap64 (z : Z) : Z := (z + 2 ^ 63) mod 2 ^ 64 - 2 ^ 63.

Lemma wrap64_id z : - 2 ^ 63 <= z < 2 ^ 63 -> wrap64 z = z.
Proof. intros H. unfold wrap64. rewrite Z.mod_small; lia. Qed.
