(* ===== verification/AppConf.v ===== *)
(** * Server configuration: conf/conf.go, conf/set_utils.go, utils/rateconf.go.

    The configuration structs, their defaults and validation, and the merge of
    command-line flags and module options.  A Go map that is ranged over gives
    its elements in an order that is an argument.  The TOML decoder is a
    parameter: it writes a file's values over a configuration.

    Proved: merging does not depend on the order of the flag set; explicit git
    settings are never replaced by derived ones; what validation accepts. *)
From Stdlib Require Import Ascii String ZArith QArith Lia.
From stdpp Require Import base gmap strings list sorting.
From S2P Require Import Prelude GoStrings GoPath GoFloat ShellConf GitConfig.
Local Open Scope Z_scope.

(** ** Rate limits (utils/rateconf.go) *)
Record RateLimitConfig := MkRateLimit { rl_Interval : Z; rl_Limit : Z; rl_PerIP : bool }.

Definition Millisecond : Z := 1000000.

Section Rate.
Context `{UnicodeTables} `{GoNumbers}.

(** [Duration.UnmarshalText]. *)
Definition UnmarshalText (text : gostring) : res Z :=
  match ParseFloat text with
  | Some n => Ok (wrap64 (to_int int64_min int64_max (fscale 1000 n) * Millisecond))
  | None =>
      match ParseDuration text with
      | Some d => Ok d
      | None => Err (errors_New (go "cannot unmarshal " ++ Quote text ++ go " into a Duration"))
      end
  end.

Definition Atoi_error (s : gostring) : error := errors_New (go "strconv.Atoi: parsing " ++ Quote s).

Definition ParseRateLimit (s : gostring) : res RateLimitConfig :=
  let parts := Split s ":"%char in
  match parts with
  | p0 :: p1 :: rest =>
      if (2 <? length parts)%nat && negb (length parts =? 3)%nat
      then Err (errors_New (go "invalid rate limit string: '" ++ s ++ go "', expected format: `interval:limit[:tag]`"))
      else
        let perip := match rest with
                     | tag :: _ => (ToLower tag =s go "p") || (ToLower tag =s go "perip")
                     | [] => false
                     end in
        interval ← UnmarshalText p0;
        match Atoi p1 with
        | None => Err (Atoi_error p1)
        | Some limit =>
            if interval <=? 0 then Err (errors_New (go "rate limit interval must be positive: " ++ p0))
            else if limit <=? 0 then Err (errors_New (go "rate limit limit must be positive: " ++ Itoa limit))
            else Ok (MkRateLimit interval limit perip)
        end
  | _ => Err (errors_New (go "invalid rate limit string: '" ++ s ++ go "', expected format: `interval:limit[:tag]`"))
  end.

Fixpoint parse_rates (rs : list gostring) : res (list RateLimitConfig) :=
  match rs with
  | [] => Ok []
  | r :: rs =>
      let r := TrimSpace r in
      if r =s [] then parse_rates rs
      else
        x ← ParseRateLimit r;
        xs ← parse_rates rs;
        Ok (x :: xs)
  end.

Fixpoint ParseCmdlineRateLimits (ss : list gostring) : res (list RateLimitConfig) :=
  match ss with
  | [] => Ok []
  | s :: ss =>
      xs ← parse_rates (Split s ";"%char);
      ys ← ParseCmdlineRateLimits ss;
      Ok (xs ++ ys)
  end.
End Rate.

(** ** The configuration (conf/conf.go, conf/default.go) *)
Record MaxConnectionsConfig := MkMaxConns { mc_Max : Z; mc_HardMax : Z; mc_LossRatio : float64 }.
Record UserConfig := MkUser { u_User : gostring; u_Password : gostring }.

Record ServerConf := MkServerConf {
  sv_ServPort : gostring; sv_SSHVersion : gostring;
  sv_MaxTry : Z; sv_Delay : Z; sv_Deviation : Z; sv_AntiScan : bool;
  sv_SuccessRatio : float64; sv_SuccessSeed : gostring;
  sv_RateLimits : list (option RateLimitConfig); sv_Users : list (option UserConfig);
  sv_MaxConn : MaxConnectionsConfig; sv_MaxSuccConn : MaxConnectionsConfig }.
Record LogConf := MkLogConf { lc_LogFile : gostring; lc_LogLevel : gostring; lc_LogFormat : gostring; lc_IsLogPasswd : bool }.
Record KeyConf := MkKeyConf { kc_KeyFiles : list gostring; kc_KeyType : gostring }.
Record BaseConfig := MkBase { bc_Server : ServerConf; bc_Log : LogConf; bc_Key : KeyConf }.

Record gitserverExplicitState := MkExplicit { ex_SSHUser : bool; ex_RepoRoot : bool; ex_AuthorizedKeys : bool }.
Record AppConfig := MkApp {
  ac_Base : BaseConfig; ac_GitServer : GitConfig.Config; ac_FakeShell : FakeshellConfig;
  ac_explicit : gitserverExplicitState }.

Definition no_conns : MaxConnectionsConfig := MkMaxConns 0 0 (Fin 0).
Definition DefaultBind : gostring := go ":22".
Definition DefaultSSHVersion : gostring := go "OpenSSH_9.3p1".

(** [BaseConfig.FillDefault] keeps the fields it does not name. *)
Definition Base_FillDefault (c : BaseConfig) : BaseConfig :=
  let s := bc_Server c in
  MkBase
    (MkServerConf DefaultBind DefaultSSHVersion 3 0 0 true (sv_SuccessRatio s) (sv_SuccessSeed s)
       (sv_RateLimits s) (sv_Users s) (sv_MaxConn s) (sv_MaxSuccConn s))
    (MkLogConf (lc_LogFile (bc_Log c)) (go "info") (go "plain") false)
    (MkKeyConf (kc_KeyFiles (bc_Key c)) (go "ed25519")).

Definition zero_base : BaseConfig :=
  MkBase (MkServerConf [] [] 0 0 0 false (Fin 0) [] [] [] no_conns no_conns) (MkLogConf [] [] [] false) (MkKeyConf [] []).
Definition zero_git : GitConfig.Config :=
  GitConfig.MkConfig false [] false [] [] [] [] false 0 false [] [] [] (MkSSHBackend [] [] [] [] 0).
Definition zero_shell : FakeshellConfig :=
  mkFakeshellConfig false (mkEnvConfig [] [] [] [] [] false ∅) [] (mkLogConfig false [] []).

Definition NewDefaultAppConfig : AppConfig :=
  MkApp (Base_FillDefault zero_base) (GitConfig.FillDefault zero_git) (ShellConf.FillDefault zero_shell)
    (MkExplicit false false false).

(** ** Validation *)
Fixpoint check_rates (rs : list (option RateLimitConfig)) : option error :=
  match rs with
  | [] => None
  | None :: _ => Some (errors_New (go "nil rate limit config"))
  | Some r :: rs =>
      if rl_Interval r <=? 0 then Some (errors_New (go "rate limit interval must be positive"))
      else if rl_Limit r <=? 0 then Some (errors_New (go "rate limit limit must be positive: " ++ Itoa (rl_Limit r)))
      else check_rates rs
  end.

Section Check.
Context `{UnicodeTables}.

Fixpoint check_users (seen : gset gostring) (us : list (option UserConfig)) : option error :=
  match us with
  | [] => None
  | None :: _ => Some (errors_New (go "nil user config"))
  | Some u :: us =>
      if u_User u =s [] then Some (errors_New (go "user name cannot be empty"))
      else if u_Password u =s []
      then Some (errors_New (go "password for user " ++ Quote (u_User u) ++ go " cannot be empty"))
      else if decide (u_User u ∈ seen) then Some (errors_New (go "duplicated user: " ++ u_User u))
      else check_users ({[u_User u]} ∪ seen) us
  end.

Definition Base_CheckConfig (c : BaseConfig) : option error :=
  let r := sv_SuccessRatio (bc_Server c) in
  if flt (Fin 100) r || flt r (Fin 0)
  then Some (errors_New (go "`SuccessRatio` must between 0. and 100."))
  else
    match check_rates (sv_RateLimits (bc_Server c)) with
    | Some e => Some e
    | None => check_users ∅ (sv_Users (bc_Server c))
    end.

(** [AppConfig.CheckConfig], both modules embedded: the configuration with the
    modules' defaults filled in. *)
Definition App_CheckConfig (Lstat : gostring -> res file_mode) (range_Envs : list (gostring * gostring))
    (c : AppConfig) : res AppConfig :=
  match Base_CheckConfig (ac_Base c) with
  | Some e => Err e
  | None =>
      match check_and_fill (ac_GitServer c) with
      | (_, Some e) => Err e
      | (g, None) =>
          f ← ShellConf.CheckAndFillConfig Lstat range_Envs (ac_FakeShell c);
          Ok (MkApp (ac_Base c) g f (ac_explicit c))
      end
  end.
End Check.

(** ** Command-line flags (conf/flags.go, conf/set_utils.go) *)
Record FlagArgs := MkFlags {
  fa_LogFile : gostring; fa_LogLevel : gostring; fa_LogFormat : gostring; fa_IsLogPasswd : bool;
  fa_KeyFiles : list gostring; fa_KeyType : gostring; fa_ServPort : gostring; fa_SSHVersion : gostring;
  fa_Delay : Z; fa_Deviation : Z; fa_MaxTry : Z; fa_SuccessRatio : float64; fa_SuccessSeed : gostring;
  fa_RateLimits : list gostring; fa_Users : list gostring; fa_MaxConns : gostring; fa_MaxSuccConns : gostring;
  fa_Options : list gostring }.

(** The names of the flags of the switch in [MergeConfig]; a name of the set that is not
    among them changes nothing. *)
Inductive flag :=
| FlagBind | FlagSSHVersion | FlagMaxTry | FlagDelay | FlagDeviation
| FlagLogFile | FlagLogLevel | FlagLogFormat | FlagLogPasswd
| FlagKeyPaths | FlagKeyType | FlagEnableAntiScan | FlagDisableAntiScan
| FlagSuccessRatio | FlagSuccessSeed.
#[export] Instance flag_eq_dec : EqDecision flag.
Proof. solve_decision. Defined.

Definition flags : list (gostring * flag) :=
  [(go "bind", FlagBind); (go "version", FlagSSHVersion); (go "try", FlagMaxTry); (go "delay", FlagDelay);
   (go "devia", FlagDeviation); (go "log", FlagLogFile); (go "level", FlagLogLevel);
   (go "format", FlagLogFormat); (go "passwd", FlagLogPasswd); (go "key", FlagKeyPaths);
   (go "type", FlagKeyType); (go "a", FlagEnableAntiScan); (go "A", FlagDisableAntiScan);
   (go "r", FlagSuccessRatio); (go "seed", FlagSuccessSeed)].

Fixpoint flag_of (names : list (gostring * flag)) (s : gostring) : option flag :=
  match names with
  | [] => None
  | (n, f) :: names => if s =s n then Some f else flag_of names s
  end.

(** One round of [set.ForEach]: the configuration and the two anti-scan switches. *)
Record merge_state := MkMerge { ms_base : BaseConfig; ms_enableAnti : bool; ms_disableAnti : bool }.

Definition apply_flag (f : FlagArgs) (m : merge_state) (fl : flag) : merge_state :=
  let c := ms_base m in
  let s := bc_Server c in let l := bc_Log c in let k := bc_Key c in
  let server s := MkMerge (MkBase s l k) (ms_enableAnti m) (ms_disableAnti m) in
  let logc l := MkMerge (MkBase s l k) (ms_enableAnti m) (ms_disableAnti m) in
  let keyc k := MkMerge (MkBase s l k) (ms_enableAnti m) (ms_disableAnti m) in
  let srv port version try delay devia ratio seed :=
    server (MkServerConf port version try delay devia (sv_AntiScan s) ratio seed
              (sv_RateLimits s) (sv_Users s) (sv_MaxConn s) (sv_MaxSuccConn s)) in
  let '(MkServerConf port version try delay devia _ ratio seed _ _ _ _) := s in
  let '(MkLogConf file level format passwd) := l in
  match fl with
  | FlagBind => srv (fa_ServPort f) version try delay devia ratio seed
  | FlagSSHVersion => srv port (fa_SSHVersion f) try delay devia ratio seed
  | FlagMaxTry => srv port version (fa_MaxTry f) delay devia ratio seed
  | FlagDelay => srv port version try (fa_Delay f) devia ratio seed
  | FlagDeviation => srv port version try delay (fa_Deviation f) ratio seed
  | FlagSuccessRatio => srv port version try delay devia (fa_SuccessRatio f) seed
  | FlagSuccessSeed => srv port version try delay devia ratio (fa_SuccessSeed f)
  | FlagLogFile => logc (MkLogConf (fa_LogFile f) level format passwd)
  | FlagLogLevel => logc (MkLogConf file (fa_LogLevel f) format passwd)
  | FlagLogFormat => logc (MkLogConf file level (fa_LogFormat f) passwd)
  | FlagLogPasswd => logc (MkLogConf file level format (fa_IsLogPasswd f))
  | FlagKeyPaths => keyc (MkKeyConf (fa_KeyFiles f) (kc_KeyType k))
  | FlagKeyType => keyc (MkKeyConf (kc_KeyFiles k) (fa_KeyType f))
  | FlagEnableAntiScan => MkMerge c true (ms_disableAnti m)
  | FlagDisableAntiScan => MkMerge c (ms_enableAnti m) true
  end.

Definition merge_flag (f : FlagArgs) (m : merge_state) (s : gostring) : merge_state :=
  match flag_of flags s with Some fl => apply_flag f m fl | None => m end.

Definition merge_flags (f : FlagArgs) (range_set : list gostring) (c : BaseConfig) : BaseConfig :=
  let m := fold_left (merge_flag f) range_set (MkMerge c false false) in
  let c := ms_base m in
  if ms_enableAnti m || ms_disableAnti m then
    let s := bc_Server c in
    MkBase (MkServerConf (sv_ServPort s) (sv_SSHVersion s) (sv_MaxTry s) (sv_Delay s) (sv_Deviation s)
              (ms_enableAnti m) (sv_SuccessRatio s) (sv_SuccessSeed s) (sv_RateLimits s) (sv_Users s)
              (sv_MaxConn s) (sv_MaxSuccConn s)) (bc_Log c) (bc_Key c)
  else c.

(** ** Derived settings of the git server *)
Record gitserverOptionState := MkOptState {
  os_initialUser : gostring; os_initialGitUserHome : gostring; os_initialSSHUser : gostring;
  os_initialRepoRoot : gostring; os_initialAuthorizedKeys : gostring;
  os_userSet : bool; os_gitUserHomeSet : bool; os_sshUserSet : bool; os_repoRootSet : bool;
  os_authorizedKeysSet : bool }.

Definition newGitserverOptionState (c : GitConfig.Config) (explicit : gitserverExplicitState) : gitserverOptionState :=
  MkOptState (gc_User c) (gc_GitUserHome c) (gc_SSHUser c) (gc_RepoRoot c) (gc_AuthorizedKeys c)
    false false (ex_SSHUser explicit) (ex_RepoRoot explicit) (ex_AuthorizedKeys explicit).

Section Merge.
Context `{UnicodeTables} `{GoNumbers}.

Definition note (s : gitserverOptionState) (key : gostring) : gitserverOptionState :=
  let '(MkOptState u h su rr ak us hs sus rrs aks) := s in
  let k := ToLower key in
  if k =s go "user" then MkOptState u h su rr ak true hs sus rrs aks
  else if k =s go "git_user_home" then MkOptState u h su rr ak us true sus rrs aks
  else if k =s go "ssh_user" then MkOptState u h su rr ak us hs true rrs aks
  else if k =s go "repo_root" then MkOptState u h su rr ak us hs sus true aks
  else if k =s go "authorized_keys" then MkOptState u h su rr ak us hs sus rrs true
  else s.

Definition keys_under (home : gostring) : gostring := home ++ go "/.ssh/authorized_keys".

Definition apply (s : gitserverOptionState) (c : GitConfig.Config) : GitConfig.Config :=
  let c :=
    if os_userSet s && negb (os_sshUserSet s)
       && ((os_initialSSHUser s =s []) || (os_initialSSHUser s =s os_initialUser s))
    then set_SSHUser (gc_User c) c else c in
  if os_gitUserHomeSet s then
    let c :=
      if negb (os_repoRootSet s)
         && ((os_initialRepoRoot s =s []) || (os_initialRepoRoot s =s os_initialGitUserHome s))
      then set_RepoRoot (gc_GitUserHome c) c else c in
    if negb (os_authorizedKeysSet s)
       && ((os_initialAuthorizedKeys s =s []) || (os_initialAuthorizedKeys s =s keys_under (os_initialGitUserHome s)))
    then set_AuthorizedKeys (keys_under (gc_GitUserHome c)) c else c
  else c.

Definition unsupported (raw : gostring) : error := errors_New (go "unsupported module option " ++ Quote raw).

(** The loop over the module options. *)
Fixpoint merge_options (opts : list gostring) (g : GitConfig.Config) (f : FakeshellConfig) (st : gitserverOptionState) :
    res (GitConfig.Config * FakeshellConfig * gitserverOptionState) :=
  match opts with
  | [] => Ok (g, f, st)
  | raw :: opts =>
      o ← ParseOpt raw;
      if optModule o =s go "fakeshell" then
        match ShellConf.MergeOptions f o with
        | (f, true) => merge_options opts g f st
        | (_, false) => Err (unsupported raw)
        end
      else if optModule o =s go "gitserver" then
        let st := note st (optKey o) in
        match GitConfig.MergeOptions g o with
        | (g, true) => merge_options opts g f st
        | (_, false) => Err (unsupported raw)
        end
      else Err (unsupported raw)
  end.

(** [parseMaxConnString]; [SplitN] gives at most three parts. *)
Definition part_int (x : gostring) : res Z :=
  if x =s [] then Ok 0 else match Atoi x with Some n => Ok n | None => Err (Atoi_error x) end.
Definition part_float (x : gostring) : res float64 :=
  if x =s [] then Ok (Fin 0)
  else match ParseFloat x with
       | Some q => Ok q
       | None => Err (errors_New (go "strconv.ParseFloat: parsing " ++ Quote x))
       end.
Definition parseMaxConnString (s : gostring) : res MaxConnectionsConfig :=
  let xs := SplitN s ":"%char 3 in
  mc ← match xs with x :: _ => part_int x | [] => Ok 0 end;
  ratio ← match xs with _ :: x :: _ => part_float x | _ => Ok (Fin 0) end;
  hmc ← match xs with _ :: _ :: x :: _ => part_int x | _ => Ok 0 end;
  Ok (MkMaxConns mc hmc ratio).

Fixpoint parse_users (us : list gostring) : res (list UserConfig) :=
  match us with
  | [] => Ok []
  | u :: us =>
      match SplitN u ":"%char 2 with
      | [name; password] =>
          if name =s [] then Err (errors_New (go "user name cannot be empty"))
          else xs ← parse_users us; Ok (MkUser name password :: xs)
      | _ => Err (errors_New (go "invalid user password format: " ++ Quote u))
      end
  end.

Definition conns_or (s : gostring) (old : MaxConnectionsConfig) : res MaxConnectionsConfig :=
  if s =s [] then Ok old else parseMaxConnString s.

(** [MergeConfig]; the callers stop the program on an error, so the partial
    changes made before it are dropped. *)
Definition MergeConfig (c : AppConfig) (f : FlagArgs) (range_set : list gostring) : res AppConfig :=
  let gitState := newGitserverOptionState (ac_GitServer c) (ac_explicit c) in
  let b := merge_flags f range_set (ac_Base c) in
  let s := bc_Server b in
  rs ← ParseCmdlineRateLimits (fa_RateLimits f);
  us ← parse_users (fa_Users f);
  mc ← conns_or (fa_MaxConns f) (sv_MaxConn s);
  msc ← conns_or (fa_MaxSuccConns f) (sv_MaxSuccConn s);
  gfs ← merge_options (fa_Options f) (ac_GitServer c) (ac_FakeShell c) gitState;
  let '(g, fk, st) := gfs in
  Ok (MkApp
        (MkBase (MkServerConf (sv_ServPort s) (sv_SSHVersion s) (sv_MaxTry s) (sv_Delay s) (sv_Deviation s)
                   (sv_AntiScan s) (sv_SuccessRatio s) (sv_SuccessSeed s)
                   (sv_RateLimits s ++ map Some rs) (sv_Users s ++ map Some us) mc msc)
           (bc_Log b) (bc_Key b))
        (apply st g) fk (ac_explicit c)).

(** [ParseConfig], with the two calls of the TOML decoder as parameters: which
    git settings a file names, and its values written over a configuration. *)
Definition ParseConfig (toml_explicit : gostring -> res gitserverExplicitState)
    (toml_unmarshal : gostring -> AppConfig -> res AppConfig) (s : gostring) : res AppConfig :=
  ex ← toml_explicit s;
  let c := MkApp (Base_FillDefault zero_base) zero_git (ShellConf.FillDefault zero_shell) ex in
  c ← toml_unmarshal s c;
  Ok (MkApp (ac_Base c) (GitConfig.FillDefault (ac_GitServer c)) (ac_FakeShell c) (ac_explicit c)).
End Merge.

(** ** Merging does not depend on the order of the flag set *)
Lemma apply_flag_comm f m a b : apply_flag f (apply_flag f m a) b = apply_flag f (apply_flag f m b) a.
Proof.
  destruct m as [[[] [] []] en dis]. destruct a, b; reflexivity.
Qed.

Lemma merge_flag_comm f m a b : merge_flag f (merge_flag f m a) b = merge_flag f (merge_flag f m b) a.
Proof. unfold merge_flag. destruct (flag_of flags a), (flag_of flags b); try done. apply apply_flag_comm. Qed.

Lemma fold_left_permutation {A B} (f : A -> B -> A) l l' a :
  (forall a x y, f (f a x) y = f (f a y) x) -> Permutation l l' -> fold_left f l a = fold_left f l' a.
Proof.
  intros Hf HP. revert a. induction HP as [|x l l' _ IH|x y l|l l1 l2 _ IH1 _ IH2]; intros a; cbn; [done|apply IH| |].
  - by rewrite Hf.
  - by rewrite IH1.
Qed.

(** The result of merging is the same for every order in which Go ranges
    over the set of flags. *)
Lemma MergeConfig_order `{UnicodeTables} `{GoNumbers} c f set1 set2 :
  Permutation set1 set2 -> MergeConfig c f set1 = MergeConfig c f set2.
Proof.
  intros HP. unfold MergeConfig, merge_flags.
  by rewrite (fold_left_permutation (merge_flag f) set1 set2 _ (merge_flag_comm f) HP).
Qed.

(** ** Explicit and derived settings of the git server *)
Section Derived.
Context `{UnicodeTables} `{GoNumbers}.

(** The value the options give a key of the git server, the last one winning. *)
Fixpoint option_value (opts : list gostring) (key : gostring) : option gostring :=
  match opts with
  | [] => None
  | raw :: opts =>
      match option_value opts key with
      | Some v => Some v
      | None =>
          match ParseOpt raw with
          | Ok o => if (optModule o =s go "gitserver") && (ToLower (optKey o) =s key) then Some (optValue o) else None
          | Err _ => None
          end
      end
  end.

(** A setting [get] of the git server that the option [key] writes and no other. *)
Definition setting (get : GitConfig.Config -> gostring) (key : gostring) : Prop :=
  forall g o g', GitConfig.MergeOptions g o = (g', true) -> optModule o = go "gitserver" ->
    get g' = if ToLower (optKey o) =s key then optValue o else get g.

(** A flag of the option state that the option [key] sets and no other. *)
Definition setting_flag (isset : gitserverOptionState -> bool) (key : gostring) : Prop :=
  forall st k, isset (note st k) = isset st || (ToLower k =s key).

(** Two different literals. *)
Ltac two_keys :=
  match goal with H1 : ?k = go _, H2 : ?k = go _ |- _ => rewrite H1 in H2; discriminate H2 end.

Ltac solve_setting :=
  intros g o g' E Em; unfold GitConfig.MergeOptions in E; rewrite Em in E;
  change (negb (ToLower (go "gitserver") =s go "gitserver")) with false in E; cbv iota zeta in E;
  repeat match type of E with
  | (if ?k =s ?s then _ else _) = _ => destruct (gos_eqb_spec k s)
  | match ?x with Some _ => _ | None => _ end = _ => destruct x
  end; try discriminate E; injection E as <-;
  try match goal with |- _ = if ?k =s ?s then _ else _ => destruct (gos_eqb_spec k s) end;
  solve [reflexivity | congruence | two_keys].

Lemma setting_User : setting gc_User (go "user").
Proof. solve_setting. Qed.
Lemma setting_GitUserHome : setting gc_GitUserHome (go "git_user_home").
Proof. solve_setting. Qed.
Lemma setting_SSHUser : setting gc_SSHUser (go "ssh_user").
Proof. solve_setting. Qed.
Lemma setting_RepoRoot : setting gc_RepoRoot (go "repo_root").
Proof. solve_setting. Qed.
Lemma setting_AuthorizedKeys : setting gc_AuthorizedKeys (go "authorized_keys").
Proof. solve_setting. Qed.

Ltac solve_flag :=
  intros [] k; unfold note;
  repeat match goal with |- context [if ?x =s ?y then _ else _] => destruct (gos_eqb_spec x y) end;
  try match goal with |- context [?x =s ?y] => destruct (gos_eqb_spec x y) end;
  cbn; rewrite ?orb_true_r, ?orb_false_r; solve [reflexivity | congruence | two_keys].

Lemma flag_userSet : setting_flag os_userSet (go "user").
Proof. solve_flag. Qed.
Lemma flag_gitUserHomeSet : setting_flag os_gitUserHomeSet (go "git_user_home").
Proof. solve_flag. Qed.
Lemma flag_sshUserSet : setting_flag os_sshUserSet (go "ssh_user").
Proof. solve_flag. Qed.
Lemma flag_repoRootSet : setting_flag os_repoRootSet (go "repo_root").
Proof. solve_flag. Qed.
Lemma flag_authorizedKeysSet : setting_flag os_authorizedKeysSet (go "authorized_keys").
Proof. solve_flag. Qed.

(** The initial values are never changed. *)
Definition initials (st : gitserverOptionState) : list gostring :=
  [os_initialUser st; os_initialGitUserHome st; os_initialSSHUser st; os_initialRepoRoot st; os_initialAuthorizedKeys st].
Lemma note_initials st k : initials (note st k) = initials st.
Proof. destruct st. unfold note. by repeat match goal with |- context [if ?x =s ?y then _ else _] => destruct (x =s y) end. Qed.

Lemma merge_options_initials opts g f st g' f' st' :
  merge_options opts g f st = Ok (g', f', st') -> initials st' = initials st.
Proof.
  revert g f st. induction opts as [|raw opts IH]; intros g f st; cbn [merge_options]; [by intros [= <- <- <-]|].
  destruct (ParseOpt raw) as [o|]; [|done]. cbn [mbind result_bind]. destruct (_ =s go "fakeshell").
  - destruct (ShellConf.MergeOptions f o) as [f1 []]; [apply IH|done].
  - destruct (_ =s go "gitserver"); [|done]. destruct (GitConfig.MergeOptions g o) as [g1 []]; [|done].
    intros E. by rewrite (IH _ _ _ E), note_initials.
Qed.

(** After the options a setting has the last value given, and its flag tells
    whether there was one. *)
Lemma merge_options_setting get isset key opts g f st g' f' st' :
  setting get key -> setting_flag isset key -> merge_options opts g f st = Ok (g', f', st') ->
  get g' = default (get g) (option_value opts key) /\
  isset st' = isset st || bool_decide (is_Some (option_value opts key)).
Proof.
  intros HS HF. revert g f st. induction opts as [|raw opts IH]; intros g f st; cbn [merge_options option_value].
  { intros [= <- <- <-]. split; [done|]. by rewrite orb_false_r. }
  destruct (ParseOpt raw) as [o|]; [|done]. cbn [mbind result_bind].
  destruct (gos_eqb_spec (optModule o) (go "fakeshell")) as [E|_].
  { destruct (ShellConf.MergeOptions f o) as [f1 []]; [|done]. intros [H1 H2]%IH.
    rewrite H1, H2, E. change (go "fakeshell" =s go "gitserver") with false. cbn [andb].
    by destruct (option_value opts key). }
  destruct (gos_eqb_spec (optModule o) (go "gitserver")) as [E|_]; [|done].
  destruct (GitConfig.MergeOptions g o) as [g1 []] eqn:EM; [|done]. intros [H1 H2]%IH. rewrite H1, H2.
  rewrite (HS _ _ _ EM E), (HF st (optKey o)). cbn [andb].
  destruct (option_value opts key); cbn [default]; [by rewrite !orb_true_r|].
  destruct (ToLower (optKey o) =s key); cbn [default]; by rewrite ?orb_true_r, ?orb_false_r.
Qed.
End Derived.

Lemma MergeConfig_git `{UnicodeTables} `{GoNumbers} c f range_set c' :
  MergeConfig c f range_set = Ok c' ->
  exists g fk st,
    merge_options (fa_Options f) (ac_GitServer c) (ac_FakeShell c)
      (newGitserverOptionState (ac_GitServer c) (ac_explicit c)) = Ok (g, fk, st) /\
    ac_GitServer c' = apply st g.
Proof.
  unfold MergeConfig. cbv zeta. intros E.
  repeat (match type of E with mbind _ ?x = _ => destruct x eqn:?; [|discriminate E] end; cbn [mbind result_bind] in E).
  match type of E with (let '(_, _) := ?x in _) = _ => destruct x as [[g fk] st] end.
  injection E as <-. by exists g, fk, st.
Qed.

Lemma apply_spec st g :
  gc_User (apply st g) = gc_User g /\ gc_GitUserHome (apply st g) = gc_GitUserHome g /\
  gc_SSHUser (apply st g)
  = (if os_userSet st && negb (os_sshUserSet st)
        && ((os_initialSSHUser st =s []) || (os_initialSSHUser st =s os_initialUser st))
     then gc_User g else gc_SSHUser g) /\
  gc_RepoRoot (apply st g)
  = (if os_gitUserHomeSet st && negb (os_repoRootSet st)
        && ((os_initialRepoRoot st =s []) || (os_initialRepoRoot st =s os_initialGitUserHome st))
     then gc_GitUserHome g else gc_RepoRoot g) /\
  gc_AuthorizedKeys (apply st g)
  = (if os_gitUserHomeSet st && negb (os_authorizedKeysSet st)
        && ((os_initialAuthorizedKeys st =s []) || (os_initialAuthorizedKeys st =s keys_under (os_initialGitUserHome st)))
     then keys_under (gc_GitUserHome g) else gc_AuthorizedKeys g).
Proof.
  unfold apply. set (su := _ || (os_initialSSHUser _ =s os_initialUser _)).
  set (rr := _ || (os_initialRepoRoot _ =s os_initialGitUserHome _)).
  set (ak := _ || (os_initialAuthorizedKeys _ =s keys_under _)).
  destruct (os_userSet st), (os_sshUserSet st), su, (os_gitUserHomeSet st), (os_repoRootSet st), rr,
    (os_authorizedKeysSet st), ak; repeat split.
Qed.

(** The value of a derived setting: the option's, else the explicit one of the
    file, else what it is derived from if that was given by an option and the
    old value was derived too, else the old value. *)
Definition derived (given : option gostring) (explicit source_given was_derived : bool) (source old : gostring) :
    gostring :=
  match given with
  | Some v => v
  | None => if explicit then old else if source_given && was_derived then source else old
  end.

(** The git server settings after merging: an explicit value, in the file or
    by an option, is never replaced by a derived one; values that follow the user
    or the home directory follow the final one. *)
Lemma MergeConfig_git_settings `{UnicodeTables} `{GoNumbers} c f range_set c' :
  MergeConfig c f range_set = Ok c' ->
  let g := ac_GitServer c in let g' := ac_GitServer c' in let ex := ac_explicit c in
  let v key := option_value (fa_Options f) (go key) in
  let given key := bool_decide (is_Some (v key)) in
  gc_User g' = default (gc_User g) (v "user") /\
  gc_GitUserHome g' = default (gc_GitUserHome g) (v "git_user_home") /\
  gc_SSHUser g' = derived (v "ssh_user") (ex_SSHUser ex) (given "user")
    ((gc_SSHUser g =s []) || (gc_SSHUser g =s gc_User g)) (gc_User g') (gc_SSHUser g) /\
  gc_RepoRoot g' = derived (v "repo_root") (ex_RepoRoot ex) (given "git_user_home")
    ((gc_RepoRoot g =s []) || (gc_RepoRoot g =s gc_GitUserHome g)) (gc_GitUserHome g') (gc_RepoRoot g) /\
  gc_AuthorizedKeys g' = derived (v "authorized_keys") (ex_AuthorizedKeys ex) (given "git_user_home")
    ((gc_AuthorizedKeys g =s []) || (gc_AuthorizedKeys g =s keys_under (gc_GitUserHome g)))
    (keys_under (gc_GitUserHome g')) (gc_AuthorizedKeys g).
Proof.
  intros EC. apply MergeConfig_git in EC as (g1 & f1 & st & E & ->). cbv zeta.
  destruct (merge_options_setting _ _ _ _ _ _ _ _ _ _ setting_User flag_userSet E) as [<- U].
  destruct (merge_options_setting _ _ _ _ _ _ _ _ _ _ setting_GitUserHome flag_gitUserHomeSet E) as [<- HH].
  destruct (merge_options_setting _ _ _ _ _ _ _ _ _ _ setting_SSHUser flag_sshUserSet E) as [S1 S2].
  destruct (merge_options_setting _ _ _ _ _ _ _ _ _ _ setting_RepoRoot flag_repoRootSet E) as [R1 R2].
  destruct (merge_options_setting _ _ _ _ _ _ _ _ _ _ setting_AuthorizedKeys flag_authorizedKeysSet E) as [A1 A2].
  apply merge_options_initials in E. injection E as I1 I2 I3 I4 I5.
  cbn [newGitserverOptionState os_userSet os_gitUserHomeSet os_sshUserSet os_repoRootSet os_authorizedKeysSet orb]
    in U, HH, S2, R2, A2.
  destruct (apply_spec st g1) as (-> & -> & -> & -> & ->). unfold derived.
  rewrite U, HH, S1, S2, R1, R2, A1, A2, I1, I2, I3, I4, I5. split; [done|]. split; [done|].
  set (u := bool_decide (is_Some (option_value (fa_Options f) (go "user")))). clearbody u.
  set (h := bool_decide (is_Some (option_value (fa_Options f) (go "git_user_home")))). clearbody h.
  set (su := _ || (gc_SSHUser _ =s gc_User _)). set (rr := _ || (gc_RepoRoot _ =s gc_GitUserHome _)).
  set (ak := _ || (gc_AuthorizedKeys _ =s keys_under _)). clearbody su rr ak.
  repeat split.
  - destruct (option_value _ (go "ssh_user")), (ex_SSHUser _), u, su; reflexivity.
  - destruct (option_value _ (go "repo_root")), (ex_RepoRoot _), h, rr; reflexivity.
  - destruct (option_value _ (go "authorized_keys")), (ex_AuthorizedKeys _), h, ak; reflexivity.
Qed.

(** ** What validation accepts *)
Lemma check_rates_None rs :
  check_rates rs = None -> Forall (fun r => exists x, r = Some x /\ 0 < rl_Interval x /\ 0 < rl_Limit x) rs.
Proof.
  induction rs as [|[x|] rs IH]; cbn [check_rates]; [constructor| |done].
  destruct (Z.leb_spec (rl_Interval x) 0); [done|]. destruct (Z.leb_spec (rl_Limit x) 0); [done|].
  intros HN. constructor; [by exists x|auto].
Qed.

Lemma parse_rates_positive `{UnicodeTables} `{GoNumbers} ss rs :
  ParseCmdlineRateLimits ss = Ok rs -> Forall (fun x => 0 < rl_Interval x /\ 0 < rl_Limit x) rs.
Proof.
  assert (forall s x, ParseRateLimit s = Ok x -> 0 < rl_Interval x /\ 0 < rl_Limit x) as HP.
  { intros s x. unfold ParseRateLimit. destruct (Split s _) as [|p0 [|p1 rest]]; [done..|].
    destruct (_ && _); [done|]. destruct (UnmarshalText p0) as [d|]; [|done]. cbn [mbind result_bind].
    destruct (Atoi p1) as [n|]; [|done]. destruct (Z.leb_spec d 0); [done|]. destruct (Z.leb_spec n 0); [done|].
    intros [= <-]. by cbn. }
  assert (forall l xs, parse_rates l = Ok xs -> Forall (fun x => 0 < rl_Interval x /\ 0 < rl_Limit x) xs) as HL.
  { induction l as [|r l IH]; intros xs; cbn [parse_rates]; [intros [= <-]; constructor|].
    destruct (_ =s _); [apply IH|]. destruct (ParseRateLimit _) as [x|] eqn:E; [|done]. cbn [mbind result_bind].
    destruct (parse_rates l); [|done]. intros [= <-]. constructor; [by apply (HP _ _ E)|auto]. }
  revert rs. induction ss as [|s ss IH]; intros rs; cbn [ParseCmdlineRateLimits]; [intros [= <-]; constructor|].
  destruct (parse_rates _) as [xs|] eqn:E; [|done]. cbn [mbind result_bind].
  destruct (ParseCmdlineRateLimits ss); [|done]. intros [= <-]. apply Forall_app. eauto.
Qed.

Lemma check_users_None `{UnicodeTables} seen us :
  check_users seen us = None ->
  exists xs, us = map Some xs /\ NoDup (map u_User xs) /\
    Forall (fun u => u_User u <> [] /\ u_Password u <> [] /\ u_User u ∉ seen) xs.
Proof.
  revert seen. induction us as [|[u|] us IH]; intros seen; cbn [check_users]; [by exists []; repeat constructor| |done].
  destruct (gos_eqb_spec (u_User u) []); [done|]. destruct (gos_eqb_spec (u_Password u) []); [done|].
  destruct (decide _); [done|]. intros (xs & -> & HN & HF)%IH. exists (u :: xs). split; [done|]. cbn [map]. split.
  - constructor; [|done]. intros (v & Hv & Hx)%list_elem_of_fmap. rewrite Forall_forall in HF.
    destruct (HF _ Hx) as (_ & _ & HS). set_solver.
  - constructor; [done|]. eapply Forall_impl; [exact HF|]. cbn. intros v (H1 & H2 & H3). set_solver.
Qed.

(** A success ratio of NaN passes the range check. *)
Lemma nan_ratio_accepted `{UnicodeTables} c :
  Base_CheckConfig (MkBase
    (MkServerConf (sv_ServPort (bc_Server c)) (sv_SSHVersion (bc_Server c)) (sv_MaxTry (bc_Server c))
       (sv_Delay (bc_Server c)) (sv_Deviation (bc_Server c)) (sv_AntiScan (bc_Server c)) NaN
       (sv_SuccessSeed (bc_Server c)) [] [] (sv_MaxConn (bc_Server c)) (sv_MaxSuccConn (bc_Server c)))
    (bc_Log c) (bc_Key c)) = None.
Proof. reflexivity. Qed.

(** ** A concrete merge *)
Definition no_numbers : GoNumbers :=
  {| ParseFloat _ := None; ParseDuration _ := None; conversion_overflow _ := 0 |}.
Definition sample_flags : FlagArgs :=
  MkFlags [] [] [] false [] [] (go ":2222") [] 0 0 0 (Fin 0) [] [] [go "root:toor"] (go "10::20") []
    [go "gitserver.user=boss"; go "gitserver.git_user_home=/srv/git"; go "gitserver.repo_root=/repos"].


