(* ===== verification/Auth.v ===== *)
(** * Password authentication and anti-scan behaviour: [authCallback] and
    [checkCouldSuccess] of main.go, antiscan.go, and the client version check of
    third/ssh/fakessh_antiscan.go.

    What the callback logs and how long it sleeps is part of its result; the
    random number behind the deviation of the delay is an argument.

    Proved: who gets in by password and that this is never the git user; that
    the delay does not depend on the outcome; that raising the success ratio
    never locks a pair out; that the two copies of the version check agree. *)
From Stdlib Require Import Ascii String ZArith QArith Qround Lia Lqa.
From stdpp Require Import base gmap strings list.
From S2P Require Import Prelude GoStrings GoPath GoFloat ShellConf GitConfig GitServer AppConf.
Local Open Scope Z_scope.

(** ** main.go *)

(** Package fnv: FNV-1 with 64 bits. *)
Definition fnv64 (s : gostring) : Z :=
  fold_left (fun h b => Z.lxor (h * 1099511628211 mod 2 ^ 64) (bv b)) s 14695981039346656037.

(** The constant [math.MaxUint64] as a [float64] is 2^64. *)
Definition checkCouldSuccess `{GoNumbers} (seed : gostring) (successRatio : float64) (user pass : gostring) : bool :=
  let ratio := fscale (1 # 100) successRatio in
  if feq ratio (Fin 0) then false
  else if fle (Fin (99999999 # 100000000)) ratio then true
  else
    let sep := chNUL :: seed ++ [chNUL] in
    let pair := user ++ sep ++ pass in
    fnv64 pair <=? to_int 0 (2 ^ 64 - 1) (fscale (18446744073709551616 # 1) ratio).

Inductive auth_event :=
| LogLogin (user password : gostring) (login : bool)
| SleepNs (d : Z)
| PanicIntN (n : Z).

(** antiscan.go: [sleepAuthDelay].  [rand.IntN] panics unless its argument is
    positive, which it need not be when the sum overflows. *)
Definition sleepAuthDelay (c : ServerConf) (IntN : Z -> Z) : list auth_event :=
  let delay := sv_Delay c in
  if delay <=? 0 then []
  else
    let m := sv_Deviation c in
    if m <=? 0 then [SleepNs (wrap64 (Millisecond * delay))]
    else
      let start := wrap64 (delay - m) in
      let endd := wrap64 (delay + m) in
      let start := if start <? 0 then 0 else start in
      let n := wrap64 (endd - start) in
      if n <=? 0 then [PanicIntN n]
      else [SleepNs (wrap64 (Millisecond * wrap64 (start + IntN n)))].

Definition errAuthFailed : error := errors_New (go "auth failed").

(** The map of users: a later entry of the same name replaces an earlier one.  A nil entry,
    which [CheckConfig] has refused, is skipped. *)
Fixpoint users_Load (us : list (option UserConfig)) (name : gostring) : option gostring :=
  match us with
  | [] => None
  | u :: us =>
      match users_Load us name with
      | Some p => Some p
      | None => match u with
                | Some u => if u_User u =s name then Some (u_Password u) else None
                | None => None
                end
      end
  end.

Definition authCallback `{GoNumbers} (c : AppConfig) (seed user password : gostring) (IntN : Z -> Z) :
    res (option Permissions) * list auth_event :=
  let s := bc_Server (ac_Base c) in
  let p := if lc_IsLogPasswd (bc_Log (ac_Base c)) then password else go "*" in
  if gc_Enable (ac_GitServer c) && (user =s gc_SSHUser (ac_GitServer c)) then
    (Err errAuthFailed, LogLogin user p false :: sleepAuthDelay s IntN)
  else
    let succLogin :=
      match users_Load (sv_Users s) user with
      | Some v => password =s v
      | None => checkCouldSuccess seed (sv_SuccessRatio s) user password
      end in
    (if succLogin then Ok None else Err errAuthFailed, LogLogin user p succLogin :: sleepAuthDelay s IntN).

(** ** antiscan.go: client versions *)
Definition isOpenSSHScanSpace (c : ascii) : bool :=
  (c =c " ") || (c =c chFF) || (c =c chNL) || (c =c chCR) || (c =c chTAB) || (c =c chVT).

Fixpoint skip_space (s : gostring) : gostring :=
  match s with c :: t => if isOpenSSHScanSpace c then skip_space t else s | [] => [] end.
Fixpoint span_digits (s : gostring) : gostring * gostring :=
  match s with
  | c :: t => if is_digit c then let '(d, r) := span_digits t in (c :: d, r) else ([], s)
  | [] => ([], [])
  end.

Definition scanOpenSSHProtocolInt (input : gostring) : option (Z * gostring) :=
  let s := skip_space input in
  let '(sign, s) := match s with
                    | c :: t => if (c =c "+") || (c =c "-") then ([c], t) else ([], s)
                    | [] => ([], [])
                    end in
  let '(digits, rest) := span_digits s in
  if len digits =? 0 then None
  else match Atoi (sign ++ digits) with
       | Some value => Some (value, rest)
       | None => None
       end.

Definition CutPrefix (s p : gostring) : option gostring :=
  if HasPrefix s p then Some (drop (length p) s) else None.

Definition isOpenSSHCompatClientVersion (version : gostring) : bool :=
  match CutPrefix version (go "SSH-") with
  | None => false
  | Some rest =>
      match scanOpenSSHProtocolInt rest with
      | None => false
      | Some (major, rest) =>
          if negb (HasPrefix rest (go ".")) then false
          else
            match scanOpenSSHProtocolInt (drop 1 rest) with
            | None => false
            | Some (minor, rest) =>
                if negb (HasPrefix rest (go "-")) || (drop 1 rest =s []) then false
                else if major =? 2 then true
                else (major =? 1) && (minor =? 99)
            end
      end
  end.

(** ** third/ssh/fakessh_antiscan.go: the same check in the library *)
Definition fakesshParseOpenSSHProtocolVersion (version : gostring) : option (Z * Z) :=
  match CutPrefix version (go "SSH-") with
  | None => None
  | Some rest =>
      match scanOpenSSHProtocolInt rest with
      | None => None
      | Some (major, rest) =>
          if negb (HasPrefix rest (go ".")) then None
          else
            match scanOpenSSHProtocolInt (drop 1 rest) with
            | None => None
            | Some (minor, rest) =>
                if negb (HasPrefix rest (go "-")) then None
                else if drop 1 rest =s [] then None
                else Some (major, minor)
            end
      end
  end.
Definition fakesshOpenSSHProtocolMismatch (major minor : Z) : bool :=
  if major =? 2 then false else negb (major =? 1) || negb (minor =? 99).

(** ** Extra channels *)
Definition UnknownChannelType : Z := 3.
Definition ResourceShortage : Z := 4.
Definition rejectExtraChannel (chanType : gostring) : Z * gostring :=
  if negb (chanType =s go "session") then (UnknownChannelType, go "unknown channel type")
  else (ResourceShortage, go "resource shortage").

(** ** Who gets in *)
Definition no_entry (us : list (option UserConfig)) (name : gostring) : Prop :=
  forall v, In (Some v) us -> u_User v <> name.
Definition last_entry (us : list (option UserConfig)) (name p : gostring) : Prop :=
  exists l1 u l2, us = l1 ++ Some u :: l2 /\ u_User u = name /\ u_Password u = p /\ no_entry l2 name.

Lemma users_Load_spec us name :
  match users_Load us name with
  | Some p => last_entry us name p
  | None => no_entry us name
  end.
Proof.
  induction us as [|o us IH]; cbn [users_Load]; [intros v []|].
  destruct (users_Load us name) as [q|].
  - destruct IH as (l1 & u & l2 & -> & R). by exists (o :: l1), u, l2.
  - destruct o as [u|]; [|intros v [[=]|Hv]; by apply IH].
    destruct (gos_eqb_spec (u_User u) name) as [E|E]; [by exists [], u, us|].
    intros v [[= <-]|Hv]; [done|by apply IH].
Qed.

Lemma last_entry_unique us name p q : last_entry us name p -> last_entry us name q -> p = q.
Proof.
  intros (l1 & u & l2 & -> & Hu & <- & Hl) (m1 & v & m2 & E & Hv & <- & Hm).
  revert m1 E. induction l1 as [|o l1 IH]; intros [|o' m1]; cbn [app]; intros E; injection E as E1 E.
  - by subst.
  - exfalso. apply (Hl v); [|done]. rewrite E. apply in_or_app. by right; left.
  - exfalso. apply (Hm u); [|done]. rewrite <- E. apply in_or_app. by right; left.
  - eauto.
Qed.

Lemma last_entry_not_none us name p : last_entry us name p -> ~ no_entry us name.
Proof.
  intros (l1 & u & l2 & -> & Hu & _) Hn. apply (Hn u); [|done]. apply in_or_app. by right; left.
Qed.

(** A password never gives permissions. *)
Lemma authCallback_no_permissions `{GoNumbers} c seed user password IntN ps :
  fst (authCallback c seed user password IntN) = Ok ps -> ps = None.
Proof.
  unfold authCallback. destruct (_ && _); [done|]. cbn [fst].
  destruct (match users_Load _ _ with Some _ => _ | None => _ end); [|done]. by intros [= <-].
Qed.

(** C34.  Password authentication.  A pair is accepted exactly when the user is
    not the user of an enabled git server and either the configured user list
    has the user, the password being that of its last entry, or it has no such
    entry and the success ratio admits the pair; it never produces permissions,
    so the session cannot become a git session; and what the callback does after
    logging, its delay, is the same for every user and password. *)
Theorem authCallback_correct `{GoNumbers} c seed user password IntN :
  let r := authCallback c seed user password IntN in
  let us := sv_Users (bc_Server (ac_Base c)) in
  (fst r = Ok None <->
   ~ (gc_Enable (ac_GitServer c) = true /\ user = gc_SSHUser (ac_GitServer c)) /\
   (last_entry us user password \/
    no_entry us user /\ checkCouldSuccess seed (sv_SuccessRatio (bc_Server (ac_Base c))) user password = true)) /\
  (fst r = Ok None \/ fst r = Err errAuthFailed) /\
  (forall ps, fst r = Ok ps -> IsGitPermission ps = false) /\
  (forall user' password', tail (snd (authCallback c seed user' password' IntN)) = tail (snd r)).
Proof.
  intros r us.
  assert (HT : forall u p, tail (snd (authCallback c seed u p IntN)) = sleepAuthDelay (bc_Server (ac_Base c)) IntN).
  { intros u p. unfold authCallback. by destruct (_ && _). }
  split_and!; [| | |intros; subst r; by rewrite !HT]; subst r us; unfold authCallback.
  - destruct (gc_Enable (ac_GitServer c)) eqn:EG; cbn [andb].
    1: destruct (gos_eqb_spec user (gc_SSHUser (ac_GitServer c))) as [->|Hne]; cbn [fst]; [split; [done|]; naive_solver|].
    all: pose proof (users_Load_spec (sv_Users (bc_Server (ac_Base c))) user) as HL;
      destruct (users_Load _ user) as [v|]; cbn [fst].
    1,3: destruct (gos_eqb_spec password v) as [->|Hp]; [naive_solver|split; [done|]];
      intros [_ [HE|[HN _]]]; [destruct Hp; exact (last_entry_unique _ _ _ _ HE HL)|by destruct (last_entry_not_none _ _ _ HL)].
    all: destruct (checkCouldSuccess _ _ _ _); [naive_solver|split; [done|]];
      intros [_ [HE|[_ HC]]]; [by destruct (last_entry_not_none _ _ _ HE)|done].
  - destruct (_ && _); [by right|]. cbn [fst]. destruct (match users_Load _ _ with Some _ => _ | None => _ end); auto.
  - intros ps E. by apply authCallback_no_permissions in E as ->.
Qed.

(** *** The success ratio *)
Lemma Qfloor_range q : (0 <= q)%Q -> (q < 18446744073709551616 # 1)%Q -> 0 <= Qfloor q <= 2 ^ 64 - 1.
Proof.
  intros H0 H1. split; [apply (Qfloor_resp_le 0 q H0)|].
  assert (inject_Z (Qfloor q) < inject_Z (2 ^ 64))%Q as H2; [|rewrite <- Zlt_Qlt in H2; lia].
  eapply Qle_lt_trans; [apply Qfloor_le|exact H1].
Qed.

Lemma threshold_exact `{GoNumbers} q :
  (0 <= q)%Q -> (q < 1)%Q ->
  to_int 0 (2 ^ 64 - 1) (fscale (18446744073709551616 # 1) (Fin q)) = Qfloor (q * (18446744073709551616 # 1)).
Proof.
  intros H0 H1. cbn [to_int fscale]. unfold truncate.
  assert (0 <= q * (18446744073709551616 # 1))%Q as H2 by (apply Qmult_le_0_compat; [done|discriminate]).
  rewrite (proj2 (Qle_bool_iff _ _) H2).
  assert (q * (18446744073709551616 # 1) < 18446744073709551616 # 1)%Q as H3.
  { rewrite <- (Qmult_1_l (18446744073709551616 # 1)) at 2. apply Qmult_lt_r; [reflexivity|done]. }
  destruct (Qfloor_range _ H2 H3) as [H4 H5].
  by rewrite (proj2 (Z.leb_le _ _) H4), (proj2 (Z.leb_le _ _) H5).
Qed.

(** The accepted user and password pairs grow with the success ratio: a
    pair accepted at one ratio is accepted at every higher one, none at 0, all
    from 99.999999 on. *)
Lemma checkCouldSuccess_monotone `{GoNumbers} seed q1 q2 user pass :
  (0 <= q1)%Q -> (q1 <= q2)%Q -> (q2 <= 100)%Q ->
  (checkCouldSuccess seed (Fin q1) user pass = true -> checkCouldSuccess seed (Fin q2) user pass = true) /\
  checkCouldSuccess seed (Fin 0) user pass = false /\
  ((99999999 # 1000000 <= q2)%Q -> checkCouldSuccess seed (Fin q2) user pass = true).
Proof.
  intros H0 H12 H2. unfold checkCouldSuccess. split_and!; [|reflexivity|].
  2: { intros H3. cbn [fscale].
       assert (99999999 # 100000000 <= q2 * (1 # 100))%Q as H4 by lra.
       unfold feq. cbn [fle]. rewrite (proj2 (Qle_bool_iff _ _) H4).
       destruct (Qle_bool (q2 * (1 # 100)) 0) eqn:E; [|done]. apply Qle_bool_iff in E. lra. }
  cbn [fscale]. unfold feq. cbn [fle].
  assert (0 <= q1 * (1 # 100))%Q as H3 by lra. assert (0 <= q2 * (1 # 100))%Q as H4 by lra.
  rewrite (proj2 (Qle_bool_iff _ _) H3), (proj2 (Qle_bool_iff _ _) H4), !andb_true_r.
  destruct (Qle_bool (q1 * (1 # 100)) 0) eqn:E1; [done|].
  destruct (Qle_bool (q2 * (1 # 100)) 0) eqn:E2.
  { apply Qle_bool_iff in E2. exfalso. apply not_true_iff_false in E1. apply E1, Qle_bool_iff. lra. }
  destruct (Qle_bool (99999999 # 100000000) (q2 * (1 # 100))) eqn:E4; [done|].
  assert (q2 * (1 # 100) < 99999999 # 100000000)%Q as H5.
  { apply Qnot_le_lt. intros H5. apply Qle_bool_iff in H5. congruence. }
  destruct (Qle_bool (99999999 # 100000000) (q1 * (1 # 100))) eqn:E3.
  { apply Qle_bool_iff in E3. exfalso. lra. }
  change (Fin (q1 * (1 # 100) * (18446744073709551616 # 1))) with
    (fscale (18446744073709551616 # 1) (Fin (q1 * (1 # 100)))).
  change (Fin (q2 * (1 # 100) * (18446744073709551616 # 1))) with
    (fscale (18446744073709551616 # 1) (Fin (q2 * (1 # 100)))).
  rewrite !threshold_exact by lra. rewrite !Z.leb_le. intros HH. etrans; [exact HH|].
  apply Qfloor_resp_le. lra.
Qed.

(** *** The delay *)

(** With a delay and a deviation whose sum in nanoseconds fits the duration,
    the random draw is over a non-empty range and the sleep lies between the
    bounds the configuration names. *)
Lemma sleepAuthDelay_bounds c IntN :
  (forall n, 0 < n -> 0 <= IntN n < n) ->
  0 < sv_Delay c -> Millisecond * (sv_Delay c + Z.max 0 (sv_Deviation c)) < 2 ^ 63 ->
  exists d, sleepAuthDelay c IntN = [SleepNs (Millisecond * d)] /\
    Z.max 0 (sv_Delay c - Z.max 0 (sv_Deviation c)) <= d <= sv_Delay c + Z.max 0 (sv_Deviation c) /\
    (0 < sv_Deviation c -> d < sv_Delay c + sv_Deviation c).
Proof.
  unfold Millisecond. intros HI HD HB. unfold sleepAuthDelay, Millisecond.
  destruct (Z.leb_spec (sv_Delay c) 0); [lia|].
  destruct (Z.leb_spec (sv_Deviation c) 0) as [Hm|Hm].
  - exists (sv_Delay c). rewrite wrap64_id by lia. split; [done|lia].
  - rewrite !(wrap64_id (sv_Delay c + _)), !(wrap64_id (sv_Delay c - _)) by lia.
    set (st := if _ <? 0 then 0 else _).
    assert (Hst : st = Z.max 0 (sv_Delay c - sv_Deviation c)) by (subst st; destruct (Z.ltb_spec (sv_Delay c - sv_Deviation c) 0); lia).
    clearbody st. subst st. set (st := Z.max 0 _). assert (Hst : st = Z.max 0 (sv_Delay c - sv_Deviation c)) by done. clearbody st.
    rewrite (wrap64_id (_ - st)) by lia. destruct (Z.leb_spec (sv_Delay c + sv_Deviation c - st) 0) as [|Hn]; [lia|].
    specialize (HI _ Hn). set (k := IntN _) in *. clearbody k.
    exists (st + k). rewrite (wrap64_id (st + k)) by lia. rewrite wrap64_id by lia. split; [done|lia].
Qed.

(** *** Client versions: the check of the server and that of the library agree *)
Lemma version_checks_agree v :
  isOpenSSHCompatClientVersion v =
  match fakesshParseOpenSSHProtocolVersion v with
  | Some (major, minor) => negb (fakesshOpenSSHProtocolMismatch major minor)
  | None => false
  end.
Proof.
  unfold isOpenSSHCompatClientVersion, fakesshParseOpenSSHProtocolVersion, fakesshOpenSSHProtocolMismatch.
  destruct (CutPrefix v _) as [r|]; [|done]. destruct (scanOpenSSHProtocolInt r) as [[M r1]|]; [|done].
  destruct (negb (HasPrefix r1 _)); [done|]. destruct (scanOpenSSHProtocolInt _) as [[m r2]|]; [|done].
  destruct (negb (HasPrefix r2 _)); [done|]. cbn [orb]. destruct (_ =s _); [done|].
  destruct (M =? 2); [done|]. by rewrite negb_orb, !negb_involutive.
Qed.

Example version_accepts :
  map isOpenSSHCompatClientVersion
    [go "SSH-2.0-OpenSSH_9.3"; go "SSH-1.99-x"; go "SSH-1.5-x"; go "SSH-2.0-"; go "SSH- +2. 0-x"; go "HTTP/1.1"]
  = [true; true; false; false; true; false].
Proof. vm_compute. reflexivity. Qed.

Example checkCouldSuccess_grows :
  @checkCouldSuccess no_numbers (go "s") (Fin 60) (go "root") (go "1") = true /\
  @checkCouldSuccess no_numbers (go "s") (Fin 90) (go "root") (go "1") = true.
Proof.
  assert (H : @checkCouldSuccess no_numbers (go "s") (Fin 60) (go "root") (go "1") = true) by (vm_compute; reflexivity).
  split; [exact H|].
  refine (proj1 (@checkCouldSuccess_monotone no_numbers (go "s") 60 90 (go "root") (go "1") _ _ _) H);
    unfold Qle; simpl; lia.
Qed.
