(* ===== verification/SshAlgos.v ===== *)
(** * Algorithm names and their negotiation: third/ssh/common.go, the tables of
    certs.go, cipher.go, mac.go and kex.go, fakessh_algorithms.go and the lists
    of antiscan.go.

    FIPS mode is off.  The tables of cipher, MAC and key exchange
    implementations are their sets of names.

    Proved: client and server, each with its own call, agree on every algorithm
    or both fail; a configuration offers only implemented algorithms, in its own
    order; what the anti-scan mode advertises survives unchanged. *)
From Stdlib Require Import Ascii String ZArith Lia.
From stdpp Require Import base gmap strings list.
From S2P Require Import Prelude GoStrings SshWire SshMessages.
Local Open Scope Z_scope.

(** ** Names *)
Definition compressionNone := go "none".
Definition serviceUserAuth := go "ssh-userauth".
Definition serviceSSH := go "ssh-connection".

Definition CipherAES128GCM := go "aes128-gcm@openssh.com".
Definition CipherAES256GCM := go "aes256-gcm@openssh.com".
Definition CipherChaCha20Poly1305 := go "chacha20-poly1305@openssh.com".
Definition CipherAES128CTR := go "aes128-ctr".
Definition CipherAES192CTR := go "aes192-ctr".
Definition CipherAES256CTR := go "aes256-ctr".
Definition InsecureCipherAES128CBC := go "aes128-cbc".
Definition InsecureCipherTripleDESCBC := go "3des-cbc".
Definition InsecureCipherRC4 := go "arcfour".
Definition InsecureCipherRC4128 := go "arcfour128".
Definition InsecureCipherRC4256 := go "arcfour256".

Definition InsecureKeyExchangeDH1SHA1 := go "diffie-hellman-group1-sha1".
Definition InsecureKeyExchangeDH14SHA1 := go "diffie-hellman-group14-sha1".
Definition KeyExchangeDH14SHA256 := go "diffie-hellman-group14-sha256".
Definition KeyExchangeDH16SHA512 := go "diffie-hellman-group16-sha512".
Definition KeyExchangeDH18SHA512 := go "diffie-hellman-group18-sha512".
Definition KeyExchangeECDHP256 := go "ecdh-sha2-nistp256".
Definition KeyExchangeECDHP384 := go "ecdh-sha2-nistp384".
Definition KeyExchangeECDHP521 := go "ecdh-sha2-nistp521".
Definition KeyExchangeCurve25519 := go "curve25519-sha256".
Definition InsecureKeyExchangeDHGEXSHA1 := go "diffie-hellman-group-exchange-sha1".
Definition KeyExchangeDHGEXSHA256 := go "diffie-hellman-group-exchange-sha256".
Definition KeyExchangeMLKEM768X25519 := go "mlkem768x25519-sha256".
Definition keyExchangeCurve25519LibSSH := go "curve25519-sha256@libssh.org".

Definition HMACSHA256ETM := go "hmac-sha2-256-etm@openssh.com".
Definition HMACSHA512ETM := go "hmac-sha2-512-etm@openssh.com".
Definition HMACSHA1ETM := go "hmac-sha1-etm@openssh.com".
Definition HMACSHA256 := go "hmac-sha2-256".
Definition HMACSHA512 := go "hmac-sha2-512".
Definition HMACSHA1 := go "hmac-sha1".
Definition InsecureHMACSHA196 := go "hmac-sha1-96".

Definition KeyAlgoRSA := go "ssh-rsa".
Definition InsecureKeyAlgoDSA := go "ssh-dss".
Definition KeyAlgoECDSA256 := go "ecdsa-sha2-nistp256".
Definition KeyAlgoSKECDSA256 := go "sk-ecdsa-sha2-nistp256@openssh.com".
Definition KeyAlgoECDSA384 := go "ecdsa-sha2-nistp384".
Definition KeyAlgoECDSA521 := go "ecdsa-sha2-nistp521".
Definition KeyAlgoED25519 := go "ssh-ed25519".
Definition KeyAlgoSKED25519 := go "sk-ssh-ed25519@openssh.com".
Definition KeyAlgoRSASHA256 := go "rsa-sha2-256".
Definition KeyAlgoRSASHA512 := go "rsa-sha2-512".

Definition CertAlgoRSAv01 := go "ssh-rsa-cert-v01@openssh.com".
Definition InsecureCertAlgoDSAv01 := go "ssh-dss-cert-v01@openssh.com".
Definition CertAlgoECDSA256v01 := go "ecdsa-sha2-nistp256-cert-v01@openssh.com".
Definition CertAlgoECDSA384v01 := go "ecdsa-sha2-nistp384-cert-v01@openssh.com".
Definition CertAlgoECDSA521v01 := go "ecdsa-sha2-nistp521-cert-v01@openssh.com".
Definition CertAlgoSKECDSA256v01 := go "sk-ecdsa-sha2-nistp256-cert-v01@openssh.com".
Definition CertAlgoED25519v01 := go "ssh-ed25519-cert-v01@openssh.com".
Definition CertAlgoSKED25519v01 := go "sk-ssh-ed25519-cert-v01@openssh.com".
Definition CertAlgoRSASHA256v01 := go "rsa-sha2-256-cert-v01@openssh.com".
Definition CertAlgoRSASHA512v01 := go "rsa-sha2-512-cert-v01@openssh.com".

(** [slices.Contains]. *)
Definition contains (l : list gostring) (x : gostring) : bool := bool_decide (x ∈ l).

(** ** Implemented algorithms *)
Definition cipherModes : list gostring :=
  [CipherAES128CTR; CipherAES192CTR; CipherAES256CTR; CipherAES128GCM; CipherAES256GCM; CipherChaCha20Poly1305;
   InsecureCipherRC4128; InsecureCipherRC4256; InsecureCipherRC4; InsecureCipherAES128CBC; InsecureCipherTripleDESCBC].
Definition macModes : list gostring :=
  [HMACSHA512ETM; HMACSHA256ETM; HMACSHA512; HMACSHA256; HMACSHA1; InsecureHMACSHA196; HMACSHA1ETM].
Definition kexAlgoMap : list gostring :=
  [KeyExchangeMLKEM768X25519; KeyExchangeECDHP521; KeyExchangeECDHP384; KeyExchangeECDHP256;
   InsecureKeyExchangeDH1SHA1; InsecureKeyExchangeDH14SHA1; KeyExchangeDH14SHA256; KeyExchangeDH16SHA512;
   KeyExchangeCurve25519; keyExchangeCurve25519LibSSH; InsecureKeyExchangeDHGEXSHA1; KeyExchangeDHGEXSHA256;
   KeyExchangeDH18SHA512].

(** [fakesshInsertAfter]. *)
Fixpoint insert_after (l : list gostring) (after value : gostring) : list gostring :=
  match l with
  | [] => [value]
  | x :: t => if x =s after then x :: value :: t else x :: insert_after t after value
  end.
Definition fakesshInsertAfter (l : list gostring) (after value : gostring) : list gostring :=
  if contains l value then l else insert_after l after value.

Definition supportedKexAlgos : list gostring :=
  fakesshInsertAfter
    [KeyExchangeMLKEM768X25519; KeyExchangeCurve25519; KeyExchangeECDHP256; KeyExchangeECDHP384;
     KeyExchangeECDHP521; KeyExchangeDH14SHA256; KeyExchangeDH16SHA512; KeyExchangeDHGEXSHA256]
    KeyExchangeDH16SHA512 KeyExchangeDH18SHA512.
Definition defaultKexAlgos : list gostring :=
  [KeyExchangeMLKEM768X25519; KeyExchangeCurve25519; KeyExchangeECDHP256; KeyExchangeECDHP384;
   KeyExchangeECDHP521; KeyExchangeDH14SHA256; InsecureKeyExchangeDH14SHA1].
Definition insecureKexAlgos : list gostring :=
  [InsecureKeyExchangeDH14SHA1; InsecureKeyExchangeDH1SHA1; InsecureKeyExchangeDHGEXSHA1].
Definition supportedCiphers : list gostring :=
  [CipherAES128GCM; CipherAES256GCM; CipherChaCha20Poly1305; CipherAES128CTR; CipherAES192CTR; CipherAES256CTR].
Definition defaultCiphers : list gostring := supportedCiphers.
Definition insecureCiphers : list gostring :=
  [InsecureCipherAES128CBC; InsecureCipherTripleDESCBC; InsecureCipherRC4256; InsecureCipherRC4128; InsecureCipherRC4].
Definition supportedMACs : list gostring :=
  fakesshInsertAfter [HMACSHA256ETM; HMACSHA512ETM; HMACSHA256; HMACSHA512; HMACSHA1] HMACSHA512ETM HMACSHA1ETM.
Definition defaultMACs : list gostring :=
  [HMACSHA256ETM; HMACSHA512ETM; HMACSHA256; HMACSHA512; HMACSHA1; InsecureHMACSHA196].
Definition insecureMACs : list gostring := [InsecureHMACSHA196].
Definition supportedHostKeyAlgos : list gostring :=
  [CertAlgoRSASHA256v01; CertAlgoRSASHA512v01; CertAlgoECDSA256v01; CertAlgoECDSA384v01; CertAlgoECDSA521v01;
   CertAlgoED25519v01; KeyAlgoRSASHA256; KeyAlgoRSASHA512; KeyAlgoECDSA256; KeyAlgoECDSA384; KeyAlgoECDSA521;
   KeyAlgoED25519].
Definition defaultHostKeyAlgos : list gostring :=
  [CertAlgoRSASHA256v01; CertAlgoRSASHA512v01; CertAlgoRSAv01; InsecureCertAlgoDSAv01; CertAlgoECDSA256v01;
   CertAlgoECDSA384v01; CertAlgoECDSA521v01; CertAlgoED25519v01; KeyAlgoECDSA256; KeyAlgoECDSA384;
   KeyAlgoECDSA521; KeyAlgoRSASHA256; KeyAlgoRSASHA512; KeyAlgoRSA; InsecureKeyAlgoDSA; KeyAlgoED25519].
Definition insecureHostKeyAlgos : list gostring :=
  [KeyAlgoRSA; InsecureKeyAlgoDSA; CertAlgoRSAv01; InsecureCertAlgoDSAv01].
Definition supportedPubKeyAuthAlgos : list gostring :=
  [KeyAlgoED25519; KeyAlgoSKED25519; KeyAlgoSKECDSA256; KeyAlgoECDSA256; KeyAlgoECDSA384; KeyAlgoECDSA521;
   KeyAlgoRSASHA256; KeyAlgoRSASHA512].
Definition insecurePubKeyAuthAlgos : list gostring := [KeyAlgoRSA; InsecureKeyAlgoDSA].
Definition defaultPubKeyAuthAlgos : list gostring :=
  [KeyAlgoED25519; KeyAlgoSKED25519; KeyAlgoSKECDSA256; KeyAlgoECDSA256; KeyAlgoECDSA384; KeyAlgoECDSA521;
   KeyAlgoRSASHA256; KeyAlgoRSASHA512; KeyAlgoRSA; InsecureKeyAlgoDSA].
Definition supportedCompressions : list gostring := [compressionNone].

(** ** Key algorithms *)
Definition certKeyAlgoNames : list (gostring * gostring) :=
  [(CertAlgoRSAv01, KeyAlgoRSA); (CertAlgoRSASHA256v01, KeyAlgoRSASHA256); (CertAlgoRSASHA512v01, KeyAlgoRSASHA512);
   (InsecureCertAlgoDSAv01, InsecureKeyAlgoDSA); (CertAlgoECDSA256v01, KeyAlgoECDSA256);
   (CertAlgoECDSA384v01, KeyAlgoECDSA384); (CertAlgoECDSA521v01, KeyAlgoECDSA521);
   (CertAlgoSKECDSA256v01, KeyAlgoSKECDSA256); (CertAlgoED25519v01, KeyAlgoED25519);
   (CertAlgoSKED25519v01, KeyAlgoSKED25519)].

Fixpoint assoc (l : list (gostring * gostring)) (k : gostring) : option gostring :=
  match l with
  | [] => None
  | (k', v) :: l => if k =s k' then Some v else assoc l k
  end.
Definition underlyingAlgo (algo : gostring) : gostring := default algo (assoc certKeyAlgoNames algo).

(** [certificateAlgo] ranges over the map and stops at the first hit; the values
    of the map are distinct, so there is at most one. *)
Definition certificateAlgo (algo : gostring) : option gostring :=
  option_map fst (find (fun p => snd p =s algo) certKeyAlgoNames).

Definition algorithmsForKeyFormat (keyFormat : gostring) : list gostring :=
  if keyFormat =s KeyAlgoRSA then [KeyAlgoRSASHA256; KeyAlgoRSASHA512; KeyAlgoRSA]
  else if keyFormat =s CertAlgoRSAv01 then [CertAlgoRSASHA256v01; CertAlgoRSASHA512v01; CertAlgoRSAv01]
  else [keyFormat].

Definition keyFormatForAlgorithm (sigAlgo : gostring) : gostring :=
  if contains [KeyAlgoRSA; KeyAlgoRSASHA256; KeyAlgoRSASHA512] sigAlgo then KeyAlgoRSA
  else if contains [CertAlgoRSAv01; CertAlgoRSASHA256v01; CertAlgoRSASHA512v01] sigAlgo then CertAlgoRSAv01
  else if contains [KeyAlgoED25519; KeyAlgoSKED25519; KeyAlgoSKECDSA256; KeyAlgoECDSA256; KeyAlgoECDSA384;
                    KeyAlgoECDSA521; InsecureKeyAlgoDSA; InsecureCertAlgoDSAv01; CertAlgoECDSA256v01;
                    CertAlgoECDSA384v01; CertAlgoECDSA521v01; CertAlgoSKECDSA256v01; CertAlgoED25519v01;
                    CertAlgoSKED25519v01] sigAlgo then sigAlgo
  else [].

Definition isRSA (algo : gostring) : bool := contains (algorithmsForKeyFormat KeyAlgoRSA) (underlyingAlgo algo).
Definition isRSACert (algo : gostring) : bool :=
  match assoc certKeyAlgoNames algo with None => false | Some _ => isRSA algo end.

(** server.go. *)
Definition isAlgoCompatible (algo sigFormat : gostring) : bool :=
  if isRSA algo && isRSA sigFormat then true else underlyingAlgo algo =s sigFormat.

Inductive Hash := NoHash | SHA1 | SHA256 | SHA384 | SHA512.
Definition hashFunc `{UnicodeTables} (format : gostring) : res Hash :=
  if contains [KeyAlgoRSASHA256; KeyAlgoECDSA256; KeyAlgoSKED25519; KeyAlgoSKECDSA256] format then Ok SHA256
  else if format =s KeyAlgoECDSA384 then Ok SHA384
  else if contains [KeyAlgoRSASHA512; KeyAlgoECDSA521] format then Ok SHA512
  else if format =s KeyAlgoED25519 then Ok NoHash
  else if contains [KeyAlgoRSA; InsecureKeyAlgoDSA] format then Ok SHA1
  else Err (errors_New (go "ssh: hash algorithm for format " ++ Quote format ++ go " not mapped")).

(** ** Negotiation *)
Record DirectionAlgorithms := MkDirection { da_Cipher : gostring; da_MAC : gostring; da_compression : gostring }.
Record NegotiatedAlgorithms := MkNegotiated {
  na_KeyExchange : gostring; na_HostKey : gostring; na_Read : DirectionAlgorithms; na_Write : DirectionAlgorithms }.
Record AlgorithmNegotiationError := MkNegotiationError {
  ne_What : gostring; ne_Requested : list gostring; ne_Supported : list gostring }.

Abbreviation neg := (result AlgorithmNegotiationError).

Definition findCommon (what : gostring) (client server : list gostring) (isClient : bool) : neg gostring :=
  match find (contains server) client with
  | Some c => Ok c
  | None => Err (if isClient then MkNegotiationError what server client else MkNegotiationError what client server)
  end.

Definition aeadCiphers : list gostring := [CipherAES128GCM; CipherAES256GCM; CipherChaCha20Poly1305].

Definition findAgreedAlgorithms (isClient : bool) (c s : kexInitMsg) : neg NegotiatedAlgorithms :=
  kex ← findCommon (go "key exchange") (kexInit_KexAlgos c) (kexInit_KexAlgos s) isClient;
  hostKey ← findCommon (go "host key") (kexInit_ServerHostKeyAlgos c) (kexInit_ServerHostKeyAlgos s) isClient;
  ctosCipher ← findCommon (go "client to server cipher")
                 (kexInit_CiphersClientServer c) (kexInit_CiphersClientServer s) isClient;
  stocCipher ← findCommon (go "server to client cipher")
                 (kexInit_CiphersServerClient c) (kexInit_CiphersServerClient s) isClient;
  ctosMAC ← (if contains aeadCiphers ctosCipher then Ok []
             else findCommon (go "client to server MAC")
                    (kexInit_MACsClientServer c) (kexInit_MACsClientServer s) isClient);
  stocMAC ← (if contains aeadCiphers stocCipher then Ok []
             else findCommon (go "server to client MAC")
                    (kexInit_MACsServerClient c) (kexInit_MACsServerClient s) isClient);
  ctosComp ← findCommon (go "client to server compression")
               (kexInit_CompressionClientServer c) (kexInit_CompressionClientServer s) isClient;
  stocComp ← findCommon (go "server to client compression")
               (kexInit_CompressionServerClient c) (kexInit_CompressionServerClient s) isClient;
  let ctos := MkDirection ctosCipher ctosMAC ctosComp in
  let stoc := MkDirection stocCipher stocMAC stocComp in
  Ok (if isClient then MkNegotiated kex hostKey stoc ctos else MkNegotiated kex hostKey ctos stoc).

Definition rekeyBytes (a : DirectionAlgorithms) : Z :=
  if contains [CipherAES128CTR; CipherAES192CTR; CipherAES256CTR; CipherAES128GCM; CipherAES256GCM;
               InsecureCipherAES128CBC] (da_Cipher a) then 16 * 2 ^ 32 else 2 ^ 30.

(** ** Configuration *)
Definition minRekeyThreshold : Z := 256.
Record SshConfig := MkSshConfig {
  sc_RekeyThreshold : Z; sc_KeyExchanges : list gostring; sc_Ciphers : list gostring; sc_MACs : list gostring }.

Definition nonempty_or (l d : list gostring) : list gostring := match l with [] => d | _ => l end.
Definition kex_entry (configured : list gostring) (k : gostring) : list gostring :=
  if contains kexAlgoMap k then
    k :: (if (k =s KeyExchangeCurve25519) && negb (contains configured keyExchangeCurve25519LibSSH)
          then [keyExchangeCurve25519LibSSH] else [])
  else [].
Definition SetDefaults (c : SshConfig) : SshConfig :=
  let kexs := nonempty_or (sc_KeyExchanges c) defaultKexAlgos in
  let t := sc_RekeyThreshold c in
  MkSshConfig
    (if t =? 0 then t else if t <? minRekeyThreshold then minRekeyThreshold
     else if 2 ^ 63 - 1 <=? t then 2 ^ 63 - 1 else t)
    (concat (map (kex_entry kexs) kexs))
    (List.filter (contains cipherModes) (nonempty_or (sc_Ciphers c) defaultCiphers))
    (List.filter (contains macModes) (nonempty_or (sc_MACs c) defaultMACs)).

(** antiscan.go. *)
Definition openSSH93KexAlgos : list gostring :=
  map go ["curve25519-sha256"; "ecdh-sha2-nistp256"; "ecdh-sha2-nistp384"; "ecdh-sha2-nistp521";
          "diffie-hellman-group-exchange-sha256"; "diffie-hellman-group16-sha512"]%string
  ++ [KeyExchangeDH18SHA512; go "diffie-hellman-group14-sha256"].
Definition openSSH93Ciphers : list gostring :=
  map go ["chacha20-poly1305@openssh.com"; "aes128-ctr"; "aes192-ctr"; "aes256-ctr"; "aes128-gcm@openssh.com";
          "aes256-gcm@openssh.com"]%string.
Definition openSSH93MACs : list gostring :=
  map go ["hmac-sha2-256-etm@openssh.com"; "hmac-sha2-512-etm@openssh.com"]%string
  ++ HMACSHA1ETM :: map go ["hmac-sha2-256"; "hmac-sha2-512"; "hmac-sha1"]%string.
Definition applyOpenSSH93Algorithms (c : SshConfig) : SshConfig :=
  MkSshConfig (sc_RekeyThreshold c) openSSH93KexAlgos openSSH93Ciphers openSSH93MACs.

(** ** Facts about the lists *)
Lemma contains_spec l x : contains l x = true <-> x ∈ l.
Proof. apply bool_decide_eq_true. Qed.

(** The choice is the first name of the client that the server knows. *)
Definition first_common (client server : list gostring) (a : gostring) : Prop :=
  exists l1 l2, client = l1 ++ a :: l2 /\ a ∈ server /\ Forall (fun x => x ∉ server) l1.

Lemma findCommon_spec what client server isClient :
  match findCommon what client server isClient with
  | Ok a => first_common client server a
  | Err e => Forall (fun x => x ∉ server) client /\
             e = if isClient then MkNegotiationError what server client else MkNegotiationError what client server
  end.
Proof.
  unfold findCommon. induction client as [|c l IH]; cbn [find]; [by split|].
  destruct (contains server c) eqn:E.
  - exists [], l. split_and!; [done|by apply contains_spec|constructor].
  - assert (c ∉ server) as Hc by (rewrite <- contains_spec; congruence).
    destruct (find _ l) as [a|].
    + destruct IH as (l1 & l2 & -> & Ha & Hl). exists (c :: l1), l2. by split_and!; [|..|constructor].
    + destruct IH as [IH _]. split; [by constructor|done].
Qed.

Lemma first_common_unique client server a b :
  first_common client server a -> first_common client server b -> a = b.
Proof.
  intros (l1 & l2 & -> & Ha & Hl) (m1 & m2 & E & Hb & Hm). revert m1 E Hm.
  induction Hl as [|x l1 Hx _ IH]; intros [|y m1] E Hm; cbn [app] in E; injection E as E1 E.
  - done.
  - subst. by inversion Hm.
  - subst. done.
  - inversion Hm; subst. eauto.
Qed.

Definition mirror {A} (r : neg A) : neg A :=
  match r with
  | Ok a => Ok a
  | Err e => Err (MkNegotiationError (ne_What e) (ne_Supported e) (ne_Requested e))
  end.
Lemma findCommon_mirror what client server b :
  findCommon what client server (negb b) = mirror (findCommon what client server b).
Proof. unfold findCommon. by destruct (find _ _), b. Qed.

Definition flip_direction (a : NegotiatedAlgorithms) : NegotiatedAlgorithms :=
  MkNegotiated (na_KeyExchange a) (na_HostKey a) (na_Write a) (na_Read a).

Definition agreed_direction (a : DirectionAlgorithms) (cc sc cm sm cz sz : list gostring) : Prop :=
  first_common cc sc (da_Cipher a) /\ first_common cz sz (da_compression a) /\
  (if contains aeadCiphers (da_Cipher a) then da_MAC a = [] else first_common cm sm (da_MAC a)).

Ltac common_step :=
  match goal with
  | |- context [findCommon ?w ?c ?s ?b] =>
      pose proof (findCommon_spec w c s b);
      destruct (findCommon w c s b); cbn [mbind result_bind] in *; [|done]
  end.
Ltac mirror_step :=
  match goal with
  | |- context [findCommon ?w ?c ?s (negb ?b)] =>
      rewrite (findCommon_mirror w c s b); destruct (findCommon w c s b); cbn [mbind result_bind mirror]; [|done]
  end.
Ltac aead_step :=
  match goal with
  | |- context [contains aeadCiphers ?x] => destruct (contains aeadCiphers x) eqn:?; cbn [mbind result_bind]
  end.

Lemma findAgreedAlgorithms_mirror c s b :
  findAgreedAlgorithms (negb b) c s =
  match mirror (findAgreedAlgorithms b c s) with Ok a => Ok (flip_direction a) | Err e => Err e end.
Proof. unfold findAgreedAlgorithms. do 4 mirror_step. do 2 aead_step; do 4 try mirror_step; by destruct b. Qed.

(**  Both ends of a connection, each computing on its own from the two
    exchanged lists, agree: they choose the same key exchange and host key
    algorithm, what one end uses for writing the other uses for reading, and when
    one fails the other does, on the same list.  Every choice is the first of the
    client's that the server offers; there is a MAC exactly when the cipher does
    not authenticate by itself. *)
Lemma findAgreedAlgorithms_agree c s b :
  (findAgreedAlgorithms (negb b) c s =
   match mirror (findAgreedAlgorithms b c s) with Ok a => Ok (flip_direction a) | Err e => Err e end) /\
  forall a, findAgreedAlgorithms false c s = Ok a ->
    first_common (kexInit_KexAlgos c) (kexInit_KexAlgos s) (na_KeyExchange a) /\
    first_common (kexInit_ServerHostKeyAlgos c) (kexInit_ServerHostKeyAlgos s) (na_HostKey a) /\
    agreed_direction (na_Read a) (kexInit_CiphersClientServer c) (kexInit_CiphersClientServer s)
      (kexInit_MACsClientServer c) (kexInit_MACsClientServer s)
      (kexInit_CompressionClientServer c) (kexInit_CompressionClientServer s) /\
    agreed_direction (na_Write a) (kexInit_CiphersServerClient c) (kexInit_CiphersServerClient s)
      (kexInit_MACsServerClient c) (kexInit_MACsServerClient s)
      (kexInit_CompressionServerClient c) (kexInit_CompressionServerClient s).
Proof.
  split; [apply findAgreedAlgorithms_mirror|].
  intros a. unfold findAgreedAlgorithms, agreed_direction. do 4 common_step.
    do 2 aead_step; repeat common_step; intros [= <-];
      cbn [na_Read na_Write na_KeyExchange na_HostKey da_Cipher da_MAC da_compression];
      repeat match goal with E : contains aeadCiphers _ = _ |- _ => rewrite E; clear E end; by split_and!.
Qed.

(** ** Configured algorithms *)

Lemma elem_of_filter_contains m l x : x ∈ List.filter (contains m) l <-> x ∈ m /\ x ∈ l.
Proof. rewrite !list_elem_of_In, filter_In, contains_spec, list_elem_of_In. tauto. Qed.

Lemma filter_sublist (f : gostring -> bool) l : sublist (List.filter f l) l.
Proof. induction l as [|x l IH]; cbn; [constructor|]. destruct (f x); by constructor. Qed.

Lemma LibSSH_implemented : contains kexAlgoMap keyExchangeCurve25519LibSSH = true.
Proof. vm_compute. reflexivity. Qed.

Section Kex.
Context (kexs : list gostring).

Lemma elem_of_kex_entry k x :
  x ∈ kex_entry kexs k <->
  k ∈ kexAlgoMap /\ (x = k \/ x = keyExchangeCurve25519LibSSH /\ k = KeyExchangeCurve25519 /\
    keyExchangeCurve25519LibSSH ∉ kexs).
Proof.
  unfold kex_entry. destruct (contains kexAlgoMap k) eqn:E.
  - apply contains_spec in E. rewrite elem_of_cons.
    destruct (gos_eqb_spec k KeyExchangeCurve25519) as [Hk|Hk]; cbn [andb]; [|set_solver].
    destruct (contains kexs _) eqn:E2; cbn [negb].
    + apply contains_spec in E2. set_solver.
    + assert (keyExchangeCurve25519LibSSH ∉ kexs) by (rewrite <- contains_spec; congruence). set_solver.
  - rewrite <- contains_spec. set_solver.
Qed.

Lemma elem_of_kex_list l x :
  x ∈ concat (map (kex_entry kexs) l) <->
  (x ∈ kexAlgoMap /\ x ∈ l) \/
  (x = keyExchangeCurve25519LibSSH /\ KeyExchangeCurve25519 ∈ l /\ keyExchangeCurve25519LibSSH ∉ kexs).
Proof.
  induction l as [|k l IH]; cbn [map concat]; [set_solver|].
  rewrite elem_of_app, elem_of_kex_entry, IH, !elem_of_cons.
  assert (KeyExchangeCurve25519 ∈ kexAlgoMap) by (apply contains_spec; vm_compute; reflexivity).
  split; [intros [(H1 & [->|(-> & -> & H2)])|[|]]; tauto|].
  intros [(H1 & [->|H2])|(H1 & [<-|H2] & H3)]; tauto.
Qed.

Lemma kex_list_NoDup l : NoDup l -> l ⊆ kexs -> NoDup (concat (map (kex_entry kexs) l)).
Proof.
  induction l as [|k l IH]; intros Hd Hs; cbn [map concat]; [constructor|].
  apply NoDup_cons in Hd as [Hk Hd]. apply NoDup_app. split_and!.
  - unfold kex_entry. destruct (contains _ _); [|constructor]. apply NoDup_cons.
    destruct (gos_eqb_spec k KeyExchangeCurve25519) as [->|]; cbn [andb]; [|split; [apply not_elem_of_nil|constructor]].
    destruct (contains kexs _); cbn [negb]; [split; [apply not_elem_of_nil|constructor]|].
    split; [|apply NoDup_singleton]. rewrite list_elem_of_singleton. intros E. vm_compute in E. discriminate E.
  - intros x. rewrite elem_of_kex_entry, elem_of_kex_list.
    intros (H1 & [->|(-> & -> & H2)]) [(H3 & H4)|(H3 & H4 & H5)]; [done|set_solver|set_solver|done].
  - apply IH; [done|set_solver].
Qed.

Lemma kex_list_filter l :
  l ⊆ kexs -> List.filter (contains kexs) (concat (map (kex_entry kexs) l)) = List.filter (contains kexAlgoMap) l.
Proof.
  induction l as [|k l IH]; intros Hs; cbn [map concat]; [done|].
  rewrite List.filter_app, IH by set_solver. cbn [List.filter]. unfold kex_entry.
  destruct (contains kexAlgoMap k); [|done]. cbn [List.filter].
  assert (contains kexs k = true) as -> by (apply contains_spec; set_solver).
  destruct (contains kexs keyExchangeCurve25519LibSSH) eqn:E; rewrite ?andb_false_r; [done|].
  destruct (_ && _); [|done]. cbn [List.filter]. by rewrite E.
Qed.
End Kex.

(** A configuration never offers an algorithm that is not implemented, and
    keeps its own order: ciphers and MACs are the implemented ones of the
    configured (or default) list, key exchanges likewise with the older name of
    curve25519 after it unless configured itself; the rekey threshold is 0 or
    within its bounds. *)
Lemma SetDefaults_correct c :
  0 <= sc_RekeyThreshold c < 2 ^ 64 ->
  let d := SetDefaults c in
  (forall x, x ∈ sc_Ciphers d <-> x ∈ cipherModes /\ x ∈ nonempty_or (sc_Ciphers c) defaultCiphers) /\
  (forall x, x ∈ sc_MACs d <-> x ∈ macModes /\ x ∈ nonempty_or (sc_MACs c) defaultMACs) /\
  (let kexs := nonempty_or (sc_KeyExchanges c) defaultKexAlgos in
   (forall x, x ∈ sc_KeyExchanges d <-> x ∈ kexAlgoMap /\
      (x ∈ kexs \/ x = keyExchangeCurve25519LibSSH /\ KeyExchangeCurve25519 ∈ kexs)) /\
   (NoDup kexs -> NoDup (sc_KeyExchanges d) /\
      List.filter (contains kexs) (sc_KeyExchanges d) = List.filter (contains kexAlgoMap) kexs)) /\
  sublist (sc_Ciphers d) (nonempty_or (sc_Ciphers c) defaultCiphers) /\
  sublist (sc_MACs d) (nonempty_or (sc_MACs c) defaultMACs) /\
  (sc_RekeyThreshold d = 0 \/ minRekeyThreshold <= sc_RekeyThreshold d < 2 ^ 63).
Proof.
  intros HT d. subst d. cbn [SetDefaults sc_Ciphers sc_MACs sc_KeyExchanges sc_RekeyThreshold].
  split_and!; try apply elem_of_filter_contains; try apply filter_sublist.
  - intros x. rewrite elem_of_kex_list. pose proof LibSSH_implemented as HL%contains_spec.
    destruct (decide (keyExchangeCurve25519LibSSH ∈ nonempty_or (sc_KeyExchanges c) defaultKexAlgos));
      naive_solver.
  - intros Hd. split; [by apply kex_list_NoDup|by apply kex_list_filter].
  - unfold minRekeyThreshold. destruct (Z.eqb_spec (sc_RekeyThreshold c) 0); [by left|right].
    destruct (Z.ltb_spec (sc_RekeyThreshold c) 256); [lia|].
    destruct (Z.leb_spec (2 ^ 63 - 1) (sc_RekeyThreshold c)); lia.
Qed.

(** The lists of the anti-scan mode are all implemented: what is advertised is
    what antiscan.go lists, with the older name of curve25519. *)
Lemma openSSH93_advertised c :
  let d := SetDefaults (applyOpenSSH93Algorithms c) in
  sc_Ciphers d = openSSH93Ciphers /\ sc_MACs d = openSSH93MACs /\
  sc_KeyExchanges d = KeyExchangeCurve25519 :: keyExchangeCurve25519LibSSH :: tail openSSH93KexAlgos.
Proof. vm_compute. auto. Qed.

(** *** Keys *)
Lemma keyFormat_inverse a :
  keyFormatForAlgorithm a <> [] -> a ∈ algorithmsForKeyFormat (keyFormatForAlgorithm a).
Proof.
  unfold keyFormatForAlgorithm.
  destruct (contains [KeyAlgoRSA; _; _] a) eqn:E1.
  { intros _. apply contains_spec in E1. change (algorithmsForKeyFormat KeyAlgoRSA) with
      [KeyAlgoRSASHA256; KeyAlgoRSASHA512; KeyAlgoRSA]. set_solver. }
  destruct (contains [CertAlgoRSAv01; _; _] a) eqn:E2.
  { intros _. apply contains_spec in E2. change (algorithmsForKeyFormat CertAlgoRSAv01) with
      [CertAlgoRSASHA256v01; CertAlgoRSASHA512v01; CertAlgoRSAv01]. set_solver. }
  destruct (contains (KeyAlgoED25519 :: _) a); [intros _|by intros []]. unfold algorithmsForKeyFormat.
  destruct (gos_eqb_spec a KeyAlgoRSA) as [->|]; [vm_compute in E1; discriminate E1|].
  destruct (gos_eqb_spec a CertAlgoRSAv01) as [->|]; [vm_compute in E2; discriminate E2|]. set_solver.
Qed.

(** *** Inserting a name *)
Lemma insert_after_elem l after value x : x ∈ insert_after l after value <-> x = value \/ x ∈ l.
Proof.
  induction l as [|y l IH]; cbn [insert_after]; [set_solver|].
  destruct (y =s after); rewrite !elem_of_cons; [tauto|]. rewrite IH. tauto.
Qed.
Lemma insert_after_sublist l after value : sublist l (insert_after l after value).
Proof.
  induction l as [|y l IH]; cbn [insert_after]; [by constructor|].
  destruct (y =s after); [by constructor; constructor|by constructor].
Qed.
Lemma fakesshInsertAfter_idempotent l after value :
  fakesshInsertAfter (fakesshInsertAfter l after value) after value = fakesshInsertAfter l after value /\
  value ∈ fakesshInsertAfter l after value /\ sublist l (fakesshInsertAfter l after value).
Proof.
  unfold fakesshInsertAfter. destruct (contains l value) eqn:E.
  - rewrite E. split_and!; [done|by apply contains_spec|reflexivity].
  - assert (value ∈ insert_after l after value) as H by (apply insert_after_elem; by left).
    rewrite (proj2 (contains_spec _ _) H). split_and!; [done..|apply insert_after_sublist].
Qed.

(** ** Witness *)
Example SetDefaults_correct_example :
  let d := SetDefaults (MkSshConfig 1 [] [go "rot13"; CipherAES256CTR] []) in
  sc_RekeyThreshold d = 256 /\ sc_Ciphers d = [CipherAES256CTR] /\
  (sc_RekeyThreshold d = 0 \/ minRekeyThreshold <= sc_RekeyThreshold d < 2 ^ 63).
Proof.
  split; [reflexivity|]. split; [vm_compute; reflexivity|].
  apply (SetDefaults_correct (MkSshConfig 1 [] [go "rot13"; CipherAES256CTR] [])). cbn. lia.
Qed.
