(* ===== verification/SshAuth.v ===== *)
(** * User authentication of the SSH server: [serverAuthenticate] of
    third/ssh/server.go with its public key cache, its methods and
    ssh_gss.go.

    A connection is a [session]: what the callbacks see of the world, the
    packets still to be read, those written, and a trace of the verdicts.  The
    functions are written in a state monad with fatal errors.  [write_error]
    says which writes fail; reading past the last packet is the end of the
    stream.  Parsing and verifying keys, IP addresses and ASN.1 are the classes
    [KeyLib] and [NetLib]; the callbacks of the configuration are arbitrary
    functions on the world.

    Proved: the loop ends after at most 128 requests; success means that a
    callback accepted the user, for a key also that the signature of this very
    request verifies; rejected attempts never exceed [MaxAuthTries]. *)
From Stdlib Require Import Ascii String ZArith Lia.
From stdpp Require Import base gmap strings list.
From S2P Require Import Prelude GoStrings SshWire SshMessages SshAlgos.
Local Open Scope Z_scope.

(** ** Keys, signatures and addresses *)
Record Signature := MkSignature { sig_Format : gostring; sig_Blob : gostring; sig_Rest : gostring }.

(** [Verify waived key data sig]: the key without its touch requirement when
    [waived] ([skKeyWithoutUP]). *)
Class KeyLib := {
  Key : Type;
  ParsePublicKey : gostring -> res Key;
  key_Type : Key -> gostring;
  cert_Extension : Key -> gostring -> bool;
  Verify : bool -> Key -> gostring -> Signature -> option error }.

Inductive net_addr := NoAddr | TCPAddr (ip : gostring) | OtherAddr (text : gostring).
Class NetLib := {
  ParseIP : gostring -> option gostring;
  IP_Equal : gostring -> gostring -> bool;
  ParseCIDR : gostring -> res (gostring -> bool);
  UnmarshalOID : gostring -> res (list Z * gostring) }.

(** certs.go. *)
Definition parseSignatureBody (data : gostring) : option (Signature * gostring) :=
  match parseString data with
  | None => None
  | Some (format, data) =>
      match parseString data with
      | None => None
      | Some (blob, data) =>
          if contains [KeyAlgoSKECDSA256; CertAlgoSKECDSA256v01; KeyAlgoSKED25519; CertAlgoSKED25519v01] format
          then Some (MkSignature format blob data, [])
          else Some (MkSignature format blob [], data)
      end
  end.
Definition parseSignature (data : gostring) : option (Signature * gostring) :=
  match parseString data with
  | None => None
  | Some (sigBytes, rest) =>
      match parseSignatureBody sigBytes with
      | Some (out, trailing) => if 0 <? len trailing then None else Some (out, rest)
      | None => None
      end
  end.

(** common.go: the data a client signs to prove possession of its key. *)
Definition msgUserAuthRequest : Z := 50.
Definition msgUserAuthSuccess : Z := 52.
Definition msgUserAuthInfoResponse : Z := 61.
Definition signed_struct : structType :=
  MkStruct [] [] [(go "Session", KBytes); (go "Type", KUint8); (go "User", KString); (go "Service", KString);
                  (go "Method", KString); (go "Sign", KBool); (go "Algo", KString); (go "PubKey", KBytes)].
Definition buildDataSignedForAuth (sessionID : gostring) (req : userAuthRequestMsg) (algo pubKey : gostring) : gostring :=
  Marshal signed_struct
    (sessionID, (msgUserAuthRequest, (userAuthRequest_User req, (userAuthRequest_Service req,
      (userAuthRequest_Method req, (true, (algo, (pubKey, tt)))))))).

Definition appendString (buf s : gostring) : gostring := appendInt buf (len s) ++ s.
Definition appendBool (buf : gostring) (b : bool) : gostring := buf ++ [vb (if b then 1 else 0)].
Definition buildMIC (sessionID username service authMethod : gostring) : gostring :=
  appendString (appendString (appendString (appendString [] sessionID ++ [vb msgUserAuthRequest]) username)
                  service) authMethod.

(** [checkSourceAddress]. *)
Section source_address.
  Context `{UnicodeTables} `{NetLib}.
Fixpoint match_source (ip : gostring) (addrs : list gostring) : option (option error) :=
  match addrs with
  | [] => None
  | a :: addrs =>
      match ParseIP a with
      | Some allowed => if IP_Equal allowed ip then Some None else match_source ip addrs
      | None =>
          match ParseCIDR a with
          | Err e => Some (Some (errors_wrap (go "ssh: error parsing source-address restriction " ++ Quote a ++ go ": ") e))
          | Ok net => if net ip then Some None else match_source ip addrs
          end
      end
  end.
Definition checkSourceAddress (addr : net_addr) (sourceAddrs : gostring) : option error :=
  match addr with
  | NoAddr => Some (errors_New (go "ssh: no address known for client, but source-address match required"))
  | OtherAddr t => Some (errors_New (go "ssh: remote address " ++ t ++ go " is not a TCP address when checking source-address match"))
  | TCPAddr ip =>
      match match_source ip (Split sourceAddrs ","%char) with
      | Some r => r
      | None => Some (errors_New (go "ssh: remote address is not allowed because of source-address restriction"))
      end
  end.
End source_address.

(** ssh_gss.go. *)
Definition krb5Mesh : list Z := [1; 2; 840; 113554; 1; 2; 2].
Definition krb5OID : gostring := map vb [6; 9; 42; 134; 72; 134; 247; 18; 1; 2; 2].
Section gss_payload.
  Context `{NetLib}.
Fixpoint parse_mechs (n : nat) (rest : gostring) : res (list (list Z) * gostring) :=
  match n with
  | O => Ok ([], rest)
  | S n =>
      match parseString rest with
      | None => Err (errors_New (go "parse string failed"))
      | Some (desiredMech, rest) =>
          x ← UnmarshalOID desiredMech;
          if negb (len (snd x) =? 0) then Err (errors_New (go "trailing bytes after OID"))
          else y ← parse_mechs n rest; Ok (fst x :: fst y, snd y)
      end
  end.
Definition parseGSSAPIPayload (payload : gostring) : res (list (list Z)) :=
  match parseUint32 payload with
  | None => Err (errors_New (go "parse uint32 failed"))
  | Some (n, rest) =>
      if (64 <? n) || (len rest <? n * 2) then Err (errors_New (go "invalid mechanism count"))
      else x ← parse_mechs (Z.to_nat n) rest;
           if negb (len (snd x) =? 0) then Err (errors_New (go "trailing bytes after mechanisms"))
           else Ok (fst x)
  end.
End gss_payload.

(** ** Configuration *)
Inductive read_event := RPacket (p : gostring) | REOF | RErr (e : error).
Inductive verdict_kind := Accepted | Rejected | Partial.

Record session (W : Type) := MkSession {
  ss_world : W; ss_in : list read_event; ss_out : list gostring;
  ss_trace : list (gostring * gostring * verdict_kind) }.
Arguments MkSession {W}. Arguments ss_world {W}. Arguments ss_in {W}. Arguments ss_out {W}. Arguments ss_trace {W}.

Record GSSAPIServer (W : Type) := MkGSSServer {
  AcceptSecContext : W -> gostring -> W * res (gostring * gostring * bool);
  VerifyMIC : W -> gostring -> gostring -> W * option error;
  DeleteSecContext : W -> W }.
Arguments AcceptSecContext {W}. Arguments VerifyMIC {W}. Arguments DeleteSecContext {W}.

(** [ServerAuthCallbacks] and the errors callbacks return: a plain error, a
    partial success with the callbacks of the next step, or one that carries a
    banner. *)
Inductive callbacks (W Perm K : Type) :=
| MkCallbacks
    (Password : option (W -> gostring -> gostring -> W * (option Perm * option (auth_error W Perm K))))
    (PublicKey : option (W -> gostring -> K -> W * (option Perm * option (auth_error W Perm K))))
    (KeyboardInteractive : option (session W -> gostring -> session W * (option Perm * option (auth_error W Perm K))))
    (GSSAPI : option (gss_config W Perm K))
with auth_error (W Perm K : Type) :=
| EPlain (e : error)
| EPartial (next : callbacks W Perm K)
| EBanner (inner : option (auth_error W Perm K)) (message : gostring)
| EDisconnect (m : disconnectMsg)
with gss_config (W Perm K : Type) :=
| MkGSS (AllowLogin : W -> gostring -> gostring -> W * (option Perm * option (auth_error W Perm K)))
        (Server : GSSAPIServer W).
Arguments MkCallbacks {W Perm K}. Arguments EPlain {W Perm K}. Arguments EPartial {W Perm K}.
Arguments EBanner {W Perm K}. Arguments EDisconnect {W Perm K}. Arguments MkGSS {W Perm K}.

Definition cb_Password {W Perm K} (c : callbacks W Perm K) := let '(MkCallbacks p _ _ _) := c in p.
Definition cb_PublicKey {W Perm K} (c : callbacks W Perm K) := let '(MkCallbacks _ k _ _) := c in k.
Definition cb_Keyboard {W Perm K} (c : callbacks W Perm K) := let '(MkCallbacks _ _ i _) := c in i.
Definition cb_GSSAPI {W Perm K} (c : callbacks W Perm K) := let '(MkCallbacks _ _ _ g) := c in g.

Section authenticate.
  Context `{UnicodeTables} `{NetLib} `{KeyLib} {W Perm : Type}.
  Context (source_address : Perm -> option gostring) (Extension : Perm -> gostring -> bool).
  Context (write_error : nat -> option error).
  Context (sessionID : gostring) (remote : net_addr).
  Abbreviation cbs := (callbacks W Perm Key).
  Abbreviation aerr := (auth_error W Perm Key).
  Abbreviation answer := (option Perm * option aerr)%type.

Record ServerConfig := MkServerConfig {
  NoClientAuth : bool;
  NoClientAuthCallback : option (W -> gostring -> W * answer);
  MaxAuthTries : Z;
  PublicKeyAuthAlgorithms : list gostring;
  AuthCallbacks : cbs;
  VerifiedPublicKeyCallback : option (W -> gostring -> Key -> option Perm -> gostring -> W * answer);
  AuthLogCallback : option (W -> gostring -> gostring -> option aerr -> W);
  PreAuthConnCallback : option (session W -> session W);
  BannerCallback : option (W -> gostring -> W * gostring) }.

Inductive fatal := FErr (e : error) | FServerAuth (errs : list aerr).

(** *** The monad *)
Definition M (A : Type) : Type := session W -> (A + fatal) * session W.
#[local] Instance M_ret : MRet M := fun A a s => (inl a, s).
#[local] Instance M_bind : MBind M := fun A B f m s =>
  match m s with
  | (inl a, s') => f a s'
  | (inr e, s') => (inr e, s')
  end.
Definition fail {A} (e : fatal) : M A := fun s => (inr e, s).
Definition fail_err {A} (msg : gostring) : M A := fail (FErr (errors_New msg)).
Definition of_res {A} (r : res A) : M A := match r with Ok a => mret a | Err e => fail (FErr e) end.
Definition of_option {A} (o : option A) (e : error) : M A := match o with Some a => mret a | None => fail (FErr e) end.

Definition readPacket : M read_event := fun s =>
  match ss_in s with
  | [] => (inl REOF, s)
  | r :: rest => (inl r, MkSession (ss_world s) rest (ss_out s) (ss_trace s))
  end.
Definition writePacket (p : gostring) : M unit := fun s =>
  match write_error (length (ss_out s)) with
  | Some e => (inr (FErr e), s)
  | None => (inl tt, MkSession (ss_world s) (ss_in s) (ss_out s ++ [p]) (ss_trace s))
  end.
Definition call {A} (f : W -> W * A) : M A := fun s =>
  let '(w, a) := f (ss_world s) in (inl a, MkSession w (ss_in s) (ss_out s) (ss_trace s)).
Definition record (method user : gostring) (k : verdict_kind) : M unit := fun s =>
  (inl tt, MkSession (ss_world s) (ss_in s) (ss_out s) (ss_trace s ++ [(method, user, k)])).

Definition errEOF : error := errors_New (go "EOF").
Definition read_bytes : M gostring :=
  r ← readPacket;
  match r with RPacket p => mret p | REOF => fail (FErr errEOF) | RErr e => fail (FErr e) end.

Definition SendAuthBanner (msg : gostring) : M unit :=
  writePacket (MarshalMsg (Mk_userAuthBannerMsg msg [])).

(** *** The cache of public keys *)
Record cachedPubKey := MkCached { ck_user : gostring; ck_pubKeyData : gostring; ck_result : option aerr; ck_perms : option Perm }.
Definition maxCachedPubKeys : nat := 1.
Fixpoint cache_get (c : list cachedPubKey) (user pubKeyData : gostring) : option cachedPubKey :=
  match c with
  | [] => None
  | k :: c => if (ck_user k =s user) && (ck_pubKeyData k =s pubKeyData) then Some k else cache_get c user pubKeyData
  end.
Definition cache_add (c : list cachedPubKey) (candidate : cachedPubKey) : list cachedPubKey :=
  (if (maxCachedPubKeys <=? length c)%nat then tail c else c) ++ [candidate].

Definition checkSourceAddressCriticalOption (perms : option Perm) : option error :=
  match perms with
  | None => None
  | Some p => match source_address p with None => None | Some saco => checkSourceAddress remote saco end
  end.

Definition noTouchRequiredExtension : gostring := go "no-touch-required".
Definition noTouchAllowed (pubKey : Key) (perms : option Perm) : bool :=
  match perms with
  | Some p => Extension p noTouchRequiredExtension || cert_Extension pubKey noTouchRequiredExtension
  | None => cert_Extension pubKey noTouchRequiredExtension
  end.

(** *** Methods *)
Inductive verdict := Continue | Verdict (perms : option Perm) (err : option aerr).
Definition refuse (msg : gostring) : verdict := Verdict None (Some (EPlain (errors_New msg))).
Definition parse_error : error := parseError msgUserAuthRequest.
Definition is_partial (r : option aerr) : bool := match r with Some (EPartial _) => true | _ => false end.

Definition auth_password (c : cbs) (user payload : gostring) : M verdict :=
  match cb_Password c with
  | None => mret (refuse (go "ssh: password auth not configured"))
  | Some f =>
      match payload with
      | b :: payload =>
          if negb (bv b =? 0) then fail (FErr parse_error)
          else match parseString payload with
               | Some (password, []) =>
                   a ← call (fun w => f w user password);
                   mret (Verdict (fst a) (snd a))
               | _ => fail (FErr parse_error)
               end
      | [] => fail (FErr parse_error)
      end
  end.

(** The source address is checked on what [PublicKeyCallback] returns. *)
Definition candidate_result (perms : option Perm) (result : option aerr) : option aerr :=
  match result with
  | None | Some (EPartial _) =>
      match checkSourceAddressCriticalOption perms with Some e => Some (EPlain e) | None => result end
  | Some _ => result
  end.

(** Looking a key up, asking [PublicKeyCallback] the first time. *)
Definition lookup_key (cfg : ServerConfig) (f : W -> gostring -> Key -> W * answer) (cache : list cachedPubKey)
    (user pubKeyData : gostring) (pubKey : Key) : M (list cachedPubKey * cachedPubKey) :=
  match cache_get cache user pubKeyData with
  | Some candidate => mret (cache, candidate)
  | None =>
      a ← call (fun w => f w user pubKey);
      if is_partial (snd a) && bool_decide (is_Some (VerifiedPublicKeyCallback cfg))
      then fail_err (go "ssh: invalid library usage: PublicKeyCallback must not return partial success when VerifiedPublicKeyCallback is defined")
      else
        let candidate := MkCached user pubKeyData (candidate_result (fst a) (snd a)) (fst a) in
        mret (cache_add cache candidate, candidate)
  end.

Definition auth_query (cache : list cachedPubKey) (candidate : cachedPubKey) (algo payload : gostring) :
    M (list cachedPubKey * verdict) :=
  if 0 <? len payload then fail (FErr parse_error)
  else if match ck_result candidate with None => true | r => is_partial r end
  then
    writePacket (MarshalMsg (Mk_userAuthPubKeyOkMsg algo (ck_pubKeyData candidate)));;
    mret (cache, Continue)
  else mret (cache, Verdict None (ck_result candidate)).

Definition auth_signature (cfg : ServerConfig) (cache : list cachedPubKey) (candidate : cachedPubKey) (pubKey : Key)
    (req : userAuthRequestMsg) (algo payload : gostring) : M (list cachedPubKey * verdict) :=
  match parseSignature payload with
  | Some (sig, []) =>
      if negb (contains (algorithmsForKeyFormat (key_Type pubKey)) algo)
      then mret (cache, refuse (go "ssh: public key type " ++ Quote (key_Type pubKey) ++
                                go " not compatible with selected algorithm " ++ Quote algo))
      else if negb (contains (PublicKeyAuthAlgorithms cfg) (sig_Format sig))
      then mret (cache, refuse (go "ssh: algorithm " ++ Quote (sig_Format sig) ++ go " not accepted"))
      else if negb (isAlgoCompatible algo (sig_Format sig))
      then mret (cache, refuse (go "ssh: signature " ++ Quote (sig_Format sig) ++
                                go " not compatible with selected algorithm " ++ Quote algo))
      else
        let signedData := buildDataSignedForAuth sessionID req algo (ck_pubKeyData candidate) in
        match Verify (noTouchAllowed pubKey (ck_perms candidate)) pubKey signedData sig with
        | Some e => fail (FErr e)
        | None =>
            match ck_result candidate, VerifiedPublicKeyCallback cfg with
            | None, Some v =>
                a ← call (fun w => v w (userAuthRequest_User req) pubKey (ck_perms candidate) (sig_Format sig));
                mret (cache, Verdict (fst a) (snd a))
            | r, _ => mret (cache, Verdict (ck_perms candidate) r)
            end
        end
  | _ => fail (FErr parse_error)
  end.

Definition auth_publickey (cfg : ServerConfig) (c : cbs) (cache : list cachedPubKey) (req : userAuthRequestMsg) :
    M (list cachedPubKey * verdict) :=
  match cb_PublicKey c with
  | None => mret (cache, refuse (go "ssh: publickey auth not configured"))
  | Some f =>
      match userAuthRequest_Payload req with
      | [] => fail (FErr parse_error)
      | b :: payload =>
          let isQuery := bv b =? 0 in
          x ← of_option (parseString payload) parse_error;
          let '(algo, payload) := x in
          if negb (contains (PublicKeyAuthAlgorithms cfg) (underlyingAlgo algo))
          then mret (cache, refuse (go "ssh: algorithm " ++ Quote algo ++ go " not accepted"))
          else
            y ← of_option (parseString payload) parse_error;
            let '(pubKeyData, payload) := y in
            match ParsePublicKey pubKeyData with
            | Err e => mret (cache, Verdict None (Some (EPlain e)))
            | Ok pubKey =>
                z ← lookup_key cfg f cache (userAuthRequest_User req) pubKeyData pubKey;
                let '(cache, candidate) := z in
                if isQuery then auth_query cache candidate algo payload
                else auth_signature cfg cache candidate pubKey req algo payload
            end
      end
  end.

(** [gssExchangeToken]: one round per packet. *)
Fixpoint gss_rounds (srv : GSSAPIServer W) (fuel : nat) (token : gostring) : M (option (gostring + error)) :=
  match fuel with
  | O => mret None
  | S fuel =>
      r ← call (fun w => AcceptSecContext srv w token);
      match r with
      | Err e => mret (Some (inr e))
      | Ok (outToken, srcName, needContinue) =>
          (if negb (len outToken =? 0) then writePacket (MarshalMsg (Mk_userAuthGSSAPIToken outToken)) else mret tt);;
          if negb needContinue then mret (Some (inl srcName))
          else
            packet ← read_bytes;
            m ← of_res (UnmarshalMsg userAuthGSSAPIToken packet);
            gss_rounds srv fuel (userAuthGSSAPIToken_Token m)
      end
  end.

(** The deferred [DeleteSecContext] runs on every way out. *)
Definition deferred {A} (f : W -> W) (m : M A) : M A := fun s =>
  let '(r, s) := m s in (r, MkSession (f (ss_world s)) (ss_in s) (ss_out s) (ss_trace s)).

Definition gss_session (allow : W -> gostring -> gostring -> W * answer) (srv : GSSAPIServer W) (fuel : nat)
    (token : gostring) (req : userAuthRequestMsg) : M answer :=
  r ← gss_rounds srv fuel token;
  match r with
  | None => fail (FErr errEOF)
  | Some (inr e) => mret (None, Some (EPlain e))
  | Some (inl srcName) =>
      packet ← read_bytes;
      m ← of_res (UnmarshalMsg userAuthGSSAPIMIC packet);
      let mic := buildMIC sessionID (userAuthRequest_User req) (userAuthRequest_Service req)
                   (userAuthRequest_Method req) in
      v ← call (fun w => VerifyMIC srv w mic (userAuthGSSAPIMIC_MIC m));
      match v with
      | Some e => mret (None, Some (EPlain e))
      | None => call (fun w => allow w (userAuthRequest_User req) srcName)
      end
  end.
Definition gssExchangeToken (allow : W -> gostring -> gostring -> W * answer) (srv : GSSAPIServer W)
    (token : gostring) (req : userAuthRequestMsg) : M answer :=
  deferred (DeleteSecContext srv) (fun s => gss_session allow srv (S (length (ss_in s))) token req s).

Definition auth_gssapi (c : cbs) (req : userAuthRequestMsg) : M verdict :=
  match cb_GSSAPI c with
  | None => mret (refuse (go "ssh: gssapi-with-mic auth not configured"))
  | Some (MkGSS allow srv) =>
      match parseGSSAPIPayload (userAuthRequest_Payload req) with
      | Err _ => fail (FErr parse_error)
      | Ok oids =>
          if len oids =? 0 then mret (refuse (go "ssh: Mechanism negotiation is not supported"))
          else if negb (bool_decide (krb5Mesh ∈ oids))
          then mret (refuse (go "ssh: GSSAPI authentication must use the Kerberos V5 mechanism"))
          else
            writePacket (MarshalMsg (Mk_userAuthGSSAPIResponse krb5OID));;
            packet ← read_bytes;
            m ← of_res (UnmarshalMsg userAuthGSSAPIToken packet);
            a ← gssExchangeToken allow srv (userAuthGSSAPIToken_Token m) req;
            mret (Verdict (fst a) (snd a))
      end
  end.

Definition ErrNoAuth : error := errors_New (go "ssh: no auth passed yet").

Definition auth_none (cfg : ServerConfig) (partialSuccessReturned : bool) (user : gostring) : M verdict :=
  if NoClientAuth cfg && negb partialSuccessReturned then
    match NoClientAuthCallback cfg with
    | Some f => a ← call (fun w => f w user); mret (Verdict (fst a) (snd a))
    | None => mret (Verdict None None)
    end
  else mret (Verdict None (Some (EPlain ErrNoAuth))).

Definition auth_keyboard (c : cbs) (user : gostring) : M verdict :=
  match cb_Keyboard c with
  | None => mret (refuse (go "ssh: keyboard-interactive auth not configured"))
  | Some f => fun s =>
      let '(s', a) := f s user in (inl (Verdict (fst a) (snd a)), MkSession (ss_world s') (ss_in s') (ss_out s') (ss_trace s))
  end.

Definition auth_method (cfg : ServerConfig) (c : cbs) (partialSuccessReturned : bool) (cache : list cachedPubKey)
    (req : userAuthRequestMsg) : M (list cachedPubKey * verdict) :=
  let user := userAuthRequest_User req in
  let keep (m : M verdict) : M (list cachedPubKey * verdict) := v ← m; mret (cache, v) in
  let method := userAuthRequest_Method req in
  if method =s go "none" then keep (auth_none cfg partialSuccessReturned user)
  else if method =s go "password" then keep (auth_password c user (userAuthRequest_Payload req))
  else if method =s go "keyboard-interactive" then keep (auth_keyboard c user)
  else if method =s go "publickey" then auth_publickey cfg c cache req
  else if method =s go "gssapi-with-mic" then keep (auth_gssapi c req)
  else mret (cache, refuse (go "ssh: unknown method " ++ Quote method)).

(** *** The loop *)
Record loop := MkLoop {
  l_cache : list cachedPubKey; l_authFailures : Z; l_authAttempts : Z; l_noneAuthCount : Z; l_authErrs : list aerr;
  l_calledBanner : bool; l_partial : bool; l_config : cbs; l_user : gostring }.

Definition maxAuthServerAttempts : Z := 128.
Definition disconnect {A} (errs : list aerr) (msg : gostring) : M A :=
  let discMsg := Mk_disconnectMsg 2 msg [] in
  writePacket (MarshalMsg discMsg);;
  fail (FServerAuth (errs ++ [EDisconnect discMsg])).

Definition read_request (l : loop) : M userAuthRequestMsg :=
  r ← readPacket;
  packet ← match r with
           | RPacket p => mret p
           | REOF => fail (FServerAuth (l_authErrs l))
           | RErr e => fail (FErr e)
           end;
  req ← of_res (UnmarshalMsg userAuthRequestMsg packet);
  if negb (userAuthRequest_Service req =s serviceSSH)
  then fail_err (go "ssh: client attempted to negotiate for unknown service: " ++ Quote (userAuthRequest_Service req))
  else if negb (l_user l =s userAuthRequest_User req) && l_partial l
  then fail_err (go "ssh: client changed the user after a partial success authentication, previous user "
                 ++ Quote (l_user l) ++ go ", current user " ++ Quote (userAuthRequest_User req))
  else mret req.

Definition send_banner (cfg : ServerConfig) (l : loop) (user : gostring) : M bool :=
  match BannerCallback cfg with
  | Some f =>
      if l_calledBanner l then mret true
      else msg ← call (fun w => f w user);
           (if negb (msg =s []) then SendAuthBanner msg else mret tt);;
           mret true
  | None => mret (l_calledBanner l)
  end.

Definition failure_methods (c : cbs) : list gostring :=
  (match cb_Password c with Some _ => [go "password"] | None => [] end) ++
  (match cb_PublicKey c with Some _ => [go "publickey"] | None => [] end) ++
  (match cb_Keyboard c with Some _ => [go "keyboard-interactive"] | None => [] end) ++
  (match cb_GSSAPI c with Some _ => [go "gssapi-with-mic"] | None => [] end).

Definition send_failure (c : cbs) (partialSuccess : bool) : M unit :=
  let methods := failure_methods c in
  if len methods =? 0 then fail_err (go "ssh: no authentication methods available")
  else writePacket (MarshalMsg (Mk_userAuthFailureMsg methods partialSuccess)).

(** After a verdict that is not success. *)
Definition after_failure (cfg : ServerConfig) (l : loop) (method : gostring) (perms : option Perm) (err : aerr) : M loop :=
  match err with
  | EPartial next =>
      match perms with
      | Some _ => fail_err (go "ssh: permissions must be nil when returning PartialSuccessError")
      | None =>
          let l := MkLoop [] (l_authFailures l) (l_authAttempts l) (l_noneAuthCount l) (l_authErrs l)
                     (l_calledBanner l) true next (l_user l) in
          send_failure next true;; mret l
      end
  | _ =>
      let failures :=
        if (0 <? l_authFailures l) || negb (method =s go "none") || negb (l_noneAuthCount l =? 1)
        then l_authFailures l + 1 else l_authFailures l in
      let l := MkLoop (l_cache l) failures (l_authAttempts l) (l_noneAuthCount l) (l_authErrs l)
                 (l_calledBanner l) (l_partial l) (l_config l) (l_user l) in
      if (0 <? MaxAuthTries cfg) && (MaxAuthTries cfg <=? failures) then mret l
      else send_failure (l_config l) false;; mret l
  end.

Definition kind_of (err : option aerr) : verdict_kind :=
  match err with None => Accepted | Some (EPartial _) => Partial | Some _ => Rejected end.

Definition banner_of (err : option aerr) : M unit :=
  match err with
  | Some (EBanner _ msg) => if negb (msg =s []) then SendAuthBanner msg else mret tt
  | _ => mret tt
  end.

Definition add_err (l : loop) (e : aerr) : loop :=
  MkLoop (l_cache l) (l_authFailures l) (l_authAttempts l) (l_noneAuthCount l) (l_authErrs l ++ [e])
    (l_calledBanner l) (l_partial l) (l_config l) (l_user l).

Definition enforce_source (perms : option Perm) (authErr : option aerr) : option aerr :=
  match authErr with
  | None => match checkSourceAddressCriticalOption perms with Some e => Some (EPlain e) | None => None end
  | Some e => Some e
  end.

(** The rest of a round, once a method has given its verdict. *)
Definition conclude (cfg : ServerConfig) (l : loop) (method : gostring) (perms : option Perm) (authErr : option aerr) :
    M (loop + option Perm) :=
  let authErr := enforce_source perms authErr in
  record method (l_user l) (kind_of authErr);;
  (match AuthLogCallback cfg with
   | Some f => call (fun w => (f w (l_user l) method authErr, tt))
   | None => mret tt
   end);;
  banner_of authErr;;
  match authErr with
  | None => mret (inr perms)
  | Some e => l ← after_failure cfg (add_err l e) method perms e; mret (inl l)
  end.

(** One round of [userAuthLoop]: the next state, or the permissions on success. *)
Definition auth_round (cfg : ServerConfig) (l : loop) : M (loop + option Perm) :=
  if (MaxAuthTries cfg <=? l_authFailures l) && (0 <? MaxAuthTries cfg)
  then disconnect (l_authErrs l) (go "too many authentication failures")
  else if maxAuthServerAttempts <=? l_authAttempts l
  then disconnect (l_authErrs l) (go "too many authentication attempts")
  else
    req ← read_request l;
    let user := userAuthRequest_User req in
    let method := userAuthRequest_Method req in
    called ← send_banner cfg l user;
    r ← auth_method cfg (l_config l) (l_partial l) (l_cache l) req;
    let next := MkLoop (fst r) (l_authFailures l) (l_authAttempts l + 1)
                  (if method =s go "none" then l_noneAuthCount l + 1 else l_noneAuthCount l)
                  (l_authErrs l) called (l_partial l) (l_config l) user in
    match snd r with
    | Continue => mret (inl next)
    | Verdict perms authErr => conclude cfg next method perms authErr
    end.

Fixpoint auth_loop (fuel : nat) (cfg : ServerConfig) (l : loop) : M (option (option Perm)) :=
  match fuel with
  | O => mret None
  | S fuel =>
      r ← auth_round cfg l;
      match r with
      | inr perms => mret (Some perms)
      | inl l => auth_loop fuel cfg l
      end
  end.

Definition first_loop (cfg : ServerConfig) : loop :=
  MkLoop [] 0 0 0 [] false false (AuthCallbacks cfg) [].

Definition serverAuthenticate (cfg : ServerConfig) : M (option (option Perm)) := fun s =>
  let s := match PreAuthConnCallback cfg with
           | Some f => let s' := f s in MkSession (ss_world s') (ss_in s') (ss_out s') (ss_trace s)
           | None => s
           end in
  (r ← auth_loop 129 cfg (first_loop cfg);
   match r with
   | None => mret None
   | Some perms => writePacket [vb msgUserAuthSuccess];; mret (Some perms)
   end) s.

(** *** Keyboard-interactive challenges *)
Fixpoint parse_answers (n : nat) (packet : gostring) : option (list gostring * gostring) :=
  match n with
  | O => Some ([], packet)
  | S n =>
      match parseString packet with
      | None => None
      | Some (a, rest) =>
          match parse_answers n rest with
          | Some (answers, rest) => Some (a :: answers, rest)
          | None => None
          end
      end
  end.
Fixpoint prompts_of (questions : list gostring) (echos : list bool) : gostring :=
  match questions, echos with
  | q :: questions, e :: echos => appendBool (appendString [] q) e ++ prompts_of questions echos
  | _, _ => []
  end.
Definition Challenge (name instruction : gostring) (questions : list gostring) (echos : list bool) : M (list gostring) :=
  if negb (length questions =? length echos)%nat
  then fail_err (go "ssh: echos and questions must have equal length")
  else
    writePacket (MarshalMsg (Mk_userAuthInfoRequestMsg name instruction [] (len questions mod 2 ^ 32)
                               (prompts_of questions echos)));;
    packet ← read_bytes;
    match packet with
    | [] => fail_err (go "runtime error: index out of range")
    | t :: packet =>
        if negb (bv t =? msgUserAuthInfoResponse)
        then fail (FErr (unexpectedMessageError msgUserAuthInfoResponse (bv t)))
        else
          match parseUint32 packet with
          | None => fail (FErr (parseError msgUserAuthInfoResponse))
          | Some (n, packet) =>
              if negb (n =? len questions) then fail (FErr (parseError msgUserAuthInfoResponse))
              else match parse_answers (Z.to_nat n) packet with
                   | None => fail (FErr (parseError msgUserAuthInfoResponse))
                   | Some (answers, rest) =>
                       if negb (len rest =? 0) then fail_err (go "ssh: junk at end of message")
                       else mret answers
                   end
          end
    end.

(** ** Reasoning about the monad *)
Lemma bind_inl {A B} (m : M A) (f : A -> M B) s b s' :
  (x ← m; f x) s = (inl b, s') -> exists a s1, m s = (inl a, s1) /\ f a s1 = (inl b, s').
Proof. unfold mbind, M_bind. destruct (m s) as [[a|e] s1]; [|done]. eauto. Qed.

Ltac minv H :=
  lazymatch type of H with
  | mbind _ _ _ = (inl _, _) => let a := fresh "a" in let s := fresh "s" in let Hm := fresh "Hm" in
      apply bind_inl in H as (a & s & Hm & H)
  | mret _ _ = (inl _, _) => injection H as ? ?; subst
  | fail _ _ = (inl _, _) => discriminate H
  | fail_err _ _ = (inl _, _) => discriminate H
  | (if ?b then _ else _) _ = (inl _, _) => destruct b eqn:?
  | match ?x with _ => _ end _ = (inl _, _) => destruct x eqn:?
  end.
Ltac minvs H := repeat (minv H; cbn beta iota in H).

(** *** The number of rounds *)
Lemma after_failure_attempts cfg l method perms err s l' s' :
  after_failure cfg l method perms err s = (inl l', s') -> l_authAttempts l' = l_authAttempts l.
Proof. unfold after_failure. intros E. cbv zeta in E. minvs E; done. Qed.

Lemma conclude_attempts cfg l method perms err s l' s' :
  conclude cfg l method perms err s = (inl (inl l'), s') -> l_authAttempts l' = l_authAttempts l.
Proof.
  unfold conclude. intros E. do 3 minv E. minv E; [|done]. minv E. minv E.
  apply after_failure_attempts in Hm2. done.
Qed.

Lemma auth_round_attempts cfg l s l' s' :
  auth_round cfg l s = (inl (inl l'), s') ->
  l_authAttempts l' = l_authAttempts l + 1 /\ l_authAttempts l < maxAuthServerAttempts.
Proof.
  unfold auth_round. destruct (_ && _); [intros E; unfold disconnect in E; by minvs E|].
  destruct (Z.leb_spec maxAuthServerAttempts (l_authAttempts l)); [intros E; unfold disconnect in E; by minvs E|].
  intros E. split; [|done]. cbv zeta in E. do 3 minv E. minv E.
  - by minv E.
  - by apply conclude_attempts in E.
Qed.

(** *** What a round may do to the session

    A callback of the configuration or of the current authentication step may
    change the world; nothing but [record] touches the trace. *)
Inductive moves (cfg : ServerConfig) (c : cbs) (w : W) : W -> Prop :=
| m_password f user pw : cb_Password c = Some f -> moves cfg c w (fst (f w user pw))
| m_key f user k : cb_PublicKey c = Some f -> moves cfg c w (fst (f w user k))
| m_keyboard f user s : cb_Keyboard c = Some f -> ss_world s = w -> moves cfg c w (ss_world (fst (f s user)))
| m_gss_accept allow srv token : cb_GSSAPI c = Some (MkGSS allow srv) ->
    moves cfg c w (fst (AcceptSecContext srv w token))
| m_gss_mic allow srv mic token : cb_GSSAPI c = Some (MkGSS allow srv) -> moves cfg c w (fst (VerifyMIC srv w mic token))
| m_gss_delete allow srv : cb_GSSAPI c = Some (MkGSS allow srv) -> moves cfg c w (DeleteSecContext srv w)
| m_gss_allow allow srv user src : cb_GSSAPI c = Some (MkGSS allow srv) -> moves cfg c w (fst (allow w user src))
| m_none f user : NoClientAuthCallback cfg = Some f -> moves cfg c w (fst (f w user))
| m_verified f user k perms fmt : VerifiedPublicKeyCallback cfg = Some f -> moves cfg c w (fst (f w user k perms fmt))
| m_log f user method err : AuthLogCallback cfg = Some f -> moves cfg c w (f w user method err)
| m_banner f user : BannerCallback cfg = Some f -> moves cfg c w (fst (f w user)).

(** Packets are only taken from the front, except by a keyboard-interactive callback,
    which reads the answers to its challenges. *)
Definition input_ok (c : cbs) (s s' : session W) : Prop :=
  (exists l, ss_in s = l ++ ss_in s') \/ exists f user, cb_Keyboard c = Some f /\ ss_in s' = ss_in (fst (f s user)).
Definition step_ok (cfg : ServerConfig) (c : cbs) (s s' : session W) : Prop :=
  (ss_world s' = ss_world s \/ moves cfg c (ss_world s) (ss_world s')) /\ input_ok c s s' /\ ss_trace s' = ss_trace s.
Lemma input_same c s s' : ss_in s' = ss_in s -> input_ok c s s'.
Proof. intros E. left. exists []. by rewrite E. Qed.
Definition runs {A} (cfg : ServerConfig) (c : cbs) (m : M A) : Prop := forall s, rtc (step_ok cfg c) s (snd (m s)).

Section runs.
  Context (cfg : ServerConfig) (c : cbs).

Lemma runs_ret {A} (a : A) : runs cfg c (mret a).
Proof. intros s. apply rtc_refl. Qed.
Lemma runs_fail {A} e : runs cfg c (fail (A := A) e).
Proof. intros s. apply rtc_refl. Qed.
Lemma runs_fail_err {A} e : runs cfg c (fail_err (A := A) e).
Proof. intros s. apply rtc_refl. Qed.
Lemma runs_bind {A B} (m : M A) (f : A -> M B) :
  runs cfg c m -> (forall a, runs cfg c (f a)) -> runs cfg c (x ← m; f x).
Proof.
  intros Hm Hf s. unfold mbind, M_bind. specialize (Hm s). destruct (m s) as [[a|e] s1]; [|exact Hm].
  etrans; [exact Hm|apply Hf].
Qed.
Lemma runs_of_res {A} (r : res A) : runs cfg c (of_res r).
Proof. destruct r; [apply runs_ret|apply runs_fail]. Qed.
Lemma runs_of_option {A} (o : option A) e : runs cfg c (of_option o e).
Proof. destruct o; [apply runs_ret|apply runs_fail]. Qed.
Lemma runs_read : runs cfg c readPacket.
Proof.
  intros s. unfold readPacket. destruct (ss_in s) as [|x rest] eqn:E; [apply rtc_refl|]. apply rtc_once. split; [by left|].
  split; [left; by exists [x]|done].
Qed.
Lemma runs_write p : runs cfg c (writePacket p).
Proof.
  intros s. unfold writePacket. destruct (write_error _); [apply rtc_refl|]. apply rtc_once. split; [by left|].
  split; [by apply input_same|done].
Qed.
Lemma runs_call {A} (f : W -> W * A) : (forall w, moves cfg c w (fst (f w))) -> runs cfg c (call f).
Proof.
  intros Hf s. unfold call. specialize (Hf (ss_world s)). destruct (f (ss_world s)) as [w a].
  apply rtc_once. split; [by right|]. split; [by apply input_same|done].
Qed.
End runs.

Create HintDb auth_runs.
Hint Resolve runs_ret runs_fail runs_fail_err runs_of_res runs_of_option runs_read runs_write : auth_runs.
Hint Constructors moves : auth_runs.

(** Splits a program along its binds and branches. *)
Ltac runs :=
  repeat match goal with
  | |- runs _ _ (mbind _ _) => apply runs_bind; [|intros ?]
  | |- runs _ _ (call _) => apply runs_call; intros ?; cbn beta
  | |- runs _ _ (let '(_, _) := ?x in _) => destruct x
  | |- runs _ _ (match ?x with _ => _ end) => destruct x eqn:?
  | |- runs _ _ _ => solve [eauto with auth_runs]
  end; eauto with auth_runs.

Lemma runs_read_bytes cfg c : runs cfg c read_bytes.
Proof. unfold read_bytes. runs. Qed.
Hint Resolve runs_read_bytes : auth_runs.

Lemma runs_auth_none cfg c b user : runs cfg c (auth_none cfg b user).
Proof. unfold auth_none. runs. Qed.
Lemma runs_auth_password cfg c user payload : runs cfg c (auth_password c user payload).
Proof. unfold auth_password. runs. Qed.
Lemma runs_auth_keyboard cfg c user : runs cfg c (auth_keyboard c user).
Proof.
  unfold auth_keyboard. destruct (cb_Keyboard c) as [f|] eqn:E; [|apply runs_ret].
  intros s. pose proof (m_keyboard cfg c (ss_world s) f user s E eq_refl) as Hm.
  destruct (f s user) as [s' a] eqn:Ef. apply rtc_once. split; [by right|]. split; [right; exists f, user; by rewrite Ef|done].
Qed.
Lemma runs_lookup_key cfg c f cache user data key :
  cb_PublicKey c = Some f -> runs cfg c (lookup_key cfg f cache user data key).
Proof. intros E. unfold lookup_key. runs. Qed.
Hint Resolve runs_lookup_key : auth_runs.
Lemma runs_auth_publickey cfg c cache req : runs cfg c (auth_publickey cfg c cache req).
Proof. unfold auth_publickey, auth_query, auth_signature. runs. Qed.

Lemma runs_gss_rounds cfg c allow srv fuel token :
  cb_GSSAPI c = Some (MkGSS allow srv) -> runs cfg c (gss_rounds srv fuel token).
Proof. intros E. revert token. induction fuel as [|fuel IH]; intros token; cbn [gss_rounds]; runs. Qed.
Hint Resolve runs_gss_rounds : auth_runs.
Lemma runs_gssExchangeToken cfg c allow srv token req :
  cb_GSSAPI c = Some (MkGSS allow srv) -> runs cfg c (gssExchangeToken allow srv token req).
Proof.
  intros E s. unfold gssExchangeToken, deferred.
  assert (runs cfg c (gss_session allow srv (S (length (ss_in s))) token req)) as Hr.
  { unfold gss_session. runs. }
  specialize (Hr s). destruct (gss_session _ _ _ _ _ s) as [r s']. cbn [snd] in *.
  eapply rtc_r; [exact Hr|]. split; [right; eauto with auth_runs|]. split; [by apply input_same|done].
Qed.
Hint Resolve runs_auth_none runs_auth_password runs_auth_keyboard runs_auth_publickey runs_gssExchangeToken : auth_runs.
Lemma runs_auth_gssapi cfg c req : runs cfg c (auth_gssapi c req).
Proof. unfold auth_gssapi. runs. Qed.
Hint Resolve runs_auth_gssapi : auth_runs.
Lemma runs_auth_method cfg c b cache req : runs cfg c (auth_method cfg c b cache req).
Proof. unfold auth_method. runs. Qed.
Lemma runs_read_request cfg c l : runs cfg c (read_request l).
Proof. unfold read_request. runs. Qed.
Lemma runs_send_banner cfg c l user : runs cfg c (send_banner cfg l user).
Proof. unfold send_banner, SendAuthBanner. runs. Qed.
Lemma runs_banner_of cfg c e : runs cfg c (banner_of e).
Proof. unfold banner_of, SendAuthBanner. runs. Qed.
Lemma runs_send_failure cfg c c' b : runs cfg c (send_failure c' b).
Proof. unfold send_failure. runs. Qed.
Hint Resolve runs_auth_method runs_read_request runs_send_banner runs_banner_of runs_send_failure : auth_runs.
Lemma runs_after_failure cfg c l method perms e : runs cfg c (after_failure cfg l method perms e).
Proof. unfold after_failure. runs. Qed.
Lemma runs_disconnect {A} cfg c errs msg : runs cfg c (disconnect (A := A) errs msg).
Proof. unfold disconnect. runs. Qed.
Hint Resolve runs_after_failure : auth_runs.

Lemma runs_trace {A} cfg c (m : M A) s : runs cfg c m -> ss_trace (snd (m s)) = ss_trace s.
Proof.
  intros Hr. specialize (Hr s). revert Hr. generalize (snd (m s)). intros s' Hr.
  induction Hr as [|s s1 s2 (_ & _ & Ht) _ IH]; congruence.
Qed.

(** *** Counting attempts *)
Definition is_guess (e : gostring * gostring * verdict_kind) : bool :=
  match e with (method, _, Rejected) => negb (method =s go "none") | _ => false end.
Definition guesses (t : list (gostring * gostring * verdict_kind)) : Z := len (List.filter is_guess t).

Lemma guesses_app t u : guesses (t ++ u) = guesses t + guesses u.
Proof. unfold guesses. rewrite List.filter_app. unfold len. rewrite length_app. lia. Qed.

Lemma guesses_le t : 0 <= guesses t <= len t.
Proof. unfold guesses, len. pose proof (List.filter_length_le is_guess t). lia. Qed.

Lemma conclude_trace cfg l method perms err s :
  ss_trace (snd (conclude cfg l method perms err s)) =
  ss_trace s ++ [(method, l_user l, kind_of (enforce_source perms err))].
Proof.
  unfold conclude. cbv zeta. unfold mbind at 1, M_bind at 1. cbn [record].
  rewrite (runs_trace cfg (AuthCallbacks cfg)); [done|]. runs.
Qed.

Lemma after_failure_count cfg l method perms e s l' s' :
  after_failure cfg l method perms e s = (inl l', s') ->
  l_authFailures l' = l_authFailures l + (match kind_of (Some e) with
    | Rejected => if (0 <? l_authFailures l) || negb (method =s go "none") || negb (l_noneAuthCount l =? 1) then 1 else 0
    | _ => 0 end).
Proof.
  unfold after_failure. cbv zeta. intros E. destruct e; cbn [kind_of]; minvs E; cbn [l_authFailures]; try lia;
    destruct (_ || _ || _); lia.
Qed.

Lemma bind_cases {A B} (m : M A) (f : A -> M B) s r s' :
  (x ← m; f x) s = (r, s') ->
  (exists e, m s = (inr e, s') /\ r = inr e) \/ exists a s1, m s = (inl a, s1) /\ f a s1 = (r, s').
Proof. unfold mbind, M_bind. destruct (m s) as [[a|e] s1]; [eauto|]. intros [= <- <-]. eauto. Qed.

(** All rejections; the first one of the method none may be free. *)
Definition is_rejected (e : gostring * gostring * verdict_kind) : bool := match e with (_, _, Rejected) => true | _ => false end.
Definition rejections (t : list (gostring * gostring * verdict_kind)) : Z := len (List.filter is_rejected t).
Lemma rejections_app t u : rejections (t ++ u) = rejections t + rejections u.
Proof. unfold rejections. rewrite List.filter_app. unfold len. rewrite length_app. lia. Qed.
Lemma rejections_le t : 0 <= rejections t <= len t.
Proof. unfold rejections, len. pose proof (List.filter_length_le is_rejected t). lia. Qed.
Definition charged (l : loop) : Z := l_authFailures l + (if l_noneAuthCount l =? 0 then 0 else 1).

(** One round adds at most one verdict, and counts each guess. *)
Definition round_count (cfg : ServerConfig) (l : loop) (s : session W) (r : (loop + option Perm) + fatal) (s' : session W) : Prop :=
  exists evs, ss_trace s' = ss_trace s ++ evs /\ (length evs <= 1)%nat /\
    (evs <> [] -> ~ (0 < MaxAuthTries cfg <= l_authFailures l) /\ l_authAttempts l < maxAuthServerAttempts) /\
    forall l', r = inl (inl l') ->
      guesses evs <= l_authFailures l' - l_authFailures l <= 1 /\ l_authFailures l <= l_authFailures l' /\
      ~ (0 < MaxAuthTries cfg <= l_authFailures l) /\
      (0 <= l_noneAuthCount l -> 0 <= l_noneAuthCount l' /\ rejections evs <= charged l' - charged l).

Lemma round_count_none cfg l s r s' :
  ss_trace s' = ss_trace s -> (forall l', r <> inl (inl l')) -> round_count cfg l s r s'.
Proof.
  intros Ht Hr. exists []. split_and!; [by rewrite app_nil_r|simpl; lia|done|]. intros l' E. by destruct (Hr l').
Qed.

Lemma disconnect_inr {A} errs msg s r s' : disconnect (A := A) errs msg s = (r, s') -> exists e, r = inr e.
Proof. unfold disconnect. intros E. apply bind_cases in E as [(e & _ & ->)|(? & ? & _ & [= <- _])]; eauto. Qed.

Lemma round_count_bind {A} cfg c l (m : M A) f s r s' :
  runs cfg c m -> (x ← m; f x) s = (r, s') ->
  (forall a s1, f a s1 = (r, s') -> round_count cfg l s1 r s') -> round_count cfg l s r s'.
Proof.
  intros Hr E Hk. pose proof (runs_trace cfg c m s Hr) as Ht. apply bind_cases in E as [(e & E & ->)|(a & s1 & E & E')];
    rewrite E in Ht; cbn [snd] in Ht; [by apply round_count_none|].
  specialize (Hk a s1 E'). unfold round_count in *. by rewrite Ht in Hk.
Qed.

Lemma round_count_disconnect cfg l errs msg s r s' : disconnect errs msg s = (r, s') -> round_count cfg l s r s'.
Proof.
  intros E. apply round_count_none.
  - pose proof (runs_trace cfg (AuthCallbacks cfg) _ s (runs_disconnect (A := loop + option Perm) cfg _ errs msg)) as Ht.
    by rewrite E in Ht.
  - by apply disconnect_inr in E as [e ->].
Qed.

Lemma after_failure_none cfg l method perms e s l' s' :
  after_failure cfg l method perms e s = (inl l', s') -> l_noneAuthCount l' = l_noneAuthCount l.
Proof. unfold after_failure. cbv zeta. intros E. destruct e; minvs E; done. Qed.

Lemma conclude_count cfg l l0 method perms err s r s' :
  conclude cfg l method perms err s = (r, s') -> l_authFailures l = l_authFailures l0 ->
  l_noneAuthCount l = (if method =s go "none" then l_noneAuthCount l0 + 1 else l_noneAuthCount l0) ->
  ~ (0 < MaxAuthTries cfg <= l_authFailures l0) -> l_authAttempts l0 < maxAuthServerAttempts -> round_count cfg l0 s r s'.
Proof.
  intros E Hl Hno Hok Hat. pose proof (conclude_trace cfg l method perms err s) as Ht. rewrite E in Ht. cbn [snd] in Ht.
  exists [(method, l_user l, kind_of (enforce_source perms err))]. split_and!; [done|simpl; lia|done|].
  intros l' ->. unfold conclude in E. destruct (enforce_source perms err) as [e|]; do 3 minv E; [|done].
  minv E. minv E. pose proof (after_failure_none _ _ _ _ _ _ _ _ Hm2) as Hn'. apply after_failure_count in Hm2.
  change (l_authFailures (add_err l e)) with (l_authFailures l) in Hm2. change (l_noneAuthCount (add_err l e)) with (l_noneAuthCount l) in Hm2, Hn'.
  split; [|split; [|split; [done|]]].
  1-2: rewrite Hm2, Hl; unfold guesses; cbn [List.filter is_guess];
    destruct (kind_of (Some e)); try (destruct (_ =s _)); cbn [negb]; rewrite ?orb_true_r, ?orb_true_l;
    try match goal with |- context [if ?b then 1 else 0] => destruct b end; unfold len; cbn; lia.
  intros Hn0. rewrite Hn', Hno. split; [destruct (_ =s _); lia|]. unfold charged. rewrite Hm2, Hl, Hn', Hno. unfold rejections. cbn [List.filter is_rejected].
  destruct (kind_of (Some e)); destruct (method =s _); cbn [negb]; rewrite ?orb_true_r, ?orb_true_l;
    repeat match goal with |- context [?a =? ?b] => destruct (Z.eqb_spec a b) end; cbn [negb orb];
    rewrite ?orb_true_r, ?orb_true_l, ?orb_false_r; repeat match goal with |- context [if ?b then _ else _] => destruct b end; unfold len; cbn; lia.
Qed.

Lemma auth_round_count cfg l s r s' : auth_round cfg l s = (r, s') -> round_count cfg l s r s'.
Proof.
  unfold auth_round. destruct (_ && _) eqn:EB; [apply round_count_disconnect|].
  destruct (Z.leb_spec maxAuthServerAttempts (l_authAttempts l)) as [|Hat]; [apply round_count_disconnect|].
  assert (~ (0 < MaxAuthTries cfg <= l_authFailures l)) as Hok.
  { intros [HA1 HA2]. apply Z.ltb_lt in HA1. apply Z.leb_le in HA2. by rewrite HA1, HA2 in EB. }
  intros E. cbv zeta in E.
  refine (round_count_bind _ (l_config l) _ _ _ _ _ _ (runs_read_request _ _ _) E _). clear E. intros req s1 E.
  refine (round_count_bind _ (l_config l) _ _ _ _ _ _ (runs_send_banner _ _ _ _) E _). clear E. intros called s2 E.
  refine (round_count_bind _ (l_config l) _ _ _ _ _ _ (runs_auth_method _ _ _ _ _) E _). clear E. intros [cache v] s3 E.
  cbn [fst snd] in E. destruct v as [|perms err].
  - injection E as <- <-. exists []. split_and!; [by rewrite app_nil_r|simpl; lia|done|].
    intros l' [= <-]. unfold charged. cbn [l_authFailures l_noneAuthCount]. unfold guesses, rejections, len; cbn.
    split; [lia|]. split; [lia|]. split; [done|]. intros Hn0. destruct (_ =s _); [|split; [lia|]; destruct (_ =? 0); lia].
    split; [lia|]. repeat match goal with |- context [?a =? ?b] => destruct (Z.eqb_spec a b) end; lia.
  - eapply conclude_count; [exact E|done|done|done|done].
Qed.

Lemma round_budget cfg l evs g :
  (length evs <= 1)%nat -> (evs <> [] -> ~ (0 < MaxAuthTries cfg <= l_authFailures l) /\ l_authAttempts l < maxAuthServerAttempts) ->
  l_authAttempts l <= maxAuthServerAttempts ->
  len evs <= maxAuthServerAttempts - l_authAttempts l /\
  (0 < MaxAuthTries cfg -> l_authFailures l <= MaxAuthTries cfg ->
   g + guesses evs <= g + (MaxAuthTries cfg - l_authFailures l) /\
   rejections evs <= MaxAuthTries cfg + 1 - charged l).
Proof.
  intros Hn He Hat. pose proof (guesses_le evs) as Hg. pose proof (rejections_le evs) as Hj. unfold charged. unfold len in *.
  destruct evs as [|ev evs]; [cbn in *; destruct (_ =? 0); lia|]. destruct (He ltac:(discriminate)). cbn in *. destruct (_ =? 0); lia.
Qed.

Lemma auth_loop_count fuel cfg l s r s' :
  auth_loop fuel cfg l s = (r, s') -> l_authAttempts l <= maxAuthServerAttempts -> 0 <= l_noneAuthCount l ->
  len (ss_trace s') <= len (ss_trace s) + (maxAuthServerAttempts - l_authAttempts l) /\
  (0 < MaxAuthTries cfg -> l_authFailures l <= MaxAuthTries cfg ->
   guesses (ss_trace s') <= guesses (ss_trace s) + (MaxAuthTries cfg - l_authFailures l) /\
   rejections (ss_trace s') <= rejections (ss_trace s) + (MaxAuthTries cfg + 1 - charged l)).
Proof.
  revert l s. induction fuel as [|fuel IH]; intros l s; cbn [auth_loop].
  { intros [= _ <-]. unfold charged. split; [lia|]. intros. destruct (_ =? 0); lia. }
  intros E Hat Hno. apply bind_cases in E as [(e & E & ->)|(a & s1 & E & E')];
    pose proof (auth_round_count _ _ _ _ _ E) as (evs & Ht & Hn & He & Hl).
  - destruct (round_budget cfg l evs (guesses (ss_trace s)) Hn He Hat) as [HB1 HB2].
    rewrite Ht, guesses_app, rejections_app. unfold len in *. rewrite length_app. split; [lia|]. intros HA3 HA4. specialize (HB2 HA3 HA4). lia.
  - destruct a as [l'|perms].
    + destruct (Hl _ eq_refl) as (Hg & Hm & Hb & Hj). destruct (Hj Hno) as [Hno' Hj']. apply auth_round_attempts in E as [HA HA'].
      apply IH in E' as [HA1 HA2]; [|lia|done]. unfold len in *.
      rewrite Ht, length_app in HA1. rewrite Ht, guesses_app, rejections_app in HA2. split; [lia|]. intros HA3 HA4.
      specialize (HA2 HA3). lia.
    + injection E' as _ <-. destruct (round_budget cfg l evs (guesses (ss_trace s)) Hn He Hat) as [HB1 HB2].
      rewrite Ht, guesses_app, rejections_app. unfold len in *. rewrite length_app. split; [lia|]. intros HA3 HA4. specialize (HB2 HA3 HA4). lia.
Qed.

Lemma auth_loop_returns fuel cfg l s :
  maxAuthServerAttempts - l_authAttempts l < Z.of_nat fuel -> l_authAttempts l <= maxAuthServerAttempts ->
  fst (auth_loop fuel cfg l s) <> inl None.
Proof.
  revert l s. induction fuel as [|fuel IH]; intros l s Hf Ha; cbn [auth_loop]; [lia|].
  unfold mbind, M_bind. destruct (auth_round cfg l s) as [[[l'|perms]|e] s1] eqn:E; [|done..].
  apply auth_round_attempts in E as [E1 E2]. apply IH; lia.
Qed.

(** *** Why a user was accepted

    [history] is how far authentication got: the user that an earlier partial success was
    about, if any, the callbacks in force, and a session they were called in.
    [answered] is an answer of such a callback to a request; for a public key it includes
    the proof of possession. *)
Definition proves_key (cfg : ServerConfig) (user data : gostring) (key : Key) (perms : option Perm) : Prop :=
  exists req algo sig, userAuthRequest_User req = user /\
    underlyingAlgo algo ∈ PublicKeyAuthAlgorithms cfg /\ sig_Format sig ∈ PublicKeyAuthAlgorithms cfg /\
    algo ∈ algorithmsForKeyFormat (key_Type key) /\ isAlgoCompatible algo (sig_Format sig) = true /\
    Verify (noTouchAllowed key perms) key (buildDataSignedForAuth sessionID req algo data) sig = None.

(** The contents of requests: the password; the algorithm, the key and the signature. *)
Definition has_password (req : userAuthRequestMsg) (password : gostring) : Prop :=
  exists b rest, userAuthRequest_Payload req = b :: rest /\ bv b = 0 /\ parseString rest = Some (password, []).
Definition has_key (req : userAuthRequestMsg) (algo data : gostring) (sig : Signature) : Prop :=
  exists b r1 r2 r3, userAuthRequest_Payload req = b :: r1 /\ bv b <> 0 /\ parseString r1 = Some (algo, r2) /\
    parseString r2 = Some (data, r3) /\ parseSignature r3 = Some (sig, []).
(** The signature in the request, over this session and request, verifies for its key. *)
Definition signed_request (cfg : ServerConfig) (req : userAuthRequestMsg) (data : gostring) (key : Key) (perms : option Perm)
    (fmt : gostring) : Prop :=
  exists algo sig, has_key req algo data sig /\ fmt = sig_Format sig /\
    underlyingAlgo algo ∈ PublicKeyAuthAlgorithms cfg /\ sig_Format sig ∈ PublicKeyAuthAlgorithms cfg /\
    algo ∈ algorithmsForKeyFormat (key_Type key) /\ isAlgoCompatible algo (sig_Format sig) = true /\
    Verify (noTouchAllowed key perms) key (buildDataSignedForAuth sessionID req algo data) sig = None.
Lemma signed_proves cfg req data key perms fmt :
  signed_request cfg req data key perms fmt -> proves_key cfg (userAuthRequest_User req) data key perms.
Proof. intros (algo & sig & _ & _ & HP). by exists req, algo, sig. Qed.

Definition after_pre (cfg : ServerConfig) (s : session W) : session W :=
  match PreAuthConnCallback cfg with
  | Some f => MkSession (ss_world (f s)) (ss_in (f s)) (ss_out (f s)) (ss_trace s)
  | None => s
  end.

(** The request is the next packet, for the service; after a partial success it is for
    the same user. *)
Definition reads (s : session W) (req : userAuthRequestMsg) : Prop :=
  exists p rest, ss_in s = RPacket p :: rest /\ UnmarshalMsg userAuthRequestMsg p = Ok req /\ userAuthRequest_Service req = serviceSSH.
Definition same_user (u : option gostring) (req : userAuthRequestMsg) : Prop := u = None \/ u = Some (userAuthRequest_User req).

Inductive history (cfg : ServerConfig) (s0 : session W) : option gostring -> cbs -> session W -> Prop :=
| h_init : history cfg s0 None (AuthCallbacks cfg) (after_pre cfg s0)
| h_move u c s s' : history cfg s0 u c s -> step_ok cfg c s s' -> history cfg s0 u c s'
| h_record u c s e : history cfg s0 u c s ->
    history cfg s0 u c (MkSession (ss_world s) (ss_in s) (ss_out s) (ss_trace s ++ [e]))
| h_next u c s req next s' : history cfg s0 u c s -> reads s req -> same_user u req ->
    answered cfg s0 u c req None (Some (EPartial next)) -> history cfg s0 u c s' ->
    history cfg s0 (Some (userAuthRequest_User req)) next s'
with answered (cfg : ServerConfig) (s0 : session W) : option gostring -> cbs -> userAuthRequestMsg -> option Perm -> option aerr -> Prop :=
| by_none c req : userAuthRequest_Method req = go "none" -> NoClientAuth cfg = true -> NoClientAuthCallback cfg = None ->
    answered cfg s0 None c req None None
| by_none_callback c req f s w' a :
    userAuthRequest_Method req = go "none" -> NoClientAuth cfg = true -> NoClientAuthCallback cfg = Some f ->
    history cfg s0 None c s -> f (ss_world s) (userAuthRequest_User req) = (w', a) -> answered cfg s0 None c req (fst a) (snd a)
| by_password u c req f s pw w' a :
    userAuthRequest_Method req = go "password" -> cb_Password c = Some f -> has_password req pw ->
    history cfg s0 u c s -> f (ss_world s) (userAuthRequest_User req) pw = (w', a) -> answered cfg s0 u c req (fst a) (snd a)
| by_keyboard u c req f s s' a :
    userAuthRequest_Method req = go "keyboard-interactive" -> cb_Keyboard c = Some f -> history cfg s0 u c s ->
    f s (userAuthRequest_User req) = (s', a) -> answered cfg s0 u c req (fst a) (snd a)
| by_gss u c req allow srv s1 token w1 out src s2 mic w2 s3 w3 a :
    userAuthRequest_Method req = go "gssapi-with-mic" -> cb_GSSAPI c = Some (MkGSS allow srv) ->
    history cfg s0 u c s1 -> AcceptSecContext srv (ss_world s1) token = (w1, Ok (out, src, false)) ->
    history cfg s0 u c s2 ->
    VerifyMIC srv (ss_world s2) (buildMIC sessionID (userAuthRequest_User req) (userAuthRequest_Service req)
      (userAuthRequest_Method req)) mic = (w2, None) ->
    history cfg s0 u c s3 -> allow (ss_world s3) (userAuthRequest_User req) src = (w3, a) ->
    answered cfg s0 u c req (fst a) (snd a)
| by_key u c req f data key s w' perms err fmt :
    userAuthRequest_Method req = go "publickey" -> cb_PublicKey c = Some f -> ParsePublicKey data = Ok key ->
    history cfg s0 u c s -> f (ss_world s) (userAuthRequest_User req) key = (w', (perms, err)) ->
    checkSourceAddressCriticalOption perms = None -> signed_request cfg req data key perms fmt ->
    err <> None \/ VerifiedPublicKeyCallback cfg = None -> answered cfg s0 u c req perms err
| by_verified_key u c req f data key s w' perms v fmt s2 w3 a :
    userAuthRequest_Method req = go "publickey" -> cb_PublicKey c = Some f -> ParsePublicKey data = Ok key ->
    history cfg s0 u c s -> f (ss_world s) (userAuthRequest_User req) key = (w', (perms, None)) ->
    checkSourceAddressCriticalOption perms = None -> signed_request cfg req data key perms fmt ->
    VerifiedPublicKeyCallback cfg = Some v -> history cfg s0 u c s2 ->
    v (ss_world s2) (userAuthRequest_User req) key perms fmt = (w3, a) -> answered cfg s0 u c req (fst a) (snd a).

Section sound.
  Context (cfg : ServerConfig) (s0 : session W).

Lemma history_runs {A} u c (m : M A) s : runs cfg c m -> history cfg s0 u c s -> history cfg s0 u c (snd (m s)).
Proof.
  intros Hr. specialize (Hr s). revert Hr. generalize (snd (m s)). intros s' Hr.
  induction Hr as [|s s1 s2 Hm _ IH]; [done|]. intros Hs. apply IH. by eapply h_move.
Qed.

(** What the cache holds for a key is an answer of the callback in force. *)
Definition entry_ok (u : option gostring) (c : cbs) (k : cachedPubKey) : Prop :=
  exists f key s w' err, cb_PublicKey c = Some f /\ ParsePublicKey (ck_pubKeyData k) = Ok key /\ history cfg s0 u c s /\
    f (ss_world s) (ck_user k) key = (w', (ck_perms k, err)) /\
    (ck_result k = None \/ is_partial (ck_result k) = true ->
     err = ck_result k /\ checkSourceAddressCriticalOption (ck_perms k) = None).
(** The user of an earlier partial success, as the loop keeps it. *)
Definition partial_user (l : loop) : option gostring := if l_partial l then Some (l_user l) else None.
Definition loop_inv (l : loop) (s : session W) : Prop :=
  history cfg s0 (partial_user l) (l_config l) s /\ Forall (entry_ok (partial_user l) (l_config l)) (l_cache l).

Lemma cache_get_ok u c cache user data k :
  Forall (entry_ok u c) cache -> cache_get cache user data = Some k -> entry_ok u c k /\ ck_user k = user /\ ck_pubKeyData k = data.
Proof.
  induction 1 as [|x cache Hx _ IH]; cbn [cache_get]; [done|].
  destruct (gos_eqb_spec (ck_user x) user); cbn [andb]; [|done].
  destruct (gos_eqb_spec (ck_pubKeyData x) data); [|done]. by intros [= <-].
Qed.
Lemma cache_add_ok u c cache k : Forall (entry_ok u c) cache -> entry_ok u c k -> Forall (entry_ok u c) (cache_add cache k).
Proof.
  intros Hc Hk. unfold cache_add. apply Forall_app. split; [|by constructor].
  destruct (_ <=? _)%nat; [|done]. by destruct Hc.
Qed.

Lemma lookup_key_ok u c f cache user data key s cache' k s' :
  cb_PublicKey c = Some f -> ParsePublicKey data = Ok key -> history cfg s0 u c s ->
  Forall (entry_ok u c) cache -> lookup_key cfg f cache user data key s = (inl (cache', k), s') ->
  Forall (entry_ok u c) cache' /\ entry_ok u c k /\ ck_user k = user /\ ck_pubKeyData k = data.
Proof.
  intros Hf Hp Hh Hc. unfold lookup_key. destruct (cache_get cache user data) as [x|] eqn:E.
  - intros [= <- <- _]. split; [done|]. by eapply cache_get_ok.
  - intros HE. minv HE. minv HE; [done|]. injection HE as <- <- _. unfold call in Hm.
    destruct (f (ss_world s) user key) as [w' [perms err]] eqn:Ef. injection Hm as <- <-. cbn [fst snd] in *.
    assert (entry_ok u c (MkCached user data (candidate_result perms err) perms)) as Hk.
    { exists f, key, s, w', err. cbn [ck_user ck_pubKeyData ck_perms ck_result]. split_and!; try done.
      unfold candidate_result. destruct err as [[]|]; cbn; try (by intros [|]);
        destruct (checkSourceAddressCriticalOption perms); cbn; naive_solver. }
    split; [by apply cache_add_ok|done].
Qed.

Lemma history_step {A} u c (m : M A) s x s1 :
  history cfg s0 u c s -> runs cfg c m -> m s = (x, s1) -> history cfg s0 u c s1.
Proof. intros Hh Hr E. pose proof (history_runs u c m s Hr Hh) as Hs. by rewrite E in Hs. Qed.

Definition settled (err : option aerr) : Prop := err = None \/ is_partial err = true.

Lemma settled_plain e : ~ settled (Some (EPlain e)).
Proof. by intros [|]. Qed.

Lemma call_inv {A} (f : W -> W * A) s a s' : call f s = (inl a, s') -> exists w', f (ss_world s) = (w', a).
Proof. unfold call. destruct (f (ss_world s)) as [w' b]. intros [= <- _]. eauto. Qed.

Lemma auth_none_sound c b u req s perms err s' :
  userAuthRequest_Method req = go "none" -> (b = false -> u = None) ->
  history cfg s0 u c s -> auth_none cfg b (userAuthRequest_User req) s = (inl (Verdict perms err), s') -> settled err ->
  answered cfg s0 u c req perms err.
Proof.
  intros Hme Hb Hh. unfold auth_none. destruct (NoClientAuth cfg) eqn:EN; cbn [andb].
  2: { intros [= _ <- _] Hs. by destruct (settled_plain _ Hs). }
  destruct b; cbn [negb]; [intros [= _ <- _] Hs; by destruct (settled_plain _ Hs)|]. rewrite (Hb eq_refl) in *.
  destruct (NoClientAuthCallback cfg) as [f|] eqn:Ef.
  - intros E Hs. minv E. injection E as <- <- _. apply call_inv in Hm as [w' Hw]. by eapply by_none_callback.
  - intros [= <- <- _] _. by apply by_none.
Qed.

Lemma auth_password_sound u c req s perms err s' :
  userAuthRequest_Method req = go "password" ->
  history cfg s0 u c s -> auth_password c (userAuthRequest_User req) (userAuthRequest_Payload req) s = (inl (Verdict perms err), s') -> settled err ->
  answered cfg s0 u c req perms err.
Proof.
  intros Hme Hh. unfold auth_password. destruct (cb_Password c) as [f|] eqn:Ef.
  2: { intros [= _ <- _] Hs. by destruct (settled_plain _ Hs). }
  destruct (userAuthRequest_Payload req) as [|b payload] eqn:Ep; [done|].
  destruct (Z.eqb_spec (bv b) 0) as [Hb|]; cbn [negb]; [|done].
  destruct (parseString payload) as [[pw [|]]|] eqn:Es; [|done..].
  intros E Hs. minv E. injection E as <- <- _. apply call_inv in Hm as [w' Hw].
  eapply by_password; [done|exact Ef| |exact Hh|exact Hw]. by exists b, payload.
Qed.

Lemma auth_keyboard_sound u c req s perms err s' :
  userAuthRequest_Method req = go "keyboard-interactive" ->
  history cfg s0 u c s -> auth_keyboard c (userAuthRequest_User req) s = (inl (Verdict perms err), s') -> settled err ->
  answered cfg s0 u c req perms err.
Proof.
  intros Hme Hh. unfold auth_keyboard. destruct (cb_Keyboard c) as [f|] eqn:Ef.
  2: { intros [= _ <- _] Hs. by destruct (settled_plain _ Hs). }
  destruct (f s (userAuthRequest_User req)) as [s1 a] eqn:E. intros [= <- <- _] _. by eapply by_keyboard.
Qed.

(** The name of the exchange is one that the server of the mechanism accepted. *)
Lemma gss_rounds_source u c allow srv fuel token s src s' :
  cb_GSSAPI c = Some (MkGSS allow srv) -> history cfg s0 u c s -> gss_rounds srv fuel token s = (inl (Some (inl src)), s') ->
  exists s1 token w1 out, history cfg s0 u c s1 /\ AcceptSecContext srv (ss_world s1) token = (w1, Ok (out, src, false)).
Proof.
  intros Ef. revert token s. induction fuel as [|fuel IH]; intros token s Hh; cbn [gss_rounds]; [done|]. intros E. minv E.
  assert (runs cfg c (call (fun w => AcceptSecContext srv w token))) as Hr by runs. pose proof (history_step u c _ _ _ _ Hh Hr Hm) as Hh1.
  apply call_inv in Hm as [w1 Ha]. destruct a as [[[out src'] more]|e]; [|discriminate E]. minv E.
  assert (runs cfg c (if negb (len out =? 0) then writePacket (MarshalMsg (Mk_userAuthGSSAPIToken out)) else mret tt)) as Hr2 by runs.
  pose proof (history_step u c _ _ _ _ Hh1 Hr2 Hm) as Hh2. destruct more; cbn [negb] in E.
  - minv E. pose proof (history_step u c _ _ _ _ Hh2 (runs_read_bytes cfg c) Hm0) as Hh3.
    minv E. pose proof (history_step u c _ _ _ _ Hh3 (runs_of_res cfg c _) Hm1) as Hh4. by eapply IH.
  - injection E as -> _. exists s, token, w1, out. by split.
Qed.

Lemma gssExchangeToken_sound u c allow srv token req s a s' :
  userAuthRequest_Method req = go "gssapi-with-mic" ->
  cb_GSSAPI c = Some (MkGSS allow srv) -> history cfg s0 u c s ->
  gssExchangeToken allow srv token req s = (inl a, s') -> settled (snd a) -> answered cfg s0 u c req (fst a) (snd a).
Proof.
  intros Hme Ef Hh. unfold gssExchangeToken, deferred. destruct (gss_session _ _ _ _ _ s) as [r s1] eqn:E.
  intros [= -> _] Hs. unfold gss_session in E. minv E.
  pose proof (history_step u c _ _ _ _ Hh (runs_gss_rounds cfg c allow srv _ _ Ef) Hm) as Hh1.
  destruct a0 as [[src|e]|]; [|injection E as <- _; by destruct (settled_plain _ Hs)|done].
  destruct (gss_rounds_source u c allow srv _ _ _ _ _ Ef Hh Hm) as (sa & tok & wa & out & Hsa & Hacc).
  minv E. pose proof (history_step u c _ _ _ _ Hh1 (runs_read_bytes cfg c) Hm0) as Hh2.
  minv E. pose proof (history_step u c _ _ _ _ Hh2 (runs_of_res cfg c _) Hm1) as Hh3.
  minv E. assert (runs cfg c (call (fun w => VerifyMIC srv w
     (buildMIC sessionID (userAuthRequest_User req) (userAuthRequest_Service req) (userAuthRequest_Method req))
     (userAuthGSSAPIMIC_MIC a1)))) as Hr by runs.
  pose proof (history_step u c _ _ _ _ Hh3 Hr Hm2) as Hh4. apply call_inv in Hm2 as [wm Hmic].
  destruct a2 as [e|]; [injection E as <- _; by destruct (settled_plain _ Hs)|].
  apply call_inv in E as [w' Hw]. eapply by_gss; [exact Hme|exact Ef|exact Hsa|exact Hacc|exact Hh3|exact Hmic|exact Hh4|exact Hw].
Qed.

Lemma auth_gssapi_sound u c req s perms err s' :
  userAuthRequest_Method req = go "gssapi-with-mic" ->
  history cfg s0 u c s -> auth_gssapi c req s = (inl (Verdict perms err), s') -> settled err ->
  answered cfg s0 u c req perms err.
Proof.
  intros Hme Hh. unfold auth_gssapi. destruct (cb_GSSAPI c) as [[allow srv]|] eqn:Ef.
  2: { intros [= _ <- _] Hs. by destruct (settled_plain _ Hs). }
  destruct (parseGSSAPIPayload _) as [oids|]; [|done].
  destruct (_ =? 0); [intros [= _ <- _] Hs; by destruct (settled_plain _ Hs)|].
  destruct (negb _); [intros [= _ <- _] Hs; by destruct (settled_plain _ Hs)|].
  intros E Hs. minv E. pose proof (history_step u c _ _ _ _ Hh (runs_write cfg c _) Hm) as Hh1.
  minv E. pose proof (history_step u c _ _ _ _ Hh1 (runs_read_bytes cfg c) Hm0) as Hh2.
  minv E. pose proof (history_step u c _ _ _ _ Hh2 (runs_of_res cfg c _) Hm1) as Hh3.
  minv E. injection E as <- <- _. by eapply gssExchangeToken_sound.
Qed.

Lemma auth_signature_sound u c f cache k key req algo b r1 r2 payload s cache' perms err s' :
  userAuthRequest_Method req = go "publickey" ->
  userAuthRequest_Payload req = b :: r1 -> bv b <> 0 -> parseString r1 = Some (algo, r2) -> parseString r2 = Some (ck_pubKeyData k, payload) ->
  cb_PublicKey c = Some f -> ParsePublicKey (ck_pubKeyData k) = Ok key -> ck_user k = userAuthRequest_User req ->
  underlyingAlgo algo ∈ PublicKeyAuthAlgorithms cfg -> entry_ok u c k -> history cfg s0 u c s ->
  auth_signature cfg cache k key req algo payload s = (inl (cache', Verdict perms err), s') ->
  settled err -> answered cfg s0 u c req perms err.
Proof.
  intros Hme Hpl Hb Hal Hdt Hf Hp Hu Ha (f' & key' & w & w' & e & Hf' & Hp' & Hw & Hfw & Hr) Hh.
  rewrite Hf in Hf'. injection Hf' as <-. rewrite Hp in Hp'. injection Hp' as <-.
  unfold auth_signature. destruct (parseSignature payload) as [[sig [|]]|] eqn:Esig; [|done..].
  destruct (contains (algorithmsForKeyFormat _) algo) eqn:E1; cbn [negb];
    [apply contains_spec in E1|intros [= _ _ <- _] Hs; by destruct (settled_plain _ Hs)].
  destruct (contains (PublicKeyAuthAlgorithms cfg) _) eqn:E2; cbn [negb];
    [apply contains_spec in E2|intros [= _ _ <- _] Hs; by destruct (settled_plain _ Hs)].
  destruct (isAlgoCompatible algo _) eqn:E3; cbn [negb]; [|intros [= _ _ <- _] Hs; by destruct (settled_plain _ Hs)].
  cbv zeta. destruct (Verify _ _ _ _) eqn:EV; [done|].
  assert (signed_request cfg req (ck_pubKeyData k) key (ck_perms k) (sig_Format sig)) as HP.
  { exists algo, sig. split; [by exists b, r1, r2, payload|done]. }
  rewrite Hu in Hfw. destruct (ck_result k) as [r|] eqn:Er.
  - intros [= _ <- <- _] Hs. assert (Some r = None \/ is_partial (Some r) = true) as Hs' by exact Hs.
    destruct (Hr Hs') as [-> Hc]. eapply by_key; [done|exact Hf|exact Hp|exact Hw|exact Hfw|exact Hc|exact HP|by left].
  - destruct (Hr (or_introl eq_refl)) as [-> Hc]. destruct (VerifiedPublicKeyCallback cfg) as [v|] eqn:Ev.
    + intros E Hs. minv E. injection E as _ <- <- _. apply call_inv in Hm as [w3 Hv].
      eapply by_verified_key; [done|exact Hf|exact Hp|exact Hw|exact Hfw|exact Hc|exact HP|exact Ev|exact Hh|exact Hv].
    + intros [= _ <- <- _] Hs. eapply by_key; [done|exact Hf|exact Hp|exact Hw|exact Hfw|exact Hc|exact HP|by right].
Qed.

Lemma auth_signature_cache cache k key req algo payload s cache' v s' :
  auth_signature cfg cache k key req algo payload s = (inl (cache', v), s') -> cache' = cache.
Proof. unfold auth_signature. cbv zeta. intros E. minvs E; done. Qed.

Lemma of_option_inl {A} (o : option A) e s a s' : of_option o e s = (inl a, s') -> o = Some a.
Proof. destruct o; [|done]. by intros [= <- _]. Qed.

Lemma auth_publickey_sound u c cache req s cache' v s' :
  userAuthRequest_Method req = go "publickey" ->
  history cfg s0 u c s -> Forall (entry_ok u c) cache ->
  auth_publickey cfg c cache req s = (inl (cache', v), s') ->
  Forall (entry_ok u c) cache' /\
  forall perms err, v = Verdict perms err -> settled err -> answered cfg s0 u c req perms err.
Proof.
  intros Hme Hh Hc. unfold auth_publickey.
  assert (forall msg, Forall (entry_ok u c) cache /\ forall perms err, refuse msg = Verdict perms err -> settled err ->
            answered cfg s0 u c req perms err) as HR.
  { intros msg. split; [done|]. intros perms err [= <- <-] Hs. by destruct (settled_plain _ Hs). }
  destruct (cb_PublicKey c) as [f|] eqn:Ef; [|intros [= <- <- _]; apply HR].
  destruct (userAuthRequest_Payload req) as [|b payload] eqn:Epl; [done|]. intros E. cbv zeta in E.
  minv E. destruct a as [algo rest]. pose proof (history_step u c _ _ _ _ Hh (runs_of_option cfg c _ _) Hm) as Hh1.
  destruct (contains _ (underlyingAlgo algo)) eqn:EA; cbn [negb] in E; [apply contains_spec in EA|injection E as <- <- _; apply HR].
  minv E. destruct a as [data rest2]. pose proof (history_step u c _ _ _ _ Hh1 (runs_of_option cfg c _ _) Hm0) as Hh2.
  destruct (ParsePublicKey data) as [key|e] eqn:Ep.
  2: { injection E as <- <- _. split; [done|]. intros perms err [= <- <-] Hs. by destruct (settled_plain _ Hs). }
  minv E. destruct a as [cache1 k].
  pose proof (history_step u c _ _ _ _ Hh2 (runs_lookup_key cfg c f _ _ _ _ Ef) Hm1) as Hh3.
  destruct (lookup_key_ok u c f _ _ _ _ _ _ _ _ Ef Ep Hh2 Hc Hm1) as (Hc1 & Hk & Hu & Hd). subst data.
  destruct (Z.eqb_spec (bv b) 0) as [_|Hb].
  - unfold auth_query in E. destruct (0 <? len rest2); [done|].
    destruct (match ck_result k with None => true | r => is_partial r end) eqn:Er.
    + minv E. injection E as <- <- _. by split.
    + injection E as <- <- _. split; [done|]. intros perms err [= <- <-] [HN|Hs];
        [by rewrite HN in Er|]. destruct (ck_result k); [by rewrite Hs in Er|done].
  - pose proof (auth_signature_cache _ _ _ _ _ _ _ _ _ _ E) as ->.
    split; [done|]. intros perms err -> Hs. apply of_option_inl in Hm, Hm0. eapply auth_signature_sound; eauto.
Qed.

Lemma auth_method_sound c b u cache req s cache' v s' :
  (b = false -> u = None) ->
  history cfg s0 u c s -> Forall (entry_ok u c) cache ->
  auth_method cfg c b cache req s = (inl (cache', v), s') ->
  Forall (entry_ok u c) cache' /\
  forall perms err, v = Verdict perms err -> settled err -> answered cfg s0 u c req perms err.
Proof.
  intros Hb Hh Hc. unfold auth_method. cbv zeta.
  destruct (gos_eqb_spec (userAuthRequest_Method req) (go "none")); [|destruct (gos_eqb_spec (userAuthRequest_Method req) (go "password"));
    [|destruct (gos_eqb_spec (userAuthRequest_Method req) (go "keyboard-interactive"));
    [|destruct (gos_eqb_spec (userAuthRequest_Method req) (go "publickey")); [by apply auth_publickey_sound|
      destruct (gos_eqb_spec (userAuthRequest_Method req) (go "gssapi-with-mic"))]]]].
  1-4: intros E; minv E; injection E as <- <- _; (split; [done|]); intros perms err -> Hs;
    eauto using auth_none_sound, auth_password_sound, auth_keyboard_sound, auth_gssapi_sound.
  intros [= <- <- _]. split; [done|]. intros perms err [= <- <-] Hs. by destruct (settled_plain _ Hs).
Qed.

(** What a round leaves: [u] is the user of an earlier partial success, [s1] the session
    in which the request was read. *)
Lemma conclude_sound u l req s1 perms err s x s' :
  history cfg s0 u (l_config l) s -> Forall (entry_ok u (l_config l)) (l_cache l) ->
  u = (if l_partial l then Some (userAuthRequest_User req) else None) -> l_user l = userAuthRequest_User req ->
  history cfg s0 u (l_config l) s1 -> reads s1 req ->
  conclude cfg l (userAuthRequest_Method req) perms err s = (inl x, s') ->
  (settled err -> answered cfg s0 u (l_config l) req perms err) ->
  match x with
  | inl l' => loop_inv l' s'
  | inr perms' => perms' = perms /\ err = None /\ checkSourceAddressCriticalOption perms = None
  end.
Proof.
  intros Hh Hc Hu Hlu Hs1 Hread E Ha.
  assert (forall e, enforce_source perms err = Some e -> is_partial (Some e) = true ->
            answered cfg s0 u (l_config l) req perms (Some e)) as Hp.
  { intros e. unfold enforce_source. destruct err as [e0|].
    - intros [= <-] He. apply Ha. by right.
    - destruct (checkSourceAddressCriticalOption perms); [by intros [= <-]|done]. }
  unfold conclude in E. cbv zeta in E. minv E. injection Hm as _ <-.
  set (s2 := MkSession _ _ _ _) in *. assert (history cfg s0 u (l_config l) s2) as Hh1 by (by apply h_record).
  destruct (enforce_source perms err) as [e|] eqn:EE.
  2: { do 2 minv E. injection E as <- <-. unfold enforce_source in EE. destruct err; [done|].
       by destruct (checkSourceAddressCriticalOption perms). }
  assert (history cfg s0 u (l_config l) s' /\
          exists l' s3, x = inl l' /\ after_failure cfg (add_err l e) (userAuthRequest_Method req) perms e s3 = (inl l', s')) as [Hs' (l' & s3 & -> & HF)].
  { split.
    - refine (history_step u (l_config l) _ s2 _ s' Hh1 _ E). runs.
    - do 3 minv E. injection E as <- <-. eauto. }
  assert (same_user u req) as Hsame by (rewrite Hu; destruct (l_partial l); [by right|by left]).
  unfold after_failure in HF. cbv zeta in HF. destruct e as [e|next|inner m|m].
  2: { destruct perms; [done|]. minv HF. injection HF as <- <-. split; [|constructor].
       unfold partial_user. cbn [l_config l_partial l_user add_err]. rewrite Hlu. by eapply h_next; [exact Hs1| | |by apply Hp|]. }
  all: destruct ((0 <? MaxAuthTries cfg) && _); try (apply bind_inl in HF as (? & ? & _ & HF));
    injection HF as <- _; unfold loop_inv, partial_user; cbn [l_config l_partial l_user l_cache add_err];
    rewrite Hlu, <- Hu; (split; [exact Hs'|exact Hc]).
Qed.

(** What a successful login shows. *)
Definition admitted (perms : option Perm) : Prop :=
  exists u c s1 req, history cfg s0 u c s1 /\ reads s1 req /\ same_user u req /\ answered cfg s0 u c req perms None /\
    checkSourceAddressCriticalOption perms = None.

Lemma auth_round_sound l s x s' :
  loop_inv l s -> auth_round cfg l s = (inl x, s') -> match x with inl l' => loop_inv l' s' | inr perms => admitted perms end.
Proof.
  intros [Hh Hc]. unfold auth_round.
  destruct (_ && _); [intros E; by apply disconnect_inr in E as [? [=]]|].
  destruct (_ <=? _); [intros E; by apply disconnect_inr in E as [? [=]]|]. cbv zeta. intros E.
  minv E. pose proof (history_step _ _ _ _ _ _ Hh (runs_read_request cfg _ _) Hm) as Hh1.
  assert (reads s a /\ partial_user l = (if l_partial l then Some (userAuthRequest_User a) else None)) as [Hread Hu].
  { unfold read_request in Hm. minv Hm. minv Hm. destruct a0 as [p| |e]; [|done..]. injection Hm1 as <- <-.
    unfold readPacket in Hm0. destruct (ss_in s) as [|x0 rest] eqn:Ein; [done|]. injection Hm0 as -> _.
    minv Hm. destruct (UnmarshalMsg userAuthRequestMsg p) as [req|] eqn:Eum; [|done]. injection Hm0 as <- <-.
    destruct (gos_eqb_spec (userAuthRequest_Service req) serviceSSH) as [Hsv|]; cbn [negb] in Hm; [|done].
    destruct (gos_eqb_spec (l_user l) (userAuthRequest_User req)) as [Hus|]; cbn [negb andb] in Hm.
    - injection Hm as <- _. split; [by exists p, rest|]. unfold partial_user. by rewrite Hus.
    - destruct (l_partial l) eqn:Epa; [done|]. injection Hm as <- _. split; [by exists p, rest|]. unfold partial_user. by rewrite Epa. }
  minv E. pose proof (history_step _ _ _ _ _ _ Hh1 (runs_send_banner cfg _ _ _) Hm0) as Hh2.
  minv E. pose proof (history_step _ _ _ _ _ _ Hh2 (runs_auth_method cfg _ _ _ _) Hm1) as Hh3.
  destruct a1 as [cache' v].
  destruct (auth_method_sound _ _ (partial_user l) _ _ _ _ _ _ ltac:(intros Ef; unfold partial_user; by rewrite Ef) Hh2 Hc Hm1) as [Hc' Hv].
  cbn [fst snd] in E. destruct v as [|perms err].
  { injection E as <- <-. unfold loop_inv, partial_user in *. cbn [l_config l_partial l_user l_cache]. rewrite <- Hu. by split. }
  eapply (conclude_sound (partial_user l)) in E; [|done|done|exact Hu|done|exact Hh|exact Hread|intros Hs; by apply Hv].
  destruct x as [l'|p]; [done|]. destruct E as (-> & -> & Hsrc). exists (partial_user l), (l_config l), s, a.
  split; [done|]. split; [done|]. split; [rewrite Hu; destruct (l_partial l); [by right|by left]|]. split; [|done]. apply Hv; [done|by left].
Qed.

Lemma auth_loop_sound fuel l s perms s' :
  loop_inv l s -> auth_loop fuel cfg l s = (inl (Some perms), s') -> admitted perms.
Proof.
  revert l s. induction fuel as [|fuel IH]; intros l s Hi; cbn [auth_loop]; [done|]. intros E. minv E.
  pose proof (auth_round_sound _ _ _ _ Hi Hm) as Hr. destruct a as [l'|p]; [by eapply IH|].
  by injection E as -> _.
Qed.
End sound.

(** The token exchange reads a packet per round, so the packets bound it. *)
Lemma gss_rounds_returns srv fuel token s :
  (length (ss_in s) < fuel)%nat -> fst (gss_rounds srv fuel token s) <> inl None.
Proof.
  revert token s. induction fuel as [|fuel IH]; intros token s Hl; cbn [gss_rounds]; [lia|].
  match goal with |- fst (?m s) <> _ => destruct (m s) as [[o|e] s1] eqn:E; [|done] end. cbn [fst]. intros [= ->].
  apply bind_inl in E as (r & s2 & Hc & E). unfold call in Hc.
  destruct (AcceptSecContext srv (ss_world s) token) as [w r']. injection Hc as -> <-.
  destruct r as [[[out src] more]|e]; [|discriminate E]. apply bind_inl in E as ([] & s3 & Hw & E).
  assert (ss_in s3 = ss_in s) as Hi.
  { destruct (negb (len out =? 0)); [|by injection Hw as <-]. unfold writePacket in Hw.
    destruct (write_error _); [done|]. by injection Hw as <-. }
  destruct (negb more); [discriminate E|]. apply bind_inl in E as (p & s4 & Hr & E).
  apply bind_inl in E as (m & s5 & Hu & E).
  assert (s5 = s4) as -> by (destruct (UnmarshalMsg _ p); by injection Hu).
  unfold read_bytes in Hr. apply bind_inl in Hr as (ev & s6 & Hr & Hp). unfold readPacket in Hr. rewrite Hi in Hr.
  assert (s4 = s6) as -> by (destruct ev; by injection Hp).
  destruct (ss_in s) as [|x rest]; injection Hr as <- <-; [done|].
  apply (IH (userAuthGSSAPIToken_Token m) (MkSession (ss_world s3) rest (ss_out s3) (ss_trace s3))).
  - cbn in *. lia.
  - by rewrite E.
Qed.

(** *** The results *)
Lemma serverAuthenticate_loop cfg s :
  serverAuthenticate cfg s =
  (r ← auth_loop 129 cfg (first_loop cfg);
   match r with
   | None => mret None
   | Some perms => writePacket [vb msgUserAuthSuccess];; mret (Some perms)
   end) (after_pre cfg s).
Proof. unfold serverAuthenticate, after_pre. by destruct (PreAuthConnCallback cfg). Qed.

Lemma serverAuthenticate_answered cfg s perms s' :
  serverAuthenticate cfg s = (inl (Some perms), s') -> admitted cfg s perms.
Proof.
  rewrite serverAuthenticate_loop. intros E. minv E. destruct a as [p|]; [|done].
  minv E. injection E as -> _. eapply auth_loop_sound; [|exact Hm]. split; [|constructor]. apply h_init.
Qed.

(** C3.  When authentication succeeds with some permissions, the client sent a request for
    the service, in a session that authentication can be in, and one of these holds of that
    request: its method is none and the configuration asks for no authentication
    ([NoClientAuth] without a callback); or the callback in force for its method (of the
    configuration, or of a step reached by partial success) returned success with these
    permissions when it was called with the user of the request and, for a password, the
    password in the request.  For a public key the callback accepted that very key for
    that user, also when the answer came from the cache, and the signature in the request
    over this session and request verifies for it under accepted algorithms; for GSS-API the
    name is one the mechanism accepted and the MIC of this request verified.  Every partial
    success on the way was for the same user, and the source address restriction of the
    permissions, if any, holds. *)
Theorem serverAuthenticate_sound cfg s perms s' :
  serverAuthenticate cfg s = (inl (Some perms), s') ->
  exists u c s1 req, history cfg s u c s1 /\ reads s1 req /\ same_user u req /\ answered cfg s u c req perms None /\
    checkSourceAddressCriticalOption perms = None.
Proof. apply serverAuthenticate_answered. Qed.

(** C14.  Authentication always ends, whatever the client sends: it gives at
    most 128 verdicts.  When [MaxAuthTries] is positive (otherwise there is no limit of
    failures), at most [MaxAuthTries] of them are rejections of methods other than none, and
    at most one more are rejections: a first request of the method none, which clients
    send to learn the methods, is not charged. *)
Theorem serverAuthenticate_bounded cfg s r s' :
  serverAuthenticate cfg s = (r, s') -> ss_trace s = [] ->
  r <> inl None /\ len (ss_trace s') <= maxAuthServerAttempts /\
  (0 < MaxAuthTries cfg -> guesses (ss_trace s') <= MaxAuthTries cfg /\ rejections (ss_trace s') <= MaxAuthTries cfg + 1).
Proof.
  rewrite serverAuthenticate_loop. intros E Ht.
  assert (ss_trace (after_pre cfg s) = []) as Hp by (unfold after_pre; by destruct (PreAuthConnCallback cfg)).
  pose proof (auth_loop_returns 129 cfg (first_loop cfg) (after_pre cfg s)) as HR.
  destruct (auth_loop 129 cfg (first_loop cfg) (after_pre cfg s)) as [x s1] eqn:EL. cbn [fst] in HR.
  pose proof (auth_loop_count _ _ _ _ _ _ EL) as HC. rewrite Hp in HC.
  cbn [first_loop l_authAttempts l_authFailures] in HR, HC. unfold maxAuthServerAttempts in *.
  specialize (HR ltac:(lia) ltac:(lia)). destruct (HC ltac:(lia) ltac:(cbn; lia)) as [HC1 HC2].
  assert (ss_trace s' = ss_trace s1 /\ r <> inl None) as [-> HN].
  { unfold mbind, M_bind in E. rewrite EL in E. destruct x as [[p|]|e]; [|done|by injection E as <- <-].
    unfold writePacket in E. destruct (write_error _); by injection E as <- <-. }
  unfold charged, guesses, rejections, len in *. cbn in HC1, HC2. split_and!; [done|lia|]. intros HM. destruct (HC2 HM ltac:(lia)). lia.
Qed.
End authenticate.

(** ** A concrete login *)
Definition toy_keys : KeyLib :=
  {| Key := gostring; ParsePublicKey d := Ok d; key_Type _ := KeyAlgoED25519; cert_Extension _ _ := false;
     Verify _ k data sig := if sig_Blob sig =s k then None else Some (errors_New (go "ssh: signature did not verify")) |}.
Definition toy_net : NetLib :=
  {| ParseIP s := Some s; IP_Equal a b := a =s b; ParseCIDR _ := Err (errors_New (go "invalid CIDR address"));
     UnmarshalOID _ := Err (errors_New (go "asn1: syntax error")) |}.

(** Root logs in with the key k1; its first two guesses are wrong. *)
Definition toy_callbacks : callbacks unit gostring gostring :=
  MkCallbacks
    (Some (fun w user pw => (w, if pw =s go "secret" then (None, None) else (None, Some (EPlain (errors_New (go "no")))))))
    (Some (fun w user k => (w, if k =s go "k1" then (Some user, None) else (None, Some (EPlain (errors_New (go "no")))))))
    None None.
Definition toy_config : @ServerConfig toy_keys unit gostring :=
  @MkServerConfig toy_keys unit gostring false None 3 defaultPubKeyAuthAlgos toy_callbacks None None None None.
Definition request_as (user method payload : gostring) : read_event :=
  RPacket (MarshalMsg (Mk_userAuthRequestMsg user serviceSSH method payload)).
Definition toy_request : gostring -> gostring -> read_event := request_as (go "root").
Definition toy_key_payload (query : bool) (key : gostring) : gostring :=
  appendString (appendString [vb (if query then 0 else 1)] KeyAlgoED25519) key ++
  (if query then [] else appendString [] (appendString (appendString [] KeyAlgoED25519) key)).
Definition toy_session : session unit :=
  MkSession tt
    [toy_request (go "none") []; toy_request (go "password") (appendString [vb 0] (go "guess"));
     toy_request (go "publickey") (toy_key_payload true (go "k0"));
     toy_request (go "publickey") (toy_key_payload true (go "k1"));
     toy_request (go "publickey") (toy_key_payload false (go "k1"))] [] [].

Definition toy_run := @serverAuthenticate ascii_tables toy_net toy_keys unit gostring
  (fun _ => None) (fun _ _ => false) (fun _ => None) (go "session") NoAddr toy_config toy_session.

Lemma serverAuthenticate_sound_witness :
  fst toy_run = inl (Some (Some (go "root"))) /\
  exists u c s1 req, @history ascii_tables toy_net toy_keys unit gostring (fun _ => None) (fun _ _ => false)
                     (go "session") NoAddr toy_config toy_session u c s1 /\ reads s1 req /\
    @answered ascii_tables toy_net toy_keys unit gostring (fun _ => None) (fun _ _ => false)
      (go "session") NoAddr toy_config toy_session u c req (Some (go "root")) None.
Proof.
  split; [vm_compute; reflexivity|].
  destruct (@serverAuthenticate_sound ascii_tables toy_net toy_keys unit gostring (fun _ => None) (fun _ _ => false)
              (fun _ => None) (go "session") NoAddr toy_config toy_session (Some (go "root")) (snd toy_run))
    as (u & c & s1 & req & Hh & Hr & _ & Ha & _); [vm_compute; reflexivity|].
  exists u, c, s1, req. split; [exact Hh|]. split; [exact Hr|exact Ha].
Defined.

Lemma serverAuthenticate_bounded_witness :
  map snd (ss_trace (snd toy_run)) = [Rejected; Rejected; Rejected; Accepted] /\ guesses (ss_trace (snd toy_run)) <= 3 /\
  rejections (ss_trace (snd toy_run)) <= 4.
Proof.
  split; [vm_compute; reflexivity|].
  destruct (@serverAuthenticate_bounded ascii_tables toy_net toy_keys unit gostring (fun _ => None) (fun _ _ => false)
              (fun _ => None) (go "session") NoAddr toy_config toy_session (fst toy_run) (snd toy_run))
    as (_ & _ & H3); [vm_compute; reflexivity|reflexivity|].
  apply H3. reflexivity.
Defined.
