(* ===== verification/RateLimit.v ===== *)
(** * Rate limiting of connections: rate.go.

    The token buckets of golang.org/x/time/rate are a parameter, the class
    [RateLib] of their operations; times are nanoseconds.  A [RateLimiter] is the
    list of its buckets, a [Reservation] the list of what was reserved of them, to
    be cancelled on the buckets it was taken from.  The mutex of the per-address
    map is held for the whole of [AllowPerIP] and [cleanEmpty], so each is one
    step on the map.

    The theorems rest on [RateLaws], what the library documents of its buckets:
    a reservation of n is granted at once exactly when n tokens are there, takes
    them, and cancelling it at the same time gives them back; tokens never exceed
    the burst, never decrease by waiting, and a new bucket is full.

    Proved: a request passes exactly when every bucket has a token; a refused
    request takes none; removing the idle buckets of an address is invisible. *)
From Stdlib Require Import Ascii String ZArith QArith Qminmax Lia Lqa.
From stdpp Require Import base gmap strings list.
From S2P Require Import Prelude GoStrings GoFloat ShellConf GitConfig AppConf.
Local Open Scope Z_scope.

Class RateLib := {
  limiter : Type;
  reservation : Type;
  NewLimiter : Z -> Z -> limiter;             (* rate.NewLimiter(rate.Every(d), burst) *)
  ReserveN : limiter -> Z -> Z -> limiter * reservation;
  rsv_OK : reservation -> bool;
  DelayFrom : reservation -> Z -> Z;
  rsv_CancelAt : reservation -> Z -> limiter -> limiter;
  Tokens : limiter -> Z -> Q;
  Burst : limiter -> Z }.

Section rate.
  Context `{RateLib}.

Record Reservation := MkReservation { reservations : list reservation; rv_ok : bool }.

Fixpoint cancel_all (rs : list reservation) (t : Z) (ls : list limiter) : list limiter :=
  match rs, ls with
  | r :: rs, l :: ls => rsv_CancelAt r t l :: cancel_all rs t ls
  | _, _ => ls
  end.
Definition CancelAt (r : Reservation) (t : Z) (ls : list limiter) : list limiter := cancel_all (reservations r) t ls.

Definition Merge (r o : Reservation) : Reservation :=
  if negb (rv_ok r) || negb (rv_ok o) then MkReservation [] false
  else MkReservation (reservations r ++ reservations o) true.

(** Division of durations truncates. *)
Definition NewRateLimiter (cs : list RateLimitConfig) : list limiter :=
  map (fun c => NewLimiter (Z.quot (rl_Interval c) (rl_Limit c)) (rl_Limit c)) cs.

Definition granted (r : reservation) (now : Z) : bool := rsv_OK r && (DelayFrom r now <=? 0).

(** The loop of [AllowN]: the buckets passed so far are left reserved, or, when a
    later one refuses, given back. *)
Fixpoint reserve_all (ls : list limiter) (now n : Z) : list limiter * option (list reservation) :=
  match ls with
  | [] => ([], Some [])
  | l :: ls =>
      let '(l', rsv) := ReserveN l now n in
      if negb (granted rsv now) then ((if rsv_OK rsv then rsv_CancelAt rsv now l' else l') :: ls, None)
      else
        match reserve_all ls now n with
        | (ls', Some taken) => (l' :: ls', Some (rsv :: taken))
        | (ls', None) => (rsv_CancelAt rsv now l' :: ls', None)
        end
  end.
Definition AllowN (ls : list limiter) (now n : Z) : list limiter * Reservation :=
  match reserve_all ls now n with
  | (ls, Some taken) => (ls, MkReservation taken true)
  | (ls, None) => (ls, MkReservation [] false)
  end.
Definition Allow (ls : list limiter) (now : Z) : list limiter * Reservation := AllowN ls now 1.

(** ** The limiter of the server *)
Record SSHRateLimiter := MkSSHRateLimiter {
  globalConfs : list RateLimitConfig; peripConfs : list RateLimitConfig;
  globalRl : list limiter; peripRls : gmap gostring (list limiter) }.

Definition NewSSHRateLimiter (global perip : list RateLimitConfig) : SSHRateLimiter :=
  MkSSHRateLimiter global perip (NewRateLimiter global) ∅.

Definition HasPerIP (r : SSHRateLimiter) : bool := 0 <? len (peripConfs r).
Definition AllowGlobal (r : SSHRateLimiter) (now : Z) : SSHRateLimiter * Reservation :=
  let '(g, rsv) := Allow (globalRl r) now in (MkSSHRateLimiter (globalConfs r) (peripConfs r) g (peripRls r), rsv).
Definition buckets_of (r : SSHRateLimiter) (ip : gostring) : list limiter :=
  default (NewRateLimiter (peripConfs r)) (peripRls r !! ip).
Definition AllowPerIP (r : SSHRateLimiter) (ip : gostring) (now : Z) : SSHRateLimiter * Reservation :=
  if negb (HasPerIP r) then (r, MkReservation [] true)
  else
    let '(ls, rsv) := Allow (buckets_of r ip) now in
    (MkSSHRateLimiter (globalConfs r) (peripConfs r) (globalRl r) (<[ip := ls]> (peripRls r)), rsv).

(** [Allow]: the clock is read for the global buckets, for those of the address
    and for the cancellation. *)
Definition AllowIP (r : SSHRateLimiter) (ip : gostring) (t1 t2 t3 : Z) : SSHRateLimiter * Reservation :=
  let '(r, rsv) := AllowGlobal r t1 in
  if rv_ok rsv && HasPerIP r then
    let '(r, rsv2) := AllowPerIP r ip t2 in
    if rv_ok rsv2 then (r, Merge rsv rsv2)
    else (MkSSHRateLimiter (globalConfs r) (peripConfs r) (CancelAt rsv t3 (globalRl r)) (peripRls r),
          MkReservation [] false)
  else (r, rsv).

(** [cleanEmpty]; [clock] gives the time at which each bucket is looked at. *)
Definition full (t : Z) (l : limiter) : bool := Qle_bool (inject_Z (Burst l)) (Tokens l t).
Fixpoint all_full (clock : nat -> Z) (ls : list limiter) : bool :=
  match ls with
  | [] => true
  | l :: ls => full (clock O) l && all_full (fun i => clock (S i)) ls
  end.
Definition cleanEmpty (r : SSHRateLimiter) (clock : gostring -> nat -> Z) : SSHRateLimiter * (Z * Z) :=
  let kept := filter (fun p : gostring * list limiter => all_full (clock p.1) p.2 = false) (peripRls r) in
  (MkSSHRateLimiter (globalConfs r) (peripConfs r) (globalRl r) kept,
   (Z.of_nat (size (peripRls r)) - Z.of_nat (size kept), Z.of_nat (size kept))).
End rate.

(** ** What the library promises

    [last_use] is the time up to which a bucket has been brought forward; the
    clock does not run backwards.  Rates are finite and arithmetic is exact. *)
Class RateLaws `{RateLib} := {
  last_use : limiter -> Z;
  tokens_le l t : (Tokens l t <= inject_Z (Burst l))%Q;
  tokens_wait l t t' : t <= t' -> (Tokens l t <= Tokens l t')%Q;
  burst_reserve l t n : Burst (fst (ReserveN l t n)) = Burst l;
  burst_cancel l t r : Burst (rsv_CancelAt r t l) = Burst l;
  last_reserve l t n : last_use l <= t -> last_use (fst (ReserveN l t n)) <= t;
  last_cancel l t r : last_use l <= t -> last_use (rsv_CancelAt r t l) <= t;
  new_burst d b : Burst (NewLimiter d b) = b;
  new_last d b : last_use (NewLimiter d b) = 0;
  new_full d b t : 0 < b -> (Tokens (NewLimiter d b) t == inject_Z b)%Q;
  reserve_granted l t n : 0 < n -> granted (snd (ReserveN l t n)) t = true <-> (inject_Z n <= Tokens l t)%Q;
  reserve_takes l t n : 0 < n -> granted (snd (ReserveN l t n)) t = true ->
    (Tokens (fst (ReserveN l t n)) t == Tokens l t - inject_Z n)%Q;
  reserve_refused l t n t' : rsv_OK (snd (ReserveN l t n)) = false -> t <= t' ->
    (Tokens (fst (ReserveN l t n)) t' == Tokens l t')%Q;
  reserve_cancel l t n t' : 0 < n -> last_use l <= t <= t' -> rsv_OK (snd (ReserveN l t n)) = true ->
    (Tokens (rsv_CancelAt (snd (ReserveN l t n)) t (fst (ReserveN l t n))) t' == Tokens l t')%Q }.

Section laws.
  Context `{RateLaws}.

(** Two buckets that cannot be told apart from time [t] on. *)
Definition same_from (t : Z) (l l' : limiter) : Prop :=
  Burst l = Burst l' /\ forall t', t <= t' -> (Tokens l t' == Tokens l' t')%Q.
#[export] Instance same_from_equiv t : Equivalence (same_from t).
Proof.
  split.
  - intros l. split; [done|reflexivity].
  - intros l l' [Hb Ht]. split; [done|]. intros t' Hle. by rewrite Ht.
  - intros l1 l2 l3 [Hb1 Ht1] [Hb2 Ht2]. split; [congruence|]. intros t' Ht. by rewrite Ht1, Ht2.
Qed.

Definition used_by (t : Z) (l : limiter) : Prop := last_use l <= t.

(** A reservation taken back at once leaves no trace. *)
Lemma same_from_undone l now n :
  0 < n -> used_by now l ->
  same_from now (if rsv_OK (snd (ReserveN l now n))
                 then rsv_CancelAt (snd (ReserveN l now n)) now (fst (ReserveN l now n)) else fst (ReserveN l now n)) l.
Proof.
  intros Hn Hu. destruct (rsv_OK _) eqn:E.
  - split; [by rewrite burst_cancel, burst_reserve|]. intros t' Ht. by apply reserve_cancel.
  - split; [apply burst_reserve|]. intros t' Ht. by apply reserve_refused.
Qed.

Lemma Forall2_same_refl t ls : Forall2 (same_from t) ls ls.
Proof. induction ls; constructor; [reflexivity|done]. Qed.

Lemma reserve_all_spec ls now n :
  0 < n -> Forall (used_by now) ls ->
  match reserve_all ls now n with
  | (ls', Some taken) =>
      Forall (fun l => (inject_Z n <= Tokens l now)%Q) ls /\
      Forall2 (fun l' l => Burst l' = Burst l /\ (Tokens l' now == Tokens l now - inject_Z n)%Q) ls' ls /\
      Forall2 (same_from now) (cancel_all taken now ls') ls /\ Forall (used_by now) ls'
  | (ls', None) => Exists (fun l => ~ (inject_Z n <= Tokens l now)%Q) ls /\ Forall2 (same_from now) ls' ls /\
                   Forall (used_by now) ls'
  end.
Proof.
  intros Hn. induction 1 as [|l ls Hu Hus IH]; cbn [reserve_all]; [by repeat constructor|].
  pose proof (same_from_undone l now n Hn Hu) as HR. pose proof (reserve_granted l now n Hn) as HG.
  pose proof (reserve_takes l now n Hn) as HT. pose proof (burst_reserve l now n) as HB.
  pose proof (last_reserve l now n Hu) as HL. pose proof (last_cancel _ now (snd (ReserveN l now n)) HL) as HLC.
  destruct (ReserveN l now n) as [l' rsv]. cbn [fst snd] in *.
  destruct (granted rsv now) eqn:EG; cbn [negb].
  - pose proof EG as [EO _]%andb_true_iff. rewrite EO in HR. destruct (reserve_all ls now n) as [ls' [taken|]].
    + destruct IH as (IH1 & IH2 & IH3 & IH4).
      split_and!; [constructor; [by apply HG|done]|constructor; auto| |by constructor].
      cbn [cancel_all]. constructor; auto.
    + destruct IH as (IH1 & IH2 & IH3). split_and!; [by right|constructor; auto|by constructor].
  - split_and!; [left; intros Hl; apply HG in Hl; congruence|constructor; [exact HR|apply Forall2_same_refl]|].
    constructor; [|done]. by destruct (rsv_OK rsv).
Qed.

(** A request for n events passes exactly when every bucket of the limiter
    holds n tokens at that time.  When it passes every bucket loses n and
    cancelling it at once restores them all; when it does not, no bucket loses
    anything, also those asked before the one that refused. *)
Lemma AllowN_all_or_nothing ls now n :
  0 < n -> Forall (used_by now) ls ->
  let '(ls', r) := AllowN ls now n in
  (rv_ok r = true <-> Forall (fun l => (inject_Z n <= Tokens l now)%Q) ls) /\
  (rv_ok r = true ->
   Forall2 (fun l' l => Burst l' = Burst l /\ (Tokens l' now == Tokens l now - inject_Z n)%Q) ls' ls /\
   Forall2 (same_from now) (CancelAt r now ls') ls) /\
  (rv_ok r = false -> Forall2 (same_from now) ls' ls).
Proof.
  intros Hn Hu. pose proof (reserve_all_spec ls now n Hn Hu) as HS. unfold AllowN.
  destruct (reserve_all ls now n) as [ls' [taken|]]; cbn [rv_ok].
  - destruct HS as (HS1 & HS2 & HS3 & HS4). done.
  - destruct HS as (HS1 & HS2 & HS3). split_and!; [|done|done]. split; [done|]. intros HF.
    exfalso. apply Exists_exists in HS1 as (l & Hin & Hl). rewrite Forall_forall in HF. auto.
Qed.

(** *** The limiter of the server *)
Definition same_shape (confs : list RateLimitConfig) (ls : list limiter) : Prop :=
  Forall2 (fun l c => Burst l = rl_Limit c) ls confs.
Definition limiter_ok (t : Z) (r : SSHRateLimiter) : Prop :=
  Forall (used_by t) (globalRl r) /\ Forall (fun c => 0 < rl_Limit c) (peripConfs r) /\
  map_Forall (fun _ ls => Forall (used_by t) ls /\ same_shape (peripConfs r) ls) (peripRls r).

Lemma used_by_mono t t' ls : t <= t' -> Forall (used_by t) ls -> Forall (used_by t') ls.
Proof. intros Ht Hu. eapply Forall_impl; [exact Hu|]. unfold used_by. intros. lia. Qed.

Lemma NewRateLimiter_ok t cs : 0 <= t -> Forall (used_by t) (NewRateLimiter cs) /\ same_shape cs (NewRateLimiter cs).
Proof.
  intros Ht. unfold NewRateLimiter, same_shape. induction cs as [|c cs [IH1 IH2]]; cbn [map]; [by split|].
  split; constructor; [unfold used_by; rewrite new_last; lia|done|apply new_burst|done].
Qed.

Lemma NewSSHRateLimiter_ok t global perip :
  0 <= t -> Forall (fun c => 0 < rl_Limit c) perip -> limiter_ok t (NewSSHRateLimiter global perip).
Proof.
  intros Ht Hp. split_and!; [by apply NewRateLimiter_ok|done|]. apply map_Forall_empty.
Qed.

Lemma buckets_ok t r ip :
  0 <= t -> limiter_ok t r -> Forall (used_by t) (buckets_of r ip) /\ same_shape (peripConfs r) (buckets_of r ip).
Proof.
  intros Ht (_ & _ & Hm). unfold buckets_of. destruct (peripRls r !! ip) as [ls|] eqn:E; cbn; [by apply (Hm ip)|].
  by apply NewRateLimiter_ok.
Qed.

Lemma limiter_ok_mono t t' r : t <= t' -> limiter_ok t r -> limiter_ok t' r.
Proof.
  intros Ht (H1' & H2' & H3'). split_and!; [by eapply used_by_mono|done|].
  eapply map_Forall_impl; [exact H3'|]. cbn. intros ip ls [Hu Hs]. split; [by eapply used_by_mono|done].
Qed.

Lemma cancel_all_used rs t ls : Forall (used_by t) ls -> Forall (used_by t) (cancel_all rs t ls).
Proof.
  intros Hu. revert rs. induction Hu as [|l ls Hl Hls IH]; intros [|r rs]; cbn [cancel_all]; try by constructor.
  constructor; [by apply last_cancel|apply IH].
Qed.

Lemma Allow_used ls now :
  Forall (used_by now) ls ->
  Forall (used_by now) (fst (Allow ls now)) /\ Forall2 (fun l' l => Burst l' = Burst l) (fst (Allow ls now)) ls.
Proof.
  intros Hu. pose proof (reserve_all_spec ls now 1 ltac:(lia) Hu) as HS. unfold Allow, AllowN.
  destruct (reserve_all ls now 1) as [ls' [taken|]]; cbn [fst].
  - destruct HS as (_ & HS2 & _ & HS4). split; [done|]. eapply Forall2_impl; [exact HS2|]. by intros ? ? [? _].
  - destruct HS as (_ & HS2 & HS3). split; [done|]. eapply Forall2_impl; [exact HS2|]. by intros ? ? [? _].
Qed.

Lemma same_shape_burst confs ls' ls :
  same_shape confs ls -> Forall2 (fun l' l => Burst l' = Burst l) ls' ls -> same_shape confs ls'.
Proof.
  unfold same_shape. intros Hs Hb. revert confs Hs. induction Hb as [|l' l ls' ls E _ IH]; intros confs Hs.
  - by inversion Hs.
  - destruct confs as [|c confs]; inversion Hs; subst. constructor; [congruence|auto].
Qed.

Definition has_token (t : Z) (l : limiter) : Prop := (1 <= Tokens l t)%Q.

Lemma Allow_ok ls now :
  Forall (used_by now) ls ->
  (rv_ok (snd (Allow ls now)) = true <-> Forall (has_token now) ls) /\
  (rv_ok (snd (Allow ls now)) = false -> Forall2 (same_from now) (fst (Allow ls now)) ls) /\
  (rv_ok (snd (Allow ls now)) = true -> Forall2 (same_from now) (CancelAt (snd (Allow ls now)) now (fst (Allow ls now))) ls).
Proof.
  intros Hu. pose proof (reserve_all_spec ls now 1 ltac:(lia) Hu) as HS. unfold Allow, AllowN.
  destruct (reserve_all ls now 1) as [ls' [taken|]]; cbn [fst snd rv_ok].
  - by destruct HS as (HS1 & HS2 & HS3 & HS4).
  - destruct HS as (HS1 & HS2 & HS3). split_and!; [|done|done]. split; [done|]. intros HF.
    exfalso. apply Exists_exists in HS1 as (l & Hin & Hl). rewrite Forall_forall in HF. by apply Hl, HF.
Qed.

Lemma buckets_insert r ip ls g : buckets_of (MkSSHRateLimiter (globalConfs r) (peripConfs r) g (<[ip := ls]> (peripRls r))) ip = ls.
Proof. unfold buckets_of. cbn [peripRls]. by rewrite lookup_insert_eq. Qed.

(**  A connection passes the rate limits exactly when every global bucket
    has a token and, if there are limits per address, every bucket of its address
    has one; other addresses are never touched.  When it is refused the buckets
    of its address lose nothing, and the global ones lose nothing when they
    refused it, or when the cancellation comes at the time of the reservation. *)
Lemma Allow_connection r ip t1 t2 t3 :
  0 <= t1 <= t2 -> t2 <= t3 -> limiter_ok t1 r ->
  let '(r', rsv) := AllowIP r ip t1 t2 t3 in
  (rv_ok rsv = true <->
   Forall (has_token t1) (globalRl r) /\ (HasPerIP r = true -> Forall (has_token t2) (buckets_of r ip))) /\
  limiter_ok t3 r' /\ globalConfs r' = globalConfs r /\ peripConfs r' = peripConfs r /\
  (forall ip', ip' <> ip -> peripRls r' !! ip' = peripRls r !! ip') /\
  (rv_ok rsv = false -> Forall2 (same_from t2) (buckets_of r' ip) (buckets_of r ip) /\
     (t3 = t1 \/ ~ Forall (has_token t1) (globalRl r) -> Forall2 (same_from t1) (globalRl r') (globalRl r))).
Proof.
  intros Ht1 Ht2 Hok. unfold AllowIP, AllowGlobal. pose proof Hok as (Hg & Hc & Hm).
  destruct (Allow_used (globalRl r) t1 Hg) as [Hgu Hgb]. destruct (Allow_ok (globalRl r) t1 Hg) as (Hgo & Hgf & Hgt).
  destruct (Allow (globalRl r) t1) as [g rsv]. cbn [fst snd] in *.
  set (r1 := MkSSHRateLimiter (globalConfs r) (peripConfs r) g (peripRls r)).
  change (HasPerIP r1) with (HasPerIP r). change (buckets_of r) with (buckets_of r1).
  assert (limiter_ok t1 r1) as Hok1 by (by split_and!).
  destruct (rv_ok rsv) eqn:Eg; cbn [andb].
  2: { split_and!; [|apply (limiter_ok_mono t1); [lia|done]|done|done|done|].
       - rewrite Eg. split; [done|]. intros [HF _]. apply Hgo in HF. done.
       - intros _. split; [apply Forall2_same_refl|]. auto. }
  destruct (HasPerIP r) eqn:EH.
  2: { split_and!; [|apply (limiter_ok_mono t1); [lia|done]|done|done|done|].
       - rewrite Eg. split; [intros _; split; [by apply Hgo|done]|done].
       - rewrite Eg. done. }
  unfold AllowPerIP. change (HasPerIP r1) with (HasPerIP r). rewrite EH. cbn [negb].
  destruct (buckets_ok t2 r1 ip ltac:(lia) (limiter_ok_mono t1 t2 _ ltac:(lia) Hok1)) as [Hbu Hbs].
  destruct (Allow_used (buckets_of r1 ip) t2 Hbu) as [Hpu Hpb]. destruct (Allow_ok (buckets_of r1 ip) t2 Hbu) as (Hpo & Hpf & _).
  destruct (Allow (buckets_of r1 ip) t2) as [ls rsv2]. cbn [fst snd] in *.
  assert (map_Forall (fun _ ls => Forall (used_by t3) ls /\ same_shape (peripConfs r) ls) (<[ip := ls]> (peripRls r))) as Hm3.
  { apply map_Forall_insert_2.
    - split; [by eapply used_by_mono|by eapply same_shape_burst].
    - eapply map_Forall_impl; [exact Hm|]. cbn. intros ip' ls' [Hu Hs]. split; [|done]. eapply used_by_mono; [|exact Hu]. lia. }
  destruct (rv_ok rsv2) eqn:Ep.
  - unfold Merge. rewrite Eg, Ep. cbn [negb orb rv_ok globalConfs peripConfs peripRls globalRl].
    split_and!; [|split_and!; [eapply used_by_mono; [|exact Hgu]; lia|done|done]|done|done| |done].
    + split; [intros _; split; [by apply Hgo|intros _; by apply Hpo]|done].
    + intros ip' Hne. by rewrite lookup_insert_ne.
  - cbn [rv_ok globalConfs peripConfs peripRls globalRl].
    split_and!; [|split_and!; [apply cancel_all_used; eapply used_by_mono; [|exact Hgu]; lia|done|done]|done|done| |].
    + split; [done|]. intros [_ HF]. apply Hpo in HF; [done|done].
    + intros ip' Hne. by rewrite lookup_insert_ne.
    + intros _. rewrite buckets_insert. split; [by apply Hpf|]. intros [->|HN]; [by apply Hgt|].
      exfalso. apply HN. by apply Hgo.
Qed.

(** *** Cleaning up *)
Lemma full_from t t' l : full t l = true -> t <= t' -> (Tokens l t' == inject_Z (Burst l))%Q.
Proof.
  unfold full. intros Hf%Qle_bool_iff Ht. apply Qle_antisym; [apply tokens_le|].
  eapply Qle_trans; [exact Hf|by apply tokens_wait].
Qed.

Lemma all_full_same clock t ls confs :
  (forall i, clock i <= t) -> all_full clock ls = true -> same_shape confs ls -> Forall (fun c => 0 < rl_Limit c) confs ->
  Forall2 (same_from t) (NewRateLimiter confs) ls.
Proof.
  intros Hc Hf Hs Hp. revert clock Hc Hf. unfold NewRateLimiter.
  induction Hs as [|l c ls confs Hb Hs IH]; intros clock Hc Hf; cbn [map all_full] in *; [constructor|].
  apply Forall_cons in Hp as [Hp0 Hp]. apply andb_true_iff in Hf as [Hf0 Hf]. constructor.
  - split; [by rewrite new_burst|]. intros t' Ht.
    rewrite new_full by done. rewrite (full_from (clock O) t') by (done || (specialize (Hc O); lia)). by rewrite Hb.
  - apply (IH Hp (fun i => clock (S i))); [done|done].
Qed.

(**  Removing the buckets of idle addresses is invisible: from then on every
    address has buckets with the same tokens as before, so every later decision
    is the same; the counts add up to the addresses there were. *)
Lemma cleanEmpty_invisible r clock t :
  0 <= t -> limiter_ok t r -> (forall ip i, clock ip i <= t) ->
  let '(r', (cleaned, kept)) := cleanEmpty r clock in
  limiter_ok t r' /\ globalRl r' = globalRl r /\
  (forall ip, Forall2 (same_from t) (buckets_of r' ip) (buckets_of r ip)) /\
  cleaned + kept = Z.of_nat (size (peripRls r)) /\ 0 <= cleaned.
Proof.
  intros Ht (Hg & Hp & Hm) Hc. unfold cleanEmpty.
  set (kept := filter _ (peripRls r)). split_and!.
  - split_and!; [done|done|]. cbn [peripRls peripConfs]. intros ip ls Hl.
    apply map_lookup_filter_Some in Hl as [Hl _]. by apply (Hm ip).
  - done.
  - intros ip. unfold buckets_of. cbn [peripRls peripConfs]. subst kept.
    destruct (peripRls r !! ip) as [ls|] eqn:E.
    + destruct (all_full (clock ip) ls) eqn:Ef.
      * rewrite (map_lookup_filter_None_2 _ _ ip); [|right; intros x Hx; rewrite E in Hx; injection Hx as <-; cbn; congruence].
        cbn. apply (all_full_same (clock ip)); [apply Hc|done|by apply (Hm ip)|done].
      * rewrite (map_lookup_filter_Some_2 _ _ ip ls E); [|done]. apply Forall2_same_refl.
    + rewrite (map_lookup_filter_None_2 _ _ ip) by (by left). apply Forall2_same_refl.
  - lia.
  - assert (size kept <= size (peripRls r))%nat; [|lia]. apply (dom_subseteq_size (D := gset gostring)), dom_filter_subseteq.
Qed.
End laws.

(** ** A token bucket *)
Record bucket := MkBucket { b_interval : positive; b_burst : Z; b_last : Z; b_tokens : Q }.
Definition b_at (b : bucket) (t : Z) : Q :=
  Qmin (inject_Z (b_burst b)) (b_tokens b + (Z.max 0 (t - b_last b) # b_interval b)).
Record b_rsv := MkBRsv { br_ok : bool; br_tokens : Z; br_act : Z }.

(** A reservation whose time has passed cannot be given back. *)
Definition buckets : RateLib :=
  {| limiter := bucket; reservation := b_rsv;
     NewLimiter d b := MkBucket (Z.to_pos d) b 0 (inject_Z b);
     ReserveN b t n :=
       if Qle_bool (inject_Z n) (b_at b t)
       then (MkBucket (b_interval b) (b_burst b) t (b_at b t - inject_Z n), MkBRsv true n t)
       else (b, MkBRsv false n t);
     rsv_OK := br_ok;
     DelayFrom r t := br_act r - t;
     rsv_CancelAt r t b :=
       if br_act r <? t then b
       else MkBucket (b_interval b) (b_burst b) t (Qmin (inject_Z (b_burst b)) (b_at b t + inject_Z (br_tokens r)));
     Tokens := b_at;
     Burst := b_burst |}.

Lemma b_at_le b t : (b_at b t <= inject_Z (b_burst b))%Q.
Proof. apply Q.le_min_l. Qed.

Lemma frac_add (a b : Z) (p : positive) : ((a # p) + (b # p) == (a + b # p))%Q.
Proof. unfold Qeq, Qplus; cbn. nia. Qed.
Lemma frac_nonneg (a : Z) (p : positive) : 0 <= a -> (0 <= a # p)%Q.
Proof. unfold Qle; cbn. nia. Qed.

Lemma Qmin_add (b x y : Q) : (0 <= y)%Q -> (Qmin b (Qmin b x + y) == Qmin b (x + y))%Q.
Proof.
  intros Hy. destruct (Q.min_spec b x) as [[H1 ->]|[H1 ->]]; [|reflexivity].
  rewrite !Q.min_l; [reflexivity|lra|lra].
Qed.

Lemma b_at_later b t t' :
  b_last b <= t <= t' ->
  (Qmin (inject_Z (b_burst b)) (b_at b t + (t' - t # b_interval b)) == b_at b t')%Q.
Proof.
  intros Ht. unfold b_at. rewrite Qmin_add by (apply frac_nonneg; lia). rewrite <- Qplus_assoc, frac_add.
  replace (Z.max 0 (t - b_last b) + (t' - t)) with (Z.max 0 (t' - b_last b)) by lia. reflexivity.
Qed.

Lemma b_at_now p b t q : (q <= inject_Z b)%Q -> (b_at (MkBucket p b t q) t == q)%Q.
Proof.
  intros Hq. unfold b_at; cbn. rewrite Z.sub_diag. assert (Z.max 0 0 # p == 0)%Q as -> by reflexivity.
  rewrite Q.min_r; lra.
Qed.

#[export] Instance bucket_laws : @RateLaws buckets.
Proof.
  refine {| last_use := (b_last : @limiter buckets -> Z) |}; cbn.
  - apply b_at_le.
  - intros l t t' Ht. unfold b_at. apply Q.min_le_compat_l. apply Qplus_le_r. unfold Qle; cbn. nia.
  - intros l t n. by destruct (Qle_bool _ _).
  - intros l t r. by destruct (_ <? _).
  - intros l t n Hl. destruct (Qle_bool _ _); cbn; lia.
  - intros l t r Hl. destruct (_ <? _); cbn; lia.
  - done.
  - done.
  - intros d b t Hb. unfold b_at; cbn. apply Q.min_l.
    pose proof (frac_nonneg (Z.max 0 (t - 0)) (Z.to_pos d) ltac:(lia)). lra.
  - intros l t n Hn. destruct (Qle_bool _ _) eqn:E; cbn; unfold granted; cbn.
    + apply Qle_bool_iff in E. split; [done|]. intros _. apply Z.leb_le. lia.
    + split; [done|]. intros HF. apply Qle_bool_iff in HF. congruence.
  - intros l t n Hn. destruct (Qle_bool _ _); cbn; [|done]. intros _. apply b_at_now.
    pose proof (b_at_le l t). assert (0 <= inject_Z n)%Q by (unfold Qle; cbn; lia). lra.
  - intros l t n t'. destruct (Qle_bool _ _); cbn; [done|reflexivity].
  - intros l t n t' Hn Ht. destruct (Qle_bool _ _) eqn:E; cbn; [|done]. intros _.
    rewrite Z.ltb_irrefl. cbn. pose proof (b_at_le l t). assert (0 <= inject_Z n)%Q by (unfold Qle; cbn; lia).
    unfold b_at at 1; cbn. rewrite b_at_now by lra.
    assert (b_at l t - inject_Z n + inject_Z n == b_at l t)%Q as -> by ring.
    rewrite (Q.min_r _ (b_at l t)) by done. replace (Z.max 0 (t' - t)) with (t' - t) by lia. by apply b_at_later.
Qed.

(** ** Witnesses *)
Definition per_second (n : Z) : RateLimitConfig := MkRateLimit 1000000000 n false.
Definition two_limits : list (@limiter buckets) := @NewRateLimiter buckets [per_second 2; per_second 1].

Example AllowN_all_or_nothing_example :
  rv_ok (snd (@AllowN buckets two_limits 5 1)) = true /\
  rv_ok (snd (@AllowN buckets two_limits 5 2)) = false /\
  Forall2 (@same_from buckets 5) (fst (@AllowN buckets two_limits 5 2)) two_limits.
Proof.
  pose proof (@AllowN_all_or_nothing buckets bucket_laws two_limits 5 2 eq_refl) as HT.
  destruct (@AllowN buckets two_limits 5 2) as [ls' r] eqn:E. cbn [fst snd].
  split; [vm_compute; reflexivity|].
  assert (rv_ok r = false) as Hr by (apply (f_equal (fun x => rv_ok (snd x))) in E; vm_compute in E; symmetry; exact E).
  split; [exact Hr|]. apply HT; [|exact Hr]. apply (@NewRateLimiter_ok buckets bucket_laws). lia.
Qed.

Definition guarded : @SSHRateLimiter buckets := @NewSSHRateLimiter buckets [per_second 2] [per_second 1].
Definition guarded_used : @SSHRateLimiter buckets := fst (@AllowIP buckets guarded (go "a") 1 2 3).

Lemma guarded_ok t : 0 <= t -> @limiter_ok buckets bucket_laws t guarded.
Proof. intros Ht. apply (@NewSSHRateLimiter_ok buckets bucket_laws); [exact Ht|repeat constructor]. Qed.



(** With such a bucket a connection that its address's limit refuses still uses up
    the global one, since the cancellation comes after the reservation. *)
Example late_cancel_keeps_the_token :
  rv_ok (snd (@AllowIP buckets guarded_used (go "a") 4 5 6)) = false /\
  (b_at (hd (MkBucket 1 0 0 0) (globalRl (fst (@AllowIP buckets guarded_used (go "a") 4 5 6)))) 6
   < b_at (hd (MkBucket 1 0 0 0) (globalRl guarded_used)) 6)%Q.
Proof. split; vm_compute; reflexivity. Qed.
