(* ===== verification/Server.v ===== *)
(** * The server: ssh.go and the configuration main.go gives the SSH library.

    The accept loop and the handler of each connection are a step relation on
    the two counters of connections, the rate limiter and the connections, each
    with its phase and what it has done.  Random numbers, the clock, the address
    and everything the client does are arguments of the steps.  A step of
    authentication is a run of [serverAuthenticate] (SshMessages SshAuth.v) with the
    callbacks of main.go; between two calls of its callbacks other connections
    may have changed the git server, so the run is given the states it finds.

    Proved: the counters always equal the number of connections they count; the
    connections being handled never exceed the limits; a connection serves at
    most one session, and a git session only when a git server is configured and
    it accepted the client's key, whose possession the client proved. *)
From Stdlib Require Import Ascii String ZArith QArith Qminmax Lia Lqa.
From stdpp Require Import base gmap strings list.
From S2P Require Import Prelude GoStrings GoFloat ShellConf GitConfig GitServer AppConf SshAlgos SshMessages SshAuth RateLimit Auth.
Local Open Scope Z_scope.

(** ** Limits *)
Definition DefaultMaxConnections : Z := 100.
Definition DefaultHardMaxConnections : Z := 65535.
Definition DefaultMaxSuccessConnections : Z := 5.
Definition DefaultHardMaxSucessConnections : Z := 10.

Record limits := MkLimits { lim_max : Z; lim_hardMax : Z; lim_ratio : float64 }.

(** The settings of [StartSSHServer] from the configuration, the same code for both
    counters. *)
Definition effective_limits (mc : MaxConnectionsConfig) (defaultMax defaultHardMax : Z) : limits :=
  let max := if mc_Max mc =? 0 then defaultMax else if mc_Max mc <? 0 then 0 else mc_Max mc in
  let hardMax := if (mc_HardMax mc <=? max) && (0 <? max) then Z.max (wrap64 (max * 2)) defaultHardMax
                 else mc_HardMax mc in
  let ratio := if fle (mc_LossRatio mc) (Fin 0) then Fin 0
               else if fle (Fin 1) (mc_LossRatio mc) then Fin 1 else mc_LossRatio mc in
  MkLimits max hardMax ratio.

Definition connectionLossProbability (curr max hardMax : Z) (ratio : Q) : Q :=
  if hardMax <=? wrap64 (max + 1) then 1
  else
    let increaseRatio := ((1 - ratio) * (inject_Z (wrap64 (curr - wrap64 (max + 1))) /
                                         inject_Z (wrap64 (hardMax - wrap64 (max + 1)))))%Q in
    let increaseRatio := if Qlt_le_dec increaseRatio 0 then 0%Q else increaseRatio in
    (ratio + increaseRatio)%Q.

(** [draw] is [rand.Float64()]; nothing compares with NaN. *)
Definition checkMaxConnections (curr : Z) (l : limits) (draw : Q) : bool :=
  let max := lim_max l in let hardMax := lim_hardMax l in
  if max <=? 0 then (hardMax <=? 0) || (curr <=? hardMax)
  else if curr <=? max then true
  else if hardMax <? curr then false
  else if fle (lim_ratio l) (Fin 0) then curr <=? hardMax
  else if fle (Fin 1) (lim_ratio l) then false
  else match lim_ratio l with
       | Fin ratio => Qle_bool (connectionLossProbability curr max hardMax ratio) draw
       | _ => false
       end.

(** What the limits promise: no admission beyond it, none refused up to [lim_max]. *)
Definition bound_of (l : limits) : option Z :=
  if 0 <? lim_max l then Some (Z.max (lim_max l) (lim_hardMax l))
  else if 0 <? lim_hardMax l then Some (lim_hardMax l) else None.

Lemma check_within_bound curr l draw b :
  checkMaxConnections curr l draw = true -> bound_of l = Some b -> curr <= b.
Proof.
  unfold checkMaxConnections, bound_of. destruct (Z.leb_spec (lim_max l) 0).
  - rewrite (proj2 (Z.ltb_ge 0 (lim_max l))) by lia. destruct (Z.ltb_spec 0 (lim_hardMax l)); [|done].
    intros Hc [= <-]. apply orb_true_iff in Hc as [Hc|Hc]; apply Z.leb_le in Hc; lia.
  - rewrite (proj2 (Z.ltb_lt 0 (lim_max l))) by lia. intros Hc [= <-].
    destruct (Z.leb_spec curr (lim_max l)); [lia|]. destruct (Z.ltb_spec (lim_hardMax l) curr); [done|lia].
Qed.

Lemma check_below_max curr l draw : 0 < lim_max l -> curr <= lim_max l -> checkMaxConnections curr l draw = true.
Proof.
  intros Hm Hc. unfold checkMaxConnections. rewrite (proj2 (Z.leb_gt _ 0)) by lia. by rewrite (proj2 (Z.leb_le _ _)).
Qed.

(** A configuration gives a real limit unless it asks for none: with a maximum
    that does not overflow when doubled, the hard limit is above it. *)
Lemma effective_limits_ok mc dm dh :
  0 < dm -> dm < dh -> mc_Max mc < 2 ^ 62 -> dm < 2 ^ 62 ->
  let l := effective_limits mc dm dh in
  0 <= lim_max l /\ (0 < lim_max l -> lim_max l < lim_hardMax l) /\
  (lim_max l = 0 <-> mc_Max mc < 0) /\
  (fle (Fin 0) (lim_ratio l) = true /\ fle (lim_ratio l) (Fin 1) = true \/ lim_ratio l = NaN).
Proof.
  intros Hd Hdh Hm Hdm. unfold effective_limits. cbn [lim_max lim_hardMax lim_ratio].
  destruct (Z.eqb_spec (mc_Max mc) 0).
  all: try (destruct (Z.ltb_spec (mc_Max mc) 0)).
  all: split_and!; try lia.
  all: try (match goal with |- 0 < ?m -> _ => intros ?; rewrite (proj2 (Z.ltb_lt 0 m)) by lia; rewrite andb_true_r;
         destruct (Z.leb_spec (mc_HardMax mc) m); [rewrite wrap64_id by lia; lia|lia] end).
  all: destruct (mc_LossRatio mc) as [q| | |]; cbn [fle]; try (by left); try (by right).
  all: destruct (Qle_bool q 0) eqn:E1; [by left|]; destruct (Qle_bool 1 q) eqn:E2; [by left|]; left; cbn [fle].
  all: split; apply Qle_bool_iff; apply Qnot_lt_le; intros HF; [rewrite (proj2 (Qle_bool_iff q 0)) in E1|rewrite (proj2 (Qle_bool_iff 1 q)) in E2]; try done; lra.
Qed.

(** The loss probability grows from the configured ratio at the first connection
    over the maximum to 1 at the hard maximum. *)
Lemma loss_probability_range curr max hardMax ratio :
  0 < max -> max + 1 < hardMax < 2 ^ 62 -> (0 <= ratio <= 1)%Q -> max < curr <= hardMax ->
  (ratio <= connectionLossProbability curr max hardMax ratio <= 1)%Q.
Proof.
  intros Hm Hh Hr Hc. unfold connectionLossProbability. rewrite !wrap64_id by lia.
  rewrite (proj2 (Z.leb_gt hardMax (max + 1))) by lia.
  set (d := inject_Z (hardMax - (max + 1))). set (n := inject_Z (curr - (max + 1))).
  assert (0 < d)%Q as Hd by (unfold d, Qlt; cbn; lia).
  assert (0 <= n / d)%Q as Hn by (apply Qle_shift_div_l; [done|]; unfold n, Qle; cbn; lia).
  assert (n / d <= 1)%Q as Hn1 by (apply Qle_shift_div_r; [done|]; unfold n, d, Qle; cbn; lia).
  set (x := (n / d)%Q) in *. clearbody x. destruct (Qlt_le_dec ((1 - ratio) * x) 0) as [HL|HL]; [lra|nra].
Qed.

(** ** Authentication as main.go sets it up *)
Section server.
  Context `{UnicodeTables} `{GoNumbers} `{NetLib} `{SSHKeys} `{RateLib}.
  Context (parse_key : gostring -> res PublicKey) (key_type : PublicKey -> gostring)
          (key_extension : PublicKey -> gostring -> bool)
          (verify : bool -> PublicKey -> gostring -> Signature -> option error).

Definition key_lib : KeyLib :=
  {| Key := PublicKey; ParsePublicKey := parse_key; key_Type := key_type; cert_Extension := key_extension;
     Verify := verify |}.

(** What a callback finds when it is called: the git server and its key file, the
    random number of the delay.  The run takes one per call. *)
Record moment := MkMoment { mo_git : GitServer.Server; mo_file : gostring -> res gostring; mo_IntN : Z -> Z }.
Abbreviation World := (list moment).
Abbreviation answer := (option Permissions * option (auth_error World Permissions PublicKey))%type.

Definition of_result (r : res (option Permissions)) : answer :=
  match r with Ok p => (p, None) | Err e => (None, Some (EPlain e)) end.
Definition out_of_moments : answer := (None, Some (EPlain errAuthFailed)).

Definition password_callback (c : AppConfig) (seed : gostring) (w : World) (user password : gostring) : World * answer :=
  match w with
  | [] => ([], out_of_moments)
  | m :: w => (w, of_result (fst (authCallback c seed user password (mo_IntN m))))
  end.
Definition key_callback (w : World) (user : gostring) (key : PublicKey) : World * answer :=
  match w with
  | [] => ([], out_of_moments)
  | m :: w => (w, of_result (p ← snd (PublicKeyCallback (mo_git m) (mo_file m) user key); Ok (Some p)))
  end.

(** [publicKeyCallbackForConfig] gives a callback exactly when the module is enabled. *)
Definition server_callbacks (c : AppConfig) (seed : gostring) : callbacks World Permissions PublicKey :=
  MkCallbacks (Some (password_callback c seed))
    (if gc_Enable (ac_GitServer c) then Some key_callback else None) None None.

(** [authLogCallback] only logs. *)
Definition auth_config (c : AppConfig) (seed : gostring) : @SshAuth.ServerConfig key_lib World Permissions :=
  @MkServerConfig key_lib World Permissions false None
    (if sv_MaxTry (bc_Server (ac_Base c)) =? 0 then 6 else sv_MaxTry (bc_Server (ac_Base c)))
    defaultPubKeyAuthAlgos (server_callbacks c seed) None (Some (fun w _ _ _ => w)) None None.

Definition no_source_address (p : Permissions) : option gostring := None.
Definition has_extension (p : Permissions) (name : gostring) : bool :=
  match Extensions p with Some ext => bool_decide (is_Some (ext !! name)) | None => false end.

(** The client gets in with these permissions, in some run of the handshake; the
    git servers it finds are reachable ones. *)
Definition authenticates (c : AppConfig) (seed : gostring) (git_ok : GitServer.Server -> Prop) (perms : option Permissions) : Prop :=
  exists werr sid remote world packets s',
    Forall (fun m => git_ok (mo_git m)) world /\
    @serverAuthenticate _ _ key_lib World Permissions no_source_address has_extension werr sid remote
      (auth_config c seed) (MkSession world packets [] []) = (inl (Some perms), s').

(** ** Connections *)
Inductive cevent :=
| Notice                                   (* Not allowed at this time *)
| AcceptSession (git : bool)
| RejectChannel (reason : Z) (message : gostring)
| ReplyRequest (rtype : gostring) (ok : bool).

Inductive phase :=
| Dropping                                 (* refused at the door, the notice still to be sent *)
| Handshake                                (* in NewServerConn *)
| Authenticated (perms : option Permissions)
| Waiting (perms : option Permissions)     (* no session yet *)
| InSession (git : bool) (perms : option Permissions) (done : bool)
| Closing                                  (* the handler has returned, its deferred calls are pending *)
| Closed.

Record conn := MkConn { c_ip : gostring; c_phase : phase; c_log : list cevent }.
Record server := MkSrv {
  s_connections : Z; s_succ : Z; s_limiter : SSHRateLimiter; s_conns : list conn }.

Definition shouldRouteGitSession (srv : bool) (perms : option Permissions) : bool :=
  if negb srv then false else IsGitPermission perms.

Definition replyGlobalRequest (rtype : gostring) (wantReply : bool) : list cevent :=
  if negb wantReply then []
  else [ReplyRequest rtype ((rtype =s go "keepalive@openssh.com") || (rtype =s go "no-more-sessions@openssh.com"))].

Definition reject_event (chanType : gostring) : cevent :=
  let '(reason, message) := rejectExtraChannel chanType in RejectChannel reason message.

Context (c : AppConfig) (seed : gostring) (git_ok : GitServer.Server -> Prop).
Definition conn_limits : limits :=
  effective_limits (sv_MaxConn (bc_Server (ac_Base c))) DefaultMaxConnections DefaultHardMaxConnections.
Definition succ_limits : limits :=
  effective_limits (sv_MaxSuccConn (bc_Server (ac_Base c))) DefaultMaxSuccessConnections DefaultHardMaxSucessConnections.
Definition git_server : bool := gc_Enable (ac_GitServer c).

(** One round of the accept loop, for a connection from [ip]. *)
Definition accept_conn (s : server) (ip : gostring) (draw : Q) (t1 t2 t3 : Z) : server :=
  let n := s_connections s + 1 in
  if negb (checkMaxConnections n conn_limits draw)
  then MkSrv n (s_succ s) (s_limiter s) (s_conns s ++ [MkConn ip Dropping []])
  else
    let '(lim, rsv) := AllowIP (s_limiter s) ip t1 t2 t3 in
    if negb (rv_ok rsv) then MkSrv n (s_succ s) lim (s_conns s ++ [MkConn ip Dropping []])
    else MkSrv n (s_succ s) lim (s_conns s ++ [MkConn ip Handshake []]).

(** What the goroutine of one connection does next: to the two counters, its
    phase and its log. *)
Inductive conn_step : Z * Z -> phase -> Z * Z -> phase -> list cevent -> Prop :=
| st_dropped n k : conn_step (n, k) Dropping (n - 1, k) Closed [Notice]
| st_handshake_failed n k : conn_step (n, k) Handshake (n - 1, k) Closed []
| st_handshake n k perms :
    authenticates c seed git_ok perms -> conn_step (n, k) Handshake (n - 1, k) (Authenticated perms) []
| st_counted n k perms draw :
    conn_step (n, k) (Authenticated perms) (n, k + 1)
      (if checkMaxConnections (k + 1) succ_limits draw then Waiting perms else Closing) []
| st_returned n k : conn_step (n, k) Closing (n, k - 1) Closed []
| st_session n k perms :
    let git := shouldRouteGitSession git_server perms in
    conn_step (n, k) (Waiting perms) (n, k) (InSession git perms false) [AcceptSession git]
| st_accept_failed n k perms : conn_step (n, k) (Waiting perms) (n, k) (Waiting perms) []
| st_wait_channel n k perms chanType :
    chanType <> go "session" -> conn_step (n, k) (Waiting perms) (n, k) (Waiting perms) [reject_event chanType]
| st_wait_request n k perms rtype wantReply :
    conn_step (n, k) (Waiting perms) (n, k) (Waiting perms) (replyGlobalRequest rtype wantReply)
| st_wait_over n k perms : conn_step (n, k) (Waiting perms) (n, k) Closing []
| st_session_done n k git perms :
    conn_step (n, k) (InSession git perms false) (n, k) (if git then InSession git perms true else Closing) []
| st_session_channel n k git perms done chanType :
    conn_step (n, k) (InSession git perms done) (n, k) (InSession git perms done) [reject_event chanType]
| st_session_request n k git perms done rtype wantReply :
    conn_step (n, k) (InSession git perms done) (n, k) (InSession git perms done) (replyGlobalRequest rtype wantReply)
| st_session_over n k git perms done : conn_step (n, k) (InSession git perms done) (n, k) Closing [].

Inductive server_step : server -> server -> Prop :=
| sv_accept s ip draw t1 t2 t3 : server_step s (accept_conn s ip draw t1 t2 t3)
| sv_clean s clock :
    server_step s (MkSrv (s_connections s) (s_succ s) (fst (cleanEmpty (s_limiter s) clock)) (s_conns s))
| sv_conn s i cn n k ph evs :
    s_conns s !! i = Some cn -> conn_step (s_connections s, s_succ s) (c_phase cn) (n, k) ph evs ->
    server_step s (MkSrv n k (s_limiter s) (<[i := MkConn (c_ip cn) ph (c_log cn ++ evs)]> (s_conns s))).

Definition valid_limits (rs : list (option RateLimitConfig)) : list RateLimitConfig := omap id rs.
Definition StartSSHServer : server :=
  let rs := valid_limits (sv_RateLimits (bc_Server (ac_Base c))) in
  MkSrv 0 0 (NewSSHRateLimiter (List.filter (fun x => negb (rl_PerIP x)) rs) (List.filter rl_PerIP rs)) [].

Definition reachable_server (s : server) : Prop := rtc server_step StartSSHServer s.

(** ** Invariants *)
Definition unauthenticated (p : phase) : bool := match p with Dropping | Handshake => true | _ => false end.
Definition handshaking (p : phase) : bool := match p with Handshake => true | _ => false end.
Definition counted (p : phase) : bool := match p with Waiting _ | InSession _ _ _ | Closing => true | _ => false end.
Definition serving (p : phase) : bool := match p with Waiting _ | InSession _ _ _ => true | _ => false end.

Definition count (f : phase -> bool) (cs : list conn) : Z := len (List.filter (fun cn => f (c_phase cn)) cs).
Definition sessions (log : list cevent) : Z := len (List.filter (fun e => match e with AcceptSession _ => true | _ => false end) log).

Definition conn_ok (cn : conn) : Prop :=
  match c_phase cn with
  | Dropping | Handshake => c_log cn = []
  | Authenticated p => c_log cn = [] /\ authenticates c seed git_ok p
  | Waiting p => sessions (c_log cn) = 0 /\ authenticates c seed git_ok p
  | InSession git p _ => sessions (c_log cn) = 1 /\ authenticates c seed git_ok p /\ git = shouldRouteGitSession git_server p
  | Closing | Closed => sessions (c_log cn) <= 1
  end.

Record server_inv (s : server) : Prop := {
  inv_connections : s_connections s = count unauthenticated (s_conns s);
  inv_succ : s_succ s = count counted (s_conns s);
  inv_handshaking b : bound_of conn_limits = Some b -> count handshaking (s_conns s) <= Z.max 0 b;
  inv_serving b : bound_of succ_limits = Some b -> count serving (s_conns s) <= Z.max 0 b;
  inv_conns : Forall conn_ok (s_conns s) }.

Lemma count_app f cs cs' : count f (cs ++ cs') = count f cs + count f cs'.
Proof. unfold count, len. rewrite List.filter_app, length_app. lia. Qed.

Lemma count_insert f cs i cn cn' :
  cs !! i = Some cn ->
  count f (<[i := cn']> cs) = count f cs - Z.b2z (f (c_phase cn)) + Z.b2z (f (c_phase cn')).
Proof.
  intros Hi. rewrite <- (take_drop_middle cs i cn Hi) at 2.
  rewrite insert_take_drop by (by apply lookup_lt_Some in Hi).
  change (cn :: drop (S i) cs) with ([cn] ++ drop (S i) cs). change (cn' :: drop (S i) cs) with ([cn'] ++ drop (S i) cs).
  rewrite !count_app. unfold count at 2 5, len. cbn [List.filter].
  destruct (f (c_phase cn)), (f (c_phase cn')); cbn [length Z.b2z]; lia.
Qed.

Lemma count_nil f : count f [] = 0.
Proof. reflexivity. Qed.
Lemma count_one f cn : count f [cn] = Z.b2z (f (c_phase cn)).
Proof. unfold count, len. cbn [List.filter]. by destruct (f _). Qed.

Lemma count_le f g cs : (forall p, f p = true -> g p = true) -> count f cs <= count g cs.
Proof.
  intros Hfg. unfold count, len. induction cs as [|cn cs IH]; cbn [List.filter]; [lia|].
  destruct (f (c_phase cn)) eqn:E; [rewrite (Hfg _ E); cbn [length]; lia|]. destruct (g _); cbn [length]; lia.
Qed.

Lemma sessions_app l l' : sessions (l ++ l') = sessions l + sessions l'.
Proof. unfold sessions, len. rewrite List.filter_app, length_app. lia. Qed.
Lemma sessions_reply rtype b : sessions (replyGlobalRequest rtype b) = 0.
Proof. unfold replyGlobalRequest. by destruct (negb b). Qed.
Lemma sessions_reject t : sessions [reject_event t] = 0.
Proof. unfold reject_event. by destruct (rejectExtraChannel t). Qed.

Lemma sessions_nil : sessions [] = 0.
Proof. reflexivity. Qed.
Lemma sessions_notice : sessions [Notice] = 0.
Proof. reflexivity. Qed.
Lemma sessions_session b : sessions [AcceptSession b] = 1.
Proof. reflexivity. Qed.

(** A step of one connection changes the counters by what its phase counts for. *)
Lemma conn_step_counts n k ph n' k' ph' evs :
  conn_step (n, k) ph (n', k') ph' evs ->
  n' = n - Z.b2z (unauthenticated ph) + Z.b2z (unauthenticated ph') /\
  k' = k - Z.b2z (counted ph) + Z.b2z (counted ph') /\
  (handshaking ph' = true -> handshaking ph = true) /\
  (serving ph' = true -> serving ph = true \/ exists draw, checkMaxConnections k' succ_limits draw = true).
Proof.
  inversion 1; subst; cbn; try (split_and!; [lia|lia|done|by auto]).
  - destruct (checkMaxConnections _ _ _) eqn:E; cbn; split_and!; try lia; try done. intros _. right. eauto.
  - destruct git; cbn; split_and!; try lia; try done; by auto.
Qed.

Lemma conn_step_ok n k cn n' k' ph' evs :
  conn_step (n, k) (c_phase cn) (n', k') ph' evs -> conn_ok cn -> conn_ok (MkConn (c_ip cn) ph' (c_log cn ++ evs)).
Proof.
  destruct cn as [ip ph log]. cbn [c_ip c_phase c_log]. intros Hs. unfold conn_ok. cbn [c_phase c_log]. rewrite sessions_app.
  inversion Hs; subst; rewrite ?sessions_reply, ?sessions_reject, ?sessions_nil, ?sessions_notice, ?sessions_session, ?app_nil_r.
  - intros ->. rewrite sessions_nil. lia.
  - intros ->. rewrite sessions_nil. lia.
  - done.
  - intros [-> Ha]. destruct (checkMaxConnections _ _ _); rewrite sessions_nil; [split; [lia|done]|lia].
  - lia.
  - intros [-> Ha]. done.
  - intros [-> Ha]. split; [lia|done].
  - intros [-> Ha]. split; [lia|done].
  - intros [-> Ha]. split; [lia|done].
  - intros [-> Ha]. lia.
  - intros (-> & Ha & Hg). destruct git; [split_and!; [lia|done|done]|lia].
  - intros (-> & Ha & Hg). split_and!; [lia|done|done].
  - intros (-> & Ha & Hg). split_and!; [lia|done|done].
  - intros (-> & Ha & Hg). lia.
Qed.

Lemma accept_inv s ip draw t1 t2 t3 : server_inv s -> server_inv (accept_conn s ip draw t1 t2 t3).
Proof.
  intros [I1 I2 I3 I4 I5].
  assert (forall lim ph, ph = Dropping \/ (ph = Handshake /\ checkMaxConnections (s_connections s + 1) conn_limits draw = true) ->
            server_inv (MkSrv (s_connections s + 1) (s_succ s) lim (s_conns s ++ [MkConn ip ph []]))) as Hadd.
  { intros lim ph Hph. split; cbn [s_connections s_succ s_conns].
    - rewrite count_app, count_one, I1. by destruct Hph as [->|[-> _]].
    - rewrite count_app, count_one, I2. destruct Hph as [->|[-> _]]; cbn; lia.
    - intros b Hb. rewrite count_app, count_one. specialize (I3 b Hb). destruct Hph as [->|[-> Hc]]; cbn [c_phase handshaking Z.b2z]; [lia|].
      apply (check_within_bound _ _ _ b) in Hc; [|done].
      assert (count handshaking (s_conns s) <= count unauthenticated (s_conns s)) by (apply count_le; by intros []). lia.
    - intros b Hb. rewrite count_app, count_one. specialize (I4 b Hb). destruct Hph as [->|[-> Hc]]; cbn [c_phase serving Z.b2z]; lia.
    - apply Forall_app. split; [done|]. constructor; [|constructor]. by destruct Hph as [->|[-> _]]. }
  unfold accept_conn. destruct (checkMaxConnections _ _ _) eqn:Ec; cbn [negb]; [|apply Hadd; by left].
  destruct (AllowIP _ _ _ _ _) as [lim rsv]. destruct (rv_ok rsv); cbn [negb]; apply Hadd; [right|left]; done.
Qed.

Lemma conn_inv s i cn n k ph evs :
  server_inv s -> s_conns s !! i = Some cn -> conn_step (s_connections s, s_succ s) (c_phase cn) (n, k) ph evs ->
  server_inv (MkSrv n k (s_limiter s) (<[i := MkConn (c_ip cn) ph (c_log cn ++ evs)]> (s_conns s))).
Proof.
  intros [I1 I2 I3 I4 I5] Hi Hs. pose proof (conn_step_counts _ _ _ _ _ _ _ Hs) as (Hn & Hk & Hh & Hv).
  split; cbn [s_connections s_succ s_conns]; rewrite ?(count_insert _ _ _ _ _ Hi); cbn [c_phase].
  - lia.
  - lia.
  - intros b Hb. specialize (I3 b Hb).
    destruct (handshaking ph); [rewrite Hh by done; cbn; lia|]. destruct (handshaking (c_phase cn)); cbn; lia.
  - intros b Hb. specialize (I4 b Hb). destruct (serving ph) eqn:Es; [|destruct (serving (c_phase cn)); cbn; lia].
    destruct (Hv eq_refl) as [->|[draw Hd]]; [cbn; lia|].
    apply (check_within_bound _ _ _ b) in Hd; [|done]. cbn [Z.b2z].
    assert (count serving (s_conns s) <= count counted (s_conns s)) by (apply count_le; by intros []).
    assert (Z.b2z (serving (c_phase cn)) = Z.b2z (counted (c_phase cn)) \/ serving (c_phase cn) = false /\ counted (c_phase cn) = true)
      as [E|[E E']] by (destruct (c_phase cn); auto).
    + assert (counted ph = true) by (destruct ph; done). assert (Z.b2z (counted ph) = 1) by (by destruct (counted ph)). lia.
    + exfalso. destruct (c_phase cn); try done. inversion Hs; subst; done.
  - apply Forall_insert; [done|]. eapply conn_step_ok; [exact Hs|]. by apply (Forall_lookup_1 _ _ _ _ I5 Hi).
Qed.

Lemma server_reachable_inv s : reachable_server s -> server_inv s.
Proof.
  unfold reachable_server. intros Hr.
  assert (server_inv StartSSHServer) as H0'
    by (split; cbn [StartSSHServer s_connections s_succ s_conns]; rewrite ?count_nil; [done|done|lia|lia|constructor]).
  revert H0'. induction Hr as [|s1 s2 s3 Hs _ IH]; [done|]. intros Hi. apply IH. destruct Hs.
  - by apply accept_inv.
  - destruct Hi as [I1 I2 I3 I4 I5]. by split.
  - by eapply conn_inv.
Qed.

(** *** What authentication shows *)
Section run.
  Context (sid : gostring) (remote : net_addr) (s0 : session World).
  Context (Hgit : Forall (fun m => git_ok (mo_git m)) (ss_world s0)).
  Abbreviation hist := (@history _ _ key_lib World Permissions no_source_address has_extension sid remote
                          (auth_config c seed) s0).
  Abbreviation ans := (@answered _ _ key_lib World Permissions no_source_address has_extension sid remote
                         (auth_config c seed) s0).

Lemma password_callback_inv w user pw w' perms err :
  password_callback c seed w user pw = (w', (perms, err)) ->
  w' = tail w /\ perms = None /\ (forall next, err <> Some (EPartial next)).
Proof.
  unfold password_callback. destruct w as [|m w]; [by intros [= <- <- <-]|]. intros [= <- E].
  destruct (fst _) as [ps|e] eqn:Ea; cbn in E; injection E as <- <-; [|done].
  by apply authCallback_no_permissions in Ea as ->.
Qed.
Lemma key_callback_inv w user key w' perms err :
  key_callback w user key = (w', (perms, err)) ->
  w' = tail w /\ (forall next, err <> Some (EPartial next)) /\
  (err = None -> exists m p, In m w /\ perms = Some p /\ snd (PublicKeyCallback (mo_git m) (mo_file m) user key) = Ok p).
Proof.
  unfold key_callback. destruct w as [|m w]; [by intros [= <- <- <-]|]. intros [= <- E].
  destruct (snd _) as [p|e] eqn:Ea; cbn in E; injection E as <- <-; [|done].
  split_and!; [done|done|]. intros _. exists m, p. split_and!; [by left|done|done].
Qed.

Lemma history_callbacks u cb s :
  hist u cb s -> cb = server_callbacks c seed /\ Forall (fun m => git_ok (mo_git m)) (ss_world s).
Proof.
  induction 1 as [|u cb s s' Hh [-> IH] ([Hw|Hm] & _)|u cb s e Hh IH|u cb s req next s' Hh [-> IH] _ _ Ha _ _].
  - done.
  - by rewrite Hw.
  - split; [done|]. inversion Hm as [f user pw E|f user k E|f user s1 E|a srv t E|a srv m t E|a srv E|a srv u1 t E|f user E|f user k p t E|f user m e E|f user E];
      subst; cbn in E; try discriminate E.
    + injection E as <-. destruct (password_callback c seed (ss_world s) user pw) as [w' [p e]] eqn:Ep.
      apply password_callback_inv in Ep as [-> _]. cbn. by destruct IH.
    + destruct (gc_Enable _); [|done]. injection E as <-. destruct (key_callback (ss_world s) user k) as [w' [p e]] eqn:Ep.
      apply key_callback_inv in Ep as [-> _]. cbn. by destruct IH.
    + by injection E as <-.
  - exact IH.
  - exfalso. inversion Ha as [|? ? ? ? ? ? ? EN|? ? ? f ? pw ? a ? E ? Hw Ef|? ? ? ? ? ? ? ? E|? ? ? ? ? ? ? ? ? ? ? ? ? ? ? ? ? E|? ? ? f ? key ? ? ? ? ? ? E Hp Hw Ef|? ? ? f ? ? ? ? ? v ? ? ? ? ? E ? ? ? ? ? Ev]; subst; cbn in *; try discriminate.
    + injection E as <-. destruct a as [p e]. cbn in *. subst. apply password_callback_inv in Ef as (_ & _ & Hn). by apply (Hn next).
    + destruct (gc_Enable _); [|done]. injection E as <-. apply key_callback_inv in Ef as (_ & Hn & _). by apply (Hn next).
Qed.

(** A git permission comes from the git server's callback, for a key the client
    proved to hold. *)
Lemma git_permission_from_key u cb req perms :
  ans u cb req perms None -> cb = server_callbacks c seed -> IsGitPermission perms = true ->
  gc_Enable (ac_GitServer c) = true /\
  exists m data key p, git_ok (mo_git m) /\ parse_key data = Ok key /\ perms = Some p /\
    snd (PublicKeyCallback (mo_git m) (mo_file m) (userAuthRequest_User req) key) = Ok p /\
    @proves_key key_lib World Permissions has_extension sid (auth_config c seed) (userAuthRequest_User req) data key perms.
Proof.
  intros Ha -> Hg. inversion Ha as [|? ? ? ? ? ? ? EN|? ? ? f ? pw ? a ? E ? Hw Ef|? ? ? ? ? ? ? ? E|? ? ? ? ? ? ? ? ? ? ? ? ? ? ? ? ? E|? ? ? f data key w w' ? ? ? ? E Hp Hw Ef Hs HP Hv|? ? ? f ? ? ? ? ? v ? ? ? ? ? E ? ? ? ? ? Ev]; subst; cbn in *; try discriminate.
  - injection E as <-. destruct a as [p e]. cbn in *. subst. by apply password_callback_inv in Ef as (_ & -> & _).
  - destruct (gc_Enable _); [|done]. injection E as <-. split; [done|].
    apply key_callback_inv in Ef as (_ & _ & Hk). destruct (Hk eq_refl) as (m & p & Hin & -> & Hc).
    apply history_callbacks in Hw as [_ Hw]. exists m, data, key, p. apply signed_proves in HP. split_and!; try done.
    rewrite Forall_forall in Hw. apply Hw. by apply list_elem_of_In.
Qed.
End run.

(** C4.  The two counters are exact in every reachable state: one counts the
    connections not yet authenticated, with those about to be dropped, the other
    the authenticated ones whose handler has not returned; so no interleaving
    loses or leaks a slot.  And the limits hold: handshakes in progress and
    connections being served never exceed what the configuration allows. *)
Theorem server_counts_and_limits s :
  reachable_server s ->
  s_connections s = count unauthenticated (s_conns s) /\ s_succ s = count counted (s_conns s) /\
  (forall b, bound_of conn_limits = Some b -> count handshaking (s_conns s) <= Z.max 0 b) /\
  (forall b, bound_of succ_limits = Some b -> count serving (s_conns s) <= Z.max 0 b).
Proof. by intros [I1 I2 I3 I4 _]%server_reachable_inv. Qed.

Lemma conn_ok_sessions cn : conn_ok cn -> sessions (c_log cn) <= 1.
Proof. unfold conn_ok. destruct (c_phase cn); [intros ->|intros ->|intros [-> _]|intros [-> _]|intros [-> _]|done|done]; rewrite ?sessions_nil; lia. Qed.
End server.

(** C2.  Every connection serves at most one session.  A session is handed to
    the git server only when the module is enabled, and only for a client that
    proved to hold a key which the authorized_keys file, as the server knew it at
    that moment, declares for the configured user and which is no certificate; a
    password login never gets there. *)
Theorem git_session_authorized `{UnicodeTables} `{GoNumbers} `{NetLib} `{SSHKeys} `{RateLib}
    parse_key key_type key_extension verify c seed file0 s i cn :
  reachable_server parse_key key_type key_extension verify c seed (reachable (ac_GitServer c) file0) s ->
  s_conns s !! i = Some cn ->
  sessions (c_log cn) <= 1 /\
  forall perms d, c_phase cn = InSession true perms d ->
    gc_Enable (ac_GitServer c) = true /\
    exists m sid data key user p, reachable (ac_GitServer c) file0 (mo_git m) /\
      parse_key data = Ok key /\ user = gc_SSHUser (config (mo_git m)) /\ isCertificate key = false /\
      (exists keys k, keys_now (mo_git m) file0 (mo_file m) keys /\ k ∈ declared_keys keys /\ Marshal k = Marshal key) /\
      perms = Some p /\ GitKeyFingerprint perms = FingerprintSHA256 key /\
      @proves_key (key_lib parse_key key_type key_extension verify) (list moment) Permissions has_extension sid
        (auth_config parse_key key_type key_extension verify c seed) user data key perms.
Proof.
  intros Hr Hi. apply server_reachable_inv in Hr as [_ _ _ _ Hc]. pose proof (Forall_lookup_1 _ _ _ _ Hc Hi) as Hok.
  split; [by eapply conn_ok_sessions|]. intros perms d Hp. unfold conn_ok in Hok. rewrite Hp in Hok.
  destruct Hok as (_ & (werr & sid & remote & world & packets & s' & Hw & HA) & Hg).
  assert (IsGitPermission perms = true) as HG.
  { unfold shouldRouteGitSession in Hg. destruct (negb _); [done|by symmetry]. }
  apply SshAuth.serverAuthenticate_answered in HA as (u & cb & w & req & Hh & _ & _ & Ha & _).
  eapply history_callbacks in Hh as [-> _]; [|exact Hw].
  eapply git_permission_from_key in Ha as (HE & m & data & key & p & Hm & Hd & -> & HP & Hk); [|exact Hw|reflexivity|exact HG].
  split; [done|]. set (user := userAuthRequest_User req) in *. exists m, sid, data, key, user, p.
  pose proof Hm as [Hso _]%server_reachable_ok.
  destruct (PublicKeyCallback (mo_git m) (mo_file m) user key) as [s1 r] eqn:EP. cbn [snd] in HP. subst r.
  apply (PublicKeyCallback_cases _ file0) in EP as (_ & _ & HI & Hperm); [|done].
  destruct (proj1 HI eq_refl) as (HU & HC & HK). destruct (Hperm p eq_refl) as [cmt ->].
  by split_and!.
Qed.

(** ** A client that clones a repository *)
Definition word_verify (waived : bool) (k data : gostring) (sig : Signature) : option error :=
  if sig_Blob sig =s k then None else Some (errors_New (go "ssh: signature did not verify")).
Definition git_app : AppConfig :=
  MkApp (ac_Base NewDefaultAppConfig) sample_config (ac_FakeShell NewDefaultAppConfig) (ac_explicit NewDefaultAppConfig).
Abbreviation app_step := (@server_step ascii_tables no_numbers toy_net word_keys buckets (fun d => Ok d)
  (fun _ => KeyAlgoED25519) (fun _ _ => false) word_verify git_app (go "seed")
  (@reachable ascii_tables word_keys (ac_GitServer git_app) word_file)).
Definition git_perms : option Permissions := Some (git_permissions (go "SHA256:w") (go "bob")).

Lemma git_client_authenticates :
  @authenticates ascii_tables no_numbers toy_net word_keys (fun d => Ok d) (fun _ => KeyAlgoED25519) (fun _ _ => false)
    word_verify git_app (go "seed") (@reachable ascii_tables word_keys (ac_GitServer git_app) word_file) git_perms.
Proof.
  exists (fun _ => None), (go "id"), NoAddr, [MkMoment sample_server word_file (fun _ => 0)],
    [request_as (go "git") (go "none") []; request_as (go "git") (go "publickey") (toy_key_payload false (go "w"))].
  eexists. split; [|vm_compute; reflexivity]. constructor; [|constructor]. exact sample_reachable.
Qed.

Definition served (ph : phase) (n k : Z) (log : list cevent) : @server buckets :=
  @MkSrv buckets n k (s_limiter (@accept_conn buckets git_app (@StartSSHServer buckets git_app) (go "10.0.0.1") 0 1 2 3))
    [MkConn (go "10.0.0.1") ph log].

Lemma git_client_reaches :
  @reachable_server ascii_tables no_numbers toy_net word_keys buckets (fun d => Ok d) (fun _ => KeyAlgoED25519) (fun _ _ => false)
    word_verify git_app (go "seed") (@reachable ascii_tables word_keys (ac_GitServer git_app) word_file)
    (served (InSession true git_perms false) 0 1 [AcceptSession true]).
Proof.
  unfold reachable_server. eapply rtc_l; [apply (sv_accept _ _ _ _ _ _ _ _ (go "10.0.0.1") 0 1 2 3)|].
  eapply rtc_l; [apply (sv_conn _ _ _ _ _ _ _ _ 0%nat (MkConn (go "10.0.0.1") Handshake []) 0 0 (Authenticated git_perms) []);
    [vm_compute; reflexivity|apply (st_handshake _ _ _ _ _ _ _ 1 0), git_client_authenticates]|].
  eapply rtc_l; [apply (sv_conn _ _ _ _ _ _ _ _ 0%nat (MkConn (go "10.0.0.1") (Authenticated git_perms) []) 0 1 (Waiting git_perms) []);
    [reflexivity|]|].
  { match goal with |- conn_step ?a ?b ?d ?e ?f ?g ?h _ _ _ _ _ => pose proof (@st_counted ascii_tables no_numbers toy_net word_keys a b d e f g h 0 0 git_perms 0) as HS end.
    assert (checkMaxConnections (0 + 1) (succ_limits git_app) 0 = true) as E by (vm_compute; reflexivity).
    rewrite E in HS. exact HS. }
  eapply rtc_l; [|apply rtc_refl].
  apply (sv_conn _ _ _ _ _ _ _ (served (Waiting git_perms) 0 1 []) 0%nat (MkConn (go "10.0.0.1") (Waiting git_perms) [])
           0 1 (InSession true git_perms false) [AcceptSession true]); [reflexivity|].
  match goal with |- conn_step ?a ?b ?d ?e ?f ?g ?h _ _ _ _ _ => pose proof (@st_session ascii_tables no_numbers toy_net word_keys a b d e f g h 0 1 git_perms) as HS end.
  assert (shouldRouteGitSession (git_server git_app) git_perms = true) as E by (vm_compute; reflexivity).
  cbv zeta in HS. rewrite E in HS. exact HS.
Qed.

Lemma server_counts_and_limits_witness :
  let s := served (InSession true git_perms false) 0 1 [AcceptSession true] in
  s_succ s = count counted (s_conns s) /\ count serving (s_conns s) <= 10.
Proof.
  cbv zeta.
  destruct (@server_counts_and_limits ascii_tables no_numbers toy_net word_keys buckets _ _ _ _ _ _ _ _ git_client_reaches)
    as (_ & H2 & _ & H4).
  split; [exact H2|]. apply (H4 10). vm_compute. reflexivity.
Defined.

Lemma git_session_authorized_witness :
  gc_Enable (ac_GitServer git_app) = true /\ sessions [AcceptSession true] <= 1.
Proof.
  destruct (@git_session_authorized ascii_tables no_numbers toy_net word_keys buckets _ _ _ _ _ _ _ _ 0%nat
              (MkConn (go "10.0.0.1") (InSession true git_perms false) [AcceptSession true]) git_client_reaches eq_refl)
    as (H1 & H2).
  split; [apply (H2 git_perms false eq_refl)|exact H1].
Defined.
