(* ===== verification/GoIO.v ===== *)
(** * Packages [io] and [encoding/binary], as used: readers, [ReadFull], [CopyN],
    little-endian numbers and slices. *)
From Stdlib Require Import Ascii String ZArith Lia.
From stdpp Require Import base gmap strings list.
From S2P Require Import Prelude GoStrings.
Local Open Scope Z_scope.

(** ** Little-endian fields *)
Fixpoint le_value (s : gostring) : Z :=
  match s with [] => 0 | b :: t => bv b + 256 * le_value t end.
Definition slice (s : gostring) (i n : nat) : gostring := take n (drop i s).

(** ** Readers *)
Inductive ioerr := ioEOF | ioUnexpectedEOF | ioErr (e : error).

(** [Read r n]: a [Read] into a buffer of [n] bytes: the bytes, the error and
    the reader afterwards. *)
Class Reader (R : Type) := Read : R -> nat -> (gostring * option ioerr) * R.

(** The documented contract of [io.Reader] the loops rely on: never more than
    the buffer, and a byte or an error for a buffer that is not empty. *)
Class Progress (R : Type) `{Reader R} := {
  Read_le : forall r n bs e r', Read r n = (bs, e, r') -> (length bs <= n)%nat;
  Read_some : forall r n e r', Read r n = ([], e, r') -> (0 < n)%nat -> e <> None
}.

Section Readers.
Context {R : Type} `{HR : Reader R}.

(** [io.ReadFull] into a buffer of [need] bytes. *)
Fixpoint ReadFull (fuel : nat) (r : R) (need : nat) (acc : gostring)
  : option ((gostring * option ioerr) * R) :=
  if (need <=? length acc)%nat then Some (acc, None, r)
  else
    match fuel with
    | O => None
    | S fuel =>
        let '(bs, err, r) := Read r (need - length acc) in
        let acc := acc ++ bs in
        match err with
        | None => ReadFull fuel r need acc
        | Some e =>
            if (need <=? length acc)%nat then Some (acc, None, r)
            else match acc, e with
                 | _ :: _, ioEOF => Some (acc, Some ioUnexpectedEOF, r)
                 | _, _ => Some (acc, Some e, r)
                 end
        end
    end.

(** [io.Discard.ReadFrom] on a [LimitedReader] with [N] bytes left: chunks of
    8192 bytes until the limit, an end of file or an error; [n] bytes so far. *)
Fixpoint discardFrom (fuel : nat) (r : R) (N n : Z) : option ((Z * option ioerr) * R) :=
  if N <=? 0 then Some (n, None, r)
  else
    match fuel with
    | O => None
    | S fuel =>
        let '(bs, err, r) := Read r (Z.to_nat (Z.min 8192 N)) in
        match err with
        | None => discardFrom fuel r (N - len bs) (n + len bs)
        | Some ioEOF => Some (n + len bs, None, r)
        | Some e => Some (n + len bs, Some e, r)
        end
    end.

(** [io.CopyN(io.Discard, r, n)]. *)
Definition CopyN (r : R) (n : Z) : option ((Z * option ioerr) * R) :=
  match discardFrom (Z.to_nat n) r n 0 with
  | None => None
  | Some (written, err, r) =>
      if written =? n then Some (n, None, r)
      else match err with
           | None => if written <? n then Some (written, Some ioEOF, r) else Some (written, None, r)
           | Some e => Some (written, Some e, r)
           end
  end.

Definition ioerr_msg (e : ioerr) : gostring :=
  match e with
  | ioEOF => go "EOF"
  | ioUnexpectedEOF => go "unexpected EOF"
  | ioErr e => err_msg e
  end.
Definition ioerr_wrap (prefix : gostring) (e : ioerr) : error :=
  match e with
  | ioErr e => errors_wrap prefix e
  | e => errors_New (prefix ++ ioerr_msg e)
  end.

(** ** Lemmas *)

(** What is left to read, for a reader over fixed contents. *)
Class Contents := {
  rest : R -> gostring;
  Read_rest : forall r n bs e r', Read r n = (bs, e, r') -> rest r = bs ++ rest r'
}.

Lemma ReadFull_some `{!Progress R} fuel r need acc :
  (need - length acc <= fuel)%nat -> exists x, ReadFull fuel r need acc = Some x.
Proof.
  revert r acc. induction fuel as [|fuel IH]; intros r acc Hf; cbn [ReadFull].
  { replace (need <=? length acc)%nat with true by (symmetry; apply Nat.leb_le; lia). by eexists. }
  destruct (need <=? length acc)%nat eqn:En; [by eexists|]. apply Nat.leb_gt in En.
  destruct (Read r (need - length acc)) as [[bs err] r'] eqn:Er.
  destruct err as [e|].
  - destruct (need <=? _)%nat; [by eexists|]. destruct (acc ++ bs), e; by eexists.
  - apply IH. rewrite length_app. destruct bs; [|simpl; lia].
    exfalso. by apply Read_some in Er; [|lia].
Qed.

Lemma ReadFull_rest `{!Contents} fuel r need acc bs e r' :
  ReadFull fuel r need acc = Some (bs, e, r') -> acc ++ rest r = bs ++ rest r'.
Proof.
  revert r acc. induction fuel as [|fuel IH]; intros r acc; cbn [ReadFull].
  { destruct (need <=? _)%nat; [by intros [= <- _ <-]|done]. }
  destruct (need <=? length acc)%nat; [by intros [= <- _ <-]|].
  destruct (Read r (need - length acc)) as [[bs1 err] r1] eqn:Er.
  apply Read_rest in Er. rewrite Er, app_assoc.
  destruct err as [err|]; [|by intros ?%IH].
  destruct (need <=? _)%nat; [by intros [= <- _ <-]|].
  destruct (acc ++ bs1), err; by intros [= <- _ <-].
Qed.

Lemma discardFrom_some `{!Progress R} fuel r N n :
  N <= Z.of_nat fuel ->
  exists w e r', discardFrom fuel r N n = Some (w, e, r') /\ w <= n + Z.max 0 N.
Proof.
  revert r N n. induction fuel as [|fuel IH]; intros r N n Hf; cbn [discardFrom].
  { replace (N <=? 0) with true by (symmetry; apply Z.leb_le; lia). do 3 eexists. split; [done|lia]. }
  destruct (N <=? 0) eqn:EN; bool_simp; [do 3 eexists; split; [done|lia]|].
  destruct (Read r _) as [[bs err] r'] eqn:Er. pose proof (Read_le _ _ _ _ _ Er) as Hl.
  assert (len bs <= N) by (unfold len; lia).
  destruct err as [e|]; [destruct e; do 3 eexists; (split; [done|]); lia|].
  destruct (IH r' (N - len bs) (n + len bs)) as (w & e & r2 & E & Hw).
  - destruct bs; [exfalso; apply Read_some in Er; [done|lia]|]. rewrite len_cons in *.
    pose proof (len_nonneg bs). lia.
  - do 3 eexists. split; [exact E|lia].
Qed.

(** [CopyN] returns, and without an error only after exactly [n] bytes. *)
Lemma CopyN_some `{!Progress R} r n :
  0 <= n ->
  exists w e r', CopyN r n = Some (w, e, r') /\ (e = None -> w = n).
Proof.
  intros Hn. unfold CopyN.
  destruct (discardFrom_some (Z.to_nat n) r n 0) as (w & e & r' & E & Hw); [lia|]. rewrite E.
  destruct (w =? n) eqn:Ew; [do 3 eexists; split; done|]. bool_simp.
  destruct e as [e|]; [do 3 eexists; split; done|].
  replace (w <? n) with true by (symmetry; apply Z.ltb_lt; lia). do 3 eexists. split; done.
Qed.
End Readers.

(** ** Slices *)
Lemma take_split {A} (a b : nat) (l : list A) : take (a + b) l = take a l ++ take b (drop a l).
Proof.
  rewrite take_drop_commute. replace (take a l) with (take a (take (a + b) l)) by (rewrite take_take; f_equal; lia).
  by rewrite take_drop.
Qed.

Lemma slice_take s k i n : (i + n <= k)%nat -> slice (take k s) i n = slice s i n.
Proof. intros Hk. unfold slice. rewrite !take_drop_commute, take_take. do 2 f_equal. lia. Qed.

Lemma slice_app_l e r i n : (i + n <= length e)%nat -> slice (e ++ r) i n = slice e i n.
Proof. intros Hk. rewrite <- (slice_take _ (length e)) by done. by rewrite take_app_length. Qed.

Lemma slice_drop s k i n : slice (drop k s) i n = slice s (k + i) n.
Proof. unfold slice. by rewrite drop_drop. Qed.

Lemma slice_slice s k m i n : (i + n <= m)%nat -> slice (slice s k m) i n = slice s (k + i) n.
Proof. intros Hm. unfold slice at 2. rewrite slice_take by done. apply slice_drop. Qed.

Lemma length_slice s i n : (i + n <= length s)%nat -> length (slice s i n) = n.
Proof. intros Hn. unfold slice. rewrite length_take, length_drop. lia. Qed.

Lemma le_value_nonneg s : 0 <= le_value s.
Proof. induction s as [|b s IH]; cbn [le_value]; [lia|]. pose proof (bv_range b). lia. Qed.

Lemma le_value_bound s : le_value s < 256 ^ len s.
Proof.
  induction s as [|b s IH]; cbn [le_value]; [done|]. rewrite len_cons, Z.pow_add_r by (pose proof (len_nonneg s); lia).
  pose proof (bv_range b). change (256 ^ 1) with 256. lia.
Qed.

(** ** [PutUint64] and the like: the low [n] bytes, least significant first *)
Fixpoint le_bytes (n : nat) (z : Z) : gostring :=
  match n with O => [] | S k => vb z :: le_bytes k (z / 256) end.

Lemma length_le_bytes n z : length (le_bytes n z) = n.
Proof. revert z. induction n as [|n IH]; intros z; simpl; [done|]. by rewrite IH. Qed.

Lemma le_value_app s t : le_value (s ++ t) = le_value s + 256 ^ len s * le_value t.
Proof.
  induction s as [|b s IH]; cbn [le_value app]; [change (256 ^ len []) with 1; lia|].
  rewrite IH, len_cons, Z.pow_add_r by (pose proof (len_nonneg s); lia). change (256 ^ 1) with 256. lia.
Qed.

Lemma le_value_bytes n z : le_value (le_bytes n z) = z mod 256 ^ Z.of_nat n.
Proof.
  revert z. induction n as [|n IH]; intros z; cbn [le_bytes le_value]; [change (256 ^ Z.of_nat 0) with 1; by rewrite Z.mod_1_r|].
  rewrite IH, Nat2Z.inj_succ, Z.pow_succ_r by lia.
  rewrite Z.rem_mul_r by lia. unfold bv, vb. rewrite N_ascii_embedding.
  - rewrite Z2N.id; [done|]. apply Z.mod_pos_bound. lia.
  - pose proof (Z.mod_pos_bound z 256). lia.
Qed.

(** ** Byte streams

    A reader seen from [io.ReadFull]: the bytes it will deliver, in whatever
    portions, and the error after them. *)
Record Source := mkSource { avail : gostring; ending : ioerr }.

Definition short_error (s : Source) : ioerr :=
  match avail s, ending s with _ :: _, ioEOF => ioUnexpectedEOF | _, e => e end.

Definition read_full (r : Source) (n : nat) : result ioerr gostring * Source :=
  if (n <=? length (avail r))%nat then (Ok (take n (avail r)), mkSource (drop n (avail r)) (ending r))
  else (Err (short_error r), mkSource [] (ending r)).

(** [io.CopyN(io.Discard, r, n)], its results ignored. *)
Definition discard (r : Source) (n : nat) : Source := mkSource (drop n (avail r)) (ending r).

(** A writer: the bytes it took, and the fate of each [Write] to come: success, or an
    error after some bytes. *)
Record Sink := mkSink { sent : gostring; fates : list (option (nat * ioerr)) }.

Definition sink_Write (w : Sink) (p : gostring) : option ioerr * Sink :=
  match fates w with
  | [] => (None, mkSink (sent w ++ p) [])
  | None :: fs => (None, mkSink (sent w ++ p) fs)
  | Some (n, e) :: fs => (Some e, mkSink (sent w ++ take n p) fs)
  end.

Section Delivery.
Context {R : Type} `{HR : Reader R}.

(** A reader that behaves like a stream. *)
Class Delivers := {
  deliver : R -> Source;
  Read_deliver : forall r n bs e r', (0 < n)%nat -> Read r n = (bs, e, r') ->
    (length bs <= n)%nat /\ avail (deliver r) = bs ++ avail (deliver r') /\ ending (deliver r') = ending (deliver r) /\
    match e with
    | None => bs <> []
    | Some e => avail (deliver r') = [] /\ e = ending (deliver r)
    end
}.

Lemma ReadFull_stream `{!Delivers} fuel r need acc :
  (need - length acc <= fuel)%nat -> (length acc <= need)%nat ->
  let s := mkSource (acc ++ avail (deliver r)) (ending (deliver r)) in
  exists bs e r', ReadFull fuel r need acc = Some (bs, e, r') /\ deliver r' = snd (read_full s need) /\
    match fst (read_full s need) with
    | Ok x => bs = x /\ e = None
    | Err x => e = Some x
    end.
Proof.
  revert r acc. induction fuel as [|fuel IH]; intros r acc Hf Ha s.
  - assert (length acc = need) as <- by lia. cbn [ReadFull]. rewrite Nat.leb_refl. exists acc, None, r.
    split; [done|]. unfold read_full, s. cbn [avail ending]. rewrite length_app.
    replace (_ <=? _)%nat with true by (symmetry; apply Nat.leb_le; lia). cbn [fst snd].
    rewrite drop_app_length, take_app_length. by destruct (deliver r).
  - cbn [ReadFull]. destruct (need <=? length acc)%nat eqn:En.
    { apply Nat.leb_le in En. assert (length acc = need) as <- by lia. exists acc, None, r. split; [done|].
      unfold read_full, s. cbn [avail ending]. rewrite length_app.
      replace (_ <=? _)%nat with true by (symmetry; apply Nat.leb_le; lia). cbn [fst snd].
      rewrite drop_app_length, take_app_length. by destruct (deliver r). }
    apply Nat.leb_gt in En. destruct (Read r (need - length acc)) as [[bs e] r'] eqn:Er.
    apply Read_deliver in Er as (Hl & Hav & Hend & He); [|lia]. subst s.
    rewrite Hav, app_assoc, <- Hend. destruct e as [e|].
    + destruct He as [Hnil ->]. rewrite Hnil, app_nil_r, <- Hend. unfold read_full. cbn [avail ending].
      destruct (need <=? length (acc ++ bs))%nat eqn:Ew.
      * apply Nat.leb_le in Ew. rewrite length_app in Ew.
        exists (acc ++ bs), None, r'. split; [done|]. cbn [fst snd].
        rewrite drop_ge, take_ge by (rewrite length_app; lia). destruct (deliver r'); cbn in *. by subst.
      * exists (acc ++ bs), (Some (short_error (mkSource (acc ++ bs) (ending (deliver r'))))), r'.
        split; [unfold short_error; cbn [avail ending]; by destruct (acc ++ bs), (ending (deliver r'))|].
        cbn [fst snd]. split; [|done]. destruct (deliver r'); cbn in *. by subst.
    + apply IH; rewrite length_app; [destruct bs; [done|]; simpl; lia|lia].
Qed.
End Delivery.
Arguments Delivers R {HR}.

Lemma read_full_app bs rest e n :
  length bs = n -> read_full (mkSource (bs ++ rest) e) n = (Ok bs, mkSource rest e).
Proof.
  intros <-. unfold read_full. cbn [avail ending]. rewrite length_app.
  replace (_ <=? _)%nat with true by (symmetry; apply Nat.leb_le; lia).
  by rewrite take_app_length, drop_app_length.
Qed.

Lemma read_full_Ok r n bs r' :
  read_full r n = (Ok bs, r') -> length bs = n /\ r = mkSource (bs ++ avail r') (ending r').
Proof.
  unfold read_full. destruct (n <=? length (avail r))%nat eqn:E; [|done]. apply Nat.leb_le in E.
  intros [= <- <-]. cbn [avail ending]. rewrite length_take, take_drop. split; [lia|by destruct r].
Qed.
