(* ===== verification/RootPaths.v ===== *)
(** * Paths and nodes of the root filesystem loader: [modules/fakeshell/rootfs.go].

    What the tar, zip and directory loaders share: the resource caps, the
    validation of entry names ([cleanArchivePath]), the counter of materialized
    nodes ([nodeCounter]), the file modes they dispatch on and the writable
    filesystem ([OutFs], afero) they create nodes in.

    Proved: which names are accepted and what they are cleaned to, that cleaning
    twice changes nothing, and that the counter counts exactly the distinct
    nodes (entries and implicit parents) and fails exactly above the cap. *)
From Stdlib Require Import Ascii String ZArith Lia.
From stdpp Require Import base gmap strings list sets.
From S2P Require Import Prelude GoStrings GoPath Paths.
Local Open Scope Z_scope.

(** ** Caps *)
Definition MaxRootFSEntries : Z := 10000.
Definition MaxRootFSPathLen : Z := 512.
Definition MaxRootFSFileBodyBytes : Z := Z.shiftl 16 20.
Definition MaxRootFSTotalBodyBytes : Z := Z.shiftl 64 20.
Definition MaxRootFSTarStreamBytes : Z := MaxRootFSTotalBodyBytes + MaxRootFSEntries * 1024 + 1024.
Definition MaxRootFSZipCentralDirectoryBytes : Z := Z.shiftl 8 20.
Definition rootFSDirReadBatchSize : nat := 256.

(** ** Entry names *)

(** The loop over the bytes: the index of the first control character. *)
Fixpoint control_index (i : nat) (name : gostring) : option nat :=
  match name with
  | [] => None
  | b :: t => if path_control b then Some i else control_index (S i) t
  end.

Definition cleanArchivePath (name : gostring) : res gostring :=
  if name =s [] then Err (errors_New (go "empty path"))
  else if MaxRootFSPathLen <? len name then
    Err (errors_New (go "path length " ++ Itoa (len name) ++ go " exceeds MaxRootFSPathLen ("
                     ++ Itoa MaxRootFSPathLen ++ go ")"))
  else
    match control_index 0 name with
    | Some i => Err (errors_New (go "control character at index " ++ Itoa (Z.of_nat i)))
    | None =>
        if ContainsByte name chBS then Err (errors_New (go "backslash not allowed"))
        else if HasPrefix name [slash] then Err (errors_New (go "absolute path not allowed"))
        else if ContainsByte name ":"%char then Err (errors_New (go "colon not allowed"))
        else if existsb (fun seg => seg =s dotdot) (Split name slash) then
          Err (errors_New ([chDQ] ++ go ".." ++ [chDQ] ++ go " segment not allowed"))
        else
          let clean := Clean name in
          if clean =s dot then Ok clean
          else if HasPrefix clean [slash] || HasPrefix clean (go "../") || (clean =s dotdot) then
            Err (errors_New (go "cleaned path escapes root"))
          else Ok clean
    end.

Definition memPath (clean : gostring) : gostring :=
  if (clean =s []) || (clean =s dot) then [slash]
  else if HasPrefix clean [slash] then clean
  else slash :: clean.

(** [clean == "" || clean == "."]: the root, never materialized. *)
Definition is_root (clean : gostring) : bool := (clean =s []) || (clean =s dot).

(** ** The node counter *)
Record nodeCounter := mkNodeCounter { seen : gset gostring; count : Z }.
Definition newNodeCounter : nodeCounter := mkNodeCounter ∅ 0.

Definition next_cur (cur seg : gostring) : gostring :=
  if cur =s [] then seg else cur ++ [slash] ++ seg.

Definition errTooManyNodes : error :=
  errors_New (go "exceeds MaxRootFSEntries (" ++ Itoa MaxRootFSEntries ++ go ")").

(** The loop of [add] over the remaining segments. *)
Fixpoint add_parts (cur : gostring) (parts : list gostring) (nc : nodeCounter) : res nodeCounter :=
  match parts with
  | [] => Ok nc
  | seg :: parts =>
      if seg =s [] then add_parts cur parts nc
      else
        let cur := next_cur cur seg in
        if bool_decide (cur ∈ seen nc) then add_parts cur parts nc
        else
          let nc := mkNodeCounter ({[cur]} ∪ seen nc) (count nc + 1) in
          if MaxRootFSEntries <? count nc then Err errTooManyNodes
          else add_parts cur parts nc
  end.

Definition add (nc : nodeCounter) (clean : gostring) : res nodeCounter :=
  if is_root clean then Ok nc else add_parts [] (Split clean slash) nc.

(** ** File modes (package [os])

    A [FileMode] is a [uint32] of flags. *)
Definition ModeDir : Z := 2 ^ 31.
Definition ModeSymlink : Z := 2 ^ 27.
Definition ModeDevice : Z := 2 ^ 26.
Definition ModeNamedPipe : Z := 2 ^ 25.
Definition ModeSocket : Z := 2 ^ 24.
Definition ModeCharDevice : Z := 2 ^ 21.
Definition ModeIrregular : Z := 2 ^ 19.
Definition has_mode (mode flag : Z) : bool := negb (Z.land mode flag =? 0).
Definition mode_IsDir (mode : Z) : bool := has_mode mode ModeDir.
Definition ModeType : Z :=
  Z.lor ModeDir (Z.lor ModeSymlink (Z.lor ModeNamedPipe (Z.lor ModeSocket
    (Z.lor ModeDevice (Z.lor ModeCharDevice ModeIrregular))))).
Definition mode_IsRegular (mode : Z) : bool := Z.land mode ModeType =? 0.

(** [FileMode.String]. *)
Fixpoint mode_flags (bit : Z) (letters : gostring) (mode : Z) : gostring :=
  match letters with
  | [] => []
  | c :: t => (if Z.testbit mode bit then [c] else []) ++ mode_flags (bit - 1) t mode
  end.
Fixpoint mode_perms (bit : Z) (letters : gostring) (mode : Z) : gostring :=
  match letters with
  | [] => []
  | c :: t => (if Z.testbit mode bit then c else "-"%char) :: mode_perms (bit - 1) t mode
  end.
Definition mode_String (mode : Z) : gostring :=
  (match mode_flags 31 (go "dalTLDpSugct?") mode with [] => go "-" | fl => fl end)
    ++ mode_perms 8 (go "rwxrwxrwx") mode.

Definition rejectSpecial (mode : Z) (label : gostring) : res unit :=
  if has_mode mode ModeSymlink then Err (errors_New (label ++ go ": symlink not allowed"))
  else if has_mode mode ModeDevice then Err (errors_New (label ++ go ": device node not allowed"))
  else if has_mode mode ModeNamedPipe then Err (errors_New (label ++ go ": named pipe not allowed"))
  else if has_mode mode ModeSocket then Err (errors_New (label ++ go ": socket not allowed"))
  else if has_mode mode ModeIrregular then Err (errors_New (label ++ go ": irregular file not allowed"))
  else Ok tt.

(** ** The filesystem the loaders write (afero)

    Only the three calls the loaders make: no content is ever written.  The
    laws state what [MkdirAll] and [Create] of [afero.NewMemMapFs] do to the set
    of nodes (absolute names, the root excluded): the path and its missing
    parents come into being, nothing else. *)
Class OutFs (F : Type) := {
  fs_MkdirAll : F -> gostring -> res F;
  fs_Create : F -> gostring -> res F;
  fs_Close : F -> gostring -> res F
}.

(** The node set of an absolute path: itself and its ancestors below the root. *)
Definition abs_nodes (segs : list gostring) : gset gostring :=
  list_to_set (map (fun k => abs_path (take (S k) segs)) (seq 0 (length segs))).

Class OutFsLaws (F : Type) `{OutFs F} := {
  fs_nodes : F -> gset gostring;
  MkdirAll_nodes : forall f segs f', Forall good_seg segs ->
    fs_MkdirAll f (abs_path segs) = Ok f' -> fs_nodes f' = fs_nodes f ∪ abs_nodes segs;
  Create_nodes : forall f segs f', Forall good_seg segs ->
    fs_Create f (abs_path segs) = Ok f' -> fs_nodes f' = fs_nodes f ∪ abs_nodes segs;
  Close_nodes : forall f p f', fs_Close f p = Ok f' -> fs_nodes f' = fs_nodes f
}.

(** ** Names: lemmas *)

(** A name the loaders accept. *)
Definition archive_name (name : gostring) : Prop :=
  name <> [] /\ len name <= MaxRootFSPathLen /\ Forall path_byte name /\
  HasPrefix name [slash] = false /\ dotdot ∉ Split name slash.

(** What it is cleaned to. *)
Definition clean_rel (segs : list gostring) : gostring :=
  match segs with [] => dot | _ => Join segs [slash] end.

Lemma control_index_None i name :
  control_index i name = None <-> Forall (fun b => path_control b = false) name.
Proof.
  revert i. induction name as [|b t IH]; intros i; simpl; [done|].
  destruct (path_control b) eqn:E.
  - split; [done|]. intros Hf. inversion Hf. congruence.
  - rewrite IH, Forall_cons. tauto.
Qed.

Lemma path_bytes_split name :
  Forall path_byte name <->
  Forall (fun b => path_control b = false) name /\
  ContainsByte name chBS = false /\ ContainsByte name ":"%char = false.
Proof.
  rewrite <- !not_true_iff_false, !ContainsByte_spec.
  unfold path_byte. rewrite !Forall_forall. split.
  - intros Hf. split; [intros x Hx; by apply Hf|].
    split; intros Hin; apply Hf in Hin; naive_solver.
  - intros (H1 & H2 & H3) x Hx. split; [auto|]. split; intros ->; auto.
Qed.

Lemma real_segs_rel name :
  dotdot ∉ Split name slash -> Forall good_seg (real_segs (Split name slash)).
Proof. apply real_segs_good. Qed.

Lemma clean_rel_safe segs :
  Forall good_seg segs ->
  HasPrefix (clean_rel segs) [slash] || HasPrefix (clean_rel segs) (go "../")
    || (clean_rel segs =s dotdot) = false.
Proof.
  intros Hg. destruct segs as [|s segs]; [done|].
  assert (Hsp : Split (clean_rel (s :: segs)) slash = s :: segs).
  { apply Split_Join; [done|]. eapply Forall_impl; [exact Hg|]. intros x Hx. apply Hx. }
  apply Forall_cons in Hg as [(Hne & _ & Hdd & Hns) _].
  rewrite !orb_false_iff, <- !not_true_iff_false, HasPrefix_char, HasPrefix_spec, gos_eqb_eq.
  split; [split|].
  - intros [t Et]. rewrite Et, Split_cons_sep in Hsp. congruence.
  - intros [t Et]. rewrite Et in Hsp.
    change (go "../" ++ t) with (dotdot ++ (slash :: t)) in Hsp.
    rewrite Split_app in Hsp by (vm_compute; set_solver). congruence.
  - intros Et. rewrite Et, Split_nosep in Hsp by (vm_compute; set_solver). congruence.
Qed.

(** The decision of [cleanArchivePath], in both directions. *)
Lemma cleanArchivePath_spec name clean :
  cleanArchivePath name = Ok clean <->
  archive_name name /\ clean = clean_rel (real_segs (Split name slash)).
Proof.
  unfold cleanArchivePath, archive_name. rewrite path_bytes_split, <- (control_index_None 0).
  destruct (gos_eqb_spec name []) as [->|Hne]; [naive_solver|].
  destruct (MaxRootFSPathLen <? len name) eqn:El; bool_simp.
  { split; [done|]. intros [(_ & ? & _) _]. lia. }
  destruct (control_index 0 name) eqn:Ec; [naive_solver|].
  destruct (ContainsByte name chBS) eqn:Eb; [naive_solver|].
  destruct (HasPrefix name [slash]) eqn:Ep; [naive_solver|].
  destruct (ContainsByte name ":") eqn:Ecol; [naive_solver|].
  destruct (existsb _ _) eqn:Ed.
  { split; [done|]. intros [(_ & _ & _ & _ & Hd) _].
    apply existsb_dotdot in Hd. congruence. }
  apply existsb_dotdot in Ed.
  assert (Clean name = clean_rel (real_segs (Split name slash))) as ->.
  { rewrite (Clean_nodotdot _ Ed), Ep. by destruct (real_segs _). }
  rewrite (clean_rel_safe _ (real_segs_rel _ Ed)). cbv zeta.
  destruct (_ =s dot); naive_solver.
Qed.


(** Cleaning only drops bytes. *)
Lemma length_Join_real_segs segs :
  (length (Join (real_segs segs) [slash]) <= length (Join segs [slash]))%nat.
Proof.
  induction segs as [|s segs IH]; [done|]. unfold real_segs in *. rewrite filter_cons.
  destruct segs as [|s' segs'].
  { destruct (decide _); simpl; lia. }
  rewrite (Join_cons s (s' :: segs')) by done. rewrite !length_app. change (length [slash]) with 1%nat.
  destruct (decide _) as [Hk|_]; [|lia].
  destruct (base.filter _ (s' :: segs')) as [|k ks] eqn:E; [simpl; lia|].
  rewrite Join_cons by done. rewrite !length_app. change (length [slash]) with 1%nat. lia.
Qed.

Lemma clean_rel_Split segs :
  Forall good_seg segs -> segs <> [] -> Split (clean_rel segs) slash = segs.
Proof.
  intros Hg Hne. destruct segs; [done|]. apply Split_Join; [done|].
  eapply Forall_impl; [exact Hg|]. intros x Hx. apply Hx.
Qed.

Lemma clean_rel_bytes name :
  Forall path_byte name -> Forall path_byte (clean_rel (real_segs (Split name slash))).
Proof.
  intros Hb. unfold clean_rel. destruct (real_segs (Split name slash)) as [|s l] eqn:E.
  { repeat constructor; done. }
  rewrite <- E. apply Join_bytes; [apply path_byte_slash|].
  apply real_segs_bytes, Split_bytes, Hb.
Qed.

Lemma archive_name_length name :
  archive_name name -> len (clean_rel (real_segs (Split name slash))) <= MaxRootFSPathLen.
Proof.
  intros (Hne & Hlen & _). unfold clean_rel.
  pose proof (length_Join_real_segs (Split name slash)) as Hj. rewrite Join_Split in Hj.
  destruct (real_segs _); [done|]. unfold len in *. lia.
Qed.

Lemma archive_name_clean name :
  archive_name name -> archive_name (clean_rel (real_segs (Split name slash))).
Proof.
  intros Hn. pose proof Hn as (_ & _ & Hb & _ & Hd).
  pose proof (real_segs_rel _ Hd) as Hg.
  pose proof (clean_rel_safe _ Hg) as Hs. bool_simp.
  pose proof (archive_name_length _ Hn). pose proof (clean_rel_bytes _ Hb).
  destruct (real_segs (Split name slash)) as [|s l] eqn:E; [repeat split; try done; vm_compute; set_solver|].
  repeat split; try done.
  - intros Hc. pose proof (clean_rel_Split _ Hg) as Hsp. rewrite Hc in Hsp.
    apply Forall_cons in Hg as [[? _] _]. specialize (Hsp ltac:(done)). simpl in Hsp. by simplify_eq.
  - rewrite (clean_rel_Split _ Hg) by done. intros Hin.
    rewrite Forall_forall in Hg. by apply Hg in Hin as (_ & _ & ? & _).
Qed.

Lemma clean_rel_idem segs :
  Forall good_seg segs -> clean_rel (real_segs (Split (clean_rel segs) slash)) = clean_rel segs.
Proof.
  intros Hg. destruct segs as [|s l]; [done|].
  rewrite clean_rel_Split by done. by rewrite real_segs_id.
Qed.

Lemma is_root_clean_rel segs : Forall good_seg segs -> is_root (clean_rel segs) = bool_decide (segs = []).
Proof.
  intros Hg. destruct segs as [|s l]; [done|]. rewrite bool_decide_false by done.
  pose proof (clean_rel_Split _ Hg ltac:(done)) as Hsp.
  apply Forall_cons in Hg as [(Hne & Hd & _) _].
  apply orb_false_iff. rewrite !gos_eqb_neq. split; intros Hc; rewrite Hc in Hsp.
  - simpl in Hsp. by simplify_eq.
  - rewrite Split_nosep in Hsp by (vm_compute; set_solver). by simplify_eq.
Qed.

Lemma memPath_clean_rel segs : Forall good_seg segs -> memPath (clean_rel segs) = abs_path segs.
Proof.
  intros Hg. unfold memPath. fold (is_root (clean_rel segs)). rewrite is_root_clean_rel by done.
  destruct segs as [|s l]; [done|]. rewrite bool_decide_false by done.
  pose proof (clean_rel_safe _ Hg) as Hs. bool_simp. by rewrite H.
Qed.

(** An entry name is accepted exactly when it is non-empty, at most 512
    bytes, relative, without control characters, backslashes and colons and
    without a [..] segment; the accepted name is its real segments joined again,
    which is again acceptable, is its own cleaning and names a node strictly
    below the root or the root itself. *)
Lemma cleanArchivePath_correct name clean :
  cleanArchivePath name = Ok clean <->
  archive_name name /\
  exists segs, segs = real_segs (Split name slash) /\ Forall good_seg segs /\
    clean = clean_rel segs /\ len clean <= MaxRootFSPathLen /\
    cleanArchivePath clean = Ok clean /\
    memPath clean = abs_path segs.
Proof.
  rewrite cleanArchivePath_spec. split.
  - intros [Hn ->]. split; [done|]. eexists. split; [done|].
    pose proof Hn as (_ & _ & _ & _ & Hd). pose proof (real_segs_rel _ Hd) as Hg.
    split; [done|]. split; [done|]. split; [by apply archive_name_length|].
    split; [|by apply memPath_clean_rel].
    apply cleanArchivePath_spec. split; [by apply archive_name_clean|].
    by rewrite clean_rel_idem.
  - naive_solver.
Qed.

(** ** The counter: lemmas *)

(** The nodes an entry stands for: the path and its ancestors. *)
Fixpoint walk_nodes (cur : gostring) (parts : list gostring) : list gostring :=
  match parts with
  | [] => []
  | seg :: parts =>
      if seg =s [] then walk_nodes cur parts
      else next_cur cur seg :: walk_nodes (next_cur cur seg) parts
  end.
Definition path_nodes (clean : gostring) : gset gostring :=
  if is_root clean then ∅ else list_to_set (walk_nodes [] (Split clean slash)).

(** The counter holds exactly as many nodes as it says, never above the cap. *)
Definition counter_ok (nc : nodeCounter) : Prop :=
  count nc = Z.of_nat (size (seen nc)) /\ count nc <= MaxRootFSEntries.

Lemma newNodeCounter_ok : counter_ok newNodeCounter.
Proof. split; [done|]. vm_compute. discriminate. Qed.

Lemma add_parts_spec parts cur nc :
  counter_ok nc ->
  let nodes := seen nc ∪ list_to_set (walk_nodes cur parts) in
  match add_parts cur parts nc with
  | Ok nc' => counter_ok nc' /\ seen nc' = nodes
  | Err e => e = errTooManyNodes /\ MaxRootFSEntries < Z.of_nat (size nodes)
  end.
Proof.
  revert cur nc. induction parts as [|seg parts IH]; intros cur nc Hok; simpl.
  { split; [done|]. set_solver. }
  destruct (seg =s []); [by apply IH|].
  set (c := next_cur cur seg). simpl. destruct (bool_decide (c ∈ seen nc)) eqn:Es; bool_simp.
  { specialize (IH c nc Hok). simpl in IH.
    replace (seen nc ∪ ({[c]} ∪ list_to_set (walk_nodes c parts)))
      with (seen nc ∪ list_to_set (walk_nodes c parts) : gset gostring) by set_solver.
    exact IH. }
  destruct Hok as [Hc Hmax].
  assert (Hs : size ({[c]} ∪ seen nc) = S (size (seen nc))) 
    by (rewrite size_union by set_solver; by rewrite size_singleton).
  rewrite (assoc_L (∪)), (comm_L (∪) (seen nc) {[c]}).
  destruct (MaxRootFSEntries <? count nc + 1) eqn:Em; bool_simp.
  - split; [done|]. eapply Z.lt_le_trans; [exact Em|].
    rewrite Hc. apply (Z.le_trans _ (Z.of_nat (size ({[c]} ∪ seen nc)))); [lia|].
    apply inj_le, subseteq_size. set_solver.
  - specialize (IH c (mkNodeCounter ({[c]} ∪ seen nc) (count nc + 1))). simpl in IH.
    apply IH. split; simpl; lia.
Qed.

Lemma add_spec nc clean :
  counter_ok nc ->
  match add nc clean with
  | Ok nc' => counter_ok nc' /\ seen nc' = seen nc ∪ path_nodes clean
  | Err e => e = errTooManyNodes /\ MaxRootFSEntries < Z.of_nat (size (seen nc ∪ path_nodes clean))
  end.
Proof.
  intros Hok. unfold add, path_nodes. destruct (is_root clean); [split; [done|set_solver]|].
  by apply add_parts_spec.
Qed.

(** [nodeCounter.add] counts every distinct node an entry brings into being,
    its implicit parent directories included: it succeeds exactly when the
    entries so far together with this one stand for at most 10000 distinct nodes,
    and then its count is that number. *)
Lemma add_counts_nodes nc clean :
  counter_ok nc ->
  (forall nc', add nc clean = Ok nc' ->
     counter_ok nc' /\ seen nc' = seen nc ∪ path_nodes clean) /\
  ((exists nc', add nc clean = Ok nc') <->
     Z.of_nat (size (seen nc ∪ path_nodes clean)) <= MaxRootFSEntries).
Proof.
  intros Hok. pose proof (add_spec nc clean Hok) as Hs.
  destruct (add nc clean) as [nc'|e].
  - split; [intros ? [= <-]; exact Hs|]. destruct Hs as [[Hc Hm] Hs].
    rewrite <- Hs. split; [lia|]. by eexists.
  - split; [done|]. split; [intros [? ?]; done|]. lia.
Qed.

(** ** Nodes of a cleaned path, as keys of the filesystem *)
Lemma Join_snoc l s : l <> [] -> Join (l ++ [s]) [slash] = Join l [slash] ++ [slash] ++ s.
Proof.
  induction l as [|x l IH]; [done|]. intros _. destruct l as [|y l]; [done|].
  rewrite (Join_cons x (y :: l)) by done.
  change ((x :: y :: l) ++ [s]) with (x :: ((y :: l) ++ [s])).
  rewrite Join_cons by done. rewrite (IH ltac:(done)). by rewrite <- !app_assoc.
Qed.

Lemma next_cur_snoc pre s :
  Forall good_seg pre -> next_cur (Join pre [slash]) s = Join (pre ++ [s]) [slash].
Proof.
  intros Hg. unfold next_cur. destruct pre as [|x pre]; [done|].
  destruct (gos_eqb_spec (Join (x :: pre) [slash]) []) as [E|_].
  - apply Forall_cons in Hg as [[Hx _] _]. exfalso. destruct x as [|c x]; [done|].
    by rewrite Join_cons_char in E.
  - by rewrite Join_snoc.
Qed.

Lemma walk_nodes_good pre parts :
  Forall good_seg pre -> Forall good_seg parts ->
  walk_nodes (Join pre [slash]) parts =
    map (fun k => Join (pre ++ take (S k) parts) [slash]) (seq 0 (length parts)).
Proof.
  revert pre. induction parts as [|s parts IH]; intros pre Hpre Hp; [done|].
  apply Forall_cons in Hp as [Hs Hp]. cbn [walk_nodes length seq map].
  destruct (gos_eqb_spec s []) as [->|_]; [by destruct Hs|].
  rewrite next_cur_snoc by done. f_equal.
  rewrite IH by (try done; apply Forall_app; auto).
  rewrite <- seq_shift, map_map. apply map_ext. intros k.
  by rewrite <- app_assoc.
Qed.

Lemma path_nodes_clean_rel segs :
  Forall good_seg segs ->
  set_map (cons slash) (path_nodes (clean_rel segs)) = abs_nodes segs.
Proof.
  intros Hg. unfold path_nodes, abs_nodes. rewrite is_root_clean_rel by done.
  destruct segs as [|s l]; [done|]. rewrite bool_decide_false by done.
  rewrite clean_rel_Split by done.
  change (walk_nodes [] (s :: l)) with (walk_nodes (Join [] [slash]) (s :: l)).
  rewrite walk_nodes_good by done.
  apply set_eq. intros x. rewrite elem_of_map, elem_of_list_to_set, list_elem_of_In, in_map_iff.
  setoid_rewrite elem_of_list_to_set. setoid_rewrite list_elem_of_In. setoid_rewrite in_map_iff.
  unfold abs_path. split.
  - intros (y & -> & k & <- & Hk). by exists k.
  - intros (k & <- & Hk). eexists. split; [done|]. by exists k.
Qed.
