(* ===== verification/RootTar.v ===== *)
(** * The tar loader of the root filesystem: [modules/fakeshell/rootfs.go].

    Readers are stacked the way the code stacks them: the source (the embedded
    archive or an open file) under a [peekReader], under [gzip.Reader] when the
    magic says so, under a [limitedRootFSTarReader], under [tar.Reader].  A
    reader is a state with a [Read] ([Reader]); the packages archive/tar and
    compress/gzip are interfaces over any reader ([TarLib], [GzipLib]).

    The loops that read until enough bytes came have no bound of their own in
    the code; here they carry fuel and answer [None] when it runs out, and it is
    proved that they never do over readers that make progress. *)
From Stdlib Require Import Ascii String ZArith Lia.
From stdpp Require Import base gmap strings list sets.
From S2P Require Import Prelude GoStrings GoPath Paths GoIO RootPaths.
Local Open Scope Z_scope.

(** ** Readers *)

(** A fuelled computation that can fail: [None] is out of fuel. *)
Definition bindOR {A B} (m : option (res A)) (f : A -> option (res B)) : option (res B) :=
  match m with
  | None => None
  | Some (Err e) => Some (Err e)
  | Some (Ok a) => f a
  end.
Declare Scope fuel_scope.
Notation "x '←?' m ; k" := (bindOR m (fun x => k))
  (at level 20, m at level 100, k at level 200, right associativity) : fuel_scope.
Local Open Scope fuel_scope.

Section Readers.
Context {R : Type} `{Reader R}.

(** *** [peekReader] *)
Record peekReader := mkPeekReader { src : R; peeked : gostring }.
Definition newPeekReader (r : R) : peekReader := mkPeekReader r [].

(** [buf] has 16 bytes. *)
Definition peekN (p : peekReader) (n : nat) : option ((gostring * option ioerr) * peekReader) :=
  let n := Nat.min n 16 in
  if (n <=? length (peeked p))%nat then Some (take n (peeked p), None, p)
  else
    let need := (n - length (peeked p))%nat in
    match ReadFull need (src p) need [] with
    | None => None
    | Some (bs, err, r) =>
        let p := mkPeekReader r (peeked p ++ bs) in
        match err with
        | Some (ioErr e) => Some (peeked p, Some (ioErr e), p)
        | _ => Some (peeked p, None, p)
        end
    end.

#[global] Instance peekReader_Read : Reader peekReader := fun p n =>
  match peeked p with
  | [] => let '(bs, e, r) := Read (src p) n in (bs, e, mkPeekReader r (peeked p))
  | pk => (take n pk, None, mkPeekReader (src p) (drop n pk))
  end.

(** *** [limitedRootFSTarReader] *)
Record limitedRootFSTarReader := mkLimited { lr : R; lread : Z; maxRead : Z }.
Definition newLimitedRootFSTarReader (r : R) : limitedRootFSTarReader :=
  mkLimited r 0 MaxRootFSTarStreamBytes.

Definition errTarStream (l : limitedRootFSTarReader) : error :=
  errors_New (go "exceeds MaxRootFSTarStreamBytes (" ++ Itoa (maxRead l)
              ++ go ") decompressed tar stream bytes").

#[global] Instance limited_Read : Reader limitedRootFSTarReader := fun l n =>
  if maxRead l <=? lread l then ([], Some (ioErr (errTarStream l)), l)
  else
    let '(bs, err, r) := Read (lr l) n in
    let l := mkLimited r (lread l + len bs) (maxRead l) in
    if maxRead l <? lread l then (bs, Some (ioErr (errTarStream l)), l)
    else (bs, err, l).
End Readers.
Arguments peekReader : clear implicits.
Arguments limitedRootFSTarReader : clear implicits.

(** ** archive/tar and compress/gzip *)
Record tarHeader := mkTarHeader { hdr_Name : gostring; hdr_Typeflag : ascii; hdr_Size : Z }.

Class TarLib := {
  tarState : Type;
  tar_NewReader : tarState;
  tar_Next : forall R, Reader R -> tarState -> R -> (tarHeader + ioerr) * tarState * R;
  tar_Read : forall R, Reader R -> tarState -> R -> nat -> (gostring * option ioerr) * tarState * R
}.

Class GzipLib := {
  gzState : Type;
  gzip_NewReader : forall R, Reader R -> R -> res gzState * R;
  gzip_Read : forall R, Reader R -> gzState -> R -> nat -> (gostring * option ioerr) * gzState * R
}.

Section Libraries.
Context {R : Type} `{Reader R} `{TarLib} `{GzipLib}.

Record tarReader := mkTarReader { tar_state : tarState; tar_src : R }.
#[global] Instance tarReader_Read : Reader tarReader := fun t n =>
  let '(bs, e, s, r) := tar_Read R _ (tar_state t) (tar_src t) n in (bs, e, mkTarReader s r).
Definition Next (t : tarReader) : (tarHeader + ioerr) * tarReader :=
  let '(h, s, r) := tar_Next R _ (tar_state t) (tar_src t) in (h, mkTarReader s r).

Record gzipReader := mkGzipReader { gz_state : gzState; gz_src : R }.
#[global] Instance gzipReader_Read : Reader gzipReader := fun g n =>
  let '(bs, e, s, r) := gzip_Read R _ (gz_state g) (gz_src g) n in (bs, e, mkGzipReader s r).
End Libraries.
Arguments tarReader R {_}.
Arguments gzipReader R {_}.

(** Type flags of archive/tar. *)
Definition TypeReg : ascii := "0".
Definition TypeRegA : ascii := chNUL.
Definition TypeLink : ascii := "1".
Definition TypeSymlink : ascii := "2".
Definition TypeChar : ascii := "3".
Definition TypeBlock : ascii := "4".
Definition TypeDir : ascii := "5".
Definition TypeFifo : ascii := "6".
Definition TypeCont : ascii := "7".
Definition TypeXHeader : ascii := "x".
Definition TypeXGlobalHeader : ascii := "g".
Definition TypeGNUSparse : ascii := "S".
Definition TypeGNULongName : ascii := "L".
Definition TypeGNULongLink : ascii := "K".

(** ** Draining a body *)
Section Drain.
Context {R : Type} `{Reader R} `{UnicodeTables}.

(** The name of the archive and the entry in a message. *)
Definition at_drain (name clean : gostring) : gostring := name ++ go ": drain " ++ Quote clean ++ go ": ".

(** The new [*total] and the reader after the body. *)
Definition drainTarBody (name clean : gostring) (tr : R) (size total : Z) : option (res (Z * R)) :=
  if size <? 0 then
    Some (Err (errors_New (at_drain name clean ++ go "negative size " ++ Itoa size)))
  else if size =? 0 then Some (Ok (total, tr))
  else if MaxRootFSFileBodyBytes <? size then
    Some (Err (errors_New (at_drain name clean ++ go "body size " ++ Itoa size
      ++ go " exceeds MaxRootFSFileBodyBytes (" ++ Itoa MaxRootFSFileBodyBytes ++ go ")")))
  else if MaxRootFSTotalBodyBytes <? total + size then
    Some (Err (errors_New (at_drain name clean ++ go "cumulative body bytes " ++ Itoa total ++ go "+"
      ++ Itoa size ++ go " would exceed MaxRootFSTotalBodyBytes ("
      ++ Itoa MaxRootFSTotalBodyBytes ++ go ")")))
  else
    match CopyN tr size with
    | None => None
    | Some (n, err, tr) =>
        let short := at_drain name clean ++ go "short read (" ++ Itoa n ++ go "/" ++ Itoa size ++ go " bytes)" in
        match err with
        | Some e => Some (Err (ioerr_wrap (short ++ go ": ") e))
        | None =>
            if negb (n =? size) then Some (Err (errors_New short))
            else Some (Ok (total + n, tr))
        end
    end.
End Drain.

(** ** Creating nodes *)
Section Materialize.
Context {F : Type} `{OutFs F} `{UnicodeTables}.

(** [count.add], then [MkdirAll]: a directory entry. *)
Definition make_dir (name clean : gostring) (out : F) (nc : nodeCounter) : res (F * nodeCounter) :=
  match add nc clean with
  | Err e => Err (errors_wrap (name ++ go ": ") e)
  | Ok nc =>
      match fs_MkdirAll out (memPath clean) with
      | Err e => Err (errors_wrap (name ++ go ": mkdir " ++ Quote clean ++ go ": ") e)
      | Ok out => Ok (out, nc)
      end
  end.

(** [count.add], then [Create] and [Close]: a regular file, without content. *)
Definition make_file (name clean : gostring) (out : F) (nc : nodeCounter) : res (F * nodeCounter) :=
  match add nc clean with
  | Err e => Err (errors_wrap (name ++ go ": ") e)
  | Ok nc =>
      match fs_Create out (memPath clean) with
      | Err e => Err (errors_wrap (name ++ go ": create " ++ Quote clean ++ go ": ") e)
      | Ok out =>
          match fs_Close out (memPath clean) with
          | Err e => Err (errors_wrap (name ++ go ": close " ++ Quote clean ++ go ": ") e)
          | Ok out => Ok (out, nc)
          end
      end
  end.
End Materialize.

(** ** The loop over the headers *)
Section TarLoop.
Context {F R : Type} `{OutFs F} `{Reader R} `{TarLib} `{UnicodeTables}.

Record tarLoop := mkTarLoop {
  tl_out : F; tl_count : nodeCounter; rawHeaders : Z; totalBodyBytes : Z; tl_tr : tarReader R
}.

Definition at_entry (name entry : gostring) : gostring := name ++ go ": entry " ++ Quote entry ++ go ": ".
Definition entry_error {A} (name entry : gostring) (what : gostring) : option (res A) :=
  Some (Err (errors_New (at_entry name entry ++ what))).

Definition nodes_set (st : tarLoop) (m : F * nodeCounter) : tarLoop :=
  mkTarLoop m.1 m.2 (rawHeaders st) (totalBodyBytes st) (tl_tr st).

(** The [switch] on the type of a header whose name is cleaned. *)
Definition tar_switch (name : gostring) (hdr : tarHeader) (clean : gostring) (st : tarLoop)
  : option (res tarLoop) :=
  let flag := hdr_Typeflag hdr in
  let ty c := flag =c c in
  if ty TypeDir then
    if is_root clean then Some (Ok st)
    else (m ←? Some (make_dir name clean (tl_out st) (tl_count st)); Some (Ok (nodes_set st m)))
  else if ty TypeReg || ty TypeRegA then
    d ←? drainTarBody name clean (tl_tr st) (hdr_Size hdr) (totalBodyBytes st);
    let st := mkTarLoop (tl_out st) (tl_count st) (rawHeaders st) d.1 d.2 in
    if is_root clean then Some (Ok st)
    else (m ←? Some (make_file name clean (tl_out st) (tl_count st)); Some (Ok (nodes_set st m)))
  else if ty TypeSymlink || ty TypeLink then
    entry_error name (hdr_Name hdr) (go "symlink/hardlink not allowed")
  else if ty TypeChar || ty TypeBlock then
    entry_error name (hdr_Name hdr) (go "device node not allowed")
  else if ty TypeFifo then entry_error name (hdr_Name hdr) (go "fifo not allowed")
  else if ty TypeCont then entry_error name (hdr_Name hdr) (go "reserved type not allowed")
  else if ty TypeGNUSparse then entry_error name (hdr_Name hdr) (go "sparse file not allowed")
  else if ty TypeXHeader || ty TypeXGlobalHeader || ty TypeGNULongName || ty TypeGNULongLink then
    Some (Ok st)
  else
    entry_error name (hdr_Name hdr) (go "unsupported tar type " ++ Quote (EncodeRune (bv flag))).

(** One header: counted, its name cleaned, dispatched. *)
Definition tar_entry (name : gostring) (hdr : tarHeader) (st : tarLoop) : option (res tarLoop) :=
  let raw := rawHeaders st + 1 in
  if MaxRootFSEntries <? raw then
    Some (Err (errors_New (name ++ go ": exceeds MaxRootFSEntries (" ++ Itoa MaxRootFSEntries
                           ++ go ") raw tar headers")))
  else
    let st := mkTarLoop (tl_out st) (tl_count st) raw (totalBodyBytes st) (tl_tr st) in
    match cleanArchivePath (hdr_Name hdr) with
    | Err e => Some (Err (errors_wrap (at_entry name (hdr_Name hdr)) e))
    | Ok clean => tar_switch name hdr clean st
    end.

Fixpoint tar_loop (fuel : nat) (name : gostring) (st : tarLoop) : option (res tarLoop) :=
  match fuel with
  | O => None
  | S fuel =>
      let '(next, tr) := Next (tl_tr st) in
      let st := mkTarLoop (tl_out st) (tl_count st) (rawHeaders st) (totalBodyBytes st) tr in
      match next with
      | inr ioEOF => Some (Ok st)
      | inr e => Some (Err (ioerr_wrap (name ++ go ": tar read: ") e))
      | inl hdr => st ←? tar_entry name hdr st; tar_loop fuel name st
      end
  end.

(** The loop ends after at most this many calls of [Next]. *)
Definition tar_fuel : nat := Z.to_nat (MaxRootFSEntries + 1).

Definition tar_load (out : F) (name : gostring) (tr : tarReader R) : option (res F) :=
  st ←? tar_loop tar_fuel name (mkTarLoop out newNodeCounter 0 0 tr); Some (Ok (tl_out st)).
End TarLoop.
Arguments tarLoop F R {_}.

Section LoadReader.
Context {F R : Type} `{OutFs F} `{Reader R} `{TarLib} `{GzipLib} `{UnicodeTables}.

Definition is_gzip (magic : gostring) : bool :=
  match magic with
  | a :: b :: _ => (bv a =? 31) && (bv b =? 139)
  | _ => false
  end.

Definition loadRootFSFromReader (out : F) (name : gostring) (r : R) : option (res F) :=
  match peekN (newPeekReader r) 2 with
  | None => None
  | Some (magic, err, br) =>
      match err with
      | Some (ioErr e) => Some (Err (errors_wrap (name ++ go ": read magic: ") e))
      | Some ioUnexpectedEOF => Some (Err (ioerr_wrap (name ++ go ": read magic: ") ioUnexpectedEOF))
      | _ =>
          if is_gzip magic then
            match gzip_NewReader (peekReader R) _ br with
            | (Err e, _) => Some (Err (errors_wrap (name ++ go ": gzip header: ") e))
            | (Ok g, br) =>
                tar_load out name
                  (mkTarReader tar_NewReader (newLimitedRootFSTarReader (mkGzipReader g br)))
            end
          else
            tar_load out name (mkTarReader tar_NewReader (newLimitedRootFSTarReader br))
      end
  end.
End LoadReader.

(** ** Readers: lemmas *)
Section ReaderLemmas.
Context {R : Type} `{HR : Reader R}.

#[export] Instance peekReader_Progress `{!Progress R} : Progress (peekReader R).
Proof.
  split; intros [r pk] n.
  - intros bs e r'. unfold Read, peekReader_Read. cbn [peeked src]. destruct pk.
    + destruct (Read r n) as [[b1 e1] r1] eqn:Er. intros [= <- <- <-]. by eapply Read_le.
    + intros [= <- _ _]. rewrite length_take. lia.
  - intros e r'. unfold Read, peekReader_Read. cbn [peeked src]. destruct pk.
    + destruct (Read r n) as [[b1 e1] r1] eqn:Er. intros [= -> <- <-]. by eapply Read_some.
    + destruct n; [lia|done].
Qed.

#[export] Instance limited_Progress `{!Progress R} : Progress (limitedRootFSTarReader R).
Proof.
  split; intros l n.
  - intros bs e l'. unfold Read, limited_Read.
    destruct (_ <=? _); [intros [= <- _ _]; simpl; lia|].
    destruct (Read (lr l) n) as [[b1 e1] r1] eqn:Er. apply Read_le in Er.
    destruct (_ <? _); intros [= <- _ _]; done.
  - intros e l'. unfold Read, limited_Read.
    destruct (_ <=? _); [by intros [= <- _]|].
    destruct (Read (lr l) n) as [[b1 e1] r1] eqn:Er.
    destruct (_ <? _); intros [= -> <- _]; [done|]. by eapply Read_some.
Qed.

(** *** Peeking consumes nothing *)
Definition peek_rest `{!Contents} (p : peekReader R) : gostring := peeked p ++ rest (src p).

Lemma peekN_spec `{!Progress R} `{!Contents} p n :
  exists bs e p', peekN p n = Some (bs, e, p') /\ peek_rest p' = peek_rest p /\
    bs `prefix_of` peek_rest p /\ e <> Some ioEOF /\ e <> Some ioUnexpectedEOF.
Proof.
  unfold peekN. cbv zeta. destruct (_ <=? _)%nat.
  { do 3 eexists. split; [done|]. split; [done|]. split; [|done].
    exists (drop (Nat.min n 16) (peeked p) ++ rest (src p)).
    unfold peek_rest. by rewrite app_assoc, take_drop. }
  set (need := (_ - _)%nat).
  destruct (ReadFull_some need (src p) need []) as [[[bs e] r'] Er]; [simpl; lia|].
  rewrite Er. apply ReadFull_rest in Er. simpl in Er.
  assert (Hp : peek_rest (mkPeekReader r' (peeked p ++ bs)) = peek_rest p).
  { unfold peek_rest. simpl. by rewrite <- app_assoc, Er. }
  assert (Hb : peeked p ++ bs `prefix_of` peek_rest p).
  { exists (rest r'). by rewrite <- Hp. }
  destruct e as [[]|]; do 3 eexists; (split; [done|]; split; [exact Hp|]; split; [exact Hb|done]).
Qed.

(** *** The limit on the decompressed stream *)

(** The answers to a sequence of reads. *)
Fixpoint reads {S} `{Reader S} (s : S) (ns : list nat) : list (gostring * option ioerr) :=
  match ns with
  | [] => []
  | n :: ns => let '(a, s) := Read s n in a :: reads s ns
  end.

Definition over_limit (l : limitedRootFSTarReader R) (a : gostring * option ioerr) : Prop :=
  a.2 = Some (ioErr (errTarStream l)).
Definition delivered (l : list (gostring * option ioerr)) : Z :=
  foldr (fun a acc => len a.1 + acc) 0 l.

Lemma reads_exhausted l ns :
  maxRead l <= lread l ->
  Forall (fun a => a = ([], Some (ioErr (errTarStream l)))) (reads l ns).
Proof.
  intros Hl. induction ns as [|n ns IH]; cbn [reads]; [done|].
  unfold Read, limited_Read at 1. rewrite (proj2 (Z.leb_le _ _) Hl). by constructor.
Qed.

(** However the tar package reads, the bytes of the decompressed stream it
    gets without the cap error add up to at most the cap; once the cap error
    was given, every later read gives it again, with no bytes and without
    touching the stream. *)
Lemma limited_reader_caps l ns :
  0 <= lread l -> lread l <= maxRead l ->
  exists good bad, reads l ns = good ++ bad /\
    lread l + delivered good <= maxRead l /\
    match bad with
    | [] => True
    | first :: later => over_limit l first /\ Forall (fun a => a = ([], Some (ioErr (errTarStream l)))) later
    end.
Proof.
  revert l. induction ns as [|n ns IH]; intros l H0 Hle; cbn [reads].
  { exists [], []. simpl. split; [done|]. split; [lia|done]. }
  unfold Read at 1, limited_Read at 1.
  destruct (maxRead l <=? lread l) eqn:Em; bool_simp.
  { exists [], (([], Some (ioErr (errTarStream l))) :: reads l ns).
    split; [done|]. split; [simpl; lia|]. split; [done|]. by apply reads_exhausted. }
  destruct (Read (lr l) n) as [[bs err] r'] eqn:Er.
  set (l' := mkLimited r' _ _).
  assert (Ee : errTarStream l' = errTarStream l) by done.
  change (maxRead l') with (maxRead l). change (lread l') with (lread l + len bs).
  destruct (maxRead l <? lread l + len bs) eqn:Eo; bool_simp.
  { exists [], ((bs, Some (ioErr (errTarStream l'))) :: reads l' ns).
    split; [done|]. split; [simpl; lia|]. split; [done|].
    rewrite <- Ee. apply reads_exhausted. simpl. lia. }
  destruct (IH l') as (good & bad & Eq & Hd & Hbad); [pose proof (len_nonneg bs); simpl; lia|done|].
  exists ((bs, err) :: good), bad. rewrite Eq. split; [done|]. split; [|exact Hbad].
  simpl in *. lia.
Qed.
End ReaderLemmas.

(** ** Draining: lemmas *)
Section DrainLemmas.
Context {R : Type} `{HR : Reader R} `{!Progress R} `{UnicodeTables}.

(** What is read of a body: nothing of an empty one, otherwise all of it. *)
Definition body_read (size : Z) (tr tr' : R) : Prop :=
  if size =? 0 then tr' = tr else CopyN tr size = Some (size, None, tr').

Lemma drainTarBody_spec name clean tr size total :
  0 <= total ->
  exists o, drainTarBody name clean tr size total = Some o /\
    forall total' tr', o = Ok (total', tr') <->
      0 <= size <= MaxRootFSFileBodyBytes /\ (size = 0 \/ total + size <= MaxRootFSTotalBodyBytes) /\
      total' = total + size /\ body_read size tr tr'.
Proof.
  intros Ht. unfold drainTarBody, body_read.
  destruct (size <? 0) eqn:E1; bool_simp; [eexists; split; [done|]; split; [done|lia]|].
  destruct (size =? 0) eqn:E2; bool_simp.
  { eexists. split; [done|]. intros total' tr'. subst size.
    assert (0 <= MaxRootFSFileBodyBytes) by (vm_compute; discriminate).
    split; [intros [= <- <-]; repeat split; auto; lia|]. intros (_ & _ & -> & ->). do 2 f_equal. lia. }
  destruct (MaxRootFSFileBodyBytes <? size) eqn:E3; bool_simp;
    [eexists; split; [done|]; split; [done|lia]|].
  destruct (MaxRootFSTotalBodyBytes <? total + size) eqn:E4; bool_simp;
    [eexists; split; [done|]; split; [done|lia]|].
  destruct (CopyN_some tr size ltac:(lia)) as (w & e & r' & E & Hw). rewrite E.
  destruct e as [e|].
  { eexists. split; [done|]. intros total' tr'. split; [done|]. naive_solver. }
  rewrite (Hw eq_refl), Z.eqb_refl. eexists. split; [done|]. intros total' tr'. simpl.
  split; [intros [= <- <-]; repeat split; auto; lia|]. intros (_ & _ & -> & [= <-]). done.
Qed.
End DrainLemmas.

(** ** Nodes: the filesystem holds exactly what the counter counted *)
Section NodeLemmas.
Context {F : Type} `{HF : OutFs F} `{!OutFsLaws F} `{UnicodeTables}.

Definition nodes_match (m : F * nodeCounter) : Prop :=
  counter_ok m.2 /\ fs_nodes m.1 = set_map (cons slash) (seen m.2).

Lemma nodes_match_make out nc name clean nc' out' (op : F -> gostring -> res F) :
  (forall f segs f', Forall good_seg segs -> op f (abs_path segs) = Ok f' ->
     fs_nodes f' = fs_nodes f ∪ abs_nodes segs) ->
  cleanArchivePath name = Ok clean -> nodes_match (out, nc) ->
  add nc clean = Ok nc' -> op out (memPath clean) = Ok out' ->
  nodes_match (out', nc') /\ seen nc' = seen nc ∪ path_nodes clean.
Proof.
  intros Hop Hc [Hok Hn] Ha Ho. simpl in *.
  apply cleanArchivePath_spec in Hc as [(_ & _ & _ & _ & Hd) ->].
  pose proof (real_segs_rel _ Hd) as Hg.
  pose proof (add_spec nc (clean_rel (real_segs (Split name slash))) Hok) as Hs.
  rewrite Ha in Hs. destruct Hs as [Hok' Hs]. split; [|done]. split; [done|]. simpl.
  rewrite memPath_clean_rel in Ho by done. rewrite (Hop _ _ _ Hg Ho), Hn, Hs.
  rewrite <- path_nodes_clean_rel by done. by rewrite set_map_union_L.
Qed.

Lemma make_dir_nodes name entry clean out nc m :
  cleanArchivePath entry = Ok clean -> nodes_match (out, nc) ->
  make_dir name clean out nc = Ok m ->
  nodes_match m /\ seen m.2 = seen nc ∪ path_nodes clean.
Proof.
  intros Hc Hn. unfold make_dir. destruct (add nc clean) as [nc'|] eqn:Ea; [|done].
  destruct (fs_MkdirAll _ _) as [out'|] eqn:Eo; [|done]. intros [= <-].
  eapply nodes_match_make; eauto. apply MkdirAll_nodes.
Qed.

Lemma make_file_nodes name entry clean out nc m :
  cleanArchivePath entry = Ok clean -> nodes_match (out, nc) ->
  make_file name clean out nc = Ok m ->
  nodes_match m /\ seen m.2 = seen nc ∪ path_nodes clean.
Proof.
  intros Hc Hn. unfold make_file. destruct (add nc clean) as [nc'|] eqn:Ea; [|done].
  destruct (fs_Create _ _) as [out1|] eqn:Eo; [|done].
  destruct (fs_Close _ _) as [out'|] eqn:Ecl; [|done]. intros [= <-].
  apply Close_nodes in Ecl.
  destruct (nodes_match_make out nc entry clean nc' out1 fs_Create) as [[? Hs] ?]; eauto using Create_nodes.
  split; [|done]. split; [done|]. simpl in *. by rewrite Ecl.
Qed.

(** A filesystem whose operations do not fail ([afero.NewMemMapFs] on cleaned
    paths). *)
Definition fs_accepts : Prop :=
  forall (f : F) p, is_ok (fs_MkdirAll f p) && is_ok (fs_Create f p) && is_ok (fs_Close f p) = true.

Lemma is_ok_inv {E A} (r : result E A) : is_ok r = true -> exists a, r = Ok a.
Proof. destruct r; [by eexists|done]. Qed.

Lemma add_accepts nc clean :
  counter_ok nc -> Z.of_nat (size (seen nc ∪ path_nodes clean)) <= MaxRootFSEntries ->
  exists nc', add nc clean = Ok nc'.
Proof.
  intros Hok Hs. pose proof (add_spec nc clean Hok) as Ha. destruct (add nc clean); [by eexists|lia].
Qed.

Lemma make_accepts name clean (out : F) nc :
  fs_accepts -> counter_ok nc ->
  Z.of_nat (size (seen nc ∪ path_nodes clean)) <= MaxRootFSEntries ->
  (exists m, make_dir name clean out nc = Ok m) /\ (exists m, make_file name clean out nc = Ok m).
Proof.
  intros Hfs Hok Hs. destruct (add_accepts _ _ Hok Hs) as [nc' Ea].
  unfold make_dir, make_file. rewrite Ea.
  pose proof (Hfs out (memPath clean)) as Hf. bool_simp.
  destruct (is_ok_inv (fs_MkdirAll out (memPath clean))) as [o1 ->]; [done|].
  destruct (is_ok_inv (fs_Create out (memPath clean))) as [o2 ->]; [done|].
  pose proof (Hfs o2 (memPath clean)) as Hf2. bool_simp.
  destruct (is_ok_inv (fs_Close o2 (memPath clean))) as [o3 ->]; [done|].
  split; by eexists.
Qed.
End NodeLemmas.

(** ** Specification: which archives load, and to what *)
Definition directory (h : tarHeader) : bool := hdr_Typeflag h =c TypeDir.
Definition regular (h : tarHeader) : bool :=
  (hdr_Typeflag h =c TypeReg) || (hdr_Typeflag h =c TypeRegA).
Definition metadata (h : tarHeader) : bool :=
  (hdr_Typeflag h =c TypeXHeader) || (hdr_Typeflag h =c TypeXGlobalHeader)
  || (hdr_Typeflag h =c TypeGNULongName) || (hdr_Typeflag h =c TypeGNULongLink).

Definition entry_ok (h : tarHeader) : Prop :=
  is_ok (cleanArchivePath (hdr_Name h)) = true /\
  directory h || regular h || metadata h = true /\
  (regular h = true -> 0 <= hdr_Size h <= MaxRootFSFileBodyBytes).

Definition entry_nodes (h : tarHeader) : gset gostring :=
  match cleanArchivePath (hdr_Name h) with
  | Ok clean => if directory h || regular h then path_nodes clean else ∅
  | Err _ => ∅
  end.
Definition entry_bytes (h : tarHeader) : Z := if regular h then hdr_Size h else 0.

Definition tree (hs : list tarHeader) : gset gostring := ⋃ (map entry_nodes hs).
Definition body_bytes (hs : list tarHeader) : Z := foldr (fun h acc => entry_bytes h + acc) 0 hs.

Section TarSpec.
Context {F R : Type} `{HF : OutFs F} `{!OutFsLaws F} `{HR : Reader R} `{HT : TarLib} `{UnicodeTables}.
Context `{HP : !Progress (tarReader R)}.

Definition entry_body (h : tarHeader) (tr tr' : tarReader R) : Prop :=
  if regular h then body_read (hdr_Size h) tr tr' else tr' = tr.

(** The headers the tar package yields, the bodies of regular files being
    skipped in between. *)
Inductive TarEntries : tarReader R -> list tarHeader -> Prop :=
| TE_end tr tr' : Next tr = (inr ioEOF, tr') -> TarEntries tr []
| TE_entry tr h tr' tr'' hs :
    Next tr = (inl h, tr') -> entry_body h tr' tr'' -> TarEntries tr'' hs ->
    TarEntries tr (h :: hs).

Definition loop_ok (st : tarLoop F R) : Prop :=
  nodes_match (tl_out st, tl_count st) /\ 0 <= totalBodyBytes st <= MaxRootFSTotalBodyBytes.

(** What a header that is accepted did. *)
Record entry_done (h : tarHeader) (st st' : tarLoop F R) : Prop := {
  ed_ok : entry_ok h;
  ed_loop : loop_ok st';
  ed_raw : rawHeaders st' = rawHeaders st + 1 /\ rawHeaders st' <= MaxRootFSEntries;
  ed_seen : seen (tl_count st') = seen (tl_count st) ∪ entry_nodes h;
  ed_bytes : totalBodyBytes st' = totalBodyBytes st + entry_bytes h;
  ed_body : entry_body h (tl_tr st) (tl_tr st')
}.

Lemma path_nodes_root clean : is_root clean = true -> path_nodes clean = ∅.
Proof. intros E. unfold path_nodes. by rewrite E. Qed.

(** The branches of the [switch], by the kind of the header. *)
Definition after_dir (name : gostring) (clean : gostring) (st : tarLoop F R) : res (tarLoop F R) :=
  if is_root clean then Ok st
  else m ← make_dir name clean (tl_out st) (tl_count st); Ok (nodes_set st m).
Definition after_file (name : gostring) (clean : gostring) (st : tarLoop F R) : res (tarLoop F R) :=
  if is_root clean then Ok st
  else m ← make_file name clean (tl_out st) (tl_count st); Ok (nodes_set st m).

Lemma tar_switch_dir name h clean (st : tarLoop F R) :
  directory h = true -> tar_switch name h clean st = Some (after_dir name clean st).
Proof.
  unfold directory, tar_switch, after_dir. intros ->. cbv zeta.
  destruct (is_root clean); [done|]. by destruct (make_dir _ _ _ _).
Qed.

Lemma tar_switch_reg name h clean (st : tarLoop F R) :
  regular h = true ->
  tar_switch name h clean st =
    (d ←? drainTarBody name clean (tl_tr st) (hdr_Size h) (totalBodyBytes st);
     Some (after_file name clean (mkTarLoop (tl_out st) (tl_count st) (rawHeaders st) d.1 d.2))).
Proof.
  unfold regular, tar_switch, after_file. intros Hr. cbv zeta.
  replace (hdr_Typeflag h =c TypeDir) with false
    by (symmetry; apply orb_true_iff in Hr as [Hr|Hr]; apply Ascii.eqb_eq in Hr; by rewrite Hr).
  rewrite Hr. destruct (drainTarBody _ _ _ _ _) as [[d|]|]; [|done..]. simpl.
  destruct (is_root clean); [done|]. by destruct (make_file _ _ _ _).
Qed.

Lemma tar_switch_rest name h clean (st : tarLoop F R) :
  directory h = false -> regular h = false ->
  if metadata h then tar_switch name h clean st = Some (Ok st)
  else exists e, tar_switch name h clean st = Some (Err e).
Proof.
  unfold directory, regular, metadata, tar_switch. intros -> ->. cbv zeta.
  destruct (_ || _ || _ || _) eqn:Em.
  - assert (hdr_Typeflag h = TypeXHeader \/ hdr_Typeflag h = TypeXGlobalHeader \/
            hdr_Typeflag h = TypeGNULongName \/ hdr_Typeflag h = TypeGNULongLink) as Hf
      by (rewrite !orb_true_iff, !Ascii.eqb_eq in Em; tauto).
    by destruct Hf as [Hf|[Hf|[Hf|Hf]]]; rewrite Hf.
  - repeat (destruct (_ || _) || destruct (_ =c _)); by eexists.
Qed.

Lemma kinds_disjoint h :
  (directory h = true -> regular h = false) /\
  (metadata h = true -> directory h = false /\ regular h = false).
Proof.
  unfold directory, regular, metadata. split.
  - rewrite Ascii.eqb_eq. by intros ->.
  - rewrite !orb_true_iff, !Ascii.eqb_eq. by intros [[[->| ->]| ->]| ->].
Qed.

(** Creating the node of an accepted entry. *)
Lemma after_node_done name entry clean (st st' : tarLoop F R) :
  cleanArchivePath entry = Ok clean -> nodes_match (tl_out st, tl_count st) ->
  after_dir name clean st = Ok st' \/ after_file name clean st = Ok st' ->
  nodes_match (tl_out st', tl_count st') /\
  seen (tl_count st') = seen (tl_count st) ∪ path_nodes clean /\
  rawHeaders st' = rawHeaders st /\ totalBodyBytes st' = totalBodyBytes st /\ tl_tr st' = tl_tr st.
Proof.
  intros Hc Hm. unfold after_dir, after_file. destruct (is_root clean) eqn:Er.
  { rewrite path_nodes_root by done. intros [[= <-]|[= <-]]; split; auto; set_solver. }
  intros [E|E].
  - destruct (make_dir _ _ _ _) as [[o c]|] eqn:Em; [|done]. injection E as <-.
    destruct (make_dir_nodes _ _ _ _ _ _ Hc Hm Em). auto.
  - destruct (make_file _ _ _ _) as [[o c]|] eqn:Em; [|done]. injection E as <-.
    destruct (make_file_nodes _ _ _ _ _ _ Hc Hm Em). auto.
Qed.

Lemma tar_entry_done name h (st : tarLoop F R) :
  loop_ok st ->
  exists o, tar_entry name h st = Some o /\ forall st', o = Ok st' -> entry_done h st st'.
Proof.
  intros [Hm Ht]. unfold tar_entry. cbv zeta.
  destruct (_ <? _) eqn:Er; bool_simp; [by eexists|].
  destruct (cleanArchivePath (hdr_Name h)) as [clean|e] eqn:Hc; [|by eexists].
  set (st1 := mkTarLoop _ _ _ _ _).
  destruct (kinds_disjoint h) as [Hk1 Hk2].
  destruct (directory h) eqn:Ed; [|destruct (regular h) eqn:Eg].
  - rewrite tar_switch_dir by done. eexists. split; [done|]. intros st' E.
    destruct (after_node_done name _ clean st1 st' Hc) as (? & Hs & Hraw & Htot & Htr); auto.
    simpl in *. specialize (Hk1 eq_refl).
    split; unfold entry_ok, loop_ok, entry_nodes, entry_bytes, entry_body;
      rewrite ?Hc, ?Ed, ?Hk1; try done; try (split; lia || done); lia.
  - rewrite tar_switch_reg by done. simpl.
    destruct (drainTarBody_spec name clean (tl_tr st) (hdr_Size h) (totalBodyBytes st)) as (o & Eo & Hd);
      [lia|]. rewrite Eo. destruct o as [[tot tr]|e]; simpl; [|by eexists].
    destruct (proj1 (Hd tot tr) eq_refl) as (Hsz & Hcap & -> & Hb).
    eexists. split; [done|]. intros st' E.
    edestruct (after_node_done name (hdr_Name h) clean) as (? & Hs & Hraw & Htot & Htr);
      [done| |right; exact E|]; [done|]. simpl in *.
    split; unfold entry_ok, loop_ok, entry_nodes, entry_bytes, entry_body;
      rewrite ?Hc, ?Ed, ?Eg, ?Htr; try done; try (split; lia || done); try lia.
  - pose proof (tar_switch_rest name h clean st1 Ed Eg) as Hrest.
    destruct (metadata h) eqn:Emd; [|destruct Hrest as [e Hrest]; rewrite Hrest; by eexists].
    rewrite Hrest. eexists. split; [done|]. intros st' [= <-].
    split; unfold entry_ok, loop_ok, entry_nodes, entry_bytes, entry_body;
      rewrite ?Hc, ?Ed, ?Eg, ?Emd; simpl; try done; try (split; lia || done); try lia. set_solver.
Qed.

(** The loop returns: it reads at most one header more than the cap allows. *)
Lemma tar_loop_done fuel name (st : tarLoop F R) :
  loop_ok st -> MaxRootFSEntries - rawHeaders st < Z.of_nat fuel -> rawHeaders st <= MaxRootFSEntries ->
  exists o, tar_loop fuel name st = Some o /\
    forall st', o = Ok st' -> exists hs,
      TarEntries (tl_tr st) hs /\ Forall entry_ok hs /\ loop_ok st' /\
      rawHeaders st + len hs <= MaxRootFSEntries /\
      seen (tl_count st') = seen (tl_count st) ∪ tree hs /\
      totalBodyBytes st' = totalBodyBytes st + body_bytes hs.
Proof.
  revert st. induction fuel as [|fuel IH]; intros st Hok Hf Hr; [lia|]. cbn [tar_loop].
  destruct (Next (tl_tr st)) as [[h|e] tr] eqn:En.
  - set (st1 := mkTarLoop _ _ _ _ _).
    destruct (tar_entry_done name h st1) as (o & Eo & Hd); [exact Hok|]. rewrite Eo.
    destruct o as [st2|e]; simpl; [|by eexists].
    destruct (Hd st2 eq_refl) as [Heok Hok2 [Hr2 Hr2'] Hs2 Hb2 Hbody]. simpl in *.
    destruct (IH st2) as (o & Eo2 & Ho); [done|lia..|]. exists o. split; [done|].
    intros st' E. destruct (Ho st' E) as (hs & Hhs & Hall & Hok' & Hlen & Hseen & Hbytes).
    exists (h :: hs). split; [by econstructor|]. split; [by constructor|]. split; [done|].
    rewrite len_cons. split; [lia|]. unfold tree in *. simpl. split; [|lia].
    rewrite Hseen, Hs2. set_solver.
  - destruct e; (eexists; split; [done|]); [|done..].
    intros st' [= <-]. exists []. unfold tree. simpl. rewrite len_nil.
    split; [by econstructor|]. repeat split; try done; try apply Hok; try lia. set_solver.
Qed.

(** An archive within every cap, of directories, regular files and metadata
    with acceptable names only. *)
Definition archive_ok (hs : list tarHeader) : Prop :=
  Forall entry_ok hs /\ len hs <= MaxRootFSEntries /\
  body_bytes hs <= MaxRootFSTotalBodyBytes /\
  Z.of_nat (size (tree hs)) <= MaxRootFSEntries.

Lemma after_node_accepts name clean (st : tarLoop F R) :
  fs_accepts (F := F) -> counter_ok (tl_count st) ->
  Z.of_nat (size (seen (tl_count st) ∪ path_nodes clean)) <= MaxRootFSEntries ->
  (exists st', after_dir name clean st = Ok st') /\ (exists st', after_file name clean st = Ok st').
Proof.
  intros Hfs Hok Hs. unfold after_dir, after_file. destruct (is_root clean); [split; by eexists|].
  destruct (make_accepts name clean (tl_out st) _ Hfs Hok Hs) as [[m1 ->] [m2 ->]]. split; by eexists.
Qed.

Lemma tar_entry_accepts name h (st : tarLoop F R) tr' :
  fs_accepts (F := F) -> loop_ok st -> entry_ok h -> rawHeaders st + 1 <= MaxRootFSEntries ->
  totalBodyBytes st + entry_bytes h <= MaxRootFSTotalBodyBytes ->
  Z.of_nat (size (seen (tl_count st) ∪ entry_nodes h)) <= MaxRootFSEntries ->
  entry_body h (tl_tr st) tr' ->
  exists st', tar_entry name h st = Some (Ok st').
Proof.
  intros Hfs [[Hok _] Ht] (Hn & Hk & Hsz) Hr Hb Hs Hbody. unfold tar_entry. cbv zeta.
  destruct (MaxRootFSEntries <? _) eqn:Er; bool_simp; [lia|].
  unfold entry_nodes, entry_bytes, entry_body in *. simpl in Hok.
  destruct (cleanArchivePath (hdr_Name h)) as [clean|]; [|done].
  destruct (directory h) eqn:Ed; [|destruct (regular h) eqn:Eg].
  - rewrite tar_switch_dir by done.
    by edestruct (after_node_accepts name clean) as [[st' ->] _]; [| | |by eexists].
  - rewrite tar_switch_reg by done. simpl.
    destruct (drainTarBody_spec name clean (tl_tr st) (hdr_Size h) (totalBodyBytes st)) as (o & Eo & Hd);
      [lia|]. rewrite Eo.
    rewrite (proj2 (Hd (totalBodyBytes st + hdr_Size h) tr')) by (repeat split; try apply Hsz; auto).
    simpl. by edestruct (after_node_accepts name clean) as [_ [st' ->]]; [| | |by eexists].
  - pose proof (tar_switch_rest name h clean
      (mkTarLoop (tl_out st) (tl_count st) (rawHeaders st + 1) (totalBodyBytes st) (tl_tr st)) Ed Eg) as Hrest.
    simpl in Hk. rewrite Hk in Hrest. rewrite Hrest. by eexists.
Qed.

Lemma entry_bytes_nonneg h : entry_ok h -> 0 <= entry_bytes h.
Proof. intros (_ & _ & Hsz). unfold entry_bytes. destruct (regular h); [|lia]. by apply Hsz. Qed.

Lemma body_bytes_nonneg hs : Forall entry_ok hs -> 0 <= body_bytes hs.
Proof.
  induction 1 as [|h hs Hh _ IH]; simpl; [lia|]. pose proof (entry_bytes_nonneg h Hh). lia.
Qed.

Lemma entry_body_fun h tr tr1 tr2 : entry_body h tr tr1 -> entry_body h tr tr2 -> tr1 = tr2.
Proof.
  unfold entry_body, body_read. destruct (regular h); [|congruence].
  destruct (_ =? 0); [congruence|]. intros E1 E2. congruence.
Qed.

Lemma tar_loop_accepts fuel name (st : tarLoop F R) hs :
  fs_accepts (F := F) -> loop_ok st -> TarEntries (tl_tr st) hs -> Forall entry_ok hs ->
  rawHeaders st + len hs <= MaxRootFSEntries ->
  totalBodyBytes st + body_bytes hs <= MaxRootFSTotalBodyBytes ->
  Z.of_nat (size (seen (tl_count st) ∪ tree hs)) <= MaxRootFSEntries ->
  (length hs < fuel)%nat ->
  exists st', tar_loop fuel name st = Some (Ok st').
Proof.
  intros Hfs. revert st hs. induction fuel as [|fuel IH]; intros st hs Hok Hhs Hall Hr Hb Hs Hf; [lia|].
  cbn [tar_loop]. inversion Hhs as [tr tr' En|tr h tr' tr'' hs' En Hbody Hrest]; subst.
  { rewrite En. by eexists. }
  rewrite En. apply Forall_cons in Hall as [Hh Hall]. rewrite len_cons in Hr.
  unfold tree in Hs. simpl in Hs, Hb, Hf. pose proof (len_nonneg hs') as Hl.
  pose proof (body_bytes_nonneg _ Hall) as Hbn.
  set (st1 := mkTarLoop _ _ _ _ _).
  destruct (tar_entry_accepts name h st1 tr'') as [st2 E2]; [done..|simpl; lia|simpl; lia| |done|].
  { simpl. eapply Z.le_trans; [|exact Hs]. apply inj_le, subseteq_size. set_solver. }
  rewrite E2. simpl. destruct (tar_entry_done name h st1 Hok) as (o & Eo & Hd).
  rewrite E2 in Eo. injection Eo as <-. destruct (Hd st2 eq_refl) as [_ Hok2 [Hr2 _] Hs2 Hb2 Hbody2].
  apply (entry_body_fun _ _ _ _ Hbody) in Hbody2. simpl in *.
  apply (IH st2 hs'); [done|by rewrite <- Hbody2|done|lia|lia| |lia].
  eapply Z.le_trans; [|exact Hs]. apply inj_le, subseteq_size. unfold tree. set_solver.
Qed.

Lemma TarEntries_fun tr hs1 hs2 : TarEntries tr hs1 -> TarEntries tr hs2 -> hs1 = hs2.
Proof.
  intros H1. revert hs2. induction H1 as [tr tr' En|tr h tr' tr'' hs En Hb _ IH]; intros hs2 H2;
    inversion H2 as [? ? En'|? h2 ? tr2 ? En' Hb2 Hr2]; subst; rewrite En in En'; try discriminate En'.
  - done.
  - injection En' as <- <-. f_equal. apply IH. by rewrite (entry_body_fun _ _ _ _ Hb Hb2).
Qed.

Lemma tar_load_sound name out (tr : tarReader R) :
  fs_nodes out = ∅ ->
  exists o, tar_load out name tr = Some o /\
    forall out', o = Ok out' ->
      exists hs, TarEntries tr hs /\ archive_ok hs /\ fs_nodes out' = set_map (cons slash) (tree hs).
Proof.
  intros Hempty. unfold tar_load.
  destruct (tar_loop_done tar_fuel name (mkTarLoop out newNodeCounter 0 0 tr)) as (o & Eo & Ho).
  { split; [|vm_compute; split; discriminate]. split; [apply newNodeCounter_ok|].
    simpl. rewrite Hempty. set_solver. }
  { simpl rawHeaders. unfold tar_fuel. rewrite Z2Nat.id; lia || by vm_compute. }
  { vm_compute. discriminate. }
  rewrite Eo. clear Eo. destruct o as [st|e]; simpl; [|by eexists].
  eexists. split; [done|]. intros out' [= <-].
  destruct (Ho st eq_refl) as (hs & Hhs & Hall & [[[Hc Hm] Hn] Ht] & Hlen & Hseen & Hbytes).
  cbn [tl_count tl_out rawHeaders totalBodyBytes tl_tr fst snd newNodeCounter seen] in *.
  rewrite (left_id_L ∅ (∪)) in Hseen. exists hs. rewrite Hseen in *.
  repeat split; try done; lia.
Qed.

(** C36. Loading a tar stream returns for every reader that makes progress.  It
    succeeds exactly on the archives within every cap (headers, nodes with their
    implicit parents, bytes per file and in all) whose entries are directories,
    regular files and metadata with acceptable names and complete bodies; an
    empty filesystem has then become exactly the tree of those entries and their
    parents. *)
Theorem tar_load_correct name out (tr : tarReader R) :
  fs_accepts (F := F) -> fs_nodes out = ∅ ->
  exists o, tar_load out name tr = Some o /\
    (is_ok o = true <-> exists hs, TarEntries tr hs /\ archive_ok hs) /\
    forall out' hs, o = Ok out' -> TarEntries tr hs -> fs_nodes out' = set_map (cons slash) (tree hs).
Proof.
  intros Hfs Hempty. destruct (tar_load_sound name out tr Hempty) as (o & Eo & Ho).
  exists o. split; [done|]. split.
  - split.
    + intros [out' ->]%is_ok_inv. destruct (Ho out' eq_refl) as (hs & ? & ? & _). eauto.
    + intros (hs & Hhs & Hall & Hlen & Hbytes & Hsize).
      destruct (tar_loop_accepts tar_fuel name (mkTarLoop out newNodeCounter 0 0 tr) hs)
        as [st' Est]; try done; cbn [rawHeaders totalBodyBytes tl_count newNodeCounter seen].
      * by rewrite (left_id_L ∅ (∪)).
      * unfold tar_fuel, len in *. lia.
      * unfold tar_load in Eo. rewrite Est in Eo. by injection Eo as <-.
  - intros out' hs -> Hhs. destruct (Ho out' eq_refl) as (hs' & Hhs' & _ & Hn).
    by rewrite (TarEntries_fun _ _ _ Hhs Hhs').
Qed.
End TarSpec.

(** ** Concrete libraries, for running the loader *)

(** A filesystem that is its set of nodes. *)
#[export] Instance setFs : OutFs (gset gostring) := {|
  fs_MkdirAll f p := Ok (f ∪ abs_nodes (real_segs (Split p slash)));
  fs_Create f p := Ok (f ∪ abs_nodes (real_segs (Split p slash)));
  fs_Close f _ := Ok f
|}.

#[export] Instance setFs_laws : OutFsLaws (gset gostring).
Proof.
  refine {| fs_nodes := fun f => f |}.
  - intros f segs f' Hg E. rewrite <- (real_segs_Split_abs segs) by done. by injection E as <-.
  - intros f segs f' Hg E. rewrite <- (real_segs_Split_abs segs) by done. by injection E as <-.
  - by intros f p f' [= <-].
Defined.

(** A source without bytes, and a tar package that yields the given entries with
    the given bodies. *)
#[export] Instance unit_Read : Reader unit := fun r _ => ([], Some ioEOF, r).

Definition scriptedTar (entries : list (tarHeader * gostring)) : TarLib := {|
  tarState := list (tarHeader * gostring) * gostring;
  tar_NewReader := (entries, []);
  tar_Next := fun R _ s r =>
    match s.1 with
    | [] => (inr ioEOF, s, r)
    | (h, body) :: es => (inl h, (es, body), r)
    end;
  tar_Read := fun R _ s r n =>
    match s.2 with
    | [] => ([], Some ioEOF, s, r)
    | body => (take n body, None, (s.1, drop n body), r)
    end
|}.

Lemma scriptedTar_progress {R} `{Reader R} entries :
  Progress (@tarReader R (scriptedTar entries)).
Proof.
  split; intros [[es body] r] n.
  - intros bs e r'. unfold Read, tarReader_Read. simpl. destruct body; intros [= <- _ _]; simpl; [lia|].
    rewrite length_take. lia.
  - intros e r'. unfold Read, tarReader_Read. simpl. destruct body; [by intros [= <- _]|].
    destruct n; [lia|done].
Qed.

(** A directory, a file with three bytes and an entry for the root. *)
Definition sample_entries : list (tarHeader * gostring) :=
  [ (mkTarHeader (go "./") TypeDir 0, []);
    (mkTarHeader (go "etc/") TypeDir 0, []);
    (mkTarHeader (go "usr/bin/id") TypeReg 3, go "abc") ].

Definition sample_tar : @tarReader unit (scriptedTar sample_entries) :=
  @mkTarReader unit (scriptedTar sample_entries) (@tar_NewReader (scriptedTar sample_entries)) tt.

Lemma tar_load_correct_witness :
  exists o, tar_load (H1 := scriptedTar sample_entries) (H2 := ascii_tables) (∅ : gset gostring) (go "t") sample_tar = Some o /\
    (is_ok o = true <->
     exists hs, TarEntries (HT := scriptedTar sample_entries) sample_tar hs /\ archive_ok hs) /\
    match tar_load (H1 := scriptedTar sample_entries) (H2 := ascii_tables) (∅ : gset gostring) (go "t") sample_tar with
    | Some (Ok f) => bool_decide (f = {[go "/etc"; go "/usr"; go "/usr/bin"; go "/usr/bin/id"]})
    | _ => false
    end = true.
Proof.
  destruct (tar_load_correct (HT := scriptedTar sample_entries) (H := ascii_tables)
    (HP := scriptedTar_progress sample_entries) (go "t") (∅ : gset gostring) sample_tar)
    as (o & Eo & Hiff & _).
  - intros f p. reflexivity.
  - reflexivity.
  - exists o. split; [exact Eo|]. split; [exact Hiff|]. vm_compute. reflexivity.
Defined.

(** A symbolic link stops the load. *)
Example tar_symlink_rejected :
  match tar_load (H1 := scriptedTar [(mkTarHeader (go "a") TypeSymlink 0, [])]) (H2 := ascii_tables)
          (∅ : gset gostring) (go "t")
          (@mkTarReader unit (scriptedTar [(mkTarHeader (go "a") TypeSymlink 0, [])])
             (@tar_NewReader (scriptedTar [(mkTarHeader (go "a") TypeSymlink 0, [])])) tt) with
  | Some (Err e) => HasSuffix (err_msg e) (go "symlink/hardlink not allowed")
  | _ => false
  end = true.
Proof. vm_compute. reflexivity. Qed.
