(* ===== verification/RootZip.v ===== *)
(** * The zip loader of the root filesystem: [modules/fakeshell/rootfs.go].

    [preflightZipDirectory] reads the end-of-central-directory record (EOCD) and
    walks the central directory before archive/zip sees the archive; then every
    entry is created as in the tar loader.  archive/zip itself is a parameter: it
    yields the entries of the archive or fails.

    Proved: the preflight returns and accepts exactly the archives with the
    layout [zip_layout]; an accepted archive's entries become exactly the nodes of
    the filesystem. *)
From Stdlib Require Import Ascii String ZArith Lia.
From stdpp Require Import base gmap strings list sets.
From S2P Require Import Prelude GoStrings GoPath Paths GoIO RootPaths RootTar.
Local Open Scope Z_scope.

(** ** Fields *)
Definition u16 (s : gostring) (i : nat) : Z := le_value (slice s i 2).
Definition u32 (s : gostring) (i : nat) : Z := le_value (slice s i 4).

(** ** Constants *)
Definition zipEOCDSignature : Z := 0x06054b50.
Definition zipEOCDMinSize : nat := 22.
Definition zipMaxCommentSize : Z := 65535.
Definition zipEOCDEndScanSize : Z := zipMaxCommentSize + Z.of_nat zipEOCDMinSize.
Definition zip64EOCDLocatorSignature : Z := 0x07064b50.
Definition zip64EOCDLocatorSize : nat := 20.
Definition zipCentralDirectoryHeaderSignature : Z := 0x02014b50.
Definition zipCentralDirectoryHeaderSize : Z := 46.

Section Zip.
(** [ReadAt off n]: the [io.ReaderAt] of the archive, into a buffer of [n]
    bytes. *)
Context (ReadAt : Z -> nat -> gostring * option ioerr).

(** ** The central directory *)
Definition errTruncatedDir (remaining : Z) : error :=
  errors_New (go "zip central directory truncated: " ++ Itoa remaining ++ go " trailing bytes").
Definition errDirTooBig (what : gostring) (n : Z) (exceeds : gostring) : error :=
  errors_New (go "central directory " ++ what ++ Itoa n ++ exceeds
              ++ go "MaxRootFSZipCentralDirectoryBytes ("
              ++ Itoa MaxRootFSZipCentralDirectoryBytes ++ go ")").

(** The loop: one header per round. *)
Fixpoint scan_loop (fuel : nat) (cdOffset cdSize consumed entries : Z) : option (res Z) :=
  if cdSize <=? consumed then
    if negb (consumed =? cdSize) then
      Some (Err (errors_New (go "zip central directory consumed " ++ Itoa consumed ++ go " bytes, want "
                             ++ Itoa cdSize)))
    else Some (Ok entries)
  else
    match fuel with
    | O => None
    | S fuel =>
        let remaining := cdSize - consumed in
        if remaining <? zipCentralDirectoryHeaderSize then Some (Err (errTruncatedDir remaining))
        else
          let off := (cdOffset + consumed) mod 2 ^ 64 in
          if int64_max <? off then
            Some (Err (errors_New (go "zip central directory offset " ++ Itoa off ++ go " overflows int64")))
          else
            match ReadAt off (Z.to_nat zipCentralDirectoryHeaderSize) with
            | (_, Some e) =>
                Some (Err (ioerr_wrap (go "zip read central directory header at " ++ Itoa off ++ go ": ") e))
            | (hdr, None) =>
                if negb (u32 hdr 0 =? zipCentralDirectoryHeaderSignature) then
                  Some (Err (errors_New (go "zip central directory header at " ++ Itoa off
                                         ++ go " has invalid signature")))
                else
                  let entryLen := zipCentralDirectoryHeaderSize + u16 hdr 28 + u16 hdr 30 + u16 hdr 32 in
                  if remaining <? entryLen then
                    Some (Err (errors_New (go "zip central directory entry at " ++ Itoa off ++ go " length "
                                           ++ Itoa entryLen ++ go " exceeds remaining " ++ Itoa remaining)))
                  else
                    let entries := entries + 1 in
                    if MaxRootFSEntries <? entries then
                      Some (Err (errors_New (go "exceeds MaxRootFSEntries (" ++ Itoa MaxRootFSEntries
                                             ++ go ") actual zip central-directory entries")))
                    else
                      let consumed := consumed + entryLen in
                      if MaxRootFSZipCentralDirectoryBytes <? consumed then
                        Some (Err (errDirTooBig (go "bytes ") consumed (go " exceed ")))
                      else scan_loop fuel cdOffset cdSize consumed entries
            end
    end.

Definition scan_fuel : nat := Z.to_nat (MaxRootFSEntries + 1).

Definition scanZipCentralDirectory (cdOffset cdSize : Z) : option (res Z) :=
  if cdSize =? 0 then Some (Ok 0)
  else if MaxRootFSZipCentralDirectoryBytes <? cdSize then 
    Some (Err (errDirTooBig (go "size ") cdSize (go " exceeds ")))
  else scan_loop scan_fuel cdOffset cdSize 0 0.

(** ** The end of central directory *)
Definition sig_at (tail : gostring) (i : nat) : bool :=
  match drop i tail with
  | a :: b :: c :: d :: _ => (bv a =? 0x50) && (bv b =? 0x4b) && (bv c =? 0x05) && (bv d =? 0x06)
  | _ => false
  end.

(** The backwards scan over the positions below [k]. *)
Fixpoint findEOCD (tail : gostring) (k : nat) : res (option nat) :=
  match k with
  | O => Ok None
  | S i =>
      if negb (sig_at tail i) then findEOCD tail i
      else
        let stop := Z.of_nat i + Z.of_nat zipEOCDMinSize + u16 tail (i + 20) in
        if len tail <? stop then findEOCD tail i
        else if stop <? len tail then
          Err (errors_New (go "zip ambiguous EOCD: trailing bytes after comment"))
        else Ok (Some i)
  end.

Definition zip_err {A} (msg : gostring) : option (res A) := Some (Err (errors_New msg)).

(** The checks on the fields of the EOCD, found at [eocdIdx] in the tail that
    starts at [off]. *)
Definition check_eocd (size off : Z) (eocdIdx : nat) (eocd : gostring) : option (res unit) :=
  let totalEntries := u16 eocd 10 in
  let cdSize := u32 eocd 12 in
  let cdOffset := u32 eocd 16 in
  if totalEntries =? 0xffff then zip_err (go "zip64 not allowed (total entries sentinel)")
  else if cdSize =? 0xffffffff then zip_err (go "zip64 not allowed (central directory size sentinel)")
  else if cdOffset =? 0xffffffff then zip_err (go "zip64 not allowed (central directory offset sentinel)")
  else if negb (u16 eocd 4 =? 0) || negb (u16 eocd 6 =? 0) then zip_err (go "zip disk spanning not allowed")
  else if MaxRootFSEntries <? totalEntries then
    zip_err (go "exceeds MaxRootFSEntries (" ++ Itoa MaxRootFSEntries ++ go ") raw zip entries (EOCD total="
             ++ Itoa totalEntries ++ go ")")
  else if MaxRootFSZipCentralDirectoryBytes <? cdSize then
    Some (Err (errDirTooBig (go "size ") cdSize (go " exceeds ")))
  else
    let dir := go "zip central directory (" ++ Itoa cdOffset ++ go "+" ++ Itoa cdSize ++ go ") " in
    let eocdAbs := off + Z.of_nat eocdIdx in
    if size <? cdOffset + cdSize then zip_err (dir ++ go "exceeds file size " ++ Itoa size)
    else if eocdAbs <? cdOffset + cdSize then zip_err (dir ++ go "overlaps EOCD at " ++ Itoa eocdAbs)
    else if negb (cdOffset + cdSize =? eocdAbs) then
      zip_err (dir ++ go "does not end at EOCD " ++ Itoa eocdAbs)
    else
      match scanZipCentralDirectory cdOffset cdSize with
      | None => None
      | Some (Err e) => Some (Err e)
      | Some (Ok actualEntries) =>
          if negb (actualEntries =? totalEntries) then
            zip_err (go "zip central directory entry count " ++ Itoa actualEntries
                     ++ go " does not match EOCD total " ++ Itoa totalEntries)
          else Some (Ok tt)
      end.

Definition preflightZipDirectory (size : Z) : option (res unit) :=
  if size <? Z.of_nat zipEOCDMinSize then zip_err (go "zip too small to contain EOCD")
  else
    let tailLen := if zipEOCDEndScanSize <? size then zipEOCDEndScanSize else size in
    let off := size - tailLen in
    match ReadAt off (Z.to_nat tailLen) with
    | (_, Some e) => Some (Err (ioerr_wrap (go "zip read tail: ") e))
    | (tail, None) =>
        match findEOCD tail (S (length tail - zipEOCDMinSize)) with
        | Err e => Some (Err e)
        | Ok None => zip_err (go "zip EOCD signature not found")
        | Ok (Some eocdIdx) =>
            let eocd := drop eocdIdx tail in
            if (length eocd <? zipEOCDMinSize)%nat then zip_err (go "zip EOCD truncated")
            else if (zip64EOCDLocatorSize <=? eocdIdx)%nat &&
                    (u32 tail (eocdIdx - zip64EOCDLocatorSize) =? zip64EOCDLocatorSignature) then
              zip_err (go "zip64 not allowed (Zip64 EOCD locator present)")
            else check_eocd size off eocdIdx eocd
        end
    end.
End Zip.

(** ** The entries *)
Record zipFile := mkZipFile { zf_Name : gostring; zf_Mode : Z }.

(** archive/zip: the entries of an archive, or an error. *)
Class ZipLib := zip_NewReader : (Z -> nat -> gostring * option ioerr) -> Z -> res (list zipFile).

Section LoadZip.
Context {F : Type} `{OutFs F} `{UnicodeTables} `{ZipLib}.

Definition zip_entry (name : gostring) (zf : zipFile) (m : F * nodeCounter) : res (F * nodeCounter) :=
  let refuse what := Err (errors_New (at_entry name (zf_Name zf) ++ what)) in
  match cleanArchivePath (zf_Name zf) with
  | Err e => Err (errors_wrap (at_entry name (zf_Name zf)) e)
  | Ok clean =>
      if is_root clean then Ok m
      else
        let mode := zf_Mode zf in
        if mode_IsDir mode then make_dir name clean m.1 m.2
        else if mode_IsRegular mode then make_file name clean m.1 m.2
        else if has_mode mode ModeSymlink then refuse (go "symlink not allowed")
        else if has_mode mode ModeDevice then refuse (go "device node not allowed")
        else if has_mode mode ModeNamedPipe then refuse (go "fifo not allowed")
        else if has_mode mode ModeSocket then refuse (go "socket not allowed")
        else if has_mode mode ModeIrregular then refuse (go "irregular file not allowed")
        else refuse (go "unsupported zip mode " ++ mode_String mode)
  end.

Fixpoint zip_entries (name : gostring) (files : list zipFile) (m : F * nodeCounter) : res (F * nodeCounter) :=
  match files with
  | [] => Ok m
  | zf :: files => m ← zip_entry name zf m; zip_entries name files m
  end.

Definition loadRootFSFromZip (out : F) (name : gostring) (ReadAt : Z -> nat -> gostring * option ioerr)
    (size : Z) : option (res F) :=
  match preflightZipDirectory ReadAt size with
  | None => None
  | Some (Err e) => Some (Err (errors_wrap (name ++ go ": ") e))
  | Some (Ok _) =>
      Some (match zip_NewReader ReadAt size with
            | Err e => Err (errors_wrap (name ++ go ": zip header: ") e)
            | Ok files =>
                if MaxRootFSEntries <? len files then
                  Err (errors_New (name ++ go ": exceeds MaxRootFSEntries (" ++ Itoa MaxRootFSEntries
                                   ++ go ") raw zip entries"))
                else m ← zip_entries name files (out, newNodeCounter); Ok m.1
            end)
  end.
End LoadZip.

(** ** Specification: the layout of an archive *)

(** An entry of the central directory: a header of 46 bytes with its signature,
    followed by the name, the extra field and the comment it announces. *)
Definition cd_entry (e : gostring) : Prop :=
  u32 e 0 = zipCentralDirectoryHeaderSignature /\
  len e = zipCentralDirectoryHeaderSize + u16 e 28 + u16 e 30 + u16 e 32.

Inductive CentralDir : gostring -> Z -> Prop :=
| CD_nil : CentralDir [] 0
| CD_entry e rest n : cd_entry e -> CentralDir rest n -> CentralDir (e ++ rest) (n + 1).

(** An end of central directory record with its comment, up to the end of the
    file; nothing later in it is the start of another record that fits. *)
Definition eocd_record (eocd : gostring) : Prop :=
  sig_at eocd 0 = true /\ (zipEOCDMinSize <= length eocd)%nat /\
  len eocd = Z.of_nat zipEOCDMinSize + u16 eocd 20 /\
  (forall i, (0 < i)%nat -> (i + zipEOCDMinSize <= length eocd)%nat -> sig_at eocd i = true ->
     len eocd < Z.of_nat i + Z.of_nat zipEOCDMinSize + u16 eocd (i + 20)).

(** [before] ends with a Zip64 locator. *)
Definition ends_with_locator (before : gostring) : Prop :=
  (zip64EOCDLocatorSize <= length before)%nat /\
  u32 before (length before - zip64EOCDLocatorSize) = zip64EOCDLocatorSignature.

Definition zip_layout (data : gostring) : Prop :=
  exists pre dir eocd,
    data = pre ++ dir ++ eocd /\ eocd_record eocd /\
    (len eocd + Z.of_nat zip64EOCDLocatorSize <= zipEOCDEndScanSize -> ~ ends_with_locator (pre ++ dir)) /\
    u16 eocd 4 = 0 /\ u16 eocd 6 = 0 /\
    CentralDir dir (u16 eocd 10) /\ u16 eocd 10 <= MaxRootFSEntries /\
    len dir = u32 eocd 12 /\ len dir <= MaxRootFSZipCentralDirectoryBytes /\
    len pre = u32 eocd 16 /\ len pre <> 0xffffffff.

(** ** Slices: lemmas *)
Lemma u16_range s i : 0 <= u16 s i < 65536.
Proof.
  split; [apply le_value_nonneg|]. unfold u16. eapply Z.lt_le_trans; [apply le_value_bound|].
  change 65536 with (256 ^ 2). apply Z.pow_le_mono_r; [lia|]. unfold len, slice. rewrite length_take. lia.
Qed.

Lemma u32_range s i : 0 <= u32 s i < 2 ^ 32.
Proof.
  split; [apply le_value_nonneg|]. unfold u32. eapply Z.lt_le_trans; [apply le_value_bound|].
  change (2 ^ 32) with (256 ^ 4). apply Z.pow_le_mono_r; [lia|]. unfold len, slice. rewrite length_take. lia.
Qed.

Lemma cd_entry_length e : cd_entry e -> (46 <= length e)%nat.
Proof.
  intros [_ Hl]. unfold len, zipCentralDirectoryHeaderSize in Hl.
  pose proof (u16_range e 28). pose proof (u16_range e 30). pose proof (u16_range e 32). lia.
Qed.

Lemma CentralDir_nonneg d n : CentralDir d n -> 0 <= n.
Proof. induction 1; lia. Qed.

Lemma CentralDir_bound d n : CentralDir d n -> zipCentralDirectoryHeaderSize * n <= len d.
Proof.
  induction 1 as [|e rest n He _ IH]; [done|]. apply cd_entry_length in He.
  rewrite len_app. unfold zipCentralDirectoryHeaderSize, len in *. lia.
Qed.

(** The first entry is determined by its header. *)
Lemma CentralDir_step d n :
  d <> [] ->
  CentralDir d n <->
  46 <= len d /\ u32 d 0 = zipCentralDirectoryHeaderSignature /\
  exists k, Z.of_nat k = zipCentralDirectoryHeaderSize + u16 d 28 + u16 d 30 + u16 d 32 /\
    Z.of_nat k <= len d /\ CentralDir (drop k d) (n - 1).
Proof.
  intros Hne. split.
  - destruct 1 as [|e rest n He Hr]; [done|]. pose proof (cd_entry_length e He) as Hl.
    destruct He as [Hs He]. unfold u16, u32 in *. rewrite !slice_app_l by lia.
    rewrite len_app. pose proof (len_nonneg rest).
    split; [unfold len in *; lia|]. split; [done|]. exists (length e). split; [done|].
    rewrite drop_app_length. split; [unfold len in *; lia|]. by replace (n + 1 - 1) with n by lia.
  - intros (H46 & Hs & k & Hk & Hkd & Hr).
    rewrite <- (take_drop k d). replace n with (n - 1 + 1) by lia. constructor; [|done].
    pose proof (u16_range d 28). pose proof (u16_range d 30). pose proof (u16_range d 32).
    unfold cd_entry, u16, u32, len, zipCentralDirectoryHeaderSize in *.
    rewrite length_take, !slice_take by lia. split; [done|lia].
Qed.

(** ** The preflight: lemmas *)
Section ZipLemmas.
Context (ReadAt : Z -> nat -> gostring * option ioerr) (data : gostring).

(** The archive is a file with contents [data]: reads inside it succeed. *)
Definition reads_data : Prop :=
  forall off n, 0 <= off -> off + Z.of_nat n <= len data ->
    ReadAt off n = (slice data (Z.to_nat off) n, None).
Context (Hdata : reads_data).

(** What is left of the directory after [consumed] bytes. *)
Definition dir_rest (cdOffset cdSize consumed : Z) : gostring :=
  slice data (Z.to_nat (cdOffset + consumed)) (Z.to_nat (cdSize - consumed)).

Lemma len_dir_rest cdOffset cdSize consumed :
  0 <= cdOffset -> 0 <= consumed <= cdSize -> cdOffset + cdSize <= len data ->
  len (dir_rest cdOffset cdSize consumed) = cdSize - consumed.
Proof. intros. unfold dir_rest, len in *. rewrite length_slice; lia. Qed.

Lemma drop_dir_rest cdOffset cdSize consumed k :
  0 <= cdOffset -> 0 <= consumed -> consumed + Z.of_nat k <= cdSize ->
  drop k (dir_rest cdOffset cdSize consumed) = dir_rest cdOffset cdSize (consumed + Z.of_nat k).
Proof.
  intros. unfold dir_rest, slice. rewrite skipn_firstn_comm, drop_drop. f_equal; [lia|]. f_equal. lia.
Qed.

(** The fields of the header read at the start of what is left. *)
Lemma dir_rest_fields cdOffset cdSize consumed :
  46 <= cdSize - consumed ->
  let hdr := slice data (Z.to_nat (cdOffset + consumed)) (Z.to_nat zipCentralDirectoryHeaderSize) in
  u32 hdr 0 = u32 (dir_rest cdOffset cdSize consumed) 0 /\
  u16 hdr 28 = u16 (dir_rest cdOffset cdSize consumed) 28 /\
  u16 hdr 30 = u16 (dir_rest cdOffset cdSize consumed) 30 /\
  u16 hdr 32 = u16 (dir_rest cdOffset cdSize consumed) 32.
Proof.
  intros H46 hdr. unfold hdr, u16, u32, dir_rest, zipCentralDirectoryHeaderSize.
  by rewrite !slice_slice by lia.
Qed.

(** One round: the first entry and what is left after it. *)
Lemma dir_rest_step cdOffset cdSize consumed n :
  let d := dir_rest cdOffset cdSize consumed in
  let entryLen := zipCentralDirectoryHeaderSize + u16 d 28 + u16 d 30 + u16 d 32 in
  0 <= cdOffset -> 0 <= consumed < cdSize -> cdOffset + cdSize <= len data ->
  u32 d 0 = zipCentralDirectoryHeaderSignature -> entryLen <= cdSize - consumed ->
  CentralDir d n <-> CentralDir (dir_rest cdOffset cdSize (consumed + entryLen)) (n - 1).
Proof.
  intros d entryLen H0 Hc Hd Hs He.
  assert (Hlen : len d = cdSize - consumed) by (apply len_dir_rest; lia).
  assert (Hne : d <> []) by (intros E; rewrite E, len_nil in Hlen; lia).
  assert (46 <= entryLen)
    by (unfold entryLen, zipCentralDirectoryHeaderSize; pose proof (u16_range d 28);
        pose proof (u16_range d 30); pose proof (u16_range d 32); lia).
  rewrite CentralDir_step by done. fold entryLen. split.
  - intros (_ & _ & k & Hk & Hkd & Hr). unfold d in Hr. rewrite drop_dir_rest in Hr by lia. by rewrite <- Hk.
  - intros Hr. split; [lia|]. split; [done|]. exists (Z.to_nat entryLen).
    rewrite Z2Nat.id by lia. split; [done|]. split; [lia|]. unfold d. rewrite drop_dir_rest by lia.
    by rewrite Z2Nat.id by lia.
Qed.

Lemma dir_rest_end cdOffset cdSize entries n :
  0 <= cdOffset -> 0 <= cdSize -> cdOffset + cdSize <= len data -> entries <= MaxRootFSEntries ->
  @Ok error Z entries = Ok n <->
  n <= MaxRootFSEntries /\ CentralDir (dir_rest cdOffset cdSize cdSize) (n - entries).
Proof.
  intros H0 Hc Hd He. pose proof (len_dir_rest cdOffset cdSize cdSize H0 ltac:(lia) Hd) as Hlen.
  rewrite Z.sub_diag in Hlen.
  destruct (dir_rest _ _ _); [|by rewrite len_cons in Hlen; pose proof (len_nonneg l); lia]. split.
  - intros [= <-]. split; [lia|]. rewrite Z.sub_diag. constructor.
  - intros [_ Hn]. inversion Hn as [E|e rest m Hcd Hr Eapp]; [f_equal; lia|].
    apply cd_entry_length in Hcd. apply app_eq_nil in Eapp as [-> _]. simpl in Hcd. lia.
Qed.

Lemma scan_loop_spec fuel cdOffset cdSize consumed entries :
  0 <= cdOffset -> 0 <= consumed <= cdSize -> cdOffset + cdSize <= len data ->
  cdOffset + cdSize <= int64_max -> cdSize <= MaxRootFSZipCentralDirectoryBytes ->
  0 <= entries <= MaxRootFSEntries -> MaxRootFSEntries - entries < Z.of_nat fuel ->
  exists o, scan_loop ReadAt fuel cdOffset cdSize consumed entries = Some o /\
    forall n, o = Ok n <->
      n <= MaxRootFSEntries /\ CentralDir (dir_rest cdOffset cdSize consumed) (n - entries).
Proof.
  revert consumed entries. induction fuel as [|fuel IH]; intros consumed entries H0 Hc Hd Hi Hm He Hf; [lia|].
  cbn [scan_loop]. destruct (cdSize <=? consumed) eqn:E1; bool_simp.
  { replace consumed with cdSize in * by lia. rewrite Z.eqb_refl. eexists. split; [done|].
    intros n. apply dir_rest_end; lia. }
  pose proof (len_dir_rest cdOffset cdSize consumed ltac:(lia) ltac:(lia) ltac:(lia)) as Hlen.
  pose proof (dir_rest_fields cdOffset cdSize consumed) as Hfields.
  pose proof (dir_rest_step cdOffset cdSize consumed) as Hstep.
  set (d := dir_rest cdOffset cdSize consumed) in *. cbv zeta in *.
  assert (Hne : d <> []) by (intros E; rewrite E, len_nil in Hlen; lia).
  assert (H46 : zipCentralDirectoryHeaderSize = 46) by done.
  destruct (_ <? zipCentralDirectoryHeaderSize) eqn:E2; bool_simp.
  { eexists. split; [done|]. intros n. rewrite CentralDir_step by done. split; [done|]. lia. }
  rewrite (Z.mod_small (cdOffset + consumed)) by (unfold int64_max in Hi; lia).
  destruct (int64_max <? _) eqn:E3; bool_simp; [lia|].
  rewrite Hdata by lia. destruct (Hfields ltac:(lia)) as (-> & -> & -> & ->).
  destruct (u32 d 0 =? _) eqn:E4; bool_simp; simpl negb; cbv iota;
    [|eexists; split; [done|]; intros n; rewrite CentralDir_step by done; split; [done|tauto]].
  set (entryLen := zipCentralDirectoryHeaderSize + u16 d 28 + u16 d 30 + u16 d 32) in *.
  destruct (_ <? entryLen) eqn:E5; bool_simp.
  { eexists. split; [done|]. intros n. rewrite CentralDir_step by done.
    split; [done|]. intros (_ & _ & _ & k & Hk & Hkd & _). fold entryLen in Hk. lia. }
  assert (0 <= entryLen)
    by (unfold entryLen; pose proof (u16_range d 28); pose proof (u16_range d 30); pose proof (u16_range d 32); lia).
  destruct (MaxRootFSEntries <? entries + 1) eqn:E6; bool_simp.
  { eexists. split; [done|]. intros n. rewrite Hstep by lia. split; [done|]. intros [Hn Hr].
    apply CentralDir_nonneg in Hr. lia. }
  destruct (_ <? consumed + entryLen) eqn:E7; bool_simp; [lia|].
  destruct (IH (consumed + entryLen) (entries + 1)) as (o & Eo & Ho); [lia..|].
  exists o. split; [done|]. intros n. rewrite Ho, Hstep by lia. by rewrite Z.sub_add_distr.
Qed.

Lemma scanZipCentralDirectory_spec cdOffset cdSize :
  0 <= cdOffset < 2 ^ 32 -> 0 <= cdSize <= MaxRootFSZipCentralDirectoryBytes ->
  cdOffset + cdSize <= len data ->
  exists o, scanZipCentralDirectory ReadAt cdOffset cdSize = Some o /\
    forall n, o = Ok n <-> n <= MaxRootFSEntries /\ CentralDir (dir_rest cdOffset cdSize 0) n.
Proof.
  intros Ho Hs Hd. unfold scanZipCentralDirectory.
  destruct (cdSize =? 0) eqn:E0; bool_simp.
  { subst. eexists. split; [done|]. intros n. rewrite (dir_rest_end cdOffset 0) by (lia || done).
    by rewrite Z.sub_0_r. }
  destruct (_ <? cdSize) eqn:E1; bool_simp; [lia|].
  assert (MaxRootFSZipCentralDirectoryBytes < 2 ^ 32) by done.
  assert (2 ^ 32 + 2 ^ 32 <= int64_max) by done.
  assert (Z.of_nat scan_fuel = MaxRootFSEntries + 1) by (apply Z2Nat.id; done).
  assert (0 <= MaxRootFSEntries) by done.
  destruct (scan_loop_spec scan_fuel cdOffset cdSize 0 0) as (o & Eo & Hn); [lia..|].
  exists o. split; [done|]. intros n. rewrite Hn. by rewrite Z.sub_0_r.
Qed.

(** A branch that answers with an error, where the specification fails too. *)
Local Ltac refused := eexists; split; [done|]; split; [done|]; lia.

Lemma check_eocd_spec off i eocd :
  0 <= off + Z.of_nat i <= len data ->
  exists o, check_eocd ReadAt (len data) off i eocd = Some o /\
    (o = Ok tt <->
     u16 eocd 4 = 0 /\ u16 eocd 6 = 0 /\ u16 eocd 10 <= MaxRootFSEntries /\
     u32 eocd 12 <= MaxRootFSZipCentralDirectoryBytes /\ u32 eocd 16 <> 0xffffffff /\
     u32 eocd 16 + u32 eocd 12 = off + Z.of_nat i /\
     CentralDir (dir_rest (u32 eocd 16) (u32 eocd 12) 0) (u16 eocd 10)).
Proof.
  intros Hoff. unfold check_eocd. cbv zeta. unfold zip_err.
  set (total := u16 eocd 10). pose proof (u32_range eocd 12) as Hcs. pose proof (u32_range eocd 16) as Hco.
  set (cdSize := u32 eocd 12) in *. set (cdOffset := u32 eocd 16) in *.
  assert (HM : MaxRootFSEntries = 10000) by done.
  assert (HC : MaxRootFSZipCentralDirectoryBytes = 8388608) by done.
  destruct (total =? 0xffff) eqn:E1; bool_simp; [refused|].
  destruct (cdSize =? 0xffffffff) eqn:E2; bool_simp; [refused|].
  destruct (cdOffset =? 0xffffffff) eqn:E3; bool_simp; [refused|].
  destruct (u16 eocd 4 =? 0) eqn:E4; bool_simp; simpl negb; cbn [orb];
    [|refused].
  destruct (u16 eocd 6 =? 0) eqn:E5; bool_simp; simpl negb; cbv iota;
    [|refused].
  destruct (_ <? total) eqn:E6; bool_simp; [refused|].
  destruct (_ <? cdSize) eqn:E7; bool_simp; [refused|].
  destruct (len data <? _) eqn:E8; bool_simp; [refused|].
  destruct (off + _ <? _) eqn:E9; bool_simp; [refused|].
  destruct (cdOffset + cdSize =? _) eqn:E10; bool_simp; simpl negb; cbv iota;
    [|refused].
  destruct (scanZipCentralDirectory_spec cdOffset cdSize) as (o & Eo & Hn); [lia..|]. rewrite Eo.
  destruct o as [n|e].
  - destruct (proj1 (Hn n) eq_refl) as [Hle Hcd]. destruct (n =? total) eqn:E11; bool_simp; simpl negb; cbv iota.
    + subst n. eexists. split; [done|]. split; [|done]. intros _. repeat split; try done; lia.
    + eexists. split; [done|]. split; [done|]. intros (_ & _ & _ & _ & _ & _ & Hcd').
      by assert (@Ok error Z n = Ok total) as [= ->] by (apply Hn; split; [lia|done]).
  - eexists. split; [done|]. split; [done|]. intros (_ & _ & _ & _ & _ & _ & Hcd').
    by assert (@Err error Z e = Ok total) by (apply Hn; split; [lia|done]).
Qed.
End ZipLemmas.

(** *** The backwards scan *)
Definition eocd_stop (tail : gostring) (i : nat) : Z :=
  Z.of_nat i + Z.of_nat zipEOCDMinSize + u16 tail (i + 20).

Lemma findEOCD_spec tail k i :
  findEOCD tail k = Ok (Some i) <->
  (i < k)%nat /\ sig_at tail i = true /\ eocd_stop tail i = len tail /\
  forall j, (i < j < k)%nat -> sig_at tail j = true -> len tail < eocd_stop tail j.
Proof.
  induction k as [|k IH]; cbn [findEOCD]; [split; [done|lia]|].
  assert (Hskip : (sig_at tail k = true -> len tail < eocd_stop tail k) ->
    ((i < k)%nat /\ sig_at tail i = true /\ eocd_stop tail i = len tail /\
       (forall j, (i < j < k)%nat -> sig_at tail j = true -> len tail < eocd_stop tail j)) <->
    ((i < S k)%nat /\ sig_at tail i = true /\ eocd_stop tail i = len tail /\
       (forall j, (i < j < S k)%nat -> sig_at tail j = true -> len tail < eocd_stop tail j))).
  { intros Hk. split; intros (Hi & Hs & He & Hj); (split; [|split; [done|split; [done|]]]).
    - lia.
    - intros j Hj' Hsj. destruct (decide (j = k)) as [->|]; [auto|]. apply Hj; [lia|done].
    - destruct (decide (i = k)) as [->|]; [|lia]. specialize (Hk Hs). lia.
    - intros j Hj'. apply Hj. lia. }
  destruct (sig_at tail k) eqn:Es; simpl negb; cbv iota; [|rewrite IH; by apply Hskip].
  cbv zeta. fold (eocd_stop tail k).
  destruct (len tail <? eocd_stop tail k) eqn:E1; bool_simp; [rewrite IH; by apply Hskip|].
  destruct (eocd_stop tail k <? len tail) eqn:E2; bool_simp.
  - split; [done|]. intros (Hi & Hs & He & Hj).
    destruct (decide (i = k)) as [->|]; [lia|]. specialize (Hj k ltac:(lia) Es). lia.
  - split.
    + intros [= <-]. split; [lia|]. split; [done|]. split; [lia|]. lia.
    + intros (Hi & Hs & He & Hj). destruct (decide (i = k)) as [->|]; [done|].
      specialize (Hj k ltac:(lia) Es). lia.
Qed.

Lemma sig_at_drop s k i : sig_at (drop k s) i = sig_at s (k + i).
Proof. unfold sig_at. by rewrite drop_drop. Qed.

Lemma u16_drop s k i : u16 (drop k s) i = u16 s (k + i).
Proof. unfold u16. by rewrite slice_drop. Qed.

Lemma u32_drop s k i : u32 (drop k s) i = u32 s (k + i).
Proof. unfold u32. by rewrite slice_drop. Qed.

(** The record found is one that ends the file. *)
Lemma findEOCD_record tail i :
  (zipEOCDMinSize <= length tail)%nat ->
  findEOCD tail (S (length tail - zipEOCDMinSize)) = Ok (Some i) <->
  (i + zipEOCDMinSize <= length tail)%nat /\ eocd_record (drop i tail).
Proof.
  intros Ht. rewrite findEOCD_spec. unfold eocd_record, eocd_stop, len.
  rewrite sig_at_drop, u16_drop, Nat.add_0_r, length_drop. unfold zipEOCDMinSize in *. split.
  - intros (Hi & Hs & He & Hj). split; [lia|]. split; [done|]. split; [lia|]. split; [lia|].
    intros j Hj0 Hjl. rewrite sig_at_drop, u16_drop. intros Hsj.
    specialize (Hj (i + j)%nat ltac:(lia) Hsj). rewrite Nat.add_assoc. lia.
  - intros (Hi & Hs & Hl & He & Hj). split; [lia|]. split; [done|]. split; [lia|].
    intros j Hj0 Hsj. specialize (Hj (j - i)%nat ltac:(lia) ltac:(lia)).
    rewrite sig_at_drop, u16_drop in Hj. replace (i + (j - i))%nat with j in Hj by lia.
    specialize (Hj Hsj). replace (i + (j - i + 20))%nat with (j + 20)%nat in Hj by lia. lia.
Qed.

Section Preflight.
Context (ReadAt : Z -> nat -> gostring * option ioerr) (data : gostring).
Context (Hdata : reads_data ReadAt data).

(** The tail that is read: where it starts. *)
Definition tail_start : nat :=
  Z.to_nat (len data - (if zipEOCDEndScanSize <? len data then zipEOCDEndScanSize else len data)).

Lemma tail_start_spec :
  Z.of_nat tail_start = Z.max 0 (len data - zipEOCDEndScanSize).
Proof.
  unfold tail_start. pose proof (len_nonneg data). destruct (_ <? _) eqn:E; bool_simp; lia.
Qed.

Lemma preflight_tail :
  (zipEOCDMinSize <= length data)%nat ->
  preflightZipDirectory ReadAt (len data) =
  let tail := drop tail_start data in
  match findEOCD tail (S (length tail - zipEOCDMinSize)) with
  | Err e => Some (Err e)
  | Ok None => zip_err (go "zip EOCD signature not found")
  | Ok (Some eocdIdx) =>
      let eocd := drop eocdIdx tail in
      if (length eocd <? zipEOCDMinSize)%nat then zip_err (go "zip EOCD truncated")
      else if (zip64EOCDLocatorSize <=? eocdIdx)%nat &&
              (u32 tail (eocdIdx - zip64EOCDLocatorSize) =? zip64EOCDLocatorSignature) then
        zip_err (go "zip64 not allowed (Zip64 EOCD locator present)")
      else check_eocd ReadAt (len data) (Z.of_nat tail_start) eocdIdx eocd
  end.
Proof.
  intros Hl. unfold preflightZipDirectory.
  destruct (len data <? Z.of_nat zipEOCDMinSize) eqn:E; bool_simp; [unfold len in E; lia|].
  set (tailLen := if zipEOCDEndScanSize <? len data then zipEOCDEndScanSize else len data).
  assert (Ht : 0 <= tailLen <= len data).
  { unfold tailLen. assert (0 <= zipEOCDEndScanSize) by done. pose proof (len_nonneg data).
    destruct (_ <? _) eqn:E2; bool_simp; lia. }
  cbv zeta. rewrite Hdata by lia. fold tail_start.
  assert (Hs : slice data (Z.to_nat (len data - tailLen)) (Z.to_nat tailLen) = drop tail_start data).
  { unfold slice. fold tailLen. unfold tail_start. fold tailLen. apply take_ge. rewrite length_drop. unfold len in *. lia. }
  rewrite Hs.
  replace (len data - tailLen) with (Z.of_nat tail_start) by (unfold tail_start; fold tailLen; lia). done.
Qed.

(** The locator is seen when it lies in the tail. *)
Lemma locator_seen before eocd i :
  data = before ++ eocd -> (tail_start + i = length before)%nat ->
  (zip64EOCDLocatorSize <=? i)%nat &&
    (u32 (drop tail_start data) (i - zip64EOCDLocatorSize) =? zip64EOCDLocatorSignature) = true <->
  len eocd + Z.of_nat zip64EOCDLocatorSize <= zipEOCDEndScanSize /\ ends_with_locator before.
Proof.
  intros Hd Hi. pose proof tail_start_spec as Ht.
  assert (Hld : len data = len before + len eocd) by (rewrite Hd; apply len_app).
  assert (Hi20 : (zip64EOCDLocatorSize <= i)%nat <->
    len eocd + Z.of_nat zip64EOCDLocatorSize <= zipEOCDEndScanSize /\ (zip64EOCDLocatorSize <= length before)%nat)
    by (unfold len, zip64EOCDLocatorSize in *; lia).
  assert (Hu : (zip64EOCDLocatorSize <= i)%nat ->
    u32 (drop tail_start data) (i - zip64EOCDLocatorSize) =
    u32 before (length before - zip64EOCDLocatorSize)).
  { intros H20. rewrite u32_drop. unfold u32.
    rewrite <- (slice_app_l before eocd) by (unfold zip64EOCDLocatorSize in *; lia).
    rewrite <- Hd. do 2 f_equal. unfold zip64EOCDLocatorSize in *; lia. }
  rewrite andb_true_iff, Nat.leb_le, Z.eqb_eq. unfold ends_with_locator. split.
  - intros [H20 He]. rewrite (Hu H20) in He. apply Hi20 in H20. tauto.
  - intros (H1 & H2 & H3). assert (H20 : (zip64EOCDLocatorSize <= i)%nat) by tauto.
    rewrite (Hu H20). tauto.
Qed.

Lemma eocd_record_short eocd : eocd_record eocd -> len eocd <= zipEOCDEndScanSize.
Proof.
  intros (_ & _ & He & _). pose proof (u16_range eocd 20).
  unfold zipEOCDEndScanSize, zipMaxCommentSize. lia.
Qed.

Lemma zip_layout_long : zip_layout data -> (zipEOCDMinSize <= length data)%nat.
Proof. intros (pre & dir & eocd & -> & (_ & Hl & _) & _). rewrite !length_app. lia. Qed.

(** The record that ends the file is found. *)
Lemma record_found before eocd :
  data = before ++ eocd -> eocd_record eocd ->
  findEOCD (drop tail_start data) (S (length (drop tail_start data) - zipEOCDMinSize))
    = Ok (Some (length before - tail_start)%nat).
Proof.
  intros Hd Hr. pose proof (eocd_record_short _ Hr) as Hs. pose proof tail_start_spec as Ht.
  pose proof Hr as (_ & H22 & _).
  assert (Hl : length data = (length before + length eocd)%nat) by (rewrite Hd; apply length_app).
  unfold len in *. apply findEOCD_record; rewrite length_drop; [lia|]. split; [lia|].
  rewrite drop_drop. replace (tail_start + (length before - tail_start))%nat with (length before) by lia.
  rewrite Hd at 1. by rewrite drop_app_length.
Qed.

Lemma last_record_unique i before' eocd' :
  (i + zipEOCDMinSize <= length (drop tail_start data))%nat ->
  eocd_record (drop i (drop tail_start data)) ->
  data = before' ++ eocd' -> eocd_record eocd' ->
  before' = take (tail_start + i) data /\ eocd' = drop i (drop tail_start data).
Proof.
  intros Hi Hr Hd Hr'.
  pose proof (record_found before' eocd' Hd Hr') as E'.
  pose proof (record_found (take (tail_start + i) data) (drop (tail_start + i) data)) as E.
  rewrite drop_drop in Hr. rewrite E in E' by (by rewrite ?take_drop).
  injection E' as E'. pose proof tail_start_spec. pose proof (eocd_record_short _ Hr').
  assert (len data = len before' + len eocd') by (rewrite Hd; apply len_app).
  rewrite length_drop in Hi. rewrite length_take in E'. unfold len in *.
  assert (length before' = tail_start + i)%nat as Hb by lia.
  rewrite drop_drop, <- Hb. clear -Hd. subst data. by rewrite take_app_length, drop_app_length.
Qed.

(** The preflight returns; it accepts when the last record of the file has a
    directory in front of it that is what the record says. *)
Lemma preflight_spec :
  exists o, preflightZipDirectory ReadAt (len data) = Some o /\
    (o = Ok tt <->
     exists before eocd, data = before ++ eocd /\ eocd_record eocd /\
       (len eocd + Z.of_nat zip64EOCDLocatorSize <= zipEOCDEndScanSize -> ~ ends_with_locator before) /\
       u16 eocd 4 = 0 /\ u16 eocd 6 = 0 /\ u16 eocd 10 <= MaxRootFSEntries /\
       u32 eocd 12 <= MaxRootFSZipCentralDirectoryBytes /\ u32 eocd 16 <> 0xffffffff /\
       u32 eocd 16 + u32 eocd 12 = len before /\
       CentralDir (dir_rest data (u32 eocd 16) (u32 eocd 12) 0) (u16 eocd 10)).
Proof.
  destruct (decide (zipEOCDMinSize <= length data)%nat) as [Hl|Hl].
  2: { unfold preflightZipDirectory.
    destruct (_ <? _) eqn:E; bool_simp; [|unfold len in E; lia]. eexists. split; [done|].
    split; [done|]. intros (before & eocd & Hd & (_ & H22 & _) & _). rewrite Hd, length_app in Hl. lia. }
  rewrite preflight_tail by done. cbv zeta. set (tail := drop tail_start data).
  pose proof tail_start_spec as Hts. pose proof (len_nonneg data) as Hdn.
  assert (Htl : (zipEOCDMinSize <= length tail)%nat).
  { unfold tail. rewrite length_drop. assert (22 <= zipEOCDEndScanSize) by done.
    unfold zipEOCDMinSize, len in *. lia. }
  destruct (findEOCD tail _) as [[i|]|e] eqn:Ef.
  - apply findEOCD_record in Ef as [Hi Hrec]; [|done].
    set (before := take (tail_start + i) data).
    assert (Hd : data = before ++ drop i tail).
    { unfold before, tail. by rewrite drop_drop, take_drop. }
    assert (Hb : (tail_start + i = length before)%nat).
    { unfold before, tail, zipEOCDMinSize in *. rewrite length_drop in Hi. rewrite length_take. lia. }
    destruct (_ <? _)%nat eqn:E22; [apply Nat.ltb_lt in E22; rewrite length_drop in E22; lia|].
    pose proof (locator_seen before (drop i tail) i Hd Hb) as Hloc. fold tail in Hloc.
    assert (Huniq : forall before' eocd', data = before' ++ eocd' -> eocd_record eocd' ->
              before' = before /\ eocd' = drop i tail) by (intros; by eapply last_record_unique).
    destruct (_ && _) eqn:E64.
    + eexists. split; [done|]. split; [done|]. intros (b' & e' & Hd' & Hr' & Hl' & _).
      destruct (Huniq _ _ Hd' Hr') as [-> ->]. tauto.
    + destruct (check_eocd_spec ReadAt data Hdata (Z.of_nat tail_start) i (drop i tail)) as (o & Eo & Ho).
      { apply (f_equal len) in Hd. rewrite len_app in Hd. unfold len in *. lia. }
      exists o. split; [done|]. rewrite Ho.
      assert (Hlb : len before = Z.of_nat tail_start + Z.of_nat i) by (unfold len; lia). split.
      * intros Hc. exists before, (drop i tail). rewrite Hlb. split; [done|]. split; [done|].
        split; [|tauto]. intros H1 H2. pose proof (proj2 Hloc (conj H1 H2)). congruence.
      * intros (b' & e' & Hd' & Hr' & _ & Hc). destruct (Huniq _ _ Hd' Hr') as [-> ->]. rewrite Hlb in Hc. tauto.
  - eexists. split; [done|]. split; [done|]. intros (b' & e' & Hd' & Hr' & _).
    unfold tail in Ef. by rewrite (record_found _ _ Hd' Hr') in Ef.
  - eexists. split; [done|]. split; [done|]. intros (b' & e' & Hd' & Hr' & _).
    unfold tail in Ef. by rewrite (record_found _ _ Hd' Hr') in Ef.
Qed.

Lemma preflight_layout :
  exists o, preflightZipDirectory ReadAt (len data) = Some o /\ (o = Ok tt <-> zip_layout data).
Proof.
  destruct preflight_spec as (o & Eo & Ho). exists o. split; [done|]. rewrite Ho. split.
  - intros (before & eocd & Hd & Hr & Hloc & H4 & H6 & Hn & Hs & Hff & Hsum & Hcd).
    pose proof (u32_range eocd 12) as R12. pose proof (u32_range eocd 16) as R16.
    set (off := u32 eocd 16) in *. set (sz := u32 eocd 12) in *.
    assert (Hdir : dir_rest data off sz 0 = drop (Z.to_nat off) before).
    { unfold dir_rest, slice. rewrite Z.add_0_r, Z.sub_0_r. rewrite Hd at 1.
      rewrite drop_app_le by (unfold len in *; lia). apply take_app_length'.
      rewrite length_drop. unfold len in *. lia. }
    exists (take (Z.to_nat off) before), (dir_rest data off sz 0), eocd.
    rewrite Hdir, app_assoc, take_drop. rewrite Hdir in Hcd.
    assert (Hlen : len (drop (Z.to_nat off) before) = sz) by (unfold len in *; rewrite length_drop; lia).
    assert (Hpre : len (take (Z.to_nat off) before) = off) by (unfold len in *; rewrite length_take; lia).
    rewrite Hlen, Hpre. repeat split; try done; apply Hr.
  - intros (pre & dir & eocd & Hd & Hr & Hloc & H4 & H6 & Hcd & Hn & Hs & Hmax & Hp & Hff).
    exists (pre ++ dir), eocd. rewrite <- app_assoc, len_app, <- Hs, <- Hp.
    assert (Hdir : dir_rest data (len pre) (len dir) 0 = dir).
    { unfold dir_rest, slice, len. rewrite Z.add_0_r, Z.sub_0_r, !Nat2Z.id. rewrite Hd at 1.
      by rewrite drop_app_length, take_app_length. }
    rewrite Hdir. repeat split; try done; apply Hr.
Qed.

(** The preflight of a zip archive returns, and accepts exactly the files
    that consist of a prefix, a central directory of at most 10000 well-framed
    entries in at most 8 MiB and the end record that announces this prefix length,
    directory size and number of entries, whose comment ends the file and which is
    the last record in the file that fits; archives that span disks, and archives
    with a Zip64 locator in front of a record whose comment is at most 65515 bytes
    long, are refused. *)
Lemma preflightZipDirectory_correct :
  exists o, preflightZipDirectory ReadAt (len data) = Some o /\ (o = Ok tt <-> zip_layout data).
Proof. exact preflight_layout. Qed.
End Preflight.

(** ** Concrete archives *)

(** A file held in memory. *)
Definition bytes_ReadAt (data : gostring) (off : Z) (n : nat) : gostring * option ioerr :=
  if (0 <=? off) && (off + Z.of_nat n <=? len data) then (slice data (Z.to_nat off) n, None)
  else ([], Some ioEOF).

Lemma bytes_reads_data data : reads_data (bytes_ReadAt data) data.
Proof.
  intros off n H0 Hn. unfold bytes_ReadAt.
  by rewrite (proj2 (Z.leb_le _ _) H0), (proj2 (Z.leb_le _ _) Hn).
Qed.

Definition zeros (n : nat) : gostring := replicate n chNUL.
Definition le16 (z : Z) : gostring := [vb z; vb (z / 256)].
Definition le32 (z : Z) : gostring := le16 (z mod 65536) ++ le16 (z / 65536).

(** A directory entry with a name and a comment, and an end record for one entry. *)
Definition make_entry (name comment : gostring) : gostring :=
  le32 zipCentralDirectoryHeaderSignature ++ zeros 24 ++ le16 (len name) ++ le16 0 ++ le16 (len comment)
    ++ zeros 12 ++ name ++ comment.
Definition make_eocd (dirLen : Z) (comment : gostring) : gostring :=
  le32 zipEOCDSignature ++ zeros 6 ++ le16 1 ++ le32 dirLen ++ le32 0 ++ le16 (len comment) ++ comment.

Definition sample_zip : gostring :=
  make_entry (go "etc/") [] ++ make_eocd 50 (go "hi").


(** *** A Zip64 locator the preflight does not see

    The comment of the end record may be 65535 bytes long; the record then fills
    the tail that is read, and what stands in front of it is not looked at. *)
Definition locator : gostring := le32 zip64EOCDLocatorSignature ++ zeros 16.
Definition long_comment : gostring := zeros (Z.to_nat zipMaxCommentSize).
Definition hidden_dir : gostring := make_entry (go "a") locator.
Definition hidden_eocd : gostring := make_eocd (len hidden_dir) long_comment.

Lemma no_P_sig_at s i : Forall (fun b => bv b <> 0x50) s -> sig_at s i = false.
Proof.
  intros Hs. unfold sig_at. apply (Forall_drop _ i) in Hs.
  destruct (drop i s) as [|a [|b [|c [|d t]]]]; try done.
  apply Forall_cons in Hs as [Ha _]. apply Z.eqb_neq in Ha. by rewrite Ha.
Qed.

Lemma long_comment_bytes :
  len long_comment = 65535 /\ Forall (fun b => bv b <> 0x50) long_comment.
Proof.
  unfold len, long_comment, zeros. rewrite length_replicate, Z2Nat.id by done. split; [done|].
  apply Forall_replicate. vm_compute. discriminate.
Qed.
#[local] Opaque long_comment.

Lemma hidden_eocd_bytes :
  exists fixed, hidden_eocd = le32 zipEOCDSignature ++ fixed ++ long_comment /\
    length fixed = 18%nat /\ le_value (take 2 (drop 16 fixed)) = 65535 /\
    u16 fixed 0 = 0 /\ u16 fixed 2 = 0 /\ u16 fixed 6 = 1 /\ u32 fixed 8 = 67 /\ u32 fixed 12 = 0 /\
    Forall (fun b => bv b <> 0x50) fixed.
Proof.
  exists (zeros 6 ++ le16 1 ++ le32 67 ++ le32 0 ++ le16 65535). split.
  - unfold hidden_eocd, make_eocd. rewrite (proj1 long_comment_bytes).
    replace (len hidden_dir) with 67 by (vm_compute; reflexivity). by rewrite <- !app_assoc.
  - repeat split; try (vm_compute; reflexivity). apply Forall_forall. intros x.
    rewrite list_elem_of_In. vm_compute. intuition (subst; discriminate).
Qed.

Lemma hidden_eocd_record : eocd_record hidden_eocd /\ len hidden_eocd = zipEOCDEndScanSize.
Proof.
  destruct hidden_eocd_bytes as (fixed & E & Hl & H16 & _ & _ & _ & _ & _ & HP).
  destruct long_comment_bytes as [Hlc Hz].
  assert (Hlen : len hidden_eocd = 65557).
  { rewrite E, !len_app, Hlc. unfold len at 2. rewrite Hl. vm_compute. reflexivity. }
  assert (H20 : u16 hidden_eocd 20 = 65535).
  { rewrite <- H16, E. unfold u16, slice. rewrite drop_app_ge by (vm_compute; lia).
    change (20 - length (le32 zipEOCDSignature))%nat with 16%nat.
    rewrite drop_app_le by lia. rewrite take_app_le by (rewrite length_drop; lia). done. }
  assert (Hs0 : sig_at hidden_eocd 0 = true) by (by rewrite E).
  assert (HP1 : Forall (fun b => bv b <> 0x50) (drop 1 hidden_eocd)).
  { rewrite E. change (drop 1 (le32 zipEOCDSignature ++ fixed ++ long_comment))
      with (drop 1 (le32 zipEOCDSignature) ++ fixed ++ long_comment).
    apply Forall_app. split; [|apply Forall_app; split; [exact HP|exact Hz]].
    apply Forall_forall. intros x. rewrite list_elem_of_In. vm_compute. intuition (subst; discriminate). }
  rewrite Hlen. split; [|done]. unfold eocd_record. rewrite Hlen, H20.
  split; [done|]. split; [unfold len, zipEOCDMinSize in *; lia|]. split; [done|].
  intros i Hi _ Hsig. rewrite <- (Nat.sub_add 1 i), Nat.add_comm, <- sig_at_drop, no_P_sig_at in Hsig by (done || lia).
  done.
Qed.

(** A file with a Zip64 locator right in front of its end record passes. *)
Example zip64_locator_unseen :
  let data := hidden_dir ++ hidden_eocd in
  ends_with_locator hidden_dir /\
  preflightZipDirectory (bytes_ReadAt data) (len data) = Some (Ok tt).
Proof.
  intros data. split; [split; [vm_compute; lia|vm_compute; reflexivity]|].
  destruct (preflight_spec (bytes_ReadAt data) data (bytes_reads_data data)) as (o & Eo & Ho).
  rewrite Eo. f_equal. apply Ho. exists hidden_dir, hidden_eocd.
  destruct hidden_eocd_record as [Hr Hlen].
  destruct hidden_eocd_bytes as (fixed & E & Hl & _ & F4 & F6 & F10 & F12 & F16 & _).
  assert (Hf16 : forall i, (i + 2 <= 18)%nat -> u16 hidden_eocd (4 + i) = u16 fixed i).
  { intros i Hi. rewrite <- u16_drop, E, drop_app_length' by (vm_compute; reflexivity). unfold u16. by rewrite slice_app_l by lia. }
  assert (Hf32 : forall i, (i + 4 <= 18)%nat -> u32 hidden_eocd (4 + i) = u32 fixed i).
  { intros i Hi. rewrite <- u32_drop, E, drop_app_length' by (vm_compute; reflexivity). unfold u32. by rewrite slice_app_l by lia. }
  pose proof (Hf16 0%nat ltac:(lia)) as E4. pose proof (Hf16 2%nat ltac:(lia)) as E6.
  pose proof (Hf16 6%nat ltac:(lia)) as E10. pose proof (Hf32 8%nat ltac:(lia)) as E12.
  pose proof (Hf32 12%nat ltac:(lia)) as E16. cbn [Nat.add] in *.
  rewrite E4, E6, E10, E12, E16, F4, F6, F10, F12, F16, Hlen. clear E Hf16 Hf32 E4 E6 E10 E12 E16.
  split; [done|]. split; [done|]. split; [unfold zip64EOCDLocatorSize; lia|].
  repeat (split; [done || (vm_compute; congruence)|]).
  replace (dir_rest data 0 67 0) with (hidden_dir ++ []).
  - change 1 with (0 + 1). constructor; [|constructor]. split; vm_compute; reflexivity.
  - rewrite app_nil_r. unfold dir_rest, slice, data. symmetry. apply take_app_length'. vm_compute. reflexivity.
Qed.

(** ** The entries: specification *)

(** An entry that is accepted: the root whatever it is, otherwise a directory or a
    regular file. *)
Definition zip_entry_ok (zf : zipFile) : Prop :=
  exists clean, cleanArchivePath (zf_Name zf) = Ok clean /\
    (is_root clean || mode_IsDir (zf_Mode zf) || mode_IsRegular (zf_Mode zf)) = true.

Definition zip_nodes (zf : zipFile) : gset gostring :=
  match cleanArchivePath (zf_Name zf) with Ok clean => path_nodes clean | Err _ => ∅ end.
Definition zip_tree (files : list zipFile) : gset gostring := ⋃ (map zip_nodes files).

Section LoadZipSpec.
Context {F : Type} `{HF : OutFs F} `{!OutFsLaws F} `{UnicodeTables} `{HZ : ZipLib}.

Lemma zip_entry_done name zf m m' :
  nodes_match m -> zip_entry name zf m = Ok m' ->
  zip_entry_ok zf /\ nodes_match m' /\ seen m'.2 = seen m.2 ∪ zip_nodes zf.
Proof.
  intros Hm. unfold zip_entry, zip_entry_ok, zip_nodes. cbv zeta. destruct m as [out nc].
  destruct (cleanArchivePath (zf_Name zf)) as [clean|] eqn:Hc; [|done].
  destruct (is_root clean) eqn:Er.
  { intros [= <-]. rewrite path_nodes_root by done. split; [|split; [done|set_solver]].
    exists clean. by rewrite Er. }
  destruct (mode_IsDir _) eqn:Ed; [|destruct (mode_IsRegular _) eqn:Eg].
  - intros E. destruct (make_dir_nodes _ _ _ _ _ _ Hc Hm E). split; [|done]. exists clean. by rewrite orb_true_r.
  - intros E. destruct (make_file_nodes _ _ _ _ _ _ Hc Hm E). split; [|done]. exists clean. by rewrite orb_true_r.
  - repeat (destruct (has_mode _ _); [done|]). done.
Qed.

Lemma zip_entry_accepts name zf m :
  fs_accepts (F := F) -> nodes_match m -> zip_entry_ok zf ->
  Z.of_nat (size (seen m.2 ∪ zip_nodes zf)) <= MaxRootFSEntries ->
  exists m', zip_entry name zf m = Ok m'.
Proof.
  intros Hfs [Hok _] (clean & Hc & Hk) Hs. unfold zip_entry, zip_nodes in *. rewrite Hc in *. cbv zeta.
  destruct (is_root clean); [by eexists|].
  destruct (make_accepts name clean m.1 m.2 Hfs Hok Hs).
  destruct (mode_IsDir _); [done|]. destruct (mode_IsRegular _); done.
Qed.

Lemma zip_entries_spec name files m :
  fs_accepts (F := F) -> nodes_match m ->
  ((exists m', zip_entries name files m = Ok m') <->
   Forall zip_entry_ok files /\ Z.of_nat (size (seen m.2 ∪ zip_tree files)) <= MaxRootFSEntries) /\
  forall m', zip_entries name files m = Ok m' ->
    nodes_match m' /\ seen m'.2 = seen m.2 ∪ zip_tree files.
Proof.
  intros Hfs. revert m. induction files as [|zf files IH]; intros m Hm; cbn [zip_entries].
  { unfold zip_tree. simpl. split; [|intros m' [= <-]; split; [done|set_solver]].
    split; [|by eexists]. intros _. split; [constructor|]. destruct Hm as [[Hc Hle] _].
    rewrite (right_id_L ∅ (∪)). lia. }
  unfold zip_tree. simpl. rewrite Forall_cons, (assoc_L (∪)).
  destruct (zip_entry name zf m) as [m1|e] eqn:E; simpl.
  - destruct (zip_entry_done _ _ _ _ Hm E) as (Hok & Hm1 & Hs1).
    destruct (IH m1 Hm1) as [Hiff Hall]. rewrite Hs1 in *. rewrite Hiff. split; [tauto|done].
  - split; [|done]. split; [by intros [? ?]|]. intros [[Hok _] Hs].
    destruct (zip_entry_accepts name zf m Hfs Hm Hok) as [m' E']; [|congruence].
    eapply Z.le_trans; [|exact Hs]. apply inj_le, subseteq_size. set_solver.
Qed.

(** Loading a zip archive returns.  It succeeds exactly when the archive has
    the layout the preflight demands, archive/zip can list it with at most 10000
    entries, every entry has an acceptable name and is a directory, a regular file
    or the root, and the entries with their parents are at most 10000 nodes; an
    empty filesystem has then become exactly those nodes. *)
Lemma loadRootFSFromZip_correct (ReadAt : Z -> nat -> gostring * option ioerr) data name (out : F) :
  fs_accepts (F := F) -> fs_nodes out = ∅ -> reads_data ReadAt data ->
  exists o, loadRootFSFromZip out name ReadAt (len data) = Some o /\
    (is_ok o = true <->
     zip_layout data /\
     exists files, zip_NewReader ReadAt (len data) = Ok files /\ len files <= MaxRootFSEntries /\
       Forall zip_entry_ok files /\ Z.of_nat (size (zip_tree files)) <= MaxRootFSEntries) /\
    forall out' files, o = Ok out' -> zip_NewReader ReadAt (len data) = Ok files ->
      fs_nodes out' = set_map (cons slash) (zip_tree files).
Proof.
  intros Hfs Hempty Hdata. unfold loadRootFSFromZip.
  destruct (preflight_layout ReadAt data Hdata) as (p & Ep & Hp). rewrite Ep.
  destruct p as [[]|e].
  2: { eexists. split; [done|]. split; [|done]. split; [done|].
       intros [Hl _]. by apply Hp in Hl. }
  assert (Hl : zip_layout data) by (by apply Hp).
  destruct (zip_NewReader ReadAt (len data)) as [files|e].
  2: { eexists. split; [done|]. split; [|done]. split; [done|]. naive_solver. }
  destruct (MaxRootFSEntries <? len files) eqn:El; bool_simp.
  { eexists. split; [done|]. split; [|done]. split; [done|]. intros (_ & fs & [= <-] & ? & _). lia. }
  assert (Hm : nodes_match (out, newNodeCounter)).
  { split; [apply newNodeCounter_ok|]. simpl. by rewrite Hempty. }
  destruct (zip_entries_spec name files _ Hfs Hm) as [Hiff Hall].
  simpl in *. rewrite (left_id_L ∅ (∪)) in *.
  eexists. split; [done|]. split.
  - destruct (zip_entries _ _ _) as [m'|e]; simpl.
    + split; [|done]. intros _. split; [done|]. exists files. split; [done|]. split; [done|].
      apply Hiff. by eexists.
    + split; [done|]. intros (_ & fs & [= <-] & _ & Ha). apply Hiff in Ha as [? Ha]. done.
  - intros out' fs E [= <-]. destruct (zip_entries _ _ _) as [m'|e]; [|done]. injection E as <-.
    destruct (Hall m' eq_refl) as [[_ Hn] Hs]. by rewrite Hn, Hs.
Qed.
End LoadZipSpec.

Definition listed_zip (files : list zipFile) : ZipLib := fun _ _ => Ok files.
