(* ===== verification/RootFS.v ===== *)
(** * Loading the root filesystem: [modules/fakeshell/rootfs.go].

    [LoadRootFS] picks the embedded archive, a host directory or an archive file.
    The directory walk keeps a stack of directories whose entries are still to be
    streamed and rechecks the identity of everything it opens.  The operating
    system is a parameter ([RootHost]): every call may answer differently from
    the one before, as a host that changes during the walk would.

    Proved: the walk ends on every host that lists an open directory without
    repetition, closes every file it opens on every path, and gives a filesystem of at
    most 10000 nodes that the counter counted; a failing load yields no filesystem. *)
From Stdlib Require Import Ascii String ZArith Lia.
From stdpp Require Import base gmap strings list sets.
From S2P Require Import Prelude GoStrings GoPath Paths ShellConf GoIO RootPaths RootTar RootZip.
Local Open Scope Z_scope.

(** ** The host *)

(** An [os.FileInfo]: its mode, size and what [os.SameFile] compares. *)
Record rootInfo := mkRootInfo { ri_Mode : Z; ri_Size : Z; ri_ID : Z }.
Definition SameFile (a b : rootInfo) : bool := ri_ID a =? ri_ID b.

(** Open files and roots are numbers; [ReadAt] does not move the file. *)
Class RootHost := {
  world : Type;
  os_Lstat : gostring -> world -> res rootInfo * world;
  os_OpenFile : gostring -> world -> res nat * world;
  os_OpenRoot : gostring -> world -> res nat * world;
  root_OpenFile : nat -> gostring -> world -> res nat * world;
  root_Lstat : nat -> gostring -> world -> res rootInfo * world;
  file_Stat : nat -> world -> res rootInfo * world;
  file_ReadDir : nat -> nat -> world -> (list gostring * option ioerr) * world;
  file_ReadAt : world -> nat -> Z -> nat -> gostring * option ioerr;
  file_Seek : nat -> Z -> world -> res unit * world;
  file_Close : nat -> world -> res unit * world
}.

(** An open file read from its start; the world does not change while it is read. *)
Record fileReader `{RootHost} := mkFileReader { fr_world : world; fr_file : nat; fr_pos : Z }.

(** [File.Read]: the end of the file is reported only with no bytes. *)
#[export] Instance fileReader_Read `{RootHost} : Reader fileReader := fun r n =>
  let '(bs, err) := file_ReadAt (fr_world r) (fr_file r) (fr_pos r) n in
  (bs, match bs, err with _ :: _, Some ioEOF => None | _, _ => err end,
   mkFileReader _ (fr_world r) (fr_file r) (fr_pos r + len bs)).

(** [bytes.Reader] over the embedded archive. *)
Record bytesReader := mkBytesReader { br_left : gostring }.
#[export] Instance bytesReader_Read : Reader bytesReader := fun r n =>
  match br_left r with
  | [] => ([], Some ioEOF, r)
  | s => (take n s, None, mkBytesReader (drop n s))
  end.

(** [filepath.Join] of two elements; empty ones are skipped. *)
Definition filepath_Join (a b : gostring) : gostring :=
  match a, b with
  | [], [] => []
  | [], _ => Clean b
  | _, [] => Clean a
  | _, _ => Clean (a ++ [slash] ++ b)
  end.

Section RootFS.
Context {F : Type} `{OutFs F} `{UnicodeTables} `{HH : RootHost}.

Definition quoted (what path : gostring) : gostring := what ++ Quote path ++ go ": ".

(** ** Opening *)
Definition checkRootFSFile (f : nat) (path : gostring) (expected : rootInfo) (w : world) : res nat * world :=
  let '(st, w) := file_Stat f w in
  match st with
  | Err e => let '(_, w) := file_Close f w in (Err (errors_wrap (quoted (go "open ") path ++ go "stat: ") e), w)
  | Ok info =>
      match rejectSpecial (ri_Mode info) path with
      | Err e => let '(_, w) := file_Close f w in (Err e, w)
      | Ok _ =>
          if negb (SameFile expected info) then
            let '(_, w) := file_Close f w in
            (Err (errors_New (quoted (go "open ") path ++ go "changed after lstat")), w)
          else (Ok f, w)
      end
  end.

Definition openRootFSChecked (path : gostring) (expected : rootInfo) (w : world) : res nat * world :=
  let '(f, w) := os_OpenFile path w in
  match f with
  | Err e => (Err (errors_wrap (quoted (go "open ") path) e), w)
  | Ok f => checkRootFSFile f path expected w
  end.

Definition openRootFSInRootChecked (root : nat) (path : gostring) (expected : rootInfo) (w : world)
  : res nat * world :=
  let '(f, w) := root_OpenFile root path w in
  match f with
  | Err e => (Err (errors_wrap (quoted (go "open ") path) e), w)
  | Ok f => checkRootFSFile f path expected w
  end.

(** ** The directory walk *)
Record walkItem := mkWalkItem { hostRel : gostring; fakeClean : gostring; wi_expected : rootInfo }.

(** The stack has its top first. *)
Record dirWalk := mkDirWalk { dw_out : F; dw_count : nodeCounter; dw_stack : list walkItem }.

(** [d.Close()] before returning an error. *)
Definition close_fail {A} (d : nat) (e : error) (w : world) : res A * world :=
  let '(_, w) := file_Close d w in (Err e, w).

(** A regular entry: opened and checked, closed, then created without content. *)
Definition walk_file (root : nat) (hostFull clean : gostring) (info : rootInfo) (nc : nodeCounter)
    (st : dirWalk) (d : nat) (w : world) : res dirWalk * world :=
  let '(checked, w) := openRootFSInRootChecked root hostFull info w in
  match checked with
  | Err e => close_fail d e w
  | Ok f =>
      let '(c, w) := file_Close f w in
      match c with
      | Err e => close_fail d (errors_wrap (quoted (go "close ") hostFull) e) w
      | Ok _ =>
          match fs_Create (dw_out st) (memPath clean) with
          | Err e => close_fail d (errors_wrap (quoted (go "create ") clean) e) w
          | Ok out =>
              match fs_Close out (memPath clean) with
              | Err e => close_fail d (errors_wrap (quoted (go "close ") clean) e) w
              | Ok out => (Ok (mkDirWalk out nc (dw_stack st)), w)
              end
          end
      end
  end.

(** One entry of the directory [item], open as [d]. *)
Definition walk_entry (root : nat) (item : walkItem) (d : nat) (name : gostring) (st : dirWalk) (w : world)
  : res dirWalk * world :=
  let hostFull := filepath_Join (hostRel item) name in
  let '(ls, w) := root_Lstat root hostFull w in
  match ls with
  | Err e => close_fail d (errors_wrap (quoted (go "lstat ") hostFull) e) w
  | Ok info =>
      match rejectSpecial (ri_Mode info) hostFull with
      | Err e => close_fail d e w
      | Ok _ =>
          let rel := filepath_Join (fakeClean item) name in
          match cleanArchivePath rel with
          | Err e => close_fail d (errors_wrap (quoted (go "entry ") rel) e) w
          | Ok clean =>
              match add (dw_count st) clean with
              | Err e => close_fail d e w
              | Ok nc =>
                  if mode_IsDir (ri_Mode info) then
                    (Ok (mkDirWalk (dw_out st) nc (mkWalkItem hostFull clean info :: dw_stack st)), w)
                  else if mode_IsRegular (ri_Mode info) then walk_file root hostFull clean info nc st d w
                  else close_fail d (errors_New (quoted (go "entry ") rel ++ go "unsupported file type")) w
              end
          end
      end
  end.

Fixpoint walk_entries (root : nat) (item : walkItem) (d : nat) (names : list gostring) (st : dirWalk) (w : world)
  : res dirWalk * world :=
  match names with
  | [] => (Ok st, w)
  | name :: names =>
      match walk_entry root item d name st w with
      | (Err e, w) => (Err e, w)
      | (Ok st, w) => walk_entries root item d names st w
      end
  end.

(** The batches of one directory; the handle is still open on success. *)
Fixpoint walk_batches (fuel : nat) (root : nat) (item : walkItem) (d : nat) (st : dirWalk) (w : world)
  : option (res dirWalk) * world :=
  match fuel with
  | O => (None, w)
  | S fuel =>
      let '(names, rerr, w) := file_ReadDir d rootFSDirReadBatchSize w in
      match walk_entries root item d names st w with
      | (Err e, w) => (Some (Err e), w)
      | (Ok st, w) =>
          match rerr with
          | Some ioEOF => (Some (Ok st), w)
          | Some e =>
              let '(r, w) := close_fail d (ioerr_wrap (quoted (go "readdir ") (hostRel item)) e) w in (Some r, w)
          | None =>
              match names with
              | [] => (Some (Ok st), w)
              | _ => walk_batches fuel root item d st w
              end
          end
      end
  end.

(** A directory taken from the stack. *)
Definition walk_dir (fuel : nat) (root : nat) (item : walkItem) (st : dirWalk) (w : world)
  : option (res dirWalk) * world :=
  let '(o, w) := openRootFSInRootChecked root (hostRel item) (wi_expected item) w in
  match o with
  | Err e => (Some (Err e), w)
  | Ok d =>
      let made :=
        if fakeClean item =s [] then Ok (dw_out st)
        else match fs_MkdirAll (dw_out st) (memPath (fakeClean item)) with
             | Err e => Err (errors_wrap (quoted (go "mkdir ") (fakeClean item)) e)
             | Ok out => Ok out
             end in
      match made with
      | Err e => let '(r, w) := close_fail d e w in (Some r, w)
      | Ok out =>
          match walk_batches fuel root item d (mkDirWalk out (dw_count st) (dw_stack st)) w with
          | (Some (Ok st), w) =>
              let '(c, w) := file_Close d w in
              match c with
              | Err e => (Some (Err (errors_wrap (quoted (go "close ") (hostRel item)) e)), w)
              | Ok _ => (Some (Ok st), w)
              end
          | r => r
          end
      end
  end.

(** Rounds for the batches of one directory and for the directories: every round but
    the last takes a node that was not there before. *)
Definition walk_fuel : nat := Z.to_nat (MaxRootFSEntries + 2).

Fixpoint walk_loop (fuel : nat) (root : nat) (st : dirWalk) (w : world) : option (res F) * world :=
  match dw_stack st with
  | [] => (Some (Ok (dw_out st)), w)
  | item :: stack =>
      match fuel with
      | O => (None, w)
      | S fuel =>
          match walk_dir walk_fuel root item (mkDirWalk (dw_out st) (dw_count st) stack) w with
          | (Some (Ok st), w) => walk_loop fuel root st w
          | (Some (Err e), w) => (Some (Err e), w)
          | (None, w) => (None, w)
          end
      end
  end.

Definition loadRootFSFromDir (out : F) (root : gostring) (expected : rootInfo) (w : world)
  : option (res F) * world :=
  let '(o, w) := os_OpenRoot (root ++ [slash] ++ dot) w in
  match o with
  | Err e => (Some (Err (errors_wrap (quoted (go "open root ") root) e)), w)
  | Ok rootHandle =>
      let '(r, w) :=
        walk_loop walk_fuel rootHandle (mkDirWalk out newNodeCounter [mkWalkItem dot [] expected]) w in
      let '(_, w) := file_Close rootHandle w in (r, w)
  end.

(** ** Archive files *)
Context `{TarLib} `{GzipLib} `{ZipLib}.

Definition is_zip_magic (magic : gostring) : bool :=
  match magic with
  | a :: b :: c :: d :: _ =>
      (bv a =? 0x50) && (bv b =? 0x4b) &&
      ((bv c =? 0x03) || (bv c =? 0x05) || (bv c =? 0x07)) &&
      ((bv d =? 0x04) || (bv d =? 0x06) || (bv d =? 0x08))
  | _ => false
  end.

Definition loadRootFSFromFile (out : F) (file : gostring) (expected : rootInfo) (w : world)
  : option (res F) * world :=
  let '(o, w) := openRootFSChecked file expected w in
  match o with
  | Err e => (Some (Err e), w)
  | Ok f =>
      let '(st, w) := file_Stat f w in
      let '(r, w) :=
        match st with
        | Err e => (Some (Err e), w)
        | Ok info =>
            let '(magic, _) := file_ReadAt w f 0 4 in
            let isZipExt := HasSuffix (ToLower file) (go ".zip") in
            if isZipExt || is_zip_magic magic then
              (loadRootFSFromZip out file (file_ReadAt w f) (ri_Size info), w)
            else
              let '(sk, w) := file_Seek f 0 w in
              match sk with
              | Err e => (Some (Err e), w)
              | Ok _ => (loadRootFSFromReader out file (mkFileReader _ w f 0), w)
              end
        end in
      let '(_, w) := file_Close f w in (r, w)
  end.

(** ** [LoadRootFS]

    [embeddedFsGzip] is the embedded archive and [memfs] what
    [afero.NewMemMapFs] returns; the configuration is [None] for a nil pointer. *)
Definition wrap_load (prefix : gostring) (r : option (res F) * world) : option (res F) * world :=
  match r with
  | (Some (Err e), w) => (Some (Err (errors_wrap prefix e)), w)
  | r => r
  end.

Definition LoadRootFS (memfs : F) (embeddedFsGzip : gostring) (c : option FakeshellConfig) (w : world)
  : option (res F) * world :=
  match c with
  | None => (Some (Err (errors_New (go "fakeshell: LoadRootFS called with nil config"))), w)
  | Some c =>
      if rootFS c =s [] then
        wrap_load (go "fakeshell: load embedded rootfs: ")
          (loadRootFSFromReader memfs (go "embedded:assets/rootfs.tar.gz") (mkBytesReader embeddedFsGzip), w)
      else
        let named what tail := go "fakeshell: " ++ what ++ Quote (rootFS c) ++ tail in
        let '(ls, w) := os_Lstat (rootFS c) w in
        match ls with
        | Err e => (Some (Err (errors_wrap (named (go "rootfs ") (go " is not accessible: ")) e)), w)
        | Ok info =>
            match rejectSpecial (ri_Mode info) (rootFS c) with
            | Err e => (Some (Err (errors_wrap (named (go "rootfs ") (go " rejected: ")) e)), w)
            | Ok _ =>
                if mode_IsDir (ri_Mode info) then
                  wrap_load (named (go "load rootfs dir ") (go ": ")) (loadRootFSFromDir memfs (rootFS c) info w)
                else
                  wrap_load (named (go "load rootfs archive ") (go ": ")) (loadRootFSFromFile memfs (rootFS c) info w)
            end
        end
  end.
End RootFS.

(** ** What the walk relies on *)

(** A name [ReadDir] may return. *)
Definition entry_name (name : gostring) : Prop := good_seg name.

(** [live]: the open files; [listed d]: the names the open file [d] has returned
    so far.  Opening gives a file that was not open and has returned nothing,
    closing ends it whether or not it reports an error, [ReadDir] returns further
    entries and none twice; nothing else touches open files. *)
Class RootHostLaws `{RootHost} := {
  live : world -> gset nat;
  listed : world -> nat -> list gostring;
  frame (w w' : world) : Prop := live w' = live w /\ forall d, d ∈ live w -> listed w' d = listed w d;
  opened (w : world) (r : res nat) (w' : world) : Prop :=
    match r with
    | Ok f => (f ∉ live w) /\ live w' = {[f]} ∪ live w /\ listed w' f = [] /\
              forall d, d ∈ live w -> listed w' d = listed w d
    | Err _ => frame w w'
    end;
  Lstat_frame : forall p w, frame w (os_Lstat p w).2;
  root_Lstat_frame : forall r p w, frame w (root_Lstat r p w).2;
  Stat_frame : forall f w, frame w (file_Stat f w).2;
  Seek_frame : forall f o w, frame w (file_Seek f o w).2;
  OpenFile_opened : forall p w, opened w (os_OpenFile p w).1 (os_OpenFile p w).2;
  OpenRoot_opened : forall p w, opened w (os_OpenRoot p w).1 (os_OpenRoot p w).2;
  root_OpenFile_opened : forall r p w, opened w (root_OpenFile r p w).1 (root_OpenFile r p w).2;
  Close_live : forall f w, live (file_Close f w).2 = live w ∖ {[f]};
  Close_listed : forall f w d, d <> f -> d ∈ live w -> listed (file_Close f w).2 d = listed w d;
  ReadDir_live : forall d n w, live (file_ReadDir d n w).2 = live w;
  ReadDir_listed : forall d n w names e w', file_ReadDir d n w = (names, e, w') -> d ∈ live w ->
    listed w' d = listed w d ++ names /\ NoDup (listed w d ++ names) /\ Forall entry_name names;
  ReadAt_contract : forall w f off n bs e, file_ReadAt w f off n = (bs, e) ->
    (length bs <= n)%nat /\ (bs = [] -> (0 < n)%nat -> e <> None)
}.

(** The readers of archive/tar and compress/gzip make progress where theirs does. *)
Class TarProgress `{TarLib} :=
  tar_progress : forall R (HR : Reader R), Progress R -> Progress (tarReader R).
Class GzipProgress `{GzipLib} :=
  gzip_progress : forall R (HR : Reader R), Progress R -> Progress (gzipReader R).

Lemma opened_then_closed (f : nat) (X : gset nat) : f ∉ X -> ({[f]} ∪ X) ∖ {[f]} = X.
Proof. set_solver. Qed.

Section WalkLemmas.
Context {F : Type} `{HF : OutFs F} `{!OutFsLaws F} `{UnicodeTables} `{HH : RootHost} `{HL : !RootHostLaws}.

Lemma world_frame_refl w : frame w w.
Proof. split; done. Qed.

Lemma world_frame_trans w1 w2 w3 : frame w1 w2 -> frame w2 w3 -> frame w1 w3.
Proof.
  intros [L1 F1] [L2 F2]. split; [congruence|]. intros d Hd. rewrite F2, F1; [done..|]. by rewrite L1.
Qed.

(** Opening a file and closing it again. *)
Lemma opened_closed w f w' w'' :
  opened w (Ok f) w' -> frame w' w'' -> frame w (file_Close f w'').2.
Proof.
  intros (Hf & Hl & _ & Hd) [L' F']. split.
  - rewrite Close_live, L', Hl. by apply opened_then_closed.
  - intros d Hdl. rewrite Close_listed, F', Hd; set_solver.
Qed.

(** [checkRootFSFile] keeps the file open when it accepts it and closes it
    otherwise. *)
Lemma checkRootFSFile_opened w f path expected w' :
  opened w (Ok f) w' ->
  let r := checkRootFSFile f path expected w' in
  match r.1 with
  | Ok f' => f' = f /\ opened w (Ok f) r.2
  | Err _ => frame w r.2
  end.
Proof.
  intros Ho. unfold checkRootFSFile. cbv zeta.
  pose proof (Stat_frame f w') as Hs. destruct (file_Stat f w') as [[info|e] w1]; simpl in Hs.
  - pose proof (opened_closed w f w' w1 Ho Hs) as Hc.
    destruct (file_Close f w1) as [c w2]. simpl in Hc.
    destruct (rejectSpecial _ _); [|done]. destruct (SameFile _ _); [|done].
    simpl. split; [done|]. destruct Ho as (Hf & Hl & Hn & Hd), Hs as [L1 F1].
    split; [done|]. split; [congruence|]. split; [rewrite F1; [done|set_solver]|].
    intros d Hdl. rewrite F1, Hd; [done..|set_solver].
  - pose proof (opened_closed w f w' w1 Ho Hs) as Hc. by destruct (file_Close f w1).
Qed.

Lemma openRootFSInRootChecked_opened root path expected w :
  let r := openRootFSInRootChecked root path expected w in opened w r.1 r.2.
Proof.
  unfold openRootFSInRootChecked. cbv zeta. pose proof (root_OpenFile_opened root path w) as Ho.
  destruct (root_OpenFile root path w) as [[f|e] w']; [|done]. cbn [fst snd] in Ho.
  pose proof (checkRootFSFile_opened w f path expected w' Ho) as Hc. cbv zeta in Hc.
  destruct (checkRootFSFile f path expected w') as [[f'|e] w2]; simpl in *; [|done]. by destruct Hc as [-> ?].
Qed.

Lemma openRootFSChecked_opened path expected w :
  let r := openRootFSChecked path expected w in opened w r.1 r.2.
Proof.
  unfold openRootFSChecked. cbv zeta. pose proof (OpenFile_opened path w) as Ho.
  destruct (os_OpenFile path w) as [[f|e] w']; [|done]. cbn [fst snd] in Ho.
  pose proof (checkRootFSFile_opened w f path expected w' Ho) as Hc. cbv zeta in Hc.
  destruct (checkRootFSFile f path expected w') as [[f'|e] w2]; simpl in *; [|done]. by destruct Hc as [-> ?].
Qed.

(** The directory being walked stays open on success and is closed on error;
    everything else is as before. *)
Definition kept_or_closed {A} (d : nat) (w : world) (r : res A) (w' : world) : Prop :=
  match r with
  | Ok _ => frame w w'
  | Err _ => live w' = live w ∖ {[d]}
  end.

Lemma close_fail_closed {A} d e w w' :
  frame w w' -> kept_or_closed (A := A) d w (close_fail (A := A) d e w').1 (close_fail (A := A) d e w').2.
Proof.
  intros [L _]. unfold close_fail. pose proof (Close_live d w') as Hc.
  destruct (file_Close d w') as [c w2]. simpl in *. by rewrite Hc, L.
Qed.

Lemma walk_file_live root hostFull clean info nc (st : dirWalk (F := F)) d w :
  let r := walk_file root hostFull clean info nc st d w in kept_or_closed d w r.1 r.2.
Proof.
  unfold walk_file. cbv zeta. pose proof (openRootFSInRootChecked_opened root hostFull info w) as Ho.
  cbv zeta in Ho. destruct (openRootFSInRootChecked root hostFull info w) as [[f|e] w1]; cbn [fst snd] in Ho;
    [|by apply close_fail_closed].
  pose proof (opened_closed w f w1 w1 Ho (world_frame_refl w1)) as Hc. destruct (file_Close f w1) as [[c|e] w2];
    cbn [fst snd] in Hc; [|by apply close_fail_closed].
  destruct (fs_Create _ _); [|by apply close_fail_closed].
  destruct (fs_Close _ _); [|by apply close_fail_closed]. done.
Qed.

Lemma walk_entry_live root item d name (st : dirWalk (F := F)) w :
  let r := walk_entry root item d name st w in kept_or_closed d w r.1 r.2.
Proof.
  unfold walk_entry. cbv zeta. pose proof (root_Lstat_frame root (filepath_Join (hostRel item) name) w) as Hl.
  destruct (root_Lstat root _ w) as [[info|e] w1]; cbn [snd] in Hl; [|by apply close_fail_closed].
  destruct (rejectSpecial _ _); [|by apply close_fail_closed].
  destruct (cleanArchivePath _) as [clean|]; [|by apply close_fail_closed].
  destruct (add _ _) as [nc|]; [|by apply close_fail_closed].
  destruct (mode_IsDir _); [done|]. destruct (mode_IsRegular _); [|by apply close_fail_closed].
  pose proof (walk_file_live root (filepath_Join (hostRel item) name) clean info nc st d w1) as Hw. cbv zeta in Hw.
  destruct (walk_file _ _ _ _ _ _ _ _) as [[st'|e] w2]; simpl in *; [by eapply world_frame_trans|].
  destruct Hl as [L _]. by rewrite Hw, L.
Qed.

Lemma walk_entries_live root item d names (st : dirWalk (F := F)) w :
  let r := walk_entries root item d names st w in kept_or_closed d w r.1 r.2.
Proof.
  cbv zeta. revert st w. induction names as [|name names IH]; intros st w; cbn [walk_entries]; [apply world_frame_refl|].
  pose proof (walk_entry_live root item d name st w) as Hw. cbv zeta in Hw.
  destruct (walk_entry _ _ _ _ _ _) as [[st1|e] w1]; cbn [fst snd kept_or_closed] in Hw; [|done].
  specialize (IH st1 w1). destruct (walk_entries _ _ _ _ _ _) as [[st2|e] w2]; simpl in *.
  - by eapply world_frame_trans.
  - destruct Hw as [L _]. by rewrite IH, L.
Qed.

(** *** The tree that is being built *)

(** A directory of the fake tree, by the segments of its path. *)
Definition seg_path (segs : list gostring) : gostring := Join segs [slash].
Definition item_at (item : walkItem) (segs : list gostring) : Prop :=
  fakeClean item = seg_path segs /\ Forall good_seg segs.

(** The invariant of the loop, for the directories [stk] on the stack: they are
    distinct and counted, none of their entries is, what is counted is closed
    under parents, and the nodes that exist and those waiting on the stack are
    exactly those counted. *)
Record walk_ok (st : dirWalk (F := F)) (stk : list (list gostring)) : Prop := {
  wo_count : counter_ok (dw_count st);
  wo_stack : Forall2 item_at (dw_stack st) stk;
  wo_nodup : NoDup stk;
  wo_known : Forall (fun segs => path_nodes (seg_path segs) ⊆ seen (dw_count st)) stk;
  wo_closed : forall segs n, Forall good_seg (segs ++ [n]) -> segs <> [] ->
    seg_path (segs ++ [n]) ∈ seen (dw_count st) -> seg_path segs ∈ seen (dw_count st);
  wo_pending : forall segs n, segs ∈ stk -> good_seg n -> seg_path (segs ++ [n]) ∉ seen (dw_count st);
  wo_nodes : fs_nodes (dw_out st) ∪ ⋃ (map abs_nodes stk) = set_map (cons slash) (seen (dw_count st))
}.

(** While the directory [cur] is read, [done] being the names seen so far. *)
Record cur_ok (st : dirWalk (F := F)) (cur : list gostring) (names : list gostring)
    (stk : list (list gostring)) : Prop := {
  co_walk : walk_ok st stk;
  co_good : Forall good_seg cur;
  co_fresh : cur ∉ stk;
  co_known : path_nodes (seg_path cur) ⊆ seen (dw_count st);
  co_pending : forall n, good_seg n -> n ∉ names -> seg_path (cur ++ [n]) ∉ seen (dw_count st)
}.

Lemma seg_path_inj l k : Forall good_seg l -> Forall good_seg k -> seg_path l = seg_path k -> l = k.
Proof.
  intros Hl Hk E. apply abs_path_inj; [done..|]. unfold abs_path. by f_equal.
Qed.

Lemma seg_path_clean_rel segs : segs <> [] -> seg_path segs = clean_rel segs.
Proof. by destruct segs. Qed.

Lemma path_nodes_seg_path segs : Forall good_seg segs ->
  path_nodes (seg_path segs) = list_to_set (map (fun k => seg_path (take (S k) segs)) (seq 0 (length segs))).
Proof.
  intros Hg. destruct segs as [|s l]; [done|]. unfold path_nodes.
  rewrite seg_path_clean_rel by done. rewrite is_root_clean_rel, bool_decide_false by done.
  rewrite clean_rel_Split by done.
  change (walk_nodes [] (s :: l)) with (walk_nodes (Join [] [slash]) (s :: l)).
  by rewrite walk_nodes_good by done.
Qed.

(** The nodes of an entry: those of its directory, and itself. *)
Lemma path_nodes_snoc cur n :
  Forall good_seg (cur ++ [n]) ->
  path_nodes (seg_path (cur ++ [n])) = path_nodes (seg_path cur) ∪ {[seg_path (cur ++ [n])]}.
Proof.
  intros Hg. pose proof Hg as [Hc Hn]%Forall_app. rewrite !path_nodes_seg_path by done.
  rewrite length_app, seq_app, map_app. simpl. rewrite list_to_set_app_L. f_equal.
  - f_equal. apply map_ext_in. intros k Hk%in_seq. f_equal. rewrite take_app_le by lia. done.
  - simpl. rewrite (take_ge (cur ++ [n])) by (rewrite length_app; simpl; lia). set_solver.
Qed.

Lemma abs_nodes_seg_path segs :
  Forall good_seg segs -> set_map (cons slash) (path_nodes (seg_path segs)) = abs_nodes segs.
Proof.
  intros Hg. destruct segs; [done|]. rewrite seg_path_clean_rel by done. by apply path_nodes_clean_rel.
Qed.

Lemma Clean_seg_path segs : Forall good_seg segs -> segs <> [] -> Clean (seg_path segs) = seg_path segs.
Proof.
  intros Hg Hne. rewrite seg_path_clean_rel by done.
  pose proof (clean_rel_Split segs Hg Hne) as Hsp. pose proof (clean_rel_safe segs Hg) as Hs. bool_simp.
  assert (Hd : dotdot ∉ Split (clean_rel segs) slash).
  { rewrite Hsp. intros Hin. rewrite Forall_forall in Hg. by apply Hg in Hin as (_ & _ & ? & _). }
  rewrite Clean_nodotdot by done. rewrite H0, Hsp, real_segs_id by done. by destruct segs.
Qed.

Lemma filepath_Join_child cur name :
  Forall good_seg (cur ++ [name]) -> filepath_Join (seg_path cur) name = seg_path (cur ++ [name]).
Proof.
  intros Hg. pose proof Hg as [Hc [[Hne _] _]%Forall_cons]%Forall_app.
  rewrite <- (Clean_seg_path (cur ++ [name])) by (done || by destruct cur).
  destruct cur as [|s cur]; [by destruct name|].
  unfold seg_path. rewrite Join_snoc by done. unfold filepath_Join.
  destruct (Join (s :: cur) [slash]) eqn:E; [|by destruct name].
  apply Forall_cons in Hc as [[Hs _] _]. destruct s as [|x s]; [done|]. by rewrite Join_cons_char in E.
Qed.

Lemma cleanArchivePath_seg_path segs clean :
  Forall good_seg segs -> segs <> [] -> cleanArchivePath (seg_path segs) = Ok clean -> clean = seg_path segs.
Proof.
  intros Hg Hne [_ ->]%cleanArchivePath_spec. rewrite seg_path_clean_rel by done.
  rewrite clean_rel_Split, real_segs_id by done. done.
Qed.

Lemma memPath_seg_path segs : Forall good_seg segs -> segs <> [] -> memPath (seg_path segs) = abs_path segs.
Proof. intros Hg Hne. rewrite seg_path_clean_rel by done. by apply memPath_clean_rel. Qed.

(** What an accepted entry does: it is counted, and either waits on the stack or
    has become a file. *)
Lemma walk_entry_ok root item d name (st st' : dirWalk (F := F)) w w' cur :
  item_at item cur -> good_seg name ->
  walk_entry root item d name st w = (Ok st', w') ->
  let c := cur ++ [name] in
  add (dw_count st) (seg_path c) = Ok (dw_count st') /\
  ((exists hf info, dw_stack st' = mkWalkItem hf (seg_path c) info :: dw_stack st /\ dw_out st' = dw_out st) \/
   (dw_stack st' = dw_stack st /\ fs_nodes (dw_out st') = fs_nodes (dw_out st) ∪ abs_nodes c)).
Proof.
  intros [Hi Hcur] Hn. unfold walk_entry. cbv zeta.
  assert (Hg : Forall good_seg (cur ++ [name])) by (apply Forall_app; auto).
  assert (Hne : cur ++ [name] <> []) by (by destruct cur).
  destruct (root_Lstat _ _ _) as [[info|e] w1]; [|unfold close_fail; by destruct (file_Close _ _)].
  destruct (rejectSpecial _ _); [|unfold close_fail; by destruct (file_Close _ _)].
  rewrite Hi, filepath_Join_child by done.
  destruct (cleanArchivePath _) as [clean|] eqn:Ec; [|unfold close_fail; by destruct (file_Close _ _)].
  apply cleanArchivePath_seg_path in Ec as ->; [|done..].
  destruct (add _ _) as [nc|] eqn:Ea; [|unfold close_fail; by destruct (file_Close _ _)].
  destruct (mode_IsDir _). { intros [= <- _]. split; [done|]. left. by do 2 eexists. }
  destruct (mode_IsRegular _); [|unfold close_fail; by destruct (file_Close _ _)].
  unfold walk_file, close_fail. destruct (openRootFSInRootChecked _ _ _ _) as [[f|e] w2]; [|by destruct (file_Close _ _)].
  destruct (file_Close f w2) as [[c|e] w3]; [|by destruct (file_Close _ _)].
  rewrite memPath_seg_path by done.
  destruct (fs_Create _ _) as [out1|] eqn:Ecr; [|by destruct (file_Close _ _)].
  destruct (fs_Close _ _) as [out2|] eqn:Ecl; [|by destruct (file_Close _ _)].
  intros [= <- _]. split; [done|]. right. split; [done|]. simpl.
  rewrite (Close_nodes _ _ _ Ecl). by apply Create_nodes.
Qed.

Lemma self_in_path_nodes segs :
  Forall good_seg segs -> segs <> [] -> seg_path segs ∈ path_nodes (seg_path segs).
Proof.
  intros Hg Hne. rewrite path_nodes_seg_path by done. apply elem_of_list_to_set, list_elem_of_In.
  apply in_map_iff. exists (length segs - 1)%nat. rewrite in_seq.
  destruct segs; [done|]. simpl length. split; [by rewrite take_ge by (simpl; lia)|lia].
Qed.

Lemma stack_good items stk :
  Forall2 item_at items stk -> forall segs, segs ∈ stk -> Forall good_seg segs.
Proof. induction 1 as [|it segs items stk [_ Hg] _ IH]; set_solver. Qed.

(** Counting a new entry of the current directory. *)
Lemma add_child (st : dirWalk (F := F)) cur names stk name nc :
  cur_ok st cur names stk -> good_seg name -> name ∉ names ->
  add (dw_count st) (seg_path (cur ++ [name])) = Ok nc ->
  counter_ok nc /\ seen nc = {[seg_path (cur ++ [name])]} ∪ seen (dw_count st) /\
  seg_path (cur ++ [name]) ∉ seen (dw_count st).
Proof.
  intros [Hw Hcur Hfresh Hknown Hpend] Hn Hnew Ha.
  assert (Hg : Forall good_seg (cur ++ [name])) by (apply Forall_app; auto).
  pose proof (add_spec (dw_count st) (seg_path (cur ++ [name])) (wo_count _ _ Hw)) as Hs.
  rewrite Ha, path_nodes_snoc in Hs by done. destruct Hs as [Hok Hs]. split; [done|].
  split; [rewrite Hs; set_solver|]. by apply Hpend.
Qed.

Lemma child_neq cur name segs n :
  Forall good_seg (cur ++ [name]) -> Forall good_seg (segs ++ [n]) -> segs <> cur \/ n <> name ->
  seg_path (segs ++ [n]) <> seg_path (cur ++ [name]).
Proof. intros H1 H2 Hne E. apply seg_path_inj in E as [-> ->]%app_inj_tail; naive_solver. Qed.

(** The counted paths of the other directories are not affected. *)
Lemma walk_ok_add (st : dirWalk (F := F)) cur names stk name nc :
  cur_ok st cur names stk -> good_seg name -> name ∉ names ->
  add (dw_count st) (seg_path (cur ++ [name])) = Ok nc ->
  (forall segs n, Forall good_seg (segs ++ [n]) -> segs <> [] ->
     seg_path (segs ++ [n]) ∈ seen nc -> seg_path segs ∈ seen nc) /\
  (forall segs n, segs ∈ stk -> good_seg n -> seg_path (segs ++ [n]) ∉ seen nc) /\
  (forall n, good_seg n -> n ∉ names ++ [name] -> seg_path (cur ++ [n]) ∉ seen nc) /\
  (forall n, good_seg n -> seg_path ((cur ++ [name]) ++ [n]) ∉ seen nc).
Proof.
  intros Hc Hn Hnew Ha. destruct (add_child _ _ _ _ _ _ Hc Hn Hnew Ha) as (_ & Hs & Hfr).
  destruct Hc as [Hw Hcur Hfresh Hknown Hpend].
  assert (Hg : Forall good_seg (cur ++ [name])) by (apply Forall_app; auto).
  pose proof (stack_good _ _ (wo_stack _ _ Hw)) as Hstk.
  assert (Hprefix : cur <> [] -> seg_path cur ∈ seen (dw_count st))
    by (intros Hne; apply Hknown; by apply self_in_path_nodes).
  rewrite Hs. split; [|split; [|split]].
  - intros segs n Hg2 Hne [E%elem_of_singleton|Hin]%elem_of_union.
    + apply seg_path_inj in E as [-> _]%app_inj_tail; [|done..]. set_solver.
    + apply elem_of_union_r. by apply (wo_closed _ _ Hw) in Hin.
  - intros segs n Hin Hgn. apply not_elem_of_union. split; [|by apply (wo_pending _ _ Hw)].
    apply not_elem_of_singleton. apply child_neq; [done|apply Forall_app; auto|].
    left. intros ->. done.
  - intros n Hgn Hni. apply not_elem_of_app in Hni as [Hni Hnn]. apply not_elem_of_union.
    split; [|by apply Hpend]. apply not_elem_of_singleton. apply child_neq; [done|apply Forall_app; auto|].
    right. set_solver.
  - intros n Hgn. apply not_elem_of_union. split.
    + apply not_elem_of_singleton. apply child_neq; [done|apply Forall_app; auto|].
      left. intros E. apply (f_equal length) in E. rewrite length_app in E. simpl in E. lia.
    + intros Hin. apply (wo_closed _ _ Hw) in Hin; [done|apply Forall_app; auto|by destruct cur].
Qed.

(** An accepted entry keeps the invariant and takes a node. *)
Lemma walk_entry_step root item d name (st st' : dirWalk (F := F)) w w' cur names stk :
  item_at item cur -> cur_ok st cur names stk -> good_seg name -> name ∉ names ->
  walk_entry root item d name st w = (Ok st', w') ->
  exists stk', cur_ok st' cur (names ++ [name]) stk' /\
    size (seen (dw_count st')) = S (size (seen (dw_count st))) /\ (length stk' <= S (length stk))%nat.
Proof.
  intros Hi Hc Hn Hnew Hw. destruct (walk_entry_ok _ _ _ _ _ _ _ _ _ Hi Hn Hw) as [Ha Hcase].
  destruct (add_child _ _ _ _ _ _ Hc Hn Hnew Ha) as (Hok & Hs & Hfr).
  destruct (walk_ok_add _ _ _ _ _ _ Hc Hn Hnew Ha) as (Hclosed & Hpend & Hcurp & Hnewp).
  destruct Hc as [Hwk Hcur Hfresh Hknown Hp0]. pose proof (wo_nodes _ _ Hwk) as Hnodes.
  assert (Hg : Forall good_seg (cur ++ [name])) by (apply Forall_app; auto).
  assert (Hsize : size (seen (dw_count st')) = S (size (seen (dw_count st)))).
  { rewrite Hs, size_union by set_solver. by rewrite size_singleton. }
  assert (Hkn : Forall (fun segs => path_nodes (seg_path segs) ⊆ seen (dw_count st')) stk).
  { eapply Forall_impl; [exact (wo_known _ _ Hwk)|]. set_solver. }
  assert (Hmap : set_map (D := gset gostring) (cons slash) (seen (dw_count st')) =
                 set_map (cons slash) (seen (dw_count st)) ∪ abs_nodes (cur ++ [name])).
  { rewrite Hs, <- abs_nodes_seg_path, path_nodes_snoc by done. rewrite !set_map_union_L, !set_map_singleton_L.
    assert (set_map (D := gset gostring) (cons slash) (path_nodes (seg_path cur)) ⊆
            set_map (cons slash) (seen (dw_count st))) by (by apply set_map_mono). set_solver. }
  destruct Hcase as [(hf & info & Est & Eout)|[Est Eout]].
  - exists ((cur ++ [name]) :: stk). split; [|split; [done|simpl; lia]].
    split; [split|done| |set_solver|done]; rewrite ?Est; try done.
    + constructor; [done|apply Hwk].
    + constructor; [|apply Hwk]. intros Hin. pose proof (wo_known _ _ Hwk) as Hk. rewrite Forall_forall in Hk.
      apply Hfr, (Hk _ Hin), self_in_path_nodes; [done|by destruct cur].
    + constructor; [|done]. rewrite path_nodes_snoc, Hs by done. set_solver.
    + intros segs n [->|Hin]%elem_of_cons Hgn; auto.
    + rewrite Eout, Hmap, <- Hnodes. simpl. set_solver.
    + apply not_elem_of_cons. split; [|done]. intros E. apply (f_equal length) in E.
      rewrite length_app in E. simpl in E. lia.
  - exists stk. split; [|split; [done|lia]].
    split; [split|done|done|set_solver|done]; rewrite ?Est; try done; try apply Hwk.
    rewrite Eout, Hmap, <- Hnodes. set_solver.
Qed.

(** The nodes still allowed and the directories still to be read: no step makes
    the sum larger. *)
Definition progress (st st' : dirWalk (F := F)) (stk stk' : list (list gostring)) : Prop :=
  (length stk' + size (seen (dw_count st)) <= length stk + size (seen (dw_count st')))%nat /\
  (size (seen (dw_count st)) <= size (seen (dw_count st')))%nat.

Lemma walk_entries_step root item d todo (st st' : dirWalk (F := F)) w w' cur names stk :
  item_at item cur -> cur_ok st cur names stk -> Forall good_seg todo -> NoDup (names ++ todo) ->
  walk_entries root item d todo st w = (Ok st', w') ->
  exists stk', cur_ok st' cur (names ++ todo) stk' /\ progress st st' stk stk' /\
    (length todo + size (seen (dw_count st)) <= size (seen (dw_count st')))%nat.
Proof.
  intros Hi. revert st w names stk. induction todo as [|name todo IH]; intros st w names stk Hc Hg Hnd E;
    cbn [walk_entries] in E.
  { injection E as <- <-. exists stk. rewrite app_nil_r. unfold progress. split; [done|]. simpl. lia. }
  apply Forall_cons in Hg as [Hn Hg].
  assert (Hnew : name ∉ names) by (apply NoDup_app in Hnd as (_ & Hx & _); set_solver).
  destruct (walk_entry root item d name st w) as [[st1|e] w1] eqn:E1; [|done].
  destruct (walk_entry_step _ _ _ _ _ _ _ _ _ _ _ Hi Hc Hn Hnew E1) as (stk1 & Hc1 & Hs1 & Hl1).
  replace (names ++ name :: todo) with ((names ++ [name]) ++ todo) in * by (by rewrite <- app_assoc).
  destruct (IH st1 w1 _ stk1 Hc1 Hg Hnd E) as (stk' & Hc' & [Hp1 Hp2] & Hl').
  exists stk'. split; [done|]. unfold progress in *. simpl. lia.
Qed.

Lemma walk_batches_step fuel root item d (st : dirWalk (F := F)) w cur stk :
  item_at item cur -> cur_ok st cur (listed w d) stk -> d ∈ live w ->
  (Z.to_nat MaxRootFSEntries - size (seen (dw_count st)) < fuel)%nat ->
  exists o w', walk_batches fuel root item d st w = (Some o, w') /\
    live w' = (if is_ok o then live w else live w ∖ {[d]}) /\
    forall st', o = Ok st' -> exists stk', walk_ok st' stk' /\ progress st st' stk stk'.
Proof.
  intros Hi. revert st w stk. induction fuel as [|fuel IH]; intros st w stk Hc Hd Hf; [lia|].
  cbn [walk_batches]. pose proof (ReadDir_live d rootFSDirReadBatchSize w) as Hl1.
  destruct (file_ReadDir d rootFSDirReadBatchSize w) as [[names rerr] w1] eqn:Er. cbn [snd] in Hl1.
  destruct (ReadDir_listed _ _ _ _ _ _ Er Hd) as (Hls & Hnd & Hgood).
  pose proof (walk_entries_live root item d names st w1) as Hlv. cbv zeta in Hlv.
  destruct (walk_entries root item d names st w1) as [[st1|e] w2] eqn:Ew; cbn [fst snd kept_or_closed] in Hlv.
  2: { do 2 eexists. split; [done|]. split; [|done]. simpl. by rewrite Hlv, Hl1. }
  destruct Hlv as [Hl2 Hf2].
  destruct (walk_entries_step _ _ _ _ _ _ _ _ _ _ _ Hi Hc Hgood Hnd Ew) as (stk1 & Hc1 & Hp & Hlen).
  assert (Hstop : exists (o : res (dirWalk (F := F))) w', (Some (Ok st1), w2) = (Some o, w') /\
            live w' = (if is_ok o then live w else live w ∖ {[d]}) /\
            forall st', o = Ok st' -> exists stk', walk_ok st' stk' /\ progress st st' stk stk').
  { do 2 eexists. split; [done|]. split; [simpl; congruence|]. intros st' [= <-].
    exists stk1. split; [apply Hc1|done]. }
  destruct rerr as [e|].
  - destruct e; [exact Hstop| |]; unfold close_fail; pose proof (Close_live d w2) as Hcl;
      destruct (file_Close d w2) as [c w3]; cbn [snd] in Hcl; (do 2 eexists; split; [done|]; split; [|done]);
      simpl; by rewrite Hcl, Hl2, Hl1.
  - destruct names as [|name names]; [exact Hstop|]. simpl length in Hlen.
    rewrite <- Hls, <- (Hf2 d) in Hc1 by (by rewrite Hl1).
    destruct (IH st1 w2 stk1 Hc1) as (o & w' & E & Hlive & Ho).
    + by rewrite Hl2, Hl1.
    + pose proof (wo_count _ _ (co_walk _ _ _ _ Hc1)) as [Hcount Hmax]. lia.
    + exists o, w'. split; [done|]. split; [by rewrite Hlive, Hl2, Hl1|].
      intros st' Est. destruct (Ho st' Est) as (stk' & Hw & Hp'). exists stk'. split; [done|].
      unfold progress in *. lia.
Qed.

(** Taking a directory from the stack and making it. *)
Lemma walk_ok_pop (st : dirWalk (F := F)) item cur stk out :
  walk_ok (mkDirWalk (dw_out st) (dw_count st) (item :: dw_stack st)) (cur :: stk) ->
  fs_nodes out = fs_nodes (dw_out st) ∪ abs_nodes cur ->
  cur_ok (mkDirWalk out (dw_count st) (dw_stack st)) cur [] stk.
Proof.
  intros [Hc Hs Hnd Hk Hcl Hp Hn] Ho. simpl in *.
  inversion Hs as [|? ? ? ? [Hfc Hg] Hs']; subst. apply NoDup_cons in Hnd as [Hfr Hnd].
  apply Forall_cons in Hk as [Hk0 Hk]. split; [split|..]; simpl; try done.
  - intros segs n Hin. apply Hp. set_solver.
  - rewrite Ho, <- Hn. set_solver.
  - intros n Hgn _. apply Hp; [set_solver|done].
Qed.

Lemma walk_ok_end (st : dirWalk (F := F)) stk :
  walk_ok st stk -> dw_stack st = [] ->
  exists nc, counter_ok nc /\ fs_nodes (dw_out st) = set_map (cons slash) (seen nc).
Proof.
  intros Hw Es. pose proof (wo_stack _ _ Hw) as Hs. rewrite Es in Hs. inversion Hs; subst.
  exists (dw_count st). split; [apply Hw|]. rewrite <- (wo_nodes _ _ Hw). simpl. set_solver.
Qed.

Lemma walk_dir_step fuel root item (st : dirWalk (F := F)) w cur stk :
  walk_ok (mkDirWalk (dw_out st) (dw_count st) (item :: dw_stack st)) (cur :: stk) ->
  item_at item cur ->
  (Z.to_nat MaxRootFSEntries - size (seen (dw_count st)) < fuel)%nat ->
  exists o w', walk_dir fuel root item st w = (Some o, w') /\ live w' = live w /\
    forall st', o = Ok st' -> exists stk', walk_ok st' stk' /\ progress st st' stk stk'.
Proof.
  intros Hw Hi Hf. unfold walk_dir.
  pose proof (openRootFSInRootChecked_opened root (hostRel item) (wi_expected item) w) as Ho. cbv zeta in Ho.
  destruct (openRootFSInRootChecked _ _ _ w) as [[d|e] w1]; cbn [fst snd] in Ho.
  2: { do 2 eexists. split; [done|]. split; [apply Ho|done]. }
  destruct Ho as (Hd & Hl1 & Hls & Hothers). cbv zeta.
  pose proof Hi as [Hfc Hg].
  set (made := if fakeClean item =s [] then _ else _).
  assert (Hmade : forall out, made = Ok out -> fs_nodes out = fs_nodes (dw_out st) ∪ abs_nodes cur).
  { intros out. unfold made. destruct (gos_eqb_spec (fakeClean item) []) as [E|E].
    - rewrite Hfc in E. assert (cur = []) as -> by (apply seg_path_inj; [done|constructor|exact E]).
      intros [= <-]. unfold abs_nodes. set_solver.
    - rewrite Hfc, memPath_seg_path by (done || (intros ->; by rewrite Hfc in E)).
      destruct (fs_MkdirAll (dw_out st) (abs_path cur)) eqn:Em; [|done]. intros [= <-]. by apply MkdirAll_nodes in Em. }
  destruct made as [out|e].
  2: { unfold close_fail. pose proof (Close_live d w1) as Hcl. destruct (file_Close d w1) as [c w2].
       do 2 eexists. split; [done|]. split; [|done]. cbn [snd] in Hcl. rewrite Hcl, Hl1.
       by apply opened_then_closed. }
  specialize (Hmade out eq_refl).
  set (st0 := mkDirWalk out (dw_count st) (dw_stack st)).
  assert (Hc : cur_ok st0 cur (listed w1 d) stk) by (rewrite Hls; by eapply walk_ok_pop).
  destruct (walk_batches_step fuel root item d st0 w1 cur stk Hi Hc) as (o & w2 & E & Hl2 & Hst);
    [set_solver|done|]. rewrite E.
  destruct o as [st1|e]; simpl in Hl2.
  2: { do 2 eexists. split; [done|]. split; [rewrite Hl2, Hl1; by apply opened_then_closed|done]. }
  pose proof (Close_live d w2) as Hcl. destruct (file_Close d w2) as [[c|e] w3]; cbn [snd] in Hcl;
    (do 2 eexists; split; [done|]; split; [rewrite Hcl, Hl2, Hl1; by apply opened_then_closed|]); [|done].
  intros st' [= <-]. apply (Hst st1 eq_refl).
Qed.

(** The loop ends, and no file stays open. *)
Lemma walk_loop_step fuel root (st : dirWalk (F := F)) w stk :
  walk_ok st stk ->
  (Z.to_nat MaxRootFSEntries - size (seen (dw_count st)) + length stk <= fuel)%nat ->
  exists o w', walk_loop fuel root st w = (Some o, w') /\ live w' = live w /\
    forall out, o = Ok out -> exists nc, counter_ok nc /\ fs_nodes out = set_map (cons slash) (seen nc).
Proof.
  revert st w stk. induction fuel as [|fuel IH]; intros st w stk Hw Hf; cbn [walk_loop].
  - pose proof (Forall2_length _ _ _ (wo_stack _ _ Hw)) as Hlen. destruct (dw_stack st) as [|item stack] eqn:Es.
    + do 2 eexists. split; [done|]. split; [done|]. intros out [= <-]. eapply walk_ok_end; eauto.
    + simpl in Hlen. lia.
  - destruct (dw_stack st) as [|item stack] eqn:Es.
    { do 2 eexists. split; [done|]. split; [done|]. intros out [= <-]. eapply walk_ok_end; eauto. }
    pose proof (wo_stack _ _ Hw) as Hs. rewrite Es in Hs. inversion Hs as [|? cur ? stk' Hi Hs' E1 E2]; subst.
    set (st0 := mkDirWalk (dw_out st) (dw_count st) stack).
    assert (Hw0 : walk_ok (mkDirWalk (dw_out st0) (dw_count st0) (item :: dw_stack st0)) (cur :: stk'))
      by (simpl; rewrite <- Es; by destruct st).
    destruct (walk_dir_step walk_fuel root item st0 w cur stk' Hw0 Hi) as (o & w1 & E & Hl & Hst).
    { assert (0 <= MaxRootFSEntries) by done. unfold walk_fuel. simpl. lia. }
    rewrite E. destruct o as [st1|e]; [|by do 2 eexists; split; [done|]; split].
    destruct (Hst st1 eq_refl) as (stk1 & Hw1 & [Hp1 Hp2]). simpl in *.
    destruct (IH st1 w1 stk1 Hw1) as (o & w' & E' & Hl' & Ho).
    { pose proof (wo_count _ _ Hw1) as [Hc1 Hm1]. lia. }
    exists o, w'. split; [done|]. split; [congruence|done].
Qed.
End WalkLemmas.

(** ** Theorems *)
Section LoadTheorems.
Context {F : Type} `{HF : OutFs F} `{!OutFsLaws F} `{UnicodeTables} `{HH : RootHost} `{HL : !RootHostLaws}.

Lemma size_abs_names (X : gset gostring) : size (set_map (cons slash) X : gset gostring) = size X.
Proof.
  unfold set_map. rewrite size_list_to_set, length_fmap; [done|].
  apply (NoDup_fmap_2 (cons slash)). apply NoDup_elements.
Qed.

(** Loading a host directory ends on every host, also one that changes under
    the walk or whose directories have no end, and leaves no file open on any path, errors
    included; when it succeeds, an empty filesystem has at most 10000 nodes, each of
    them counted before it was made. *)
Lemma loadRootFSFromDir_safe root expected (out : F) w :
  fs_nodes out = ∅ ->
  exists o w', loadRootFSFromDir out root expected w = (Some o, w') /\ live w' = live w /\
    forall out', o = Ok out' ->
      exists nc, counter_ok nc /\ fs_nodes out' = set_map (cons slash) (seen nc) /\
        Z.of_nat (size (fs_nodes out')) <= MaxRootFSEntries.
Proof.
  intros Hempty. unfold loadRootFSFromDir.
  pose proof (OpenRoot_opened (root ++ [slash] ++ dot) w) as Ho.
  destruct (os_OpenRoot _ w) as [[rh|e] w1]; cbn [fst snd] in Ho.
  2: { do 2 eexists. split; [done|]. split; [apply Ho|done]. }
  destruct Ho as (Hr & Hl & _). set (st := mkDirWalk out newNodeCounter [mkWalkItem dot [] expected]).
  destruct (walk_loop_step walk_fuel rh st w1 [[]]) as (o & w2 & E & Hl2 & Hout).
  { split; simpl; [apply newNodeCounter_ok|repeat constructor|apply NoDup_singleton| |set_solver|set_solver|].
    - constructor; [|constructor]. done.
    - rewrite Hempty. unfold abs_nodes. simpl. set_solver. }
  { assert (0 <= MaxRootFSEntries) by done. unfold walk_fuel. cbn [length]. lia. }
  rewrite E. pose proof (Close_live rh w2) as Hcl. destruct (file_Close rh w2) as [c w3]. cbn [snd] in Hcl.
  do 2 eexists. split; [done|]. split; [rewrite Hcl, Hl2, Hl; by apply opened_then_closed|].
  intros out' Eo. destruct (Hout out' Eo) as (nc & [Hc Hm] & Hn). exists nc. split; [done|]. split; [done|].
  rewrite Hn, size_abs_names. lia.
Qed.


Context `{HT : TarLib} `{HG : GzipLib} `{HZ : ZipLib} `{HTP : !TarProgress} `{HGP : !GzipProgress}.

#[local] Instance bytesReader_Progress : Progress bytesReader.
Proof.
  split; intros [s] n; unfold Read, bytesReader_Read; simpl.
  - intros bs e r'. destruct s; intros [= <- _ _]; simpl; [lia|]. rewrite length_take. lia.
  - intros e r'. destruct s; [by intros [= <- _]|]. by destruct n; [lia|].
Qed.

(** A filesystem within the cap. *)
Definition within_cap (o : res F) : Prop :=
  forall out, o = Ok out -> Z.of_nat (size (fs_nodes out)) <= MaxRootFSEntries.

Lemma tar_load_within {R} `{HR : Reader R} `{!Progress R} name (out : F) (r : R) :
  fs_nodes out = ∅ ->
  exists o, tar_load out name (mkTarReader tar_NewReader r) = Some o /\ within_cap o.
Proof.
  intros Hempty.
  destruct (tar_load_sound (HP := tar_progress R _ _) name out (mkTarReader tar_NewReader r) Hempty)
    as (o & Eo & Ho).
  exists o. split; [done|]. intros out' E. destruct (Ho out' E) as (hs & _ & (_ & _ & _ & Hs) & Hn).
  by rewrite Hn, size_abs_names.
Qed.

Lemma loadRootFSFromReader_within {R} `{HR : Reader R} `{HP : !Progress R} name (out : F) (r : R) :
  fs_nodes out = ∅ -> exists o, loadRootFSFromReader out name r = Some o /\ within_cap o.
Proof.
  intros Hempty. unfold loadRootFSFromReader, peekN. cbn [newPeekReader peeked length src Nat.min Nat.leb Nat.sub].
  destruct (ReadFull_some 2 r 2 []) as [[[bs err] r'] Er]; [simpl; lia|]. rewrite Er. cbn [app].
  assert (Hgo : forall magic, exists o,
    (if is_gzip magic then
       match gzip_NewReader (peekReader R) _ (mkPeekReader r' bs) with
       | (Err e, _) => Some (Err (errors_wrap (name ++ go ": gzip header: ") e))
       | (Ok g, br) => tar_load out name
           (mkTarReader tar_NewReader (newLimitedRootFSTarReader (mkGzipReader g br)))
       end
     else tar_load out name (mkTarReader tar_NewReader (newLimitedRootFSTarReader (mkPeekReader r' bs)))) = Some o
    /\ within_cap o).
  { intros magic. destruct (is_gzip magic); [|by apply tar_load_within].
    destruct (gzip_NewReader _ _ _) as [[g|e] br]; [|by eexists].
    pose proof (gzip_progress (peekReader R) _ _). by apply tar_load_within. }
  destruct err as [[]|]; try apply Hgo. by eexists.
Qed.

(** The scan of the central directory takes an entry per round, whatever is
    read. *)
Lemma scan_loop_some ReadAt fuel cdOffset cdSize consumed entries :
  entries <= MaxRootFSEntries -> MaxRootFSEntries - entries < Z.of_nat fuel ->
  exists o, scan_loop ReadAt fuel cdOffset cdSize consumed entries = Some o.
Proof.
  revert consumed entries. induction fuel as [|fuel IH]; intros consumed entries He Hf; [lia|]. cbn [scan_loop].
  destruct (cdSize <=? consumed); [destruct (negb _); by eexists|]. cbv zeta.
  destruct (_ <? zipCentralDirectoryHeaderSize); [by eexists|].
  destruct (int64_max <? _); [by eexists|].
  destruct (ReadAt _ _) as [hdr [e|]]; [by eexists|].
  destruct (negb _); [by eexists|]. destruct (cdSize - consumed <? _); [by eexists|].
  destruct (MaxRootFSEntries <? entries + 1) eqn:E; bool_simp; [by eexists|].
  destruct (MaxRootFSZipCentralDirectoryBytes <? _); [by eexists|]. apply IH; lia.
Qed.

Lemma preflight_some ReadAt size : exists o, preflightZipDirectory ReadAt size = Some o.
Proof.
  unfold preflightZipDirectory, check_eocd, scanZipCentralDirectory, zip_err.
  destruct (size <? _); [by eexists|]. cbv zeta. destruct (ReadAt _ _) as [tail [e|]]; [by eexists|].
  destruct (findEOCD _ _) as [[i|]|]; [|by eexists..].
  destruct (_ <? _)%nat; [by eexists|]. destruct (_ && _); [by eexists|].
  repeat (match goal with |- exists _, (if ?b then Some _ else _) = _ => destruct b; [by eexists|] end).
  destruct (u32 (drop i tail) 12 =? 0); cbv beta iota; [destruct (negb (0 =? _)); by eexists|].
  destruct (scan_loop_some ReadAt scan_fuel (u32 (drop i tail) 16) (u32 (drop i tail) 12) 0 0) as [[n|e] ->].
  - done.
  - unfold scan_fuel. rewrite Z2Nat.id; done.
  - cbv beta iota. destruct (negb (n =? _)); by eexists.
  - by eexists.
Qed.

Lemma zip_entries_nodes name files (m m' : F * nodeCounter) :
  nodes_match m -> zip_entries name files m = Ok m' -> nodes_match m'.
Proof.
  revert m. induction files as [|zf files IH]; intros m Hm; cbn [zip_entries]; [by intros [= <-]|].
  destruct (zip_entry name zf m) as [m1|e] eqn:E; simpl; [|done].
  apply IH. by apply (zip_entry_done name zf m m1).
Qed.

Lemma loadRootFSFromZip_within name (out : F) ReadAt size :
  fs_nodes out = ∅ -> exists o, loadRootFSFromZip out name ReadAt size = Some o /\ within_cap o.
Proof.
  intros Hempty. unfold loadRootFSFromZip. destruct (preflight_some ReadAt size) as [[u|e] ->]; [|by eexists].
  eexists. split; [done|]. intros out'.
  destruct (zip_NewReader _ _) as [files|]; [|done]. destruct (_ <? _); [done|].
  destruct (zip_entries _ _ _) as [m'|] eqn:E; [|done]. simpl. intros [= <-].
  apply zip_entries_nodes in E as [[Hc Hm] Hn].
  - rewrite Hn, size_abs_names. lia.
  - split; [apply newNodeCounter_ok|]. simpl. by rewrite Hempty.
Qed.

#[local] Instance fileReader_Progress : Progress fileReader.
Proof.
  split; intros r n.
  - intros bs e r'. unfold Read, fileReader_Read.
    destruct (file_ReadAt _ _ _ _) as [b err] eqn:E. apply ReadAt_contract in E as [Hl _].
    by intros [= <- _ _].
  - intros e r'. unfold Read, fileReader_Read.
    destruct (file_ReadAt _ _ _ _) as [b err] eqn:E. apply ReadAt_contract in E as [_ Hp].
    destruct b as [|x b]; [|done]. intros [= <- _] Hn. by apply Hp.
Qed.

(** Opening an archive file, decoding it and closing it. *)
Lemma loadRootFSFromFile_safe file expected (out : F) w :
  fs_nodes out = ∅ ->
  exists o w', loadRootFSFromFile out file expected w = (Some o, w') /\ live w' = live w /\ within_cap o.
Proof.
  intros Hempty. unfold loadRootFSFromFile.
  pose proof (openRootFSChecked_opened file expected w) as Ho. cbv zeta in Ho.
  destruct (openRootFSChecked file expected w) as [[f|e] w1]; cbn [fst snd] in Ho.
  2: { do 2 eexists. split; [done|]. split; [apply Ho|done]. }
  destruct Ho as (Hf & Hl & _). pose proof (Stat_frame f w1) as [Hs _].
  destruct (file_Stat f w1) as [st w2]. cbn [snd] in Hs.
  assert (Hend : forall w3 o, live w3 = live w1 -> within_cap o -> exists o' w',
    (let '(_, w4) := file_Close f w3 in (Some o, w4)) = (Some o', w') /\ live w' = live w /\ within_cap o').
  { intros w3 o Hw3 Hc. pose proof (Close_live f w3) as Hcl. destruct (file_Close f w3) as [c w4].
    cbn [snd] in Hcl. do 2 eexists. split; [done|]. split; [|done]. rewrite Hcl, Hw3, Hl.
    by apply opened_then_closed. }
  destruct st as [info|e]; [|by apply Hend].
  destruct (file_ReadAt w2 f 0 4) as [magic err]. destruct (_ || _).
  - destruct (loadRootFSFromZip_within file out (file_ReadAt w2 f) (ri_Size info) Hempty) as (o & -> & Hc).
    by apply Hend.
  - pose proof (Seek_frame f 0 w2) as [Hk _]. destruct (file_Seek f 0 w2) as [[u|e] w3]; cbn [snd] in Hk.
    + destruct (loadRootFSFromReader_within file out (mkFileReader _ w3 f 0) Hempty) as (o & -> & Hc).
      apply Hend; [congruence|done].
    + apply Hend; [congruence|done].
Qed.

Lemma wrap_load_safe prefix (r : option (res F) * world) o w' w :
  r = (Some o, w') -> live w' = live w -> within_cap o ->
  exists o' w2, wrap_load prefix r = (Some o', w2) /\ live w2 = live w /\ within_cap o' /\ is_ok o' = is_ok o.
Proof. intros -> Hl Hc. destruct o; by do 2 eexists. Qed.

(** C6. [LoadRootFS] returns for every configuration and every host; no file it
    opened stays open, whichever way it ends; and the filesystem it returns, if
    it returns one, has at most 10000 nodes below the root. *)
Theorem LoadRootFS_safe (memfs : F) embeddedFsGzip c w :
  fs_nodes memfs = ∅ ->
  exists o w', LoadRootFS memfs embeddedFsGzip c w = (Some o, w') /\ live w' = live w /\
    forall fs, o = Ok fs -> Z.of_nat (size (fs_nodes fs)) <= MaxRootFSEntries.
Proof.
  intros Hempty. unfold LoadRootFS. destruct c as [c|]; [|by do 2 eexists].
  destruct (rootFS c =s []).
  { edestruct (loadRootFSFromReader_within (R := bytesReader)) as (o & E & Hc); [exact Hempty|]. rewrite E.
    destruct (wrap_load_safe (go "fakeshell: load embedded rootfs: ") _ o w w eq_refl eq_refl Hc)
      as (o' & w' & ? & ? & ? & _). eauto. }
  cbv zeta. pose proof (Lstat_frame (rootFS c) w) as [Hl _].
  destruct (os_Lstat (rootFS c) w) as [[info|e] w1]; cbn [snd] in Hl; [|by do 2 eexists].
  destruct (rejectSpecial _ _); [|by do 2 eexists].
  destruct (mode_IsDir _).
  - destruct (loadRootFSFromDir_safe (rootFS c) info memfs w1 Hempty) as (o & w2 & E & Hl2 & Ho).
    edestruct wrap_load_safe as (o' & w' & ? & ? & ? & _); [exact E|rewrite Hl2; exact Hl| |eauto].
    intros out' Eo. by destruct (Ho out' Eo) as (nc & _ & _ & ?).
  - destruct (loadRootFSFromFile_safe (rootFS c) info memfs w1 Hempty) as (o & w2 & E & Hl2 & Ho).
    edestruct wrap_load_safe as (o' & w' & ? & ? & ? & _); [exact E|rewrite Hl2; exact Hl|done|eauto].
Qed.
End LoadTheorems.

(** ** A concrete host *)

(** A directory [/srv/root] with a file [hello] and a directory [etc] with a file
    [passwd]; an open file is a path and the number of names it has returned. *)
Definition sample_children (p : gostring) : list gostring :=
  if p =s dot then [go "etc"; go "hello"]
  else if p =s go "etc" then [go "passwd"]
  else [].

Definition sample_info (p : gostring) : res rootInfo :=
  if (p =s go "/srv/root") || (p =s dot) then Ok (mkRootInfo ModeDir 0 0)
  else if p =s go "etc" then Ok (mkRootInfo ModeDir 0 1)
  else if p =s go "hello" then Ok (mkRootInfo 0 5 2)
  else if p =s go "etc/passwd" then Ok (mkRootInfo 0 7 3)
  else Err (errors_New (go "no such file or directory")).

Abbreviation sample_world := (gmap nat (gostring * nat)).

Definition new_handle (w : sample_world) : nat := S (max_list (elements (dom w))).

Definition sample_open (p : gostring) (w : sample_world) : res nat * sample_world :=
  match sample_info p with
  | Err e => (Err e, w)
  | Ok _ => (Ok (new_handle w), <[new_handle w := (p, 0%nat)]> w)
  end.

Definition sample_readdir (d n : nat) (w : sample_world) : (list gostring * option ioerr) * sample_world :=
  match w !! d with
  | None => ([], Some (ioErr (errors_New (go "file already closed"))), w)
  | Some (p, k) =>
      let names := take n (drop k (sample_children p)) in
      (names, match names with [] => Some ioEOF | _ => None end, <[d := (p, k + length names)%nat]> w)
  end.

Definition sampleHost : RootHost := {|
  world := sample_world;
  os_Lstat := fun p w => (sample_info p, w);
  os_OpenFile := sample_open;
  os_OpenRoot := fun p w => sample_open dot w;
  root_OpenFile := fun _ p w => sample_open p w;
  root_Lstat := fun _ p w => (sample_info p, w);
  file_Stat := fun f w =>
    (match w !! f with Some (p, _) => sample_info p | None => Err (errors_New (go "file already closed")) end, w);
  file_ReadDir := sample_readdir;
  file_ReadAt := fun _ _ _ _ => ([], Some ioEOF);
  file_Seek := fun _ _ w => (Ok tt, w);
  file_Close := fun f w => (Ok tt, delete f w)
|}.

Lemma new_handle_fresh w : new_handle w ∉ dom w.
Proof.
  intros Hin. apply elem_of_elements in Hin. apply max_list_elem_of_le in Hin. unfold new_handle in Hin. lia.
Qed.

Lemma sample_children_ok p : NoDup (sample_children p) /\ Forall entry_name (sample_children p).
Proof.
  unfold sample_children. destruct (p =s dot); [|destruct (p =s go "etc")];
    (split; [repeat constructor; vm_compute; set_solver|
             repeat constructor; try done; vm_compute; set_solver]).
Qed.

Definition sample_listed (w : sample_world) (d : nat) : list gostring :=
  match w !! d with Some (p, k) => take k (sample_children p) | None => [] end.

Lemma sample_opened p w :
  match (sample_open p w).1 with
  | Ok f => (f ∉ dom w) /\ dom (sample_open p w).2 = {[f]} ∪ dom w /\ sample_listed (sample_open p w).2 f = [] /\
            forall d, d ∈ dom w -> sample_listed (sample_open p w).2 d = sample_listed w d
  | Err _ => dom (sample_open p w).2 = dom w /\
             forall d, d ∈ dom w -> sample_listed (sample_open p w).2 d = sample_listed w d
  end.
Proof.
  unfold sample_open. destruct (sample_info p); cbn [fst snd]; [|done].
  pose proof (new_handle_fresh w) as Hf. split; [done|]. split; [apply dom_insert_L|].
  split; [unfold sample_listed; by rewrite lookup_insert_eq|].
  intros d Hd. unfold sample_listed. rewrite lookup_insert_ne; [done|]. by intros <-.
Qed.

Lemma sample_readdir_live d n w : dom (sample_readdir d n w).2 = dom w.
Proof.
  unfold sample_readdir. destruct (w !! d) as [[p k]|] eqn:E; simpl; [|done].
  rewrite dom_insert_L. apply elem_of_dom_2 in E. set_solver.
Qed.

Lemma sample_readdir_listed d n w names e w' :
  sample_readdir d n w = (names, e, w') -> d ∈ dom w ->
  sample_listed w' d = sample_listed w d ++ names /\
  NoDup (sample_listed w d ++ names) /\ Forall entry_name names.
Proof.
  unfold sample_readdir. destruct (w !! d) as [[p k]|] eqn:E.
  2: { intros _ Hd. apply not_elem_of_dom in E. done. }
  intros [= <- _ <-] _. unfold sample_listed. rewrite E, lookup_insert_eq.
  destruct (sample_children_ok p) as [Hnd Hok].
  assert (Ht : take (k + length (take n (drop k (sample_children p)))) (sample_children p) =
               take k (sample_children p) ++ take n (drop k (sample_children p))).
  { rewrite <- (take_take_drop (sample_children p) k). f_equal. rewrite length_take.
    destruct (decide (n <= length (drop k (sample_children p)))%nat); [by rewrite Nat.min_l by lia|].
    rewrite Nat.min_r by lia. by rewrite !take_ge by lia. }
  split; [done|]. rewrite <- Ht. split; [eapply sublist_NoDup; [exact Hnd|apply sublist_take]|].
  by apply Forall_take, Forall_drop.
Qed.

Lemma sample_close_listed f (w : sample_world) d :
  d <> f -> d ∈ dom w -> sample_listed (delete f w) d = sample_listed w d.
Proof. intros Hd _. unfold sample_listed. by rewrite lookup_delete_ne. Qed.

#[export] Instance sampleHost_laws : @RootHostLaws sampleHost.
Proof.
  refine (@Build_RootHostLaws sampleHost (fun w => dom w) sample_listed _ _ _ _ _ _ _ _ _ _ _ _);
    try (intros; split; done).
  - exact sample_opened.
  - exact (fun _ => sample_opened dot).
  - exact (fun _ => sample_opened).
  - exact (fun f w => dom_delete_L w f).
  - exact sample_close_listed.
  - exact sample_readdir_live.
  - exact sample_readdir_listed.
  - intros w f off n bs e [= <- <-]. simpl. split; [lia|done].
Defined.

(** A gzip package that refuses every stream. *)
Definition noGzip : GzipLib := {|
  gzState := unit;
  gzip_NewReader := fun _ _ r => (Err (errors_New (go "gzip: invalid header")), r);
  gzip_Read := fun _ _ s r _ => ([], Some ioEOF, s, r)
|}.

Definition noGzip_progress : @GzipProgress noGzip.
Proof.
  intros R HR _. split; intros [[] r] n; unfold Read, gzipReader_Read; simpl.
  - intros bs e r' [= <- _ _]. simpl. lia.
  - by intros e r' [= <- _].
Qed.

Definition scriptedTar_progressive entries : @TarProgress (scriptedTar entries) :=
  fun R HR _ => scriptedTar_progress entries.

Definition sample_config : FakeshellConfig :=
  mkFakeshellConfig true (mkEnvConfig [] [] [] [] [] false ∅) (go "/srv/root") (mkLogConfig false [] []).

Definition sample_load : option (res (gset gostring)) * sample_world :=
  @LoadRootFS (gset gostring) setFs ascii_tables sampleHost (scriptedTar []) noGzip (listed_zip [])
    ∅ [] (Some sample_config) ∅.

Lemma LoadRootFS_safe_witness :
  match sample_load with
  | (Some (Ok f), w) => bool_decide (f = {[go "/etc"; go "/etc/passwd"; go "/hello"]}) && bool_decide (w = ∅)
  | _ => false
  end = true /\
  exists o w', sample_load = (Some o, w') /\ dom w' = dom (∅ : sample_world).
Proof.
  split; [vm_compute; reflexivity|].
  destruct (@LoadRootFS_safe (gset gostring) setFs setFs_laws ascii_tables sampleHost sampleHost_laws
    (scriptedTar []) noGzip (listed_zip []) (scriptedTar_progressive []) noGzip_progress
    ∅ [] (Some sample_config) ∅ eq_refl) as (o & w' & E & Hl & _).
  exists o, w'. split; [exact E|exact Hl].
Defined.
