(* ===== verification/Poly1305.v ===== *)
(** * Poly1305: [third/ssh/internal/poly1305] ([poly1305.go], [sum_generic.go]).

    The authenticator of chacha20-poly1305@openssh.com.  The code keeps the
    130-bit accumulator in three 64-bit limbs and reduces it only partially; the
    words are [Z] with their wrap-around written out, and a Go panic is [None].
    The assembly variants are not modelled: the generic code is what they
    implement.

    Proved: on every key and message, written in any pieces, no panic occurs and
    the tag is the polynomial evaluation modulo [2^130 - 5] of the specification. *)
From Stdlib Require Import Ascii String ZArith Lia.
From stdpp Require Import base gmap strings list.
From S2P Require Import Prelude GoStrings GoIO.
Local Open Scope Z_scope.

(** ** Package [math/bits] *)
Definition W : Z := 2 ^ 64.
Definition Add64 (x y carry : Z) : Z * Z := ((x + y + carry) mod W, (x + y + carry) / W).
Definition Sub64 (x y borrow : Z) : Z * Z :=
  ((x - y - borrow) mod W, if x - y - borrow <? 0 then 1 else 0).
Definition Mul64 (x y : Z) : Z * Z := (x * y / W, (x * y) mod W).
(** [^x] on [uint64]. *)
Definition not64 (x : Z) : Z := W - 1 - x.

(** ** State *)
Definition TagSize : nat := 16.
Record macState := mkMacState { h : Z * Z * Z; r : Z * Z; s : Z * Z }.
Record macGeneric := mkMacGeneric { state : macState; buffer : gostring; offset : nat }.

Definition rMask0 : Z := 0x0FFFFFFC0FFFFFFF.
Definition rMask1 : Z := 0x0FFFFFFC0FFFFFFC.

Definition Uint64 (b : gostring) (i : nat) : Z := le_value (slice b i 8).

Definition initialize (key : gostring) : macState :=
  mkMacState (0, 0, 0)
    (Z.land (Uint64 key 0) rMask0, Z.land (Uint64 key 8) rMask1)
    (Uint64 key 16, Uint64 key 24).

Definition newMACGeneric (key : gostring) : macGeneric :=
  mkMacGeneric (initialize key) (replicate TagSize chNUL) 0.

(** ** 128-bit numbers *)
Record uint128 := mkUint128 { lo : Z; hi : Z }.
Definition mul64 (a b : Z) : uint128 := let '(hi, lo) := Mul64 a b in mkUint128 lo hi.
Definition add128 (a b : uint128) : option uint128 :=
  let '(l, c) := Add64 (lo a) (lo b) 0 in
  let '(u, c) := Add64 (hi a) (hi b) c in
  if negb (c =? 0) then None else Some (mkUint128 l u).
Definition shiftRightBy2 (a : uint128) : uint128 :=
  mkUint128 (Z.lor (Z.shiftr (lo a) 2) (Z.shiftl (Z.land (hi a) 3) 62 mod W)) (Z.shiftr (hi a) 2).

Definition maskLow2Bits : Z := 3.
Definition maskNotLow2Bits : Z := not64 maskLow2Bits.

(** ** Absorbing *)

(** [h + m], with the bit above the chunk: a full chunk or the last one. *)
Definition add_chunk (hh : Z * Z * Z) (msg : gostring) : Z * Z * Z :=
  let '(h0, h1, h2) := hh in
  if (TagSize <=? length msg)%nat then
    let '(h0, c) := Add64 h0 (Uint64 msg 0) 0 in
    let '(h1, c) := Add64 h1 (Uint64 msg 8) c in
    (h0, h1, (h2 + (c + 1)) mod W)
  else
    let buf := msg ++ vb 1 :: replicate (TagSize - length msg - 1) chNUL in
    let '(h0, c) := Add64 h0 (Uint64 buf 0) 0 in
    let '(h1, c) := Add64 h1 (Uint64 buf 8) c in
    (h0, h1, (h2 + c) mod W).

(** [h * r], four limbs. *)
Definition mul_limbs (hh : Z * Z * Z) (rr : Z * Z) : option (Z * Z * Z * Z) :=
  let '(h0, h1, h2) := hh in
  let '(r0, r1) := rr in
  let h0r0 := mul64 h0 r0 in
  let h1r0 := mul64 h1 r0 in
  let h2r0 := mul64 h2 r0 in
  let h0r1 := mul64 h0 r1 in
  let h1r1 := mul64 h1 r1 in
  let h2r1 := mul64 h2 r1 in
  if negb (hi h2r0 =? 0) then None
  else if negb (hi h2r1 =? 0) then None
  else
    let m0 := h0r0 in
    m1 ← add128 h1r0 h0r1;
    m2 ← add128 h2r0 h1r1;
    let m3 := h2r1 in
    let t0 := lo m0 in
    let '(t1, c) := Add64 (lo m1) (hi m0) 0 in
    let '(t2, c) := Add64 (lo m2) (hi m1) c in
    let '(t3, _) := Add64 (lo m3) (hi m2) c in
    Some (t0, t1, t2, t3).

(** The partial reduction modulo [2^130 - 5]. *)
Definition reduce_limbs (t : Z * Z * Z * Z) : Z * Z * Z :=
  let '(t0, t1, t2, t3) := t in
  let '(h0, h1, h2) := (t0, t1, Z.land t2 maskLow2Bits) in
  let cc := mkUint128 (Z.land t2 maskNotLow2Bits) t3 in
  let '(h0, c) := Add64 h0 (lo cc) 0 in
  let '(h1, c) := Add64 h1 (hi cc) c in
  let h2 := (h2 + c) mod W in
  let cc := shiftRightBy2 cc in
  let '(h0, c) := Add64 h0 (lo cc) 0 in
  let '(h1, c) := Add64 h1 (hi cc) c in
  (h0, h1, (h2 + c) mod W).

(** The loop; a round takes a chunk of at most [TagSize] bytes. *)
Fixpoint update_loop (fuel : nat) (hh : Z * Z * Z) (rr : Z * Z) (msg : gostring) : option (Z * Z * Z) :=
  match msg with
  | [] => Some hh
  | _ =>
      match fuel with
      | O => Some hh
      | S fuel =>
          t ← mul_limbs (add_chunk hh msg) rr;
          update_loop fuel (reduce_limbs t) rr (drop TagSize msg)
      end
  end.

Definition updateGeneric (st : macState) (msg : gostring) : option macState :=
  hh ← update_loop (length msg) (h st) (r st) msg;
  Some (mkMacState hh (r st) (s st)).

(** [copy(buffer[offset:], p)]. *)
Definition copy_at (buf : gostring) (off : nat) (p : gostring) : gostring * nat :=
  let n := Nat.min (length buf - off) (length p) in
  (take off buf ++ take n p ++ drop (off + n) buf, n).

(** The part of [Write] after the buffer is empty. *)
Definition write_chunks (m : macGeneric) (p : gostring) : option macGeneric :=
  let n := (length p - length p mod TagSize)%nat in
  st ← (if (0 <? n)%nat then updateGeneric (state m) (take n p) else Some (state m));
  let p := if (0 <? n)%nat then drop n p else p in
  if (0 <? length p)%nat then
    let '(buf, k) := copy_at (buffer m) (offset m) p in
    Some (mkMacGeneric st buf (offset m + k))
  else Some (mkMacGeneric st (buffer m) (offset m)).

Definition macGeneric_Write (m : macGeneric) (p : gostring) : option macGeneric :=
  if (0 <? offset m)%nat then
    let '(buf, n) := copy_at (buffer m) (offset m) p in
    if (offset m + n <? TagSize)%nat then Some (mkMacGeneric (state m) buf (offset m + n))
    else
      st ← updateGeneric (state m) buf;
      write_chunks (mkMacGeneric st buf 0) (drop n p)
  else write_chunks m p.

(** ** The tag *)
Definition select64 (v x y : Z) : Z :=
  Z.lor (Z.land (not64 ((v - 1) mod W)) x) (Z.land ((v - 1) mod W) y).

Definition p0 : Z := 0xFFFFFFFFFFFFFFFB.
Definition p1 : Z := 0xFFFFFFFFFFFFFFFF.
Definition p2 : Z := 0x0000000000000003.

Definition finalize (hh : Z * Z * Z) (ss : Z * Z) : gostring :=
  let '(h0, h1, h2) := hh in
  let '(hMinusP0, b) := Sub64 h0 p0 0 in
  let '(hMinusP1, b) := Sub64 h1 p1 b in
  let '(_, b) := Sub64 h2 p2 b in
  let h0 := select64 b h0 hMinusP0 in
  let h1 := select64 b h1 hMinusP1 in
  let '(h0, c) := Add64 h0 (fst ss) 0 in
  let '(h1, _) := Add64 h1 (snd ss) c in
  le_bytes 8 h0 ++ le_bytes 8 h1.

Definition macGeneric_Sum (m : macGeneric) : option gostring :=
  st ← (if (0 <? offset m)%nat then updateGeneric (state m) (take (offset m) (buffer m)) else Some (state m));
  Some (finalize (h st) (s st)).

Definition sumGeneric (msg key : gostring) : option gostring :=
  m ← macGeneric_Write (newMACGeneric key) msg; macGeneric_Sum m.

(** ** [MAC], [Sum] and [Verify] *)
Record MAC := mkMAC { mac : macGeneric; finalized : bool }.
Definition New (key : gostring) : MAC := mkMAC (mkMacGeneric (initialize key) (replicate TagSize chNUL) 0) false.
Definition MAC_Write (m : MAC) (p : gostring) : option MAC :=
  if finalized m then None else g ← macGeneric_Write (mac m) p; Some (mkMAC g false).
Definition MAC_Sum (m : MAC) (b : gostring) : option (gostring * MAC) :=
  out ← macGeneric_Sum (mac m); Some (b ++ out, mkMAC (mac m) true).
Definition MAC_Verify (m : MAC) (expected : gostring) : option (bool * MAC) :=
  out ← macGeneric_Sum (mac m); Some (expected =s out, mkMAC (mac m) true).

Definition Sum (m key : gostring) : option gostring :=
  g ← MAC_Write (New key) m; x ← MAC_Sum g []; Some (fst x).
Definition Verify (tag m key : gostring) : option bool :=
  tmp ← Sum m key; Some (tmp =s tag).

(** The first test vector of RFC 8439, section 2.5.2. *)
Example rfc8439_vector :
  Sum (go "Cryptographic Forum Research Group")
      (map vb [0x85;0xd6;0xbe;0x78;0x57;0x55;0x6d;0x33;0x7f;0x44;0x52;0xfe;0x42;0xd5;0x06;0xa8;
               0x01;0x03;0x80;0x8a;0xfb;0x0d;0xb2;0xfd;0x4a;0xbf;0xf6;0xaf;0x41;0x49;0xf5;0x1b])
  = Some (map vb [0xa8;0x06;0x1d;0xc1;0x30;0x51;0x36;0xc6;0xc2;0x2b;0x8b;0xaf;0x0c;0x01;0x27;0xa9]).
Proof. vm_compute. reflexivity. Qed.

(** ** Specification *)
Definition P : Z := 2 ^ 130 - 5.

(** A chunk as a number: its bytes, little-endian, and a bit above them. *)
Definition block (c : gostring) : Z := le_value c + 256 ^ len c.

(** The chunks of a message, the last one possibly shorter. *)
Fixpoint chunks_fuel (fuel : nat) (msg : gostring) : list gostring :=
  match msg, fuel with
  | [], _ => []
  | _, O => []
  | _, S fuel => take TagSize msg :: chunks_fuel fuel (drop TagSize msg)
  end.
Definition chunks (msg : gostring) : list gostring := chunks_fuel (length msg) msg.

(** [((m1 * r + m2) * r + ...) * r]: the polynomial, by Horner's rule. *)
Definition horner (rr : Z) (acc : Z) (cs : list gostring) : Z :=
  fold_left (fun a c => (a + block c) * rr) cs acc.

Definition key_r (key : gostring) : Z := Z.land (le_value (take 16 key)) 0x0ffffffc0ffffffc0ffffffc0fffffff.
Definition key_s (key : gostring) : Z := le_value (slice key 16 16).

Definition poly1305_tag (msg key : gostring) : gostring :=
  le_bytes 16 (horner (key_r key) 0 (chunks msg) mod P + key_s key).

(** ** Limbs *)
Definition val3 (hh : Z * Z * Z) : Z := let '(h0, h1, h2) := hh in h0 + W * h1 + W * W * h2.
Definition val4 (t : Z * Z * Z * Z) : Z :=
  let '(t0, t1, t2, t3) := t in t0 + W * t1 + W * W * t2 + W * W * W * t3.
Definition word (x : Z) : Prop := 0 <= x < W.
(** Limbs with the top one at most [k]. *)
Definition limbs (k : Z) (hh : Z * Z * Z) : Prop :=
  let '(h0, h1, h2) := hh in word h0 /\ word h1 /\ 0 <= h2 <= k.

Lemma W_pos : 0 < W.
Proof. done. Qed.

Lemma Add64_spec x y c v k :
  word x -> word y -> 0 <= c <= 1 -> Add64 x y c = (v, k) ->
  v + W * k = x + y + c /\ word v /\ 0 <= k <= 1.
Proof.
  unfold Add64, word. intros Hx Hy Hc [= <- <-]. pose proof W_pos.
  pose proof (Z.div_mod (x + y + c) W ltac:(lia)). pose proof (Z.mod_pos_bound (x + y + c) W ltac:(lia)).
  split; [lia|]. split; [lia|]. split; [apply Z.div_pos; lia|].
  apply Z.lt_succ_r. apply Z.div_lt_upper_bound; lia.
Qed.

Lemma mul64_spec a b : word a -> word b -> lo (mul64 a b) + W * hi (mul64 a b) = a * b /\
  word (lo (mul64 a b)) /\ word (hi (mul64 a b)).
Proof.
  unfold mul64, Mul64, word. simpl. intros Ha Hb. pose proof W_pos.
  pose proof (Z.div_mod (a * b) W ltac:(lia)). pose proof (Z.mod_pos_bound (a * b) W ltac:(lia)).
  split; [lia|]. split; [lia|]. split; [apply Z.div_pos; nia|]. apply Z.div_lt_upper_bound; nia.
Qed.

Definition val2 (u : uint128) : Z := lo u + W * hi u.
Definition words (u : uint128) : Prop := word (lo u) /\ word (hi u).

Lemma add128_spec a b :
  words a -> words b -> val2 a + val2 b < W * W ->
  exists u, add128 a b = Some u /\ words u /\ val2 u = val2 a + val2 b.
Proof.
  intros [Ha1 Ha2] [Hb1 Hb2] Hlt. unfold add128, val2 in *.
  destruct (Add64 (lo a) (lo b) 0) as [l c] eqn:E1. apply Add64_spec in E1 as (E1 & Hl & Hc); [|done|done|lia].
  destruct (Add64 (hi a) (hi b) c) as [u c2] eqn:E2. apply Add64_spec in E2 as (E2 & Hu & Hc2); [|done|done|lia].
  assert (c2 = 0) as -> by (unfold word in *; nia). simpl. eexists. split; [done|].
  split; [split; done|]. simpl. lia.
Qed.

(** *** Reading words *)
Lemma Uint64_word b i : word (Uint64 b i).
Proof.
  unfold word, Uint64. split; [apply le_value_nonneg|]. eapply Z.lt_le_trans; [apply le_value_bound|].
  change W with (256 ^ 8). apply Z.pow_le_mono_r; [lia|]. unfold len, slice. rewrite length_take. lia.
Qed.

Lemma Uint64_pair b i :
  (i + 16 <= length b)%nat -> Uint64 b i + W * Uint64 b (i + 8) = le_value (slice b i 16).
Proof.
  intros Hl. unfold Uint64.
  replace (slice b i 16) with (slice b i 8 ++ slice b (i + 8) 8).
  - rewrite le_value_app. f_equal. unfold len. rewrite length_slice by lia. reflexivity.
  - unfold slice. rewrite <- drop_drop. apply take_take_drop.
Qed.

Lemma block_nonneg c : 0 <= block c.
Proof. unfold block. pose proof (le_value_nonneg c). pose proof (len_nonneg c). nia. Qed.

Lemma add_chunk_spec hh msg :
  limbs 5 hh -> msg <> [] ->
  limbs 7 (add_chunk hh msg) /\ val3 (add_chunk hh msg) = val3 hh + block (take TagSize msg).
Proof.
  destruct hh as [[h0 h1] h2]. intros (H0 & H1 & H2) Hne. unfold add_chunk. cbv zeta.
  assert (Hsmall : forall x, 0 <= x <= 7 -> x mod W = x) by (intros x Hx; apply Z.mod_small; pose proof W_pos; assert (7 < W) by done; lia).
  destruct (TagSize <=? length msg)%nat eqn:El.
  - apply Nat.leb_le in El.
    destruct (Add64 h0 _ 0) as [a c] eqn:E1. apply Add64_spec in E1 as (E1 & Ha & Hc); [|done|apply Uint64_word|lia].
    destruct (Add64 h1 _ c) as [b d] eqn:E2. apply Add64_spec in E2 as (E2 & Hb & Hd); [|done|apply Uint64_word|lia].
    rewrite Hsmall by lia. split; [split; [done|]; split; [done|lia]|].
    unfold val3, block. pose proof (Uint64_pair msg 0 El) as Hp. unfold slice in Hp. rewrite drop_0 in Hp.
    unfold TagSize in *. rewrite <- Hp. unfold len. rewrite length_take, Nat.min_l by lia.
    change (256 ^ Z.of_nat 16) with (W * W). simpl Nat.add. nia.
  - apply Nat.leb_gt in El. set (buf := msg ++ _).
    assert (Hlb : length buf = 16%nat).
    { unfold buf, TagSize in *. rewrite length_app. simpl. rewrite length_replicate. lia. }
    assert (Hvb : le_value buf = block msg).
    { unfold buf, block. rewrite le_value_app. cbn [le_value].
      replace (le_value (replicate _ chNUL)) with 0; [rewrite bv_vb by lia; lia|].
      generalize (TagSize - length msg - 1)%nat. induction n as [|n IH]; [done|]. cbn [replicate le_value].
      rewrite <- IH. reflexivity. }
    destruct (Add64 h0 _ 0) as [a c] eqn:E1. apply Add64_spec in E1 as (E1 & Ha & Hc); [|done|apply Uint64_word|lia].
    destruct (Add64 h1 _ c) as [b d] eqn:E2. apply Add64_spec in E2 as (E2 & Hb & Hd); [|done|apply Uint64_word|lia].
    rewrite Hsmall by lia. split; [split; [done|]; split; [done|lia]|].
    unfold val3. rewrite (take_ge msg) by lia. rewrite <- Hvb.
    pose proof (Uint64_pair buf 0 ltac:(lia)) as Hp. unfold slice in Hp. rewrite drop_0 in Hp.
    rewrite (take_ge buf) in Hp by lia. rewrite <- Hp. simpl Nat.add. nia.
Qed.

Lemma mul_limbs_spec hh r0 r1 :
  limbs 7 hh -> 0 <= r0 < 2 ^ 60 -> 0 <= r1 < 2 ^ 60 ->
  exists t, mul_limbs hh (r0, r1) = Some t /\ val4 t = val3 hh * (r0 + W * r1) /\
    (let '(t0, t1, t2, t3) := t in word t0 /\ word t1 /\ word t2 /\ word t3).
Proof.
  destruct hh as [[h0 h1] h2]. intros (H0 & H1 & H2) Hr0 Hr1. unfold mul_limbs. cbv zeta.
  assert (HW : W = 16 * 2 ^ 60) by done.
  assert (Wr0 : word r0) by (unfold word; lia). assert (Wr1 : word r1) by (unfold word; lia).
  assert (Wh2 : word h2) by (unfold word; lia).
  destruct (mul64_spec h0 r0 H0 Wr0) as (E00 & L00 & U00). destruct (mul64_spec h1 r0 H1 Wr0) as (E10 & L10 & U10).
  destruct (mul64_spec h2 r0 Wh2 Wr0) as (E20 & L20 & U20). destruct (mul64_spec h0 r1 H0 Wr1) as (E01 & L01 & U01).
  destruct (mul64_spec h1 r1 H1 Wr1) as (E11 & L11 & U11). destruct (mul64_spec h2 r1 Wh2 Wr1) as (E21 & L21 & U21).
  set (a00 := mul64 h0 r0) in *. set (a10 := mul64 h1 r0) in *. set (a20 := mul64 h2 r0) in *.
  set (a01 := mul64 h0 r1) in *. set (a11 := mul64 h1 r1) in *. set (a21 := mul64 h2 r1) in *.
  clearbody a00 a10 a20 a01 a11 a21. unfold word in *.
  assert (B20 : h2 * r0 < 7 * 2 ^ 60) by nia. assert (B21 : h2 * r1 < 7 * 2 ^ 60) by nia.
  assert (hi a20 = 0) as Z20 by nia. assert (hi a21 = 0) as Z21 by nia. rewrite Z20, Z21. simpl negb. cbv iota.
  assert (B10 : h1 * r0 <= (W - 1) * (2 ^ 60 - 1)) by nia. assert (B01 : h0 * r1 <= (W - 1) * (2 ^ 60 - 1)) by nia.
  assert (B11 : h1 * r1 <= (W - 1) * (2 ^ 60 - 1)) by nia. assert (B00 : h0 * r0 <= (W - 1) * (2 ^ 60 - 1)) by nia.
  destruct (add128_spec a10 a01) as (m1 & -> & [Wm1l Wm1h] & Em1); [split; done..|unfold val2; nia|].
  destruct (add128_spec a20 a11) as (m2 & -> & [Wm2l Wm2h] & Em2); [split; done..|unfold val2; nia|].
  unfold val2 in *. cbn [mbind option_bind].
  destruct (Add64 (lo m1) (hi a00) 0) as [t1 c1] eqn:E1. apply Add64_spec in E1 as (E1 & W1 & C1); [|done|done|lia].
  destruct (Add64 (lo m2) (hi m1) c1) as [t2 c2] eqn:E2. apply Add64_spec in E2 as (E2 & W2 & C2); [|done|done|lia].
  destruct (Add64 (lo a21) (hi m2) c2) as [t3 c3] eqn:E3. apply Add64_spec in E3 as (E3 & W3 & C3); [|done|done|lia].
  unfold word in *. assert (Hm2 : hi m2 <= 2 ^ 60) by nia. assert (c3 = 0) as -> by nia.
  eexists. split; [done|]. split; [|done]. clear -E00 E10 E20 E01 E11 E21 Z20 Z21 Em1 Em2 E1 E2 E3. unfold val4, val3.
  assert (E20' : lo a20 = h2 * r0) by lia. assert (E21' : lo a21 = h2 * r1) by lia.
  replace ((h0 + W * h1 + W * W * h2) * (r0 + W * r1))
    with (h0 * r0 + W * (h1 * r0 + h0 * r1) + W * W * (h2 * r0 + h1 * r1) + W * W * W * (h2 * r1)) by ring.
  assert (T1 : t1 = lo m1 + hi a00 - W * c1) by lia. assert (T2 : t2 = lo m2 + hi m1 + c1 - W * c2) by lia.
  assert (T3 : t3 = lo a21 + hi m2 + c2) by lia.
  assert (L1 : lo m1 = h1 * r0 + h0 * r1 - W * hi m1) by lia.
  assert (L2 : lo m2 = h2 * r0 + h1 * r1 - W * hi m2) by lia.
  assert (L0 : lo a00 = h0 * r0 - W * hi a00) by lia.
  rewrite T1, T2, T3, L1, L2, L0, E21'. ring.
Qed.

(** *** Masks and shifts *)
Lemma lor_disjoint a b : Z.land a b = 0 -> Z.lor a b = a + b.
Proof. intros Hd. by rewrite Z.add_nocarry_lxor, Z.lxor_lor. Qed.

Lemma lor_shiftl a b n : 0 <= n -> 0 <= a < 2 ^ n -> Z.lor a (Z.shiftl b n) = a + b * 2 ^ n.
Proof.
  intros Hn Ha. rewrite <- Z.shiftl_mul_pow2 by done. apply lor_disjoint.
  apply Z.bits_inj'. intros k Hk. rewrite Z.land_spec, Z.bits_0.
  destruct (Z_lt_le_dec k n) as [Hlt|Hge].
  - by rewrite Z.shiftl_spec_low, andb_false_r.
  - rewrite <- (Z.mod_small a (2 ^ n)) by done. rewrite Z.mod_pow2_bits_high by lia. done.
Qed.

Lemma split_low2 t : word t ->
  Z.land t maskLow2Bits = t mod 4 /\ Z.land t maskNotLow2Bits = 4 * (t / 4).
Proof.
  intros Ht. assert (H1 : Z.land t maskLow2Bits = t mod 4) by (apply (Z.land_ones t 2); lia).
  split; [done|].
  assert (H2 : Z.land t maskLow2Bits + Z.land t maskNotLow2Bits = t).
  { rewrite <- lor_disjoint.
    - rewrite <- Z.land_lor_distr_r. change (Z.lor maskLow2Bits maskNotLow2Bits) with (Z.ones 64).
      rewrite Z.land_ones by lia. by apply Z.mod_small.
    - rewrite (Z.land_comm t maskLow2Bits), Z.land_assoc, <- (Z.land_assoc maskLow2Bits), Z.land_diag.
      rewrite (Z.land_comm maskLow2Bits t), <- Z.land_assoc.
      change (Z.land maskLow2Bits maskNotLow2Bits) with 0. apply Z.land_0_r. }
  pose proof (Z.div_mod t 4 ltac:(lia)). lia.
Qed.

Lemma shiftRightBy2_spec u :
  words u -> words (shiftRightBy2 u) /\ val2 (shiftRightBy2 u) = val2 u / 4.
Proof.
  intros [Hl Hh]. unfold shiftRightBy2, words, val2, word in *. cbn [lo hi].
  assert (HW : W = 4 * 2 ^ 62) by done.
  change 3 with (Z.ones 2). rewrite Z.land_ones, !Z.shiftr_div_pow2 by lia. change (2 ^ 2) with 4.
  pose proof (Z.mod_pos_bound (hi u) 4 ltac:(lia)) as Hm. pose proof (Z.div_mod (hi u) 4 ltac:(lia)) as Hd.
  pose proof (Z.div_mod (lo u) 4 ltac:(lia)) as Hdl. pose proof (Z.mod_pos_bound (lo u) 4 ltac:(lia)) as Hml.
  rewrite Z.shiftl_mul_pow2, (Z.mod_small (_ * 2 ^ 62)) by lia.
  rewrite <- Z.shiftl_mul_pow2, lor_shiftl by lia.
  split; [split; lia|].
  replace (lo u + W * hi u) with (lo u mod 4 + (lo u / 4 + 2 ^ 62 * hi u) * 4) by lia.
  rewrite Z.div_add, (Z.div_small (lo u mod 4)) by lia. lia.
Qed.

(** *** The partial reduction *)
Lemma add_pair h0 h1 u v k w j :
  word h0 -> word h1 -> words u ->
  Add64 h0 (lo u) 0 = (v, k) -> Add64 h1 (hi u) k = (w, j) ->
  word v /\ word w /\ 0 <= j <= 1 /\ v + W * w + W * W * j = h0 + W * h1 + val2 u.
Proof.
  intros H0 H1 [Hl Hh] E1 E2. apply Add64_spec in E1 as (E1 & Wv & Hk); [|done|done|lia].
  apply Add64_spec in E2 as (E2 & Ww & Hj); [|done|done|lia]. unfold val2. split; [done|]. split; [done|].
  split; [done|]. nia.
Qed.

Lemma reduce_limbs_spec t0 t1 t2 t3 :
  word t0 -> word t1 -> word t2 -> word t3 ->
  limbs 5 (reduce_limbs (t0, t1, t2, t3)) /\
  val3 (reduce_limbs (t0, t1, t2, t3)) mod P = val4 (t0, t1, t2, t3) mod P.
Proof.
  intros H0 H1 H2 H3. unfold reduce_limbs. destruct (split_low2 t2 H2) as [-> ->].
  set (cc := mkUint128 (4 * (t2 / 4)) t3).
  assert (Hcc : words cc).
  { unfold cc, words, word in *. cbn [lo hi]. pose proof (Z.div_mod t2 4 ltac:(lia)).
    pose proof (Z.mod_pos_bound t2 4 ltac:(lia)). split; [|done]. split; [|lia].
    apply Z.mul_nonneg_nonneg; [lia|]. apply Z.div_pos; lia. }
  destruct (shiftRightBy2_spec cc Hcc) as [Hs Ev]. cbv zeta.
  destruct (Add64 t0 (lo cc) 0) as [a c1] eqn:E1. destruct (Add64 t1 (hi cc) c1) as [b c2] eqn:E2.
  destruct (add_pair _ _ _ _ _ _ _ H0 H1 Hcc E1 E2) as (Wa & Wb & Hc2 & Eab).
  destruct (Add64 a (lo (shiftRightBy2 cc)) 0) as [a' c3] eqn:E3.
  destruct (Add64 b (hi (shiftRightBy2 cc)) c3) as [b' c4] eqn:E4.
  destruct (add_pair _ _ _ _ _ _ _ Wa Wb Hs E3 E4) as (Wa' & Wb' & Hc4 & Eab').
  pose proof (Z.mod_pos_bound t2 4 ltac:(lia)) as Hm.
  assert (H7 : 7 < W) by done.
  rewrite (Z.mod_small (t2 mod 4 + c2)), (Z.mod_small (t2 mod 4 + c2 + c4)) by lia.
  split; [split; [done|]; split; [done|lia]|].
  assert (Hc : val2 cc = 4 * (val2 cc / 4)).
  { unfold val2, cc. cbn [lo hi]. change W with (4 * 2 ^ 62).
    replace (4 * (t2 / 4) + 4 * 2 ^ 62 * t3) with ((t2 / 4 + 2 ^ 62 * t3) * 4) by ring.
    rewrite Z.div_mul by lia. ring. }
  assert (E4' : val4 (t0, t1, t2, t3) = t0 + W * t1 + W * W * (t2 mod 4) + 2 ^ 130 * (val2 cc / 4)).
  { unfold val4. rewrite (Z.div_mod t2 4) at 1 by lia. change (2 ^ 130) with (W * W * 4).
    replace (W * W * 4 * (val2 cc / 4)) with (W * W * (4 * (val2 cc / 4))) by ring. rewrite <- Hc.
    unfold val2, cc. cbn [lo hi]. ring. }
  assert (E3' : val3 (a', b', t2 mod 4 + c2 + c4) = t0 + W * t1 + W * W * (t2 mod 4) + 5 * (val2 cc / 4)).
  { unfold val3. rewrite Ev in Eab'. nia. }
  rewrite E3', E4'. unfold P.
  replace (t0 + W * t1 + W * W * (t2 mod 4) + 2 ^ 130 * (val2 cc / 4))
    with (t0 + W * t1 + W * W * (t2 mod 4) + 5 * (val2 cc / 4) + val2 cc / 4 * (2 ^ 130 - 5)) by ring.
  by rewrite Z.mod_add by lia.
Qed.

(** *** The key *)
Lemma land_nonneg_le x m : 0 <= m -> 0 <= Z.land x m <= m.
Proof.
  intros Hm. split; [apply Z.land_nonneg; lia|].
  pose proof (Z.land_nonneg m (Z.lnot x)) as Hn. pose proof (Z.sub_land_same_l m x) as E.
  rewrite (Z.land_comm x m). lia.
Qed.

Lemma land_words a b m n :
  word a -> word m ->
  Z.land (a + W * b) (m + W * n) = Z.land a m + W * Z.land b n.
Proof.
  unfold word. intros Ha Hm. change W with (2 ^ 64) in *. pose proof (land_nonneg_le a m ltac:(lia)) as Hl.
  rewrite !(Z.mul_comm (2 ^ 64)). rewrite <- !lor_shiftl by lia.
  apply Z.bits_inj'. intros k Hk. rewrite Z.land_spec, !Z.lor_spec, Z.land_spec.
  destruct (Z_lt_le_dec k 64) as [Hlt|Hge].
  - rewrite !Z.shiftl_spec_low by done. by rewrite !orb_false_r.
  - rewrite !Z.shiftl_spec, Z.land_spec by lia.
    assert (Hhigh : forall x, 0 <= x < 2 ^ 64 -> Z.testbit x k = false).
    { intros x Hx. rewrite <- (Z.mod_small x (2 ^ 64)) by done. apply Z.mod_pow2_bits_high. lia. }
    by rewrite !Hhigh by lia.
Qed.

Lemma initialize_spec key :
  length key = 32%nat ->
  exists r0 r1 s0 s1, initialize key = mkMacState (0, 0, 0) (r0, r1) (s0, s1) /\
    0 <= r0 < 2 ^ 60 /\ 0 <= r1 < 2 ^ 60 /\ word s0 /\ word s1 /\
    r0 + W * r1 = key_r key /\ s0 + W * s1 = key_s key.
Proof.
  intros Hl. do 4 eexists. split; [reflexivity|].
  pose proof (land_nonneg_le (Uint64 key 0) rMask0 ltac:(done)).
  pose proof (land_nonneg_le (Uint64 key 8) rMask1 ltac:(done)).
  assert (rMask0 < 2 ^ 60) by done. assert (rMask1 < 2 ^ 60) by done.
  split; [lia|]. split; [lia|]. split; [apply Uint64_word|]. split; [apply Uint64_word|]. split.
  - unfold key_r. change 0x0ffffffc0ffffffc0ffffffc0fffffff with (rMask0 + W * rMask1).
    rewrite <- land_words by (done || apply Uint64_word). f_equal.
    pose proof (Uint64_pair key 0 ltac:(lia)) as Hp. unfold slice in Hp. by rewrite drop_0 in Hp.
  - apply (Uint64_pair key 16). lia.
Qed.

(** *** Chunks *)
Lemma chunks_fuel_enough f g msg :
  (length msg <= f)%nat -> (length msg <= g)%nat -> chunks_fuel f msg = chunks_fuel g msg.
Proof.
  revert g msg. induction f as [|f IH]; intros g msg Hf Hg; [destruct msg; [by destruct g|simpl in Hf; lia]|].
  destruct msg as [|b msg]; [by destruct g|]. destruct g as [|g]; [simpl in Hg; lia|].
  cbn [chunks_fuel]. f_equal. apply IH; rewrite length_drop; unfold TagSize; simpl in *; lia.
Qed.

Lemma chunks_cons msg : msg <> [] -> chunks msg = take TagSize msg :: chunks (drop TagSize msg).
Proof.
  intros Hne. unfold chunks. destruct msg as [|b msg]; [done|]. cbn [length chunks_fuel]. f_equal.
  apply chunks_fuel_enough; [|done]. rewrite length_drop. unfold TagSize. simpl. lia.
Qed.

Lemma chunks_app k x y : length x = (TagSize * k)%nat -> chunks (x ++ y) = chunks x ++ chunks y.
Proof.
  revert x. induction k as [|k IH]; intros x Hx.
  { destruct x; [done|]. simpl in Hx. lia. }
  assert (Hl : (TagSize <= length x)%nat) by (unfold TagSize in *; lia).
  assert (Hne : x <> []) by (intros ->; unfold TagSize in *; simpl in *; lia).
  rewrite chunks_cons by (destruct x; done). rewrite (chunks_cons x) by done.
  rewrite take_app_le, drop_app_le by done. cbn [app]. f_equal. apply IH.
  rewrite length_drop. unfold TagSize in *. lia.
Qed.

Lemma horner_app rr acc xs ys : horner rr acc (xs ++ ys) = horner rr (horner rr acc xs) ys.
Proof. apply fold_left_app. Qed.

Lemma horner_mod rr a b cs : a mod P = b mod P -> horner rr a cs mod P = horner rr b cs mod P.
Proof.
  revert a b. induction cs as [|c cs IH]; intros a b E; [done|]. apply IH.
  assert (P <> 0) by done.
  rewrite Z.mul_mod, (Z.add_mod a), E, <- Z.add_mod, <- Z.mul_mod by done. done.
Qed.

(** *** Absorbing *)
Lemma update_loop_spec fuel hh r0 r1 msg :
  limbs 5 hh -> 0 <= r0 < 2 ^ 60 -> 0 <= r1 < 2 ^ 60 -> (length msg <= fuel)%nat ->
  exists hh', update_loop fuel hh (r0, r1) msg = Some hh' /\ limbs 5 hh' /\
    val3 hh' mod P = horner (r0 + W * r1) (val3 hh) (chunks msg) mod P.
Proof.
  intros Hh H0 H1. revert hh msg Hh. induction fuel as [|fuel IH]; intros hh msg Hh Hf.
  { destruct msg; [|simpl in Hf; lia]. by exists hh. }
  destruct (decide (msg = [])) as [->|Hne]; [by exists hh|].
  rewrite chunks_cons by done. destruct msg as [|b msg']; [done|]. cbn [update_loop].
  set (msg := b :: msg') in *.
  destruct (add_chunk_spec hh msg Hh Hne) as [Ha Ea].
  destruct (mul_limbs_spec _ r0 r1 Ha H0 H1) as ([[[t0 t1] t2] t3] & -> & Em & W0 & W1 & W2 & W3).
  destruct (reduce_limbs_spec t0 t1 t2 t3 W0 W1 W2 W3) as [Hr Er]. cbn [mbind option_bind].
  destruct (IH (reduce_limbs (t0, t1, t2, t3)) (drop TagSize msg) Hr) as (hh' & E & Hh' & Ev).
  { rewrite length_drop. unfold TagSize, msg in *. simpl in *. lia. }
  exists hh'. split; [done|]. split; [done|]. rewrite Ev.
  refine (horner_mod _ _ ((val3 hh + block (take TagSize msg)) * (r0 + W * r1)) _ _). by rewrite Er, Em, Ea.
Qed.

Lemma updateGeneric_spec st r0 r1 msg :
  r st = (r0, r1) -> limbs 5 (h st) -> 0 <= r0 < 2 ^ 60 -> 0 <= r1 < 2 ^ 60 ->
  exists hh, updateGeneric st msg = Some (mkMacState hh (r st) (s st)) /\ limbs 5 hh /\
    val3 hh mod P = horner (r0 + W * r1) (val3 (h st)) (chunks msg) mod P.
Proof.
  intros Er Hh H0 H1. unfold updateGeneric. rewrite Er.
  destruct (update_loop_spec (length msg) (h st) r0 r1 msg Hh H0 H1 ltac:(done)) as (hh & -> & Hl & Ev).
  by exists hh.
Qed.

(** *** The buffer *)

(** After [msg] was written: the full chunks are absorbed, the rest is buffered. *)
Record absorbed (key msg : gostring) (m : macGeneric) : Prop := {
  ab_split : exists full k, length full = (TagSize * k)%nat /\ msg = full ++ take (offset m) (buffer m) /\
    limbs 5 (h (state m)) /\ val3 (h (state m)) mod P = horner (key_r key) 0 (chunks full) mod P;
  ab_key : r (state m) = r (initialize key) /\ s (state m) = s (initialize key);
  ab_buffer : length (buffer m) = TagSize;
  ab_offset : (offset m < TagSize)%nat
}.

Lemma absorb_full key st full k x j :
  length key = 32%nat -> length full = (TagSize * k)%nat -> length x = (TagSize * j)%nat ->
  r st = r (initialize key) -> s st = s (initialize key) ->
  limbs 5 (h st) -> val3 (h st) mod P = horner (key_r key) 0 (chunks full) mod P ->
  exists st', updateGeneric st x = Some st' /\
    length (full ++ x) = (TagSize * (k + j))%nat /\
    r st' = r (initialize key) /\ s st' = s (initialize key) /\
    limbs 5 (h st') /\ val3 (h st') mod P = horner (key_r key) 0 (chunks (full ++ x)) mod P.
Proof.
  intros Hkey Hf Hx Er Es Hh Ev. destruct (initialize_spec key Hkey) as (r0 & r1 & s0 & s1 & Ei & H0 & H1 & _ & _ & Ek & _).
  rewrite Ei in *. cbn [r s] in *.
  destruct (updateGeneric_spec st r0 r1 x Er Hh H0 H1) as (hh & E & Hl & Eh).
  eexists. split; [exact E|]. split; [rewrite length_app; lia|]. cbn [r s h]. split; [done|]. split; [done|].
  split; [done|]. rewrite (chunks_app k) by done. rewrite horner_app, Eh, Ek. by apply horner_mod.
Qed.

Lemma copy_at_spec buf off p :
  (off <= length buf)%nat ->
  let '(buf', n) := copy_at buf off p in
  n = Nat.min (length buf - off) (length p) /\ length buf' = length buf /\
  take (off + n) buf' = take off buf ++ take n p.
Proof.
  intros Hoff. unfold copy_at. split; [done|]. set (n := Nat.min _ _).
  assert (Hn : length (take n p) = n) by (rewrite length_take; lia).
  assert (Ho : length (take off buf) = off) by (rewrite length_take; lia). split.
  - rewrite !length_app, Hn, Ho, length_drop. lia.
  - rewrite app_assoc. apply take_app_length'. rewrite length_app. lia.
Qed.

Lemma write_chunks_spec key msg m p :
  length key = 32%nat -> absorbed key msg m -> offset m = 0%nat ->
  exists m', write_chunks m p = Some m' /\ absorbed key (msg ++ p) m'.
Proof.
  intros Hkey [(full & k & Hf & Hm & Hh & Ev) [Er Es] Hb _] Ho. rewrite Ho in Hm. cbn [take] in Hm.
  rewrite app_nil_r in Hm. subst msg. unfold write_chunks. cbv zeta.
  pose proof (Nat.div_mod (length p) TagSize ltac:(done)) as Hdm.
  pose proof (Nat.mod_upper_bound (length p) TagSize ltac:(done)) as Hmb.
  set (n := (length p - length p mod TagSize)%nat).
  assert (Hn : n = (TagSize * (length p / TagSize))%nat) by lia.
  assert (Hstep : exists st, (if (0 <? n)%nat then updateGeneric (state m) (take n p) else Some (state m)) = Some st /\
    length (full ++ take n p) = (TagSize * (k + length p / TagSize))%nat /\
    r st = r (initialize key) /\ s st = s (initialize key) /\
    limbs 5 (h st) /\ val3 (h st) mod P = horner (key_r key) 0 (chunks (full ++ take n p)) mod P).
  { destruct (0 <? n)%nat eqn:En.
    - apply (absorb_full key (state m) full k (take n p)); try done. rewrite length_take. lia.
    - apply Nat.ltb_ge in En. assert (n = 0)%nat as E0 by lia. exists (state m). rewrite E0. cbn [take].
      rewrite app_nil_r. repeat split; try done. lia. }
  destruct Hstep as (st & -> & Hlen & Hr & Hs & Hl & Evv). cbn [mbind option_bind].
  assert (Hrest : (if (0 <? n)%nat then drop n p else p) = drop n p).
  { destruct (0 <? n)%nat eqn:En; [done|]. apply Nat.ltb_ge in En. by replace n with 0%nat by lia. }
  rewrite Hrest. set (q := drop n p).
  assert (Hq : length q = (length p mod TagSize)%nat) by (unfold q; rewrite length_drop; lia).
  assert (Hp : full ++ p = (full ++ take n p) ++ q) by (unfold q; by rewrite <- app_assoc, take_drop).
  destruct (0 <? length q)%nat eqn:Eq.
  - pose proof (copy_at_spec (buffer m) (offset m) q) as Hc. rewrite Ho in *.
    destruct (copy_at (buffer m) 0 q) as [buf c]. destruct Hc as (Hcn & Hlb & Ht); [lia|].
    assert (c = length q) as -> by (rewrite Hcn, Hb; lia).
    eexists. split; [done|]. split; cbn [state buffer offset]; [|done|by rewrite Hlb|lia].
    exists (full ++ take n p), (k + length p / TagSize)%nat. split; [done|]. split; [|done].
    rewrite Ht. cbn [take app]. by rewrite (take_ge q) by done.
  - apply Nat.ltb_ge in Eq. assert (q = []) as Eq0 by (destruct q; [done|simpl in Eq; lia]).
    eexists. split; [done|]. split; cbn [state buffer offset]; [|done|done|rewrite Ho; unfold TagSize; lia].
    exists (full ++ take n p), (k + length p / TagSize)%nat. split; [done|]. split; [|done].
    rewrite Ho, Hp, Eq0. done.
Qed.

Lemma Write_spec key msg m p :
  length key = 32%nat -> absorbed key msg m ->
  exists m', macGeneric_Write m p = Some m' /\ absorbed key (msg ++ p) m'.
Proof.
  intros Hkey Hab. unfold macGeneric_Write. destruct (0 <? offset m)%nat eqn:Eo.
  2: { apply Nat.ltb_ge in Eo. apply write_chunks_spec; [done|done|lia]. }
  destruct Hab as [(full & k & Hf & Hm & Hh & Ev) [Er Es] Hb Hoff].
  pose proof (copy_at_spec (buffer m) (offset m) p ltac:(lia)) as Hc.
  destruct (copy_at (buffer m) (offset m) p) as [buf n]. destruct Hc as (Hn & Hlb & Ht).
  destruct (offset m + n <? TagSize)%nat eqn:El.
  - apply Nat.ltb_lt in El. eexists. split; [done|]. split; cbn [state buffer offset]; [|done|by rewrite Hlb|done].
    exists full, k. split; [done|]. split; [|done].
    assert (n = length p) as -> by lia. rewrite Hm, Ht, <- app_assoc. by rewrite (take_ge p) by done.
  - apply Nat.ltb_ge in El. assert (Hfull : (offset m + n = TagSize)%nat) by lia.
    assert (Hbuf : buf = take (offset m) (buffer m) ++ take n p).
    { rewrite <- Ht, Hfull, take_ge; [done|]. lia. }
    destruct (absorb_full key (state m) full k buf 1) as (st & -> & Hlen & Hr & Hs & Hl & Evv); try done; [lia|].
    cbn [mbind option_bind].
    replace (msg ++ p) with ((full ++ buf) ++ drop n p)
      by (rewrite Hm, Hbuf, <- !app_assoc; do 2 f_equal; apply take_drop).
    apply write_chunks_spec; [done| |done]. split; cbn [state buffer offset]; [|done|by rewrite Hlb|unfold TagSize; lia].
    exists (full ++ buf), (k + 1)%nat. split; [done|]. split; [by rewrite app_nil_r|]. done.
Qed.

(** *** The tag *)
Lemma select64_spec v x y : word x -> word y -> 0 <= v <= 1 -> select64 v x y = if v =? 1 then x else y.
Proof.
  unfold word. intros Hx Hy Hv. unfold select64, not64. destruct (v =? 1) eqn:E; bool_simp.
  - subst v. change ((1 - 1) mod W) with 0. change (W - 1 - 0) with (Z.ones 64).
    rewrite (Z.land_comm (Z.ones 64)), Z.land_ones, Z.land_0_l, Z.lor_0_r by lia. by apply Z.mod_small.
  - assert (v = 0) as -> by lia. change ((0 - 1) mod W) with (Z.ones 64). change (W - 1 - Z.ones 64) with 0.
    rewrite (Z.land_comm (Z.ones 64)), Z.land_ones, Z.land_0_l, Z.lor_0_l by lia. by apply Z.mod_small.
Qed.

Lemma Sub64_spec x y b v k :
  word x -> word y -> 0 <= b <= 1 -> Sub64 x y b = (v, k) ->
  v - W * k = x - y - b /\ word v /\ 0 <= k <= 1.
Proof.
  unfold Sub64, word. intros Hx Hy Hb [= <- <-]. pose proof W_pos.
  pose proof (Z.mod_pos_bound (x - y - b) W ltac:(lia)).
  destruct (x - y - b <? 0) eqn:E; bool_simp.
  - split; [|lia]. rewrite <- (Z.mod_add (x - y - b) 1 W) by lia. rewrite Z.mod_small by lia. lia.
  - split; [|lia]. rewrite Z.mod_small by lia. lia.
Qed.

Lemma le_bytes_split n k z : 0 <= z -> le_bytes (n + k) z = le_bytes n z ++ le_bytes k (z / 256 ^ Z.of_nat n).
Proof.
  revert z. induction n as [|n IH]; intros z Hz; cbn [le_bytes Nat.add app].
  { by rewrite Z.div_1_r. }
  f_equal. rewrite IH by (apply Z.div_pos; lia). f_equal. f_equal.
  rewrite Z.div_div by lia. by rewrite Nat2Z.inj_succ, Z.pow_succ_r by lia.
Qed.

Lemma le_bytes_mod n z : le_bytes n (z mod 256 ^ Z.of_nat n) = le_bytes n z.
Proof.
  revert z. induction n as [|n IH]; intros z; [done|]. cbn [le_bytes].
  rewrite Nat2Z.inj_succ, Z.pow_succ_r by lia. rewrite Z.rem_mul_r by lia. f_equal.
  - unfold vb. do 2 f_equal. rewrite (Z.mul_comm 256), Z.mod_add by lia. apply Z.mod_mod. lia.
  - rewrite <- (IH (z / 256)). f_equal. rewrite (Z.mul_comm 256), Z.div_add by lia.
    rewrite (Z.div_small (z mod 256)); [lia|]. apply Z.mod_pos_bound. lia.
Qed.

Lemma finalize_spec hh s0 s1 :
  limbs 5 hh -> word s0 -> word s1 ->
  finalize hh (s0, s1) = le_bytes 16 (val3 hh mod P + (s0 + W * s1)).
Proof.
  destruct hh as [[h0 h1] h2]. intros (H0 & H1 & H2) Hs0 Hs1. unfold finalize. cbn [fst snd].
  assert (HW2 : word h2) by (unfold word; assert (7 < W) by done; lia).
  destruct (Sub64 h0 p0 0) as [d0 b0] eqn:E0. apply Sub64_spec in E0 as (E0 & D0 & B0); [|done|done|lia].
  destruct (Sub64 h1 p1 b0) as [d1 b1] eqn:E1. apply Sub64_spec in E1 as (E1 & D1 & B1); [|done|done|lia].
  destruct (Sub64 h2 p2 b1) as [d2 b2] eqn:E2. apply Sub64_spec in E2 as (E2 & D2 & B2); [|done|done|lia].
  rewrite !select64_spec by done. unfold word in *.
  assert (HP : P = p0 + W * p1 + W * W * p2) by done.
  assert (Hlow : d0 + W * d1 + W * W * d2 - W * W * W * b2 = val3 (h0, h1, h2) - P)
    by (rewrite HP; unfold val3; nia).
  assert (Hmod : exists q, (if b2 =? 1 then h0 else d0) + W * (if b2 =? 1 then h1 else d1) =
                           val3 (h0, h1, h2) mod P - W * W * q).
  { assert (Hhi : val3 (h0, h1, h2) < 2 * P).
    { unfold val3. assert (W * h1 <= W * (W - 1)) by nia. assert (W * W * h2 <= W * W * 5) by nia.
      assert (W - 1 + W * (W - 1) + W * W * 5 < 2 * P) by done. lia. }
    assert (Hlo : 0 <= val3 (h0, h1, h2)) by (unfold val3; nia).
    destruct (b2 =? 1) eqn:Eb; bool_simp.
    - subst b2. exists h2. rewrite Z.mod_small by (split; [done|]; nia). unfold val3. ring.
    - assert (b2 = 0) as -> by lia. exists d2.
      rewrite <- (Z.mod_add _ (-1) P) by done. rewrite Z.mod_small by nia. lia. }
  destruct Hmod as [q Hq].
  set (a := if b2 =? 1 then h0 else d0) in *. set (b := if b2 =? 1 then h1 else d1) in *.
  assert (Wa : word a) by (unfold a, word; destruct (b2 =? 1); done).
  assert (Wb : word b) by (unfold b, word; destruct (b2 =? 1); done). clearbody a b.
  destruct (Add64 a s0 0) as [x c] eqn:Ex. apply Add64_spec in Ex as (Ex & Wx & Hc); [|done|done|lia].
  destruct (Add64 b s1 c) as [y c'] eqn:Ey. apply Add64_spec in Ey as (Ey & Wy & Hc'); [|done|done|lia].
  rewrite <- (le_bytes_mod 16). change (256 ^ Z.of_nat 16) with (W * W).
  replace (val3 (h0, h1, h2) mod P + (s0 + W * s1)) with (x + W * y + (q + c') * (W * W)) by nia.
  rewrite Z.mod_add by done. unfold word in *.
  rewrite Z.mod_small by nia. rewrite (le_bytes_split 8 8) by nia. f_equal.
  - rewrite <- (le_bytes_mod 8 (x + W * y)). change (256 ^ Z.of_nat 8) with W.
    rewrite (Z.mul_comm W), Z.mod_add, Z.mod_small by lia. done.
  - change (256 ^ Z.of_nat 8) with W. rewrite (Z.mul_comm W), Z.div_add, Z.div_small by lia. done.
Qed.

Lemma absorbed_new key : absorbed key [] (newMACGeneric key).
Proof.
  split; [|done|done|unfold TagSize; simpl; lia]. exists [], 0%nat. split; [done|]. split; [done|].
  split; [|done]. repeat split; done || lia.
Qed.

Lemma Sum_absorbed key msg m :
  length key = 32%nat -> absorbed key msg m -> macGeneric_Sum m = Some (poly1305_tag msg key).
Proof.
  intros Hkey [(full & k & Hf & Hm & Hh & Ev) [Er Es] Hb Hoff]. unfold macGeneric_Sum, poly1305_tag.
  destruct (initialize_spec key Hkey) as (r0 & r1 & s0 & s1 & Ei & H0 & H1 & W0 & W1 & Ek & Esum).
  rewrite Ei in Er, Es. cbn [r s] in Er, Es. rewrite Hm, (chunks_app k), horner_app by done.
  destruct (0 <? offset m)%nat eqn:Eo.
  - destruct (updateGeneric_spec (state m) r0 r1 (take (offset m) (buffer m)) Er Hh H0 H1) as (hh & -> & Hl & Eh).
    cbn [mbind option_bind h s]. rewrite Es, finalize_spec by done. rewrite Eh, Ek, Esum.
    do 3 f_equal. by apply horner_mod.
  - apply Nat.ltb_ge in Eo. replace (offset m) with 0%nat by lia. cbn [take mbind option_bind].
    rewrite Es, finalize_spec, Ev, Esum by done. done.
Qed.

(** [Write] called on each piece in turn. *)
Fixpoint write_all (m : MAC) (pieces : list gostring) : option MAC :=
  match pieces with
  | [] => Some m
  | p :: pieces => m ← MAC_Write m p; write_all m pieces
  end.

Lemma write_all_absorbed key msg g pieces :
  length key = 32%nat -> absorbed key msg g ->
  exists g', write_all (mkMAC g false) pieces = Some (mkMAC g' false) /\ absorbed key (msg ++ concat pieces) g'.
Proof.
  intros Hkey. revert msg g. induction pieces as [|p pieces IH]; intros msg g Hab; cbn [write_all concat].
  { exists g. by rewrite app_nil_r. }
  unfold MAC_Write. cbn [finalized mac].
  destruct (Write_spec key msg g p Hkey Hab) as (g1 & -> & Hab1). cbn [mbind option_bind].
  destruct (IH _ g1 Hab1) as (g' & E & Hab'). exists g'. by rewrite app_assoc.
Qed.

Lemma Sum_tag key msg : length key = 32%nat -> Sum msg key = Some (poly1305_tag msg key).
Proof.
  intros Hkey. unfold Sum, MAC_Write, New. cbn [finalized mac]. fold (newMACGeneric key).
  destruct (Write_spec key [] (newMACGeneric key) msg Hkey (absorbed_new key)) as (g & -> & Hab).
  cbn [mbind option_bind]. unfold MAC_Sum. cbn [mac]. by rewrite (Sum_absorbed key msg) by done.
Qed.

Lemma Verify_tag key msg t : length key = 32%nat -> Verify t msg key = Some (poly1305_tag msg key =s t).
Proof. intros Hkey. unfold Verify. by rewrite Sum_tag. Qed.

(** C33. On every key of 32 bytes, and however the message is cut into pieces, the
    limb arithmetic never overflows (none of the panics occurs) and the tag is the one
    of the specification: the chunks of the message as coefficients of a polynomial
    evaluated at the clamped half of the key modulo [2^130 - 5], plus the other half
    modulo [2^128]; [Verify] accepts exactly this tag. *)
Theorem Sum_correct key pieces :
  length key = 32%nat ->
  let msg := concat pieces in
  (exists m m', write_all (New key) pieces = Some m /\ MAC_Sum m [] = Some (poly1305_tag msg key, m') /\
     MAC_Write m' [] = None) /\
  Sum msg key = Some (poly1305_tag msg key) /\
  forall tag, Verify tag msg key = Some (poly1305_tag msg key =s tag).
Proof.
  intros Hkey msg.
  split; [|split; [by apply Sum_tag|intros; by apply Verify_tag]].
  destruct (write_all_absorbed key [] (newMACGeneric key) pieces Hkey (absorbed_new key)) as (g & E & Hab).
  exists (mkMAC g false), (mkMAC g true). split; [exact E|]. unfold MAC_Sum. cbn [mac].
  by rewrite (Sum_absorbed key msg) by done.
Qed.

Definition sample_key : gostring := map (fun n => vb (Z.of_nat n)) (seq 200 32).

Lemma Sum_correct_witness :
  Sum (concat [go "abc"; go "0123456789abcdef!"]) sample_key =
    Some (poly1305_tag (concat [go "abc"; go "0123456789abcdef!"]) sample_key) /\
  length sample_key = 32%nat.
Proof.
  split; [|reflexivity].
  exact (proj1 (proj2 (Sum_correct sample_key [go "abc"; go "0123456789abcdef!"] eq_refl))).
Defined.
