(* ===== verification/GoCrypto.v ===== *)
(** * Packages [crypto/...] and [golang.org/x/crypto/chacha20], as the packet ciphers
    use them.

    The primitives are parameters ([CryptoLib]): the block ciphers, the keyed hashes,
    the key streams of RC4 and ChaCha20, and GCM.  [CryptoLaws] states what the
    packages document of them: a block cipher is a permutation of its blocks, a digest
    has the size of its hash, and [Open] returns a plaintext exactly on its sealed
    form.  The modes CTR and CBC and the [cipher.Stream] interface are written out over
    the primitives.  A Go panic is [None]. *)
From Stdlib Require Import Ascii String ZArith Lia.
From stdpp Require Import base gmap strings list.
From S2P Require Import Prelude GoStrings SshWire SshAlgos.
Local Open Scope Z_scope.

Definition hash_Size (a : Hash) : nat :=
  match a with NoHash => 0 | SHA1 => 20 | SHA256 => 32 | SHA384 => 48 | SHA512 => 64 end.

Inductive Block := aesBlock (key : gostring) | tripleDESBlock (key : gostring).
Definition BlockSize (b : Block) : nat := match b with aesBlock _ => 16 | tripleDESBlock _ => 8 end.

Definition gcmTagSize : nat := 16.

Class CryptoLib := {
  (** The digest of a message under a hash, and under [hmac.New] with a key. *)
  digest : Hash -> gostring -> gostring;
  hmac_digest : Hash -> gostring -> gostring -> gostring;
  block_Encrypt : Block -> gostring -> gostring;
  block_Decrypt : Block -> gostring -> gostring;
  (** The bytes of a key stream, by position. *)
  rc4_byte : gostring -> nat -> ascii;
  chacha20_byte : gostring -> gostring -> nat -> ascii;
  (** [Seal] and [Open] of GCM over AES: key, nonce, text, additional data. *)
  gcm_Seal : gostring -> gostring -> gostring -> gostring -> gostring;
  gcm_Open : gostring -> gostring -> gostring -> gostring -> option gostring
}.

Class CryptoLaws `{CryptoLib} := {
  digest_length : forall a m, length (digest a m) = hash_Size a;
  hmac_length : forall a k m, length (hmac_digest a k m) = hash_Size a;
  Encrypt_length : forall b x, length x = BlockSize b -> length (block_Encrypt b x) = BlockSize b;
  Decrypt_length : forall b x, length x = BlockSize b -> length (block_Decrypt b x) = BlockSize b;
  Decrypt_Encrypt : forall b x, length x = BlockSize b -> block_Decrypt b (block_Encrypt b x) = x;
  Encrypt_Decrypt : forall b x, length x = BlockSize b -> block_Encrypt b (block_Decrypt b x) = x;
  Seal_length : forall k n p a, length (gcm_Seal k n p a) = (length p + gcmTagSize)%nat;
  Open_iff_Seal : forall k n c a p, gcm_Open k n c a = Some p <-> c = gcm_Seal k n p a
}.

Definition xor_byte (a b : ascii) : ascii := vb (Z.lxor (bv a) (bv b)).
Definition xor_bytes (x y : gostring) : gostring := zip_with xor_byte x y.

Section Crypto.
Context `{CryptoLib}.

(** ** [cipher.Stream] *)
Inductive Stream :=
| noneCipher
| ctrStream (b : Block) (iv : gostring) (pos : nat)
| rc4Stream (key : gostring) (pos : nat)
| chachaStream (key nonce : gostring) (pos : nat).

(** The byte of the key stream that comes [i] bytes after the current one. *)
Definition key_byte (s : Stream) (i : nat) : ascii :=
  match s with
  | noneCipher => chNUL
  | ctrStream b iv pos =>
      let n := BlockSize b in
      let counter := be_bytes n (be_value iv + Z.of_nat ((pos + i) / n)) in
      nth ((pos + i) mod n) (block_Encrypt b counter) chNUL
  | rc4Stream key pos => rc4_byte key (pos + i)
  | chachaStream key nonce pos => chacha20_byte key nonce (pos + i)
  end.
Definition advance (s : Stream) (n : nat) : Stream :=
  match s with
  | noneCipher => noneCipher
  | ctrStream b iv pos => ctrStream b iv (pos + n)
  | rc4Stream key pos => rc4Stream key (pos + n)
  | chachaStream key nonce pos => chachaStream key nonce (pos + n)
  end.

Definition XORKeyStream (s : Stream) (src : gostring) : gostring * Stream :=
  match s with
  | noneCipher => (src, s)
  | _ => (imap (fun i b => xor_byte b (key_byte s i)) src, advance s (length src))
  end.

(** [cipher.NewCTR], [rc4.NewCipher], [chacha20.NewUnauthenticatedCipher] *)
Definition NewCTR (b : Block) (iv : gostring) : option Stream :=
  if (length iv =? BlockSize b)%nat then Some (ctrStream b iv 0) else None.
Definition rc4_NewCipher (key : gostring) : res Stream :=
  if (len key <? 1) || (256 <? len key) then Err (errors_New (go "crypto/rc4: invalid key size " ++ Itoa (len key)))
  else Ok (rc4Stream key 0).
Definition NewUnauthenticatedCipher (key nonce : gostring) : res Stream :=
  if negb (len key =? 32) then Err (errors_New (go "chacha20: wrong key size"))
  else if negb ((len nonce =? 12) || (len nonce =? 24)) then Err (errors_New (go "chacha20: wrong nonce size"))
  else Ok (chachaStream key nonce 0).

(** [aes.NewCipher], [des.NewTripleDESCipher] *)
Definition aes_NewCipher (key : gostring) : res Block :=
  if (len key =? 16) || (len key =? 24) || (len key =? 32) then Ok (aesBlock key)
  else Err (errors_New (go "crypto/aes: invalid key size " ++ Itoa (len key))).
Definition NewTripleDESCipher (key : gostring) : res Block :=
  if len key =? 24 then Ok (tripleDESBlock key)
  else Err (errors_New (go "crypto/des: invalid key size " ++ Itoa (len key))).

(** ** CBC *)
Record BlockMode := mkBlockMode { bm_block : Block; bm_iv : gostring }.

(** [n] blocks, and the block the next call chains from. *)
Fixpoint cbc_encrypt (b : Block) (n : nat) (iv src : gostring) : gostring * gostring :=
  match n with
  | O => ([], iv)
  | S n =>
      let c := block_Encrypt b (xor_bytes (take (BlockSize b) src) iv) in
      let '(out, iv) := cbc_encrypt b n c (drop (BlockSize b) src) in
      (c ++ out, iv)
  end.
Fixpoint cbc_decrypt (b : Block) (n : nat) (iv src : gostring) : gostring * gostring :=
  match n with
  | O => ([], iv)
  | S n =>
      let c := take (BlockSize b) src in
      let '(out, iv') := cbc_decrypt b n c (drop (BlockSize b) src) in
      (xor_bytes (block_Decrypt b c) iv ++ out, iv')
  end.

Definition CryptBlocks (mode : Block -> nat -> gostring -> gostring -> gostring * gostring)
    (m : BlockMode) (src : gostring) : option (gostring * BlockMode) :=
  let n := BlockSize (bm_block m) in
  if (length src mod n =? 0)%nat then
    let '(out, iv) := mode (bm_block m) (length src / n)%nat (bm_iv m) src in
    Some (out, mkBlockMode (bm_block m) iv)
  else None.
Definition NewCBC (b : Block) (iv : gostring) : option BlockMode :=
  if (length iv =? BlockSize b)%nat then Some (mkBlockMode b iv) else None.

(** ** Lemmas: bytes *)
Lemma xor_byte_involutive a k : xor_byte (xor_byte a k) k = a.
Proof.
  unfold xor_byte. rewrite bv_vb.
  - by rewrite Z.lxor_assoc, Z.lxor_nilpotent, Z.lxor_0_r, vb_bv.
  - pose proof (bv_range a) as Ha. pose proof (bv_range k) as Hk.
    assert (Hn : 0 <= Z.lxor (bv a) (bv k)) by (apply Z.lxor_nonneg; lia). split; [done|].
    destruct (Z.eq_dec (Z.lxor (bv a) (bv k)) 0) as [->|E]; [lia|].
    apply (Z.log2_lt_pow2 _ 8); [lia|].
    pose proof (Z.log2_lxor (bv a) (bv k)).
    assert (forall x, 0 <= x < 256 -> Z.log2 x < 8) as L.
    { intros x Hx. destruct (Z.eq_dec x 0) as [->|]; [done|]. apply (Z.log2_lt_pow2 x 8); lia. }
    pose proof (L _ Ha). pose proof (L _ Hk). lia.
Qed.

Lemma xor_bytes_involutive x y : (length x <= length y)%nat -> xor_bytes (xor_bytes x y) y = x.
Proof.
  unfold xor_bytes. revert y. induction x as [|a x IH]; intros [|b y] Hl; simpl in *; [done..|lia|].
  rewrite xor_byte_involutive, IH by lia. done.
Qed.

Lemma length_xor_bytes x y : length (xor_bytes x y) = Nat.min (length x) (length y).
Proof. apply length_zip_with. Qed.

(** ** Lemmas: streams *)
Definition enc (s : Stream) (src : gostring) : gostring := fst (XORKeyStream s src).

Lemma XORKeyStream_eq s src : XORKeyStream s src = (enc s src, advance s (length src)).
Proof. by destruct s. Qed.

Lemma advance_0 s : advance s 0 = s.
Proof. destruct s; simpl; by rewrite ?Nat.add_0_r. Qed.
Lemma advance_add s n m : advance (advance s n) m = advance s (n + m).
Proof. destruct s; simpl; by rewrite ?Nat.add_assoc. Qed.
Lemma key_byte_advance s n i : key_byte (advance s n) i = key_byte s (n + i).
Proof. destruct s; simpl; by rewrite ?Nat.add_assoc. Qed.

Lemma enc_imap s x : enc s x = imap (fun i b => xor_byte b (key_byte s i)) x.
Proof.
  destruct s; try done. unfold enc. cbn [XORKeyStream fst]. symmetry.
  apply list_eq. intros i. rewrite list_lookup_imap. destruct (x !! i) as [b|]; [|done]. simpl. f_equal.
  unfold xor_byte. change (bv (key_byte noneCipher i)) with 0. by rewrite Z.lxor_0_r, vb_bv.
Qed.

Lemma length_enc s x : length (enc s x) = length x.
Proof. rewrite enc_imap. apply length_imap. Qed.

Lemma enc_enc s x : enc s (enc s x) = x.
Proof.
  rewrite !enc_imap. apply list_eq. intros i. rewrite !list_lookup_imap.
  destruct (x !! i); [|done]. simpl. by rewrite xor_byte_involutive.
Qed.

Lemma enc_app s x y : enc s (x ++ y) = enc s x ++ enc (advance s (length x)) y.
Proof.
  rewrite !enc_imap, imap_app. f_equal. apply imap_ext. intros i b _. by rewrite key_byte_advance.
Qed.

Lemma take_enc s n x : take n (enc s x) = enc s (take n x).
Proof.
  rewrite !enc_imap. apply list_eq. intros i. destruct (decide (i < n)%nat).
  - by rewrite lookup_take_lt, !list_lookup_imap, lookup_take_lt by done.
  - by rewrite lookup_take_ge, list_lookup_imap, lookup_take_ge by lia.
Qed.

(** ** Lemmas: CBC *)
Section CBC.
Context `{!CryptoLaws} (b : Block).

Lemma cbc_encrypt_length n iv src :
  length src = (n * BlockSize b)%nat -> length iv = BlockSize b ->
  length (fst (cbc_encrypt b n iv src)) = (n * BlockSize b)%nat /\
  length (snd (cbc_encrypt b n iv src)) = BlockSize b.
Proof.
  revert iv src. induction n as [|n IH]; intros iv src Hs Hi; [done|]. cbn [cbc_encrypt].
  set (c := block_Encrypt b _).
  assert (Hc : length c = BlockSize b)
    by (apply Encrypt_length; rewrite length_xor_bytes, length_take; lia).
  destruct (IH c (drop (BlockSize b) src)) as [E1 E2]; [rewrite length_drop; lia|done|].
  destruct (cbc_encrypt b n c _) as [out iv']. cbn [fst snd] in *. rewrite length_app. lia.
Qed.

Lemma cbc_decrypt_encrypt n iv src :
  length src = (n * BlockSize b)%nat -> length iv = BlockSize b ->
  cbc_decrypt b n iv (fst (cbc_encrypt b n iv src)) = (src, snd (cbc_encrypt b n iv src)).
Proof.
  revert iv src. induction n as [|n IH]; intros iv src Hs Hi.
  { destruct src; done. }
  cbn [cbc_encrypt]. set (c := block_Encrypt b _).
  assert (Hx : length (xor_bytes (take (BlockSize b) src) iv) = BlockSize b)
    by (rewrite length_xor_bytes, length_take; lia).
  assert (Hc : length c = BlockSize b) by (by apply Encrypt_length).
  specialize (IH c (drop (BlockSize b) src)). destruct (cbc_encrypt b n c _) as [out iv'].
  cbn [fst snd cbc_decrypt] in *. rewrite take_app_le, take_ge, drop_app_length' by lia.
  rewrite IH by (rewrite ?length_drop; lia). f_equal. unfold c. rewrite Decrypt_Encrypt by done.
  rewrite xor_bytes_involutive by (rewrite length_take; lia). apply take_drop.
Qed.

Lemma cbc_decrypt_length n iv src :
  length src = (n * BlockSize b)%nat -> length iv = BlockSize b ->
  length (fst (cbc_decrypt b n iv src)) = (n * BlockSize b)%nat /\
  length (snd (cbc_decrypt b n iv src)) = BlockSize b.
Proof.
  revert iv src. induction n as [|n IH]; intros iv src Hs Hi; [done|]. cbn [cbc_decrypt].
  assert (Hc : length (take (BlockSize b) src) = BlockSize b) by (rewrite length_take; lia).
  destruct (IH (take (BlockSize b) src) (drop (BlockSize b) src)) as [E1 E2]; [rewrite length_drop; lia|done|].
  destruct (cbc_decrypt b n _ _) as [out iv']. cbn [fst snd] in *.
  rewrite length_app, length_xor_bytes, Decrypt_length by done. lia.
Qed.

Lemma cbc_encrypt_decrypt n iv src :
  length src = (n * BlockSize b)%nat -> length iv = BlockSize b ->
  cbc_encrypt b n iv (fst (cbc_decrypt b n iv src)) = (src, snd (cbc_decrypt b n iv src)).
Proof.
  revert iv src. induction n as [|n IH]; intros iv src Hs Hi.
  { destruct src; done. }
  cbn [cbc_decrypt]. set (c := take (BlockSize b) src).
  assert (Hc : length c = BlockSize b) by (unfold c; rewrite length_take; lia).
  specialize (IH c (drop (BlockSize b) src)). destruct (cbc_decrypt b n c _) as [out iv'].
  assert (Hx : length (xor_bytes (block_Decrypt b c) iv) = BlockSize b)
    by (rewrite length_xor_bytes, Decrypt_length; lia).
  cbn [fst snd cbc_encrypt] in *. rewrite take_app_le, take_ge, drop_app_length' by lia.
  rewrite xor_bytes_involutive, Encrypt_Decrypt by (rewrite ?Decrypt_length; lia).
  rewrite IH by (rewrite ?length_drop; lia). f_equal. apply take_drop.
Qed.

Lemma cbc_decrypt_app n m iv x y :
  length x = (n * BlockSize b)%nat ->
  cbc_decrypt b (n + m) iv (x ++ y) =
  (fst (cbc_decrypt b n iv x) ++ fst (cbc_decrypt b m (snd (cbc_decrypt b n iv x)) y),
   snd (cbc_decrypt b m (snd (cbc_decrypt b n iv x)) y)).
Proof.
  revert iv x. induction n as [|n IH]; intros iv x Hx.
  { destruct x; [|done]. cbn. by destruct (cbc_decrypt b m iv y). }
  cbn [cbc_decrypt Nat.add]. rewrite take_app_le, drop_app_le, IH by (rewrite ?length_drop; lia).
  destruct (cbc_decrypt b n _ _) as [out iv']. cbn [fst snd]. by rewrite app_assoc.
Qed.
End CBC.

End Crypto.

(** ** An instance of the interface, for evaluation *)
Definition checksum (s : gostring) : ascii := vb (fold_left (fun acc b => acc * 31 + bv b) s 7).

Definition sample_crypto : CryptoLib := {|
  digest a m := replicate (hash_Size a) (checksum m);
  hmac_digest a k m := replicate (hash_Size a) (checksum (k ++ m));
  block_Encrypt b x := rev x;
  block_Decrypt b x := rev x;
  rc4_byte key n := vb (len key + Z.of_nat n);
  chacha20_byte key nonce n := xor_byte (checksum (key ++ nonce)) (vb (Z.of_nat n));
  gcm_Seal k n p a := p ++ replicate gcmTagSize (checksum (k ++ n ++ p ++ a));
  gcm_Open k n c a :=
    let p := take (length c - gcmTagSize) c in
    if drop (length p) c =s replicate gcmTagSize (checksum (k ++ n ++ p ++ a)) then Some p else None |}.

Lemma sample_crypto_laws : @CryptoLaws sample_crypto.
Proof.
  split; intros; cbn [digest hmac_digest block_Encrypt block_Decrypt gcm_Seal gcm_Open sample_crypto];
    rewrite ?length_replicate, ?length_rev, ?rev_involutive, ?length_app; try done.
  split.
  - destruct (_ =s _) eqn:E; [|done]. bool_simp. intros [= <-]. rewrite <- E.
    rewrite length_take. set (j := (length c - gcmTagSize)%nat).
    replace (j `min` length c)%nat with j by lia. by rewrite take_drop.
  - intros ->. rewrite length_app, length_replicate, Nat.add_sub, take_app_length, drop_app_length.
    by rewrite gos_eqb_refl.
Qed.
