(* ===== verification/SshCipher.v ===== *)
(** * Packet ciphers: [third/ssh/cipher.go], [mac.go], and the padding rules of
    [fakessh_antiscan.go].

    A packet cipher reads packets from a stream and writes them to one.  A reader or
    writer is modelled from [GoIO]; the cryptography is the one of [GoCrypto]; scratch
    buffers that are refilled before each use are local values, and the capacities of
    the two that are sliced before they are sized are kept.  A Go panic is [None].

    Proved, for each of the four ciphers, with the frame it puts a packet in written out
    as a specification: the writer emits a frame, and the reader accepts exactly the
    frames; so what one side writes the other reads back, packet after packet. *)
From Stdlib Require Import Ascii String ZArith Lia.
From stdpp Require Import base gmap strings list.
From S2P Require Import Prelude GoStrings GoIO SshWire SshMessages SshAlgos Poly1305 GoCrypto.
Local Open Scope Z_scope.

Definition packetSizeMultiple : Z := 16.
Definition maxPacket : Z := 256 * 1024.
Definition prefixLen : Z := 5.

Definition u32 (z : Z) : Z := z mod 2 ^ 32.

(** ** Errors *)
Inductive packet_error :=
| ioError (e : ioerr)              (** of the reader, the writer or the random source *)
| newError (msg : gostring)        (** [errors.New], [fmt.Errorf], or a library's error *)
| cbcError (msg : gostring)
| shortPacketError (msg : gostring)  (** [fakesshAuthenticatedShortPacketError] *)
| errPacketCorrupt
| disconnectError (m : disconnectMsg).  (** a disconnect message of the peer *)

Definition packet_error_msg `{UnicodeTables} (e : packet_error) : gostring :=
  match e with
  | ioError e => ioerr_msg e
  | newError m | cbcError m | shortPacketError m => m
  | errPacketCorrupt => go "ssh: packet corrupt"
  | disconnectError m => go "ssh: disconnect, reason " ++ Itoa (disconnect_Reason m) ++ go ": " ++ Quote (disconnect_Message m)
  end.

Definition fakesshAuthenticatedShortPacket (plain : gostring) : option packet_error :=
  if 5 <=? len plain then None
  else match plain with
       | [] => Some (shortPacketError (go "ssh: empty packet"))
       | padding :: _ =>
           if bv padding <? 4 then Some (shortPacketError (go "ssh: illegal padding " ++ Itoa (bv padding)))
           else Some (shortPacketError (go "ssh: padding " ++ Itoa (bv padding) ++ go " too large"))
       end.

Definition fakesshIsCorruptPacketError `{UnicodeTables} (err : packet_error) : bool :=
  match err with
  | shortPacketError _ => true
  | errPacketCorrupt => true
  | cbcError _ => true
  | _ =>
      contains [go "ssh: invalid packet length, packet too small";
                go "ssh: invalid packet length, packet too large";
                go "ssh: max packet length exceeded";
                go "ssh: MAC failure";
                go "cipher: message authentication failed"] (packet_error_msg err)
  end.

Definition fakesshCorruptedPadlen `{UnicodeTables} (err : packet_error) : option Z :=
  match err with
  | shortPacketError _ => None
  | _ =>
      let p := go "ssh: illegal padding " in
      let message := packet_error_msg err in
      if HasPrefix message p then Atoi (drop (length p) message) else None
  end.

(** What a constructor returns; [None] is a panic. *)
Abbreviation created A := (option (result packet_error A)).

(** ** [mac.go] *)
Inductive MacHash :=
| hmacHash (a : Hash) (key written : gostring)
| truncatingMAC (n : nat) (hmac : MacHash).

Fixpoint mac_Write (h : MacHash) (data : gostring) : MacHash :=
  match h with
  | hmacHash a key w => hmacHash a key (w ++ data)
  | truncatingMAC n h => truncatingMAC n (mac_Write h data)
  end.
Fixpoint mac_Reset (h : MacHash) : MacHash :=
  match h with
  | hmacHash a key _ => hmacHash a key []
  | truncatingMAC n h => truncatingMAC n (mac_Reset h)
  end.
Definition mac_Size (h : MacHash) : nat :=
  match h with hmacHash a _ _ => hash_Size a | truncatingMAC n _ => n end.

Section Ciphers.
Context `{CryptoLib}.

Fixpoint mac_Sum (h : MacHash) (inp : gostring) : gostring :=
  match h with
  | hmacHash a key w => inp ++ hmac_digest a key w
  | truncatingMAC n h => take (length inp + n) (mac_Sum h inp)
  end.

Record macMode := mkMacMode { mm_keySize : nat; mm_etm : bool; mm_new : gostring -> MacHash }.
Definition hmac_New (a : Hash) (key : gostring) : MacHash := hmacHash a key [].

Definition macMode_of (name : gostring) : option macMode :=
  if name =s HMACSHA512ETM then Some (mkMacMode 64 true (hmac_New SHA512))
  else if name =s HMACSHA256ETM then Some (mkMacMode 32 true (hmac_New SHA256))
  else if name =s HMACSHA512 then Some (mkMacMode 64 false (hmac_New SHA512))
  else if name =s HMACSHA256 then Some (mkMacMode 32 false (hmac_New SHA256))
  else if name =s HMACSHA1 then Some (mkMacMode 20 false (hmac_New SHA1))
  else if name =s InsecureHMACSHA196 then Some (mkMacMode 20 false (fun key => truncatingMAC 12 (hmac_New SHA1 key)))
  else if name =s HMACSHA1ETM then Some (mkMacMode 20 true (hmac_New SHA1))
  else None.

(** ** Results

    Of a read: the packet or the error, the cipher and the rest of the stream; of a
    write: the error, the cipher, the sink, the random source, and the caller's packet,
    which a stream cipher encrypts in place. *)
Abbreviation read_result C := (option (result packet_error gostring * C * Source)).
Record write_state (C : Type) := mkWritten {
  w_err : option packet_error; w_cipher : C; w_sink : Sink; w_rand : Source; w_packet : gostring }.
Abbreviation write_result C := (option (write_state C)).

(** Consecutive [Write]s, each after the success of the one before. *)
Fixpoint write_all (w : Sink) (parts : list gostring) : option ioerr * Sink :=
  match parts with
  | [] => (None, w)
  | p :: parts =>
      match sink_Write w p with
      | (None, w) => write_all w parts
      | (Some e, w) => (Some e, w)
      end
  end.

(** ** [streamPacketCipher] *)
Record streamPacketCipher := mkStreamCipher {
  s_mac : option MacHash;
  s_cipher : Stream;
  s_etm : bool;
  openSSHPadding : bool;
  openSSHMinPadding : bool;
  openSSHPlaintextCorruptPadding : bool }.

Definition with_stream (s : streamPacketCipher) (mac : option MacHash) (c : Stream) : streamPacketCipher :=
  mkStreamCipher mac c (s_etm s) (openSSHPadding s) (openSSHMinPadding s) (openSSHPlaintextCorruptPadding s).

(** [s.mac != nil && s.etm]. *)
Definition mac_etm (s : streamPacketCipher) : bool :=
  match s_mac s with Some _ => s_etm s | None => false end.

(** The prefix in the clear, and the cipher after it. *)
Definition stream_open_prefix (s : streamPacketCipher) (prefix : gostring) : gostring * Stream :=
  if mac_etm s then
    let '(p4, c) := XORKeyStream (s_cipher s) (drop 4 prefix) in (take 4 prefix ++ p4, c)
  else XORKeyStream (s_cipher s) prefix.

(** The hash after the sequence number and the prefix. *)
Definition stream_mac_prefix (s : streamPacketCipher) (h : MacHash) (seqNum : Z) (wire clear : gostring) : MacHash :=
  let h := mac_Write (mac_Reset h) (be_bytes 4 seqNum) in
  if s_etm s then mac_Write (mac_Write h (take 4 clear)) (drop 4 wire) else mac_Write h clear.

(** After the body was read: decrypt and verify. *)
Definition stream_open_body (s : streamPacketCipher) (h : option MacHash) (length_ paddingLength : Z)
    (packetData : gostring) : result packet_error gostring * streamPacketCipher :=
  let mac := drop (Z.to_nat (length_ - 1)) packetData in
  let data := take (Z.to_nat (length_ - 1)) packetData in
  let h := match h with Some h => Some (if s_etm s then mac_Write h data else h) | None => None end in
  let '(data, c) := XORKeyStream (s_cipher s) data in
  let h := match h with Some h => Some (if negb (s_etm s) then mac_Write h data else h) | None => None end in
  let s := with_stream s h c in
  if match h with Some h => negb (mac_Sum h [] =s mac) | None => false end then
    (Err (newError (go "ssh: MAC failure")), s)
  else if openSSHMinPadding s && (paddingLength <? 4) then
    (Err (newError (go "ssh: illegal padding " ++ Itoa paddingLength)), s)
  else if openSSHPlaintextCorruptPadding s && (paddingLength <? 4) then (Err errPacketCorrupt, s)
  else (Ok (take (Z.to_nat (length_ - paddingLength - 1)) data), s).

Definition stream_read (s : streamPacketCipher) (seqNum : Z) (r : Source) : read_result streamPacketCipher :=
  match read_full r 5 with
  | (Err e, r) => Some (Err (ioError e), s, r)
  | (Ok wire, r) =>
      let '(prefix, c) := stream_open_prefix s wire in
      let length_ := be_value (take 4 prefix) in
      let paddingLength := be_value (drop 4 prefix) in
      let h := match s_mac s with Some h => Some (stream_mac_prefix s h seqNum wire prefix) | None => None end in
      let macSize := match s_mac s with Some h => Z.of_nat (mac_Size h) | None => 0 end in
      let s := with_stream s h c in
      if length_ <=? u32 (paddingLength + 1) then
        Some (Err (newError (go "ssh: invalid packet length, packet too small")), s, r)
      else if maxPacket <? length_ then
        Some (Err (newError (go "ssh: invalid packet length, packet too large")), s, r)
      else
        match read_full r (Z.to_nat (u32 (length_ - 1 + macSize))) with
        | (Err e, r) => Some (Err (ioError e), s, r)
        | (Ok packetData, r) =>
            let '(p, s) := stream_open_body s h length_ paddingLength packetData in
            Some (p, s, r)
        end
  end.

(** [fillPadding]. *)
Definition is_none (c : Stream) : bool := match c with noneCipher => true | _ => false end.
Definition no_mac (s : streamPacketCipher) : bool := match s_mac s with None => true | Some _ => false end.

Definition fillPadding (s : streamPacketCipher) (rand : Source) (n : nat) : result ioerr gostring * Source :=
  if openSSHPadding s && no_mac s && is_none (s_cipher s) then (Ok (replicate n chNUL), rand)
  else read_full rand n.

Definition stream_padding (s : streamPacketCipher) (packet : gostring) : Z :=
  let aadlen := if mac_etm s then 4 else 0 in
  let paddingLength := packetSizeMultiple - (prefixLen + len packet - aadlen) mod packetSizeMultiple in
  if paddingLength <? 4 then paddingLength + packetSizeMultiple else paddingLength.

(** The encrypted prefix, packet and padding with the hash over them. *)
Definition stream_seal (s : streamPacketCipher) (seqNum : Z) (prefix packet padding : gostring)
  : gostring * gostring * gostring * streamPacketCipher :=
  let '(prefix, h, c) :=
    match s_mac s with
    | Some h =>
        let h := mac_Write (mac_Reset h) (be_bytes 4 seqNum) in
        let '(prefix, c) :=
          if s_etm s then let '(p4, c) := XORKeyStream (s_cipher s) (drop 4 prefix) in (take 4 prefix ++ p4, c)
          else (prefix, s_cipher s) in
        let h := mac_Write h prefix in
        let h := if negb (s_etm s) then mac_Write (mac_Write h packet) padding else h in
        (prefix, Some h, c)
    | None => (prefix, None, s_cipher s)
    end in
  let '(prefix, c) := if negb (mac_etm s) then XORKeyStream c prefix else (prefix, c) in
  let '(packet, c) := XORKeyStream c packet in
  let '(padding, c) := XORKeyStream c padding in
  let h := match h with
           | Some h => Some (if s_etm s then mac_Write (mac_Write h packet) padding else h)
           | None => None
           end in
  (prefix, packet, padding, with_stream s h c).

Definition stream_write (s : streamPacketCipher) (seqNum : Z) (w : Sink) (rand : Source) (packet : gostring)
  : write_result streamPacketCipher :=
  if maxPacket <? len packet then
    Some (mkWritten _ (Some (newError (go "ssh: packet too large"))) s w rand packet)
  else
    let paddingLength := stream_padding s packet in
    let length_ := len packet + 1 + paddingLength in
    let prefix := be_bytes 4 (u32 length_) ++ [vb paddingLength] in
    match fillPadding s rand (Z.to_nat paddingLength) with
    | (Err e, rand) => Some (mkWritten _ (Some (ioError e)) s w rand packet)
    | (Ok padding, rand) =>
        let '(prefix, packet, padding, s) := stream_seal s seqNum prefix packet padding in
        let tag := match s_mac s with Some h => [mac_Sum h []] | None => [] end in
        let '(e, w) := write_all w ([prefix; packet; padding] ++ tag) in
        Some (mkWritten _ (ioError <$> e) s w rand packet)
    end.

(** ** [gcmCipher] *)
Record gcmCipher := mkGCM { g_key : gostring; g_iv : gostring }.

(** [incIV]: the bytes 11 down to 4, until one does not wrap to zero. *)
Fixpoint inc_bytes (rev_bytes : gostring) : gostring :=
  match rev_bytes with
  | [] => []
  | b :: rest =>
      let b := vb (bv b + 1) in
      if negb (bv b =? 0) then b :: rest else b :: inc_bytes rest
  end.
Definition incIV (iv : gostring) : option gostring :=
  if (12 <=? length iv)%nat then Some (take 4 iv ++ rev (inc_bytes (rev (slice iv 4 8))) ++ drop 12 iv)
  else None.

Definition gcm_padding (packet : gostring) : Z :=
  let padding := packetSizeMultiple - (1 + len packet) mod packetSizeMultiple in
  if padding <? 4 then padding + packetSizeMultiple else padding.

(** What is common to the authenticated ciphers: the padding of a decrypted packet of
    [length_] bytes. *)
Definition aead_unpad (length_ : Z) (plain : gostring) : option (result packet_error gostring) :=
  match fakesshAuthenticatedShortPacket plain with
  | Some e => Some (Err e)
  | None =>
      match plain with
      | [] => None
      | padding :: _ =>
          if bv padding <? 4 then Some (Err (newError (go "ssh: illegal padding " ++ Itoa (bv padding))))
          else if len plain <=? bv padding + 1 then
            Some (Err (newError (go "ssh: padding " ++ Itoa (bv padding) ++ go " too large")))
          else Some (Ok (slice plain 1 (Z.to_nat (length_ - bv padding - 1))))
      end
  end.

Definition gcm_write (c : gcmCipher) (seqNum : Z) (w : Sink) (rand : Source) (packet : gostring)
  : write_result gcmCipher :=
  let padding := gcm_padding packet in
  let length_ := u32 (len packet + padding + 1) in
  let prefix := be_bytes 4 length_ in
  match sink_Write w prefix with
  | (Some e, w) => Some (mkWritten _ (Some (ioError e)) c w rand packet)
  | (None, w) =>
      if length_ <? 1 + len packet then None
      else
        match read_full rand (Z.to_nat (length_ - (1 + len packet))) with
        | (Err e, rand) => Some (mkWritten _ (Some (ioError e)) c w rand packet)
        | (Ok pad, rand) =>
            let buf := gcm_Seal (g_key c) (g_iv c) (vb padding :: packet ++ pad) prefix in
            match sink_Write w buf with
            | (Some e, w) => Some (mkWritten _ (Some (ioError e)) c w rand packet)
            | (None, w) =>
                iv ← incIV (g_iv c);
                Some (mkWritten _ None (mkGCM (g_key c) iv) w rand packet)
            end
        end
  end.

Definition gcm_read (c : gcmCipher) (seqNum : Z) (r : Source) : read_result gcmCipher :=
  match read_full r 4 with
  | (Err e, r) => Some (Err (ioError e), c, r)
  | (Ok prefix, r) =>
      let length_ := be_value prefix in
      if maxPacket <? length_ then Some (Err (newError (go "ssh: max packet length exceeded")), c, r)
      else
        match read_full r (Z.to_nat (u32 (length_ + Z.of_nat gcmTagSize))) with
        | (Err e, r) => Some (Err (ioError e), c, r)
        | (Ok buf, r) =>
            match gcm_Open (g_key c) (g_iv c) buf prefix with
            | None => Some (Err (newError (go "cipher: message authentication failed")), c, r)
            | Some plain =>
                iv ← incIV (g_iv c);
                p ← aead_unpad length_ plain;
                Some (p, mkGCM (g_key c) iv, r)
            end
        end
  end.

(** ** [cbcCipher] *)
Record cbcCipher := mkCBC {
  c_mac : MacHash;
  c_decrypter : BlockMode;
  c_encrypter : BlockMode;
  c_cap : Z;                 (** the capacity of [packetData] *)
  oracleCamouflage : Z }.
Definition c_macSize (c : cbcCipher) : Z := Z.of_nat (mac_Size (c_mac c)).

Definition maxUInt32 (a b : Z) : Z := if b <? a then u32 a else u32 b.
Definition cbcMinPacketSizeMultiple : Z := 8.
Definition cbcMinPacketSize : Z := 16.
Definition cbcMinPaddingSize : Z := 4.

Definition firstBlockLength (blockSize : Z) : Z := u32 ((prefixLen + blockSize - 1) / blockSize * blockSize).

(** The checks on the first block: the length and the padding length, or the error. *)
Definition cbc_header (blockSize : Z) (firstBlock : gostring) : result packet_error (Z * Z) :=
  let length_ := be_value (take 4 firstBlock) in
  if maxPacket <? length_ then Err (cbcError (go "ssh: packet too large"))
  else if u32 (length_ + 4) <? maxUInt32 cbcMinPacketSize blockSize then
    Err (cbcError (go "ssh: packet too small"))
  else if negb (u32 (length_ + 4) mod maxUInt32 cbcMinPacketSizeMultiple blockSize =? 0) then
    Err (cbcError (go "ssh: invalid packet length multiple"))
  else
    let paddingLength := be_value (slice firstBlock 4 1) in
    if (paddingLength <? cbcMinPaddingSize) || (length_ <=? u32 (paddingLength + 1)) then
      Err (cbcError (go "ssh: invalid packet length"))
    else Ok (length_, paddingLength).

(** The packet of the decrypted [data], followed by [mac]. *)
Definition cbc_verify (c : cbcCipher) (seqNum length_ paddingLength : Z) (data mac : gostring)
  : result packet_error gostring * cbcCipher :=
  let h := mac_Write (mac_Write (mac_Reset (c_mac c)) (be_bytes 4 seqNum)) data in
  let c := mkCBC h (c_decrypter c) (c_encrypter c) (c_cap c) (oracleCamouflage c) in
  if negb (mac_Sum h [] =s mac) then (Err (cbcError (go "ssh: MAC failure")), c)
  else (Ok (slice data 5 (Z.to_nat (4 + length_ - paddingLength - prefixLen))), c).

(** The rest of the packet, after the first block was accepted. *)
Definition cbc_read_rest (c : cbcCipher) (seqNum length_ paddingLength : Z) (firstBlock : gostring) (r : Source)
  : read_result cbcCipher :=
  let macStart := u32 (4 + length_) in
  let entirePacketSize := u32 (macStart + c_macSize c) in
  let cap := if c_cap c <? entirePacketSize then entirePacketSize else c_cap c in
  let c := mkCBC (c_mac c) (c_decrypter c) (c_encrypter c) cap (oracleCamouflage c) in
  if entirePacketSize <? len firstBlock then None
  else
    match read_full r (Z.to_nat (entirePacketSize - len firstBlock)) with
    | (Err e, r) => Some (Err (ioError e), c, r)
    | (Ok rest, r) =>
        let camouflage := u32 (oracleCamouflage c - len rest) in
        let n := Z.to_nat (macStart - len firstBlock) in
        x ← CryptBlocks cbc_decrypt (c_decrypter c) (take n rest);
        let '(p, c) := cbc_verify (mkCBC (c_mac c) (snd x) (c_encrypter c) cap camouflage)
                         seqNum length_ paddingLength (firstBlock ++ fst x) (drop n rest) in
        Some (p, c, r)
    end.

Definition readCipherPacketLeaky (c : cbcCipher) (seqNum : Z) (r : Source) : read_result cbcCipher :=
  let blockSize := Z.of_nat (BlockSize (bm_block (c_decrypter c))) in
  let first := firstBlockLength blockSize in
  if c_cap c <? first then None
  else
    match read_full r (Z.to_nat first) with
    | (Err e, r) => Some (Err (ioError e), c, r)
    | (Ok firstBlock, r) =>
        let camouflage := u32 (maxPacket + 4 + c_macSize c - first) in
        x ← CryptBlocks cbc_decrypt (c_decrypter c) firstBlock;
        let c := mkCBC (c_mac c) (snd x) (c_encrypter c) (c_cap c) camouflage in
        match cbc_header blockSize (fst x) with
        | Err e => Some (Err e, c, r)
        | Ok (length_, paddingLength) => cbc_read_rest c seqNum length_ paddingLength (fst x) r
        end
    end.

Definition cbc_read (c : cbcCipher) (seqNum : Z) (r : Source) : read_result cbcCipher :=
  x ← readCipherPacketLeaky c seqNum r;
  let '(p, c, r) := x in
  match p with
  | Err (cbcError _) => Some (p, c, discard r (Z.to_nat (oracleCamouflage c)))
  | _ => Some (p, c, r)
  end.

Definition cbc_encLength (blockSize : Z) (packet : gostring) : Z :=
  let effectiveBlockSize := maxUInt32 cbcMinPacketSizeMultiple blockSize in
  let encLength := maxUInt32 (prefixLen + len packet + cbcMinPaddingSize) cbcMinPacketSize in
  u32 (u32 (encLength + effectiveBlockSize - 1) / effectiveBlockSize * effectiveBlockSize).

Definition cbc_write (c : cbcCipher) (seqNum : Z) (w : Sink) (rand : Source) (packet : gostring)
  : write_result cbcCipher :=
  let encLength := cbc_encLength (Z.of_nat (BlockSize (bm_block (c_encrypter c)))) packet in
  let length_ := u32 (encLength - 4) in
  let paddingLength := length_ - (1 + len packet) in
  let bufferSize := u32 (encLength + c_macSize c) in
  let cap := if c_cap c <? bufferSize then bufferSize else c_cap c in
  if encLength <? prefixLen + len packet then None
  else
    match read_full rand (Z.to_nat (encLength - (prefixLen + len packet))) with
    | (Err e, rand) =>
        Some (mkWritten _ (Some (ioError e))
                (mkCBC (c_mac c) (c_decrypter c) (c_encrypter c) cap (oracleCamouflage c)) w rand packet)
    | (Ok pad, rand) =>
        let data := be_bytes 4 length_ ++ [vb paddingLength] ++ packet ++ pad in
        let h := mac_Write (mac_Write (mac_Reset (c_mac c)) (be_bytes 4 seqNum)) data in
        x ← CryptBlocks cbc_encrypt (c_encrypter c) data;
        let c := mkCBC h (c_decrypter c) (snd x) cap (oracleCamouflage c) in
        let '(e, w) := sink_Write w (fst x ++ mac_Sum h []) in
        Some (mkWritten _ (ioError <$> e) c w rand packet)
    end.

(** ** [chacha20Poly1305Cipher] *)
Record chachaCipher := mkChaCha { lengthKey : gostring; contentKey : gostring; ch_cap : Z }.

Definition chacha_nonce (seqNum : Z) : gostring := replicate 8 chNUL ++ be_bytes 4 seqNum.

(** The one-time key and the stream for the content: 32 bytes for the key, 32 skipped. *)
Definition chacha_start (c : chachaCipher) (seqNum : Z) : res (gostring * Stream) :=
  match NewUnauthenticatedCipher (contentKey c) (chacha_nonce seqNum) with
  | Err e => Err e
  | Ok s =>
      let '(polyKey, s) := XORKeyStream s (replicate 32 chNUL) in
      let '(_, s) := XORKeyStream s (replicate 32 chNUL) in
      Ok (polyKey, s)
  end.

Definition chacha_read (c : chachaCipher) (seqNum : Z) (r : Source) : read_result chachaCipher :=
  match chacha_start c seqNum with
  | Err e => Some (Err (newError (err_msg e)), c, r)
  | Ok (polyKey, s) =>
      if ch_cap c <? 4 then None
      else
        match read_full r 4 with
        | (Err e, r) => Some (Err (ioError e), c, r)
        | (Ok encryptedLength, r) =>
            match NewUnauthenticatedCipher (lengthKey c) (chacha_nonce seqNum) with
            | Err e => Some (Err (newError (err_msg e)), c, r)
            | Ok ls =>
                let length_ := be_value (fst (XORKeyStream ls encryptedLength)) in
                if maxPacket <? length_ then
                  Some (Err (newError (go "ssh: invalid packet length, packet too large")), c, r)
                else
                  let contentEnd := u32 (4 + length_) in
                  let packetEnd := u32 (contentEnd + Z.of_nat TagSize) in
                  let c := mkChaCha (lengthKey c) (contentKey c)
                             (if ch_cap c <? packetEnd then packetEnd else ch_cap c) in
                  match read_full r (Z.to_nat (packetEnd - 4)) with
                  | (Err e, r) => Some (Err (ioError e), c, r)
                  | (Ok body, r) =>
                      let content := take (Z.to_nat (contentEnd - 4)) body in
                      let mac := drop (Z.to_nat (contentEnd - 4)) body in
                      ok ← Verify mac (encryptedLength ++ content) polyKey;
                      if negb ok then Some (Err (newError (go "ssh: MAC failure")), c, r)
                      else
                        let plain := fst (XORKeyStream s content) in
                        p ← aead_unpad (len plain) plain;
                        Some (p, c, r)
                  end
            end
        end
  end.

Definition chacha_padding (payload : gostring) : Z :=
  let padding := 8 - (1 + len payload) mod 8 in
  if padding <? 4 then padding + 8 else padding.

Definition chacha_write (c : chachaCipher) (seqNum : Z) (w : Sink) (rand : Source) (payload : gostring)
  : write_result chachaCipher :=
  match chacha_start c seqNum with
  | Err e => Some (mkWritten _ (Some (newError (err_msg e))) c w rand payload)
  | Ok (polyKey, s) =>
      let padding := chacha_padding payload in
      let totalLength := 4 + 1 + len payload + padding + Z.of_nat TagSize in
      let c := mkChaCha (lengthKey c) (contentKey c) (if ch_cap c <? totalLength then totalLength else ch_cap c) in
      match NewUnauthenticatedCipher (lengthKey c) (chacha_nonce seqNum) with
      | Err e => Some (mkWritten _ (Some (newError (err_msg e))) c w rand payload)
      | Ok ls =>
          let '(lenBytes, _) := XORKeyStream ls (be_bytes 4 (u32 (1 + len payload + padding))) in
          match read_full rand (Z.to_nat padding) with
          | (Err e, rand) => Some (mkWritten _ (Some (ioError e)) c w rand payload)
          | (Ok pad, rand) =>
              let '(content, _) := XORKeyStream s (vb padding :: payload ++ pad) in
              mac ← Sum (lenBytes ++ content) polyKey;
              let '(e, w) := sink_Write w (lenBytes ++ content ++ mac) in
              Some (mkWritten _ (ioError <$> e) c w rand payload)
          end
      end
  end.

(** ** The [packetCipher] interface *)
Inductive packetCipher :=
| pcStream (c : streamPacketCipher)
| pcGCM (c : gcmCipher)
| pcCBC (c : cbcCipher)
| pcChaCha (c : chachaCipher).

Definition map_read {C} (f : C -> packetCipher) (x : read_result C) : read_result packetCipher :=
  y ← x; let '(p, c, r) := y in Some (p, f c, r).
Definition map_write {C} (f : C -> packetCipher) (x : write_result C) : write_result packetCipher :=
  y ← x; Some (mkWritten _ (w_err _ y) (f (w_cipher _ y)) (w_sink _ y) (w_rand _ y) (w_packet _ y)).

Definition readCipherPacket (c : packetCipher) (seqNum : Z) (r : Source) : read_result packetCipher :=
  match c with
  | pcStream c => map_read pcStream (stream_read c seqNum r)
  | pcGCM c => map_read pcGCM (gcm_read c seqNum r)
  | pcCBC c => map_read pcCBC (cbc_read c seqNum r)
  | pcChaCha c => map_read pcChaCha (chacha_read c seqNum r)
  end.

Definition writeCipherPacket (c : packetCipher) (seqNum : Z) (w : Sink) (rand : Source) (packet : gostring)
  : write_result packetCipher :=
  match c with
  | pcStream c => map_write pcStream (stream_write c seqNum w rand packet)
  | pcGCM c => map_write pcGCM (gcm_write c seqNum w rand packet)
  | pcCBC c => map_write pcCBC (cbc_write c seqNum w rand packet)
  | pcChaCha c => map_write pcChaCha (chacha_write c seqNum w rand packet)
  end.

Definition fakesshSetOpenSSHMinPadding (c : packetCipher) (enabled : bool) : packetCipher :=
  match c with
  | pcStream s => pcStream (mkStreamCipher (s_mac s) (s_cipher s) (s_etm s) (openSSHPadding s) enabled
                              (openSSHPlaintextCorruptPadding s))
  | c => c
  end.

(** ** Construction.  [None] is a panic: a MAC that is not in the table, an IV or a key of
    the wrong size. *)
Definition lib_error {A} (e : error) : created A := Some (Err (newError (err_msg e))).

Definition newAESCTR (key iv : gostring) : created Stream :=
  match aes_NewCipher key with
  | Err e => lib_error e
  | Ok c => s ← NewCTR c iv; Some (Ok s)
  end.
Definition newRC4 (key iv : gostring) : created Stream :=
  match rc4_NewCipher key with Err e => lib_error e | Ok s => Some (Ok s) end.

(** Discards the first [remainingToDump] bytes of the key stream, 512 at a time. *)
Fixpoint dump_stream (fuel : nat) (s : Stream) (remainingToDump : nat) : Stream :=
  match fuel with
  | O => s
  | S fuel =>
      if (0 <? remainingToDump)%nat then
        let dumpThisTime := Nat.min remainingToDump 512 in
        let '(_, s) := XORKeyStream s (replicate dumpThisTime chNUL) in
        dump_stream fuel s (remainingToDump - dumpThisTime)
      else s
  end.

Definition streamCipherMode (skip : nat) (createFunc : gostring -> gostring -> created Stream)
    (key iv macKey : gostring) (algs : DirectionAlgorithms) : created packetCipher :=
  x ← createFunc key iv;
  match x with
  | Err e => Some (Err e)
  | Ok stream =>
      m ← macMode_of (da_MAC algs);
      Some (Ok (pcStream (mkStreamCipher (Some (mm_new m macKey)) (dump_stream skip stream skip) (mm_etm m)
                            false false false)))
  end.

Definition newGCMCipher (key iv unusedMacKey : gostring) (unusedAlgs : DirectionAlgorithms) : created packetCipher :=
  match aes_NewCipher key with
  | Err e => lib_error e
  | Ok _ => Some (Ok (pcGCM (mkGCM key iv)))
  end.

Definition newCBCCipher (c : Block) (iv macKey : gostring) (algs : DirectionAlgorithms) : created packetCipher :=
  m ← macMode_of (da_MAC algs);
  dec ← NewCBC c iv;
  enc ← NewCBC c iv;
  Some (Ok (pcCBC (mkCBC (mm_new m macKey) dec enc 1024 0))).
Definition newAESCBCCipher (key iv macKey : gostring) (algs : DirectionAlgorithms) : created packetCipher :=
  match aes_NewCipher key with Err e => lib_error e | Ok c => newCBCCipher c iv macKey algs end.
Definition newTripleDESCBCCipher (key iv macKey : gostring) (algs : DirectionAlgorithms) : created packetCipher :=
  match NewTripleDESCipher key with Err e => lib_error e | Ok c => newCBCCipher c iv macKey algs end.

Definition newChaCha20Cipher (key unusedIV unusedMACKey : gostring) (unusedAlgs : DirectionAlgorithms)
  : created packetCipher :=
  if negb (length key =? 64)%nat then None
  else Some (Ok (pcChaCha (mkChaCha (drop 32 key) (take 32 key) 256))).

Record cipherMode := mkCipherMode {
  cm_keySize : nat; cm_ivSize : nat;
  cm_create : gostring -> gostring -> gostring -> DirectionAlgorithms -> created packetCipher }.

Definition cipherMode_of (name : gostring) : option cipherMode :=
  if name =s CipherAES128CTR then Some (mkCipherMode 16 16 (streamCipherMode 0 newAESCTR))
  else if name =s CipherAES192CTR then Some (mkCipherMode 24 16 (streamCipherMode 0 newAESCTR))
  else if name =s CipherAES256CTR then Some (mkCipherMode 32 16 (streamCipherMode 0 newAESCTR))
  else if name =s CipherAES128GCM then Some (mkCipherMode 16 12 newGCMCipher)
  else if name =s CipherAES256GCM then Some (mkCipherMode 32 12 newGCMCipher)
  else if name =s CipherChaCha20Poly1305 then Some (mkCipherMode 64 0 newChaCha20Cipher)
  else if name =s InsecureCipherRC4128 then Some (mkCipherMode 16 0 (streamCipherMode (Z.to_nat 1536) newRC4))
  else if name =s InsecureCipherRC4256 then Some (mkCipherMode 32 0 (streamCipherMode (Z.to_nat 1536) newRC4))
  else if name =s InsecureCipherRC4 then Some (mkCipherMode 16 0 (streamCipherMode 0 newRC4))
  else if name =s InsecureCipherAES128CBC then Some (mkCipherMode 16 16 newAESCBCCipher)
  else if name =s InsecureCipherTripleDESCBC then Some (mkCipherMode 24 8 newTripleDESCBCCipher)
  else None.

(** ** Frames: the binary packet protocol of RFC 4253, section 6, as a specification *)
Definition packet_body (payload padding : gostring) : gostring :=
  be_bytes 4 (1 + len payload + len padding) ++ [vb (len padding)] ++ payload ++ padding.

Definition tag (h : MacHash) (msg : gostring) : gostring := mac_Sum (mac_Write (mac_Reset h) msg) [].

Definition stream_wire (s : streamPacketCipher) (body : gostring) : gostring :=
  if mac_etm s then take 4 body ++ enc (s_cipher s) (drop 4 body) else enc (s_cipher s) body.
Definition stream_tag (s : streamPacketCipher) (seqNum : Z) (body : gostring) : gostring :=
  match s_mac s with
  | Some h => tag h (be_bytes 4 seqNum ++ if s_etm s then stream_wire s body else body)
  | None => []
  end.
Definition stream_frame (s : streamPacketCipher) (seqNum : Z) (payload padding : gostring) : gostring :=
  let body := packet_body payload padding in
  stream_wire s body ++ stream_tag s seqNum body.

(** The bytes of key stream the prefix takes. *)
Definition prefix_keys (s : streamPacketCipher) : nat := if mac_etm s then 1 else 5.

(** Padding the reader takes. *)
Definition stream_ok (s : streamPacketCipher) (payload padding : gostring) : Prop :=
  payload <> [] /\ len padding <= 255 /\ 1 + len payload + len padding <= maxPacket /\
  (openSSHMinPadding s || openSSHPlaintextCorruptPadding s = true -> 4 <= len padding).

Fixpoint mac_wf (h : MacHash) : Prop :=
  match h with
  | hmacHash _ _ _ => True
  | truncatingMAC n h => (n <= mac_Size h)%nat /\ mac_wf h
  end.
Definition stream_wf (s : streamPacketCipher) : Prop :=
  match s_mac s with Some h => mac_wf h /\ (mac_Size h <= 64)%nat | None => True end.

(** ** Lemmas: hashes *)
Lemma mac_Write_app h x y : mac_Write (mac_Write h x) y = mac_Write h (x ++ y).
Proof. induction h as [a k w|n h IH]; simpl; [by rewrite app_assoc|by rewrite IH]. Qed.
Lemma mac_Reset_Write h x : mac_Reset (mac_Write h x) = mac_Reset h.
Proof. induction h as [a k w|n h IH]; simpl; [done|by rewrite IH]. Qed.
Lemma mac_Reset_Reset h : mac_Reset (mac_Reset h) = mac_Reset h.
Proof. induction h as [a k w|n h IH]; simpl; [done|by rewrite IH]. Qed.
Lemma mac_Size_Write h x : mac_Size (mac_Write h x) = mac_Size h.
Proof. by destruct h. Qed.
Lemma mac_Size_Reset h : mac_Size (mac_Reset h) = mac_Size h.
Proof. by destruct h. Qed.
Lemma mac_wf_Write h x : mac_wf (mac_Write h x) <-> mac_wf h.
Proof. induction h as [a k w|n h IH]; simpl; [done|]. by rewrite mac_Size_Write, IH. Qed.
Lemma mac_wf_Reset h : mac_wf (mac_Reset h) <-> mac_wf h.
Proof. induction h as [a k w|n h IH]; simpl; [done|]. by rewrite mac_Size_Reset, IH. Qed.

Lemma mac_Reset_eq h h' :
  mac_Reset h' = mac_Reset h -> (mac_wf h' <-> mac_wf h) /\ mac_Size h' = mac_Size h.
Proof.
  intros E. by rewrite <- (mac_wf_Reset h'), <- (mac_Size_Reset h'), E, mac_wf_Reset, mac_Size_Reset.
Qed.

Lemma tag_Reset h m : tag (mac_Reset h) m = tag h m.
Proof. unfold tag. by rewrite mac_Reset_Reset. Qed.

(** Case analysis on the conditions of a goal. *)
Ltac split_ifs :=
  repeat match goal with |- context [if ?b then _ else _] => destruct b end.

Section Laws.
Context `{!CryptoLaws}.

Lemma length_mac_Sum h inp : mac_wf h -> length (mac_Sum h inp) = (length inp + mac_Size h)%nat.
Proof.
  revert inp. induction h as [a k w|n h IH]; intros inp; cbn [mac_Sum mac_Size mac_wf].
  - by rewrite length_app, hmac_length.
  - intros [Hn Hw]. rewrite length_take, IH by done. lia.
Qed.

Lemma length_tag h m : mac_wf h -> length (tag h m) = mac_Size h.
Proof.
  intros Hw. unfold tag. rewrite length_mac_Sum; [by rewrite mac_Size_Write, mac_Size_Reset|].
  by rewrite mac_wf_Write, mac_wf_Reset.
Qed.

(** ** Lemmas: the body of a packet *)
Lemma length_packet_body p pad : length (packet_body p pad) = (5 + length p + length pad)%nat.
Proof. unfold packet_body. rewrite !length_app, be_bytes_length. simpl. lia. Qed.

Lemma be_value_4 z : 0 <= z < 2 ^ 32 -> be_value (be_bytes 4 z) = z.
Proof. intros Hz. rewrite be_value_bytes. apply Z.mod_small. exact Hz. Qed.

Lemma be_value_1 b : be_value [b] = bv b.
Proof. done. Qed.

Lemma u32_small z : 0 <= z < 2 ^ 32 -> u32 z = z.
Proof. intros Hz. by apply Z.mod_small. Qed.

(** Five bytes are the two numbers they spell. *)
Lemma prefix_value pre :
  length pre = 5%nat -> pre = be_bytes 4 (be_value (take 4 pre)) ++ [vb (be_value (drop 4 pre))].
Proof.
  intros Hl. rewrite <- (take_drop 4 pre) at 1. f_equal.
  - symmetry. apply be_bytes_take. rewrite length_take. lia.
  - destruct (drop 4 pre) as [|b [|]] eqn:E; apply (f_equal length) in E; rewrite length_drop in E; simpl in E; try lia.
    by rewrite be_value_1, vb_bv.
Qed.

(** ** Lemmas: stream frames *)
Section StreamLemmas.
Variable s : streamPacketCipher.

Lemma length_stream_wire body : length (stream_wire s body) = length body.
Proof.
  unfold stream_wire. destruct (mac_etm s); rewrite ?length_app, length_enc, ?length_take, ?length_drop; lia.
Qed.

Lemma stream_wire_app pre rest :
  length pre = 5%nat ->
  stream_wire s (pre ++ rest) = stream_wire s pre ++ enc (advance (s_cipher s) (prefix_keys s)) rest.
Proof.
  intros Hl. unfold stream_wire, prefix_keys. destruct (mac_etm s).
  - rewrite take_app_le, drop_app_le, enc_app, app_assoc by lia. by rewrite length_drop, Hl.
  - by rewrite enc_app, Hl.
Qed.

Lemma open_prefix_wire pre :
  length pre = 5%nat ->
  stream_open_prefix s (stream_wire s pre) = (pre, advance (s_cipher s) (prefix_keys s)).
Proof.
  intros Hl. unfold stream_open_prefix, stream_wire, prefix_keys. destruct (mac_etm s).
  - rewrite drop_app_length', take_app_length' by (rewrite length_take; lia).
    by rewrite XORKeyStream_eq, enc_enc, length_enc, length_drop, Hl, take_drop.
  - by rewrite XORKeyStream_eq, enc_enc, length_enc, Hl.
Qed.

Lemma wire_open_prefix wire :
  length wire = 5%nat ->
  exists pre, wire = stream_wire s pre /\ length pre = 5%nat /\
    stream_open_prefix s wire = (pre, advance (s_cipher s) (prefix_keys s)).
Proof.
  intros Hl. exists (fst (stream_open_prefix s wire)).
  unfold stream_open_prefix, stream_wire, prefix_keys. destruct (mac_etm s).
  - rewrite XORKeyStream_eq. cbn [fst].
    rewrite take_app_length', drop_app_length' by (rewrite length_take; lia).
    rewrite enc_enc, take_drop, length_app, length_enc, length_take, length_drop, Hl. done.
  - rewrite XORKeyStream_eq. cbn [fst]. by rewrite enc_enc, length_enc, Hl.
Qed.
End StreamLemmas.

Definition mac_size (s : streamPacketCipher) : Z :=
  match s_mac s with Some h => Z.of_nat (mac_Size h) | None => 0 end.

(** What is left to decide once the bytes of a frame were read. *)
Definition stream_verdict (s : streamPacketCipher) (seqNum : Z) (pre data m : gostring) : result packet_error gostring :=
  let P := be_value (drop 4 pre) in
  if negb (stream_tag s seqNum (pre ++ data) =s m) then Err (newError (go "ssh: MAC failure"))
  else if openSSHMinPadding s && (P <? 4) then Err (newError (go "ssh: illegal padding " ++ Itoa P))
  else if openSSHPlaintextCorruptPadding s && (P <? 4) then Err errPacketCorrupt
  else Ok (take (Z.to_nat (be_value (take 4 pre) - P - 1)) data).

Lemma mac_size_range s : stream_wf s -> 0 <= mac_size s <= 64.
Proof. unfold stream_wf, mac_size. destruct (s_mac s); lia. Qed.

Lemma prefix_range pre :
  length pre = 5%nat -> 0 <= be_value (take 4 pre) < 2 ^ 32 /\ 0 <= be_value (drop 4 pre) < 256.
Proof.
  intros Hl. pose proof (be_value_range (take 4 pre)) as Ha. pose proof (be_value_range (drop 4 pre)) as Hb.
  unfold len in *. rewrite length_take in Ha. rewrite length_drop in Hb. rewrite Hl in *. exact (conj Ha Hb).
Qed.

Lemma stream_read_eq s seqNum pre data m rest e :
  length pre = 5%nat -> stream_wf s ->
  let L := be_value (take 4 pre) in
  be_value (drop 4 pre) + 1 < L -> L <= maxPacket -> len data = L - 1 -> len m = mac_size s ->
  exists h', mac_Reset <$> h' = mac_Reset <$> s_mac s /\
    stream_read s seqNum (mkSource (stream_wire s (pre ++ data) ++ m ++ rest) e) =
    Some (stream_verdict s seqNum pre data m,
          with_stream s h' (advance (s_cipher s) (prefix_keys s + length data)), mkSource rest e).
Proof.
  intros Hp Hwf L HL Hmax Hd Hm. destruct (prefix_range pre Hp) as [HLr HPr]. fold L in HLr.
  assert (EL : L = be_value (take 4 pre)) by done. clearbody L. pose proof (mac_size_range s Hwf).
  rewrite stream_wire_app by done. rewrite <- !app_assoc. unfold stream_read.
  rewrite read_full_app by (by rewrite length_stream_wire). rewrite open_prefix_wire by done. rewrite <- EL.
  fold (mac_size s). assert (maxPacket = 262144) by done.
  rewrite u32_small by lia. replace (L <=? _) with false by lia. replace (maxPacket <? L) with false by lia.
  rewrite u32_small by lia. rewrite app_assoc, read_full_app
    by (rewrite length_app, length_enc; unfold len in *; lia).
  unfold stream_open_body. cbn [with_stream s_mac s_cipher s_etm].
  rewrite drop_app_length', take_app_length' by (rewrite length_enc; unfold len in *; lia).
  rewrite XORKeyStream_eq, enc_enc, length_enc. cbn [fst snd]. rewrite advance_add.
  unfold stream_verdict, stream_tag, stream_mac_prefix, with_stream. rewrite <- EL. cbn [s_mac s_cipher s_etm openSSHMinPadding openSSHPlaintextCorruptPadding].
  destruct (s_mac s) as [h|] eqn:Eh.
  - destruct (s_etm s) eqn:Ee; cbn [negb]; (eexists (Some _); apply and_comm; split).
    + rewrite !mac_Write_app. unfold tag. rewrite stream_wire_app by done.
      assert (Ew : forall x, take 4 pre ++ drop 4 (stream_wire s pre) ++ x = stream_wire s pre ++ x).
      { intros x. unfold stream_wire, mac_etm. rewrite Eh, Ee, drop_app_length', <- app_assoc; [done|].
        rewrite length_take. lia. }
      rewrite Ew. by split_ifs.
    + cbn. by rewrite !mac_Reset_Write, mac_Reset_Reset.
    + rewrite !mac_Write_app. unfold tag. by split_ifs.
    + cbn. by rewrite !mac_Reset_Write, mac_Reset_Reset.
  - exists None. split; [done|]. unfold mac_size in Hm. rewrite Eh in Hm.
    destruct m; [|by rewrite len_cons in Hm; pose proof (len_nonneg m); lia].
    rewrite gos_eqb_refl. cbn [negb]. by split_ifs.
Qed.

(** Reading a frame whose padding the reader takes gives the payload back. *)
Lemma stream_read_frame s seqNum p pad rest e :
  stream_wf s -> stream_ok s p pad ->
  exists h', mac_Reset <$> h' = mac_Reset <$> s_mac s /\
    stream_read s seqNum (mkSource (stream_frame s seqNum p pad ++ rest) e) =
    Some (Ok p, with_stream s h' (advance (s_cipher s) (prefix_keys s + length p + length pad)), mkSource rest e).
Proof.
  intros Hwf (Hp & Hpad & Hmax & Hmin).
  set (pre := be_bytes 4 (1 + len p + len pad) ++ [vb (len pad)]).
  assert (Hpre : length pre = 5%nat) by (unfold pre; by rewrite length_app, be_bytes_length).
  assert (Ht : take 4 pre = be_bytes 4 (1 + len p + len pad)) by (apply take_app_length'; by rewrite be_bytes_length).
  assert (Hd : drop 4 pre = [vb (len pad)]) by (apply drop_app_length'; by rewrite be_bytes_length).
  pose proof (len_nonneg p). pose proof (len_nonneg pad). assert (maxPacket = 262144) by done.
  assert (0 < len p) by (destruct p; [done|]; rewrite len_cons; pose proof (len_nonneg p); lia).
  assert (EL : be_value (take 4 pre) = 1 + len p + len pad) by (rewrite Ht; apply be_value_4; lia).
  assert (EP : be_value (drop 4 pre) = len pad) by (rewrite Hd; apply bv_vb; lia).
  unfold stream_frame. assert (Eb : packet_body p pad = pre ++ (p ++ pad)) by (unfold packet_body, pre; by rewrite <- app_assoc).
  rewrite Eb, <- app_assoc.
  destruct (stream_read_eq s seqNum pre (p ++ pad) (stream_tag s seqNum (pre ++ p ++ pad)) rest e)
    as (h' & Hh & ->); rewrite ?EL, ?EP, ?len_app; try done; try lia.
  { unfold stream_tag, mac_size, len. unfold stream_wf in Hwf. destruct (s_mac s); [|done].
    by rewrite length_tag by apply Hwf. }
  exists h'. split; [done|]. rewrite length_app, Nat.add_assoc. do 3 f_equal.
  unfold stream_verdict. rewrite gos_eqb_refl, EL, EP. cbn [negb].
  replace (openSSHMinPadding s && (len pad <? 4)) with false by (destruct (openSSHMinPadding s); simpl in *; lia).
  replace (openSSHPlaintextCorruptPadding s && (len pad <? 4)) with false
    by (destruct (openSSHPlaintextCorruptPadding s); rewrite ?orb_true_r in *; simpl in *; lia).
  f_equal. apply take_app_length'. unfold len. lia.
Qed.

(** A packet is returned only from a frame of it. *)
Lemma stream_read_sound s seqNum r p s' r' :
  stream_wf s -> stream_read s seqNum r = Some (Ok p, s', r') ->
  exists pad, stream_ok s p pad /\ r = mkSource (stream_frame s seqNum p pad ++ avail r') (ending r').
Proof.
  intros Hwf Hr. unfold stream_read in Hr.
  destruct (read_full r 5) as [[wire|] r1] eqn:E1; [|done]. apply read_full_Ok in E1 as [Hw ->].
  destruct (wire_open_prefix s wire Hw) as (pre & -> & Hpre & Eo). rewrite Eo in Hr.
  destruct (prefix_range pre Hpre) as [HL HP]. rewrite u32_small in Hr by lia.
  destruct (be_value (take 4 pre) <=? _) eqn:Es; [done|]. destruct (maxPacket <? _) eqn:Em; [done|]. bool_simp.
  fold (mac_size s) in Hr. pose proof (mac_size_range s Hwf). assert (maxPacket = 262144) by done.
  rewrite u32_small in Hr by lia.
  destruct (read_full r1 _) as [[pd|] r2] eqn:E2; [|done]. apply read_full_Ok in E2 as [Hpd ->].
  set (c1 := advance (s_cipher s) (prefix_keys s)) in *.
  set (n := Z.to_nat (be_value (take 4 pre) - 1)).
  set (data := enc c1 (take n pd)). set (m := drop n pd).
  assert (Hn : (n <= length pd)%nat) by lia.
  assert (Hdata : len data = be_value (take 4 pre) - 1) by (unfold len, data; rewrite length_enc, length_take; lia).
  assert (Epd : pd = enc c1 data ++ m) by (unfold data, m; by rewrite enc_enc, take_drop).
  destruct (stream_read_eq s seqNum pre data m (avail r2) (ending r2)) as (h' & Hh & Eq); [done..| |].
  { unfold len, m. rewrite length_drop. lia. }
  assert (Er : stream_read s seqNum (mkSource (stream_wire s (pre ++ data) ++ m ++ avail r2) (ending r2)) = Some (Ok p, s', r')).
  { rewrite <- Hr, stream_wire_app, <- app_assoc by done. fold c1. rewrite (app_assoc (enc c1 data)), <- Epd.
    unfold stream_read. rewrite read_full_app by (by rewrite length_stream_wire). rewrite Eo.
    rewrite (u32_small (be_value (drop 4 pre) + 1)) by lia.
    replace (be_value (take 4 pre) <=? _) with false by lia. replace (maxPacket <? _) with false by lia.
    fold (mac_size s). rewrite u32_small by lia. rewrite (read_full_app pd) by done. by destruct r2. }
  rewrite Eq in Er. injection Er as Ev _ <-. cbn [avail ending].
  unfold stream_verdict in Ev.
  destruct (negb _) eqn:Et; [done|]. bool_simp.
  destruct (openSSHMinPadding s && _) eqn:Eo1; [done|]. destruct (openSSHPlaintextCorruptPadding s && _) eqn:Eo2; [done|].
  injection Ev as <-. set (k := Z.to_nat _).
  assert (Hk : (k <= length data)%nat) by (unfold k, len in *; lia).
  assert (Hpk : len (take k data) = be_value (take 4 pre) - be_value (drop 4 pre) - 1)
    by (unfold len in *; rewrite length_take; lia).
  assert (Hpadl : len (drop k data) = be_value (drop 4 pre)) by (unfold len in *; rewrite length_drop; lia).
  exists (drop k data). split.
  - split; [intros E; rewrite E in Hpk; simpl in Hpk; change (len []) with 0 in Hpk; lia|].
    rewrite Hpk, Hpadl. repeat split; try lia.
    intros [E|E]%orb_true_iff; rewrite E in Eo1 || rewrite E in Eo2; simpl in *; bool_simp; lia.
  - unfold stream_frame, packet_body. rewrite Hpk, Hpadl, take_drop.
    replace (1 + _ + _) with (be_value (take 4 pre)) by lia.
    rewrite (app_assoc (be_bytes _ _)), <- prefix_value by done. rewrite Et. cbn [avail].
    rewrite stream_wire_app by done. fold c1. rewrite Epd. by rewrite <- !app_assoc.
Qed.

(** ** Lemmas: writing *)
Definition ready (w : Sink) : Prop := Forall (fun f => f = None) (fates w).

Lemma sink_Write_ready w p :
  ready w -> exists w', sink_Write w p = (None, w') /\ sent w' = sent w ++ p /\ ready w'.
Proof.
  unfold ready, sink_Write. intros Hw. destruct (fates w) as [|f fs]; [by eexists|].
  inversion Hw; subst. by eexists.
Qed.

Lemma write_all_ready w parts :
  ready w -> exists w', write_all w parts = (None, w') /\ sent w' = sent w ++ concat parts /\ ready w'.
Proof.
  revert w. induction parts as [|p parts IH]; intros w Hw; cbn [write_all concat].
  { exists w. by rewrite app_nil_r. }
  destruct (sink_Write_ready w p Hw) as (w1 & -> & E1 & Hw1). destruct (IH w1 Hw1) as (w2 & -> & E2 & Hw2).
  exists w2. by rewrite E2, E1, app_assoc.
Qed.

Lemma stream_seal_spec s seqNum pre p pad :
  length pre = 5%nat ->
  exists h' w0 w1 w2, stream_seal s seqNum pre p pad =
    (w0, w1, w2, with_stream s h' (advance (s_cipher s) (prefix_keys s + length p + length pad))) /\
    mac_Reset <$> h' = mac_Reset <$> s_mac s /\
    w0 ++ w1 ++ w2 = stream_wire s (pre ++ p ++ pad) /\
    concat (match h' with Some h => [mac_Sum h []] | None => [] end) = stream_tag s seqNum (pre ++ p ++ pad) /\
    w1 = enc (advance (s_cipher s) (prefix_keys s)) p.
Proof.
  intros Hpre. rewrite stream_wire_app, enc_app, advance_add by done.
  unfold stream_seal, stream_tag, stream_wire, prefix_keys, mac_etm.
  destruct (s_mac s) as [h|] eqn:Eh; [destruct (s_etm s) eqn:Ee|]; cbn [negb].
  - rewrite !XORKeyStream_eq, !advance_add, length_drop, Hpre. cbn [fst snd]. 
    cbn [Nat.sub Nat.add]. do 4 eexists. split; [reflexivity|].
    split; [cbn; by rewrite !mac_Reset_Write, mac_Reset_Reset|]. split; [done|]. split; [|done].
    cbn [concat]. rewrite app_nil_r, !mac_Write_app. unfold tag. do 3 f_equal.
    rewrite (take_app_le _ (p ++ pad)), (drop_app_le _ (p ++ pad)), !enc_app, !advance_add, length_drop, Hpre by lia.
    by rewrite <- !app_assoc.
  - rewrite !XORKeyStream_eq, Hpre, !advance_add. do 4 eexists. split; [reflexivity|].
    split; [cbn; by rewrite !mac_Reset_Write, mac_Reset_Reset|]. split; [done|]. split; [|done].
    cbn [concat]. rewrite app_nil_r, !mac_Write_app. unfold tag. by rewrite <- ?app_assoc.
  - rewrite !XORKeyStream_eq, Hpre, !advance_add. do 4 eexists. split; [reflexivity|]. done.
Qed.

(** The padding a writer chooses: the encrypted part is a whole number of blocks. *)
Lemma padding_choice m n :
  0 < m -> 4 <= m ->
  let p0 := m - n mod m in
  let p := if p0 <? 4 then p0 + m else p0 in
  4 <= p < m + 4 /\ (n + p) mod m = 0.
Proof.
  intros Hm Hm4. cbn. pose proof (Z.mod_pos_bound n m Hm) as Hr. pose proof (Z.div_mod n m) as Hd.
  destruct (m - n mod m <? 4) eqn:E; bool_simp; (split; [lia|]).
  - replace (n + _) with ((n / m + 2) * m) by lia. apply Z.mod_mul. lia.
  - replace (n + _) with ((n / m + 1) * m) by lia. apply Z.mod_mul. lia.
Qed.

Lemma read_full_enough r n :
  (n <= length (avail r))%nat ->
  exists x r', read_full r n = (Ok x, r') /\ length x = n /\ length (avail r) = (n + length (avail r'))%nat.
Proof.
  intros Hn. unfold read_full. replace (_ <=? _)%nat with true by (symmetry; by apply Nat.leb_le).
  do 2 eexists. split; [done|]. cbn [avail]. rewrite length_take, length_drop. lia.
Qed.

Lemma stream_write_frame s seqNum w rand p :
  len p <= maxPacket -> ready w -> (20 <= length (avail rand))%nat ->
  exists pad h' w' rand',
    stream_write s seqNum w rand p =
      Some (mkWritten _ None (with_stream s h' (advance (s_cipher s) (prefix_keys s + length p + length pad)))
              w' rand' (enc (advance (s_cipher s) (prefix_keys s)) p)) /\
    sent w' = sent w ++ stream_frame s seqNum p pad /\ ready w' /\
    mac_Reset <$> h' = mac_Reset <$> s_mac s /\ (length (avail rand) <= 20 + length (avail rand'))%nat /\
    4 <= len pad < 20 /\ (prefixLen + len p + len pad - (if mac_etm s then 4 else 0)) mod packetSizeMultiple = 0.
Proof.
  intros Hmax Hw Hrand. unfold stream_write. replace (maxPacket <? len p) with false by lia.
  unfold stream_padding.
  destruct (padding_choice packetSizeMultiple (prefixLen + len p - (if mac_etm s then 4 else 0))) as [Hn Hal]; [done..|].
  set (n := if _ <? 4 then _ else _) in *.
  assert (exists pad rand', fillPadding s rand (Z.to_nat n) = (Ok pad, rand') /\ len pad = n /\
    (length (avail rand) <= 20 + length (avail rand'))%nat) as (pad & rand' & -> & Hl & Hused).
  { unfold fillPadding. change (packetSizeMultiple + 4) with 20 in Hn.
    destruct (openSSHPadding s && _ && _).
    - do 2 eexists. split; [done|]. unfold len. rewrite length_replicate. lia.
    - destruct (read_full_enough rand (Z.to_nat n)) as (x & r' & -> & Hx & Hr'); [lia|].
      do 2 eexists. split; [done|]. unfold len. lia. }
  change (packetSizeMultiple + 4) with 20 in Hn. pose proof (len_nonneg p). assert (maxPacket = 262144) by done.
  rewrite u32_small by lia. replace (len p + 1 + n) with (1 + len p + len pad) by lia. rewrite <- Hl.
  set (pre := be_bytes 4 (1 + len p + len pad) ++ [vb (len pad)]).
  assert (Hpre : length pre = 5%nat) by (unfold pre; by rewrite length_app, be_bytes_length).
  destruct (stream_seal_spec s seqNum pre p pad Hpre) as (h' & w0 & w1 & w2 & -> & Hh & Ewire & Etag & E1).
  cbn [with_stream s_mac].
  destruct (write_all_ready w ([w0; w1; w2] ++ match h' with Some h => [mac_Sum h []] | None => [] end) Hw)
    as (w' & -> & Es & Hw').
  exists pad, h', w', rand'. subst w1. split; [done|]. split; [|split; [done|split; [done|split; [done|split; [lia|]]]]].
  - rewrite Es. f_equal. rewrite concat_app, Etag. unfold stream_frame, packet_body.
    rewrite (app_assoc (be_bytes _ _)). fold pre. rewrite <- Ewire. cbn [concat]. by rewrite app_nil_r.
  - rewrite Hl. etrans; [|exact Hal]. f_equal. lia.
Qed.

(** ** [gcmCipher] *)
Definition aead_ok (payload padding : gostring) : Prop :=
  payload <> [] /\ 4 <= len padding <= 255 /\ 1 + len payload + len padding <= maxPacket.

Definition gcm_frame (c : gcmCipher) (payload padding : gostring) : gostring :=
  let pre := be_bytes 4 (1 + len payload + len padding) in
  pre ++ gcm_Seal (g_key c) (g_iv c) (vb (len padding) :: payload ++ padding) pre.

Definition gcm_wf (c : gcmCipher) : Prop := length (g_iv c) = 12%nat.
(** The next nonce: the last eight bytes are a counter. *)
Definition next_iv (iv : gostring) : gostring := take 4 iv ++ be_bytes 8 (be_value (drop 4 iv) + 1).

Lemma inc_bytes_spec s : rev (inc_bytes (rev s)) = be_bytes (length s) (be_value s + 1).
Proof.
  induction s as [|b s IH] using rev_ind; [done|].
  rewrite rev_app_distr, length_app, Nat.add_comm. cbn [rev app inc_bytes length Nat.add be_bytes].
  rewrite be_value_snoc. pose proof (bv_range b) as Hb.
  destruct (decide (bv b = 255)) as [E|E].
  - rewrite E. cbn [negb]. change (bv (vb (255 + 1))) with 0. cbn [negb Z.eqb rev].
    rewrite IH. replace (be_value s * 256 + 255 + 1) with ((be_value s + 1) * 256) by lia.
    rewrite Z.div_mul by done. f_equal. unfold vb. rewrite Z.mod_mul by done. done.
  - rewrite bv_vb by lia. replace (bv b + 1 =? 0) with false by lia. cbn [negb rev]. rewrite rev_involutive.
    rewrite <- Z.add_assoc. rewrite (Z.add_comm (be_value s * 256)), Z.div_add, Z.div_small, Z.add_0_l, be_bytes_value by lia.
    f_equal. f_equal. unfold vb. by rewrite Z.mod_add.
Qed.

Lemma incIV_spec iv : length iv = 12%nat -> incIV iv = Some (next_iv iv) /\ length (next_iv iv) = 12%nat.
Proof.
  intros Hl. unfold incIV, next_iv, slice. rewrite Hl. cbn [Nat.leb].
  rewrite (take_ge (drop 4 iv)) by (rewrite length_drop; lia). rewrite inc_bytes_spec, length_drop, Hl.
  rewrite (drop_ge _ 12), app_nil_r by lia. rewrite length_app, be_bytes_length, length_take, Hl. done.
Qed.

Lemma aead_unpad_ok p pad :
  p <> [] -> 4 <= len pad <= 255 ->
  aead_unpad (1 + len p + len pad) (vb (len pad) :: p ++ pad) = Some (Ok p).
Proof.
  intros Hp Hpad. assert (0 < len p) by (destruct p; [done|]; rewrite len_cons; pose proof (len_nonneg p); lia).
  unfold aead_unpad, fakesshAuthenticatedShortPacket. rewrite len_cons, len_app.
  replace (5 <=? _) with true by lia. rewrite bv_vb by lia. replace (len pad <? 4) with false by lia.
  replace (_ <=? len pad + 1) with false by lia. unfold slice. cbn [drop].
  do 2 f_equal. apply take_app_length'. unfold len. lia.
Qed.

Lemma aead_unpad_sound plain p :
  aead_unpad (len plain) plain = Some (Ok p) ->
  exists pad, plain = vb (len pad) :: p ++ pad /\ p <> [] /\ 4 <= len pad <= 255.
Proof.
  unfold aead_unpad. destruct (fakesshAuthenticatedShortPacket plain); [done|].
  destruct plain as [|b t]; [done|]. destruct (bv b <? 4) eqn:E1; [done|].
  destruct (len (b :: t) <=? bv b + 1) eqn:E2; [done|]. bool_simp. rewrite len_cons in *. pose proof (bv_range b).
  intros [= <-]. unfold slice. cbn [drop]. set (k := Z.to_nat _).
  assert (Hk : Z.of_nat k = len t - bv b) by (unfold k; lia). clearbody k.
  assert (len (drop k t) = bv b) as Hd by (unfold len in *; rewrite length_drop; lia).
  exists (drop k t). rewrite Hd, vb_bv, take_drop. split; [done|]. split; [|lia].
  intros E. apply (f_equal length) in E. rewrite length_take, drop_0 in E. simpl in E. unfold len in *. lia.
Qed.

Lemma aead_unpad_some L plain : exists x, aead_unpad L plain = Some x.
Proof.
  unfold aead_unpad. destruct (fakesshAuthenticatedShortPacket plain) eqn:E; [by eexists|].
  destruct plain; [done|]. repeat case_match; by eexists.
Qed.

Lemma gcm_read_frame c seqNum p pad rest e :
  gcm_wf c -> aead_ok p pad ->
  gcm_read c seqNum (mkSource (gcm_frame c p pad ++ rest) e) =
  Some (Ok p, mkGCM (g_key c) (next_iv (g_iv c)), mkSource rest e).
Proof.
  intros Hwf (Hp & Hpad & Hmax). pose proof (len_nonneg p). assert (maxPacket = 262144) by done.
  unfold gcm_read, gcm_frame. rewrite <- app_assoc, read_full_app by apply be_bytes_length.
  rewrite be_value_4 by lia. replace (maxPacket <? _) with false by lia. change (Z.of_nat gcmTagSize) with 16.
  rewrite u32_small by lia. rewrite read_full_app.
  2: { rewrite Seal_length. cbn [length]. rewrite length_app. unfold len, gcmTagSize. lia. }
  rewrite (proj2 (Open_iff_Seal _ _ _ _ _) eq_refl). destruct (incIV_spec _ Hwf) as [-> _]. cbn [mbind option_bind].
  by rewrite aead_unpad_ok.
Qed.

Lemma gcm_read_sound c seqNum r p c' r' :
  gcm_wf c -> gcm_read c seqNum r = Some (Ok p, c', r') ->
  exists pad, aead_ok p pad /\ r = mkSource (gcm_frame c p pad ++ avail r') (ending r').
Proof.
  intros Hwf Hr. unfold gcm_read in Hr.
  destruct (read_full r 4) as [[pre|] r1] eqn:E1; [|done]. apply read_full_Ok in E1 as [Hl ->].
  destruct (maxPacket <? _) eqn:Em; [done|]. bool_simp. assert (maxPacket = 262144) by done.
  pose proof (be_value_range pre). change (Z.of_nat gcmTagSize) with 16 in Hr. rewrite u32_small in Hr by lia.
  destruct (read_full r1 _) as [[buf|] r2] eqn:E2; [|done]. apply read_full_Ok in E2 as [Hb ->].
  destruct (gcm_Open _ _ _ _) as [plain|] eqn:Eo; [|done]. apply Open_iff_Seal in Eo as ->.
  destruct (incIV_spec _ Hwf) as [E _]. rewrite E in Hr. cbn [mbind option_bind] in Hr.
  rewrite Seal_length in Hb. unfold gcmTagSize in Hb.
  assert (Hplain : be_value pre = len plain) by (unfold len; lia). rewrite Hplain in Hr.
  destruct (aead_unpad _ _) as [q|] eqn:Eu; [|done]. injection Hr as -> _ <-.
  apply aead_unpad_sound in Eu as (pad & -> & Hp & Hpad). exists pad.
  rewrite len_cons, len_app in Hplain. split; [split; [done|]; lia|].
  unfold gcm_frame. replace (1 + len p + len pad) with (be_value pre) by lia.
  replace (be_bytes 4 (be_value pre)) with pre by (rewrite <- Hl; symmetry; apply be_bytes_value).
  cbn [avail]. by rewrite <- app_assoc.
Qed.

Lemma gcm_write_frame c seqNum w rand p :
  gcm_wf c -> len p <= maxPacket -> ready w -> (20 <= length (avail rand))%nat ->
  exists pad w' rand',
    gcm_write c seqNum w rand p = Some (mkWritten _ None (mkGCM (g_key c) (next_iv (g_iv c))) w' rand' p) /\
    sent w' = sent w ++ gcm_frame c p pad /\ ready w' /\ (length (avail rand) <= 20 + length (avail rand'))%nat /\
    4 <= len pad < 20 /\ (1 + len p + len pad) mod packetSizeMultiple = 0.
Proof.
  intros Hwf Hmax Hw Hrand. unfold gcm_write, gcm_padding.
  destruct (padding_choice packetSizeMultiple (1 + len p)) as [Hn Hal]; [done..|].
  set (n := if _ <? 4 then _ else _) in *. change (packetSizeMultiple + 4) with 20 in Hn.
  pose proof (len_nonneg p). assert (maxPacket = 262144) by done. rewrite u32_small by lia.
  destruct (sink_Write_ready w (be_bytes 4 (len p + n + 1)) Hw) as (w1 & -> & Es1 & Hw1).
  replace (_ <? 1 + len p) with false by lia.
  destruct (read_full_enough rand (Z.to_nat (len p + n + 1 - (1 + len p)))) as (pad & rand' & -> & Hl & Hused); [lia|].
  assert (Hpad : len pad = n) by (unfold len; lia).
  destruct (sink_Write_ready w1 (gcm_Seal (g_key c) (g_iv c) (vb n :: p ++ pad) (be_bytes 4 (len p + n + 1))) Hw1)
    as (w2 & -> & Es2 & Hw2).
  destruct (incIV_spec _ Hwf) as [-> _]. cbn [mbind option_bind]. exists pad, w2, rand'. split; [done|].
  split; [|split; [done|split; [lia|split; [lia|by rewrite Hpad]]]].
  rewrite Es2, Es1. unfold gcm_frame. rewrite Hpad. replace (1 + len p + n) with (len p + n + 1) by lia.
  by rewrite <- app_assoc.
Qed.

(** ** [cbcCipher] *)
Definition cbc_frame (h : MacHash) (m : BlockMode) (seqNum : Z) (payload padding : gostring) : gostring :=
  let body := packet_body payload padding in
  fst (cbc_encrypt (bm_block m) (length body / BlockSize (bm_block m)) (bm_iv m) body) ++
  tag h (be_bytes 4 seqNum ++ body).
(** The chaining block after a packet. *)
Definition cbc_next (m : BlockMode) (payload padding : gostring) : BlockMode :=
  let body := packet_body payload padding in
  mkBlockMode (bm_block m) (snd (cbc_encrypt (bm_block m) (length body / BlockSize (bm_block m)) (bm_iv m) body)).

Definition cbc_ok (b : Block) (payload padding : gostring) : Prop :=
  aead_ok payload padding /\ 16 <= prefixLen + len payload + len padding /\
  (prefixLen + len payload + len padding) mod Z.of_nat (BlockSize b) = 0.

Definition mode_wf (m : BlockMode) : Prop := length (bm_iv m) = BlockSize (bm_block m).
Definition cbc_wf (c : cbcCipher) : Prop :=
  mac_wf (c_mac c) /\ (mac_Size (c_mac c) <= 64)%nat /\ mode_wf (c_decrypter c) /\ mode_wf (c_encrypter c) /\
  1024 <= c_cap c.

Lemma BlockSize_cases b : BlockSize b = 8%nat \/ BlockSize b = 16%nat.
Proof. destruct b; auto. Qed.

Lemma firstBlockLength_eq b : firstBlockLength (Z.of_nat (BlockSize b)) = Z.of_nat (BlockSize b).
Proof. by destruct b. Qed.

Lemma cbc_header_iff b fb L P :
  (5 <= length fb)%nat ->
  cbc_header (Z.of_nat (BlockSize b)) fb = Ok (L, P) <->
  L = be_value (take 4 fb) /\ P = be_value (slice fb 4 1) /\ L <= maxPacket /\ 16 <= L + 4 /\
  (L + 4) mod Z.of_nat (BlockSize b) = 0 /\ 4 <= P /\ P + 1 < L.
Proof.
  intros Hl. unfold cbc_header.
  replace (maxUInt32 cbcMinPacketSize _) with 16 by (by destruct b).
  replace (maxUInt32 cbcMinPacketSizeMultiple _) with (Z.of_nat (BlockSize b)) by (by destruct b).
  pose proof (be_value_range (take 4 fb)) as HL. pose proof (be_value_range (slice fb 4 1)) as HP.
  replace (len (take 4 fb)) with 4 in HL by (unfold len; rewrite length_take; lia).
  replace (len (slice fb 4 1)) with 1 in HP by (unfold len; rewrite length_slice; lia).
  assert (maxPacket = 262144) by done. change (256 ^ 1) with 256 in HP. unfold cbcMinPaddingSize.
  destruct (maxPacket <? _) eqn:E1; bool_simp; [split; [done|lia]|].
  rewrite !u32_small by lia.
  destruct (_ <? 16) eqn:E2; bool_simp; [split; [done|lia]|].
  destruct (negb _) eqn:E3; bool_simp; [split; [done|]; intros (-> & _ & _ & _ & Hmod & _); done|].
  destruct (_ || _) eqn:E4; [apply orb_true_iff in E4; split; [done|]; destruct E4; bool_simp; lia|]. bool_simp.
  split; [intros [= <- <-]; lia|]. by intros (-> & -> & _).
Qed.

Lemma CryptBlocks_eq mode m src n :
  length src = (n * BlockSize (bm_block m))%nat ->
  CryptBlocks mode m src =
  Some (fst (mode (bm_block m) n (bm_iv m) src), mkBlockMode (bm_block m) (snd (mode (bm_block m) n (bm_iv m) src))).
Proof.
  intros Hl. unfold CryptBlocks. assert (BlockSize (bm_block m) <> 0)%nat by (by destruct (bm_block m)).
  rewrite Hl, Nat.Div0.mod_mul, Nat.div_mul by done. cbn [Nat.eqb].
  by destruct (mode (bm_block m) n (bm_iv m) src).
Qed.

(** What is left to decide once the first block was accepted and the rest was read. *)
Definition cbc_verdict (h : MacHash) (seqNum : Z) (body m : gostring) : result packet_error gostring :=
  if negb (tag h (be_bytes 4 seqNum ++ body) =s m) then Err (cbcError (go "ssh: MAC failure"))
  else Ok (slice body 5 (Z.to_nat (4 + be_value (take 4 body) - be_value (slice body 4 1) - prefixLen))).

Section CBCLemmas.
Variable (c : cbcCipher) (seqNum : Z).
Hypothesis Hwf : cbc_wf c.
Let b := bm_block (c_decrypter c).
Let bs := BlockSize b.
Let iv := bm_iv (c_decrypter c).

Definition cbc_camouflage : Z := maxPacket + 4 + c_macSize c - Z.of_nat bs.

Lemma cbc_read_first wire rest e :
  length wire = bs ->
  readCipherPacketLeaky c seqNum (mkSource (wire ++ rest) e) =
  let x := cbc_decrypt b 1 iv wire in
  let c := mkCBC (c_mac c) (mkBlockMode b (snd x)) (c_encrypter c) (c_cap c) cbc_camouflage in
  match cbc_header (Z.of_nat bs) (fst x) with
  | Err e' => Some (Err e', c, mkSource rest e)
  | Ok (length_, paddingLength) => cbc_read_rest c seqNum length_ paddingLength (fst x) (mkSource rest e)
  end.
Proof.
  intros Hl. destruct Hwf as (_ & Hm & _ & _ & Hcap). unfold readCipherPacketLeaky. fold b bs.
  assert (Hbs : (bs <= 16)%nat) by (unfold bs; destruct b; simpl; lia).
  assert (Hfb : firstBlockLength (Z.of_nat bs) = Z.of_nat bs) by apply firstBlockLength_eq. rewrite !Hfb.
  replace (c_cap c <? _) with false by lia. rewrite Nat2Z.id, read_full_app by done.
  rewrite (CryptBlocks_eq _ _ _ 1) by (cbn; rewrite Nat.add_0_r; exact Hl). cbn [mbind option_bind fst snd]. fold b iv.
  assert (maxPacket = 262144) by done.
  unfold cbc_camouflage. rewrite u32_small; [done|]. unfold c_macSize. lia.
Qed.

Lemma cbc_read_eq wire m rest e n :
  (0 < n)%nat -> length wire = (n * bs)%nat -> len m = c_macSize c ->
  let body := fst (cbc_decrypt b n iv wire) in
  forall P, cbc_header (Z.of_nat bs) (take bs body) = Ok (len wire - 4, P) ->
  exists h' cap' cam', mac_Reset h' = mac_Reset (c_mac c) /\ 1024 <= cap' /\
    cam' = cbc_camouflage - (len wire + c_macSize c - Z.of_nat bs) /\
    readCipherPacketLeaky c seqNum (mkSource (wire ++ m ++ rest) e) =
    Some (cbc_verdict (c_mac c) seqNum body m,
          mkCBC h' (mkBlockMode b (snd (cbc_decrypt b n iv wire))) (c_encrypter c) cap' cam', mkSource rest e).
Proof.
  intros Hn Hwire Hm body P Hh. destruct Hwf as (Hmw & Hms & Hiv & _ & Hcap). change (length iv = bs) in Hiv.
  assert (Hbs : (8 <= bs <= 16)%nat) by (unfold bs; destruct b; simpl; lia).
  assert (Hbody : length body = length wire) by (unfold body; destruct (cbc_decrypt_length b n iv wire); lia).
  assert (Htl : (bs <= length wire)%nat) by nia.
  pose proof (proj1 (cbc_header_iff b (take bs body) (len wire - 4) P ltac:(rewrite length_take; lia)) Hh)
    as (HL & HP & Hmax & Hmin & _ & HP4 & HPL).
  assert (maxPacket = 262144) by done.
  replace (wire ++ m ++ rest) with (take bs wire ++ drop bs wire ++ m ++ rest) by (by rewrite app_assoc, take_drop).
  destruct n as [|n]; [lia|]. rewrite cbc_read_first by (rewrite length_take; lia). cbv zeta.
  assert (Hdec : cbc_decrypt b (S n) iv wire =
    (fst (cbc_decrypt b 1 iv (take bs wire)) ++ fst (cbc_decrypt b n (snd (cbc_decrypt b 1 iv (take bs wire))) (drop bs wire)),
     snd (cbc_decrypt b n (snd (cbc_decrypt b 1 iv (take bs wire))) (drop bs wire)))).
  { rewrite <- (take_drop bs wire) at 1. apply (cbc_decrypt_app b 1 n). rewrite length_take. fold bs. lia. }
  set (x1 := cbc_decrypt b 1 iv (take bs wire)) in *.
  assert (Hx1 : length (fst x1) = bs).
  { destruct (cbc_decrypt_length b 1 iv (take bs wire)) as [E _]; [rewrite length_take; fold bs; lia|done|].
    rewrite Nat.mul_1_l in E. exact E. }
  set (x2 := cbc_decrypt b n (snd x1) (drop bs wire)) in *.
  assert (Ebody : body = fst x1 ++ fst x2) by (unfold body; by rewrite Hdec).
  assert (Efb : fst x1 = take bs body) by (rewrite Ebody, take_app_length'; done).
  rewrite Efb, Hh. unfold cbc_read_rest.
  cbn [c_mac c_decrypter c_encrypter c_cap oracleCamouflage]. change (c_macSize _) with (c_macSize c).
  replace (4 + (len wire - 4)) with (len wire) by lia. unfold c_macSize in *.
  rewrite (u32_small (len wire)), (u32_small (len wire + _)) by lia.
  replace (len (take bs body)) with (Z.of_nat bs) by (unfold len; rewrite length_take; lia).
  replace (_ <? Z.of_nat bs) with false by (unfold len in *; lia).
  rewrite app_assoc, read_full_app by (rewrite length_app, length_drop; unfold len in *; lia).
  rewrite take_app_length', drop_app_length' by (rewrite length_drop; unfold len; lia).
  rewrite (CryptBlocks_eq _ _ _ n) by (cbn [bm_block]; rewrite length_drop; fold bs; lia).
  cbn [mbind option_bind fst snd bm_block bm_iv]. fold x2. unfold cbc_verify.
  cbn [c_mac c_decrypter c_encrypter c_cap oracleCamouflage]. rewrite mac_Write_app, <- Efb, <- Ebody.
  rewrite Hdec. cbn [snd].
  assert (Hcam : u32 (cbc_camouflage - len (drop bs wire ++ m)) = cbc_camouflage - (len wire + c_macSize c - Z.of_nat bs)).
  { unfold cbc_camouflage, c_macSize. rewrite len_app.
    replace (len (drop bs wire)) with (len wire - Z.of_nat bs) by (unfold len; rewrite length_drop; lia).
    rewrite u32_small; lia. }
  rewrite Hcam. unfold cbc_verdict, tag. do 3 eexists.
  split; [|split; [|split; [reflexivity|]]].
  3: { replace (be_value (take 4 body)) with (len wire - 4) by (rewrite HL, take_take; do 2 f_equal; lia).
       replace (be_value (slice body 4 1)) with P by (rewrite HP, slice_take; [done|lia]).
       destruct (negb _); reflexivity. }
  - by rewrite mac_Reset_Write, mac_Reset_Reset.
  - case_match; bool_simp; lia.
Qed.

(** The ways a read ends: the stream fails; the first block is rejected; or a whole
    frame was read and its tag decides. *)
Lemma cbc_read_cases r :
  exists x c' r', readCipherPacketLeaky c seqNum r = Some (x, c', r') /\ cbc_wf c' /\
    mac_Reset (c_mac c') = mac_Reset (c_mac c) /\
    ((exists e, x = Err (ioError e)) \/
     (exists w1 e, x = Err (cbcError e) /\ length w1 = bs /\ r = mkSource (w1 ++ avail r') (ending r') /\
        oracleCamouflage c' = cbc_camouflage) \/
     (exists n wire m P, (0 < n)%nat /\ length wire = (n * bs)%nat /\ len m = c_macSize c /\
        r = mkSource (wire ++ m ++ avail r') (ending r') /\
        let body := fst (cbc_decrypt b n iv wire) in
        cbc_header (Z.of_nat bs) (take bs body) = Ok (len wire - 4, P) /\
        x = cbc_verdict (c_mac c) seqNum body m /\
        c_decrypter c' = mkBlockMode b (snd (cbc_decrypt b n iv wire)) /\ c_encrypter c' = c_encrypter c /\
        oracleCamouflage c' = cbc_camouflage - (len wire + c_macSize c - Z.of_nat bs))).
Proof.
  destruct Hwf as (Hmw & Hms & Hiv & Hie & Hcap). change (length iv = bs) in Hiv.
  assert (Hbs : (8 <= bs <= 16)%nat) by (unfold bs; destruct b; simpl; lia). assert (maxPacket = 262144) by done.
  assert (Hfb : firstBlockLength (Z.of_nat bs) = Z.of_nat bs) by apply firstBlockLength_eq.
  destruct (read_full r bs) as [[w1|e1] r1] eqn:E1.
  2: { exists (Err (ioError e1)), c, r1. split; [|split; [done|split; [done|left; by eexists]]].
       unfold readCipherPacketLeaky. fold b bs. rewrite Hfb, Nat2Z.id, E1. by replace (c_cap c <? _) with false by lia. }
  apply read_full_Ok in E1 as [Hw1 ->]. rewrite cbc_read_first by done. cbv zeta.
  set (x1 := cbc_decrypt b 1 iv w1).
  destruct (cbc_decrypt_length b 1 iv w1) as [Hx1 Hx1']; [fold bs; lia|done|]. fold x1 in Hx1, Hx1'. fold bs in Hx1, Hx1'.
  destruct (cbc_header (Z.of_nat bs) (fst x1)) as [[L P]|e2] eqn:Eh.
  2: { do 3 eexists. split; [reflexivity|]. split; [done|]. split; [done|]. right. left.
       exists w1. assert (exists m, e2 = cbcError m) as [m ->].
       { unfold cbc_header in Eh. repeat case_match; inversion Eh; by eexists. }
       exists m. cbn [avail ending]. by destruct r1. }
  pose proof (proj1 (cbc_header_iff b (fst x1) L P ltac:(lia)) Eh) as (HL & HP & Hmax & Hmin & Hmod & HP4 & HPL).
  set (k := Z.to_nat (4 + L + c_macSize c - Z.of_nat bs)).
  destruct (read_full r1 k) as [[rest|e3] r2] eqn:E2.
  - apply read_full_Ok in E2 as [Hrest ->]. set (j := Z.to_nat (4 + L - Z.of_nat bs)).
    assert (Hj : (j <= length rest)%nat) by (unfold c_macSize in *; lia).
    set (wire := w1 ++ take j rest). set (m := drop j rest). set (n := Z.to_nat ((L + 4) / Z.of_nat bs)).
    assert (Hwire : len wire = 4 + L) by (unfold len, wire; rewrite length_app, length_take; lia).
    assert (Hdiv : L + 4 = Z.of_nat bs * ((L + 4) / Z.of_nat bs)) by (apply Z.div_exact; [lia|exact Hmod]).
    assert (Hn : length wire = (n * bs)%nat) by (unfold len in Hwire; nia).
    assert (Hn0 : (0 < n)%nat) by (unfold len in Hwire; nia).
    assert (Hm : len m = c_macSize c) by (unfold len, m, c_macSize in *; rewrite length_drop; lia).
    assert (Hbody : take bs (fst (cbc_decrypt b n iv wire)) = fst x1).
    { replace n with (1 + (n - 1))%nat by lia. unfold wire.
      rewrite (cbc_decrypt_app b 1 (n - 1)) by (rewrite Hw1; fold bs; lia). cbn [fst]. apply take_app_length'. fold x1. lia. }
    destruct (cbc_read_eq wire m (avail r2) (ending r2) n Hn0 Hn Hm P) as (h' & cap' & cam' & Hh & Hcap' & Hcam & Eq).
    { rewrite Hbody, Eh. do 2 f_equal. lia. }
    replace (wire ++ m ++ avail r2) with (w1 ++ rest ++ avail r2) in Eq
      by (unfold wire, m; rewrite <- app_assoc, (app_assoc (take j rest)), take_drop; done).
    rewrite cbc_read_first in Eq by done. cbv zeta in Eq. fold x1 in Eq. rewrite Eh in Eq.
    do 3 eexists. split; [cbn [avail ending]; exact Eq|]. cbn [c_mac c_decrypter c_encrypter c_cap].
    destruct (cbc_decrypt_length b n iv wire) as [_ Hiv']; [fold bs; lia|done|].
    destruct (mac_Reset_eq _ _ Hh) as [Hmw' Hms'].
    split; [split; [by apply Hmw'|split; [cbn [c_mac]; lia|done]]|].
    split; [done|]. right. right. exists n, wire, m, P. split; [done|]. split; [done|]. split; [done|].
    cbn [avail ending]. split; [unfold wire, m; by rewrite <- app_assoc, (app_assoc (take j rest)), take_drop|].
    rewrite Hbody, Eh. split; [do 2 f_equal; lia|]. done.
  - unfold cbc_read_rest. cbn [c_mac c_decrypter c_encrypter c_cap oracleCamouflage].
    change (c_macSize (mkCBC _ _ _ _ _)) with (c_macSize c). unfold c_macSize in *.
    rewrite (u32_small (4 + L)), u32_small by lia. replace (len (fst x1)) with (Z.of_nat bs) by (unfold len; lia).
    replace (_ <? Z.of_nat bs) with false by lia. fold k. destruct r1 as [av1 en1]. cbn [avail ending]. rewrite E2.
    do 3 eexists. split; [reflexivity|]. split; [|split; [done|left; by eexists]].
    split; [done|]. split; [done|]. split; [done|]. split; [done|]. cbn [c_cap]. case_match; bool_simp; lia.
Qed.

(** Whatever check failed, a verification error takes the same number of bytes off the
    connection. *)
Lemma cbc_camouflage_spec r e c' r' :
  cbc_read c seqNum r = Some (Err (cbcError e), c', r') ->
  r' = mkSource (drop (Z.to_nat (maxPacket + 4 + c_macSize c)) (avail r)) (ending r).
Proof.
  unfold cbc_read. assert (Hbs : (8 <= bs <= 16)%nat) by (unfold bs; destruct b; simpl; lia).
  assert (maxPacket = 262144) by done. pose proof (len_nonneg (A := ascii)) as Hlen.
  destruct (cbc_read_cases r) as (x & c1 & r1 & -> & _ & _ & Hcases). cbn [mbind option_bind].
  destruct Hcases as [(e1 & ->)|[(w1 & e1 & -> & Hw & -> & Hcam)|(n & wire & m & P & Hn & Hwire & Hm & -> & Hh & -> & _ & _ & Hcam)]].
  - done.
  - intros [= _ _ <-]. unfold discard. cbn [avail ending]. rewrite drop_app_ge by (unfold c_macSize; lia).
    do 2 f_equal. rewrite Hcam. unfold cbc_camouflage, c_macSize in *. lia.
  - unfold cbc_verdict. destruct (negb _); [|done]. intros [= _ _ <-]. unfold discard. cbn [avail ending].
    destruct (cbc_decrypt_length b n iv wire) as [Hb _]; [fold bs; lia|apply Hwf|].
    apply cbc_header_iff in Hh as (_ & _ & Hmax & _); [|rewrite length_take; fold bs in Hb; nia].
    rewrite app_assoc, drop_app_ge by (rewrite length_app; unfold len, c_macSize in *; lia).
    do 2 f_equal. rewrite Hcam, length_app. unfold cbc_camouflage, c_macSize, len in *. lia.
Qed.
End CBCLemmas.

Lemma packet_body_fields p pad :
  0 <= len pad <= 255 -> 1 + len p + len pad <= maxPacket ->
  be_value (take 4 (packet_body p pad)) = 1 + len p + len pad /\ be_value (slice (packet_body p pad) 4 1) = len pad /\
  slice (packet_body p pad) 5 (length p) = p.
Proof.
  intros Hpad Hmax. pose proof (len_nonneg p). assert (maxPacket = 262144) by done.
  unfold packet_body, slice.
  rewrite take_app_length' by (by rewrite be_bytes_length). rewrite be_value_4 by lia. split; [done|].
  rewrite drop_app_length' by (by rewrite be_bytes_length). cbn [take app].
  split; [rewrite be_value_1; apply bv_vb; lia|].
  change (vb (len pad) :: p ++ pad) with ([vb (len pad)] ++ p ++ pad). rewrite (app_assoc (be_bytes 4 _)). rewrite drop_app_length' by (by rewrite length_app, be_bytes_length).
  by rewrite take_app_length.
Qed.

(** A body with consistent numbers is the body of a packet. *)
Lemma packet_body_inv body :
  (5 <= length body)%nat -> be_value (take 4 body) = len body - 4 ->
  let P := be_value (slice body 4 1) in
  P + 5 <= len body ->
  let p := slice body 5 (Z.to_nat (len body - P - 5)) in
  exists pad, body = packet_body p pad /\ len pad = P /\ len p = len body - P - 5.
Proof.
  intros Hl HL P HP p.
  assert (HP0 : 0 <= P) by apply be_value_range.
  assert (HPd : be_value (drop 4 (take 5 body)) = P).
  { unfold P, slice. rewrite !take_drop_commute. done. }
  clearbody P.
  set (k := Z.to_nat (len body - P - 5)) in *. assert (Hk : Z.of_nat k = len body - P - 5) by (unfold k; lia). clearbody k.
  exists (drop k (drop 5 body)).
  assert (Hp : len p = len body - P - 5) by (unfold p, len, slice in *; rewrite length_take, length_drop; lia).
  assert (Hpad : len (drop k (drop 5 body)) = P) by (unfold len in *; rewrite !length_drop; lia).
  split; [|done]. unfold packet_body. rewrite Hpad, Hp. replace (1 + _ + P) with (be_value (take 4 body)) by lia.
  unfold p, slice. rewrite take_drop, (app_assoc (be_bytes _ _)).
  rewrite <- (take_drop 5 body) at 1. f_equal.
  rewrite <- (take_take body 4 5) at 1. rewrite <- HPd. apply prefix_value. rewrite length_take. lia.
Qed.

Lemma cbc_read_frame c seqNum p pad rest e :
  cbc_wf c -> cbc_ok (bm_block (c_decrypter c)) p pad ->
  exists h' cap' cam', mac_Reset h' = mac_Reset (c_mac c) /\ 1024 <= cap' /\
    cbc_read c seqNum (mkSource (cbc_frame (c_mac c) (c_decrypter c) seqNum p pad ++ rest) e) =
    Some (Ok p, mkCBC h' (cbc_next (c_decrypter c) p pad) (c_encrypter c) cap' cam', mkSource rest e).
Proof.
  intros Hwf ((Hp & Hpad & Hmax) & Hmin & Hmod). unfold cbc_frame, cbc_next. rewrite <- app_assoc.
  pose proof Hwf as (Hmw & Hms & Hiv & _). unfold mode_wf in Hiv.
  set (b := bm_block (c_decrypter c)) in *. set (iv := bm_iv (c_decrypter c)) in *. set (body := packet_body p pad).
  destruct (packet_body_fields p pad) as (HL & HP & Hslice); [lia|done|]. fold body in HL, HP, Hslice.
  assert (Hbody : len body = prefixLen + len p + len pad) by (unfold len, body, prefixLen; rewrite length_packet_body; lia).
  assert (Hbs : (8 <= BlockSize b <= 16)%nat) by (destruct b; simpl; lia).
  set (n := (length body / BlockSize b)%nat).
  assert (Hn : length body = (n * BlockSize b)%nat).
  { rewrite <- Hbody in Hmod. unfold len in Hmod. rewrite <- Nat2Z.inj_mod in Hmod.
    pose proof (Nat.div_mod_eq (length body) (BlockSize b)). unfold n. lia. }
  destruct (cbc_encrypt_length b n iv body Hn Hiv) as [Hwire _].
  pose proof (cbc_decrypt_encrypt b n iv body Hn Hiv) as Hdec.
  assert (0 < len p) by (destruct p; [done|]; rewrite len_cons; pose proof (len_nonneg p); lia).
  destruct (cbc_read_eq c seqNum Hwf (fst (cbc_encrypt b n iv body)) (tag (c_mac c) (be_bytes 4 seqNum ++ body)) rest e n)
    with (P := len pad) as (h' & cap' & cam' & Hh & Hcap & _ & Eq).
  - unfold len, prefixLen in *. nia.
  - exact Hwire.
  - unfold len, c_macSize. by rewrite length_tag.
  - fold b iv. rewrite Hdec. cbn [fst]. apply cbc_header_iff; [rewrite length_take; unfold len in *; lia|].
    assert (Hlw : len (fst (cbc_encrypt b n iv body)) = len body) by (unfold len; lia).
    rewrite Hlw, Hbody. rewrite take_take, slice_take by lia. replace (4 `min` BlockSize b)%nat with 4%nat by lia.
    rewrite HL, HP. unfold prefixLen in *. split_and!; try lia. etrans; [|exact Hmod]. f_equal. lia.
  - exists h', cap', cam'. split; [done|]. split; [done|]. unfold cbc_read. rewrite Eq. fold b iv.
    cbn [mbind option_bind]. rewrite Hdec. cbn [fst snd]. unfold cbc_verdict. rewrite gos_eqb_refl. cbn [negb].
    rewrite HL, HP. replace (Z.to_nat _) with (length p) by (unfold len, prefixLen; lia). by rewrite Hslice.
Qed.

Lemma cbc_read_sound c seqNum r p c' r' :
  cbc_wf c -> cbc_read c seqNum r = Some (Ok p, c', r') ->
  exists pad, cbc_ok (bm_block (c_decrypter c)) p pad /\
    r = mkSource (cbc_frame (c_mac c) (c_decrypter c) seqNum p pad ++ avail r') (ending r').
Proof.
  intros Hwf. unfold cbc_read. pose proof Hwf as (_ & _ & Hiv & _). unfold mode_wf in Hiv.
  set (b := bm_block (c_decrypter c)) in *. set (iv := bm_iv (c_decrypter c)) in *.
  assert (Hbs : (8 <= BlockSize b <= 16)%nat) by (destruct b; simpl; lia).
  destruct (cbc_read_cases c seqNum Hwf r) as (x & c1 & r1 & -> & _ & _ & Hcases). cbn [mbind option_bind].
  destruct Hcases as [(e1 & ->)|[(w1 & e1 & -> & _)|(n & wire & m & P & Hn & Hwire & Hm & -> & Hh & -> & _ & _ & _)]];
    [done..|]. fold b iv in Hh, Hwire |- *.
  unfold cbc_verdict. destruct (negb _) eqn:Et; [done|]. bool_simp. intros [= <- _ <-].
  destruct (cbc_decrypt_length b n iv wire) as [Hb _]; [lia|done|].
  pose proof (cbc_encrypt_decrypt b n iv wire Hwire Hiv) as Henc.
  set (body := fst (cbc_decrypt b n iv wire)) in *.
  apply cbc_header_iff in Hh as (HL & HP & Hmax & Hmin & Hmod & HP4 & HPL); [|rewrite length_take; nia].
  rewrite slice_take in HP by lia. rewrite take_take in HL. replace (4 `min` BlockSize b)%nat with 4%nat in HL by lia.
  assert (Hlw : len wire = len body) by (unfold len; lia).
  destruct (packet_body_inv body) as (pad & Ebody & Hpadl & Hpl); [unfold len in *; lia|lia|lia|].
  assert (HPr : P < 256).
  { rewrite HP. pose proof (be_value_range (slice body 4 1)) as [_ Hr].
    replace (len (slice body 4 1)) with 1 in Hr by (unfold len in *; rewrite length_slice; lia). exact Hr. }
  rewrite <- HL, <- HP in *.
  replace (4 + (len wire - 4) - P - prefixLen) with (len body - P - 5) by (unfold prefixLen; lia).
  set (p := slice body 5 _) in *.
  exists pad. split.
  - unfold cbc_ok, aead_ok, prefixLen. rewrite Hpl, Hpadl. split; [split; [|lia]|split; [lia|]].
    + intros E. rewrite E in Hpl. change (len []) with 0 in Hpl. lia.
    + etrans; [|exact Hmod]. f_equal. lia.
  - unfold cbc_frame. fold b iv. rewrite <- Ebody.
    replace (length body / BlockSize b)%nat with n by (rewrite Hb, Nat.div_mul; lia).
    rewrite Henc. cbn [fst]. rewrite Et. by rewrite <- app_assoc.
Qed.

Lemma cbc_encLength_spec b p :
  len p <= maxPacket ->
  let n := cbc_encLength (Z.of_nat (BlockSize b)) p in
  n mod Z.of_nat (BlockSize b) = 0 /\ 16 <= n /\ 4 <= n - (prefixLen + len p) < 20.
Proof.
  intros Hmax. pose proof (len_nonneg p). assert (maxPacket = 262144) by done. cbv zeta. unfold cbc_encLength.
  replace (maxUInt32 cbcMinPacketSizeMultiple _) with (Z.of_nat (BlockSize b)) by (by destruct b).
  set (m := maxUInt32 (prefixLen + len p + cbcMinPaddingSize) cbcMinPacketSize).
  assert (Hm : m = Z.max (9 + len p) 16).
  { unfold m, maxUInt32, prefixLen, cbcMinPaddingSize, cbcMinPacketSize.
    destruct (16 <? _) eqn:E; bool_simp; rewrite u32_small; lia. }
  clearbody m. destruct (BlockSize_cases b) as [-> | ->].
  all: change (Z.of_nat 8) with 8; change (Z.of_nat 16) with 16; rewrite (u32_small (m + _ - 1)) by lia.
  - pose proof (Z.div_mod (m + 8 - 1) 8). pose proof (Z.mod_pos_bound (m + 8 - 1) 8).
    rewrite u32_small by lia. rewrite Z.mod_mul by done. unfold prefixLen. lia.
  - pose proof (Z.div_mod (m + 16 - 1) 16). pose proof (Z.mod_pos_bound (m + 16 - 1) 16).
    rewrite u32_small by lia. rewrite Z.mod_mul by done. unfold prefixLen. lia.
Qed.

Lemma cbc_write_frame c seqNum w rand p :
  cbc_wf c -> len p <= maxPacket -> ready w -> (20 <= length (avail rand))%nat ->
  exists pad h' cap' w' rand',
    cbc_write c seqNum w rand p =
      Some (mkWritten _ None (mkCBC h' (c_decrypter c) (cbc_next (c_encrypter c) p pad) cap' (oracleCamouflage c))
              w' rand' p) /\
    sent w' = sent w ++ cbc_frame (c_mac c) (c_encrypter c) seqNum p pad /\ ready w' /\
    mac_Reset h' = mac_Reset (c_mac c) /\ 1024 <= cap' /\ (length (avail rand) <= 20 + length (avail rand'))%nat /\
    4 <= len pad < 20 /\ 16 <= prefixLen + len p + len pad /\
    (prefixLen + len p + len pad) mod Z.of_nat (BlockSize (bm_block (c_encrypter c))) = 0.
Proof.
  intros (Hmw & Hms & _ & Hiv & Hcap) Hmax Hw Hrand. unfold cbc_write. pose proof (len_nonneg p).
  set (b := bm_block (c_encrypter c)) in *.
  destruct (cbc_encLength_spec b p Hmax) as (Hmod & H16 & Hpad). set (E := cbc_encLength _ p) in *. clearbody E.
  assert (maxPacket = 262144) by done. assert (prefixLen = 5) as Hpl by done.
  replace (E <? _) with false by lia. rewrite (u32_small (E - 4)) by lia.
  destruct (read_full_enough rand (Z.to_nat (E - (prefixLen + len p)))) as (pad & rand' & -> & Hl & Hused); [lia|].
  assert (Hlp : len pad = E - (prefixLen + len p)) by (unfold len in *; lia).
  replace (E - 4) with (1 + len p + len pad) by lia.
  replace (1 + len p + len pad - (1 + len p)) with (len pad) by lia. fold (packet_body p pad).
  set (body := packet_body p pad).
  assert (Hbody : Z.of_nat (length body) = E) by (unfold body; rewrite length_packet_body; unfold len in *; lia).
  set (n := (length body / BlockSize b)%nat).
  assert (Hn : length body = (n * BlockSize b)%nat).
  { rewrite <- Hbody, <- Nat2Z.inj_mod in Hmod.
    pose proof (Nat.div_mod_eq (length body) (BlockSize b)). unfold n. lia. }
  rewrite (CryptBlocks_eq _ _ _ n) by done. cbn [mbind option_bind fst snd]. rewrite mac_Write_app.
  fold (tag (c_mac c) (be_bytes 4 seqNum ++ body)). fold b.
  destruct (sink_Write_ready w (fst (cbc_encrypt b n (bm_iv (c_encrypter c)) body) ++ tag (c_mac c) (be_bytes 4 seqNum ++ body)) Hw)
    as (w' & -> & Es & Hw').
  do 5 eexists. split; [reflexivity|]. split; [exact Es|]. split; [done|].
  split; [by rewrite mac_Reset_Write, mac_Reset_Reset|]. split; [case_match; bool_simp; lia|].
  split; [lia|]. split; [lia|]. split; [lia|]. etrans; [|exact Hmod]. f_equal. lia.
Qed.

(** ** [chacha20Poly1305Cipher] *)
Definition chacha_frame (c : chachaCipher) (seqNum : Z) (payload padding : gostring) : gostring :=
  let nonce := chacha_nonce seqNum in
  let polyKey := enc (chachaStream (contentKey c) nonce 0) (replicate 32 chNUL) in
  let lenBytes := enc (chachaStream (lengthKey c) nonce 0) (be_bytes 4 (1 + len payload + len padding)) in
  let content := enc (chachaStream (contentKey c) nonce 64) (vb (len padding) :: payload ++ padding) in
  lenBytes ++ content ++ poly1305_tag (lenBytes ++ content) polyKey.

Definition chacha_wf (c : chachaCipher) : Prop :=
  length (lengthKey c) = 32%nat /\ length (contentKey c) = 32%nat /\ 4 <= ch_cap c.

Section ChaChaLemmas.
Variable (c : chachaCipher) (seqNum : Z).
Hypothesis Hwf : chacha_wf c.
Let nonce := chacha_nonce seqNum.
Let cs := chachaStream (contentKey c) nonce 64.
Let ls := chachaStream (lengthKey c) nonce 0.
Let polyKey := enc (chachaStream (contentKey c) nonce 0) (replicate 32 chNUL).

Lemma NewUnauthenticatedCipher_ok key : length key = 32%nat -> NewUnauthenticatedCipher key nonce = Ok (chachaStream key nonce 0).
Proof.
  intros Hk. unfold NewUnauthenticatedCipher, len. rewrite Hk. unfold nonce, chacha_nonce.
  rewrite length_app, be_bytes_length. done.
Qed.

Lemma length_polyKey : length polyKey = 32%nat.
Proof. unfold polyKey. by rewrite length_enc. Qed.

Lemma chacha_start_ok : chacha_start c seqNum = Ok (polyKey, cs).
Proof.
  unfold chacha_start. fold nonce. rewrite NewUnauthenticatedCipher_ok by apply Hwf.
  rewrite !XORKeyStream_eq, !length_replicate. done.
Qed.

(** What is left to decide once the bytes of a frame were read. *)
Definition chacha_verdict (lenBytes content m : gostring) : option (result packet_error gostring) :=
  if negb (poly1305_tag (lenBytes ++ content) polyKey =s m) then Some (Err (newError (go "ssh: MAC failure")))
  else aead_unpad (len content) (enc cs content).

Lemma chacha_read_eq lenBytes content m rest e :
  length lenBytes = 4%nat -> be_value (enc ls lenBytes) = len content -> len content <= maxPacket -> length m = TagSize ->
  exists cap', 4 <= cap' /\
    chacha_read c seqNum (mkSource (lenBytes ++ content ++ m ++ rest) e) =
    (p ← chacha_verdict lenBytes content m;
     Some (p, mkChaCha (lengthKey c) (contentKey c) cap', mkSource rest e)).
Proof.
  intros Hl Hv Hmax Hm. unfold chacha_read. rewrite chacha_start_ok. fold nonce. pose proof Hwf as (Hk & _ & Hcap).
  replace (ch_cap c <? 4) with false by lia. rewrite read_full_app by done.
  rewrite NewUnauthenticatedCipher_ok by done. fold ls. rewrite XORKeyStream_eq. cbn [fst]. rewrite Hv.
  replace (maxPacket <? _) with false by lia. pose proof (len_nonneg content). assert (maxPacket = 262144) by done.
  unfold TagSize in *. rewrite (u32_small (4 + len content)), u32_small by lia.
  rewrite app_assoc, read_full_app by (rewrite length_app; unfold len; lia).
  rewrite take_app_length', drop_app_length' by (unfold len; lia). rewrite Verify_tag by apply length_polyKey.
  cbn [mbind option_bind]. unfold chacha_verdict. rewrite XORKeyStream_eq. cbn [fst].
  replace (len (enc cs content)) with (len content) by (unfold len; by rewrite length_enc).
  eexists. split; cycle 1.
  - destruct (negb _); [reflexivity|]. by destruct (aead_unpad _ _).
  - case_match; bool_simp; lia.
Qed.

Lemma chacha_read_frame p pad rest e :
  aead_ok p pad ->
  exists cap', 4 <= cap' /\
    chacha_read c seqNum (mkSource (chacha_frame c seqNum p pad ++ rest) e) =
    Some (Ok p, mkChaCha (lengthKey c) (contentKey c) cap', mkSource rest e).
Proof.
  intros (Hp & Hpad & Hmax). pose proof (len_nonneg p). assert (maxPacket = 262144) by done.
  unfold chacha_frame. fold nonce. fold ls cs polyKey. rewrite <- !app_assoc.
  set (lb := enc ls _). set (ct := enc cs _).
  assert (Hct : len ct = 1 + len p + len pad) by (unfold len, ct; rewrite length_enc; cbn; rewrite length_app; lia).
  destruct (chacha_read_eq lb ct (poly1305_tag (lb ++ ct) polyKey) rest e) as (cap' & Hcap' & ->).
  - unfold lb. by rewrite length_enc, be_bytes_length.
  - unfold lb. rewrite enc_enc, be_value_4; lia.
  - lia.
  - apply length_le_bytes.
  - exists cap'. split; [done|]. unfold chacha_verdict. rewrite gos_eqb_refl. cbn [negb]. rewrite Hct.
    unfold ct. rewrite enc_enc. by rewrite aead_unpad_ok.
Qed.

Lemma chacha_read_sound r p c' r' :
  chacha_read c seqNum r = Some (Ok p, c', r') ->
  exists pad, aead_ok p pad /\ r = mkSource (chacha_frame c seqNum p pad ++ avail r') (ending r').
Proof.
  intros Hr. pose proof Hr as Hr0. unfold chacha_read in Hr. rewrite chacha_start_ok in Hr. fold nonce in Hr.
  pose proof Hwf as (Hk & _ & Hcap). replace (ch_cap c <? 4) with false in Hr by lia.
  destruct (read_full r 4) as [[lb|] r1] eqn:E1; [|done]. apply read_full_Ok in E1 as [Hl ->].
  rewrite NewUnauthenticatedCipher_ok in Hr by done. fold ls in Hr. rewrite XORKeyStream_eq in Hr. cbn [fst] in Hr.
  destruct (maxPacket <? _) eqn:Em; [done|]. bool_simp. set (L := be_value (enc ls lb)) in *.
  assert (0 <= L) by apply be_value_range. assert (EL : be_value (enc ls lb) = L) by done. clearbody L.
  assert (maxPacket = 262144) by done. change (Z.of_nat TagSize) with 16 in Hr.
  rewrite (u32_small (4 + L)), (u32_small (4 + L + 16)) in Hr by lia.
  destruct (read_full r1 _) as [[body|] r2] eqn:E2; [|done]. apply read_full_Ok in E2 as [Hb ->]. clear Hr.
  set (ct := take (Z.to_nat L) body). set (m := drop (Z.to_nat L) body).
  assert (Hct : len ct = L) by (unfold len, ct; rewrite length_take; lia).
  destruct (chacha_read_eq lb ct m (avail r2) (ending r2)) as (cap' & _ & Eq); [done|lia|lia|unfold m, TagSize; rewrite length_drop; lia|].
  assert (Eb : body = ct ++ m) by (unfold ct, m; by rewrite take_drop).
  cbn [avail ending] in Hr0. rewrite Eb, <- app_assoc, Eq in Hr0. unfold chacha_verdict in Hr0.
  destruct (negb _) eqn:Et; [done|]. bool_simp.
  replace (len ct) with (len (enc cs ct)) in Hr0 by (unfold len; by rewrite length_enc).
  destruct (aead_unpad _ _) as [q|] eqn:Eu; [|done]. cbn [mbind option_bind] in Hr0. injection Hr0 as -> _ <-.
  apply aead_unpad_sound in Eu as (pad & Epl & Hp & Hpad). exists pad.
  assert (Ect : ct = enc cs (vb (len pad) :: p ++ pad)) by (by rewrite <- Epl, enc_enc).
  assert (HL : L = 1 + len p + len pad)
    by (rewrite <- Hct, Ect; unfold len; rewrite length_enc; cbn; rewrite length_app; lia).
  split; [split; [done|lia]|].
  unfold chacha_frame. fold nonce. fold ls cs polyKey. rewrite <- Ect, <- HL, <- EL.
  replace (be_bytes 4 (be_value (enc ls lb))) with (enc ls lb).
  2: { symmetry. rewrite <- Hl, <- (length_enc ls lb). apply be_bytes_value. }
  rewrite enc_enc, Et. cbn [avail]. by rewrite Eb, <- !app_assoc.
Qed.

Lemma chacha_write_frame w rand p :
  len p <= maxPacket -> ready w -> (20 <= length (avail rand))%nat ->
  exists pad cap' w' rand',
    chacha_write c seqNum w rand p = Some (mkWritten _ None (mkChaCha (lengthKey c) (contentKey c) cap') w' rand' p) /\
    sent w' = sent w ++ chacha_frame c seqNum p pad /\ ready w' /\ 4 <= cap' /\ (length (avail rand) <= 20 + length (avail rand'))%nat /\
    4 <= len pad < 12 /\ (1 + len p + len pad) mod 8 = 0.
Proof.
  intros Hmax Hw Hrand. unfold chacha_write. rewrite chacha_start_ok. fold nonce. cbn [lengthKey contentKey].
  rewrite NewUnauthenticatedCipher_ok by apply Hwf. fold ls. rewrite XORKeyStream_eq. unfold chacha_padding.
  destruct (padding_choice 8 (1 + len p)) as [Hn Hal]; [done..|]. set (n := if _ <? 4 then _ else _) in *. clearbody n.
  destruct (read_full_enough rand (Z.to_nat n)) as (pad & rand' & -> & Hl & Hused); [lia|].
  assert (Hlp : len pad = n) by (unfold len; lia). rewrite XORKeyStream_eq. pose proof (len_nonneg p).
  assert (maxPacket = 262144) by done. rewrite u32_small by lia. rewrite Sum_tag by apply length_polyKey.
  cbn [mbind option_bind]. subst n.
  destruct (sink_Write_ready w (chacha_frame c seqNum p pad) Hw) as (w' & Ew & Es & Hw').
  unfold chacha_frame in Ew. fold nonce in Ew. fold ls cs polyKey in Ew. rewrite Ew.
  do 4 eexists. split; [reflexivity|]. split; [exact Es|]. split; [done|]. split; [|split; [lia|split; [lia|done]]].
  destruct Hwf as (_ & _ & Hcap). case_match; bool_simp; lia.
Qed.
End ChaChaLemmas.

(** ** All ciphers: keys and frames

    What a cipher's two ends have in common, for one direction. *)
Inductive cipher_keys :=
| KStream (mac : option MacHash) (c : Stream) (etm : bool)
| KGCM (key iv : gostring)
| KCBC (mac : MacHash) (m : BlockMode)
| KChaCha (lengthKey contentKey : gostring).

Definition stream_of (mac : option MacHash) (c : Stream) (etm : bool) : streamPacketCipher :=
  mkStreamCipher mac c etm false false false.

Definition read_keys (c : packetCipher) : cipher_keys :=
  match c with
  | pcStream s => KStream (mac_Reset <$> s_mac s) (s_cipher s) (s_etm s)
  | pcGCM c => KGCM (g_key c) (g_iv c)
  | pcCBC c => KCBC (mac_Reset (c_mac c)) (c_decrypter c)
  | pcChaCha c => KChaCha (lengthKey c) (contentKey c)
  end.
Definition write_keys (c : packetCipher) : cipher_keys :=
  match c with
  | pcCBC c => KCBC (mac_Reset (c_mac c)) (c_encrypter c)
  | c => read_keys c
  end.

Definition frame (k : cipher_keys) (seqNum : Z) (payload padding : gostring) : gostring :=
  match k with
  | KStream mac c etm => stream_frame (stream_of mac c etm) seqNum payload padding
  | KGCM key iv => gcm_frame (mkGCM key iv) payload padding
  | KCBC mac m => cbc_frame mac m seqNum payload padding
  | KChaCha lk ck => chacha_frame (mkChaCha lk ck 0) seqNum payload padding
  end.
Definition next_keys (k : cipher_keys) (payload padding : gostring) : cipher_keys :=
  match k with
  | KStream mac c etm =>
      KStream mac (advance c (prefix_keys (stream_of mac c etm) + length payload + length padding)) etm
  | KGCM key iv => KGCM key (next_iv iv)
  | KCBC mac m => KCBC mac (cbc_next m payload padding)
  | KChaCha lk ck => KChaCha lk ck
  end.

Definition accepts (c : packetCipher) (payload padding : gostring) : Prop :=
  match c with
  | pcStream s => stream_ok s payload padding
  | pcGCM _ | pcChaCha _ => aead_ok payload padding
  | pcCBC c => cbc_ok (bm_block (c_decrypter c)) payload padding
  end.

Definition cipher_wf (c : packetCipher) : Prop :=
  match c with
  | pcStream s => stream_wf s
  | pcGCM c => gcm_wf c
  | pcCBC c => cbc_wf c
  | pcChaCha c => chacha_wf c
  end.

(** The padding a writer chooses suits every reader. *)
Definition padding_good (c : packetCipher) (payload padding : gostring) : Prop :=
  4 <= len padding < 20 /\
  match c with
  | pcCBC c => 16 <= prefixLen + len payload + len padding /\
               (prefixLen + len payload + len padding) mod Z.of_nat (BlockSize (bm_block (c_encrypter c))) = 0
  | _ => True
  end.

Lemma stream_frame_keys s seqNum p pad :
  stream_frame s seqNum p pad = stream_frame (stream_of (mac_Reset <$> s_mac s) (s_cipher s) (s_etm s)) seqNum p pad.
Proof.
  unfold stream_frame, stream_tag, stream_wire, mac_etm, stream_of. cbn [s_mac s_cipher s_etm].
  destruct (s_mac s) as [h|]; [|done]. cbn. by rewrite tag_Reset.
Qed.
Lemma prefix_keys_of s : prefix_keys (stream_of (mac_Reset <$> s_mac s) (s_cipher s) (s_etm s)) = prefix_keys s.
Proof. unfold prefix_keys, mac_etm, stream_of. cbn. by destruct (s_mac s). Qed.
Lemma cbc_frame_keys h m seqNum p pad : cbc_frame h m seqNum p pad = cbc_frame (mac_Reset h) m seqNum p pad.
Proof. unfold cbc_frame. by rewrite tag_Reset. Qed.

Lemma stream_wf_of s h c :
  mac_Reset <$> h = mac_Reset <$> s_mac s -> stream_wf s -> stream_wf (with_stream s h c).
Proof.
  unfold stream_wf, with_stream. cbn [s_mac]. destruct (s_mac s) as [h0|], h as [h|]; try done.
  cbn. intros [= E]. destruct (mac_Reset_eq _ _ E) as [Hw Hs]. by rewrite Hw, Hs.
Qed.

(** Reading a frame. *)
Lemma read_frame c seqNum p pad rest e :
  cipher_wf c -> accepts c p pad ->
  exists c', readCipherPacket c seqNum (mkSource (frame (read_keys c) seqNum p pad ++ rest) e) =
    Some (Ok p, c', mkSource rest e) /\ cipher_wf c' /\ read_keys c' = next_keys (read_keys c) p pad /\
    forall q pd, accepts c' q pd <-> accepts c q pd.
Proof.
  destruct c as [s|g|b|ch]; cbn [cipher_wf accepts read_keys frame readCipherPacket next_keys]; intros Hwf Hok.
  - rewrite <- stream_frame_keys. destruct (stream_read_frame s seqNum p pad rest e Hwf Hok) as (h' & Hh & ->).
    eexists. split; [reflexivity|]. split; [by apply stream_wf_of|]. split; [|done].
    cbn [read_keys with_stream s_mac s_cipher s_etm]. by rewrite Hh, prefix_keys_of.
  - destruct g as [key iv]. rewrite gcm_read_frame by done. eexists. split; [reflexivity|].
    split; [apply (incIV_spec iv Hwf)|done].
  - rewrite <- cbc_frame_keys. destruct (cbc_read_frame b seqNum p pad rest e Hwf Hok) as (h' & cap' & cam' & Hh & Hcap & ->).
    eexists. split; [reflexivity|]. destruct Hwf as (Hmw & Hms & Hd & He & _).
    destruct (mac_Reset_eq _ _ Hh) as [Hw Hs]. split; [|split; [by cbn; rewrite Hh|done]].
    split; [by apply Hw|]. split; [cbn; lia|]. split; [|done].
    unfold mode_wf, cbc_next. cbn [c_decrypter bm_block bm_iv]. destruct Hok as (_ & _ & Hmod).
    apply cbc_encrypt_length; [|exact Hd]. rewrite Nat.mul_comm. apply Nat.Div0.div_exact.
    apply Nat2Z.inj. rewrite Nat2Z.inj_mod. etrans; [|exact Hmod]. f_equal.
    rewrite length_packet_body. unfold len, prefixLen. lia.
  - destruct (chacha_read_frame ch seqNum Hwf p pad rest e Hok) as (cap' & Hcap & E).
    change (chacha_frame (mkChaCha _ _ 0)) with (chacha_frame ch). rewrite E.
    eexists. split; [reflexivity|]. split; [|done]. destruct Hwf as (? & ? & _). by split.
Qed.

(** A packet comes only from a frame. *)
Lemma read_sound c seqNum r p c' r' :
  cipher_wf c -> readCipherPacket c seqNum r = Some (Ok p, c', r') ->
  exists pad, accepts c p pad /\ r = mkSource (frame (read_keys c) seqNum p pad ++ avail r') (ending r').
Proof.
  destruct c as [s|g|b|ch]; cbn [cipher_wf accepts read_keys frame readCipherPacket]; intros Hwf Hr;
    unfold map_read in Hr.
  - destruct (stream_read s seqNum r) as [[[q s'] r1]|] eqn:E; [|done]. injection Hr as -> _ ->.
    apply stream_read_sound in E as (pad & ? & ?); [|done]. exists pad. by rewrite <- stream_frame_keys.
  - destruct g as [key iv]. destruct (gcm_read _ seqNum r) as [[[q s'] r1]|] eqn:E; [|done]. injection Hr as -> _ ->.
    by eapply (gcm_read_sound (mkGCM key iv)).
  - destruct (cbc_read b seqNum r) as [[[q s'] r1]|] eqn:E; [|done]. injection Hr as -> _ ->.
    apply cbc_read_sound in E as (pad & ? & ?); [|done]. exists pad. by rewrite <- cbc_frame_keys.
  - change (chacha_frame (mkChaCha _ _ 0)) with (chacha_frame ch).
    destruct (chacha_read ch seqNum r) as [[[q s'] r1]|] eqn:E; [|done]. injection Hr as -> _ ->.
    by eapply chacha_read_sound.
Qed.

(** Writing a packet. *)
Lemma write_frame c seqNum w rand p :
  cipher_wf c -> len p <= maxPacket -> ready w -> (20 <= length (avail rand))%nat ->
  exists pad x, writeCipherPacket c seqNum w rand p = Some x /\ w_err _ x = None /\
    sent (w_sink _ x) = sent w ++ frame (write_keys c) seqNum p pad /\ ready (w_sink _ x) /\
    cipher_wf (w_cipher _ x) /\ write_keys (w_cipher _ x) = next_keys (write_keys c) p pad /\ padding_good c p pad /\
    (length (avail rand) <= 20 + length (avail (w_rand _ x)))%nat.
Proof.
  destruct c as [s|g|b|ch]; cbn [cipher_wf write_keys read_keys frame writeCipherPacket next_keys]; intros Hwf Hp Hw Hr;
    unfold padding_good.
  - rewrite prefix_keys_of.
    destruct (stream_write_frame s seqNum w rand p Hp Hw Hr) as (pad & h' & w' & rand' & -> & Es & Hw' & Hh & Hused & Hpad & _).
    exists pad. eexists. split; [reflexivity|]. cbn. rewrite <- stream_frame_keys, Hh.
    split_and!; try done; try lia. by apply (stream_wf_of s h').
  - destruct g as [key iv].
    destruct (gcm_write_frame (mkGCM key iv) seqNum w rand p Hwf Hp Hw Hr) as (pad & w' & rand' & -> & Es & Hw' & Hused & Hpad & _).
    exists pad. eexists. split; [reflexivity|]. split_and!; try done; try lia. apply (incIV_spec iv Hwf).
  - destruct (cbc_write_frame b seqNum w rand p Hwf Hp Hw Hr)
      as (pad & h' & cap' & w' & rand' & -> & Es & Hw' & Hh & Hcap & Hused & Hpad & Hmin & Hmod).
    exists pad. eexists. split; [reflexivity|]. cbn [w_err w_sink w_cipher write_keys c_mac c_encrypter].
    rewrite <- cbc_frame_keys, Hh. destruct Hwf as (Hmw & Hms & Hd & He & _).
    destruct (mac_Reset_eq _ _ Hh) as [Hw2 Hs2]. split_and!; try done; try lia.
    split; [by apply Hw2|]. split; [cbn; lia|]. split; [done|]. split; [|done].
    unfold mode_wf, cbc_next. cbn [c_encrypter bm_block bm_iv].
    apply cbc_encrypt_length; [|exact He]. rewrite Nat.mul_comm. apply Nat.Div0.div_exact.
    apply Nat2Z.inj. rewrite Nat2Z.inj_mod. etrans; [|exact Hmod]. f_equal.
    rewrite length_packet_body. unfold len, prefixLen. lia.
  - destruct (chacha_write_frame ch seqNum Hwf w rand p Hp Hw Hr) as (pad & cap' & w' & rand' & -> & Es & Hw' & Hcap & Hused & Hpad & _).
    exists pad. eexists. split; [reflexivity|]. change (chacha_frame (mkChaCha _ _ 0)) with (chacha_frame ch).
    split_and!; try done; try lia. destruct Hwf as (? & ? & _). by split.
Qed.

(** ** No panics *)
Lemma stream_read_total s seqNum r :
  stream_wf s -> exists x s' r', stream_read s seqNum r = Some (x, s', r') /\ stream_wf s'.
Proof.
  intros Hwf. unfold stream_read. destruct (read_full r 5) as [[wire|e] r1]; [|by do 3 eexists].
  destruct (stream_open_prefix s wire) as [pre c].
  set (h := match s_mac s with Some h => Some (stream_mac_prefix s h seqNum wire pre) | None => None end).
  assert (Hh : mac_Reset <$> h = mac_Reset <$> s_mac s).
  { unfold h, stream_mac_prefix. destruct (s_mac s); [|done]. cbn.
    destruct (s_etm s); by rewrite !mac_Reset_Write, mac_Reset_Reset. }
  pose proof (stream_wf_of s h c Hh Hwf) as Hwf1.
  case_match; [by do 3 eexists|]. case_match; [by do 3 eexists|].
  destruct (read_full r1 _) as [[pd|e] r2]; [|by do 3 eexists].
  unfold stream_open_body. rewrite XORKeyStream_eq.
  set (s1 := with_stream s h c) in *. set (h2 := match _ with Some h => _ | None => None end). cbv zeta.
  assert (Hwf2 : forall c2, stream_wf (with_stream s1 h2 c2)).
  { intros c2. apply stream_wf_of; [|done]. unfold h2, s1. cbn [s_mac with_stream].
    destruct h as [h|]; [|done]. cbn. split_ifs; by rewrite ?mac_Reset_Write. }
  clearbody h2. split_ifs; by do 3 eexists.
Qed.

Lemma read_total c seqNum r :
  cipher_wf c -> exists x c' r', readCipherPacket c seqNum r = Some (x, c', r') /\ cipher_wf c'.
Proof.
  destruct c as [s|g|b|ch]; cbn [cipher_wf readCipherPacket]; intros Hwf.
  - destruct (stream_read_total s seqNum r Hwf) as (x & s' & r' & -> & Hs'). by do 3 eexists.
  - destruct g as [key iv]. unfold gcm_read.
    destruct (read_full r 4) as [[pre|e] r1]; [|by do 3 eexists]. case_match; [by do 3 eexists|].
    destruct (read_full r1 _) as [[buf|e] r2]; [|by do 3 eexists]. cbn [g_key g_iv].
    destruct (gcm_Open _ _ _ _) as [plain|]; [|by do 3 eexists]. destruct (incIV_spec iv Hwf) as [-> Hiv]. cbn [mbind option_bind].
    destruct (aead_unpad_some (be_value pre) plain) as [y ->]. do 3 eexists. split; [reflexivity|exact Hiv].
  - unfold cbc_read. destruct (cbc_read_cases b seqNum Hwf r) as (x & c1 & r1 & -> & Hwf1 & _). cbn [mbind option_bind].
    destruct x as [p|[]]; by do 3 eexists.
  - unfold chacha_read. rewrite chacha_start_ok by done. pose proof Hwf as (Hk & Hk2 & Hcap).
    replace (ch_cap ch <? 4) with false by lia. destruct (read_full r 4) as [[pre|e] r1]; [|by do 3 eexists].
    rewrite NewUnauthenticatedCipher_ok by done. case_match eqn:Em; [by do 3 eexists|]. cbv zeta.
    set (cap := if _ <? _ then _ else ch_cap ch).
    assert (Hwf' : chacha_wf (mkChaCha (lengthKey ch) (contentKey ch) cap)).
    { split; [done|]. split; [done|]. unfold cap. cbn. case_match; bool_simp; lia. } clearbody cap.
    destruct (read_full r1 _) as [[body|e] r2]; [|by do 3 eexists].
    rewrite Verify_tag by apply length_polyKey. cbn [mbind option_bind]. case_match; [by do 3 eexists|].
    match goal with |- context [aead_unpad ?l ?x] => destruct (aead_unpad_some l x) as [y ->] end. by do 3 eexists.
Qed.

Lemma stream_write_total s seqNum w rand p :
  stream_wf s -> exists x, stream_write s seqNum w rand p = Some x /\ stream_wf (w_cipher _ x).
Proof.
  intros Hwf. unfold stream_write. case_match; [by eexists|].
  destruct (fillPadding s rand _) as [[pad|e] rand']; [|by eexists].
  destruct (stream_seal_spec s seqNum (be_bytes 4 (u32 (len p + 1 + stream_padding s p)) ++ [vb (stream_padding s p)]) p pad)
    as (h' & w0 & w1 & w2 & -> & Hh & _); [by rewrite length_app, be_bytes_length|].
  destruct (write_all _ _) as [e w']. eexists. split; [reflexivity|]. by apply stream_wf_of.
Qed.

Lemma cbc_write_total c seqNum w rand p :
  cbc_wf c -> len p <= maxPacket -> exists x, cbc_write c seqNum w rand p = Some x /\ cbc_wf (w_cipher _ x).
Proof.
  intros (Hmw & Hms & Hd & Hiv & Hcap) Hmax. unfold cbc_write. pose proof (len_nonneg p).
  set (b := bm_block (c_encrypter c)) in *.
  destruct (cbc_encLength_spec b p Hmax) as (Hmod & H16 & Hpad). set (E := cbc_encLength _ p) in *. clearbody E.
  assert (maxPacket = 262144) by done. assert (prefixLen = 5) as Hpl by done.
  replace (E <? _) with false by lia.
  set (cap := if _ <? _ then _ else c_cap c). assert (Hcap' : 1024 <= cap) by (unfold cap; case_match; bool_simp; lia).
  clearbody cap. destruct (read_full rand _) as [[pad|e] rand'] eqn:Er; [|by eexists].
  apply read_full_Ok in Er as [Hl _]. set (body := be_bytes 4 _ ++ _).
  assert (Hbody : length body = Z.to_nat E)
    by (unfold body; rewrite !length_app, be_bytes_length; cbn; unfold len in *; lia).
  set (n := (length body / BlockSize b)%nat).
  assert (Hn : length body = (n * BlockSize b)%nat).
  { rewrite <- (Z2Nat.id E), <- Hbody, <- Nat2Z.inj_mod in Hmod by lia.
    pose proof (Nat.div_mod_eq (length body) (BlockSize b)). unfold n. lia. }
  rewrite (CryptBlocks_eq _ _ _ n) by done. cbn [mbind option_bind fst snd].
  destruct (sink_Write w _) as [e w']. eexists. split; [reflexivity|].
  set (h := mac_Write _ _). assert (Hh : mac_Reset h = mac_Reset (c_mac c)) by (unfold h; by rewrite !mac_Reset_Write, mac_Reset_Reset).
  destruct (mac_Reset_eq _ _ Hh) as [Hw2 Hs2]. split; [by apply Hw2|]. split; [cbn; lia|]. split; [done|]. split; [|done].
  by apply cbc_encrypt_length.
Qed.

Lemma write_total c seqNum w rand p :
  cipher_wf c -> len p <= maxPacket ->
  exists x, writeCipherPacket c seqNum w rand p = Some x /\ cipher_wf (w_cipher _ x).
Proof.
  destruct c as [s|g|b|ch]; cbn [cipher_wf writeCipherPacket]; intros Hwf Hp; unfold map_write.
  - destruct (stream_write_total s seqNum w rand p Hwf) as (x & -> & Hx). by eexists.
  - destruct g as [key iv]. unfold gcm_write, gcm_padding.
    destruct (padding_choice packetSizeMultiple (1 + len p)) as [Hn _]; [done..|]. set (n := if _ <? 4 then _ else _) in *.
    change (packetSizeMultiple + 4) with 20 in Hn. pose proof (len_nonneg p). assert (maxPacket = 262144) by done.
    rewrite u32_small by lia. destruct (sink_Write w _) as [[e|] w1]; [by eexists|].
    replace (_ <? 1 + len p) with false by lia. destruct (read_full rand _) as [[pad|e] rand']; [|by eexists].
    destruct (sink_Write w1 _) as [[e|] w2]; [by eexists|]. cbn [g_iv g_key].
    destruct (incIV_spec iv Hwf) as [-> Hiv]. by eexists.
  - destruct (cbc_write_total b seqNum w rand p Hwf Hp) as (x & -> & Hx). by eexists.
  - unfold chacha_write. rewrite chacha_start_ok by done. cbn [lengthKey contentKey].
    pose proof Hwf as (Hk & Hk2 & Hcap). rewrite NewUnauthenticatedCipher_ok by done. rewrite XORKeyStream_eq.
    set (cap := if _ <? _ then _ else ch_cap ch).
    assert (Hwf' : chacha_wf (mkChaCha (lengthKey ch) (contentKey ch) cap)).
    { split; [done|]. split; [done|]. unfold cap. cbn. case_match; bool_simp; lia. } clearbody cap.
    destruct (read_full rand _) as [[pad|e] rand']; [|by eexists]. rewrite XORKeyStream_eq, Sum_tag by apply length_polyKey.
    cbn [mbind option_bind]. destruct (sink_Write w _) as [e w']. by eexists.
Qed.

(** ** Conversations *)

(** Packets written one after the other, until one fails. *)
Fixpoint write_packets (c : packetCipher) (seqNum : Z) (w : Sink) (rand : Source) (ps : list gostring)
  : option (packetCipher * Sink) :=
  match ps with
  | [] => Some (c, w)
  | p :: ps =>
      x ← writeCipherPacket c seqNum w rand p;
      match w_err _ x with
      | None => write_packets (w_cipher _ x) (u32 (seqNum + 1)) (w_sink _ x) (w_rand _ x) ps
      | Some _ => None
      end
  end.
Fixpoint read_packets (c : packetCipher) (seqNum : Z) (r : Source) (n : nat)
  : option (list gostring * packetCipher * Source) :=
  match n with
  | O => Some ([], c, r)
  | S n =>
      x ← readCipherPacket c seqNum r;
      match x with
      | (Ok p, c, r) => y ← read_packets c (u32 (seqNum + 1)) r n; let '(ps, c, r) := y in Some (p :: ps, c, r)
      | _ => None
      end
  end.

Definition packet_ok (p : gostring) : Prop := p <> [] /\ len p <= maxPacket - 32.

(** The padding a writer chose is accepted at the other end. *)
Lemma padding_accepted c1 c2 p pad :
  write_keys c1 = read_keys c2 -> packet_ok p -> padding_good c1 p pad -> accepts c2 p pad.
Proof.
  intros Hk (Hp & Hmax) (Hpad & Hal). pose proof (len_nonneg p). assert (maxPacket = 262144) by done.
  destruct c1, c2; try done; cbn [accepts]; try (split; [done|]; lia).
  injection Hk as _ Hm. rewrite <- Hm. destruct Hal as [H16 Hmod].
  split; [split; [done|lia]|]. by split.
Qed.

Lemma packets_transfer c1 seqNum w rand ps :
  cipher_wf c1 -> Forall packet_ok ps -> ready w -> (20 * length ps <= length (avail rand))%nat ->
  exists c1' w' out, write_packets c1 seqNum w rand ps = Some (c1', w') /\ sent w' = sent w ++ out /\ cipher_wf c1' /\
    forall c2 rest e, cipher_wf c2 -> write_keys c1 = read_keys c2 ->
      exists c2', read_packets c2 seqNum (mkSource (out ++ rest) e) (length ps) = Some (ps, c2', mkSource rest e) /\
        write_keys c1' = read_keys c2' /\ cipher_wf c2'.
Proof.
  intros Hw1 Hps. revert c1 seqNum w rand Hw1.
  induction Hps as [|p ps Hp Hps IH]; intros c1 seqNum w rand Hw1 Hw Hr; cbn [write_packets read_packets length].
  { exists c1, w, []. rewrite app_nil_r. do 3 (split; [done|]). intros c2 rest e Hw2 Hk. by exists c2. }
  assert (maxPacket = 262144) by done.
  destruct (write_frame c1 seqNum w rand p) as (pad & x & -> & He & Hs & Hready & Hwf1 & Hk1 & Hpad & Hused);
    [done|destruct Hp; lia|done|cbn in Hr; lia|].
  cbn [mbind option_bind]. rewrite He.
  destruct (IH (w_cipher _ x) (u32 (seqNum + 1)) (w_sink _ x) (w_rand _ x)) as (c1' & w' & out & -> & Hs' & Hwf1' & Hread);
    [done|done|cbn in Hr; lia|].
  exists c1', w', (frame (write_keys c1) seqNum p pad ++ out).
  split; [done|]. split; [by rewrite Hs', Hs, app_assoc|]. split; [done|].
  intros c2 rest e Hw2 Hk. rewrite <- app_assoc, Hk.
  pose proof (padding_accepted c1 c2 p pad Hk Hp Hpad) as Hacc.
  destruct (read_frame c2 seqNum p pad (out ++ rest) e Hw2 Hacc) as (c2b & -> & Hwf2b & Hk2b & _).
  cbn [mbind option_bind].
  destruct (Hread c2b rest e Hwf2b) as (c2' & -> & Hk' & Hwf'); [by rewrite Hk1, Hk2b, Hk|]. by exists c2'.
Qed.

(** C16. A packet cipher returns a packet exactly when the connection carries a frame of it:
    length, padding length, payload and padding, encrypted with the keys of this
    direction and authenticated together with the sequence number, with a length and
    a padding in the bounds; it consumes exactly the frame. *)
Theorem readCipherPacket_exact c seqNum r p r' :
  cipher_wf c ->
  (exists c', readCipherPacket c seqNum r = Some (Ok p, c', r')) <->
  (exists pad, accepts c p pad /\ r = mkSource (frame (read_keys c) seqNum p pad ++ avail r') (ending r')).
Proof.
  intros Hwf. split.
  - intros [c' Hr]. by eapply read_sound.
  - intros (pad & Hacc & ->). destruct (read_frame c seqNum p pad (avail r') (ending r') Hwf Hacc) as (c' & E & _).
    exists c'. rewrite E. by destruct r'.
Qed.

(** What one side writes, the other side reads: for ciphers made from the same keys, any
    packets and any starting sequence number, the packets come out in order and
    unchanged, whatever padding was drawn and whatever follows on the connection. *)
Lemma packets_roundtrip c1 c2 seqNum w rand ps :
  cipher_wf c1 -> cipher_wf c2 -> write_keys c1 = read_keys c2 -> Forall packet_ok ps ->
  ready w -> (20 * length ps <= length (avail rand))%nat ->
  exists c1' w' out, write_packets c1 seqNum w rand ps = Some (c1', w') /\ sent w' = sent w ++ out /\
    forall rest e, exists c2',
      read_packets c2 seqNum (mkSource (out ++ rest) e) (length ps) = Some (ps, c2', mkSource rest e).
Proof.
  intros Hw1 Hw2 Hk Hps Hw Hr.
  destruct (packets_transfer c1 seqNum w rand ps Hw1 Hps Hw Hr) as (c1' & w' & out & E & Hs & _ & Hread).
  exists c1', w', out. split; [done|]. split; [done|]. intros rest e.
  destruct (Hread c2 rest e Hw2 Hk) as (c2' & E2 & _). by exists c2'.
Qed.

(** No input makes a packet cipher panic: reading any bytes and writing any packet
    within the size limit, onto a connection that may fail at any point, returns a
    result or an error and leaves the cipher well formed. *)
Lemma packetCipher_no_panic c seqNum :
  cipher_wf c ->
  (forall r, exists x c' r', readCipherPacket c seqNum r = Some (x, c', r') /\ cipher_wf c') /\
  (forall w rand p, len p <= maxPacket ->
     exists x, writeCipherPacket c seqNum w rand p = Some x /\ cipher_wf (w_cipher _ x)).
Proof. intros Hwf. split; intros; [by apply read_total|by apply write_total]. Qed.

(** The CBC cipher hides which check failed: after any verification error, be it of the
    length, the padding or the MAC, it has taken the same number of bytes off the
    connection. *)
Lemma cbc_error_camouflage c seqNum r e c' r' :
  cbc_wf c -> readCipherPacket (pcCBC c) seqNum r = Some (Err (cbcError e), c', r') ->
  r' = mkSource (drop (Z.to_nat (maxPacket + 4 + c_macSize c)) (avail r)) (ending r).
Proof.
  intros Hwf Hr. cbn in Hr. unfold map_read in Hr.
  destruct (cbc_read c seqNum r) as [[[q c1] r1]|] eqn:E; [|done]. injection Hr as -> _ ->.
  by eapply cbc_camouflage_spec.
Qed.
End Laws.
End Ciphers.

(** ** Examples *)
Definition sample_ctr : streamPacketCipher :=
  mkStreamCipher (Some (hmacHash SHA256 (go "mac key") [])) (ctrStream (aesBlock (go "0123456789abcdef")) (go "fedcba9876543210") 0)
    true false true false.
Definition sample_cbc : cbcCipher :=
  let m := mkBlockMode (aesBlock (go "0123456789abcdef")) (go "fedcba9876543210") in
  mkCBC (truncatingMAC 12 (hmacHash SHA1 (go "mac key") [])) m m 1024 0.

Definition sample_frame : gostring :=
  @frame sample_crypto (read_keys (pcCBC sample_cbc)) 3 (go "hello") (go "paddin").

Lemma readCipherPacket_exact_witness :
  (exists c', @readCipherPacket sample_crypto (pcCBC sample_cbc) 3 (mkSource (sample_frame ++ go "rest") ioEOF) =
     Some (Ok (go "hello"), c', mkSource (go "rest") ioEOF)) /\ cipher_wf (pcCBC sample_cbc).
Proof.
  assert (Hwf : cipher_wf (pcCBC sample_cbc)) by (repeat split; cbn; lia).
  split; [|exact Hwf].
  apply (@readCipherPacket_exact sample_crypto sample_crypto_laws (pcCBC sample_cbc) 3 _ (go "hello")
           (mkSource (go "rest") ioEOF) Hwf).
  exists (go "paddin"). split; [|reflexivity]. repeat split; vm_compute; done.
Defined.

