(* ===== verification/SshTransport.v ===== *)
(** * The packet transport: [third/ssh/transport.go] and the corrupt-packet responses of
    [fakessh_antiscan.go].

    A direction of a connection is a [connectionState]: a packet cipher, a sequence
    number and the key change that is pending, a channel of capacity one.  A
    [transport] has one for each direction, the bytes to come from the peer and the
    bytes sent.  The buffered writer is flushed after each packet, so it and the raw
    connection are one [Sink]; a [Write] or [Flush] that fails is a fate of it.  A Go
    panic is [None].

    Proved: both ends derive the same keys; a conversation with any key changes is read
    as it was written; reading ends on every input without a panic; version lines are
    exchanged; what an OpenSSH-like server answers to a corrupt packet. *)
From Stdlib Require Import Ascii String ZArith Lia.
From stdpp Require Import base gmap strings list.
From S2P Require Import Prelude GoStrings GoIO SshWire SshMessages SshAlgos GoCrypto SshCipher.
Local Open Scope Z_scope.

Section Transport.
Context `{CryptoLib, UnicodeTables}.

(** ** Keys *)
Record direction := mkDirection { ivTag : gostring; keyTag : gostring; macKeyTag : gostring }.
Definition serverKeys : direction := mkDirection (go "B") (go "D") (go "F").
Definition clientKeys : direction := mkDirection (go "A") (go "C") (go "E").

Record kexResult := mkKexResult {
  kr_H : gostring; kr_K : gostring; kr_HostKey : gostring; kr_Signature : gostring;
  kr_Hash : Hash; kr_SessionID : gostring }.

(** [generateKeyMaterial], with the number of bytes to fill; a round fills a digest. *)
Fixpoint key_material (fuel : nat) (n : nat) (tag : gostring) (r : kexResult) (digestsSoFar : gostring) : gostring :=
  match fuel, n with
  | O, _ | _, O => []
  | S fuel, _ =>
      let d := digest (kr_Hash r) (kr_K r ++ kr_H r ++
                 match digestsSoFar with [] => tag ++ kr_SessionID r | _ => digestsSoFar end) in
      let k := Nat.min n (length d) in
      take n d ++ key_material fuel (n - k) tag r (digestsSoFar ++ d)
  end.
Definition generateKeyMaterial (n : nat) (tag : gostring) (r : kexResult) : option gostring :=
  match kr_Hash r with
  | NoHash => None
  | _ => Some (key_material n n tag r [])
  end.

Definition newPacketCipher (d : direction) (algs : DirectionAlgorithms) (kex : kexResult) : created packetCipher :=
  match cipherMode_of (da_Cipher algs) with
  | None => Some (Err (newError (go "ssh: unsupported cipher " ++ da_Cipher algs)))
  | Some mode =>
      iv ← generateKeyMaterial (cm_ivSize mode) (ivTag d) kex;
      key ← generateKeyMaterial (cm_keySize mode) (keyTag d) kex;
      macKey ← (if contains aeadCiphers (da_Cipher algs) then Some []
                else m ← macMode_of (da_MAC algs); generateKeyMaterial (mm_keySize m) (macKeyTag d) kex);
      cm_create mode key iv macKey algs
  end.

(** ** Connection states *)
Record connectionState := mkConnState {
  cs_cipher : packetCipher;
  cs_seqNum : Z;
  cs_dir : direction;
  cs_pending : option packetCipher }.

Definition is_msg (packet : gostring) (n : Z) : bool :=
  match packet with b :: _ => bv b =? n | [] => false end.

(** A received [msgNewKeys]: take the pending cipher. *)
Definition take_pending (s : connectionState) (strictMode : bool) : option connectionState :=
  c ← cs_pending s;
  Some (mkConnState c (if strictMode then 0 else cs_seqNum s) (cs_dir s) None).

Definition cs_readPacket (s : connectionState) (r : Source) (strictMode : bool)
  : option (result packet_error gostring * connectionState * Source) :=
  x ← readCipherPacket (cs_cipher s) (cs_seqNum s) r;
  let '(p, c, r) := x in
  let s := mkConnState c (u32 (cs_seqNum s + 1)) (cs_dir s) (cs_pending s) in
  match p with
  | Err e => Some (Err e, s, r)
  | Ok packet =>
      if len packet =? 0 then Some (Err (newError (go "ssh: zero length packet")), s, r)
      else if is_msg packet msgNewKeys then
        match take_pending s strictMode with
        | Some s => Some (Ok packet, s, r)
        | None => Some (Err (newError (go "ssh: got bogus newkeys message")), s, r)
        end
      else if is_msg packet msgDisconnect then
        match UnmarshalMsg disconnectMsg packet with
        | Err e => Some (Err (newError (err_msg e)), s, r)
        | Ok msg => Some (Err (disconnectError msg), s, r)
        end
      else Some (Ok packet, s, r)
  end.

(** [w.Flush()]. *)
Definition sink_Flush (w : Sink) : option ioerr * Sink := sink_Write w [].

(** The error, the state and the streams; and the caller's packet, which is scrambled. *)
Definition cs_writePacket (s : connectionState) (w : Sink) (rand : Source) (packet : gostring) (strictMode : bool)
  : option (option packet_error * connectionState * Sink * Source * gostring) :=
  let changeKeys := (0 <? len packet) && is_msg packet msgNewKeys in
  x ← writeCipherPacket (cs_cipher s) (cs_seqNum s) w rand packet;
  let s := mkConnState (w_cipher _ x) (cs_seqNum s) (cs_dir s) (cs_pending s) in
  match w_err _ x with
  | Some e => Some (Some e, s, w_sink _ x, w_rand _ x, w_packet _ x)
  | None =>
      match sink_Flush (w_sink _ x) with
      | (Some e, w) => Some (Some (ioError e), s, w, w_rand _ x, w_packet _ x)
      | (None, w) =>
          let s := mkConnState (cs_cipher s) (u32 (cs_seqNum s + 1)) (cs_dir s) (cs_pending s) in
          if changeKeys then
            s ← take_pending s strictMode;
            Some (None, s, w, w_rand _ x, w_packet _ x)
          else Some (None, s, w, w_rand _ x, w_packet _ x)
      end
  end.

Definition isPlaintext (s : connectionState) : bool :=
  match cs_cipher s with
  | pcStream c => no_mac c && is_none (s_cipher c)
  | _ => false
  end.

(** ** [transport] *)
Record transport := mkTransport {
  t_reader : connectionState;
  t_writer : connectionState;
  t_in : Source;
  t_out : Sink;
  t_rand : Source;
  t_isClient : bool;
  t_strictMode : bool;
  t_initialKEXDone : bool;
  t_asOpenSSH : bool }.

Definition plain_cipher : packetCipher := pcStream (mkStreamCipher None noneCipher false false false false).

Definition newTransport (conn_in : Source) (conn_out : Sink) (rand : Source) (isClient : bool) : transport :=
  mkTransport
    (mkConnState plain_cipher 0 (if isClient then serverKeys else clientKeys) None)
    (mkConnState plain_cipher 0 (if isClient then clientKeys else serverKeys) None)
    conn_in conn_out rand isClient false false false.

Definition set_reader (t : transport) (s : connectionState) (r : Source) : transport :=
  mkTransport s (t_writer t) r (t_out t) (t_rand t) (t_isClient t) (t_strictMode t) (t_initialKEXDone t) (t_asOpenSSH t).
Definition set_writer (t : transport) (s : connectionState) (w : Sink) (rand : Source) : transport :=
  mkTransport (t_reader t) s (t_in t) w rand (t_isClient t) (t_strictMode t) (t_initialKEXDone t) (t_asOpenSSH t).

Definition setStrictMode (t : transport) : res transport :=
  if negb (cs_seqNum (t_reader t) =? 1) then
    Err (errors_New (go "ssh: sequence number != 1 when strict KEX mode requested"))
  else Ok (mkTransport (t_reader t) (t_writer t) (t_in t) (t_out t) (t_rand t) (t_isClient t) true
             (t_initialKEXDone t) (t_asOpenSSH t)).
Definition setInitialKEXDone (t : transport) : transport :=
  mkTransport (t_reader t) (t_writer t) (t_in t) (t_out t) (t_rand t) (t_isClient t) (t_strictMode t) true (t_asOpenSSH t).

Definition enableOpenSSHCompat (t : transport) (enabled : bool) : transport :=
  let w := match cs_cipher (t_writer t) with
           | pcStream s => pcStream (mkStreamCipher (s_mac s) (s_cipher s) (s_etm s) enabled (openSSHMinPadding s)
                                       (openSSHPlaintextCorruptPadding s))
           | c => c
           end in
  let r := match cs_cipher (t_reader t) with
           | pcStream s => pcStream (mkStreamCipher (s_mac s) (s_cipher s) (s_etm s) (openSSHPadding s) (openSSHMinPadding s)
                                       enabled)
           | c => c
           end in
  let with_cipher s c := mkConnState c (cs_seqNum s) (cs_dir s) (cs_pending s) in
  mkTransport (with_cipher (t_reader t) r) (with_cipher (t_writer t) w) (t_in t) (t_out t) (t_rand t) (t_isClient t)
    (t_strictMode t) (t_initialKEXDone t) enabled.

Definition with_pending (s : connectionState) (c : packetCipher) : connectionState :=
  mkConnState (cs_cipher s) (cs_seqNum s) (cs_dir s) (Some c).

(** The outcome of [prepareKeyChange]: it blocks while a key change is pending. *)
Inductive prepared :=
| Prepared (t : transport)
| PrepareFailed (e : packet_error) (t : transport)
| PrepareBlocks.

Definition prepareKeyChange (t : transport) (algs : NegotiatedAlgorithms) (kex : kexResult) : option prepared :=
  x ← newPacketCipher (cs_dir (t_reader t)) (na_Read algs) kex;
  match x with
  | Err e => Some (PrepareFailed e t)
  | Ok ciph =>
      let ciph := if t_asOpenSSH t then fakesshSetOpenSSHMinPadding ciph true else ciph in
      match cs_pending (t_reader t) with
      | Some _ => Some PrepareBlocks
      | None =>
          let t := set_reader t (with_pending (t_reader t) ciph) (t_in t) in
          y ← newPacketCipher (cs_dir (t_writer t)) (na_Write algs) kex;
          match y with
          | Err e => Some (PrepareFailed e t)
          | Ok ciph =>
              match cs_pending (t_writer t) with
              | Some _ => Some PrepareBlocks
              | None => Some (Prepared (set_writer t (with_pending (t_writer t) ciph) (t_out t) (t_rand t)))
              end
          end
      end
  end.

Definition writePacketLocked (t : transport) (packet : gostring) : option (option packet_error * transport * gostring) :=
  x ← cs_writePacket (t_writer t) (t_out t) (t_rand t) packet (t_strictMode t);
  let '(e, s, w, rand, packet) := x in
  Some (e, set_writer t s w rand, packet).
Definition writePacket (t : transport) (packet : gostring) : option (option packet_error * transport * gostring) :=
  writePacketLocked t packet.

Definition corrupt_line : gostring := go "Packet corrupt" ++ [chNUL].

Definition writePacketCorrupt (t : transport) : option transport :=
  if isPlaintext (t_writer t) then
    let '(_, w) := sink_Write (t_out t) corrupt_line in
    Some (set_writer t (t_writer t) w (t_rand t))
  else
    x ← writePacketLocked t (MarshalMsg (Mk_disconnectMsg 2 (go "Packet corrupt") []));
    Some (snd (fst x)).

Definition writePacketCorruptedPadlen (t : transport) (padlen : Z) : option transport :=
  x ← writePacketLocked t (MarshalMsg (Mk_disconnectMsg 2 (go "Corrupted padlen " ++ Itoa padlen ++ go " on input.") []));
  Some (snd (fst x)).

(** The loop of [readPacket]: packets to ignore are skipped. *)
Fixpoint read_loop (fuel : nat) (t : transport) : option (result packet_error gostring * transport) :=
  match fuel with
  | O => None
  | S fuel =>
      x ← cs_readPacket (t_reader t) (t_in t) (t_strictMode t);
      let '(p, s, r) := x in
      let t := set_reader t s r in
      match p with
      | Err e => Some (Err e, t)
      | Ok packet =>
          if (len packet =? 0) || (t_strictMode t && negb (t_initialKEXDone t)) ||
             (negb (is_msg packet msgIgnore) && negb (is_msg packet msgDebug))
          then Some (Ok packet, t)
          else read_loop fuel t
      end
  end.

(** A packet takes at least one byte. *)
Definition read_fuel (t : transport) : nat := S (length (avail (t_in t))).

Definition readPacket (t : transport) : option (result packet_error gostring * transport) :=
  x ← read_loop (read_fuel t) t;
  let '(p, t) := x in
  match p with
  | Ok packet => Some (Ok packet, t)
  | Err err =>
      if t_asOpenSSH t then
        match fakesshCorruptedPadlen err with
        | Some padlen => t ← writePacketCorruptedPadlen t padlen; Some (Err err, t)
        | None => if fakesshIsCorruptPacketError err then t ← writePacketCorrupt t; Some (Err err, t)
                  else Some (Err err, t)
        end
      else Some (Err err, t)
  end.

(** ** Version exchange *)
Definition packageVersion : gostring := go "SSH-2.0-Go".
Definition maxVersionStringBytes : nat := 255.
Definition openSSHMaxBannerBytes : nat := Z.to_nat 8192.

(** [buf[0]]. *)
Definition byte_of (buf : gostring) : ascii := match buf with b :: _ => b | [] => chNUL end.

Definition strip_CR (s : gostring) : gostring :=
  if (0 <? length s)%nat && (default chNUL (last s) =c chCR) then take (length s - 1) s else s.

(** [n] more bytes may be read. *)
Fixpoint version_loop (n : nat) (versionString : gostring) (r : Source) : result packet_error gostring * Source :=
  match n with
  | O => (Err (newError (go "ssh: overflow reading version string")), r)
  | S n =>
      match read_full r 1 with
      | (Err e, r) => (Err (ioError e), r)
      | (Ok buf, r) =>
          let b := byte_of buf in
          if b =c chNL then
            if negb (HasPrefix versionString (go "SSH-")) then version_loop n [] r
            else (Ok (strip_CR versionString), r)
          else version_loop n (versionString ++ [b]) r
      end
  end.
Definition readVersion (r : Source) : result packet_error gostring * Source := version_loop maxVersionStringBytes [] r.

Definition invalid_banner : gostring := go "Invalid SSH identification string." ++ [chCR; chNL].

(** [n] bytes until the limit; the byte after it is read and refused. *)
Fixpoint version_loop_openssh (n : nat) (versionString : gostring) (lastCR : bool) (r : Source) (w : Sink)
  : result packet_error gostring * Source * Sink :=
  let complain msg r w := (Err (newError msg), r, snd (sink_Write w invalid_banner)) in
  match read_full r 1 with
  | (Err e, r) => (Err (ioError e), r, w)
  | (Ok buf, r) =>
      match n with
      | O => complain (go "ssh: overflow reading version string") r w
      | S n =>
          let b := byte_of buf in
          if b =c chCR then version_loop_openssh n versionString true r w
          else if b =c chNL then
            if HasPrefix versionString (go "SSH-") then (Ok versionString, r, w)
            else complain (go "ssh: cannot read client version") r w
          else if b =c chNUL then (Err (newError (go "invalid character in version string")), r, w)
          else if lastCR then complain (go "ssh: unexpected CR") r w
          else version_loop_openssh n (versionString ++ [b]) false r w
      end
  end.
Definition readVersionOpenSSH (r : Source) (w : Sink) : result packet_error gostring * Source * Sink :=
  version_loop_openssh openSSHMaxBannerBytes [] false r w.

Definition exchangeVersions (versionLine : gostring) (r : Source) (w : Sink) : result packet_error gostring * Source * Sink :=
  if existsb (fun c => bv c <? 32) versionLine then
    (Err (newError (go "ssh: junk character in version line")), r, w)
  else
    match sink_Write w (versionLine ++ [chCR; chNL]) with
    | (Some e, w) => (Err (ioError e), r, w)
    | (None, w) => let '(them, r) := readVersion r in (them, r, w)
    end.
Definition exchangeVersionsOpenSSH (versionLine : gostring) (r : Source) (w : Sink)
  : result packet_error gostring * Source * Sink :=
  if existsb (fun c => bv c <? 32) versionLine then
    (Err (newError (go "ssh: junk character in version line")), r, w)
  else
    match sink_Write w (versionLine ++ [chCR; chNL]) with
    | (Some e, w) => (Err (ioError e), r, w)
    | (None, w) => readVersionOpenSSH r w
    end.

(** ** Key derivation *)

(** RFC 4253, section 7.2: [K1 = HASH(K || H || X || session_id)],
    [K2 = HASH(K || H || K1)], [K3 = HASH(K || H || K1 || K2)], ...; the first [k] of
    them. *)
Fixpoint derived_keys (k : nat) (tag : gostring) (r : kexResult) : gostring :=
  match k with
  | O => []
  | S k =>
      derived_keys k tag r ++
      digest (kr_Hash r) (kr_K r ++ kr_H r ++
        match k with O => tag ++ kr_SessionID r | S _ => derived_keys k tag r end)
  end.

Section Laws.
Context `{!CryptoLaws}.

Lemma length_derived_keys k tag r : length (derived_keys k tag r) = (k * hash_Size (kr_Hash r))%nat.
Proof. induction k as [|k IH]; [done|]. cbn [derived_keys]. rewrite length_app, IH, digest_length. lia. Qed.

Lemma derived_keys_take j k tag r :
  (j <= k)%nat -> take (j * hash_Size (kr_Hash r)) (derived_keys k tag r) = derived_keys j tag r.
Proof.
  intros Hjk. induction Hjk as [|k Hjk IH].
  - apply take_ge. by rewrite length_derived_keys.
  - cbn [derived_keys]. rewrite take_app_le; [done|]. rewrite length_derived_keys. nia.
Qed.

Lemma key_material_spec fuel n tag r j :
  (0 < hash_Size (kr_Hash r))%nat -> (n <= fuel)%nat ->
  key_material fuel n tag r (derived_keys j tag r) =
  slice (derived_keys (j + fuel) tag r) (j * hash_Size (kr_Hash r)) n.
Proof.
  intros Hsz. revert n j. induction fuel as [|fuel IH]; intros n j Hn; cbn [key_material].
  { assert (n = 0%nat) as -> by lia. done. }
  destruct n as [|n]; [done|].
  set (d := digest _ _).
  assert (Hd : length d = hash_Size (kr_Hash r)) by apply digest_length.
  assert (Ed : derived_keys j tag r ++ d = derived_keys (S j) tag r).
  { cbn [derived_keys]. unfold d. do 4 f_equal. destruct j; [done|].
    destruct (derived_keys (S j) tag r) eqn:E; [|done].
    apply (f_equal length) in E. rewrite length_derived_keys in E. simpl in E. nia. }
  rewrite Ed, IH by lia. replace (S j + fuel)%nat with (j + S fuel)%nat by lia.
  set (D := derived_keys (j + S fuel) tag r). set (sz := hash_Size (kr_Hash r)) in *.
  assert (HD : slice D (j * sz) sz = d).
  { unfold slice. rewrite take_drop_commute.
    replace (j * sz + sz)%nat with (S j * sz)%nat by lia. unfold D, sz. rewrite derived_keys_take by lia. rewrite <- Ed.
    apply drop_app_length'. by rewrite length_derived_keys. }
  rewrite Hd. destruct (Nat.le_gt_cases (S n) sz).
  - replace (Nat.min (S n) sz) with (S n) by lia. rewrite Nat.sub_diag. unfold slice at 1. cbn [take]. rewrite app_nil_r.
    rewrite <- HD. unfold slice. rewrite take_take. f_equal. lia.
  - replace (Nat.min (S n) sz) with sz by lia. rewrite take_ge by lia. rewrite <- HD. unfold slice.
    replace (S n) with (sz + (S n - sz))%nat at 2 by lia. rewrite take_split, drop_drop.
    do 3 f_equal. lia.
Qed.

Lemma generateKeyMaterial_spec n tag r :
  kr_Hash r <> NoHash ->
  generateKeyMaterial n tag r = Some (take n (derived_keys n tag r)) /\ length (take n (derived_keys n tag r)) = n.
Proof.
  intros Hh. assert (Hsz : (0 < hash_Size (kr_Hash r))%nat) by (destruct (kr_Hash r); cbn; lia || done).
  split.
  - pose proof (key_material_spec n n tag r 0 Hsz (le_n n)) as E. cbn [derived_keys] in E.
    unfold generateKeyMaterial. rewrite E. cbn [Nat.mul Nat.add]. unfold slice. rewrite drop_0.
    by destruct (kr_Hash r).
  - rewrite length_take, length_derived_keys. nia.
Qed.

(** ** Fresh ciphers *)
Lemma macMode_wf name m key :
  macMode_of name = Some m -> mac_wf (mm_new m key) /\ (mac_Size (mm_new m key) <= 64)%nat.
Proof.
  unfold macMode_of. intros Hm. repeat (case_match; [injection Hm as <-; cbn; lia|]). done.
Qed.

Lemma macMode_iff name : is_Some (macMode_of name) <-> name ∈ macModes.
Proof.
  unfold macModes. rewrite !elem_of_cons, elem_of_nil. unfold macMode_of.
  split.
  - intros [m Hm]. repeat (case_match; [bool_simp; tauto|]). done.
  - intros Hn. destruct Hn as [->|[->|[->|[->|[->|[->|[->|[]]]]]]]]; vm_compute; by eexists.
Qed.

(** The algorithms of a direction are implemented. *)
Definition algs_ok (algs : DirectionAlgorithms) : Prop :=
  is_Some (cipherMode_of (da_Cipher algs)) /\
  (da_Cipher algs ∉ aeadCiphers -> is_Some (macMode_of (da_MAC algs))).

Lemma stream_mode_ok skip f key iv macKey algs s m :
  f key iv = Some (Ok s) -> macMode_of (da_MAC algs) = Some m ->
  exists c, streamCipherMode skip f key iv macKey algs = Some (Ok c) /\ cipher_wf c /\ write_keys c = read_keys c.
Proof.
  intros Hf Hm. unfold streamCipherMode. rewrite Hf. cbn [mbind option_bind]. rewrite Hm. cbn [mbind option_bind].
  eexists. split; [done|]. split; [|done]. by apply (macMode_wf (da_MAC algs)).
Qed.

Lemma cbc_mode_ok b iv macKey algs m :
  length iv = BlockSize b -> macMode_of (da_MAC algs) = Some m ->
  exists c, newCBCCipher b iv macKey algs = Some (Ok c) /\ cipher_wf c /\ write_keys c = read_keys c.
Proof.
  intros Hiv Hm. unfold newCBCCipher. rewrite Hm. unfold NewCBC. rewrite Hiv, Nat.eqb_refl. cbn [mbind option_bind].
  eexists. split; [done|]. split; [|done]. apply macMode_wf with (key := macKey) in Hm as [Hw Hs]. by repeat split.
Qed.

Lemma cm_create_ok name mode algs key iv macKey :
  da_Cipher algs = name -> cipherMode_of name = Some mode -> (name ∉ aeadCiphers -> is_Some (macMode_of (da_MAC algs))) ->
  length key = cm_keySize mode -> length iv = cm_ivSize mode ->
  exists c, cm_create mode key iv macKey algs = Some (Ok c) /\ cipher_wf c /\ write_keys c = read_keys c.
Proof.
  intros Hn Hmode Hmac Hkey Hiv. unfold cipherMode_of in Hmode.
  assert (Hctr : length iv = 16%nat -> length key = 16%nat \/ length key = 24%nat \/ length key = 32%nat ->
                 newAESCTR key iv = Some (Ok (ctrStream (aesBlock key) iv 0))).
  { intros Hi Hk. unfold newAESCTR, aes_NewCipher, len. destruct Hk as [-> | [-> | ->]]; cbn; unfold NewCTR; by rewrite Hi. }
  assert (Hrc4 : length key = 16%nat \/ length key = 32%nat -> newRC4 key iv = Some (Ok (rc4Stream key 0))).
  { intros Hk. unfold newRC4, rc4_NewCipher, len. by destruct Hk as [-> | ->]. }
  repeat match type of Hmode with
  | (if ?b then _ else _) = _ =>
      let E := fresh "E" in destruct b eqn:E; [bool_simp; subst name; injection Hmode as <-; cbn [cm_create cm_keySize cm_ivSize] in *|]
  end; try done.
  all: try (destruct Hmac as [m Hm]; [match goal with E : da_Cipher _ = _ |- _ => rewrite E end; apply (bool_decide_unpack _); vm_compute; exact I|]).
  all: try (eapply stream_mode_ok; [|done]; first [apply Hctr; auto|apply Hrc4; auto]).
  - unfold newGCMCipher, aes_NewCipher, len. rewrite Hkey. by eexists.
  - unfold newGCMCipher, aes_NewCipher, len. rewrite Hkey. by eexists.
  - unfold newChaCha20Cipher. rewrite Hkey. cbn. eexists. split; [done|]. split; [|done].
    split; [|split]; cbn; rewrite ?length_take, ?length_drop; lia.
  - unfold newAESCBCCipher, aes_NewCipher, len. rewrite Hkey. cbn. by eapply cbc_mode_ok.
  - unfold newTripleDESCBCCipher, NewTripleDESCipher, len. rewrite Hkey. cbn. by eapply cbc_mode_ok.
Qed.

Lemma newPacketCipher_ok d algs kex :
  algs_ok algs -> kr_Hash kex <> NoHash ->
  exists c, newPacketCipher d algs kex = Some (Ok c) /\ cipher_wf c /\ write_keys c = read_keys c.
Proof.
  intros [[mode Hmode] Hmac] Hh. unfold newPacketCipher. rewrite Hmode.
  destruct (generateKeyMaterial_spec (cm_ivSize mode) (ivTag d) kex Hh) as [-> Hiv].
  destruct (generateKeyMaterial_spec (cm_keySize mode) (keyTag d) kex Hh) as [-> Hkey]. cbn [mbind option_bind].
  destruct (contains aeadCiphers (da_Cipher algs)) eqn:Ea; unfold contains in Ea; bool_simp.
  - cbn [mbind option_bind]. by eapply cm_create_ok.
  - destruct (Hmac Ea) as [m Hm]. rewrite Hm. cbn [mbind option_bind].
    destruct (generateKeyMaterial_spec (mm_keySize m) (macKeyTag d) kex Hh) as [-> _]. cbn [mbind option_bind].
    by eapply cm_create_ok.
Qed.

(** ** A direction at both ends *)
Definition pending_wf (p : option packetCipher) : Prop := match p with Some c => cipher_wf c | None => True end.
Definition cs_wf (s : connectionState) : Prop := cipher_wf (cs_cipher s) /\ pending_wf (cs_pending s).

(** The writer [w] of one end and the reader [r] of the other. *)
Definition sync (w r : connectionState) : Prop :=
  cs_wf w /\ cs_wf r /\ write_keys (cs_cipher w) = read_keys (cs_cipher r) /\ cs_seqNum w = cs_seqNum r /\
  (write_keys <$> cs_pending w) = (read_keys <$> cs_pending r).

(** A packet that can be sent: not a disconnect message, and new keys only when some are
    pending. *)
Definition sendable (w : connectionState) (p : gostring) : Prop :=
  packet_ok p /\ is_msg p msgDisconnect = false /\ (is_msg p msgNewKeys = true -> is_Some (cs_pending w)).

Lemma is_msg_excl p n m : n <> m -> is_msg p n = true -> is_msg p m = false.
Proof. destruct p as [|b t]; [done|]. cbn. intros. bool_simp. lia. Qed.

Lemma packet_transfer w r sink rand strict p :
  sync w r -> sendable w p -> ready sink -> (20 <= length (avail rand))%nat ->
  exists w' sink' rand' scrambled out,
    cs_writePacket w sink rand p strict = Some (None, w', sink', rand', scrambled) /\
    sent sink' = sent sink ++ out /\ ready sink' /\ (length (avail rand) <= 20 + length (avail rand'))%nat /\
    (is_msg p msgNewKeys = true -> cs_pending w' = None) /\
    (is_msg p msgNewKeys = false -> cs_pending w' = cs_pending w) /\
    forall rest e, exists r',
      cs_readPacket r (mkSource (out ++ rest) e) strict = Some (Ok p, r', mkSource rest e) /\ sync w' r'.
Proof.
  intros ((Hw & Hpw) & (Hr & Hpr) & Hk & Hs & Hp) (Hok & Hnd & Hnk) Hsink Hrand.
  assert (Hmax : len p <= maxPacket) by (destruct Hok; lia).
  assert (Hlen : 0 < len p) by (destruct Hok as [? _]; destruct p; [done|]; rewrite len_cons; pose proof (len_nonneg p); lia).
  destruct (write_frame (cs_cipher w) (cs_seqNum w) sink rand p Hw Hmax Hsink Hrand)
    as (pad & x & Ex & Hex & Hsent & Hready & Hwf' & Hk' & Hpad & Hused).
  pose proof (padding_accepted _ _ p pad Hk Hok Hpad) as Hacc.
  destruct (sink_Write_ready (w_sink _ x) [] Hready) as (sink' & Efl & Hsent' & Hready').
  rewrite app_nil_r in Hsent'.
  assert (Hread : forall rest e, exists c', readCipherPacket (cs_cipher r) (cs_seqNum r)
      (mkSource (frame (write_keys (cs_cipher w)) (cs_seqNum w) p pad ++ rest) e) = Some (Ok p, c', mkSource rest e) /\
      cipher_wf c' /\ write_keys (w_cipher _ x) = read_keys c').
  { intros rest e. rewrite Hk, Hs.
    destruct (read_frame (cs_cipher r) (cs_seqNum r) p pad rest e Hr Hacc) as (c' & E & Hc' & Hkc & _).
    exists c'. split; [done|]. split; [done|]. by rewrite Hk', Hkc, Hk. }
  unfold cs_writePacket. rewrite Ex. cbn [mbind option_bind]. rewrite Hex. unfold sink_Flush. rewrite Efl.
  replace (0 <? len p) with true by lia. cbn [andb].
  destruct (is_msg p msgNewKeys) eqn:En.
  - destruct (Hnk eq_refl) as [cw Hcw]. destruct (cs_pending r) as [cr|] eqn:Hcr; [|by rewrite Hcw in Hp].
    unfold take_pending. cbn [cs_pending cs_cipher cs_seqNum cs_dir]. rewrite Hcw. cbn [mbind option_bind].
    do 4 eexists. exists (frame (write_keys (cs_cipher w)) (cs_seqNum w) p pad).
    split; [reflexivity|]. split; [by rewrite Hsent'|]. do 3 (split; [done|]). split; [done|].
    intros rest e. destruct (Hread rest e) as (c' & E & Hc' & Hkc). unfold cs_readPacket. rewrite E.
    cbn [mbind option_bind]. replace (len p =? 0) with false by lia. rewrite En. unfold take_pending.
    cbn [cs_pending cs_cipher cs_seqNum cs_dir]. rewrite Hcr. cbn [mbind option_bind].
    eexists. split; [reflexivity|]. rewrite Hcw in Hp, Hpw. cbn in Hp. injection Hp as Hp.
    split_and!; [done..|cbn; by rewrite Hs|done].
  - do 4 eexists. exists (frame (write_keys (cs_cipher w)) (cs_seqNum w) p pad).
    split; [reflexivity|]. split; [by rewrite Hsent'|]. do 3 (split; [done|]). split; [done|].
    intros rest e. destruct (Hread rest e) as (c' & E & Hc' & Hkc). unfold cs_readPacket. rewrite E.
    cbn [mbind option_bind]. replace (len p =? 0) with false by lia. rewrite En, Hnd.
    eexists. split; [reflexivity|]. split_and!; [done..|cbn; by rewrite Hs|done].
Qed.

(** ** Conversations with key changes *)
Inductive event :=
| Send (p : gostring)
| Rekey (w r : packetCipher).   (** both ends prepare a key change *)

Definition sends (evs : list event) : list gostring :=
  omap (fun ev => match ev with Send p => Some p | Rekey _ _ => None end) evs.

Fixpoint write_events (s : connectionState) (w : Sink) (rand : Source) (strict : bool) (evs : list event)
  : option (connectionState * Sink) :=
  match evs with
  | [] => Some (s, w)
  | Send p :: evs =>
      x ← cs_writePacket s w rand p strict;
      let '(e, s, w, rand, _) := x in
      match e with None => write_events s w rand strict evs | Some _ => None end
  | Rekey c _ :: evs => write_events (with_pending s c) w rand strict evs
  end.
Fixpoint read_events (s : connectionState) (r : Source) (strict : bool) (evs : list event)
  : option (list gostring * connectionState * Source) :=
  match evs with
  | [] => Some ([], s, r)
  | Send _ :: evs =>
      x ← cs_readPacket s r strict;
      match x with
      | (Ok p, s, r) => y ← read_events s r strict evs; let '(ps, s, r) := y in Some (p :: ps, s, r)
      | _ => None
      end
  | Rekey _ c :: evs => read_events (with_pending s c) r strict evs
  end.

(** The discipline of the key exchange: keys are prepared when none are pending, and with
    the same keys at both ends; a [msgNewKeys] is sent only when some are. *)
Fixpoint disciplined (pending : bool) (evs : list event) : Prop :=
  match evs with
  | [] => True
  | Send p :: evs =>
      packet_ok p /\ is_msg p msgDisconnect = false /\ (is_msg p msgNewKeys = true -> pending = true) /\
      disciplined (if is_msg p msgNewKeys then false else pending) evs
  | Rekey w r :: evs =>
      pending = false /\ cipher_wf w /\ cipher_wf r /\ write_keys w = read_keys r /\ disciplined true evs
  end.

Definition has_pending (s : connectionState) : bool := match cs_pending s with Some _ => true | None => false end.

Lemma events_transfer w r sink rand strict evs :
  sync w r -> disciplined (has_pending w) evs -> ready sink -> (20 * length evs <= length (avail rand))%nat ->
  exists w' sink' out, write_events w sink rand strict evs = Some (w', sink') /\ sent sink' = sent sink ++ out /\
    forall rest e, exists r',
      read_events r (mkSource (out ++ rest) e) strict evs = Some (sends evs, r', mkSource rest e) /\ sync w' r'.
Proof.
  revert w r sink rand. induction evs as [|[p|cw cr] evs IH]; intros w r sink rand Hsync Hd Hsink Hrand;
    cbn [write_events read_events length disciplined] in *.
  - exists w, sink, []. rewrite app_nil_r. do 2 (split; [done|]). intros rest e. by exists r.
  - destruct Hd as (Hok & Hnd & Hnk & Hd).
    destruct (packet_transfer w r sink rand strict p) as (w1 & s1 & rand1 & scr & out1 & Ew & Es & Hs1 & Hu & Hp1 & Hp2 & Hread);
      [done| |done|lia|].
    { split; [done|]. split; [done|]. intros E. specialize (Hnk E). unfold has_pending in Hnk.
      destruct (cs_pending w); [by eexists|done]. }
    rewrite Ew. cbn [mbind option_bind].
    assert (Hpend : has_pending w1 = if is_msg p msgNewKeys then false else has_pending w).
    { unfold has_pending. destruct (is_msg p msgNewKeys); [by rewrite Hp1|by rewrite Hp2]. }
    rewrite <- Hpend in Hd.
    (* the rest of the conversation, from the state the reader is in afterwards *)
    destruct (Hread [] ioEOF) as (r1 & _ & Hsync1).
    destruct (IH w1 r1 s1 rand1 Hsync1 Hd Hs1) as (w' & sink' & out & E & Hsent & _); [lia|].
    exists w', sink', (out1 ++ out). split; [done|]. split; [by rewrite Hsent, Es, app_assoc|].
    intros rest e. rewrite <- app_assoc. destruct (Hread (out ++ rest) e) as (r2 & -> & Hsync2). cbn [mbind option_bind].
    destruct (IH w1 r2 s1 rand1 Hsync2 Hd Hs1) as (w2 & sink2 & out2 & E2 & Hsent2 & Hr2); [lia|].
    rewrite E2 in E. injection E as <- <-. rewrite Hsent2 in Hsent. apply app_inv_head in Hsent as <-.
    destruct (Hr2 rest e) as (r' & -> & Hsync'). cbn [mbind option_bind]. by exists r'.
  - destruct Hd as (Hpend & Hcw & Hcr & Hk & Hd). destruct Hsync as ((Hw & Hpw) & (Hr & Hpr) & Hkk & Hs & Hp).
    assert (Hsync' : sync (with_pending w cw) (with_pending r cr)).
    { split_and!; try done. cbn. by rewrite Hk. }
    destruct (IH (with_pending w cw) (with_pending r cr) sink rand Hsync' Hd Hsink) as (w' & sink' & out & E & Hsent & Hread); [lia|].
    by exists w', sink', out.
Qed.

(** ** No panics, and termination *)
Lemma frame_nonempty c seqNum p pad : cipher_wf c -> accepts c p pad -> (0 < length (frame (read_keys c) seqNum p pad))%nat.
Proof.
  destruct c as [s|g|b|ch]; cbn [cipher_wf accepts read_keys frame]; intros Hwf Hok.
  - unfold stream_frame. rewrite length_app, length_stream_wire, length_packet_body. lia.
  - unfold gcm_frame. rewrite length_app, be_bytes_length. lia.
  - unfold cbc_frame. rewrite length_app. destruct Hok as (_ & H16 & Hmod).
    set (body := packet_body p pad). set (bs := BlockSize (bm_block (c_decrypter b))) in *.
    assert (Hb : Z.of_nat (length body) = prefixLen + len p + len pad)
      by (unfold body; rewrite length_packet_body; unfold len, prefixLen; lia).
    rewrite <- Hb, <- Nat2Z.inj_mod in Hmod.
    destruct (cbc_encrypt_length (bm_block (c_decrypter b)) (length body / bs)%nat (bm_iv (c_decrypter b)) body) as [-> _].
    + fold bs. pose proof (Nat.div_mod_eq (length body) bs). lia.
    + apply Hwf.
    + fold bs. pose proof (Nat.div_mod_eq (length body) bs). lia.
  - unfold chacha_frame. rewrite length_app, length_enc, be_bytes_length. lia.
Qed.

Lemma cs_read_total s r strict :
  cs_wf s -> exists x s' r', cs_readPacket s r strict = Some (x, s', r') /\ cs_wf s' /\
    match x with
    | Ok p => 0 < len p <= maxPacket /\ is_msg p msgDisconnect = false /\ (length (avail r') < length (avail r))%nat
    | Err _ => True
    end.
Proof.
  intros (Hc & Hp). unfold cs_readPacket.
  destruct (read_total (cs_cipher s) (cs_seqNum s) r Hc) as (x & c' & r' & E & Hc'). rewrite E. cbn [mbind option_bind].
  destruct x as [p|e]; [|by do 3 eexists]. apply read_sound in E as (pad & Hacc & ->); [|done].
  pose proof (frame_nonempty _ (cs_seqNum s) _ _ Hc Hacc) as Hne. cbn [avail]. rewrite length_app.
  assert (Hlen : 0 < len p <= maxPacket).
  { pose proof (len_nonneg pad). pose proof (len_nonneg p).
    assert (p <> [] /\ 1 + len p + len pad <= maxPacket) as [Hne2 Hmx].
    { destruct (cs_cipher s); cbn in Hacc; [destruct Hacc as (? & ? & ? & ?)|destruct Hacc as (? & ? & ?)|destruct Hacc as ((? & ? & ?) & ?)|destruct Hacc as (? & ? & ?)]; done. }
    split; [|lia]. destruct p; [done|]. rewrite len_cons in *. pose proof (len_nonneg p). lia. }
  replace (len p =? 0) with false by lia.
  destruct (is_msg p msgNewKeys) eqn:En.
  - unfold take_pending. cbn [cs_pending cs_seqNum cs_dir]. destruct (cs_pending s) as [cp|]; [|by do 3 eexists].
    cbn [mbind option_bind]. do 3 eexists. split; [reflexivity|]. split; [done|]. split; [done|].
    split; [|lia]. by apply (is_msg_excl p msgNewKeys).
  - destruct (is_msg p msgDisconnect) eqn:Ed.
    + destruct (UnmarshalMsg disconnectMsg p); by do 3 eexists.
    + do 3 eexists. split; [reflexivity|]. split; [done|]. split; [done|]. split; [done|lia].
Qed.

Lemma cs_write_total s w rand p strict :
  cs_wf s -> len p <= maxPacket -> is_msg p msgNewKeys = false ->
  exists x s' w' rand' p', cs_writePacket s w rand p strict = Some (x, s', w', rand', p') /\ cs_wf s'.
Proof.
  intros (Hc & Hp) Hmax Hn. unfold cs_writePacket.
  destruct (write_total (cs_cipher s) (cs_seqNum s) w rand p Hc Hmax) as (x & -> & Hx). cbn [mbind option_bind].
  destruct (w_err _ x); [by do 5 eexists|]. destruct (sink_Flush (w_sink _ x)) as [[e|] w1]; [by do 5 eexists|].
  rewrite Hn, andb_false_r. by do 5 eexists.
Qed.

Definition t_wf (t : transport) : Prop := cs_wf (t_reader t) /\ cs_wf (t_writer t).

(** What [readPacket] passes on. *)
Definition passed (t : transport) (p : gostring) : Prop :=
  0 < len p <= maxPacket /\ is_msg p msgDisconnect = false /\
  (t_strictMode t && negb (t_initialKEXDone t) = true \/ (is_msg p msgIgnore = false /\ is_msg p msgDebug = false)).

Lemma read_loop_total fuel t :
  t_wf t -> (length (avail (t_in t)) < fuel)%nat ->
  exists x t', read_loop fuel t = Some (x, t') /\ t_wf t' /\ t_writer t' = t_writer t /\ t_out t' = t_out t /\
    t_asOpenSSH t' = t_asOpenSSH t /\ t_rand t' = t_rand t /\ t_strictMode t' = t_strictMode t /\
    match x with Ok p => passed t p | Err _ => True end.
Proof.
  revert t. induction fuel as [|fuel IH]; intros t (Hr & Hw) Hf; [lia|]. cbn [read_loop].
  destruct (cs_read_total (t_reader t) (t_in t) (t_strictMode t) Hr) as (x & s & r & -> & Hs & Hx). cbn [mbind option_bind].
  destruct x as [p|e]; [|by do 2 eexists]. destruct Hx as (Hlen & Hnd & Hcons). replace (len p =? 0) with false by lia.
  cbn [orb set_reader t_strictMode t_initialKEXDone].
  destruct (t_strictMode t && negb (t_initialKEXDone t)) eqn:Es; cbn [orb].
  { do 2 eexists. split; [reflexivity|]. split; [done|]. do 5 (split; [done|]). split; [done|]. split; [done|]. by left. }
  destruct (is_msg p msgIgnore) eqn:Ei; cbn [negb andb].
  - destruct (IH (set_reader t s r)) as (x & t' & E & Hrest); [done|cbn; lia|]. by exists x, t'.
  - destruct (is_msg p msgDebug) eqn:Edb; cbn [negb].
    + destruct (IH (set_reader t s r)) as (x & t' & E & Hrest); [done|cbn; lia|]. by exists x, t'.
    + do 2 eexists. split; [reflexivity|]. split; [done|]. do 5 (split; [done|]). split; [done|]. split; [done|]. by right.
Qed.

Lemma disconnect_packet m :
  (length (disconnect_Message m) <= 100)%nat -> disconnect_Language m = [] ->
  len (MarshalMsg m) <= maxPacket - 32 /\ is_msg (MarshalMsg m) msgNewKeys = false /\ MarshalMsg m <> [].
Proof.
  intros Hm Hl. destruct m as [reason msg lang]. cbn [disconnect_Message disconnect_Language] in *. subst lang.
  assert (MarshalMsg (Mk_disconnectMsg reason msg []) =
    vb 1 :: be_bytes 4 reason ++ be_bytes 4 (len msg mod 2 ^ 32) ++ msg ++ be_bytes 4 0) as -> by reflexivity.
  split; [|done]. unfold len at 1. cbn [length]. rewrite !length_app, !be_bytes_length.
  assert (maxPacket = 262144) by done. lia.
Qed.

Lemma length_Itoa z : in_int64 z = true -> (length (Itoa z) <= 65)%nat.
Proof.
  assert (Hp : forall fuel n, (length (itoa_pos fuel n) <= fuel)%nat).
  { induction fuel as [|fuel IH]; intros n; [done|]. cbn [itoa_pos]. destruct (n <? 10); [cbn; lia|].
    rewrite length_app. cbn. specialize (IH (n / 10)). lia. }
  assert (Hl : forall n, 0 <= n <= 2 ^ 63 -> (S (Z.to_nat (Z.log2 n)) <= 64)%nat).
  { intros n Hn. destruct (Z.eq_dec n 0) as [->|]; [cbn; lia|].
    assert (Z.log2 n <= Z.log2 (2 ^ 63)) by (apply Z.log2_le_mono; lia). rewrite Z.log2_pow2 in * by lia. lia. }
  unfold in_int64, int64_min, int64_max, Itoa. intros Hz. bool_simp. destruct (z <? 0) eqn:E; bool_simp.
  - cbn [length]. specialize (Hp (S (Z.to_nat (Z.log2 (- z)))) (- z)). specialize (Hl (- z)). lia.
  - specialize (Hp (S (Z.to_nat (Z.log2 z))) z). specialize (Hl z). lia.
Qed.

Lemma Atoi_range s z : Atoi s = Some z -> in_int64 z = true.
Proof. unfold Atoi. intros Ha. repeat case_match; try done; by injection Ha as <-. Qed.

(** ** What is sent when reading fails *)
Definition corrupt_msg : disconnectMsg := Mk_disconnectMsg 2 (go "Packet corrupt") [].
Definition padlen_msg (n : Z) : disconnectMsg :=
  Mk_disconnectMsg 2 (go "Corrupted padlen " ++ Itoa n ++ go " on input.") [].

(** A frame of the writer of [t], with some padding. *)
Definition framed (t : transport) (m : disconnectMsg) (pad : gostring) : gostring :=
  frame (write_keys (cs_cipher (t_writer t))) (cs_seqNum (t_writer t)) (MarshalMsg m) pad.

Definition reply (t : transport) (e : packet_error) (pad : gostring) : gostring :=
  if t_asOpenSSH t then
    match fakesshCorruptedPadlen e with
    | Some n => framed t (padlen_msg n) pad
    | None => if fakesshIsCorruptPacketError e then
                if isPlaintext (t_writer t) then corrupt_line else framed t corrupt_msg pad
              else []
    end
  else [].

Lemma padlen_msg_short e n :
  fakesshCorruptedPadlen e = Some n -> (length (disconnect_Message (padlen_msg n)) <= 100)%nat.
Proof.
  intros He. assert (in_int64 n = true) as Hn.
  { unfold fakesshCorruptedPadlen in He. repeat case_match; try done; by eapply Atoi_range. }
  cbn [disconnect_Message padlen_msg]. rewrite !length_app. pose proof (length_Itoa n Hn). cbn. lia.
Qed.

Lemma write_disconnect_total t m :
  t_wf t -> (length (disconnect_Message m) <= 100)%nat -> disconnect_Language m = [] ->
  exists x t' p', writePacketLocked t (MarshalMsg m) = Some (x, t', p') /\ t_wf t'.
Proof.
  intros (Hr & Hw) Hm Hl. destruct (disconnect_packet m Hm Hl) as (Hlen & Hn & _). unfold writePacketLocked.
  destruct (cs_write_total (t_writer t) (t_out t) (t_rand t) (MarshalMsg m) (t_strictMode t)) as (x & s & w & rand & p' & -> & Hs);
    [done|lia|done|]. cbn [mbind option_bind]. by do 3 eexists.
Qed.

Lemma write_disconnect_sent t m :
  t_wf t -> (length (disconnect_Message m) <= 100)%nat -> disconnect_Language m = [] ->
  ready (t_out t) -> (20 <= length (avail (t_rand t)))%nat ->
  exists t' p' pad, writePacketLocked t (MarshalMsg m) = Some (None, t', p') /\ t_wf t' /\
    sent (t_out t') = sent (t_out t) ++ framed t m pad.
Proof.
  intros (Hr & (Hw & Hp)) Hm Hl Hout Hrand. destruct (disconnect_packet m Hm Hl) as (Hlen & Hn & Hne).
  unfold writePacketLocked, cs_writePacket.
  destruct (write_frame (cs_cipher (t_writer t)) (cs_seqNum (t_writer t)) (t_out t) (t_rand t) (MarshalMsg m))
    as (pad & x & -> & He & Hs & Hready & Hwf' & _); [done|lia|done|done|].
  cbn [mbind option_bind]. rewrite He, Hn, andb_false_r. unfold sink_Flush.
  destruct (sink_Write_ready (w_sink _ x) [] Hready) as (w' & -> & Hs' & _). rewrite app_nil_r in Hs'.
  do 2 eexists. exists pad. split; [reflexivity|]. split; [done|]. cbn. by rewrite Hs'.
Qed.

Lemma readPacket_cases t :
  t_wf t -> exists x t', readPacket t = Some (x, t') /\ t_wf t' /\
    match x with
    | Ok p => passed t p /\ t_out t' = t_out t
    | Err e => ready (t_out t) -> (20 <= length (avail (t_rand t)))%nat ->
               exists pad, sent (t_out t') = sent (t_out t) ++ reply t e pad
    end.
Proof.
  intros Hwf. unfold readPacket, read_fuel.
  destruct (read_loop_total (S (length (avail (t_in t)))) t Hwf) as (x & t1 & -> & Hwf1 & Ew & Eo & Ea & Er & Es & Hx); [lia|].
  cbn [mbind option_bind]. destruct x as [p|e]; [by do 2 eexists|]. unfold reply. rewrite Ea.
  destruct (t_asOpenSSH t); [|do 2 eexists; split; [reflexivity|]; split; [done|]; intros _ _; exists []; by rewrite app_nil_r, Eo].
  assert (Hframed : forall m pad, framed t1 m pad = framed t m pad) by (intros; unfold framed; by rewrite Ew).
  destruct (fakesshCorruptedPadlen e) as [n|] eqn:Epad.
  - pose proof (padlen_msg_short _ _ Epad) as Hm. unfold writePacketCorruptedPadlen. fold (padlen_msg n).
    destruct (write_disconnect_total t1 (padlen_msg n) Hwf1 Hm eq_refl) as (y & t2 & p2 & E & Hwf2). rewrite E.
    cbn [mbind option_bind fst snd]. do 2 eexists. split; [reflexivity|]. split; [done|]. intros Hout Hrand.
    destruct (write_disconnect_sent t1 (padlen_msg n)) as (t3 & p3 & pad & E3 & _ & Hs);
      [done|done|done|by rewrite Eo|by rewrite Er|].
    rewrite E in E3. injection E3 as -> -> ->. exists pad. by rewrite Epad, <- Hframed, <- Eo.
  - destruct (fakesshIsCorruptPacketError e) eqn:Ec;
      [|do 2 eexists; split; [reflexivity|]; split; [done|]; intros _ _; exists []; by rewrite Epad, Ec, app_nil_r, Eo].
    unfold writePacketCorrupt. rewrite Ew. destruct (isPlaintext (t_writer t)) eqn:Ep.
    + destruct (sink_Write (t_out t1) corrupt_line) as [we w'] eqn:Esw. cbn [mbind option_bind].
      do 2 eexists. split; [reflexivity|]. split; [destruct Hwf1 as [? Hw1]; rewrite Ew in Hw1; by split|].
      intros Hout _. exists []. cbn [set_writer t_out]. destruct (sink_Write_ready (t_out t1) corrupt_line) as (w2 & E2 & Hs2 & _);
        [by rewrite Eo|]. rewrite Esw in E2. injection E2 as -> ->. by rewrite Epad, Ec, ?Ep, Hs2, Eo.
    + fold corrupt_msg. destruct (write_disconnect_total t1 corrupt_msg Hwf1) as (y & t2 & p2 & E & Hwf2); [cbn; lia|done|].
      rewrite E. cbn [mbind option_bind fst snd]. do 2 eexists. split; [reflexivity|]. split; [done|]. intros Hout Hrand.
      destruct (write_disconnect_sent t1 corrupt_msg) as (t3 & p3 & pad & E3 & _ & Hs);
        [done|cbn; lia|done|by rewrite Eo|by rewrite Er|].
      rewrite E in E3. injection E3 as -> -> ->. exists pad. by rewrite Epad, Ec, ?Ep, <- Hframed, <- Eo.
Qed.

(** ** Theorems *)

(** Both ends derive the same ciphers: for algorithms that are implemented and a key
    exchange with a hash, [newPacketCipher] succeeds, from key material that is the
    prefix of the digests RFC 4253 prescribes; the cipher is well formed, and what a
    writer made from it sends is what a reader made from it understands. *)
Lemma newPacketCipher_correct d algs kex :
  algs_ok algs -> kr_Hash kex <> NoHash ->
  (exists c, newPacketCipher d algs kex = Some (Ok c) /\ cipher_wf c /\ write_keys c = read_keys c) /\
  forall n tag, generateKeyMaterial n tag kex = Some (take n (derived_keys n tag kex)) /\
    length (take n (derived_keys n tag kex)) = n.
Proof.
  intros Ha Hh. split; [by apply newPacketCipher_ok|]. intros n tag. by apply generateKeyMaterial_spec.
Qed.

(** C15. A conversation with key changes is read as it was written: starting from two ends
    in step, whatever packets are sent and whenever the two sides change keys between
    a preparation and the next [msgNewKeys], in strict mode or not, every packet
    arrives unchanged and in order, and the ends stay in step: same keys, same
    sequence number, same pending change. *)
Theorem conversation_roundtrip w r sink rand strict evs :
  sync w r -> disciplined (has_pending w) evs -> ready sink -> (20 * length evs <= length (avail rand))%nat ->
  exists w' sink' out, write_events w sink rand strict evs = Some (w', sink') /\ sent sink' = sent sink ++ out /\
    forall rest e, exists r',
      read_events r (mkSource (out ++ rest) e) strict evs = Some (sends evs, r', mkSource rest e) /\ sync w' r'.
Proof. apply events_transfer. Qed.

(** Reading a packet ends on every input, without a panic: it returns a packet that is
    not empty, not longer than [maxPacket], not a disconnect message and, but for the
    initial key exchange of strict mode, not one to ignore; or an error, after which it
    has sent exactly the response the configuration asks for: nothing unless the server
    poses as OpenSSH; then, for a corrupt packet, the bare line before the first key
    exchange and a disconnect message in a frame afterwards. *)
Lemma readPacket_correct t :
  t_wf t -> exists x t', readPacket t = Some (x, t') /\ t_wf t' /\
    match x with
    | Ok p => passed t p /\ t_out t' = t_out t
    | Err e => ready (t_out t) -> (20 <= length (avail (t_rand t)))%nat ->
               exists pad, sent (t_out t') = sent (t_out t) ++ reply t e pad
    end.
Proof. apply readPacket_cases. Qed.

End Laws.
End Transport.

(** ** Version lines *)
Definition SSH_ : gostring := go "SSH-".

(** A line this side may announce. *)
Definition version_line (v : gostring) : Prop :=
  HasPrefix v SSH_ = true /\ Forall (fun c => 32 <= bv c) v /\ (length v <= 253)%nat.

Lemma version_line_bytes v c : version_line v -> bv c < 32 -> c ∉ v.
Proof.
  intros (_ & Hb & _) Hc Hin. rewrite Forall_forall in Hb. specialize (Hb c Hin). cbn in Hb. lia.
Qed.

Lemma read_byte b s e : read_full (mkSource (b :: s) e) 1 = (Ok [b], mkSource s e).
Proof. apply (read_full_app [b]). done. Qed.

Lemma strip_CR_line v : chCR ∉ v -> strip_CR (v ++ [chCR]) = v.
Proof.
  intros Hv. unfold strip_CR. rewrite last_snoc, length_app. cbn [default length].
  rewrite Ascii.eqb_refl. replace (0 <? _)%nat with true by (symmetry; apply Nat.ltb_lt; lia). cbn [andb].
  rewrite Nat.add_sub. apply take_app_length.
Qed.

Lemma strip_CR_prefix v : HasPrefix v SSH_ = true -> HasPrefix (strip_CR v) SSH_ = true.
Proof.
  intros (t & ->)%HasPrefix_spec. unfold strip_CR. destruct (_ && _) eqn:E; [|apply HasPrefix_app].
  destruct t as [|b t] using rev_ind; [exfalso; vm_compute in E; done|].
  rewrite length_app. cbn [length]. rewrite app_assoc, take_app_le by (rewrite !length_app; cbn; lia).
  rewrite take_ge by (rewrite !length_app; cbn; lia). apply HasPrefix_app.
Qed.

Lemma strip_CR_elem v c : c ∈ strip_CR v -> c ∈ v.
Proof. unfold strip_CR. case_match; [|done]. intros Hc. rewrite <- (take_drop (length v - 1) v). apply elem_of_app. by left. Qed.

Lemma version_loop_line n acc line rest e :
  chNL ∉ line -> (length line < n)%nat -> HasPrefix (acc ++ line) SSH_ = true ->
  version_loop n acc (mkSource (line ++ chNL :: rest) e) = (Ok (strip_CR (acc ++ line)), mkSource rest e).
Proof.
  revert n acc. induction line as [|b line IH]; intros n acc Hnl Hn Hp; (destruct n as [|n]; [cbn in Hn; lia|]);
    cbn [version_loop app]; rewrite read_byte; cbn [byte_of].
  - rewrite Ascii.eqb_refl. rewrite app_nil_r in *. fold SSH_. by rewrite Hp.
  - destruct (b =c chNL) eqn:E; [apply Ascii.eqb_eq in E as ->; set_solver|].
    rewrite IH; [by rewrite <- app_assoc|intros Hc; apply Hnl; by right|cbn in Hn; lia|by rewrite <- app_assoc].
Qed.

Lemma version_loop_sound n acc r v r' :
  chNL ∉ acc -> version_loop n acc r = (Ok v, r') ->
  exists used, r = mkSource (used ++ avail r') (ending r') /\ (length used <= n)%nat /\
    HasPrefix v SSH_ = true /\ chNL ∉ v.
Proof.
  revert acc r. induction n as [|n IH]; intros acc r Hacc Hr; cbn [version_loop] in Hr; [done|].
  destruct (read_full r 1) as [[buf|] r1] eqn:E1; [|done]. apply read_full_Ok in E1 as [Hl ->].
  destruct buf as [|b [|]]; [done| |done]. cbn [byte_of] in Hr.
  destruct (b =c chNL) eqn:Eb.
  - destruct (negb _) eqn:Ep.
    + apply IH in Hr as (used & -> & Hu & Hv); [|apply not_elem_of_nil]. exists (b :: used). cbn. split; [done|]. split; [lia|done].
    + apply negb_false_iff in Ep. injection Hr as <- <-. exists [b]. cbn. split; [done|]. split; [lia|].
      split; [by apply strip_CR_prefix|]. by intros Hc%strip_CR_elem.
  - apply Ascii.eqb_neq in Eb.
    apply IH in Hr as (used & -> & Hu & Hv);
      [|rewrite elem_of_app, elem_of_cons, elem_of_nil; intros [Hc|[Hc|Hc]]; done]. exists (b :: used). cbn. split; [done|]. split; [lia|done].
Qed.

Definition banner_byte (c : ascii) : Prop := c <> chCR /\ c <> chNL /\ c <> chNUL.

Lemma version_loop_openssh_line n acc line rest e w :
  Forall banner_byte line -> (length line + 2 <= n)%nat -> HasPrefix (acc ++ line) SSH_ = true ->
  version_loop_openssh n acc false (mkSource (line ++ chCR :: chNL :: rest) e) w = (Ok (acc ++ line), mkSource rest e, w).
Proof.
  revert n acc. induction line as [|b line IH]; intros n acc Hl Hn Hp.
  - destruct n as [|[|n]]; [cbn in Hn; lia..|]. cbn [version_loop_openssh app]. rewrite read_byte. cbn [byte_of].
    rewrite Ascii.eqb_refl, read_byte. cbn [byte_of]. replace (chNL =c chCR) with false by done.
    rewrite Ascii.eqb_refl, app_nil_r in *. fold SSH_. by rewrite Hp.
  - inversion Hl as [|? ? (Hcr & Hnl & Hnul) Hl']; subst. destruct n as [|n]; [cbn in Hn; lia|].
    cbn [version_loop_openssh app]. rewrite read_byte. cbn [byte_of].
    apply Ascii.eqb_neq in Hcr as ->, Hnl as ->, Hnul as ->.
    rewrite IH; [by rewrite <- app_assoc|done|cbn in Hn; lia|by rewrite <- app_assoc].
Qed.

Lemma version_loop_openssh_sound n acc cr r w v r' w' :
  Forall banner_byte acc -> version_loop_openssh n acc cr r w = (Ok v, r', w') ->
  exists used, r = mkSource (used ++ avail r') (ending r') /\ (length used <= n)%nat /\ w' = w /\
    HasPrefix v SSH_ = true /\ Forall banner_byte v /\ (length v <= length acc + length used)%nat.
Proof.
  revert acc cr r. induction n as [|n IH]; intros acc cr r Hacc Hr; cbn [version_loop_openssh] in Hr;
    (destruct (read_full r 1) as [[buf|] r1] eqn:E1; [|done]); [done|].
  apply read_full_Ok in E1 as [Hl ->]. destruct buf as [|b [|]]; [done| |done]. cbn [byte_of] in Hr.
  destruct (b =c chCR) eqn:Ecr.
  { apply IH in Hr as (used & -> & Hu & Hw & Hp & Hv & Hlen); [|done]. exists (b :: used). cbn. split_and!; try done; lia. }
  destruct (b =c chNL) eqn:Enl.
  { destruct (HasPrefix acc _) eqn:Ep; [|done]. injection Hr as <- <- <-. exists [b]. cbn. split_and!; try done; lia. }
  destruct (b =c chNUL) eqn:Enul; [done|]. destruct cr; [done|].
  apply Ascii.eqb_neq in Ecr, Enl, Enul.
  apply IH in Hr as (used & -> & Hu & Hw & Hp & Hv & Hlen).
  - exists (b :: used). rewrite length_app in Hlen. cbn in *. split_and!; try done; lia.
  - apply Forall_app. split; [done|]. by repeat constructor.
Qed.

Lemma version_line_junk v : version_line v -> existsb (fun c => bv c <? 32) v = false.
Proof.
  intros (_ & Hb & _). apply existsb_false_Forall. eapply Forall_impl; [exact Hb|]. cbn. intros c Hc. lia.
Qed.

Lemma version_line_banner v : version_line v -> Forall banner_byte v.
Proof.
  intros (_ & Hb & _). eapply Forall_impl; [exact Hb|]. cbn. intros c Hc. repeat split; intros ->; vm_compute in Hc; by apply Hc.
Qed.

Lemma banner_limit : Z.of_nat openSSHMaxBannerBytes = 8192.
Proof. apply Z2Nat.id. lia. Qed.

Lemma readVersionOpenSSH_line line rest e w :
  Forall banner_byte line -> (length line <= 253)%nat -> HasPrefix line SSH_ = true ->
  readVersionOpenSSH (mkSource (line ++ [chCR; chNL] ++ rest) e) w = (Ok line, mkSource rest e, w).
Proof.
  intros Hb Hl Hp. unfold readVersionOpenSSH. pose proof banner_limit as Hn. revert Hn.
  generalize openSSHMaxBannerBytes. intros n Hn. apply (version_loop_openssh_line n []); [done|lia|done].
Qed.

Lemma readVersionOpenSSH_sound r w v r' w' :
  readVersionOpenSSH r w = (Ok v, r', w') ->
  exists used, r = mkSource (used ++ avail r') (ending r') /\ len used <= 8192 /\ w' = w /\
    HasPrefix v SSH_ = true /\ Forall banner_byte v.
Proof.
  unfold readVersionOpenSSH. pose proof banner_limit as Hn. revert Hn. generalize openSSHMaxBannerBytes. intros n Hn Hr.
  apply version_loop_openssh_sound in Hr as (used & -> & Hu & -> & Hp & Hv & _); [|done].
  exists used. split; [done|]. split; [unfold len; lia|done].
Qed.

Lemma readVersion_line line rest e :
  chNL ∉ line -> chCR ∉ line -> (length line <= 253)%nat -> HasPrefix line SSH_ = true ->
  readVersion (mkSource (line ++ [chCR; chNL] ++ rest) e) = (Ok line, mkSource rest e).
Proof.
  intros Hnl Hcr Hl Hp. unfold readVersion. assert (Hn : maxVersionStringBytes = 255%nat) by done. revert Hn.
  generalize maxVersionStringBytes. intros n Hn.
  replace (line ++ [chCR; chNL] ++ rest) with ((line ++ [chCR]) ++ chNL :: rest) by (by rewrite <- app_assoc).
  rewrite version_loop_line.
  - cbn [app]. by rewrite strip_CR_line.
  - rewrite elem_of_app, elem_of_cons, elem_of_nil. intros [Hc|[Hc|Hc]]; done.
  - rewrite length_app. cbn [length]. lia.
  - cbn [app]. apply HasPrefix_spec in Hp as (t & ->). rewrite <- app_assoc. apply HasPrefix_app.
Qed.

Lemma readVersion_sound r v r' :
  readVersion r = (Ok v, r') ->
  exists used, r = mkSource (used ++ avail r') (ending r') /\ len used <= 255 /\
    HasPrefix v SSH_ = true /\ chNL ∉ v.
Proof.
  unfold readVersion. assert (Hn : maxVersionStringBytes = 255%nat) by done. revert Hn.
  generalize maxVersionStringBytes. intros n Hn Hr.
  apply version_loop_sound in Hr as (used & -> & Hu & Hp & Hv); [|apply not_elem_of_nil].
  exists used. split; [done|]. split; [unfold len; lia|done].
Qed.

(** Version exchange: each side, with the plain reader or the one that follows OpenSSH,
    gets the line the other announced and nothing after it; and whatever is received,
    an accepted version starts with SSH- and was read within the limit of 255 or 8192
    bytes, the one of the OpenSSH reader without control characters that end lines. *)
Lemma exchangeVersions_correct :
  (forall us them rest e w, version_line us -> version_line them -> ready w ->
     exists w', sent w' = sent w ++ us ++ [chCR; chNL] /\
       exchangeVersions us (mkSource (them ++ [chCR; chNL] ++ rest) e) w = (Ok them, mkSource rest e, w') /\
       exchangeVersionsOpenSSH us (mkSource (them ++ [chCR; chNL] ++ rest) e) w = (Ok them, mkSource rest e, w')) /\
  (forall r v r', readVersion r = (Ok v, r') ->
     exists used, r = mkSource (used ++ avail r') (ending r') /\ len used <= 255 /\
       HasPrefix v SSH_ = true /\ chNL ∉ v) /\
  (forall r w v r' w', readVersionOpenSSH r w = (Ok v, r', w') ->
     exists used, r = mkSource (used ++ avail r') (ending r') /\ len used <= 8192 /\ w' = w /\
       HasPrefix v SSH_ = true /\ Forall banner_byte v).
Proof.
  split; [|split].
  - intros us them rest e w Hus Hthem Hw. unfold exchangeVersions, exchangeVersionsOpenSSH.
    rewrite version_line_junk by done.
    destruct (sink_Write_ready w (us ++ [chCR; chNL]) Hw) as (w' & -> & Hs & _). exists w'. split; [done|].
    pose proof Hthem as (Hp & _ & Hl). split.
    + by rewrite readVersion_line by (done || by eapply version_line_bytes).
    + apply readVersionOpenSSH_line; [by apply version_line_banner|lia|done].
  - intros r v r' Hr. by apply readVersion_sound.
  - intros r w v r' w' Hr. by apply readVersionOpenSSH_sound.
Qed.

(** ** Examples *)
Definition sample_algs : DirectionAlgorithms := MkDirection CipherAES128CTR HMACSHA256 compressionNone.
Definition sample_kex : kexResult := mkKexResult (go "exchange hash") (go "secret") [] [] SHA256 (go "session").


Definition sample_end : connectionState := mkConnState plain_cipher 0 clientKeys None.
Definition sample_events : list event :=
  [Send (go "hello"); Rekey (pcStream sample_ctr) (pcStream sample_ctr); Send [vb 21]; Send (go "secret")].
Definition sample_noise : Source := mkSource (replicate 80 "x"%char) ioEOF.

Lemma conversation_roundtrip_witness :
  exists w' sink' out,
    @write_events sample_crypto sample_end (mkSink [] []) sample_noise true sample_events = Some (w', sink') /\
    sent sink' = [] ++ out /\
    forall rest e, exists r',
      @read_events sample_crypto sample_end (mkSource (out ++ rest) e) true sample_events =
        Some ([go "hello"; [vb 21]; go "secret"], r', mkSource rest e) /\ sync w' r'.
Proof.
  refine (@conversation_roundtrip sample_crypto sample_crypto_laws sample_end sample_end (mkSink [] []) sample_noise true
            sample_events _ _ _ _).
  - repeat split.
  - repeat split; try discriminate; try (vm_compute; congruence); vm_compute; lia.
  - constructor.
  - vm_compute. lia.
Defined.

(** A server that poses as OpenSSH, and a client that speaks HTTP. *)
Definition sample_server : transport :=
  enableOpenSSHCompat (newTransport (mkSource (go "GET / HTTP/1.1") ioEOF) (mkSink [] []) sample_noise false) true.


Example http_answer :
  match @readPacket sample_crypto ascii_tables sample_server with
  | Some (Err e, t) => sent (t_out t) = go "Packet corrupt" ++ [chNUL]
  | _ => False
  end.
Proof. vm_compute. reflexivity. Qed.

