(* ===== verification/KexLib.v ===== *)
(** * What the key exchanges use of [math/big], [crypto/rand], [crypto/elliptic],
    [crypto/ecdsa], [crypto/mlkem] and [golang.org/x/crypto/curve25519].

    [rand.Int], [big.Int.Exp] and the point format of [crypto/elliptic] are written out.
    The arithmetic of the curves, X25519 and ML-KEM are parameters ([KexLib]);
    [KexLaws] states what the packages document of them: generated keys are on the
    curve, scalar multiplication commutes, outputs have their lengths.  [entropy] stands
    for the bytes of the system's generator that a call draws besides its [rand].

    Proved: [rand.Int] returns a number below its bound or reports the reader's error,
    after finitely many attempts; points survive encoding and decoding. *)
From Stdlib Require Import Ascii String ZArith Lia Zpow_facts.
From stdpp Require Import base gmap strings list.
From S2P Require Import Prelude GoStrings GoIO SshWire.
Local Open Scope Z_scope.

(** ** [math/big] and [crypto/rand] *)

(** [Exp] for a modulus other than zero and an exponent that is not negative. *)
Definition Exp (x y m : Z) : Z := Zpow_mod x y (Z.abs m).

(** [bytes[0] &= uint8(int(1<<b) - 1)]. *)
Definition mask_first (b : Z) (bytes : gostring) : gostring :=
  match bytes with x :: t => vb (Z.land (bv x) (Z.shiftl 1 b - 1)) :: t | [] => [] end.

(** The rejection loop of [rand.Int]; [None] when the fuel ends. *)
Fixpoint Int_loop (fuel : nat) (rand : Source) (k : nat) (b max : Z) : option (result ioerr Z * Source) :=
  match fuel with
  | O => None
  | S fuel =>
      match read_full rand k with
      | (Err e, rand) => Some (Err e, rand)
      | (Ok bytes, rand) =>
          let n := be_value (mask_first b bytes) in
          if n <? max then Some (Ok n, rand) else Int_loop fuel rand k b max
      end
  end.

(** [rand.Int]; [None] is the panic of a bound that is not positive. *)
Definition rand_Int (rand : Source) (max : Z) : option (result ioerr Z * Source) :=
  if max <=? 0 then None
  else
    let bitLen := BitLen (max - 1) in
    if bitLen =? 0 then Some (Ok 0, rand)
    else
      let k := (bitLen + 7) / 8 in
      let b := if bitLen mod 8 =? 0 then 8 else bitLen mod 8 in
      Int_loop (S (length (avail rand))) rand (Z.to_nat k) b max.

(** ** [crypto/elliptic] *)
Inductive Curve := P256 | P384 | P521.
Definition Params_P (c : Curve) : Z :=
  match c with
  | P256 => 2 ^ 256 - 2 ^ 224 + 2 ^ 192 + 2 ^ 96 - 1
  | P384 => 2 ^ 384 - 2 ^ 128 - 2 ^ 96 + 2 ^ 32 - 1
  | P521 => 2 ^ 521 - 1
  end.
Definition Params_BitSize (c : Curve) : Z := match c with P256 => 256 | P384 => 384 | P521 => 521 end.
Definition byteLen (c : Curve) : nat := Z.to_nat ((Params_BitSize c + 7) / 8).

(** [crypto/mlkem] *)
Definition mlkem_SeedSize : nat := 64.
Definition CiphertextSize768 : nat := 1088.
Definition EncapsulationKeySize768 : nat := 1184.

Class KexLib := {
  IsOnCurve : Curve -> Z -> Z -> bool;
  (** The generator of the curve, and the multiple of a point by a scalar. *)
  generator : Curve -> Z * Z;
  multiply : Curve -> Z * Z -> gostring -> Z * Z;
  (** The private number [D] and the public point of [ecdsa.GenerateKey]. *)
  GenerateKey : Curve -> Source -> gostring -> result gostring (Z * (Z * Z)) * Source;
  Basepoint : gostring;
  X25519 : gostring -> gostring -> result gostring gostring;
  (** ML-KEM-768: the encapsulation key of a seed, whether bytes are one, and the
      shared secret with its ciphertext. *)
  EncapsulationKey : gostring -> gostring;
  NewEncapsulationKey768 : gostring -> option gostring;
  Encapsulate : gostring -> gostring -> gostring * gostring;
  Decapsulate : gostring -> gostring -> result gostring gostring
}.

Class KexLaws `{KexLib} := {
  on_curve_range : forall c x y, IsOnCurve c x y = true ->
    0 <= x < Params_P c /\ 0 <= y < Params_P c /\ (x, y) <> (0, 0);
  GenerateKey_point : forall c rand entropy d xy rand', GenerateKey c rand entropy = (Ok (d, xy), rand') ->
    IsOnCurve c (fst xy) (snd xy) = true /\ xy = multiply c (generator c) (BigBytes d);
  multiply_comm : forall c a b,
    multiply c (multiply c (generator c) a) b = multiply c (multiply c (generator c) b) a;
  multiply_nonneg : forall c p k, 0 <= fst (multiply c p k);
  X25519_length : forall k p s, X25519 k p = Ok s -> length s = 32%nat;
  X25519_base : forall k, length k = 32%nat -> exists p, X25519 k Basepoint = Ok p;
  X25519_comm : forall a b pa pb, X25519 a Basepoint = Ok pa -> X25519 b Basepoint = Ok pb ->
    X25519 a pb = X25519 b pa;
  EncapsulationKey_length : forall seed, length seed = mlkem_SeedSize ->
    length (EncapsulationKey seed) = EncapsulationKeySize768;
  EncapsulationKey_valid : forall seed, length seed = mlkem_SeedSize ->
    NewEncapsulationKey768 (EncapsulationKey seed) = None;
  Encapsulate_length : forall ek entropy, length (snd (Encapsulate ek entropy)) = CiphertextSize768
}.

Section Elliptic.
Context `{KexLib}.

(** A point that the functions of the package work on without a panic: on the curve, or
    the conventional point at infinity. *)
Definition valid_point (c : Curve) (x y : Z) : bool := ((x =? 0) && (y =? 0)) || IsOnCurve c x y.

Definition elliptic_Marshal (c : Curve) (x y : Z) : option gostring :=
  if valid_point c x y then Some (vb 4 :: be_bytes (byteLen c) x ++ be_bytes (byteLen c) y) else None.

Definition elliptic_Unmarshal (c : Curve) (data : gostring) : option (Z * Z) :=
  if negb (len data =? 1 + 2 * Z.of_nat (byteLen c)) then None
  else match data with
       | [] => None
       | b :: rest =>
           if negb (bv b =? 4) then None
           else
             let x := be_value (take (byteLen c) rest) in
             let y := be_value (drop (byteLen c) rest) in
             if (Params_P c <=? x) || (Params_P c <=? y) then None
             else if negb (IsOnCurve c x y) then None
             else Some (x, y)
       end.

Definition ScalarMult (c : Curve) (x y : Z) (scalar : gostring) : option (Z * Z) :=
  if valid_point c x y then Some (multiply c (x, y) scalar) else None.
End Elliptic.

(** ** Lemmas *)
Lemma Exp_spec x y m : m <> 0 -> Exp x y m = (x ^ y) mod Z.abs m.
Proof. intros Hm. unfold Exp. apply Zpow_mod_correct. lia. Qed.

Lemma Exp_range x y m : m <> 0 -> 0 <= Exp x y m < Z.abs m.
Proof. intros Hm. rewrite Exp_spec by done. apply Z.mod_pos_bound. lia. Qed.

(** The Diffie-Hellman law. *)
Lemma Exp_comm g x y m : m <> 0 -> 0 <= x -> 0 <= y -> Exp (Exp g x m) y m = Exp (Exp g y m) x m.
Proof.
  intros Hm Hx Hy. rewrite !Exp_spec by done.
  rewrite <- !Zpower_mod by lia. by rewrite <- !Z.pow_mul_r, (Z.mul_comm x y) by lia.
Qed.

Lemma Int_loop_spec fuel rand k b max :
  (0 < k)%nat -> (length (avail rand) < fuel)%nat ->
  exists r rand', Int_loop fuel rand k b max = Some (r, rand') /\ ending rand' = ending rand /\
    (length (avail rand') <= length (avail rand))%nat /\
    match r with
    | Ok n => 0 <= n < max /\ (length (avail rand') < length (avail rand))%nat
    | Err e => e = ending rand \/ (e = ioUnexpectedEOF /\ ending rand = ioEOF)
    end.
Proof.
  intros Hk. revert rand. induction fuel as [|fuel IH]; intros rand Hf; [lia|]. cbn [Int_loop].
  unfold read_full. destruct (k <=? length (avail rand))%nat eqn:E.
  - apply Nat.leb_le in E.
    assert (Hd : (length (drop k (avail rand)) < length (avail rand))%nat) by (rewrite length_drop; lia).
    destruct (be_value _ <? max) eqn:Em; bool_simp.
    + do 2 eexists. split; [done|]. cbn [avail ending]. pose proof (be_value_range (mask_first b (take k (avail rand)))).
      repeat split; lia.
    + destruct (IH (mkSource (drop k (avail rand)) (ending rand))) as (r & rand' & -> & He & Hl & Hr); cbn [avail ending] in *.
      { lia. }
      do 2 eexists. split; [done|]. split; [done|]. split; [lia|]. destruct r; [|done]. split; [apply Hr|]. lia.
  - do 2 eexists. split; [done|]. cbn [avail ending]. split; [done|]. split; [simpl; lia|].
    unfold short_error. destruct (avail rand), (ending rand); auto.
Qed.

(** [rand.Int] ends, with a number below its bound or the error of the reader; a bound
    above one makes it read. *)
Lemma rand_Int_spec rand max :
  0 < max ->
  exists r rand', rand_Int rand max = Some (r, rand') /\ ending rand' = ending rand /\
    (length (avail rand') <= length (avail rand))%nat /\
    match r with
    | Ok n => 0 <= n < max /\ (1 < max -> (length (avail rand') < length (avail rand))%nat)
    | Err e => e = ending rand \/ (e = ioUnexpectedEOF /\ ending rand = ioEOF)
    end.
Proof.
  intros Hm. unfold rand_Int. replace (max <=? 0) with false by (symmetry; apply Z.leb_gt; lia).
  destruct (BitLen (max - 1) =? 0) eqn:E; bool_simp.
  - do 2 eexists. split; [done|]. split; [done|]. split; [done|]. split; [lia|]. intros Hm'. exfalso.
    unfold BitLen in E. destruct (max - 1 =? 0) eqn:E1; bool_simp; [lia|].
    pose proof (Z.log2_nonneg (Z.abs (max - 1))). lia.
  - destruct (BitLen_bound (max - 1)) as (_ & _ & Hb); [lia|].
    destruct (Int_loop_spec (S (length (avail rand))) rand (Z.to_nat ((BitLen (max - 1) + 7) / 8))
                (if BitLen (max - 1) mod 8 =? 0 then 8 else BitLen (max - 1) mod 8) max) as (r & rand' & -> & He & Hl & Hr).
    + assert (1 <= (BitLen (max - 1) + 7) / 8) by (apply Z.div_le_lower_bound; lia). lia.
    + lia.
    + do 2 eexists. split; [done|]. split; [done|]. split; [done|]. destruct r; [|done]. split; [apply Hr|]. intros _. apply Hr.
Qed.

(** The mask keeps the low bits of the number. *)
Lemma mask_first_value b bytes :
  0 <= b <= 8 -> bytes <> [] ->
  be_value (mask_first b bytes) = be_value bytes mod 2 ^ (b + 8 * (len bytes - 1)).
Proof.
  intros Hb Hne. destruct bytes as [|x t]; [done|]. cbn [mask_first]. rewrite !be_value_cons, bv_vb_mod, len_cons.
  replace (Z.shiftl 1 b - 1) with (Z.ones b) by (rewrite Z.ones_equiv, Z.shiftl_1_l; lia).
  rewrite Z.land_ones by lia. pose proof (be_value_range t) as Ht. pose proof (len_nonneg t).
  rewrite !pow256 in * by lia. replace (b + 8 * (1 + len t - 1)) with (b + 8 * len t) by lia.
  rewrite Z.pow_add_r by lia. pose proof (Z.mod_pos_bound (bv x) (2 ^ b) ltac:(lia)) as Hm.
  assert (2 ^ b <= 2 ^ 8) by (apply Z.pow_le_mono_r; lia). rewrite (Z.mod_small (_ mod _) 256) by lia.
  apply (Z.mod_unique_pos _ _ (bv x / 2 ^ b)); [nia|]. pose proof (Z.div_mod (bv x) (2 ^ b) ltac:(lia)). nia.
Qed.

(** Every number below the bound is the result for the bytes that spell it. *)
Lemma rand_Int_covers max n rest e :
  0 <= n < max -> 1 < max ->
  rand_Int (mkSource (be_bytes (Z.to_nat ((BitLen (max - 1) + 7) / 8)) n ++ rest) e) max = Some (Ok n, mkSource rest e).
Proof.
  intros Hn Hm. unfold rand_Int. replace (max <=? 0) with false by (symmetry; apply Z.leb_gt; lia).
  destruct (BitLen_bound (max - 1)) as (Hu & Hlow & Hb); [lia|].
  assert (HB : 0 < BitLen (max - 1)).
  { destruct (Z.eq_dec (BitLen (max - 1)) 0) as [E|]; [|lia]. rewrite E in Hu. lia. }
  replace (_ =? 0) with false by (symmetry; apply Z.eqb_neq; lia).
  set (B := BitLen (max - 1)) in *. set (k := Z.to_nat ((B + 7) / 8)).
  assert (Hk : Z.of_nat k = (B + 7) / 8) by (apply Z2Nat.id, Z.div_pos; lia). clearbody B.
  assert (H1 : 1 <= Z.of_nat k) by (rewrite Hk; apply Z.div_le_lower_bound; lia). clearbody k.
  cbn [Int_loop avail]. rewrite read_full_app by apply be_bytes_length.
  rewrite mask_first_value; [|destruct (Z.eqb_spec (B mod 8) 0); [lia|]; pose proof (Z.mod_pos_bound B 8); lia|].
  2:{ intros Hnil. pose proof (be_bytes_length k n) as Hl. rewrite Hnil in Hl. simpl in Hl. lia. }
  rewrite be_value_bytes. replace (len (be_bytes k n)) with (Z.of_nat k) by (unfold len; by rewrite be_bytes_length).
  replace (_ + 8 * (Z.of_nat k - 1)) with B.
  2:{ rewrite Hk. clear. destruct (Z.eqb_spec (B mod 8) 0); Z.to_euclidean_division_equations; lia. }
  assert (n < 2 ^ B) by lia.
  assert (2 ^ B <= 256 ^ Z.of_nat k) by (rewrite pow256 by lia; apply Z.pow_le_mono_r; Z.to_euclidean_division_equations; lia).
  rewrite !Z.mod_small by (try rewrite Z.mod_small; lia). replace (n <? max) with true by (symmetry; apply Z.ltb_lt; lia). reflexivity.
Qed.

Section Points.
Context `{KexLaws}.

Lemma Params_P_fits c : Params_P c <= 256 ^ Z.of_nat (byteLen c).
Proof. destruct c; vm_compute; discriminate. Qed.

Lemma on_curve_valid c x y : IsOnCurve c x y = true -> valid_point c x y = true.
Proof. intros E. unfold valid_point. by rewrite E, orb_true_r. Qed.

(** A point on the curve survives encoding and decoding. *)
Lemma elliptic_roundtrip c x y :
  IsOnCurve c x y = true ->
  exists bs, elliptic_Marshal c x y = Some bs /\ elliptic_Unmarshal c bs = Some (x, y) /\
    length bs = (1 + 2 * byteLen c)%nat.
Proof.
  intros E. destruct (on_curve_range _ _ _ E) as (Hx & Hy & _). pose proof (Params_P_fits c) as Hf.
  unfold elliptic_Marshal. rewrite on_curve_valid by done. eexists. split; [done|].
  assert (Hl : length (vb 4 :: be_bytes (byteLen c) x ++ be_bytes (byteLen c) y) = (1 + 2 * byteLen c)%nat)
    by (cbn [length]; rewrite length_app, !be_bytes_length; lia).
  split; [|done]. unfold elliptic_Unmarshal.
  replace (len _ =? _) with true by (symmetry; apply Z.eqb_eq; unfold len; rewrite Hl; lia). cbn [negb].
  change (negb (bv (vb 4) =? 4)) with false. cbv iota.
  rewrite take_be, drop_be, !be_value_bytes, !Z.mod_small by lia.
  replace (Params_P c <=? x) with false by (symmetry; apply Z.leb_gt; lia).
  replace (Params_P c <=? y) with false by (symmetry; apply Z.leb_gt; lia). cbn [orb]. by rewrite E.
Qed.
End Points.

(** ** An instance

    A toy library with the laws: points are residues with the product of scalars,
    X25519 multiplies numbers, and a KEM sends its secret in the clear. *)
Definition toy_product (k p : gostring) : gostring := be_bytes 32 (be_value k * be_value p).
Definition toy_base : gostring := be_bytes 32 1.

#[export] Instance sample_kexlib : KexLib := {
  IsOnCurve c x y := (0 <=? x) && (x <? Params_P c) && (y =? 1);
  generator c := (1, 1);
  multiply c p k := ((fst p * be_value k) mod Params_P c, 1);
  GenerateKey c rand entropy := (Ok (be_value entropy, (be_value entropy mod Params_P c, 1)), rand);
  Basepoint := toy_base;
  X25519 k p := if (length k =? 32)%nat then Ok (toy_product k p) else Err (go "bad scalar length");
  EncapsulationKey seed := be_bytes EncapsulationKeySize768 (be_value seed);
  NewEncapsulationKey768 k := if (length k =? EncapsulationKeySize768)%nat then None else Some (go "invalid encapsulation key length");
  Encapsulate ek entropy := (be_bytes 32 (be_value entropy), be_bytes CiphertextSize768 (be_value (take 32 entropy)));
  Decapsulate seed ct := Ok (be_bytes 32 (be_value ct)) }.

Lemma Params_P_pos c : 1 < Params_P c.
Proof. by destruct c. Qed.

Lemma toy_product_base k : length k = 32%nat -> toy_product k toy_base = k.
Proof.
  intros Hk. unfold toy_product, toy_base. rewrite be_value_bytes. change (1 mod 256 ^ Z.of_nat 32) with 1.
  rewrite Z.mul_1_r, <- Hk. apply be_bytes_value.
Qed.

#[export] Instance sample_kexlaws : KexLaws.
Proof.
  split; cbn [IsOnCurve generator multiply GenerateKey Basepoint X25519 EncapsulationKey NewEncapsulationKey768 Encapsulate
    Decapsulate sample_kexlib fst snd].
  - intros c x y E. bool_simp. pose proof (Params_P_pos c). subst. split; [lia|]. split; [lia|]. congruence.
  - intros c rand entropy d xy rand' [= <- <- <-]. pose proof (Params_P_pos c).
    pose proof (be_value_range entropy). pose proof (Z.mod_pos_bound (be_value entropy) (Params_P c) ltac:(lia)).
    split; [cbn [fst snd]; rewrite !andb_true_iff, Z.leb_le, Z.ltb_lt; split; [lia|done]|].
    rewrite BigBytes_value by lia. by rewrite Z.mul_1_l.
  - intros c a b. pose proof (Params_P_pos c). rewrite !Z.mul_mod_idemp_l by lia. do 2 f_equal. lia.
  - intros c p k. apply Z.mod_pos_bound. pose proof (Params_P_pos c). lia.
  - intros k p s. destruct (_ =? _)%nat; [|done]. intros E. injection E as <-. apply be_bytes_length.
  - intros k ->. by eexists.
  - intros a b pa pb. destruct (Nat.eqb_spec (length a) 32) as [Ha|]; [|done]. intros Ea.
    destruct (Nat.eqb_spec (length b) 32) as [Hb|]; [|done]. intros Eb.
    rewrite toy_product_base in Ea, Eb by done. injection Ea as <-. injection Eb as <-.
    unfold toy_product. by rewrite Z.mul_comm.
  - intros seed _. apply be_bytes_length.
  - intros seed _. by rewrite be_bytes_length.
  - intros ek entropy. apply be_bytes_length.
Qed.
