(* ===== verification/SshKex.v ===== *)
(** * Key exchange: [third/ssh/kex.go], [mlkem.go] and [signAndMarshal] of [server.go].

    A [Client] or [Server] method reads and writes packets of a connection that it does
    not control, so its model is a [proto]: a tree that writes a packet and goes on with
    the error of the write, or reads one and goes on with the packet or the error, and
    ends with the results of the method.  The tree is inductive: every run of it is
    finite.  [Stuck] is a Go panic or a loop that does not end.  The random source is
    threaded through; [entropy] is what the system's generator gives.

    Proved: two ends that talk to each other derive the same result for every algorithm;
    whatever the peer sends, neither side panics, and what a client returns is the hash
    of exactly the transcript the standards prescribe, over values it has checked; the
    transcripts are injective; [chooseDH] keeps OpenSSH's rule. *)
From Stdlib Require Import Ascii String ZArith Lia.
From stdpp Require Import base gmap strings list.
From S2P Require Import Prelude GoStrings GoIO SshWire SshMessages SshAlgos GoCrypto SshCipher SshAuth SshTransport KexLib.
Local Open Scope Z_scope.

(** ** Groups *)
Definition oakleyGroup2 : Z := 0xFFFFFFFFFFFFFFFFC90FDAA22168C234C4C6628B80DC1CD129024E088A67CC74020BBEA63B139B22514A08798E3404DDEF9519B3CD3A431B302B0A6DF25F14374FE1356D6D51C245E485B576625E7EC6F44C42E9A637ED6B0BFF5CB6F406B7EDEE386BFB5A899FA5AE9F24117C4B1FE649286651ECE65381FFFFFFFFFFFFFFFF.
Definition oakleyGroup14 : Z := 0xFFFFFFFFFFFFFFFFC90FDAA22168C234C4C6628B80DC1CD129024E088A67CC74020BBEA63B139B22514A08798E3404DDEF9519B3CD3A431B302B0A6DF25F14374FE1356D6D51C245E485B576625E7EC6F44C42E9A637ED6B0BFF5CB6F406B7EDEE386BFB5A899FA5AE9F24117C4B1FE649286651ECE45B3DC2007CB8A163BF0598DA48361C55D39A69163FA8FD24CF5F83655D23DCA3AD961C62F356208552BB9ED529077096966D670C354E4ABC9804F1746C08CA18217C32905E462E36CE3BE39E772C180E86039B2783A2EC07A28FB5C55DF06F4C52C9DE2BCBF6955817183995497CEA956AE515D2261898FA051015728E5A8AACAA68FFFFFFFFFFFFFFFF.
Definition oakleyGroup15 : Z := 0xFFFFFFFFFFFFFFFFC90FDAA22168C234C4C6628B80DC1CD129024E088A67CC74020BBEA63B139B22514A08798E3404DDEF9519B3CD3A431B302B0A6DF25F14374FE1356D6D51C245E485B576625E7EC6F44C42E9A637ED6B0BFF5CB6F406B7EDEE386BFB5A899FA5AE9F24117C4B1FE649286651ECE45B3DC2007CB8A163BF0598DA48361C55D39A69163FA8FD24CF5F83655D23DCA3AD961C62F356208552BB9ED529077096966D670C354E4ABC9804F1746C08CA18217C32905E462E36CE3BE39E772C180E86039B2783A2EC07A28FB5C55DF06F4C52C9DE2BCBF6955817183995497CEA956AE515D2261898FA051015728E5A8AAAC42DAD33170D04507A33A85521ABDF1CBA64ECFB850458DBEF0A8AEA71575D060C7DB3970F85A6E1E4C7ABF5AE8CDB0933D71E8C94E04A25619DCEE3D2261AD2EE6BF12FFA06D98A0864D87602733EC86A64521F2B18177B200CBBE117577A615D6C770988C0BAD946E208E24FA074E5AB3143DB5BFCE0FD108E4B82D120A93AD2CAFFFFFFFFFFFFFFFF.
Definition oakleyGroup16 : Z := 0xFFFFFFFFFFFFFFFFC90FDAA22168C234C4C6628B80DC1CD129024E088A67CC74020BBEA63B139B22514A08798E3404DDEF9519B3CD3A431B302B0A6DF25F14374FE1356D6D51C245E485B576625E7EC6F44C42E9A637ED6B0BFF5CB6F406B7EDEE386BFB5A899FA5AE9F24117C4B1FE649286651ECE45B3DC2007CB8A163BF0598DA48361C55D39A69163FA8FD24CF5F83655D23DCA3AD961C62F356208552BB9ED529077096966D670C354E4ABC9804F1746C08CA18217C32905E462E36CE3BE39E772C180E86039B2783A2EC07A28FB5C55DF06F4C52C9DE2BCBF6955817183995497CEA956AE515D2261898FA051015728E5A8AAAC42DAD33170D04507A33A85521ABDF1CBA64ECFB850458DBEF0A8AEA71575D060C7DB3970F85A6E1E4C7ABF5AE8CDB0933D71E8C94E04A25619DCEE3D2261AD2EE6BF12FFA06D98A0864D87602733EC86A64521F2B18177B200CBBE117577A615D6C770988C0BAD946E208E24FA074E5AB3143DB5BFCE0FD108E4B82D120A92108011A723C12A787E6D788719A10BDBA5B2699C327186AF4E23C1A946834B6150BDA2583E9CA2AD44CE8DBBBC2DB04DE8EF92E8EFC141FBECAA6287C59474E6BC05D99B2964FA090C3A2233BA186515BE7ED1F612970CEE2D7AFB81BDD762170481CD0069127D5B05AA993B4EA988D8FDDC186FFB7DC90A6C08F4DF435C934063199FFFFFFFFFFFFFFFF.
Definition fakesshOakleyGroup18 : Z := 0xFFFFFFFFFFFFFFFFC90FDAA22168C234C4C6628B80DC1CD129024E088A67CC74020BBEA63B139B22514A08798E3404DDEF9519B3CD3A431B302B0A6DF25F14374FE1356D6D51C245E485B576625E7EC6F44C42E9A637ED6B0BFF5CB6F406B7EDEE386BFB5A899FA5AE9F24117C4B1FE649286651ECE45B3DC2007CB8A163BF0598DA48361C55D39A69163FA8FD24CF5F83655D23DCA3AD961C62F356208552BB9ED529077096966D670C354E4ABC9804F1746C08CA18217C32905E462E36CE3BE39E772C180E86039B2783A2EC07A28FB5C55DF06F4C52C9DE2BCBF6955817183995497CEA956AE515D2261898FA051015728E5A8AAAC42DAD33170D04507A33A85521ABDF1CBA64ECFB850458DBEF0A8AEA71575D060C7DB3970F85A6E1E4C7ABF5AE8CDB0933D71E8C94E04A25619DCEE3D2261AD2EE6BF12FFA06D98A0864D87602733EC86A64521F2B18177B200CBBE117577A615D6C770988C0BAD946E208E24FA074E5AB3143DB5BFCE0FD108E4B82D120A92108011A723C12A787E6D788719A10BDBA5B2699C327186AF4E23C1A946834B6150BDA2583E9CA2AD44CE8DBBBC2DB04DE8EF92E8EFC141FBECAA6287C59474E6BC05D99B2964FA090C3A2233BA186515BE7ED1F612970CEE2D7AFB81BDD762170481CD0069127D5B05AA993B4EA988D8FDDC186FFB7DC90A6C08F4DF435C93402849236C3FAB4D27C7026C1D4DCB2602646DEC9751E763DBA37BDF8FF9406AD9E530EE5DB382F413001AEB06A53ED9027D831179727B0865A8918DA3EDBEBCF9B14ED44CE6CBACED4BB1BDB7F1447E6CC254B332051512BD7AF426FB8F401378CD2BF5983CA01C64B92ECF032EA15D1721D03F482D7CE6E74FEF6D55E702F46980C82B5A84031900B1C9E59E7C97FBEC7E8F323A97A7E36CC88BE0F1D45B7FF585AC54BD407B22B4154AACC8F6D7EBF48E1D814CC5ED20F8037E0A79715EEF29BE32806A1D58BB7C5DA76F550AA3D8A1FBFF0EB19CCB1A313D55CDA56C9EC2EF29632387FE8D76E3C0468043E8F663F4860EE12BF2D5B0B7474D6E694F91E6DBE115974A3926F12FEE5E438777CB6A932DF8CD8BEC4D073B931BA3BC832B68D9DD300741FA7BF8AFC47ED2576F6936BA424663AAB639C5AE4F5683423B4742BF1C978238F16CBE39D652DE3FDB8BEFC848AD922222E04A4037C0713EB57A81A23F0C73473FC646CEA306B4BCBC8862F8385DDFA9D4B7FA2C087E879683303ED5BDD3A062B3CF5B3A278A66D2A13F83F44F82DDF310EE074AB6A364597E899A0255DC164F31CC50846851DF9AB48195DED7EA1B1D510BD7EE74D73FAF36BC31ECFA268359046F4EB879F924009438B481C6CD7889A002ED5EE382BC9190DA6FC026E479558E4475677E9AA9E3050E2765694DFC81F56E880B96E7160C980DD98EDD3DFFFFFFFFFFFFFFFFF.

Record dhGroup := mkDHGroup { dh_g : Z; dh_p : Z; dh_pMinus1 : Z; dh_hashFunc : Hash }.
Definition newDHGroup (p : Z) (h : Hash) : dhGroup := mkDHGroup 2 p (p - 1) h.

(** ** Protocol trees *)

(** The calls of a [keyingTransport] besides reading and writing packets. *)
Inductive keyingCall :=
| callSetStrictMode
| callPrepareKeyChange (algs : NegotiatedAlgorithms) (kex : kexResult)
| callSetInitialKEXDone.

Inductive proto (A : Type) : Type :=
| Done (r : result packet_error A)
| Send (p : gostring) (k : option packet_error -> proto A)
| Recv (k : result packet_error gostring -> proto A)
| Call (c : keyingCall) (k : option packet_error -> proto A)
| Stuck.
Arguments Done {A}. Arguments Send {A}. Arguments Recv {A}. Arguments Call {A}. Arguments Stuck {A}.

#[export] Instance proto_ret : MRet proto := fun A a => Done (Ok a).
(** [if err != nil { return nil, err }] after each call. *)
#[export] Instance proto_bind : MBind proto := fun A B f =>
  fix bind (m : proto A) : proto B :=
    match m with
    | Done (Ok a) => f a
    | Done (Err e) => Done (Err e)
    | Send p k => Send p (fun o => bind (k o))
    | Recv k => Recv (fun r => bind (k r))
    | Call c k => Call c (fun o => bind (k o))
    | Stuck => Stuck
    end.

Definition kex_fail {A} (msg : gostring) : proto A := Done (Err (newError msg)).
Definition kex_readPacket : proto gostring := Recv Done.
Definition kex_writePacket (p : gostring) : proto unit :=
  Send p (fun o => Done (match o with None => Ok tt | Some e => Err e end)).
(** A write whose error is returned beside the result. *)
Definition last_writePacket (p : gostring) : proto (option packet_error) := Send p (fun o => Done (Ok o)).

(** An error of [Unmarshal], and the outcomes of calls that may panic. *)
Definition lift_res {A} (r : res A) : proto A :=
  match r with Ok a => Done (Ok a) | Err e => Done (Err (newError (err_msg e))) end.
Definition lift_option {A} (o : option A) : proto A := match o with Some a => Done (Ok a) | None => Stuck end.
Definition lift_io {A} (o : option (result ioerr A * Source)) : proto (A * Source) :=
  match o with
  | None => Stuck
  | Some (Ok a, rand) => Done (Ok (a, rand))
  | Some (Err e, _) => Done (Err (ioError e))
  end.
Definition lift_lib {A} (prefix : gostring) (r : result gostring A) : proto A :=
  match r with Ok a => Done (Ok a) | Err e => kex_fail (prefix ++ e) end.

(** ** The exchange hash *)
Record handshakeMagics := mkMagics {
  hm_clientVersion : gostring; hm_serverVersion : gostring;
  hm_clientKexInit : gostring; hm_serverKexInit : gostring }.
Definition writeString (s : gostring) : gostring := be_bytes 4 (len s) ++ s.
Definition writeInt (n : Z) : gostring := append_big_int n.
Definition magics_write (m : handshakeMagics) : gostring :=
  writeString (hm_clientVersion m) ++ writeString (hm_serverVersion m) ++
  writeString (hm_clientKexInit m) ++ writeString (hm_serverKexInit m).

(** [Signature] as [Marshal] sees it: a struct without a message number. *)
#[export] Instance Signature_message : Message Signature := {
  msg_struct := MkStruct (go "Signature") [] [(go "Format", KString); (go "Blob", KBytes); (go "Rest", KRest)];
  to_fields m := (sig_Format m, (sig_Blob m, (sig_Rest m, tt)));
  of_fields vs := let '(v0, (v1, (v2, _))) := vs in MkSignature v0 v1 v2 }.
#[export] Instance Signature_laws : MessageLaws Signature.
Proof. message_laws. Qed.

(** A host key: what it marshals to, and [SignWithAlgorithm], which may draw from [rand]. *)
Record AlgorithmSigner := mkSigner {
  PublicKey_Marshal : gostring;
  SignWithAlgorithm : Source -> gostring -> gostring -> result packet_error Signature * Source }.

Section Kex.
Context `{CryptoLib, KexLib, UnicodeTables}.

Definition signAndMarshal (k : AlgorithmSigner) (rand : Source) (data algo : gostring) : proto (gostring * Source) :=
  match SignWithAlgorithm k rand data (underlyingAlgo algo) with
  | (Ok sig, rand) => Done (Ok (MarshalMsg sig, rand))
  | (Err e, _) => Done (Err e)
  end.

(** What a method returns: the result, the error beside it, the random source afterwards. *)
Definition kexReturn : Type := kexResult * option packet_error * Source.
Definition result_of (h : Hash) (H K hostKey sig : gostring) : kexResult := mkKexResult H K hostKey sig h [].

(** ** Finite-field groups *)
Definition diffieHellman (group : dhGroup) (theirPublic myPrivate : Z) : proto Z :=
  if (theirPublic <=? 1) || (dh_pMinus1 group <=? theirPublic) then kex_fail (go "ssh: DH parameter out of bounds")
  else Done (Ok (Exp theirPublic myPrivate (dh_p group))).

(** The loop that draws a private number until it is positive. *)
Fixpoint draw_private (fuel : nat) (rand : Source) (max : Z) : option (result ioerr Z * Source) :=
  match fuel with
  | O => None
  | S fuel =>
      match rand_Int rand max with
      | Some (Ok x, rand) => if 0 <? x then Some (Ok x, rand) else draw_private fuel rand max
      | other => other
      end
  end.
Definition private_number (rand : Source) (max : Z) : option (result ioerr Z * Source) :=
  draw_private (S (length (avail rand))) rand max.

(** The bytes hashed by an exchange over numbers. *)
Definition dh_transcript (magics : handshakeMagics) (hostKey : gostring) (X Y : Z) (K : gostring) : gostring :=
  magics_write magics ++ writeString hostKey ++ writeInt X ++ writeInt Y ++ K.

Definition dhGroup_Client (group : dhGroup) (rand : Source) (magics : handshakeMagics) : proto kexReturn :=
  '(x, rand) ← lift_io (private_number rand (dh_pMinus1 group));
  let X := Exp (dh_g group) x (dh_p group) in
  kex_writePacket (MarshalMsg (Mk_kexDHInitMsg X));;
  packet ← kex_readPacket;
  kexDHReply ← lift_res (UnmarshalMsg kexDHReplyMsg packet);
  ki ← diffieHellman group (kexDHReply_Y kexDHReply) x;
  let K := writeInt ki in
  let H := digest (dh_hashFunc group) (dh_transcript magics (kexDHReply_HostKey kexDHReply) X (kexDHReply_Y kexDHReply) K) in
  mret (result_of (dh_hashFunc group) H K (kexDHReply_HostKey kexDHReply) (kexDHReply_Signature kexDHReply), None, rand).

Definition dhGroup_Server (group : dhGroup) (rand : Source) (magics : handshakeMagics) (priv : AlgorithmSigner)
    (algo : gostring) : proto kexReturn :=
  packet ← kex_readPacket;
  kexDHInit ← lift_res (UnmarshalMsg kexDHInitMsg packet);
  '(y, rand) ← lift_io (private_number rand (dh_pMinus1 group));
  let Y := Exp (dh_g group) y (dh_p group) in
  ki ← diffieHellman group (kexDHInit_X kexDHInit) y;
  let hostKeyBytes := PublicKey_Marshal priv in
  let K := writeInt ki in
  let H := digest (dh_hashFunc group) (dh_transcript magics hostKeyBytes (kexDHInit_X kexDHInit) Y K) in
  '(sig, rand) ← signAndMarshal priv rand H algo;
  err ← last_writePacket (MarshalMsg (Mk_kexDHReplyMsg hostKeyBytes Y sig));
  mret (result_of (dh_hashFunc group) H K hostKeyBytes sig, err, rand).

(** ** Elliptic curves *)
Definition validateECPublicKey (curve : Curve) (x y : Z) : bool :=
  if (x =? 0) && (y =? 0) then false
  else if Params_P curve <=? x then false
  else if Params_P curve <=? y then false
  else if negb (IsOnCurve curve x y) then false
  else true.

Definition unmarshalECKey (curve : Curve) (pubkey : gostring) : proto (Z * Z) :=
  match elliptic_Unmarshal curve pubkey with
  | None => kex_fail (go "ssh: elliptic.Unmarshal failure")
  | Some (x, y) =>
      if negb (validateECPublicKey curve x y) then kex_fail (go "ssh: public key not on curve")
      else Done (Ok (x, y))
  end.

Definition ecHash (curve : Curve) : Hash :=
  let bitSize := Params_BitSize curve in
  if bitSize <=? 256 then SHA256 else if bitSize <=? 384 then SHA384 else SHA512.

Definition ecdsa_GenerateKey (curve : Curve) (rand : Source) (entropy : gostring) : proto (Z * (Z * Z) * Source) :=
  match GenerateKey curve rand entropy with
  | (Ok key, rand) => Done (Ok (key, rand))
  | (Err e, _) => kex_fail e
  end.

(** The bytes hashed by an exchange over strings. *)
Definition ec_transcript (magics : handshakeMagics) (hostKey clientKey serverKey K : gostring) : gostring :=
  magics_write magics ++ writeString hostKey ++ writeString clientKey ++ writeString serverKey ++ K.

Definition ecdh_Client (curve : Curve) (rand : Source) (entropy : gostring) (magics : handshakeMagics) : proto kexReturn :=
  '(d, (X, Y), rand) ← ecdsa_GenerateKey curve rand entropy;
  clientPubKey ← lift_option (elliptic_Marshal curve X Y);
  kex_writePacket (MarshalMsg (Mk_kexECDHInitMsg clientPubKey));;
  packet ← kex_readPacket;
  reply ← lift_res (UnmarshalMsg kexECDHReplyMsg packet);
  '(x, y) ← unmarshalECKey curve (kexECDHReply_EphemeralPubKey reply);
  '(secret, _) ← lift_option (ScalarMult curve x y (BigBytes d));
  let K := writeInt secret in
  let H := digest (ecHash curve)
             (ec_transcript magics (kexECDHReply_HostKey reply) clientPubKey (kexECDHReply_EphemeralPubKey reply) K) in
  mret (result_of (ecHash curve) H K (kexECDHReply_HostKey reply) (kexECDHReply_Signature reply), None, rand).

Definition ecdh_Server (curve : Curve) (rand : Source) (entropy : gostring) (magics : handshakeMagics)
    (priv : AlgorithmSigner) (algo : gostring) : proto kexReturn :=
  packet ← kex_readPacket;
  kexECDHInit ← lift_res (UnmarshalMsg kexECDHInitMsg packet);
  '(clientX, clientY) ← unmarshalECKey curve (kexECDHInit_ClientPubKey kexECDHInit);
  '(d, (X, Y), rand) ← ecdsa_GenerateKey curve rand entropy;
  let hostKeyBytes := PublicKey_Marshal priv in
  serializedEphKey ← lift_option (elliptic_Marshal curve X Y);
  '(secret, _) ← lift_option (ScalarMult curve clientX clientY (BigBytes d));
  let K := writeInt secret in
  let H := digest (ecHash curve)
             (ec_transcript magics hostKeyBytes (kexECDHInit_ClientPubKey kexECDHInit) serializedEphKey K) in
  '(sig, rand) ← signAndMarshal priv rand H algo;
  kex_writePacket (MarshalMsg (Mk_kexECDHReplyMsg hostKeyBytes serializedEphKey sig));;
  mret (result_of (ecHash curve) H K hostKeyBytes sig, None, rand).

(** ** Curve25519 *)
Record curve25519KeyPair := mkKeyPair { kp_priv : gostring; kp_pub : gostring }.

Definition keyPair_generate (rand : Source) : proto (curve25519KeyPair * Source) :=
  '(priv, rand) ← lift_io (Some (read_full rand 32));
  p ← lift_lib (go "curve25519: ") (X25519 priv Basepoint);
  if negb (length p =? 32)%nat
  then kex_fail (go "curve25519: internal error: X25519 returned " ++ Itoa (len p) ++ go " bytes, expected 32")
  else Done (Ok (mkKeyPair priv p, rand)).

Definition curve25519_Client (rand : Source) (magics : handshakeMagics) : proto kexReturn :=
  '(kp, rand) ← keyPair_generate rand;
  kex_writePacket (MarshalMsg (Mk_kexECDHInitMsg (kp_pub kp)));;
  packet ← kex_readPacket;
  reply ← lift_res (UnmarshalMsg kexECDHReplyMsg packet);
  if negb (length (kexECDHReply_EphemeralPubKey reply) =? 32)%nat
  then kex_fail (go "ssh: peer's curve25519 public value has wrong length")
  else
  secret ← lift_lib (go "ssh: peer's curve25519 public value is not valid: ")
             (X25519 (kp_priv kp) (kexECDHReply_EphemeralPubKey reply));
  let K := writeInt (be_value secret) in
  let H := digest SHA256
             (ec_transcript magics (kexECDHReply_HostKey reply) (kp_pub kp) (kexECDHReply_EphemeralPubKey reply) K) in
  mret (result_of SHA256 H K (kexECDHReply_HostKey reply) (kexECDHReply_Signature reply), None, rand).

Definition curve25519_Server (rand : Source) (magics : handshakeMagics) (priv : AlgorithmSigner) (algo : gostring)
    : proto kexReturn :=
  packet ← kex_readPacket;
  kexInit ← lift_res (UnmarshalMsg kexECDHInitMsg packet);
  if negb (length (kexECDHInit_ClientPubKey kexInit) =? 32)%nat
  then kex_fail (go "ssh: peer's curve25519 public value has wrong length")
  else
  '(kp, rand) ← keyPair_generate rand;
  secret ← lift_lib (go "ssh: peer's curve25519 public value is not valid: ")
             (X25519 (kp_priv kp) (kexECDHInit_ClientPubKey kexInit));
  let hostKeyBytes := PublicKey_Marshal priv in
  let K := writeInt (be_value secret) in
  let H := digest SHA256 (ec_transcript magics hostKeyBytes (kexECDHInit_ClientPubKey kexInit) (kp_pub kp) K) in
  '(sig, rand) ← signAndMarshal priv rand H algo;
  kex_writePacket (MarshalMsg (Mk_kexECDHReplyMsg hostKeyBytes (kp_pub kp) sig));;
  mret (result_of SHA256 H K hostKeyBytes sig, None, rand).

(** ** Group exchange *)
Definition dhGroupExchangeMinimumBits : Z := 2048.
Definition dhGroupExchangePreferredBits : Z := 2048.
Definition dhGroupExchangeMaximumBits : Z := 8192.

Record dhKEXGroup := mkKEXGroup { kg_size : Z; kg_p : Z }.
Definition supportedDHKEXGroups : list dhKEXGroup :=
  [mkKEXGroup 2048 oakleyGroup14; mkKEXGroup 3072 oakleyGroup15; mkKEXGroup 4096 oakleyGroup16].

(** The loop of [chooseDH]: the best group so far, none while [bestSize] is zero. *)
Definition choose_step (req : kexDHGexRequestMsg) (best : option dhKEXGroup) (group : dhKEXGroup) : option dhKEXGroup :=
  if (kg_size group <? kexDHGexRequest_MinBits req) || (kexDHGexRequest_MaxBits req <? kg_size group) then best
  else
    match best with
    | None => Some group
    | Some b =>
        let wantBits := kexDHGexRequest_PreferredBits req in
        let closerFromAbove := (wantBits <=? kg_size group) && (kg_size group <? kg_size b) in
        let closerFromBelow := (kg_size b <? kg_size group) && (kg_size b <? wantBits) in
        if closerFromAbove || closerFromBelow then Some group else best
    end.
Definition chooseDH (req : kexDHGexRequestMsg) : proto Z :=
  match fold_left (choose_step req) supportedDHKEXGroups None with
  | None => kex_fail (go "ssh: no suitable DH group found for request min: " ++ Itoa (kexDHGexRequest_MinBits req)
                      ++ go ", preferred: " ++ Itoa (kexDHGexRequest_PreferredBits req)
                      ++ go ", max: " ++ Itoa (kexDHGexRequest_MaxBits req))
  | Some g => Done (Ok (kg_p g))
  end.

(** The bytes hashed by a group exchange. *)
Definition gex_transcript (magics : handshakeMagics) (hostKey : gostring) (req : kexDHGexRequestMsg) (p g X Y : Z)
    (K : gostring) : gostring :=
  magics_write magics ++ writeString hostKey ++ be_bytes 4 (kexDHGexRequest_MinBits req) ++
  be_bytes 4 (kexDHGexRequest_PreferredBits req) ++ be_bytes 4 (kexDHGexRequest_MaxBits req) ++
  writeInt p ++ writeInt g ++ writeInt X ++ writeInt Y ++ K.

Definition gexRequest : kexDHGexRequestMsg :=
  Mk_kexDHGexRequestMsg dhGroupExchangeMinimumBits dhGroupExchangePreferredBits dhGroupExchangeMaximumBits.

Definition dhGEXSHA_Client (hashFunc : Hash) (rand : Source) (magics : handshakeMagics) : proto kexReturn :=
  kex_writePacket (MarshalMsg gexRequest);;
  packet ← kex_readPacket;
  msg ← lift_res (UnmarshalMsg kexDHGexGroupMsg packet);
  let p := kexDHGexGroup_P msg in
  let g := kexDHGexGroup_G msg in
  if (BitLen p <? dhGroupExchangeMinimumBits) || (dhGroupExchangeMaximumBits <? BitLen p)
  then kex_fail (go "ssh: server-generated gex p is out of range (" ++ Itoa (BitLen p) ++ go " bits)")
  else
  let pMinusOne := p - 1 in
  if (g <=? 1) || (pMinusOne <=? g) then kex_fail (go "ssh: server provided gex g is not safe")
  else
  let pHalf := Z.shiftr p 1 in
  '(x, rand) ← lift_io (rand_Int rand pHalf);
  let X := Exp g x p in
  kex_writePacket (MarshalMsg (Mk_kexDHGexInitMsg X));;
  packet ← kex_readPacket;
  kexDHGexReply ← lift_res (UnmarshalMsg kexDHGexReplyMsg packet);
  let Y := kexDHGexReply_Y kexDHGexReply in
  if (Y <=? 1) || (pMinusOne <=? Y) then kex_fail (go "ssh: DH parameter out of bounds")
  else
  let kInt := Exp Y x p in
  if (kInt <=? 1) || (pMinusOne <=? kInt) then kex_fail (go "ssh: derived k is not safe")
  else
  let K := writeInt kInt in
  let H := digest hashFunc (gex_transcript magics (kexDHGexReply_HostKey kexDHGexReply) gexRequest p g X Y K) in
  mret (result_of hashFunc H K (kexDHGexReply_HostKey kexDHGexReply) (kexDHGexReply_Signature kexDHGexReply), None, rand).

Definition gex_out_of_range (r : kexDHGexRequestMsg) : bool :=
  (kexDHGexRequest_MaxBits r <? kexDHGexRequest_MinBits r) ||
  (kexDHGexRequest_PreferredBits r <? kexDHGexRequest_MinBits r) ||
  (kexDHGexRequest_MaxBits r <? kexDHGexRequest_PreferredBits r) ||
  (kexDHGexRequest_MaxBits r <? dhGroupExchangeMinimumBits) || (4096 <? kexDHGexRequest_MinBits r).

Definition dhGEXSHA_Server (hashFunc : Hash) (rand : Source) (magics : handshakeMagics) (priv : AlgorithmSigner)
    (algo : gostring) : proto kexReturn :=
  packet ← kex_readPacket;
  req ← lift_res (UnmarshalMsg kexDHGexRequestMsg packet);
  if gex_out_of_range req
  then kex_fail (go "ssh: DH GEX request out of range, min: " ++ Itoa (kexDHGexRequest_MinBits req)
                 ++ go ", max: " ++ Itoa (kexDHGexRequest_MaxBits req)
                 ++ go ", preferred: " ++ Itoa (kexDHGexRequest_PreferredBits req))
  else
  p ← chooseDH req;
  let g := 2 in
  kex_writePacket (MarshalMsg (Mk_kexDHGexGroupMsg p g));;
  packet ← kex_readPacket;
  kexDHGexInit ← lift_res (UnmarshalMsg kexDHGexInitMsg packet);
  let X := kexDHGexInit_X kexDHGexInit in
  let pHalf := Z.shiftr p 1 in
  '(y, rand) ← lift_io (rand_Int rand pHalf);
  let Y := Exp g y p in
  let pMinusOne := p - 1 in
  if (X <=? 1) || (pMinusOne <=? X) then kex_fail (go "ssh: DH parameter out of bounds")
  else
  let kInt := Exp X y p in
  let hostKeyBytes := PublicKey_Marshal priv in
  let K := writeInt kInt in
  let H := digest hashFunc (gex_transcript magics hostKeyBytes req p g X Y K) in
  '(sig, rand) ← signAndMarshal priv rand H algo;
  err ← last_writePacket (MarshalMsg (Mk_kexDHGexReplyMsg hostKeyBytes Y sig));
  mret (result_of hashFunc H K hostKeyBytes sig, err, rand).

(** ** ML-KEM with Curve25519 *)
Definition mlkem_Client (rand : Source) (magics : handshakeMagics) : proto kexReturn :=
  '(c25519kp, rand) ← keyPair_generate rand;
  '(seed, rand) ← lift_io (Some (read_full rand mlkem_SeedSize));
  let hybridKey := EncapsulationKey seed ++ kp_pub c25519kp in
  kex_writePacket (MarshalMsg (Mk_kexECDHInitMsg hybridKey));;
  packet ← kex_readPacket;
  reply ← lift_res (UnmarshalMsg kexECDHReplyMsg packet);
  let theirs := kexECDHReply_EphemeralPubKey reply in
  if negb (length theirs =? CiphertextSize768 + 32)%nat
  then kex_fail (go "ssh: peer's mlkem768x25519 public value has wrong length")
  else
  mlkem768Secret ← lift_lib [] (Decapsulate seed (take CiphertextSize768 theirs));
  c25519Secret ← lift_lib (go "ssh: peer's mlkem768x25519 public value is not valid: ")
                   (X25519 (kp_priv c25519kp) (drop CiphertextSize768 theirs));
  let secret := digest SHA256 (mlkem768Secret ++ c25519Secret) in
  let K := writeString secret in
  let H := digest SHA256 (ec_transcript magics (kexECDHReply_HostKey reply) hybridKey theirs K) in
  mret (result_of SHA256 H K (kexECDHReply_HostKey reply) (kexECDHReply_Signature reply), None, rand).

Definition mlkem_Server (rand : Source) (entropy : gostring) (magics : handshakeMagics) (priv : AlgorithmSigner)
    (algo : gostring) : proto kexReturn :=
  packet ← kex_readPacket;
  kexInit ← lift_res (UnmarshalMsg kexECDHInitMsg packet);
  let theirs := kexECDHInit_ClientPubKey kexInit in
  if negb (length theirs =? EncapsulationKeySize768 + 32)%nat
  then kex_fail (go "ssh: peer's ML-KEM768/curve25519 public value has wrong length")
  else
  let encapsulationKey := take EncapsulationKeySize768 theirs in
  match NewEncapsulationKey768 encapsulationKey with
  | Some e => kex_fail (go "ssh: peer's ML-KEM768 encapsulation key is not valid: " ++ e)
  | None =>
      let '(mlkem768Secret, mlkem768Ciphertext) := Encapsulate encapsulationKey entropy in
      '(c25519kp, rand) ← keyPair_generate rand;
      c25519Secret ← lift_lib (go "ssh: peer's ML-KEM768/curve25519 public value is not valid: ")
                       (X25519 (kp_priv c25519kp) (drop EncapsulationKeySize768 theirs));
      let hybridKey := mlkem768Ciphertext ++ kp_pub c25519kp in
      let secret := digest SHA256 (mlkem768Secret ++ c25519Secret) in
      let hostKeyBytes := PublicKey_Marshal priv in
      let K := writeString secret in
      let H := digest SHA256 (ec_transcript magics hostKeyBytes theirs hybridKey K) in
      '(sig, rand) ← signAndMarshal priv rand H algo;
      kex_writePacket (MarshalMsg (Mk_kexECDHReplyMsg hostKeyBytes hybridKey sig));;
      mret (result_of SHA256 H K hostKeyBytes sig, None, rand)
  end.

(** ** The algorithms by name *)
Inductive kexAlgorithm :=
| dhGroupKex (group : dhGroup)
| ecdhKex (curve : Curve)
| curve25519sha256
| dhGEXSHA (hashFunc : Hash)
| mlkem768WithCurve25519sha256.

Definition kex_algorithms : list (gostring * kexAlgorithm) :=
  [(KeyExchangeMLKEM768X25519, mlkem768WithCurve25519sha256);
   (KeyExchangeECDHP521, ecdhKex P521); (KeyExchangeECDHP384, ecdhKex P384); (KeyExchangeECDHP256, ecdhKex P256);
   (InsecureKeyExchangeDH1SHA1, dhGroupKex (newDHGroup oakleyGroup2 SHA1));
   (InsecureKeyExchangeDH14SHA1, dhGroupKex (newDHGroup oakleyGroup14 SHA1));
   (KeyExchangeDH14SHA256, dhGroupKex (newDHGroup oakleyGroup14 SHA256));
   (KeyExchangeDH16SHA512, dhGroupKex (newDHGroup oakleyGroup16 SHA512));
   (KeyExchangeCurve25519, curve25519sha256); (keyExchangeCurve25519LibSSH, curve25519sha256);
   (InsecureKeyExchangeDHGEXSHA1, dhGEXSHA SHA1); (KeyExchangeDHGEXSHA256, dhGEXSHA SHA256);
   (KeyExchangeDH18SHA512, dhGroupKex (newDHGroup fakesshOakleyGroup18 SHA512))].
Definition kexAlgo_of (name : gostring) : option kexAlgorithm :=
  snd <$> find (fun e => fst e =s name) kex_algorithms.

Definition kex_Client (a : kexAlgorithm) (rand : Source) (entropy : gostring) (magics : handshakeMagics) : proto kexReturn :=
  match a with
  | dhGroupKex group => dhGroup_Client group rand magics
  | ecdhKex curve => ecdh_Client curve rand entropy magics
  | curve25519sha256 => curve25519_Client rand magics
  | dhGEXSHA h => dhGEXSHA_Client h rand magics
  | mlkem768WithCurve25519sha256 => mlkem_Client rand magics
  end.
Definition kex_Server (a : kexAlgorithm) (rand : Source) (entropy : gostring) (magics : handshakeMagics)
    (priv : AlgorithmSigner) (algo : gostring) : proto kexReturn :=
  match a with
  | dhGroupKex group => dhGroup_Server group rand magics priv algo
  | ecdhKex curve => ecdh_Server curve rand entropy magics priv algo
  | curve25519sha256 => curve25519_Server rand magics priv algo
  | dhGEXSHA h => dhGEXSHA_Server h rand magics priv algo
  | mlkem768WithCurve25519sha256 => mlkem_Server rand entropy magics priv algo
  end.

(** ** Runs *)

(** What reading may give: an error, or a packet that is not empty, which the transport
    never delivers. *)
Definition readable (r : result packet_error gostring) : Prop := match r with Ok p => p <> [] | Err _ => True end.
(** The messages of a key exchange method. *)
Definition kex_packet (p : gostring) : Prop := match p with b :: _ => 30 <= bv b <= 49 | [] => False end.

(** The outcomes of a method, whatever packets and errors the connection gives. *)
Inductive outcome {A} : proto A -> result packet_error A -> Prop :=
| outcome_done r : outcome (Done r) r
| outcome_send p k o r : outcome (k o) r -> outcome (Send p k) r
| outcome_recv k x r : readable x -> outcome (k x) r -> outcome (Recv k) r
| outcome_call c k o r : outcome (k o) r -> outcome (Call c k) r.

(** [always m Q]: no run of [m] is stuck or sends anything but messages of a key exchange,
    and [Q] holds of every outcome. *)
Fixpoint always {A} (m : proto A) (Q : result packet_error A -> Prop) : Prop :=
  match m with
  | Done r => Q r
  | Send p k => kex_packet p /\ forall o, always (k o) Q
  | Recv k => forall r, readable r -> always (k r) Q
  | Call _ _ | Stuck => False
  end.

(** Two methods connected by a reliable connection; the queues hold the packets under
    way.  [None] when both wait, or when packets are left over. *)
Fixpoint talk {A B} (fuel : nat) (c : proto A) (s : proto B) (toServer toClient : list gostring)
    : option (result packet_error A * result packet_error B) :=
  match fuel with
  | O => None
  | S fuel =>
      match c, s with
      | Stuck, _ | _, Stuck | Call _ _, _ | _, Call _ _ => None
      | Done rc, Done rs => match toServer, toClient with [], [] => Some (rc, rs) | _, _ => None end
      | Send p k, _ => talk fuel (k None) s (toServer ++ [p]) toClient
      | _, Send p k => talk fuel c (k None) toServer (toClient ++ [p])
      | Recv kc, _ =>
          match toClient, s, toServer with
          | p :: q, _, _ => talk fuel (kc (Ok p)) s toServer q
          | [], Recv ks, p :: q => talk fuel c (ks (Ok p)) q toClient
          | _, _, _ => None
          end
      | Done _, Recv ks =>
          match toServer with p :: q => talk fuel c (ks (Ok p)) q toClient | [] => None end
      end
  end.

(** An exchange sends at most four packets, each with one step to write and one to read. *)
Definition exchange (a : kexAlgorithm) (crand srand : Source) (centropy sentropy : gostring) (magics : handshakeMagics)
    (priv : AlgorithmSigner) (algo : gostring) : option (result packet_error kexReturn * result packet_error kexReturn) :=
  talk 9 (kex_Client a crand centropy magics) (kex_Server a srand sentropy magics priv algo) [] [].

(** A run in which writes succeed and reads return the given packets. *)
Fixpoint feed {A} (m : proto A) (packets : list gostring) : option (result packet_error A) :=
  match m with
  | Done r => Some r
  | Send _ k => feed (k None) packets
  | Recv k => match packets with p :: ps => if len p =? 0 then None else feed (k (Ok p)) ps | [] => None end
  | Call _ k => feed (k None) packets
  | Stuck => None
  end.
Lemma feed_outcome {A} (m : proto A) packets r : feed m packets = Some r -> outcome m r.
Proof.
  revert packets. induction m as [r'|p k IH|k IH|c k IH|]; intros packets; cbn [feed]; [|eauto using outcome..|done].
  - intros [= ->]. constructor.
  - destruct packets as [|p ps]; [done|]. destruct (len p =? 0) eqn:E; [done|]. intros Hr.
    apply (outcome_recv _ (Ok p)); [by intros ->|eauto].
Qed.

Lemma always_outcome {A} (m : proto A) Q r : always m Q -> outcome m r -> Q r.
Proof. intros Hm Ho. induction Ho; cbn in Hm; [done|apply IHHo, Hm|eauto|done]. Qed.

Lemma always_bind {A B} (m : proto A) (f : A -> proto B) Q :
  always m (fun r => match r with Ok a => always (f a) Q | Err e => Q (Err e) end) -> always (m ≫= f) Q.
Proof.
  induction m as [[a|e]|p k IH|k IH|c k IH|]; intros Hm; cbn in *; try done.
  - split; [apply Hm|]. intros o. apply IH, Hm.
  - intros o Ho. by apply IH, Hm.
Qed.

Lemma always_mono {A} (m : proto A) (P Q : result packet_error A -> Prop) :
  always m P -> (forall r, P r -> Q r) -> always m Q.
Proof. intros Hm HPQ. induction m; cbn in *; eauto. destruct Hm. eauto. Qed.

(** An outcome is no panic, and its errors are passed on. *)
Definition on_ok {A} (P : A -> Prop) (r : result packet_error A) : Prop :=
  match r with Ok a => P a | Err _ => True end.

Lemma always_bind_ok {A B} (m : proto A) (f : A -> proto B) (P : A -> Prop) (Q : B -> Prop) :
  always m (on_ok P) -> (forall a, P a -> always (f a) (on_ok Q)) -> always (m ≫= f) (on_ok Q).
Proof.
  intros Hm Hf. apply always_bind. eapply always_mono; [exact Hm|]. intros [a|e]; cbn; auto.
Qed.

Lemma always_read : always kex_readPacket (on_ok (fun _ => True)).
Proof. by intros [?|?]. Qed.
Lemma always_write p : kex_packet p -> always (kex_writePacket p) (on_ok (fun _ => True)).
Proof. intros Hp. split; [done|]. by intros [?|]. Qed.
Lemma always_last_write p : kex_packet p -> always (last_writePacket p) (on_ok (fun _ => True)).
Proof. intros Hp. split; [done|]. by intros [?|]. Qed.
Lemma kex_packet_Marshal {B : Type} `{Message B} (m : B) :
  match typeTags (msg_struct (A := B)) with t :: _ => (30 <=? t) && (t <=? 49) | [] => false end = true ->
  kex_packet (MarshalMsg m).
Proof.
  unfold MarshalMsg, Marshal. destruct (typeTags _) as [|t ts]; [done|]. intros Ht. bool_simp. cbn [app kex_packet].
  rewrite bv_vb by lia. lia.
Qed.
Lemma always_lift_res {A} (r : res A) : always (lift_res r) (on_ok (fun a => r = Ok a)).
Proof. by destruct r. Qed.
Lemma always_lift_lib {A} prefix (r : result gostring A) : always (lift_lib prefix r) (on_ok (fun a => r = Ok a)).
Proof. by destruct r. Qed.
Lemma always_fail {A} msg (Q : A -> Prop) : always (kex_fail msg) (on_ok Q).
Proof. done. Qed.
Lemma always_sign priv rand data algo :
  always (signAndMarshal priv rand data algo) (on_ok (fun x => exists sig,
    SignWithAlgorithm priv rand data (underlyingAlgo algo) = (Ok sig, snd x) /\ fst x = MarshalMsg sig)).
Proof.
  unfold signAndMarshal. destruct (SignWithAlgorithm _ _ _ _) as [[sig|e] rand'] eqn:E; [|done].
  cbn. by exists sig.
Qed.
End Kex.

Create HintDb kex.
#[export] Hint Resolve always_read always_write always_last_write always_lift_res always_lift_lib always_fail
  always_sign : kex.
#[export] Hint Extern 1 (kex_packet (MarshalMsg _)) => apply kex_packet_Marshal; vm_compute; reflexivity : kex.

(** ** Numbers *)
Lemma draw_private_spec fuel rand max :
  1 < max -> (length (avail rand) < fuel)%nat ->
  exists r rand', draw_private fuel rand max = Some (r, rand') /\ match r with Ok x => 0 < x < max | Err _ => True end.
Proof.
  intros Hm. revert rand. induction fuel as [|fuel IH]; intros rand Hf; [lia|]. cbn [draw_private].
  destruct (rand_Int_spec rand max) as (r & rand' & -> & _ & Hl & Hr); [lia|].
  destruct r as [x|e]; [|by do 2 eexists]. destruct Hr as [Hx Hless]. specialize (Hless Hm).
  destruct (0 <? x) eqn:E; bool_simp; [exists (Ok x), rand'; split; [done|lia]|].
  apply IH. lia.
Qed.

Lemma private_number_spec rand max :
  1 < max ->
  exists r rand', private_number rand max = Some (r, rand') /\ match r with Ok x => 0 < x < max | Err _ => True end.
Proof. intros Hm. apply draw_private_spec; [done|lia]. Qed.

Lemma always_private rand max :
  1 < max -> always (lift_io (private_number rand max)) (on_ok (fun x => 0 < fst x < max)).
Proof. intros Hm. destruct (private_number_spec rand max Hm) as ([x|e] & rand' & -> & Hx); done. Qed.

Lemma always_Int rand max :
  0 < max -> always (lift_io (rand_Int rand max)) (on_ok (fun x => 0 <= fst x < max)).
Proof.
  intros Hm. destruct (rand_Int_spec rand max Hm) as ([x|e] & rand' & -> & _ & _ & Hx); [|done]. apply Hx.
Qed.

Definition maxModulus : Z := 2 ^ 8192.

(** The groups: the modulus leaves room for the checks, and fits a packet. *)
Record good_group (g : dhGroup) : Prop := {
  gg_p : 5 < dh_p g; gg_small : dh_p g < maxModulus;
  gg_minus : dh_pMinus1 g = dh_p g - 1; gg_hash : dh_hashFunc g <> NoHash }.
Definition good_algorithm (a : kexAlgorithm) : Prop :=
  match a with
  | dhGroupKex g => good_group g
  | dhGEXSHA h => h <> NoHash
  | _ => True
  end.

Lemma newDHGroup_good p h : (5 <? p) && (p <? maxModulus) = true -> h <> NoHash -> good_group (newDHGroup p h).
Proof. intros Hp Hh. bool_simp. split; cbn; [lia|lia|done|done]. Qed.

Lemma kex_algorithms_good : Forall (fun e => good_algorithm (snd e)) kex_algorithms.
Proof.
  unfold kex_algorithms.
  repeat constructor; cbn [snd good_algorithm]; try discriminate; apply newDHGroup_good; try discriminate;
    vm_compute; reflexivity.
Qed.

(** The map has an implementation for exactly the names that are negotiated. *)
Lemma kexAlgo_of_domain name : (exists a, kexAlgo_of name = Some a) <-> name ∈ kexAlgoMap.
Proof.
  replace kexAlgoMap with (map fst kex_algorithms) by reflexivity.
  unfold kexAlgo_of. rewrite list_elem_of_In, in_map_iff. split.
  - intros [a Ha]. destruct (find _ _) as [e|] eqn:E; [|done]. apply List.find_some in E as [Hin He].
    bool_simp. by exists e.
  - intros [e [He Hin]]. destruct (find _ _) as [e'|] eqn:E; [by eexists|].
    apply List.find_none with (x := e) in E; [|done]. subst. rewrite gos_eqb_refl in E. done.
Qed.

Lemma kexAlgo_of_good name a : kexAlgo_of name = Some a -> good_algorithm a.
Proof.
  unfold kexAlgo_of. destruct (find _ _) as [e|] eqn:E; [|done]. intros [= <-]. apply List.find_some in E as [Hin _].
  apply (proj1 (List.Forall_forall _ _) kex_algorithms_good _ Hin).
Qed.

Lemma fold_choose_in req gs b g :
  fold_left (choose_step req) gs b = Some g -> b = Some g \/ g ∈ gs.
Proof.
  revert b. induction gs as [|g' gs IH]; intros b; cbn [fold_left]; [by left|]. intros [Hs|Hin]%IH; [|right; by constructor].
  unfold choose_step in Hs. destruct (_ || _); [by left|]. destruct b as [b|]; [|injection Hs as ->; right; left].
  destruct (_ || _); [injection Hs as ->; right; left|by left].
Qed.

Lemma chosen_group req p : chooseDH req = Done (Ok p) -> 5 < p < maxModulus /\ 2048 <= BitLen p <= 8192.
Proof.
  unfold chooseDH. assert (Hall : Forall (fun g => (5 <? kg_p g) && (kg_p g <? maxModulus) &&
      (2048 <=? BitLen (kg_p g)) && (BitLen (kg_p g) <=? 8192) = true) supportedDHKEXGroups)
    by (repeat constructor; vm_compute; reflexivity).
  destruct (fold_left _ _ _) as [g|] eqn:E; [|done]. intros [= <-].
  apply fold_choose_in in E as [?|E]; [done|]. apply (proj1 (list.Forall_forall _ _) Hall) in E. bool_simp. lia.
Qed.

Lemma BitLen_modulus p : 0 <= p -> BitLen p <= 8192 -> p < maxModulus.
Proof.
  intros Hp Hb. destruct (BitLen_bound p Hp) as (Hu & _ & Hn). unfold maxModulus.
  eapply Z.lt_le_trans; [exact Hu|]. by apply Z.pow_le_mono_r.
Qed.

(** ** Lengths of decoded fields *)
Definition small_value (k : kind) : denote k -> Prop :=
  match k return denote k -> Prop with
  | KString | KBytes => fun s : gostring => len s < 2 ^ 32
  | _ => fun _ => True
  end.
Fixpoint small_values (fs : list field) : denotes fs -> Prop :=
  match fs return denotes fs -> Prop with
  | [] => fun _ => True
  | f :: fs => fun vs => small_value (snd f) (fst vs) /\ small_values fs (snd vs)
  end.

Lemma unmarshal_fields_small st fs data vs rest :
  unmarshal_fields st fs data = Ok (vs, rest) -> small_values fs vs.
Proof.
  revert data vs. induction fs as [|f fs IH]; intros data vs; cbn [unmarshal_fields]; [done|].
  destruct (unmarshal_field st (fst f) (snd f) data) as [[v r]|] eqn:E; [|done]. cbn [mbind result_bind fst snd].
  destruct (unmarshal_fields st fs r) as [[ws r']|] eqn:E'; [|done]. cbn [mbind result_bind fst snd].
  intros [= <- <-]. split; [|by eapply IH]. clear IH E'. unfold short_read in E.
  destruct (snd f); cbn [unmarshal_field small_value fst] in *; try done;
    destruct (parseString data) as [[s' r0]|] eqn:Ep; try done; injection E as <- <-; apply (parseString_inv _ _ _ Ep).
Qed.

Lemma UnmarshalMsg_small `{MessageLaws A} data (m : A) :
  UnmarshalMsg A data = Ok m -> small_values _ (to_fields m).
Proof.
  unfold UnmarshalMsg, Unmarshal. destruct data as [|d0 data]; [done|].
  destruct (match typeTags _ with [] => _ | _ => _ end) as [data'|]; [|done]. cbn [mbind result_bind].
  destruct (unmarshal_fields _ _ data') as [[vs r]|] eqn:E; [|done]. cbn [mbind result_bind fst snd].
  destruct (len r =? 0); [|done]. intros [= <-]. rewrite to_of_fields. by eapply unmarshal_fields_small.
Qed.

(** ** The hashed encodings are injective *)
Lemma writeString_inj s s' r r' :
  len s < 2 ^ 32 -> len s' < 2 ^ 32 -> writeString s ++ r = writeString s' ++ r' -> s = s' /\ r = r'.
Proof.
  intros Hs Hs' E. unfold writeString in E. rewrite <- !app_assoc in E.
  apply app_inj_1 in E as [E1 E2]; [|by rewrite !be_bytes_length].
  apply (f_equal be_value) in E1. rewrite !be_value_bytes in E1. change (256 ^ Z.of_nat 4) with (2 ^ 32) in E1.
  pose proof (len_nonneg s). pose proof (len_nonneg s'). rewrite !Z.mod_small in E1 by lia.
  apply app_inj_1 in E2; [done|]. unfold len in E1. lia.
Qed.

Definition int_bytes (n : Z) : gostring := fst (int_contents n) ++ snd (int_contents n).
Lemma writeInt_eq n : writeInt n = writeString (int_bytes n).
Proof.
  unfold writeInt, writeString. rewrite append_big_int_eq. unfold int_bytes. rewrite len_app.
  pose proof (int_contents_length n). do 2 f_equal. lia.
Qed.

Lemma int_bytes_small n : 0 <= n < maxModulus -> len (int_bytes n) <= 1025.
Proof.
  intros [Hn Hm]. unfold int_bytes. rewrite len_app. pose proof (int_contents_length n) as Hl.
  assert (Hb : BitLen n <= 8192).
  { unfold BitLen. destruct (Z.eqb_spec n 0); [lia|]. rewrite Z.abs_eq by done.
    assert (Z.log2 n < 8192); [|lia]. by apply Z.log2_lt_pow2; [lia|]. }
  unfold intLength in Hl. destruct (BitLen_bound n Hn) as (_ & _ & H0).
  assert ((BitLen n + 7) / 8 < 1025) by (apply Z.div_lt_upper_bound; lia).
  destruct (n <? 0) eqn:E; bool_simp; [lia|]. cbv zeta in Hl.
  destruct (n =? 0), (BitLen n mod 8 =? 0); lia.
Qed.

Lemma writeInt_inj n n' r r' :
  0 <= n < maxModulus -> 0 <= n' < maxModulus -> writeInt n ++ r = writeInt n' ++ r' -> n = n' /\ r = r'.
Proof.
  intros Hn Hn' E. rewrite !writeInt_eq in E. apply int_bytes_small in Hn, Hn'.
  apply writeString_inj in E as [E ->]; [|lia..]. split; [|done]. apply (f_equal contents_value) in E.
  unfold int_bytes in E. by rewrite !int_contents_value in E.
Qed.

Lemma be4_inj n n' r r' :
  0 <= n < 2 ^ 32 -> 0 <= n' < 2 ^ 32 -> be_bytes 4 n ++ r = be_bytes 4 n' ++ r' -> n = n' /\ r = r'.
Proof.
  intros Hn Hn' E. apply app_inj_1 in E as [E ->]; [|by rewrite !be_bytes_length]. split; [|done].
  apply (f_equal be_value) in E. rewrite !be_value_bytes in E. change (256 ^ Z.of_nat 4) with (2 ^ 32) in E.
  by rewrite !Z.mod_small in E.
Qed.

Definition small_magics (m : handshakeMagics) : Prop :=
  len (hm_clientVersion m) < 2 ^ 32 /\ len (hm_serverVersion m) < 2 ^ 32 /\
  len (hm_clientKexInit m) < 2 ^ 32 /\ len (hm_serverKexInit m) < 2 ^ 32.

Lemma magics_inj m m' r r' :
  small_magics m -> small_magics m' -> magics_write m ++ r = magics_write m' ++ r' -> m = m' /\ r = r'.
Proof.
  intros (?&?&?&?) (?&?&?&?) E. unfold magics_write in E. rewrite <- !app_assoc in E.
  apply writeString_inj in E as [E1 E]; [|done..]. apply writeString_inj in E as [E2 E]; [|done..].
  apply writeString_inj in E as [E3 E]; [|done..]. apply writeString_inj in E as [E4 E]; [|done..].
  split; [|done]. destruct m, m'; cbn in *; congruence.
Qed.

(** ** What a method returns, against any peer *)
Inductive role := AsClient | AsServer.
Definition theirs {A} (r : role) (client server : A) : A := match r with AsClient => server | AsServer => client end.

Section Specification.
Context `{CryptoLib, KexLib}.

Definition kex_hash (a : kexAlgorithm) : Hash :=
  match a with
  | dhGroupKex g => dh_hashFunc g
  | ecdhKex c => ecHash c
  | dhGEXSHA h => h
  | curve25519sha256 | mlkem768WithCurve25519sha256 => SHA256
  end.

(** The exchanged values behind a secret [K] and the bytes [t] that are hashed: those of
    the two sides, where the other side's value has passed the checks of the algorithm
    and [K] is computed from it. *)
Definition transcript (r : role) (a : kexAlgorithm) (m : handshakeMagics) (hostKey K t : gostring) : Prop :=
  match a with
  | dhGroupKex g => exists X Y x, 0 <= X < dh_p g /\ 0 <= Y < dh_p g /\
      1 < theirs r X Y < dh_p g - 1 /\ K = writeInt (Exp (theirs r X Y) x (dh_p g)) /\
      t = dh_transcript m hostKey X Y K
  | dhGEXSHA _ => exists req p g X Y x, wf_msg req /\ 2048 <= BitLen p <= 8192 /\ 0 <= X < p /\ 0 <= Y < p /\
      1 < g < p - 1 /\ 1 < theirs r X Y < p - 1 /\ K = writeInt (Exp (theirs r X Y) x p) /\
      t = gex_transcript m hostKey req p g X Y K
  | ecdhKex c => exists Qc Qs x y d, len Qc < 2 ^ 32 /\ len Qs < 2 ^ 32 /\
      elliptic_Unmarshal c (theirs r Qc Qs) = Some (x, y) /\ IsOnCurve c x y = true /\
      K = writeInt (fst (multiply c (x, y) d)) /\ t = ec_transcript m hostKey Qc Qs K
  | curve25519sha256 => exists Qc Qs priv secret, len Qc < 2 ^ 32 /\ len Qs < 2 ^ 32 /\
      length (theirs r Qc Qs) = 32%nat /\ X25519 priv (theirs r Qc Qs) = Ok secret /\
      K = writeInt (be_value secret) /\ t = ec_transcript m hostKey Qc Qs K
  | mlkem768WithCurve25519sha256 => exists Qc Qs priv kem secret, len Qc < 2 ^ 32 /\ len Qs < 2 ^ 32 /\
      length (theirs r Qc Qs) = (theirs r EncapsulationKeySize768 CiphertextSize768 + 32)%nat /\
      X25519 priv (drop (theirs r EncapsulationKeySize768 CiphertextSize768) (theirs r Qc Qs)) = Ok secret /\
      K = writeString (digest SHA256 (kem ++ secret)) /\ t = ec_transcript m hostKey Qc Qs K
  end.

Definition kex_result_ok (r : role) (a : kexAlgorithm) (m : handshakeMagics) (res : kexResult) : Prop :=
  kr_Hash res = kex_hash a /\
  exists t, kr_H res = digest (kex_hash a) t /\ transcript r a m (kr_HostKey res) (kr_K res) t.
Definition client_returns (a : kexAlgorithm) (m : handshakeMagics) (x : kexReturn) : Prop :=
  let '(r, err, _) := x in err = None /\ len (kr_HostKey r) < 2 ^ 32 /\ kex_result_ok AsClient a m r.
Definition server_returns (a : kexAlgorithm) (m : handshakeMagics) (priv : AlgorithmSigner) (algo : gostring)
    (x : kexReturn) : Prop :=
  let '(r, _, _) := x in kr_HostKey r = PublicKey_Marshal priv /\ kex_result_ok AsServer a m r /\
  exists rand rand' sig, SignWithAlgorithm priv rand (kr_H r) (underlyingAlgo algo) = (Ok sig, rand') /\
    kr_Signature r = MarshalMsg sig.
End Specification.

Ltac kex_step := eapply always_bind_ok; [by eauto with kex|cbv beta].
Ltac sign_step :=
  kex_step; let sg := fresh "sg" in let Hsig := fresh "Hsig" in intros [? ?] (sg & Hsig & ?); cbn [fst snd] in *; subst.

Section AnyPeer.
Context `{CryptoLib, KexLib, UnicodeTables, !KexLaws}.

Lemma diffieHellman_always g y x :
  dh_pMinus1 g = dh_p g - 1 ->
  always (diffieHellman g y x) (on_ok (fun ki => 1 < y < dh_p g - 1 /\ ki = Exp y x (dh_p g))).
Proof.
  intros Hm. unfold diffieHellman. destruct (_ || _) eqn:E; [done|]. bool_simp. cbn. rewrite Hm in *. split; [lia|done].
Qed.

Lemma dhGroup_Client_always g rand m :
  good_group g -> always (dhGroup_Client g rand m) (on_ok (client_returns (dhGroupKex g) m)).
Proof.
  intros [Hp Hs Hm Hh]. unfold dhGroup_Client.
  eapply always_bind_ok; [apply always_private; lia|]. intros [x rand'] Hx.
  kex_step. intros _ _. kex_step. intros packet _. kex_step. intros reply Hr.
  eapply always_bind_ok; [by apply diffieHellman_always|]. intros ki [HY ->]. cbn [always mret proto_ret on_ok client_returns].
  apply UnmarshalMsg_small in Hr as [Hl _]. split; [done|]. split; [done|]. split; [done|]. eexists. split; [done|].
  exists (Exp (dh_g g) x (dh_p g)), (kexDHReply_Y reply), x. pose proof (Exp_range (dh_g g) x (dh_p g)). cbn [theirs].
  repeat split; try done; lia.
Qed.

Lemma dhGroup_Server_always g rand m priv algo :
  good_group g -> always (dhGroup_Server g rand m priv algo) (on_ok (server_returns (dhGroupKex g) m priv algo)).
Proof.
  intros [Hp Hs Hm Hh]. unfold dhGroup_Server.
  kex_step. intros packet _. kex_step. intros init Hr.
  eapply always_bind_ok; [apply always_private; lia|]. intros [y rand'] Hy.
  eapply always_bind_ok; [by apply diffieHellman_always|]. intros ki [HX ->].
  sign_step. kex_step. intros err _. cbn [always mret proto_ret on_ok server_returns].
  split; [done|]. split; [|by do 3 eexists]. split; [done|]. eexists. split; [done|].
  exists (kexDHInit_X init), (Exp (dh_g g) y (dh_p g)), y. pose proof (Exp_range (dh_g g) y (dh_p g)). cbn [theirs].
  repeat split; try done; lia.
Qed.

Lemma unmarshalECKey_always c key :
  always (unmarshalECKey c key) (on_ok (fun xy => elliptic_Unmarshal c key = Some xy /\ IsOnCurve c (fst xy) (snd xy) = true)).
Proof.
  unfold unmarshalECKey. destruct (elliptic_Unmarshal c key) as [[x y]|] eqn:E; [|done].
  destruct (validateECPublicKey c x y) eqn:Ev; [|done]. cbn. split; [done|]. unfold validateECPublicKey in Ev.
  destruct (_ && _); [done|]. do 2 (destruct (_ <=? _); [done|]). by destruct (IsOnCurve c x y).
Qed.

Lemma GenerateKey_always c rand entropy :
  always (ecdsa_GenerateKey c rand entropy) (on_ok (fun k => exists rand', GenerateKey c rand entropy = (Ok (fst k), rand'))).
Proof. unfold ecdsa_GenerateKey. destruct (GenerateKey c rand entropy) as [[k|e] rand'] eqn:E; [|done]. cbn. by eexists. Qed.

Lemma lift_Marshal_always c x y :
  IsOnCurve c x y = true -> always (lift_option (elliptic_Marshal c x y)) (on_ok (fun bs => len bs < 2 ^ 32)).
Proof.
  intros E. destruct (elliptic_roundtrip c x y E) as (bs & -> & _ & Hl). cbn. unfold len. rewrite Hl.
  destruct c; vm_compute; done.
Qed.

Lemma lift_ScalarMult_always c x y k :
  IsOnCurve c x y = true -> always (lift_option (ScalarMult c x y k)) (on_ok (fun s => s = multiply c (x, y) k)).
Proof. intros E. unfold ScalarMult. by rewrite on_curve_valid. Qed.

Lemma ecdh_Client_always c rand entropy m :
  always (ecdh_Client c rand entropy m) (on_ok (client_returns (ecdhKex c) m)).
Proof.
  unfold ecdh_Client. eapply always_bind_ok; [apply GenerateKey_always|]. intros [[d [X Y]] rand'] [rand1 Hg].
  apply GenerateKey_point in Hg as [Hon _].
  eapply always_bind_ok; [by apply lift_Marshal_always|]. intros Qc HQ.
  kex_step. intros _ _. kex_step. intros packet _. kex_step. intros reply Hr.
  eapply always_bind_ok; [apply unmarshalECKey_always|]. intros [x y] [Hu Hxy].
  eapply always_bind_ok; [by apply lift_ScalarMult_always|]. intros [secret s2] Hsec.
  cbn [always mret proto_ret on_ok client_returns]. apply UnmarshalMsg_small in Hr as (Hl & Hl2 & _).
  split; [done|]. split; [done|]. split; [done|]. eexists. split; [done|].
  exists Qc, (kexECDHReply_EphemeralPubKey reply), x, y, (BigBytes d). cbn in Hsec. by rewrite <- Hsec.
Qed.

Lemma ecdh_Server_always c rand entropy m priv algo :
  always (ecdh_Server c rand entropy m priv algo) (on_ok (server_returns (ecdhKex c) m priv algo)).
Proof.
  unfold ecdh_Server. kex_step. intros packet _. kex_step. intros init Hr.
  eapply always_bind_ok; [apply unmarshalECKey_always|]. intros [x y] [Hu Hxy].
  eapply always_bind_ok; [apply GenerateKey_always|]. intros [[d [X Y]] rand'] [rand1 Hg].
  apply GenerateKey_point in Hg as [Hon _].
  eapply always_bind_ok; [by apply lift_Marshal_always|]. intros Qs HQ.
  eapply always_bind_ok; [by apply lift_ScalarMult_always|]. intros [secret s2] Hsec.
  sign_step. kex_step. intros _ _.
  cbn [always mret proto_ret on_ok server_returns]. apply UnmarshalMsg_small in Hr as (Hl & _).
  split; [done|]. split; [|by do 3 eexists]. split; [done|]. eexists. split; [done|].
  exists (kexECDHInit_ClientPubKey init), Qs, x, y, (BigBytes d). cbn in Hsec. by rewrite <- Hsec.
Qed.

Lemma keyPair_generate_always rand :
  always (keyPair_generate rand) (on_ok (fun k =>
    length (kp_priv (fst k)) = 32%nat /\ length (kp_pub (fst k)) = 32%nat /\ X25519 (kp_priv (fst k)) Basepoint = Ok (kp_pub (fst k)))).
Proof.
  unfold keyPair_generate. destruct (read_full rand 32) as [[priv|e] rand'] eqn:E; [|done].
  apply read_full_Ok in E as [Hl _]. cbn [lift_io mbind proto_bind].
  destruct (X25519 priv Basepoint) as [p|e] eqn:Ex; [|done]. cbn [lift_lib mbind proto_bind].
  destruct (Nat.eqb_spec (length p) 32); done.
Qed.

Lemma always_if {A} (b : bool) (e m : proto A) (Q : A -> Prop) :
  always e (on_ok Q) -> (b = false -> always m (on_ok Q)) -> always (if b then e else m) (on_ok Q).
Proof. by destruct b; auto. Qed.

Lemma curve25519_Client_always rand m :
  always (curve25519_Client rand m) (on_ok (client_returns curve25519sha256 m)).
Proof.
  unfold curve25519_Client. eapply always_bind_ok; [apply keyPair_generate_always|]. intros [kp rand'] (_ & Hl & _).
  kex_step. intros _ _. kex_step. intros packet _. kex_step. intros reply Hr.
  apply always_if; [done|]. intros Hn. apply negb_false_iff, Nat.eqb_eq in Hn. kex_step. intros secret Hx.
  cbn [always mret proto_ret on_ok client_returns]. apply UnmarshalMsg_small in Hr as (H32 & H32' & _).
  split; [done|]. split; [done|]. split; [done|]. eexists. split; [done|]. do 4 eexists. cbn [fst] in Hl.
  split; [unfold len; rewrite Hl; lia|]. split; [exact H32'|]. cbn [theirs]. by repeat split.
Qed.

Lemma curve25519_Server_always rand m priv algo :
  always (curve25519_Server rand m priv algo) (on_ok (server_returns curve25519sha256 m priv algo)).
Proof.
  unfold curve25519_Server. kex_step. intros packet _. kex_step. intros init Hr.
  apply always_if; [done|]. intros Hn. apply negb_false_iff, Nat.eqb_eq in Hn.
  eapply always_bind_ok; [apply keyPair_generate_always|]. intros [kp rand'] (_ & Hl & _). kex_step. intros secret Hx.
  sign_step. kex_step. intros _ _. cbn [always mret proto_ret on_ok server_returns].
  split; [done|]. split; [|by do 3 eexists]. split; [done|]. eexists. split; [done|].
  exists (kexECDHInit_ClientPubKey init), (kp_pub kp). do 2 eexists. cbn [fst theirs] in *.
  split; [unfold len; rewrite Hn; lia|]. split; [unfold len; rewrite Hl; lia|]. by repeat split.
Qed.

Lemma shiftr_half p : 5 < p -> 0 < Z.shiftr p 1.
Proof. intros Hp. rewrite Z.shiftr_div_pow2 by lia. apply Z.div_str_pos. lia. Qed.

Lemma dhGEXSHA_Client_always h rand m :
  always (dhGEXSHA_Client h rand m) (on_ok (client_returns (dhGEXSHA h) m)).
Proof.
  unfold dhGEXSHA_Client. kex_step. intros _ _. kex_step. intros packet _. kex_step. intros msg _.
  set (p := kexDHGexGroup_P msg). set (g := kexDHGexGroup_G msg).
  apply always_if; [done|]. intros Hb. bool_simp. apply always_if; [done|]. intros Hg. bool_simp.
  unfold dhGroupExchangeMinimumBits, dhGroupExchangeMaximumBits in *.
  assert (Hp5 : 5 < p).
  { destruct (Z.lt_trichotomy 5 p) as [|Hle]; [done|]. exfalso.
    assert (Z.log2 p <= Z.log2 5) by (apply Z.log2_le_mono; lia). unfold BitLen in *.
    destruct (p =? 0) eqn:E; [lia|]. rewrite Z.abs_eq in * by lia. change (Z.log2 5) with 2 in *. lia. }
  eapply always_bind_ok; [by apply always_Int, shiftr_half|]. intros [x rand'] Hx.
  kex_step. intros _ _. kex_step. intros packet2 _. kex_step. intros reply Hr.
  apply always_if; [done|]. intros HY. bool_simp. apply always_if; [done|]. intros _.
  cbn [always mret proto_ret on_ok client_returns]. apply UnmarshalMsg_small in Hr as [Hl _].
  split; [done|]. split; [done|]. split; [done|]. eexists. split; [done|].
  exists gexRequest, p, g, (Exp g x p), (kexDHGexReply_Y reply), x. pose proof (Exp_range g x p). cbn [theirs].
  repeat split; try done; lia.
Qed.

Lemma dhGEXSHA_Server_always h rand m priv algo :
  always (dhGEXSHA_Server h rand m priv algo) (on_ok (server_returns (dhGEXSHA h) m priv algo)).
Proof.
  unfold dhGEXSHA_Server. kex_step. intros packet _. kex_step. intros req Hreq. apply UnmarshalMsg_inv in Hreq as [Hreq _].
  apply always_if; [done|]. intros Hrange.
  apply (always_bind_ok _ _ (fun p => 5 < p < maxModulus /\ 2048 <= BitLen p <= 8192)).
  { pose proof (chosen_group req) as Hc. unfold chooseDH in *.
    destruct (fold_left _ _ _); [|done]. cbn [always on_ok]. by apply Hc. }
  intros p (Hp & Hbits). kex_step. intros _ _. kex_step. intros packet2 _. kex_step. intros init Hr.
  eapply always_bind_ok; [apply always_Int, shiftr_half; lia|]. intros [y rand'] Hy.
  apply always_if; [done|]. intros HX. bool_simp. sign_step. kex_step. intros err _.
  cbn [always mret proto_ret on_ok server_returns]. split; [done|]. split; [|by do 3 eexists]. split; [done|].
  eexists. split; [done|].
  exists req, p, 2, (kexDHGexInit_X init), (Exp 2 y p), y. pose proof (Exp_range 2 y p). cbn [theirs].
  repeat split; try done; try lia; apply Hreq.
Qed.

Lemma mlkem_Client_always rand m :
  always (mlkem_Client rand m) (on_ok (client_returns mlkem768WithCurve25519sha256 m)).
Proof.
  unfold mlkem_Client. eapply always_bind_ok; [apply keyPair_generate_always|]. intros [kp rand'] (_ & Hl & _).
  apply (always_bind_ok _ _ (fun s => length (fst s) = mlkem_SeedSize)).
  { destruct (read_full rand' mlkem_SeedSize) as [[seed|e] rand2] eqn:E; [|done]. by apply read_full_Ok in E as [? _]. }
  intros [seed rand2] Hs. apply EncapsulationKey_length in Hs. cbn [fst] in *.
  kex_step. intros _ _. kex_step. intros packet _. kex_step. intros reply Hr.
  apply always_if; [done|]. intros Hn. apply negb_false_iff, Nat.eqb_eq in Hn.
  kex_step. intros kem Hkem. kex_step. intros secret Hx.
  cbn [always mret proto_ret on_ok client_returns]. apply UnmarshalMsg_small in Hr as (H32 & H32' & _).
  split; [done|]. split; [done|]. split; [done|]. eexists. split; [done|].
  exists (EncapsulationKey seed ++ kp_pub kp), (kexECDHReply_EphemeralPubKey reply). do 3 eexists.
  split; [|split; [exact H32'|cbn [theirs]; by repeat split]].
  unfold len. rewrite length_app, Hs, Hl. unfold EncapsulationKeySize768. lia.
Qed.

Lemma mlkem_Server_always rand entropy m priv algo :
  always (mlkem_Server rand entropy m priv algo) (on_ok (server_returns mlkem768WithCurve25519sha256 m priv algo)).
Proof.
  unfold mlkem_Server. kex_step. intros packet _. kex_step. intros init Hr.
  set (ck := kexECDHInit_ClientPubKey init) in *.
  apply always_if; [done|]. intros Hn. apply negb_false_iff, Nat.eqb_eq in Hn.
  destruct (NewEncapsulationKey768 _); [done|].
  destruct (Encapsulate _ entropy) as [kem ct] eqn:Ee. pose proof (Encapsulate_length (take EncapsulationKeySize768 ck) entropy) as Hct.
  rewrite Ee in Hct. cbn [snd] in Hct.
  eapply always_bind_ok; [apply keyPair_generate_always|]. intros [kp rand'] (_ & Hl & _). kex_step. intros secret Hx.
  sign_step. kex_step. intros _ _. cbn [always mret proto_ret on_ok server_returns].
  split; [done|]. split; [|by do 3 eexists]. split; [done|]. eexists. split; [done|].
  exists ck, (ct ++ kp_pub kp). do 3 eexists. cbn [fst theirs] in *. unfold len. rewrite length_app, Hn, Hl, Hct.
  unfold EncapsulationKeySize768, CiphertextSize768. split; [lia|]. split; [lia|]. by repeat split.
Qed.

Lemma kex_Client_always a rand entropy m :
  good_algorithm a -> always (kex_Client a rand entropy m) (on_ok (client_returns a m)).
Proof.
  intros Ha. destruct a; cbn [kex_Client].
  - by apply dhGroup_Client_always.
  - apply ecdh_Client_always.
  - apply curve25519_Client_always.
  - apply dhGEXSHA_Client_always.
  - apply mlkem_Client_always.
Qed.

Lemma kex_Server_always a rand entropy m priv algo :
  good_algorithm a -> always (kex_Server a rand entropy m priv algo) (on_ok (server_returns a m priv algo)).
Proof.
  intros Ha. destruct a; cbn [kex_Server].
  - by apply dhGroup_Server_always.
  - apply ecdh_Server_always.
  - apply curve25519_Server_always.
  - apply dhGEXSHA_Server_always.
  - apply mlkem_Server_always.
Qed.

(** ** Binding *)
Lemma ec_transcript_inj m m' hk hk' a b a' b' K K' :
  small_magics m -> small_magics m' -> len hk < 2 ^ 32 -> len hk' < 2 ^ 32 ->
  len a < 2 ^ 32 -> len b < 2 ^ 32 -> len a' < 2 ^ 32 -> len b' < 2 ^ 32 ->
  ec_transcript m hk a b K = ec_transcript m' hk' a' b' K' -> m = m' /\ hk = hk' /\ K = K'.
Proof.
  intros Hm Hm' Hh Hh' ???? E. unfold ec_transcript in E.
  apply magics_inj in E as [-> E]; [|done..]. apply writeString_inj in E as [-> E]; [|done..].
  apply writeString_inj in E as [-> E]; [|done..]. apply writeString_inj in E as [-> E]; [|done..]. done.
Qed.

Lemma transcript_inj r r' a m m' hk hk' K K' t :
  good_algorithm a -> small_magics m -> small_magics m' -> len hk < 2 ^ 32 -> len hk' < 2 ^ 32 ->
  transcript r a m hk K t -> transcript r' a m' hk' K' t -> m = m' /\ hk = hk' /\ K = K'.
Proof.
  intros Ha Hm Hm' Hh Hh'. destruct a as [g|c| |h|]; cbn [transcript good_algorithm] in *.
  - destruct Ha as [Hp Hs _ _]. intros (X & Y & x & HX & HY & _ & _ & ->) (X' & Y' & x' & HX' & HY' & _ & _ & E).
    unfold dh_transcript in E. apply magics_inj in E as [-> E]; [|done..].
    apply writeString_inj in E as [-> E]; [|done..]. apply writeInt_inj in E as [-> E]; [|lia..].
    apply writeInt_inj in E as [-> E]; [|lia..]. done.
  - intros (Qc & Qs & ? & ? & ? & ? & ? & _ & _ & _ & ->) (Qc' & Qs' & ? & ? & ? & ? & ? & _ & _ & _ & E).
    by apply ec_transcript_inj in E.
  - intros (Qc & Qs & ? & ? & ? & ? & _ & _ & _ & ->) (Qc' & Qs' & ? & ? & ? & ? & _ & _ & _ & E).
    by apply ec_transcript_inj in E.
  - intros (q & p & g & X & Y & x & Hq & Hb & HX & HY & Hg & _ & _ & ->)
      (q' & p' & g' & X' & Y' & x' & Hq' & Hb' & HX' & HY' & Hg' & _ & _ & E).
    pose proof (BitLen_modulus p ltac:(lia) ltac:(lia)). pose proof (BitLen_modulus p' ltac:(lia) ltac:(lia)).
    destruct Hq as (? & ? & ? & _), Hq' as (? & ? & ? & _). cbn [fst snd] in *.
    unfold gex_transcript in E. apply magics_inj in E as [-> E]; [|done..].
    apply writeString_inj in E as [-> E]; [|done..]. do 3 (apply be4_inj in E as [_ E]; [|done..]).
    do 4 (apply writeInt_inj in E as [_ E]; [|lia..]). done.
  - intros (Qc & Qs & ? & ? & ? & ? & ? & _ & _ & _ & ->) (Qc' & Qs' & ? & ? & ? & ? & ? & _ & _ & _ & E).
    by apply ec_transcript_inj in E.
Qed.
End AnyPeer.

(** ** The choice of a group *)
Section Choice.
Context (req : kexDHGexRequestMsg).

Definition admissible (g : dhKEXGroup) : Prop :=
  kexDHGexRequest_MinBits req <= kg_size g <= kexDHGexRequest_MaxBits req.
(** [g] is at least as good as [g']: the least size that is enough, else the greatest. *)
Definition preferable (g g' : dhKEXGroup) : Prop :=
  let want := kexDHGexRequest_PreferredBits req in
  (want <= kg_size g' -> want <= kg_size g <= kg_size g') /\ (kg_size g < want -> kg_size g' <= kg_size g).
Definition best_of (l : list dhKEXGroup) (b : option dhKEXGroup) : Prop :=
  match b with
  | None => forall g, g ∈ l -> ~ admissible g
  | Some g => g ∈ l /\ admissible g /\ forall g', g' ∈ l -> admissible g' -> preferable g g'
  end.

Lemma best_of_skip l b g : best_of l b -> ~ admissible g -> best_of (l ++ [g]) b.
Proof.
  intros Hb Hn. destruct b as [b|]; cbn [best_of] in *.
  - destruct Hb as (? & ? & Hb). split; [set_solver|]. split; [done|].
    intros g' Hg'. apply elem_of_app in Hg' as [?|Hg']; [auto|]. by apply list_elem_of_singleton in Hg' as ->.
  - intros g' Hg'. apply elem_of_app in Hg' as [?|Hg']; [auto|]. by apply list_elem_of_singleton in Hg' as ->.
Qed.

Lemma choose_step_best l b g : best_of l b -> best_of (l ++ [g]) (choose_step req b g).
Proof.
  unfold choose_step. intros Hb. destruct ((kg_size g <? _) || _) eqn:E.
  { apply best_of_skip; [done|]. unfold admissible. apply orb_true_iff in E as [?|?]; bool_simp; lia. }
  assert (Ha : admissible g) by (bool_simp; unfold admissible; lia). clear E. destruct b as [b|]; cbn [best_of] in Hb.
  2:{ split; [set_solver|]. split; [done|]. intros g' Hg' Hag'. apply elem_of_app in Hg' as [?|Hg']; [by exfalso; eapply Hb|].
      apply list_elem_of_singleton in Hg' as ->. unfold preferable. lia. }
  destruct Hb as (Hbin & Hba & Hb). cbv zeta.
  assert (Hold : forall c, (forall g', preferable b g' -> preferable c g') -> preferable c g ->
    forall g', g' ∈ l ++ [g] -> admissible g' -> preferable c g').
  { intros c Hc Hcg g' Hg' Hag'. apply elem_of_app in Hg' as [?|Hg']; [auto|]. by apply list_elem_of_singleton in Hg' as ->. }
  destruct (_ || _) eqn:Ec; cbn [best_of].
  - split; [set_solver|]. split; [done|]. apply Hold; unfold preferable; [|lia].
    intros g' ?. apply orb_true_iff in Ec as [?|?]; bool_simp; lia.
  - split; [set_solver|]. split; [done|]. apply Hold; unfold preferable; [done|].
    apply orb_false_iff in Ec as [H1%andb_false_iff H2%andb_false_iff]. destruct H1, H2; bool_simp; lia.
Qed.

Lemma fold_choose_best gs l b : best_of l b -> best_of (l ++ gs) (fold_left (choose_step req) gs b).
Proof.
  revert l b. induction gs as [|g gs IH]; intros l b Hb; cbn [fold_left]; [by rewrite app_nil_r|].
  rewrite (app_assoc l [g] gs : l ++ g :: gs = _). apply IH. by apply choose_step_best.
Qed.

(** The chosen modulus is that of the least group that has the preferred size, else of
    the greatest, among the groups the request admits; without one there is an error. *)
Lemma chooseDH_spec :
  match chooseDH req with
  | Done (Ok p) => exists g, kg_p g = p /\ best_of supportedDHKEXGroups (Some g)
  | Done (Err _) => best_of supportedDHKEXGroups None
  | _ => False
  end.
Proof.
  pose proof (fold_choose_best supportedDHKEXGroups [] None) as Hb. rewrite app_nil_l in Hb.
  specialize (Hb ltac:(intros ? ?%elem_of_nil; done)). unfold chooseDH.
  destruct (fold_left _ _ _) as [g|]; [by exists g|done].
Qed.
End Choice.

(** ** Agreement *)
Section Agreement.
Context `{CryptoLib, KexLib, UnicodeTables, !KexLaws}.

(** What an honest exchange needs: the random sources do not end, public values do not
    fall on the few the peer refuses, and decapsulation recovers the secret. *)
Definition honest (a : kexAlgorithm) (crand srand : Source) (centropy sentropy : gostring) : Prop :=
  match a with
  | dhGroupKex g => exists x cr y sr,
      private_number crand (dh_pMinus1 g) = Some (Ok x, cr) /\ private_number srand (dh_pMinus1 g) = Some (Ok y, sr) /\
      1 < Exp (dh_g g) x (dh_p g) < dh_p g - 1 /\ 1 < Exp (dh_g g) y (dh_p g) < dh_p g - 1
  | ecdhKex c => exists kc cr ks sr,
      GenerateKey c crand centropy = (Ok kc, cr) /\ GenerateKey c srand sentropy = (Ok ks, sr)
  | curve25519sha256 => exists a cr b sr pb s,
      read_full crand 32 = (Ok a, cr) /\ read_full srand 32 = (Ok b, sr) /\
      X25519 b Basepoint = Ok pb /\ X25519 a pb = Ok s
  | dhGEXSHA _ => let p := oakleyGroup14 in exists x cr y sr,
      rand_Int crand (Z.shiftr p 1) = Some (Ok x, cr) /\ rand_Int srand (Z.shiftr p 1) = Some (Ok y, sr) /\
      1 < Exp 2 x p < p - 1 /\ 1 < Exp 2 y p < p - 1 /\ 1 < Exp (Exp 2 y p) x p < p - 1
  | mlkem768WithCurve25519sha256 => exists a cr seed cr' b sr pb s,
      read_full crand 32 = (Ok a, cr) /\ read_full cr mlkem_SeedSize = (Ok seed, cr') /\ read_full srand 32 = (Ok b, sr) /\
      X25519 b Basepoint = Ok pb /\ X25519 a pb = Ok s /\
      let '(kem, ct) := Encapsulate (EncapsulationKey seed) sentropy in Decapsulate seed ct = Ok kem
  end.

(** A host key that signs, with a key and signatures that fit a packet. *)
Definition signs (priv : AlgorithmSigner) (algo : gostring) : Prop :=
  forall rand data, exists sig rand', SignWithAlgorithm priv rand data (underlyingAlgo algo) = (Ok sig, rand') /\
    len (PublicKey_Marshal priv) + len (MarshalMsg sig) < 2 ^ 31.

(** The two ends return one result, signed with the server's key. *)
Definition agreed (priv : AlgorithmSigner) (algo : gostring)
    (o : option (result packet_error kexReturn * result packet_error kexReturn)) : Prop :=
  exists r cr sr, o = Some (Ok (r, None, cr), Ok (r, None, sr)) /\ kr_HostKey r = PublicKey_Marshal priv /\
  exists rand rand' sig, SignWithAlgorithm priv rand (kr_H r) (underlyingAlgo algo) = (Ok sig, rand') /\
    kr_Signature r = MarshalMsg sig.

Lemma writeString_len s : len (writeString s) = 4 + len s.
Proof. unfold writeString. rewrite len_be. lia. Qed.
Lemma writeInt_len n : 0 <= n < maxModulus -> len (writeInt n) <= 1029.
Proof. intros Hn. rewrite writeInt_eq, writeString_len. apply int_bytes_small in Hn. lia. Qed.
Lemma appendInt_len n : len (appendInt [] n) = 4.
Proof. unfold appendInt, appendU32, len. cbn [app]. by rewrite be_bytes_length. Qed.
Lemma MarshalMsg_len `{Message A} (m : A) : len (MarshalMsg m) <= 1 + len (marshal_fields _ (to_fields m)).
Proof.
  unfold MarshalMsg, Marshal. rewrite len_app.
  destruct (typeTags _); rewrite ?len_cons, len_nil; lia.
Qed.

(** A signature survives encoding and decoding; only those of security keys have a rest. *)
Definition sk_formats : list gostring := [KeyAlgoSKECDSA256; CertAlgoSKECDSA256v01; KeyAlgoSKED25519; CertAlgoSKED25519v01].
Lemma parseSignatureBody_Marshal sig :
  len (MarshalMsg sig) < 2 ^ 32 -> (contains sk_formats (sig_Format sig) = false -> sig_Rest sig = []) ->
  parseSignatureBody (MarshalMsg sig) = Some (sig, []).
Proof.
  destruct sig as [f b r]. intros Hl Hr. unfold parseSignatureBody.
  assert (E : MarshalMsg (MkSignature f b r) = (appendInt [] (len f) ++ f) ++ (appendInt [] (len b) ++ b) ++ r)
    by (unfold MarshalMsg, Marshal; cbn -[appendInt]; by rewrite app_nil_r).
  rewrite E in *. rewrite !len_app, !appendInt_len in Hl. pose proof (len_nonneg f). pose proof (len_nonneg b). pose proof (len_nonneg r).
  rewrite parseString_append by (rewrite !len_app, appendInt_len; lia).
  rewrite parseString_append by lia. fold sk_formats. cbn [sig_Format sig_Rest] in Hr.
  destruct (contains sk_formats f); [done|]. by rewrite Hr.
Qed.

Ltac marshal_fits :=
  apply UnmarshalMsg_MarshalMsg; [repeat split; cbn; try done|];
  eapply Z.le_lt_trans; [apply MarshalMsg_len|];
  cbn [marshal_fields marshal_field fst snd to_fields msg_struct st_fields
    kexDHInitMsg_message kexDHReplyMsg_message kexECDHInitMsg_message kexECDHReplyMsg_message kexDHGexGroupMsg_message
    kexDHGexInitMsg_message kexDHGexReplyMsg_message
    kexDHInit_X kexDHReply_HostKey kexDHReply_Y kexDHReply_Signature kexECDHInit_ClientPubKey kexECDHReply_HostKey
    kexECDHReply_EphemeralPubKey kexECDHReply_Signature kexDHGexGroup_P kexDHGexGroup_G kexDHGexInit_X
    kexDHGexReply_HostKey kexDHGexReply_Y kexDHGexReply_Signature];
  rewrite ?len_app, ?appendInt_len, ?len_nil; try lia.

Lemma roundtrip_ECDHInit k : len k < 2 ^ 31 ->
  UnmarshalMsg kexECDHInitMsg (MarshalMsg (Mk_kexECDHInitMsg k)) = Ok (Mk_kexECDHInitMsg k).
Proof. intros Hk. marshal_fits. Qed.

Lemma roundtrip_ECDHReply hk k sg : len hk + len sg < 2 ^ 31 -> len k <= 4096 ->
  UnmarshalMsg kexECDHReplyMsg (MarshalMsg (Mk_kexECDHReplyMsg hk k sg)) = Ok (Mk_kexECDHReplyMsg hk k sg).
Proof. intros Hk Hl. marshal_fits. Qed.

Lemma roundtrip_DHInit X : 0 <= X < maxModulus ->
  UnmarshalMsg kexDHInitMsg (MarshalMsg (Mk_kexDHInitMsg X)) = Ok (Mk_kexDHInitMsg X).
Proof. intros HX%writeInt_len. unfold writeInt in *. marshal_fits. Qed.

Lemma roundtrip_DHReply hk Y sg : len hk + len sg < 2 ^ 31 -> 0 <= Y < maxModulus ->
  UnmarshalMsg kexDHReplyMsg (MarshalMsg (Mk_kexDHReplyMsg hk Y sg)) = Ok (Mk_kexDHReplyMsg hk Y sg).
Proof. intros Hk HY%writeInt_len. unfold writeInt in *. marshal_fits. Qed.

Lemma roundtrip_GexGroup p g : 0 <= p < maxModulus -> 0 <= g < maxModulus ->
  UnmarshalMsg kexDHGexGroupMsg (MarshalMsg (Mk_kexDHGexGroupMsg p g)) = Ok (Mk_kexDHGexGroupMsg p g).
Proof. intros Hp%writeInt_len Hg%writeInt_len. unfold writeInt in *. marshal_fits. Qed.

Lemma roundtrip_GexInit X : 0 <= X < maxModulus ->
  UnmarshalMsg kexDHGexInitMsg (MarshalMsg (Mk_kexDHGexInitMsg X)) = Ok (Mk_kexDHGexInitMsg X).
Proof. intros HX%writeInt_len. unfold writeInt in *. marshal_fits. Qed.

Lemma roundtrip_GexReply hk Y sg : len hk + len sg < 2 ^ 31 -> 0 <= Y < maxModulus ->
  UnmarshalMsg kexDHGexReplyMsg (MarshalMsg (Mk_kexDHGexReplyMsg hk Y sg)) = Ok (Mk_kexDHGexReplyMsg hk Y sg).
Proof. intros Hk HY%writeInt_len. unfold writeInt in *. marshal_fits. Qed.

(** One step of a conversation. *)
Lemma talk_send {A B} n p (k : _ -> proto A) (ks : _ -> proto B) q r :
  talk (S n) (Send p k) (Recv ks) q r = talk n (k None) (Recv ks) (q ++ [p]) r.
Proof. done. Qed.
Lemma talk_reply {A B} n p (k : _ -> proto A) (ks : _ -> proto B) q r :
  talk (S n) (Recv k) (Send p ks) q r = talk n (Recv k) (ks None) q (r ++ [p]).
Proof. done. Qed.
Lemma talk_serve {A B} n p (k : _ -> proto A) (ks : _ -> proto B) q :
  talk (S n) (Recv k) (Recv ks) (p :: q) [] = talk n (Recv k) (ks (Ok p)) q [].
Proof. done. Qed.
Lemma talk_receive {A B} n p (k : _ -> proto A) (ks : _ -> proto B) q r :
  talk (S n) (Recv k) (Recv ks) q (p :: r) = talk n (k (Ok p)) (Recv ks) q r.
Proof. done. Qed.
Lemma talk_finish {A B} n p (k : _ -> proto A) (rs : result packet_error B) q r :
  talk (S n) (Recv k) (Done rs) q (p :: r) = talk n (k (Ok p)) (Done rs) q r.
Proof. done. Qed.

Ltac run := unfold mret, proto_ret; cbn [mbind proto_bind mret proto_ret kex_writePacket kex_readPacket last_writePacket lift_io lift_res lift_lib
  lift_option app negb].

Lemma dhGroup_agreement g crand srand ce se m priv algo :
  good_group g -> honest (dhGroupKex g) crand srand ce se -> signs priv algo ->
  agreed priv algo (exchange (dhGroupKex g) crand srand ce se m priv algo).
Proof.
  intros [Hp Hs Hm Hh] (x & cr & y & sr & Hx & Hy & HX & HY) Hsig. unfold exchange. cbn [kex_Client kex_Server].
  set (X := Exp (dh_g g) x (dh_p g)) in *. set (Y := Exp (dh_g g) y (dh_p g)) in *.
  assert (Hxy : 0 < x < dh_pMinus1 g /\ 0 < y < dh_pMinus1 g).
  { destruct (private_number_spec crand (dh_pMinus1 g)) as (r1 & ? & E1 & H1'); [lia|].
    destruct (private_number_spec srand (dh_pMinus1 g)) as (r2 & ? & E2 & H2'); [lia|].
    rewrite Hx in E1. rewrite Hy in E2. injection E1 as <- <-. injection E2 as <- <-. done. }
  assert (Hk : Exp X y (dh_p g) = Exp Y x (dh_p g)) by (apply Exp_comm; lia).
  unfold dhGroup_Client, dhGroup_Server. rewrite Hx, Hy. run. fold X Y. rewrite talk_send. run.
  rewrite talk_serve, roundtrip_DHInit by lia. run. unfold diffieHellman. cbn [kexDHInit_X].
  rewrite Hm. replace ((X <=? 1) || (dh_p g - 1 <=? X)) with false by (symmetry; apply orb_false_iff; rewrite !Z.leb_gt; lia).
  run. rewrite Hk. set (K := writeInt _). set (Hs2 := digest _ _). destruct (Hsig sr Hs2) as (sg & sr' & Esig & Hl).
  unfold signAndMarshal. rewrite Esig. run. rewrite talk_reply. run.
  rewrite talk_finish, roundtrip_DHReply by lia. run. cbn [kexDHReply_Y kexDHReply_HostKey kexDHReply_Signature].
  replace ((Y <=? 1) || (dh_p g - 1 <=? Y)) with false by (symmetry; apply orb_false_iff; rewrite !Z.leb_gt; lia).
  run. cbn [talk]. do 3 eexists. split; [reflexivity|]. split; [done|]. by exists sr, sr', sg.
Qed.

(** The last step of a server: the signature goes out with the reply. *)
Ltac serve_reply Hsig H :=
  match goal with |- context [signAndMarshal _ ?sr ?h _] =>
    let sg := fresh "sg" in let Esig := fresh "Esig" in
    set (H := h); destruct (Hsig sr H) as (sg & ? & Esig & ?); unfold signAndMarshal; rewrite Esig; run; rewrite talk_reply; run
  end.
Ltac agree := run; cbn [talk]; do 3 eexists; split; [reflexivity|]; split; [done|]; do 3 eexists; split; [eassumption|done].

Lemma byteLen_small c : (byteLen c <= 66)%nat.
Proof. destruct c; vm_compute; lia. Qed.

Lemma ecdh_agreement c crand srand ce se m priv algo :
  honest (ecdhKex c) crand srand ce se -> signs priv algo ->
  agreed priv algo (exchange (ecdhKex c) crand srand ce se m priv algo).
Proof.
  intros ([dc [Xc Yc]] & cr & [ds [Xs Ys]] & sr & Hc & Hs) Hsig. unfold exchange. cbn [kex_Client kex_Server].
  destruct (GenerateKey_point _ _ _ _ _ _ Hc) as [Honc Hmc]. destruct (GenerateKey_point _ _ _ _ _ _ Hs) as [Hons Hms].
  cbn [fst snd] in *. destruct (elliptic_roundtrip c Xc Yc Honc) as (Qc & HQc & HUc & Hlc).
  destruct (elliptic_roundtrip c Xs Ys Hons) as (Qs & HQs & HUs & Hls). pose proof (byteLen_small c).
  assert (Hv : forall x y, IsOnCurve c x y = true -> validateECPublicKey c x y = true).
  { intros x y Hxy. destruct (on_curve_range _ _ _ Hxy) as (Hx & Hy & Hne). unfold validateECPublicKey.
    destruct ((x =? 0) && (y =? 0)) eqn:E0; [bool_simp; by subst|].
    rewrite !(proj2 (Z.leb_gt _ _)) by lia. by rewrite Hxy. }
  assert (Hk : multiply c (Xc, Yc) (BigBytes ds) = multiply c (Xs, Ys) (BigBytes dc)) by (rewrite Hmc, Hms; apply multiply_comm).
  unfold ecdh_Client, ecdh_Server, ecdsa_GenerateKey. rewrite Hc, Hs. run. rewrite HQc, HQs. run. rewrite talk_send. run.
  rewrite talk_serve, roundtrip_ECDHInit by (unfold len; lia). run. cbn [kexECDHInit_ClientPubKey].
  unfold unmarshalECKey at 2. rewrite HUc, Hv by done. run. unfold ScalarMult at 2. rewrite on_curve_valid by done. run.
  rewrite Hk. destruct (multiply c (Xs, Ys) (BigBytes dc)) as [secret s2] eqn:Em. serve_reply Hsig H'.
  rewrite talk_finish, roundtrip_ECDHReply by (unfold len in *; lia). run.
  cbn [kexECDHReply_EphemeralPubKey kexECDHReply_HostKey kexECDHReply_Signature].
  unfold unmarshalECKey. rewrite HUs, Hv by done. run. unfold ScalarMult. rewrite on_curve_valid, Em by done. agree.
Qed.

Lemma keyPair_generate_eq rand k p rand' :
  read_full rand 32 = (Ok k, rand') -> X25519 k Basepoint = Ok p ->
  keyPair_generate rand = Done (Ok (mkKeyPair k p, rand')).
Proof.
  intros Hr Hx. unfold keyPair_generate. rewrite Hr. run. rewrite Hx. run. by rewrite (X25519_length _ _ _ Hx).
Qed.

Lemma curve25519_agreement crand srand ce se m priv algo :
  honest curve25519sha256 crand srand ce se -> signs priv algo ->
  agreed priv algo (exchange curve25519sha256 crand srand ce se m priv algo).
Proof.
  intros (a & cr & b & sr & pb & s & Hc & Hs & Hpb & Hsec) Hsig. unfold exchange. cbn [kex_Client kex_Server].
  destruct (X25519_base a) as [pa Hpa]; [by apply read_full_Ok in Hc as [? _]|].
  pose proof (X25519_comm _ _ _ _ Hpa Hpb) as Hcomm. rewrite Hsec in Hcomm.
  pose proof (X25519_length _ _ _ Hpa) as Hla. pose proof (X25519_length _ _ _ Hpb) as Hlb.
  unfold curve25519_Client, curve25519_Server. rewrite (keyPair_generate_eq _ _ _ _ Hc Hpa), (keyPair_generate_eq _ _ _ _ Hs Hpb).
  run. cbn [kp_pub kp_priv]. rewrite talk_send. run.
  rewrite talk_serve, roundtrip_ECDHInit by (unfold len; lia). run. cbn [kexECDHInit_ClientPubKey].
  rewrite Hla. cbn [Nat.eqb]. run. rewrite <- Hcomm. run. serve_reply Hsig H'.
  rewrite talk_finish, roundtrip_ECDHReply by (unfold len in *; lia). run.
  cbn [kexECDHReply_EphemeralPubKey kexECDHReply_HostKey kexECDHReply_Signature].
  rewrite Hlb. cbn [Nat.eqb]. run. rewrite Hsec. agree.
Qed.

Lemma mlkem_agreement crand srand ce se m priv algo :
  honest mlkem768WithCurve25519sha256 crand srand ce se -> signs priv algo ->
  agreed priv algo (exchange mlkem768WithCurve25519sha256 crand srand ce se m priv algo).
Proof.
  intros (a & cr & seed & cr' & b & sr & pb & s & Hc & Hseed & Hs & Hpb & Hsec & Hkem) Hsig.
  unfold exchange. cbn [kex_Client kex_Server].
  destruct (X25519_base a) as [pa Hpa]; [by apply read_full_Ok in Hc as [? _]|].
  pose proof (X25519_comm _ _ _ _ Hpa Hpb) as Hcomm. rewrite Hsec in Hcomm.
  pose proof (X25519_length _ _ _ Hpa) as Hla. pose proof (X25519_length _ _ _ Hpb) as Hlb.
  pose proof (Encapsulate_length (EncapsulationKey seed) se) as Hlct.
  assert (Hls : length seed = mlkem_SeedSize) by (by apply read_full_Ok in Hseed as [? _]).
  destruct (Encapsulate (EncapsulationKey seed) se) as [kem ct] eqn:Ee. cbn [snd] in Hlct.
  pose proof (EncapsulationKey_length _ Hls) as Hlek. pose proof (EncapsulationKey_valid _ Hls) as Hvek.
  unfold mlkem_Client, mlkem_Server. rewrite (keyPair_generate_eq _ _ _ _ Hc Hpa), (keyPair_generate_eq _ _ _ _ Hs Hpb).
  run. rewrite Hseed. run. cbn [kp_pub kp_priv]. rewrite talk_send. run.
  assert (Hsmall : len (EncapsulationKey seed ++ pa) <= 4096 /\ len (ct ++ pb) <= 4096)
    by (unfold len; rewrite !length_app, Hlek, Hla, Hlct, Hlb; unfold EncapsulationKeySize768, CiphertextSize768; lia).
  rewrite talk_serve, roundtrip_ECDHInit by lia. run. cbn [kexECDHInit_ClientPubKey].
  rewrite length_app, Hlek, Hla, Nat.eqb_refl. run.
  rewrite <- Hlek, take_app_length, drop_app_length, Hvek, Ee. run. rewrite <- Hcomm. run. serve_reply Hsig H'.
  rewrite talk_finish, roundtrip_ECDHReply by lia. run.
  cbn [kexECDHReply_EphemeralPubKey kexECDHReply_HostKey kexECDHReply_Signature].
  rewrite length_app, Hlct, Hlb, Nat.eqb_refl. run. rewrite <- Hlct, take_app_length, drop_app_length, Hkem. run.
  rewrite Hsec. agree.
Qed.

Lemma gexRequest_choice :
  UnmarshalMsg kexDHGexRequestMsg (MarshalMsg gexRequest) = Ok gexRequest /\ gex_out_of_range gexRequest = false /\
  chooseDH gexRequest = Done (Ok oakleyGroup14) /\ BitLen oakleyGroup14 = 2048.
Proof. repeat split; vm_compute; reflexivity. Qed.

Lemma in_range_false p z : 1 < z < p - 1 -> (z <=? 1) || (p - 1 <=? z) = false.
Proof. intros Hz. apply orb_false_iff. rewrite !Z.leb_gt. lia. Qed.

Lemma dhGEX_agreement h crand srand ce se m priv algo :
  honest (dhGEXSHA h) crand srand ce se -> signs priv algo ->
  agreed priv algo (exchange (dhGEXSHA h) crand srand ce se m priv algo).
Proof.
  destruct gexRequest_choice as (Hreq & Hrange & Hchoose & Hbits).
  destruct (chosen_group _ _ Hchoose) as [Hp _]. cbn [honest]. set (p := oakleyGroup14) in *. clearbody p.
  intros (x & cr & y & sr & Hx & Hy & HX & HY & HK) Hsig. unfold exchange. cbn [kex_Client kex_Server].
  assert (Hxy : 0 <= x /\ 0 <= y).
  { pose proof (shiftr_half p ltac:(lia)) as Hh.
    destruct (rand_Int_spec crand (Z.shiftr p 1) Hh) as (r1 & ? & E1 & _ & _ & H1').
    destruct (rand_Int_spec srand (Z.shiftr p 1) Hh) as (r2 & ? & E2 & _ & _ & H2').
    rewrite Hx in E1. rewrite Hy in E2. injection E1 as <- <-. injection E2 as <- <-. lia. }
  assert (Hk : Exp (Exp 2 x p) y p = Exp (Exp 2 y p) x p) by (apply Exp_comm; lia).
  unfold dhGEXSHA_Client, dhGEXSHA_Server. run. rewrite talk_send. run. rewrite talk_serve, Hreq. run. rewrite Hrange, Hchoose. run.
  rewrite talk_reply. run. rewrite talk_receive, roundtrip_GexGroup by first [lia|split; [lia|vm_compute; reflexivity]]. run.
  cbn [kexDHGexGroup_P kexDHGexGroup_G]. rewrite Hbits.
  change ((2048 <? dhGroupExchangeMinimumBits) || (dhGroupExchangeMaximumBits <? 2048)) with false. cbv iota.
  rewrite (in_range_false p 2) by lia. rewrite Hx, Hy. run.
  set (X := Exp 2 x p) in *. set (Y := Exp 2 y p) in *. rewrite talk_send. run.
  rewrite talk_serve, roundtrip_GexInit by lia. run. cbn [kexDHGexInit_X]. rewrite in_range_false by done. rewrite Hk.
  serve_reply Hsig H'. rewrite talk_finish, roundtrip_GexReply by lia. run.
  cbn [kexDHGexReply_Y kexDHGexReply_HostKey kexDHGexReply_Signature].
  rewrite in_range_false by done. rewrite in_range_false by done. agree.
Qed.

Lemma kex_agrees a crand srand ce se m priv algo :
  good_algorithm a -> honest a crand srand ce se -> signs priv algo -> agreed priv algo (exchange a crand srand ce se m priv algo).
Proof.
  intros Ha Hh Hs. destruct a.
  - by apply dhGroup_agreement.
  - by apply ecdh_agreement.
  - by apply curve25519_agreement.
  - by apply dhGEX_agreement.
  - by apply mlkem_agreement.
Qed.
End Agreement.

(** ** Theorems *)
Section Theorems.
Context `{CryptoLib, KexLib, !KexLaws}.

(** C20. Two honest ends that run the same algorithm, any of those that are negotiated,
    both return, without an error and with one result: the same exchange hash, secret
    and hash function, the server's host key, and its signature of that exchange hash. *)
Theorem kex_agreement name a crand srand centropy sentropy m priv algo :
  kexAlgo_of name = Some a -> honest a crand srand centropy sentropy -> signs priv algo ->
  agreed priv algo (exchange a crand srand centropy sentropy m priv algo).
Proof. intros Ha%kexAlgo_of_good. by apply kex_agrees. Qed.

(** Whatever packets and errors the connection gives, neither side of an algorithm
    panics, loops or sends anything but messages of a key exchange.  A client that returns a result has hashed the transcript of the
    algorithm, over the peer's public value, which it has checked, and the secret
    computed from it; a server also returns its own host key and its signature. *)
Lemma kex_any_peer name a crand srand centropy sentropy m priv algo :
  kexAlgo_of name = Some a ->
  always (kex_Client a crand centropy m) (on_ok (client_returns a m)) /\
  always (kex_Server a srand sentropy m priv algo) (on_ok (server_returns a m priv algo)).
Proof. intros Ha%kexAlgo_of_good. split; [by apply kex_Client_always|by apply kex_Server_always]. Qed.

(** C21. The exchange hash binds: when a client and a server, each against any peer and
    with handshake data of its own, return results with the same exchange hash, that hash is
    the digest of the bytes [t] the client hashed, over its versions and KEXINIT packets,
    the host key and the secret it returns, and of the bytes [t'] the server hashed over
    its own.  If these are the same bytes, both saw the same versions and KEXINIT packets
    and the same host key and have the same secret; so if the two ends differ in any of
    those, [t] and [t'] are a collision of the hash function. *)
Theorem kex_binding name a crand srand centropy sentropy mc ms priv algo rc ec crand' rs es srand' :
  kexAlgo_of name = Some a -> small_magics mc -> small_magics ms -> len (PublicKey_Marshal priv) < 2 ^ 32 ->
  outcome (kex_Client a crand centropy mc) (Ok (rc, ec, crand')) ->
  outcome (kex_Server a srand sentropy ms priv algo) (Ok (rs, es, srand')) ->
  kr_H rc = kr_H rs ->
  exists t t',
    transcript AsClient a mc (kr_HostKey rc) (kr_K rc) t /\ transcript AsServer a ms (PublicKey_Marshal priv) (kr_K rs) t' /\
    kr_H rc = digest (kex_hash a) t /\ digest (kex_hash a) t = digest (kex_hash a) t' /\
    ((t = t' /\ mc = ms /\ kr_HostKey rc = PublicKey_Marshal priv /\ kr_K rc = kr_K rs) \/ t <> t').
Proof.
  intros Ha%kexAlgo_of_good Hmc Hms Hpriv Hc Hs HH.
  apply (always_outcome _ _ _ (kex_Client_always a crand centropy mc Ha)) in Hc as (_ & Hlc & _ & t & Ht & Htr).
  apply (always_outcome _ _ _ (kex_Server_always a srand sentropy ms priv algo Ha)) in Hs as (Hk & (_ & t' & Ht' & Htr') & _).
  rewrite Hk in Htr'. exists t, t'. do 3 (split; [done|]). split; [congruence|].
  destruct (decide (t = t')) as [->|Hne]; [left; split; [done|]|by right]. by eapply transcript_inj.
Qed.
End Theorems.

(** ** Instances of the theorems *)
Definition sample_signer : AlgorithmSigner :=
  mkSigner (go "host key") (fun rand data algo => (Ok (MkSignature algo (take 4 data) []), rand)).
Definition sample_magics : handshakeMagics := mkMagics (go "SSH-2.0-c") (go "SSH-2.0-s") (go "ci") (go "si").
Definition sample_rand (c : string) : Source := mkSource (concat (repeat (go c) 16)) ioEOF.

Lemma sample_honest :
  honest curve25519sha256 (sample_rand "0123") (sample_rand "4567") [] [].
Proof. unfold honest. do 6 eexists. repeat split; vm_compute; reflexivity. Qed.

Lemma sample_signs : signs sample_signer KeyAlgoED25519.
Proof.
  intros rand data. do 2 eexists. split; [reflexivity|].
  eapply Z.le_lt_trans; [apply Z.add_le_mono_l, MarshalMsg_len|].
  cbn [marshal_fields marshal_field fst snd to_fields msg_struct st_fields Signature_message sig_Format sig_Blob sig_Rest].
  rewrite !len_app, !appendInt_len. unfold len at 3. rewrite length_take.
  change (len (underlyingAlgo KeyAlgoED25519)) with 11. change (len (PublicKey_Marshal sample_signer)) with 8.
  unfold len. cbn [length]. lia.
Qed.

Lemma kex_agreement_witness :
  agreed sample_signer KeyAlgoED25519
    (@exchange sample_crypto sample_kexlib curve25519sha256 (sample_rand "0123") (sample_rand "4567") [] [] sample_magics sample_signer KeyAlgoED25519).
Proof.
  apply (@kex_agreement sample_crypto sample_kexlib sample_kexlaws KeyExchangeCurve25519);
    [reflexivity|apply sample_honest|apply sample_signs].
Defined.


(** The two ends of the sample exchange, run on the packets they send each other. *)
Definition sample_client : proto kexReturn :=
  @kex_Client sample_crypto sample_kexlib curve25519sha256 (sample_rand "0123") [] sample_magics.
Definition sample_server : proto kexReturn :=
  @kex_Server sample_crypto sample_kexlib curve25519sha256 (sample_rand "4567") [] sample_magics sample_signer KeyAlgoED25519.
Definition sent_first (m : proto kexReturn) : gostring := match m with Send p _ => p | _ => [] end.
Definition sample_init : gostring := sent_first sample_client.
Definition sample_reply : gostring :=
  match sample_server with Recv k => sent_first (k (Ok sample_init)) | _ => [] end.
Definition returned (m : proto kexReturn) (packets : list gostring) : kexReturn :=
  match feed m packets with Some (Ok x) => x | _ => (mkKexResult [] [] [] [] NoHash [], None, mkSource [] ioEOF) end.
Definition sample_rc : kexReturn := returned sample_client [sample_reply].
Definition sample_rs : kexReturn := returned sample_server [sample_init].

Lemma kex_binding_witness :
  kr_H (sample_rc.1.1) = kr_H (sample_rs.1.1) /\
  exists t t',
    @transcript sample_crypto sample_kexlib AsClient curve25519sha256 sample_magics (kr_HostKey sample_rc.1.1) (kr_K sample_rc.1.1) t /\
    @transcript sample_crypto sample_kexlib AsServer curve25519sha256 sample_magics (PublicKey_Marshal sample_signer) (kr_K sample_rs.1.1) t' /\
    kr_H sample_rc.1.1 = @digest sample_crypto (kex_hash curve25519sha256) t /\
    @digest sample_crypto (kex_hash curve25519sha256) t = @digest sample_crypto (kex_hash curve25519sha256) t' /\
    ((t = t' /\ sample_magics = sample_magics /\ kr_HostKey sample_rc.1.1 = PublicKey_Marshal sample_signer /\
      kr_K sample_rc.1.1 = kr_K sample_rs.1.1) \/ t <> t').
Proof.
  split; [vm_compute; reflexivity|].
  apply (@kex_binding sample_crypto sample_kexlib sample_kexlaws KeyExchangeCurve25519 curve25519sha256
           (sample_rand "0123") (sample_rand "4567") [] [] sample_magics sample_magics sample_signer KeyAlgoED25519
           sample_rc.1.1 sample_rc.1.2 sample_rc.2 sample_rs.1.1 sample_rs.1.2 sample_rs.2).
  - reflexivity.
  - repeat split.
  - repeat split.
  - reflexivity.
  - apply (feed_outcome _ [sample_reply]). vm_compute. reflexivity.
  - apply (feed_outcome _ [sample_init]). vm_compute. reflexivity.
  - vm_compute. reflexivity.
Defined.
