(* ===== verification/SshHandshake.v ===== *)
(** * The handshake layer: [third/ssh/handshake.go] and [verifyHostKeySignature] of
    [client.go].

    [enterKeyExchange] talks to the peer over a connection it does not control, so it is
    a [proto] tree like the key exchange methods it calls; what it changes of the
    transport, also when it fails, is a [kexState].  The goroutines of a
    [handshakeTransport], the read loop, the key exchange loop and any number of writers,
    are a step relation: a step is a section of code under the mutex, an operation on a
    channel or an operation on the connection.

    Proved: a client changes keys only after the host key's signature of the exchange
    hash was verified and the callback accepted the key; two honest ends that shake hands
    agree, however their packets are interleaved; in every interleaving of the goroutines
    the queue of pending packets is bounded, packets go out in the order they were
    accepted, and only messages of the key exchange go out while it runs. *)
From Stdlib Require Import Ascii String ZArith Lia.
From stdpp Require Import base gmap strings list relations.
From S2P Require Import Prelude GoStrings GoIO SshWire SshMessages SshAlgos GoCrypto SshCipher SshAuth SshTransport KexLib SshKex.
Local Open Scope Z_scope.

(** ** Host keys *)

(** A [Signer], by the interfaces it implements. *)
Inductive signer_kind := plainSigner | algorithmSigner | multiAlgorithmSigner (algorithms : list gostring).
Record Signer := mkHostKey {
  sg_kind : signer_kind;
  sg_Type : gostring;
  sg_Marshal : gostring;
  sg_Sign : Source -> gostring -> result packet_error Signature * Source;
  sg_SignWithAlgorithm : Source -> gostring -> gostring -> result packet_error Signature * Source }.

Definition algorithmSignerWrapper (k : Signer) : AlgorithmSigner :=
  mkSigner (sg_Marshal k) (fun rand data algorithm =>
    if negb (algorithm =s underlyingAlgo (sg_Type k))
    then (Err (newError (go "ssh: internal error: algorithmSignerWrapper invoked with non-default algorithm")), rand)
    else sg_Sign k rand data).
Definition as_AlgorithmSigner (k : Signer) : AlgorithmSigner := mkSigner (sg_Marshal k) (sg_SignWithAlgorithm k).

Fixpoint pickHostKey (hostKeys : list Signer) (algo : gostring) : option AlgorithmSigner :=
  match hostKeys with
  | [] => None
  | k :: rest =>
      let usable := match sg_kind k with
                    | multiAlgorithmSigner algos => contains algos (underlyingAlgo algo)
                    | _ => true
                    end in
      if negb usable then pickHostKey rest algo
      else if algo =s sg_Type k then Some (algorithmSignerWrapper k)
      else match sg_kind k with
           | plainSigner => pickHostKey rest algo
           | _ => if contains (algorithmsForKeyFormat (sg_Type k)) algo then Some (as_AlgorithmSigner k)
                  else pickHostKey rest algo
           end
  end.

(** What a host key contributes to the algorithms a server offers. *)
Definition hostKey_algos (k : Signer) : list gostring :=
  match sg_kind k with
  | multiAlgorithmSigner algos =>
      List.filter (fun algo => contains algos (underlyingAlgo algo)) (algorithmsForKeyFormat (sg_Type k))
  | algorithmSigner => algorithmsForKeyFormat (sg_Type k)
  | plainSigner => [sg_Type k]
  end.

Definition kexStrictClient : gostring := go "kex-strict-c-v00@openssh.com".
Definition kexStrictServer : gostring := go "kex-strict-s-v00@openssh.com".
Definition extInfoClient : gostring := go "ext-info-c".

Definition is_nil {A} (o : option A) : bool := match o with None => true | Some _ => false end.
Lemma is_nil_true {A} (o : option A) : is_nil o = true -> o = None.
Proof. by destruct o. Qed.

Section Handshake.
Context `{CryptoLib, KexLib, UnicodeTables, KeyLib}.

(** The fields that do not change once the transport runs. *)
Record hsConfig := mkHsConfig {
  hc_config : SshConfig;
  hc_serverVersion : gostring;
  hc_clientVersion : gostring;
  hc_hostKeys : list Signer;
  hc_publicKeyAuthAlgorithms : list gostring;
  hc_hostKeyAlgorithms : list gostring;
  hc_hostKeyCallback : gostring -> net_addr -> Key -> option error;
  hc_dialAddress : gostring;
  hc_remoteAddr : net_addr }.
Definition isServer (c : hsConfig) : bool := match hc_hostKeys c with [] => false | _ => true end.

(** [io.ReadFull(t.config.Rand, msg.Cookie[:])], whose error is not looked at. *)
Definition read_cookie (rand : Source) : gostring := take 16 (avail rand ++ repeat chNUL 16).

(** The message of [sendKexInit]. *)
Definition kexInit_of (c : hsConfig) (firstKex : bool) (rand : Source) : kexInitMsg :=
  let algos := hc_config c in
  Mk_kexInitMsg (read_cookie rand)
    (sc_KeyExchanges algos ++
     (if isServer c then if firstKex then [kexStrictServer] else []
      else if firstKex then [extInfoClient; kexStrictClient] else []))
    (if isServer c then concat (map hostKey_algos (hc_hostKeys c)) else hc_hostKeyAlgorithms c)
    (sc_Ciphers algos) (sc_Ciphers algos) (sc_MACs algos) (sc_MACs algos) supportedCompressions supportedCompressions
    [] [] false 0.

(** ** Key exchange *)
Record kexState := mkKexState {
  ks_algorithms : option NegotiatedAlgorithms; ks_strictMode : bool; ks_sessionID : option gostring }.

(** Computations over a [kexState] that talk to the peer and may fail. *)
Definition km (A : Type) : Type := kexState -> proto (kexState * result packet_error A).
#[export] Instance km_ret : MRet km := fun A a st => Done (Ok (st, Ok a)).
#[export] Instance km_bind : MBind km := fun A B f m st =>
  m st ≫= fun x => match x with (st, Ok a) => f a st | (st, Err e) => Done (Ok (st, Err e)) end.

Fixpoint catch {A} (m : proto A) : proto (result packet_error A) :=
  match m with
  | Done r => Done (Ok r)
  | Send p k => Send p (fun o => catch (k o))
  | Recv k => Recv (fun r => catch (k r))
  | Call c k => Call c (fun o => catch (k o))
  | Stuck => Stuck
  end.
Definition of_proto {A} (m : proto A) : km A := fun st => r ← catch m; Done (Ok (st, r)).
Definition km_fail {A} (e : packet_error) : km A := fun st => Done (Ok (st, Err e)).
Definition km_get : km kexState := fun st => Done (Ok (st, Ok st)).
Definition km_put (st : kexState) : km unit := fun _ => Done (Ok (st, Ok tt)).
Definition km_call (c : keyingCall) : km unit :=
  fun st => Call c (fun o => Done (Ok (st, match o with None => Ok tt | Some e => Err e end))).

Definition km_notify (c : keyingCall) : km unit := fun st => Call c (fun _ => Done (Ok (st, Ok tt))).

Definition negotiation_message (e : AlgorithmNegotiationError) : gostring :=
  let quoted l := go "[" ++ Join (map Quote l) (go " ") ++ go "]" in
  go "ssh: no common algorithm for " ++ ne_What e ++ go "; we offered: " ++ quoted (ne_Supported e)
  ++ go ", peer offered: " ++ quoted (ne_Requested e).

(** [t.algorithms, err = findAgreedAlgorithms(...)]. *)
Definition negotiate (isClient : bool) (clientInit serverInit : kexInitMsg) : km NegotiatedAlgorithms :=
  st ← km_get;
  match findAgreedAlgorithms isClient clientInit serverInit with
  | Err e => km_put (mkKexState None (ks_strictMode st) (ks_sessionID st));; km_fail (newError (negotiation_message e))
  | Ok algs => km_put (mkKexState (Some algs) (ks_strictMode st) (ks_sessionID st));; mret algs
  end.


(** [l[0]]. *)
Definition first_name (l : list gostring) : km gostring :=
  match l with x :: _ => mret x | [] => fun _ => Stuck end.
(** [packet[0]]. *)
Definition first_byte (p : gostring) : km Z := match p with b :: _ => mret (bv b) | [] => fun _ => Stuck end.

Definition verifyHostKeySignature (hostKey : Key) (algo : gostring) (result : kexResult) : option packet_error :=
  match parseSignatureBody (kr_Signature result) with
  | Some (sig, []) =>
      let a := underlyingAlgo algo in
      if negb (sig_Format sig =s a)
      then Some (newError (go "ssh: invalid signature algorithm " ++ Quote (sig_Format sig) ++ go ", expected " ++ Quote a))
      else match Verify false hostKey (kr_H result) sig with Some e => Some (newError (err_msg e)) | None => None end
  | _ => Some (newError (go "ssh: signature parse error"))
  end.

Definition hs_server (c : hsConfig) (hostKeyAlgo : gostring) (kex : kexAlgorithm) (rand : Source) (entropy : gostring)
    (magics : handshakeMagics) : km kexResult :=
  match pickHostKey (hc_hostKeys c) hostKeyAlgo with
  | None => km_fail (newError (go "ssh: internal error: negotiated unsupported signature type"))
  | Some hostKey =>
      x ← of_proto (kex_Server kex rand entropy magics hostKey hostKeyAlgo);
      match x with
      | (r, None, _) => mret r
      | (_, Some e, _) => km_fail e
      end
  end.

Definition hs_client (c : hsConfig) (hostKeyAlgo : gostring) (kex : kexAlgorithm) (rand : Source) (entropy : gostring)
    (magics : handshakeMagics) : km kexResult :=
  x ← of_proto (kex_Client kex rand entropy magics);
  match x with
  | (_, Some e, _) => km_fail e
  | (result, None, _) =>
      match ParsePublicKey (kr_HostKey result) with
      | Err e => km_fail (newError (err_msg e))
      | Ok hostKey =>
          match verifyHostKeySignature hostKey hostKeyAlgo result with
          | Some e => km_fail e
          | None =>
              match hc_hostKeyCallback c (hc_dialAddress c) (hc_remoteAddr c) hostKey with
              | Some e => km_fail (newError (err_msg e))
              | None => mret result
              end
          end
      end
  end.

Definition extInfo_of (publicKeyAuthAlgorithms : list gostring) : extInfoMsg :=
  let algos := Join publicKeyAuthAlgorithms (go ",") in
  let field (payload s : gostring) := appendInt payload (len s) ++ s in
  Mk_extInfoMsg 2
    (field (field (field (field [] (go "server-sig-algs")) algos) (go "ping@openssh.com")) (go "0")).

Definition newKeysPacket : gostring := [vb msgNewKeys].

Definition with_SessionID (r : kexResult) (id : gostring) : kexResult :=
  mkKexResult (kr_H r) (kr_K r) (kr_HostKey r) (kr_Signature r) (kr_Hash r) id.

(** A packet that the other side sent on a guess of the algorithms that was wrong. *)
Definition skip_wrong_guess (otherInit clientInit serverInit : kexInitMsg) : km unit :=
  if kexInit_FirstKexFollows otherInit then
    ck ← first_name (kexInit_KexAlgos clientInit);
    sk ← first_name (kexInit_KexAlgos serverInit);
    wrong ← (if negb (ck =s sk) then mret true
             else chk ← first_name (kexInit_ServerHostKeyAlgos clientInit);
                  shk ← first_name (kexInit_ServerHostKeyAlgos serverInit);
                  mret (negb (chk =s shk)));
    if wrong : bool then of_proto kex_readPacket;; mret tt else mret tt
  else mret tt.

Definition hs_magics (c : hsConfig) (sentInitPacket otherInitPacket : gostring) : handshakeMagics :=
  mkMagics (hc_clientVersion c) (hc_serverVersion c)
    (if isServer c then otherInitPacket else sentInitPacket)
    (if isServer c then sentInitPacket else otherInitPacket).

(** Whether the other side asks for the strict mode, which counts in the first exchange. *)
Definition asks_strict (c : hsConfig) (otherInit : kexInitMsg) : bool :=
  contains (kexInit_KexAlgos otherInit) (if isServer c then kexStrictClient else kexStrictServer).

(** The rest of an exchange, once the method has returned its result. *)
Definition finishKeyExchange (c : hsConfig) (algs : NegotiatedAlgorithms) (clientInit : kexInitMsg) (result : kexResult)
    : km unit :=
  st ← km_get;
  let firstKeyExchange := is_nil (ks_sessionID st) in
  let sessionID := match ks_sessionID st with None => kr_H result | Some id => id end in
  km_put (mkKexState (ks_algorithms st) (ks_strictMode st) (Some sessionID));;
  km_call (callPrepareKeyChange algs (with_SessionID result sessionID));;
  of_proto (kex_writePacket newKeysPacket);;
  (if isServer c && firstKeyExchange && contains (kexInit_KexAlgos clientInit) extInfoClient
   then of_proto (kex_writePacket (MarshalMsg (extInfo_of (hc_publicKeyAuthAlgorithms c))))
   else mret tt);;
  packet ← of_proto kex_readPacket;
  b ← first_byte packet;
  if negb (b =? msgNewKeys) then km_fail (newError (err_msg (unexpectedMessageError msgNewKeys b)))
  else if firstKeyExchange then km_notify callSetInitialKEXDone else mret tt.

Definition enterKeyExchange (c : hsConfig) (sent : kexInitMsg * gostring) (rand : Source) (entropy : gostring)
    (otherInitPacket : gostring) : km unit :=
  let '(sentInitMsg, sentInitPacket) := sent in
  otherInit ← of_proto (lift_res (UnmarshalMsg kexInitMsg otherInitPacket));
  let isClient := negb (isServer c) in
  let clientInit := if isClient then sentInitMsg else otherInit in
  let serverInit := if isClient then otherInit else sentInitMsg in
  let magics := hs_magics c sentInitPacket otherInitPacket in
  algs ← negotiate isClient clientInit serverInit;
  st ← km_get;
  (if is_nil (ks_sessionID st) && asks_strict c otherInit
   then km_put (mkKexState (ks_algorithms st) true (ks_sessionID st));; km_call callSetStrictMode
   else mret tt);;
  skip_wrong_guess otherInit clientInit serverInit;;
  kex ← match kexAlgo_of (na_KeyExchange algs) with
        | None => km_fail (newError (go "ssh: unexpected key exchange algorithm " ++ na_KeyExchange algs))
        | Some kex => mret kex
        end;
  result ← (if isServer c then hs_server c (na_HostKey algs) kex rand entropy magics
            else hs_client c (na_HostKey algs) kex rand entropy magics);
  finishKeyExchange c algs clientInit result.

(** ** What an exchange may do *)

(** The phases of an exchange: until the keys are ready, then the change of keys. *)
Inductive phase := Exchanging | Prepared | Changed.
Inductive allowed_send (c : hsConfig) : phase -> gostring -> phase -> Prop :=
| send_kex p : kex_packet p -> allowed_send c Exchanging p Exchanging
| send_newKeys : allowed_send c Prepared newKeysPacket Changed
| send_extInfo : isServer c = true ->
    allowed_send c Changed (MarshalMsg (extInfo_of (hc_publicKeyAuthAlgorithms c))) Changed.

Definition client_accepts (c : hsConfig) (hostKeyAlgo : gostring) (r : kexResult) : Prop :=
  exists hostKey sig, ParsePublicKey (kr_HostKey r) = Ok hostKey /\ parseSignatureBody (kr_Signature r) = Some (sig, []) /\
    sig_Format sig = underlyingAlgo hostKeyAlgo /\ Verify false hostKey (kr_H r) sig = None /\
    hc_hostKeyCallback c (hc_dialAddress c) (hc_remoteAddr c) hostKey = None.
Definition server_signed (c : hsConfig) (hostKeyAlgo : gostring) (r : kexResult) : Prop :=
  exists priv rand rand' sig, pickHostKey (hc_hostKeys c) hostKeyAlgo = Some priv /\ kr_HostKey r = PublicKey_Marshal priv /\
    SignWithAlgorithm priv rand (kr_H r) (underlyingAlgo hostKeyAlgo) = (Ok sig, rand') /\ kr_Signature r = MarshalMsg sig.

(** A result that may be used for new keys: of the negotiated algorithm over these
    handshakes, authenticated, and with the identifier of the session. *)
Definition justified (c : hsConfig) (m : handshakeMagics) (first : option gostring) (algs : NegotiatedAlgorithms)
    (r : kexResult) : Prop :=
  (exists a, kexAlgo_of (na_KeyExchange algs) = Some a /\
     kex_result_ok (if isServer c then AsServer else AsClient) a m r) /\
  (if isServer c then server_signed c (na_HostKey algs) r else client_accepts c (na_HostKey algs) r) /\
  kr_SessionID r = match first with None => kr_H r | Some id => id end.

Inductive allowed_call (c : hsConfig) (m : handshakeMagics) (first : option gostring) :
    phase -> keyingCall -> phase -> Prop :=
| call_strict : first = None -> allowed_call c m first Exchanging callSetStrictMode Exchanging
| call_prepare algs r : justified c m first algs r ->
    allowed_call c m first Exchanging (callPrepareKeyChange algs r) Prepared
| call_done : first = None -> allowed_call c m first Changed callSetInitialKEXDone Changed.

(** Every run of the tree follows the phases and none is stuck; [Q] holds at its end. *)
Fixpoint obeys {A} (c : hsConfig) (m : handshakeMagics) (first : option gostring) (ph : phase) (t : proto A)
    (Q : phase -> result packet_error A -> Prop) : Prop :=
  match t with
  | Done r => Q ph r
  | Send p k => exists ph', allowed_send c ph p ph' /\ forall o, obeys c m first ph' (k o) Q
  | Recv k => forall r, readable r -> obeys c m first ph (k r) Q
  | Call x k => exists ph', allowed_call c m first ph x ph' /\ forall o, obeys c m first ph' (k o) Q
  | Stuck => False
  end.

(** ** Proofs about trees *)
Section Obeys.
Context (c : hsConfig) (m : handshakeMagics) (first : option gostring).
Local Abbreviation obeys := (obeys c m first).

Lemma obeys_bind {A B} ph (t : proto A) (f : A -> proto B) Q :
  obeys ph t (fun ph' r => match r with Ok a => obeys ph' (f a) Q | Err e => Q ph' (Err e) end) -> obeys ph (t ≫= f) Q.
Proof.
  revert ph. induction t as [[a|e]|p k IH|k IH|x k IH|]; intros ph Ht; cbn in *; try done.
  - destruct Ht as (ph' & Hs & Ht). exists ph'. split; [done|]. intros o. apply IH, Ht.
  - intros r Hr. by apply IH, Ht.
  - destruct Ht as (ph' & Hs & Ht). exists ph'. split; [done|]. intros o. apply IH, Ht.
Qed.

Lemma obeys_mono {A} ph (t : proto A) (P Q : phase -> result packet_error A -> Prop) :
  obeys ph t P -> (forall ph r, P ph r -> Q ph r) -> obeys ph t Q.
Proof.
  intros Ht HPQ. revert ph Ht. induction t as [r|p k IH|k IH|x k IH|]; intros ph Ht; cbn in *; eauto.
  - destruct Ht as (ph' & Hs & Ht). exists ph'. eauto.
  - destruct Ht as (ph' & Hs & Ht). exists ph'. eauto.
Qed.

(** A key exchange method runs in the first phase. *)
Lemma obeys_catch {A} (t : proto A) Q :
  always t Q -> obeys Exchanging (catch t) (fun ph r => ph = Exchanging /\ exists x, r = Ok x /\ Q x).
Proof.
  induction t as [r|p k IH|k IH|x k IH|]; intros Ht; cbn in *; try done.
  - split; [done|]. eauto.
  - exists Exchanging. split; [apply send_kex, Ht|]. intros o. apply IH, Ht.
  - intros r Hr. by apply IH, Ht.
Qed.

(** [kobeys ph st t E P]: [E] holds of the state in the end, and [P] on success. *)
Definition kobeys {A} (ph : phase) (st : kexState) (t : km A) (E : kexState -> Prop) (P : phase -> kexState -> A -> Prop) : Prop :=
  obeys ph (t st) (fun ph' r => exists st' x, r = Ok (st', x) /\ E st' /\ match x with Ok a => P ph' st' a | Err _ => True end).

Lemma kobeys_bind {A B} ph st (t : km A) (f : A -> km B) E P R :
  kobeys ph st t E P -> (forall ph' st' a, E st' -> P ph' st' a -> kobeys ph' st' (f a) E R) -> kobeys ph st (t ≫= f) E R.
Proof.
  intros Ht Hf. unfold kobeys in *. apply obeys_bind. eapply obeys_mono; [exact Ht|].
  intros ph' r (st' & x & -> & HE & HP). destruct x as [a|e]; [by apply Hf|]. cbn. eauto.
Qed.

Lemma kobeys_ret {A} ph st (a : A) (E : kexState -> Prop) (P : phase -> kexState -> A -> Prop) :
  E st -> P ph st a -> kobeys ph st (mret a) E P.
Proof. intros HE HP. cbn. eauto. Qed.
Lemma kobeys_fail {A} ph st e (E : kexState -> Prop) (P : phase -> kexState -> A -> Prop) :
  E st -> kobeys ph st (km_fail e) E P.
Proof. intros HE. cbn. eauto. Qed.
Lemma kobeys_of_proto {A} st (t : proto A) (E : kexState -> Prop) Q :
  E st -> always t (on_ok Q) -> kobeys Exchanging st (of_proto t) E (fun ph st' a => ph = Exchanging /\ st' = st /\ Q a).
Proof.
  intros HE Ht. unfold kobeys, of_proto. apply obeys_bind. eapply obeys_mono; [by apply obeys_catch|].
  intros ph r (-> & x & -> & Hx). cbn. exists st, x. split; [done|]. split; [done|]. by destruct x.
Qed.

Lemma kobeys_mono {A} ph st (t : km A) E (P R : phase -> kexState -> A -> Prop) :
  kobeys ph st t E P -> (forall ph' st' a, E st' -> P ph' st' a -> R ph' st' a) -> kobeys ph st t E R.
Proof.
  intros Ht HPR. eapply obeys_mono; [exact Ht|]. intros ph' r (st' & x & -> & HE & HP). exists st', x.
  split; [done|]. split; [done|]. destruct x; auto.
Qed.

(** What a successful method leaves: a result that is authenticated for this session. *)
Definition authenticated (algs : NegotiatedAlgorithms) (r : kexResult) : Prop :=
  (exists a, kexAlgo_of (na_KeyExchange algs) = Some a /\
     kex_result_ok (if isServer c then AsServer else AsClient) a m r) /\
  (if isServer c then server_signed c (na_HostKey algs) r else client_accepts c (na_HostKey algs) r).

Context `{!KexLaws}.

Lemma hs_client_obeys st algs a rand entropy (E : kexState -> Prop) :
  E st -> isServer c = false -> kexAlgo_of (na_KeyExchange algs) = Some a ->
  kobeys Exchanging st (hs_client c (na_HostKey algs) a rand entropy m) E
    (fun ph st' r => ph = Exchanging /\ st' = st /\ authenticated algs r).
Proof.
  intros HE Hs Ha. unfold hs_client. pose proof (kexAlgo_of_good _ _ Ha) as Hg.
  eapply kobeys_bind; [by apply kobeys_of_proto, kex_Client_always|].
  intros ph st' [[r [e|]] rand'] _ (-> & -> & Herr & _ & Hok); [done|].
  destruct (ParsePublicKey (kr_HostKey r)) as [key|e] eqn:Ek; [|by apply kobeys_fail].
  destruct (verifyHostKeySignature key (na_HostKey algs) r) eqn:Ev; [by apply kobeys_fail|].
  destruct (hc_hostKeyCallback _ _ _ _) eqn:Ec; [by apply kobeys_fail|].
  apply kobeys_ret; [done|]. split; [done|]. split; [done|]. unfold authenticated. rewrite Hs.
  split; [by exists a|]. unfold verifyHostKeySignature in Ev.
  destruct (parseSignatureBody (kr_Signature r)) as [[sg [|]]|] eqn:Ep; [|done..].
  destruct (gos_eqb_spec (sig_Format sg) (underlyingAlgo (na_HostKey algs))) as [Hf|]; [|done].
  cbn [negb] in Ev. destruct (Verify false key (kr_H r) sg) eqn:EV; [done|]. by exists key, sg.
Qed.

Lemma hs_server_obeys st algs a rand entropy (E : kexState -> Prop) :
  E st -> isServer c = true -> kexAlgo_of (na_KeyExchange algs) = Some a ->
  kobeys Exchanging st (hs_server c (na_HostKey algs) a rand entropy m) E
    (fun ph st' r => ph = Exchanging /\ st' = st /\ authenticated algs r).
Proof.
  intros HE Hs Ha. unfold hs_server. pose proof (kexAlgo_of_good _ _ Ha) as Hg.
  destruct (pickHostKey _ _) as [priv|] eqn:Ep; [|by apply kobeys_fail].
  eapply kobeys_bind; [by apply kobeys_of_proto, kex_Server_always|].
  intros ph st' [[r [e|]] rand'] _ (-> & -> & Hk & Hok & rd & rd' & sg & Hsig & Hsr); [by apply kobeys_fail|].
  apply kobeys_ret; [done|]. split; [done|]. split; [done|]. unfold authenticated. rewrite Hs.
  split; [by exists a|]. by exists priv, rd, rd', sg.
Qed.

Lemma kobeys_call ph ph' st x (E : kexState -> Prop) :
  E st -> allowed_call c m first ph x ph' -> kobeys ph st (km_call x) E (fun ph'' st' _ => ph'' = ph' /\ st' = st).
Proof. intros HE Hx. exists ph'. split; [done|]. intros [e|]; cbn; eauto 6. Qed.
Lemma kobeys_notify ph ph' st x (E : kexState -> Prop) :
  E st -> allowed_call c m first ph x ph' -> kobeys ph st (km_notify x) E (fun ph'' st' _ => ph'' = ph' /\ st' = st).
Proof. intros HE Hx. exists ph'. split; [done|]. intros o. cbn. eauto 6. Qed.
Lemma kobeys_write ph ph' st p (E : kexState -> Prop) :
  E st -> allowed_send c ph p ph' ->
  kobeys ph st (of_proto (kex_writePacket p)) E (fun ph'' st' _ => ph'' = ph' /\ st' = st).
Proof. intros HE Hp. exists ph'. split; [done|]. intros [e|]; cbn; eauto 6. Qed.
Lemma kobeys_read ph st (E : kexState -> Prop) :
  E st -> kobeys ph st (of_proto kex_readPacket) E (fun ph' st' p => ph' = ph /\ st' = st /\ p <> []).
Proof. intros HE [p|e] Hr; cbn; eauto 8. Qed.
Lemma kobeys_put ph st st' (E : kexState -> Prop) :
  E st' -> kobeys ph st (km_put st') E (fun ph'' st'' _ => ph'' = ph /\ st'' = st').
Proof. intros HE. cbn. eauto 8. Qed.

Lemma findAgreed_heads b ci si algs :
  findAgreedAlgorithms b ci si = Ok algs ->
  kexInit_KexAlgos ci <> [] /\ kexInit_KexAlgos si <> [] /\
  kexInit_ServerHostKeyAlgos ci <> [] /\ kexInit_ServerHostKeyAlgos si <> [].
Proof.
  unfold findAgreedAlgorithms, findCommon.
  destruct (find _ (kexInit_KexAlgos ci)) as [k|] eqn:Ek; [|done]. cbn [mbind result_bind].
  destruct (find _ (kexInit_ServerHostKeyAlgos ci)) as [h|] eqn:Eh; [|done]. intros _.
  apply List.find_some in Ek as [Hk1 Hk2], Eh as [Hh1 Hh2]. apply contains_spec in Hk2, Hh2.
  repeat split; intros E0; rewrite E0 in *; (done || by apply elem_of_nil in Hk2 || by apply elem_of_nil in Hh2).
Qed.

Lemma first_name_obeys ph st l (E : kexState -> Prop) :
  E st -> l <> [] -> kobeys ph st (first_name l) E (fun ph' st' _ => ph' = ph /\ st' = st).
Proof. intros HE Hl. destruct l; [done|]. by apply kobeys_ret. Qed.

(** The identifier of the session does not change once there is one. *)
Definition stable (st : kexState) : Prop := forall id, first = Some id -> ks_sessionID st = Some id.

(** What an exchange that succeeds leaves. *)
Definition completed (st0 : kexState) (sentInitMsg : kexInitMsg) (other : gostring) (ph : phase) (st : kexState) : Prop :=
  ph = Changed /\
  exists id algs otherInit, ks_sessionID st = Some id /\ ks_algorithms st = Some algs /\
    UnmarshalMsg kexInitMsg other = Ok otherInit /\
    findAgreedAlgorithms (negb (isServer c)) (if isServer c then otherInit else sentInitMsg)
      (if isServer c then sentInitMsg else otherInit) = Ok algs /\
    ks_strictMode st = ks_strictMode st0 || (is_nil first && asks_strict c otherInit).

Lemma finishKeyExchange_obeys st algs ci r :
  stable st -> ks_sessionID st = first -> authenticated algs r ->
  kobeys Exchanging st (finishKeyExchange c algs ci r) stable
    (fun ph st' _ => ph = Changed /\ st' = mkKexState (ks_algorithms st) (ks_strictMode st)
                                            (Some match first with None => kr_H r | Some id => id end)).
Proof.
  intros HE Hst [Hkex Hauth]. unfold finishKeyExchange.
  eapply kobeys_bind; [apply (kobeys_ret _ _ _ _ (fun ph st' a => ph = Exchanging /\ st' = st /\ a = st)); by auto|].
  intros ph st' a _ (-> & -> & ->). rewrite Hst. set (sessionID := match first with None => _ | _ => _ end). set (st1 := mkKexState _ _ _).
  assert (HE1 : stable st1) by (intros id Hid; unfold st1, sessionID; cbn; by rewrite Hid).
  eapply kobeys_bind; [by apply kobeys_put|]. intros ph st' _ _ [-> ->].
  eapply kobeys_bind; [apply (kobeys_call _ Prepared); [done|]|].
  { constructor. split; [exact Hkex|]. split; [exact Hauth|]. done. }
  intros ph st' _ _ [-> ->]. eapply kobeys_bind; [apply (kobeys_write _ Changed); [done|constructor]|].
  intros ph st' _ _ [-> ->]. eapply (kobeys_bind _ _ _ _ _ (fun ph st' _ => ph = Changed /\ st' = st1)).
  { destruct (_ && _) eqn:Ext; [bool_simp; apply kobeys_write; [done|by constructor]|by apply kobeys_ret]. }
  intros ph st' _ _ [-> ->]. eapply kobeys_bind; [by apply kobeys_read|].
  intros ph st' p _ (-> & -> & Hp). destruct p as [|b p]; [done|].
  eapply kobeys_bind; [by apply (kobeys_ret _ _ _ _ (fun ph st' _ => ph = Changed /\ st' = st1))|].
  intros ph st' b' _ [-> ->]. destruct (negb _); [by apply kobeys_fail|].
  destruct (is_nil first) eqn:Ef; [|by apply kobeys_ret]. apply kobeys_notify; [done|]. constructor. by apply is_nil_true.
Qed.

Lemma negotiate_obeys st b ci si :
  stable st ->
  kobeys Exchanging st (negotiate b ci si) stable (fun ph st' algs => ph = Exchanging /\
    st' = mkKexState (Some algs) (ks_strictMode st) (ks_sessionID st) /\ findAgreedAlgorithms b ci si = Ok algs).
Proof.
  intros HE. unfold negotiate. eapply kobeys_bind; [apply (kobeys_ret _ _ _ _ (fun ph st' a => ph = Exchanging /\ st' = st /\ a = st)); by auto|].
  intros ph st' a _ (-> & -> & ->). destruct (findAgreedAlgorithms b ci si) as [algs|e].
  - eapply kobeys_bind; [by apply kobeys_put|]. intros ph st' _ HE' [-> ->]. by apply kobeys_ret.
  - eapply kobeys_bind; [by apply kobeys_put|]. intros ph st' _ HE' [-> ->]. by apply kobeys_fail.
Qed.

Lemma skip_wrong_guess_obeys st b algs otherInit ci si (E : kexState -> Prop) :
  E st -> findAgreedAlgorithms b ci si = Ok algs ->
  kobeys Exchanging st (skip_wrong_guess otherInit ci si) E (fun ph st' _ => ph = Exchanging /\ st' = st).
Proof.
  intros HE (Hck & Hsk & Hch & Hsh)%findAgreed_heads. unfold skip_wrong_guess.
  destruct (kexInit_FirstKexFollows otherInit); [|by apply kobeys_ret].
  eapply kobeys_bind; [by apply first_name_obeys|]. intros ph st' ck _ [-> ->].
  eapply kobeys_bind; [by apply first_name_obeys|]. intros ph st' sk _ [-> ->].
  eapply (kobeys_bind _ _ _ _ _ (fun ph st' _ => ph = Exchanging /\ st' = st)).
  { destruct (negb _); [by apply kobeys_ret|].
    eapply kobeys_bind; [by apply first_name_obeys|]. intros ph st' chk _ [-> ->].
    eapply kobeys_bind; [by apply first_name_obeys|]. intros ph st' shk _ [-> ->]. by apply kobeys_ret. }
  intros ph st' wrong _ [-> ->]. destruct wrong; [|by apply kobeys_ret].
  eapply kobeys_bind; [by apply kobeys_read|]. intros ph st' p _ (-> & -> & _). by apply kobeys_ret.
Qed.

(** Every run of an exchange follows the phases: before the keys are prepared only
    messages of the exchange are sent, the keys are prepared from a justified result, and
    then they are changed. *)
Lemma enterKeyExchange_obeys sent rand entropy other st :
  m = hs_magics c (snd sent) other -> ks_sessionID st = first ->
  kobeys Exchanging st (enterKeyExchange c sent rand entropy other) stable
    (fun ph st' _ => completed st (fst sent) other ph st').
Proof.
  intros Hm Hst. destruct sent as [sentInitMsg sentInitPacket]. cbn [fst snd] in *. unfold enterKeyExchange. rewrite <- Hm.
  assert (HE : stable st) by (intros id Hid; by rewrite Hst).
  eapply kobeys_bind; [apply kobeys_of_proto; [done|apply always_lift_res]|]. intros ph st' otherInit _ (-> & -> & Hother).
  rewrite !negb_if. eapply kobeys_bind; [by apply negotiate_obeys|]. intros ph st1 algs HE1 (-> & -> & Hagreed).
  set (st1 := mkKexState _ _ _) in *.
  eapply kobeys_bind; [apply (kobeys_ret _ _ _ _ (fun ph st' a => ph = Exchanging /\ st' = st1 /\ a = st1)); by auto|].
  intros ph st' a _ (-> & -> & ->). cbn [ks_sessionID st1]. rewrite Hst.
  set (st2 := mkKexState (Some algs) (ks_strictMode st || (is_nil first && asks_strict c otherInit)) first).
  assert (HE2 : stable st2) by (intros id Hid; done).
  eapply (kobeys_bind _ _ _ _ _ (fun ph st' _ => ph = Exchanging /\ st' = st2)).
  { unfold st2. destruct (is_nil first && asks_strict c otherInit) eqn:Es.
    - eapply kobeys_bind; [by apply kobeys_put|]. intros ph st' _ HE' [-> ->]. bool_simp.
      eapply kobeys_mono; [apply (kobeys_call _ Exchanging); [done|constructor; by apply is_nil_true]|].
      intros ph st' _ _ [-> ->]. by rewrite orb_true_r.
    - rewrite orb_false_r. apply kobeys_ret; [done|]. split; [done|]. unfold st1. by rewrite Hst. }
  intros ph st' _ _ [-> ->]. eapply kobeys_bind; [by eapply skip_wrong_guess_obeys|]. intros ph st' _ _ [-> ->].
  destruct (kexAlgo_of (na_KeyExchange algs)) as [kex|] eqn:Ekex.
  2:{ eapply (kobeys_bind _ _ _ _ _ (fun _ _ _ => False)); [by apply kobeys_fail|done]. }
  eapply kobeys_bind; [by apply (kobeys_ret _ _ _ _ (fun ph st' a => ph = Exchanging /\ st' = st2 /\ a = kex))|].
  intros ph st' a _ (-> & -> & ->). eapply (kobeys_bind _ _ _ _ _ (fun ph st' r => ph = Exchanging /\ st' = st2 /\ authenticated algs r)).
  { destruct (isServer c) eqn:Es; [by apply hs_server_obeys|by apply hs_client_obeys]. }
  intros ph st' r _ (-> & -> & Hauth).
  eapply kobeys_mono; [by apply finishKeyExchange_obeys|].
  intros ph st' _ _ [-> ->]. split; [done|]. eexists _, algs, otherInit. cbn [ks_sessionID ks_algorithms ks_strictMode st2].
  done.
Qed.
End Obeys.
End Handshake.

(** ** Two ends that talk to each other

    The states of a conversation: the two trees, the packets under way in each
    direction, and the calls each end has made.  The ends take their steps in any order. *)
Record conversation (A B : Type) := mkConv {
  cv_client : proto A; cv_server : proto B; toServer : list gostring; toClient : list gostring;
  clientCalls : list keyingCall; serverCalls : list keyingCall }.
Arguments mkConv {A B}. Arguments cv_client {A B}. Arguments cv_server {A B}. Arguments toServer {A B}.
Arguments toClient {A B}. Arguments clientCalls {A B}. Arguments serverCalls {A B}.

Inductive conv {A B} : conversation A B -> conversation A B -> Prop :=
| client_sends p k s q r cc sc : conv (mkConv (Send p k) s q r cc sc) (mkConv (k None) s (q ++ [p]) r cc sc)
| client_receives k s q p r cc sc : conv (mkConv (Recv k) s q (p :: r) cc sc) (mkConv (k (Ok p)) s q r cc sc)
| client_calls x k s q r cc sc : conv (mkConv (Call x k) s q r cc sc) (mkConv (k None) s q r (cc ++ [x]) sc)
| server_sends c p k q r cc sc : conv (mkConv c (Send p k) q r cc sc) (mkConv c (k None) q (r ++ [p]) cc sc)
| server_receives c k p q r cc sc : conv (mkConv c (Recv k) (p :: q) r cc sc) (mkConv c (k (Ok p)) q r cc sc)
| server_calls c x k q r cc sc : conv (mkConv c (Call x k) q r cc sc) (mkConv c (k None) q r cc (sc ++ [x])).

(** The ends are deterministic and the queues are their only contact, so their steps
    commute. *)
Lemma conv_diamond {A B} (x y z : conversation A B) :
  conv x y -> conv x z -> y = z \/ exists w, conv y w /\ conv z w.
Proof.
  intros Hy Hz. destruct Hy; inversion Hz; subst; try (by left); right; eexists; split; (econstructor || idtac);
    rewrite <- ?app_assoc; cbn [app]; econstructor.
Qed.

(** A conversation that has ended has no other end. *)
Definition ended {A B} (x : conversation A B) : Prop :=
  match cv_client x, cv_server x with Done _, Done _ => True | _, _ => False end.
Lemma ended_final {A B} (x y : conversation A B) : ended x -> ~ conv x y.
Proof. intros Hx Hy. destruct Hy as [| | |c|c|c]; cbn in Hx; try done; by destruct c. Qed.

(** Whatever steps were taken, a conversation that can end still ends that way. *)
Lemma conv_confluent {A B} (x y z : conversation A B) :
  rtc conv x z -> ended z -> rtc conv x y -> rtc conv y z.
Proof.
  intros Hxz Hz Hxy. revert Hxz. induction Hxy as [x|x y' y Hxy' _ IH]; [done|]. intros Hxz. apply IH. clear IH.
  revert y' Hxy'. induction Hxz as [x|x x1 z Hx1 Hx1z IH]; intros y' Hxy'; [by exfalso; eapply (ended_final x)|].
  destruct (conv_diamond _ _ _ Hxy' Hx1) as [->|(w & Hw1 & Hw2)]; [done|].
  eapply rtc_l; [exact Hw1|]. by apply IH.
Qed.

(** Contexts of a tree, such as the continuation of a bind, keep its steps. *)
Record context {A B} (F : proto A -> proto B) : Prop := {
  cx_send p k : F (Send p k) = Send p (fun o => F (k o));
  cx_recv k : F (Recv k) = Recv (fun r => F (k r));
  cx_call x k : F (Call x k) = Call x (fun o => F (k o)) }.
Lemma context_bind {A B} (f : A -> proto B) : context (fun m => m ≫= f).
Proof. done. Qed.
Lemma context_catch {A} : context (A := A) catch.
Proof. done. Qed.
Lemma context_comp {A B C} (F : proto A -> proto B) (G : proto B -> proto C) :
  context F -> context G -> context (fun m => G (F m)).
Proof.
  intros [F1 F2 F3] [G1 G2 G3]. split; intros.
  - by rewrite F1, G1.
  - by rewrite F2, G2.
  - by rewrite F3, G3.
Qed.

Definition in_contexts {A A' B B'} (F : proto A -> proto A') (G : proto B -> proto B') (x : conversation A B) : conversation A' B' :=
  mkConv (F (cv_client x)) (G (cv_server x)) (toServer x) (toClient x) (clientCalls x) (serverCalls x).
Lemma conv_contexts {A A' B B'} (F : proto A -> proto A') (G : proto B -> proto B') x y :
  context F -> context G -> rtc conv x y -> rtc conv (in_contexts F G x) (in_contexts F G y).
Proof.
  intros [F1 F2 F3] [G1 G2 G3]. induction 1 as [x|x y z Hxy _ IH]; [done|]. eapply rtc_l; [|exact IH].
  destruct Hxy; unfold in_contexts; cbn [cv_client cv_server toServer toClient clientCalls serverCalls];
    rewrite ?F1, ?F2, ?F3, ?G1, ?G2, ?G3; constructor.
Qed.

(** The steps of [talk] are steps of a conversation; nothing is left under way. *)
Lemma talk_conv {A B} n (c : proto A) (s : proto B) q r cc sc rc rs :
  talk n c s q r = Some (rc, rs) -> rtc conv (mkConv c s q r cc sc) (mkConv (Done rc) (Done rs) [] [] cc sc).
Proof.
  revert c s q r. induction n as [|n IH]; intros c s q r; [done|]. cbn [talk].
  assert (Hstep : forall x c' s' q' r', conv x (mkConv c' s' q' r' cc sc) -> talk n c' s' q' r' = Some (rc, rs) ->
    rtc conv x (mkConv (Done rc) (Done rs) [] [] cc sc)) by (intros; eapply rtc_l; eauto).
  destruct c as [rc'|p k|k|x k|], s as [rs'|p' k'|k'|x' k'|]; try done;
    try (intros Ht; eapply Hstep; [|exact Ht]; by constructor).
  - destruct q, r; try done. by intros [= -> ->].
  - destruct q; [done|]. intros Ht. eapply Hstep; [|exact Ht]. constructor.
  - destruct r; [done|]. intros Ht. eapply Hstep; [|exact Ht]. constructor.
  - destruct r; [destruct q; [done|]|]; intros Ht; (eapply Hstep; [|exact Ht]); constructor.
Qed.

(** ** Agreement *)
Section Agreement.
Context `{CryptoLib, KexLib, UnicodeTables, KeyLib, !KexLaws}.

(** The method of an exchange, by the side. *)
Definition method (c : hsConfig) (algs : NegotiatedAlgorithms) (a : kexAlgorithm) (rand : Source) (entropy : gostring)
    (m : handshakeMagics) : km kexResult :=
  if isServer c then hs_server c (na_HostKey algs) a rand entropy m else hs_client c (na_HostKey algs) a rand entropy m.

Lemma km_bind_done {A B} (t : km A) (f : A -> km B) st st' a :
  t st = Done (Ok (st', Ok a)) -> (t ≫= f) st = f a st'.
Proof. intros E. unfold mbind, km_bind. by rewrite E. Qed.

(** What an end does with the packet of the other, without a guess of the peer: it may set
    the strict mode, and goes on with the method. *)
Definition strict_calls (strict : bool) : list keyingCall := if strict then [callSetStrictMode] else [].
Definition after_negotiation (c : hsConfig) (sent : kexInitMsg * gostring) (rand : Source) (entropy other : gostring)
    (st : kexState) (otherInit : kexInitMsg) (algs : NegotiatedAlgorithms) (a : kexAlgorithm) : proto (kexState * result packet_error unit) :=
  (method c algs a rand entropy (hs_magics c (snd sent) other) ≫=
   finishKeyExchange c algs (if isServer c then otherInit else fst sent))
  (mkKexState (Some algs) (ks_strictMode st || (is_nil (ks_sessionID st) && asks_strict c otherInit)) (ks_sessionID st)).

Lemma enterKeyExchange_start c sent rand entropy other st otherInit algs a :
  UnmarshalMsg kexInitMsg other = Ok otherInit -> kexInit_FirstKexFollows otherInit = false ->
  findAgreedAlgorithms (negb (isServer c)) (if isServer c then otherInit else fst sent)
    (if isServer c then fst sent else otherInit) = Ok algs ->
  kexAlgo_of (na_KeyExchange algs) = Some a ->
  let t := enterKeyExchange c sent rand entropy other st in
  let rest := after_negotiation c sent rand entropy other st otherInit algs a in
  if is_nil (ks_sessionID st) && asks_strict c otherInit then exists k, t = Call callSetStrictMode k /\ k None = rest
  else t = rest.
Proof.
  intros Hu Hf Hagreed Ha. cbv zeta. destruct sent as [sm sp]. unfold enterKeyExchange, after_negotiation, method. cbn [fst snd] in *.
  erewrite km_bind_done; [|by rewrite Hu]. rewrite !negb_if.
  erewrite km_bind_done; [|unfold negotiate; erewrite km_bind_done; [|done]; rewrite Hagreed; by erewrite km_bind_done].
  erewrite km_bind_done; [|done]. cbn [ks_sessionID ks_strictMode ks_algorithms]. unfold skip_wrong_guess. rewrite Hf, Ha.
  destruct (is_nil (ks_sessionID st) && asks_strict c otherInit) eqn:Es; rewrite ?orb_true_r, ?orb_false_r.
  - eexists. split; [reflexivity|]. cbn [mbind proto_bind].
    erewrite km_bind_done; [|done]. by erewrite km_bind_done.
  - do 2 (erewrite km_bind_done; [|done]). by erewrite km_bind_done.
Qed.

Definition session_of (first : option gostring) (r : kexResult) : gostring :=
  match first with None => kr_H r | Some id => id end.
Definition with_session (st : kexState) (id : gostring) : kexState :=
  mkKexState (ks_algorithms st) (ks_strictMode st) (Some id).
Definition change_calls (first : option gostring) (algs : NegotiatedAlgorithms) (r : kexResult) : list keyingCall :=
  callPrepareKeyChange algs (with_SessionID r (session_of first r)) :: if is_nil first then [callSetInitialKEXDone] else [].

Lemma finishKeyExchange_eq c algs ci r st :
  let first := ks_sessionID st in
  finishKeyExchange c algs ci r st =
  (km_call (callPrepareKeyChange algs (with_SessionID r (session_of first r)));;
   of_proto (kex_writePacket newKeysPacket);;
   (if isServer c && is_nil first && contains (kexInit_KexAlgos ci) extInfoClient
    then of_proto (kex_writePacket (MarshalMsg (extInfo_of (hc_publicKeyAuthAlgorithms c)))) else mret tt);;
   packet ← of_proto kex_readPacket;
   b ← first_byte packet;
   if negb (b =? msgNewKeys) then km_fail (newError (err_msg (unexpectedMessageError msgNewKeys b)))
   else if is_nil first then km_notify callSetInitialKEXDone else mret tt) (with_session st (session_of first r)).
Proof. reflexivity. Qed.

(** The two ends change keys: each prepares the result, sends NEWKEYS and waits for the
    other's; the server's list of algorithms is left for the client to read. *)
Lemma finish_conv cc cs algs algs' ci r first stc sts ccalls scalls :
  isServer cc = false -> isServer cs = true -> ks_sessionID stc = first -> ks_sessionID sts = first ->
  exists ext,
  rtc conv (mkConv (finishKeyExchange cc algs ci r stc) (finishKeyExchange cs algs' ci r sts) [] [] ccalls scalls)
    (mkConv (Done (Ok (with_session stc (session_of first r), Ok tt))) (Done (Ok (with_session sts (session_of first r), Ok tt)))
       [] ext (ccalls ++ change_calls first algs r) (scalls ++ change_calls first algs' r)).
Proof.
  intros Hcc Hcs Hc Hs. rewrite !finishKeyExchange_eq, Hcc, Hcs, Hc, Hs.
  exists (if is_nil first && contains (kexInit_KexAlgos ci) extInfoClient
          then [MarshalMsg (extInfo_of (hc_publicKeyAuthAlgorithms cs))] else []).
  cbn [negb andb]. destruct (is_nil first && contains (kexInit_KexAlgos ci) extInfoClient) eqn:Ext;
    unfold change_calls; destruct first as [id|]; cbn [is_nil session_of] in *; try done.
  all: eapply rtc_l; [apply client_calls|]; eapply rtc_l; [apply client_sends|].
  all: eapply rtc_l; [apply server_calls|]; eapply rtc_l; [apply server_sends|].
  1: eapply rtc_l; [apply server_sends|].
  all: eapply rtc_l; [apply server_receives|]; eapply rtc_l; [apply client_receives|].
  - eapply rtc_l; [apply server_calls|]; eapply rtc_l; [apply client_calls|]. rewrite <- !app_assoc. apply rtc_refl.
  - apply rtc_refl.
  - eapply rtc_l; [apply server_calls|]; eapply rtc_l; [apply client_calls|]. rewrite <- !app_assoc. apply rtc_refl.
Qed.

(** The client trusts the server's key: it parses, the callback accepts it, and it
    verifies the signatures that the server makes with it. *)
Definition trusted (cc : hsConfig) (priv : AlgorithmSigner) (algo : gostring) : Prop :=
  exists key, ParsePublicKey (PublicKey_Marshal priv) = Ok key /\
    hc_hostKeyCallback cc (hc_dialAddress cc) (hc_remoteAddr cc) key = None /\
    forall rand data sig rand', SignWithAlgorithm priv rand data (underlyingAlgo algo) = (Ok sig, rand') ->
      sig_Format sig = underlyingAlgo algo /\ (contains sk_formats (sig_Format sig) = false -> sig_Rest sig = []) /\
      Verify false key data sig = None.

Lemma verify_trusted cc priv algo r rand rand' sig :
  trusted cc priv algo -> signs priv algo -> kr_HostKey r = PublicKey_Marshal priv ->
  SignWithAlgorithm priv rand (kr_H r) (underlyingAlgo algo) = (Ok sig, rand') -> kr_Signature r = MarshalMsg sig ->
  exists key, ParsePublicKey (kr_HostKey r) = Ok key /\ verifyHostKeySignature key algo r = None /\
    hc_hostKeyCallback cc (hc_dialAddress cc) (hc_remoteAddr cc) key = None.
Proof.
  intros (key & Hkey & Hcb & Hver) Hsigns Hk Hsig Hm. exists key. rewrite Hk. split; [done|]. split; [|done].
  destruct (Hver _ _ _ _ Hsig) as (Hf & Hrest & HV). unfold verifyHostKeySignature. rewrite Hm, parseSignatureBody_Marshal.
  - by rewrite Hf, gos_eqb_refl, HV.
  - destruct (Hsigns rand (kr_H r)) as (sig' & rand2 & E & Hl). rewrite Hsig in E. injection E as <- <-.
    pose proof (len_nonneg (PublicKey_Marshal priv)). lia.
  - done.
Qed.

(** The whole exchange of two ends after their KEXINIT packets. *)
Record handshake_setting := mkSetting {
  hs_cc : hsConfig; hs_cs : hsConfig; hs_stc : kexState; hs_sts : kexState;
  hs_crand : Source; hs_srand : Source; hs_centropy : gostring; hs_sentropy : gostring;
  hs_ci : kexInitMsg; hs_si : kexInitMsg }.
Definition start_of (x : handshake_setting) : conversation (kexState * result packet_error unit) (kexState * result packet_error unit) :=
  mkConv
    (enterKeyExchange (hs_cc x) (hs_ci x, MarshalMsg (hs_ci x)) (hs_crand x) (hs_centropy x) (MarshalMsg (hs_si x)) (hs_stc x))
    (enterKeyExchange (hs_cs x) (hs_si x, MarshalMsg (hs_si x)) (hs_srand x) (hs_sentropy x) (MarshalMsg (hs_ci x)) (hs_sts x))
    [] [] [] [].

(** Two ends that can agree. *)
Record compatible (x : handshake_setting) (algs : NegotiatedAlgorithms) (a : kexAlgorithm) (priv : AlgorithmSigner) : Prop := {
  cp_client : isServer (hs_cc x) = false; cp_server : isServer (hs_cs x) = true;
  cp_versions : hc_clientVersion (hs_cc x) = hc_clientVersion (hs_cs x) /\ hc_serverVersion (hs_cc x) = hc_serverVersion (hs_cs x);
  cp_session : ks_sessionID (hs_stc x) = ks_sessionID (hs_sts x);
  cp_ci : UnmarshalMsg kexInitMsg (MarshalMsg (hs_ci x)) = Ok (hs_ci x) /\ kexInit_FirstKexFollows (hs_ci x) = false;
  cp_si : UnmarshalMsg kexInitMsg (MarshalMsg (hs_si x)) = Ok (hs_si x) /\ kexInit_FirstKexFollows (hs_si x) = false;
  cp_agreed : findAgreedAlgorithms true (hs_ci x) (hs_si x) = Ok algs;
  cp_kex : kexAlgo_of (na_KeyExchange algs) = Some a;
  cp_hostkey : pickHostKey (hc_hostKeys (hs_cs x)) (na_HostKey algs) = Some priv;
  cp_honest : honest a (hs_crand x) (hs_srand x) (hs_centropy x) (hs_sentropy x);
  cp_signs : signs priv (na_HostKey algs);
  cp_trusted : trusted (hs_cc x) priv (na_HostKey algs) }.

Definition strict_asked (x : handshake_setting) (c : hsConfig) (other : kexInitMsg) : bool :=
  is_nil (ks_sessionID (hs_stc x)) && asks_strict c other.
(** The end of the exchange: both ends succeed and prepare the keys of one result, for
    algorithms that mirror each other, in one session. *)
Definition end_of (x : handshake_setting) (algs : NegotiatedAlgorithms) (r : kexResult) (ext : list gostring) :
    conversation (kexState * result packet_error unit) (kexState * result packet_error unit) :=
  let first := ks_sessionID (hs_stc x) in
  let id := session_of first r in
  let sc := strict_asked x (hs_cc x) (hs_si x) in
  let ss := strict_asked x (hs_cs x) (hs_ci x) in
  mkConv
    (Done (Ok (mkKexState (Some algs) (ks_strictMode (hs_stc x) || sc) (Some id), Ok tt)))
    (Done (Ok (mkKexState (Some (flip_direction algs)) (ks_strictMode (hs_sts x) || ss) (Some id), Ok tt)))
    [] ext (strict_calls sc ++ change_calls first algs r) (strict_calls ss ++ change_calls first (flip_direction algs) r).

(** The first step of the two ends. *)
Lemma both_start x algs a priv :
  compatible x algs a priv ->
  rtc conv (start_of x)
    (mkConv (after_negotiation (hs_cc x) (hs_ci x, MarshalMsg (hs_ci x)) (hs_crand x) (hs_centropy x) (MarshalMsg (hs_si x))
               (hs_stc x) (hs_si x) algs a)
            (after_negotiation (hs_cs x) (hs_si x, MarshalMsg (hs_si x)) (hs_srand x) (hs_sentropy x) (MarshalMsg (hs_ci x))
               (hs_sts x) (hs_ci x) (flip_direction algs) a)
            [] [] (strict_calls (strict_asked x (hs_cc x) (hs_si x))) (strict_calls (strict_asked x (hs_cs x) (hs_ci x)))).
Proof.
  intros [Hc Hs Hv Hid [Hci Hcf] [Hsi Hsf] Hag Hkex Hpick Hhon Hsig Htr]. unfold start_of, strict_asked.
  assert (Hag' : findAgreedAlgorithms false (hs_ci x) (hs_si x) = Ok (flip_direction algs)).
  { pose proof (findAgreedAlgorithms_mirror (hs_ci x) (hs_si x) true) as Hm. cbn [negb] in Hm. by rewrite Hm, Hag. }
  pose proof (enterKeyExchange_start (hs_cc x) (hs_ci x, MarshalMsg (hs_ci x)) (hs_crand x) (hs_centropy x) (MarshalMsg (hs_si x))
    (hs_stc x) (hs_si x) algs a Hsi Hsf) as Sc.
  pose proof (enterKeyExchange_start (hs_cs x) (hs_si x, MarshalMsg (hs_si x)) (hs_srand x) (hs_sentropy x) (MarshalMsg (hs_ci x))
    (hs_sts x) (hs_ci x) (flip_direction algs) a Hci Hcf) as Ss.
  rewrite Hc in Sc. rewrite Hs in Ss. cbn [fst negb] in Sc, Ss. specialize (Sc Hag Hkex). specialize (Ss Hag' Hkex). cbv zeta in Sc, Ss.
  rewrite <- Hid in Ss.
  destruct (is_nil (ks_sessionID (hs_stc x)) && asks_strict (hs_cc x) (hs_si x)),
    (is_nil (ks_sessionID (hs_stc x)) && asks_strict (hs_cs x) (hs_ci x)).
  - destruct Sc as (kc & -> & <-), Ss as (ks & -> & <-).
    eapply rtc_l; [apply client_calls|]. eapply rtc_l; [apply server_calls|]. apply rtc_refl.
  - destruct Sc as (kc & -> & <-). rewrite Ss. eapply rtc_l; [apply client_calls|]. apply rtc_refl.
  - destruct Ss as (ks & -> & <-). rewrite Sc. eapply rtc_l; [apply server_calls|]. apply rtc_refl.
  - rewrite Sc, Ss. apply rtc_refl.
Qed.

(** The contexts in which the methods of the two ends run. *)
Definition client_context (c : hsConfig) (algs : NegotiatedAlgorithms) (ci : kexInitMsg) (st : kexState) (t : proto kexReturn)
    : proto (kexState * result packet_error unit) :=
  ((x ← of_proto t;
    match x with
    | (_, Some e, _) => km_fail e
    | (result, None, _) =>
        match ParsePublicKey (kr_HostKey result) with
        | Err e => km_fail (newError (err_msg e))
        | Ok hostKey =>
            match verifyHostKeySignature hostKey (na_HostKey algs) result with
            | Some e => km_fail e
            | None =>
                match hc_hostKeyCallback c (hc_dialAddress c) (hc_remoteAddr c) hostKey with
                | Some e => km_fail (newError (err_msg e))
                | None => mret result
                end
            end
        end
    end : km kexResult) ≫= finishKeyExchange c algs ci) st.
Definition server_context (c : hsConfig) (algs : NegotiatedAlgorithms) (ci : kexInitMsg) (st : kexState) (t : proto kexReturn)
    : proto (kexState * result packet_error unit) :=
  ((x ← of_proto t; match x with (r, None, _) => mret r | (_, Some e, _) => km_fail e end : km kexResult)
   ≫= finishKeyExchange c algs ci) st.
Lemma client_context_ok c algs ci st : context (client_context c algs ci st).
Proof. done. Qed.
Lemma server_context_ok c algs ci st : context (server_context c algs ci st).
Proof. done. Qed.

Lemma client_context_done c algs ci st r rand key :
  ParsePublicKey (kr_HostKey r) = Ok key -> verifyHostKeySignature key (na_HostKey algs) r = None ->
  hc_hostKeyCallback c (hc_dialAddress c) (hc_remoteAddr c) key = None ->
  client_context c algs ci st (Done (Ok (r, None, rand))) = finishKeyExchange c algs ci r st.
Proof.
  intros Hkey Hver Hcb. unfold client_context. apply km_bind_done. erewrite km_bind_done; [|done]. cbv beta iota.
  by rewrite Hkey, Hver, Hcb.
Qed.
Lemma server_context_done c algs ci st r rand :
  server_context c algs ci st (Done (Ok (r, None, rand))) = finishKeyExchange c algs ci r st.
Proof. unfold server_context. apply km_bind_done. erewrite km_bind_done; [|done]. reflexivity. Qed.

Lemma after_client c ci rand entropy other st si algs a :
  isServer c = false ->
  after_negotiation c (ci, MarshalMsg ci) rand entropy other st si algs a =
  client_context c algs ci (mkKexState (Some algs) (ks_strictMode st || (is_nil (ks_sessionID st) && asks_strict c si)) (ks_sessionID st))
    (kex_Client a rand entropy (hs_magics c (MarshalMsg ci) other)).
Proof. intros Hc. unfold after_negotiation, method, client_context, hs_client. cbn [fst snd]. by rewrite Hc. Qed.
Lemma after_server c si rand entropy other st ci algs a priv :
  isServer c = true -> pickHostKey (hc_hostKeys c) (na_HostKey algs) = Some priv ->
  after_negotiation c (si, MarshalMsg si) rand entropy other st ci algs a =
  server_context c algs ci (mkKexState (Some algs) (ks_strictMode st || (is_nil (ks_sessionID st) && asks_strict c ci)) (ks_sessionID st))
    (kex_Server a rand entropy (hs_magics c (MarshalMsg si) other) priv (na_HostKey algs)).
Proof. intros Hc Hp. unfold after_negotiation, method, server_context, hs_server. cbn [fst snd]. by rewrite Hc, Hp. Qed.

(** Conversion is to unfold [exchange] rather than to run the conversation. *)
Strategy 100 [talk].

(** The methods of the two ends agree on a result, and both go on to change keys. *)
Lemma methods_conv cc cs algs algs' a priv crand srand ce se m ci stc sts ccalls scalls :
  na_HostKey algs' = na_HostKey algs -> good_algorithm a -> honest a crand srand ce se -> signs priv (na_HostKey algs) ->
  trusted cc priv (na_HostKey algs) ->
  exists r, kr_HostKey r = PublicKey_Marshal priv /\ client_accepts cc (na_HostKey algs) r /\
    rtc conv (mkConv (client_context cc algs ci stc (kex_Client a crand ce m))
                     (server_context cs algs' ci sts (kex_Server a srand se m priv (na_HostKey algs'))) [] [] ccalls scalls)
             (mkConv (finishKeyExchange cc algs ci r stc) (finishKeyExchange cs algs' ci r sts) [] [] ccalls scalls).
Proof.
  intros -> Hg Hhon Hsig Htr.
  destruct (kex_agrees a crand srand ce se m priv (na_HostKey algs) Hg Hhon Hsig)
    as (r & cr & sr & Htalk & Hhk & rd & rd' & sg & Hsg & Hsigr).
  destruct (verify_trusted cc priv (na_HostKey algs) r rd rd' sg Htr Hsig Hhk Hsg Hsigr) as (key & Hkey & Hver & Hcb).
  exists r. split; [done|]. split.
  - unfold verifyHostKeySignature in Hver. destruct (parseSignatureBody (kr_Signature r)) as [[sg' [|]]|] eqn:Ep; [|done..].
    exists key, sg'. split; [done|]. split; [done|].
    destruct (gos_eqb_spec (sig_Format sg') (underlyingAlgo (na_HostKey algs))) as [Hf|]; [|done]. cbn [negb] in Hver.
    split; [done|]. split; [|done]. by destruct (Verify false key (kr_H r) sg').
  - rewrite <- (client_context_done cc algs ci stc r cr key Hkey Hver Hcb), <- (server_context_done cs algs' ci sts r sr).
    apply (talk_conv _ _ _ _ _ ccalls scalls) in Htalk.
    exact (conv_contexts _ _ _ _ (client_context_ok cc algs ci stc) (server_context_ok cs algs' ci sts) Htalk).
Qed.

Lemma handshake_reaches x algs a priv :
  compatible x algs a priv ->
  exists r ext, rtc conv (start_of x) (end_of x algs r ext) /\ kr_HostKey r = PublicKey_Marshal priv /\ client_accepts (hs_cc x) (na_HostKey algs) r.
Proof.
  intros Hx. pose proof (both_start _ _ _ _ Hx) as Hstart.
  destruct Hx as [Hc Hs [Hv1 Hv2] Hid [Hci Hcf] [Hsi Hsf] Hag Hkex Hpick Hhon Hsig Htr].
  rewrite (after_client _ _ _ _ _ _ _ _ _ Hc), (after_server _ _ _ _ _ _ _ (flip_direction algs) _ priv Hs Hpick) in Hstart.
  replace (hs_magics (hs_cs x) (MarshalMsg (hs_si x)) (MarshalMsg (hs_ci x)))
    with (hs_magics (hs_cc x) (MarshalMsg (hs_ci x)) (MarshalMsg (hs_si x))) in Hstart
    by (unfold hs_magics; by rewrite Hc, Hs, Hv1, Hv2).
  rewrite <- Hid in Hstart. unfold end_of. cbv zeta.
  fold (strict_asked x (hs_cc x) (hs_si x)) (strict_asked x (hs_cs x) (hs_ci x)) in Hstart.
  match type of Hstart with rtc conv _ (mkConv (client_context _ _ _ ?stc _) (server_context _ _ _ ?sts _) _ _ ?cc ?sc) =>
    destruct (methods_conv (hs_cc x) (hs_cs x) algs (flip_direction algs) a priv (hs_crand x) (hs_srand x) (hs_centropy x) (hs_sentropy x)
      (hs_magics (hs_cc x) (MarshalMsg (hs_ci x)) (MarshalMsg (hs_si x))) (hs_ci x) stc sts cc sc eq_refl
      (kexAlgo_of_good _ _ Hkex) Hhon Hsig Htr) as (r & Hhk & Hacc & Hmeth);
    destruct (finish_conv (hs_cc x) (hs_cs x) algs (flip_direction algs) (hs_ci x) r (ks_sessionID (hs_stc x)) stc sts cc sc Hc Hs
      eq_refl eq_refl) as [ext Hfin]
  end.
  exists r, ext. split; [|done]. exact (rtc_trans _ _ _ Hstart (rtc_trans _ _ _ Hmeth Hfin)).
Qed.

(** ** Theorems *)

(** C17. Whatever the peer sends, an exchange never panics and follows its phases: before
    the keys are prepared it sends only messages of the exchange; the keys are prepared
    once, from a result of the negotiated algorithm over the versions and KEXINIT packets
    of this connection, which on a client carries a signature of the exchange hash by the
    host key, in the negotiated format, and a key that the callback accepted, and on a
    server is signed by the host key; then NEWKEYS is sent.  The identifier of the session
    never changes once set; when the exchange succeeds the algorithms are those agreed,
    and the strict mode is on exactly when it was or the first exchange asked for it. *)
Theorem key_change_authenticated c sent rand entropy other st :
  kobeys c (hs_magics c (snd sent) other) (ks_sessionID st) Exchanging st
    (enterKeyExchange c sent rand entropy other) (stable (ks_sessionID st))
    (fun ph st' _ => completed c (ks_sessionID st) st (fst sent) other ph st').
Proof. by apply enterKeyExchange_obeys. Qed.

(** C18. A client and a server with a common algorithm each, whose key the client trusts,
    complete the exchange of keys from their KEXINIT packets: however their steps are
    interleaved, the conversation can still reach, and can only end in, the state where
    both have succeeded, with one session identifier, with algorithms that mirror each
    other, and with keys prepared from the same result. *)
Theorem handshake_agreement x algs a priv :
  compatible x algs a priv ->
  exists r ext, kr_HostKey r = PublicKey_Marshal priv /\ client_accepts (hs_cc x) (na_HostKey algs) r /\
    forall y, rtc conv (start_of x) y ->
      rtc conv y (end_of x algs r ext) /\ (ended y -> y = end_of x algs r ext).
Proof.
  intros Hx. destruct (handshake_reaches _ _ _ _ Hx) as (r & ext & Hr & Hhk & Hacc). exists r, ext.
  split; [done|]. split; [done|]. intros y Hy. assert (Hye : rtc conv y (end_of x algs r ext)) by (by eapply conv_confluent).
  split; [done|]. intros Hend. inversion Hye as [|? z ? Hz]; [done|]. subst. by apply ended_final in Hz.
Qed.
End Agreement.

(** ** Instances of the theorems *)
Definition toy_keylib : KeyLib := {|
  Key := gostring;
  ParsePublicKey s := Ok s;
  key_Type _ := KeyAlgoED25519;
  cert_Extension _ _ := false;
  Verify _ _ data sig := if sig_Blob sig =s take 4 data then None else Some (errors_New (go "bad signature")) |}.

Definition toy_hostkey : Signer :=
  let sign rand data := (Ok (MkSignature KeyAlgoED25519 (take 4 data) []), rand) in
  mkHostKey plainSigner KeyAlgoED25519 (go "host key") sign (fun rand data _ => sign rand data).
Definition toy_algorithms : SshConfig := MkSshConfig 0 [KeyExchangeCurve25519] [CipherAES128GCM] [HMACSHA256].
Definition toy_config (hostKeys : list Signer) : @hsConfig toy_keylib :=
  @mkHsConfig toy_keylib toy_algorithms (go "SSH-2.0-s") (go "SSH-2.0-c") hostKeys [] [KeyAlgoED25519] (fun _ _ _ => None) (go "host") NoAddr.
Definition toy_setting : @handshake_setting toy_keylib :=
  let cc := toy_config [] in let cs := toy_config [toy_hostkey] in
  let st := mkKexState None false None in
  @mkSetting toy_keylib cc cs st st (sample_rand "0123") (sample_rand "4567") [] []
    (kexInit_of cc true (sample_rand "ab")) (kexInit_of cs true (sample_rand "cd")).
Definition toy_negotiated : NegotiatedAlgorithms :=
  let d := MkDirection CipherAES128GCM [] compressionNone in MkNegotiated KeyExchangeCurve25519 KeyAlgoED25519 d d.

Lemma toy_signs : signs (algorithmSignerWrapper toy_hostkey) KeyAlgoED25519.
Proof.
  intros rand data. do 2 eexists. split; [reflexivity|].
  eapply Z.le_lt_trans; [apply Z.add_le_mono_l, MarshalMsg_len|].
  cbn [marshal_fields marshal_field fst snd to_fields msg_struct st_fields Signature_message sig_Format sig_Blob sig_Rest].
  rewrite !len_app, !appendInt_len. unfold len at 3. rewrite length_take.
  change (len KeyAlgoED25519) with 11. change (len (PublicKey_Marshal (algorithmSignerWrapper toy_hostkey))) with 8.
  unfold len. cbn [length]. lia.
Qed.

Lemma toy_trusted : @trusted toy_keylib (toy_config []) (algorithmSignerWrapper toy_hostkey) KeyAlgoED25519.
Proof.
  exists (go "host key"). split; [reflexivity|]. split; [reflexivity|].
  intros rand data sig rand'. cbn. intros [= <- <-]. split; [reflexivity|]. split; [done|]. cbn. by rewrite gos_eqb_refl.
Qed.

Lemma toy_compatible :
  @compatible sample_kexlib toy_keylib toy_setting toy_negotiated curve25519sha256 (algorithmSignerWrapper toy_hostkey).
Proof.
  apply Build_compatible.
  - reflexivity.
  - reflexivity.
  - split; reflexivity.
  - reflexivity.
  - split; vm_compute; reflexivity.
  - split; vm_compute; reflexivity.
  - vm_compute; reflexivity.
  - reflexivity.
  - reflexivity.
  - apply sample_honest.
  - apply toy_signs.
  - apply toy_trusted.
Qed.

Lemma handshake_agreement_witness :
  exists r ext, kr_HostKey r = go "host key" /\
    rtc conv (@start_of sample_crypto sample_kexlib ascii_tables toy_keylib toy_setting) (@end_of toy_keylib toy_setting toy_negotiated r ext).
Proof.
  destruct (@handshake_agreement sample_crypto sample_kexlib ascii_tables toy_keylib sample_kexlaws
              toy_setting toy_negotiated curve25519sha256 (algorithmSignerWrapper toy_hostkey) toy_compatible) as (r & ext & Hk & _ & Hc).
  exists r, ext. split; [exact Hk|]. apply Hc. apply rtc_refl.
Defined.

Lemma key_change_authenticated_witness :
  let cc := toy_config [] in let st := mkKexState None false None in
  let sent := (kexInit_of cc true (sample_rand "ab"), MarshalMsg (kexInit_of cc true (sample_rand "ab"))) in
  @kobeys sample_crypto sample_kexlib toy_keylib cc (hs_magics cc (snd sent) (go "x")) None unit Exchanging st
    (@enterKeyExchange sample_crypto sample_kexlib ascii_tables toy_keylib cc sent (sample_rand "0123") [] (go "x"))
    (stable None) (fun ph st' _ => completed cc None st (fst sent) (go "x") ph st').
Proof.
  apply (@key_change_authenticated sample_crypto sample_kexlib ascii_tables toy_keylib sample_kexlaws (toy_config []) _
           (sample_rand "0123") [] (go "x") (mkKexState None false None)).
Defined.
