(* ===== verification/SshRekey.v ===== *)
(** * The goroutines of a [handshakeTransport]: [third/ssh/handshake.go].

    The state is what the goroutines share; [world] adds where each of them is: the read
    loop, the key exchange loop, and the writers that wait in [writePacket].  A step is a
    section under the mutex, an operation on a channel, or an operation on the connection,
    whose outcome is arbitrary.  The unbuffered channel [startKex] is a rendezvous, the
    channel [done] of a pending exchange a slot.  For the statements, the world records
    the packets that went out with who sent them, those that writers had accepted, and
    those handed to the layer above.

    Proved, for every interleaving: the queue of pending packets is bounded; packets go
    out in the order in which they were accepted and none is lost while writes succeed;
    between a KEXINIT and the NEWKEYS after it only messages of the exchange go out,
    unless an exchange has failed; and nothing is handed up before the first exchange has
    succeeded. *)
From Stdlib Require Import Ascii String ZArith Lia.
From stdpp Require Import base gmap strings list relations.
From S2P Require Import Prelude GoStrings GoIO SshWire SshMessages SshAlgos GoCrypto SshCipher SshAuth SshTransport KexLib SshKex SshHandshake.
Local Open Scope Z_scope.

Definition chanSize : nat := 16.
Definition maxPendingPackets : nat := 64.
Definition packetRekeyThreshold : Z := 2 ^ 31.

Record handshakeTransport := mkHandshake {
  ht_writeError : option packet_error;
  ht_sentInit : option (kexInitMsg * gostring);
  ht_pendingPackets : list gostring;
  ht_writePacketsLeft : Z;
  ht_writeBytesLeft : Z;
  ht_userAuthComplete : bool;
  ht_requestKex : bool;
  ht_incoming : list gostring;
  ht_readError : option packet_error;   (** once set, [incoming] is closed *)
  ht_kex : kexState;
  ht_readPacketsLeft : Z;
  ht_readBytesLeft : Z }.

Definition set_writeError e t := mkHandshake e (ht_sentInit t) (ht_pendingPackets t) (ht_writePacketsLeft t) (ht_writeBytesLeft t)
  (ht_userAuthComplete t) (ht_requestKex t) (ht_incoming t) (ht_readError t) (ht_kex t) (ht_readPacketsLeft t) (ht_readBytesLeft t).
Definition set_sentInit i t := mkHandshake (ht_writeError t) i (ht_pendingPackets t) (ht_writePacketsLeft t) (ht_writeBytesLeft t)
  (ht_userAuthComplete t) (ht_requestKex t) (ht_incoming t) (ht_readError t) (ht_kex t) (ht_readPacketsLeft t) (ht_readBytesLeft t).
Definition set_pendingPackets l t := mkHandshake (ht_writeError t) (ht_sentInit t) l (ht_writePacketsLeft t) (ht_writeBytesLeft t)
  (ht_userAuthComplete t) (ht_requestKex t) (ht_incoming t) (ht_readError t) (ht_kex t) (ht_readPacketsLeft t) (ht_readBytesLeft t).
Definition set_writeLeft n b t := mkHandshake (ht_writeError t) (ht_sentInit t) (ht_pendingPackets t) n b
  (ht_userAuthComplete t) (ht_requestKex t) (ht_incoming t) (ht_readError t) (ht_kex t) (ht_readPacketsLeft t) (ht_readBytesLeft t).
Definition set_userAuthComplete u t := mkHandshake (ht_writeError t) (ht_sentInit t) (ht_pendingPackets t) (ht_writePacketsLeft t) (ht_writeBytesLeft t)
  u (ht_requestKex t) (ht_incoming t) (ht_readError t) (ht_kex t) (ht_readPacketsLeft t) (ht_readBytesLeft t).
Definition set_requestKex r t := mkHandshake (ht_writeError t) (ht_sentInit t) (ht_pendingPackets t) (ht_writePacketsLeft t) (ht_writeBytesLeft t)
  (ht_userAuthComplete t) r (ht_incoming t) (ht_readError t) (ht_kex t) (ht_readPacketsLeft t) (ht_readBytesLeft t).
Definition set_incoming l t := mkHandshake (ht_writeError t) (ht_sentInit t) (ht_pendingPackets t) (ht_writePacketsLeft t) (ht_writeBytesLeft t)
  (ht_userAuthComplete t) (ht_requestKex t) l (ht_readError t) (ht_kex t) (ht_readPacketsLeft t) (ht_readBytesLeft t).
Definition set_readError e t := mkHandshake (ht_writeError t) (ht_sentInit t) (ht_pendingPackets t) (ht_writePacketsLeft t) (ht_writeBytesLeft t)
  (ht_userAuthComplete t) (ht_requestKex t) (ht_incoming t) e (ht_kex t) (ht_readPacketsLeft t) (ht_readBytesLeft t).
Definition set_kex k t := mkHandshake (ht_writeError t) (ht_sentInit t) (ht_pendingPackets t) (ht_writePacketsLeft t) (ht_writeBytesLeft t)
  (ht_userAuthComplete t) (ht_requestKex t) (ht_incoming t) (ht_readError t) k (ht_readPacketsLeft t) (ht_readBytesLeft t).
Definition set_readLeft n b t := mkHandshake (ht_writeError t) (ht_sentInit t) (ht_pendingPackets t) (ht_writePacketsLeft t) (ht_writeBytesLeft t)
  (ht_userAuthComplete t) (ht_requestKex t) (ht_incoming t) (ht_readError t) (ht_kex t) n b.

Section Rekey.
Context `{CryptoLib, KexLib, UnicodeTables, KeyLib}.
Context (c : hsConfig).

(** ** Operations *)
Definition rekey_bytes (side : NegotiatedAlgorithms -> DirectionAlgorithms) (algorithms : option NegotiatedAlgorithms) : Z :=
  if 0 <? sc_RekeyThreshold (hc_config c) then sc_RekeyThreshold (hc_config c)
  else match algorithms with Some a => rekeyBytes (side a) | None => 2 ^ 30 end.
Definition resetWriteThresholds (t : handshakeTransport) : handshakeTransport :=
  set_writeLeft packetRekeyThreshold (rekey_bytes na_Write (ks_algorithms (ht_kex t))) t.
Definition resetReadThresholds (t : handshakeTransport) : handshakeTransport :=
  set_readLeft packetRekeyThreshold (rekey_bytes na_Read (ks_algorithms (ht_kex t))) t.

Definition newHandshakeTransport : handshakeTransport :=
  resetWriteThresholds (resetReadThresholds
    (mkHandshake None None [] 0 0 false true [] None (mkKexState None false None) 0 0)).

Definition requestKeyExchange (t : handshakeTransport) : handshakeTransport := set_requestKex true t.
Definition recordWriteError (e : packet_error) (t : handshakeTransport) : handshakeTransport :=
  match ht_writeError t with None => set_writeError (Some e) t | Some _ => t end.

(** [int64] and [uint32] counters. *)
Definition count_write (p : gostring) (t : handshakeTransport) : handshakeTransport :=
  let t := if 0 <? ht_writeBytesLeft t then set_writeLeft (ht_writePacketsLeft t) (ht_writeBytesLeft t - len p) t
           else requestKeyExchange t in
  if 0 <? ht_writePacketsLeft t then set_writeLeft (ht_writePacketsLeft t - 1) (ht_writeBytesLeft t) t
  else requestKeyExchange t.
Definition count_read (p : gostring) (t : handshakeTransport) : handshakeTransport :=
  let t := if 0 <? ht_readPacketsLeft t then set_readLeft (ht_readPacketsLeft t - 1) (ht_readBytesLeft t) t
           else requestKeyExchange t in
  if 0 <? ht_readBytesLeft t then set_readLeft (ht_readPacketsLeft t) (ht_readBytesLeft t - len p) t
  else requestKeyExchange t.

Definition errSendBannerPhase : packet_error := newError (go "ssh: SendAuthBanner outside of authentication phase").

(** [writePacket] up to the point where it returns, waits or pushes the packet. *)
Inductive write_action := WReturns (e : option packet_error) | WWaits | WPushes.
Definition writePacket_enter (t : handshakeTransport) (b : Z) (p : gostring) : handshakeTransport * write_action :=
  if b =? msgKexInit then (t, WReturns (Some (newError (go "ssh: only handshakeTransport can send kexInit"))))
  else if b =? msgNewKeys then (t, WReturns (Some (newError (go "ssh: only handshakeTransport can send newKeys"))))
  else if (b =? msgUserAuthBanner) && ht_userAuthComplete t then (t, WReturns (Some errSendBannerPhase))
  else
    let t := if b =? msgUserAuthSuccess then set_userAuthComplete true t else t in
    match ht_writeError t with
    | Some e => (t, WReturns (Some e))
    | None =>
        match ht_sentInit t with
        | Some _ =>
            if (length (ht_pendingPackets t) <? maxPendingPackets)%nat
            then (set_pendingPackets (ht_pendingPackets t ++ [p]) t, WReturns None)
            else (t, WWaits)
        | None => (t, WPushes)
        end
    end.
(** The rest of it, with the error of the push. *)
Definition writePacket_push (t : handshakeTransport) (p : gostring) (err : option packet_error) : handshakeTransport :=
  let t := count_write p t in
  match err with Some e => set_writeError (Some e) t | None => t end.

(** [sendKexInit], with the error of the push if there is one. *)
Definition sendKexInit (t : handshakeTransport) (rand : Source) (err : option packet_error)
    : handshakeTransport * option gostring * option packet_error :=
  match ht_sentInit t with
  | Some _ => (t, None, None)
  | None =>
      let msg := kexInit_of c (is_nil (ks_sessionID (ht_kex t))) rand in
      match err with
      | Some e => (t, None, Some e)
      | None => (set_sentInit (Some (msg, MarshalMsg msg)) t, Some (MarshalMsg msg), None)
      end
  end.

(** The section of [kexLoop] after an exchange: [err] is its error, [pushed] the pending
    packets that go out, [push_err] the error of the push after them. *)
Definition kex_done (t : handshakeTransport) (st : kexState) (err : option packet_error) : handshakeTransport :=
  set_requestKex false (resetWriteThresholds (set_sentInit None (set_writeError err (set_kex st t)))).
Definition push_pending (t : handshakeTransport) (push_err : option packet_error) : handshakeTransport :=
  let t := match ht_pendingPackets t with [] => t | _ => set_writeError push_err t end in
  set_pendingPackets [] t.

(** [readOnePacket] on a packet, until it waits for an exchange. *)
Inductive read_action := RReturns (r : result packet_error gostring) | ROffers.
Definition readOnePacket (first : bool) (b : Z) (p : gostring) : read_action :=
  if first && negb (b =? msgKexInit) then RReturns (Err (newError (go "ssh: first packet should be msgKexInit")))
  else if negb (b =? msgKexInit) then RReturns (Ok p)
  else ROffers.
Definition successPacket (firstKex : bool) : gostring := if firstKex then [vb msgNewKeys] else [vb msgIgnore].
(** Whether [readLoop] drops a packet. *)
Definition dropped (t : handshakeTransport) (p : gostring) : bool :=
  negb (is_nil (ks_sessionID (ht_kex t)) && ks_strictMode (ht_kex t)) && (is_msg p msgIgnore || is_msg p msgDebug).
Definition waitSession_ok (p : gostring) : bool := is_msg p msgNewKeys.

(** ** Goroutines *)
Inductive kexPC :=
| KOuter                                            (** the test of the outer loop *)
| KSelect (request : option gostring) (sent : bool)
| KSendInit (request : option gostring)
| KCheck (request : option gostring)                (** after the inner loop *)
| KRun (tree : proto (kexState * result packet_error unit))
| KDrain
| KDone.
Inductive readPC :=
| RRead (first : bool)
| ROffer (p : gostring) (firstKex : bool)           (** blocked on [startKex] *)
| RWaitDone (firstKex : bool)
| RHave (p : gostring)
| RFail (e : packet_error)
| RRecord (e : packet_error)
| RClose
| RDone.

Inductive wire_entry := WireKexInit (p : gostring) | WireKex (p : gostring) | WireData (p : gostring).

Record world := mkWorld {
  w_t : handshakeTransport;
  w_kex : kexPC;
  w_read : readPC;
  w_waiting : list gostring;                        (** packets of the writers that wait *)
  w_done : option (option packet_error);            (** the channel [done] of the exchange *)
  w_startClosed : bool;
  w_wire : list wire_entry;
  w_accepted : list gostring;
  w_delivered : list gostring;
  w_pushFailed : bool;                              (** a packet of a writer was lost *)
  w_kexFailed : bool }.                             (** an exchange failed *)

Definition start_world : world :=
  mkWorld newHandshakeTransport KOuter (RRead true) [] None false [] [] [] false false.

Definition is_err (e : option packet_error) : bool := match e with Some _ => true | None => false end.
Definition wire_data (p : gostring) (e : option packet_error) : list wire_entry := match e with None => [WireData p] | Some _ => [] end.

(** [accept e p]: the packet counts as accepted when [writePacket] returns no error. *)
Definition accept (e : option packet_error) (p : gostring) : list gostring := match e with None => [p] | Some _ => [] end.
Definition error_of (x : result packet_error unit) : option packet_error := match x with Ok _ => None | Err e => Some e end.

(** The pending packets that go out, given the error that ends the pushes. *)
Inductive pushes : list gostring -> option packet_error -> list gostring -> Prop :=
| pushes_all l : pushes l None l
| pushes_until l p l' e : pushes (l ++ p :: l') (Some e) l.

Inductive step : world -> world -> Prop :=
(** A writer calls [writePacket]. *)
| S_write t k r wt d sc wi ac de pf kf b rest t' e :
    writePacket_enter t (bv b) (b :: rest) = (t', WReturns e) ->
    step (mkWorld t k r wt d sc wi ac de pf kf) (mkWorld t' k r wt d sc wi (ac ++ accept e (b :: rest)) de pf kf)
| S_write_wait t k r wt d sc wi ac de pf kf b rest t' :
    writePacket_enter t (bv b) (b :: rest) = (t', WWaits) ->
    step (mkWorld t k r wt d sc wi ac de pf kf) (mkWorld t' k r (wt ++ [b :: rest]) d sc wi ac de pf kf)
| S_write_push t k r wt d sc wi ac de pf kf b rest t' err :
    writePacket_enter t (bv b) (b :: rest) = (t', WPushes) ->
    step (mkWorld t k r wt d sc wi ac de pf kf)
      (mkWorld (writePacket_push t' (b :: rest) err) k r wt d sc (wi ++ wire_data (b :: rest) err) (ac ++ [b :: rest]) de
         (pf || is_err err) kf)
(** A writer that waits goes on. *)
| S_wake_error t k r wt1 p wt2 d sc wi ac de pf kf e :
    ht_writeError t = Some e ->
    step (mkWorld t k r (wt1 ++ p :: wt2) d sc wi ac de pf kf) (mkWorld t k r (wt1 ++ wt2) d sc wi ac de pf kf)
| S_wake_push t k r wt1 p wt2 d sc wi ac de pf kf err :
    ht_writeError t = None -> ht_sentInit t = None ->
    step (mkWorld t k r (wt1 ++ p :: wt2) d sc wi ac de pf kf)
      (mkWorld (writePacket_push t p err) k r (wt1 ++ wt2) d sc (wi ++ wire_data p err) (ac ++ [p]) de (pf || is_err err) kf)
(** [kexLoop]. *)
| S_outer t r wt d sc wi ac de pf kf :
    step (mkWorld t KOuter r wt d sc wi ac de pf kf)
      (mkWorld t (if is_err (ht_writeError t) then KDrain else KSelect None false) r wt d sc wi ac de pf kf)
| S_start t req sent p f wt d sc wi ac de pf kf :
    step (mkWorld t (KSelect req sent) (ROffer p f) wt d sc wi ac de pf kf)
      (mkWorld t (if sent : bool then KCheck (Some p) else KSendInit (Some p)) (RWaitDone f) wt d sc wi ac de pf kf)
| S_start_closed t req sent r wt d wi ac de pf kf :
    step (mkWorld t (KSelect req sent) r wt d true wi ac de pf kf) (mkWorld t KDrain r wt d true wi ac de pf kf)
| S_request t req sent r wt d sc wi ac de pf kf :
    ht_requestKex t = true ->
    step (mkWorld t (KSelect req sent) r wt d sc wi ac de pf kf)
      (mkWorld (set_requestKex false t) (if sent : bool then KSelect req sent else KSendInit req) r wt d sc wi ac de pf kf)
| S_sendInit t req r wt d sc wi ac de pf kf rand err t' out :
    sendKexInit t rand err = (t', out, None) ->
    step (mkWorld t (KSendInit req) r wt d sc wi ac de pf kf)
      (mkWorld t' (match req with Some _ => KCheck req | None => KSelect None true end) r wt d sc
         (wi ++ match out with Some p => [WireKexInit p] | None => [] end) ac de pf kf)
| S_sendInit_error t req r wt d sc wi ac de pf kf rand err t' out e :
    sendKexInit t rand err = (t', out, Some e) ->
    step (mkWorld t (KSendInit req) r wt d sc wi ac de pf kf)
      (mkWorld (recordWriteError e t') (KCheck req) r wt d sc wi ac de pf kf)
| S_check_error t req r wt d sc wi ac de pf kf e :
    ht_writeError t = Some e ->
    step (mkWorld t (KCheck req) r wt d sc wi ac de pf kf)
      (mkWorld t KDrain r wt (match req with Some _ => Some (Some e) | None => d end) sc wi ac de pf kf)
| S_enter t p r wt d sc wi ac de pf kf sent rand entropy :
    ht_writeError t = None -> ht_sentInit t = Some sent ->
    step (mkWorld t (KCheck (Some p)) r wt d sc wi ac de pf kf)
      (mkWorld t (KRun (enterKeyExchange c sent rand entropy p (ht_kex t))) r wt d sc wi ac de pf kf)
| S_run_send t p tree o r wt d sc wi ac de pf kf :
    step (mkWorld t (KRun (Send p tree)) r wt d sc wi ac de pf kf)
      (mkWorld t (KRun (tree o)) r wt d sc (wi ++ match o with None => [WireKex p] | Some _ => [] end) ac de pf (kf || is_err o))
| S_run_recv t tree x r wt d sc wi ac de pf kf :
    readable x ->
    step (mkWorld t (KRun (Recv tree)) r wt d sc wi ac de pf kf) (mkWorld t (KRun (tree x)) r wt d sc wi ac de pf kf)
| S_run_call t call tree o r wt d sc wi ac de pf kf :
    step (mkWorld t (KRun (Call call tree)) r wt d sc wi ac de pf kf) (mkWorld t (KRun (tree o)) r wt d sc wi ac de pf kf)
| S_complete t st x r wt d sc wi ac de pf kf push_err out :
    pushes (ht_pendingPackets t) push_err out ->
    step (mkWorld t (KRun (Done (Ok (st, x)))) r wt d sc wi ac de pf kf)
      (mkWorld (push_pending (kex_done t st (error_of x)) push_err) KOuter r wt (Some (error_of x)) sc (wi ++ map WireData out)
         ac de (pf || is_err push_err) (kf || is_err (error_of x)))
| S_drain t p f wt d sc wi ac de pf kf :
    step (mkWorld t KDrain (ROffer p f) wt d sc wi ac de pf kf)
      (mkWorld t KDrain (RWaitDone f) wt (Some (ht_writeError t)) sc wi ac de pf kf)
| S_drained t r wt d wi ac de pf kf :
    step (mkWorld t KDrain r wt d true wi ac de pf kf) (mkWorld t KDone r wt d true wi ac de pf kf)
(** [readLoop]. *)
| S_read_error t k first e wt d sc wi ac de pf kf :
    step (mkWorld t k (RRead first) wt d sc wi ac de pf kf) (mkWorld t k (RFail e) wt d sc wi ac de pf kf)
| S_read t k first b rest x wt d sc wi ac de pf kf :
    readOnePacket first (bv b) (b :: rest) = RReturns x ->
    step (mkWorld t k (RRead first) wt d sc wi ac de pf kf)
      (mkWorld (count_read (b :: rest) t) k (match x with Ok p => RHave p | Err e => RFail e end) wt d sc wi ac de pf kf)
| S_read_kex t k first b rest wt d sc wi ac de pf kf :
    readOnePacket first (bv b) (b :: rest) = ROffers ->
    step (mkWorld t k (RRead first) wt d sc wi ac de pf kf)
      (mkWorld (count_read (b :: rest) t) k (ROffer (b :: rest) (is_nil (ks_sessionID (ht_kex t)))) wt d sc wi ac de pf kf)
| S_done t k f e wt sc wi ac de pf kf :
    step (mkWorld t k (RWaitDone f) wt (Some e) sc wi ac de pf kf)
      (mkWorld (if is_err e then t else resetReadThresholds t) k
         (match e with None => RHave (successPacket f) | Some e => RFail e end) wt None sc wi ac de pf kf)
| S_drop t k p wt d sc wi ac de pf kf :
    dropped t p = true ->
    step (mkWorld t k (RHave p) wt d sc wi ac de pf kf) (mkWorld t k (RRead false) wt d sc wi ac de pf kf)
| S_deliver t k p wt d sc wi ac de pf kf :
    dropped t p = false -> (length (ht_incoming t) < chanSize)%nat ->
    step (mkWorld t k (RHave p) wt d sc wi ac de pf kf)
      (mkWorld (set_incoming (ht_incoming t ++ [p]) t) k (RRead false) wt d sc wi ac (de ++ [p]) pf kf)
| S_fail t k e wt d sc wi ac de pf kf :
    step (mkWorld t k (RFail e) wt d sc wi ac de pf kf) (mkWorld (set_readError (Some e) t) k (RRecord e) wt d sc wi ac de pf kf)
| S_record t k e wt d sc wi ac de pf kf :
    step (mkWorld t k (RRecord e) wt d sc wi ac de pf kf) (mkWorld (recordWriteError e t) k RClose wt d sc wi ac de pf kf)
| S_close t k wt d sc wi ac de pf kf :
    step (mkWorld t k RClose wt d sc wi ac de pf kf) (mkWorld t k RDone wt d true wi ac de pf kf)
(** The layer above takes a packet ([readPacket]). *)
| S_take t k r wt d sc wi ac de pf kf p q :
    ht_incoming t = p :: q ->
    step (mkWorld t k r wt d sc wi ac de pf kf) (mkWorld (set_incoming q t) k r wt d sc wi ac de pf kf).

(** ** The order of what goes out *)
Definition data_of (wire : list wire_entry) : list gostring :=
  omap (fun e => match e with WireData p => Some p | _ => None end) wire.

(** Between a KEXINIT and the next NEWKEYS only messages of the exchange; after NEWKEYS the
    server's list of algorithms may follow at once. *)
Inductive wphase := WOpen | WInKex | WPost.
Definition wire_step (s : option wphase) (e : wire_entry) : option wphase :=
  match s, e with
  | Some WInKex, WireKex p =>
      if is_msg p msgNewKeys then Some WPost
      else match p with b :: _ => if (30 <=? bv b) && (bv b <=? 49) then Some WInKex else None | [] => None end
  | Some WPost, WireKex p => if is_msg p msgExtInfo then Some WPost else None
  | Some WOpen, WireKexInit _ | Some WPost, WireKexInit _ => Some WInKex
  | Some WOpen, WireData _ | Some WPost, WireData _ => Some WOpen
  | _, _ => None
  end.
Definition wire_phase (wire : list wire_entry) : option wphase := fold_left wire_step wire (Some WOpen).

(** ** The invariant *)

(** Whether the key exchange loop has a request that it has not answered. *)
Definition in_hand (k : kexPC) : bool :=
  match k with KSelect (Some _) _ | KSendInit (Some _) | KCheck (Some _) | KRun _ => true | _ => false end.
Definition running (k : kexPC) : bool := match k with KRun _ => true | _ => false end.
Definition reader_waits (r : readPC) : bool := match r with RWaitDone _ => true | _ => false end.

(** Where the loop is, against what has been sent. *)
Definition kex_at (t : handshakeTransport) (k : kexPC) (closed : bool) : Prop :=
  match k with
  | KOuter => ht_sentInit t = None
  | KSelect req sent => req = None /\ if sent : bool then ht_sentInit t <> None else ht_sentInit t = None
  | KSendInit _ => ht_sentInit t = None
  | KCheck req => ht_writeError t = None -> req <> None /\ ht_sentInit t <> None
  | KRun _ => ht_sentInit t <> None /\ ht_writeError t = None
  | KDrain | KDone => closed = true \/ ht_writeError t <> None
  end.

Definition run_post (first : option gostring) (ph : phase) (r : result packet_error (kexState * result packet_error unit)) : Prop :=
  exists st x, r = Ok (st, x) /\ (first <> None -> ks_sessionID st <> None) /\
    (error_of x = None -> ph = Changed /\ ks_sessionID st <> None).
Definition wire_of (ph : phase) : wphase := match ph with Changed => WPost | _ => WInKex end.

(** The run of an exchange follows its phases, and the wire is where it is. *)
Definition run_at (w : world) : Prop :=
  match w_kex w with
  | KRun tree => exists m ph, obeys c m (ks_sessionID (ht_kex (w_t w))) ph tree (run_post (ks_sessionID (ht_kex (w_t w)))) /\
      (w_kexFailed w = false -> wire_phase (w_wire w) = Some (wire_of ph))
  | _ => w_kexFailed w = false -> exists wp, wire_phase (w_wire w) = Some wp /\ (wp = WInKex <-> ht_sentInit (w_t w) <> None)
  end.

(** Nothing is handed up before the first exchange has succeeded. *)
Definition up_at (w : world) : Prop :=
  match w_delivered w with
  | p :: _ => p = newKeysPacket
  | [] => match w_read w with
          | RRead first => first = true /\ ks_sessionID (ht_kex (w_t w)) = None
          | ROffer _ f | RWaitDone f => f = true
          | RHave p => p = newKeysPacket /\ ks_sessionID (ht_kex (w_t w)) <> None
          | _ => True
          end
  end.

Definition order_at (w : world) : Prop :=
  if w_pushFailed w
  then data_of (w_wire w) `prefix_of` w_accepted w /\ ht_writeError (w_t w) <> None /\ ht_pendingPackets (w_t w) = []
  else w_accepted w = data_of (w_wire w) ++ ht_pendingPackets (w_t w).

Record inv (w : world) : Prop := {
  i_bound : (length (ht_pendingPackets (w_t w)) <= maxPendingPackets)%nat;
  i_incoming : (length (ht_incoming (w_t w)) <= chanSize)%nat;
  i_pending : ht_sentInit (w_t w) = None -> ht_pendingPackets (w_t w) = [];
  i_kex : kex_at (w_t w) (w_kex w) (w_startClosed w);
  i_hand : in_hand (w_kex w) = true -> reader_waits (w_read w) = true /\ w_done w = None;
  i_done : w_done w <> None -> reader_waits (w_read w) = true;
  i_success : w_done w = Some None -> ks_sessionID (ht_kex (w_t w)) <> None;
  i_closed : w_startClosed w = true -> w_read w = RDone;
  i_run : run_at w;
  i_order : order_at w;
  i_up : up_at w;
  i_session : w_delivered w <> [] -> ks_sessionID (ht_kex (w_t w)) <> None }.

Definition reachable (w : world) : Prop := rtc step start_world w.

Lemma inv_start : inv start_world.
Proof.
  split; cbn; try done; try lia.
  - intros _. exists WOpen. split; [done|]. by split.
Qed.

(** The invariant looks at these fields only. *)
Definition core (t : handshakeTransport) :=
  (ht_writeError t, ht_sentInit t, ht_pendingPackets t, ht_incoming t, ht_kex t).

Lemma core_count_write p t : core (count_write p t) = core t.
Proof.
  unfold count_write, core. destruct (0 <? ht_writeBytesLeft t); cbn; destruct (0 <? ht_writePacketsLeft t); done.
Qed.
Lemma core_count_read p t : core (count_read p t) = core t.
Proof.
  unfold count_read, core. destruct (0 <? ht_readPacketsLeft t); cbn; destruct (0 <? ht_readBytesLeft t); done.
Qed.

Lemma inv_core t t' k r wt wt' d sc wi ac de pf kf :
  core t' = core t -> inv (mkWorld t k r wt d sc wi ac de pf kf) -> inv (mkWorld t' k r wt' d sc wi ac de pf kf).
Proof.
  intros [= E1 E2 E3 E4 E5] [? ? ? Hk ? ? ? ? Hr Ho Hu ?]. cbn in *.
  split; cbn; rewrite ?E1, ?E2, ?E3, ?E4, ?E5; try done.
  - unfold kex_at in *. by rewrite E1, E2.
  - unfold run_at in *. cbn in *. by rewrite E2, E5.
  - unfold order_at in *. cbn in *. by rewrite E1, E3.
  - unfold up_at in *. cbn in *. by rewrite E5.
Qed.

(** The outcomes of [writePacket_enter]. *)
Lemma writePacket_enter_spec t b p t' a :
  writePacket_enter t b p = (t', a) ->
  match a with
  | WReturns None => ht_writeError t = None /\ ht_sentInit t <> None /\ (length (ht_pendingPackets t) < maxPendingPackets)%nat /\
      core t' = core (set_pendingPackets (ht_pendingPackets t ++ [p]) t)
  | WReturns (Some _) => core t' = core t
  | WWaits => core t' = core t
  | WPushes => ht_writeError t = None /\ ht_sentInit t = None /\ core t' = core t
  end.
Proof.
  unfold writePacket_enter.
  destruct (b =? msgKexInit); [by intros [= <- <-]|]. destruct (b =? msgNewKeys); [by intros [= <- <-]|].
  destruct (_ && _); [by intros [= <- <-]|].
  set (t1 := if b =? msgUserAuthSuccess then set_userAuthComplete true t else t).
  assert (E : core t1 = core t) by (unfold t1; by destruct (b =? _)). revert E. unfold core at 1 2. intros [= E1 E2 E3 E4 E5].
  rewrite E1, E2, E3. destruct (ht_writeError t) eqn:Ew; [intros [= <- <-]; unfold core; congruence|].
  destruct (ht_sentInit t) eqn:Es.
  - destruct (Nat.ltb_spec (length (ht_pendingPackets t)) maxPendingPackets); intros [= <- <-]; unfold core; cbn; [|congruence].
    split; [done|]. split; [done|]. split; [done|]. congruence.
  - intros [= <- <-]. unfold core. split; [done|]. split; [done|]. congruence.
Qed.

Ltac wsimpl := cbn [w_t w_kex w_read w_waiting w_done w_startClosed w_wire w_accepted w_delivered w_pushFailed w_kexFailed] in *.

Lemma data_of_app l l' : data_of (l ++ l') = data_of l ++ data_of l'.
Proof. apply omap_app. Qed.
Lemma wire_phase_app l l' : wire_phase (l ++ l') = fold_left wire_step l' (wire_phase l).
Proof. apply fold_left_app. Qed.

(** A writer's packet goes out, or its push fails. *)
Lemma inv_push t k r wt wt' d sc wi ac de pf kf p err :
  ht_writeError t = None -> ht_sentInit t = None ->
  inv (mkWorld t k r wt d sc wi ac de pf kf) ->
  inv (mkWorld (writePacket_push t p err) k r wt' d sc (wi ++ wire_data p err) (ac ++ [p]) de (pf || is_err err) kf).
Proof.
  intros Hw Hs [Hb Hin Hp Hk Hh Hd Hsu Hc Hr Ho Hu Hse]. wsimpl. specialize (Hp Hs).
  assert (Hrun : running k = false) by (destruct k; try done; by destruct Hk).
  assert (pf = false) as ->.
  { unfold order_at in Ho. wsimpl. destruct pf; [|done]. destruct Ho as (_ & ? & _). done. }
  unfold order_at in Ho. wsimpl. rewrite Hp, app_nil_r in Ho.
  unfold writePacket_push. apply (inv_core (match err with Some e => set_writeError (Some e) t | None => t end) _ _ _ wt).
  { pose proof (core_count_write p t) as E. unfold core in E. injection E as E1 E2 E3 E4 E5.
    destruct err; unfold core; cbn; congruence. }
  assert (Hr' : run_at (mkWorld (match err with Some e => set_writeError (Some e) t | None => t end) k r wt d sc
    (wi ++ wire_data p err) (ac ++ [p]) de (is_err err) kf)).
  { unfold run_at in *. wsimpl. replace (ht_sentInit (match err with Some e => _ | None => _ end)) with (ht_sentInit t) by (by destruct err).
    assert (Hnew : (kf = false -> exists wp, wire_phase wi = Some wp /\ (wp = WInKex <-> ht_sentInit t <> None)) ->
      kf = false -> exists wp, wire_phase (wi ++ wire_data p err) = Some wp /\ (wp = WInKex <-> ht_sentInit t <> None)).
    { intros Hold Hkf. destruct (Hold Hkf) as (wp & Hwp & Hiff). destruct err; cbn [wire_data]; [rewrite app_nil_r; by exists wp|].
      exists WOpen. rewrite wire_phase_app, Hwp, Hs. destruct wp; [done|by destruct Hiff as [[] _]|done]. }
    destruct k; auto. done. }
  destruct err as [e|]; cbn [wire_data is_err orb] in *.
  - split; wsimpl; try done.
    + destruct k; cbn in *; try done; try (by right).
    + unfold order_at. wsimpl. rewrite app_nil_r, Ho. split; [by eexists|]. done.
  - split; wsimpl; try done. unfold order_at. wsimpl. by rewrite data_of_app, Ho, Hp, app_nil_r.
Qed.

(** A packet is queued behind those that wait for the exchange. *)
Lemma inv_queue t k r wt d sc wi ac de pf kf p :
  ht_writeError t = None -> ht_sentInit t <> None -> (length (ht_pendingPackets t) < maxPendingPackets)%nat ->
  inv (mkWorld t k r wt d sc wi ac de pf kf) ->
  inv (mkWorld (set_pendingPackets (ht_pendingPackets t ++ [p]) t) k r wt d sc wi (ac ++ [p]) de pf kf).
Proof.
  intros Hw Hs Hl [Hb Hin Hp Hk Hh Hd Hsu Hc Hr Ho Hu Hse]. wsimpl. split; wsimpl; try done.
  - cbn. rewrite length_app. cbn. lia.
  - unfold order_at in *. wsimpl. cbn. destruct pf; [by destruct Ho as (_ & ? & _)|]. by rewrite Ho, app_assoc.
Qed.

Lemma inv_write_error t k r wt d sc wi ac de pf kf e :
  running k = false -> inv (mkWorld t k r wt d sc wi ac de pf kf) ->
  inv (mkWorld (recordWriteError e t) k r wt d sc wi ac de pf kf).
Proof.
  intros Hrun Hi. unfold recordWriteError. destruct (ht_writeError t) eqn:Ew; [done|].
  destruct Hi as [Hb Hin Hp Hk Hh Hd Hsu Hc Hr Ho Hu Hse]. wsimpl. split; wsimpl; try done.
  - destruct k; cbn in *; try done; try (by right).
  - unfold order_at in *. wsimpl. destruct pf; [|done]. destruct Ho as (_ & ? & _). done.
Qed.

Context `{!KexLaws}.

(** A step of the exchange. *)
Lemma inv_run t tree r wt d sc wi ac de pf kf tree' wi' kf' :
  data_of wi' = data_of wi ->
  run_at (mkWorld t (KRun tree') r wt d sc wi' ac de pf kf') ->
  inv (mkWorld t (KRun tree) r wt d sc wi ac de pf kf) -> inv (mkWorld t (KRun tree') r wt d sc wi' ac de pf kf').
Proof.
  intros Hdata Hrun [Hb Hin Hp Hk Hh Hd Hsu Hc Hr Ho Hu Hse]. wsimpl. split; wsimpl; try done.
  unfold order_at in *. wsimpl. by rewrite Hdata.
Qed.

Lemma wire_phase_kex ph p ph' wi :
  allowed_send c ph p ph' -> wire_phase wi = Some (wire_of ph) -> wire_phase (wi ++ [WireKex p]) = Some (wire_of ph').
Proof.
  intros Ha Hw. rewrite wire_phase_app, Hw. destruct Ha as [p Hp| |Hs]; cbn [fold_left wire_step wire_of].
  - destruct p as [|b rest]; [done|]. cbn in Hp. unfold is_msg, msgNewKeys.
    replace (bv b =? 21) with false by (symmetry; apply Z.eqb_neq; lia).
    by rewrite !(proj2 (Z.leb_le _ _)) by lia.
  - reflexivity.
  - reflexivity.
Qed.

Lemma inv_run_send t p tree o r wt d sc wi ac de pf kf :
  inv (mkWorld t (KRun (Send p tree)) r wt d sc wi ac de pf kf) ->
  inv (mkWorld t (KRun (tree o)) r wt d sc (wi ++ match o with None => [WireKex p] | Some _ => [] end) ac de pf (kf || is_err o)).
Proof.
  intros Hi. eapply inv_run; [| |exact Hi].
  { rewrite data_of_app. destruct o; by rewrite app_nil_r. }
  pose proof (i_run _ Hi) as (m & ph & Hob & Hw). wsimpl. destruct Hob as (ph' & Hs & Hob).
  exists m, ph'. wsimpl. split; [apply Hob|]. destruct o; cbn [is_err]; [by rewrite orb_true_r|].
  rewrite orb_false_r. intros Hkf. by eapply wire_phase_kex; [|apply Hw].
Qed.

Lemma inv_run_recv t tree x r wt d sc wi ac de pf kf :
  readable x -> inv (mkWorld t (KRun (Recv tree)) r wt d sc wi ac de pf kf) -> inv (mkWorld t (KRun (tree x)) r wt d sc wi ac de pf kf).
Proof.
  intros Hx Hi. eapply inv_run; [done| |exact Hi]. pose proof (i_run _ Hi) as (m & ph & Hob & Hw).
  exists m, ph. wsimpl. split; [by apply Hob|done].
Qed.

Lemma inv_run_call t x tree o r wt d sc wi ac de pf kf :
  inv (mkWorld t (KRun (Call x tree)) r wt d sc wi ac de pf kf) -> inv (mkWorld t (KRun (tree o)) r wt d sc wi ac de pf kf).
Proof.
  intros Hi. eapply inv_run; [done| |exact Hi]. pose proof (i_run _ Hi) as (m & ph & Hob & Hw).
  wsimpl. destruct Hob as (ph' & Ha & Hob). exists m, ph'. wsimpl. split; [apply Hob|]. intros Hkf. rewrite Hw by done.
  f_equal. by destruct Ha.
Qed.

Lemma inv_enter t p r wt d sc wi ac de pf kf sent rand entropy :
  ht_writeError t = None -> ht_sentInit t = Some sent ->
  inv (mkWorld t (KCheck (Some p)) r wt d sc wi ac de pf kf) ->
  inv (mkWorld t (KRun (enterKeyExchange c sent rand entropy p (ht_kex t))) r wt d sc wi ac de pf kf).
Proof.
  intros Hw Hs [Hb Hin Hp Hk Hh Hd Hsu Hc Hr Ho Hu Hse]. wsimpl. split; wsimpl; try done.
  - cbn. by rewrite Hs.
  - exists (hs_magics c (snd sent) p), Exchanging. wsimpl. split.
    + eapply obeys_mono; [by apply enterKeyExchange_obeys|].
      intros ph x (st & y & -> & Hst & Hy). exists st, y. split; [done|]. split.
      * intros Hne. destruct (ks_sessionID (ht_kex t)) as [id|] eqn:Eid; [|done]. by rewrite (Hst id eq_refl).
      * destruct y as [u|e]; [|done]. intros _. destruct Hy as (-> & id & algs & oi & Hid & _). split; [done|]. by rewrite Hid.
    + intros Hkf. destruct (Hr Hkf) as (wp & Hwp & Hiff). wsimpl. rewrite Hwp. f_equal. apply Hiff. by rewrite Hs.
Qed.

Lemma data_of_WireData l : data_of (map WireData l) = l.
Proof. induction l; [done|]. cbn. by f_equal. Qed.
Lemma wire_phase_data wi l wp :
  wire_phase wi = Some wp -> wp <> WInKex -> exists wp', wire_phase (wi ++ map WireData l) = Some wp' /\ wp' <> WInKex.
Proof.
  revert wi wp. induction l as [|p l IH]; intros wi wp Hw Hne; cbn [map]; [rewrite app_nil_r; eauto|].
  replace (wi ++ WireData p :: map WireData l) with ((wi ++ [WireData p]) ++ map WireData l) by (by rewrite <- app_assoc).
  apply (IH _ WOpen); [|done]. rewrite wire_phase_app, Hw. by destruct wp.
Qed.

Lemma push_pending_fields t st err push_err :
  let t' := push_pending (kex_done t st err) push_err in
  ht_sentInit t' = None /\ ht_pendingPackets t' = [] /\ ht_kex t' = st /\ ht_incoming t' = ht_incoming t /\
  ht_writeError t' = match ht_pendingPackets t with [] => err | _ => push_err end.
Proof. unfold push_pending, kex_done. cbn. by destruct (ht_pendingPackets t). Qed.

Lemma inv_complete t st x r wt d sc wi ac de pf kf push_err out :
  pushes (ht_pendingPackets t) push_err out ->
  inv (mkWorld t (KRun (Done (Ok (st, x)))) r wt d sc wi ac de pf kf) ->
  inv (mkWorld (push_pending (kex_done t st (error_of x)) push_err) KOuter r wt (Some (error_of x)) sc (wi ++ map WireData out)
         ac de (pf || is_err push_err) (kf || is_err (error_of x))).
Proof.
  intros Hpush [Hb Hin Hp Hk Hh Hd Hsu Hc Hr Ho Hu Hse]. wsimpl.
  destruct (push_pending_fields t st (error_of x) push_err) as (Es & Ep & Ek & Ei & Ew).
  destruct Hh as [Hwait _]; [done|]. destruct Hk as [_ Hw0].
  destruct Hr as (m & ph & (st' & x' & [= <- <-] & Hkeep & Hpost) & Hwire).
  split; wsimpl; rewrite ?Ek; try done.
  - rewrite Ep. cbn. lia.
  - by rewrite Ei.
  - intros [= E]. by apply Hpost.
  - unfold run_at. wsimpl. rewrite Es. intros Hkf. apply orb_false_iff in Hkf as [Hkf He].
    destruct (error_of x) eqn:Ex; [done|]. destruct (Hpost eq_refl) as [-> _].
    destruct (wire_phase_data wi out _ (Hwire Hkf)) as (wp & Hwp & Hne); [done|]. exists wp. split; [done|]. by split.
  - unfold order_at in *. wsimpl. rewrite Ep, Ew.
    destruct pf; [by destruct Ho as (_ & ? & _)|]. cbn [orb]. rewrite data_of_app, data_of_WireData, Ho.
    destruct Hpush as [l|l p l' e]; cbn [is_err]; [by rewrite app_nil_r|].
    split; [|split; [|done]].
    + exists (p :: l'). by rewrite <- app_assoc.
    + by destruct l.
  - unfold up_at in *. wsimpl. destruct de; [|done]. by destruct r.
  - intros Hde. apply Hkeep. by apply Hse.
Qed.

(** The goroutines move while nothing else changes. *)
Lemma inv_move t k r wt d sc wi ac de pf kf k' r' d' sc' :
  running k = false -> running k' = false -> kex_at t k' sc' ->
  (in_hand k' = true -> reader_waits r' = true /\ d' = None) -> (d' <> None -> reader_waits r' = true) ->
  (d' = Some None -> ks_sessionID (ht_kex t) <> None) -> (sc' = true -> r' = RDone) ->
  up_at (mkWorld t k' r' wt d' sc' wi ac de pf kf) ->
  inv (mkWorld t k r wt d sc wi ac de pf kf) -> inv (mkWorld t k' r' wt d' sc' wi ac de pf kf).
Proof.
  intros Hk1 Hk2 ? ? ? ? ? ? [Hb Hin Hp Hk Hh Hd Hsu Hc Hr Ho Hu Hse]. wsimpl. split; wsimpl; try done.
  unfold run_at in *. wsimpl. by destruct k, k'.
Qed.

(** The read loop runs only while no request is in hand. *)
Lemma reader_free t k r wt d sc wi ac de pf kf :
  inv (mkWorld t k r wt d sc wi ac de pf kf) -> reader_waits r = false ->
  in_hand k = false /\ running k = false /\ d = None.
Proof.
  intros Hi Hr. pose proof (i_hand _ Hi) as Hh. pose proof (i_done _ Hi) as Hd. wsimpl.
  assert (Hk : in_hand k = false) by (destruct (in_hand k); [destruct Hh as [? _]; [done|]; congruence|done]).
  split; [done|]. split; [by destruct k|]. destruct d; [|done]. exfalso. specialize (Hd ltac:(done)). congruence.
Qed.

(** A move of the read loop to a place where it does not wait. *)
Lemma inv_read_move t k r wt d sc wi ac de pf kf r' :
  reader_waits r = false -> reader_waits r' = false -> sc = false \/ r' = RDone ->
  up_at (mkWorld t k r' wt d sc wi ac de pf kf) ->
  inv (mkWorld t k r wt d sc wi ac de pf kf) -> inv (mkWorld t k r' wt d sc wi ac de pf kf).
Proof.
  intros Hr Hr' Hsc Hup Hi. destruct (reader_free _ _ _ _ _ _ _ _ _ _ _ Hi Hr) as (Hh & Hk & ->).
  apply (inv_move t k r wt None sc); [done|done|apply (i_kex _ Hi)|by rewrite Hh|done|done| |done|exact Hi].
  intros ->. by destruct Hsc.
Qed.
Lemma not_closed t k r wt d sc wi ac de pf kf :
  inv (mkWorld t k r wt d sc wi ac de pf kf) -> r <> RDone -> sc = false.
Proof. intros Hi Hr. pose proof (i_closed _ Hi). wsimpl. destruct sc; auto. by exfalso; auto. Qed.

(** Reading a packet. *)
Lemma inv_read t k first b rest x wt d sc wi ac de pf kf :
  readOnePacket first (bv b) (b :: rest) = RReturns x ->
  inv (mkWorld t k (RRead first) wt d sc wi ac de pf kf) ->
  inv (mkWorld (count_read (b :: rest) t) k (match x with Ok p => RHave p | Err e => RFail e end) wt d sc wi ac de pf kf).
Proof.
  intros Hx Hi. eapply inv_core; [apply core_count_read|]. pose proof (i_up _ Hi) as Hu. unfold up_at in Hu. wsimpl.
  eapply inv_read_move; [| |left; by eapply not_closed| |exact Hi]; [done|by destruct x|].
  unfold up_at. wsimpl. destruct de; [|done]. destruct x as [p|e]; [|done]. destruct Hu as [-> _]. unfold readOnePacket in Hx.
  cbn [andb] in Hx. by destruct (negb _).
Qed.

Lemma inv_sendInit t req r wt d sc wi ac de pf kf rand err t' out :
  sendKexInit t rand err = (t', out, None) ->
  inv (mkWorld t (KSendInit req) r wt d sc wi ac de pf kf) ->
  inv (mkWorld t' (match req with Some _ => KCheck req | None => KSelect None true end) r wt d sc
         (wi ++ match out with Some p => [WireKexInit p] | None => [] end) ac de pf kf).
Proof.
  intros Hs [Hb Hin Hp Hk Hh Hd Hsu Hc Hr Ho Hu Hse]. wsimpl. unfold sendKexInit in Hs. cbn in Hk. rewrite Hk in Hs.
  destruct err as [e|]; [done|]. injection Hs as <- <-. specialize (Hp Hk).
  split; wsimpl; try done.
  - by destruct req; cbn.
  - destruct req; cbn; [done|]. done.
  - unfold run_at in *. wsimpl.
    assert (Hn : kf = false -> exists wp, wire_phase (wi ++ [WireKexInit (MarshalMsg (kexInit_of c (is_nil (ks_sessionID (ht_kex t))) rand))]) = Some wp /\
      (wp = WInKex <-> Some (kexInit_of c (is_nil (ks_sessionID (ht_kex t))) rand, MarshalMsg (kexInit_of c (is_nil (ks_sessionID (ht_kex t))) rand)) <> None)).
    { intros Hkf. destruct (Hr Hkf) as (wp & Hwp & Hiff). exists WInKex. split; [|done]. rewrite wire_phase_app, Hwp.
      destruct wp; [done| |done]. by destruct Hiff as [[] _]. }
    by destruct req.
  - unfold order_at in *. wsimpl. by rewrite data_of_app, app_nil_r.
Qed.

(** Moves of the key exchange loop. *)
Lemma inv_kex_move t k r wt d sc wi ac de pf kf k' :
  running k = false -> running k' = false -> in_hand k' = in_hand k -> kex_at t k' sc ->
  inv (mkWorld t k r wt d sc wi ac de pf kf) -> inv (mkWorld t k' r wt d sc wi ac de pf kf).
Proof.
  intros Hk Hk' Hh Hat Hi. apply (inv_move t k r wt d sc); [done|done|done| | | | | |exact Hi].
  - rewrite Hh. apply (i_hand _ Hi).
  - apply (i_done _ Hi).
  - apply (i_success _ Hi).
  - apply (i_closed _ Hi).
  - apply (i_up _ Hi).
Qed.

Lemma inv_start_kex t req sent p f wt d sc wi ac de pf kf :
  inv (mkWorld t (KSelect req sent) (ROffer p f) wt d sc wi ac de pf kf) ->
  inv (mkWorld t (if sent : bool then KCheck (Some p) else KSendInit (Some p)) (RWaitDone f) wt d sc wi ac de pf kf).
Proof.
  intros Hi. destruct (reader_free _ _ _ _ _ _ _ _ _ _ _ Hi eq_refl) as (_ & _ & ->).
  pose proof (i_kex _ Hi) as Hk. pose proof (i_up _ Hi) as Hu. assert (sc = false) as -> by (by eapply not_closed).
  apply (inv_move t (KSelect req sent) (ROffer p f) wt None false); [done|by destruct sent| |by destruct sent|done|done|done| |exact Hi].
  - wsimpl. destruct Hk as [_ Hs]. destruct sent; cbn; [by intros _|done].
  - unfold up_at in *. wsimpl. by destruct de.
Qed.

Lemma inv_check_error t req r wt d sc wi ac de pf kf e :
  ht_writeError t = Some e -> inv (mkWorld t (KCheck req) r wt d sc wi ac de pf kf) ->
  inv (mkWorld t KDrain r wt (match req with Some _ => Some (Some e) | None => d end) sc wi ac de pf kf).
Proof.
  intros He Hi. apply (inv_move t (KCheck req) r wt d sc); [done|done|by right; rewrite He|done| | | | |exact Hi].
  - pose proof (i_hand _ Hi) as Hh. pose proof (i_done _ Hi). wsimpl. destruct req; [|done]. intros _. by apply Hh.
  - pose proof (i_success _ Hi). wsimpl. by destruct req.
  - apply (i_closed _ Hi).
  - apply (i_up _ Hi).
Qed.

Lemma inv_drain t p f wt d sc wi ac de pf kf :
  inv (mkWorld t KDrain (ROffer p f) wt d sc wi ac de pf kf) ->
  inv (mkWorld t KDrain (RWaitDone f) wt (Some (ht_writeError t)) sc wi ac de pf kf).
Proof.
  intros Hi. assert (sc = false) as -> by (by eapply not_closed). pose proof (i_kex _ Hi) as [?|Hw]; [done|]. wsimpl.
  apply (inv_move t KDrain (ROffer p f) wt d false); [done|done|by right|done|done| |done| |exact Hi].
  - by intros [= E].
  - pose proof (i_up _ Hi) as Hu. unfold up_at in *. wsimpl. by destruct de.
Qed.

Lemma inv_done t k f e wt sc wi ac de pf kf :
  inv (mkWorld t k (RWaitDone f) wt (Some e) sc wi ac de pf kf) ->
  inv (mkWorld (if is_err e then t else resetReadThresholds t) k
         (match e with None => RHave (successPacket f) | Some e => RFail e end) wt None sc wi ac de pf kf).
Proof.
  intros Hi. apply (inv_core t _ _ _ wt); [by destruct e|].
  assert (Hh : in_hand k = false).
  { pose proof (i_hand _ Hi) as Hh. wsimpl. destruct (in_hand k); [|done]. by destruct Hh. }
  assert (sc = false) as -> by (by eapply not_closed).
  apply (inv_move t k (RWaitDone f) wt (Some e) false); [by destruct k|by destruct k|apply (i_kex _ Hi)|by rewrite Hh|done|done|done| |exact Hi].
  pose proof (i_up _ Hi) as Hu. pose proof (i_success _ Hi) as Hs. unfold up_at in *. wsimpl. destruct de; [|done].
  destruct e; [done|]. rewrite Hu. split; [done|by apply Hs].
Qed.

Lemma inv_deliver t k p wt d sc wi ac de pf kf :
  (length (ht_incoming t) < chanSize)%nat ->
  inv (mkWorld t k (RHave p) wt d sc wi ac de pf kf) ->
  inv (mkWorld (set_incoming (ht_incoming t ++ [p]) t) k (RRead false) wt d sc wi ac (de ++ [p]) pf kf).
Proof.
  intros Hl Hi. destruct (reader_free _ _ _ _ _ _ _ _ _ _ _ Hi eq_refl) as (Hh & Hrun & ->).
  assert (sc = false) as -> by (by eapply not_closed).
  destruct Hi as [Hb Hin Hp Hk _ Hd Hsu Hc Hr Ho Hu Hse]. wsimpl. split; wsimpl; try done.
  - cbn. rewrite length_app. cbn. lia.
  - by rewrite Hh.
  - unfold up_at in *. wsimpl. destruct de; cbn; [apply Hu|done].
  - intros _. unfold up_at in Hu. wsimpl. destruct de; [apply Hu|by apply Hse].
Qed.

Lemma inv_step w w' : step w w' -> inv w -> inv w'.
Proof.
  intros Hs. destruct Hs as
    [t k r wt d sc wi ac de pf kf b rest t' e He|t k r wt d sc wi ac de pf kf b rest t' He
    |t k r wt d sc wi ac de pf kf b rest t' err He| | |t r wt d sc wi ac de pf kf| |t req sent r wt d wi ac de pf kf
    |t req sent r wt d sc wi ac de pf kf Hreq| |t req r wt d sc wi ac de pf kf rand err t' out e He| | | | | |
    | | |t k first e wt d sc wi ac de pf kf| |t k first b rest wt d sc wi ac de pf kf Hx
    | |t k p wt d sc wi ac de pf kf Hd| |t k e wt d sc wi ac de pf kf|t k e wt d sc wi ac de pf kf|t k wt d sc wi ac de pf kf
    |t k r wt d sc wi ac de pf kf p q Hq]; intros Hi.
  - apply writePacket_enter_spec in He. destruct e as [e|].
    + cbn [accept]. rewrite app_nil_r. by eapply inv_core.
    + destruct He as (Hw & Hsent & Hl & Hcore). eapply inv_core; [exact Hcore|]. by apply inv_queue.
  - apply writePacket_enter_spec in He. by eapply inv_core.
  - apply writePacket_enter_spec in He as (Hw & Hsent & Hcore). pose proof Hcore as Hcore'. unfold core in Hcore'. injection Hcore' as E1 E2 _ _ _.
    apply (inv_push _ _ _ wt); [by rewrite E1|by rewrite E2|]. by eapply inv_core.
  - by eapply inv_core.
  - by eapply inv_push.
  - pose proof (i_kex _ Hi) as Hk. wsimpl. destruct (ht_writeError t) eqn:Ew; cbn [is_err].
    + eapply inv_kex_move; [| | | |exact Hi]; try done. right. by rewrite Ew.
    + eapply inv_kex_move; [| | | |exact Hi]; done.
  - by eapply inv_start_kex.
  - pose proof (i_closed _ Hi eq_refl) as Hc. wsimpl. subst. pose proof (i_kex _ Hi) as [-> _].
    eapply inv_kex_move; [| | | |exact Hi]; try done. by left.
  - apply (inv_core t _ _ _ wt); [done|]. pose proof (i_kex _ Hi) as [-> Hk]. wsimpl. destruct sent; [done|].
    eapply inv_kex_move; [| | | |exact Hi]; done.
  - by eapply inv_sendInit.
  - unfold sendKexInit in He. pose proof (i_kex _ Hi) as Hk. wsimpl. cbn in Hk. rewrite Hk in He. destruct err as [e'|]; [|done].
    injection He as <- <- <-. assert (Hne : ht_writeError (recordWriteError e' t) <> None)
      by (unfold recordWriteError; destruct (ht_writeError t) eqn:E; [by rewrite E|done]).
    eapply inv_kex_move; [| | | |apply inv_write_error; [|exact Hi]; done]; done.
  - by eapply inv_check_error.
  - by eapply inv_enter.
  - by eapply inv_run_send.
  - by eapply inv_run_recv.
  - by eapply inv_run_call.
  - by eapply inv_complete.
  - by eapply inv_drain.
  - eapply inv_kex_move; [| | | |exact Hi]; try done. by left.
  - eapply inv_read_move; [| |left; by eapply not_closed| |exact Hi]; try done. pose proof (i_up _ Hi) as Hu. unfold up_at in *. wsimpl. by destruct de.
  - by eapply inv_read.
  - eapply inv_core; [apply core_count_read|]. pose proof (i_up _ Hi) as Hu. unfold up_at in Hu. wsimpl.
    eapply inv_read_move; [| |left; by eapply not_closed| |exact Hi]; try done. unfold up_at. wsimpl. destruct de; [|done].
    by destruct Hu as [_ ->].
  - by eapply inv_done.
  - pose proof (i_up _ Hi) as Hu. unfold up_at in Hu. wsimpl.
    eapply inv_read_move; [| |left; by eapply not_closed| |exact Hi]; try done. unfold up_at. wsimpl. destruct de; [|done].
    exfalso. destruct Hu as [-> _]. unfold dropped in Hd. by rewrite andb_false_r in Hd.
  - by eapply inv_deliver.
  - eapply inv_core; [|eapply inv_read_move; [| |left; by eapply not_closed| |exact Hi]]; try done. pose proof (i_up _ Hi) as Hu. unfold up_at in *. wsimpl. by destruct de.
  - destruct (reader_free _ _ _ _ _ _ _ _ _ _ _ Hi eq_refl) as (_ & Hk & _).
    eapply inv_read_move; [| |left; by eapply not_closed| |by apply inv_write_error]; try done. pose proof (i_up _ Hi) as Hu. unfold up_at in *. wsimpl. by destruct de.
  - destruct (reader_free _ _ _ _ _ _ _ _ _ _ _ Hi eq_refl) as (Hh & Hk & ->).
    apply (inv_move t k RClose wt None sc); try done.
    + pose proof (i_kex _ Hi) as Hat. wsimpl. destruct k; try done; by left.
    + by rewrite Hh.
    + unfold up_at. wsimpl. destruct de; [done|]. pose proof (i_up _ Hi) as Hu. unfold up_at in Hu. by wsimpl.
  - destruct Hi as [Hb Hin Hp Hk Hh Hd Hsu Hc Hr Ho Hu Hse]. wsimpl. split; wsimpl; try done.
    rewrite Hq in Hin. cbn in *. lia.
Qed.

Lemma rekey_reachable_inv w : reachable w -> inv w.
Proof.
  intros Hr. unfold reachable in Hr. assert (Hs : inv start_world) by apply inv_start. revert Hs.
  induction Hr as [|w1 w2 w3 Hstep _ IH]; [done|]. intros Hi. by apply IH, (inv_step _ _ Hstep).
Qed.

(** C19. In every interleaving of the read loop, the key exchange loop and any number of
    writers, whatever the connection does: at most 64 packets are queued and at most 16
    wait for the layer above.  While no write of a packet failed, the accepted packets
    are those that went out followed by those queued, in order; afterwards what went out
    is a prefix of them.  While no key exchange failed, only messages of the exchange go
    out between a KEXINIT and the NEWKEYS after it.  The first packet handed up is the
    NEWKEYS of a first exchange that succeeded. *)
Theorem handshake_interleavings w :
  reachable w ->
  (length (ht_pendingPackets (w_t w)) <= maxPendingPackets)%nat /\ (length (ht_incoming (w_t w)) <= chanSize)%nat /\
  (w_pushFailed w = false -> w_accepted w = data_of (w_wire w) ++ ht_pendingPackets (w_t w)) /\
  data_of (w_wire w) `prefix_of` w_accepted w /\
  (w_kexFailed w = false -> wire_phase (w_wire w) <> None) /\
  (w_delivered w <> [] -> head (w_delivered w) = Some newKeysPacket /\ ks_sessionID (ht_kex (w_t w)) <> None).
Proof.
  intros [Hb Hin Hp Hk Hh Hd Hsu Hc Hr Ho Hu Hse]%rekey_reachable_inv. split; [done|]. split; [done|].
  unfold order_at in Ho. split; [by destruct (w_pushFailed w)|]. split.
  { destruct (w_pushFailed w); [apply Ho|]. rewrite Ho. by eexists. }
  split.
  - intros Hkf. unfold run_at in Hr.
    assert (Hn : (w_kexFailed w = false -> exists wp, wire_phase (w_wire w) = Some wp /\ (wp = WInKex <-> ht_sentInit (w_t w) <> None)) ->
      wire_phase (w_wire w) <> None) by (intros Hx; destruct (Hx Hkf) as (wp & -> & _); done).
    destruct (w_kex w); auto. destruct Hr as (m & ph & _ & Hw). by rewrite Hw.
  - intros Hne. split; [|auto]. unfold up_at in Hu. destruct (w_delivered w); [done|]. cbn. by rewrite Hu.
Qed.
End Rekey.

(** ** An instance of the theorem: a packet written after KEXINIT went out is queued. *)
Definition toy_client : @hsConfig toy_keylib := toy_config [].
Definition toy_init : kexInitMsg := kexInit_of toy_client true (sample_rand "ab").
Definition toy_world : world :=
  let t := newHandshakeTransport toy_client in
  mkWorld (set_pendingPackets [go "Zed"] (set_sentInit (Some (toy_init, MarshalMsg toy_init)) (set_requestKex false t)))
    (KSelect None true) (RRead true) [] None false [WireKexInit (MarshalMsg toy_init)] [go "Zed"] [] false false.

Lemma toy_reachable : @reachable sample_crypto sample_kexlib ascii_tables toy_keylib toy_client toy_world.
Proof.
  eapply rtc_l; [apply S_outer|]. eapply rtc_l; [by apply S_request|].
  eapply rtc_l; [by apply (S_sendInit _ _ None _ _ _ _ _ _ _ _ _ (sample_rand "ab") None)|].
  eapply rtc_l; [by apply (S_write _ _ _ _ _ _ _ _ _ _ _ _ "Z"%char (go "ed"))|]. apply rtc_refl.
Qed.

Lemma handshake_interleavings_witness :
  ht_pendingPackets (w_t toy_world) = [go "Zed"] /\
  w_accepted toy_world = data_of (w_wire toy_world) ++ ht_pendingPackets (w_t toy_world).
Proof.
  split; [reflexivity|].
  destruct (@handshake_interleavings sample_crypto sample_kexlib ascii_tables toy_keylib toy_client sample_kexlaws
              toy_world toy_reachable) as (_ & _ & Ho & _).
  apply Ho. reflexivity.
Defined.
