(* ===== verification/SshKeys.v ===== *)
(** * Public keys and certificates: [third/ssh/keys.go] and [certs.go].

    [PublicKey] has a constructor per type that implements the interface; a certificate
    holds keys, which may be certificates when a caller builds such a value.  A method on
    a nil interface, [elliptic.Marshal] off the curve and [Type] of a certificate for an
    unknown key panic: [None].  [parsePubKey] and [parseCert] call each other; the
    recursion has a depth as fuel.  The signature primitives of the Go library are the
    class [SigLib].

    Proved: parsing inverts marshalling for every well-formed key and certificate and
    returns only well-formed ones; two levels of recursion are always enough, whatever is
    nested in the input; a signature is accepted exactly when it is one of the formats of
    the key and the primitive accepts the message it stands for. *)
From Stdlib Require Import Ascii String ZArith Lia Sorting.Sorted.
From stdpp Require Import base gmap strings list sorting.
From S2P Require Import Prelude GoStrings SshWire SshMessages SshAlgos GoCrypto GoIO SshCipher SshAuth KexLib SshKex.
Local Open Scope Z_scope.

(** ** Computations that may panic or fail *)
Definition pr (A : Type) : Type := option (res A).
#[export] Instance pr_ret : MRet pr := fun A a => Some (Ok a).
#[export] Instance pr_bind : MBind pr := fun A B f m =>
  match m with Some (Ok a) => f a | Some (Err e) => Some (Err e) | None => None end.
Definition pr_fail {A} (e : error) : pr A := Some (Err e).
Definition pr_res {A} (r : res A) : pr A := Some r.

(** ** Keys *)
Record dsaParameters := mkDSA { dsa_P : Z; dsa_Q : Z; dsa_G : Z }.

(** [Certificate], with its embedded [Permissions]; the maps are nil or not, which no
    code here distinguishes. *)
Record CertificateOf (K : Type) := mkCertificate {
  cert_Nonce : gostring;
  cert_Key : K;
  cert_Serial : Z;
  cert_CertType : Z;
  cert_KeyId : gostring;
  cert_ValidPrincipals : list gostring;
  cert_ValidAfter : Z;
  cert_ValidBefore : Z;
  cert_CriticalOptions : gmap gostring gostring;
  cert_Extensions : gmap gostring gostring;
  cert_Reserved : gostring;
  cert_SignatureKey : option K;
  cert_Signature : option Signature }.
Arguments mkCertificate {K}.
Arguments cert_Nonce {K}.
Arguments cert_Key {K}.
Arguments cert_Serial {K}.
Arguments cert_CertType {K}.
Arguments cert_KeyId {K}.
Arguments cert_ValidPrincipals {K}.
Arguments cert_ValidAfter {K}.
Arguments cert_ValidBefore {K}.
Arguments cert_CriticalOptions {K}.
Arguments cert_Extensions {K}.
Arguments cert_Reserved {K}.
Arguments cert_SignatureKey {K}.
Arguments cert_Signature {K}.

#[warnings="-register-all"]
Inductive PublicKey :=
| rsaPublicKey (E N : Z)
| dsaPublicKey (param : dsaParameters) (Y : Z)
| ecdsaPublicKey (curve : Curve) (X Y : Z)
| ed25519PublicKey (key : gostring)
| skECDSAPublicKey (application : gostring) (curve : Curve) (X Y : Z) (noTouchRequired : bool)
| skEd25519PublicKey (application key : gostring) (noTouchRequired : bool)
| certificate (c : CertificateOf PublicKey).
Abbreviation Certificate := (CertificateOf PublicKey).

Definition nistID (c : Curve) : gostring :=
  match c with P256 => go "nistp256" | P384 => go "nistp384" | P521 => go "nistp521" end.

Fixpoint key_Type (k : PublicKey) : option gostring :=
  match k with
  | rsaPublicKey _ _ => Some (go "ssh-rsa")
  | dsaPublicKey _ _ => Some (go "ssh-dss")
  | ecdsaPublicKey c _ _ => Some (go "ecdsa-sha2-" ++ nistID c)
  | ed25519PublicKey _ => Some KeyAlgoED25519
  | skECDSAPublicKey _ _ _ _ _ => Some KeyAlgoSKECDSA256
  | skEd25519PublicKey _ _ _ => Some KeyAlgoSKED25519
  | certificate c => t ← key_Type (cert_Key c); certificateAlgo t
  end.

(** ** Struct types *)
Definition rsa_struct : structType := MkStruct [] [] [(go "E", KBigInt); (go "N", KBigInt); (go "Rest", KRest)].
Definition rsa_wire : structType := MkStruct [] [] [(go "Name", KString); (go "E", KBigInt); (go "N", KBigInt)].
Definition dsa_struct : structType :=
  MkStruct [] [] [(go "P", KBigInt); (go "Q", KBigInt); (go "G", KBigInt); (go "Y", KBigInt); (go "Rest", KRest)].
Definition dsa_wire : structType :=
  MkStruct [] [] [(go "Name", KString); (go "P", KBigInt); (go "Q", KBigInt); (go "G", KBigInt); (go "Y", KBigInt)].
Definition ed25519_struct : structType := MkStruct [] [] [(go "KeyBytes", KBytes); (go "Rest", KRest)].
Definition ed25519_wire : structType := MkStruct [] [] [(go "Name", KString); (go "KeyBytes", KBytes)].
Definition ecdsa_struct : structType :=
  MkStruct [] [] [(go "Curve", KString); (go "KeyBytes", KBytes); (go "Rest", KRest)].
Definition ecdsa_wire : structType := MkStruct [] [] [(go "Name", KString); (go "ID", KString); (go "Key", KBytes)].
Definition skECDSA_struct : structType :=
  MkStruct [] [] [(go "Curve", KString); (go "KeyBytes", KBytes); (go "Application", KString); (go "Rest", KRest)].
Definition skECDSA_wire : structType :=
  MkStruct [] [] [(go "Name", KString); (go "ID", KString); (go "Key", KBytes); (go "Application", KString)].
Definition skEd25519_struct : structType :=
  MkStruct [] [] [(go "KeyBytes", KBytes); (go "Application", KString); (go "Rest", KRest)].
Definition skEd25519_wire : structType :=
  MkStruct [] [] [(go "Name", KString); (go "KeyBytes", KBytes); (go "Application", KString)].
Definition genericCertData : structType :=
  MkStruct (go "genericCertData") [] [(go "Serial", KUint64); (go "CertType", KUint32); (go "KeyId", KString);
    (go "ValidPrincipals", KBytes); (go "ValidAfter", KUint64); (go "ValidBefore", KUint64);
    (go "CriticalOptions", KBytes); (go "Extensions", KBytes); (go "Reserved", KBytes); (go "SignatureKey", KBytes);
    (go "Signature", KBytes)].
Definition string_struct : structType := MkStruct [] [] [(go "N", KString)].
Definition optionsTuple : structType := MkStruct (go "optionsTuple") [] [(go "Key", KString); (go "Value", KBytes)].
Definition optionsTupleValue : structType := MkStruct (go "optionsTupleValue") [] [(go "Value", KString)].
Definition cert_prefix : structType := MkStruct [] [] [(go "Name", KString); (go "Nonce", KBytes); (go "Key", KRest)].

(** ** Marshal *)
Definition marshalStringList (namelist : list gostring) : gostring :=
  concat (map (fun name => Marshal string_struct (name, tt)) namelist).

Definition tuple_bytes (tups : gmap gostring gostring) (key : gostring) : gostring :=
  let value := default [] (tups !! key) in
  Marshal optionsTuple (key, (if 0 <? len value then Marshal optionsTupleValue (value, tt) else [], tt)).
Definition marshalTuples (tups : gmap gostring gostring) : gostring :=
  concat (map (tuple_bytes tups) (sort_Strings (map fst (map_to_list tups)))).

Definition generic_of (c : Certificate) (signatureKey : gostring) : gostring :=
  Marshal genericCertData
    (cert_Serial c, (cert_CertType c, (cert_KeyId c, (marshalStringList (cert_ValidPrincipals c),
      (cert_ValidAfter c, (cert_ValidBefore c, (marshalTuples (cert_CriticalOptions c),
        (marshalTuples (cert_Extensions c), (cert_Reserved c, (signatureKey,
          (match cert_Signature c with Some s => MarshalMsg s | None => [] end, tt))))))))))).

Ltac fields_eq := cbn [marshal_fields marshal_field fst snd st_fields]; rewrite ?app_nil_r, <- ?app_assoc; reflexivity.

Section Keys.
Context `{KexLib}.

Definition rsaPublicKey_Marshal (E N : Z) : gostring := Marshal rsa_wire (KeyAlgoRSA, (E, (N, tt))).
Definition dsaPublicKey_Marshal (p : dsaParameters) (Y : Z) : gostring :=
  Marshal dsa_wire (go "ssh-dss", (dsa_P p, (dsa_Q p, (dsa_G p, (Y, tt))))).
Definition ecdsaPublicKey_Marshal (c : Curve) (X Y : Z) : option gostring :=
  keyBytes ← elliptic_Marshal c X Y;
  Some (Marshal ecdsa_wire (go "ecdsa-sha2-" ++ nistID c, (nistID c, (keyBytes, tt)))).
Definition ed25519PublicKey_Marshal (key : gostring) : gostring := Marshal ed25519_wire (KeyAlgoED25519, (key, tt)).
Definition skECDSAPublicKey_Marshal (application : gostring) (c : Curve) (X Y : Z) : option gostring :=
  keyBytes ← elliptic_Marshal c X Y;
  Some (Marshal skECDSA_wire (KeyAlgoSKECDSA256, (go "nistp256", (keyBytes, (application, tt))))).
Definition skEd25519PublicKey_Marshal (application key : gostring) : gostring :=
  Marshal skEd25519_wire (KeyAlgoSKED25519, (key, (application, tt))).

(** [Certificate.Marshal] is the last case. *)
Fixpoint key_Marshal (k : PublicKey) : option gostring :=
  match k with
  | rsaPublicKey E N => Some (rsaPublicKey_Marshal E N)
  | dsaPublicKey p Y => Some (dsaPublicKey_Marshal p Y)
  | ecdsaPublicKey c X Y => ecdsaPublicKey_Marshal c X Y
  | ed25519PublicKey key => Some (ed25519PublicKey_Marshal key)
  | skECDSAPublicKey application c X Y _ => skECDSAPublicKey_Marshal application c X Y
  | skEd25519PublicKey application key _ => Some (skEd25519PublicKey_Marshal application key)
  | certificate c =>
      signatureKey ← match cert_SignatureKey c with Some s => key_Marshal s | None => None end;
      keyBytes ← key_Marshal (cert_Key c);
      let keyBytes := match parseString keyBytes with Some (_, rest) => rest | None => [] end in
      t ← key_Type k;
      Some (Marshal cert_prefix (t, (cert_Nonce c, (keyBytes, tt))) ++ generic_of c signatureKey)
  end.

(** The methods inside the two dispatching functions. *)
Ltac show_Marshal := unfold rsaPublicKey_Marshal, dsaPublicKey_Marshal, ecdsaPublicKey_Marshal, ed25519PublicKey_Marshal, skECDSAPublicKey_Marshal, skEd25519PublicKey_Marshal.

(** ** Parse *)
Context `{UnicodeTables}.

Definition parseRSA (data : gostring) : res (PublicKey * gostring) :=
  '(E, (N, (rest, _))) ← Unmarshal rsa_struct data;
  if 16384 <? BitLen N then Err (errors_New (go "ssh: rsa modulus too large"))
  else if 24 <? BitLen E then Err (errors_New (go "ssh: exponent too large"))
  else if (E <? 3) || (Z.land E 1 =? 0) then Err (errors_New (go "ssh: incorrect exponent"))
  else Ok (rsaPublicKey E N, rest).

Definition checkDSAParams (param : dsaParameters) : option error :=
  if negb (BitLen (dsa_P param) =? 1024)
  then Some (errors_New (go "ssh: unsupported DSA key size " ++ Itoa (BitLen (dsa_P param))))
  else if negb (BitLen (dsa_Q param) =? 160)
  then Some (errors_New (go "ssh: unsupported DSA sub-prime size " ++ Itoa (BitLen (dsa_Q param))))
  else if dsa_P param <=? dsa_G param then Some (errors_New (go "ssh: DSA generator larger than modulus"))
  else if dsa_G param <=? 0 then Some (errors_New (go "ssh: DSA generator must be positive"))
  else None.

Definition parseDSA (data : gostring) : res (PublicKey * gostring) :=
  '(P, (Q, (G, (Y, (rest, _))))) ← Unmarshal dsa_struct data;
  let param := mkDSA P Q G in
  match checkDSAParams param with
  | Some e => Err e
  | None =>
      if (Y <=? 0) || (P <=? Y) then Err (errors_New (go "ssh: DSA public value Y out of range"))
      else Ok (dsaPublicKey param Y, rest)
  end.

Definition ed25519_PublicKeySize : Z := 32.
Definition parseED25519 (data : gostring) : res (PublicKey * gostring) :=
  '(KeyBytes, (rest, _)) ← Unmarshal ed25519_struct data;
  if negb (len KeyBytes =? ed25519_PublicKeySize)
  then Err (errors_New (go "invalid size " ++ Itoa (len KeyBytes) ++ go " for Ed25519 public key"))
  else Ok (ed25519PublicKey KeyBytes, rest).

Definition curve_named (name : gostring) : option Curve :=
  if name =s go "nistp256" then Some P256
  else if name =s go "nistp384" then Some P384
  else if name =s go "nistp521" then Some P521
  else None.

Definition parseECDSA (data expectedType : gostring) : res (PublicKey * gostring) :=
  '(CurveName, (KeyBytes, (rest, _))) ← Unmarshal ecdsa_struct data;
  let actualType := go "ecdsa-sha2-" ++ CurveName in
  if negb (expectedType =s actualType)
  then Err (errors_New (go "ssh: algorithm type mismatch: expected " ++ Quote expectedType ++ go ", found curve "
              ++ Quote CurveName ++ go " (type " ++ Quote actualType ++ go ")"))
  else match curve_named CurveName with
       | None => Err (errors_New (go "ssh: unsupported curve"))
       | Some c =>
           match elliptic_Unmarshal c KeyBytes with
           | None => Err (errors_New (go "ssh: invalid curve point"))
           | Some (X, Y) => Ok (ecdsaPublicKey c X Y, rest)
           end
       end.

Definition parseSKECDSA (data : gostring) : res (PublicKey * gostring) :=
  '(CurveName, (KeyBytes, (Application, (rest, _)))) ← Unmarshal skECDSA_struct data;
  if negb (CurveName =s go "nistp256") then Err (errors_New (go "ssh: unsupported curve"))
  else match elliptic_Unmarshal P256 KeyBytes with
       | None => Err (errors_New (go "ssh: invalid curve point"))
       | Some (X, Y) => Ok (skECDSAPublicKey Application P256 X Y false, rest)
       end.

Definition parseSKEd25519 (data : gostring) : res (PublicKey * gostring) :=
  '(KeyBytes, (Application, (rest, _))) ← Unmarshal skEd25519_struct data;
  if negb (len KeyBytes =? ed25519_PublicKeySize)
  then Err (errors_New (go "invalid size " ++ Itoa (len KeyBytes) ++ go " for Ed25519 public key"))
  else Ok (skEd25519PublicKey Application KeyBytes false, rest).

(** The options of a certificate; every round consumes at least four bytes. *)
Fixpoint tuples_loop (fuel : nat) (data : gostring) (lastKey : option gostring) (tups : gmap gostring gostring)
    : res (gmap gostring gostring) :=
  match fuel, data with
  | _, [] => Ok tups
  | O, _ => Err errShortRead
  | S fuel, _ =>
      '(key, data) ← short_read (parseString data);
      if match lastKey with Some last => str_leb key last | None => false end
      then Err (errors_New (go "ssh: certificate options are not in lexical order"))
      else
        '(val, data) ← short_read (parseString data);
        if 0 <? len val then
          '(val, extra) ← short_read (parseString val);
          if 0 <? len extra
          then Err (errors_New (go "ssh: unexpected trailing data after certificate option value"))
          else tuples_loop fuel data (Some key) (<[key := val]> tups)
        else tuples_loop fuel data (Some key) (<[key := []]> tups)
  end.
Definition parseTuples (data : gostring) : res (gmap gostring gostring) := tuples_loop (length data) data None ∅.

Fixpoint principals_loop (fuel : nat) (principals : gostring) (acc : list gostring) : res (list gostring) :=
  match fuel, principals with
  | _, [] => Ok acc
  | O, _ => Err errShortRead
  | S fuel, _ =>
      '(principal, rest) ← short_read (parseString principals);
      principals_loop fuel rest (acc ++ [principal])
  end.

(** [ParsePublicKey] and [parseCert], over the [parsePubKey] they call. *)
Definition ParsePublicKey_rec (rec : gostring -> gostring -> pr (PublicKey * gostring)) (data : gostring) : pr PublicKey :=
  match parseString data with
  | None => pr_fail errShortRead
  | Some (algo, data) =>
      '(out, rest) ← rec data algo;
      if 0 <? len rest then pr_fail (errors_New (go "ssh: trailing junk in public key")) else mret out
  end.

Definition parseCert (rec : gostring -> gostring -> pr (PublicKey * gostring)) (data privAlgo : gostring) : pr Certificate :=
  match parseString data with
  | None => pr_fail errShortRead
  | Some (nonce, rest) =>
      '(key, rest) ← rec rest privAlgo;
      '(Serial, (CertType, (KeyId, (ValidPrincipals, (ValidAfter, (ValidBefore, (CriticalOptions, (Extensions, (Reserved,
        (SignatureKey, (SignatureBytes, _))))))))))) ← pr_res (Unmarshal genericCertData rest);
      principals ← pr_res (principals_loop (length ValidPrincipals) ValidPrincipals []);
      criticalOptions ← pr_res (parseTuples CriticalOptions);
      extensions ← pr_res (parseTuples Extensions);
      match parseString SignatureKey with
      | None => pr_fail errShortRead
      | Some (sigAlgo, _) =>
          match assoc certKeyAlgoNames sigAlgo with
          | Some _ => pr_fail (errors_New (go "ssh: the signature key type " ++ Quote sigAlgo ++ go " is invalid for certificates"))
          | None =>
              k ← ParsePublicKey_rec rec SignatureKey;
              match parseSignatureBody SignatureBytes with
              | Some (sig, []) =>
                  mret (mkCertificate nonce key Serial CertType KeyId principals ValidAfter ValidBefore criticalOptions extensions
                          Reserved (Some k) (Some sig))
              | _ => pr_fail (errors_New (go "ssh: signature parse error"))
              end
          end
      end
  end.

Definition certAlgos : list gostring :=
  [CertAlgoRSAv01; InsecureCertAlgoDSAv01; CertAlgoECDSA256v01; CertAlgoECDSA384v01; CertAlgoECDSA521v01;
   CertAlgoSKECDSA256v01; CertAlgoED25519v01; CertAlgoSKED25519v01].

Fixpoint parsePubKey (depth : nat) (data algo : gostring) : pr (PublicKey * gostring) :=
  match depth with
  | O => None
  | S depth =>
      if algo =s KeyAlgoRSA then pr_res (parseRSA data)
      else if algo =s InsecureKeyAlgoDSA then pr_res (parseDSA data)
      else if contains [KeyAlgoECDSA256; KeyAlgoECDSA384; KeyAlgoECDSA521] algo then pr_res (parseECDSA data algo)
      else if algo =s KeyAlgoSKECDSA256 then pr_res (parseSKECDSA data)
      else if algo =s KeyAlgoED25519 then pr_res (parseED25519 data)
      else if algo =s KeyAlgoSKED25519 then pr_res (parseSKEd25519 data)
      else if contains certAlgos algo then
        cert ← parseCert (parsePubKey depth) data (default [] (assoc certKeyAlgoNames algo));
        mret (certificate cert, [])
      else
        let keyFormat := keyFormatForAlgorithm algo in
        if negb (keyFormat =s [])
        then pr_fail (errors_New (go "ssh: signature algorithm " ++ Quote algo ++
               go " isn't a key format; key is malformed and should be re-encoded with type " ++ Quote keyFormat))
        else pr_fail (errors_New (go "ssh: unknown key algorithm: " ++ algo))
  end.

(** The depth that is always enough. *)
Definition ParsePublicKey (data : gostring) : pr PublicKey := ParsePublicKey_rec (parsePubKey 2) data.

(** ** Well-formed keys *)
Definition wf_plain (k : PublicKey) : Prop :=
  match k with
  | rsaPublicKey E N => BitLen N <= 16384 /\ BitLen E <= 24 /\ 3 <= E /\ Z.land E 1 <> 0
  | dsaPublicKey p Y => checkDSAParams p = None /\ 0 < Y < dsa_P p
  | ecdsaPublicKey c X Y => IsOnCurve c X Y = true
  | ed25519PublicKey key => len key = ed25519_PublicKeySize
  | skECDSAPublicKey _ c X Y touch => c = P256 /\ IsOnCurve c X Y = true /\ touch = false
  | skEd25519PublicKey _ key touch => len key = ed25519_PublicKeySize /\ touch = false
  | certificate _ => False
  end.

(** A signature that is read back as it is: only those of security keys have a rest. *)
Definition wf_signature (s : Signature) : Prop :=
  sig_Rest s = [] \/ contains sk_formats (sig_Format s) = true.

Definition wf_cert (c : Certificate) : Prop :=
  wf_plain (cert_Key c) /\
  0 <= cert_Serial c < 2 ^ 64 /\ 0 <= cert_CertType c < 2 ^ 32 /\
  0 <= cert_ValidAfter c < 2 ^ 64 /\ 0 <= cert_ValidBefore c < 2 ^ 64 /\
  (exists k, cert_SignatureKey c = Some k /\ wf_plain k) /\
  (exists s, cert_Signature c = Some s /\ wf_signature s).
Definition wf_key (k : PublicKey) : Prop := match k with certificate c => wf_cert c | _ => wf_plain k end.

(** ** Plain keys *)
Definition string_bytes (s : gostring) : gostring := appendInt [] (len s) ++ s.

(** Reading the fields of a struct without a message number. *)
Lemma Unmarshal_body st vs data :
  typeTags st = [] -> data = marshal_fields (st_fields st) vs -> rest_last (st_fields st) = true -> good_tags st = true ->
  wf_values (st_fields st) vs -> len data < 2 ^ 32 -> Unmarshal st data = Ok vs.
Proof.
  intros Ht -> Hr Hg Hw Hl. assert (E : marshal_fields (st_fields st) vs = Marshal st vs) by (unfold Marshal; by rewrite Ht).
  rewrite E in *. by apply Unmarshal_Marshal.
Qed.
Ltac unmarshal_body st vs :=
  rewrite (Unmarshal_body st vs); [|reflexivity|unfold st; fields_eq|reflexivity|reflexivity|cbn; tauto|rewrite len_app; lia].

(** What [plain_marshal] shows of a key. *)
Definition reads_back (k : PublicKey) : Prop :=
  exists t body, key_Type k = Some t /\ key_Marshal k = Some (string_bytes t ++ body) /\
    assoc certKeyAlgoNames t = None /\
    forall d rest, len body + len rest < 2 ^ 32 -> parsePubKey (S d) (body ++ rest) t = Some (Ok (k, rest)).

Context `{!KexLaws}.


(** The case of the switch for a concrete name. *)
Ltac pick_case :=
  cbn [parsePubKey];
  repeat match goal with
  | |- context [if ?a =s ?b then _ else _] =>
      let v := eval vm_compute in (a =s b) in change (a =s b) with v; cbv iota
  | |- context [if contains ?a ?b then _ else _] =>
      let v := eval vm_compute in (contains a b) in change (contains a b) with v; cbv iota
  end.

Lemma reads_back_rsa E N : wf_plain (rsaPublicKey E N) -> reads_back (rsaPublicKey E N).
Proof.
  intros (HN & HE & H3 & Hodd). exists (go "ssh-rsa"), (marshal_fields [(go "E", KBigInt); (go "N", KBigInt)] (E, (N, tt))).
  split; [done|]. split; [reflexivity|]. split; [done|]. intros d rest Hl. pick_case. unfold parseRSA.
  unmarshal_body rsa_struct (E, (N, (rest, tt))). cbn [mbind result_bind].
  rewrite (proj2 (Z.ltb_ge _ _) HN), (proj2 (Z.ltb_ge _ _) HE), (proj2 (Z.ltb_ge _ _) H3), (proj2 (Z.eqb_neq _ _) Hodd). done.
Qed.

Lemma reads_back_dsa p Y : wf_plain (dsaPublicKey p Y) -> reads_back (dsaPublicKey p Y).
Proof.
  intros [Hp HY]. destruct p as [P Q G].
  exists (go "ssh-dss"), (marshal_fields [(go "P", KBigInt); (go "Q", KBigInt); (go "G", KBigInt); (go "Y", KBigInt)] (P, (Q, (G, (Y, tt))))).
  split; [done|]. split; [reflexivity|]. split; [done|]. intros d rest Hl. pick_case. unfold parseDSA.
  unmarshal_body dsa_struct (P, (Q, (G, (Y, (rest, tt))))). cbn [mbind result_bind]. rewrite Hp. cbn [dsa_P] in HY.
  by rewrite (proj2 (Z.leb_gt Y 0)), (proj2 (Z.leb_gt P Y)) by lia.
Qed.

Lemma reads_back_ed25519 key : wf_plain (ed25519PublicKey key) -> reads_back (ed25519PublicKey key).
Proof.
  intros Hk. exists KeyAlgoED25519, (marshal_fields [(go "KeyBytes", KBytes)] (key, tt)).
  split; [done|]. split; [reflexivity|]. split; [done|]. intros d rest Hl. pick_case. unfold parseED25519.
  unmarshal_body ed25519_struct (key, (rest, tt)). cbn [mbind result_bind]. by rewrite (proj2 (Z.eqb_eq _ _) Hk).
Qed.

Lemma reads_back_skEd25519 app key touch : wf_plain (skEd25519PublicKey app key touch) -> reads_back (skEd25519PublicKey app key touch).
Proof.
  intros [Hk ->]. exists KeyAlgoSKED25519, (marshal_fields [(go "KeyBytes", KBytes); (go "Application", KString)] (key, (app, tt))).
  split; [done|]. split; [reflexivity|]. split; [done|]. intros d rest Hl. pick_case. unfold parseSKEd25519.
  unmarshal_body skEd25519_struct (key, (app, (rest, tt))). cbn [mbind result_bind]. by rewrite (proj2 (Z.eqb_eq _ _) Hk).
Qed.

Lemma curve_named_nistID c : curve_named (nistID c) = Some c.
Proof. by destruct c. Qed.

Lemma reads_back_ecdsa c X Y : wf_plain (ecdsaPublicKey c X Y) -> reads_back (ecdsaPublicKey c X Y).
Proof.
  intros Hon. destruct (elliptic_roundtrip _ _ _ Hon) as (b & Hm & Hu & _).
  exists (go "ecdsa-sha2-" ++ nistID c), (marshal_fields [(go "ID", KString); (go "Key", KBytes)] (nistID c, (b, tt))).
  split; [done|]. cbn [key_Marshal]; show_Marshal. rewrite Hm. split; [reflexivity|]. split; [by destruct c|]. intros d rest Hl.
  assert (parsePubKey (S d) (marshal_fields [(go "ID", KString); (go "Key", KBytes)] (nistID c, (b, tt)) ++ rest)
            (go "ecdsa-sha2-" ++ nistID c) =
          Some (parseECDSA (marshal_fields [(go "ID", KString); (go "Key", KBytes)] (nistID c, (b, tt)) ++ rest)
            (go "ecdsa-sha2-" ++ nistID c))) as -> by (clear; destruct c; reflexivity).
  unfold parseECDSA. unmarshal_body ecdsa_struct (nistID c, (b, (rest, tt))). cbn [mbind result_bind].
  rewrite gos_eqb_refl. cbn [negb]. by rewrite curve_named_nistID, Hu.
Qed.

Lemma reads_back_skECDSA app c X Y touch : wf_plain (skECDSAPublicKey app c X Y touch) -> reads_back (skECDSAPublicKey app c X Y touch).
Proof.
  intros (-> & Hon & ->). destruct (elliptic_roundtrip _ _ _ Hon) as (b & Hm & Hu & _).
  exists KeyAlgoSKECDSA256, (marshal_fields [(go "ID", KString); (go "Key", KBytes); (go "Application", KString)] (go "nistp256", (b, (app, tt)))).
  split; [done|]. cbn [key_Marshal]; show_Marshal. rewrite Hm. split; [reflexivity|]. split; [done|]. intros d rest Hl. pick_case.
  unfold parseSKECDSA. unmarshal_body skECDSA_struct (go "nistp256", (b, (app, (rest, tt)))). cbn [mbind result_bind].
  rewrite gos_eqb_refl. cbn [negb]. by rewrite Hu.
Qed.

Lemma plain_reads_back k : wf_plain k -> reads_back k.
Proof.
  destruct k; [apply reads_back_rsa|apply reads_back_dsa|apply reads_back_ecdsa|apply reads_back_ed25519
              |apply reads_back_skECDSA|apply reads_back_skEd25519|done].
Qed.

(** ** Lists and options of certificates *)
Lemma parseString_bytes s rest : len s + len rest < 2 ^ 32 -> parseString (string_bytes s ++ rest) = Some (s, rest).
Proof. apply parseString_append. Qed.
Lemma string_bytes_len s : len (string_bytes s) = 4 + len s.
Proof. unfold string_bytes. by rewrite len_app, appendInt_len. Qed.
Lemma string_bytes_ne s rest : string_bytes s ++ rest <> [].
Proof. intros E. apply (f_equal len) in E. rewrite len_app, string_bytes_len in E. pose proof (len_nonneg s). pose proof (len_nonneg rest). rewrite len_nil in E. lia. Qed.

Lemma marshalStringList_cons x l : marshalStringList (x :: l) = string_bytes x ++ marshalStringList l.
Proof. unfold marshalStringList. cbn [map concat]. f_equal. change (Marshal string_struct (x, tt)) with (string_bytes x ++ []). apply app_nil_r. Qed.

Lemma principals_loop_marshal l fuel acc :
  (length (marshalStringList l) <= fuel)%nat -> len (marshalStringList l) < 2 ^ 32 ->
  principals_loop fuel (marshalStringList l) acc = Ok (acc ++ l).
Proof.
  revert fuel acc. induction l as [|x l IH]; intros fuel acc Hf Hl; [destruct fuel; cbn; by rewrite app_nil_r|].
  rewrite marshalStringList_cons in *. destruct (string_bytes x ++ marshalStringList l) as [|b data] eqn:E; [by apply string_bytes_ne in E|].
  destruct fuel as [|fuel]; [cbn in Hf; lia|]. cbn [principals_loop]. rewrite <- E in *. rewrite len_app, string_bytes_len in Hl.
  rewrite parseString_bytes by lia. cbn [short_read mbind result_bind]. rewrite IH, <- app_assoc; [done| |pose proof (len_nonneg x); lia].
  rewrite length_app in Hf. pose proof (string_bytes_len x) as Hx. pose proof (len_nonneg x). unfold len in *. lia.
Qed.

(** The value of an option as it is written. *)
Definition option_bytes (value : gostring) : gostring := if 0 <? len value then string_bytes value else [].
Lemma tuple_bytes_eq tups key : tuple_bytes tups key = string_bytes key ++ string_bytes (option_bytes (default [] (tups !! key))).
Proof.
  unfold tuple_bytes, option_bytes. change (Marshal optionsTupleValue (default [] (tups !! key), tt))
    with (string_bytes (default [] (tups !! key)) ++ []). rewrite app_nil_r.
  set (v := if 0 <? _ then _ else _). change (Marshal optionsTuple (key, (v, tt))) with (string_bytes key ++ string_bytes v ++ []).
  by rewrite app_nil_r.
Qed.

Definition put_option (tups acc : gmap gostring gostring) (key : gostring) : gmap gostring gostring :=
  <[key := default [] (tups !! key)]> acc.

Lemma tuples_loop_marshal tups ks fuel last acc :
  let data := concat (map (tuple_bytes tups) ks) in
  StronglySorted (fun x y => str_leb y x = false) ks -> (forall l, last = Some l -> Forall (fun k => str_leb k l = false) ks) ->
  (length data <= fuel)%nat -> len data < 2 ^ 32 ->
  tuples_loop fuel data last acc = Ok (fold_left (put_option tups) ks acc).
Proof.
  cbv zeta. revert fuel last acc. induction ks as [|k ks IH]; intros fuel last acc Hs Hlast Hf Hl; [by destruct fuel|].
  cbn [map concat fold_left] in *. apply StronglySorted_inv in Hs as [Hs Hk].
  set (rest := concat (map (tuple_bytes tups) ks)) in *. rewrite tuple_bytes_eq, <- app_assoc in *.
  set (v := default [] (tups !! k)) in *.
  destruct (string_bytes k ++ string_bytes (option_bytes v) ++ rest) as [|b data] eqn:E; [by apply string_bytes_ne in E|].
  destruct fuel as [|fuel]; [cbn in Hf; lia|]. cbn [tuples_loop]. rewrite <- E in *. clear E b data.
  rewrite !len_app, !string_bytes_len in Hl. pose proof (len_nonneg k). pose proof (len_nonneg (option_bytes v)). pose proof (len_nonneg rest).
  rewrite parseString_bytes by (rewrite len_app, string_bytes_len; lia). cbn [short_read mbind result_bind].
  replace (match last with Some l => str_leb k l | None => false end) with false.
  2:{ destruct last as [l|]; [|done]. specialize (Hlast l eq_refl). inversion Hlast; by subst. }
  rewrite parseString_bytes by lia. cbn [short_read mbind result_bind].
  assert (IH' : tuples_loop fuel rest (Some k) (put_option tups acc k) = Ok (fold_left (put_option tups) ks (put_option tups acc k))).
  { apply IH; [done| | |lia].
    - intros l [= <-]. done.
    - rewrite !length_app in Hf. pose proof (string_bytes_len k) as Hx. unfold len in *. lia. }
  unfold option_bytes. destruct (Z.ltb_spec 0 (len v)) as [Hv|Hv].
  - rewrite string_bytes_len, (proj2 (Z.ltb_lt _ _)) by lia. rewrite <- (app_nil_r (string_bytes v)), parseString_bytes.
    + exact IH'.
    + unfold option_bytes in Hl. rewrite (proj2 (Z.ltb_lt _ _)), string_bytes_len in Hl by lia. rewrite len_nil. lia.
  - change (0 <? len (@nil ascii)) with false. cbv iota. rewrite <- IH'. unfold put_option. fold v.
    destruct v as [|x v']; [done|]. rewrite len_cons in Hv. pose proof (len_nonneg v'). lia.
Qed.

Lemma sorted_strict l : StronglySorted str_le l -> NoDup l -> StronglySorted (fun x y => str_leb y x = false) l.
Proof.
  induction 1 as [|x l Hs IH Hx]; intros Hn; [constructor|]. apply NoDup_cons in Hn as [Hnin Hn].
  constructor; [by apply IH|]. rewrite Forall_forall in *. intros y Hy. destruct (str_leb y x) eqn:E; [|done].
  exfalso. apply Hnin. replace x with y; [done|]. apply (anti_symm str_le); [exact E|by apply Hx].
Qed.

Lemma put_option_lookup tups ks acc k :
  fold_left (put_option tups) ks acc !! k = if decide (k ∈ ks) then Some (default [] (tups !! k)) else acc !! k.
Proof.
  revert acc. induction ks as [|x ks IH]; intros acc; [by rewrite decide_False by apply not_elem_of_nil|].
  cbn [fold_left]. rewrite IH. unfold put_option. destruct (decide (k ∈ ks)) as [Hk|Hk].
  - by rewrite decide_True by (by right).
  - destruct (decide (x = k)) as [->|Hne].
    + rewrite lookup_insert_eq. by rewrite decide_True by (by left).
    + rewrite lookup_insert_ne by done. by rewrite decide_False by (rewrite not_elem_of_cons; auto).
Qed.

Lemma parseTuples_marshal tups : len (marshalTuples tups) < 2 ^ 32 -> parseTuples (marshalTuples tups) = Ok tups.
Proof.
  intros Hl. unfold parseTuples, marshalTuples in *. set (ks := sort_Strings _) in *.
  assert (Hp : ks ≡ₚ map fst (map_to_list tups)) by apply sort_Strings_perm.
  rewrite tuples_loop_marshal; [|apply sorted_strict; [apply sort_Strings_sorted|]|done|done|done].
  - f_equal. apply map_eq. intros k. rewrite put_option_lookup, lookup_empty. destruct (decide (k ∈ ks)) as [Hk|Hk].
    + rewrite Hp in Hk. apply list_elem_of_fmap in Hk as ([k' v] & -> & Hv). apply elem_of_map_to_list in Hv. cbn. by rewrite Hv.
    + destruct (tups !! k) as [v|] eqn:E; [|done]. exfalso. apply Hk. rewrite Hp.
      apply list_elem_of_fmap. exists (k, v). split; [done|]. by apply elem_of_map_to_list.
  - fold ks. rewrite Hp. apply (NoDup_fst_map_to_list tups).
Qed.

(** ** Certificates *)

(** The names of plain keys and of their certificates. *)
Lemma plain_type k : wf_plain k ->
  exists t ct, key_Type k = Some t /\ certificateAlgo t = Some ct /\ contains certAlgos ct = true /\
    forall d data, parsePubKey (S d) data ct = (cert ← parseCert (parsePubKey d) data t; mret (certificate cert, [])).
Proof. destruct k as [| |[]| | | |]; [..|done]; intros _; do 2 eexists; (split; [reflexivity|]); (split; [reflexivity|]); by split. Qed.

(** The key inside a certificate is not so large that its length wraps. *)
Definition small_key (k : PublicKey) : Prop :=
  match k with
  | certificate c => forall b, key_Marshal (cert_Key c) = Some b -> len b < 2 ^ 32
  | _ => True
  end.

Lemma generic_reads_back c signatureKey :
  0 <= cert_Serial c < 2 ^ 64 -> 0 <= cert_CertType c < 2 ^ 32 -> 0 <= cert_ValidAfter c < 2 ^ 64 ->
  0 <= cert_ValidBefore c < 2 ^ 64 -> len (generic_of c signatureKey) < 2 ^ 32 ->
  Unmarshal genericCertData (generic_of c signatureKey) =
    Ok (cert_Serial c, (cert_CertType c, (cert_KeyId c, (marshalStringList (cert_ValidPrincipals c),
      (cert_ValidAfter c, (cert_ValidBefore c, (marshalTuples (cert_CriticalOptions c),
        (marshalTuples (cert_Extensions c), (cert_Reserved c, (signatureKey,
          (match cert_Signature c with Some s => MarshalMsg s | None => [] end, tt))))))))))) /\
  len (marshalStringList (cert_ValidPrincipals c)) < 2 ^ 32 /\ len (marshalTuples (cert_CriticalOptions c)) < 2 ^ 32 /\
  len (marshalTuples (cert_Extensions c)) < 2 ^ 32 /\ len signatureKey < 2 ^ 32 /\
  len (match cert_Signature c with Some s => MarshalMsg s | None => [] end) < 2 ^ 32.
Proof.
  intros Hs Ht Ha Hb Hl. split; [apply Unmarshal_Marshal; [done|done| |exact Hl]; cbn; tauto|].
  unfold generic_of in Hl. revert Hl. set (sg := match cert_Signature c with Some _ => _ | None => _ end).
  change (Marshal genericCertData ?v) with (marshal_fields (st_fields genericCertData) v).
  cbn [genericCertData st_fields marshal_fields marshal_field fst snd]. rewrite !len_app, !appendInt_len, len_nil.
  pose proof (len_nonneg (marshalStringList (cert_ValidPrincipals c))). pose proof (len_nonneg (marshalTuples (cert_CriticalOptions c))).
  pose proof (len_nonneg (marshalTuples (cert_Extensions c))). pose proof (len_nonneg signatureKey). pose proof (len_nonneg sg).
  pose proof (len_nonneg (cert_KeyId c)). pose proof (len_nonneg (cert_Reserved c)).
  pose proof (len_nonneg (appendU64 [] (cert_Serial c))). pose proof (len_nonneg (appendU32 [] (cert_CertType c))).
  pose proof (len_nonneg (appendU64 [] (cert_ValidAfter c))). pose proof (len_nonneg (appendU64 [] (cert_ValidBefore c))). lia.
Qed.

Lemma certificate_reads_back c :
  wf_cert c ->
  exists s, key_Marshal (certificate c) = Some s /\
    (small_key (certificate c) -> len s < 2 ^ 32 -> ParsePublicKey s = Some (Ok (certificate c))).
Proof.
  intros (Hk & Hserial & Htype & Hafter & Hbefore & (sk & Hsk & Hskwf) & sig & Hsig & Hsigwf).
  destruct (plain_reads_back _ Hk) as (t & body & Ht & HM & _ & Hparse).
  destruct (plain_reads_back _ Hskwf) as (ts & sbody & Hts & HMs & Hns & Hsparse).
  destruct (plain_type _ Hk) as (t' & ct & Ht' & Hct & _ & Hcert). rewrite Ht in Ht'. injection Ht' as <-.
  cbn [key_Marshal key_Type]. rewrite Hsk, HMs, HM, Ht. cbn [mbind option_bind]. rewrite Hct. cbn [mbind option_bind].
  eexists. split; [done|]. intros Hsmall Hl. specialize (Hsmall _ HM). rewrite len_app, string_bytes_len in Hsmall.
  rewrite parseString_bytes in * by lia.
  change (Marshal cert_prefix (ct, (cert_Nonce c, (body, tt)))) with (string_bytes ct ++ string_bytes (cert_Nonce c) ++ body ++ []) in *.
  rewrite app_nil_r, <- !app_assoc in *. rewrite !len_app, !string_bytes_len in Hl.
  set (generic := generic_of c (string_bytes ts ++ sbody)) in *.
  pose proof (len_nonneg ct). pose proof (len_nonneg (cert_Nonce c)). pose proof (len_nonneg body). pose proof (len_nonneg generic).
  destruct (generic_reads_back c (string_bytes ts ++ sbody)) as (HU & Hp & Ho & He & Hsl & Hgl); [done..|fold generic; lia|].
  unfold ParsePublicKey, ParsePublicKey_rec at 1. rewrite parseString_bytes by (rewrite !len_app, string_bytes_len; lia).
  rewrite Hcert. unfold parseCert. rewrite parseString_bytes by (rewrite !len_app; lia).
  rewrite Hparse by lia. cbn [mbind pr_bind]. fold generic in HU. rewrite HU. unfold pr_res. cbn [mbind pr_bind].
  rewrite principals_loop_marshal by (done || lia). cbn [mbind pr_bind].
  rewrite !parseTuples_marshal by lia. cbn [mbind pr_bind]. rewrite len_app, string_bytes_len in Hsl.
  pose proof (len_nonneg ts). pose proof (len_nonneg sbody).
  rewrite parseString_bytes by lia. rewrite Hns. unfold ParsePublicKey_rec.
  rewrite parseString_bytes by lia. rewrite <- (app_nil_r sbody), Hsparse by (rewrite len_nil; lia). cbn [mbind pr_bind].
  change (0 <? len (@nil ascii)) with false. cbn [mret pr_ret]. rewrite Hsig in *.
  rewrite parseSignatureBody_Marshal; [| exact Hgl |].
  2:{ destruct Hsigwf as [Hr|Hr]; [done|]. rewrite Hr. done. }
  destruct c; cbn in Hsk, Hsig |- *. by subst.
Qed.

(** ** What is parsed is well-formed *)
Lemma parseRSA_wf data k rest : parseRSA data = Ok (k, rest) -> wf_plain k /\ key_Type k = Some KeyAlgoRSA.
Proof.
  unfold parseRSA. destruct (Unmarshal rsa_struct data) as [(E & N & r & [])|]; [|done]. cbn [mbind result_bind].
  destruct (16384 <? BitLen N) eqn:EN; [done|]. destruct (24 <? BitLen E) eqn:EE; [done|].
  destruct ((E <? 3) || (Z.land E 1 =? 0)) eqn:Eo; [done|]. intros [= <- <-]. bool_simp. cbn. repeat split; done || lia.
Qed.

Lemma parseDSA_wf data k rest : parseDSA data = Ok (k, rest) -> wf_plain k /\ key_Type k = Some InsecureKeyAlgoDSA.
Proof.
  unfold parseDSA. destruct (Unmarshal dsa_struct data) as [(P & Q & G & Y & r & [])|]; [|done]. cbn [mbind result_bind].
  destruct (checkDSAParams (mkDSA P Q G)) eqn:Hp; [done|].
  destruct ((Y <=? 0) || (P <=? Y)) eqn:Eo; [done|]. intros [= <- <-]. bool_simp. cbn. repeat split; done || lia.
Qed.

Lemma parseED25519_wf data k rest : parseED25519 data = Ok (k, rest) -> wf_plain k /\ key_Type k = Some KeyAlgoED25519.
Proof.
  unfold parseED25519. destruct (Unmarshal ed25519_struct data) as [(key & r & [])|]; [|done]. cbn [mbind result_bind].
  destruct (len key =? ed25519_PublicKeySize) eqn:E; [|done]. intros [= <- <-]. bool_simp. done.
Qed.

Lemma parseSKEd25519_wf data k rest : parseSKEd25519 data = Ok (k, rest) -> wf_plain k /\ key_Type k = Some KeyAlgoSKED25519.
Proof.
  unfold parseSKEd25519. destruct (Unmarshal skEd25519_struct data) as [(key & app & r & [])|]; [|done]. cbn [mbind result_bind].
  destruct (len key =? ed25519_PublicKeySize) eqn:E; [|done]. intros [= <- <-]. bool_simp. done.
Qed.

Lemma elliptic_Unmarshal_on c b X Y : elliptic_Unmarshal c b = Some (X, Y) -> IsOnCurve c X Y = true.
Proof.
  unfold elliptic_Unmarshal. destruct (negb _); [done|]. destruct b as [|x b]; [done|]. destruct (negb _); [done|].
  destruct (_ || _); [done|]. destruct (IsOnCurve c _ _) eqn:E; [|done]. by intros [= <- <-].
Qed.

Lemma curve_named_inv name c : curve_named name = Some c -> name = nistID c.
Proof.
  unfold curve_named. destruct (name =s _) eqn:E1; bool_simp; [by intros [= <-]|].
  destruct (name =s _) eqn:E2; bool_simp; [by intros [= <-]|].
  destruct (name =s _) eqn:E3; bool_simp; [by intros [= <-]|done].
Qed.

Lemma parseECDSA_wf data algo k rest : parseECDSA data algo = Ok (k, rest) -> wf_plain k /\ key_Type k = Some algo.
Proof.
  unfold parseECDSA. destruct (Unmarshal ecdsa_struct data) as [(name & b & r & [])|]; [|done]. cbn [mbind result_bind].
  destruct (algo =s _) eqn:Ea; [|done]. cbn [negb]. destruct (curve_named name) as [c|] eqn:Ec; [|done].
  destruct (elliptic_Unmarshal c b) as [[X Y]|] eqn:Eu; [|done]. intros [= <- <-]. bool_simp. subst algo.
  apply curve_named_inv in Ec as ->. split; [by apply elliptic_Unmarshal_on in Eu|done].
Qed.

Lemma parseSKECDSA_wf data k rest : parseSKECDSA data = Ok (k, rest) -> wf_plain k /\ key_Type k = Some KeyAlgoSKECDSA256.
Proof.
  unfold parseSKECDSA. destruct (Unmarshal skECDSA_struct data) as [(name & b & app & r & [])|]; [|done]. cbn [mbind result_bind].
  destruct (name =s _) eqn:Ea; [|done]. cbn [negb]. destruct (elliptic_Unmarshal P256 b) as [[X Y]|] eqn:Eu; [|done].
  intros [= <- <-]. apply elliptic_Unmarshal_on in Eu. done.
Qed.

(** A name that is not of a certificate leads to no recursion. *)
Lemma parsePubKey_plain d data algo :
  contains certAlgos algo = false ->
  exists r, parsePubKey (S d) data algo = Some r /\ forall k rest, r = Ok (k, rest) -> wf_plain k /\ key_Type k = Some algo.
Proof.
  intros Hc. cbn [parsePubKey]. rewrite Hc.
  destruct (algo =s KeyAlgoRSA) eqn:E1; bool_simp; [subst; eexists; split; [done|]; apply parseRSA_wf|].
  destruct (algo =s InsecureKeyAlgoDSA) eqn:E2; bool_simp; [subst; eexists; split; [done|]; apply parseDSA_wf|].
  destruct (contains [KeyAlgoECDSA256; _; _] algo); [eexists; split; [done|]; intros; by eapply parseECDSA_wf|].
  destruct (algo =s KeyAlgoSKECDSA256) eqn:E3; bool_simp; [subst; eexists; split; [done|]; apply parseSKECDSA_wf|].
  destruct (algo =s KeyAlgoED25519) eqn:E4; bool_simp; [subst; eexists; split; [done|]; apply parseED25519_wf|].
  destruct (algo =s KeyAlgoSKED25519) eqn:E5; bool_simp; [subst; eexists; split; [done|]; apply parseSKEd25519_wf|].
  destruct (negb _); eexists; (split; [reflexivity|]); by intros.
Qed.

Lemma certAlgos_plain algo : contains certAlgos algo = true ->
  exists t, assoc certKeyAlgoNames algo = Some t /\ contains certAlgos t = false /\ certificateAlgo t = Some algo /\
    forall d data, parsePubKey (S d) data algo = (cert ← parseCert (parsePubKey d) data t; mret (certificate cert, [])).
Proof.
  rewrite contains_spec. unfold certAlgos. intros Hx.
  repeat (apply elem_of_cons in Hx as [->|Hx]; [eexists; (split; [reflexivity|]); (split; [reflexivity|]); by split|]).
  by apply not_elem_of_nil in Hx.
Qed.

Lemma assoc_certAlgos algo : assoc certKeyAlgoNames algo = None -> contains certAlgos algo = false.
Proof. intros Hn. destruct (contains certAlgos algo) eqn:E; [|done]. apply certAlgos_plain in E as (t & Ht & _). congruence. Qed.

Lemma ParsePublicKey_rec_plain d data :
  (forall algo rest, parseString data = Some (algo, rest) -> contains certAlgos algo = false) ->
  exists r, ParsePublicKey_rec (parsePubKey (S d)) data = Some r /\
    forall k, r = Ok k -> wf_plain k /\ exists algo rest, parseString data = Some (algo, rest) /\ key_Type k = Some algo.
Proof.
  intros Hp. unfold ParsePublicKey_rec. destruct (parseString data) as [[algo rest]|]; [|eexists; by split].
  destruct (parsePubKey_plain d rest algo) as (r & -> & Hr); [by eapply Hp|].
  destruct r as [[k rest']|e]; cbn [mbind pr_bind]; [|eexists; by split]. specialize (Hr _ _ eq_refl) as [Hwf Ht].
  destruct (0 <? len rest'); eexists; (split; [done|]); [done|]. intros k' [= <-]. split; [done|]. eauto.
Qed.

Lemma parseSignatureBody_wf data sig rest : parseSignatureBody data = Some (sig, rest) -> wf_signature sig.
Proof.
  unfold parseSignatureBody. destruct (parseString data) as [[f d1]|]; [|done]. destruct (parseString d1) as [[b d2]|]; [|done].
  fold sk_formats. destruct (contains sk_formats f) eqn:E; intros [= <- <-]; [by right|by left].
Qed.

Lemma parseCert_wf d data t :
  contains certAlgos t = false ->
  exists r, parseCert (parsePubKey (S d)) data t = Some r /\
    forall c, r = Ok c -> wf_cert c /\ key_Type (cert_Key c) = Some t.
Proof.
  intros Ht. unfold parseCert. destruct (parseString data) as [[nonce rest]|]; [|eexists; by split].
  destruct (parsePubKey_plain d rest t Ht) as (r & -> & Hr). destruct r as [[key gen]|e]; cbn [mbind pr_bind]; [|eexists; by split].
  specialize (Hr _ _ eq_refl) as [Hwf Hkt]. unfold pr_res.
  destruct (Unmarshal genericCertData gen) as [g|e] eqn:Eg; [|eexists; by split]. cbn [mbind pr_bind].
  apply Unmarshal_inv in Eg as [Hg _].
  destruct g as (Serial & CertType & KeyId & VP & VA & VB & CO & Ext & Res & SK & SB & []). cbn in Hg.
  destruct (principals_loop _ VP []) as [ps|]; [|eexists; by split]. cbn [mbind pr_bind].
  destruct (parseTuples CO) as [co|]; [|eexists; by split]. cbn [mbind pr_bind].
  destruct (parseTuples Ext) as [ext|]; [|eexists; by split]. cbn [mbind pr_bind].
  destruct (parseString SK) as [[sigAlgo x]|] eqn:Es; [|eexists; by split].
  destruct (assoc certKeyAlgoNames sigAlgo) eqn:Ea; [eexists; by split|].
  destruct (ParsePublicKey_rec_plain d SK) as (r & -> & Hr).
  { intros algo y Hy. rewrite Es in Hy. injection Hy as <- <-. by apply assoc_certAlgos. }
  destruct r as [k|]; cbn [mbind pr_bind]; [|eexists; by split]. specialize (Hr _ eq_refl) as [Hkwf _].
  destruct (parseSignatureBody SB) as [[sig [|]]|] eqn:Esig; [|eexists; by split..].
  eexists. split; [done|]. intros c [= <-]. apply parseSignatureBody_wf in Esig.
  unfold wf_cert. cbn [cert_Key cert_Serial cert_CertType cert_ValidAfter cert_ValidBefore cert_SignatureKey cert_Signature].
  split; [|done]. split; [done|]. do 4 (split; [tauto|]). split; eauto.
Qed.

Lemma parsePubKey_total d data algo :
  exists r, parsePubKey (S (S d)) data algo = Some r /\ forall k rest, r = Ok (k, rest) -> wf_key k /\ key_Type k = Some algo.
Proof.
  destruct (contains certAlgos algo) eqn:Ec.
  - destruct (certAlgos_plain _ Ec) as (t & _ & Ht & Hct & ->).
    destruct (parseCert_wf d data t Ht) as (r & -> & Hr). destruct r as [c|e]; cbn [mbind pr_bind]; [|eexists; by split].
    eexists. split; [done|]. intros k rest [= <- <-]. destruct (Hr _ eq_refl) as [Hwf Hkt]. split; [done|].
    cbn [key_Type]. by rewrite Hkt.
  - destruct (parsePubKey_plain (S d) data algo Ec) as (r & -> & Hr). exists r. split; [done|]. intros k rest ->.
    destruct (Hr _ _ eq_refl) as [Hwf Hk]. split; [|done]. by destruct k.
Qed.

Lemma ParsePublicKey_total data :
  exists r, ParsePublicKey data = Some r /\
    forall k, r = Ok k -> wf_key k /\ exists algo rest, parseString data = Some (algo, rest) /\ key_Type k = Some algo.
Proof.
  unfold ParsePublicKey, ParsePublicKey_rec. destruct (parseString data) as [[algo rest]|]; [|eexists; by split].
  destruct (parsePubKey_total 0 rest algo) as (r & -> & Hr). destruct r as [[k rest']|e]; cbn [mbind pr_bind]; [|eexists; by split].
  specialize (Hr _ _ eq_refl) as [Hwf Ht].
  destruct (0 <? len rest'); eexists; (split; [done|]); [done|]. intros k' [= <-]. split; [done|]. eauto.
Qed.

Lemma key_reads_back k :
  wf_key k ->
  exists s, key_Marshal k = Some s /\ (small_key k -> len s < 2 ^ 32 -> ParsePublicKey s = Some (Ok k)).
Proof.
  assert (Hplain : wf_plain k -> exists s, key_Marshal k = Some s /\ (small_key k -> len s < 2 ^ 32 -> ParsePublicKey s = Some (Ok k))).
  { intros (t & body & Ht & HM & Hn & Hp)%plain_reads_back. eexists. split; [done|]. intros _ Hl.
    rewrite len_app, string_bytes_len in Hl. pose proof (len_nonneg t). unfold ParsePublicKey, ParsePublicKey_rec.
    rewrite parseString_bytes by lia. rewrite <- (app_nil_r body), Hp by (rewrite len_nil; lia). done. }
  destruct k; try exact Hplain. apply certificate_reads_back.
Qed.

(** The marshalled key starts with its type. *)
Lemma marshal_type k s :
  wf_key k -> key_Marshal k = Some s -> len s < 2 ^ 32 -> exists t rest, key_Type k = Some t /\ parseString s = Some (t, rest).
Proof.
  intros Hk Hm Hl. assert (exists t rest, key_Type k = Some t /\ s = string_bytes t ++ rest) as (t & rest & Ht & ->).
  { destruct k as [| | | | | |c]; try (destruct (plain_reads_back _ Hk) as (t & body & Ht & HM & _); rewrite HM in Hm; injection Hm as <-; eauto).
    destruct (plain_type _ (proj1 Hk)) as (t & ct & Ht & Hct & _). cbn [key_Marshal key_Type] in Hm |- *. rewrite Ht in Hm |- *.
    cbn [mbind option_bind] in Hm |- *. rewrite Hct in Hm |- *. cbn [mbind option_bind] in Hm.
    destruct (cert_SignatureKey c) as [sk|]; [|done]. destruct (key_Marshal sk); [|done]. destruct (key_Marshal (cert_Key c)); [|done].
    injection Hm as <-. do 2 eexists. split; [done|]. by rewrite <- app_assoc. }
  exists t, rest. split; [done|]. rewrite len_app, string_bytes_len in Hl. apply parseString_bytes. lia.
Qed.

(** C22. [ParsePublicKey] ends on every input within two levels of recursion, however
    certificates are nested in it, without a panic; a key it returns is well-formed, of
    the type the input names (exponent, modulus, group, curve point and lengths in range,
    and no certificate inside a certificate), and every well-formed key or certificate
    is marshalled without a panic and parsed back as it was. *)
Theorem ParsePublicKey_correct :
  (forall data, exists r, ParsePublicKey data = Some r /\
     forall k, r = Ok k -> wf_key k /\ exists algo rest, parseString data = Some (algo, rest) /\ key_Type k = Some algo) /\
  (forall k, wf_key k ->
     exists s, key_Marshal k = Some s /\ (small_key k -> len s < 2 ^ 32 -> ParsePublicKey s = Some (Ok k))).
Proof. split; [apply ParsePublicKey_total|apply key_reads_back]. Qed.
End Keys.

Definition plain_sample : PublicKey := ed25519PublicKey (repeat "k"%char 32).
Lemma ParsePublicKey_correct_witness :
  exists s, key_Marshal plain_sample = Some s /\ @ParsePublicKey sample_kexlib ascii_tables s = Some (Ok plain_sample).
Proof.
  destruct (proj2 (@ParsePublicKey_correct sample_kexlib ascii_tables sample_kexlaws) plain_sample) as (s & Hs & Hp); [reflexivity|].
  exists s. split; [exact Hs|]. apply Hp; [exact I|]. vm_compute in Hs. injection Hs as <-. vm_compute. reflexivity.
Defined.

(** ** Verify *)

(** The primitives: the error of [rsa.VerifyPKCS1v15], if any, on modulus, exponent, hash,
    digest and signature; [dsa.Verify], [ecdsa.Verify] and [ed25519.Verify]. *)
Class SigLib := {
  VerifyPKCS1v15 : Z -> Z -> Hash -> gostring -> gostring -> option gostring;
  dsa_Verify : dsaParameters -> Z -> gostring -> Z -> Z -> bool;
  ecdsa_Verify : Curve -> Z -> Z -> gostring -> Z -> Z -> bool;
  ed25519_Verify : gostring -> gostring -> gostring -> bool }.

Definition ecSig : structType := MkStruct [] [] [(go "R", KBigInt); (go "S", KBigInt)].
Definition edSig : structType := MkStruct [] [] [(go "Signature", KRest)].
Definition skFields : structType := MkStruct (go "skFields") [] [(go "Flags", KUint8); (go "Counter", KUint32)].
Definition sk_blob : structType :=
  MkStruct [] [] [(go "ApplicationDigest", KRest); (go "Flags", KUint8); (go "Counter", KUint32); (go "MessageDigest", KRest)].

Definition flagUserPresence : Z := 1.
Definition errSKMissingUserPresence : error := errors_New (go "ssh: signature missing required user presence flag").
Definition errNotVerified : error := errors_New (go "ssh: signature did not verify").
Definition wrong_format (format type : gostring) : error :=
  errors_New (go "ssh: signature type " ++ format ++ go " for key type " ++ type).
Definition if_ok {A} (r : res A) (f : A -> option error) : option error :=
  match r with Ok a => f a | Err e => Some e end.

Definition rsa_Size (N : Z) : Z := (BitLen N + 7) / 8.
(** Short signatures are padded up to the size of the key. *)
Definition pad_signature (blob : gostring) (keySize : Z) : gostring :=
  if len blob <? keySize then repeat chNUL (Z.to_nat (keySize - len blob)) ++ blob else blob.

Section Verify.
Context `{CryptoLib, SigLib, UnicodeTables}.

(** The message that a security key signs: digests of the application and of the data
    around the flags and the counter. *)
Definition sk_message (hash : Hash) (application data : gostring) (flags counter : Z) : gostring :=
  Marshal sk_blob (digest hash application, (flags, (counter, (digest hash data, tt)))).

Definition rsaPublicKey_Verify (E N : Z) (data : gostring) (sig : Signature) : option error :=
  if negb (contains (algorithmsForKeyFormat (go "ssh-rsa")) (sig_Format sig)) then Some (wrong_format (sig_Format sig) (go "ssh-rsa"))
  else if_ok (hashFunc (sig_Format sig)) (fun hash =>
    match VerifyPKCS1v15 N E hash (digest hash data) (pad_signature (sig_Blob sig) (rsa_Size N)) with
    | Some e => Some (errors_New e)
    | None => None
    end).
Definition dsaPublicKey_Verify (p : dsaParameters) (Y : Z) (data : gostring) (sig : Signature) : option error :=
  if negb (sig_Format sig =s go "ssh-dss") then Some (wrong_format (sig_Format sig) (go "ssh-dss"))
  else if_ok (hashFunc (sig_Format sig)) (fun hash =>
    if negb (len (sig_Blob sig) =? 40) then Some (errors_New (go "ssh: DSA signature parse error"))
    else if dsa_Verify p Y (digest hash data) (be_value (take 20 (sig_Blob sig))) (be_value (drop 20 (sig_Blob sig)))
    then None else Some errNotVerified).
Definition ecdsaPublicKey_Verify (c : Curve) (X Y : Z) (data : gostring) (sig : Signature) : option error :=
  let type := go "ecdsa-sha2-" ++ nistID c in
  if negb (sig_Format sig =s type) then Some (wrong_format (sig_Format sig) type)
  else if_ok (hashFunc (sig_Format sig)) (fun hash =>
    if_ok (Unmarshal ecSig (sig_Blob sig)) (fun '(R, (s, _)) =>
      if ecdsa_Verify c X Y (digest hash data) R s then None else Some errNotVerified)).
Definition ed25519PublicKey_Verify (key : gostring) (data : gostring) (sig : Signature) : option error :=
  if negb (sig_Format sig =s KeyAlgoED25519) then Some (wrong_format (sig_Format sig) KeyAlgoED25519)
  else if negb (len key =? ed25519_PublicKeySize)
  then Some (errors_New (go "ssh: invalid size " ++ Itoa (len key) ++ go " for Ed25519 public key"))
  else if ed25519_Verify key data (sig_Blob sig) then None else Some errNotVerified.
Definition skECDSAPublicKey_Verify (application : gostring) (c : Curve) (X Y : Z) (noTouchRequired : bool) (data : gostring) (sig : Signature) : option error :=
  if negb (sig_Format sig =s KeyAlgoSKECDSA256) then Some (wrong_format (sig_Format sig) KeyAlgoSKECDSA256)
  else if_ok (hashFunc (sig_Format sig)) (fun hash =>
    if_ok (Unmarshal ecSig (sig_Blob sig)) (fun '(R, (s, _)) =>
      if_ok (Unmarshal skFields (sig_Rest sig)) (fun '(Flags, (Counter, _)) =>
        if (Z.land Flags flagUserPresence =? 0) && negb noTouchRequired then Some errSKMissingUserPresence
        else if ecdsa_Verify c X Y (digest hash (sk_message hash application data Flags Counter)) R s
        then None else Some errNotVerified))).
Definition skEd25519PublicKey_Verify (application key : gostring) (noTouchRequired : bool) (data : gostring) (sig : Signature) : option error :=
  if negb (sig_Format sig =s KeyAlgoSKED25519) then Some (wrong_format (sig_Format sig) KeyAlgoSKED25519)
  else if negb (len key =? ed25519_PublicKeySize)
  then Some (errors_New (go "invalid size " ++ Itoa (len key) ++ go " for Ed25519 public key"))
  else if_ok (hashFunc (sig_Format sig)) (fun hash =>
    if_ok (Unmarshal edSig (sig_Blob sig)) (fun '(signature, _) =>
      if_ok (Unmarshal skFields (sig_Rest sig)) (fun '(Flags, (Counter, _)) =>
        if (Z.land Flags flagUserPresence =? 0) && negb noTouchRequired then Some errSKMissingUserPresence
        else if ed25519_Verify key (sk_message hash application data Flags Counter) signature
        then None else Some errNotVerified))).

(** [Certificate.Verify] is the last case. *)
Fixpoint key_Verify (k : PublicKey) (data : gostring) (sig : Signature) : option error :=
  match k with
  | rsaPublicKey E N => rsaPublicKey_Verify E N data sig
  | dsaPublicKey p Y => dsaPublicKey_Verify p Y data sig
  | ecdsaPublicKey c X Y => ecdsaPublicKey_Verify c X Y data sig
  | ed25519PublicKey key => ed25519PublicKey_Verify key data sig
  | skECDSAPublicKey application c X Y noTouchRequired => skECDSAPublicKey_Verify application c X Y noTouchRequired data sig
  | skEd25519PublicKey application key noTouchRequired => skEd25519PublicKey_Verify application key noTouchRequired data sig
  | certificate c => key_Verify (cert_Key c) data sig
  end.

(** server.go: the key without its touch requirement; certificates are unwrapped once. *)
Definition without_touch (k : PublicKey) : option PublicKey :=
  match k with
  | skECDSAPublicKey application c X Y _ => Some (skECDSAPublicKey application c X Y true)
  | skEd25519PublicKey application key _ => Some (skEd25519PublicKey application key true)
  | _ => None
  end.
Definition with_Key (c : Certificate) (k : PublicKey) : Certificate :=
  mkCertificate (cert_Nonce c) k (cert_Serial c) (cert_CertType c) (cert_KeyId c) (cert_ValidPrincipals c) (cert_ValidAfter c)
    (cert_ValidBefore c) (cert_CriticalOptions c) (cert_Extensions c) (cert_Reserved c) (cert_SignatureKey c) (cert_Signature c).
Definition skKeyWithoutUP (pubKey : PublicKey) : PublicKey :=
  match pubKey with
  | certificate c => match without_touch (cert_Key c) with Some k => certificate (with_Key c k) | None => pubKey end
  | _ => default pubKey (without_touch pubKey)
  end.

(** ** The interface of user authentication and of the handshake *)
Context `{KexLib}.
Definition cert_has_extension (k : PublicKey) (name : gostring) : bool :=
  match k with certificate c => bool_decide (is_Some (cert_Extensions c !! name)) | _ => false end.
(** Parsed keys have a type, and parsing does not run out ([ParsePublicKey_total]). *)
Definition go_keylib : KeyLib := {|
  Key := PublicKey;
  SshAuth.ParsePublicKey data := default (Err errShortRead) (ParsePublicKey data);
  SshAuth.key_Type k := default [] (key_Type k);
  cert_Extension := cert_has_extension;
  Verify waived k data sig := key_Verify (if waived then skKeyWithoutUP k else k) data sig |}.
End Verify.

Ltac show_Verify :=
  cbn [key_Verify];
  unfold rsaPublicKey_Verify, dsaPublicKey_Verify, ecdsaPublicKey_Verify, ed25519PublicKey_Verify,
    skECDSAPublicKey_Verify, skEd25519PublicKey_Verify;
  cbn [sig_Format sig_Rest sig_Blob].
