(* ===== verification/GoNet.v ===== *)
(** * Packages net, bytes and encoding/base64, as the key files use them.

    [SplitHostPort], base64 decoding and the splitting of lines into fields are the
    functions of the Go standard library.  Proved: decoding inverts encoding, and an
    address is split into the host and port it was put together from. *)
From Stdlib Require Import Ascii String ZArith Lia.
From stdpp Require Import base gmap strings list.
From S2P Require Import Prelude GoStrings GoEncoding.
Local Open Scope Z_scope.

(** ** Package bytes *)

(** [bytes.IndexAny(s, chars)] for ASCII characters; [None] is [-1]. *)
Fixpoint IndexAny (s chars : gostring) : option nat :=
  match s with
  | [] => None
  | c :: s => if ContainsByte chars c then Some 0%nat else S <$> IndexAny s chars
  end.

(** [bytes.Trim(s, cutset)] for an ASCII cutset. *)
Fixpoint TrimLeft (s cutset : gostring) : gostring :=
  match s with
  | c :: t => if ContainsByte cutset c then TrimLeft t cutset else s
  | [] => []
  end.
Definition TrimRight (s cutset : gostring) : gostring := rev (TrimLeft (rev s) cutset).
Definition Trim (s cutset : gostring) : gostring := TrimRight (TrimLeft s cutset) cutset.

(** [bytes.Fields]: the maximal runs of runes that are not spaces. *)
Fixpoint fields_loop (fuel : nat) (s cur : gostring) : list gostring :=
  let flush := match cur with [] => [] | _ => [cur] end in
  match fuel, s with
  | S fuel, _ :: _ =>
      let '(r, n) := DecodeRune s in
      if unicode_IsSpace r then flush ++ fields_loop fuel (drop n s) [] else fields_loop fuel (drop n s) (cur ++ take n s)
  | _, _ => flush
  end.
Definition Fields (s : gostring) : list gostring := fields_loop (length s) s [].

(** ** Package encoding/base64 *)
Definition b64_value (c : ascii) : option Z :=
  match IndexByte b64_alphabet c with Some i => Some (Z.of_nat i) | None => None end.

Fixpoint skip_newlines (src : gostring) (si : Z) : gostring * Z :=
  match src with
  | c :: rest => if (c =c chNL) || (c =c chCR) then skip_newlines rest (si + 1) else (src, si)
  | [] => ([], si)
  end.

(** The bytes of a quantum of two, three or four digits. *)
Definition b64_bytes (dbuf : list Z) : gostring :=
  match dbuf with
  | a :: b :: c :: d :: _ =>
      let v := a * 262144 + b * 4096 + c * 64 + d in [vb (v / 65536); vb ((v / 256) mod 256); vb (v mod 256)]
  | [a; b; c] => let v := a * 262144 + b * 4096 + c * 64 in [vb (v / 65536); vb ((v / 256) mod 256)]
  | [a; b] => let v := a * 262144 + b * 4096 in [vb (v / 65536)]
  | _ => []
  end.

(** [decodeQuantum] in a loop: [dbuf] are the digits of the quantum, [si] the position in
    the input; an error is the offset of [CorruptInputError]. *)
Fixpoint b64_decode (src : gostring) (si : Z) (dbuf : list Z) : result Z gostring :=
  match src with
  | [] => match dbuf with [] => Ok [] | _ => Err (si - len dbuf) end
  | c :: rest =>
      match b64_value c with
      | Some v =>
          let dbuf := dbuf ++ [v] in
          if (length dbuf =? 4)%nat then out ← b64_decode rest (si + 1) []; Ok (b64_bytes dbuf ++ out)
          else b64_decode rest (si + 1) dbuf
      | None =>
          if (c =c chNL) || (c =c chCR) then b64_decode rest (si + 1) dbuf
          else if negb (c =c "=") then Err si
          else if (length dbuf <? 2)%nat then Err si
          else
            let '(rest, si) := skip_newlines rest (si + 1) in
            '(rest, si) ← (if (length dbuf =? 2)%nat
                           then match rest with
                                | [] => Err si
                                | c :: rest => if negb (c =c "=") then Err si else Ok (skip_newlines rest (si + 1))
                                end
                           else Ok (rest, si));
            match rest with [] => Ok (b64_bytes dbuf) | _ => Err si end
      end
  end.
Definition base64_DecodeString (s : gostring) : res gostring :=
  match b64_decode s 0 [] with
  | Ok out => Ok out
  | Err i => Err (errors_New (go "illegal base64 data at input byte " ++ Itoa i))
  end.

(** ** Package net *)
Definition addrError (addr why : gostring) : error :=
  errors_New (if addr =s [] then why else go "address " ++ addr ++ go ": " ++ why).

Definition missingPort : gostring := go "missing port in address".
Definition tooManyColons : gostring := go "too many colons in address".
(** The host, and where brackets may not occur any more; [i] is the last colon. *)
Definition split_host (hostport : gostring) (i : nat) : res (gostring * nat * nat) :=
  match hostport with
  | c :: _ =>
      if c =c "[" then
        match IndexByte hostport "]" with
        | None => Err (addrError hostport (go "missing ']' in address"))
        | Some e =>
            if (e + 1 =? length hostport)%nat then Err (addrError hostport missingPort)
            else if (e + 1 =? i)%nat then Ok (drop 1 (take e hostport), 1%nat, (e + 1)%nat)
            else if match hostport !! (e + 1)%nat with Some b => b =c ":" | None => false end
            then Err (addrError hostport tooManyColons)
            else Err (addrError hostport missingPort)
        end
      else
        let host := take i hostport in
        if ContainsByte host ":" then Err (addrError hostport tooManyColons) else Ok (host, 0%nat, 0%nat)
  | [] => Err (addrError hostport missingPort)
  end.
Definition SplitHostPort (hostport : gostring) : res (gostring * gostring) :=
  match LastIndexByte hostport ":" with
  | None => Err (addrError hostport missingPort)
  | Some i =>
      '(host, j, k) ← split_host hostport i;
      if ContainsByte (drop j hostport) "[" then Err (addrError hostport (go "unexpected '[' in address"))
      else if ContainsByte (drop k hostport) "]" then Err (addrError hostport (go "unexpected ']' in address"))
      else Ok (host, drop (i + 1) hostport)
  end.

(** ** Decoding inverts encoding *)
Lemma b64_value_digit n : 0 <= n < 64 -> b64_value (b64_digit n) = Some n.
Proof.
  intros Hn. assert (forallb (fun i => bool_decide (b64_value (b64_digit (Z.of_nat i)) = Some (Z.of_nat i))) (seq 0 64) = true) as H by (vm_compute; reflexivity).
  rewrite forallb_forall in H. specialize (H (Z.to_nat n)). rewrite Z2Nat.id in H by lia.
  specialize (H ltac:(apply in_seq; lia)). by apply bool_decide_eq_true in H.
Qed.

Ltac digit := rewrite b64_value_digit by (split; [apply Z.div_pos; lia|apply Z.div_lt_upper_bound; lia]).
Ltac digit_mod := rewrite b64_value_digit by (apply Z.mod_pos_bound; lia).

(** The digits of a number below 2^24 put together again. *)
Lemma b64_digits_value v : 0 <= v < 2 ^ 24 ->
  v / 262144 * 262144 + (v / 4096) mod 64 * 4096 + (v / 64) mod 64 * 64 + v mod 64 = v.
Proof.
  intros Hv. pose proof (Z.div_mod v 64 ltac:(lia)). pose proof (Z.div_mod (v / 64) 64 ltac:(lia)).
  pose proof (Z.div_mod (v / 4096) 64 ltac:(lia)).
  replace (v / 64 / 64) with (v / 4096) in * by (rewrite Z.div_div by lia; done).
  replace (v / 4096 / 64) with (v / 262144) in * by (rewrite Z.div_div by lia; done). lia.
Qed.

Lemma bytes_of_24 a b c : let v := bv a * 65536 + bv b * 256 + bv c in
  0 <= v < 2 ^ 24 /\ v / 65536 = bv a /\ (v / 256) mod 256 = bv b /\ v mod 256 = bv c.
Proof.
  cbv zeta. pose proof (bv_range a). pose proof (bv_range b). pose proof (bv_range c). split; [lia|]. split; [|split].
  - symmetry. apply (Z.div_unique _ _ _ (bv b * 256 + bv c)); lia.
  - replace (bv a * 65536 + bv b * 256 + bv c) with ((bv a * 256 + bv b) * 256 + bv c) by lia.
    rewrite Z.div_add_l, Z.div_small by lia. rewrite Z.add_0_r, Z.add_comm, Z.mod_add by lia. apply Z.mod_small. lia.
  - replace (bv a * 65536 + bv b * 256 + bv c) with (bv c + (bv a * 256 + bv b) * 256) by lia.
    rewrite Z.mod_add by lia. apply Z.mod_small. lia.
Qed.

Lemma b64_digits2 k : let v := k * 4096 in v / 262144 * 262144 + (v / 4096) mod 64 * 4096 = v.
Proof.
  cbv zeta. rewrite Z.div_mul by lia. change 262144 with (4096 * 64) at 1. rewrite <- Z.div_div, Z.div_mul by lia.
  pose proof (Z.div_mod k 64 ltac:(lia)). lia.
Qed.
Lemma b64_digits3 k : let v := k * 64 in v / 262144 * 262144 + (v / 4096) mod 64 * 4096 + (v / 64) mod 64 * 64 = v.
Proof.
  cbv zeta. change 262144 with (64 * 64 * 64) at 1. change 4096 with (64 * 64) at 1. rewrite <- !Z.div_div, Z.div_mul by lia.
  pose proof (Z.div_mod k 64 ltac:(lia)). pose proof (Z.div_mod (k / 64) 64 ltac:(lia)). lia.
Qed.

Lemma b64_roundtrip p si : b64_decode (base64_EncodeToString p) si [] = Ok p.
Proof.
  revert si. induction p as [p IH] using list_len_ind. intros si. destruct p as [|a [|b [|c p]]].
  - done.
  - cbn [base64_EncodeToString b64_decode]. destruct (bytes_of_24 a (vb 0) (vb 0)) as (Hv & Ha & _ & _).
    change (bv (vb 0)) with 0 in *. rewrite Z.mul_0_l, !Z.add_0_r in *.
    pose proof (b64_digits2 (bv a * 16)) as Hd. cbv zeta in Hd. replace (bv a * 16 * 4096) with (bv a * 65536) in Hd by lia.
    set (v := bv a * 65536) in *. digit. digit_mod. cbn [app length Nat.eqb]. change (b64_value "=") with (@None Z).
    cbn [Ascii.eqb Bool.eqb orb negb andb Nat.ltb Nat.leb skip_newlines mbind result_bind].
    cbn [b64_bytes]. by rewrite Hd, Ha, vb_bv.
  - cbn [base64_EncodeToString b64_decode]. destruct (bytes_of_24 a b (vb 0)) as (Hv & Ha & Hb & _).
    change (bv (vb 0)) with 0 in *. rewrite !Z.add_0_r in *.
    pose proof (b64_digits3 (bv a * 1024 + bv b * 4)) as Hd. cbv zeta in Hd.
    replace ((bv a * 1024 + bv b * 4) * 64) with (bv a * 65536 + bv b * 256) in Hd by lia.
    set (v := bv a * 65536 + bv b * 256) in *. digit. digit_mod. digit_mod. cbn [app length Nat.eqb]. change (b64_value "=") with (@None Z).
    cbn [Ascii.eqb Bool.eqb orb negb andb Nat.ltb Nat.leb skip_newlines mbind result_bind].
    cbn [b64_bytes]. by rewrite Hd, Ha, Hb, !vb_bv.
  - cbn [base64_EncodeToString]. destruct (bytes_of_24 a b c) as (Hv & Ha & Hb & Hc). pose proof (b64_digits_value _ Hv) as Hd.
    set (v := bv a * 65536 + bv b * 256 + bv c) in *. cbn [app b64_decode]. digit. do 3 digit_mod. cbn [app length Nat.eqb].
    rewrite IH by (cbn; lia). cbn [mbind result_bind b64_bytes app]. by rewrite Hd, Ha, Hb, Hc, !vb_bv.
Qed.

Lemma base64_Decode_Encode p : base64_DecodeString (base64_EncodeToString p) = Ok p.
Proof. unfold base64_DecodeString. by rewrite b64_roundtrip. Qed.

(** ** Splitting addresses *)
Lemma LastIndexByte_app s c t : c ∉ t -> LastIndexByte (s ++ (c :: t)) c = Some (length s).
Proof.
  intros Ht. induction s as [|x s IH]; cbn [app LastIndexByte length]; [|by rewrite IH].
  assert (LastIndexByte t c = None) as ->.
  { clear -Ht. induction t as [|y t IH]; [done|]. apply not_elem_of_cons in Ht as [Hy Ht]. cbn. rewrite IH by done.
    by rewrite (proj2 (Ascii.eqb_neq y c)) by congruence. }
  by rewrite Ascii.eqb_refl.
Qed.
Lemma ContainsByte_false s c : c ∉ s -> ContainsByte s c = false.
Proof. intros Hc. destruct (ContainsByte s c) eqn:E; [|done]. by apply ContainsByte_spec in E. Qed.
Lemma not_elem_join c h b (p : gostring) : c ∉ h -> c <> b -> c ∉ p -> c ∉ (h ++ (b :: p)).
Proof. intros H1 H2 H3 Hin. apply elem_of_app in Hin as [Hin|Hin]; [done|]. by apply elem_of_cons in Hin as [->|Hin]. Qed.

Definition no_brackets (h : gostring) : Prop := ("["%char ∉ h) /\ ("]"%char ∉ h).

(** A host without colons and brackets. *)
Lemma SplitHostPort_plain h p :
  ":"%char ∉ h -> no_brackets h -> ":"%char ∉ p -> no_brackets p -> SplitHostPort (h ++ (":"%char :: p)) = Ok (h, p).
Proof.
  intros Hh [Hh1 Hh2] Hp [Hp1 Hp2]. unfold SplitHostPort. rewrite LastIndexByte_app by done.
  assert (split_host (h ++ (":"%char :: p)) (length h) = Ok (h, 0%nat, 0%nat)) as ->.
  { unfold split_host. rewrite take_app_length, (ContainsByte_false h ":") by done. destruct h as [|x h]; [done|]. cbn [app].
    apply not_elem_of_cons in Hh1 as [Hx _]. by rewrite (proj2 (Ascii.eqb_neq x "["%char)) by congruence. }
  cbn [mbind result_bind]. rewrite !drop_0, !ContainsByte_false by (by apply not_elem_join).
  by rewrite <- drop_drop, drop_app_length.
Qed.

(** A host in brackets, which may have colons. *)
Lemma SplitHostPort_bracketed h p :
  no_brackets h -> ":"%char ∉ p -> no_brackets p -> SplitHostPort ("["%char :: (h ++ ("]"%char :: ":"%char :: p))) = Ok (h, p).
Proof.
  intros [Hh1 Hh2] Hp [Hp1 Hp2]. unfold SplitHostPort.
  assert (E : "["%char :: (h ++ ("]"%char :: ":"%char :: p)) = (("["%char :: h) ++ ["]"%char]) ++ (":"%char :: p)).
  { cbn [app]. by rewrite <- app_assoc. }
  rewrite E, LastIndexByte_app, <- E by done. rewrite length_app. cbn [length].
  assert (split_host ("["%char :: (h ++ ("]"%char :: ":"%char :: p))) (S (length h) + 1) = Ok (h, 1%nat, (S (length h) + 1)%nat)) as ->.
  { unfold split_host. cbn [Ascii.eqb Bool.eqb]. cbn [IndexByte Ascii.eqb Bool.eqb]. rewrite IndexByte_app by done. cbn [fmap option_fmap option_map].
    cbn [length]. rewrite length_app. cbn [length]. rewrite (proj2 (Nat.eqb_neq _ _)), Nat.eqb_refl by lia.
    do 3 f_equal. cbn [take drop]. by rewrite take_app_length. }
  cbn [mbind result_bind].
  replace (drop 1 ("["%char :: (h ++ ("]"%char :: ":"%char :: p)))) with (h ++ ("]"%char :: ":"%char :: p)) by done.
  replace (drop (S (length h) + 1) ("["%char :: (h ++ ("]"%char :: ":"%char :: p)))) with (":"%char :: p).
  2:{ rewrite E. replace (S (length h) + 1)%nat with (length (("["%char :: h) ++ ["]"%char])) by (rewrite length_app; done).
      by rewrite drop_app_length. }
  rewrite (ContainsByte_false (h ++ _)) by (apply not_elem_join; [done..|]; by apply not_elem_of_cons).
  rewrite ContainsByte_false by (by apply not_elem_of_cons).
  rewrite <- drop_drop.
  replace (drop (S (length h) + 1) ("["%char :: (h ++ ("]"%char :: ":"%char :: p)))) with (":"%char :: p); [done|].
  rewrite E. replace (S (length h) + 1)%nat with (length (("["%char :: h) ++ ["]"%char])) by (rewrite length_app; done).
  by rewrite drop_app_length.
Qed.
