(* ===== verification/SshSigners.v ===== *)
(** * Signers: [third/ssh/keys.go] and [certs.go].

    [goSigner] has a constructor per type that implements [Signer]: a wrapped
    [crypto.Signer], a DSA key, a signer restricted to some algorithms, a signer with a
    certificate, a signer from outside, given by its methods, and the wrapper of a client.  [crypto.Signer] is a
    record; the signature it returns is ASN.1 for ECDSA and DSA, whose parser is the class
    [ASN1].

    Proved: what a signer signs, with any algorithm it announces, its public key verifies,
    directly or through a certificate, and a restricted signer uses no other algorithm; a
    server with such a host key is trusted by a client whose callback accepts the key. *)
From Stdlib Require Import Ascii String ZArith Lia.
From stdpp Require Import base gmap strings list.
From S2P Require Import Prelude GoStrings SshWire SshMessages SshAlgos GoCrypto GoIO SshCipher SshAuth KexLib SshKex SshHandshake SshKeys.
Local Open Scope Z_scope.

(** ** Keys of the Go library *)
Inductive cryptoPublicKey :=
| rsa_PublicKey (E N : Z)
| ecdsa_PublicKey (curve : option Curve) (X Y : Z)   (** [None]: another curve *)
| dsa_PublicKey (param : dsaParameters) (Y : Z)
| ed25519_PublicKey (key : gostring)
| other_PublicKey (type : gostring).

Record cryptoSigner := mkCryptoSigner {
  cs_Public : cryptoPublicKey;
  cs_Sign : Source -> gostring -> Hash -> result packet_error gostring * Source }.

(** [asn1.Unmarshal] into a pair of integers. *)
Class ASN1 := { asn1_pair : gostring -> result packet_error (Z * Z) }.

Definition NewPublicKey (key : cryptoPublicKey) : res PublicKey :=
  match key with
  | rsa_PublicKey E N => Ok (rsaPublicKey E N)
  | ecdsa_PublicKey None _ _ => Err (errors_New (go "ssh: only P-256, P-384 and P-521 EC keys are supported"))
  | ecdsa_PublicKey (Some c) X Y => Ok (ecdsaPublicKey c X Y)
  | dsa_PublicKey p Y => Ok (dsaPublicKey p Y)
  | ed25519_PublicKey key =>
      if negb (len key =? ed25519_PublicKeySize)
      then Err (errors_New (go "ssh: invalid size " ++ Itoa (len key) ++ go " for Ed25519 public key"))
      else Ok (ed25519PublicKey key)
  | other_PublicKey type => Err (errors_New (go "ssh: unsupported key type " ++ type))
  end.

(** A DSA key: [dsa.Sign] on a digest gives a pair of numbers. *)
Record dsaPrivate := mkDSAPrivate {
  dp_param : dsaParameters; dp_Y : Z;
  dp_Sign : Source -> gostring -> result packet_error (Z * Z) * Source }.

Inductive goSigner :=
| wrappedSigner (signer : cryptoSigner) (pubKey : PublicKey)
| dsaPrivateKey (key : dsaPrivate)
| restrictedSigner (signer : goSigner) (supportedAlgorithms : list gostring)   (** [multiAlgorithmSigner] *)
| openSSHCertSigner (pub : Certificate) (signer : goSigner)
| algorithmOpenSSHCertSigner (pub : Certificate) (signer : goSigner)
| externalSigner (pub : PublicKey) (kind : signer_kind)
    (sign : Source -> gostring -> result packet_error Signature * Source)
    (signWithAlgorithm : Source -> gostring -> gostring -> result packet_error Signature * Source)
| signerWrapper (signer : goSigner).   (** [algorithmSignerWrapper] *)

(** Signing: [None] is a panic. *)
Abbreviation signing A := (option (result packet_error A * Source)).
Definition sign_error {A} (msg : gostring) (rand : Source) : signing A := Some (Err (newError msg), rand).

Section Signers.
Context `{CryptoLib, KexLib, UnicodeTables, ASN1}.

(** [copy(sig[20-len(r):20], r)] into zeros; a longer [r] makes the index negative. *)
Definition pad20 (r : gostring) : option gostring :=
  if 20 <? len r then None else Some (repeat chNUL (Z.to_nat (20 - len r)) ++ r).
Definition dsa_blob (R s : Z) : option gostring := r ← pad20 (BigBytes R); s ← pad20 (BigBytes s); Some (r ++ s).

Fixpoint signer_PublicKey (g : goSigner) : PublicKey :=
  match g with
  | wrappedSigner _ pub => pub
  | dsaPrivateKey k => dsaPublicKey (dp_param k) (dp_Y k)
  | restrictedSigner g _ | signerWrapper g => signer_PublicKey g
  | openSSHCertSigner pub _ | algorithmOpenSSHCertSigner pub _ => certificate pub
  | externalSigner pub _ _ _ => pub
  end.

(** [Algorithms], for the types that implement [MultiAlgorithmSigner]. *)
Definition Algorithms (g : goSigner) : option (list gostring) :=
  match g with
  | wrappedSigner _ pub => Some (algorithmsForKeyFormat (default [] (key_Type pub)))
  | dsaPrivateKey k => Some [go "ssh-dss"]
  | restrictedSigner _ l => Some l
  | externalSigner _ (multiAlgorithmSigner l) _ _ => Some l
  | _ => None
  end.
(** Whether the type implements [AlgorithmSigner]. *)
Definition isAlgorithmSigner (g : goSigner) : bool :=
  match g with
  | openSSHCertSigner _ _ | externalSigner _ plainSigner _ _ => false
  | _ => true
  end.

Definition wrapped_SignWithAlgorithm (signer : cryptoSigner) (pubKey : PublicKey) (rand : Source) (data algorithm : gostring)
    : signing Signature :=
  type ← key_Type pubKey;
  let algorithm := if algorithm =s [] then type else algorithm in
  if negb (contains (algorithmsForKeyFormat type) algorithm)
  then sign_error (go "ssh: unsupported signature algorithm " ++ Quote algorithm ++ go " for key format " ++ Quote type) rand
  else match hashFunc algorithm with
       | Err e => Some (Err (newError (err_msg e)), rand)
       | Ok hash =>
           let input := match hash with NoHash => data | _ => digest hash data end in
           match cs_Sign signer rand input hash with
           | (Err e, rand) => Some (Err e, rand)
           | (Ok signature, rand) =>
               match pubKey with
               | ecdsaPublicKey _ _ _ =>
                   match asn1_pair signature with
                   | Err e => Some (Err e, rand)
                   | Ok (R, s) => Some (Ok (MkSignature algorithm (Marshal ecSig (R, (s, tt))) []), rand)
                   end
               | dsaPublicKey _ _ =>
                   match asn1_pair signature with
                   | Err e => Some (Err e, rand)
                   | Ok (R, s) => blob ← dsa_blob R s; Some (Ok (MkSignature algorithm blob []), rand)
                   end
               | _ => Some (Ok (MkSignature algorithm signature []), rand)
               end
           end
       end.

Definition dsa_SignWithAlgorithm (k : dsaPrivate) (rand : Source) (data algorithm : gostring) : signing Signature :=
  if negb (algorithm =s []) && negb (algorithm =s go "ssh-dss")
  then sign_error (go "ssh: unsupported signature algorithm " ++ algorithm) rand
  else match hashFunc (go "ssh-dss") with
       | Err e => Some (Err (newError (err_msg e)), rand)
       | Ok hash =>
           match dp_Sign k rand (digest hash data) with
           | (Err e, rand) => Some (Err e, rand)
           | (Ok (R, s), rand) => blob ← dsa_blob R s; Some (Ok (MkSignature (go "ssh-dss") blob []), rand)
           end
       end.

Definition isAlgorithmSupported (supportedAlgorithms : list gostring) (type algorithm : gostring) : bool :=
  contains supportedAlgorithms (if algorithm =s [] then underlyingAlgo type else algorithm).

Fixpoint signer_Sign (g : goSigner) (rand : Source) (data : gostring) : signing Signature :=
  match g with
  | wrappedSigner signer pub => type ← key_Type pub; wrapped_SignWithAlgorithm signer pub rand data type
  | dsaPrivateKey k => dsa_SignWithAlgorithm k rand data (go "ssh-dss")
  | restrictedSigner g _ | openSSHCertSigner _ g | algorithmOpenSSHCertSigner _ g | signerWrapper g => signer_Sign g rand data
  | externalSigner _ _ f _ => Some (f rand data)
  end.

(** [SignWithAlgorithm] of the types that have it; the others are not called. *)
Fixpoint signWithAlgorithm (g : goSigner) (rand : Source) (data algorithm : gostring) : signing Signature :=
  match g with
  | wrappedSigner signer pub => wrapped_SignWithAlgorithm signer pub rand data algorithm
  | dsaPrivateKey k => dsa_SignWithAlgorithm k rand data algorithm
  | restrictedSigner g l =>
      type ← (if algorithm =s [] then key_Type (signer_PublicKey g) else Some []);
      if negb (isAlgorithmSupported l type algorithm)
      then sign_error (go "ssh: algorithm " ++ Quote algorithm ++ go " is not supported: [" ++ Join l (go " ") ++ go "]") rand
      else signWithAlgorithm g rand data algorithm
  | algorithmOpenSSHCertSigner _ g => signWithAlgorithm g rand data algorithm
  | externalSigner _ _ _ f => Some (f rand data algorithm)
  | openSSHCertSigner _ _ => None
  | signerWrapper g =>
      type ← key_Type (signer_PublicKey g);
      if negb (algorithm =s underlyingAlgo type)
      then sign_error (go "ssh: internal error: algorithmSignerWrapper invoked with non-default algorithm") rand
      else signer_Sign g rand data
  end.


(** ** Construction *)
Definition NewSignerFromSigner (signer : cryptoSigner) : res goSigner :=
  pubKey ← NewPublicKey (cs_Public signer); Ok (wrappedSigner signer pubKey).
Definition newDSAPrivateKey (key : dsaPrivate) : res goSigner :=
  match checkDSAParams (dp_param key) with Some e => Err e | None => Ok (dsaPrivateKey key) end.

Fixpoint check_algorithms (type : gostring) (supportedAlgos signerAlgos algorithms : list gostring) : option error :=
  match algorithms with
  | [] => None
  | algo :: rest =>
      if negb (contains supportedAlgos algo)
      then Some (errors_New (go "ssh: algorithm " ++ Quote algo ++ go " is not supported for key type " ++ Quote type))
      else if negb (contains signerAlgos algo)
      then Some (errors_New (go "ssh: algorithm " ++ Quote algo ++ go " is restricted for the provided signer"))
      else check_algorithms type supportedAlgos signerAlgos rest
  end.
Definition NewSignerWithAlgorithms (signer : goSigner) (algorithms : list gostring) : pr goSigner :=
  match algorithms with
  | [] => pr_fail (errors_New (go "ssh: please specify at least one valid signing algorithm"))
  | _ =>
      match key_Type (signer_PublicKey signer) with
      | None => None
      | Some type =>
          let supportedAlgos := algorithmsForKeyFormat (underlyingAlgo type) in
          let signerAlgos := match signer with restrictedSigner _ l => l | _ => supportedAlgos end in
          match check_algorithms type supportedAlgos signerAlgos algorithms with
          | Some e => pr_fail e
          | None => mret (restrictedSigner signer algorithms)
          end
      end
  end.

Definition NewCertSigner (cert : Certificate) (signer : goSigner) : pr goSigner :=
  match key_Marshal (cert_Key cert), key_Marshal (signer_PublicKey signer) with
  | Some a, Some b =>
      if negb (a =s b) then pr_fail (errors_New (go "ssh: signer and cert have different public key"))
      else mret (match Algorithms signer with
                 | Some algorithms => restrictedSigner (algorithmOpenSSHCertSigner cert signer) algorithms
                 | None => if isAlgorithmSigner signer then algorithmOpenSSHCertSigner cert signer
                           else openSSHCertSigner cert signer
                 end)
  | _, _ => None
  end.

(** ** Signers that keep the contract of [crypto.Signer] *)
Context `{SigLib}.

Definition signer_law (cs : cryptoSigner) (k : PublicKey) : Prop :=
  forall rand input hash raw rand', cs_Sign cs rand input hash = (Ok raw, rand') ->
  match k with
  | rsaPublicKey E N => len raw = rsa_Size N /\ VerifyPKCS1v15 N E hash input raw = None
  | dsaPublicKey p Y => exists R s, asn1_pair raw = Ok (R, s) /\ 0 <= R < 2 ^ 160 /\ 0 <= s < 2 ^ 160 /\ dsa_Verify p Y input R s = true
  | ecdsaPublicKey c X Y => exists R s, asn1_pair raw = Ok (R, s) /\ 0 <= R < 2 ^ 521 /\ 0 <= s < 2 ^ 521 /\ ecdsa_Verify c X Y input R s = true
  | ed25519PublicKey key => hash = NoHash -> ed25519_Verify key input raw = true
  | _ => False
  end.
Definition dsa_law (k : dsaPrivate) : Prop :=
  forall rand input R s rand', dp_Sign k rand input = (Ok (R, s), rand') ->
    0 <= R < 2 ^ 160 /\ 0 <= s < 2 ^ 160 /\ dsa_Verify (dp_param k) (dp_Y k) input R s = true.

Inductive good_signer : goSigner -> Prop :=
| good_wrapped cs g pub : signer_law cs pub -> wf_plain pub -> NewPublicKey (cs_Public cs) = Ok pub ->
    NewSignerFromSigner cs = Ok g -> good_signer g
| good_dsa k g : dsa_law k -> wf_plain (dsaPublicKey (dp_param k) (dp_Y k)) -> newDSAPrivateKey k = Ok g -> good_signer g
| good_restricted g l g' : good_signer g -> NewSignerWithAlgorithms g l = Some (Ok g') -> good_signer g'
| good_cert g c g' : good_signer g -> wf_cert c -> small_key (certificate c) -> NewCertSigner c g = Some (Ok g') -> good_signer g'.

(** The plain key of a signer. *)
Definition plain_of (k : PublicKey) : PublicKey := match k with certificate c => cert_Key c | _ => k end.

(** Every signature the signer makes is one of its key. *)
Definition sig_ok (k : PublicKey) (data algo : gostring) (r : result packet_error Signature) : Prop :=
  forall sig, r = Ok sig -> sig_Format sig = algo /\ sig_Rest sig = [] /\ key_Verify k data sig = None.
Definition signs_with (k : PublicKey) (t : gostring) (g : goSigner) : Prop :=
  (forall rand data algo, exists r rand', signWithAlgorithm g rand data algo = Some (r, rand') /\
     sig_ok k data (if algo =s [] then t else algo) r) /\
  (forall rand data, exists r rand', signer_Sign g rand data = Some (r, rand') /\ sig_ok k data t r).

Lemma sig_ok_err k data algo e : sig_ok k data algo (Err e).
Proof. by intros sig [=]. Qed.

(** *** Numbers of DSA and ECDSA *)
Lemma BitLen_le n b : 0 <= n < 2 ^ b -> 0 <= b -> BitLen n <= b.
Proof.
  intros Hn Hb. unfold BitLen. destruct (Z.eqb_spec n 0); [done|]. rewrite Z.abs_eq by lia.
  pose proof (Z.log2_lt_pow2 n b ltac:(lia)). lia.
Qed.

Lemma pad20_value n : 0 <= n < 2 ^ 160 -> exists b, pad20 (BigBytes n) = Some b /\ len b = 20 /\ be_value b = n.
Proof.
  intros Hn. pose proof (BitLen_le n 160 Hn ltac:(lia)) as Hb. pose proof (BigBytes_length n) as Hl.
  assert (len (BigBytes n) <= 20).
  { rewrite Hl. apply Z.le_trans with ((160 + 7) / 8); [apply Z.div_le_mono; lia|by vm_compute]. }
  unfold pad20. rewrite (proj2 (Z.ltb_ge _ _)) by lia. eexists. split; [done|]. split.
  - rewrite len_app. unfold len at 1. rewrite repeat_length. lia.
  - generalize (Z.to_nat (20 - len (BigBytes n))). intros m. induction m as [|m IH]; [cbn [repeat app]; apply BigBytes_value; lia|].
    cbn [repeat app]. change chNUL with (vb 0). by rewrite be_value_pad.
Qed.

Lemma dsa_blob_verifies p Y R s data input hash :
  0 <= R < 2 ^ 160 -> 0 <= s < 2 ^ 160 -> dsa_Verify p Y input R s = true -> hashFunc (go "ssh-dss") = Ok hash -> input = digest hash data ->
  exists blob, dsa_blob R s = Some blob /\ key_Verify (dsaPublicKey p Y) data (MkSignature (go "ssh-dss") blob []) = None.
Proof.
  intros HR Hs Hv Hh ->. destruct (pad20_value R HR) as (r & Er & Hrl & Hr). destruct (pad20_value s Hs) as (s' & Es & Hsl & Hs').
  exists (r ++ s'). unfold dsa_blob. rewrite Er, Es. split; [done|]. show_Verify.
  rewrite gos_eqb_refl, Hh. cbn [negb if_ok]. rewrite len_app, Hrl, Hsl. cbn [Z.add Pos.add Pos.succ Pos.add_carry Z.eqb Pos.eqb negb].
  assert (length r = 20%nat) as Hn by (unfold len in Hrl; lia).
  rewrite take_app_length', drop_app_length' by done. by rewrite Hr, Hs', Hv.
Qed.

Lemma append_big_int_len n : 0 <= n < 2 ^ 521 -> len (append_big_int n) <= 71.
Proof.
  intros Hn. pose proof (BitLen_le n 521 Hn ltac:(lia)) as Hb. pose proof (int_contents_length n) as Hl.
  rewrite append_big_int_eq, len_be, len_app. change (Z.of_nat 4) with 4. assert (intLength n <= 71); [|lia].
  unfold intLength. rewrite (proj2 (Z.ltb_ge n 0)) by lia. destruct (n =? 0); [lia|].
  assert ((BitLen n + 7) / 8 <= 66) by (apply Z.le_trans with ((521 + 7) / 8); [apply Z.div_le_mono; lia|by vm_compute]).
  destruct (_ =? 0); lia.
Qed.

Lemma ecSig_reads_back R s : 0 <= R < 2 ^ 521 -> 0 <= s < 2 ^ 521 -> Unmarshal ecSig (Marshal ecSig (R, (s, tt))) = Ok (R, (s, tt)).
Proof.
  intros HR Hs. apply Unmarshal_Marshal; [done|done|cbn; tauto|].
  change (Marshal ecSig (R, (s, tt))) with (append_big_int R ++ append_big_int s ++ []).
  rewrite app_nil_r, len_app. pose proof (append_big_int_len R HR). pose proof (append_big_int_len s Hs). lia.
Qed.

(** *** Each kind of signer *)
Lemma Ok_inj {E A} (a b : A) : @Ok E A a = Ok b -> a = b.
Proof. by intros [=]. Qed.

Lemma wrapped_signs cs pub :
  signer_law cs pub -> wf_plain pub -> exists t, key_Type pub = Some t /\
    forall rand data algo, exists r rand', wrapped_SignWithAlgorithm cs pub rand data algo = Some (r, rand') /\
      sig_ok pub data (if algo =s [] then t else algo) r.
Proof.
  intros Hlaw Hwf. destruct (plain_type _ Hwf) as (t & _ & Ht & _). exists t. split; [done|]. intros rand data algo.
  unfold wrapped_SignWithAlgorithm. rewrite Ht. cbn [mbind option_bind]. set (alg := if algo =s [] then t else algo).
  destruct (contains (algorithmsForKeyFormat t) alg) eqn:Ec; cbn [negb].
  2:{ do 2 eexists. split; [reflexivity|]. apply sig_ok_err. }
  destruct (hashFunc alg) as [hash|e] eqn:Eh; [|do 2 eexists; split; [reflexivity|apply sig_ok_err]].
  set (input := match hash with NoHash => data | _ => digest hash data end).
  destruct (cs_Sign cs rand input hash) as [[raw|e] rand'] eqn:Es; [|do 2 eexists; split; [reflexivity|apply sig_ok_err]].
  specialize (Hlaw _ _ _ _ _ Es). clearbody alg. destruct pub as [E N|p Y|c X Y|key| | |]; try done.
  - assert (t = go "ssh-rsa") as -> by (by injection Ht as <-). destruct Hlaw as [Hl Hv]. do 2 eexists. split; [reflexivity|]. intros sig <-%Ok_inj.
    show_Verify. split; [done|]. split; [done|]. rewrite Ec, Eh. cbn [negb if_ok].
    assert (input = digest hash data) as <-.
    { apply contains_spec in Ec. unfold input. change (algorithmsForKeyFormat (go "ssh-rsa")) with [KeyAlgoRSASHA256; KeyAlgoRSASHA512; KeyAlgoRSA] in Ec.
      repeat (apply elem_of_cons in Ec as [->|Ec]; [injection Eh as <-; done|]). by apply not_elem_of_nil in Ec. }
    unfold pad_signature. by rewrite Hl, Z.ltb_irrefl, Hv.
  - assert (t = go "ssh-dss") as -> by (by injection Ht as <-). destruct Hlaw as (R & s & -> & HR & Hs & Hv).
    apply contains_spec in Ec. apply elem_of_cons in Ec as [->|Ec]; [|by apply not_elem_of_nil in Ec]. injection Eh as <-.
    destruct (dsa_blob_verifies p Y R s data input SHA1) as (blob & -> & Hk); [done..|]. cbn [mbind option_bind].
    do 2 eexists. split; [reflexivity|]. by intros sig <-%Ok_inj.
  - assert (t = go "ecdsa-sha2-" ++ nistID c) as -> by (by injection Ht as <-). destruct Hlaw as (R & s & -> & HR & Hs & Hv).
    assert (alg = go "ecdsa-sha2-" ++ nistID c) as ->.
    { apply contains_spec in Ec. destruct c; (apply elem_of_cons in Ec as [->|Ec]; [done|by apply not_elem_of_nil in Ec]). }
    do 2 eexists. split; [reflexivity|]. intros sig <-%Ok_inj. show_Verify.
    split; [done|]. split; [done|]. rewrite gos_eqb_refl, Eh. cbn [negb if_ok].
    rewrite ecSig_reads_back by done. cbn [if_ok].
    assert (input = digest hash data) as <- by (unfold input; destruct c; injection Eh as <-; done). by rewrite Hv.
  - assert (t = KeyAlgoED25519) as -> by (by injection Ht as <-). apply contains_spec in Ec. apply elem_of_cons in Ec as [->|Ec]; [|by apply not_elem_of_nil in Ec].
    injection Eh as <-. do 2 eexists. split; [reflexivity|]. intros sig <-%Ok_inj. show_Verify.
    split; [done|]. split; [done|]. cbn in Hwf. rewrite gos_eqb_refl, (proj2 (Z.eqb_eq _ _) Hwf). cbn [negb].
    specialize (Hlaw eq_refl). unfold input in Hlaw. by rewrite Hlaw.
Qed.

Lemma dsa_signs k : dsa_law k -> forall rand data algo, exists r rand',
  dsa_SignWithAlgorithm k rand data algo = Some (r, rand') /\
  sig_ok (dsaPublicKey (dp_param k) (dp_Y k)) data (if algo =s [] then go "ssh-dss" else algo) r.
Proof.
  intros Hlaw rand data algo. unfold dsa_SignWithAlgorithm.
  destruct (negb (algo =s []) && negb (algo =s go "ssh-dss")) eqn:Ea; [do 2 eexists; split; [reflexivity|apply sig_ok_err]|].
  change (hashFunc (go "ssh-dss")) with (Ok SHA1 : res Hash). cbv iota.
  destruct (dp_Sign k rand (digest SHA1 data)) as [[[R s]|e] rand'] eqn:Es; [|do 2 eexists; split; [reflexivity|apply sig_ok_err]].
  destruct (Hlaw _ _ _ _ _ Es) as (HR & Hs & Hv).
  destruct (dsa_blob_verifies _ _ R s data (digest SHA1 data) SHA1 HR Hs Hv) as (blob & -> & Hk); [done..|]. cbn [mbind option_bind].
  do 2 eexists. split; [reflexivity|]. intros sig <-%Ok_inj. split; [|done]. cbn [sig_Format].
  destruct (algo =s []) eqn:E0; [done|]. cbn in Ea. bool_simp. done.
Qed.

Context `{!KexLaws}.

(** A plain key and a key that are marshalled alike are equal. *)
Lemma key_Marshal_inj k k' s :
  wf_plain k -> wf_key k' -> len s < 2 ^ 32 -> key_Marshal k = Some s -> key_Marshal k' = Some s -> k = k'.
Proof.
  intros Hk Hk' Hl Hm Hm'.
  assert (Hread : forall x, wf_plain x -> key_Marshal x = Some s -> ParsePublicKey s = Some (Ok x)).
  { intros x Hx Hxm. destruct (key_reads_back x) as (s' & Hs' & Hp); [by destruct x|]. rewrite Hxm in Hs'. injection Hs' as <-.
    apply Hp; [by destruct x|done]. }
  destruct (marshal_type k s) as (t & r & Ht & Hs); [by destruct k|done..|].
  destruct (marshal_type k' s) as (t' & r' & Ht' & Hs'); [done..|]. rewrite Hs in Hs'. injection Hs' as <- <-.
  destruct (plain_reads_back k Hk) as (t0 & _ & Ht0 & _ & Hn & _). rewrite Ht in Ht0. injection Ht0 as <-.
  assert (wf_plain k') as Hpk'.
  { destruct k'; try done. destruct (plain_type _ (proj1 Hk')) as (t1 & ct & Ht1 & Hct & Hc & _). cbn [key_Type] in Ht'.
    rewrite Ht1 in Ht'. cbn in Ht'. rewrite Hct in Ht'. injection Ht' as ->.
    apply certAlgos_plain in Hc as (? & Hc & _). congruence. }
  pose proof (Hread _ Hk Hm) as E. rewrite (Hread _ Hpk' Hm') in E. by injection E.
Qed.

(** What is true of every good signer; [small] bounds the marshalled key. *)
Definition signer_inv (g : goSigner) : Prop :=
  let pub := signer_PublicKey g in
  wf_key pub /\ (exists l, Algorithms g = Some l) /\ exists t, key_Type (plain_of pub) = Some t /\ signs_with (plain_of pub) t g.

Lemma wf_plain_of k : wf_key k -> wf_plain (plain_of k).
Proof. destruct k; [done..|]. by intros (? & _). Qed.
Lemma plain_key k : wf_plain k -> wf_key k /\ plain_of k = k.
Proof. by destruct k. Qed.
Lemma wf_key_type k : wf_key k -> exists t, key_Type k = Some t.
Proof.
  intros Hk. destruct (plain_type _ (wf_plain_of _ Hk)) as (t & ct & Ht & Hct & _).
  destruct k; try (by eexists). cbn [key_Type plain_of] in *. rewrite Ht. cbn. eauto.
Qed.

Lemma inv_wrapped cs pub : signer_law cs pub -> wf_plain pub -> signer_inv (wrappedSigner cs pub).
Proof.
  intros Hlaw Hwf. destruct (plain_key _ Hwf) as [Hk Hp]. split; [done|]. split; [by eexists|].
  cbn [signer_PublicKey]. rewrite Hp. destruct (wrapped_signs cs pub Hlaw Hwf) as (t & Ht & Hs). exists t. split; [done|].
  split; [exact Hs|]. intros rand data. cbn [signer_Sign]. rewrite Ht. cbn [mbind option_bind].
  destruct (Hs rand data t) as (r & rand' & -> & Hr). do 2 eexists. split; [done|]. by destruct (t =s []).
Qed.

Lemma inv_dsa k : dsa_law k -> wf_plain (dsaPublicKey (dp_param k) (dp_Y k)) -> signer_inv (dsaPrivateKey k).
Proof.
  intros Hlaw Hwf. split; [done|]. split; [by eexists|]. exists (go "ssh-dss"). split; [done|].
  split; [exact (dsa_signs k Hlaw)|]. intros rand data. exact (dsa_signs k Hlaw rand data (go "ssh-dss")).
Qed.

Lemma restricted_signs k t g l :
  wf_key (signer_PublicKey g) -> signs_with k t g -> signs_with k t (restrictedSigner g l).
Proof.
  intros Hwf [Hs Hsign]. split; [|exact Hsign]. intros rand data algo. cbn [signWithAlgorithm].
  destruct (wf_key_type _ Hwf) as (t' & Ht').
  assert (Hty : exists ty, (if algo =s [] then key_Type (signer_PublicKey g) else Some []) = Some ty)
    by (destruct (algo =s []); eauto).
  destruct Hty as (ty & ->). cbn [mbind option_bind].
  destruct (isAlgorithmSupported l ty algo); cbn [negb]; [apply Hs|]. do 2 eexists. split; [reflexivity|apply sig_ok_err].
Qed.

Lemma inv_restricted g l : signer_inv g -> signer_inv (restrictedSigner g l).
Proof.
  intros (Hwf & _ & t & Ht & Hs). split; [done|]. split; [by eexists|]. exists t. split; [done|]. by apply restricted_signs.
Qed.

Lemma inv_cert g c l :
  signer_inv g -> wf_cert c -> cert_Key c = signer_PublicKey g ->
  signer_inv (restrictedSigner (algorithmOpenSSHCertSigner c g) l).
Proof.
  intros (Hwf & _ & t & Ht & Hs) Hc Hk. destruct (plain_key (cert_Key c)) as [_ Hp]; [apply Hc|].
  rewrite <- Hk, Hp in *. split; [done|]. split; [by eexists|]. exists t. split; [done|]. by apply restricted_signs.
Qed.

Lemma inv_good g : good_signer g -> signer_inv g.
Proof.
  induction 1 as [cs g pub Hlaw Hwf Hp Hg|k g Hlaw Hwf Hg|g l g' Hg IH Hn|g c g' Hg IH Hc Hsmall Hn].
  - unfold NewSignerFromSigner in Hg. rewrite Hp in Hg. injection Hg as <-. by apply inv_wrapped.
  - unfold newDSAPrivateKey in Hg. destruct (checkDSAParams _); [done|]. injection Hg as <-. by apply inv_dsa.
  - unfold NewSignerWithAlgorithms in Hn. destruct l as [|a l]; [done|]. destruct (key_Type _) as [ty|]; [|done].
    destruct (check_algorithms _ _ _ _); [done|]. injection Hn as <-. by apply inv_restricted.
  - unfold NewCertSigner in Hn. destruct (key_Marshal (cert_Key c)) as [a|] eqn:Ea; [|done].
    destruct (key_Marshal (signer_PublicKey g)) as [b|] eqn:Eb; [|done]. destruct (a =s b) eqn:E; [|done]. bool_simp. subst b.
    destruct (proj1 (proj2 IH)) as (l & Hl). cbn [negb] in Hn. rewrite Hl in Hn. injection Hn as <-.
    apply inv_cert; [done|done|]. eapply key_Marshal_inj; [apply Hc|apply IH|by apply Hsmall|exact Ea|exact Eb].
Qed.

Lemma key_Verify_plain k data sig : key_Verify k data sig = key_Verify (plain_of k) data sig.
Proof. by destruct k. Qed.

(** The algorithm behind the type of a key is the type of its plain key. *)
Lemma underlying_plain k t : wf_plain k -> key_Type k = Some t -> underlyingAlgo t = t /\ (underlyingAlgo <$> certificateAlgo t) = Some t.
Proof. destruct k as [| |[]| | | |]; [..|done]; intros _ [= <-]; split; reflexivity. Qed.
Lemma underlying_type k : wf_key k -> exists ty, key_Type k = Some ty /\ key_Type (plain_of k) = Some (underlyingAlgo ty).
Proof.
  intros Hk. destruct (plain_type _ (wf_plain_of _ Hk)) as (t & ct & Ht & Hct & Hc & _).
  destruct (underlying_plain _ _ (wf_plain_of _ Hk) Ht) as [Hu Huc].
  destruct k; try (exists t; split; [done|]; by rewrite Hu). cbn [plain_of key_Type] in *. rewrite Ht. cbn [mbind option_bind].
  rewrite Hct in *. exists ct. split; [done|]. change (Some (underlyingAlgo ct) = Some t) in Huc. by rewrite Huc.
Qed.

Lemma good_shape g : good_signer g ->
  match g with wrappedSigner _ pub => wf_plain pub | dsaPrivateKey _ | restrictedSigner _ _ => True | _ => False end.
Proof.
  intros [cs g' pub _ Hpl Hnp Hn|k g' _ _ Hn|g1 l g' _ Hn|g1 c g' Hg _ _ Hn].
  - unfold NewSignerFromSigner in Hn. rewrite Hnp in Hn. by injection Hn as <-.
  - unfold newDSAPrivateKey in Hn. destruct (checkDSAParams _); [done|]. by injection Hn as <-.
  - unfold NewSignerWithAlgorithms in Hn. destruct l; [done|]. destruct (key_Type _); [|done].
    destruct (check_algorithms _ _ _ _); [done|]. by injection Hn as <-.
  - unfold NewCertSigner in Hn. destruct (key_Marshal _); [|done]. destruct (key_Marshal _); [|done]. destruct (negb _); [done|].
    destruct (inv_good _ Hg) as (_ & (algos & Hl) & _). rewrite Hl in Hn. by injection Hn as <-.
Qed.

(** A signer uses only algorithms it announces. *)
Lemma announced g l rand data algo sig rand' :
  good_signer g -> Algorithms g = Some l -> signWithAlgorithm g rand data algo = Some (Ok sig, rand') -> sig_Format sig ∈ l.
Proof.
  intros Hg Hl Hs. destruct (inv_good _ Hg) as (Hwf & _ & t & Ht & Hsw & _).
  destruct (Hsw rand data algo) as (r & rand1 & Hr & Hok). rewrite Hs in Hr. injection Hr as <- <-.
  destruct (Hok _ eq_refl) as (Hf & _ & _). rewrite Hf. clear Hf Hok.
  destruct g as [cs pub|k|g l'|c g|c g| |g]; [| | |done|done|destruct (good_shape _ Hg)|destruct (good_shape _ Hg)].
  - cbn in Hl, Ht, Hwf. injection Hl as <-. cbn [signWithAlgorithm] in Hs. unfold wrapped_SignWithAlgorithm in Hs.
    destruct (plain_key pub) as [_ Hp]; [exact (good_shape _ Hg)|].
    rewrite Hp in Ht. rewrite Ht in Hs |- *. cbn [mbind option_bind default] in Hs |- *.
    destruct (contains (algorithmsForKeyFormat t) (if algo =s [] then t else algo)) eqn:E; [|done]. by apply contains_spec.
  - cbn in Hl, Ht. injection Hl as <-. injection Ht as <-. cbn [signWithAlgorithm] in Hs. unfold dsa_SignWithAlgorithm in Hs.
    destruct (algo =s []) eqn:E0; [apply list_elem_of_singleton; done|]. destruct (algo =s go "ssh-dss") eqn:E1; [|done]. bool_simp. subst.
    by apply list_elem_of_singleton.
  - cbn in Hl, Ht, Hwf. injection Hl as <-. cbn [signWithAlgorithm] in Hs. destruct (underlying_type _ Hwf) as (ty & Hty & Hty').
    rewrite Ht in Hty'. injection Hty' as ->. rewrite Hty in Hs.
    destruct (algo =s []) eqn:E0; cbn [mbind option_bind] in Hs; unfold isAlgorithmSupported in Hs; rewrite E0 in Hs;
      (destruct (contains _ _) eqn:Ec; [|done]); by apply contains_spec.
Qed.

(** ** Host keys *)

(** A signer as the handshake sees it; signing with a good signer does not panic. *)
Definition or_error {A} (x : signing A) (rand : Source) : result packet_error A * Source :=
  default (Err (newError (go "panic")), rand) x.
Definition host_signer (g : goSigner) : Signer :=
  let pub := signer_PublicKey g in
  mkHostKey
    (match Algorithms g with
     | Some l => multiAlgorithmSigner l
     | None => if isAlgorithmSigner g then algorithmSigner else plainSigner
     end)
    (default [] (key_Type pub)) (default [] (key_Marshal pub))
    (fun rand data => or_error (signer_Sign g rand data) rand)
    (fun rand data algorithm => or_error (signWithAlgorithm g rand data algorithm) rand).

Lemma pickHostKey_own k algo : algo ∈ hostKey_algos k ->
  pickHostKey [k] algo = Some (if algo =s sg_Type k then algorithmSignerWrapper k else as_AlgorithmSigner k).
Proof.
  unfold hostKey_algos. cbn [pickHostKey]. destruct (sg_kind k) as [| |l] eqn:Ek; intros Hin.
  - apply list_elem_of_singleton in Hin as ->. by rewrite gos_eqb_refl.
  - apply contains_spec in Hin. rewrite Hin. cbn [negb]. by destruct (algo =s sg_Type k).
  - apply list_elem_of_In, filter_In in Hin as [Hin Hu]. rewrite Hu. cbn [negb]. apply list_elem_of_In, contains_spec in Hin.
    rewrite Hin. by destruct (algo =s sg_Type k).
Qed.

(** The algorithm behind one that a key format stands for is not the empty string. *)
Lemma underlying_ne ty algo : algo ∈ algorithmsForKeyFormat ty -> ty <> [] -> underlyingAlgo algo <> [].
Proof.
  intros Hin Hty. assert (algo <> []) as Hne.
  { unfold algorithmsForKeyFormat in Hin. destruct (ty =s KeyAlgoRSA); [|destruct (ty =s CertAlgoRSAv01)];
      repeat (apply elem_of_cons in Hin as [->|Hin]; [done|]); by apply not_elem_of_nil in Hin. }
  unfold underlyingAlgo. destruct (assoc certKeyAlgoNames algo) as [a|] eqn:E; [|done]. cbn [default].
  revert E. unfold certKeyAlgoNames. cbn [assoc].
  repeat (destruct (_ =s _); [by intros [= <-]|]). done.
Qed.

Lemma key_type_ne k t : wf_key k -> key_Type k = Some t -> t <> [].
Proof.
  intros Hk Ht. destruct (underlying_type _ Hk) as (ty & Hty & Hp). rewrite Ht in Hty. injection Hty as <-. intros ->.
  destruct (plain_type _ (wf_plain_of _ Hk)) as (t & ct & Ht1 & Hct & _). rewrite Hp in Ht1. by injection Ht1 as <-.
Qed.

Lemma host_key_trusted cc g algo :
  good_signer g -> small_key (signer_PublicKey g) ->
  (forall s, key_Marshal (signer_PublicKey g) = Some s -> len s < 2 ^ 32) ->
  @hc_hostKeyCallback go_keylib cc (@hc_dialAddress go_keylib cc) (@hc_remoteAddr go_keylib cc) (signer_PublicKey g) = None ->
  algo ∈ hostKey_algos (host_signer g) ->
  exists priv, pickHostKey [host_signer g] algo = Some priv /\ @trusted go_keylib cc priv algo.
Proof.
  intros Hg Hsmall Hlen Hcb Hin. rewrite (pickHostKey_own _ _ Hin). eexists. split; [done|].
  destruct (inv_good _ Hg) as (Hwf & (l & Hl) & t & Ht & Hsw & Hsign). destruct (underlying_type _ Hwf) as (ty & Hty & Hty').
  rewrite Ht in Hty'. injection Hty' as ->. destruct (key_reads_back _ Hwf) as (s & Hs & Hparse).
  exists (signer_PublicKey g). split; [|split; [exact Hcb|]].
  { assert (E : SshAuth.ParsePublicKey (KeyLib := go_keylib) s = Ok (signer_PublicKey g)) by (cbn; by rewrite Hparse by auto).
    destruct (algo =s _); cbn [PublicKey_Marshal algorithmSignerWrapper as_AlgorithmSigner host_signer sg_Marshal]; by rewrite Hs. }
  assert (Hty0 : sg_Type (host_signer g) = ty) by (cbn; by rewrite Hty).
  intros rand data sig rand' Hsig.
  assert (sig_ok (plain_of (signer_PublicKey g)) data (underlyingAlgo algo) (Ok sig)) as Hok.
  { destruct (algo =s sg_Type (host_signer g)) eqn:Ea.
    - bool_simp. rewrite Hty0 in Ea. subst algo. cbn [SignWithAlgorithm algorithmSignerWrapper] in Hsig. rewrite Hty0, gos_eqb_refl in Hsig.
      destruct (Hsign rand data) as (r & rand1 & Hr & Hok). cbn [negb host_signer sg_Sign] in Hsig. rewrite Hr in Hsig. by injection Hsig as -> ->.
    - destruct (Hsw rand data (underlyingAlgo algo)) as (r & rand1 & Hr & Hok).
      cbn [SignWithAlgorithm as_AlgorithmSigner host_signer sg_SignWithAlgorithm] in Hsig. rewrite Hr in Hsig. injection Hsig as -> ->.
      rewrite (proj2 (gos_eqb_neq _ _)) in Hok; [done|]. apply (underlying_ne ty); [|intros ->; by destruct (key_type_ne _ _ Hwf Hty)].
      unfold hostKey_algos in Hin. cbn [host_signer sg_kind sg_Type] in Hin. rewrite Hl, Hty in Hin. cbn [default] in Hin.
      apply list_elem_of_In, filter_In in Hin as [Hin _]. by apply list_elem_of_In. }
  destruct (Hok _ eq_refl) as (Hf & Hr & Hv). split; [done|]. split; [done|]. cbn. by rewrite key_Verify_plain.
Qed.

(** ** Theorems *)

(** C23. A signer made by the constructors of the package from a [crypto.Signer] that keeps
    its contract, restricted to some algorithms or put behind a certificate any number of
    times, never panics; every signature it makes is in an algorithm it announces and in
    the one asked for, and its public key verifies it.  As a host key it is picked for
    every algorithm it offers, and a client whose callback accepts its public key trusts
    it: it parses the key and verifies every signature made for the negotiated algorithm. *)
Theorem good_signer_verifies g :
  good_signer g ->
  exists l, Algorithms g = Some l /\
    (forall rand data algo, exists r rand', signWithAlgorithm g rand data algo = Some (r, rand') /\
       forall sig, r = Ok sig -> sig_Format sig ∈ l /\ (algo <> [] -> sig_Format sig = algo) /\ sig_Rest sig = [] /\
         key_Verify (signer_PublicKey g) data sig = None) /\
    (forall cc algo, small_key (signer_PublicKey g) ->
       (forall s, key_Marshal (signer_PublicKey g) = Some s -> len s < 2 ^ 32) ->
       @hc_hostKeyCallback go_keylib cc (@hc_dialAddress go_keylib cc) (@hc_remoteAddr go_keylib cc) (signer_PublicKey g) = None ->
       algo ∈ hostKey_algos (host_signer g) ->
       exists priv, pickHostKey [host_signer g] algo = Some priv /\ @trusted go_keylib cc priv algo).
Proof.
  intros Hg. destruct (inv_good _ Hg) as (Hwf & (l & Hl) & t & Ht & Hsw & _). exists l. split; [done|]. split.
  - intros rand data algo. destruct (Hsw rand data algo) as (r & rand' & Hr & Hok). exists r, rand'. split; [done|].
    intros sig ->. destruct (Hok _ eq_refl) as (Hf & Hrest & Hv). split; [by eapply announced|].
    split; [|by rewrite key_Verify_plain]. intros Hne. by rewrite Hf, (proj2 (gos_eqb_neq _ _) Hne).
  - intros cc algo Hsmall Hlen Hcb Hin. by apply host_key_trusted.
Qed.
End Signers.

(** ** Instances of the theorems *)
#[export] Instance sample_siglib : SigLib := {|
  VerifyPKCS1v15 _ _ _ d s := if HasSuffix s (take 4 d) then None else Some (go "crypto/rsa: verification error");
  dsa_Verify _ _ d r s := r =? be_value (take 4 d);
  ecdsa_Verify _ _ _ d r s := r =? be_value (take 4 d);
  ed25519_Verify key m s := s =s take 4 m |}.
#[export] Instance sample_asn1 : ASN1 := {| asn1_pair raw := Ok (be_value raw, 1) |}.

Definition sample_edkey : gostring := repeat "k"%char 32.
Definition sample_crypto_signer : cryptoSigner :=
  mkCryptoSigner (ed25519_PublicKey sample_edkey) (fun rand input _ => (Ok (take 4 input), rand)).
Definition sample_go_signer : goSigner :=
  restrictedSigner (wrappedSigner sample_crypto_signer (ed25519PublicKey sample_edkey)) [KeyAlgoED25519].

Lemma sample_good : @good_signer sample_kexlib ascii_tables sample_asn1 sample_siglib sample_go_signer.
Proof.
  apply (good_restricted (wrappedSigner sample_crypto_signer (ed25519PublicKey sample_edkey)) [KeyAlgoED25519]); [|reflexivity].
  apply (good_wrapped sample_crypto_signer _ (ed25519PublicKey sample_edkey)); [|reflexivity..].
  intros rand input hash raw rand' [= <- <-] _. apply gos_eqb_refl.
Qed.

Lemma good_signer_verifies_witness :
  exists l, Algorithms sample_go_signer = Some l /\ KeyAlgoED25519 ∈ l.
Proof.
  destruct (@good_signer_verifies sample_crypto sample_kexlib ascii_tables sample_asn1 sample_siglib sample_kexlaws
              sample_go_signer sample_good) as (l & Hl & Hs & _).
  exists l. split; [exact Hl|]. destruct (Hs (sample_rand "ab") (go "data") KeyAlgoED25519) as (r & rand' & Hr & Hok).
  vm_compute in Hr. injection Hr as <- <-. exact (proj1 (Hok _ eq_refl)).
Defined.
