(* ===== verification/SshCerts.v ===== *)
(** * Certificates: [CertChecker] and [SignCert] of [third/ssh/certs.go].

    The callbacks of a [CertChecker] are functions, nil ones [None]; [range] lists the
    critical options in the order the loop over the map takes them.  The outcome is an
    [option]: [None] is a panic, [Some None] a nil error.  [SignCert] works in place, so it
    returns the certificate it leaves, also when it fails.

    Proved: which certificates are accepted, exactly, with the times as the unsigned
    numbers they are; a certificate signed by a good signer verifies and is otherwise
    judged by its contents; a user-presence requirement is waived exactly where it is. *)
From Stdlib Require Import Ascii String ZArith Lia.
From stdpp Require Import base gmap strings list.
From S2P Require Import Prelude GoStrings SshWire SshMessages SshAlgos GoCrypto GoIO SshCipher SshAuth KexLib SshKex SshHandshake SshKeys GoNet SshSigners.
Local Open Scope Z_scope.

Definition UserCert : Z := 1.
Definition HostCert : Z := 2.
Definition CertTimeInfinity : Z := 2 ^ 64 - 1.
Definition sourceAddressCriticalOption : gostring := go "source-address".

(** [int64(z)] of a [uint64]. *)
Definition int64_of (z : Z) : Z := if z <? 2 ^ 63 then z else z - 2 ^ 64.

Record CertChecker (W Perm : Type) := mkChecker {
  cc_SupportedCriticalOptions : list gostring;
  cc_IsUserAuthority : option (option PublicKey -> bool);          (** a nil key is [None] *)
  cc_IsHostAuthority : option (option PublicKey -> gostring -> bool);
  cc_Clock : Z;                                     (** [clock().Unix()] *)
  cc_UserKeyFallback : option (W -> PublicKey -> result error Perm);
  cc_HostKeyFallback : option (gostring -> net_addr -> PublicKey -> option error);
  cc_IsRevoked : option (Certificate -> bool) }.
Arguments mkChecker {W Perm}.
Arguments cc_SupportedCriticalOptions {W Perm}.
Arguments cc_IsUserAuthority {W Perm}.
Arguments cc_IsHostAuthority {W Perm}.
Arguments cc_Clock {W Perm}.
Arguments cc_UserKeyFallback {W Perm}.
Arguments cc_HostKeyFallback {W Perm}.
Arguments cc_IsRevoked {W Perm}.

Section Certs.
Context `{CryptoLib, KexLib, UnicodeTables, SigLib}.

Definition with_Signature (c : Certificate) (s : option Signature) : Certificate :=
  mkCertificate (cert_Nonce c) (cert_Key c) (cert_Serial c) (cert_CertType c) (cert_KeyId c) (cert_ValidPrincipals c)
    (cert_ValidAfter c) (cert_ValidBefore c) (cert_CriticalOptions c) (cert_Extensions c) (cert_Reserved c) (cert_SignatureKey c) s.

(** The marshalled certificate without its signature and without the signature's length. *)
Definition bytesForSigning (c : Certificate) : option gostring :=
  out ← key_Marshal (certificate (with_Signature c None)); Some (take (length out - 4) out).

Section Checker.
Context {W Perm : Type} (c : CertChecker W Perm) (range : gmap gostring gostring -> list gostring).

Fixpoint unsupported_option (opts : list gostring) : option gostring :=
  match opts with
  | [] => None
  | opt :: opts =>
      if opt =s sourceAddressCriticalOption then unsupported_option opts
      else if contains (cc_SupportedCriticalOptions c) opt then unsupported_option opts
      else Some opt
  end.

Definition CheckCert (principal : gostring) (cert : Certificate) : option (option error) :=
  if match cc_IsRevoked c with Some f => f cert | None => false end
  then Some (Some (errors_New (go "ssh: certificate serial " ++ Itoa (cert_Serial cert) ++ go " revoked")))
  else match unsupported_option (range (cert_CriticalOptions cert)) with
       | Some opt => Some (Some (errors_New (go "ssh: unsupported critical option " ++ Quote opt ++ go " in certificate")))
       | None =>
           if (0 <? len (cert_ValidPrincipals cert)) && negb (contains (cert_ValidPrincipals cert) principal)
           then Some (Some (errors_New (go "ssh: principal " ++ Quote principal ++
                  go " not in the set of valid principals for given certificate: [" ++
                  Join (map Quote (cert_ValidPrincipals cert)) (go " ") ++ go "]")))
           else
             let unixNow := cc_Clock c in
             let after := int64_of (cert_ValidAfter cert) in
             let before := int64_of (cert_ValidBefore cert) in
             if (after <? 0) || (unixNow <? after) then Some (Some (errors_New (go "ssh: cert is not yet valid")))
             else if negb (cert_ValidBefore cert =? CertTimeInfinity) && ((before <=? unixNow) || (before <? 0))
             then Some (Some (errors_New (go "ssh: cert has expired")))
             else
               signatureKey ← cert_SignatureKey cert;
               data ← bytesForSigning cert;
               sig ← cert_Signature cert;
               Some (match key_Verify (skKeyWithoutUP signatureKey) data sig with
                     | Some _ => Some (errors_New (go "ssh: certificate signature does not verify"))
                     | None => None
                     end)
       end.

Definition CheckHostKey (addr : gostring) (remote : net_addr) (key : PublicKey) : option (option error) :=
  match key with
  | certificate cert =>
      if negb (cert_CertType cert =? HostCert)
      then Some (Some (errors_New (go "ssh: certificate presented as a host key has type " ++ Itoa (cert_CertType cert))))
      else match cc_IsHostAuthority c with
           | None => Some (Some (errors_New (go "ssh: cannot verify certificate, IsHostAuthority not set")))
           | Some f =>
               if negb (f (cert_SignatureKey cert) addr) then Some (Some (errors_New (go "ssh: no authorities for hostname: " ++ addr)))
               else match SplitHostPort addr with
                    | Err e => Some (Some e)
                    | Ok (hostname, _) => CheckCert hostname cert
                    end
           end
  | _ => match cc_HostKeyFallback c with
         | Some f => Some (f addr remote key)
         | None => Some (Some (errors_New (go "ssh: non-certificate host key")))
         end
  end.

(** [Authenticate]: the permissions are those of the certificate. *)
Definition Authenticate (permissions : Certificate -> Perm) (conn : W) (user : gostring) (pubKey : PublicKey) : option (result error Perm) :=
  match pubKey with
  | certificate cert =>
      if negb (cert_CertType cert =? UserCert) then Some (Err (errors_New (go "ssh: cert has type " ++ Itoa (cert_CertType cert))))
      else match cc_IsUserAuthority c with
           | None => Some (Err (errors_New (go "ssh: cannot verify certificate, IsUserAuthority not set")))
           | Some f =>
               if negb (f (cert_SignatureKey cert)) then Some (Err (errors_New (go "ssh: certificate signed by unrecognized authority")))
               else
                 r ← CheckCert user cert;
                 Some (match r with Some e => Err e | None => Ok (permissions cert) end)
           end
  | _ => match cc_UserKeyFallback c with
         | Some f => Some (f conn pubKey)
         | None => Some (Err (errors_New (go "ssh: normal key pairs not accepted")))
         end
  end.
End Checker.

(** ** SignCert *)
Context `{ASN1}.
Definition with_authority (c : Certificate) (nonce : gostring) (k : option PublicKey) (s : option Signature) : Certificate :=
  mkCertificate nonce (cert_Key c) (cert_Serial c) (cert_CertType c) (cert_KeyId c) (cert_ValidPrincipals c)
    (cert_ValidAfter c) (cert_ValidBefore c) (cert_CriticalOptions c) (cert_Extensions c) (cert_Reserved c) k s.

(** How the authority signs: its first algorithm, [rsa-sha2-512] for an RSA key, or [Sign]. *)
Definition authority_Sign (authority : goSigner) (rand : Source) (data : gostring) : signing Signature :=
  match Algorithms authority with
  | Some [] => sign_error (go "the provided authority has no signature algorithm") rand
  | Some (a :: _) => signWithAlgorithm authority rand data a
  | None =>
      type ← key_Type (signer_PublicKey authority);
      if isAlgorithmSigner authority && (type =s KeyAlgoRSA) then signWithAlgorithm authority rand data KeyAlgoRSASHA512
      else signer_Sign authority rand data
  end.

Definition SignCert (c : Certificate) (rand : Source) (authority : goSigner) : option (option packet_error * Certificate * Source) :=
  let unread := take 32 (avail rand ++ repeat chNUL 32) in
  match read_full rand 32 with
  | (Err e, rand) => Some (Some (ioError e), with_authority c unread (cert_SignatureKey c) (cert_Signature c), rand)
  | (Ok nonce, rand) =>
      type ← key_Type (signer_PublicKey authority);
      match assoc certKeyAlgoNames type with
      | Some _ =>
          Some (Some (newError (go "ssh: certificates cannot be used as authority (public key type " ++ Quote type ++ go ")")),
                with_authority c nonce (cert_SignatureKey c) (cert_Signature c), rand)
      | None =>
          let c := with_authority c nonce (Some (signer_PublicKey authority)) (cert_Signature c) in
          data ← bytesForSigning c;
          '(r, rand) ← authority_Sign authority rand data;
          Some (match r with Err e => (Some e, c, rand) | Ok sig => (None, with_Signature c (Some sig), rand) end)
      end
  end.

(** ** What is signed *)
Context `{!KexLaws}.

Lemma generic_signature c sk :
  exists g, generic_of (with_Signature c None) sk = g ++ string_bytes [] /\
    forall sig, generic_of (with_Signature c (Some sig)) sk = g ++ string_bytes (MarshalMsg sig).
Proof.
  eexists. split; [|intros sig]; unfold generic_of;
    match goal with |- Marshal genericCertData ?v = _ => change (Marshal genericCertData v) with (marshal_fields (st_fields genericCertData) v) end;
    cbn [genericCertData st_fields marshal_fields marshal_field fst snd cert_Signature with_Signature cert_Serial cert_CertType cert_KeyId
      cert_ValidPrincipals cert_ValidAfter cert_ValidBefore cert_CriticalOptions cert_Extensions cert_Reserved];
    rewrite app_nil_r; unfold string_bytes; rewrite !app_assoc; reflexivity.
Qed.

(** The keys of a certificate before it is signed. *)
Definition wf_unsigned (c : Certificate) : Prop := wf_plain (cert_Key c) /\ exists k, cert_SignatureKey c = Some k /\ wf_plain k.

Lemma bytesForSigning_spec c :
  wf_unsigned c ->
  exists data, bytesForSigning c = Some data /\
    forall sig, key_Marshal (certificate (with_Signature c (Some sig))) = Some (data ++ string_bytes (MarshalMsg sig)).
Proof.
  intros (Hk & sk & Hsk & Hskwf). destruct (plain_reads_back _ Hk) as (t & body & Ht & HM & _).
  destruct (plain_reads_back _ Hskwf) as (ts & sbody & _ & HMs & _). destruct (plain_type _ Hk) as (t' & ct & Ht' & Hct & _).
  rewrite Ht in Ht'. injection Ht' as <-.
  destruct (generic_signature c (string_bytes ts ++ sbody)) as (g & Hg0 & Hg).
  unfold bytesForSigning. cbn [key_Marshal key_Type cert_SignatureKey cert_Key cert_Nonce with_Signature].
  rewrite Hsk, HMs, HM, Ht. cbn [mbind option_bind]. rewrite Hct. cbn [mbind option_bind].
  eexists. split; [done|]. intros sig. f_equal. rewrite Hg0, Hg. generalize (Marshal cert_prefix
    (ct, (cert_Nonce c, (match parseString (string_bytes t ++ body) with Some (_, rest) => rest | None => [] end, tt)))).
  intros pre. rewrite !app_assoc. f_equal. rewrite length_app. change (length (string_bytes [])) with 4%nat.
  rewrite Nat.add_sub. by rewrite take_app_length.
Qed.

(** ** What is accepted *)
Section Accept.
Context {W Perm : Type} (c : CertChecker W Perm) (range : gmap gostring gostring -> list gostring).

Lemma unsupported_option_spec opts :
  unsupported_option c opts = None <->
  Forall (fun opt => opt = sourceAddressCriticalOption \/ opt ∈ cc_SupportedCriticalOptions c) opts.
Proof.
  induction opts as [|opt opts IH]; [done|]. cbn [unsupported_option]. rewrite Forall_cons, <- IH, <- contains_spec.
  destruct (opt =s sourceAddressCriticalOption) eqn:E; bool_simp; [by subst; tauto|].
  destruct (contains _ opt); [by tauto|]. split; [done|]. intros [[?|?] _]; done.
Qed.

(** The conditions on the contents of a certificate. *)
Definition acceptable (principal : gostring) (cert : Certificate) : Prop :=
  match cc_IsRevoked c with Some f => f cert = false | None => True end /\
  (forall opt, is_Some (cert_CriticalOptions cert !! opt) -> opt = sourceAddressCriticalOption \/ opt ∈ cc_SupportedCriticalOptions c) /\
  (cert_ValidPrincipals cert = [] \/ principal ∈ cert_ValidPrincipals cert) /\
  cert_ValidAfter cert <= cc_Clock c /\
  (cert_ValidBefore cert = CertTimeInfinity \/ cc_Clock c < cert_ValidBefore cert < 2 ^ 63).
Definition verified (cert : Certificate) : Prop :=
  exists k data sig, cert_SignatureKey cert = Some k /\ bytesForSigning cert = Some data /\ cert_Signature cert = Some sig /\
    key_Verify (skKeyWithoutUP k) data sig = None.

Lemma range_options (cert : Certificate) :
  (forall m, range m ≡ₚ map fst (map_to_list m)) ->
  Forall (fun opt => opt = sourceAddressCriticalOption \/ opt ∈ cc_SupportedCriticalOptions c) (range (cert_CriticalOptions cert)) <->
  (forall opt, is_Some (cert_CriticalOptions cert !! opt) -> opt = sourceAddressCriticalOption \/ opt ∈ cc_SupportedCriticalOptions c).
Proof.
  intros Hr. rewrite Hr, Forall_forall. split; intros Hall opt Hopt; apply Hall.
  - destruct Hopt as [v Hv]. apply list_elem_of_fmap. exists (opt, v). split; [done|]. by apply elem_of_map_to_list.
  - apply list_elem_of_fmap in Hopt as ([k v] & -> & Hv). apply elem_of_map_to_list in Hv. by exists v.
Qed.

Lemma time_spec (after before now : Z) :
  0 <= after < 2 ^ 64 -> 0 <= before < 2 ^ 64 -> now < 2 ^ 63 ->
  ((int64_of after <? 0) || (now <? int64_of after)) = false <-> after <= now.
Proof.
  intros Ha Hb Hn. unfold int64_of. destruct (Z.ltb_spec after (2 ^ 63)); rewrite orb_false_iff, !Z.ltb_ge; lia.
Qed.
Lemma expiry_spec before now :
  0 <= before < 2 ^ 64 -> now < 2 ^ 63 ->
  (negb (before =? CertTimeInfinity) && ((int64_of before <=? now) || (int64_of before <? 0))) = false <->
  before = CertTimeInfinity \/ now < before < 2 ^ 63.
Proof.
  intros Hb Hn. unfold int64_of, CertTimeInfinity. destruct (Z.eqb_spec before (2 ^ 64 - 1)) as [|Hne]; [by cbn; tauto|].
  cbn [negb andb]. destruct (Z.ltb_spec before (2 ^ 63)); rewrite orb_false_iff, Z.leb_gt, Z.ltb_ge; lia.
Qed.

Lemma CheckCert_spec principal cert :
  (forall m, range m ≡ₚ map fst (map_to_list m)) -> wf_cert cert -> cc_Clock c < 2 ^ 63 ->
  exists r, CheckCert c range principal cert = Some r /\ (r = None <-> acceptable principal cert /\ verified cert).
Proof.
  intros Hr Hwf Hnow. destruct Hwf as (Hk & _ & _ & Hafter & Hbefore & (sk & Hsk & Hskwf) & sig & Hsig & _).
  destruct (bytesForSigning_spec cert) as (data & Hdata & _); [split; eauto|].
  assert (Hp : ((0 <? len (cert_ValidPrincipals cert)) && negb (contains (cert_ValidPrincipals cert) principal)) = false <->
    (cert_ValidPrincipals cert = [] \/ principal ∈ cert_ValidPrincipals cert)).
  { rewrite <- contains_spec. destruct (cert_ValidPrincipals cert) as [|p ps]; [by cbn; tauto|].
    rewrite len_cons, (proj2 (Z.ltb_lt _ _)) by (pose proof (len_nonneg ps); lia). cbn [andb]. destruct (contains _ _); cbn; [tauto|].
    split; [done|]. by intros [?|?]. }
  pose proof (range_options cert Hr) as Ho. rewrite <- unsupported_option_spec in Ho.
  pose proof (time_spec _ _ _ Hafter Hbefore Hnow) as Ht. pose proof (expiry_spec _ _ Hbefore Hnow) as He.
  unfold CheckCert, acceptable.
  destruct (match cc_IsRevoked c with Some f => f cert | None => false end) eqn:Erev.
  { eexists. split; [done|]. split; [done|]. intros [[Hrev _] _]. destruct (cc_IsRevoked c); congruence. }
  destruct (unsupported_option c _) as [opt|]; [eexists; split; [done|]; split; [done|]; intros [(_ & Hx & _) _]; by apply Ho in Hx|].
  destruct ((0 <? _) && _); [eexists; split; [done|]; split; [done|]; intros [(_ & _ & Hx & _) _]; by apply Hp in Hx|].
  destruct ((int64_of _ <? 0) || _); [eexists; split; [done|]; split; [done|]; intros [(_ & _ & _ & Hx & _) _]; by apply Ht in Hx|].
  destruct (negb _ && _); [eexists; split; [done|]; split; [done|]; intros [(_ & _ & _ & _ & Hx) _]; by apply He in Hx|].
  rewrite Hsk, Hdata, Hsig. cbn [mbind option_bind]. eexists. split; [done|]. unfold verified.
  assert (Hrev : match cc_IsRevoked c with Some f => f cert = false | None => True end) by (by destruct (cc_IsRevoked c)).
  destruct (key_Verify _ data sig) eqn:Ev; split; intros Hx; try done.
  - destruct Hx as [_ (k & d & s' & E1 & E2 & E3 & E4)]. rewrite Hsk in E1. rewrite Hdata in E2. rewrite Hsig in E3. by simplify_eq.
  - split; [|by exists sk, data, sig]. split; [done|]. split; [by apply Ho|]. split; [by apply Hp|]. split; [by apply Ht|by apply He].
Qed.

Lemma CheckHostKey_spec addr remote cert :
  (forall m, range m ≡ₚ map fst (map_to_list m)) -> wf_cert cert -> cc_Clock c < 2 ^ 63 ->
  exists r, CheckHostKey c range addr remote (certificate cert) = Some r /\
    (r = None <-> cert_CertType cert = HostCert /\ (exists f, cc_IsHostAuthority c = Some f /\ f (cert_SignatureKey cert) addr = true) /\
       exists host port, SplitHostPort addr = Ok (host, port) /\ acceptable host cert /\ verified cert).
Proof.
  intros Hr Hwf Hnow. unfold CheckHostKey. destruct (Z.eqb_spec (cert_CertType cert) HostCert) as [Et|Et]; cbn [negb].
  2:{ eexists. split; [done|]. split; [done|]. by intros [? _]. }
  destruct (cc_IsHostAuthority c) as [f|] eqn:Ef; [|eexists; split; [done|]; split; [done|]; by intros (_ & (? & ? & _) & _)].
  destruct (f (cert_SignatureKey cert) addr) eqn:Ea; cbn [negb];
    [|eexists; split; [done|]; split; [done|]; intros (_ & (? & [= <-] & ?) & _); congruence].
  destruct (SplitHostPort addr) as [[host port]|e]; [|eexists; split; [done|]; split; [done|]; by intros (_ & _ & ? & ? & ? & _)].
  destruct (CheckCert_spec host cert Hr Hwf Hnow) as (r & -> & Hiff). eexists. split; [done|]. rewrite Hiff. split.
  - intros [Ha Hv]. split; [done|]. split; [by eexists|]. by exists host, port.
  - by intros (_ & _ & h & p & [= <- <-] & Ha & Hv).
Qed.
End Accept.

(** ** The user-presence requirement *)
Definition security_key (k : PublicKey) : bool :=
  match plain_of k with skECDSAPublicKey _ _ _ _ _ | skEd25519PublicKey _ _ _ => true | _ => false end.
Definition user_present (sig : Signature) : Prop :=
  exists flags counter, Unmarshal skFields (sig_Rest sig) = Ok (flags, (counter, tt)) /\ Z.land flags flagUserPresence <> 0.

Ltac no_presence :=
  split; [let Hx := fresh in intros Hx; first [discriminate Hx|split; [exact Hx|discriminate]]|let Hx := fresh in intros [Hx _]; exact Hx].
Lemma presence_plain k data sig :
  wf_plain k -> key_Verify k data sig = None <-> key_Verify (default k (without_touch k)) data sig = None /\ (security_key k = true -> user_present sig).
Proof.
  intros Hk. destruct k; cbn [without_touch from_option id security_key plain_of]; try (by no_presence); [| |destruct Hk].
  - destruct Hk as (_ & _ & ->). show_Verify. destruct (negb _); [no_presence|].
    destruct (hashFunc _); [|no_presence]. cbn [if_ok]. destruct (Unmarshal ecSig _) as [(R & z & ?)|]; [|no_presence]. cbn [if_ok].
    unfold user_present. destruct (Unmarshal skFields _) as [(f & n & [])|]; [|no_presence]. cbn [if_ok negb].
    rewrite andb_true_r, andb_false_r. destruct (Z.eqb_spec (Z.land f flagUserPresence) 0) as [E|E].
    + split; [done|]. intros [_ Hx]. destruct (Hx eq_refl) as (f' & n' & [= -> ->] & Hf). done.
    + split; [|by intros [? _]]. intros ->. split; [done|]. intros _. eauto.
  - destruct Hk as (_ & ->). show_Verify. destruct (negb _); [no_presence|]. destruct (negb _); [no_presence|].
    destruct (hashFunc _); [|no_presence]. cbn [if_ok]. destruct (Unmarshal edSig _) as [(z & ?)|]; [|no_presence]. cbn [if_ok].
    unfold user_present. destruct (Unmarshal skFields _) as [(f & n & [])|]; [|no_presence]. cbn [if_ok negb].
    rewrite andb_true_r, andb_false_r. destruct (Z.eqb_spec (Z.land f flagUserPresence) 0) as [E|E].
    + split; [done|]. intros [_ Hx]. destruct (Hx eq_refl) as (f' & n' & [= -> ->] & Hf). done.
    + split; [|by intros [? _]]. intros ->. split; [done|]. intros _. eauto.
Qed.

Lemma presence k data sig :
  wf_key k -> key_Verify k data sig = None <-> key_Verify (skKeyWithoutUP k) data sig = None /\ (security_key k = true -> user_present sig).
Proof.
  intros Hk. pose proof (presence_plain (plain_of k) data sig (wf_plain_of _ Hk)) as Hp.
  destruct k as [| | | | | |c]; try exact Hp. cbn [plain_of security_key key_Verify skKeyWithoutUP] in *.
  assert (E : key_Verify (match without_touch (cert_Key c) with Some k => certificate (with_Key c k) | None => certificate c end) data sig =
    key_Verify (default (cert_Key c) (without_touch (cert_Key c))) data sig) by (by destruct (without_touch (cert_Key c))).
  rewrite E. destruct (plain_key (cert_Key c)) as [_ Hpl]; [apply Hk|]. unfold security_key in Hp. by rewrite Hpl in Hp.
Qed.

(** ** Signing *)
Lemma authority_signs g rand data :
  good_signer g -> exists r rand', authority_Sign g rand data = Some (r, rand') /\
    forall sig, r = Ok sig -> sig_Rest sig = [] /\ key_Verify (signer_PublicKey g) data sig = None.
Proof.
  intros Hg. destruct (inv_good _ Hg) as (_ & (l & Hl) & t & _ & Hsw & _). unfold authority_Sign. rewrite Hl.
  destruct l as [|a l]; [do 2 eexists; split; [reflexivity|]; by intros sig [=]|].
  destruct (Hsw rand data a) as (r & rand' & -> & Hok). do 2 eexists. split; [done|]. intros sig ->.
  destruct (Hok _ eq_refl) as (_ & Hr & Hv). split; [done|]. by rewrite key_Verify_plain.
Qed.

(** What [SignCert] may be called on. *)
Definition wf_template (c : Certificate) : Prop :=
  wf_plain (cert_Key c) /\ 0 <= cert_Serial c < 2 ^ 64 /\ 0 <= cert_CertType c < 2 ^ 32 /\
  0 <= cert_ValidAfter c < 2 ^ 64 /\ 0 <= cert_ValidBefore c < 2 ^ 64.

Lemma SignCert_spec c rand g :
  wf_template c -> good_signer g ->
  exists e c' rand', SignCert c rand g = Some (e, c', rand') /\
    (e = None -> exists nonce sig, length nonce = 32%nat /\ c' = with_authority c nonce (Some (signer_PublicKey g)) (Some sig) /\
       wf_cert c' /\ verified c').
Proof.
  intros (Hk & Hs & Ht & Ha & Hb) Hg. destruct (inv_good _ Hg) as (Hwf & _ & _). unfold SignCert. cbv zeta.
  destruct (read_full rand 32) as [[nonce|e] rand1] eqn:Er; [|do 3 eexists; by split].
  assert (length nonce = 32%nat) as Hn.
  { unfold read_full in Er. destruct (32 <=? length (avail rand))%nat eqn:E; [|done]. apply Nat.leb_le in E. injection Er as <- _.
    rewrite length_take. lia. }
  destruct (wf_key_type _ Hwf) as (ty & Hty). rewrite Hty. cbn [mbind option_bind].
  destruct (assoc certKeyAlgoNames ty) eqn:Eas; [do 3 eexists; by split|].
  assert (wf_plain (signer_PublicKey g)) as Hpl.
  { destruct (signer_PublicKey g) as [| | | | | |x]; try done. destruct (plain_type _ (proj1 Hwf)) as (t & ct & Ht1 & Hct & Hc & _).
    cbn [key_Type] in Hty. rewrite Ht1 in Hty. cbn [mbind option_bind] in Hty. rewrite Hct in Hty. injection Hty as <-.
    apply certAlgos_plain in Hc as (? & Hc & _). congruence. }
  set (c1 := with_authority c nonce (Some (signer_PublicKey g)) (cert_Signature c)).
  destruct (bytesForSigning_spec c1) as (data & Hdata & _); [split; [done|]; by eexists|]. rewrite Hdata. cbn [mbind option_bind].
  destruct (authority_signs g rand1 data Hg) as (r & rand' & -> & Hr). cbn [mbind option_bind]. destruct r as [sig|e]; [|do 3 eexists; by split].
  destruct (Hr _ eq_refl) as [Hrest Hv]. do 3 eexists. split; [done|]. intros _. exists nonce, sig. split; [done|]. split; [done|].
  split; [split; [done|]; do 4 (split; [done|]); split; [by eexists|exists sig; split; [done|]; by left]|].
  exists (signer_PublicKey g), data, sig. split; [done|]. split; [exact Hdata|]. split; [done|]. by apply (presence _ data sig Hwf).
Qed.

(** ** What is signed determines the certificate *)
Lemma signed_bytes_inj c1 c2 data :
  wf_cert c1 -> wf_cert c2 -> small_key (certificate c1) -> small_key (certificate c2) ->
  bytesForSigning c1 = Some data -> bytesForSigning c2 = Some data -> len data < 2 ^ 31 ->
  with_Signature c1 None = with_Signature c2 None.
Proof.
  intros Hw1 Hw2 Hs1 Hs2 Hd1 Hd2 Hl. set (sig := MkSignature [] [] []).
  assert (Hread : forall c, wf_cert c -> small_key (certificate c) -> bytesForSigning c = Some data ->
    ParsePublicKey (data ++ string_bytes (MarshalMsg sig)) = Some (Ok (certificate (with_Signature c (Some sig))))).
  { intros c Hc Hsm Hd. destruct (bytesForSigning_spec c) as (d & Hd' & HM).
    { split; [apply Hc|]. by destruct Hc as (_ & _ & _ & _ & _ & ? & _). }
    rewrite Hd in Hd'. injection Hd' as <-. specialize (HM sig).
    destruct (key_reads_back (certificate (with_Signature c (Some sig)))) as (s' & Hs' & Hp).
    { destruct Hc as (? & ? & ? & ? & ? & ? & _). do 6 (split; [done|]). exists sig. split; [done|]. by left. }
    rewrite HM in Hs'. injection Hs' as <-. apply Hp; [exact Hsm|]. rewrite len_app, string_bytes_len.
    change (len (MarshalMsg sig)) with 8. lia. }
  pose proof (Hread c1 Hw1 Hs1 Hd1) as E. rewrite (Hread c2 Hw2 Hs2 Hd2) in E. injection E as E. destruct c1, c2. cbn in *. by simplify_eq.
Qed.

(** ** Theorems *)

(** C24. [CheckCert] accepts a well-formed certificate exactly when it is not revoked, every
    critical option is the source address or one the checker supports, the principal is
    listed or none is, the time is within the validity as unsigned numbers (an expiry in
    the upper half of the range other than infinity counts as expired), and the signature
    of the authority covers it, the touch requirement of a security key aside.
    [Authenticate] and [CheckHostKey] accept it exactly when in addition it is of the right
    type and of a recognised authority, for the user and for the host of the address; a
    user then has exactly the permissions of the certificate.  What is signed determines
    every field but the signature. *)
Theorem certificates_checked {W Perm} (c : CertChecker W Perm) range permissions cert :
  (forall m, range m ≡ₚ map fst (map_to_list m)) -> wf_cert cert -> cc_Clock c < 2 ^ 63 ->
  (forall principal, exists r, CheckCert c range principal cert = Some r /\ (r = None <-> acceptable c principal cert /\ verified cert)) /\
  (forall conn user p, Authenticate c range permissions conn user (certificate cert) = Some (Ok p) <->
     cert_CertType cert = UserCert /\ (exists f, cc_IsUserAuthority c = Some f /\ f (cert_SignatureKey cert) = true) /\
     acceptable c user cert /\ verified cert /\ p = permissions cert) /\
  (forall addr remote, CheckHostKey c range addr remote (certificate cert) = Some None <->
     cert_CertType cert = HostCert /\ (exists f, cc_IsHostAuthority c = Some f /\ f (cert_SignatureKey cert) addr = true) /\
     exists host port, SplitHostPort addr = Ok (host, port) /\ acceptable c host cert /\ verified cert) /\
  (forall cert' data, wf_cert cert' -> small_key (certificate cert) -> small_key (certificate cert') ->
     bytesForSigning cert = Some data -> bytesForSigning cert' = Some data -> len data < 2 ^ 31 ->
     with_Signature cert None = with_Signature cert' None).
Proof.
  intros Hr Hwf Hnow. pose proof (fun p => CheckCert_spec c range p cert Hr Hwf Hnow) as Hcheck. split; [exact Hcheck|].
  split; [|split; [|intros; by eapply signed_bytes_inj]].
  - intros conn user p. unfold Authenticate. destruct (Z.eqb_spec (cert_CertType cert) UserCert) as [Et|Et]; cbn [negb].
    2:{ split; [done|]. by intros [? _]. }
    destruct (cc_IsUserAuthority c) as [f|] eqn:Ef; [|split; [done|]; by intros (_ & (? & ? & _) & _)].
    destruct (f (cert_SignatureKey cert)) eqn:Ea; cbn [negb]; [|split; [done|]; intros (_ & (? & [= <-] & ?) & _); congruence].
    destruct (Hcheck user) as (r & -> & Hiff). cbn [mbind option_bind]. split.
    + destruct r; [done|]. intros [= <-]. destruct (proj1 Hiff eq_refl). split; [done|]. split; [by eexists|]. done.
    + intros (_ & _ & Ha & Hv & ->). by rewrite (proj2 Hiff (conj Ha Hv)).
  - intros addr remote. destruct (CheckHostKey_spec c range addr remote cert Hr Hwf Hnow) as (r & -> & <-). split; [by intros [= ->]|by intros ->].
Qed.

(** [SignCert] with a good signer as authority never panics; when it returns no error,
    the certificate has a fresh nonce of 32 bytes, the key of the authority and its
    signature, is otherwise unchanged and well-formed, so that it survives marshalling and
    parsing, and a checker accepts it exactly when its contents are acceptable. *)
Lemma SignCert_checked cert rand g :
  wf_template cert -> good_signer g ->
  exists e cert' rand', SignCert cert rand g = Some (e, cert', rand') /\
    (e = None ->
       (exists nonce sig, length nonce = 32%nat /\ cert' = with_authority cert nonce (Some (signer_PublicKey g)) (Some sig)) /\
       (exists s, key_Marshal (certificate cert') = Some s /\
          (small_key (certificate cert') -> len s < 2 ^ 32 -> ParsePublicKey s = Some (Ok (certificate cert')))) /\
       forall W Perm (c : CertChecker W Perm) range principal,
         (forall m, range m ≡ₚ map fst (map_to_list m)) -> cc_Clock c < 2 ^ 63 ->
         exists r, CheckCert c range principal cert' = Some r /\ (r = None <-> acceptable c principal cert')).
Proof.
  intros Ht Hg. destruct (SignCert_spec cert rand g Ht Hg) as (e & cert' & rand' & Hs & He). exists e, cert', rand'.
  split; [done|]. intros E. destruct (He E) as (nonce & sig & Hn & Hc & Hwf & Hv). split; [by exists nonce, sig|].
  split; [by apply (key_reads_back (certificate cert'))|]. intros W Perm c range principal Hr Hnow.
  destruct (CheckCert_spec c range principal cert' Hr Hwf Hnow) as (r & -> & Hiff). exists r. split; [done|]. rewrite Hiff. tauto.
Qed.

(** A signature of a security key verifies exactly when it verifies with the touch
    requirement waived and its flags assert the user's presence; for every other key the
    waiver changes nothing. *)
Lemma presence_waived k data sig :
  wf_key k ->
  (key_Verify k data sig = None <->
   key_Verify (skKeyWithoutUP k) data sig = None /\ (security_key k = true -> user_present sig)) /\
  (security_key k = false -> skKeyWithoutUP k = k).
Proof.
  intros Hk. split; [by apply presence|]. destruct k as [| | | | | |c]; try done. unfold security_key. cbn [plain_of skKeyWithoutUP].
  by destruct (cert_Key c).
Qed.
End Certs.

(** ** Instances of the theorems *)
Definition sample_cert : Certificate :=
  mkCertificate (go "nonce") (ed25519PublicKey sample_edkey) 7 UserCert (go "id") [go "alice"] 0 CertTimeInfinity ∅
    (<[go "permit-pty" := []]> ∅) [] (Some (ed25519PublicKey sample_edkey)) (Some (MkSignature KeyAlgoED25519 (go "sig") [])).
Definition sample_checker : CertChecker unit unit :=
  mkChecker [] (Some (fun _ => true)) None 1000 None None None.
Definition sample_range (m : gmap gostring gostring) : list gostring := map fst (map_to_list m).

Lemma sample_cert_wf : wf_cert sample_cert.
Proof.
  split; [reflexivity|]. do 4 (split; [split; [apply Z.leb_le; reflexivity|apply Z.ltb_lt; reflexivity]|]).
  split; eexists; (split; [reflexivity|]); [reflexivity|by left].
Qed.

Lemma certificates_checked_witness :
  exists r, @CheckCert sample_crypto sample_kexlib ascii_tables sample_siglib unit unit sample_checker sample_range (go "alice") sample_cert = Some r.
Proof.
  destruct (@certificates_checked sample_crypto sample_kexlib ascii_tables sample_siglib sample_kexlaws unit unit sample_checker sample_range
              (fun _ => tt) sample_cert (fun m => reflexivity _) sample_cert_wf ltac:(reflexivity)) as (Hc & _).
  destruct (Hc (go "alice")) as (r & Hr & _). exists r. exact Hr.
Defined.

