(* ===== verification/KeyFiles.v ===== *)
(** * Lines of key files: [ParseAuthorizedKey], [ParseKnownHosts] and their counterparts in
    [third/ssh/keys.go].

    The loops take the input line by line; the fuel is the length of the input, of which
    every round consumes at least a byte.  A key type that panics cannot occur: keys are
    those that [ParsePublicKey] returned.

    Proved: a line is found exactly when it is the first that declares a key, the word in
    front of the blob is the type inside it, and a marshalled key is read back. *)
From Stdlib Require Import Ascii String ZArith Lia.
From stdpp Require Import base gmap strings list.
From S2P Require Import Prelude GoStrings GoEncoding SshWire SshMessages SshAlgos GoCrypto SshAuth KexLib SshKex SshKeys GoNet.
Local Open Scope Z_scope.

Definition blanks : gostring := [" "%char; chTAB].
Definition is_blank (c : ascii) : bool := (c =c " ") || (c =c chTAB).

(** ** Lines *)

(** The line in front of the first newline, and what comes after it. *)
Definition next_line (data : gostring) : gostring * gostring :=
  match IndexByte data chNL with
  | Some e => (take e data, drop (e + 1) data)
  | None => (data, [])
  end.
Definition cut_CR (line : gostring) : gostring :=
  match IndexByte line chCR with Some e => take e line | None => line end.

(** ** Words of graphic ASCII characters *)
Definition graphic (c : ascii) : Prop := 33 <= bv c < 127.

Lemma graphic_not_space c : graphic c -> unicode_IsSpace (bv c) = false.
Proof.
  unfold graphic, unicode_IsSpace. intros Hc. repeat rewrite (proj2 (Z.eqb_neq _ _)) by lia.
  rewrite (proj2 (Z.leb_gt 8192 _)) by lia. done.
Qed.
Lemma graphic_left c s : graphic c -> trimmed_left (c :: s).
Proof.
  intros Hc. right. cbn [DecodeRune]. rewrite (proj2 (Z.ltb_lt _ _)) by (unfold graphic in Hc; lia). by apply graphic_not_space.
Qed.
Lemma graphic_right c s : graphic c -> trimmed_right (s ++ [c]).
Proof.
  intros Hc. right. unfold DecodeLastRune. rewrite length_app. cbn [length]. rewrite Nat.add_1_r.
  replace (S (length s) - 1)%nat with (length s) by lia. rewrite lookup_app_r, Nat.sub_diag by lia. cbn [lookup list_lookup].
  rewrite drop_app_length. unfold is_cont. rewrite (proj2 (Z.leb_gt 128 _)) by (unfold graphic in Hc; lia).
  cbn [Nat.leb andb negb DecodeRune]. rewrite (proj2 (Z.ltb_lt _ _)) by (unfold graphic in Hc; lia). cbn [Nat.eqb fst]. by apply graphic_not_space.
Qed.

(** Text that starts and ends with graphic characters is not trimmed. *)
Lemma TrimSpace_graphic a s b : graphic a -> graphic b -> TrimSpace (a :: s ++ [b]) = a :: s ++ [b].
Proof.
  intros Ha Hb. unfold TrimSpace. cbv zeta. rewrite TrimLeftSpace_id by (by apply graphic_left).
  apply TrimRightSpace_id. exact (graphic_right b (a :: s) Hb).
Qed.
Lemma TrimSpace_word w : Forall graphic w -> TrimSpace w = w.
Proof.
  destruct w as [|a w]; [done|]. intros [Ha Hw]%Forall_cons. destruct w as [|b w _] using rev_ind.
  - unfold TrimSpace. cbv zeta. rewrite TrimLeftSpace_id by (by apply graphic_left). apply TrimRightSpace_id. exact (graphic_right a [] Ha).
  - apply Forall_app in Hw as [_ Hb]. apply TrimSpace_graphic; [done|]. by apply Forall_cons in Hb as [? _].
Qed.
(** A leading blank is trimmed. *)
Lemma TrimSpace_blank s : TrimSpace (" "%char :: s) = TrimSpace s.
Proof.
  unfold TrimSpace. cbv zeta. cbn [length TrimLeftSpace DecodeRune]. change (bv " "%char <? 128) with true. cbv iota.
  change (unicode_IsSpace (bv " "%char)) with true. cbv iota. by rewrite drop_0 || cbn [drop].
Qed.

Lemma graphic_not_blank c : graphic c -> ContainsByte blanks c = false.
Proof.
  intros Hc. apply ContainsByte_false. unfold blanks. intros Hin.
  apply elem_of_cons in Hin as [->|Hin]; [unfold graphic in Hc; change (bv " "%char) with 32 in Hc; lia|].
  apply elem_of_cons in Hin as [->|Hin]; [unfold graphic in Hc; change (bv chTAB) with 9 in Hc; lia|by apply not_elem_of_nil in Hin].
Qed.
Lemma IndexAny_word w : Forall graphic w -> IndexAny w blanks = None.
Proof. induction 1 as [|c w Hc Hw IH]; [done|]. cbn [IndexAny]. by rewrite graphic_not_blank, IH. Qed.
Lemma IndexAny_space w s : Forall graphic w -> IndexAny (w ++ (" "%char :: s)) blanks = Some (length w).
Proof.
  induction 1 as [|c w Hc Hw IH]; [done|]. cbn [app IndexAny length]. by rewrite graphic_not_blank, IH.
Qed.
(** The word in front of the first blank. *)
Lemma IndexAny_inv s i : IndexAny s blanks = Some i -> Forall (fun c => is_blank c = false) (take i s) /\ (i < length s)%nat.
Proof.
  revert i. induction s as [|c s IH]; intros i; cbn [IndexAny]; [done|].
  destruct (ContainsByte blanks c) eqn:E; [intros [= <-]; split; [constructor|cbn; lia]|].
  destruct (IndexAny s blanks) as [j|]; [|done]. intros [= <-]. destruct (IH j eq_refl) as [Hw Hl]. split; [|cbn; lia].
  cbn [take]. constructor; [|done]. unfold is_blank. cbn [blanks ContainsByte existsb] in E. rewrite orb_false_r in E.
  apply orb_false_iff in E as [E1 E2]. by rewrite (Ascii.eqb_sym c " "), E1, (Ascii.eqb_sym c chTAB), E2.
Qed.

Lemma graphic_padding : graphic "="%char.
Proof. unfold graphic. change (bv "="%char) with 61. lia. Qed.
Lemma base64_graphic p : Forall graphic (base64_EncodeToString p).
Proof.
  assert (Hd : forall n, graphic (b64_digit n)).
  { intros n. unfold b64_digit. destruct (b64_alphabet !! Z.to_nat n) as [c|] eqn:E; [|exact graphic_padding].
    cbn [default]. apply list_elem_of_lookup_2 in E.
    assert (Forall graphic b64_alphabet) as Hall; [|by rewrite Forall_forall in Hall; apply Hall].
    unfold graphic. apply Forall_forall. intros x Hx.
    assert (forallb (fun c => (33 <=? bv c) && (bv c <? 127)) b64_alphabet = true) as Hb by (vm_compute; reflexivity).
    rewrite forallb_forall in Hb. apply list_elem_of_In in Hx. specialize (Hb x Hx). bool_simp. lia. }
  induction p as [p IH] using list_len_ind. destruct p as [|a [|b [|c p]]]; cbn [base64_EncodeToString].
  - constructor.
  - repeat (apply Forall_cons; split; [first [apply Hd|exact graphic_padding]|]); constructor.
  - repeat (apply Forall_cons; split; [first [apply Hd|exact graphic_padding]|]); constructor.
  - apply Forall_app. split; [repeat (apply Forall_cons; split; [apply Hd|]); constructor|]. apply IH. cbn. lia.
Qed.

Section Files.
Context `{KexLib, UnicodeTables}.

Definition type_of (k : PublicKey) : gostring := default [] (key_Type k).

(** The rest of a line behind the key type: the blob and a comment. *)
Definition parseAuthorizedKey (data : gostring) : pr (PublicKey * gostring) :=
  let data := TrimSpace data in
  let i := default (length data) (IndexAny data blanks) in
  match base64_DecodeString (take i data) with
  | Err e => pr_fail e
  | Ok key =>
      out ← ParsePublicKey key;
      mret (out, TrimSpace (drop i data))
  end.

Definition type_mismatch (declared encoded : gostring) : error :=
  errors_New (go "ssh: authorized keys key type mismatch: human-readable type " ++ Quote declared ++
              go ", encoded type " ++ Quote encoded).

(** [parseAuthorizedKey(in[i:])] with the check of the declared type [in[:i]]. *)
Definition declared_key (data : gostring) (i : nat) : pr (PublicKey * gostring) :=
  '(out, comment) ← parseAuthorizedKey (drop i data);
  if take i data =s type_of out then mret (out, comment) else pr_fail (type_mismatch (take i data) (type_of out)).

(** The loop over the bytes of the options field: the index where it stops and the options. *)
Fixpoint scan_options (whole rest : gostring) (i optionStart : nat) (inQuote : bool) (opts : list gostring) : nat * list gostring :=
  match rest with
  | [] => (pred i, opts)
  | b :: rest =>
      let isEnd := negb inQuote && is_blank b in
      let cut := ((b =c ",") && negb inQuote) || isEnd in
      let opts := if cut && (optionStart <? i)%nat then opts ++ [drop optionStart (take i whole)] else opts in
      let optionStart := if cut then S i else optionStart in
      if isEnd then (i, opts)
      else
        let escaped := match i with O => false | S j => match whole !! j with Some c => c =c chBS | None => false end end in
        scan_options whole rest (S i) optionStart (if (b =c chDQ) && negb escaped then negb inQuote else inQuote) opts
  end.
(** [for i < len(in) && (in[i] == ' ' || in[i] == '\t') { i++ }]. *)
Fixpoint skip_blanks (rest : gostring) (i : nat) : nat :=
  match rest with
  | b :: rest => if is_blank b then skip_blanks rest (S i) else i
  | [] => i
  end.

(** One line: skipped without an error, an error that is remembered, or a key. *)
Inductive line_result := LSkip | LError (e : error) | LKey (out : PublicKey) (comment : gostring) (options : list gostring).

Definition with_options (line : gostring) (e : error) : option line_result :=
  let '(i, candidateOptions) := scan_options line line 0 0 false [] in
  let i := skip_blanks (drop i line) i in
  if (i =? length line)%nat then Some (LError e)
  else
    let line := drop i line in
    match IndexAny line blanks with
    | None => Some (LError e)
    | Some i =>
        match declared_key line i with
        | None => None
        | Some (Ok (out, comment)) => Some (LKey out comment candidateOptions)
        | Some (Err e) => Some (LError e)
        end
    end.
Definition authorized_line (line : gostring) : option line_result :=
  let line := TrimSpace (cut_CR line) in
  if match line with [] => true | c :: _ => c =c "#" end then Some LSkip
  else match IndexAny line blanks with
       | None => Some LSkip
       | Some i =>
           match declared_key line i with
           | None => None
           | Some (Ok (out, comment)) => Some (LKey out comment [])
           | Some (Err e) => with_options line e
           end
       end.

Fixpoint authorized_loop (fuel : nat) (data : gostring) (lastErr : option error)
    : pr (PublicKey * gostring * list gostring * gostring) :=
  match fuel, data with
  | S fuel, _ :: _ =>
      let '(line, rest) := next_line data in
      match authorized_line line with
      | None => None
      | Some LSkip => authorized_loop fuel rest lastErr
      | Some (LError e) => authorized_loop fuel rest (Some e)
      | Some (LKey out comment options) => mret (out, comment, options, rest)
      end
  | _, _ =>
      match lastErr with
      | Some e => pr_fail (errors_wrap (go "ssh: no key found; last parsing error for ignored line: ") e)
      | None => pr_fail (errors_New (go "ssh: no key found"))
      end
  end.
Definition ParseAuthorizedKey (data : gostring) : pr (PublicKey * gostring * list gostring * gostring) :=
  authorized_loop (length data) data None.

Definition MarshalAuthorizedKey (key : PublicKey) : option gostring :=
  t ← key_Type key;
  m ← key_Marshal key;
  Some (t ++ " "%char :: base64_EncodeToString m ++ [chNL]).

(** ** known_hosts entries *)
Definition io_EOF : error := errors_New (go "EOF").

(** A line that is not skipped. *)
Definition known_hosts_line (line : gostring) : pr (gostring * list gostring * PublicKey * gostring) :=
  let invalid := errors_New (go "ssh: invalid entry in known_hosts data") in
  let keyFields := Fields line in
  if (len keyFields <? 3) || (5 <? len keyFields) then pr_fail invalid
  else
    let '(marker, keyFields) :=
      match keyFields with
      | (c :: marker) :: rest => if c =c "@" then (marker, rest) else ([], keyFields)
      | _ => ([], keyFields)
      end in
    match keyFields with
    | hosts :: wantType :: key =>
        '(pubKey, comment) ← parseAuthorizedKey (Join key (go " "));
        if negb (type_of pubKey =s wantType)
        then pr_fail (errors_New (go "ssh: known hosts key type mismatch: human-readable type " ++ Quote wantType ++
               go ", encoded type " ++ Quote (type_of pubKey)))
        else mret (marker, Split hosts ","%char, pubKey, comment)
    | _ => None
    end.

Fixpoint known_hosts_loop (fuel : nat) (data : gostring) : pr (gostring * list gostring * PublicKey * gostring * gostring) :=
  match fuel, data with
  | S fuel, _ :: _ =>
      let '(line, rest) := next_line data in
      let line := TrimSpace (cut_CR line) in
      if match line with [] => true | c :: _ => c =c "#" end then known_hosts_loop fuel rest
      else match IndexAny line blanks with
           | None => known_hosts_loop fuel rest
           | Some _ => x ← known_hosts_line line; mret (x, rest)
           end
  | _, _ => pr_fail io_EOF
  end.
Definition ParseKnownHosts (data : gostring) : pr (gostring * list gostring * PublicKey * gostring * gostring) :=
  known_hosts_loop (length data) data.

(** ** Fingerprints *)
Context `{CryptoLib}.
Fixpoint strip_padding (s : gostring) : gostring :=
  match s with [] => [] | c :: s => if c =c "=" then [] else c :: strip_padding s end.
(** [base64.RawStdEncoding.EncodeToString]: the encoding without its padding. *)
Definition raw_EncodeToString (s : gostring) : gostring := strip_padding (base64_EncodeToString s).
Definition FingerprintSHA256 (pubKey : PublicKey) : option gostring :=
  m ← key_Marshal pubKey; Some (go "SHA256:" ++ raw_EncodeToString (digest SHA256 m)).
(** [md5] is not among the hashes of the library: [md5_Sum]. *)
Definition FingerprintLegacyMD5 (md5_Sum : gostring -> gostring) (pubKey : PublicKey) : option gostring :=
  m ← key_Marshal pubKey; Some (Join (map (fun c => hexdigits 2 (bv c)) (md5_Sum m)) (go ":")).

(** ** Round trip *)
Context `{!KexLaws}.

Lemma graphic_forallb w : forallb (fun c => (33 <=? bv c) && (bv c <? 127)) w = true -> Forall graphic w.
Proof.
  rewrite forallb_Forall. intros Hw. eapply Forall_impl; [exact Hw|]. intros c Hc. unfold graphic. cbv beta in Hc. bool_simp. lia.
Qed.
Lemma type_graphic k t : wf_key k -> key_Type k = Some t -> Forall graphic t /\ exists a w, t = a :: w /\ a <> "#"%char.
Proof.
  intros Hk Ht.
  assert (forallb (fun c => (33 <=? bv c) && (bv c <? 127)) t = true /\ exists a w, t = a :: w /\ a <> "#"%char) as [Hg Hne].
  { destruct k as [| |[]| | | |c]; try (injection Ht as <-; split; [reflexivity|by do 2 eexists]).
    cbn [key_Type] in Ht. destruct Hk as (Hk & _). destruct (cert_Key c) as [| |[]| | | |]; [..|done];
      injection Ht as <-; (split; [reflexivity|by do 2 eexists]). }
  split; [by apply graphic_forallb|done].
Qed.

Lemma graphic_ne c w : Forall graphic w -> bv c < 33 -> c ∉ w.
Proof. rewrite Forall_forall. intros Hw Hc Hin. specialize (Hw _ Hin). unfold graphic in Hw. lia. Qed.

Lemma parseAuthorizedKey_blob k m :
  wf_key k -> small_key k -> key_Marshal k = Some m -> len m < 2 ^ 32 ->
  parseAuthorizedKey (" "%char :: base64_EncodeToString m) = Some (Ok (k, [])).
Proof.
  intros Hk Hs Hm Hl. unfold parseAuthorizedKey. cbv zeta. rewrite TrimSpace_blank, TrimSpace_word by apply base64_graphic.
  rewrite IndexAny_word by apply base64_graphic. cbn [default from_option]. unfold id. rewrite firstn_all, drop_all, base64_Decode_Encode.
  destruct (key_reads_back k Hk) as (s & Hs' & Hp). rewrite Hm in Hs'. injection Hs' as <-. rewrite Hp by done. done.
Qed.

(** The line of a key is not changed by trimming. *)
Lemma key_line_trim t m :
  Forall graphic t -> (exists a w, t = a :: w /\ a <> "#"%char) -> m <> [] ->
  let line := t ++ (" "%char :: base64_EncodeToString m) in TrimSpace (cut_CR line) = line.
Proof.
  intros Ht (a & w & -> & _) Hm. cbv zeta. pose proof (base64_graphic m) as Hb. unfold cut_CR.
  rewrite (proj2 (IndexByte_None _ _)) by (apply not_elem_join; [by apply graphic_ne|done|by apply graphic_ne]).
  apply Forall_cons in Ht as [Ha _].
  assert (base64_EncodeToString m <> []) as Hne by (by destruct m as [|x [|y [|z m]]]).
  revert Hb Hne. generalize (base64_EncodeToString m). intros s Hb Hne. destruct s as [|b bs _] using rev_ind.
  - done.
  - apply Forall_app in Hb as [_ Hb]. apply Forall_cons in Hb as [Hb _]. cbn [app].
    replace (w ++ (" "%char :: bs ++ [b])) with ((w ++ (" "%char :: bs)) ++ [b]) by (by rewrite <- app_assoc).
    by apply TrimSpace_graphic.
Qed.

Lemma authorized_line_key k t m :
  wf_key k -> small_key k -> key_Type k = Some t -> key_Marshal k = Some m -> len m < 2 ^ 32 ->
  authorized_line (t ++ (" "%char :: base64_EncodeToString m)) = Some (LKey k [] []).
Proof.
  intros Hk Hs Ht Hm Hl. destruct (type_graphic k t Hk Ht) as [Hg Hne].
  assert (m <> []) as Hmne. { intros ->. destruct (marshal_type k [] Hk Hm Hl) as (? & ? & _ & ?). done. }
  unfold authorized_line. rewrite (key_line_trim t m Hg Hne Hmne). destruct Hne as (a & w & -> & Hha). cbn [app].
  rewrite (proj2 (Ascii.eqb_neq _ _) Hha). change (a :: w ++ ?x) with ((a :: w) ++ x). rewrite IndexAny_space by done.
  unfold declared_key. rewrite drop_app_length, take_app_length, (parseAuthorizedKey_blob k m) by done. cbn [mbind pr_bind].
  unfold type_of. rewrite Ht. cbn [default from_option]. unfold id. by rewrite gos_eqb_refl.
Qed.

Lemma next_line_app line rest : chNL ∉ line -> next_line (line ++ (chNL :: rest)) = (line, rest).
Proof.
  intros Hn. unfold next_line. rewrite IndexByte_app by done. by rewrite take_app_length, <- drop_drop, drop_app_length.
Qed.

Lemma ParseAuthorizedKey_Marshal k s rest :
  wf_key k -> small_key k -> MarshalAuthorizedKey k = Some s -> (forall m, key_Marshal k = Some m -> len m < 2 ^ 32) ->
  ParseAuthorizedKey (s ++ rest) = Some (Ok (k, [], [], rest)).
Proof.
  intros Hk Hs HM Hl. unfold MarshalAuthorizedKey in HM. destruct (key_Type k) as [t|] eqn:Ht; [|done]. cbn [mbind option_bind] in HM.
  destruct (key_Marshal k) as [m|] eqn:Hm; [|done]. injection HM as <-. specialize (Hl m eq_refl).
  destruct (type_graphic k t Hk Ht) as [Hg (a & w & Ea & _)].
  assert (E : (t ++ (" "%char :: base64_EncodeToString m ++ [chNL])) ++ rest = (t ++ (" "%char :: base64_EncodeToString m)) ++ (chNL :: rest)).
  { rewrite <- !app_assoc. cbn [app]. by rewrite <- !app_assoc. }
  rewrite E. unfold ParseAuthorizedKey. set (line := t ++ (" "%char :: base64_EncodeToString m)).
  assert (exists n, length (line ++ (chNL :: rest)) = S n) as (n & ->) by (rewrite length_app; cbn [length]; eexists; by rewrite Nat.add_succ_r).
  cbn [authorized_loop]. destruct (line ++ (chNL :: rest)) as [|x xs] eqn:Ex; [by destruct line|]. rewrite <- Ex.
  rewrite next_line_app. 2:{ apply not_elem_join; [by apply graphic_ne|done|apply graphic_ne; [apply base64_graphic|done]]. }
  unfold line. by rewrite (authorized_line_key k t m).
Qed.

(** ** Every line *)

(** The result for the lines of a file, one after the other. *)
Fixpoint first_key (lines : list gostring) (lastErr : option error) : pr (PublicKey * gostring * list gostring * gostring) :=
  match lines with
  | [] =>
      match lastErr with
      | Some e => pr_fail (errors_wrap (go "ssh: no key found; last parsing error for ignored line: ") e)
      | None => pr_fail (errors_New (go "ssh: no key found"))
      end
  | line :: lines =>
      match authorized_line line with
      | None => None
      | Some LSkip => first_key lines lastErr
      | Some (LError e) => first_key lines (Some e)
      | Some (LKey out comment options) => mret (out, comment, options, Join lines [chNL])
      end
  end.

Lemma authorized_line_nil : authorized_line [] = Some LSkip.
Proof. done. Qed.

Lemma next_line_spec data :
  let '(line, rest) := next_line data in
  (Split data chNL = line :: Split rest chNL \/ (Split data chNL = [line] /\ rest = [])) /\
  Join (tail (Split data chNL)) [chNL] = rest /\ (data <> [] -> (length rest < length data)%nat).
Proof.
  unfold next_line. destruct (IndexByte data chNL) as [e|] eqn:E.
  - destruct (IndexByte_split _ _ _ E) as (Hd & Hn & Hl). rewrite Nat.add_1_r.
    assert (Split data chNL = take e data :: Split (drop (S e) data) chNL) as -> by (rewrite Hd at 1; by apply Split_app).
    cbn [tail]. split; [by left|]. split; [apply Join_Split|]. intros _. rewrite length_drop. lia.
  - apply IndexByte_None in E. rewrite Split_nosep by done. split; [by right|]. split; [done|]. destruct data; [done|cbn; lia].
Qed.

Lemma loop_lines fuel data lastErr :
  (length data <= fuel)%nat -> authorized_loop fuel data lastErr = first_key (Split data chNL) lastErr.
Proof.
  revert data lastErr. induction fuel as [|fuel IH]; intros data lastErr Hf.
  { destruct data; [done|cbn in Hf; lia]. }
  destruct data as [|c data]; [done|]. cbn [authorized_loop]. pose proof (next_line_spec (c :: data)) as Hn.
  destruct (next_line (c :: data)) as [line rest]. destruct Hn as (Hs & Hj & Hl). specialize (Hl ltac:(done)).
  assert (first_key (Split (c :: data) chNL) lastErr = first_key (line :: Split rest chNL) lastErr /\ Split (c :: data) chNL = line :: tail (Split (c :: data) chNL))
    as [-> Et].
  { destruct Hs as [->|[-> ->]]; [done|]. split; [|done]. cbn [first_key Split].
    destruct (authorized_line line) as [[]|]; reflexivity. }
  cbn [first_key]. assert (length rest <= fuel)%nat as Hr by lia.
  destruct (authorized_line line) as [[|e|k cm o]|]; [by apply IH..| |done]. by rewrite Join_Split.
Qed.

Lemma key_typed k : wf_key k -> exists t, key_Type k = Some t.
Proof.
  destruct k as [| | | | | |c]; try (by eexists). intros [Hc _]. destruct (plain_type _ Hc) as (t & ct & Ht & Hct & _).
  cbn [key_Type]. rewrite Ht. cbn [mbind option_bind]. by exists ct.
Qed.
(** The key of a line: well-formed, and of the type that stands in front of its blob. *)
Lemma parseAuthorizedKey_total data :
  exists r, parseAuthorizedKey data = Some r /\ forall k c, r = Ok (k, c) -> wf_key k.
Proof.
  unfold parseAuthorizedKey. cbv zeta. destruct (base64_DecodeString _) as [key|e]; [|by eexists].
  destruct (ParsePublicKey_total key) as (r & -> & Hr). destruct r as [k|e]; cbn [mbind pr_bind]; [|by eexists].
  eexists. split; [done|]. intros k' c [= <- <-]. by apply Hr.
Qed.
Lemma declared_key_total data i :
  exists r, declared_key data i = Some r /\ forall k c, r = Ok (k, c) -> wf_key k /\ key_Type k = Some (take i data).
Proof.
  unfold declared_key. destruct (parseAuthorizedKey_total (drop i data)) as (r & -> & Hr).
  destruct r as [[k c]|e]; cbn [mbind pr_bind]; [|by eexists]. specialize (Hr k c eq_refl).
  destruct (gos_eqb _ _) eqn:E; [|by eexists]. eexists. split; [done|]. intros k' c' [= <- <-]. split; [done|].
  apply gos_eqb_eq in E. rewrite E. unfold type_of. destruct (key_typed k Hr) as (t & ->). done.
Qed.

(** The word at [i] in front of a blank. *)
Definition declares (line t : gostring) : Prop :=
  exists pre b post, line = pre ++ t ++ b :: post /\ is_blank b = true /\ Forall (fun c => is_blank c = false) t.

Lemma IndexAny_declares s i : IndexAny s blanks = Some i -> declares s (take i s).
Proof.
  intros Hi. destruct (IndexAny_inv s i Hi) as [Hw Hl]. destruct (lookup_lt_is_Some_2 s i Hl) as [b Hb].
  exists [], b, (drop (S i) s). split; [|split; [|done]]. 1: by rewrite app_nil_l, take_drop_middle.
  revert i Hi Hb Hw Hl. induction s as [|c s IH]; intros i; cbn [IndexAny]; [done|].
  destruct (ContainsByte blanks c) eqn:E.
  - intros [= <-] [= <-] _ _. unfold is_blank. cbn [blanks ContainsByte existsb] in E. rewrite orb_false_r in E.
    by rewrite (Ascii.eqb_sym c " "), (Ascii.eqb_sym c chTAB).
  - destruct (IndexAny s blanks) as [j|] eqn:Ej; [|done]. intros [= <-] Hb Hw Hl. cbn [take] in Hw. apply Forall_cons in Hw as [_ Hw].
    apply (IH j); [done|exact Hb|done|cbn in Hl; lia].
Qed.
Lemma declares_drop line n t : declares (drop n line) t -> declares line t.
Proof.
  intros (pre & b & post & E & Hb & Ht). exists (take n line ++ pre), b, post. split; [|done].
  by rewrite <- app_assoc, <- E, take_drop.
Qed.

Lemma authorized_line_total line :
  exists r, authorized_line line = Some r /\
    forall k c o, r = LKey k c o -> wf_key k /\ exists t, key_Type k = Some t /\ declares (TrimSpace (cut_CR line)) t.
Proof.
  unfold authorized_line. set (l := TrimSpace (cut_CR line)). destruct (match l with [] => true | c :: _ => c =c "#" end); [by eexists|].
  destruct (IndexAny l blanks) as [i|] eqn:Ei; [|by eexists]. destruct (declared_key_total l i) as (r & -> & Hr).
  destruct r as [[k c]|e].
  - eexists. split; [done|]. intros k' c' o' [= <- <- <-]. destruct (Hr k c eq_refl) as [Hk Ht]. split; [done|].
    eexists. split; [exact Ht|]. by apply IndexAny_declares.
  - unfold with_options. destruct (scan_options l l 0 0 false []) as [j opts]. cbv zeta.
    destruct (_ =? _)%nat; [by eexists|]. set (n := skip_blanks _ _). destruct (IndexAny (drop n l) blanks) as [i'|] eqn:Ei'; [|by eexists].
    destruct (declared_key_total (drop n l) i') as (r & -> & Hr'). destruct r as [[k c]|e']; [|by eexists].
    eexists. split; [done|]. intros k' c' o' [= <- <- <-]. destruct (Hr' k c eq_refl) as [Hk Ht]. split; [done|].
    eexists. split; [exact Ht|]. apply (declares_drop l n). by apply IndexAny_declares.
Qed.

Definition no_key (line : gostring) : Prop := authorized_line line = Some LSkip \/ exists e, authorized_line line = Some (LError e).

Lemma first_key_spec lines lastErr :
  exists r, first_key lines lastErr = Some r /\
    match r with
    | Ok (k, c, o, rest) =>
        exists before line after, lines = before ++ line :: after /\ Forall no_key before /\
          authorized_line line = Some (LKey k c o) /\ rest = Join after [chNL]
    | Err _ => Forall no_key lines
    end.
Proof.
  revert lastErr. induction lines as [|line lines IH]; intros lastErr; cbn [first_key].
  { destruct lastErr; eexists; (split; [done|constructor]). }
  destruct (authorized_line_total line) as (r & E & _). rewrite E.
  assert (Hstep : forall le, no_key line -> exists r0, first_key lines le = Some r0 /\ match r0 with
    | Ok (k, c, o, rest) => exists before l after, line :: lines = before ++ l :: after /\ Forall no_key before /\
          authorized_line l = Some (LKey k c o) /\ rest = Join after [chNL]
    | Err _ => Forall no_key (line :: lines) end).
  { intros le Hno. destruct (IH le) as (r0 & -> & Hr). eexists. split; [done|]. destruct r0 as [[[[k c] o] rest]|e]; [|by constructor].
    destruct Hr as (before & l & after & -> & Hb & Hl & ->). exists (line :: before), l, after. repeat split; [by constructor|done]. }
  destruct r as [|e|k c o].
  - apply Hstep. by left.
  - apply Hstep. right. by eexists.
  - eexists. split; [done|]. exists [], line, lines. by repeat split.
Qed.

(** C25. [ParseAuthorizedKey] ends on every input without a panic; it returns the key, comment
    and options of the first line that declares one, with the lines after it as the rest
    and only comments and invalid lines before it, and an error exactly when no line has
    a key; the key returned is well-formed and the word in front of its blob is its type;
    and the line that [MarshalAuthorizedKey] writes for a key is read back, whatever
    follows it. *)
Theorem ParseAuthorizedKey_correct :
  (forall data, exists r, ParseAuthorizedKey data = Some r /\
     match r with
     | Ok (k, c, o, rest) =>
         exists before line after, Split data chNL = before ++ line :: after /\ Forall no_key before /\
           authorized_line line = Some (LKey k c o) /\ rest = Join after [chNL] /\
           wf_key k /\ exists t, key_Type k = Some t /\ declares (TrimSpace (cut_CR line)) t
     | Err _ => Forall no_key (Split data chNL)
     end) /\
  (forall k s rest, wf_key k -> small_key k -> MarshalAuthorizedKey k = Some s ->
     (forall m, key_Marshal k = Some m -> len m < 2 ^ 32) -> ParseAuthorizedKey (s ++ rest) = Some (Ok (k, [], [], rest))).
Proof.
  split; [|apply ParseAuthorizedKey_Marshal]. intros data. unfold ParseAuthorizedKey. rewrite loop_lines by done.
  destruct (first_key_spec (Split data chNL) None) as (r & Hr & Hspec). exists r. split; [exact Hr|].
  destruct r as [[[[k c] o] rest]|e]; [|exact Hspec]. destruct Hspec as (before & line & after & Hs & Hb & Hl & ->).
  exists before, line, after. repeat (split; [done|]). destruct (authorized_line_total line) as (r & Hr' & Hk).
  rewrite Hl in Hr'. injection Hr' as <-. by apply (Hk k c o).
Qed.
End Files.

Lemma ParseAuthorizedKey_correct_witness :
  exists s, @MarshalAuthorizedKey sample_kexlib plain_sample = Some s /\
    @ParseAuthorizedKey sample_kexlib ascii_tables (s ++ go "# next") = Some (Ok (plain_sample, [], [], go "# next")).
Proof.
  eexists. split; [vm_compute; reflexivity|].
  apply (proj2 (@ParseAuthorizedKey_correct sample_kexlib ascii_tables sample_kexlaws)).
  - reflexivity.
  - exact I.
  - vm_compute. reflexivity.
  - intros m Hm. vm_compute in Hm. injection Hm as <-. vm_compute. reflexivity.
Defined.

(** Options with quoted blanks, and the checks of the declared type. *)
Definition sample_blob : gostring := base64_EncodeToString (default [] (key_Marshal plain_sample)).
Example options_line :
  @authorized_line sample_kexlib ascii_tables (go "no-pty,command=" ++ (chDQ :: go "ls -l") ++ (chDQ :: go " ssh-ed25519 ") ++ sample_blob ++ go " me")
  = Some (LKey plain_sample (go "me") [go "no-pty"; go "command=" ++ (chDQ :: go "ls -l") ++ [chDQ]]).
Proof. vm_compute. reflexivity. Qed.
Example known_hosts_marker :
  @ParseKnownHosts sample_kexlib ascii_tables (go "# hosts" ++ (chNL :: go "@revoked *.org,h ssh-ed25519 ") ++ sample_blob)
  = Some (Ok (go "revoked", [go "*.org"; go "h"], plain_sample, [], [])).
Proof. vm_compute. reflexivity. Qed.
