(* ===== verification/KnownHosts.v ===== *)
(** * The database of known host keys: [third/ssh/knownhosts/knownhosts.go].

    The callback that [New] returns checks a host key against the lines of the files: it is
    [CheckHostKey] of [SshCerts] with the three functions of the database.  Opening and
    reading a file is a parameter: the data that could be read and the error, if any, at
    which reading stopped.  Lines come from a [bufio.Scanner], which fails on a line of
    64 KB.  A nil [net.Addr] has no text; [addr_text] is [remote.String()].

    Proved: reading never panics, the callback accepts a key exactly when the lines say so,
    where a pattern is read declaratively, and the line written for a key is accepted. *)
From Stdlib Require Import Ascii String ZArith Lia.
From stdpp Require Import base gmap strings list.
From S2P Require Import Prelude GoStrings GoEncoding SshWire SshMessages SshAlgos GoCrypto GoIO SshCipher SshAuth KexLib SshKex SshHandshake SshKeys GoNet SshSigners SshCerts KeyFiles.
Local Open Scope Z_scope.

(** ** Addresses and patterns *)
Record addr := mkAddr { addr_host : gostring; addr_port : gostring }.
Definition addr_String (a : addr) : gostring :=
  let h := addr_host a in
  (if ContainsByte h ":" then "["%char :: h ++ go "]" else h) ++ ":"%char :: addr_port a.

Record hostPattern := mkPattern { negate : bool; pattern_addr : addr }.
Definition hostPattern_String (p : hostPattern) : gostring :=
  (if negate p then go "!" else []) ++ addr_String (pattern_addr p).

(** [for j := range str { if f(str[j:]) { return true } }; return false]. *)
Fixpoint some_suffix (f : gostring -> bool) (str : gostring) : bool :=
  match str with
  | [] => false
  | _ :: rest => f str || some_suffix f rest
  end.
Fixpoint wildcardMatch (pat str : gostring) : bool :=
  match pat with
  | [] => match str with [] => true | _ => false end
  | c :: pat' =>
      match str with
      | [] => false
      | b :: str' =>
          if c =c "*" then match pat' with [] => true | _ => some_suffix (wildcardMatch pat') str end
          else if (c =c "?") || (c =c b) then wildcardMatch pat' str'
          else false
      end
  end.

Definition pattern_match (p : hostPattern) (a : addr) : bool :=
  wildcardMatch (addr_host (pattern_addr p)) (addr_host a) && (addr_port (pattern_addr p) =s addr_port a).
Fixpoint patterns_match (ps : list hostPattern) (a : addr) (matched : bool) : bool :=
  match ps with
  | [] => matched
  | p :: ps =>
      if negb (pattern_match p a) then patterns_match ps a matched
      else if negate p then false
      else patterns_match ps a true
  end.

Definition defaultSSHPort : gostring := go "22".
Definition Normalize (address : gostring) : gostring :=
  let '(host, port) := match SplitHostPort address with Ok hp => hp | Err _ => (address, defaultSSHPort) end in
  let host := if HasPrefix host (go "[") && HasSuffix host (go "]") then drop 1 (take (length host - 1) host) else host in
  if port =s defaultSSHPort then host else "["%char :: host ++ go "]:" ++ port.

(** ** Hashed host names *)
Inductive matcher := hostPatterns (ps : list hostPattern) | hashedHost (salt hash : gostring).

Definition sha1HashType : gostring := go "1".
Definition decodeHash (encoded : gostring) : res (gostring * gostring * gostring) :=
  if match encoded with [] => true | c :: _ => negb (c =c "|") end
  then Err (errors_New (go "knownhosts: hashed host must start with '|'"))
  else match Split encoded "|"%char with
       | [_; hashType; s; h] =>
           salt ← base64_DecodeString s;
           hash ← base64_DecodeString h;
           Ok (hashType, salt, hash)
       | components => Err (errors_New (go "knownhosts: got " ++ Itoa (len components) ++ go " components, want 3"))
       end.
Definition encodeHash (typ salt hash : gostring) : gostring :=
  Join [[]; typ; base64_EncodeToString salt; base64_EncodeToString hash] (go "|").
Definition newHashedHost (encoded : gostring) : res matcher :=
  '(typ, salt, hash) ← decodeHash encoded;
  if negb (typ =s sha1HashType) then Err (errors_New (go "knownhosts: got hash type " ++ typ ++ go ", must be '1'"))
  else Ok (hashedHost salt hash).

(** The loop over the comma-separated patterns. *)
Fixpoint host_patterns (words : list gostring) (hps : list hostPattern) : res matcher :=
  match words with
  | [] => Ok (hostPatterns hps)
  | [] :: words => host_patterns words hps
  | p :: words =>
      let '(negate, p) := match p with c :: rest => if c =c "!" then (true, rest) else (false, p) | [] => (false, p) end in
      match p with
      | [] => Err (errors_New (go "knownhosts: negation without following hostname"))
      | c :: _ =>
          a ← (if c =c "[" then SplitHostPort p
               else match SplitHostPort p with Ok a => Ok a | Err _ => Ok (p, defaultSSHPort) end);
          host_patterns words (hps ++ [mkPattern negate (mkAddr (fst a) (snd a))])
      end
  end.
Definition newHostnameMatcher (pattern : gostring) : res matcher := host_patterns (Split pattern ","%char) [].

(** ** Lines *)
Definition markerCert : gostring := go "@cert-authority".
Definition markerRevoked : gostring := go "@revoked".

Definition trimSpace (s : gostring) : gostring := Trim s blanks.
Definition nextWord (line : gostring) : gostring * gostring :=
  match IndexAny line blanks with
  | None => (line, [])
  | Some i => (take i line, trimSpace (drop i line))
  end.

Record KnownKey := mkKnownKey { known_Key : PublicKey; known_Filename : gostring; known_Line : Z }.
Record keyDBLine := mkLine { line_cert : bool; line_matcher : matcher; line_knownKey : KnownKey }.
Record hostKeyDB := mkDB { db_revoked : gmap gostring KnownKey; db_lines : list keyDBLine }.
Definition newHostKeyDB : hostKeyDB := mkDB ∅ [].

(** [bufio.Scanner] with [ScanLines]: the lines without their ends, and whether it stopped at
    a line that does not fit into its buffer. *)
Definition MaxScanTokenSize : Z := 65536.
Definition dropCR (line : gostring) : gostring :=
  match rev line with c :: rest => if c =c chCR then rev rest else line | [] => line end.
Fixpoint scan_lines (segments : list gostring) : list gostring * bool :=
  match segments with
  | [] => ([], false)
  | line :: rest =>
      if MaxScanTokenSize <=? len line then ([], true)
      else match rest, line with
           | [], [] => ([], false)
           | _, _ => let '(tokens, tooLong) := scan_lines rest in (dropCR line :: tokens, tooLong)
           end
  end.
Definition errTooLong : error := errors_New (go "bufio.Scanner: token too long").

(** ** Patterns, declaratively *)

(** A star stands for any text, a question mark for any byte. *)
Inductive wild : gostring -> gostring -> Prop :=
| wild_nil : wild [] []
| wild_any c p s : wild p s -> wild ("?"%char :: p) (c :: s)
| wild_byte c p s : c <> "*"%char -> wild p s -> wild (c :: p) (c :: s)
| wild_star p s t : wild p t -> wild ("*"%char :: p) (s ++ t).
(** The code takes a star at the end for at least one byte. *)
Fixpoint strict (p : gostring) : gostring :=
  match p with
  | [] => []
  | [c] => if c =c "*" then go "?*" else [c]
  | c :: p => c :: strict p
  end.

Lemma some_suffix_spec f s : some_suffix f s = true <-> exists a t, s = a ++ t /\ t <> [] /\ f t = true.
Proof.
  induction s as [|c s IH]; cbn [some_suffix].
  { split; [done|]. intros (a & t & E & Ht & _). symmetry in E. apply app_eq_nil in E as [_ ?]. done. }
  rewrite orb_true_iff, IH. split.
  - intros [Hf|(a & t & -> & Ht & Hf)]; [by exists [], (c :: s)|by exists (c :: a), t].
  - intros (a & t & E & Ht & Hf). destruct a as [|x a]; [left; cbn in E; by rewrite E|].
    injection E as <- ->. right. by exists a, t.
Qed.
Lemma wild_star_inv p s : wild ("*"%char :: p) s <-> exists a t, s = a ++ t /\ wild p t.
Proof.
  split; [|intros (a & t & -> & Ht); by constructor]. intros Hw. inversion Hw; subst; [done|]. by do 2 eexists.
Qed.
Lemma wild_byte_inv c p s : c <> "*"%char -> wild (c :: p) s <-> exists b t, s = b :: t /\ (c = "?"%char \/ c = b) /\ wild p t.
Proof.
  intros Hc. split.
  - intros Hw. inversion Hw; subst; [do 2 eexists; split; [done|]; split; [by left|done]| |done].
    do 2 eexists. split; [done|]. split; [by right|done].
  - intros (b & t & -> & [->| ->] & Hw); by constructor.
Qed.

(** The matcher agrees with the declarative reading. *)
Lemma wildcardMatch_wild p s : wildcardMatch p s = true <-> wild (strict p) s.
Proof.
  revert s. induction p as [|c p IH]; intros s; cbn [wildcardMatch].
  { destruct s; [split; [constructor|done]|]. split; [done|]. intros Hw. inversion Hw. }
  destruct (c =c "*") eqn:Ec.
  - apply Ascii.eqb_eq in Ec as ->. destruct p as [|d p].
    + cbn [strict Ascii.eqb Bool.eqb]. change (go "?*") with ["?"%char; "*"%char]. destruct s as [|b s].
      * split; [done|]. intros Hw. inversion Hw.
      * split; [|done]. intros _. apply wild_any. rewrite <- (app_nil_r s). do 2 constructor.
    + change (strict ("*"%char :: d :: p)) with ("*"%char :: strict (d :: p)). rewrite wild_star_inv.
      assert (Hne : forall t, wild (strict (d :: p)) t -> t <> []).
      { intros t Ht ->. apply IH in Ht. done. }
      assert (Hs : some_suffix (wildcardMatch (d :: p)) s = true <-> exists a t, s = a ++ t /\ wild (strict (d :: p)) t).
      { rewrite some_suffix_spec. split; intros (a & t & -> & Ht); exists a, t; (split; [done|]); [apply IH, Ht|].
        split; [by apply Hne|by apply IH]. }
      destruct s as [|b s]; [|exact Hs]. rewrite <- Hs. done.
  - apply Ascii.eqb_neq in Ec. assert (E : strict (c :: p) = c :: strict p).
    { destruct p; [|done]. cbn [strict]. by rewrite (proj2 (Ascii.eqb_neq _ _) Ec). }
    rewrite E, wild_byte_inv by done. destruct s as [|b s].
    + split; [done|]. by intros (? & ? & ? & _).
    + destruct ((c =c "?") || (c =c b)) eqn:Eb.
      * rewrite IH. split; [intros Hw; exists b, s; split; [done|]; split; [|done]|by intros (? & ? & [= <- <-] & _ & ?)].
        apply orb_true_iff in Eb as [Eb|Eb]; apply Ascii.eqb_eq in Eb; [by left|by right].
      * split; [done|]. intros (? & ? & [= <- <-] & Hb & _). apply orb_false_iff in Eb as [E1 E2].
        apply Ascii.eqb_neq in E1, E2. by destruct Hb.
Qed.

Definition names (p : hostPattern) (a : addr) : Prop :=
  wild (strict (addr_host (pattern_addr p))) (addr_host a) /\ addr_port (pattern_addr p) = addr_port a.
Lemma pattern_match_spec p a : pattern_match p a = true <-> names p a.
Proof. unfold pattern_match, names. by rewrite andb_true_iff, wildcardMatch_wild, gos_eqb_eq. Qed.
Lemma patterns_match_spec ps a m :
  patterns_match ps a m = true <->
  (m = true \/ exists p, p ∈ ps /\ names p a) /\ forall p, p ∈ ps -> names p a -> negate p = false.
Proof.
  revert m. induction ps as [|p ps IH]; intros m; cbn [patterns_match].
  { split; [intros ->; split; [by left|]; intros p Hp; by apply not_elem_of_nil in Hp|]. intros [[?|(p & Hp & _)] _]; [done|].
    by apply not_elem_of_nil in Hp. }
  destruct (pattern_match p a) eqn:E; cbn [negb].
  - apply pattern_match_spec in E. destruct (negate p) eqn:En.
    + split; [done|]. intros [_ Hn]. specialize (Hn p ltac:(left) E). congruence.
    + rewrite IH. split.
      * intros [_ Hn]. split; [right; exists p; split; [left|done]|]. intros q Hq. apply elem_of_cons in Hq as [->|Hq]; [done|by apply Hn].
      * intros [_ Hn]. split; [by left|]. intros q Hq. apply Hn. by right.
  - assert (Hno : ~ names p a) by (rewrite <- pattern_match_spec; congruence). rewrite IH. split; intros [Hm Hn]; split.
    + destruct Hm as [?|(q & Hq & Ha)]; [by left|]. right. exists q. split; [by right|done].
    + intros q Hq Ha. apply elem_of_cons in Hq as [->|Hq]; [done|by apply Hn].
    + destruct Hm as [?|(q & Hq & Ha)]; [by left|]. right. apply elem_of_cons in Hq as [->|Hq]; [done|]. by exists q.
    + intros q Hq. apply Hn. by right.
Qed.

Section Hosts.
Context `{CryptoLib, KexLib, UnicodeTables, SigLib}.

(** Keys in the database come out of [ParsePublicKey], so they marshal without a panic. *)
Definition marshalled (k : PublicKey) : gostring := default [] (key_Marshal k).
Definition keyEq (a b : PublicKey) : bool := marshalled a =s marshalled b.
Definition serialize (k : PublicKey) : gostring := type_of k ++ " "%char :: base64_EncodeToString (marshalled k).
Definition KnownKey_String (k : KnownKey) : gostring :=
  known_Filename k ++ ":"%char :: Itoa (known_Line k) ++ go ": " ++ serialize (known_Key k).

Definition parseLine (line : gostring) : pr (gostring * gostring * PublicKey) :=
  let '(marker, line) :=
    let '(w, next) := nextWord line in
    if (w =s markerCert) || (w =s markerRevoked) then (w, next) else ([], line) in
  let '(host, line) := nextWord line in
  if match host with c :: _ => c =c "@" | [] => false end
  then pr_fail (errors_New (go "knownhosts: unexpected marker: " ++ Quote host))
  else match line with
       | [] => pr_fail (errors_New (go "knownhosts: missing host pattern"))
       | _ =>
           let '(wantType, line) := nextWord line in
           match line with
           | [] => pr_fail (errors_New (go "knownhosts: missing key type pattern"))
           | _ =>
               let '(keyBlob, _) := nextWord line in
               keyBytes ← pr_res (base64_DecodeString keyBlob);
               key ← ParsePublicKey keyBytes;
               if negb (type_of key =s wantType)
               then pr_fail (errors_New (go "knownhosts: key type mismatch: found " ++ Quote (type_of key) ++ go ", want " ++ Quote wantType))
               else mret (marker, host, key)
           end
       end.

Definition new_matcher (pattern : gostring) : pr matcher :=
  match pattern with
  | [] => None                                                       (** [pattern[0]] *)
  | c :: _ => pr_res (if c =c "|" then newHashedHost pattern else newHostnameMatcher pattern)
  end.
Definition db_parseLine (db : hostKeyDB) (line filename : gostring) (linenum : Z) : pr hostKeyDB :=
  '(marker, pattern, key) ← parseLine line;
  let known := mkKnownKey key filename linenum in
  if marker =s markerRevoked then mret (mkDB (<[marshalled key := known]> (db_revoked db)) (db_lines db))
  else
    m ← new_matcher pattern;
    mret (mkDB (db_revoked db) (db_lines db ++ [mkLine (marker =s markerCert) m known])).

Fixpoint read_lines (tokens : list gostring) (filename : gostring) (lineNum : Z) (db : hostKeyDB) : pr hostKeyDB :=
  match tokens with
  | [] => mret db
  | line :: tokens =>
      let line := trimSpace line in
      if match line with [] => true | c :: _ => c =c "#" end then read_lines tokens filename (lineNum + 1) db
      else match db_parseLine db line filename (lineNum + 1) with
           | None => None
           | Some (Err e) => pr_fail (errors_New (go "knownhosts: " ++ filename ++ ":"%char :: Itoa (lineNum + 1) ++ go ": " ++ err_msg e))
           | Some (Ok db) => read_lines tokens filename (lineNum + 1) db
           end
  end.
Definition Read (data : gostring) (failed : option error) (filename : gostring) (db : hostKeyDB) : pr hostKeyDB :=
  let '(tokens, tooLong) := scan_lines (Split data chNL) in
  db ← read_lines tokens filename 0 db;
  if tooLong then pr_fail errTooLong
  else match failed with Some e => pr_fail e | None => mret db end.

(** ** Matching *)
Definition hashHost (hostname salt : gostring) : gostring := hmac_digest SHA1 salt hostname.
Definition matcher_match (m : matcher) (a : addr) : bool :=
  match m with
  | hostPatterns ps => patterns_match ps a false
  | hashedHost salt hash => hashHost (Normalize (addr_String a)) salt =s hash
  end.
Definition HashHostname (rand : Source) (hostname : gostring) : option gostring :=
  match read_full rand 20 with
  | (Ok salt, _) => Some (encodeHash sha1HashType salt (hashHost hostname salt))
  | (Err _, _) => None
  end.

(** An authority of the hosts at an address; a certificate that was parsed has a key. *)
Definition IsHostAuthority (db : hostKeyDB) (remote : option PublicKey) (address : gostring) : bool :=
  match SplitHostPort address, remote with
  | Ok (h, p), Some remote =>
      existsb (fun l => line_cert l && keyEq (known_Key (line_knownKey l)) remote && matcher_match (line_matcher l) (mkAddr h p)) (db_lines db)
  | _, _ => false
  end.
Definition IsRevoked (db : hostKeyDB) (cert : Certificate) : bool :=
  bool_decide (is_Some (db_revoked db !! marshalled (certificate cert))) ||
  match cert_SignatureKey cert with
  | Some k => bool_decide (is_Some (db_revoked db !! marshalled k))
  | None => false
  end.

(** [KeyError] with the keys it wants. *)
Definition KeyError_Error (Want : list KnownKey) : gostring :=
  match Want with [] => go "knownhosts: key is unknown" | _ => go "knownhosts: key mismatch" end.
Definition RevokedError_Error : gostring := go "knownhosts: key is revoked".
Fixpoint check_lines (lines : list keyDBLine) (a : addr) (remoteKey : PublicKey) (Want : list KnownKey) : option (list KnownKey) :=
  match lines with
  | [] => Some Want
  | l :: lines =>
      if negb (matcher_match (line_matcher l) a) then check_lines lines a remoteKey Want
      else if keyEq (known_Key (line_knownKey l)) remoteKey then None
      else check_lines lines a remoteKey (Want ++ [line_knownKey l])
  end.
Definition checkAddr (db : hostKeyDB) (a : addr) (remoteKey : PublicKey) : option (list KnownKey) :=
  check_lines (db_lines db) a remoteKey [].

Context (addr_text : net_addr -> gostring).
Definition split_failed (text : gostring) (e : error) : error :=
  errors_New (go "knownhosts: SplitHostPort(" ++ text ++ go "): " ++ err_msg e).
Definition check (db : hostKeyDB) (address : gostring) (remote : net_addr) (remoteKey : PublicKey) : option error :=
  match db_revoked db !! marshalled remoteKey with
  | Some _ => Some (errors_New RevokedError_Error)
  | None =>
      match SplitHostPort (addr_text remote) with
      | Err e => Some (split_failed (addr_text remote) e)
      | Ok hp =>
          match (if address =s [] then Ok hp else SplitHostPort address) with
          | Err e => Some (split_failed address e)
          | Ok (host, port) =>
              match checkAddr db (mkAddr host port) remoteKey with
              | None => None
              | Some Want => Some (errors_New (KeyError_Error Want))
              end
          end
      end
  end.

(** ** New *)
Fixpoint read_files (open : gostring -> res (gostring * option error)) (files : list gostring) (db : hostKeyDB) : pr hostKeyDB :=
  match files with
  | [] => mret db
  | fn :: files =>
      '(data, failed) ← pr_res (open fn);
      db ← Read data failed fn db;
      read_files open files db
  end.
Definition checker (now : Z) (db : hostKeyDB) : CertChecker unit unit :=
  mkChecker [] None (Some (IsHostAuthority db)) now None (Some (check db)) (Some (IsRevoked db)).
Definition New (open : gostring -> res (gostring * option error)) (range : gmap gostring gostring -> list gostring) (now : Z) (files : list gostring)
    : pr (gostring -> net_addr -> PublicKey -> option (option error)) :=
  db ← read_files open files newHostKeyDB;
  mret (CheckHostKey (checker now db) range).

Definition Line (addresses : list gostring) (key : PublicKey) : gostring :=
  Join (map Normalize addresses) (go ",") ++ " "%char :: serialize key.

(** ** What a database says *)

(** The addresses a line covers: some pattern names them and no negated one does, or their
    normal form has the hash. *)
Definition covers (m : matcher) (a : addr) : Prop :=
  match m with
  | hostPatterns ps => (exists p, p ∈ ps /\ names p a) /\ forall p, p ∈ ps -> names p a -> negate p = false
  | hashedHost salt hash => hash = hmac_digest SHA1 salt (Normalize (addr_String a))
  end.
Lemma matcher_match_spec m a : matcher_match m a = true <-> covers m a.
Proof.
  destruct m as [ps|salt hash]; cbn [matcher_match covers].
  - rewrite patterns_match_spec. split; intros [Hm Hn]; (split; [|done]); [by destruct Hm|by right].
  - unfold hashHost. rewrite gos_eqb_eq. split; congruence.
Qed.

(** ** Words of a line *)
Definition starts (s : gostring) : Prop := match s with [] => True | c :: _ => is_blank c = false end.
Lemma blanks_spec c : ContainsByte blanks c = is_blank c.
Proof. unfold is_blank, blanks. cbn [ContainsByte existsb]. by rewrite orb_false_r, (Ascii.eqb_sym " " c), (Ascii.eqb_sym chTAB c). Qed.
Lemma TrimLeft_starts s : starts (TrimLeft s blanks).
Proof. induction s as [|c s IH]; [done|]. cbn [TrimLeft]. destruct (ContainsByte blanks c) eqn:E; [done|]. by rewrite blanks_spec in E. Qed.
Lemma TrimLeft_suffix s cut : exists p, s = p ++ TrimLeft s cut.
Proof.
  induction s as [|c s [p IH]]; [by exists []|]. cbn [TrimLeft]. destruct (ContainsByte cut c); [|by exists []].
  exists (c :: p). cbn [app]. by rewrite <- IH.
Qed.
Lemma trimSpace_starts s : starts (trimSpace s).
Proof.
  unfold trimSpace, Trim. pose proof (TrimLeft_starts s) as Hs. revert Hs. generalize (TrimLeft s blanks). intros t Ht.
  unfold TrimRight. destruct (TrimLeft_suffix (rev t) blanks) as [p Hp].
  assert (E : t = rev (TrimLeft (rev t) blanks) ++ rev p) by (by rewrite <- rev_app_distr, <- Hp, rev_involutive).
  revert E. generalize (rev (TrimLeft (rev t) blanks)). intros u ->. destruct u; [done|exact Ht].
Qed.
Lemma nextWord_starts s : starts s -> starts (snd (nextWord s)) /\ (fst (nextWord s) = [] -> s = []).
Proof.
  intros Hs. unfold nextWord. destruct (IndexAny s blanks) as [i|] eqn:Ei; cbn [fst snd]; [|done].
  split; [apply trimSpace_starts|]. destruct s as [|c s]; [done|]. cbn [IndexAny] in Ei. cbn [starts] in Hs.
  rewrite blanks_spec, Hs in Ei. destruct (IndexAny s blanks); [|done]. injection Ei as <-. done.
Qed.

(** ** Reading *)
Context `{!KexLaws}.
Notation entry := (gostring * gostring * PublicKey)%type.

Lemma parseLine_total line :
  starts line -> exists r, parseLine line = Some r /\ forall marker host key, r = Ok (marker, host, key) -> wf_key key /\ host <> [].
Proof.
  intros Hl. unfold parseLine. set (start := let '(w, next) := nextWord line in _).
  assert (Hs : starts (snd start)).
  { unfold start. pose proof (nextWord_starts line Hl) as [Hn _]. destruct (nextWord line) as [w next]. by destruct (_ || _). }
  destruct start as [marker l]. cbn [snd] in Hs. pose proof (nextWord_starts l Hs) as [_ Hw].
  destruct (nextWord l) as [host rest] eqn:Eh. cbn [fst] in Hw.
  destruct (match host with [] => false | c :: _ => c =c "@" end); [by eexists|].
  destruct rest as [|b rest]; [by eexists|].
  assert (host <> []) as Hhost. { intros ->. rewrite (Hw eq_refl) in Eh. done. }
  destruct (nextWord (b :: rest)) as [wantType l']. destruct l' as [|b' l']; [by eexists|]. destruct (nextWord (b' :: l')) as [keyBlob l''].
  destruct (base64_DecodeString keyBlob) as [keyBytes|e]; cbn [pr_res mbind pr_bind]; [|by eexists].
  destruct (ParsePublicKey_total keyBytes) as (r & -> & Hr). destruct r as [key|e]; cbn [mbind pr_bind]; [|by eexists].
  destruct (negb _); [by eexists|]. eexists. split; [done|]. intros m h k [= <- <- <-]. split; [by apply (Hr key)|done].
Qed.

(** The lines that declare something, and what they declare. *)
Definition meaningful (line : gostring) : bool := negb (match line with [] => true | c :: _ => c =c "#" end).
Definition declarations (tokens : list gostring) : list gostring := List.filter meaningful (map trimSpace tokens).
Definition entry_of (line : gostring) : list entry := match parseLine line with Some (Ok e) => [e] | _ => [] end.
Definition entries_of (data : gostring) : list entry := flat_map entry_of (declarations (fst (scan_lines (Split data chNL)))).
Definition entries (open : gostring -> res (gostring * option error)) (fn : gostring) : list entry :=
  match open fn with Ok (data, _) => entries_of data | Err _ => [] end.

(** The database holds exactly what the entries say. *)
Record represents (db : hostKeyDB) (es : list entry) : Prop := {
  rep_wf : forall m p k, (m, p, k) ∈ es -> wf_key k;
  rep_revoked : forall b, is_Some (db_revoked db !! b) <-> exists p k, (markerRevoked, p, k) ∈ es /\ marshalled k = b;
  rep_lines : forall c m k, (exists l, l ∈ db_lines db /\ line_cert l = c /\ line_matcher l = m /\ known_Key (line_knownKey l) = k) <->
    exists mk p, (mk, p, k) ∈ es /\ mk <> markerRevoked /\ c = (mk =s markerCert) /\ new_matcher p = Some (Ok m) }.

Lemma represents_new : represents newHostKeyDB [].
Proof.
  split.
  - intros m p k Hin. by apply not_elem_of_nil in Hin.
  - intros b. cbn. rewrite lookup_empty. split; [by intros [? ?]|]. intros (p & k & Hin & _). by apply not_elem_of_nil in Hin.
  - intros c m k. cbn. split; [intros (l & Hin & _)|intros (mk & p & Hin & _)]; by apply not_elem_of_nil in Hin.
Qed.

Lemma new_matcher_total p : p <> [] -> exists r, new_matcher p = Some r.
Proof. destruct p; [done|]. intros _. by eexists. Qed.

Lemma db_parseLine_spec db es line fn n :
  starts line -> represents db es ->
  exists r, db_parseLine db line fn n = Some r /\ forall db', r = Ok db' -> represents db' (es ++ entry_of line).
Proof.
  intros Hl Hrep. unfold db_parseLine, entry_of. destruct (parseLine_total line Hl) as (r & -> & Hr).
  destruct r as [[[marker pattern] key]|e]; cbn [mbind pr_bind]; [|by eexists]. destruct (Hr _ _ _ eq_refl) as [Hk Hp].
  destruct Hrep as [Hwf Hrv Hln].
  assert (Hwf' : forall m p k, (m, p, k) ∈ es ++ [(marker, pattern, key)] -> wf_key k).
  { intros m p k. rewrite elem_of_app, list_elem_of_singleton. intros [Hin|[= -> -> ->]]; [by eapply Hwf|done]. }
  destruct (marker =s markerRevoked) eqn:Em.
  - apply gos_eqb_eq in Em as ->. eexists. split; [done|]. intros db' [= <-]. split; [done| |]; cbn [db_revoked db_lines].
    + intros b. destruct (decide (b = marshalled key)) as [->|Hb].
      * rewrite lookup_insert_eq. split; [|by eexists]. intros _. exists pattern, key. split; [|done]. rewrite elem_of_app. right. by apply list_elem_of_singleton.
      * rewrite lookup_insert_ne by congruence. rewrite Hrv. split; intros (p & k & Hin & Hb'); exists p, k; (split; [|done]); rewrite elem_of_app in *.
        -- by left.
        -- destruct Hin as [?|Hin]; [done|]. apply list_elem_of_singleton in Hin. injection Hin as -> ->. congruence.
    + intros c m k. rewrite Hln. split; intros (mk & p & Hin & Hmk & Hrest); exists mk, p; (split; [|done]); rewrite elem_of_app in *.
      * by left.
      * destruct Hin as [?|Hin]; [done|]. apply list_elem_of_singleton in Hin. injection Hin as -> _ _. done.
  - destruct (new_matcher_total pattern Hp) as (r & Er). rewrite Er. destruct r as [m|e]; cbn [mbind pr_bind]; [|by eexists].
    eexists. split; [done|]. intros db' [= <-]. apply gos_eqb_neq in Em. split; [done| |]; cbn [db_revoked db_lines].
    + intros b. rewrite Hrv. split; intros (p & k & Hin & Hb'); exists p, k; (split; [|done]); rewrite elem_of_app in *; [by left|].
      destruct Hin as [?|Hin]; [done|]. apply list_elem_of_singleton in Hin. injection Hin as <- _ _. done.
    + intros c m' k. split.
      * intros (l & Hin & Hc & Hm & Hkk). apply elem_of_app in Hin as [Hin|Hin].
        -- destruct (proj1 (Hln c m' k) ltac:(by exists l)) as (mk & p & Hin' & Hrest). exists mk, p. split; [|done]. apply elem_of_app. by left.
        -- apply list_elem_of_singleton in Hin as ->. cbn in Hc, Hm, Hkk. subst. exists marker, pattern. split; [|done].
           apply elem_of_app. right. by apply list_elem_of_singleton.
      * intros (mk & p & Hin & Hmk & Hc & Hm). apply elem_of_app in Hin as [Hin|Hin].
        -- destruct (proj2 (Hln c m' k) ltac:(by exists mk, p)) as (l & Hin' & Hrest). exists l. split; [|done]. apply elem_of_app. by left.
        -- apply list_elem_of_singleton in Hin. injection Hin as -> -> ->. rewrite Er in Hm. injection Hm as ->. subst c.
           eexists. split; [apply elem_of_app; right; by apply list_elem_of_singleton|]. done.
Qed.

Lemma read_lines_spec tokens fn n db es :
  represents db es ->
  exists r, read_lines tokens fn n db = Some r /\ forall db', r = Ok db' -> represents db' (es ++ flat_map entry_of (declarations tokens)).
Proof.
  revert n db es. induction tokens as [|line tokens IH]; intros n db es Hrep; cbn [read_lines].
  { eexists. split; [done|]. intros db' [= <-]. by rewrite app_nil_r. }
  unfold declarations. cbn [map List.filter]. unfold meaningful at 1. set (l := trimSpace line).
  destruct (match l with [] => true | c :: _ => c =c "#" end); cbn [negb]; [by apply IH|].
  destruct (db_parseLine_spec db es l fn (n + 1) (trimSpace_starts line) Hrep) as (r & -> & Hr).
  destruct r as [db'|e]; [|by eexists]. destruct (IH (n + 1) db' _ (Hr _ eq_refl)) as (r & -> & Hr'). eexists. split; [done|].
  intros db'' ->. cbn [flat_map]. rewrite app_assoc. by apply Hr'.
Qed.
Lemma read_hosts_spec data failed fn db es :
  represents db es ->
  exists r, Read data failed fn db = Some r /\ forall db', r = Ok db' -> represents db' (es ++ entries_of data).
Proof.
  intros Hrep. unfold Read, entries_of. destruct (scan_lines _) as [tokens tooLong]. cbn [fst].
  destruct (read_lines_spec tokens fn 0 db es Hrep) as (r & -> & Hr). destruct r as [db'|e]; cbn [mbind pr_bind]; [|by eexists].
  destruct tooLong; [by eexists|]. destruct failed; [by eexists|]. eexists. split; [done|]. intros db'' [= <-]. by apply Hr.
Qed.
Lemma read_files_spec open files db es :
  represents db es ->
  exists r, read_files open files db = Some r /\ forall db', r = Ok db' -> represents db' (es ++ flat_map (entries open) files).
Proof.
  revert db es. induction files as [|fn files IH]; intros db es Hrep; cbn [read_files].
  { eexists. split; [done|]. intros db' [= <-]. by rewrite app_nil_r. }
  cbn [flat_map]. unfold entries at 1. destruct (open fn) as [[data failed]|e]; cbn [pr_res mbind pr_bind]; [|by eexists].
  destruct (read_hosts_spec data failed fn db es Hrep) as (r & -> & Hr). destruct r as [db'|e]; cbn [mbind pr_bind]; [|by eexists].
  destruct (IH db' _ (Hr _ eq_refl)) as (r & -> & Hr'). eexists. split; [done|]. intros db'' ->. rewrite app_assoc. by apply Hr'.
Qed.

(** ** Decisions *)
Section Decide.
Context (db : hostKeyDB) (es : list entry) (Hrep : represents db es).

(** An entry that is not a revocation covers the address with a key of the same bytes. *)
Definition listed (P : gostring -> Prop) (a : addr) (key : PublicKey) : Prop :=
  exists mk p k m, (mk, p, k) ∈ es /\ mk <> markerRevoked /\ P mk /\ marshalled k = marshalled key /\
    new_matcher p = Some (Ok m) /\ covers m a.
Definition revoked (key : PublicKey) : Prop := exists p k, (markerRevoked, p, k) ∈ es /\ marshalled k = marshalled key.

Lemma check_lines_spec lines a key want :
  check_lines lines a key want = None <->
  exists l, l ∈ lines /\ covers (line_matcher l) a /\ marshalled (known_Key (line_knownKey l)) = marshalled key.
Proof.
  revert want. induction lines as [|l lines IH]; intros want; cbn [check_lines].
  { split; [done|]. intros (l & Hin & _). by apply not_elem_of_nil in Hin. }
  destruct (matcher_match (line_matcher l) a) eqn:Em; cbn [negb].
  - apply matcher_match_spec in Em. unfold keyEq. destruct (gos_eqb _ _) eqn:Ek.
    + apply gos_eqb_eq in Ek. split; [|done]. intros _. exists l. split; [left|done].
    + apply gos_eqb_neq in Ek. rewrite IH. split; intros (l' & Hin & Hc & Hk); exists l'; (split; [|done]); [by right|].
      apply elem_of_cons in Hin as [->|?]; done.
  - rewrite IH. split; intros (l' & Hin & Hc & Hk); exists l'; (split; [|done]); [by right|].
    apply elem_of_cons in Hin as [->|?]; [|done]. apply matcher_match_spec in Hc. congruence.
Qed.
Lemma listed_lines a key :
  (exists l, l ∈ db_lines db /\ covers (line_matcher l) a /\ marshalled (known_Key (line_knownKey l)) = marshalled key) <->
  listed (fun _ => True) a key.
Proof.
  split.
  - intros (l & Hin & Hc & Hk). destruct (proj1 (rep_lines _ _ Hrep (line_cert l) (line_matcher l) (known_Key (line_knownKey l))) ltac:(by exists l))
      as (mk & p & Hin' & Hmk & _ & Hm). by exists mk, p, (known_Key (line_knownKey l)), (line_matcher l).
  - intros (mk & p & k & m & Hin & Hmk & _ & Hk & Hm & Hc).
    destruct (proj2 (rep_lines _ _ Hrep (mk =s markerCert) m k) ltac:(by exists mk, p)) as (l & Hin' & _ & <- & <-). by exists l.
Qed.

Lemma check_spec address remote key :
  check db address remote key = None <->
  ~ revoked key /\ exists a, (exists hp, SplitHostPort (addr_text remote) = Ok hp /\
      (if address =s [] then Ok hp else SplitHostPort address) = Ok (addr_host a, addr_port a)) /\ listed (fun _ => True) a key.
Proof.
  unfold check. pose proof (rep_revoked _ _ Hrep (marshalled key)) as Hrv. fold (revoked key) in Hrv.
  destruct (db_revoked db !! marshalled key) as [kk|].
  { split; [done|]. intros [Hn _]. exfalso. apply Hn, Hrv. by eexists. }
  assert (Hn : ~ revoked key) by (rewrite <- Hrv; by intros [? ?]).
  destruct (SplitHostPort (addr_text remote)) as [hp|e].
  2:{ split; [done|]. by intros (_ & a & (hp & ? & _) & _). }
  destruct (if address =s [] then Ok hp else SplitHostPort address) as [[h p]|e] eqn:Ea.
  2:{ split; [done|]. intros (_ & a & (hp' & [= <-] & E) & _). rewrite Ea in E. done. }
  unfold checkAddr. destruct (check_lines _ _ _ _) as [want|] eqn:Ec.
  - split; [done|]. intros (_ & a & (hp' & [= <-] & E) & Hl). rewrite Ea in E. injection E as -> ->. destruct a as [ah ap].
    apply listed_lines, (check_lines_spec _ _ _ []) in Hl. cbn [addr_host addr_port] in Ec. congruence.
  - split; [|done]. intros _. split; [done|]. exists (mkAddr h p). split; [by exists hp|]. apply listed_lines. by eapply check_lines_spec.
Qed.

Lemma IsHostAuthority_spec k address :
  IsHostAuthority db (Some k) address = true <->
  exists host port, SplitHostPort address = Ok (host, port) /\ listed (fun mk => mk = markerCert) (mkAddr host port) k.
Proof.
  unfold IsHostAuthority. destruct (SplitHostPort address) as [[h p]|e]; [|split; [done|]; by intros (? & ? & ? & _)].
  rewrite existsb_exists. split.
  - intros (l & Hin & Hb). exists h, p. split; [done|]. apply list_elem_of_In in Hin.
    apply andb_true_iff in Hb as [Hb Hm]. apply andb_true_iff in Hb as [Hc Hk]. unfold keyEq in Hk. apply gos_eqb_eq in Hk.
    destruct (proj1 (rep_lines _ _ Hrep true (line_matcher l) (known_Key (line_knownKey l))) ltac:(by exists l)) as (mk & pat & Hin' & Hmk & Hce & Hnm).
    symmetry in Hce. apply gos_eqb_eq in Hce. exists mk, pat, (known_Key (line_knownKey l)), (line_matcher l).
    repeat (split; [done|]). by apply matcher_match_spec.
  - intros (h' & p' & [= <- <-] & mk & pat & k' & m & Hin & Hmk & -> & Hk & Hm & Hc).
    destruct (proj2 (rep_lines _ _ Hrep true m k') ltac:(exists markerCert, pat; by rewrite gos_eqb_refl)) as (l & Hin' & Hcl & <- & <-).
    exists l. split; [by apply list_elem_of_In|]. rewrite Hcl, (proj2 (matcher_match_spec _ _) Hc). unfold keyEq. rewrite Hk, gos_eqb_refl. done.
Qed.

Lemma IsRevoked_spec cert k :
  cert_SignatureKey cert = Some k -> IsRevoked db cert = false <-> ~ revoked (certificate cert) /\ ~ revoked k.
Proof.
  intros Hk. unfold IsRevoked. rewrite Hk, orb_false_iff, !bool_decide_eq_false.
  by rewrite (rep_revoked _ _ Hrep (marshalled (certificate cert))), (rep_revoked _ _ Hrep (marshalled k)).
Qed.
End Decide.

(** A host certificate is within its validity, for this host and without options. *)
Definition valid_at (now : Z) (host : gostring) (cert : Certificate) : Prop :=
  (forall opt, is_Some (cert_CriticalOptions cert !! opt) -> opt = sourceAddressCriticalOption) /\
  (cert_ValidPrincipals cert = [] \/ host ∈ cert_ValidPrincipals cert) /\
  cert_ValidAfter cert <= now /\ (cert_ValidBefore cert = CertTimeInfinity \/ now < cert_ValidBefore cert < 2 ^ 63).
Lemma acceptable_checker now db es host cert k :
  represents db es -> cert_SignatureKey cert = Some k ->
  acceptable (checker now db) host cert <-> ~ revoked es (certificate cert) /\ ~ revoked es k /\ valid_at now host cert.
Proof.
  intros Hrep Hk. unfold acceptable, valid_at. cbn [checker cc_IsRevoked cc_SupportedCriticalOptions cc_Clock].
  rewrite (IsRevoked_spec db es Hrep cert k Hk). split.
  - intros ([? ?] & Ho & ? & ? & ?). repeat (split; [done|]). split; [|done]. intros opt Hopt. destruct (Ho opt Hopt) as [?|Hin]; [done|].
    by apply not_elem_of_nil in Hin.
  - intros (? & ? & Ho & ? & ? & ?). repeat (split; [done|]). split; [|done]. intros opt Hopt. left. by apply Ho.
Qed.

Definition known (es : list entry) (now : Z) (address : gostring) (remote : net_addr) (key : PublicKey) : Prop :=
  match key with
  | certificate cert =>
      exists k host port, cert_CertType cert = HostCert /\ cert_SignatureKey cert = Some k /\ SplitHostPort address = Ok (host, port) /\
        listed es (fun mk => mk = markerCert) (mkAddr host port) k /\
        ~ revoked es key /\ ~ revoked es k /\ valid_at now host cert /\ verified cert
  | _ =>
      ~ revoked es key /\ exists a, (exists hp, SplitHostPort (addr_text remote) = Ok hp /\
        (if address =s [] then Ok hp else SplitHostPort address) = Ok (addr_host a, addr_port a)) /\ listed es (fun _ => True) a key
  end.

Lemma callback_spec range now db es address remote key :
  represents db es -> (forall m, range m ≡ₚ map fst (map_to_list m)) -> now < 2 ^ 63 -> wf_key key ->
  exists verdict, CheckHostKey (checker now db) range address remote key = Some verdict /\ (verdict = None <-> known es now address remote key).
Proof.
  intros Hrep Hr Hnow Hk.
  destruct key as [| | | | | |cert]; try (eexists; split; [reflexivity|]; by apply check_spec).
  destruct (CheckHostKey_spec (checker now db) range address remote cert Hr Hk Hnow) as (r & -> & Hiff).
  exists r. split; [done|]. rewrite Hiff. cbn [known checker cc_IsHostAuthority].
  destruct Hk as (_ & _ & _ & _ & _ & (k & Hsk & _) & _). rewrite Hsk. split.
  - intros (Ht & (f & [= <-] & Ha) & host & port & Hs & Hacc & Hv). apply (IsHostAuthority_spec db es Hrep) in Ha as (h & p & Hs' & Hl).
    rewrite Hs in Hs'. injection Hs' as <- <-. apply (acceptable_checker now db es host cert k Hrep Hsk) in Hacc as (? & ? & ?).
    by exists k, host, port.
  - intros (k' & host & port & Ht & [= <-] & Hs & Hl & ? & ? & ? & Hv). split; [done|]. split.
    + eexists. split; [done|]. apply (IsHostAuthority_spec db es Hrep). by exists host, port.
    + exists host, port. split; [done|]. split; [|done]. by apply (acceptable_checker now db es host cert k Hrep Hsk).
Qed.

(** ** The line of a key *)

(** Host names and ports without a special meaning in patterns. *)
Definition special : gostring := go ",:[]*?!|@#".
Definition plain (c : ascii) : Prop := graphic c /\ ~ In c special.
Lemma plain_graphic w : Forall plain w -> Forall graphic w.
Proof. intros Hw. eapply Forall_impl; [exact Hw|]. by intros c [? _]. Qed.
Lemma plain_ne h c : Forall plain h -> In c special -> c ∉ h.
Proof. rewrite Forall_forall. intros Hw Hc Hin. by destruct (Hw _ Hin) as [_ Hn]. Qed.
Ltac no_special := apply plain_ne; [assumption|cbn; tauto].

Definition plain_pattern (h p : gostring) : gostring := if p =s defaultSSHPort then h else "["%char :: h ++ go "]:" ++ p.

Lemma Split_plain h p : Forall plain h -> Forall plain p -> SplitHostPort (h ++ (":"%char :: p)) = Ok (h, p).
Proof. intros Hh Hp. apply SplitHostPort_plain; first [no_special|split; no_special]. Qed.
Lemma Normalize_plain h p : Forall plain h -> Forall plain p -> Normalize (h ++ (":"%char :: p)) = plain_pattern h p.
Proof.
  intros Hh Hp. unfold Normalize, plain_pattern. rewrite Split_plain by done.
  assert (HasPrefix h (go "[") = false) as ->; [|done].
  destruct (HasPrefix h (go "[")) eqn:E; [|done]. apply HasPrefix_char in E as (t & ->). exfalso.
  apply (plain_ne _ "["%char Hh); [cbn; tauto|left].
Qed.

Lemma matcher_plain h p : h <> [] -> Forall plain h -> Forall plain p ->
  new_matcher (plain_pattern h p) = Some (Ok (hostPatterns [mkPattern false (mkAddr h p)])).
Proof.
  intros Hne Hh Hp. assert (Hcomma : ","%char ∉ plain_pattern h p).
  { unfold plain_pattern. destruct (p =s _); [no_special|]. rewrite not_elem_of_cons. split; [done|].
    rewrite !not_elem_of_app. split; [no_special|]. split; [|no_special]. rewrite list_elem_of_In. cbn. intros [?|[?|[]]]; done. }
  unfold new_matcher, newHostnameMatcher. rewrite Split_nosep by done. unfold plain_pattern. destruct (p =s defaultSSHPort) eqn:Ep.
  - apply gos_eqb_eq in Ep as ->. destruct h as [|c h]; [done|].
    assert (Hc : forall d, In d special -> (c =c d) = false).
    { intros d Hd. apply Ascii.eqb_neq. intros ->. apply (plain_ne _ d Hh Hd). left. }
    rewrite (Hc "|"%char) by (cbn; tauto). cbn [host_patterns]. rewrite (Hc "!"%char), (Hc "["%char) by (cbn; tauto).
    assert (exists e, SplitHostPort (c :: h) = Err e) as [e ->].
    { unfold SplitHostPort. assert (LastIndexByte (c :: h) ":" = None) as ->; [|by eexists].
      assert (":"%char ∉ c :: h) as Hn by no_special. revert Hn. generalize (c :: h). clear. intros s.
      induction s as [|x s IH]; [done|]. intros [Hx Hs]%not_elem_of_cons. cbn. rewrite IH by done.
      by rewrite (proj2 (Ascii.eqb_neq x ":"%char)) by congruence. }
    done.
  - change (("["%char =c "|")) with false. cbv iota. cbn [host_patterns]. change (("["%char =c "!")) with false. cbv iota.
    change (("["%char =c "[")) with true. cbv iota.
    assert (SplitHostPort ("["%char :: h ++ go "]:" ++ p) = Ok (h, p)) as ->; [|done].
    apply SplitHostPort_bracketed; first [no_special|split; no_special].
Qed.

Lemma trimSpace_id s : starts s -> starts (rev s) -> trimSpace s = s.
Proof.
  assert (Hid : forall t, starts t -> TrimLeft t blanks = t).
  { intros [|c t] Ht; [done|]. cbn [TrimLeft]. rewrite blanks_spec. cbn [starts] in Ht. by rewrite Ht. }
  intros Hs Hr. unfold trimSpace, Trim, TrimRight. rewrite (Hid s Hs), (Hid _ Hr). apply rev_involutive.
Qed.
Lemma trimSpace_blank s : trimSpace (" "%char :: s) = trimSpace s.
Proof. done. Qed.
Lemma graphic_blank c : graphic c -> is_blank c = false.
Proof. intros Hc. rewrite <- blanks_spec. by apply graphic_not_blank. Qed.
Lemma graphic_starts w s : Forall graphic w -> w <> [] -> starts (w ++ s).
Proof. destruct w as [|c w]; [done|]. intros [Hc _]%Forall_cons _. by apply graphic_blank. Qed.
Lemma nextWord_word w s : Forall graphic w -> starts s -> starts (rev s) -> nextWord (w ++ (" "%char :: s)) = (w, s).
Proof.
  intros Hw Hs Hr. unfold nextWord. rewrite IndexAny_space, take_app_length, drop_app_length by done.
  by rewrite trimSpace_blank, trimSpace_id.
Qed.
Lemma nextWord_last w : Forall graphic w -> nextWord w = (w, []).
Proof. intros Hw. unfold nextWord. by rewrite IndexAny_word. Qed.

Lemma graphic_starts_rev w : Forall graphic w -> starts (rev w).
Proof.
  intros Hw. destruct w as [|c w _] using rev_ind; [done|]. rewrite rev_app_distr. cbn [rev app starts].
  apply Forall_app in Hw as [_ Hc]. apply Forall_cons in Hc as [Hc _]. by apply graphic_blank.
Qed.
Lemma starts_rev_app (s w : gostring) : w <> [] -> Forall graphic w -> starts (rev (s ++ w)).
Proof.
  intros Hne Hw. rewrite rev_app_distr. pose proof (graphic_starts_rev w Hw) as Hr. assert (rev w <> []) as Hn.
  { intros E. apply Hne. by rewrite <- (rev_involutive w), E. }
  by destruct (rev w).
Qed.
Lemma pattern_graphic h p : Forall plain h -> Forall plain p -> Forall graphic (plain_pattern h p).
Proof.
  intros Hh Hp. unfold plain_pattern. destruct (p =s _); [by apply plain_graphic|].
  apply (Forall_app _ (go "[") (h ++ go "]:" ++ p)). split; [by apply graphic_forallb|]. apply Forall_app. split; [by apply plain_graphic|]. apply Forall_app. split; [by apply graphic_forallb|by apply plain_graphic].
Qed.
Lemma pattern_first h p : h <> [] -> Forall plain h -> exists c w, plain_pattern h p = c :: w /\ c <> "@"%char /\ c <> "#"%char.
Proof.
  intros Hne Hh. unfold plain_pattern. destruct (p =s _); [|by do 2 eexists]. destruct h as [|c h]; [done|]. exists c, h. split; [done|].
  apply Forall_cons in Hh as [[_ Hn] _]. split; intros ->; apply Hn; cbn; tauto.
Qed.

(** A line of three words. *)
Lemma words_line (a b c : gostring) :
  Forall graphic a -> Forall graphic b -> Forall graphic c -> a <> [] -> b <> [] -> c <> [] ->
  let line := a ++ (" "%char :: (b ++ (" "%char :: c))) in
  nextWord line = (a, b ++ (" "%char :: c)) /\ nextWord (b ++ (" "%char :: c)) = (b, c) /\ nextWord c = (c, []) /\
  trimSpace line = line /\ dropCR line = line /\ chNL ∉ line.
Proof.
  intros Ha Hb Hc Hna Hnb Hnc. cbv zeta.
  assert (E : a ++ (" "%char :: (b ++ (" "%char :: c))) = (a ++ (" "%char :: b ++ [" "%char])) ++ c)
    by (rewrite <- !app_assoc; cbn [app]; by rewrite <- app_assoc).
  assert (Hrb : starts (rev (b ++ (" "%char :: c)))).
  { change (b ++ (" "%char :: c)) with (b ++ ([" "%char] ++ c)). rewrite app_assoc. by apply starts_rev_app. }
  split; [apply nextWord_word; [done|by apply graphic_starts|done]|].
  split; [apply nextWord_word; [done|rewrite <- (app_nil_r c); by apply graphic_starts|by apply graphic_starts_rev]|].
  split; [by apply nextWord_last|]. split; [apply trimSpace_id; [by apply graphic_starts|rewrite E; by apply starts_rev_app]|].
  split; [|apply not_elem_join; [by apply graphic_ne|done|apply not_elem_join; [by apply graphic_ne|done|by apply graphic_ne]]].
  rewrite E. unfold dropCR. rewrite rev_app_distr. destruct (rev c) as [|x xs] eqn:Er; [exfalso; apply Hnc; by rewrite <- (rev_involutive c), Er|].
  cbn [app]. destruct (x =c chCR) eqn:Ecr; [|done]. apply Ascii.eqb_eq in Ecr as ->. exfalso.
  apply (graphic_ne chCR c Hc); [done|]. apply list_elem_of_In, in_rev. rewrite Er. by left.
Qed.

(** The line of a key declares the key for its address. *)
Lemma parseLine_Line h p k m :
  h <> [] -> Forall plain h -> Forall plain p -> wf_key k -> small_key k -> key_Marshal k = Some m -> len m < 2 ^ 32 ->
  let line := Line [h ++ (":"%char :: p)] k in
  parseLine line = Some (Ok ([], plain_pattern h p, k)) /\ trimSpace line = line /\ meaningful line = true /\ dropCR line = line /\ chNL ∉ line.
Proof.
  intros Hne Hh Hp Hk Hs Hm Hl. cbv zeta. destruct (key_typed k Hk) as (t & Ht). destruct (type_graphic k t Hk Ht) as [Htg (ta & tw & Et & _)].
  assert (base64_EncodeToString m <> []) as Hbne.
  { destruct (marshal_type k m Hk Hm Hl) as (? & ? & _ & Hps). destruct m as [|? [|? [|? ?]]]; done. }
  assert (E : Line [h ++ (":"%char :: p)] k = plain_pattern h p ++ (" "%char :: (t ++ (" "%char :: base64_EncodeToString m)))).
  { unfold Line. cbn [map Join]. rewrite Normalize_plain by done. unfold serialize, type_of, marshalled. by rewrite Ht, Hm. }
  rewrite E. clear E. destruct (pattern_first h p Hne Hh) as (c & w & Epat & Hc1 & Hc2).
  destruct (words_line (plain_pattern h p) t (base64_EncodeToString m)) as (Hn1 & Hn2 & Hn3 & Htr & Hcr & Hnl);
    [by apply pattern_graphic|done|apply base64_graphic|by rewrite Epat|by rewrite Et|done|].
  split; [|split; [done|split; [|done]]]; [|rewrite Epat; unfold meaningful; cbn [app]; by rewrite (proj2 (Ascii.eqb_neq _ _) Hc2)].
  unfold parseLine. rewrite Hn1. cbv beta iota.
  assert ((plain_pattern h p =s markerCert) || (plain_pattern h p =s markerRevoked) = false) as ->.
  { rewrite Epat. apply orb_false_iff. split; apply gos_eqb_neq; intros [= E _]; by apply Hc1. }
  rewrite Hn1. cbv beta iota. rewrite Epat at 1. rewrite (proj2 (Ascii.eqb_neq _ _) Hc1).
  destruct (t ++ (" "%char :: base64_EncodeToString m)) as [|x xs] eqn:Ex; [by rewrite Et in Ex|]. rewrite Hn2.
  destruct (base64_EncodeToString m) as [|y ys] eqn:Ey; [done|]. rewrite Hn3, <- Ey, base64_Decode_Encode.
  cbn [pr_res mbind pr_bind]. destruct (key_reads_back k Hk) as (s' & Hs' & Hpk). rewrite Hm in Hs'. injection Hs' as <-. rewrite Hpk by done.
  cbn [mbind pr_bind]. unfold type_of. rewrite Ht. cbn [default from_option]. unfold id. by rewrite gos_eqb_refl.
Qed.

Lemma wild_plain h : Forall plain h -> wild (strict h) h.
Proof.
  assert (Hw : forall s, Forall plain s -> wild s s /\ strict s = s).
  { induction 1 as [|c s [_ Hc] Hs [IHw IHs]]; [split; [constructor|done]|].
    assert (c <> "*"%char) as Hstar by (intros ->; apply Hc; cbn; tauto). split; [by constructor|].
    destruct s as [|d s]; cbn [strict]; [by rewrite (proj2 (Ascii.eqb_neq _ _) Hstar)|]. by f_equal. }
  intros Hh. destruct (Hw h Hh) as [? ->]. done.
Qed.

(** A file with the line of a key. *)
Lemma read_Line h p k m open fn rest :
  h <> [] -> Forall plain h -> Forall plain p -> wf_key k -> small_key k -> key_Marshal k = Some m -> len m < 2 ^ 32 ->
  let line := Line [h ++ (":"%char :: p)] k in
  len line < MaxScanTokenSize -> open fn = Ok (line ++ [chNL], rest) ->
  entries open fn = [([], plain_pattern h p, k)] /\
  (rest = None -> read_files open [fn] newHostKeyDB = Some (Ok (mkDB ∅ [mkLine false (hostPatterns [mkPattern false (mkAddr h p)]) (mkKnownKey k fn 1)]))).
Proof.
  intros Hne Hh Hp Hk Hs Hm Hl line Hlen Ho. destruct (parseLine_Line h p k m) as (Hpl & Htr & Hme & Hcr & Hnl); [done..|]. fold line in Hpl, Htr, Hme, Hcr, Hnl.
  assert (Hsc : scan_lines (Split (line ++ [chNL]) chNL) = ([line], false)).
  { rewrite Split_app by done. cbn [Split scan_lines]. rewrite (proj2 (Z.leb_gt _ _)) by done. change (MaxScanTokenSize <=? len []) with false. by rewrite Hcr. }
  split.
  - unfold entries, entries_of. rewrite Ho, Hsc. unfold declarations. cbn [fst map List.filter]. rewrite Htr, Hme. cbn [flat_map].
    unfold entry_of. by rewrite Hpl.
  - intros ->. cbn [read_files]. rewrite Ho. cbn [pr_res mbind pr_bind]. unfold Read. rewrite Hsc. cbn [read_lines]. rewrite Htr.
    assert (match line with [] => true | c :: _ => c =c "#" end = false) as ->.
    { unfold meaningful in Hme. by apply negb_true_iff in Hme. }
    unfold db_parseLine. rewrite Hpl. cbn [mbind pr_bind]. rewrite (proj2 (gos_eqb_neq [] markerRevoked)) by done.
    rewrite matcher_plain by done. done.
Qed.

(** C26. [New] reads every set of files without a panic, and the callback it returns decides
    every well-formed key exactly as the lines say: a plain key is accepted when no line
    revokes it and some line that covers the address declares it, a certificate when it is
    a valid host certificate for the host, signed by a key that a line with the marker of
    authorities declares for the address, and neither is revoked.  A line covers the
    addresses its patterns name, where a star stands for any text (at the end of a pattern
    for some text) unless a negated pattern names them, or those with its hash.  The line
    that [Line] writes for a host key makes the callback accept the key at its address. *)
Theorem known_hosts_checked open range now :
  (forall m, range m ≡ₚ map fst (map_to_list m)) -> now < 2 ^ 63 ->
  (forall files, exists r, New open range now files = Some r /\
     forall cb, r = Ok cb -> forall address remote key, wf_key key ->
       exists verdict, cb address remote key = Some verdict /\
         (verdict = None <-> known (flat_map (entries open) files) now address remote key)) /\
  (forall h p k m fn, h <> [] -> Forall plain h -> Forall plain p -> wf_plain k -> key_Marshal k = Some m -> len m < 2 ^ 32 ->
     len (Line [h ++ (":"%char :: p)] k) < MaxScanTokenSize -> open fn = Ok (Line [h ++ (":"%char :: p)] k ++ [chNL], None) ->
     exists cb, New open range now [fn] = Some (Ok cb) /\
       forall remote hp, SplitHostPort (addr_text remote) = Ok hp -> cb (h ++ (":"%char :: p)) remote k = Some None).
Proof.
  intros Hr Hnow. assert (Hnew : forall files, exists r, New open range now files = Some r /\
     forall cb, r = Ok cb -> forall address remote key, wf_key key -> exists verdict, cb address remote key = Some verdict /\
         (verdict = None <-> known (flat_map (entries open) files) now address remote key)).
  { intros files. unfold New. destruct (read_files_spec open files newHostKeyDB [] represents_new) as (r & -> & Hrep).
    destruct r as [db|e]; cbn [mbind pr_bind]; [|by eexists]. eexists. split; [done|]. intros cb [= <-] address remote key Hk.
    apply callback_spec; [by apply Hrep|done..]. }
  split; [exact Hnew|]. intros h p k m fn Hne Hh Hp Hk Hm Hl Hlen Ho. destruct (plain_key k Hk) as [Hwf _].
  assert (small_key k) as Hsmall by (by destruct k).
  destruct (read_Line h p k m open fn None) as [Hes Hread]; [done..|]. specialize (Hread eq_refl).
  destruct (Hnew [fn]) as (r & Hn & Hcb). unfold New in Hn |- *. rewrite Hread in Hn |- *. cbn [mbind pr_bind] in Hn |- *. injection Hn as <-.
  eexists. split; [done|]. intros remote hp Hrem. destruct (Hcb _ eq_refl (h ++ (":"%char :: p)) remote k Hwf) as (v & Hv & Hiff).
  rewrite Hv. f_equal. apply Hiff. cbn [flat_map]. rewrite Hes, app_nil_r.
  assert (Hk' : ~ revoked [([], plain_pattern h p, k)] k /\ exists a, (exists hp, SplitHostPort (addr_text remote) = Ok hp /\
        (if (h ++ (":"%char :: p)) =s [] then Ok hp else SplitHostPort (h ++ (":"%char :: p))) = Ok (addr_host a, addr_port a)) /\
        listed [([], plain_pattern h p, k)] (fun _ => True) a k).
  { split; [intros (? & ? & Hin & _); apply list_elem_of_singleton in Hin; by injection Hin|]. exists (mkAddr h p). split.
    - exists hp. split; [done|]. rewrite (proj2 (gos_eqb_neq _ _)) by (by destruct h). by apply Split_plain.
    - exists [], (plain_pattern h p), k, (hostPatterns [mkPattern false (mkAddr h p)]). split; [by apply list_elem_of_singleton|].
      do 3 (split; [done|]). split; [by apply matcher_plain|]. cbn [covers]. split.
      + eexists. split; [by apply list_elem_of_singleton|]. split; [by apply wild_plain|done].
      + intros q Hq. apply list_elem_of_singleton in Hq as ->. done. }
  by destruct k.
Qed.
End Hosts.

Definition sample_file (fn : gostring) : res (gostring * option error) :=
  Ok (@Line sample_kexlib [go "example.org:22"] plain_sample ++ [chNL], None).
Definition sample_text (remote : net_addr) : gostring := go "192.0.2.1:22".
Lemma known_hosts_checked_witness :
  exists cb, @New sample_crypto sample_kexlib ascii_tables sample_siglib sample_text sample_file sample_range 0 [go "known_hosts"] = Some (Ok cb) /\
    cb (go "example.org:22") NoAddr plain_sample = Some None.
Proof.
  destruct (proj2 (@known_hosts_checked sample_crypto sample_kexlib ascii_tables sample_siglib sample_text sample_kexlaws
              sample_file sample_range 0 (fun m => reflexivity _) ltac:(reflexivity))
              (go "example.org") (go "22") plain_sample (default [] (key_Marshal plain_sample)) (go "known_hosts")) as (cb & Hn & Hcb).
  - done.
  - apply Forall_forall. intros c Hc. apply list_elem_of_In in Hc. cbn in Hc. unfold plain, graphic. destruct_or! Hc; subst; try done;
      (split; [vm_compute; split; [discriminate|reflexivity]|]; cbn; intros Hx; destruct_or! Hx; done).
  - apply Forall_forall. intros c Hc. apply list_elem_of_In in Hc. cbn in Hc. unfold plain, graphic. destruct_or! Hc; subst; try done;
      (split; [vm_compute; split; [discriminate|reflexivity]|]; cbn; intros Hx; destruct_or! Hx; done).
  - reflexivity.
  - reflexivity.
  - vm_compute. reflexivity.
  - vm_compute. reflexivity.
  - reflexivity.
  - exists cb. split; [exact Hn|]. apply (Hcb NoAddr (go "192.0.2.1", go "22")). reflexivity.
Defined.

(** A star at the end of a pattern does not stand for the empty text. *)
Example star_at_end : wildcardMatch (go "server*") (go "server") = false /\ wildcardMatch (go "server*.org") (go "server.org") = true.
Proof. split; reflexivity. Qed.
