(* ===== verification/Bcrypt.v ===== *)
(** * The key derivation of OpenSSH private keys:
    [third/ssh/internal/bcrypt_pbkdf/bcrypt_pbkdf.go].

    Blowfish ([golang.org/x/crypto/blowfish]) is a parameter with what it documents: a salted
    cipher exists for every key that is not empty, and a block of eight bytes is encrypted
    to eight bytes.  [None] is a panic.

    Proved: a key of the length asked for is derived, or one of the documented errors
    reported, without a panic. *)
From Stdlib Require Import Ascii String ZArith Lia.
From stdpp Require Import base gmap strings list.
From S2P Require Import Prelude GoStrings SshWire SshAlgos GoCrypto.
Local Open Scope Z_scope.

Class Blowfish := {
  bf_Cipher : Type;
  NewSaltedCipher : gostring -> gostring -> res bf_Cipher;
  ExpandKey : gostring -> bf_Cipher -> bf_Cipher;
  bf_Encrypt : bf_Cipher -> gostring -> gostring }.
Class BlowfishLaws `{Blowfish} := {
  NewSaltedCipher_ok : forall key salt, key <> [] -> exists c, NewSaltedCipher key salt = Ok c;
  bf_Encrypt_length : forall c x, length x = 8%nat -> length (bf_Encrypt c x) = 8%nat }.

Definition bcrypt_blockSize : Z := 32.
Definition magic : gostring := go "OxychromaticBlowfishSwatDynamite".

(** [out[i:i+n]] for [i] in steps of [n]. *)
Fixpoint chunks (k n : nat) (s : gostring) : list gostring :=
  match k with O => [] | S k => take n s :: chunks k n (drop n s) end.

Section Bcrypt.
Context `{CryptoLib, Blowfish}.

Definition bcryptHash (shapass shasalt : gostring) : option gostring :=
  match NewSaltedCipher shapass shasalt with
  | Err _ => None
  | Ok c =>
      let c := Nat.iter 64 (fun c => ExpandKey shapass (ExpandKey shasalt c)) c in
      let out := concat (map (Nat.iter 64 (bf_Encrypt c)) (chunks 4 8 magic)) in
      Some (concat (map (@rev ascii) (chunks 8 4 out)))
  end.

(** The rounds after the first, [n] of them. *)
Fixpoint more_rounds (n : nat) (shapass tmp out : gostring) : option gostring :=
  match n with
  | O => Some out
  | S n =>
      tmp ← bcryptHash shapass (digest SHA512 tmp);
      more_rounds n shapass tmp (xor_bytes out tmp)
  end.
Definition block_key (shapass salt : gostring) (rounds block : Z) : option gostring :=
  tmp ← bcryptHash shapass (digest SHA512 (salt ++ be_bytes 4 block));
  more_rounds (Z.to_nat (rounds - 1)) shapass tmp tmp.
(** The outputs of blocks [block], [block + 1], ... *)
Fixpoint block_keys (n : nat) (shapass salt : gostring) (rounds block : Z) : option (list gostring) :=
  match n with
  | O => Some []
  | S n => out ← block_key shapass salt rounds block; outs ← block_keys n shapass salt rounds (block + 1); Some (out :: outs)
  end.
(** [key[i*numBlocks+(block-1)] = out[i]]. *)
Definition interleave (outs : list gostring) : gostring :=
  concat (map (fun i => map (fun out => nth i out chNUL) outs) (seq 0 32)).

Definition bcrypt_Key (password salt : gostring) (rounds keyLen : Z) : option (res gostring) :=
  if rounds <? 1 then Some (Err (errors_New (go "bcrypt_pbkdf: number of rounds is too small")))
  else if len password =? 0 then Some (Err (errors_New (go "bcrypt_pbkdf: empty password")))
  else if (len salt =? 0) || (2 ^ 20 <? len salt) then Some (Err (errors_New (go "bcrypt_pbkdf: bad salt length")))
  else if 1024 <? keyLen then Some (Err (errors_New (go "bcrypt_pbkdf: keyLen is too large")))
  else
    let numBlocks := (keyLen + bcrypt_blockSize - 1) / bcrypt_blockSize in
    outs ← block_keys (Z.to_nat numBlocks) (digest SHA512 password) salt rounds 1;
    Some (Ok (take (Z.to_nat keyLen) (interleave outs))).

Context `{!CryptoLaws, !BlowfishLaws}.

Lemma chunks_length k n s : (k * n <= length s)%nat -> Forall (fun c => length c = n) (chunks k n s) /\ length (chunks k n s) = k.
Proof.
  revert s. induction k as [|k IH]; intros s Hs; [split; [constructor|done]|]. cbn [chunks length].
  destruct (IH (drop n s)) as [Hf Hl]; [rewrite length_drop; lia|]. split; [|lia]. constructor; [|done]. rewrite length_take. lia.
Qed.
Lemma concat_length (l : list gostring) n : Forall (fun c => length c = n) l -> length (concat l) = (length l * n)%nat.
Proof. induction 1 as [|c l Hc _ IH]; [done|]. cbn [concat length]. rewrite length_app. lia. Qed.
Lemma iter_Encrypt_length c n x : length x = 8%nat -> length (Nat.iter n (bf_Encrypt c) x) = 8%nat.
Proof. intros Hx. induction n as [|n IH]; [done|]. cbn [Nat.iter nat_rect]. by apply bf_Encrypt_length. Qed.

Lemma bcryptHash_ok shapass shasalt : shapass <> [] -> exists out, bcryptHash shapass shasalt = Some out /\ length out = 32%nat.
Proof.
  intros Hne. unfold bcryptHash. destruct (NewSaltedCipher_ok shapass shasalt Hne) as (c & ->). eexists. split; [done|].
  set (c' := Nat.iter 64 _ c). destruct (chunks_length 4 8 magic) as [Hf Hl]; [cbn; lia|].
  set (out := concat (map (Nat.iter 64 (bf_Encrypt c')) (chunks 4 8 magic))). assert (length out = 32%nat) as Ho.
  { unfold out. rewrite (concat_length _ 8), length_map, Hl; [done|]. apply Forall_map. eapply Forall_impl; [exact Hf|]. intros x. apply iter_Encrypt_length. }
  destruct (chunks_length 8 4 out) as [Hf' Hl']; [lia|]. rewrite (concat_length _ 4), length_map, Hl'; [done|]. apply Forall_map.
  eapply Forall_impl; [exact Hf'|]. intros x Hx. cbn. by rewrite length_rev.
Qed.

Lemma more_rounds_ok n shapass tmp out :
  shapass <> [] -> length out = 32%nat -> exists r, more_rounds n shapass tmp out = Some r /\ length r = 32%nat.
Proof.
  intros Hne. revert tmp out. induction n as [|n IH]; intros tmp out Hl; [by exists out|]. cbn [more_rounds].
  destruct (bcryptHash_ok shapass (digest SHA512 tmp) Hne) as (t & -> & Ht). apply IH. rewrite length_xor_bytes. lia.
Qed.
Lemma block_keys_ok n shapass salt rounds block :
  shapass <> [] -> exists outs, block_keys n shapass salt rounds block = Some outs /\ length outs = n.
Proof.
  intros Hne. revert block. induction n as [|n IH]; intros block; [by exists []|]. cbn [block_keys]. unfold block_key.
  destruct (bcryptHash_ok shapass (digest SHA512 (salt ++ be_bytes 4 block)) Hne) as (t & -> & Ht). cbn [mbind option_bind].
  destruct (more_rounds_ok (Z.to_nat (rounds - 1)) shapass t t Hne Ht) as (r & -> & Hr). cbn [mbind option_bind].
  destruct (IH (block + 1)) as (outs & -> & Hl). eexists. split; [done|]. cbn. lia.
Qed.
Lemma interleave_length outs : length (interleave outs) = (32 * length outs)%nat.
Proof.
  unfold interleave. rewrite (concat_length _ (length outs)), length_map, length_seq; [done|]. apply Forall_map, Forall_forall. intros i _.
  apply length_map.
Qed.

(** A key has the length asked for; the errors are those of the arguments. *)
Lemma bcrypt_Key_ok password salt rounds keyLen :
  0 <= keyLen ->
  exists r, bcrypt_Key password salt rounds keyLen = Some r /\
    (1 <= rounds -> password <> [] -> 0 < len salt <= 2 ^ 20 -> keyLen <= 1024 -> exists k, r = Ok k) /\
    forall k, r = Ok k -> len k = keyLen.
Proof.
  intros Hk. unfold bcrypt_Key. destruct (Z.ltb_spec rounds 1); [eexists; split; [done|]; split; [lia|done]|].
  destruct (Z.eqb_spec (len password) 0) as [E|E].
  { eexists. split; [done|]. split; [|done]. intros _ Hp. destruct password; [done|]. rewrite len_cons in E. pose proof (len_nonneg password). lia. }
  destruct ((len salt =? 0) || (2 ^ 20 <? len salt)) eqn:Es; [eexists; split; [done|]; split; [lia|done]|].
  destruct (Z.ltb_spec 1024 keyLen); [eexists; split; [done|]; split; [lia|done]|].
  destruct (block_keys_ok (Z.to_nat ((keyLen + bcrypt_blockSize - 1) / bcrypt_blockSize)) (digest SHA512 password) salt rounds 1) as (outs & -> & Hl).
  { intros E'. pose proof (digest_length SHA512 password) as Hd. rewrite E' in Hd. done. }
  cbn [mbind option_bind]. eexists. split; [done|]. split; [by eexists|]. intros k [= <-]. unfold len.
  rewrite length_take, interleave_length, Hl. unfold bcrypt_blockSize in *.
  assert (keyLen <= 32 * ((keyLen + 32 - 1) / 32)); [|lia]. pose proof (Z.div_mod (keyLen + 32 - 1) 32 ltac:(lia)).
  pose proof (Z.mod_pos_bound (keyLen + 32 - 1) 32 ltac:(lia)). lia.
Qed.
End Bcrypt.

(** An instance of the laws. *)
#[export] Instance sample_blowfish : Blowfish := {|
  bf_Cipher := unit;
  NewSaltedCipher key salt := match key with [] => Err (errors_New (go "invalid key size 0")) | _ => Ok tt end;
  ExpandKey _ c := c;
  bf_Encrypt _ x := rev x |}.
#[export] Instance sample_blowfish_laws : BlowfishLaws.
Proof.
  split.
  - intros [|c key] salt Hne; [done|]. by exists tt.
  - intros c x Hx. cbn. by rewrite length_rev.
Qed.
