(* ===== verification/PrivKeys.v ===== *)
(** * Private keys: [ParseRawPrivateKey], the OpenSSH format and [NewSignerFromKey] of
    [third/ssh/keys.go].

    PEM, the PKCS and SEC formats of [crypto/x509], ASN.1, the checks of [rsa.PrivateKey]
    and Blowfish are parameters.  A parser returns an option: [None] is a panic.  Errors
    that callers tell apart ([PassphraseMissingError], [x509.IncorrectPasswordError]) are
    constructors of [keyError].  Decryption works in place on a buffer that is not used
    again, so it returns a new value.

    Proved: the OpenSSH parser returns on every input, only with keys that pass the checks
    and whose public half is well-formed, and every such key written with or without a
    passphrase is read back with it. *)
From Stdlib Require Import Ascii String ZArith Lia.
From stdpp Require Import base gmap strings list.
From S2P Require Import Prelude GoStrings SshWire SshMessages SshAlgos GoCrypto GoIO SshCipher SshAuth KexLib SshKex SshHandshake SshKeys SshSigners Bcrypt.
Local Open Scope Z_scope.

(** What [crypto.PrivateKey] holds. *)
Inductive rawKey :=
| rsaRaw (N E D P Q Qinv : Z)
| ed25519Raw (key : gostring)
| ecdsaRaw (c : Curve) (X Y D : Z)
| dsaRaw (param : dsaParameters) (Y X : Z)
| otherRaw (typeName : gostring).

Inductive keyError :=
| KeyErr (e : error)
| PassphraseMissing (pub : option PublicKey)
| IncorrectPassword.
Definition keyError_Error (e : keyError) : gostring :=
  match e with
  | KeyErr e => err_msg e
  | PassphraseMissing _ => go "ssh: this private key is passphrase protected"
  | IncorrectPassword => go "x509: decryption password incorrect"
  end.

(** The monad of the parsers: a panic, an error or a value. *)
Definition kp (A : Type) : Type := option (result keyError A).
#[export] Instance kp_ret : MRet kp := fun A a => Some (Ok a).
#[export] Instance kp_bind : MBind kp := fun A B f m =>
  match m with None => None | Some (Err e) => Some (Err e) | Some (Ok a) => f a end.
Definition kp_fail {A} (e : keyError) : kp A := Some (Err e).
Definition kp_error {A} (msg : gostring) : kp A := kp_fail (KeyErr (errors_New msg)).
Definition kp_res {A} (r : res A) : kp A := Some (match r with Ok a => Ok a | Err e => Err (KeyErr e) end).

(** ** Struct types *)
Definition openSSHEncryptedPrivateKey : structType :=
  MkStruct (go "openSSHEncryptedPrivateKey") []
    [(go "CipherName", KString); (go "KdfName", KString); (go "KdfOpts", KString); (go "NumKeys", KUint32);
     (go "PubKey", KBytes); (go "PrivKeyBlock", KBytes); (go "Rest", KRest)].
Definition openSSHPrivateKey : structType :=
  MkStruct (go "openSSHPrivateKey") []
    [(go "Check1", KUint32); (go "Check2", KUint32); (go "Keytype", KString); (go "Rest", KRest)].
Definition openSSHRSAPrivateKey : structType :=
  MkStruct (go "openSSHRSAPrivateKey") []
    [(go "N", KBigInt); (go "E", KBigInt); (go "D", KBigInt); (go "Iqmp", KBigInt); (go "P", KBigInt); (go "Q", KBigInt);
     (go "Comment", KString); (go "Pad", KRest)].
Definition openSSHEd25519PrivateKey : structType :=
  MkStruct (go "openSSHEd25519PrivateKey") [] [(go "Pub", KBytes); (go "Priv", KBytes); (go "Comment", KString); (go "Pad", KRest)].
Definition openSSHECDSAPrivateKey : structType :=
  MkStruct (go "openSSHECDSAPrivateKey") []
    [(go "Curve", KString); (go "Pub", KBytes); (go "D", KBigInt); (go "Comment", KString); (go "Pad", KRest)].
Definition kdf_opts : structType := MkStruct [] [] [(go "Salt", KString); (go "Rounds", KUint32)].
Definition pubKey_ecdsa : structType := MkStruct [] [] [(go "KeyType", KString); (go "Curve", KString); (go "Pub", KBytes)].

Definition privateKeyAuthMagic : gostring := go "openssh-key-v1" ++ [chNUL].

(** ** Padding *)
Fixpoint checkOpenSSHKeyPadding (i : Z) (pad : gostring) : option error :=
  match pad with
  | [] => None
  | b :: pad => if bv b =? i + 1 then checkOpenSSHKeyPadding (i + 1) pad else Some (errors_New (go "ssh: padding not as expected"))
  end.
(** The loop that appends; [blockSize] rounds are enough. *)
Fixpoint padding_loop (fuel : nat) (block : gostring) (l i blockSize : Z) : gostring :=
  match fuel with
  | O => block
  | S fuel => if (l + i) mod blockSize =? 0 then block else padding_loop fuel (block ++ [vb (i + 1)]) l (i + 1) blockSize
  end.
Definition generateOpenSSHPadding (block : gostring) (blockSize : Z) : gostring :=
  padding_loop (Z.to_nat blockSize) block (len block) 0 blockSize.

Definition Params_N (c : Curve) : Z :=
  match c with
  | P256 => 115792089210356248762697446949407573529996955224135760342422259061068512044369
  | P384 => 39402006196394479212279040100143613805079739270465446667946905279627659399113263569398956308152294913554433653942643
  | P521 => 6864797660130609714981900799081393217269435300143305409394463459185543183397655394245057746333217197532963996371363321113864768612440380340372808892707005449
  end.
Definition ed25519_PrivateKeySize : Z := 64.

Section Private.
Context `{CryptoLib, KexLib, UnicodeTables, Blowfish}.
(** [rsa.PrivateKey]: the error of [Validate], and the coefficient of [Precompute]. *)
Context (rsa_Validate : Z -> Z -> Z -> Z -> Z -> option error) (rsa_Qinv : Z -> Z -> Z).

(** ** Decryption *)
Definition unencryptedOpenSSHKey (cipherName kdfName kdfOpts privKeyBlock : gostring) : kp gostring :=
  if negb (kdfName =s go "none") || negb (cipherName =s go "none") then kp_fail (PassphraseMissing None)
  else if negb (kdfOpts =s []) then kp_error (go "ssh: invalid openssh private key")
  else mret privKeyBlock.

Definition maxRounds : Z := 2048.
(** The key and the initial vector of a passphrase. *)
Definition derive (passphrase salt : gostring) (rounds : Z) : kp (gostring * gostring) :=
  match bcrypt_Key passphrase salt rounds (32 + 16) with
  | None => None
  | Some r => k ← kp_res r; mret (take 32 k, drop 32 k)
  end.
Definition passphraseProtectedOpenSSHKey (passphrase cipherName kdfName kdfOpts privKeyBlock : gostring) : kp gostring :=
  if (kdfName =s go "none") || (cipherName =s go "none") then kp_error (go "ssh: key is not password protected")
  else if negb (kdfName =s go "bcrypt")
  then kp_error (go "ssh: unknown KDF " ++ Quote kdfName ++ go ", only supports " ++ Quote (go "bcrypt"))
  else
    '(Salt, (Rounds, _)) ← kp_res (Unmarshal kdf_opts kdfOpts);
    if maxRounds <? Rounds
    then kp_error (go "ssh: bcrypt KDF rounds " ++ Itoa Rounds ++ go " exceed maximum " ++ Itoa maxRounds)
    else
      '(key, iv) ← derive passphrase Salt Rounds;
      c ← kp_res (aes_NewCipher key);
      if cipherName =s go "aes256-ctr" then
        match NewCTR c iv with
        | None => None
        | Some ctr => mret (fst (XORKeyStream ctr privKeyBlock))
        end
      else if cipherName =s go "aes256-cbc" then
        if negb (len privKeyBlock mod Z.of_nat (BlockSize c) =? 0)
        then kp_error (go "ssh: invalid encrypted private key length, not a multiple of the block size")
        else mret (fst (cbc_decrypt c (length privKeyBlock / BlockSize c) iv privKeyBlock))
      else kp_error (go "ssh: unknown cipher " ++ Quote cipherName ++ go ", only supports " ++ Quote (go "aes256-ctr") ++
             go " or " ++ Quote (go "aes256-cbc")).

(** ** Parsing *)
Definition check_padding (pad : gostring) : kp unit :=
  match checkOpenSSHKeyPadding 0 pad with Some e => kp_fail (KeyErr e) | None => mret tt end.
Definition parse_rsa_private (data : gostring) : kp rawKey :=
  '(N, (E, (D, (_, (P, (Q, (_, (Pad, _)))))))) ← kp_res (Unmarshal openSSHRSAPrivateKey data);
  _ ← check_padding Pad;
  if 16384 <? BitLen N then kp_error (go "ssh: rsa modulus too large")
  else if (8192 <? BitLen P) || (8192 <? BitLen Q) then kp_error (go "ssh: rsa prime too large")
  else if 24 <? BitLen E then kp_error (go "ssh: exponent too large")
  else if (E <? 3) || (Z.land E 1 =? 0) then kp_error (go "ssh: incorrect exponent")
  else match rsa_Validate N E D P Q with
       | Some e => kp_fail (KeyErr e)
       | None => mret (rsaRaw N E D P Q (rsa_Qinv P Q))
       end.
Definition parse_ed25519_private (data : gostring) : kp rawKey :=
  '(_, (Priv, (_, (Pad, _)))) ← kp_res (Unmarshal openSSHEd25519PrivateKey data);
  if negb (len Priv =? ed25519_PrivateKeySize) then kp_error (go "ssh: private key unexpected length")
  else
    _ ← check_padding Pad;
    mret (ed25519Raw Priv).
Definition parse_ecdsa_private (data : gostring) : kp rawKey :=
  '(CurveName, (Pub, (D, (_, (Pad, _))))) ← kp_res (Unmarshal openSSHECDSAPrivateKey data);
  _ ← check_padding Pad;
  match curve_named CurveName with
  | None => kp_error (go "ssh: unhandled elliptic curve: " ++ CurveName)
  | Some curve =>
      match elliptic_Unmarshal curve Pub with
      | None => kp_error (go "ssh: failed to unmarshal public key")
      | Some (X, Y) =>
          if Params_N curve <=? D then kp_error (go "ssh: scalar is out of range")
          else
            let '(x, y) := multiply curve (generator curve) (BigBytes D) in
            if negb (x =? X) || negb (y =? Y) then kp_error (go "ssh: public key does not match private key")
            else mret (ecdsaRaw curve X Y D)
      end
  end.

(** The switch on the type of the key. *)
Definition parse_typed (Keytype Rest : gostring) : kp rawKey :=
  if Keytype =s KeyAlgoRSA then parse_rsa_private Rest
  else if Keytype =s KeyAlgoED25519 then parse_ed25519_private Rest
  else if (Keytype =s KeyAlgoECDSA256) || (Keytype =s KeyAlgoECDSA384) || (Keytype =s KeyAlgoECDSA521) then parse_ecdsa_private Rest
  else kp_error (go "ssh: unhandled key type").

(** From the decryption on. *)
Definition open_block (decrypt : gostring -> gostring -> gostring -> gostring -> kp gostring)
    (CipherName KdfName KdfOpts PubKey PrivKeyBlock : gostring) : kp rawKey :=
  match decrypt CipherName KdfName KdfOpts PrivKeyBlock with
  | None => None
  | Some (Err (PassphraseMissing _)) =>
      match ParsePublicKey PubKey with
      | None => None
      | Some (Err e) => kp_error (go "ssh: failed to parse embedded public key: " ++ err_msg e)
      | Some (Ok pub) => kp_fail (PassphraseMissing (Some pub))
      end
  | Some (Err e) => kp_fail e
  | Some (Ok privKeyBlock) =>
      let malformed := if negb (CipherName =s go "none") then kp_fail IncorrectPassword else kp_error (go "ssh: malformed OpenSSH key") in
      match Unmarshal openSSHPrivateKey privKeyBlock with
      | Err _ => malformed
      | Ok (Check1, (Check2, (Keytype, (Rest, _)))) => if negb (Check1 =? Check2) then malformed else parse_typed Keytype Rest
      end
  end.
Definition parseOpenSSHPrivateKey (key : gostring) (decrypt : gostring -> gostring -> gostring -> gostring -> kp gostring) : kp rawKey :=
  let n := length privateKeyAuthMagic in
  if (length key <? n)%nat || negb (take n key =s privateKeyAuthMagic) then kp_error (go "ssh: invalid openssh private key format")
  else
    '(CipherName, (KdfName, (KdfOpts, (NumKeys, (PubKey, (PrivKeyBlock, _)))))) ← kp_res (Unmarshal openSSHEncryptedPrivateKey (drop n key));
    if negb (NumKeys =? 1) then kp_error (go "ssh: multi-key files are not supported")
    else open_block decrypt CipherName KdfName KdfOpts PubKey PrivKeyBlock.

(** ** Marshalling *)
Definition unencryptedOpenSSHMarshaler (rand : Source) (privKeyBlock : gostring) : kp (gostring * gostring * gostring * gostring) :=
  mret (generateOpenSSHPadding privKeyBlock 8, go "none", go "none", []).
Definition passphraseProtectedOpenSSHMarshaler (passphrase : gostring) (rand : Source) (privKeyBlock : gostring)
    : kp (gostring * gostring * gostring * gostring) :=
  match read_full rand 16 with
  | (Err e, _) => kp_error (ioerr_msg e)
  | (Ok salt, _) =>
      '(key, iv) ← derive passphrase salt 16;
      block ← kp_res (aes_NewCipher key);
      let keyBlock := generateOpenSSHPadding privKeyBlock 16 in
      match NewCTR block iv with
      | None => None
      | Some stream => mret (fst (XORKeyStream stream keyBlock), go "aes256-ctr", go "bcrypt", Marshal kdf_opts (salt, (16, tt)))
      end
  end.

(** The type, the public half and the private half of a key. *)
Definition marshal_halves (key : rawKey) (comment : gostring) : kp (gostring * gostring * gostring) :=
  match key with
  | rsaRaw N E D P Q Qinv =>
      mret (KeyAlgoRSA, Marshal rsa_wire (KeyAlgoRSA, (E, (N, tt))),
            Marshal openSSHRSAPrivateKey (N, (E, (D, (Qinv, (P, (Q, (comment, ([], tt)))))))))
  | ed25519Raw k =>
      if (length k <? 32)%nat then None
      else
        let pub := take 32 (drop 32 k ++ repeat chNUL 32) in
        let priv := take 64 (k ++ repeat chNUL 64) in
        mret (KeyAlgoED25519, Marshal ed25519_wire (KeyAlgoED25519, (pub, tt)),
              Marshal openSSHEd25519PrivateKey (pub, (priv, (comment, ([], tt)))))
  | ecdsaRaw c X Y D =>
      match elliptic_Marshal c X Y with
      | None => None
      | Some pub =>
          mret (go "ecdsa-sha2-" ++ nistID c, Marshal pubKey_ecdsa (go "ecdsa-sha2-" ++ nistID c, (nistID c, (pub, tt))),
                Marshal openSSHECDSAPrivateKey (nistID c, (pub, (D, (comment, ([], tt))))))
      end
  | dsaRaw _ _ _ => kp_error (go "ssh: unsupported key type *dsa.PrivateKey")
  | otherRaw t => kp_error (go "ssh: unsupported key type " ++ t)
  end.

(** The bytes of the PEM block. *)
Definition marshalOpenSSHPrivateKey (rand : Source) (key : rawKey) (comment : gostring)
    (encrypt : Source -> gostring -> kp (gostring * gostring * gostring * gostring)) : kp gostring :=
  match read_full rand 4 with
  | (Err e, _) => kp_error (ioerr_msg e)
  | (Ok check, rand) =>
      let check := be_value check in
      '(keytype, pubKey, rest) ← marshal_halves key comment;
      '(privKeyBlock, cipherName, kdfName, kdfOpts) ← encrypt rand (Marshal openSSHPrivateKey (check, (check, (keytype, (rest, tt)))));
      mret (privateKeyAuthMagic ++
        Marshal openSSHEncryptedPrivateKey (cipherName, (kdfName, (kdfOpts, (1, (pubKey, (privKeyBlock, ([], tt))))))))
  end.

(** ** Well-formed keys *)
Definition wf_raw (k : rawKey) : Prop :=
  match k with
  | rsaRaw N E D P Q Qinv =>
      BitLen N <= 16384 /\ BitLen P <= 8192 /\ BitLen Q <= 8192 /\ BitLen E <= 24 /\ 3 <= E /\ Z.land E 1 <> 0 /\
      rsa_Validate N E D P Q = None /\ Qinv = rsa_Qinv P Q
  | ed25519Raw k => len k = ed25519_PrivateKeySize
  | ecdsaRaw c X Y D => IsOnCurve c X Y = true /\ D < Params_N c /\ (X, Y) = multiply c (generator c) (BigBytes D)
  | _ => False
  end.
(** The public half. *)
Definition public_of (k : rawKey) : PublicKey :=
  match k with
  | rsaRaw N E _ _ _ _ => rsaPublicKey E N
  | ed25519Raw k => ed25519PublicKey (drop 32 k)
  | ecdsaRaw c X Y _ => ecdsaPublicKey c X Y
  | dsaRaw p Y _ => dsaPublicKey p Y
  | otherRaw _ => ed25519PublicKey []
  end.
Lemma wf_public k : wf_raw k -> wf_plain (public_of k).
Proof.
  destruct k as [N E D P Q Qinv|k|c X Y D| |]; cbn [wf_raw public_of wf_plain]; try done.
  - by intros (? & _ & _ & ? & ? & ? & _).
  - unfold ed25519_PrivateKeySize, ed25519_PublicKeySize, len. rewrite length_drop. lia.
  - by intros [? _].
Qed.

(** ** Padding *)
Definition pads (i n : nat) : gostring := map (fun j => vb (Z.of_nat j + 1)) (seq i n).
Lemma check_pads i n : (i + n < 256)%nat -> checkOpenSSHKeyPadding (Z.of_nat i) (pads i n) = None.
Proof.
  revert i. induction n as [|n IH]; intros i Hi; [done|]. cbn [pads seq map checkOpenSSHKeyPadding]. rewrite bv_vb by lia.
  rewrite Z.eqb_refl. replace (Z.of_nat i + 1) with (Z.of_nat (S i)) by lia. apply IH. lia.
Qed.
Lemma padding_loop_pads fuel block l i bs k :
  (k < fuel)%nat -> (l + Z.of_nat i + Z.of_nat k) mod bs = 0 ->
  exists n, (n <= k)%nat /\ padding_loop fuel block l (Z.of_nat i) bs = block ++ pads i n /\ (l + Z.of_nat i + Z.of_nat n) mod bs = 0.
Proof.
  revert block i k. induction fuel as [|fuel IH]; intros block i k Hk Hm; [lia|]. cbn [padding_loop].
  destruct (Z.eqb_spec ((l + Z.of_nat i) mod bs) 0) as [E|E].
  { exists 0%nat. split; [lia|]. split; [by rewrite app_nil_r|]. by rewrite Z.add_0_r. }
  destruct k as [|k]; [rewrite Z.add_0_r in Hm; done|]. replace (Z.of_nat i + 1) with (Z.of_nat (S i)) by lia.
  destruct (IH (block ++ [vb (Z.of_nat (S i))]) (S i) k) as (n & Hn & -> & Hn'); [lia|rewrite <- Hm; f_equal; lia|].
  exists (S n). split; [lia|]. split; [|rewrite <- Hn'; f_equal; lia]. rewrite <- app_assoc. cbn [app pads seq map]. do 3 f_equal. lia.
Qed.
(** The padding fills a block, and the parser accepts it. *)
Lemma generate_check block bs :
  0 < bs < 256 ->
  exists pad, generateOpenSSHPadding block bs = block ++ pad /\ checkOpenSSHKeyPadding 0 pad = None /\
    len (block ++ pad) mod bs = 0 /\ len pad < bs.
Proof.
  intros Hb. unfold generateOpenSSHPadding. pose proof (Z.mod_pos_bound (- len block) bs ltac:(lia)) as Hr.
  destruct (padding_loop_pads (Z.to_nat bs) block (len block) 0 bs (Z.to_nat ((- len block) mod bs))) as (n & Hn & E & Hm); [lia| |].
  { rewrite Z2Nat.id, Z.add_0_r by lia. rewrite Z.add_mod_idemp_r by lia. by rewrite Z.add_opp_diag_r. }
  exists (pads 0 n). split; [exact E|]. split; [apply (check_pads 0); lia|].
  assert (len (pads 0 n) = Z.of_nat n) as Hl by (unfold len, pads; by rewrite length_map, length_seq).
  split; [|lia]. rewrite len_app, Hl, <- Hm. f_equal. lia.
Qed.

(** ** Round trip *)
Context `{!KexLaws, !CryptoLaws, !BlowfishLaws}.

Lemma Marshal_fields st vs : typeTags st = [] -> Marshal st vs = marshal_fields (st_fields st) vs.
Proof. intros E. unfold Marshal. by rewrite E. Qed.
Ltac private_body st vs :=
  rewrite (Unmarshal_body st vs); [|reflexivity|rewrite !Marshal_fields by reflexivity; unfold st; fields_eq|reflexivity|reflexivity|cbn; tauto|done].
Lemma check_padding_ok pad : checkOpenSSHKeyPadding 0 pad = None -> check_padding pad = mret tt.
Proof. intros E. unfold check_padding. by rewrite E. Qed.

(** The private half of a key, whatever padding follows it. *)
Lemma parse_halves k comment :
  wf_raw k ->
  exists t pub priv, marshal_halves k comment = Some (Ok (t, pub, priv)) /\ key_Marshal (public_of k) = Some pub /\
    forall pad, checkOpenSSHKeyPadding 0 pad = None -> len (priv ++ pad) < 2 ^ 32 -> parse_typed t (priv ++ pad) = Some (Ok k).
Proof.
  destruct k as [N E D P Q Qinv|k|c X Y D| |]; cbn [wf_raw]; [| | |done..].
  - intros (HN & HP & HQ & HE & Hge & Hodd & Hval & ->). do 3 eexists. split; [reflexivity|]. split; [reflexivity|]. intros pad Hpad Hlen.
    change (parse_typed KeyAlgoRSA) with parse_rsa_private. unfold parse_rsa_private.
    private_body openSSHRSAPrivateKey (N, (E, (D, (rsa_Qinv P Q, (P, (Q, (comment, (pad, tt)))))))).
    cbn [kp_res mbind kp_bind]. rewrite (check_padding_ok pad Hpad). cbn [mret kp_ret mbind kp_bind].
    rewrite (proj2 (Z.ltb_ge _ _) HN), (proj2 (Z.ltb_ge _ _) HP), (proj2 (Z.ltb_ge _ _) HQ), (proj2 (Z.ltb_ge _ _) HE),
      (proj2 (Z.ltb_ge _ _) Hge), (proj2 (Z.eqb_neq _ _) Hodd), Hval. done.
  - unfold ed25519_PrivateKeySize, len. intros Hk. cbn [marshal_halves]. rewrite (proj2 (Nat.ltb_ge _ _)) by lia.
    rewrite (take_app_le (drop 32 k)), (take_ge (drop 32 k)) by (rewrite length_drop; lia). rewrite (take_app_le k), (take_ge k) by lia.
    do 3 eexists. split; [reflexivity|]. split; [reflexivity|]. intros pad Hpad Hlen.
    change (parse_typed KeyAlgoED25519) with parse_ed25519_private. unfold parse_ed25519_private.
    private_body openSSHEd25519PrivateKey (drop 32 k, (k, (comment, (pad, tt)))). cbn [kp_res mbind kp_bind].
    unfold ed25519_PrivateKeySize, len. rewrite Hk. cbn [Z.eqb Pos.eqb negb]. by rewrite (check_padding_ok pad Hpad).
  - intros (Hon & HD & Hmul). destruct (elliptic_roundtrip _ _ _ Hon) as (b & Hm & Hu & _). cbn [marshal_halves public_of key_Marshal].
    unfold ecdsaPublicKey_Marshal. rewrite Hm. do 3 eexists. split; [reflexivity|]. split; [reflexivity|]. intros pad Hpad Hlen.
    assert (parse_typed (go "ecdsa-sha2-" ++ nistID c) = parse_ecdsa_private) as -> by (by destruct c). unfold parse_ecdsa_private.
    private_body openSSHECDSAPrivateKey (nistID c, (b, (D, (comment, (pad, tt))))). cbn [kp_res mbind kp_bind].
    rewrite (check_padding_ok pad Hpad). cbn [mret kp_ret mbind kp_bind]. rewrite curve_named_nistID, Hu, <- Hmul.
    rewrite (proj2 (Z.leb_gt _ _) HD), !Z.eqb_refl. done.
Qed.

(** ** Encryption *)
Lemma derive_ok passphrase salt rounds :
  exists r, derive passphrase salt rounds = Some r /\
    (1 <= rounds -> passphrase <> [] -> 0 < len salt <= 2 ^ 20 -> exists ki, r = Ok ki) /\
    forall key iv, r = Ok (key, iv) -> len key = 32 /\ len iv = 16.
Proof.
  unfold derive. destruct (bcrypt_Key_ok passphrase salt rounds (32 + 16) ltac:(lia)) as (r & -> & Hok & Hlen).
  destruct r as [k|e]; cbn [kp_res mbind kp_bind].
  - eexists. split; [done|]. split; [by eexists|]. intros key iv [= <- <-]. specialize (Hlen k eq_refl). unfold len in *.
    rewrite length_take, length_drop. lia.
  - eexists. split; [done|]. split; [|done]. intros Hr Hp Hs. by destruct (Hok Hr Hp Hs ltac:(lia)).
Qed.
Lemma aes_ctr key iv : len key = 32 -> len iv = 16 -> aes_NewCipher key = Ok (aesBlock key) /\ NewCTR (aesBlock key) iv = Some (ctrStream (aesBlock key) iv 0).
Proof.
  intros Hk Hi. unfold aes_NewCipher, NewCTR. rewrite Hk. split; [done|]. unfold len in Hi. cbn [BlockSize].
  by rewrite (proj2 (Nat.eqb_eq _ _)) by lia.
Qed.

Lemma decrypt_total passphrase cipherName kdfName kdfOpts block :
  exists r, passphraseProtectedOpenSSHKey passphrase cipherName kdfName kdfOpts block = Some r.
Proof.
  unfold passphraseProtectedOpenSSHKey. destruct (_ || _); [by eexists|]. destruct (negb _); [by eexists|].
  destruct (Unmarshal kdf_opts kdfOpts) as [[Salt [Rounds []]]|e]; cbn [kp_res mbind kp_bind]; [|by eexists].
  destruct (_ <? Rounds); [by eexists|]. destruct (derive_ok passphrase Salt Rounds) as (r & -> & _ & Hlen).
  destruct r as [[key iv]|e]; cbn [mbind kp_bind]; [|by eexists]. destruct (Hlen _ _ eq_refl) as [Hk Hi].
  destruct (aes_ctr key iv Hk Hi) as [-> Hctr]. cbn [kp_res mbind kp_bind]. rewrite Hctr.
  destruct (cipherName =s _); [by eexists|]. destruct (cipherName =s _); [|by eexists]. destruct (negb _); by eexists.
Qed.
Lemma unencrypted_total cipherName kdfName kdfOpts block : exists r, unencryptedOpenSSHKey cipherName kdfName kdfOpts block = Some r.
Proof. unfold unencryptedOpenSSHKey. destruct (_ || _); [by eexists|]. destruct (negb _); by eexists. Qed.

(** What one function encrypts, the other decrypts, with an acceptable padding. *)
Definition opens (enc : Source -> gostring -> kp (gostring * gostring * gostring * gostring))
    (dec : gostring -> gostring -> gostring -> gostring -> kp gostring) : Prop :=
  forall rand block prot cn kn ko, enc rand block = Some (Ok (prot, cn, kn, ko)) ->
    exists pad, checkOpenSSHKeyPadding 0 pad = None /\ dec cn kn ko prot = Some (Ok (block ++ pad)) /\ len (block ++ pad) = len prot.

Lemma unencrypted_opens : opens unencryptedOpenSSHMarshaler unencryptedOpenSSHKey.
Proof.
  intros rand block prot cn kn ko [= <- <- <- <-]. destruct (generate_check block 8 ltac:(lia)) as (pad & -> & Hc & _ & _).
  exists pad. split; [done|]. split; [reflexivity|done].
Qed.
Lemma kdf_opts_roundtrip salt : length salt = 16%nat -> Unmarshal kdf_opts (Marshal kdf_opts (salt, (16, tt))) = Ok (salt, (16, tt)).
Proof.
  intros Hs. apply Unmarshal_Marshal; [done|done|split; [done|]; split; [cbn; lia|done]|]. rewrite Marshal_fields by done.
  change (len (string_bytes salt ++ appendU32 [] 16 ++ []) < 2 ^ 32). rewrite len_app, string_bytes_len. change (len (appendU32 [] 16 ++ [])) with 4. unfold len. rewrite Hs. lia.
Qed.
Lemma passphrase_opens passphrase : opens (passphraseProtectedOpenSSHMarshaler passphrase) (passphraseProtectedOpenSSHKey passphrase).
Proof.
  intros rand block prot cn kn ko. unfold passphraseProtectedOpenSSHMarshaler.
  destruct (read_full rand 16) as [[salt|e] rand'] eqn:Er; [|done]. destruct (derive_ok passphrase salt 16) as (r & Ed & _ & Hlen). rewrite Ed.
  destruct r as [[key iv]|e]; cbn [mbind kp_bind]; [|done]. destruct (Hlen _ _ eq_refl) as [Hk Hi]. destruct (aes_ctr key iv Hk Hi) as [Ea Ec].
  rewrite Ea. cbn [kp_res mbind kp_bind]. rewrite Ec. destruct (generate_check block 16 ltac:(lia)) as (pad & -> & Hc & _ & _).
  intros E. apply (inj Some), Ok_inj in E. assert (Eprot : fst (XORKeyStream (ctrStream (aesBlock key) iv 0) (block ++ pad)) = prot) by congruence.
  assert (cn = go "aes256-ctr" /\ kn = go "bcrypt" /\ ko = Marshal kdf_opts (salt, (16, tt))) as (-> & -> & ->) by (split; [|split]; congruence).
  exists pad. split; [done|]. change (enc (ctrStream (aesBlock key) iv 0) (block ++ pad) = prot) in Eprot. subst prot. split; [|unfold len; by rewrite length_enc].
  unfold passphraseProtectedOpenSSHKey. change ((go "bcrypt" =s go "none") || (go "aes256-ctr" =s go "none")) with false.
  change (negb (go "bcrypt" =s go "bcrypt")) with false. cbv iota.
  rewrite kdf_opts_roundtrip by (by apply read_full_Ok in Er as [? _]). cbn [kp_res mbind kp_bind]. change (maxRounds <? 16) with false. cbv iota.
  rewrite Ed. cbn [mbind kp_bind]. rewrite Ea. cbn [kp_res mbind kp_bind]. change (go "aes256-ctr" =s go "aes256-ctr") with true. cbv iota.
  rewrite Ec. unfold mret, kp_ret. do 2 f_equal. apply enc_enc.
Qed.

(** ** Files *)
Lemma Unmarshal_on_curve c data X Y : elliptic_Unmarshal c data = Some (X, Y) -> IsOnCurve c X Y = true.
Proof.
  unfold elliptic_Unmarshal. destruct (negb _); [done|]. destruct data as [|b data]; [done|]. destruct (negb _); [done|]. cbv zeta.
  destruct (_ || _); [done|]. destruct (IsOnCurve c _ _) eqn:E; cbn [negb]; [|done]. by intros [= <- <-].
Qed.
Lemma check_padding_cases p : check_padding p = mret tt \/ exists e, check_padding p = kp_fail e.
Proof. unfold check_padding. destruct (checkOpenSSHKeyPadding 0 p); [right; by eexists|by left]. Qed.
Ltac after_fields Pad :=
  let e := fresh in destruct (check_padding_cases Pad) as [->|[e ->]]; cbn [mret kp_ret kp_fail mbind kp_bind]; [|by eexists].

Lemma parse_typed_total t rest : exists r, parse_typed t rest = Some r /\ forall k, r = Ok k -> wf_raw k.
Proof.
  unfold parse_typed. destruct (t =s _); [|destruct (t =s _); [|destruct (_ || _); [|by eexists]]].
  - unfold parse_rsa_private. destruct (Unmarshal _ rest) as [(N & E & D & iq & P & Q & cm & Pad & [])|e]; cbn [kp_res mbind kp_bind]; [|by eexists].
    after_fields Pad.
    destruct (Z.ltb_spec 16384 (BitLen N)); [by eexists|]. destruct (Z.ltb_spec 8192 (BitLen P)); [by eexists|].
    destruct (Z.ltb_spec 8192 (BitLen Q)); [by eexists|]. cbn [orb]. destruct (Z.ltb_spec 24 (BitLen E)); [by eexists|].
    destruct (Z.ltb_spec E 3); [by eexists|]. cbn [orb]. destruct (Z.eqb_spec (Z.land E 1) 0); [by eexists|].
    destruct (rsa_Validate N E D P Q) eqn:Ev; [by eexists|]. eexists. split; [done|]. intros k [= <-]. cbn. by repeat split.
  - unfold parse_ed25519_private. destruct (Unmarshal _ rest) as [(Pub & Priv & cm & Pad & [])|e]; cbn [kp_res mbind kp_bind]; [|by eexists].
    destruct (Z.eqb_spec (len Priv) ed25519_PrivateKeySize); cbn [negb]; [|by eexists].
    after_fields Pad. eexists. split; [done|]. by intros k [= <-].
  - unfold parse_ecdsa_private. destruct (Unmarshal _ rest) as [(cn & Pub & D & cm & Pad & [])|e]; cbn [kp_res mbind kp_bind]; [|by eexists].
    after_fields Pad. destruct (curve_named cn) as [c|]; [|by eexists]. destruct (elliptic_Unmarshal c Pub) as [[X Y]|] eqn:Eu; [|by eexists].
    destruct (Z.leb_spec (Params_N c) D); [by eexists|]. destruct (multiply c (generator c) (BigBytes D)) as [x y] eqn:Em.
    destruct (Z.eqb_spec x X) as [->|]; cbn [negb orb]; [|by eexists]. destruct (Z.eqb_spec y Y) as [->|]; cbn [negb]; [|by eexists].
    eexists. split; [done|]. intros k [= <-]. cbn [wf_raw]. split; [by eapply Unmarshal_on_curve|done].
Qed.

Lemma parse_total key dec :
  (forall a b c d, exists r, dec a b c d = Some r) ->
  exists r, parseOpenSSHPrivateKey key dec = Some r /\ forall k, r = Ok k -> wf_raw k.
Proof.
  intros Hdec. unfold parseOpenSSHPrivateKey. cbv zeta. destruct (_ || _); [by eexists|].
  destruct (Unmarshal _ _) as [(cn & kn & ko & nk & pub & blk & rest & [])|e]; cbn [kp_res mbind kp_bind]; [|by eexists].
  destruct (negb _); [by eexists|]. unfold open_block. destruct (Hdec cn kn ko blk) as (r & ->). destruct r as [priv|[e|pk|]]; [| | |by eexists].
  - destruct (Unmarshal openSSHPrivateKey priv) as [(c1 & c2 & kt & rs & [])|e]; [|destruct (negb _); by eexists].
    destruct (negb (c1 =? c2)); [destruct (negb _); by eexists|apply parse_typed_total].
  - by eexists.
  - destruct (ParsePublicKey_total pub) as (r & -> & _). destruct r; by eexists.
Qed.

(** The private block with its padding. *)
Lemma block_roundtrip check t priv pad :
  0 <= check < 2 ^ 32 ->
  let block := Marshal openSSHPrivateKey (check, (check, (t, (priv, tt)))) in
  len (block ++ pad) < 2 ^ 32 ->
  len (priv ++ pad) < 2 ^ 32 /\ Unmarshal openSSHPrivateKey (block ++ pad) = Ok (check, (check, (t, (priv ++ pad, tt)))).
Proof.
  intros Hc block. assert (E : block ++ pad = Marshal openSSHPrivateKey (check, (check, (t, (priv ++ pad, tt))))).
  { unfold block. rewrite !Marshal_fields by done. cbn [openSSHPrivateKey st_fields marshal_fields marshal_field fst snd].
    rewrite !app_nil_r, <- !app_assoc. done. }
  rewrite E. intros Hl. split; [|apply Unmarshal_Marshal; [done..|exact Hl]].
  rewrite Marshal_fields in Hl by done. cbn [openSSHPrivateKey st_fields marshal_fields marshal_field fst snd] in Hl.
  rewrite app_nil_r, 3!len_app in Hl. pose proof (len_nonneg (appendU32 [] check)). pose proof (len_nonneg (appendInt [] (len t) ++ t)). lia.
Qed.

(** The outer layer of a file. *)
Lemma file_layers k comment rand enc bytes :
  wf_raw k -> marshalOpenSSHPrivateKey rand k comment enc = Some (Ok bytes) -> len bytes < 2 ^ 32 ->
  exists rand' block cn kn ko pub prot,
    enc rand' block = Some (Ok (prot, cn, kn, ko)) /\ key_Marshal (public_of k) = Some pub /\ len pub < 2 ^ 32 /\ len prot < 2 ^ 32 /\
    (forall dec, parseOpenSSHPrivateKey bytes dec = open_block dec cn kn ko pub prot) /\
    forall pad, checkOpenSSHKeyPadding 0 pad = None -> len (block ++ pad) < 2 ^ 32 ->
      exists c t rest, Unmarshal openSSHPrivateKey (block ++ pad) = Ok (c, (c, (t, (rest, tt)))) /\ parse_typed t rest = Some (Ok k).
Proof.
  intros Hwf HM Hlen. unfold marshalOpenSSHPrivateKey in HM. destruct (read_full rand 4) as [[check|e] rand'] eqn:Er; [|done].
  destruct (parse_halves k comment Hwf) as (t & pub & priv & Eh & Hpub & Hpriv). rewrite Eh in HM. cbn [mbind kp_bind] in HM.
  match type of HM with context [enc rand' ?b] => set (block := b) in HM end.
  destruct (enc rand' block) as [[[[[prot cn] kn] ko]|e]|] eqn:Ee; cbn [mbind kp_bind] in HM; [|done..]. apply (inj Some), Ok_inj in HM.
  set (body := Marshal openSSHEncryptedPrivateKey _) in HM. subst bytes. rewrite len_app in Hlen. pose proof (len_nonneg privateKeyAuthMagic).
  assert (len body < 2 ^ 32) as Hb by lia.
  assert (Hbody : len prot < 2 ^ 32 /\ len pub < 2 ^ 32).
  { unfold body in Hlen. rewrite Marshal_fields in Hlen by done.
    change (marshal_fields _ _) with (string_bytes cn ++ string_bytes kn ++ string_bytes ko ++ appendU32 [] 1 ++ string_bytes pub ++ string_bytes prot ++ [] ++ []) in Hlen.
    rewrite !len_app, !string_bytes_len in Hlen. pose proof (len_nonneg cn). pose proof (len_nonneg kn). pose proof (len_nonneg ko).
    pose proof (len_nonneg pub). pose proof (len_nonneg prot). pose proof (len_nonneg (appendU32 [] 1)). pose proof (len_nonneg (@nil ascii)). lia. }
  exists rand', block, cn, kn, ko, pub, prot. do 2 (split; [done|]). split; [lia|]. split; [lia|]. split.
  - intros dec. unfold parseOpenSSHPrivateKey. cbv zeta. rewrite length_app, (proj2 (Nat.ltb_ge _ _)) by lia.
    rewrite take_app_length, gos_eqb_refl, drop_app_length. cbn [negb orb].
    assert (Unmarshal openSSHEncryptedPrivateKey body = Ok (cn, (kn, (ko, (1, (pub, (prot, ([], tt)))))))) as ->; [|done].
    apply Unmarshal_Marshal; [done|done| |exact Hb]. do 3 (split; [done|]). by repeat split.
  - intros pad Hpad Hl. assert (0 <= be_value check < 2 ^ 32) as Hc.
    { pose proof (be_value_range check) as Hr. apply read_full_Ok in Er as [Hcl _]. unfold len in Hr. rewrite Hcl in Hr. exact Hr. }
    destruct (block_roundtrip (be_value check) t priv pad Hc Hl) as [Hl' Hun]. do 3 eexists. split; [exact Hun|]. by apply Hpriv.
Qed.

Lemma file_opens k comment rand enc dec bytes :
  wf_raw k -> opens enc dec -> marshalOpenSSHPrivateKey rand k comment enc = Some (Ok bytes) -> len bytes < 2 ^ 32 ->
  parseOpenSSHPrivateKey bytes dec = Some (Ok k).
Proof.
  intros Hwf Hopen HM Hlen. destruct (file_layers k comment rand enc bytes Hwf HM Hlen) as (rand' & block & cn & kn & ko & pub & prot & He & _ & _ & Hp & Hparse & Hin).
  rewrite Hparse. unfold open_block. destruct (Hopen _ _ _ _ _ _ He) as (pad & Hpad & -> & Hpl).
  destruct (Hin pad Hpad ltac:(lia)) as (c & t & rest & -> & Ht). by rewrite Z.eqb_refl.
Qed.
(** Without the passphrase the public half is reported. *)
Lemma passphrase_missing k comment rand passphrase bytes :
  wf_raw k -> marshalOpenSSHPrivateKey rand k comment (passphraseProtectedOpenSSHMarshaler passphrase) = Some (Ok bytes) -> len bytes < 2 ^ 32 ->
  parseOpenSSHPrivateKey bytes unencryptedOpenSSHKey = Some (Err (PassphraseMissing (Some (public_of k)))).
Proof.
  intros Hwf HM Hlen. destruct (file_layers k comment rand _ bytes Hwf HM Hlen) as (rand' & block & cn & kn & ko & pub & prot & He & Hpub & Hpl & _ & -> & _).
  assert (kn = go "bcrypt") as ->.
  { unfold passphraseProtectedOpenSSHMarshaler in He. destruct (read_full rand' 16) as [[salt|]]; [|done].
    destruct (derive passphrase salt 16) as [[[key iv]|]|]; cbn [mbind kp_bind] in He; [|done..].
    destruct (aes_NewCipher key); cbn [kp_res mbind kp_bind] in He; [|done]. destruct (NewCTR _ iv); [|done].
    apply (inj Some), Ok_inj in He. congruence. }
  unfold open_block, unencryptedOpenSSHKey. change (negb (go "bcrypt" =s go "none")) with true. cbn [orb kp_fail].
  destruct (plain_key _ (wf_public k Hwf)) as [Hk _]. destruct (key_reads_back _ Hk) as (s & Hs & Hp). rewrite Hpub in Hs. injection Hs as <-.
  rewrite Hp; [done|by destruct k|done].
Qed.
Lemma marshal_succeeds k comment rand passphrase :
  wf_raw k -> (20 <= length (avail rand))%nat ->
  (exists bytes, marshalOpenSSHPrivateKey rand k comment unencryptedOpenSSHMarshaler = Some (Ok bytes)) /\
  (passphrase <> [] -> exists bytes, marshalOpenSSHPrivateKey rand k comment (passphraseProtectedOpenSSHMarshaler passphrase) = Some (Ok bytes)).
Proof.
  intros Hwf Hr. unfold marshalOpenSSHPrivateKey. destruct (read_full_enough rand 4) as (check & rand' & -> & _ & Hr'); [lia|].
  destruct (parse_halves k comment Hwf) as (t & pub & priv & -> & _). cbn [mbind kp_bind]. split; [by eexists|]. intros Hp.
  unfold passphraseProtectedOpenSSHMarshaler. destruct (read_full rand' 16) as [r rand''] eqn:Es.
  destruct (read_full_enough rand' 16) as (salt & rand3 & Es' & _); [lia|]. rewrite Es in Es'. injection Es' as -> ->.
  destruct (derive_ok passphrase salt 16) as (r & -> & Hok & Hlen). destruct (read_full_Ok _ _ _ _ Es) as [Hsl _].
  destruct (Hok ltac:(lia) Hp ltac:(unfold len; rewrite Hsl; lia)) as ([key iv] & ->). cbn [mbind kp_bind].
  destruct (Hlen _ _ eq_refl) as [Hk Hi]. destruct (aes_ctr key iv Hk Hi) as [-> Hctr]. cbn [kp_res mbind kp_bind]. rewrite Hctr. by eexists.
Qed.

(** C31. The parser of OpenSSH private keys returns on every input, with or without a
    passphrase, and only keys that pass every check (sizes, exponent, curve, the private
    number matching the public point, padding), whose public half is well-formed.  Every
    such key is written without a panic, and what is written is read back as the key, with
    the same passphrase if there was one; read without it the error carries the public
    half of the key. *)
Theorem openssh_keys_roundtrip :
  (forall data passphrase dec, dec = unencryptedOpenSSHKey \/ dec = passphraseProtectedOpenSSHKey passphrase ->
     exists r, parseOpenSSHPrivateKey data dec = Some r /\ forall k, r = Ok k -> wf_raw k /\ wf_plain (public_of k)) /\
  (forall k comment rand passphrase, wf_raw k -> (20 <= length (avail rand))%nat ->
     (exists bytes, marshalOpenSSHPrivateKey rand k comment unencryptedOpenSSHMarshaler = Some (Ok bytes) /\
        (len bytes < 2 ^ 32 -> parseOpenSSHPrivateKey bytes unencryptedOpenSSHKey = Some (Ok k))) /\
     (passphrase <> [] ->
      exists bytes, marshalOpenSSHPrivateKey rand k comment (passphraseProtectedOpenSSHMarshaler passphrase) = Some (Ok bytes) /\
        (len bytes < 2 ^ 32 ->
           parseOpenSSHPrivateKey bytes (passphraseProtectedOpenSSHKey passphrase) = Some (Ok k) /\
           parseOpenSSHPrivateKey bytes unencryptedOpenSSHKey = Some (Err (PassphraseMissing (Some (public_of k))))))).
Proof.
  split.
  - intros data passphrase dec Hdec. destruct (parse_total data dec) as (r & Hr & Hk).
    { intros a b c d. destruct Hdec as [->| ->]; [apply unencrypted_total|apply decrypt_total]. }
    exists r. split; [done|]. intros k Ek. split; [by apply Hk|by apply wf_public, Hk].
  - intros k comment rand passphrase Hwf Hr. destruct (marshal_succeeds k comment rand passphrase Hwf Hr) as [(bytes & Hu) Hp]. split.
    + exists bytes. split; [done|]. by eapply file_opens, Hu; [|apply unencrypted_opens].
    + intros Hne. destruct (Hp Hne) as (bs & Hb). exists bs. split; [done|]. intros Hl. split.
      * by eapply file_opens, Hl; [|apply passphrase_opens|].
      * by eapply passphrase_missing.
Qed.
End Private.

Definition sample_raw : rawKey := ed25519Raw (repeat "s"%char 32 ++ repeat "k"%char 32).
Lemma openssh_keys_roundtrip_witness :
  exists bytes, @marshalOpenSSHPrivateKey sample_kexlib (mkSource (repeat "r"%char 20) ioEOF) sample_raw (go "me") unencryptedOpenSSHMarshaler
      = Some (Ok bytes) /\
    (len bytes < 2 ^ 32 ->
     @parseOpenSSHPrivateKey sample_kexlib ascii_tables (fun _ _ _ _ _ => None) (fun _ _ => 0) bytes unencryptedOpenSSHKey = Some (Ok sample_raw)).
Proof.
  destruct (proj2 (@openssh_keys_roundtrip sample_crypto sample_kexlib ascii_tables sample_blowfish (fun _ _ _ _ _ => None) (fun _ _ => 0)
              sample_kexlaws sample_crypto_laws sample_blowfish_laws) sample_raw (go "me") (mkSource (repeat "r"%char 20) ioEOF) (go "pass"))
    as [(bytes & Hm & Hp) _].
  - reflexivity.
  - cbn. lia.
  - exists bytes. split; [exact Hm|exact Hp].
Defined.
