(* ===== verification/HostKeys.v ===== *)
(** * Host keys: key files and generated keys, [ParsePrivateKey] of [third/ssh/keys.go],
    [key.go], the key options of [utils/utils.go] and their use in [main.go].

    PEM, the formats of [crypto/x509], ASN.1 and the generation of keys are parameters
    ([PEM], [KeyGen]); so are the operations of a private key ([KeyOps]), whose contract,
    where a theorem needs it, is that of [crypto.Signer].  The file system of key files is
    a map; [None] is a panic.

    Proved: the server starts with at least one signer, those of the private keys in the
    configured files or of the keys generated for the key options, in their order, and good in the sense of [SshSigners] when the key is; writing a key never replaces a file. *)
From Stdlib Require Import Ascii String ZArith Lia.
From stdpp Require Import base gmap strings list.
From S2P Require Import Prelude GoStrings SshWire SshMessages SshAlgos GoCrypto GoIO SshCipher SshAuth KexLib SshKex SshHandshake SshKeys SshSigners AppConf Bcrypt PrivKeys.
Local Open Scope Z_scope.

Record pemBlock := mkPem { pem_Type : gostring; pem_Headers : gmap gostring gostring; pem_Bytes : gostring }.
Class PEM := {
  pem_Decode : gostring -> option pemBlock;
  pem_EncodeToMemory : pemBlock -> gostring;
  ParsePKCS1PrivateKey : gostring -> res rawKey;
  ParsePKCS8PrivateKey : gostring -> res rawKey;
  ParseECPrivateKey : gostring -> res rawKey;
  MarshalPKCS1PrivateKey : rawKey -> gostring;
  MarshalECPrivateKey : rawKey -> res gostring;
  MarshalPKCS8PrivateKey : rawKey -> res gostring;
  (** [asn1.Unmarshal] into the struct of a DSA key: P, Q, G, Pub, Priv and the rest. *)
  asn1_dsa : gostring -> res (Z * Z * Z * Z * Z * gostring);
  (** Whether an error is an [asn1.StructuralError]. *)
  StructuralError : error -> bool;
  IsEncryptedPEMBlock : pemBlock -> bool;
  (** [Err None] is [x509.IncorrectPasswordError]. *)
  DecryptPEMBlock : pemBlock -> gostring -> result (option error) gostring }.
Class KeyGen := {
  rsa_GenerateKey : Z -> Source -> res rawKey * Source;
  ecdsa_GenerateKey : Curve -> Source -> res rawKey * Source;
  ed25519_GenerateKey : Source -> res rawKey * Source }.
Class KeyOps := {
  raw_Sign : rawKey -> Source -> gostring -> Hash -> result packet_error gostring * Source;
  raw_dsa_Sign : dsaParameters -> Z -> Source -> gostring -> result packet_error (Z * Z) * Source }.

(** ** Key options *)
Record KeyOption := mkKeyOption { ko_Type : gostring; ko_Option : gostring }.
Definition KeyOption_String (k : KeyOption) : gostring :=
  go "KeyOption[type: " ++ ko_Type k ++ go " option: " ++ ko_Option k ++ go "]".
Definition key_option (t : gostring) : KeyOption :=
  match IndexByte t ":" with Some i => mkKeyOption (take i t) (drop (i + 1) t) | None => mkKeyOption t [] end.
Definition GetKeyOptionPairs (s : gostring) : list KeyOption := map key_option (Split s ","%char).

Section HostKeys.
Context `{CryptoLib, KexLib, UnicodeTables, Blowfish, PEM, KeyGen, KeyOps}.
Context (rsa_Validate : Z -> Z -> Z -> Z -> Z -> option error) (rsa_Qinv : Z -> Z -> Z).

(** ** Private keys in PEM *)
Definition encryptedBlock (block : pemBlock) : bool :=
  Contains (default [] (pem_Headers block !! go "Proc-Type")) (go "ENCRYPTED").

Definition ParseDSAPrivateKey (der : gostring) : res rawKey :=
  match asn1_dsa der with
  | Err e => Err (errors_New (go "ssh: failed to parse DSA key: " ++ err_msg e))
  | Ok (P, Q, G, Pub, Priv, rest) =>
      if 0 <? len rest then Err (errors_New (go "ssh: garbage after DSA key")) else Ok (dsaRaw (mkDSA P Q G) Pub Priv)
  end.

Definition ParseRawPrivateKey (pemBytes : gostring) : kp rawKey :=
  match pem_Decode pemBytes with
  | None => kp_error (go "ssh: no key found")
  | Some block =>
      if encryptedBlock block then kp_fail (PassphraseMissing None)
      else if pem_Type block =s go "RSA PRIVATE KEY" then kp_res (ParsePKCS1PrivateKey (pem_Bytes block))
      else if pem_Type block =s go "PRIVATE KEY" then kp_res (ParsePKCS8PrivateKey (pem_Bytes block))
      else if pem_Type block =s go "EC PRIVATE KEY" then kp_res (ParseECPrivateKey (pem_Bytes block))
      else if pem_Type block =s go "DSA PRIVATE KEY" then kp_res (ParseDSAPrivateKey (pem_Bytes block))
      else if pem_Type block =s go "OPENSSH PRIVATE KEY"
      then parseOpenSSHPrivateKey rsa_Validate rsa_Qinv (pem_Bytes block) unencryptedOpenSSHKey
      else kp_error (go "ssh: unsupported key type " ++ Quote (pem_Type block))
  end.

Definition ParseRawPrivateKeyWithPassphrase (pemBytes passphrase : gostring) : kp rawKey :=
  match pem_Decode pemBytes with
  | None => kp_error (go "ssh: no key found")
  | Some block =>
      if pem_Type block =s go "OPENSSH PRIVATE KEY"
      then parseOpenSSHPrivateKey rsa_Validate rsa_Qinv (pem_Bytes block) (passphraseProtectedOpenSSHKey passphrase)
      else if negb (encryptedBlock block) || negb (IsEncryptedPEMBlock block) then kp_error (go "ssh: not an encrypted key")
      else match DecryptPEMBlock block passphrase with
           | Err None => kp_fail IncorrectPassword
           | Err (Some e) => kp_error (go "ssh: cannot decode encrypted private keys: " ++ err_msg e)
           | Ok buf =>
               let result :=
                 if pem_Type block =s go "RSA PRIVATE KEY" then ParsePKCS1PrivateKey buf
                 else if pem_Type block =s go "EC PRIVATE KEY" then ParseECPrivateKey buf
                 else if pem_Type block =s go "DSA PRIVATE KEY" then ParseDSAPrivateKey buf
                 else Err (errors_New (go "ssh: unsupported key type " ++ Quote (pem_Type block))) in
               match result with
               | Err e => if StructuralError e then kp_fail IncorrectPassword else kp_fail (KeyErr e)
               | Ok k => mret k
               end
           end
  end.

(** ** Signers *)
Definition crypto_Public (k : rawKey) : cryptoPublicKey :=
  match k with
  | rsaRaw N E _ _ _ _ => rsa_PublicKey E N
  | ed25519Raw k => ed25519_PublicKey (drop 32 k)
  | ecdsaRaw c X Y _ => ecdsa_PublicKey (Some c) X Y
  | dsaRaw p Y _ => dsa_PublicKey p Y
  | otherRaw t => other_PublicKey t
  end.
Definition NewSignerFromKey (k : rawKey) : res goSigner :=
  match k with
  | dsaRaw p Y X => newDSAPrivateKey (mkDSAPrivate p Y (raw_dsa_Sign p X))
  | otherRaw t => Err (errors_New (go "ssh: unsupported key type " ++ t))
  | _ => NewSignerFromSigner (mkCryptoSigner (crypto_Public k) (raw_Sign k))
  end.
Definition ParsePrivateKey (pemBytes : gostring) : kp goSigner :=
  key ← ParseRawPrivateKey pemBytes; kp_res (NewSignerFromKey key).
Definition ParsePrivateKeyWithPassphrase (pemBytes passphrase : gostring) : kp goSigner :=
  key ← ParseRawPrivateKeyWithPassphrase pemBytes passphrase; kp_res (NewSignerFromKey key).

(** ** key.go *)
Definition RsaDefaultBits : Z := 4096.
Definition getCurve (c : gostring) : option Curve :=
  if c =s go "P256" then Some P256
  else if (c =s go "P384") || (c =s []) then Some P384
  else if c =s go "P521" then Some P521
  else None.
Definition createPriKey (t option : gostring) (rand : Source) : res rawKey * Source :=
  let t := ToUpper t in
  if t =s go "RSA" then
    if option =s [] then rsa_GenerateKey RsaDefaultBits rand
    else match Atoi option with
         | Some bits => rsa_GenerateKey bits rand
         | None => (Err (Atoi_error option), rand)
         end
  else if t =s go "ECDSA" then
    match getCurve (ToUpper option) with
    | None => (Err (errors_New (go "invalid curve type")), rand)
    | Some c => ecdsa_GenerateKey c rand
    end
  else if (t =s go "ED25519") || (t =s []) then ed25519_GenerateKey rand
  else (Err (errors_New (go "unsupport private key type")), rand).

Definition marshalPriKey (key : rawKey) : res gostring :=
  match key with
  | rsaRaw _ _ _ _ _ _ => Ok (pem_EncodeToMemory (mkPem (go "RSA PRIVATE KEY") ∅ (MarshalPKCS1PrivateKey key)))
  | ecdsaRaw _ _ _ _ => cur ← MarshalECPrivateKey key; Ok (pem_EncodeToMemory (mkPem (go "EC PRIVATE KEY") ∅ cur))
  | _ => cur ← MarshalPKCS8PrivateKey key; Ok (pem_EncodeToMemory (mkPem (go "PRIVATE KEY") ∅ cur))
  end.

(** [loadSignersFromFiles]; [ReadFile] is [os.ReadFile]. *)
Fixpoint loadSignersFromFiles (ReadFile : gostring -> res gostring) (files : list gostring) : option (res (list goSigner)) :=
  match files with
  | [] => Some (Ok [])
  | f :: files =>
      match ReadFile f with
      | Err e => Some (Err (errors_wrap (go "read " ++ f ++ go ": ") e))
      | Ok b =>
          match ParsePrivateKey b with
          | None => None
          | Some (Err e) => Some (Err (errors_New (go "parse " ++ f ++ go ": " ++ keyError_Error e)))
          | Some (Ok signer) =>
              match loadSignersFromFiles ReadFile files with
              | Some (Ok signers) => Some (Ok (signer :: signers))
              | x => x
              end
          end
      end
  end.

(** [writePrivateKeyFile]: mode and contents of the files; the outcomes of opening, writing
    (with the bytes that were written) and closing are parameters. *)
Abbreviation key_files := (gmap gostring (Z * gostring)).
Definition errExist (path : gostring) : error := errors_New (go "open " ++ path ++ go ": file exists").
Definition writePrivateKeyFile (fs : key_files) (openErr : option error) (written : nat) (writeErr closeErr : option error)
    (path data : gostring) : option error * key_files :=
  match fs !! path, openErr with
  | Some _, _ => (Some (errExist path), fs)
  | None, Some e => (Some e, fs)
  | None, None =>
      match writeErr with
      | Some e => (Some e, <[path := (384, take written data)]> fs)
      | None => (closeErr, <[path := (384, data)]> fs)
      end
  end.

(** ** The keys of the server, as [main] gets them *)
Inductive startup :=
| Fatal (msg : gostring)
| Printed (key : gostring)
| Stored (fs : key_files)
| Signers (signers : list goSigner).

Fixpoint create_keys (pairs : list KeyOption) (rand : Source) : result gostring (list rawKey) :=
  match pairs with
  | [] => Ok []
  | k :: pairs =>
      match createPriKey (ko_Type k) (ko_Option k) rand with
      | (Err e, _) => Err (go "Error when generating key: " ++ err_msg e ++ go ", option: " ++ KeyOption_String k ++ go " ")
      | (Ok key, rand) => keys ← create_keys pairs rand; Ok (key :: keys)
      end
  end.
Fixpoint get_signers (keys : list rawKey) : result gostring (list goSigner) :=
  match keys with
  | [] => Ok []
  | key :: keys =>
      match NewSignerFromKey key with
      | Err e => Err (go "Get signer from private key error: " ++ err_msg e ++ go " ")
      | Ok signer => signers ← get_signers keys; Ok (signer :: signers)
      end
  end.

Section Main.
Context (ReadFile : gostring -> res gostring) (rand : Source).
(** [args.GenKeyFile], [used.Contains(FlagKeyType)], and the key settings of the command line and of the configuration. *)
Context (genKeyFile usedKeyType : bool) (argKeyFiles : list gostring) (argKeyType : gostring) (conf : KeyConf).
(** The files and the outcomes of writing one. *)
Context (fs : key_files) (openErr : option error) (written : nat) (writeErr closeErr : option error).

Definition generate_key_file (pairs : list KeyOption) : startup :=
  let k := default (mkKeyOption [] []) (head pairs) in
  match createPriKey (ko_Type k) (ko_Option k) rand with
  | (Err e, _) => Fatal (go "Error when generating key: " ++ err_msg e ++ go ", option: " ++ KeyOption_String k ++ go " ")
  | (Ok key, _) =>
      match marshalPriKey key with
      | Err e => Fatal (go "Marshaling key error: " ++ err_msg e ++ go " ")
      | Ok b =>
          match default [] (head argKeyFiles) with
          | [] => Printed b
          | file =>
              match writePrivateKeyFile fs openErr written writeErr closeErr file b with
              | (Some e, _) => Fatal (go "Write file " ++ file ++ go " error: " ++ err_msg e ++ go " ")
              | (None, fs) => Stored fs
              end
          end
      end
  end.
Definition host_keys : option startup :=
  if negb genKeyFile && (0 <? len (kc_KeyFiles conf)) then
    match loadSignersFromFiles ReadFile (kc_KeyFiles conf) with
    | None => None
    | Some (Err e) => Some (Fatal (go "Loading private key error: " ++ err_msg e ++ go " "))
    | Some (Ok signers) => Some (Signers signers)
    end
  else
    let pairs := GetKeyOptionPairs (if usedKeyType || genKeyFile then argKeyType else kc_KeyType conf) in
    if genKeyFile then Some (generate_key_file pairs)
    else
      Some (match (match pairs with
                   | [] => match ed25519_GenerateKey rand with
                           | (Err e, _) => Err (go "Error when generating key: " ++ err_msg e ++ go " ")
                           | (Ok key, _) => Ok [key]
                           end
                   | _ => create_keys pairs rand
                   end) with
            | Err msg => Fatal msg
            | Ok keys => match get_signers keys with Err msg => Fatal msg | Ok signers => Signers signers end
            end).
End Main.

(** ** Signers of keys *)
Context `{SigLib, ASN1, !KexLaws, !CryptoLaws, !BlowfishLaws}.

(** The private operations of a key keep the contract of their package. *)
Definition contract (k : rawKey) : Prop :=
  match k with
  | dsaRaw p Y X => dsa_law (mkDSAPrivate p Y (raw_dsa_Sign p X))
  | _ => signer_law (mkCryptoSigner (crypto_Public k) (raw_Sign k)) (public_of k)
  end.
(** The signer of a key: it has its public half, and is good when that is well-formed. *)
Definition signer_of (k : rawKey) (g : goSigner) : Prop :=
  NewSignerFromKey k = Ok g /\ signer_PublicKey g = public_of k /\ (contract k -> wf_plain (public_of k) -> good_signer g).

(** The private key in a file. *)
Definition file_key (ReadFile : gostring -> res gostring) (f : gostring) (k : rawKey) : Prop :=
  exists b, ReadFile f = Ok b /\ ParseRawPrivateKey b = Some (Ok k).
(** The keys generated for key options, each from the randomness the one before has left. *)
Inductive generated : Source -> list KeyOption -> list rawKey -> Prop :=
| generated_nil rand : generated rand [] []
| generated_cons rand o key rand' pairs keys :
    createPriKey (ko_Type o) (ko_Option o) rand = (Ok key, rand') -> generated rand' pairs keys -> generated rand (o :: pairs) (key :: keys).

Lemma NewSignerFromKey_of k g : NewSignerFromKey k = Ok g -> signer_of k g.
Proof.
  intros Hs0. split; [exact Hs0|]. revert Hs0.
  assert (Hwrap : forall k pub, NewPublicKey (crypto_Public k) = Ok pub -> pub = public_of k ->
    NewSignerFromSigner (mkCryptoSigner (crypto_Public k) (raw_Sign k)) = Ok g ->
    signer_PublicKey g = public_of k /\ (signer_law (mkCryptoSigner (crypto_Public k) (raw_Sign k)) (public_of k) -> wf_plain (public_of k) -> good_signer g)).
  { intros k' pub Hp -> Hs. split; [|intros Hl Hw; eapply good_wrapped; [exact Hl|done..]].
    unfold NewSignerFromSigner in Hs. cbn [cs_Public] in Hs. rewrite Hp in Hs. cbn [mbind result_bind] in Hs. by apply Ok_inj in Hs as <-. }
  destruct k as [N E D P Q Qinv|k|c X Y D|p Y X|t]; cbn [NewSignerFromKey]; intros Hs.
  - by eapply Hwrap.
  - unfold signer_of. cbn [contract]. destruct (Z.eqb_spec (len (drop 32 k)) ed25519_PublicKeySize) as [El|El].
    + eapply (Hwrap (ed25519Raw k)); [|done|done]. cbn [crypto_Public NewPublicKey]. by rewrite (proj2 (Z.eqb_eq _ _) El).
    + unfold NewSignerFromSigner in Hs. cbn [cs_Public crypto_Public NewPublicKey] in Hs. by rewrite (proj2 (Z.eqb_neq _ _) El) in Hs.
  - by eapply (Hwrap (ecdsaRaw c X Y D)).
  - split; [|intros Hl Hw; by eapply good_dsa]. unfold newDSAPrivateKey in Hs. destruct (checkDSAParams _); [done|]. by apply Ok_inj in Hs as <-.
  - done.
Qed.

Lemma ParseRaw_total pemBytes : exists r, ParseRawPrivateKey pemBytes = Some r /\
  (forall block k, pem_Decode pemBytes = Some block -> pem_Type block = go "OPENSSH PRIVATE KEY" -> r = Ok k -> wf_raw rsa_Validate rsa_Qinv k).
Proof.
  unfold ParseRawPrivateKey. destruct (pem_Decode pemBytes) as [block|]; [|by eexists]. destruct (encryptedBlock block); [by eexists|].
  destruct (pem_Type block =s go "OPENSSH PRIVATE KEY") eqn:Eo.
  - apply gos_eqb_eq in Eo. rewrite Eo. do 4 (match goal with |- context [go ?a =s go ?b] => change (go a =s go b) with false end; cbv iota).
    destruct (parse_total rsa_Validate rsa_Qinv (pem_Bytes block) unencryptedOpenSSHKey unencrypted_total) as (r & -> & Hr).
    eexists. split; [done|]. intros b k _ _ Ek. by apply Hr.
  - apply gos_eqb_neq in Eo. repeat (match goal with |- context [if ?c then _ else _] => destruct c end;
      [eexists; split; [done|]; intros b k [= <-] E; done|]). eexists. split; [done|]. intros b k [= <-] E; done.
Qed.
Lemma ParsePrivateKey_total pemBytes : exists r, ParsePrivateKey pemBytes = Some r /\ forall g, r = Ok g ->
  exists k, ParseRawPrivateKey pemBytes = Some (Ok k) /\ signer_of k g.
Proof.
  unfold ParsePrivateKey. destruct (ParseRaw_total pemBytes) as (r & Hraw & _). rewrite Hraw. destruct r as [k|e]; cbn [mbind kp_bind]; [|by eexists].
  eexists. split; [done|]. intros g. unfold kp_res. destruct (NewSignerFromKey k) as [g'|e] eqn:E; [|done]. intros <-%Ok_inj. exists k. split; [done|by apply NewSignerFromKey_of].
Qed.
Lemma load_total ReadFile files :
  exists r, loadSignersFromFiles ReadFile files = Some r /\ forall l, r = Ok l ->
    length l = length files /\ exists ks, Forall2 (file_key ReadFile) files ks /\ Forall2 signer_of ks l.
Proof.
  induction files as [|f files (r & IH & Hr)]; cbn [loadSignersFromFiles]; [eexists; split; [done|]; intros l [= <-]; split; [done|]; exists []; split; constructor|].
  destruct (ReadFile f) as [b|e] eqn:Ef; [|by eexists]. destruct (ParsePrivateKey_total b) as (rp & -> & Hp). destruct rp as [g|e]; [|by eexists].
  rewrite IH. destruct r as [l|e]; [|by eexists]. eexists. split; [done|]. intros l' <-%Ok_inj. destruct (Hr l eq_refl) as [Hl (ks & Hfs & Hks)].
  destruct (Hp g eq_refl) as (k & Hb & Hk). split; [cbn; lia|]. exists (k :: ks). split; constructor; try done. by exists b.
Qed.
Lemma get_signers_of keys l : get_signers keys = Ok l -> Forall2 signer_of keys l.
Proof.
  revert l. induction keys as [|k keys IH]; intros l; cbn [get_signers]; [intros [= <-]; constructor|].
  destruct (NewSignerFromKey k) as [g|e] eqn:E; [|done]. destruct (get_signers keys) as [l'|e]; cbn [mbind result_bind]; [|done].
  intros <-%Ok_inj. constructor; [by apply NewSignerFromKey_of|by apply IH].
Qed.
Lemma create_keys_generated pairs rand keys : create_keys pairs rand = Ok keys -> generated rand pairs keys.
Proof.
  revert rand keys. induction pairs as [|o pairs IH]; intros rand keys; cbn [create_keys]; [intros [= <-]; constructor|].
  destruct (createPriKey _ _ rand) as [[key|e] rand'] eqn:Ec; [|done]. destruct (create_keys pairs rand') as [ks|] eqn:E; cbn [mbind result_bind]; [|done].
  intros <-%Ok_inj. econstructor; [exact Ec|by apply IH].
Qed.
Lemma create_keys_length pairs rand keys : create_keys pairs rand = Ok keys -> length keys = length pairs.
Proof.
  revert rand keys. induction pairs as [|k pairs IH]; intros rand keys; cbn [create_keys]; [by intros [= <-]|].
  destruct (createPriKey _ _ rand) as [[key|e] rand']; [|done]. destruct (create_keys pairs rand') as [ks|] eqn:E; cbn [mbind result_bind]; [|done].
  intros <-%Ok_inj. cbn. by rewrite (IH _ _ E).
Qed.

Lemma writePrivateKeyFile_safe fs openErr written writeErr closeErr path data e fs' :
  writePrivateKeyFile fs openErr written writeErr closeErr path data = (e, fs') ->
  fs ⊆ fs' /\ (forall p x, fs' !! p = Some x -> fs !! p = None -> p = path /\ fst x = 384) /\
  (e = None -> fs !! path = None /\ fs' !! path = Some (384, data)).
Proof.
  unfold writePrivateKeyFile.
  assert (Hins : forall x, fs !! path = None -> fst x = 384 -> fs ⊆ <[path := x]> fs /\
    (forall p y, <[path := x]> fs !! p = Some y -> fs !! p = None -> p = path /\ fst y = 384)).
  { intros x Hp Hx. split; [by apply insert_subseteq|]. intros p y Hy Hn. destruct (decide (p = path)) as [->|Hpp].
    - rewrite lookup_insert_eq in Hy. by injection Hy as <-.
    - rewrite lookup_insert_ne in Hy by congruence. congruence. }
  destruct (fs !! path) as [x|] eqn:Ep.
  { intros [= <- <-]. split; [done|]. split; [congruence|done]. }
  destruct openErr as [oe|]; [intros [= <- <-]; split; [done|]; split; [congruence|done]|].
  destruct writeErr as [we|]; intros [= <- <-].
  + destruct (Hins (384, take written data) eq_refl eq_refl) as [? ?]. done.
  + destruct (Hins (384, data) eq_refl eq_refl) as [? ?]. split; [done|]. split; [done|]. intros _. by rewrite lookup_insert_eq.
Qed.

(** C32. The server starts without a panic in the keys, and only with at least one host key:
    the signers of the private keys in the configured files, one per file in their order,
    or, when no file is configured, of the keys generated for the key options, one per
    option in their order, each from the randomness that the one before has left.  Each
    signer has the public half of its key, and is good whenever
    the halves belong together and the public half is one a client accepts; for files in
    the OpenSSH format the latter is checked.  Writing a generated key creates a file
    readable by its owner only and changes no file that exists. *)
Theorem host_keys_good :
  (forall ReadFile rand gen usedType files type conf fs openErr written writeErr closeErr,
     exists r, host_keys ReadFile rand gen usedType files type conf fs openErr written writeErr closeErr = Some r /\
       forall l, r = Signers l -> gen = false /\ l <> [] /\ exists ks, Forall2 signer_of ks l /\
         (kc_KeyFiles conf <> [] -> Forall2 (file_key ReadFile) (kc_KeyFiles conf) ks) /\
         (kc_KeyFiles conf = [] -> generated rand (GetKeyOptionPairs (if usedType then type else kc_KeyType conf)) ks)) /\
  (forall pemBytes block g, pem_Decode pemBytes = Some block -> pem_Type block = go "OPENSSH PRIVATE KEY" ->
     ParsePrivateKey pemBytes = Some (Ok g) -> (forall k, wf_raw rsa_Validate rsa_Qinv k -> contract k) -> good_signer g) /\
  (forall fs openErr written writeErr closeErr path data e fs',
     writePrivateKeyFile fs openErr written writeErr closeErr path data = (e, fs') ->
     fs ⊆ fs' /\ (forall p x, fs' !! p = Some x -> fs !! p = None -> p = path /\ fst x = 384) /\
     (e = None -> fs !! path = None /\ fs' !! path = Some (384, data))).
Proof.
  split; [|split].
  - intros ReadFile rand gen usedType files type conf fs openErr written writeErr closeErr. unfold host_keys.
    destruct (negb gen && (0 <? len (kc_KeyFiles conf))) eqn:Ef.
    + apply andb_true_iff in Ef as [Hg Hl]. apply negb_true_iff in Hg. apply Z.ltb_lt in Hl.
      destruct (load_total ReadFile (kc_KeyFiles conf)) as (r & -> & Hr). destruct r as [l|e]; [|by eexists]. eexists. split; [done|].
      intros l' [= <-]. destruct (Hr l eq_refl) as [Hlen (ks & Hfs & Hks)]. split; [done|].
      split; [intros ->; unfold len in Hl; cbn in Hlen; lia|]. exists ks. split; [done|]. split; [done|]. intros E. by rewrite E in Hl.
    + destruct gen.
      { eexists. split; [done|]. intros l. unfold generate_key_file. destruct (createPriKey _ _ _) as [[key|e] ?]; [|done].
        destruct (marshalPriKey key); [|done]. destruct (default [] _); [done|]. by destruct (writePrivateKeyFile _ _ _ _ _ _ _) as [[e|] ?]. }
      eexists. split; [done|]. intros l. set (pairs := GetKeyOptionPairs _).
      assert (Hne : pairs <> []).
      { unfold pairs, GetKeyOptionPairs. intros E. apply map_eq_nil in E. by apply Split_ne in E. }
      assert (Epairs : pairs = GetKeyOptionPairs (if usedType then type else kc_KeyType conf)) by (unfold pairs; by rewrite orb_false_r).
      clearbody pairs. destruct pairs as [|k0 pairs]; [done|]. destruct (create_keys (k0 :: pairs) rand) as [keys|] eqn:Ek; [|done].
      pose proof (create_keys_generated _ _ _ Ek) as Hgen. apply create_keys_length in Ek. destruct (get_signers keys) as [l'|] eqn:Eg; [|done]. intros [= <-]. split; [done|].
      apply get_signers_of in Eg. split; [intros ->; apply Forall2_length in Eg; by rewrite Ek in Eg|].
      exists keys. split; [done|]. cbn [negb andb] in Ef. split; [|intros _; by rewrite <- Epairs].
      intros Hf. destruct (kc_KeyFiles conf) as [|kf kfs]; [done|]. apply Z.ltb_ge in Ef. unfold len in Ef. cbn [length] in Ef. lia.
  - intros pemBytes block g Hb Ht Hp Hc. unfold ParsePrivateKey in Hp. destruct (ParseRaw_total pemBytes) as (r & Er & Hr). rewrite Er in Hp.
    destruct r as [k|e]; cbn [mbind kp_bind] in Hp; [|done]. unfold kp_res in Hp. destruct (NewSignerFromKey k) as [g'|e] eqn:E; [|done].
    apply (inj Some), Ok_inj in Hp as <-. specialize (Hr block k Hb Ht eq_refl). destruct (NewSignerFromKey_of k g' E) as (_ & _ & Hg).
    apply Hg; [by apply Hc|by eapply wf_public].
  - intros. by eapply writePrivateKeyFile_safe.
Qed.
End HostKeys.

Definition sample_pem : PEM := {|
  pem_Decode b := Some (mkPem (go "OPENSSH PRIVATE KEY") ∅ b); pem_EncodeToMemory := pem_Bytes;
  ParsePKCS1PrivateKey _ := Err (errors_New []); ParsePKCS8PrivateKey _ := Err (errors_New []); ParseECPrivateKey _ := Err (errors_New []);
  MarshalPKCS1PrivateKey _ := []; MarshalECPrivateKey _ := Ok []; MarshalPKCS8PrivateKey _ := Ok [];
  asn1_dsa _ := Err (errors_New []); StructuralError _ := false; IsEncryptedPEMBlock _ := false; DecryptPEMBlock _ _ := Err None |}.
Definition sample_keygen : KeyGen := {|
  rsa_GenerateKey _ r := (Err (errors_New []), r); ecdsa_GenerateKey _ r := (Err (errors_New []), r); ed25519_GenerateKey r := (Ok sample_raw, r) |}.
Definition sample_keyops : KeyOps := {|
  raw_Sign _ r input _ := (Ok (take 4 input), r); raw_dsa_Sign _ _ r _ := (Ok (1, 1), r) |}.
Lemma host_keys_good_witness :
  exists r, @host_keys sample_kexlib ascii_tables sample_pem sample_keygen sample_keyops (fun _ _ _ _ _ => None) (fun _ _ => 0)
    (fun _ => Ok []) (mkSource [] ioEOF) false false [] [] (MkKeyConf [] (go "ed25519")) ∅ None 0%nat None None = Some r /\
    forall l, r = Signers l -> l <> [].
Proof.
  destruct (proj1 (@host_keys_good sample_kexlib ascii_tables sample_pem sample_keygen sample_keyops
    (fun _ _ _ _ _ => None) (fun _ _ => 0) sample_siglib sample_asn1)
    (fun _ => Ok []) (mkSource [] ioEOF) false false [] [] (MkKeyConf [] (go "ed25519")) ∅ None 0%nat None None) as (r & Hr & Hl).
  exists r. split; [exact Hr|]. intros l E. destruct (Hl l E) as (_ & Hne & _). exact Hne.
Defined.
