(* ===== verification/ClientAuth.v ===== *)
(** * User authentication of the SSH client: [third/ssh/client_auth.go].

    A connection is a [client]: what the callbacks see of the world, the random source, the
    packets still to be read, and a log of the packets that were sent and read.  A method
    runs in a state monad with the outcomes of Go: a value, an error that is returned at
    once, a panic, or a loop without end.  Reading past the last packet is the end of the
    stream; [write_error] says which writes fail.  [retries] bounds the rounds of a method
    that is to be retried without limit; when they are used up the outcome is [Spins].

    Proved: whatever the server sends, the client neither panics nor loops and makes at
    most 65 attempts; it succeeds only when the server says so; it asks for no method the
    server has not offered, answers only what it was asked, and signs only for a key the
    server has just acknowledged, over the data of this session; and a client with a key
    that the server of this library accepts is let in. *)
From Stdlib Require Import Ascii String ZArith Lia.
From stdpp Require Import base gmap strings list.
From S2P Require Import Prelude GoStrings GoIO SshWire SshMessages SshAlgos GoCrypto SshCipher SshAuth KexLib SshKex SshHandshake SshKeys SshSigners.
Local Open Scope Z_scope.

(** ** Messages *)
Definition passwordAuthMsg : structType :=
  MkStruct (go "passwordAuthMsg") (go "50")
    [(go "User", KString); (go "Service", KString); (go "Method", KString); (go "Reply", KBool); (go "Password", KString)].
Definition publickeyAuthMsg : structType :=
  MkStruct (go "publickeyAuthMsg") (go "50")
    [(go "User", KString); (go "Service", KString); (go "Method", KString); (go "HasSig", KBool); (go "Algoname", KString);
     (go "PubKey", KBytes); (go "Sig", KRest)].
Definition initiateMsg : structType :=
  MkStruct (go "initiateMsg") (go "50")
    [(go "User", KString); (go "Service", KString); (go "Method", KString); (go "Language", KString); (go "Submethods", KString)].

Definition publickey : gostring := go "publickey".
Definition publickey_packet (user : gostring) (hasSig : bool) (algo pubKey sig : gostring) : gostring :=
  Marshal publickeyAuthMsg (user, (serviceSSH, (publickey, (hasSig, (algo, (pubKey, (sig, tt))))))).

Inductive authResult := authFailure | authPartialSuccess | authSuccess.
Definition maxAuthClientTried : Z := 64.

(** ** The monad *)
Inductive event := Sent (p : gostring) | Got (p : gostring).
Record client (W : Type) := mkClient {
  cl_world : W; cl_rand : Source; cl_in : list (result packet_error gostring); cl_log : list event }.
Arguments mkClient {W}. Arguments cl_world {W}. Arguments cl_rand {W}. Arguments cl_in {W}. Arguments cl_log {W}.

Inductive outcome (A : Type) := Val (a : A) | Throw (e : packet_error) | Panics | Spins.
Arguments Val {A}. Arguments Throw {A}. Arguments Panics {A}. Arguments Spins {A}.
Definition CM (W A : Type) : Type := client W -> outcome A * client W.
#[export] Instance CM_ret {W} : MRet (CM W) := fun A a s => (Val a, s).
#[export] Instance CM_bind {W} : MBind (CM W) := fun A B f m s =>
  match m s with
  | (Val a, s) => f a s
  | (Throw e, s) => (Throw e, s)
  | (Panics, s) => (Panics, s)
  | (Spins, s) => (Spins, s)
  end.

Section Monad.
Context {W : Type}.
Definition throw {A} (e : packet_error) : CM W A := fun s => (Throw e, s).
Definition throw_error {A} (msg : gostring) : CM W A := throw (newError msg).
Definition panics {A} : CM W A := fun s => (Panics, s).
Definition spins {A} : CM W A := fun s => (Spins, s).
Definition of_parse {A} (r : res A) : CM W A := match r with Ok a => mret a | Err e => throw_error (err_msg e) end.
Definition or_panic {A} (o : option A) : CM W A := match o with Some a => mret a | None => panics end.
Definition ask {A} (f : W -> W * A) : CM W A := fun s =>
  let '(w, a) := f (cl_world s) in (Val a, mkClient w (cl_rand s) (cl_in s) (cl_log s)).
(** A callback whose error is returned at once. *)
Definition ask_res {A} (f : W -> W * result packet_error A) : CM W A :=
  r ← ask f; match r with Ok a => mret a | Err e => throw e end.
Definition readPacket : CM W gostring := fun s =>
  match cl_in s with
  | [] => (Throw (ioError ioEOF), s)
  | Err e :: rest => (Throw e, mkClient (cl_world s) (cl_rand s) rest (cl_log s))
  | Ok p :: rest => (Val p, mkClient (cl_world s) (cl_rand s) rest (cl_log s ++ [Got p]))
  end.
(** [packet[0]]. *)
Definition first_byte (p : gostring) : CM W Z := match p with [] => panics | b :: _ => mret (bv b) end.
(** A loop that reads a packet in each round: one more round than packets is enough. *)
Definition per_packet {A} (loop : nat -> CM W A) : CM W A := fun s => loop (S (length (cl_in s))) s.
(** The results of [auth]: an early return is [authFailure, nil, err]. *)
Definition authReturn : Type := authResult * option (list gostring) * option packet_error.
Definition returned (m : CM W authReturn) : CM W authReturn := fun s =>
  match m s with
  | (Throw e, s) => (Val (authFailure, None, Some e), s)
  | r => r
  end.
End Monad.

(** ** Configuration *)
Record GSSAPIClient (W : Type) := mkGSSClient {
  InitSecContext : W -> gostring -> gostring -> bool -> W * result packet_error (gostring * bool);
  GetMIC : W -> gostring -> W * result packet_error gostring;
  gss_Delete : W -> W }.
Arguments InitSecContext {W}. Arguments GetMIC {W}. Arguments gss_Delete {W}.

Inductive AuthMethod (W : Type) :=
| noneAuth
| passwordCallback (cb : W -> W * result packet_error gostring)
| publicKeyCallback (cb : W -> W * result packet_error (list goSigner))
| KeyboardInteractiveChallenge
    (cb : W -> gostring -> gostring -> list gostring -> list bool -> W * result packet_error (list gostring))
| retryableAuthMethod (m : AuthMethod W) (maxTries : Z)
| gssAPIWithMICCallback (c : GSSAPIClient W) (target : gostring).
Arguments noneAuth {W}. Arguments passwordCallback {W}. Arguments publicKeyCallback {W}.
Arguments KeyboardInteractiveChallenge {W}. Arguments retryableAuthMethod {W}. Arguments gssAPIWithMICCallback {W}.

Fixpoint method {W} (m : AuthMethod W) : gostring :=
  match m with
  | noneAuth => go "none"
  | passwordCallback _ => go "password"
  | publicKeyCallback _ => publickey
  | KeyboardInteractiveChallenge _ => go "keyboard-interactive"
  | retryableAuthMethod m _ => method m
  | gssAPIWithMICCallback _ _ => go "gssapi-with-mic"
  end.

Definition Password {W} (secret : gostring) : AuthMethod W := passwordCallback (fun w => (w, Ok secret)).
Definition PublicKeys {W} (signers : list goSigner) : AuthMethod W := publicKeyCallback (fun w => (w, Ok signers)).

(** The context of [AuthCallback]: allowed, partially successful and tried methods. *)
Record ClientAuthContext := mkAuthContext {
  AllowedMethods : option (list gostring); PartialSuccessMethods : list gostring; TriedMethods : list gostring }.
Record ClientConfig (W : Type) := mkClientConfig {
  cc_User : gostring;
  cc_Auth : list (AuthMethod W);
  cc_AuthCallback : option (W -> ClientAuthContext -> W * result packet_error (option (AuthMethod W)));
  cc_BannerCallback : option (W -> gostring -> W * option packet_error) }.
Arguments mkClientConfig {W}. Arguments cc_User {W}. Arguments cc_Auth {W}. Arguments cc_AuthCallback {W}. Arguments cc_BannerCallback {W}.

Section Auth.
Context `{CryptoLib, KexLib, UnicodeTables, ASN1}.
Context {W : Type} (write_error : nat -> option packet_error) (retries : nat).
Context (config : ClientConfig W) (sessionID : gostring).
Abbreviation user := (cc_User config).

Definition writePacket (p : gostring) : CM W unit := fun s =>
  let s' := mkClient (cl_world s) (cl_rand s) (cl_in s) (cl_log s ++ [Sent p]) in
  match write_error (length (cl_log s)) with Some e => (Throw e, s') | None => (Val tt, s') end.

(** ** Responses *)
Definition handleBannerResponse (packet : gostring) : CM W unit :=
  msg ← of_parse (UnmarshalMsg userAuthBannerMsg packet);
  match cc_BannerCallback config with
  | None => mret tt
  | Some f => e ← ask (fun w => f w (userAuthBanner_Message msg)); match e with Some e => throw e | None => mret tt end
  end.
(** The two results of a failure message. *)
Definition failure_of (packet : gostring) : CM W (authResult * list gostring) :=
  msg ← of_parse (UnmarshalMsg userAuthFailureMsg packet);
  mret (if userAuthFailure_PartialSuccess msg then authPartialSuccess else authFailure, userAuthFailure_Methods msg).
Definition unexpected {A} (expected got : Z) : CM W A := throw_error (err_msg (unexpectedMessageError expected got)).

Fixpoint auth_responses (fuel : nat) (gotMsgExtInfo : bool) : CM W (authResult * option (list gostring)) :=
  match fuel with
  | O => spins
  | S fuel =>
      packet ← readPacket;
      b ← first_byte packet;
      if b =? msgUserAuthBanner then handleBannerResponse packet;; auth_responses fuel gotMsgExtInfo
      else if b =? msgExtInfo then
        if gotMsgExtInfo then unexpected msgUserAuthSuccess b else auth_responses fuel true
      else if b =? msgUserAuthFailure then r ← failure_of packet; mret (fst r, Some (snd r))
      else if b =? msgUserAuthSuccess then mret (authSuccess, None)
      else unexpected msgUserAuthSuccess b
  end.
Definition handleAuthResponse : CM W (authResult * option (list gostring)) :=
  per_packet (fun fuel => auth_responses fuel false).
(** [return handleAuthResponse(c)]. *)
Definition last_response : CM W authReturn := r ← handleAuthResponse; mret (r, None).

(** ** none and password *)
Definition none_auth : CM W authReturn :=
  writePacket (MarshalMsg (Mk_userAuthRequestMsg user serviceSSH (go "none") []));; last_response.
Definition password_packet (pw : gostring) : gostring :=
  Marshal passwordAuthMsg (user, (serviceSSH, (go "password", (false, (pw, tt))))).
Definition password_auth (cb : W -> W * result packet_error gostring) : CM W authReturn :=
  pw ← ask_res cb; writePacket (password_packet pw);; last_response.

(** ** publickey *)
Definition multi_signer (signer : goSigner) (keyFormat : gostring) : goSigner :=
  match Algorithms signer with
  | Some _ => signer
  | None =>
      if isAlgorithmSigner signer then restrictedSigner signer (algorithmsForKeyFormat (underlyingAlgo keyFormat))
      else restrictedSigner (signerWrapper signer) [underlyingAlgo keyFormat]
  end.
Definition algorithms_of (as_ : goSigner) : list gostring := default [] (Algorithms as_).

Definition getFallbackAlgo (as_ : goSigner) (keyFormat : gostring) : gostring * option packet_error :=
  if negb (contains (algorithms_of as_) (underlyingAlgo keyFormat))
  then ([], Some (newError (go "ssh: no common public key signature algorithm, server only supports " ++ Quote (underlyingAlgo keyFormat) ++
              go " for key type " ++ Quote keyFormat ++ go ", signer only supports [" ++ Join (algorithms_of as_) (go " ") ++ go "]")))
  else (keyFormat, None).
Definition server_algos (extPayload : gostring) : list gostring :=
  let serverAlgos := Split extPayload ","%char in serverAlgos ++ omap certificateAlgo serverAlgos.
Definition key_algos (as_ : goSigner) (keyFormat : gostring) : list gostring :=
  omap (fun signerAlgo => List.find (fun algo => underlyingAlgo algo =s signerAlgo) (algorithmsForKeyFormat keyFormat)) (algorithms_of as_).
Definition pickSignatureAlgorithm (signer : goSigner) (extensions : gmap gostring gostring)
    : option (goSigner * (gostring * option packet_error)) :=
  keyFormat ← key_Type (signer_PublicKey signer);
  let as_ := multi_signer signer keyFormat in
  match extensions !! go "server-sig-algs" with
  | None => Some (as_, getFallbackAlgo as_ keyFormat)
  | Some extPayload =>
      match findCommon (go "public key signature algorithm") (key_algos as_ keyFormat) (server_algos extPayload) true with
      | Err _ => Some (as_, getFallbackAlgo as_ keyFormat)
      | Ok algo => Some (as_, (algo, None))
      end
  end.

Fixpoint key_ack (fuel : nat) (key : PublicKey) : CM W bool :=
  match fuel with
  | O => spins
  | S fuel =>
      packet ← readPacket;
      b ← first_byte packet;
      if b =? msgUserAuthBanner then handleBannerResponse packet;; key_ack fuel key
      else if b =? msgUserAuthPubKeyOk then
        msg ← of_parse (UnmarshalMsg userAuthPubKeyOkMsg packet);
        type ← or_panic (key_Type key);
        pubKey ← or_panic (key_Marshal key);
        mret (contains (algorithmsForKeyFormat type) (userAuthPubKeyOk_Algo msg) && (userAuthPubKeyOk_PubKey msg =s pubKey))
      else if b =? msgUserAuthFailure then mret false
      else unexpected msgUserAuthPubKeyOk b
  end.
Definition confirmKeyAck (key : PublicKey) : CM W bool := per_packet (fun fuel => key_ack fuel key).
Definition validateKey (key : PublicKey) (algo : gostring) : CM W bool :=
  pubKey ← or_panic (key_Marshal key);
  writePacket (publickey_packet user false algo pubKey []);;
  confirmKeyAck key.

Definition sign_with (as_ : goSigner) (data algo : gostring) : CM W Signature := fun s =>
  match signWithAlgorithm as_ (cl_rand s) data algo with
  | None => (Panics, s)
  | Some (Ok sig, rand) => (Val sig, mkClient (cl_world s) rand (cl_in s) (cl_log s))
  | Some (Err e, rand) => (Throw e, mkClient (cl_world s) rand (cl_in s) (cl_log s))
  end.
Definition signed_data (algo pubKey : gostring) : gostring :=
  buildDataSignedForAuth sessionID (Mk_userAuthRequestMsg user serviceSSH publickey []) algo pubKey.
(** The signed request and its response. *)
Definition send_signed (as_ : goSigner) (pub : PublicKey) (algo : gostring) : CM W (authResult * option (list gostring)) :=
  pubKey ← or_panic (key_Marshal pub);
  sign ← sign_with as_ (signed_data algo pubKey) (underlyingAlgo algo);
  writePacket (publickey_packet user true algo pubKey (writeString (MarshalMsg sign)));;
  handleAuthResponse.

(** The signer to try again at the end when a server refuses an RSA certificate. *)
Definition compat_signer (as_ : goSigner) (algo : gostring) (first_pass : bool) : list goSigner :=
  if first_pass && isRSACert algo && negb (algo =s CertAlgoRSAv01) && contains (algorithms_of as_) KeyAlgoRSA
  then [restrictedSigner as_ [KeyAlgoRSA]] else [].
Definition is_failure (r : authResult) : bool := match r with authFailure => true | _ => false end.

(** The loop over the signers, of which [left] are from the original list. *)
Fixpoint try_signers (fuel : nat) (extensions : gmap gostring gostring) (signers : list goSigner) (left : Z)
    (methods : option (list gostring)) (errSigAlgo : option packet_error) : CM W authReturn :=
  match fuel with
  | O => spins
  | S fuel =>
      match signers with
      | [] => mret (authFailure, methods, errSigAlgo)
      | signer :: rest =>
          let pub := signer_PublicKey signer in
          '(as_, (algo, err)) ← or_panic (pickSignatureAlgorithm signer extensions);
          match err, errSigAlgo with
          | Some e, None => try_signers fuel extensions rest (left - 1) methods (Some e)
          | _, _ =>
              ok ← validateKey pub algo;
              if negb ok
              then try_signers fuel extensions (rest ++ compat_signer as_ algo (0 <? left)) (left - 1) methods errSigAlgo
              else
                '(success, methods) ← send_signed as_ pub algo;
                if negb (is_failure success) || negb (contains (default [] methods) publickey)
                then mret (success, methods, None)
                else try_signers fuel extensions rest (left - 1) methods errSigAlgo
          end
      end
  end.
Definition publickey_auth (cb : W -> W * result packet_error (list goSigner)) (extensions : gmap gostring gostring) : CM W authReturn :=
  signers ← ask_res cb;
  try_signers (S (2 * length signers)) extensions signers (len signers) None None.

(** ** keyboard-interactive *)

(** The prompt and echo pairs; [fuel] beyond the length of the text is enough. *)
Fixpoint parse_prompts (fuel : nat) (n : Z) (rest : gostring) : CM W (list gostring * list bool * gostring) :=
  if n <=? 0 then mret ([], [], rest)
  else match fuel with
       | O => spins
       | S fuel =>
           match parseString rest with
           | Some (prompt, b :: rest) =>
               '(prompts, echos, rest) ← parse_prompts fuel (n - 1) rest;
               mret (prompt :: prompts, negb (bv b =? 0) :: echos, rest)
           | _ => throw_error (go "ssh: prompt format error")
           end
       end.
Definition answers_packet (answers : list gostring) : gostring :=
  vb msgUserAuthInfoResponse :: be_bytes 4 (len answers) ++ concat (map writeString answers).
(** One information request: prompts, the callback, the response. *)
Definition answer_request (cb : W -> gostring -> gostring -> list gostring -> list bool -> W * result packet_error (list gostring))
    (packet : gostring) : CM W unit :=
  msg ← of_parse (UnmarshalMsg userAuthInfoRequestMsg packet);
  let text := userAuthInfoRequest_Prompts msg in
  '(prompts, echos, rest) ← parse_prompts (S (length text)) (userAuthInfoRequest_NumPrompts msg) text;
  if negb (len rest =? 0) then throw_error (go "ssh: extra data following keyboard-interactive pairs")
  else
    answers ← ask_res (fun w => cb w (userAuthInfoRequest_Name msg) (userAuthInfoRequest_Instruction msg) prompts echos);
    if negb (len answers =? len prompts)
    then throw_error (go "ssh: incorrect number of answers from keyboard-interactive callback " ++ Itoa (len answers) ++
           go " (expected " ++ Itoa (len prompts) ++ go ")")
    else writePacket (answers_packet answers).
Fixpoint keyboard_loop (fuel : nat) (cb : W -> gostring -> gostring -> list gostring -> list bool -> W * result packet_error (list gostring))
    (gotMsgExtInfo gotUserAuthInfoRequest : bool) : CM W authReturn :=
  match fuel with
  | O => spins
  | S fuel =>
      packet ← readPacket;
      b ← first_byte packet;
      if b =? msgUserAuthBanner then handleBannerResponse packet;; keyboard_loop fuel cb gotMsgExtInfo gotUserAuthInfoRequest
      else if b =? msgExtInfo then
        if gotMsgExtInfo then unexpected msgUserAuthInfoRequest b else keyboard_loop fuel cb true gotUserAuthInfoRequest
      else if b =? msgUserAuthInfoRequest then answer_request cb packet;; keyboard_loop fuel cb gotMsgExtInfo true
      else if b =? msgUserAuthFailure then
        '(r, methods) ← failure_of packet;
        if is_failure r && negb gotUserAuthInfoRequest
        then mret (authFailure, Some methods, Some (newError (err_msg (unexpectedMessageError msgUserAuthInfoRequest b))))
        else mret (r, Some methods, None)
      else if b =? msgUserAuthSuccess then mret (authSuccess, None, None)
      else unexpected msgUserAuthInfoRequest b
  end.
Definition initiate_packet : gostring :=
  Marshal initiateMsg (user, (serviceSSH, (go "keyboard-interactive", ([], ([], tt))))).
Definition keyboard_auth (cb : W -> gostring -> gostring -> list gostring -> list bool -> W * result packet_error (list gostring)) : CM W authReturn :=
  writePacket initiate_packet;;
  per_packet (fun fuel => keyboard_loop fuel cb false false).

(** ** gssapi-with-mic *)
Definition gss_error (m : userAuthGSSAPIError) : gostring :=
  go "GSS-API Error:" ++ [chNL] ++ go "Major Status: " ++ Itoa (userAuthGSSAPIError_MajorStatus m) ++ [chNL] ++
  go "Minor Status: " ++ Itoa (userAuthGSSAPIError_MinorStatus m) ++ [chNL] ++
  go "Error Message: " ++ Quote (userAuthGSSAPIError_Message m) ++ [chNL].
Definition gss_init (c : GSSAPIClient W) (target token : gostring) : CM W (gostring * bool) :=
  ask_res (fun w => InitSecContext c w (go "host@" ++ target) token false).
(** The exchange of tokens: [Some] when a method ends early. *)
Fixpoint gss_tokens (fuel : nat) (c : GSSAPIClient W) (target token : gostring) : CM W (option authReturn) :=
  match fuel with
  | O => spins
  | S fuel =>
      '(nextToken, needContinue) ← gss_init c target token;
      (if 0 <? len nextToken then writePacket (MarshalMsg (Mk_userAuthGSSAPIToken nextToken)) else mret tt);;
      if negb needContinue then mret None
      else
        packet ← readPacket;
        b ← first_byte packet;
        if b =? msgUserAuthFailure then '(r, methods) ← failure_of packet; mret (Some (r, Some methods, None))
        else if b =? msgUserAuthGSSAPIError then
          m ← of_parse (UnmarshalMsg userAuthGSSAPIError packet); throw_error (gss_error m)
        else if b =? msgUserAuthGSSAPIToken then
          m ← of_parse (UnmarshalMsg userAuthGSSAPIToken packet); gss_tokens fuel c target (userAuthGSSAPIToken_Token m)
        else gss_tokens fuel c target token
  end.
Definition mic_field : gostring := buildMIC sessionID user (go "ssh-connection") (go "gssapi-with-mic").
Definition gss_exchange (c : GSSAPIClient W) (target : gostring) : CM W authReturn :=
  r ← per_packet (fun fuel => gss_tokens fuel c target []);
  match r with
  | Some r => mret r
  | None =>
      micToken ← ask_res (fun w => GetMIC c w mic_field);
      writePacket (MarshalMsg (Mk_userAuthGSSAPIMIC micToken));;
      last_response
  end.
Definition deferred {A} (f : W -> W) (m : CM W A) : CM W A := fun s =>
  let '(r, s) := m s in (r, mkClient (f (cl_world s)) (cl_rand s) (cl_in s) (cl_log s)).
Definition gss_packet : gostring :=
  MarshalMsg (Mk_userAuthRequestMsg user serviceSSH (go "gssapi-with-mic") (appendString (appendInt [] 1) krb5OID)).
Definition gss_auth (c : GSSAPIClient W) (target : gostring) : CM W authReturn :=
  writePacket gss_packet;;
  packet ← readPacket;
  _ ← of_parse (UnmarshalMsg userAuthGSSAPIResponse packet);
  deferred (gss_Delete c) (gss_exchange c target).

(** ** The methods *)
Fixpoint retry (n : nat) (bounded : bool) (m : CM W authReturn) (last : authReturn) : CM W authReturn :=
  match n with
  | O => if bounded then mret last else spins
  | S n =>
      r ← m;
      let '(ok, _, err) := r in
      if negb (is_failure ok) || bool_decide (is_Some err) then mret r else retry n bounded m r
  end.
Fixpoint auth (extensions : gmap gostring gostring) (m : AuthMethod W) : CM W authReturn :=
  match m with
  | noneAuth => returned none_auth
  | passwordCallback cb => returned (password_auth cb)
  | publicKeyCallback cb => returned (publickey_auth cb extensions)
  | KeyboardInteractiveChallenge cb => returned (keyboard_auth cb)
  | gssAPIWithMICCallback c target => returned (gss_auth c target)
  | retryableAuthMethod m maxTries =>
      if maxTries <=? 0 then retry retries false (auth extensions m) (authFailure, None, None)
      else retry (Z.to_nat maxTries) true (auth extensions m) (authFailure, None, None)
  end.

(** ** clientAuthenticate *)
Fixpoint parse_extensions (fuel : nat) (n : Z) (payload : gostring) (extensions : gmap gostring gostring) : CM W (gmap gostring gostring) :=
  if n <=? 0 then mret extensions
  else match fuel with
       | O => spins
       | S fuel =>
           match parseString payload with
           | None => throw_error (err_msg (parseError msgExtInfo))
           | Some (name, rest) =>
               match parseString rest with
               | None => throw_error (err_msg (parseError msgExtInfo))
               | Some (value, rest) => parse_extensions fuel (n - 1) rest (<[name := value]> extensions)
               end
           end
       end.
Definition is_ext_info (packet : gostring) : bool := match packet with b :: _ => bv b =? msgExtInfo | [] => false end.
(** The service request, with the extensions the server may send first. *)
Definition start_auth : CM W (gmap gostring gostring) :=
  writePacket (MarshalMsg (Mk_serviceRequestMsg serviceUserAuth));;
  packet ← readPacket;
  '(extensions, packet) ←
    (if is_ext_info packet then
       extInfo ← of_parse (UnmarshalMsg extInfoMsg packet);
       let payload := extInfo_Payload extInfo in
       extensions ← parse_extensions (S (length payload)) (extInfo_NumExtensions extInfo) payload ∅;
       packet ← readPacket;
       mret (extensions, packet)
     else mret (∅, packet));
  _ ← of_parse (UnmarshalMsg serviceAcceptMsg packet);
  mret extensions.

Definition next_method (methods : option (list gostring)) (tried : list gostring) : option (AuthMethod W) :=
  List.find (fun a => negb (contains tried (method a)) && contains (default [] methods) (method a)) (cc_Auth config).
Definition consult (methods : option (list gostring)) (partialSuccess tried : list gostring)
    : CM W (result packet_error (option (AuthMethod W))) :=
  match cc_AuthCallback config with
  | None => mret (Ok None)
  | Some f => ask (fun w => f w (mkAuthContext methods partialSuccess tried))
  end.
Definition unable (tried : list gostring) : packet_error :=
  newError (go "ssh: unable to authenticate, attempted methods [" ++ Join tried (go " ") ++ go "], no supported methods remain").
Definition is_disconnect (err : option packet_error) : option packet_error :=
  match err with Some (disconnectError m) => Some (disconnectError m) | _ => None end.

(** The loop; the result is the error of [clientAuthenticate]. *)
Fixpoint auth_loop (fuel : nat) (extensions : gmap gostring gostring) (m : AuthMethod W) (tried partialSuccess : list gostring)
    (lastMethods : option (list gostring)) : CM W (option packet_error) :=
  match fuel with
  | O => spins
  | S fuel =>
      '(ok, methods, err) ← auth extensions m;
      match is_disconnect err with
      | Some e => mret (Some e)
      | None =>
          let ok := match err with Some _ => authFailure | None => ok end in
          match ok with
          | authSuccess => mret None
          | _ =>
              let tried := if is_failure ok then tried ++ [method m] else tried in
              let partialSuccess := if is_failure ok then partialSuccess else partialSuccess ++ [method m] in
              if maxAuthClientTried <? len partialSuccess + len tried
              then mret (Some (newError (go "ssh: too many authentication attempts (" ++ Itoa (len partialSuccess + len tried) ++ go "), aborting")))
              else
                let methods := match methods with None => lastMethods | _ => methods end in
                alt ← consult methods partialSuccess tried;
                match alt with
                | Err e => mret (Some e)
                | Ok (Some a) => auth_loop fuel extensions a tried partialSuccess methods
                | Ok None =>
                    match next_method methods tried with
                    | Some a => auth_loop fuel extensions a tried partialSuccess methods
                    | None => mret (Some (default (unable tried) err))
                    end
                end
          end
      end
  end.
(** The loop ends by itself within so many rounds: one method is recorded in each. *)
Definition clientAuthenticate : CM W (option packet_error) := fun s =>
  match (extensions ← start_auth; auth_loop (S (Z.to_nat maxAuthClientTried)) extensions noneAuth [] [] None) s with
  | (Throw e, s) => (Val (Some e), s)
  | r => r
  end.
End Auth.

(** ** What the client may send *)
Section Safety.
Context `{CryptoLib, KexLib, UnicodeTables, ASN1, SigLib, !KexLaws}.
Context {W : Type} (write_error : nat -> option packet_error) (retries : nat).
Context (config : ClientConfig W) (sessionID : gostring).
Abbreviation cuser := (cc_User config).
Abbreviation write := (writePacket write_error).

(** A failure message of the server has listed the method. *)
Definition offered (log : list event) (m : gostring) : Prop :=
  exists p msg, Got p ∈ log /\ UnmarshalMsg userAuthFailureMsg p = Ok msg /\ m ∈ userAuthFailure_Methods msg.
Definition permitted (log : list event) (m : gostring) : Prop := offered log m \/ cc_AuthCallback config <> None.
(** The last event is a packet with a property. *)
Definition just_got (log : list event) (P : gostring -> Prop) : Prop := exists log' p, log = log' ++ [Got p] /\ P p.
Definition sent (log : list event) : list gostring := omap (fun e => match e with Sent p => Some p | Got _ => None end) log.

Definition service_request : gostring := MarshalMsg (Mk_serviceRequestMsg serviceUserAuth).
Inductive request (log : list event) : gostring -> Prop :=
| rq_service : log = [] -> request log service_request
| rq_none : sent log = [service_request] -> request log (MarshalMsg (Mk_userAuthRequestMsg cuser serviceSSH (go "none") []))
| rq_password pw : permitted log (go "password") -> request log (password_packet config pw)
| rq_query algo pub pubKey : permitted log publickey -> key_Marshal pub = Some pubKey ->
    request log (publickey_packet cuser false algo pubKey [])
| rq_signed algo pub pubKey sig : permitted log publickey -> key_Marshal pub = Some pubKey ->
    just_got log (fun p => exists msg, UnmarshalMsg userAuthPubKeyOkMsg p = Ok msg /\ userAuthPubKeyOk_PubKey msg = pubKey) ->
    key_Verify pub (signed_data config sessionID algo pubKey) sig = None ->
    request log (publickey_packet cuser true algo pubKey (writeString (MarshalMsg sig)))
| rq_keyboard : permitted log (go "keyboard-interactive") -> request log (initiate_packet config)
| rq_answers answers :
    just_got log (fun p => exists msg, UnmarshalMsg userAuthInfoRequestMsg p = Ok msg /\ len answers = userAuthInfoRequest_NumPrompts msg) ->
    request log (answers_packet answers)
| rq_gss : permitted log (go "gssapi-with-mic") -> request log (gss_packet config)
| rq_token t : Sent (gss_packet config) ∈ log -> request log (MarshalMsg (Mk_userAuthGSSAPIToken t))
| rq_mic t : Sent (gss_packet config) ∈ log -> request log (MarshalMsg (Mk_userAuthGSSAPIMIC t)).
Definition legal (log : list event) : Prop := forall pre p post, log = pre ++ (Sent p :: post) -> request pre p.

(** Methods whose signers are good, and whose retries without limit wait for the server. *)
Fixpoint interactive (m : AuthMethod W) : bool :=
  match m with
  | publicKeyCallback _ | noneAuth => false
  | retryableAuthMethod m n => interactive m
  | _ => true
  end.
Fixpoint method_ok (m : AuthMethod W) : Prop :=
  match m with
  | noneAuth => False
  | publicKeyCallback cb => forall w w' l, cb w = (w', Ok l) -> Forall signer_inv l
  | retryableAuthMethod m n => method_ok m /\ (n <= 0 -> interactive m = true)
  | _ => True
  end.
Record config_ok : Prop := {
  methods_ok : Forall method_ok (cc_Auth config);
  callback_ok : forall f w ctx w' a, cc_AuthCallback config = Some f -> f w ctx = (w', Ok (Some a)) -> method_ok a }.

(** ** A program logic *)
Record inv (s : client W) : Prop := {
  inv_legal : legal (cl_log s);
  inv_in : forall p, Ok p ∈ cl_in s -> p <> [] }.
Record ext (s s' : client W) : Prop := {
  ext_log : exists l, cl_log s' = cl_log s ++ l;
  ext_in : (length (cl_in s') <= length (cl_in s))%nat }.
Definition safe {A} (s : client W) (m : CM W A) (Q : A -> client W -> Prop) : Prop :=
  match m s with
  | (Val a, s') => inv s' /\ ext s s' /\ Q a s'
  | (Throw _, s') => inv s' /\ ext s s'
  | _ => False
  end.

Lemma ext_refl s : ext s s.
Proof. split; [exists []; by rewrite app_nil_r|lia]. Qed.
Lemma ext_trans s1 s2 s3 : ext s1 s2 -> ext s2 s3 -> ext s1 s3.
Proof.
  intros [(l & Hl) Hi] [(l' & Hl') Hi']. split; [|lia]. exists (l ++ l'). by rewrite Hl', Hl, app_assoc.
Qed.
Lemma offered_app log l m : offered log m -> offered (log ++ l) m.
Proof. intros (p & msg & Hp & Hm). exists p, msg. split; [apply elem_of_app; by left|done]. Qed.
Lemma permitted_ext s s' m : ext s s' -> permitted (cl_log s) m -> permitted (cl_log s') m.
Proof. intros [(l & ->) _] [Ho|Hc]; [left; by apply offered_app|by right]. Qed.
Lemma sent_ext s s' p : ext s s' -> Sent p ∈ cl_log s -> Sent p ∈ cl_log s'.
Proof. intros [(l & ->) _] Hp. apply elem_of_app. by left. Qed.

Lemma safe_ret {A} s (a : A) (Q : A -> client W -> Prop) : inv s -> Q a s -> safe s (mret a) Q.
Proof. intros Hi HQ. split; [done|]. split; [apply ext_refl|done]. Qed.
Lemma safe_throw {A} s e (Q : A -> client W -> Prop) : inv s -> safe s (throw e) Q.
Proof. intros Hi. split; [done|apply ext_refl]. Qed.
Lemma safe_bind {A B} s (m : CM W A) (f : A -> CM W B) (Q' : A -> client W -> Prop) Q :
  safe s m Q' -> (forall a s', inv s' -> ext s s' -> Q' a s' -> safe s' (f a) Q) -> safe s (m ≫= f) Q.
Proof.
  unfold safe, mbind, CM_bind. destruct (m s) as [[a|e| |] s1]; [|done..]. intros (Hi & He & HQ') Hf. specialize (Hf a s1 Hi He HQ').
  destruct (f a s1) as [[b|e| |] s2]; [|by destruct Hf as [? ?]; split; [|eapply ext_trans]|done..].
  destruct Hf as (? & ? & ?). split; [done|]. split; [by eapply ext_trans|done].
Qed.
Lemma safe_mono {A} s (m : CM W A) (Q Q' : A -> client W -> Prop) :
  safe s m Q -> (forall a s', inv s' -> ext s s' -> Q a s' -> Q' a s') -> safe s m Q'.
Proof. unfold safe. destruct (m s) as [[a|e| |] s1]; [|done..]. intros (? & ? & ?) Hm. split; [done|]. split; [done|by apply Hm]. Qed.
Lemma safe_parse {A} s (r : res A) : inv s -> safe s (of_parse r) (fun a s' => r = Ok a /\ s' = s).
Proof. intros Hi. destruct r; [by apply safe_ret|by apply safe_throw]. Qed.
Lemma safe_panic {A} s (o : option A) : inv s -> o <> None -> safe s (or_panic o) (fun a s' => o = Some a /\ s' = s).
Proof. intros Hi Ho. destruct o; [by apply safe_ret|done]. Qed.
(** Only the world changes. *)
Definition same_wire (s s' : client W) : Prop := cl_in s' = cl_in s /\ cl_log s' = cl_log s.
Lemma wire_inv s s' : same_wire s s' -> inv s -> inv s' /\ ext s s'.
Proof.
  intros [Hin Hlog] [Hl Hp]. split; [split; by rewrite ?Hlog, ?Hin|]. split; [exists []; by rewrite Hlog, app_nil_r|by rewrite Hin].
Qed.
Lemma safe_ask {A} s (f : W -> W * A) : inv s -> safe s (ask f) (fun a s' => same_wire s s' /\ exists w, f (cl_world s) = (w, a)).
Proof.
  intros Hi. unfold safe, ask. destruct (f (cl_world s)) as [w a] eqn:E. assert (Hs : same_wire s (mkClient w (cl_rand s) (cl_in s) (cl_log s))) by done.
  destruct (wire_inv _ _ Hs Hi). split; [done|]. split; [done|]. split; [done|by exists w].
Qed.
Lemma safe_ask_res {A} s (f : W -> W * result packet_error A) :
  inv s -> safe s (ask_res f) (fun a s' => same_wire s s' /\ exists w, f (cl_world s) = (w, Ok a)).
Proof.
  intros Hi. eapply safe_bind; [by apply safe_ask|]. intros [a|e] s' Hi' He [Hw (w & Hf)]; [|by apply safe_throw].
  apply safe_ret; [done|]. split; [done|by exists w].
Qed.
Lemma legal_snoc log e : legal log -> (forall p, e = Sent p -> request log p) -> legal (log ++ [e]).
Proof.
  intros Hl He pre q post Heq. destruct post as [|x post _] using rev_ind.
  - apply app_inj_tail in Heq as [<- ->]. by apply He.
  - change (log ++ [e] = pre ++ ([Sent q] ++ (post ++ [x]))) in Heq. rewrite !app_assoc in Heq.
    apply app_inj_tail in Heq as [Heq _]. apply (Hl pre q post). by rewrite Heq, <- app_assoc.
Qed.
Lemma safe_read s :
  inv s -> safe s readPacket (fun p s' => p <> [] /\ cl_log s' = cl_log s ++ [Got p] /\ S (length (cl_in s')) = length (cl_in s)).
Proof.
  intros [Hl Hp]. unfold safe, readPacket. destruct (cl_in s) as [|[p|e] rest] eqn:E.
  - split; [by split; rewrite ?E|apply ext_refl].
  - split; [split; [by apply legal_snoc|]; cbn; intros q Hq; apply Hp; apply elem_of_cons; by right|]. split.
    + split; [by exists [Got p]|cbn; rewrite E; cbn; lia].
    + cbn. split; [apply Hp; apply elem_of_cons; by left|]. split; [done|]. done.
  - split; [split; [done|]; cbn; intros q Hq; apply Hp; apply elem_of_cons; by right|].
    split; [exists []; by rewrite app_nil_r|]. cbn. rewrite E. cbn. lia.
Qed.
Lemma safe_write s p :
  inv s -> request (cl_log s) p -> safe s (write p) (fun _ s' => cl_log s' = cl_log s ++ [Sent p] /\ cl_in s' = cl_in s).
Proof.
  intros [Hl Hp] Hr. unfold safe, writePacket. set (s' := mkClient _ _ _ _).
  assert (Hi : inv s') by (split; [apply legal_snoc; [done|]; by intros q [= <-]|done]).
  assert (He : ext s s') by (split; [by exists [Sent p]|done]).
  by destruct (write_error _).
Qed.
Lemma safe_first s p : inv s -> p <> [] -> safe s (first_byte p) (fun b s' => s' = s /\ exists c q, p = c :: q /\ b = bv c).
Proof. intros Hi Hp. destruct p as [|c q]; [done|]. apply safe_ret; [done|]. split; [done|by exists c, q]. Qed.

(** ** Responses *)
Definition succeeded (log : list event) : Prop := just_got log (fun p => exists c q, p = c :: q /\ bv c = msgUserAuthSuccess).
Definition response (r : authResult) (ms : option (list gostring)) (s : client W) : Prop :=
  (forall l m, ms = Some l -> m ∈ l -> offered (cl_log s) m) /\ (r = authSuccess -> succeeded (cl_log s)).

Lemma banner_safe s packet : inv s -> safe s (handleBannerResponse config packet) (fun _ s' => same_wire s s').
Proof.
  intros Hi. eapply safe_bind; [by apply safe_parse|]. intros msg s1 Hi1 _ [_ ->]. destruct (cc_BannerCallback config) as [f|].
  - eapply safe_bind; [by apply safe_ask|]. intros [e|] s2 Hi2 _ [Hw _]; [by apply safe_throw|by apply safe_ret].
  - by apply safe_ret.
Qed.
Lemma failure_safe s packet log :
  inv s -> cl_log s = log ++ [Got packet] -> safe s (failure_of packet) (fun r s' => s' = s /\ response (fst r) (Some (snd r)) s).
Proof.
  intros Hi Hlog. eapply safe_bind; [by apply safe_parse|]. intros msg s1 Hi1 _ [Hm ->]. apply safe_ret; [done|]. split; [done|]. split.
  - intros l m [= <-] Hin. exists packet, msg. split; [rewrite Hlog; apply elem_of_app; right; by apply list_elem_of_singleton|done].
  - cbn. by destruct (userAuthFailure_PartialSuccess msg).
Qed.

Lemma responses_safe fuel seen s : inv s -> (length (cl_in s) < fuel)%nat ->
  safe s (auth_responses config fuel seen) (fun r s' => response (fst r) (snd r) s' /\ (length (cl_in s') < length (cl_in s))%nat).
Proof.
  revert seen s. induction fuel as [|fuel IH]; intros seen s Hi Hf; [lia|]. cbn [auth_responses].
  eapply safe_bind; [by apply safe_read|]. intros p s1 Hi1 _ (Hp & Hlog & Hlen).
  eapply safe_bind; [by apply safe_first|]. intros b s2 _ _ (-> & c & q & -> & ->).
  destruct (bv c =? msgUserAuthBanner).
  { eapply safe_bind; [by apply banner_safe|]. intros _ s3 Hi3 _ [Hin _].
    eapply safe_mono; [apply IH; [done|rewrite Hin; lia]|]. intros r s4 _ _ [Hr Hlt]. split; [done|]. rewrite Hin in Hlt. lia. }
  destruct (bv c =? msgExtInfo).
  { destruct seen; [by apply safe_throw|]. eapply safe_mono; [apply IH; [done|lia]|]. intros r s4 _ _ [Hr Hlt]. split; [done|]. lia. }
  destruct (bv c =? msgUserAuthFailure).
  { eapply safe_bind; [by eapply failure_safe|]. intros r s3 _ _ [-> Hr]. apply safe_ret; [done|]. split; [done|]. lia. }
  destruct (bv c =? msgUserAuthSuccess) eqn:E; [|by apply safe_throw]. apply safe_ret; [done|]. split; [|lia]. split; [done|]. intros _.
  eexists _, _. split; [exact Hlog|]. exists c, q. split; [done|lia].
Qed.
Lemma handle_safe s : inv s ->
  safe s (handleAuthResponse config) (fun r s' => response (fst r) (snd r) s' /\ (length (cl_in s') < length (cl_in s))%nat).
Proof. intros Hi. apply responses_safe; [done|lia]. Qed.

(** What a method returns: methods that were offered, success when the server said so; when
    it waits for the server it has read a packet. *)
Definition good_return (waits : bool) (s : client W) (r : authReturn) (s' : client W) : Prop :=
  let '(ok, ms, err) := r in
  response ok ms s' /\ (waits = true -> err = None -> (length (cl_in s') < length (cl_in s))%nat) /\ (ok = authSuccess -> err = None).
Lemma last_safe s s0 : inv s -> (length (cl_in s) <= length (cl_in s0))%nat -> safe s (last_response config) (good_return true s0).
Proof.
  intros Hi Hle. eapply safe_bind; [by apply handle_safe|]. intros [ok ms] s1 Hi1 _ [Hr Hlt]. apply safe_ret; [done|]. split; [exact Hr|].
  split; [intros _ _; lia|done].
Qed.
Lemma returned_safe s s0 waits m : safe s m (good_return waits s0) -> safe s (returned m) (good_return waits s0).
Proof. unfold safe, returned. destruct (m s) as [[a|e| |] s1]; [done|intros [Hi He]; split_and!; [done..|]|done..]. by split. Qed.

(** ** Methods *)
Lemma none_safe s : inv s -> sent (cl_log s) = [service_request] -> safe s (none_auth write_error config) (good_return false s).
Proof.
  intros Hi Hs. eapply safe_bind; [apply safe_write; [done|by apply rq_none]|]. intros _ s1 Hi1 _ [_ Hin].
  eapply safe_mono; [apply (last_safe _ s); [done|rewrite Hin; lia]|]. intros [[ok ms] err] s2 _ _ (Hr & _ & Hs2). by split_and!.
Qed.
Lemma password_safe cb s : inv s -> permitted (cl_log s) (go "password") -> safe s (password_auth write_error config cb) (good_return true s).
Proof.
  intros Hi Hp. eapply safe_bind; [by apply safe_ask_res|]. intros pw s1 Hi1 _ [[Hin Hlog] _].
  eapply safe_bind; [apply safe_write; [done|apply rq_password; by rewrite Hlog]|]. intros _ s2 Hi2 _ [_ Hin2].
  apply last_safe; [done|]. rewrite Hin2, Hin. lia.
Qed.

Lemma ack_safe fuel key s : inv s -> wf_key key -> (length (cl_in s) < fuel)%nat ->
  safe s (key_ack config fuel key) (fun ok s' => ok = true ->
    just_got (cl_log s') (fun p => exists msg, UnmarshalMsg userAuthPubKeyOkMsg p = Ok msg /\ Some (userAuthPubKeyOk_PubKey msg) = key_Marshal key)).
Proof.
  intros Hi Hk. revert s Hi. induction fuel as [|fuel IH]; intros s Hi Hf; [lia|]. cbn [key_ack].
  eapply safe_bind; [by apply safe_read|]. intros p s1 Hi1 _ (Hp & Hlog & Hlen).
  eapply safe_bind; [by apply safe_first|]. intros b s2 _ _ (-> & c & q & -> & ->).
  destruct (bv c =? msgUserAuthBanner).
  { eapply safe_bind; [by apply banner_safe|]. intros _ s3 Hi3 _ [Hin _]. apply IH; [done|]. rewrite Hin. lia. }
  destruct (bv c =? msgUserAuthPubKeyOk).
  { destruct (wf_key_type _ Hk) as (t & Ht). destruct (key_reads_back _ Hk) as (m & Hm & _).
    eapply safe_bind; [by apply safe_parse|]. intros msg s3 _ _ [Hmsg ->].
    eapply safe_bind; [apply safe_panic; [done|by rewrite Ht]|]. intros t' s3 _ _ [_ ->].
    eapply safe_bind; [apply safe_panic; [done|by rewrite Hm]|]. intros m' s3 _ _ [Hm' ->]. apply safe_ret; [done|]. intros E. bool_simp.
    eexists _, _. split; [exact Hlog|]. exists msg. split; [done|]. congruence. }
  destruct (bv c =? msgUserAuthFailure); [by apply safe_ret|by apply safe_throw].
Qed.
Lemma validate_safe key algo s : inv s -> wf_key key -> permitted (cl_log s) publickey ->
  safe s (validateKey write_error config key algo) (fun ok s' => ok = true ->
    just_got (cl_log s') (fun p => exists msg, UnmarshalMsg userAuthPubKeyOkMsg p = Ok msg /\ Some (userAuthPubKeyOk_PubKey msg) = key_Marshal key)).
Proof.
  intros Hi Hk Hp. destruct (key_reads_back _ Hk) as (m & Hm & _).
  eapply safe_bind; [apply safe_panic; [done|by rewrite Hm]|]. intros pubKey s1 _ _ [Hpk ->].
  eapply safe_bind; [apply safe_write; [done|by eapply rq_query]|]. intros _ s2 Hi2 _ _. apply ack_safe; [done..|lia].
Qed.

Lemma sign_safe g s data algo : inv s -> signer_inv g ->
  safe s (sign_with g data algo) (fun sig s' => same_wire s s' /\ key_Verify (signer_PublicKey g) data sig = None).
Proof.
  intros Hi (Hwf & _ & t & Ht & Hsw & _). destruct (Hsw (cl_rand s) data algo) as (r & rand & Hr & Hok). unfold safe, sign_with. rewrite Hr.
  set (s' := mkClient _ _ _ _). assert (Hs : same_wire s s') by done. destruct (wire_inv _ _ Hs Hi) as [Hi' He].
  destruct r as [sig|e]; [|done]. split; [done|]. split; [done|]. split; [done|]. rewrite key_Verify_plain. by apply Hok.
Qed.
Lemma send_signed_safe g algo s : inv s -> signer_inv g -> permitted (cl_log s) publickey ->
  just_got (cl_log s) (fun p => exists msg, UnmarshalMsg userAuthPubKeyOkMsg p = Ok msg /\
    Some (userAuthPubKeyOk_PubKey msg) = key_Marshal (signer_PublicKey g)) ->
  safe s (send_signed write_error config sessionID g (signer_PublicKey g) algo)
    (fun r s' => response (fst r) (snd r) s' /\ (length (cl_in s') < length (cl_in s))%nat).
Proof.
  intros Hi Hg Hp (log' & p & Hlog & msg & Hmsg & Hpub).
  eapply safe_bind; [apply safe_panic; [done|by rewrite <- Hpub]|]. intros pubKey s1 _ _ [Hpk ->].
  eapply safe_bind; [by apply sign_safe|]. intros sig s2 Hi2 He2 [[Hin Hl] Hv].
  eapply safe_bind; [apply safe_write; [done|]|].
  { eapply (rq_signed _ _ (signer_PublicKey g)); [by eapply permitted_ext|done| |exact Hv].
    exists log', p. split; [by rewrite Hl|]. exists msg. split; [done|]. congruence. }
  intros _ s3 Hi3 _ [_ Hin3]. eapply safe_mono; [by apply handle_safe|]. intros r s4 _ _ [Hr Hlt]. split; [done|]. rewrite Hin3, Hin in Hlt. done.
Qed.

Lemma pick_own g extensions : signer_inv g ->
  exists algo err, pickSignatureAlgorithm g extensions = Some (g, (algo, err)).
Proof.
  intros (Hwf & (l & Hl) & _). destruct (wf_key_type _ Hwf) as (t & Ht). unfold pickSignatureAlgorithm, multi_signer. rewrite Ht, Hl.
  cbn [mbind option_bind]. destruct (extensions !! _) as [e|]; [destruct (findCommon _ _ _ _); [by eexists _, _|]|];
    destruct (getFallbackAlgo g t); by eexists _, _.
Qed.
Lemma compat_inv g algo b : signer_inv g -> Forall signer_inv (compat_signer g algo b) /\ (length (compat_signer g algo b) <= if b then 1 else 0)%nat.
Proof.
  intros Hg. unfold compat_signer. destruct b; [|by split]. destruct (_ && _); [|split; [done|cbn; lia]].
  split; [repeat constructor; by apply inv_restricted|done].
Qed.
Lemma response_ext r ms s s' : is_failure r = true -> ext s s' -> response r ms s -> response r ms s'.
Proof.
  intros Hf [(l & Hl) _] [Hm _]. split; [|by destruct r]. intros ms' m E Hin. rewrite Hl. apply offered_app. by eapply Hm.
Qed.
Lemma signers_safe fuel extensions signers left methods errSig s :
  inv s -> Forall signer_inv signers -> permitted (cl_log s) publickey -> response authFailure methods s ->
  (length signers + Z.to_nat left < fuel)%nat ->
  safe s (try_signers write_error config sessionID fuel extensions signers left methods errSig) (good_return false s).
Proof.
  assert (Hgen : forall s0, inv s -> Forall signer_inv signers -> permitted (cl_log s) publickey -> response authFailure methods s ->
    (length signers + Z.to_nat left < fuel)%nat ->
    safe s (try_signers write_error config sessionID fuel extensions signers left methods errSig) (good_return false s0)); [|by apply Hgen].
  intros s0. revert signers left methods errSig s. induction fuel as [|fuel IH]; intros signers left methods errSig s Hi Hg Hp Hr Hf; [lia|].
  cbn [try_signers]. destruct signers as [|g rest]; [by apply safe_ret|]. apply Forall_cons in Hg as [Hg Hrest].
  destruct (pick_own g extensions Hg) as (algo & err & Hpick). cbn [length] in Hf.
  eapply safe_bind; [apply safe_panic; [done|by rewrite Hpick]|]. intros [as_ [algo' err']] s1 _ _ [E ->]. rewrite Hpick in E. injection E as <- <- <-.
  assert (Hgo : safe s (ok ← validateKey write_error config (signer_PublicKey g) algo;
      if negb ok then try_signers write_error config sessionID fuel extensions (rest ++ compat_signer g algo (0 <? left)) (left - 1) methods errSig
      else '(success, methods) ← send_signed write_error config sessionID g (signer_PublicKey g) algo;
           if negb (is_failure success) || negb (contains (default [] methods) publickey) then mret (success, methods, None)
           else try_signers write_error config sessionID fuel extensions rest (left - 1) methods errSig) (good_return false s0)).
  { eapply safe_bind; [apply validate_safe; [done|apply Hg|done]|]. intros ok s1 Hi1 He1 Hack. destruct ok; cbn [negb].
    - eapply safe_bind; [apply send_signed_safe; [done..|by eapply permitted_ext|by apply Hack]|]. intros [success ms] s2 Hi2 He2 [Hr2 _].
      destruct (negb (is_failure success) || negb (contains (default [] ms) publickey)) eqn:Ed; [by apply safe_ret|].
      destruct success; [|done..]. eapply IH; [done..|by eapply permitted_ext, permitted_ext|done|lia].
    - destruct (compat_inv g algo (0 <? left) Hg) as [Hc Hlen]. apply IH; [done|by apply Forall_app|by eapply permitted_ext|by eapply response_ext|].
      rewrite length_app. destruct (Z.ltb_spec 0 left); lia. }
  destruct err as [e|], errSig as [e'|]; try exact Hgo. apply IH; [done..|]. lia.
Qed.
Lemma publickey_safe cb extensions s : inv s -> permitted (cl_log s) publickey ->
  (forall w w' l, cb w = (w', Ok l) -> Forall signer_inv l) ->
  safe s (publickey_auth write_error config sessionID cb extensions) (good_return false s).
Proof.
  intros Hi Hp Hcb. eapply safe_bind; [by apply safe_ask_res|]. intros l s1 Hi1 He1 [Hw (w & Hf)].
  eapply safe_mono; [apply signers_safe; [done|by eapply Hcb|by eapply permitted_ext|done|]|].
  - unfold len. lia.
  - intros [[ok ms] err] s2 _ _ (Hr & _ & Hs2). by split_and!.
Qed.

Lemma prompts_safe fuel n rest s : inv s -> (length rest < fuel)%nat -> 0 <= n ->
  safe s (parse_prompts fuel n rest) (fun r s' => s' = s /\ len (fst (fst r)) = n).
Proof.
  intros Hi. revert n rest. induction fuel as [|fuel IH]; intros n rest Hf Hn; [lia|]. cbn [parse_prompts].
  destruct (Z.leb_spec n 0); [apply safe_ret; [done|]; split; [done|]; cbn; unfold len; cbn; lia|].
  destruct (parseString rest) as [[prompt [|b r]]|] eqn:E; [by apply safe_throw| |by apply safe_throw].
  apply parseString_inv in E as [E _]. assert (length r < length rest)%nat.
  { rewrite E. repeat (rewrite ?length_app; cbn [length]). lia. }
  eapply safe_bind; [apply IH; lia|]. intros [[ps es] r'] s1 _ _ [-> Hl]. cbn in Hl. apply safe_ret; [done|]. split; [done|]. cbn. rewrite len_cons. lia.
Qed.
Lemma answer_safe cb packet s log : inv s -> cl_log s = log ++ [Got packet] ->
  safe s (answer_request write_error cb packet) (fun _ s' => cl_in s' = cl_in s).
Proof.
  intros Hi Hlog. eapply safe_bind; [by apply safe_parse|]. intros msg s1 _ _ [Hm ->]. destruct (UnmarshalMsg_inv _ _ Hm) as [Hwf _].
  cbn in Hwf. destruct Hwf as (_ & _ & _ & Hn & _).
  eapply safe_bind; [apply prompts_safe; [done|lia|lia]|]. intros [[prompts echos] rest] s1 _ _ [-> Hl]. cbn [fst] in Hl.
  destruct (negb (len rest =? 0)); [by apply safe_throw|].
  eapply safe_bind; [by apply safe_ask_res|]. intros answers s2 Hi2 _ [[Hin2 Hl2] _].
  destruct (Z.eqb_spec (len answers) (len prompts)) as [Ea|]; [|by apply safe_throw].
  eapply safe_mono; [apply safe_write; [done|]|].
  - apply rq_answers. exists log, packet. split; [by rewrite Hl2|]. exists msg. split; [done|lia].
  - intros _ s3 _ _ [_ Hin3]. by rewrite Hin3.
Qed.
Lemma keyboard_loop_safe fuel cb seen asked s s0 : inv s -> (length (cl_in s) < fuel)%nat -> (length (cl_in s) <= length (cl_in s0))%nat ->
  safe s (keyboard_loop write_error config fuel cb seen asked) (good_return true s0).
Proof.
  revert seen asked s. induction fuel as [|fuel IH]; intros seen asked s Hi Hf Hle; [lia|]. cbn [keyboard_loop].
  eapply safe_bind; [by apply safe_read|]. intros p s1 Hi1 _ (Hp & Hlog & Hlen).
  eapply safe_bind; [by apply safe_first|]. intros b s2 _ _ (-> & c & q & -> & ->).
  destruct (bv c =? msgUserAuthBanner).
  { eapply safe_bind; [by apply banner_safe|]. intros _ s3 Hi3 _ [Hin _]. apply IH; [done|rewrite Hin; lia..]. }
  destruct (bv c =? msgExtInfo).
  { destruct seen; [by apply safe_throw|]. apply IH; [done|lia..]. }
  destruct (bv c =? msgUserAuthInfoRequest).
  { eapply safe_bind; [by eapply answer_safe|]. intros ? s3 Hi3 _ Hin. cbn in Hin. apply IH; [done|rewrite Hin; lia..]. }
  destruct (bv c =? msgUserAuthFailure).
  { eapply safe_bind; [by eapply failure_safe|]. intros [r ms] s3 _ _ [-> [Hr Hs]]. cbn [fst snd] in Hr, Hs.
    destruct (is_failure r && negb asked); apply safe_ret; try done; split_and!; try done; intros _ _; lia. }
  destruct (bv c =? msgUserAuthSuccess) eqn:E; [|by apply safe_throw]. apply safe_ret; [done|]. split; [|split; [intros _ _; lia|done]].
  split; [done|]. intros _. eexists _, _. split; [exact Hlog|]. exists c, q. split; [done|lia].
Qed.
Lemma keyboard_safe cb s : inv s -> permitted (cl_log s) (go "keyboard-interactive") -> safe s (keyboard_auth write_error config cb) (good_return true s).
Proof.
  intros Hi Hp. eapply safe_bind; [apply safe_write; [done|by apply rq_keyboard]|]. intros _ s1 Hi1 _ [_ Hin].
  apply keyboard_loop_safe; [done|lia|]. rewrite Hin. lia.
Qed.

Lemma tokens_safe fuel c target token s s0 :
  inv s -> Sent (gss_packet config) ∈ cl_log s -> (length (cl_in s) < fuel)%nat -> (length (cl_in s) <= length (cl_in s0))%nat ->
  safe s (gss_tokens write_error fuel c target token) (fun r s' =>
    match r with
    | Some r => good_return true s0 r s'
    | None => (length (cl_in s') <= length (cl_in s0))%nat
    end).
Proof.
  revert token s. induction fuel as [|fuel IH]; intros token s Hi Hg Hf Hle; [lia|]. cbn [gss_tokens].
  eapply safe_bind; [by apply safe_ask_res|]. intros [nextToken more] s1 Hi1 He1 [[Hin1 Hl1] _].
  eapply (safe_bind _ _ _ (fun _ s' => Sent (gss_packet config) ∈ cl_log s' /\ cl_in s' = cl_in s)).
  { rewrite <- Hl1 in Hg. destruct (0 <? len nextToken); [|by apply safe_ret].
    eapply safe_mono; [apply safe_write; [done|by apply rq_token]|]. intros _ s2 _ He2 [Hl2 Hin2]. split; [by eapply sent_ext|by rewrite Hin2]. }
  intros _ s2 Hi2 He2 [Hg2 Hin2]. destruct more; cbn [negb]; [|apply safe_ret; [done|]; rewrite Hin2; lia].
  eapply safe_bind; [by apply safe_read|]. intros p s3 Hi3 He3 (Hp & Hlog & Hlen). rewrite Hin2 in Hlen.
  eapply safe_bind; [by apply safe_first|]. intros b s4 _ _ (-> & ch & q & -> & ->).
  assert (Hnext : forall token', safe s3 (gss_tokens write_error fuel c target token') (fun r s' =>
    match r with Some r => good_return true s0 r s' | None => (length (cl_in s') <= length (cl_in s0))%nat end)).
  { intros token'. apply IH; [done|by eapply sent_ext|lia..]. }
  destruct (bv ch =? msgUserAuthFailure).
  { eapply safe_bind; [by eapply failure_safe|]. intros [r ms] s5 _ _ [-> [Hr Hs]]. apply safe_ret; [done|]. split; [by split|].
    split; [intros _ _; lia|done]. }
  destruct (bv ch =? msgUserAuthGSSAPIError).
  { eapply safe_bind; [by apply safe_parse|]. intros m s5 _ _ [_ ->]. by apply safe_throw. }
  destruct (bv ch =? msgUserAuthGSSAPIToken); [|apply Hnext]. eapply safe_bind; [by apply safe_parse|]. intros m s5 _ _ [_ ->]. apply Hnext.
Qed.
Lemma deferred_safe {A} s (f : W -> W) (m : CM W A) (Q : A -> client W -> Prop) :
  (forall a s1 s2, same_wire s1 s2 -> Q a s1 -> Q a s2) -> safe s m Q -> safe s (deferred f m) Q.
Proof.
  unfold safe, deferred. intros HQ. destruct (m s) as [r s1] eqn:E.
  assert (Hw : same_wire s1 (mkClient (f (cl_world s1)) (cl_rand s1) (cl_in s1) (cl_log s1))) by done.
  destruct r as [a|e| |]; [intros (Hi & He & Hq)|intros (Hi & He)|done..]; destruct (wire_inv _ _ Hw Hi) as [Hi' He'];
    (split; [done|]); [split; [by eapply ext_trans|by eapply HQ]|by eapply ext_trans].
Qed.
Lemma good_same waits s r s1 s2 : same_wire s1 s2 -> good_return waits s r s1 -> good_return waits s r s2.
Proof. intros [Hin Hl]. destruct r as [[ok ms] err]. unfold good_return, response. by rewrite Hin, Hl. Qed.
Lemma gss_safe c target s : inv s -> permitted (cl_log s) (go "gssapi-with-mic") -> safe s (gss_auth write_error config sessionID c target) (good_return true s).
Proof.
  intros Hi Hp. eapply safe_bind; [apply safe_write; [done|by apply rq_gss]|]. intros _ s1 Hi1 _ [Hl1 Hin1].
  assert (Hg1 : Sent (gss_packet config) ∈ cl_log s1) by (rewrite Hl1; apply elem_of_app; right; by apply list_elem_of_singleton).
  eapply safe_bind; [by apply safe_read|]. intros packet s2 Hi2 He2 (_ & _ & Hlen). rewrite Hin1 in Hlen.
  eapply safe_bind; [by apply safe_parse|]. intros _ s3 _ _ [_ ->]. apply deferred_safe; [intros a; apply good_same|].
  eapply safe_bind; [apply (tokens_safe _ _ _ _ _ s); [done|by eapply sent_ext|lia..]|]. intros [r|] s4 Hi4 He4 Hr; [by apply safe_ret|].
  eapply safe_bind; [by apply safe_ask_res|]. intros mic s5 Hi5 He5 [[Hin5 Hl5] _].
  eapply safe_bind; [apply safe_write; [done|]|].
  - apply rq_mic. by eapply sent_ext, sent_ext, sent_ext.
  - intros _ s6 Hi6 _ [_ Hin6]. apply last_safe; [done|]. rewrite Hin6, Hin5. done.
Qed.

Lemma good_le waits s s0 r s' : (length (cl_in s) <= length (cl_in s0))%nat -> good_return waits s r s' -> good_return waits s0 r s'.
Proof.
  intros Hle. destruct r as [[ok ms] err]. intros (Hr & Hlt & Hs). split; [done|]. split; [|done]. intros Hw He. specialize (Hlt Hw He). lia.
Qed.
Lemma retry_safe n bounded m last s s0 waits :
  inv s -> (length (cl_in s) <= length (cl_in s0))%nat ->
  (forall s1, inv s1 -> ext s s1 -> safe s1 m (good_return waits s1)) ->
  (n = O -> bounded = true -> good_return waits s0 last s) ->
  (bounded = false -> waits = true /\ (length (cl_in s) < n)%nat) ->
  safe s (retry n bounded m last) (good_return waits s0).
Proof.
  revert last s. induction n as [|n IH]; intros last s Hi Hle Hm Hlast Hb; cbn [retry].
  { destruct bounded; [apply safe_ret; [done|by apply Hlast]|]. destruct (Hb eq_refl). lia. }
  eapply safe_bind; [apply Hm; [done|apply ext_refl]|]. intros [[ok ms] err] s1 Hi1 He1 Hr.
  destruct (negb (is_failure ok) || bool_decide (is_Some err)) eqn:Ed; [apply safe_ret; [done|by eapply good_le]|].
  apply orb_false_iff in Ed as [_ Ed]. apply bool_decide_eq_false in Ed. assert (err = None) as -> by (destruct err; [by destruct Ed|done]).
  apply IH; [done|destruct He1; lia|intros s2 Hi2 He2; apply Hm; [done|by eapply ext_trans]|intros _ _; by eapply good_le|].
  intros E. destruct (Hb E) as [-> Hlt]. split; [done|]. destruct Hr as (_ & Hlt' & _). specialize (Hlt' eq_refl eq_refl). lia.
Qed.
Lemma auth_safe extensions m s :
  inv s -> method_ok m -> permitted (cl_log s) (method m) -> (length (cl_in s) < retries)%nat ->
  safe s (auth write_error retries config sessionID extensions m) (good_return (interactive m) s).
Proof.
  intros Hi Hm. revert s Hi. induction m as [|cb|cb|cb|m IH n|c target]; intros s Hi Hp Hlt; cbn [auth]; [done|..];
    try (apply returned_safe); [by apply password_safe|by apply publickey_safe|by apply keyboard_safe| |by apply gss_safe].
  destruct Hm as [Hm Hn]. assert (Hone : forall s1, inv s1 -> ext s s1 ->
    safe s1 (auth write_error retries config sessionID extensions m) (good_return (interactive m) s1)).
  { intros s1 Hi1 He1. apply IH; [done..|by eapply permitted_ext|]. destruct He1. lia. }
  destruct (Z.leb_spec n 0); apply retry_safe; try done; [|lia]. intros _. split; [by apply Hn|done].
Qed.

Lemma extensions_safe fuel n payload m s : inv s -> (length payload < fuel)%nat ->
  safe s (parse_extensions fuel n payload m) (fun _ s' => s' = s).
Proof.
  intros Hi. revert n payload m. induction fuel as [|fuel IH]; intros n payload m Hf; [lia|]. cbn [parse_extensions].
  destruct (n <=? 0); [by apply safe_ret|]. destruct (parseString payload) as [[name rest]|] eqn:E; [|by apply safe_throw].
  destruct (parseString rest) as [[value rest']|] eqn:E'; [|by apply safe_throw]. apply parseString_inv in E as [E _], E' as [E' _].
  apply IH. assert (length rest' < length payload)%nat; [|lia]. subst payload rest. rewrite !length_app. unfold appendInt, appendU32. cbn [length app]. rewrite ?be_bytes_length. lia.
Qed.
Lemma sent_app l l' : sent (l ++ l') = sent l ++ sent l'.
Proof. apply omap_app. Qed.
Lemma start_safe s : inv s -> cl_log s = [] -> safe s (start_auth write_error) (fun _ s' => sent (cl_log s') = [service_request]).
Proof.
  intros Hi Hl. eapply safe_bind; [apply safe_write; [done|by apply rq_service]|]. intros _ s1 Hi1 _ [Hl1 _]. rewrite Hl in Hl1.
  eapply safe_bind; [by apply safe_read|]. intros packet s2 Hi2 _ (_ & Hl2 & _).
  eapply (safe_bind _ _ _ (fun _ s' => sent (cl_log s') = [service_request])).
  - assert (Hs2 : sent (cl_log s2) = [service_request]) by (by rewrite Hl2, Hl1). destruct (is_ext_info packet); [|by apply safe_ret].
    eapply safe_bind; [by apply safe_parse|]. intros extInfo s3 _ _ [_ ->].
    eapply safe_bind; [apply extensions_safe; [done|lia]|]. intros extensions s3 _ _ ->.
    eapply safe_bind; [by apply safe_read|]. intros packet' s3 Hi3 _ (_ & Hl3 & _). apply safe_ret; [done|].
    rewrite Hl3, sent_app, Hs2. done.
  - intros [extensions packet'] s3 Hi3 _ Hs3. eapply safe_bind; [by apply safe_parse|]. intros _ s4 _ _ [_ ->]. by apply safe_ret.
Qed.

Lemma consult_safe s methods partialSuccess tried : inv s ->
  safe s (consult config methods partialSuccess tried) (fun r s' => same_wire s s' /\
    forall a, r = Ok (Some a) -> cc_AuthCallback config <> None /\ (config_ok -> method_ok a)).
Proof.
  intros Hi. unfold consult. destruct (cc_AuthCallback config) as [f|] eqn:Ef; [|by apply safe_ret].
  eapply safe_mono; [by apply safe_ask|]. intros r s' _ _ [Hw (w & Hr)]. split; [done|]. intros a ->. split; [done|].
  intros [_ Hc]. by eapply Hc.
Qed.
Lemma loop_safe fuel extensions m tried partialSuccess lastMethods s :
  config_ok -> inv s -> (length (cl_in s) < retries)%nat ->
  (m = noneAuth /\ sent (cl_log s) = [service_request]) \/ (method_ok m /\ permitted (cl_log s) (method m)) ->
  response authFailure lastMethods s -> 65 <= len tried + len partialSuccess + Z.of_nat fuel -> len tried + len partialSuccess <= 64 ->
  safe s (auth_loop write_error retries config sessionID fuel extensions m tried partialSuccess lastMethods)
    (fun e s' => e = None -> succeeded (cl_log s')).
Proof.
  intros Hcfg. revert m tried partialSuccess lastMethods s.
  induction fuel as [|fuel IH]; intros m tried partialSuccess lastMethods s Hi Hlt Hm Hlast Hfuel Hcount; [lia|]. cbn [auth_loop].
  apply (safe_bind _ _ _ (good_return false s)).
  { destruct Hm as [[-> Hs]|[Hm Hp]]; [by apply returned_safe, none_safe|].
    eapply safe_mono; [by apply auth_safe|]. intros [[ok ms] err] s1 _ _ (Hr & _ & Hs1). by split_and!. }
  intros [[ok ms] err] s1 Hi1 He1 (Hr & _ & Hs1). destruct (is_disconnect err) as [e|] eqn:Ed; [by apply safe_ret|].
  assert (Hnext : forall tried' partial', len tried' + len partial' = len tried + len partialSuccess + 1 ->
    response authFailure ms s1 ->
    safe s1 (if maxAuthClientTried <? len partial' + len tried' then mret (Some (newError (go "ssh: too many authentication attempts (" ++
                Itoa (len partial' + len tried') ++ go "), aborting")))
             else let methods := match ms with None => lastMethods | _ => ms end in
               alt ← consult config methods partial' tried';
               match alt with
               | Err e => mret (Some e)
               | Ok (Some a) => auth_loop write_error retries config sessionID fuel extensions a tried' partial' methods
               | Ok None => match next_method config methods tried' with
                            | Some a => auth_loop write_error retries config sessionID fuel extensions a tried' partial' methods
                            | None => mret (Some (default (unable tried') err))
                            end
               end) (fun e s' => e = None -> succeeded (cl_log s'))).
  { intros tried' partial' Hl Hms. unfold maxAuthClientTried. destruct (Z.ltb_spec 64 (len partial' + len tried')); [by apply safe_ret|].
    cbv zeta. set (methods := match ms with None => lastMethods | _ => ms end).
    assert (Hmeth : response authFailure methods s1) by (unfold methods; destruct ms; [done|by eapply response_ext]).
    eapply safe_bind; [by apply consult_safe|]. intros alt s2 Hi2 He2 [[Hin2 Hl2] Halt].
    assert (Hrec : forall a, method_ok a -> permitted (cl_log s2) (method a) ->
      safe s2 (auth_loop write_error retries config sessionID fuel extensions a tried' partial' methods) (fun e s' => e = None -> succeeded (cl_log s'))).
    { intros a Ha Hp. apply IH; [done|rewrite Hin2; destruct He1; lia|by right|by eapply response_ext|lia|lia]. }
    destruct alt as [[a|]|e]; [| |by apply safe_ret].
    - destruct (Halt a eq_refl) as [Hcb Ha]. apply Hrec; [by apply Ha|by right].
    - destruct (next_method config methods tried') as [a|] eqn:En; [|by apply safe_ret]. apply find_some in En as [Hin Ea]. bool_simp.
      apply Hrec; [|left]; [destruct Hcfg as [Hall _]; rewrite Forall_forall in Hall; apply Hall; by apply list_elem_of_In|].
      rewrite Hl2. destruct methods as [l|]; [|done]. apply (proj1 Hmeth l); [done|by apply contains_spec]. }
  assert (Hfail : response authFailure ms s1) by (split; [apply Hr|done]). destruct err as [e|].
  { cbn [is_failure]. apply Hnext; [rewrite len_snoc; lia|done]. }
  destruct ok; cbn [is_failure]; [apply Hnext; [rewrite len_snoc; lia|done]|apply Hnext; [rewrite len_snoc; lia|done]|].
  apply safe_ret; [done|]. intros _. by apply Hr.
Qed.

(** C28. Whatever the server sends, a client whose signers are good, and whose retries
    without limit are of methods that wait for an answer of the server, returns, without a
    panic and within the rounds of [clientAuthenticate], [maxAuthClientTried] and one.  It reports success only when the last packet it read is
    the success message.  In every run, each packet it sends is one it may send at that
    point: the service request first, then the request without a method; a password, a key
    query, or a request for another method only when a failure message of the server has
    listed the method (or the configuration chooses methods itself); a signature only
    right after the server has acknowledged that very key, and one that the key verifies
    over the data of this session and request; answers only to a request for information,
    as many as it has prompts; tokens only in a GSS-API exchange it has begun. *)
Theorem clientAuthenticate_safe s :
  config_ok -> cl_log s = [] -> (forall p, Ok p ∈ cl_in s -> p <> []) -> (length (cl_in s) < retries)%nat ->
  exists e s', clientAuthenticate write_error retries config sessionID s = (Val e, s') /\
    legal (cl_log s') /\ (e = None -> succeeded (cl_log s')).
Proof.
  intros Hcfg Hl Hin Hlt. assert (Hi : inv s) by (split; [rewrite Hl; by intros [|? ?]|done]).
  assert (Hs : safe s (extensions ← start_auth write_error; auth_loop write_error retries config sessionID (S (Z.to_nat maxAuthClientTried)) extensions noneAuth [] [] None)
    (fun e s' => e = None -> succeeded (cl_log s'))).
  { eapply safe_bind; [by apply start_safe|]. intros extensions s1 Hi1 He1 Hs1.
    apply loop_safe; [done|done|destruct He1; lia|by left|done|change (len (@nil gostring)) with 0; unfold maxAuthClientTried; lia|change (len (@nil gostring)) with 0; lia]. }
  unfold safe in Hs. unfold clientAuthenticate.
  lazymatch type of Hs with match ?x with _ => _ end => destruct x as [[e|e| |] s'] end; [| |done..].
  - destruct Hs as ([Hleg _] & _ & HQ). by exists e, s'.
  - destruct Hs as ([Hleg _] & _). by exists (Some e), s'.
Qed.
End Safety.

(** An unlimited retry of a method without signers never waits for the server. *)
Example retry_spins n s :
  fst (@auth sample_crypto sample_kexlib ascii_tables sample_asn1 unit (fun _ => None) n (mkClientConfig [] [] None None) [] ∅
         (retryableAuthMethod (PublicKeys []) 0) s) = Spins.
Proof.
  cbn [auth]. match goal with |- context [retry _ _ ?x] => set (m := x) end. change (0 <=? 0) with true. cbv iota.
  assert (Hone : forall s, exists s', m s = (Val (authFailure, None, None), s')) by (intros; eexists; reflexivity). clearbody m.
  revert s. generalize (authFailure, @None (list gostring), @None packet_error). induction n as [|n IH]; intros r s; [done|]. cbn [retry].
  unfold mbind, CM_bind. destruct (Hone s) as (s' & ->). cbn [is_failure negb orb]. apply IH.
Qed.

Definition sample_config : ClientConfig unit :=
  mkClientConfig (go "git") [PublicKeys [sample_go_signer]; retryableAuthMethod (Password (go "secret")) 3] None None.
Definition sample_packets : list (result packet_error gostring) :=
  [Ok (MarshalMsg (Mk_serviceAcceptMsg serviceUserAuth)); Ok (MarshalMsg (Mk_userAuthFailureMsg [go "password"] false));
   Ok (MarshalMsg (Mk_userAuthFailureMsg [go "password"] false)); Ok [vb msgUserAuthSuccess]].
Lemma clientAuthenticate_safe_witness :
  exists s', @clientAuthenticate sample_crypto sample_kexlib ascii_tables sample_asn1 unit (fun _ => None) 9 sample_config (go "id")
      (mkClient tt (mkSource [] ioEOF) sample_packets []) = (Val None, s') /\
    @legal sample_crypto sample_kexlib ascii_tables sample_siglib unit sample_config (go "id") (cl_log s').
Proof.
  destruct (@clientAuthenticate_safe sample_crypto sample_kexlib ascii_tables sample_asn1 sample_siglib sample_kexlaws unit (fun _ => None) 9
              sample_config (go "id") (mkClient tt (mkSource [] ioEOF) sample_packets [])) as (e & s' & He & Hl & _).
  - split; [|done]. constructor; [|repeat constructor; done].
    intros w w' l [= _ <-]. apply Forall_singleton, inv_good, sample_good.
  - reflexivity.
  - intros p Hp. apply list_elem_of_In in Hp. destruct Hp as [[= <-]|[[= <-]|[[= <-]|[[= <-]|[]]]]]; discriminate.
  - cbn. lia.
  - exists s'. split; [|exact Hl]. rewrite He. f_equal. revert He. vm_compute. by intros [= <- _].
Defined.
