(* ===== verification/ClientLogin.v ===== *)
(** * A client and a server of the library: public key login.

    [clientAuthenticate] of [ClientAuth] talks to [serverAuthenticate] of [SshAuth], over
    the keys of [SshKeys] and the signers of [SshSigners].  What one writes is what the
    other reads, and the server announces its algorithms as the handshake does.

    Proved: a client with the key of a good signer, as the SSH backend of the git server
    configures it, is let in by every server that accepts the key for its user and has an
    algorithm in common with the signer. *)
From Stdlib Require Import Ascii String ZArith Lia.
From stdpp Require Import base gmap strings list.
From S2P Require Import Prelude GoStrings GoIO SshWire SshMessages SshAlgos GoCrypto SshCipher SshAuth KexLib SshKex SshHandshake SshKeys SshSigners ClientAuth.
Local Open Scope Z_scope.

(** ** Certificate algorithms *)
Lemma cert_names : Forall (fun p => certificateAlgo (snd p) = Some (fst p) /\ underlyingAlgo (fst p) = snd p) certKeyAlgoNames.
Proof. repeat constructor. Qed.
Lemma assoc_In l k v : assoc l k = Some v -> (k, v) ∈ l.
Proof.
  induction l as [|[k' v'] l IH]; [done|]. cbn [assoc]. destruct (k =s k') eqn:E; [|intros Hv; apply elem_of_cons; right; by apply IH].
  intros [= ->]. bool_simp. subst. apply elem_of_cons. by left.
Qed.
Lemma underlying_cert algo : underlyingAlgo algo = algo \/ certificateAlgo (underlyingAlgo algo) = Some algo.
Proof.
  unfold underlyingAlgo. destruct (assoc certKeyAlgoNames algo) as [v|] eqn:E; [|by left]. right. apply assoc_In in E.
  pose proof cert_names as Hc. rewrite Forall_forall in Hc. destruct (Hc _ E). done.
Qed.
Lemma certificate_underlying u algo : certificateAlgo u = Some algo -> underlyingAlgo algo = u.
Proof.
  unfold certificateAlgo. destruct (List.find _ certKeyAlgoNames) as [[a v]|] eqn:E; [|done]. intros [= <-].
  apply find_some in E as [Hin E]. bool_simp. pose proof cert_names as Hc. rewrite Forall_forall in Hc. apply list_elem_of_In, Hc in Hin as [_ Hu].
  cbn [fst snd] in *. congruence.
Qed.

Section Pick.
Context `{KexLib, UnicodeTables}.
Lemma find_In {A} (f : A -> bool) l x : x ∈ l -> f x = true -> exists y, List.find f l = Some y.
Proof.
  intros Hin Hf. destruct (List.find f l) as [y|] eqn:E; [by exists y|]. apply list_elem_of_In in Hin.
  by rewrite (find_none _ _ E x Hin) in Hf.
Qed.
(** The extensions of a server. *)
Definition extensions_of (algos : list gostring) : gmap gostring gostring :=
  <[go "ping@openssh.com" := go "0"]> (<[go "server-sig-algs" := Join algos (go ",")]> ∅).

(** The algorithm a client picks, when signer and server have one in common. *)
Lemma pick_agreed g l t algos a algo0 :
  Algorithms g = Some l -> key_Type (signer_PublicKey g) = Some t -> algos <> [] ->
  Forall (fun x => (","%char ∉ x) /\ underlyingAlgo x = x) algos ->
  a ∈ l -> a ∈ algos -> algo0 ∈ algorithmsForKeyFormat t -> underlyingAlgo algo0 = a ->
  exists algo, pickSignatureAlgorithm g (extensions_of algos) = Some (g, (algo, None)) /\
    underlyingAlgo algo ∈ algos /\ underlyingAlgo algo ∈ l /\ algo ∈ algorithmsForKeyFormat t.
Proof.
  intros Hl Ht Hne Hplain Ha Has Hfmt Hu. unfold pickSignatureAlgorithm, multi_signer, extensions_of. rewrite Ht, Hl. cbn [mbind option_bind].
  rewrite lookup_insert_ne by done. rewrite lookup_insert_eq. unfold findCommon, server_algos, key_algos, algorithms_of. rewrite Hl. cbn [default]. cbv zeta. change (id l) with l.
  change (go ",") with [","%char]. rewrite Split_Join; [|done|eapply Forall_impl; [exact Hplain|]; by intros x [? _]].
  set (find_algo := fun signerAlgo => List.find (fun algo => underlyingAlgo algo =s signerAlgo) (algorithmsForKeyFormat t)).
  assert (Hf : exists algo, List.find (contains (algos ++ omap certificateAlgo algos)) (omap find_algo l) = Some algo).
  { destruct (find_In (fun algo => underlyingAlgo algo =s a) (algorithmsForKeyFormat t) algo0) as (y & Hy); [done|by apply gos_eqb_eq|].
    apply (find_In _ _ y).
    - apply list_elem_of_omap. exists a. done.
    - apply contains_spec. apply find_some in Hy as [_ Hy]. bool_simp. apply elem_of_app. destruct (underlying_cert y) as [E|E].
      + left. rewrite <- E, Hy. done.
      + right. apply list_elem_of_omap. exists a. split; [done|]. by rewrite <- Hy. }
  destruct Hf as (algo & Hf). rewrite Hf. exists algo. split; [done|]. apply find_some in Hf as [Hin Hc]. apply contains_spec in Hc.
  apply list_elem_of_In, list_elem_of_omap in Hin as (a' & Ha' & Hfa). apply find_some in Hfa as [Hin Hfa]. bool_simp.
  split; [|by rewrite Hfa; split; [|apply list_elem_of_In]].
  apply elem_of_app in Hc as [Hc|Hc].
  - rewrite Forall_forall in Hplain. by rewrite (proj2 (Hplain _ Hc)).
  - apply list_elem_of_omap in Hc as (u & Hu' & Hcert). by rewrite (certificate_underlying _ _ Hcert).
Qed.
End Pick.

(** ** The keys of good signers *)
Section Login.
Context `{CryptoLib, KexLib, UnicodeTables, ASN1, SigLib, NetLib, !KexLaws}.
#[local] Instance keys : KeyLib := go_keylib.
#[local] Existing Instance SshAuth.M_ret.
#[local] Existing Instance SshAuth.M_bind.

Lemma good_no_touch g : good_signer g -> skKeyWithoutUP (signer_PublicKey g) = signer_PublicKey g.
Proof.
  assert (Hnp : forall k pub, NewPublicKey k = Ok pub -> without_touch pub = None).
  { intros k pub. destruct k as [|[c|]| |key|]; cbn [NewPublicKey]; try (by intros [= <-]). destruct (negb _); [done|]. by intros [= <-]. }
  assert (Hgen : good_signer g -> without_touch (plain_of (signer_PublicKey g)) = None).
  { induction 1 as [cs g pub Hlaw Hwf Hp Hg|k g Hlaw Hwf Hg|g l g' Hg IH Hn|g c g' Hg IH Hc Hsmall Hn].
    - unfold NewSignerFromSigner in Hg. rewrite Hp in Hg. apply Ok_inj in Hg as <-. cbn [signer_PublicKey].
      rewrite (proj2 (plain_key _ Hwf)). by eapply Hnp.
    - unfold newDSAPrivateKey in Hg. destruct (checkDSAParams _); [done|]. by apply Ok_inj in Hg as <-.
    - unfold NewSignerWithAlgorithms in Hn. destruct l as [|a l]; [done|]. destruct (key_Type _) as [ty|]; [|done].
      destruct (check_algorithms _ _ _ _); [done|]. by injection Hn as <-.
    - unfold NewCertSigner in Hn. destruct (key_Marshal (cert_Key c)) as [a|] eqn:Ea; [|done].
      destruct (key_Marshal (signer_PublicKey g)) as [b|] eqn:Eb; [|done]. destruct (a =s b) eqn:E; [|done]. bool_simp. subst b.
      destruct (inv_good _ Hg) as (Hwf & (l & Hl) & _). cbn [negb] in Hn. rewrite Hl in Hn. injection Hn as <-. cbn [signer_PublicKey plain_of].
      assert (Hk : cert_Key c = signer_PublicKey g).
      { eapply key_Marshal_inj; [apply Hc|exact Hwf|by apply Hsmall|exact Ea|exact Eb]. }
      destruct (plain_key (cert_Key c)) as [_ Hp]; [apply Hc|]. rewrite <- Hk, Hp in IH. done. }
  intros Hg. specialize (Hgen Hg). destruct (signer_PublicKey g) as [| | | | | |c]; cbn [plain_of skKeyWithoutUP default] in *; try done; by rewrite Hgen.
Qed.

(** ** The setting *)
Context {W W' Perm : Type} (source_address : Perm -> option gostring) (Extension : Perm -> gostring -> bool).
Context (sessionID : gostring) (remote : net_addr) (retries : nat).
Context (cfg : ServerConfig (W := W') (Perm := Perm)) (f : W' -> gostring -> PublicKey -> W' * (option Perm * option (auth_error W' Perm PublicKey))).
Context (user : gostring) (g : goSigner) (w : W) (w' : W') (rand : Source).
Abbreviation serve := (serverAuthenticate source_address Extension (fun _ => None) sessionID remote cfg).
Abbreviation config := (mkClientConfig user [PublicKeys [g]] (None : option (W -> ClientAuthContext -> W * result packet_error (option (AuthMethod W)))) None).
Abbreviation log_in := (clientAuthenticate (fun _ => None) retries config sessionID).
Abbreviation pub := (signer_PublicKey g).

Record login_setting (perms : option Perm) (l : list gostring) (t m : gostring) : Prop := {
  ls_none : NoClientAuth cfg = false;
  ls_pre : PreAuthConnCallback cfg = None;
  ls_banner : BannerCallback cfg = None;
  ls_verified : VerifiedPublicKeyCallback cfg = None;
  ls_callback : cb_PublicKey (AuthCallbacks cfg) = Some f;
  ls_accepts : forall w, exists w1, f w user pub = (w1, (perms, None));
  ls_source : checkSourceAddressCriticalOption source_address remote perms = None;
  ls_good : good_signer g;
  ls_small : small_key pub;
  ls_type : key_Type pub = Some t;
  ls_marshal : key_Marshal pub = Some m;
  ls_algos : Algorithms g = Some l;
  ls_server : PublicKeyAuthAlgorithms cfg <> [] /\ Forall (fun x => (","%char ∉ x) /\ underlyingAlgo x = x) (PublicKeyAuthAlgorithms cfg);
  ls_common : exists a algo, a ∈ l /\ a ∈ PublicKeyAuthAlgorithms cfg /\ algo ∈ algorithmsForKeyFormat t /\ underlyingAlgo algo = a;
  ls_signs : forall rand data a, a ∈ l ->
    exists sig rand', signWithAlgorithm g rand data a = Some (Ok sig, rand') /\ len (MarshalMsg sig) < 2 ^ 28;
  ls_lengths : len user < 2 ^ 28 /\ len m < 2 ^ 28 /\ len (Join (PublicKeyAuthAlgorithms cfg) (go ",")) < 2 ^ 28 }.

(** ** Packets *)
Definition key_payload (hasSig : bool) (algo m sig : gostring) : gostring :=
  vb (if hasSig then 1 else 0) :: (appendInt [] (len algo) ++ algo) ++ (appendInt [] (len m) ++ m) ++ sig.
Lemma publickey_packet_eq hasSig algo m sig :
  publickey_packet user hasSig algo m sig = MarshalMsg (Mk_userAuthRequestMsg user serviceSSH publickey (key_payload hasSig algo m sig)).
Proof. unfold publickey_packet, MarshalMsg, Marshal. cbn. rewrite ?app_nil_r. by destruct hasSig. Qed.
Lemma len_appendInt n : len (appendInt [] n) = 4.
Proof. unfold appendInt, appendU32, len. cbn [app]. by rewrite be_bytes_length. Qed.
Lemma request_len m payload : len (MarshalMsg (Mk_userAuthRequestMsg user serviceSSH m payload)) = 27 + len user + len m + len payload.
Proof.
  change (len (vb 50 :: (appendInt [] (len user) ++ user) ++ (appendInt [] (len serviceSSH) ++ serviceSSH) ++
    (appendInt [] (len m) ++ m) ++ payload ++ []) = 27 + len user + len m + len payload).
  rewrite len_cons, !len_app, !len_appendInt, len_nil. change (len serviceSSH) with 14. lia.
Qed.
Lemma payload_len hasSig algo m sig : len (key_payload hasSig algo m sig) = 9 + len algo + len m + len sig.
Proof. unfold key_payload. rewrite len_cons, !len_app, !len_appendInt. lia. Qed.

(** ** The server *)
Abbreviation round := (auth_round source_address Extension (fun _ => None) sessionID remote cfg).
Definition reads (s : session W') (p : gostring) (rest : list read_event) : Prop := ss_in s = RPacket p :: rest.
(** The state of the loop after some rounds without a rejection. *)
Record ready (lo : loop (W := W') (Perm := Perm)) (attempts : Z) : Prop := {
  rd_failures : l_authFailures lo = 0;
  rd_attempts : l_authAttempts lo = attempts;
  rd_partial : l_partial lo = false;
  rd_config : l_config lo = AuthCallbacks cfg }.
Definition cached (perms : option Perm) (m : gostring) : cachedPubKey (W := W') (Perm := Perm) := MkCached user m None perms.

Lemma read_own lo attempts s m payload rest :
  ready lo attempts -> reads s (MarshalMsg (Mk_userAuthRequestMsg user serviceSSH m payload)) rest ->
  len user < 2 ^ 28 -> len m < 2 ^ 28 -> len payload < 2 ^ 31 ->
  read_request lo s = (inl (Mk_userAuthRequestMsg user serviceSSH m payload), MkSession (ss_world s) rest (ss_out s) (ss_trace s)).
Proof.
  intros [_ _ Hp _] Hr Hu Hm Hl. unfold read_request, mbind, M_bind, SshAuth.readPacket. rewrite Hr. unfold of_res.
  cbn [mret M_ret]. rewrite UnmarshalMsg_MarshalMsg; [|done|rewrite request_len; lia]. unfold mret, M_ret. cbv beta iota. cbn [userAuthRequest_Service]. rewrite gos_eqb_refl. cbn [negb].
  rewrite Hp, andb_false_r. done.
Qed.
Lemma round_open lo attempts s m payload rest :
  BannerCallback cfg = None -> ready lo attempts -> 0 <= attempts < 128 -> reads s (MarshalMsg (Mk_userAuthRequestMsg user serviceSSH m payload)) rest ->
  len user < 2 ^ 28 -> len m < 2 ^ 28 -> len payload < 2 ^ 31 ->
  let req := Mk_userAuthRequestMsg user serviceSSH m payload in
  round lo s =
    (r ← auth_method source_address Extension (fun _ => None) sessionID remote cfg (AuthCallbacks cfg) false (l_cache lo) req;
     let next := MkLoop (fst r) 0 (attempts + 1) (if m =s go "none" then l_noneAuthCount lo + 1 else l_noneAuthCount lo)
                   (l_authErrs lo) (l_calledBanner lo) false (AuthCallbacks cfg) user in
     match snd r with
     | Continue => mret (inl next)
     | Verdict perms authErr => conclude source_address (fun _ => None) remote cfg next m perms authErr
     end) (MkSession (ss_world s) rest (ss_out s) (ss_trace s)).
Proof.
  intros Hb Hrd Ha Hr Hu Hm Hl req. pose proof (read_own _ _ _ _ _ _ Hrd Hr Hu Hm Hl) as Hread. destruct Hrd as [Hf Hat Hp Hc].
  unfold auth_round. rewrite Hf, Hat, Hp, Hc. destruct (Z.leb_spec (MaxAuthTries cfg) 0), (Z.ltb_spec 0 (MaxAuthTries cfg)); try lia; cbn [andb];
    unfold maxAuthServerAttempts; (destruct (Z.leb_spec 128 attempts); [lia|]);
    unfold mbind at 1, M_bind at 1; rewrite Hread; cbn [userAuthRequest_User userAuthRequest_Method];
    unfold send_banner; rewrite Hb; done.
Qed.

Lemma conclude_log (next : loop (W := W') (Perm := Perm)) m perms authErr s :
  exists w1, conclude source_address (fun _ => None) remote cfg next m perms authErr s =
    (let authErr := enforce_source source_address remote perms authErr in
     banner_of (fun _ => None) authErr;;
     match authErr with
     | None => mret (inr perms)
     | Some e => l ← after_failure (fun _ => None) cfg (add_err next e) m perms e; mret (inl l)
     end) (MkSession w1 (ss_in s) (ss_out s) (ss_trace s ++ [(m, l_user next, kind_of (enforce_source source_address remote perms authErr))])).
Proof.
  unfold conclude, mbind, M_bind, record. cbv zeta. destruct (AuthLogCallback cfg) as [cb|]; unfold call; cbn [ss_world ss_in ss_out ss_trace]; by eexists.
Qed.

Definition offer : gostring := MarshalMsg (Mk_userAuthFailureMsg (failure_methods (AuthCallbacks cfg)) false).
Lemma methods_nonempty perms l t m : login_setting perms l t m -> (len (failure_methods (AuthCallbacks cfg)) =? 0) = false.
Proof.
  intros Hls. unfold failure_methods. rewrite (ls_callback _ _ _ _ Hls).
  destruct (cb_Password _), (cb_Keyboard _), (cb_GSSAPI _); reflexivity.
Qed.

(** The first request is refused, with the list of methods. *)
Lemma server_none perms l t m s rest :
  login_setting perms l t m ->
  reads s (MarshalMsg (Mk_userAuthRequestMsg user serviceSSH (go "none") [])) rest ->
  exists lo s', round (first_loop cfg) s = (inl (inl lo), s') /\ ready lo 1 /\ l_cache lo = [] /\
    ss_in s' = rest /\ ss_out s' = ss_out s ++ [offer].
Proof.
  intros Hls Hr. destruct (ls_lengths _ _ _ _ Hls) as (Hu & _). rewrite (round_open (first_loop cfg) 0 s (go "none") [] rest); [|apply Hls|done|lia|done|done|done|done].
  unfold auth_method. cbn [userAuthRequest_Method]. rewrite gos_eqb_refl. unfold auth_none. rewrite (ls_none _ _ _ _ Hls). cbn [andb].
  match goal with |- context [mbind ?k ?mm ?s] => change (mbind k mm s) with (k ([] : list (cachedPubKey (W := W') (Perm := Perm)), Verdict (W := W') (Perm := Perm) None (Some (EPlain ErrNoAuth))) s) end.
  cbv beta zeta. cbn [fst snd]. match goal with |- context [conclude _ _ _ _ ?n ?mm ?p ?e ?s] => destruct (conclude_log n mm p e s) as (w1 & ->) end.
  cbn [enforce_source banner_of]. unfold mbind at 1, M_bind at 1. cbn [mret M_ret]. unfold after_failure, send_failure.
  cbn [add_err l_authFailures l_config l_noneAuthCount first_loop]. rewrite gos_eqb_refl. cbn [negb orb]. change (0 <? 0) with false. change (0 + 1 =? 1) with true.
  cbn [negb orb]. rewrite (methods_nonempty _ _ _ _ Hls).
  destruct (Z.ltb_spec 0 (MaxAuthTries cfg)), (Z.leb_spec (MaxAuthTries cfg) 0); try lia; cbn [andb];
    (eexists _, _; split; [reflexivity|]; split; [done|]; split; [done|]; done).
Qed.

(** An algorithm both sides know. *)
Record agreed (t algo : gostring) : Prop := {
  ag_server : underlyingAlgo algo ∈ PublicKeyAuthAlgorithms cfg;
  ag_format : algo ∈ algorithmsForKeyFormat t;
  ag_len : len algo < 2 ^ 29 }.
Lemma parse_key_data perms l t m : login_setting perms l t m -> SshAuth.ParsePublicKey m = Ok pub.
Proof.
  intros Hls. destruct (inv_good _ (ls_good _ _ _ _ Hls)) as (Hwf & _). destruct (key_reads_back _ Hwf) as (s & Hs & Hp).
  rewrite (ls_marshal _ _ _ _ Hls) in Hs. injection Hs as <-. destruct (ls_lengths _ _ _ _ Hls) as (_ & Hm & _).
  cbn [SshAuth.ParsePublicKey keys go_keylib]. rewrite Hp; [done|apply Hls|lia].
Qed.
(** The request of a known algorithm reaches the key. *)
Lemma publickey_request perms l t m algo hasSig sig cache s :
  login_setting perms l t m -> agreed t algo -> len sig < 2 ^ 29 ->
  auth_method source_address Extension (fun _ => None) sessionID remote cfg (AuthCallbacks cfg) false cache
    (Mk_userAuthRequestMsg user serviceSSH publickey (key_payload hasSig algo m sig)) s =
  (z ← lookup_key source_address remote cfg f cache user m pub;
   let '(cache, candidate) := z in
   if negb hasSig then auth_query (fun _ => None) cache candidate algo sig
   else auth_signature Extension sessionID cfg cache candidate pub
          (Mk_userAuthRequestMsg user serviceSSH publickey (key_payload hasSig algo m sig)) algo sig) s.
Proof.
  intros Hls [Hsrv Hfmt Hal] Hsl. destruct (ls_lengths _ _ _ _ Hls) as (_ & Hm & _). pose proof (len_nonneg algo). pose proof (len_nonneg m). pose proof (len_nonneg sig).
  unfold auth_method. cbn [userAuthRequest_Method userAuthRequest_User userAuthRequest_Payload].
  repeat match goal with |- context [publickey =s go ?x] => let b := eval vm_compute in (publickey =s go x) in change (publickey =s go x) with b end. cbv iota.
  unfold auth_publickey. rewrite (ls_callback _ _ _ _ Hls). cbn [userAuthRequest_Payload key_payload userAuthRequest_User].
  unfold of_option. rewrite parseString_append by (rewrite !len_app, len_appendInt; lia). cbn [mbind M_bind mret M_ret].
  unfold mbind at 1, M_bind at 1. unfold mret at 1, M_ret at 1. rewrite (proj2 (contains_spec _ _) Hsrv). cbn [negb].
  rewrite parseString_append by lia. unfold mbind at 1, M_bind at 1. unfold mret at 1, M_ret at 1.
  rewrite (parse_key_data _ _ _ _ Hls). by destruct hasSig.
Qed.

Definition ack (algo m : gostring) : gostring := MarshalMsg (Mk_userAuthPubKeyOkMsg algo m).
Lemma server_query perms l t m algo lo s rest :
  login_setting perms l t m -> agreed t algo -> ready lo 1 -> l_cache lo = [] ->
  reads s (publickey_packet user false algo m []) rest ->
  exists lo' s', round lo s = (inl (inl lo'), s') /\ ready lo' 2 /\ l_cache lo' = [cached perms m] /\
    ss_in s' = rest /\ ss_out s' = ss_out s ++ [ack algo m].
Proof.
  intros Hls Hag Hrd Hc Hr. destruct (ls_lengths _ _ _ _ Hls) as (Hu & Hm & _). rewrite publickey_packet_eq in Hr.
  rewrite (round_open lo 1 s publickey (key_payload false algo m []) rest);
    [|apply Hls|done|lia|done|done|done|rewrite payload_len, len_nil; pose proof (ag_len _ _ Hag); lia].
  unfold mbind at 1, M_bind at 1. rewrite (publickey_request perms l t m algo false [] (l_cache lo)) by done. rewrite Hc.
  unfold lookup_key. cbn [cache_get]. unfold call. destruct (ls_accepts _ _ _ _ Hls (ss_world s)) as (w1 & Hf).
  unfold mbind at 1 2, M_bind at 1 2. cbn [ss_world]. rewrite Hf. cbn [fst snd is_partial]. cbv beta iota. cbn [andb candidate_result].
  rewrite (ls_source _ _ _ _ Hls). cbn [mret M_ret negb]. unfold auth_query. cbn [ck_result len ck_pubKeyData].
  eexists _, _. split; [reflexivity|]. split; [done|]. done.
Qed.

Lemma parse_own_signature sig : len (MarshalMsg sig) < 2 ^ 28 -> sig_Rest sig = [] ->
  parseSignature (writeString (MarshalMsg sig)) = Some (sig, []).
Proof.
  intros Hl Hr. unfold parseSignature, writeString. pose proof (parseString_be (MarshalMsg sig) []) as Hp. rewrite app_nil_r in Hp.
  rewrite Hp by (rewrite len_nil; lia). rewrite parseSignatureBody_Marshal by (done || lia). done.
Qed.
Lemma server_signed perms l t m algo sig lo s rest :
  login_setting perms l t m -> agreed t algo -> ready lo 2 -> l_cache lo = [cached perms m] ->
  sig_Format sig = underlyingAlgo algo -> sig_Rest sig = [] -> len (MarshalMsg sig) < 2 ^ 28 ->
  key_Verify pub (signed_data config sessionID algo m) sig = None ->
  reads s (publickey_packet user true algo m (writeString (MarshalMsg sig))) rest ->
  exists s', round lo s = (inl (inr perms), s') /\ ss_out s' = ss_out s.
Proof.
  intros Hls Hag Hrd Hc Hfm Hrs Hsl Hv Hr. destruct (ls_lengths _ _ _ _ Hls) as (Hu & Hm & _). rewrite publickey_packet_eq in Hr.
  assert (Hwl : len (writeString (MarshalMsg sig)) = 4 + len (MarshalMsg sig)).
  { unfold writeString. rewrite len_app. unfold len at 1. rewrite be_bytes_length. lia. }
  rewrite (round_open lo 2 s publickey (key_payload true algo m (writeString (MarshalMsg sig))) rest);
    [|apply Hls|done|lia|done|done|done|rewrite payload_len, Hwl; pose proof (ag_len _ _ Hag); lia].
  unfold mbind at 1, M_bind at 1. rewrite (publickey_request perms l t m algo true _ (l_cache lo)) by (done || lia). rewrite Hc.
  unfold lookup_key. cbn [cache_get cached ck_user ck_pubKeyData]. rewrite !gos_eqb_refl. cbn [andb negb mbind M_bind].
  unfold mbind at 1, M_bind at 1. unfold mret at 1, M_ret at 1. unfold auth_signature. rewrite parse_own_signature by done.
  cbn [SshAuth.key_Type keys go_keylib]. rewrite (ls_type _ _ _ _ Hls). cbn [default]. change (id t) with t.
  rewrite (proj2 (contains_spec _ _) (ag_format _ _ Hag)), Hfm, (proj2 (contains_spec _ _) (ag_server _ _ Hag)). cbn [negb].
  assert (Hcomp : isAlgoCompatible algo (underlyingAlgo algo) = true).
  { unfold isAlgoCompatible. destruct (_ && _); [done|]. apply gos_eqb_refl. }
  rewrite Hcomp. cbn [negb]. cbn [cached ck_perms ck_pubKeyData ck_result].
  match goal with |- context [Verify ?b _ _ sig] => set (waived := b) end.
  assert (HV : Verify waived pub (buildDataSignedForAuth sessionID
     (Mk_userAuthRequestMsg user serviceSSH publickey (key_payload true algo m (writeString (MarshalMsg sig)))) algo m) sig = None).
  { cbn [Verify keys go_keylib]. destruct waived; [rewrite (good_no_touch _ (ls_good _ _ _ _ Hls))|]; exact Hv. }
  rewrite HV, (ls_verified _ _ _ _ Hls). unfold mret at 1, M_ret at 1. cbn [fst snd].
  match goal with |- context [conclude _ _ _ _ ?n ?mm ?p ?e ?s] => destruct (conclude_log n mm p e s) as (w1 & ->) end.
  cbn [enforce_source]. rewrite (ls_source _ _ _ _ Hls). cbn [banner_of]. unfold mbind, M_bind, mret, M_ret. cbn. by eexists.
Qed.

Definition none_request : gostring := MarshalMsg (Mk_userAuthRequestMsg user serviceSSH (go "none") []).
Definition replies (algo m : gostring) : list gostring := [offer; ack algo m; [vb msgUserAuthSuccess]].
Definition requests (algo m : gostring) (sig : Signature) : list gostring :=
  [none_request; publickey_packet user false algo m []; publickey_packet user true algo m (writeString (MarshalMsg sig))].

Lemma loop_step n lo s lo' s' :
  round lo s = (inl (inl lo'), s') ->
  SshAuth.auth_loop source_address Extension (fun _ => None) sessionID remote (S n) cfg lo s =
  SshAuth.auth_loop source_address Extension (fun _ => None) sessionID remote n cfg lo' s'.
Proof. intros E. cbn [SshAuth.auth_loop]. unfold mbind, M_bind. by rewrite E. Qed.
Lemma server_run perms l t m algo sig :
  login_setting perms l t m -> agreed t algo ->
  sig_Format sig = underlyingAlgo algo -> sig_Rest sig = [] -> len (MarshalMsg sig) < 2 ^ 28 ->
  key_Verify pub (signed_data config sessionID algo m) sig = None ->
  exists s', serve (MkSession w' (map RPacket (requests algo m sig)) [] []) = (inl (Some perms), s') /\ ss_out s' = replies algo m.
Proof.
  intros Hls Hag Hf Hr Hl Hv. rewrite serverAuthenticate_loop. unfold after_pre. rewrite (ls_pre _ _ _ _ Hls). cbn [map requests].
  match goal with |- context [mbind _ _ ?s] => set (s0 := s) end.
  destruct (server_none perms l t m s0 _ Hls eq_refl) as (lo1 & s1 & E1 & Hrd1 & Hc1 & Hi1 & Ho1).
  destruct (server_query perms l t m algo lo1 s1 _ Hls Hag Hrd1 Hc1 Hi1) as (lo2 & s2 & E2 & Hrd2 & Hc2 & Hi2 & Ho2).
  destruct (server_signed perms l t m algo sig lo2 s2 _ Hls Hag Hrd2 Hc2 Hf Hr Hl Hv Hi2) as (s3 & E3 & Ho3).
  unfold mbind at 1, M_bind at 1. change 129%nat with (S (S (S 126))). rewrite (loop_step _ _ _ _ _ E1), (loop_step _ _ _ _ _ E2).
  cbn [SshAuth.auth_loop]. unfold mbind, M_bind. rewrite E3. unfold SshAuth.writePacket, mret, M_ret. eexists. split; [reflexivity|].
  cbn [ss_out]. rewrite Ho3, Ho2, Ho1. done.
Qed.

(** ** The client *)
Abbreviation c_write := (ClientAuth.writePacket (W := W) (fun _ => None)).
Lemma bind_val {A B} (mm : CM W A) (k : A -> CM W B) s a s' : mm s = (Val a, s') -> (mm ≫= k) s = k a s'.
Proof. unfold mbind, CM_bind. by intros ->. Qed.
Lemma run_read x r i p log : readPacket (mkClient x r (Ok p :: i) log : client W) = (Val p, mkClient x r i (log ++ [Got p])).
Proof. done. Qed.

Lemma run_offer perms l t m x r i log : login_setting perms l t m ->
  handleAuthResponse config (mkClient x r (Ok offer :: i) log) =
  (Val (authFailure, Some (failure_methods (AuthCallbacks cfg))), mkClient x r i (log ++ [Got offer])).
Proof.
  intros Hls. unfold handleAuthResponse, per_packet. cbn [length cl_in auth_responses].
  rewrite (bind_val _ _ _ _ _ (run_read _ _ _ _ _)).
  assert (Hb : exists q, offer = vb 51 :: q) by (eexists; reflexivity). destruct Hb as (q & Hb).
  rewrite (bind_val (first_byte offer) _ _ 51 (mkClient x r i (log ++ [Got offer]))) by (by rewrite Hb).
  change (51 =? msgUserAuthBanner) with false. change (51 =? msgExtInfo) with false. change (51 =? msgUserAuthFailure) with true. cbv iota.
  assert (Hu : UnmarshalMsg userAuthFailureMsg offer = Ok (Mk_userAuthFailureMsg (failure_methods (AuthCallbacks cfg)) false)).
  { unfold offer, failure_methods. rewrite (ls_callback _ _ _ _ Hls).
    destruct (cb_Password _), (cb_Keyboard _), (cb_GSSAPI _); reflexivity. }
  unfold failure_of, of_parse. rewrite Hu. done.
Qed.
Lemma run_success x r i log :
  handleAuthResponse config (mkClient x r (Ok [vb msgUserAuthSuccess] :: i) log) =
  (Val (authSuccess, None), mkClient x r i (log ++ [Got [vb msgUserAuthSuccess]])).
Proof. reflexivity. Qed.

Definition accept_packet : gostring := MarshalMsg (Mk_serviceAcceptMsg serviceUserAuth).
Definition ext_packet : gostring := MarshalMsg (extInfo_of (PublicKeyAuthAlgorithms cfg)).
Lemma extInfo_payload algos : len (Join algos (go ",")) < 2 ^ 28 ->
  extInfo_Payload (extInfo_of algos) = writeString (go "server-sig-algs") ++ writeString (Join algos (go ",")) ++
    writeString (go "ping@openssh.com") ++ writeString (go "0").
Proof.
  intros Hl. pose proof (len_nonneg (Join algos (go ","))). unfold extInfo_of, writeString, appendInt, appendU32. cbn [extInfo_Payload].
  rewrite !Z.mod_small by (lia || (split; [apply len_nonneg|reflexivity])). by rewrite <- !app_assoc.
Qed.
Lemma parse_written (s rest : gostring) : len s + len rest < 2 ^ 32 -> parseString (writeString s ++ rest) = Some (s, rest).
Proof. intros Hl. unfold writeString. rewrite <- app_assoc. by apply parseString_be. Qed.
Lemma len_written s : len (writeString s) = 4 + len s.
Proof. unfold writeString. rewrite len_app. unfold len at 1. by rewrite be_bytes_length. Qed.
Lemma run_extensions algos (s : client W) : len (Join algos (go ",")) < 2 ^ 28 ->
  parse_extensions (S (length (extInfo_Payload (extInfo_of algos)))) 2 (extInfo_Payload (extInfo_of algos)) ∅ s = (Val (extensions_of algos), s).
Proof.
  intros Hl. pose proof (len_nonneg (Join algos (go ","))). rewrite extInfo_payload by done.
  set (fuel := length _). assert (Hfuel : exists n, fuel = S n) by (eexists; reflexivity). destruct Hfuel as (n & ->). cbn [parse_extensions].
  change (2 <=? 0) with false. cbv iota.
  rewrite parse_written by (rewrite !len_app, !len_written; change (len (go "server-sig-algs")) with 15; change (len (go "ping@openssh.com")) with 16; change (len (go "0")) with 1; lia).
  rewrite parse_written by (rewrite !len_app, !len_written; change (len (go "ping@openssh.com")) with 16; change (len (go "0")) with 1; lia).
  change (2 - 1 <=? 0) with false. cbv iota. rewrite parse_written by reflexivity.
  pose proof (parse_written (go "0") []) as H0'. rewrite app_nil_r in H0'. rewrite H0' by reflexivity. by destruct n.
Qed.
Lemma run_start perms l t m x r i : login_setting perms l t m ->
  start_auth (fun _ => None) (mkClient x r (Ok ext_packet :: Ok accept_packet :: i) [] : client W) =
  (Val (extensions_of (PublicKeyAuthAlgorithms cfg)), mkClient x r i [Sent service_request; Got ext_packet; Got accept_packet]).
Proof.
  intros Hls. destruct (ls_lengths _ _ _ _ Hls) as (_ & _ & Hl). pose proof (len_nonneg (Join (PublicKeyAuthAlgorithms cfg) (go ","))).
  unfold start_auth. rewrite (bind_val _ _ _ tt (mkClient x r (Ok ext_packet :: Ok accept_packet :: i) [Sent service_request])) by done.
  rewrite (bind_val _ _ _ _ _ (run_read _ _ _ _ _)). change (is_ext_info ext_packet) with true. cbv iota.
  assert (Hu : UnmarshalMsg extInfoMsg ext_packet = Ok (extInfo_of (PublicKeyAuthAlgorithms cfg))).
  { apply UnmarshalMsg_MarshalMsg; [split; [split; cbn; lia|done]|]. unfold MarshalMsg, Marshal. cbn [msg_struct extInfoMsg_message].
    cbn [to_fields extInfo_NumExtensions extInfo_of]. fold (extInfo_of (PublicKeyAuthAlgorithms cfg)).
    change (len (vb 7 :: be_bytes 4 (2 mod 2 ^ 32) ++ extInfo_Payload (extInfo_of (PublicKeyAuthAlgorithms cfg)) ++ []) < 2 ^ 32).
    rewrite app_nil_r, len_cons, len_app, extInfo_payload, !len_app, !len_written by done.
    change (len (go "server-sig-algs")) with 15; change (len (go "ping@openssh.com")) with 16; change (len (go "0")) with 1.
    unfold len at 1. rewrite be_bytes_length. lia. }
  match goal with |- mbind _ (mbind ?k ?mm) ?s = _ =>
    assert (E : mbind k mm s = (Val (extensions_of (PublicKeyAuthAlgorithms cfg), accept_packet),
      mkClient x r i [Sent service_request; Got ext_packet; Got accept_packet])) end.
  { unfold of_parse at 1. rewrite Hu. erewrite bind_val by done. erewrite bind_val by (apply run_extensions; done). done. }
  rewrite (bind_val _ _ _ _ _ E). done.
Qed.

Lemma run_ack perms l t m algo x r i log : login_setting perms l t m -> agreed t algo ->
  validateKey (fun _ => None) config pub algo (mkClient x r (Ok (ack algo m) :: i) log) =
  (Val true, mkClient x r i (log ++ [Sent (publickey_packet user false algo m []); Got (ack algo m)])).
Proof.
  intros Hls Hag. destruct (ls_lengths _ _ _ _ Hls) as (_ & Hm & _). pose proof (len_nonneg algo). pose proof (len_nonneg m).
  unfold validateKey. rewrite (ls_marshal _ _ _ _ Hls). erewrite bind_val by done. erewrite bind_val by done.
  unfold confirmKeyAck, per_packet. cbn [cl_in length key_ack]. erewrite bind_val by (apply run_read). cbn [cl_log].
  assert (Hb : exists q, ack algo m = vb 60 :: q) by (eexists; reflexivity). destruct Hb as (q & Hb).
  rewrite (bind_val (first_byte (ack algo m)) _ _ 60 (mkClient x r i ((log ++ [Sent (publickey_packet user false algo m [])]) ++ [Got (ack algo m)])))
    by (by rewrite Hb).
  change (60 =? msgUserAuthBanner) with false. change (60 =? msgUserAuthPubKeyOk) with true. cbv iota.
  assert (Hu : UnmarshalMsg userAuthPubKeyOkMsg (ack algo m) = Ok (Mk_userAuthPubKeyOkMsg algo m)).
  { apply UnmarshalMsg_MarshalMsg; [done|].
    change (len (vb 60 :: (appendInt [] (len algo) ++ algo) ++ (appendInt [] (len m) ++ m) ++ []) < 2 ^ 32).
    rewrite len_cons, !len_app, !len_appendInt, len_nil. pose proof (ag_len _ _ Hag). lia. }
  unfold of_parse. rewrite Hu, (ls_type _ _ _ _ Hls), (ls_marshal _ _ _ _ Hls). do 3 (erewrite bind_val by done).
  cbn [userAuthPubKeyOk_Algo userAuthPubKeyOk_PubKey]. rewrite (proj2 (contains_spec _ _) (ag_format _ _ Hag)), gos_eqb_refl.
  by rewrite <- app_assoc.
Qed.
Lemma run_signed perms l t m algo sig r' x r i log : login_setting perms l t m ->
  signWithAlgorithm g r (signed_data config sessionID algo m) (underlyingAlgo algo) = Some (Ok sig, r') ->
  send_signed (fun _ => None) config sessionID g pub algo (mkClient x r (Ok [vb msgUserAuthSuccess] :: i) log) =
  (Val (authSuccess, None), mkClient x r' i (log ++ [Sent (publickey_packet user true algo m (writeString (MarshalMsg sig)))] ++ [Got [vb msgUserAuthSuccess]])).
Proof.
  intros Hls Hsig. unfold send_signed. rewrite (ls_marshal _ _ _ _ Hls). erewrite bind_val by done.
  rewrite (bind_val _ _ _ sig (mkClient x r' (Ok [vb msgUserAuthSuccess] :: i) log)) by (unfold sign_with; cbn [cl_rand]; by rewrite Hsig).
  erewrite bind_val by done. cbn [cl_world cl_rand cl_in cl_log]. rewrite run_success. by rewrite <- app_assoc.
Qed.
Lemma run_publickey perms l t m algo sig r' x r i log : login_setting perms l t m -> agreed t algo ->
  pickSignatureAlgorithm g (extensions_of (PublicKeyAuthAlgorithms cfg)) = Some (g, (algo, None)) ->
  signWithAlgorithm g r (signed_data config sessionID algo m) (underlyingAlgo algo) = Some (Ok sig, r') ->
  exists log', auth (fun _ => None) retries config sessionID (extensions_of (PublicKeyAuthAlgorithms cfg)) (PublicKeys [g])
      (mkClient x r (Ok (ack algo m) :: Ok [vb msgUserAuthSuccess] :: i) log) =
    (Val (authSuccess, None, None), mkClient x r' i log') /\
    sent log' = sent log ++ [publickey_packet user false algo m []; publickey_packet user true algo m (writeString (MarshalMsg sig))].
Proof.
  intros Hls Hag Hpick Hsig. eexists. split.
  - cbn [auth PublicKeys]. unfold returned, publickey_auth. erewrite bind_val by done. cbn [length try_signers Nat.mul Nat.add].
    rewrite Hpick. erewrite bind_val by done. cbv beta iota. erewrite bind_val by (by eapply run_ack). cbn [negb].
    erewrite bind_val by (by eapply run_signed). done.
  - rewrite !sent_app, <- !app_assoc. done.
Qed.

Abbreviation client_auth := (auth (fun _ => None) retries config sessionID).
Abbreviation client_loop := (ClientAuth.auth_loop (fun _ => None) retries config sessionID).
Lemma loop_failed n extensions ms a (s s' : client W) :
  client_auth extensions noneAuth s = (Val (authFailure, Some ms, None), s') -> next_method config (Some ms) [go "none"] = Some a ->
  client_loop (S n) extensions noneAuth [] [] None s = client_loop n extensions a [go "none"] [] (Some ms) s'.
Proof.
  intros E Hn. cbn [ClientAuth.auth_loop]. rewrite (bind_val _ _ _ _ _ E). cbv beta iota. cbn [is_disconnect is_failure app method].
  change (maxAuthClientTried <? len [] + len [go "none"]) with false. cbv iota zeta. erewrite bind_val by done. cbv beta iota. by rewrite Hn.
Qed.
Lemma loop_done n extensions a tried part last (s s' : client W) :
  client_auth extensions a s = (Val (authSuccess, None, None), s') -> client_loop (S n) extensions a tried part last s = (Val None, s').
Proof. intros E. cbn [ClientAuth.auth_loop]. by rewrite (bind_val _ _ _ _ _ E). Qed.

Lemma algo_length perms l t m algo : login_setting perms l t m -> algo ∈ algorithmsForKeyFormat t -> len algo < 2 ^ 29.
Proof.
  intros Hls Hin. destruct (inv_good _ (ls_good _ _ _ _ Hls)) as (Hwf & _). destruct (ls_lengths _ _ _ _ Hls) as (_ & Hm & _).
  destruct (marshal_type _ _ Hwf (ls_marshal _ _ _ _ Hls)) as (t' & rest & Ht & Hp); [lia|]. rewrite (ls_type _ _ _ _ Hls) in Ht. injection Ht as <-.
  apply parseString_inv in Hp as [Hp _]. assert (Hlt : len t < 2 ^ 28).
  { rewrite Hp in Hm. rewrite !len_app, len_appendInt in Hm. pose proof (len_nonneg rest). lia. }
  unfold algorithmsForKeyFormat in Hin. destruct (t =s KeyAlgoRSA); [|destruct (t =s CertAlgoRSAv01)];
    repeat (apply elem_of_cons in Hin as [->|Hin]; [first [reflexivity|lia]|]); by apply not_elem_of_nil in Hin.
Qed.

(** C29. A client that is configured with the key of a good signer, against a server of this
    library that accepts the key for the user, without demanding more (it wants
    authentication, so [NoClientAuth] is not set, it has no pre-authentication, banner or
    verified-key callback, and no address restriction excludes the client): what the two
    write is what the other reads, and both sides succeed, the client with exactly three
    requests (for no method, for the key, and signed), the server with the permissions of
    its callback.  Signer and server only need an algorithm in common for the format of the key; the
    server announces its algorithms as it does after the key exchange. *)
Theorem publickey_login perms l t m :
  login_setting perms l t m ->
  exists algo sig replies s' c',
    serve (MkSession w' (map RPacket (requests algo m sig)) [] []) = (inl (Some perms), s') /\ ss_out s' = replies /\
    log_in (mkClient w rand (map Ok (ext_packet :: accept_packet :: replies)) []) = (Val None, c') /\
    sent (cl_log c') = service_request :: requests algo m sig /\ length (requests algo m sig) = 3%nat.
Proof.
  intros Hls. destruct (ls_common _ _ _ _ Hls) as (a & algo0 & Ha & Has & Hfmt & Hu). destruct (ls_server _ _ _ _ Hls) as [Hne Hplain].
  destruct (pick_agreed g l t _ a algo0 (ls_algos _ _ _ _ Hls) (ls_type _ _ _ _ Hls) Hne Hplain Ha Has Hfmt Hu) as (algo & Hpick & Hsrv & Hsup & Hf).
  assert (Hag : agreed t algo) by (split; [done|done|by eapply algo_length]).
  destruct (ls_signs _ _ _ _ Hls rand (signed_data config sessionID algo m) (underlyingAlgo algo) Hsup) as (sig & r' & Hsig & Hlen).
  destruct (inv_good _ (ls_good _ _ _ _ Hls)) as (Hwf & _ & ty & Hty & Hsw & _). destruct (Hsw rand (signed_data config sessionID algo m) (underlyingAlgo algo)) as (rr & rr' & Hr & Hok).
  rewrite Hsig in Hr. injection Hr as <- <-. destruct (Hok _ eq_refl) as (Hfm & Hrest & Hv).
  assert (Hune : underlyingAlgo algo <> []) by (eapply underlying_ne; [exact Hf|by eapply key_type_ne, Hls]).
  rewrite (proj2 (gos_eqb_neq _ _) Hune) in Hfm. rewrite <- key_Verify_plain in Hv.
  destruct (server_run perms l t m algo sig Hls Hag Hfm Hrest Hlen Hv) as (s' & Hs & Ho).
  destruct (run_publickey perms l t m algo sig r' w rand [] ([Sent service_request; Got ext_packet; Got accept_packet] ++ [Sent none_request; Got offer]) Hls Hag Hpick Hsig)
    as (log' & Hrun & Hsent).
  exists algo, sig, (replies algo m), s', (mkClient w r' [] log'). split; [exact Hs|]. split; [done|]. split; [|split; [exact Hsent|reflexivity]].
  unfold clientAuthenticate, replies. cbn [map]. erewrite bind_val by (by eapply run_start). change (S (Z.to_nat maxAuthClientTried)) with (S (S 63)).
  assert (Hnone : auth (fun _ => None) retries config sessionID (extensions_of (PublicKeyAuthAlgorithms cfg)) noneAuth
      (mkClient w rand [Ok offer; Ok (ack algo m); Ok [vb msgUserAuthSuccess]] [Sent service_request; Got ext_packet; Got accept_packet]) =
    (Val (authFailure, Some (failure_methods (AuthCallbacks cfg)), None),
     mkClient w rand [Ok (ack algo m); Ok [vb msgUserAuthSuccess]] ([Sent service_request; Got ext_packet; Got accept_packet] ++ [Sent none_request; Got offer]))).
  { cbn [auth]. unfold returned, none_auth, last_response. erewrite bind_val by done. cbn [cl_world cl_rand cl_in cl_log app].
    erewrite bind_val by (by eapply run_offer). done. }
  assert (Hnext : next_method config (Some (failure_methods (AuthCallbacks cfg))) [go "none"] = Some (PublicKeys [g])).
  { unfold next_method, failure_methods. rewrite (ls_callback _ _ _ _ Hls). cbn [cc_Auth List.find method PublicKeys].
    destruct (cb_Password _), (cb_Keyboard _), (cb_GSSAPI _); reflexivity. }
  by rewrite (loop_failed _ _ _ _ _ _ Hnone Hnext), (loop_done _ _ _ _ _ _ _ _ Hrun).
Qed.
End Login.

(** ** An instance *)
Definition sample_keylib : KeyLib := @go_keylib sample_crypto sample_siglib ascii_tables sample_kexlib.
Definition sample_accept (w : unit) (u : gostring) (k : PublicKey) : unit * (option unit * option (auth_error unit unit PublicKey)) :=
  (w, (Some tt, None)).
Definition sample_server : @ServerConfig sample_keylib unit unit :=
  @MkServerConfig sample_keylib unit unit false None 1 defaultPubKeyAuthAlgos (MkCallbacks None (Some sample_accept) None None) None None None None.
Lemma sample_setting :
  @login_setting sample_crypto sample_kexlib ascii_tables sample_asn1 sample_siglib toy_net unit unit (fun _ => None) NoAddr sample_server sample_accept
    (go "git") sample_go_signer (Some tt) [KeyAlgoED25519] KeyAlgoED25519 (default [] (key_Marshal (ed25519PublicKey sample_edkey))).
Proof.
  split; try done.
  - intros w. by exists w.
  - apply sample_good.
  - split; [done|]. repeat (constructor; [split; [by apply (bool_decide_unpack _)|done]|]). constructor.
  - exists KeyAlgoED25519, KeyAlgoED25519. split; [by apply list_elem_of_singleton|]. split; [apply contains_spec; reflexivity|].
    split; [apply contains_spec; reflexivity|done].
  - intros rand data a Ha. apply list_elem_of_singleton in Ha as ->. do 2 eexists. split; [reflexivity|].
    change (len ((appendInt [] (len KeyAlgoED25519) ++ KeyAlgoED25519) ++ (appendInt [] (len (take 4 data)) ++ take 4 data) ++ [] ++ []) < 2 ^ 28).
    rewrite !len_app, !len_appendInt. change (len KeyAlgoED25519) with 11. cbn [app]. unfold len. rewrite length_take. cbn [length]. lia.
Qed.
Lemma publickey_login_witness :
  exists requests replies s' (c' : client unit), length requests = 3%nat /\
    @serverAuthenticate ascii_tables toy_net sample_keylib unit unit (fun _ => None) (fun _ _ => false) (fun _ => None) (go "id") NoAddr sample_server
      (MkSession tt (map RPacket requests) [] []) = (inl (Some (Some tt)), s') /\ ss_out s' = replies /\
    @clientAuthenticate sample_crypto sample_kexlib ascii_tables sample_asn1 unit (fun _ => None) 0
      (mkClientConfig (go "git") [PublicKeys [sample_go_signer]] None None) (go "id")
      (mkClient tt (mkSource [] ioEOF) (map Ok (ext_packet sample_server :: accept_packet :: replies)) []) = (Val None, c').
Proof.
  destruct (@publickey_login sample_crypto sample_kexlib ascii_tables sample_asn1 sample_siglib toy_net sample_kexlaws unit unit unit
    (fun _ => None) (fun _ _ => false) (go "id") NoAddr 0 sample_server sample_accept (go "git") sample_go_signer tt tt (mkSource [] ioEOF)
    (Some tt) [KeyAlgoED25519] KeyAlgoED25519 (default [] (key_Marshal (ed25519PublicKey sample_edkey))) sample_setting)
    as (algo & sig & replies & s' & c' & Hs & Ho & Hc & Hsent & Hn).
  eexists _, replies, s', c'. split; [exact Hn|]. split; [exact Hs|]. split; [exact Ho|exact Hc].
Defined.
