(* ===== verification/ClientSession.v ===== *)
(** * Sessions of an SSH client: [third/ssh/session.go] and the handlers of [client.go].

    A session sends channel requests, starts a command, copies its streams and waits for the
    exit status.  It is a step relation over the goroutine that calls its methods, the one
    that reads the requests of the server ([wait]), one per stream to copy, and the one that
    moves the reader of the user into the pipe from which standard input is copied; what the
    server answers, when it closes the channel and how a copy ends are choices of the
    environment.  The channel [errors] is a list, [exitStatus] an optional value.

    Proved: [wait] is characterised by the last exit status and signal; in every
    interleaving at most one command is started per session, [Wait] returns only after all
    copies it collects have ended (the goroutine behind the pipe may still run), with the error of the command or else the first copy error, and a
    command that is reported as successful was accepted by the server, which sent exit
    status 0. *)
From Stdlib Require Import Ascii String ZArith Lia.
From stdpp Require Import base gmap strings list.
From S2P Require Import Prelude GoStrings GoIO SshWire SshMessages SshAlgos.
Local Open Scope Z_scope.

(** ** Messages *)
Definition setenvRequest : structType := MkStruct (go "setenvRequest") [] [(go "Name", KString); (go "Value", KString)].
Definition ptyRequestMsg : structType :=
  MkStruct (go "ptyRequestMsg") []
    [(go "Term", KString); (go "Columns", KUint32); (go "Rows", KUint32); (go "Width", KUint32); (go "Height", KUint32); (go "Modelist", KString)].
Definition subsystemRequestMsg : structType := MkStruct (go "subsystemRequestMsg") [] [(go "Subsystem", KString)].
Definition ptyWindowChangeMsg : structType :=
  MkStruct (go "ptyWindowChangeMsg") [] [(go "Columns", KUint32); (go "Rows", KUint32); (go "Width", KUint32); (go "Height", KUint32)].
Definition signalMsg : structType := MkStruct (go "signalMsg") [] [(go "Signal", KString)].
Definition execMsg : structType := MkStruct (go "execMsg") [] [(go "Command", KString)].
Definition mode_struct : structType := MkStruct [] [] [(go "Key", KUint8); (go "Val", KUint32)].
Definition sigval : structType :=
  MkStruct [] [] [(go "Signal", KString); (go "CoreDumped", KBool); (go "Error", KString); (go "Lang", KString)].

Definition signals : list (gostring * Z) :=
  [(go "ABRT", 6); (go "ALRM", 14); (go "FPE", 8); (go "HUP", 1); (go "ILL", 4); (go "INT", 2); (go "KILL", 9); (go "PIPE", 13);
   (go "QUIT", 3); (go "SEGV", 11); (go "TERM", 15)].
Definition signal_number (s : gostring) : option Z := option_map snd (List.find (fun p => fst p =s s) signals).

(** [uint32] of an [int]. *)
Definition u32 (n : Z) : Z := n mod 2 ^ 32.
Definition tty_OP_END : Z := 0.
(** The modes in the order in which the map is ranged over. *)
Definition mode_list (modes : list (Z * Z)) : gostring :=
  concat (map (fun m => Marshal mode_struct (fst m, (snd m, tt))) modes) ++ [vb tty_OP_END].

(** ** Requests *)
Record Request := mkRequest { rq_Type : gostring; rq_WantReply : bool; rq_Payload : gostring }.
Definition env_request (name value : gostring) : Request := mkRequest (go "env") true (Marshal setenvRequest (name, (value, tt))).
Definition pty_request (term : gostring) (h w : Z) (modes : list (Z * Z)) : Request :=
  mkRequest (go "pty-req") true
    (Marshal ptyRequestMsg (term, (u32 w, (u32 h, (u32 (w * 8), (u32 (h * 8), (mode_list modes, tt))))))).
Definition subsystem_request (subsystem : gostring) : Request := mkRequest (go "subsystem") true (Marshal subsystemRequestMsg (subsystem, tt)).
Definition window_change (h w : Z) : Request :=
  mkRequest (go "window-change") false (Marshal ptyWindowChangeMsg (u32 w, (u32 h, (u32 (w * 8), (u32 (h * 8), tt))))).
Definition signal_request (sig : gostring) : Request := mkRequest (go "signal") false (Marshal signalMsg (sig, tt)).
Definition exec_request (cmd : gostring) : Request := mkRequest (go "exec") true (Marshal execMsg (cmd, tt)).
Definition shell_request : Request := mkRequest (go "shell") true [].

(** ** The exit status *)
Record Waitmsg := mkWait { wm_status : Z; wm_signal : gostring; wm_msg : gostring; wm_lang : gostring }.
Inductive runError := RunErr (e : error) | ExitMissingError | ExitError (w : Waitmsg).
Definition Waitmsg_String (w : Waitmsg) : gostring :=
  (go "Process exited with status " ++ Itoa (wm_status w)) ++
  (if wm_signal w =s [] then [] else go " from signal " ++ wm_signal w) ++
  (if wm_msg w =s [] then [] else go ". Reason was: " ++ wm_msg w).
Definition runError_Error (e : runError) : gostring :=
  match e with
  | RunErr e => err_msg e
  | ExitMissingError => go "wait: remote command exited without exit status or exit signal"
  | ExitError w => Waitmsg_String w
  end.

(** One request of the server: an error, or the next state and whether it is refused. *)
Definition wait_request (wm : Waitmsg) (r : Request) : result error (Waitmsg * bool) :=
  if rq_Type r =s go "exit-status" then
    if len (rq_Payload r) <? 4 then Err (errors_New (go "ssh: malformed exit-status request"))
    else Ok (mkWait (be_value (take 4 (rq_Payload r))) (wm_signal wm) (wm_msg wm) (wm_lang wm), false)
  else if rq_Type r =s go "exit-signal" then
    '(Signal, (_, (Message, (Lang, _)))) ← Unmarshal sigval (rq_Payload r);
    Ok (mkWait (wm_status wm) Signal Message Lang, false)
  else Ok (wm, rq_WantReply r).
Definition wait_start : Waitmsg := mkWait (-1) [] [] [].
(** When the requests have ended. *)
Definition wait_end (wm : Waitmsg) : option runError :=
  if wm_status wm =? 0 then None
  else if wm_status wm =? -1 then
    if wm_signal wm =s [] then Some ExitMissingError
    else Some (ExitError (mkWait (128 + default 0 (signal_number (wm_signal wm))) (wm_signal wm) (wm_msg wm) (wm_lang wm)))
  else Some (ExitError wm).
(** [wait] on all requests, with those it refuses. *)
Fixpoint wait_loop (wm : Waitmsg) (reqs : list Request) : option runError * list Request :=
  match reqs with
  | [] => (wait_end wm, [])
  | r :: reqs =>
      match wait_request wm r with
      | Err e => (Some (RunErr e), [])
      | Ok (wm, refuse) => let '(res, l) := wait_loop wm reqs in (res, if refuse then r :: l else l)
      end
  end.
Definition wait (reqs : list Request) : option runError * list Request := wait_loop wait_start reqs.

(** ** The session *)

(** A copy: from the reader of the user (or an empty one), to the writers. *)
Inductive copier := copyStdin (user : bool) | copyStdout (user : bool) | copyStderr (user : bool).
#[global] Instance copier_eq_dec : EqDecision copier. Proof. solve_decision. Defined.
(** The pipe before the copy of standard input: whether the goroutine that fills it from
    [Stdin] runs, and how the writing end was closed (the first close counts). *)
Record stdinPipe := mkPipe { pumping : bool; pipe_closed : option (option error) }.
Record Session := mkSession {
  Stdin : bool; Stdout : bool; Stderr : bool;   (** whether the field is set *)
  started : bool; copyFuncs : list copier;
  stdinpipe : bool; stdoutpipe : bool; stderrpipe : bool; stdinPipeWriter : option stdinPipe }.
Definition newSession : Session := mkSession false false false false [] false false false None.

(** A set [Stdin] is read by a goroutine of its own, through a pipe. *)
Definition setup_stdin (s : Session) : Session :=
  if stdinpipe s then s
  else mkSession (Stdin s) (Stdout s) (Stderr s) (started s) (copyFuncs s ++ [copyStdin (Stdin s)]) (stdinpipe s) (stdoutpipe s) (stderrpipe s)
         (if Stdin s then Some (mkPipe true None) else stdinPipeWriter s).
(** An unset writer becomes [io.Discard]. *)
Definition setup_stdout (s : Session) : Session :=
  if stdoutpipe s then s
  else mkSession (Stdin s) true (Stderr s) (started s) (copyFuncs s ++ [copyStdout (Stdout s)]) (stdinpipe s) (stdoutpipe s) (stderrpipe s) (stdinPipeWriter s).
Definition setup_stderr (s : Session) : Session :=
  if stderrpipe s then s
  else mkSession (Stdin s) (Stdout s) true (started s) (copyFuncs s ++ [copyStderr (Stderr s)]) (stdinpipe s) (stdoutpipe s) (stderrpipe s) (stdinPipeWriter s).
Definition set_started (s : Session) : Session :=
  mkSession (Stdin s) (Stdout s) (Stderr s) true (copyFuncs s) (stdinpipe s) (stdoutpipe s) (stderrpipe s) (stdinPipeWriter s).
Definition session_start (s : Session) : Session := setup_stderr (setup_stdout (setup_stdin (set_started s))).

Definition StdinPipe (s : Session) : option error * Session :=
  if Stdin s then (Some (errors_New (go "ssh: Stdin already set")), s)
  else if started s then (Some (errors_New (go "ssh: StdinPipe after process started")), s)
  else (None, mkSession (Stdin s) (Stdout s) (Stderr s) (started s) (copyFuncs s) true (stdoutpipe s) (stderrpipe s) (stdinPipeWriter s)).
Definition StdoutPipe (s : Session) : option error * Session :=
  if Stdout s then (Some (errors_New (go "ssh: Stdout already set")), s)
  else if started s then (Some (errors_New (go "ssh: StdoutPipe after process started")), s)
  else (None, mkSession (Stdin s) (Stdout s) (Stderr s) (started s) (copyFuncs s) (stdinpipe s) true (stderrpipe s) (stdinPipeWriter s)).
Definition StderrPipe (s : Session) : option error * Session :=
  if Stderr s then (Some (errors_New (go "ssh: Stderr already set")), s)
  else if started s then (Some (errors_New (go "ssh: StderrPipe after process started")), s)
  else (None, mkSession (Stdin s) (Stdout s) (Stderr s) (started s) (copyFuncs s) (stdinpipe s) (stdoutpipe s) true (stdinPipeWriter s)).

(** The error of a request that wants a reply. *)
Definition refused (reply : res bool) (msg : gostring) : option error :=
  match reply with Err e => Some e | Ok true => None | Ok false => Some (errors_New msg) end.
Definition no_reply (reply : res bool) : option error := match reply with Err e => Some e | Ok _ => None end.
Definition Setenv (reply : res bool) : option error := refused reply (go "ssh: setenv failed").
Definition RequestPty (reply : res bool) : option error := refused reply (go "ssh: pty-req failed").
Definition RequestSubsystem (reply : res bool) : option error := refused reply (go "ssh: subsystem request failed").

(** ** Interleavings *)
Inductive command := Exec (cmd : gostring) | Shell.
Definition command_request (c : command) : Request := match c with Exec cmd => exec_request cmd | Shell => shell_request end.
Definition command_failed (c : command) : gostring :=
  match c with Exec cmd => go "ssh: command " ++ cmd ++ go " failed" | Shell => go "ssh: could not start shell" end.
(** [Start] and [Shell]: the request goes out unless the session has started. *)
Definition Start (s : Session) (c : command) (reply : res bool) : option error * Session :=
  if started s then (Some (errors_New (go "ssh: session already started")), s)
  else match refused reply (command_failed c) with Some e => (Some e, s) | None => (None, session_start s) end.

(** Where the calling goroutine is: between calls, waiting for the exit status, or
    collecting the errors of so many copies. *)
Inductive caller := Idle | AwaitStatus | Collecting (waitErr : option runError) (left : nat) (copyError : option error).
(** Requests sent, commands accepted, requests of the server served (and whether refused),
    copies that have ended, the pipe to standard input closed, the end of the goroutine that
    fills it, results of [Wait]. *)
Inductive action :=
| Asked (r : Request)
| Accepted (c : command)
| Served (r : Request) (refuse : bool)
| CopyEnded (c : copier) (e : option error)
| PipeClosed
| PumpEnded (e : option error)
| Waited (r : option runError).
Record state := mkState {
  ses : Session; caller_at : caller; waiter : option Waitmsg; exitStatus : option (option runError);
  running : list copier; errs : list (option error) }.
Definition first_state : state := mkState newSession Idle (Some wait_start) None [] [].

Definition not_started : error := errors_New (go "ssh: session not started").
Definition wait_result (waitErr : option runError) (copyError : option error) : option runError :=
  match waitErr with Some e => Some e | None => option_map RunErr copyError end.
Definition is_command (r : Request) : bool := (rq_Type r =s go "exec") || (rq_Type r =s go "shell").
(** The fields the user may set. *)
Definition with_streams (s : Session) (i o e : bool) : Session :=
  mkSession i o e (started s) (copyFuncs s) (stdinpipe s) (stdoutpipe s) (stderrpipe s) (stdinPipeWriter s).

(** Closing the writing end of the pipe, and the end of the goroutine that fills it. *)
Definition close_pipe (p : stdinPipe) (e : option error) : stdinPipe :=
  mkPipe (pumping p) (match pipe_closed p with Some x => Some x | None => Some e end).
Definition pump_done (p : stdinPipe) (e : option error) : stdinPipe := mkPipe false (pipe_closed (close_pipe p e)).
Definition set_pipe (s : Session) (p : option stdinPipe) : Session :=
  mkSession (Stdin s) (Stdout s) (Stderr s) (started s) (copyFuncs s) (stdinpipe s) (stdoutpipe s) (stderrpipe s) p.
(** The copy of standard input ends without an error only at the end of the pipe. *)
Definition may_end (s : Session) (f : copier) (e : option error) : Prop :=
  match f, e with
  | copyStdin true, None => exists p, stdinPipeWriter s = Some p /\ pipe_closed p = Some None
  | _, _ => True
  end.

Inductive step : state -> list action -> state -> Prop :=
| set_streams s w x fs es i o e : step (mkState s Idle w x fs es) [] (mkState (with_streams s i o e) Idle w x fs es)
| call_pipe s s' w x fs es : s' = snd (StdinPipe s) \/ s' = snd (StdoutPipe s) \/ s' = snd (StderrPipe s) ->
    step (mkState s Idle w x fs es) [] (mkState s' Idle w x fs es)
| call_request s w x fs es r : is_command r = false -> step (mkState s Idle w x fs es) [Asked r] (mkState s Idle w x fs es)
| call_start s w x fs es c reply e s' : Start s c reply = (e, s') ->
    step (mkState s Idle w x fs es)
      (if started s then [] else Asked (command_request c) :: match e with None => [Accepted c] | Some _ => [] end)
      (mkState s' Idle w x (match e with None => copyFuncs s' | Some _ => fs end) es)
| wait_unstarted s w x fs es : started s = false ->
    step (mkState s Idle w x fs es) [Waited (Some (RunErr not_started))] (mkState s Idle w x fs es)
| wait_begins s w x fs es : started s = true -> step (mkState s Idle w x fs es) [] (mkState s AwaitStatus w x fs es)
| status_taken s w r fs es :
    step (mkState s AwaitStatus w (Some r) fs es) (match stdinPipeWriter s with Some _ => [PipeClosed] | None => [] end)
         (mkState (set_pipe s (option_map (fun p => close_pipe p None) (stdinPipeWriter s))) (Collecting r (length (copyFuncs s)) None) w None fs es)
| error_taken s w x fs e es r n ce :
    step (mkState s (Collecting r (S n) ce) w x fs (e :: es)) []
         (mkState s (Collecting r n (match ce with Some _ => ce | None => e end)) w x fs es)
| wait_ends s w x fs es r ce :
    step (mkState s (Collecting r 0 ce) w x fs es) [Waited (wait_result r ce)] (mkState s Idle w x fs es)
(** The goroutine behind the pipe ends, a copy ends, the server sends a request or closes the channel. *)
| pump_ends s c w x fs es p e : stdinPipeWriter s = Some p -> pumping p = true ->
    step (mkState s c w x fs es) [PumpEnded e] (mkState (set_pipe s (Some (pump_done p e))) c w x fs es)
| copy_ends s c w x l f l' es e : may_end s f e ->
    step (mkState s c w x (l ++ f :: l') es) [CopyEnded f e] (mkState s c w x (l ++ l') (es ++ [e]))
| request_served s c wm x fs es r wm' refuse : wait_request wm r = Ok (wm', refuse) ->
    step (mkState s c (Some wm) x fs es) [Served r refuse] (mkState s c (Some wm') x fs es)
| request_malformed s c wm x fs es r e : wait_request wm r = Err e ->
    step (mkState s c (Some wm) x fs es) [Served r false] (mkState s c None (Some (Some (RunErr e))) fs es)
| channel_closed s c wm x fs es : step (mkState s c (Some wm) x fs es) [] (mkState s c None (Some (wait_end wm)) fs es).

Inductive exec : list action -> state -> Prop :=
| exec_start : exec [] first_state
| exec_step tr s acts s' : exec tr s -> step s acts s' -> exec (tr ++ acts) s'.

(** ** The handlers of a client *)

(** [handleGlobalRequests] refuses every request. *)
Definition handleGlobalRequests (incoming : list Request) : list (Request * bool) := map (fun r => (r, false)) incoming.
(** [handleChannelOpens]: to the handler of the type, or rejected with a message. *)
Inductive routed := ToHandler (h : nat) | RejectedWith (message : gostring).
Definition route_channel (handlers : gmap gostring nat) (type : gostring) : routed :=
  match handlers !! type with Some h => ToHandler h | None => RejectedWith (go "unknown channel type: " ++ type) end.
Definition handleChannelOpens (handlers : gmap gostring nat) (types : list gostring) : list routed := map (route_channel handlers) types.

(** ** What [wait] returns *)
Definition well_formed (r : Request) : Prop :=
  (rq_Type r = go "exit-status" -> 4 <= len (rq_Payload r)) /\
  (rq_Type r = go "exit-signal" -> exists v, Unmarshal sigval (rq_Payload r) = Ok v).
Definition status_of (r : Request) : option Z :=
  if rq_Type r =s go "exit-status" then Some (be_value (take 4 (rq_Payload r))) else None.
Fixpoint wait_fold (wm : Waitmsg) (reqs : list Request) : result error Waitmsg :=
  match reqs with
  | [] => Ok wm
  | r :: reqs => match wait_request wm r with Err e => Err e | Ok (wm, _) => wait_fold wm reqs end
  end.
Lemma wait_loop_fold wm reqs :
  fst (wait_loop wm reqs) = match wait_fold wm reqs with Err e => Some (RunErr e) | Ok wm => wait_end wm end.
Proof.
  revert wm. induction reqs as [|r reqs IH]; intros wm; [done|]. cbn [wait_loop wait_fold]. destruct (wait_request wm r) as [[wm' refuse]|e]; [|done].
  specialize (IH wm'). by destruct (wait_loop wm' reqs).
Qed.
Lemma wait_fold_snoc wm reqs r :
  wait_fold wm (reqs ++ [r]) =
  match wait_fold wm reqs with Err e => Err e | Ok wm => match wait_request wm r with Err e => Err e | Ok (wm, _) => Ok wm end end.
Proof.
  revert wm. induction reqs as [|x reqs IH]; intros wm; cbn [app wait_fold]; [|by destruct (wait_request wm x) as [[? ?]|]].
  by destruct (wait_request wm r) as [[? ?]|].
Qed.
Lemma request_wf wm r x : wait_request wm r = Ok x -> well_formed r.
Proof.
  unfold well_formed, wait_request. destruct (rq_Type r =s go "exit-status") eqn:E1; bool_simp.
  - destruct (Z.ltb_spec (len (rq_Payload r)) 4); [done|]. intros _. split; [done|]. rewrite E1. intros E. vm_compute in E. discriminate E.
  - destruct (rq_Type r =s go "exit-signal") eqn:E2; bool_simp; [|intros _; by split].
    destruct (Unmarshal sigval (rq_Payload r)) as [v|] eqn:Eu; [|done]. intros _. split; [done|]. intros _. by eexists.
Qed.
Lemma request_next wm r : well_formed r -> exists wm' b, wait_request wm r = Ok (wm', b) /\ wm_status wm' = default (wm_status wm) (status_of r).
Proof.
  unfold well_formed, wait_request, status_of. destruct (rq_Type r =s go "exit-status") eqn:E1; bool_simp; intros [Hl Hs].
  - destruct (Z.ltb_spec (len (rq_Payload r)) 4); [specialize (Hl E1); lia|]. by eexists _, _.
  - destruct (rq_Type r =s go "exit-signal") eqn:E2; bool_simp; [|by eexists _, _]. destruct (Hs E2) as ((a & b & c & d & u) & ->). by eexists _, _.
Qed.
Lemma fold_wf wm reqs wm' : wait_fold wm reqs = Ok wm' -> Forall well_formed reqs.
Proof.
  revert wm. induction reqs as [|r reqs IH]; intros wm; [done|]. cbn [wait_fold]. destruct (wait_request wm r) as [[wm1 b]|] eqn:E; [|done].
  intros Hf. constructor; [by eapply request_wf|by eapply IH].
Qed.
Lemma fold_status wm reqs : Forall well_formed reqs ->
  exists wm', wait_fold wm reqs = Ok wm' /\ wm_status wm' = default (wm_status wm) (last (omap status_of reqs)).
Proof.
  induction reqs as [|r reqs IH] using rev_ind; [by exists wm|]. intros [Hrs Hr]%Forall_app. apply Forall_cons in Hr as [Hr _].
  destruct (IH Hrs) as (wm1 & Hf & Hs). destruct (request_next wm1 r Hr) as (wm' & b & E & Hs'). exists wm'. rewrite wait_fold_snoc, Hf, E.
  split; [done|]. rewrite Hs', omap_app. cbn. destruct (status_of r) as [z|]; [by rewrite last_snoc|]. by rewrite app_nil_r, Hs.
Qed.

(** The command succeeded: every request is well-formed and the last exit status is 0. *)
Lemma wait_success reqs : fst (wait reqs) = None <-> Forall well_formed reqs /\ last (omap status_of reqs) = Some 0.
Proof.
  unfold wait. rewrite wait_loop_fold. split.
  - destruct (wait_fold wait_start reqs) as [wm|e] eqn:E; [|done]. intros Hend. pose proof (fold_wf _ _ _ E) as Hwf. split; [done|].
    destruct (fold_status wait_start reqs Hwf) as (wm' & E' & Hs). rewrite E in E'. injection E' as <-. unfold wait_end in Hend.
    destruct (Z.eqb_spec (wm_status wm) 0) as [Hz|]; [|destruct (_ =? -1); [by destruct (_ =s _)|done]].
    destruct (last (omap status_of reqs)) as [z|]; cbn in Hs; [by rewrite <- Hs, Hz|]. rewrite Hz in Hs. done.
  - intros [Hwf Hl]. destruct (fold_status wait_start reqs Hwf) as (wm & -> & Hs). rewrite Hl in Hs. cbn in Hs. unfold wait_end. by rewrite Hs.
Qed.

(** ** The invariant *)
Definition served (tr : list action) : list Request := omap (fun a => match a with Served r _ => Some r | _ => None end) tr.
Definition copies (tr : list action) : list (option error) := omap (fun a => match a with CopyEnded _ e => Some e | _ => None end) tr.
Definition accepted (tr : list action) : list command := omap (fun a => match a with Accepted c => Some c | _ => None end) tr.
Fixpoint first_error (l : list (option error)) : option error :=
  match l with [] => None | Some e :: _ => Some e | None :: l => first_error l end.
(** No command goes out. *)
Definition quiet (tr : list action) : Prop := Forall (fun a => match a with Asked r => is_command r = false | Accepted _ => False | _ => True end) tr.
(** The commands of a session: refused ones, then at most one that is accepted. *)
Definition one_command (tr : list action) (b : bool) : Prop :=
  if b then exists pre c post, tr = pre ++ (Accepted c :: post) /\ accepted pre = [] /\ quiet post else accepted tr = [].

Record inv (tr : list action) (s : state) : Prop := {
  inv_commands : one_command tr (started (ses s));
  inv_waiter : match waiter s with
               | Some wm => wait_fold wait_start (served tr) = Ok wm /\ exitStatus s = None
               | None => forall r, exitStatus s = Some r -> r = fst (wait (served tr))
               end;
  inv_copies : (length (copies tr) + length (running s) = length (copyFuncs (ses s)))%nat /\ (length (copyFuncs (ses s)) <= 3)%nat;
  inv_idle : started (ses s) = false -> copyFuncs (ses s) = [] /\ caller_at s = Idle;
  inv_caller : exists k, errs s = drop k (copies tr) /\ (k <= length (copies tr))%nat /\
    match caller_at s with
    | Collecting r n ce => (k + n)%nat = length (copyFuncs (ses s)) /\ ce = first_error (take k (copies tr)) /\
        waiter s = None /\ exitStatus s = None /\ r = fst (wait (served tr))
    | _ => k = O \/ (waiter s = None /\ exitStatus s = None /\ k = length (copyFuncs (ses s)))
    end }.

Lemma served_app a b : served (a ++ b) = served a ++ served b. Proof. apply omap_app. Qed.
Lemma copies_app a b : copies (a ++ b) = copies a ++ copies b. Proof. apply omap_app. Qed.
Lemma accepted_app a b : accepted (a ++ b) = accepted a ++ accepted b. Proof. apply omap_app. Qed.
Lemma first_error_snoc l e : first_error (l ++ [e]) = match first_error l with Some x => Some x | None => e end.
Proof. induction l as [|[x|] l IH]; [by destruct e|done|exact IH]. Qed.
Lemma one_command_quiet tr acts b : quiet acts -> one_command tr b -> one_command (tr ++ acts) b.
Proof.
  intros Hq. destruct b; cbn.
  - intros (pre & c & post & -> & Hp & Hpost). exists pre, c, (post ++ acts). rewrite <- app_assoc. split; [done|]. split; [done|]. by apply Forall_app.
  - intros Ha. rewrite accepted_app, Ha. cbn [app]. induction Hq as [|a acts Ha' Hq IH]; [done|]. by destruct a.
Qed.
(** Steps that neither serve a request nor end a copy. *)
Lemma inv_frame tr acts s s' :
  inv tr s -> served acts = [] -> copies acts = [] -> one_command (tr ++ acts) (started (ses s')) ->
  length (copyFuncs (ses s')) = length (copyFuncs (ses s)) -> (started (ses s') = false -> copyFuncs (ses s') = [] /\ caller_at s' = Idle) ->
  waiter s' = waiter s -> exitStatus s' = exitStatus s -> running s' = running s -> errs s' = errs s ->
  match caller_at s' with Collecting _ _ _ => False | _ => match caller_at s with Collecting _ _ _ => False | _ => True end end ->
  inv (tr ++ acts) s'.
Proof.
  intros [Hc Hw Hcp Hid (k & Hk & Hkl & Hca)] Hs Hcs Hone Hcf Hid' Ew Ex Er Ee Hcall.
  split; rewrite ?served_app, ?copies_app, ?Hs, ?Hcs, ?app_nil_r, ?Ew, ?Ex, ?Er, ?Ee, ?Hcf; try done.
  exists k. split; [done|]. split; [done|]. destruct (caller_at s'); [| |done]; by destruct (caller_at s).
Qed.

Lemma start_fields s : copyFuncs s = [] ->
  started (session_start s) = true /\ (length (copyFuncs (session_start s)) <= 3)%nat.
Proof.
  intros Hc. unfold session_start, setup_stderr, setup_stdout, setup_stdin, set_started. cbn. rewrite Hc.
  destruct (stdinpipe s); cbn; destruct (stdoutpipe s); cbn; destruct (stderrpipe s); cbn; split; (done || lia).
Qed.
Lemma pipe_fields s s' : s' = snd (StdinPipe s) \/ s' = snd (StdoutPipe s) \/ s' = snd (StderrPipe s) ->
  started s' = started s /\ copyFuncs s' = copyFuncs s.
Proof.
  unfold StdinPipe, StdoutPipe, StderrPipe. intros [->|[->| ->]]; repeat case_match; done.
Qed.

Lemma session_first : inv [] first_state.
Proof. split; cbn; try done; [lia|]. exists O. split; [done|]. split; [done|]. by left. Qed.
Lemma is_command_of c : is_command (command_request c) = true.
Proof. by destruct c. Qed.
Lemma session_started tr s w x fs es c reply e s' :
  inv tr (mkState s Idle w x fs es) -> Start s c reply = (e, s') ->
  inv (tr ++ (if started s then [] else Asked (command_request c) :: match e with None => [Accepted c] | Some _ => [] end))
    (mkState s' Idle w x (match e with None => copyFuncs s' | Some _ => fs end) es).
Proof.
  intros Hi Hst. unfold Start in Hst. destruct (started s) eqn:Es.
  { injection Hst as <- <-. by rewrite app_nil_r. }
  destruct (refused reply (command_failed c)) as [e'|]; injection Hst as <- <-.
  - eapply inv_frame; [exact Hi|done|done| |done|by apply Hi|done..]. cbn [ses]. rewrite Es. pose proof (inv_commands _ _ Hi) as Hc. cbn [ses] in Hc.
    rewrite Es in Hc. cbn in Hc |- *. by rewrite accepted_app, Hc.
  - destruct Hi as [Hc Hw [Hcp Hle] Hid (k & Hk & Hkl & Hca)]. cbn [ses waiter exitStatus running errs caller_at] in *. destruct (Hid Es) as [Hcf _].
    destruct (start_fields s Hcf) as [Hst Hlen]. rewrite Hcf in Hcp. cbn in Hcp.
    assert (copies tr = [] /\ fs = []) as [Hcs ->] by (split; apply nil_length_inv; lia).
    split; cbn [ses waiter exitStatus running errs caller_at]; rewrite ?served_app, ?copies_app, ?app_nil_r, ?Hcs; try done.
    + rewrite Hst, Es in *. exists (tr ++ [Asked (command_request c)]), c, []. rewrite <- app_assoc. split; [done|]. split; [|by constructor].
      rewrite accepted_app. cbn in Hc. by rewrite Hc.
    + by rewrite Hst.
    + exists O. rewrite Hcs in Hk, Hkl. split; [by rewrite drop_nil in Hk|]. split; [done|]. by left.
Qed.
Ltac open_inv Hi :=
  destruct Hi as [Hc Hw [Hcp Hle] Hid (k & Hk & Hkl & Hca)]; cbn [ses waiter exitStatus running errs caller_at] in *;
  split; cbn [ses waiter exitStatus running errs caller_at]; rewrite ?served_app, ?copies_app; cbn [served copies omap list_omap]; rewrite ?app_nil_r; try done.
Lemma inv_status tr s w r fs es :
  inv tr (mkState s AwaitStatus w (Some r) fs es) ->
  inv (tr ++ (match stdinPipeWriter s with Some _ => [PipeClosed] | None => [] end))
    (mkState (set_pipe s (option_map (fun p => close_pipe p None) (stdinPipeWriter s))) (Collecting r (length (copyFuncs s)) None) w None fs es).
Proof.
  intros Hi. set (acts := match stdinPipeWriter s with Some _ => [PipeClosed] | None => [] end).
  assert (served acts = [] /\ copies acts = [] /\ quiet acts) as (Ha & Hb & Hq) by (unfold acts; destruct (stdinPipeWriter s); by repeat constructor).
  pose proof (inv_waiter _ _ Hi) as Hwt. cbn in Hwt.
  assert (w = None /\ r = fst (wait (served tr))) as [-> Hr] by (destruct w; [by destruct Hwt|split; [done|by apply Hwt]]).
  open_inv Hi; rewrite ?Ha, ?Hb, ?app_nil_r; try done.
  - by apply one_command_quiet.
  - intros Est. destruct (Hid Est). done.
  - destruct Hca as [->|(_ & Hn & _)]; [|done]. exists O. split; [done|]. split; [lia|]. done.
Qed.
(** Only the pipe changes. *)
Lemma inv_pump tr s p e c w x fs es :
  inv tr (mkState s c w x fs es) -> inv (tr ++ [PumpEnded e]) (mkState (set_pipe s p) c w x fs es).
Proof. intros Hi. open_inv Hi; [|by exists k]. apply one_command_quiet; [by repeat constructor|done]. Qed.
Lemma inv_collect tr s w x fs e es r n ce :
  inv tr (mkState s (Collecting r (S n) ce) w x fs (e :: es)) ->
  inv (tr ++ []) (mkState s (Collecting r n (match ce with Some _ => ce | None => e end)) w x fs es).
Proof.
  intros Hi. open_inv Hi; [intros Est; by destruct (Hid Est)|]. destruct Hca as (Hn & Hce & Hrest).
  assert (Hlook : copies tr !! k = Some e) by (rewrite <- (Nat.add_0_r k), <- lookup_drop, <- Hk; done).
  exists (S k). rewrite (drop_S _ _ _ Hlook) in Hk. injection Hk as Hk. split; [done|]. rewrite (take_S_r _ _ _ Hlook), first_error_snoc, <- Hce.
  apply lookup_lt_Some in Hlook. split; [lia|]. split; [lia|]. split; [by destruct ce|done].
Qed.
Lemma inv_ends tr s w x fs es r ce :
  inv tr (mkState s (Collecting r 0 ce) w x fs es) -> inv (tr ++ [Waited (wait_result r ce)]) (mkState s Idle w x fs es).
Proof.
  intros Hi. open_inv Hi.
  - apply one_command_quiet; [by repeat constructor|done].
  - intros Est. destruct (Hid Est). done.
  - destruct Hca as (Hn & _ & Hwn & Hx & _). exists k. split; [done|]. split; [done|]. right. split; [done|]. split; [done|]. lia.
Qed.
Lemma inv_copy tr s c w x l f l' es e :
  inv tr (mkState s c w x (l ++ f :: l') es) -> inv (tr ++ [CopyEnded f e]) (mkState s c w x (l ++ l') (es ++ [e])).
Proof.
  intros Hi. open_inv Hi.
  - apply one_command_quiet; [by repeat constructor|done].
  - rewrite !length_app in *. cbn [length] in *. lia.
  - exists k. rewrite length_app. cbn [length]. split; [by rewrite drop_app_le, Hk by done|]. split; [lia|].
    destruct c as [| |r n ce]; [done..|]. destruct Hca as (Hn & Hce & Hrest). split; [done|]. split; [|done]. by rewrite take_app_le.
Qed.
(** The waiting goroutine takes a step: no status has been taken yet. *)
Lemma inv_serve tr s c wm x fs es acts w' x' :
  inv tr (mkState s c (Some wm) x fs es) -> copies acts = [] -> quiet acts ->
  match w' with
  | Some wm' => wait_fold wait_start (served (tr ++ acts)) = Ok wm' /\ x' = None
  | None => x' = Some (fst (wait (served (tr ++ acts))))
  end -> inv (tr ++ acts) (mkState s c w' x' fs es).
Proof.
  intros [Hc [Hw Hx] [Hcp Hle] Hid (k & Hk & Hkl & Hca)] Hcs Hq Hnew. cbn [ses waiter exitStatus running errs caller_at] in *.
  split; cbn [ses waiter exitStatus running errs caller_at]; rewrite ?copies_app, ?Hcs, ?app_nil_r; try done.
  - by apply one_command_quiet.
  - destruct w'; [done|]. intros r Hr. congruence.
  - exists k. split; [done|]. split; [done|]. destruct c as [| |r0 n ce]; [destruct Hca as [->|(? & _)]; [by left|done]..|].
    by destruct Hca as (_ & _ & ? & _).
Qed.
Lemma session_step tr s acts s' : inv tr s -> step s acts s' -> inv (tr ++ acts) s'.
Proof.
  intros Hi Hs. destruct Hs as [s w x fs es i o e|s s' w x fs es Hp|s w x fs es r Hr|s w x fs es c reply e s' Hst|s w x fs es Hst|s w x fs es Hst
    |s w r fs es|s w x fs e es r n ce|s w x fs es r ce|s c w x fs es p e Hp Hpr|s c w x l f l' es e Hme|s c wm x fs es r wm' b Hr|s c wm x fs es r e Hr|s c wm x fs es].
  - eapply inv_frame; [exact Hi|done|done| |done|by apply Hi|done..]. apply one_command_quiet; [constructor|apply Hi].
  - destruct (pipe_fields _ _ Hp) as [Es Ec]. eapply inv_frame; [exact Hi|done|done| | | |done..]; cbn [ses].
    + rewrite Es. apply one_command_quiet; [constructor|apply Hi].
    + by rewrite Ec.
    + rewrite Es, Ec. by apply Hi.
  - eapply inv_frame; [exact Hi|done|done| |done|by apply Hi|done..]. apply one_command_quiet; [by repeat constructor|apply Hi].
  - by eapply session_started.
  - eapply inv_frame; [exact Hi|done|done| |done|by apply Hi|done..]. apply one_command_quiet; [by repeat constructor|apply Hi].
  - eapply inv_frame; [exact Hi|done|done| |done| |done..]; cbn [ses]; [apply one_command_quiet; [constructor|apply Hi]|by rewrite Hst].
  - by apply inv_status.
  - by apply inv_collect.
  - by apply inv_ends.
  - by apply inv_pump.
  - by apply inv_copy.
  - eapply inv_serve; [exact Hi|done|by repeat constructor|]. rewrite served_app. cbn [served omap list_omap].
    destruct (inv_waiter _ _ Hi) as [Hw Hx]. cbn in Hw, Hx. split; [|done]. by rewrite wait_fold_snoc, Hw, Hr.
  - eapply inv_serve; [exact Hi|done|by repeat constructor|]. rewrite served_app. cbn [served omap list_omap].
    destruct (inv_waiter _ _ Hi) as [Hw _]. cbn in Hw. unfold wait. by rewrite wait_loop_fold, wait_fold_snoc, Hw, Hr.
  - eapply inv_serve; [exact Hi|done|constructor|]. rewrite app_nil_r. destruct (inv_waiter _ _ Hi) as [Hw _]. cbn in Hw. unfold wait. by rewrite wait_loop_fold, Hw.
Qed.
Lemma session_inv tr s : exec tr s -> inv tr s.
Proof. induction 1; [apply session_first|by eapply session_step]. Qed.

(** *** The goroutine behind the pipe *)
Definition pumped (tr : list action) : list (option error) := omap (fun a => match a with PumpEnded e => Some e | _ => None end) tr.
Definition pumps (s : Session) : nat := match stdinPipeWriter s with Some (mkPipe true _) => 1 | _ => 0 end.
(** How many there are to be: one when standard input is copied from the reader of the user. *)
Definition piped (s : Session) : nat := length (filter (fun c => c = copyStdin true) (copyFuncs s)).
Record pump_inv (tr : list action) (s : state) : Prop := {
  pump_count : (length (pumped tr) + pumps (ses s) = piped (ses s))%nat;
  pump_pipe : stdinPipeWriter (ses s) <> None <-> piped (ses s) = 1%nat;
  pump_one : (piped (ses s) <= 1)%nat;
  pump_open : pumped tr <> [] \/ (exists r n ce, caller_at s = Collecting r n ce) ->
    forall p, stdinPipeWriter (ses s) = Some p -> pipe_closed p <> None }.
Lemma pumped_app a b : pumped (a ++ b) = pumped a ++ pumped b. Proof. apply omap_app. Qed.
(** Steps that leave the pipe alone. *)
Lemma pump_frame tr acts s s' :
  pump_inv tr s -> pumped acts = [] -> stdinPipeWriter (ses s') = stdinPipeWriter (ses s) -> copyFuncs (ses s') = copyFuncs (ses s) ->
  ((exists r n ce, caller_at s' = Collecting r n ce) -> exists r n ce, caller_at s = Collecting r n ce) -> pump_inv (tr ++ acts) s'.
Proof.
  intros [Hc Hp Ho Hop] Ha Ew Ec Hcall. split; rewrite ?pumped_app, ?Ha, ?app_nil_r; unfold pumps, piped in *; rewrite ?Ew, ?Ec; try done.
  intros [Hpd|Hcl]; apply Hop; [by left|right; by apply Hcall].
Qed.
Lemma start_piped s : copyFuncs s = [] -> stdinPipeWriter s = None ->
  pumps (session_start s) = piped (session_start s) /\ (piped (session_start s) <= 1)%nat /\
  (stdinPipeWriter (session_start s) <> None <-> piped (session_start s) = 1%nat).
Proof.
  destruct s as [i o e st cf pi po pe pw]. cbn [copyFuncs stdinPipeWriter]. intros -> ->.
  destruct i, o, e, pi, po, pe; (split; [reflexivity|split; [vm_compute; lia|by split; vm_compute; intros]]).
Qed.
Lemma pump_started tr s w x fs es c reply e s' fs' :
  inv tr (mkState s Idle w x fs es) -> pump_inv tr (mkState s Idle w x fs es) -> Start s c reply = (e, s') ->
  pump_inv (tr ++ (if started s then [] else Asked (command_request c) :: match e with None => [Accepted c] | Some _ => [] end))
    (mkState s' Idle w x fs' es).
Proof.
  intros Hi Hp Hst. unfold Start in Hst. destruct (started s) eqn:Es; [injection Hst as <- <-; by apply (pump_frame _ _ _ _ Hp)|].
  destruct (refused reply (command_failed c)); injection Hst as <- <-; [by apply (pump_frame _ _ _ _ Hp)|].
  destruct (inv_idle _ _ Hi Es) as [Hcf _]. destruct Hp as [Hc Hpp _ _]. cbn [ses] in *.
  assert (Hz : piped s = 0%nat) by (unfold piped; by rewrite Hcf).
  assert (Hn : stdinPipeWriter s = None) by (destruct (stdinPipeWriter s); [|done]; rewrite Hz in Hpp; by discriminate (proj1 Hpp)).
  assert (Hpd : pumped tr = []) by (apply nil_length_inv; lia).
  destruct (start_piped s Hcf Hn) as (Hp1 & Hp2 & Hp3). split; cbn [ses caller_at]; rewrite ?pumped_app, ?Hpd; cbn [app pumped omap list_omap length]; try done.
  intros [?|(? & ? & ? & ?)]; done.
Qed.
Lemma pump_step tr s acts s' : inv tr s -> pump_inv tr s -> step s acts s' -> pump_inv (tr ++ acts) s'.
Proof.
  intros Hi Hp Hs. destruct Hs as [| | |s w x fs es c reply e s' Hst| | |s w r fs es|s w x fs e es r n ce| |s c w x fs es p e Hw Hr| | | |];
    try (apply (pump_frame _ _ _ _ Hp); try done; by intros (? & ? & ? & ?)).
  - apply (pump_frame _ _ _ _ Hp); try done; cbn [ses]; destruct_or? H; subst; unfold StdinPipe, StdoutPipe, StderrPipe; repeat case_match; done.
  - by eapply pump_started.
  - destruct Hp as [Hc Hpp Ho Hop]. cbn [ses] in *. unfold pumps, piped in *.
    split; cbn [ses set_pipe stdinPipeWriter copyFuncs]; unfold pumps, piped; cbn [set_pipe stdinPipeWriter copyFuncs]; rewrite ?pumped_app;
      destruct (stdinPipeWriter s) as [[b cl]|]; cbn [pumped omap list_omap option_map close_pipe pumping pipe_closed]; rewrite ?app_nil_r; try done.
    + by rewrite <- Hpp.
    + intros _ p [= <-]. cbn [pipe_closed]. by destruct cl.
  - apply (pump_frame _ _ _ _ Hp); try done. intros _. by eexists _, _, _.
  - destruct Hp as [Hc Hpp Ho Hop]. cbn [ses] in *. unfold pumps, piped in *. rewrite Hw in *. destruct p as [b cl]. cbn [pumping] in Hr. subst b.
    split; cbn [ses set_pipe stdinPipeWriter copyFuncs]; unfold pumps, piped; cbn [set_pipe stdinPipeWriter copyFuncs pump_done];
      rewrite ?pumped_app, ?length_app; cbn [pumped omap list_omap length]; try done; [lia|by rewrite <- Hpp|].
    intros _ p [= <-]. cbn. by destruct cl.
Qed.
Lemma exec_pump tr s : exec tr s -> pump_inv tr s.
Proof.
  induction 1 as [|tr s acts s' Hx IH Hs]; [split; cbn; try done; lia|]. apply (pump_step _ s); [by apply session_inv|done|done].
Qed.

Lemma collect_all tr s w x fs es r ce :
  exec tr (mkState s (Collecting r (length es) ce) w x fs es) -> exists ce', exec tr (mkState s (Collecting r 0 ce') w x fs []).
Proof.
  revert ce. induction es as [|e es IH]; intros ce Hx; [by exists ce|]. eapply IH. rewrite <- (app_nil_r tr).
  eapply exec_step; [exact Hx|]. apply error_taken.
Qed.
(** Once the channel is closed and the copies have ended, [Wait] returns. *)
Lemma wait_returns tr s r :
  exec tr s -> caller_at s = AwaitStatus -> exitStatus s = Some r -> waiter s = None -> running s = [] ->
  exists tr' res s', exec (tr ++ tr' ++ [Waited res]) s' /\ caller_at s' = Idle.
Proof.
  intros Hx Hc He Hw Hr. pose proof (session_inv _ _ Hx) as [_ _ [Hcp _] _ (k & Hk & Hkl & Hca)]. destruct s as [s c w x fs es].
  cbn [ses caller_at waiter exitStatus running errs] in *. subst. destruct Hca as [->|(_ & ? & _)]; [|done].
  rewrite drop_0 in Hx. pose proof (exec_step _ _ _ _ Hx (status_taken s None r [] (copies tr))) as Hx1.
  cbn [length] in Hcp. rewrite Nat.add_0_r in Hcp. rewrite <- Hcp in Hx1. apply collect_all in Hx1 as (ce & Hx2).
  eexists _, _, _. rewrite app_assoc. split; [eapply exec_step; [exact Hx2|apply wait_ends]|done].
Qed.
Lemma first_error_None l : first_error l = None <-> Forall (eq None) l.
Proof.
  induction l as [|[e|] l IH]; [done| |].
  - split; [done|]. intros Hf. by apply Forall_cons in Hf as [? _].
  - cbn [first_error]. rewrite IH, Forall_cons. by split; [|intros [_ ?]].
Qed.
Lemma wait_result_None w e : wait_result w e = None <-> w = None /\ e = None.
Proof. destruct w, e; cbn; split; (done || by intros [? ?]). Qed.
Lemma one_command_count tr b : one_command tr b ->
  (length (accepted tr) <= 1)%nat /\ (b = true -> exists c, accepted tr = [c]) /\ forall pre c post, tr = pre ++ (Accepted c :: post) -> quiet post.
Proof.
  assert (Hq : forall l, quiet l -> accepted l = []) by (induction 1 as [|a l Ha _ IH]; [done|]; by destruct a).
  destruct b; cbn.
  - intros (pre & c & post & -> & Hp & Hpost). rewrite accepted_app, Hp. change (accepted (Accepted c :: post)) with (c :: accepted post). rewrite (Hq post Hpost).
    split; [done|]. split; [intros _; by exists c|]. intros pre' c' post' E.
    destruct (decide (length pre = length pre')) as [El|El].
    { apply app_inj_1 in E as [_ E]; [|done]. by injection E as _ <-. }
    exfalso. assert (Hc : length (accepted (pre ++ (Accepted c :: post))) = 1%nat).
    { rewrite accepted_app, Hp. change (accepted (Accepted c :: post)) with (c :: accepted post). by rewrite (Hq post Hpost). }
    assert (length pre < length pre' \/ length pre' < length pre)%nat as [Hlt|Hlt] by lia.
    + assert (Hin : Accepted c' ∈ post).
      { pose proof (f_equal (lookup (length pre')) E) as Hl. rewrite (lookup_app_r pre') in Hl by lia. rewrite Nat.sub_diag in Hl. cbn in Hl.
        rewrite lookup_app_r in Hl by lia. destruct (length pre' - length pre)%nat eqn:Ed; [lia|]. cbn in Hl. by eapply list_elem_of_lookup_2. }
      unfold quiet in Hpost. rewrite Forall_forall in Hpost. by apply Hpost in Hin.
    + assert (Hin : Accepted c' ∈ pre).
      { pose proof (f_equal (lookup (length pre')) E) as Hl. rewrite (lookup_app_r pre') in Hl by lia. rewrite Nat.sub_diag in Hl. cbn in Hl.
        rewrite lookup_app_l in Hl by lia. by eapply list_elem_of_lookup_2. }
      assert (c' ∈ accepted pre) by (apply list_elem_of_omap; by exists (Accepted c')). rewrite Hp in *. by eapply not_elem_of_nil.
  - intros Ha. rewrite Ha. split; [cbn; lia|]. split; [done|]. intros pre c post ->. rewrite accepted_app in Ha. by apply app_nil in Ha as [_ ?].
Qed.

Lemma waited_shape s acts s' r : step s acts s' -> acts = [Waited r] -> started (ses s) = true ->
  exists r0 ce, caller_at s = Collecting r0 0 ce /\ r = wait_result r0 ce.
Proof.
  intros Hs. destruct Hs as [| | |s w x fs es c reply e s' Hst|s w x fs es Hn| |s w r0 fs es| |s w x fs es r0 ce| | | | |]; intros E Hstd; cbn [ses] in *; try done.
  - by rewrite Hstd in E.
  - congruence.
  - by destruct (stdinPipeWriter s).
  - injection E as <-. by exists r0, ce.
Qed.

(** C30. In every interleaving of the calls of a session, its copies and the requests of the
    server: the server accepts at most one command, and nothing is started afterwards; the
    copies that [Wait] collects, those that run and those that have ended, add up to at most
    three.  Besides them there is one goroutine that reads [Stdin] into a pipe when standard
    input is copied from it, and none otherwise.  When [Wait] on a started session returns,
    every copy has ended and its error was collected, and the pipe is closed, but the
    goroutine behind the pipe may still be running; [Wait] returns the error of the command, else the first copy error, and no error exactly
    when all requests of the server were well-formed, the last exit status was 0 and no
    copy failed.  Once the server has closed the channel and the copies have ended, the
    call returns. *)
Theorem session_lifecycle tr s :
  exec tr s ->
  (length (accepted tr) <= 1)%nat /\ (forall pre c post, tr = pre ++ (Accepted c :: post) -> quiet post) /\
  (length (copies tr) + length (running s) = length (copyFuncs (ses s)) /\ length (copyFuncs (ses s)) <= 3)%nat /\
  (length (pumped tr) + pumps (ses s) = piped (ses s) /\ piped (ses s) <= 1)%nat /\
  (forall r s', step s [Waited r] s' -> started (ses s) = true ->
     running s = [] /\ errs s = [] /\ (forall p, stdinPipeWriter (ses s) = Some p -> pipe_closed p <> None) /\ (exists c, accepted tr = [c]) /\
     r = wait_result (fst (wait (served tr))) (first_error (copies tr)) /\
     (r = None <-> Forall well_formed (served tr) /\ last (omap status_of (served tr)) = Some 0 /\ Forall (eq None) (copies tr))) /\
  (forall r, caller_at s = AwaitStatus -> exitStatus s = Some r -> waiter s = None -> running s = [] ->
     exists tr' res s', exec (tr ++ tr' ++ [Waited res]) s' /\ caller_at s' = Idle).
Proof.
  intros Hx. pose proof (session_inv _ _ Hx) as Hi. destruct (one_command_count _ _ (inv_commands _ _ Hi)) as (Hc1 & Hc2 & Hc3).
  split; [done|]. split; [done|]. split; [apply Hi|].
  pose proof (exec_pump _ _ Hx) as [Hpc _ Hpo Hop]. split; [done|]. split; [|intros r ? ? ? ?; by eapply wait_returns].
  intros r s' Hs Hst. pose proof (waited_shape _ _ _ r Hs eq_refl Hst) as Hshape.
  destruct Hshape as (r0 & ce & Ec & ->). destruct Hi as [_ _ [Hcp _] _ (k & Hk & Hkl & Hca)].
  rewrite Ec in Hca. destruct Hca as (Hn & Hce & _ & _ & Hr). rewrite Nat.add_0_r in Hn.
  assert (running s = [] /\ k = length (copies tr)) as [Hrun ->] by (split; [apply nil_length_inv|]; lia).
  rewrite drop_all in Hk. rewrite take_ge in Hce by done. split; [done|]. split; [done|].
  split; [apply Hop; right; by eexists _, _, _|]. split; [by apply Hc2|]. subst r0 ce. split; [done|].
  rewrite wait_result_None, wait_success, first_error_None. tauto.
Qed.

(** A command is accepted and reports success. *)
Definition sample_requests : list Request :=
  [mkRequest (go "keepalive@openssh.com") true []; mkRequest (go "exit-status") false (be_bytes 4 0)].
Example sample_wait : wait sample_requests = (None, [mkRequest (go "keepalive@openssh.com") true []]).
Proof. reflexivity. Qed.
(** A user who sets [Stdin] and runs a command. *)
Definition sample_started : Session := session_start (with_streams newSession true false false).
Definition sample_waited : Session := set_pipe sample_started (Some (mkPipe true (Some None))).
Definition sample_trace : list action :=
  [Asked (exec_request (go "true")); Accepted (Exec (go "true")); Served (mkRequest (go "exit-status") false (be_bytes 4 0)) false; PipeClosed;
   CopyEnded (copyStdin true) None; CopyEnded (copyStdout false) None; CopyEnded (copyStderr false) None].
Lemma session_exec_to tr s acts s' tr' : exec tr s -> step s acts s' -> tr' = tr ++ acts -> exec tr' s'.
Proof. intros Hx Hs ->. by eapply exec_step. Qed.
(** The command has ended, [Wait] is about to return, and the reader of the user is still read. *)
Lemma pump_outlives_wait :
  exec sample_trace (mkState sample_waited (Collecting None 0 None) None None [] []) /\ pumps sample_waited = 1%nat.
Proof.
  split; [|reflexivity].
  eapply (session_exec_to sample_trace); [|exact (error_taken sample_waited None None [] None [] None 0 None)|reflexivity].
  eapply (session_exec_to sample_trace); [|exact (error_taken sample_waited None None [] None [None] None 1 None)|reflexivity].
  eapply (session_exec_to sample_trace); [|exact (error_taken sample_waited None None [] None [None; None] None 2 None)|reflexivity].
  eapply (session_exec_to (take 6 sample_trace)); [|by apply (copy_ends _ _ _ _ [] (copyStderr false) [] [None; None] None)|reflexivity].
  eapply (session_exec_to (take 5 sample_trace)); [|by apply (copy_ends _ _ _ _ [] (copyStdout false) _ [None] None)|reflexivity].
  eapply (session_exec_to (take 4 sample_trace)); [|apply (copy_ends _ _ _ _ [] (copyStdin true) _ [] None); by eexists|reflexivity].
  eapply (session_exec_to (take 3 sample_trace)); [|exact (status_taken sample_started None None _ [])|reflexivity].
  eapply (session_exec_to (take 3 sample_trace)); [|exact (channel_closed _ _ (mkWait 0 [] [] []) None _ _)|reflexivity].
  eapply (session_exec_to (take 2 sample_trace)); 
    [|by apply (request_served _ _ wait_start None _ _ (mkRequest (go "exit-status") false (be_bytes 4 0)) (mkWait 0 [] [] []) false)|reflexivity].
  eapply (session_exec_to (take 2 sample_trace)); [|by apply wait_begins|reflexivity].
  eapply (session_exec_to []); [|by eapply (call_start (with_streams newSession true false false) (Some wait_start) None [] [] (Exec (go "true")) (Ok true) None)|reflexivity].
  eapply (session_exec_to []); [apply exec_start|apply set_streams|reflexivity].
Qed.
Lemma session_lifecycle_witness :
  exec sample_trace (mkState sample_waited (Collecting None 0 None) None None [] []) /\
  accepted sample_trace = [Exec (go "true")] /\ Forall (eq None) (copies sample_trace).
Proof.
  split; [exact (proj1 pump_outlives_wait)|]. split; [reflexivity|].
  destruct (session_lifecycle _ _ (proj1 pump_outlives_wait)) as (_ & _ & _ & _ & Hw & _).
  destruct (Hw _ _ (wait_ends sample_waited None None [] [] None None) eq_refl) as (_ & _ & _ & _ & _ & Hiff). apply Hiff. reflexivity.
Defined.
